(* ===== verification/_CoqProject ===== *)
-Q . S2P
Prelude.v
Commands.v
U256.v
Reservation.v
LedgerEngine.v
LedgerInvariant.v
LedgerProperties.v
LedgerStore.v
LedgerService.v
LedgerHolds.v
Ratio.v
CurveDecode.v
Curves.v
CurveProperties.v
Registry.v
RegistrySync.v
Candidates.v
Waterfill.v
WaterfillProperties.v
Routing.v
Frontier.v
Assets.v
Depth.v
Quote.v
History.v
Maker.v
RebatePolicy.v
RebateStore.v
RebateSqlite.v
RebateSqliteProperties.v
RebateSqliteRefines.v
RebateCall.v
RebateService.v
Market.v
PriceHistory.v
RebateServiceInvariant.v
RebateServiceSteps.v
RebateServiceClosing.v
RebateServiceEvaluate.v
RebateSharedLedger.v
RebateRecovery.v
RebateWorker.v
RebateSystem.v
RebateDemo.v
RebateSystemProperties.v
Intent.v
Trade.v
TradeSqlite.v
TradeSqliteProperties.v
Fills.v
Metrics.v
Pools.v
TradeViews.v
ChainSource.v
Settling.v
Swap.v
SwapInvariant.v
SwapSteps.v
SwapSettling.v
SwapProperties.v
SwapDemo.v
CrossChain.v
CrossStores.v
CrossProxy.v
CrossProxyInvariant.v
CrossProxySteps.v
CrossProxyProperties.v
CrossLocal.v
CrossLocalSteps.v
CrossLocalRemote.v
CrossSystem.v
CrossDemo.v
CrossCalls.v
CrossSettlement.v
CrossAuthor.v
CrossCallsDemo.v
Cctp.v
OrderIntake.v
FillBuilders.v
PublicFeed.v
