(* ===== verification/Prelude.v ===== *)
(** * Solvent, verified

    Solvent is a market-making back end: makers ship pricing strategies on chain, the back
    end folds their events into a registry, prices them, routes a taker's request over
    several of them, promises the makers' capital to it in a ledger, sends the fill and
    settles what was mined.  Around that core sit a rebate service that restores displaced
    strategies and a proxy that coordinates an order over two chains.  This library models the
    core crate ([src/crates/core]) with the stores, executors, order protocols, call builders and
    chain readers it runs on ([src/crates/adapters]), and proves what makes each part and their
    composition correct.

    ** The program's parts and how they interact

    - The _ledger_ holds every maker's capital under two ceilings, the wallet budget shared by
      a maker's strategies and the strategy's own virtual balance, and moves reservations
      through pending, committed, posted, voided, expired and reorg-open.  Its service writes
      each change to a durable store, applies it to the engine, and publishes what is
      available to the quote path.  The swap, rebate and cross-chain services share it.
    - The _registry_ folds chain events into strategies and an index by token pair.  A sync
      loop feeds it from a durable event log.
    - _Pricing_ decodes a strategy's program into a curve with stacked fees and quotes it.
    - _Routing_ reads one frozen registry snapshot, the ledger's published availability and
      the set of guarded strategies, ranks candidates, splits the request across them at a
      common marginal price, and gates the result on the taker's bound.
    - _Orders_ arrive from several feeds, are filtered and deduplicated, and each is handed to
      the _swap service_, which routes it, records a trade, reserves the plan and sends the
      fill.  The _execution_ and _reconcile_ services follow what was sent, post or void its
      hold and settle its trade.
    - The _rebate_ policy decides whether a strategy displaced from the market keeps quoting,
      is guarded, or funds a restoration whose surplus is shared with its maker; its service
      and worker keep one batch per strategy with its inventory held in the ledger.
    - The _cross-chain proxy_ keeps one saga per order and drives two _chain services_ through
      preparing, committing, executing or releasing a leg each, over a private interface whose
      requests and answers may be lost.  The calls of the two chains are written from the
      sponsor's signed order and checked against it before anything is staged; repayment goes
      directly or over Circle's _CCTP_.
    - The _chain readers_ supply the events and the budgets; the _market cache_ and the charts
      read an exchange; the _order protocols_ (UniswapX, ERC-7683) turn signed orders into
      intents and plans into fill calls.
    - The _read services_ show the system to its users: quotes, depth, pools, a maker's
      positions, price histories, trades and metrics.

    ** Files

    A file holds a component's data and operations first and its theorems after them; the larger
    components have further files for their invariants and properties.

    - [Prelude]: results, commands on mutable state, ordered iteration of maps, sums, loops.
      [Commands]: commands on part of a state, the rules for every outcome of a command, and the
      account of which commands of a run met a failing statement.
      [U256]: word arithmetic, checked, saturating and wrapping, and the bytes that are hashed.
    - [Reservation], [LedgerEngine]: [primitives/ledger/{account,reservation,engine}.rs].  A
      [Ledger] is its four maps; each method is one definition returning the result and the
      ledger it leaves.  [LedgerInvariant]: the invariant and its preservation by every
      command; [LedgerProperties]: the engine's theorems.
    - [LedgerStore]: the store port ([deps/ledger/store.rs]) as a class with laws, and
      [adapters/ledger/sqlite_store.rs] as the instance that meets them.
      [LedgerService]: [ledger/service.rs] over any lawful store.  [LedgerHolds]: what a client
      of the shared ledger may rely on, in memory and across restarts.
    - [Ratio]: [primitives/pricing.rs], its decimal rendering too.  [CurveDecode]:
      [primitives/registry/curve.rs] and its theorems.  [Curves], [CurveProperties]:
      [registry/curves.rs].
    - [Registry]: [primitives/registry/{event,strategy,snapshot}.rs], [registry/pricing.rs] and
      the account enumeration of [ledger/service.rs].  [RegistrySync]: [registry/sync.rs] over
      the event log of [adapters/registry/sqlite_store.rs].
    - [Candidates]: [routing/candidates.rs], [routing/guard.rs], and the contract ([pool_laws])
      that pricing offers routing.  [Waterfill], [WaterfillProperties], [Frontier]:
      [routing/waterfill.rs], its solver and its price frontier.  [Routing]:
      [routing/service.rs].
    - [Assets]: [asset/service.rs], [valuation/service.rs].  [Depth]: [pool/depth.rs].
      [Quote]: [quote/service.rs].  [History]: [maker/history.rs] and the block times of
      [adapters/registry].  [Maker]: [maker/service.rs].  [Market]: [adapters/routing/mod.rs],
      [routing/leg_cost.rs].  [PriceHistory]: [adapters/routing/history.rs],
      [asset/history.rs].
    - [ChainSource]: [adapters/events/indexer.rs], the event sources of the registry and the
      rebates, [adapters/ledger/alloy_budget.rs], [adapters/balances.rs].
    - [RebatePolicy]: [rebate/policy.rs], [primitives/rebate.rs].  [RebateStore],
      [RebateSqlite], [RebateSqliteProperties]: the port [deps/rebate] and its SQLite
      implementation, which meets the port's laws; [RebateSqliteRefines]: the same store as an
      exact implementation of operations on finite maps.  [RebateCall]:
      [adapters/rebate/call_builder.rs].  [RebateService] and [RebateService{Invariant, Steps,
      Closing, Evaluate}], [RebateSharedLedger], [RebateRecovery]: [rebate/service.rs].
      [RebateWorker]: [rebate/worker.rs].  [RebateSystem], [RebateDemo],
      [RebateSystemProperties]: all of it as one transition system.
    - [Intent]: [primitives/ingest], [ingest].  [Trade], [TradeSqlite],
      [TradeSqliteProperties]: [primitives/trade.rs], [deps/trade.rs],
      [adapters/trade/sqlite_store.rs].  [Fills]: [primitives/execution/fill.rs], the fill
      store, the executor and the settlement reader of [adapters/execution].  [Settling]:
      [execution/service.rs], [reconcile/service.rs].  [Swap]: [swap/service.rs].
      [SwapInvariant], [SwapSteps], [SwapSettling]: the invariant of the pipeline through each
      of them.  [SwapProperties], [SwapDemo]: the transition system with its theorems, and a
      concrete deployment.
    - [OrderIntake]: [adapters/ingest/{uniswapx,erc7683}].  [FillBuilders]:
      [adapters/ingest/{aqua,fill}.rs] and [adapters/execution/filler.rs].  [PublicFeed]: the
      public order book's simulation and its store.
    - [Metrics]: [adapters/metrics].  [Pools]: [pool/service.rs], [balances.rs].  [TradeViews]:
      [trade/service.rs] and the counts of the trade store.
    - [CrossChain]: [primitives/crosschain.rs] and the fingerprints.  [CrossStores]: the stores
      of [deps/crosschain] and [adapters/crosschain/sqlite.rs].  [CrossProxy]:
      [crosschain/proxy.rs] against the class [RemoteSolvent]; [CrossProxy{Invariant, Steps,
      Properties}]: its theorems against the laws of that class.  [CrossLocal]:
      [crosschain/local.rs], [crosschain/steps.rs], [adapters/crosschain/{quote,client}.rs] and
      the private HTTP handlers; [CrossLocal{Steps, Remote}]: that they meet the laws.
      [CrossSystem]: proxy and services together.  [CrossDemo]: a concrete deployment.
    - [CrossCalls]: the calls and checks of [adapters/crosschain/validation.rs].
      [CrossSettlement]: what staged calls are bound to.  [CrossAuthor]:
      [adapters/crosschain/{draft,direct}.rs], and that authored calls pass.  [CrossCallsDemo]:
      one order through all of it.  [Cctp]: [adapters/crosschain/cctp.rs].

    ** What the theorems show

    - Ledger.  [ledger_never_over_promises]: along every command sequence the recorded holds are
      exactly the sums of the open reservations and no account is promised beyond its budget.
      [reserve_admission]: admission accepts exactly what fits.  [reorg_compensates_post],
      [lifecycle_is_one_way].  [memory_and_store_agree], [recovery_rebuilds_the_holds]: whatever
      statement fails, memory and store agree and a restart rebuilds the same holds, as long as the
      amounts posted fit the holds; [refused_post_is_persisted] shows what happens otherwise.
    - Decoding and pricing.  [walk_inverts_encoding], [classify_prices_only_valid_programs];
      [xyc_exact_out_inverts], [xyc_limit_fill_is_exact], [numerical_fill_is_total],
      [quotes_stay_within_reserves].
    - Registry.  [pair_index_is_exact], [strategy_folds_its_own_events],
      [snapshot_is_the_log_replayed].  [indexer_reads_the_chain], [bulk_budgets_agree]: the
      chain readers deliver the chain whole and in order, and budgets read together are those
      read alone.
    - Routing.  [solved_split_is_priced], [exact_out_delivers_the_request],
      [route_plan_is_sound]: splits are priced by their own venues, stay within the frozen
      ceilings and account for profit and gas to the unit.  [quoted_order_clears]: an order
      signed from a quote can be filled.  [depth_shows_executable_liquidity].
      [market_is_never_crossed]: what routing and rebates know of prices.
    - Swaps.  [pipeline_admits_live_orders_once], [orders_are_sent_once],
      [fills_in_flight_stay_backed], [submission_reserves_and_sends_once],
      [tick_settles_what_ended], [trades_only_move_forward].  [sqlite_trade_store_refines]: the
      trade store answers every operation as the abstract one does, and a failing statement makes
      that operation fail and change nothing.
      [cosigned_orders_are_as_signed], [erc7683_orders_pay_the_policy_fee],
      [fills_are_authorized_leg_by_leg]: orders are read and filled on the terms that were
      signed.  [first_simulation_is_kept] of the public feed.
    - Rebates.  [rebate_is_fully_shared], [ready_plan_pays_everyone] of the policy;
      [rebate_inventory_is_accounted], [legs_are_rebated_once],
      [settlement_spends_the_signed_plan], [published_work_is_held_and_signed],
      [rebate_recovery_completes], [worker_tick_ends], [durable_batches_validate] of every run;
      [sqlite_rebate_store_refines] of the store, answers included.  A plan that asks for no input,
      which the rounding of a pegged curve does not rule out, would be prepared and made durable,
      since only the call builder refuses it; it never becomes ready, and recovery refuses it ([durable_batches_validate],
      [rebate_recovery_completes]).
    - Cross-chain.  [saga_is_all_or_nothing], [saga_outcome_is_final] of the proxy against any
      lawful services; [ledgers_follow_the_saga] of the proxy over the services as they are:
      a completed order's holds were posted for all that they held.
      [staged_delivery_is_proved], [both_chains_settle_one_order], [signed_orders_settle]: the
      calls staged on the two chains are those of one signed order, and the calls authored for
      it are accepted.  [cctp_repayment_is_bound], [cctp_terms_cover_the_bridge],
      [circle_numbers_are_exact].
    - Views.  [history_is_the_price_over_time], [charted_prices_are_market_prices],
      [inventory_accounts_every_commitment], [backed_positions_are_covered],
      [pool_card_matches_its_roster], [maker_feed_totals_its_legs],
      [activity_accounts_every_fill], [rendered_price_is_faithful], [pairs_are_offered_once].
    - Behaviours to fix.  [refused_post_is_persisted]: a posting the engine refuses is already
      durable.  [settled_leg_wedges_delivery]: a delivery whose answer is lost and whose fill
      settles meanwhile can never be repeated.  [SwapDemo] and [CrossDemo] evaluate the others
      on concrete deployments.

    ** Conventions, failures, bounds and fuel

    Words are integers with every overflow written out.  Addresses, hashes and ids are
    integers compared by value.  A [BTreeMap] is a finite map iterated in key order; a JSON or
    text column holds the value it encodes.

    A command takes a state and returns a result with the state it leaves, so an early return
    keeps what was already written.  Each database statement takes its outcome from a list of
    answers, and so does each call to another process; a theorem that quantifies over the
    answers covers every failure.  Methods that run under a lock, requests of the private
    interface and ticks of a worker are single steps; a crash may fall between two of them and,
    by failing the rest of the statements, inside one.  Two calls that the code awaits together
    both run, and which of two errors is reported is not distinguished.  A submission to the swap
    service is a single step too, although it takes no lock of its own.  An order is timed when
    the pipeline processes it; a send that waits for room in the bounded channel after that is not
    timed apart.

    Loops with a bound in the source keep it ([MAX_ITERS] = 128).  The others carry fuel that is
    proved enough: bisection over a word halves its bracket, so 256 rounds close it
    ([BISECTION_FUEL]); the top-up loop spends a unit of a word each round ([TOPUP_FUEL] =
    2^256); the walker consumes its program, so the program's length is enough; the sparsity
    pass removes a candidate each round, so their number is enough; the search for a window's
    edge and the split of a batch over a list use the list's length.  At most 16 pages of candles
    are read, as in the source, and a refill runs once for each missing batch of makers.

    Parameters: the ABI codec, the hash, the signature scheme, the wallet and its receipts, the
    clocks, on-chain budgets and the chain sources, the gas cost of a leg, the routes, the plan
    author, the step validator and the fee outbox of a chain service, and the answers of CCTP.
    So are the node's, the exchange's and Circle's answers to the readers, the random generator of
    the public feed, and the floating-point and decimal libraries, which are classes of operations
    with the documented laws a theorem relies on.
    Hypotheses, each where it is used: hashes of the ids in play are distinct; a receipt reports
    amounts that fit the hold; other clients of a ledger do not use the tokens of cross-chain
    preparations; the chain does not reorganise below the safe head; a codec reads back what it
    wrote; a node asked for a range answers with all the logs of that range or fails
    ([omitted_event_folds_late] shows the registry under a node that leaves one out).

    ** Not modelled

    Async scheduling beyond the serialisation that the locks give, and so two requests that
    advance one cross-chain order, or two submissions of one swap, at the same time, since the
    source fixes no order for them.  The swap and the cross-chain services in one run: both mark
    their holds as a swap's and share the executor, and the runs of the swap service have no other
    swap holds than its own and no other client of the executor.
    HTTP handlers other than the private cross-chain interface, the sockets and RPC transports
    and the caches in front of readers: they carry values and decide nothing about them.  Signing
    keys and the cryptography behind them.  The demonstration feed that makes up orders, the
    binaries, their configuration and the local devnet, which only wire the parts.  Cross-chain
    rows written before the binding column existed.  The contracts, the front end and the
    SDKs. *)

From stdpp Require Export base option list sorting gmap fin_maps.
From Stdlib Require Export ZArith Lia.

#[global] Open Scope Z_scope.

(** ** Fallible computations

    [result E A] is Rust's [Result<A, E>]; [?] is the bind of stdpp's
    [x ← m; k] notation, which the same files also use for [Option]. *)

Inductive result (E A : Type) : Type :=
| Ok (a : A)
| Err (e : E).
Arguments Ok {E A} a.
Arguments Err {E A} e.

#[global] Instance result_ret E : MRet (result E) := λ A a, Ok a.
#[global] Instance result_bind E : MBind (result E) :=
  λ A B f m, match m with Ok a => f a | Err e => Err e end.
#[global] Instance result_fmap E : FMap (result E) :=
  λ A B f m, match m with Ok a => Ok (f a) | Err e => Err e end.

Definition ok_or {E A} (o : option A) (e : E) : result E A :=
  match o with Some a => Ok a | None => Err e end.

Definition ok {E A} (r : result E A) : option A :=
  match r with Ok a => Some a | Err _ => None end.

Definition is_ok {E A} (r : result E A) : bool :=
  match r with Ok _ => true | Err _ => false end.

Definition unwrap_or {E A} (r : result E A) (d : A) : A :=
  match r with Ok a => a | Err _ => d end.

Definition map_err {E F A} (f : E → F) (r : result E A) : result F A :=
  match r with Ok a => Ok a | Err e => Err (f e) end.

(** [Iterator::try_fold] over [Result] and over [Option]. *)
Fixpoint try_fold {A B E} (f : B → A → result E B) (acc : B) (l : list A) : result E B :=
  match l with
  | [] => Ok acc
  | x :: l' => acc' ← f acc x; try_fold f acc' l'
  end.

Fixpoint try_fold_opt {A B} (f : B → A → option B) (acc : B) (l : list A) : option B :=
  match l with
  | [] => Some acc
  | x :: l' => acc' ← f acc x; try_fold_opt f acc' l'
  end.

(** ** Commands on a mutable state

    A method taking [&mut self] and returning a [Result] runs on the state and
    returns both the result and the state it leaves, on success and on failure
    alike: an early return does not undo what was already written. *)

Definition cmd (S E A : Type) : Type := S → result E A * S.

#[global] Instance cmd_ret S E : MRet (cmd S E) := λ A a s, (Ok a, s).
#[global] Instance cmd_bind S E : MBind (cmd S E) :=
  λ A B f m s, match m s with
               | (Ok a, s') => f a s'
               | (Err e, s') => (Err e, s')
               end.

Definition fail {S E A} (e : E) : cmd S E A := λ s, (Err e, s).
Definition gets {S E A} (f : S → A) : cmd S E A := λ s, (Ok (f s), s).
Definition modify {S E} (f : S → S) : cmd S E unit := λ s, (Ok tt, f s).
Definition lift {S E A} (r : result E A) : cmd S E A := λ s, (r, s).

(** ** Key order

    A [BTreeMap]/[BTreeSet] is a finite map iterated in key order.  Every key of
    the program is a fixed-width integer, a newtype over one, or a type whose
    [Ord] is derived: the lexicographic order of its discriminant and fields.
    [ord_key] lists those integers, and [lex_le] compares the lists. *)

Fixpoint lex_le (a b : list Z) : bool :=
  match a, b with
  | [], _ => true
  | _ :: _, [] => false
  | x :: a', y :: b' => (x <? y) || ((x =? y) && lex_le a' b')
  end.

Class OrdKey (A : Type) := {
  ord_key : A → list Z;
  ord_key_inj : ∀ a b, ord_key a = ord_key b → a = b
}.

#[global] Program Instance OrdKey_Z : OrdKey Z := {| ord_key z := [z] |}.
Next Obligation. congruence. Qed.

Definition key_leb {A} `{OrdKey A} (a b : A) : bool := lex_le (ord_key a) (ord_key b).
Definition key_ltb {A} `{OrdKey A} (a b : A) : bool := negb (key_leb b a).
Definition key_le {A} `{OrdKey A} (a b : A) : Prop := key_leb a b = true.

#[global] Instance key_le_dec {A} `{OrdKey A} : RelDecision key_le.
Proof. intros a b. unfold key_le. apply _. Defined.

Definition entry_le {K V} `{OrdKey K} (p q : K * V) : Prop := key_le p.1 q.1.

#[global] Instance entry_le_dec {K V} `{OrdKey K} : RelDecision (@entry_le K V _).
Proof. intros a b. unfold entry_le. apply _. Defined.

(** A map's entries, keys and values in key order: [iter()], [keys()], [values()]. *)
Definition entries {K V} `{Countable K} `{OrdKey K} (m : gmap K V) : list (K * V) :=
  merge_sort entry_le (map_to_list m).
Definition keys {K V} `{Countable K} `{OrdKey K} (m : gmap K V) : list K := (entries m).*1.
Definition values {K V} `{Countable K} `{OrdKey K} (m : gmap K V) : list V := (entries m).*2.
Definition set_iter {K} `{Countable K} `{OrdKey K} (s : gset K) : list K :=
  merge_sort key_le (elements s).

(** [*map.entry(k).or_insert(d)] followed by an in-place update, and the value
    that [entry(k).or_insert(d)] reads. *)
Definition cell {K V} `{Countable K} (d : V) (m : gmap K V) (k : K) : V := default d (m !! k).
Definition entry_update {K V} `{Countable K} (d : V) (f : V → V) (m : gmap K V) (k : K) : gmap K V :=
  <[k := f (cell d m k)]> m.

(** ** Sums of integers over lists and maps *)

Definition zsum {A} (f : A → Z) (l : list A) : Z := foldr (λ a acc, f a + acc) 0 l.

Definition map_sum {K V} `{Countable K} (f : K → V → Z) (m : gmap K V) : Z :=
  map_fold (λ k v acc, f k v + acc) 0 m.

(** [Iterator::max_by_key]: the last of the maxima. *)
Definition max_by_key {A} (f : A → Z) (l : list A) : option A :=
  foldl (λ best x, match best with
                   | None => Some x
                   | Some b => if f b <=? f x then Some x else Some b
                   end) None l.

(** ** Lemmas *)

Lemma bind_Ok {E A B} (r : result E A) (f : A → result E B) b :
  (r ≫= f) = Ok b ↔ ∃ a, r = Ok a ∧ f a = Ok b.
Proof. destruct r; cbn; split; naive_solver. Qed.

Lemma ok_or_Ok {E A} (o : option A) (e : E) a : ok_or o e = Ok a ↔ o = Some a.
Proof. destruct o; cbn; split; naive_solver. Qed.

Lemma ok_Some {E A} (r : result E A) a : ok r = Some a ↔ r = Ok a.
Proof. destruct r; cbn; split; naive_solver. Qed.

Lemma is_ok_true {E A} (r : result E A) : is_ok r = true ↔ ∃ a, r = Ok a.
Proof. destruct r; cbn; split; naive_solver. Qed.

Lemma try_fold_app {A B E} (f : B → A → result E B) acc l k :
  try_fold f acc (l ++ k) = (acc' ← try_fold f acc l; try_fold f acc' k).
Proof. revert acc. induction l as [|x l IH]; intros acc; cbn; [done|]. destruct (f acc x); cbn; auto. Qed.

Lemma lex_le_refl a : lex_le a a = true.
Proof. induction a as [|x a IH]; cbn; [done|]. rewrite Z.eqb_refl, IH. lia. Qed.

Lemma lex_le_trans a b c : lex_le a b = true → lex_le b c = true → lex_le a c = true.
Proof.
  revert b c. induction a as [|x a IH]; intros [|y b] [|z c]; cbn; try done.
  rewrite !orb_true_iff, !andb_true_iff, !Z.ltb_lt, !Z.eqb_eq.
  intros [?|[-> ?]] [?|[-> ?]]; try (left; lia). right. eauto.
Qed.

Lemma lex_le_antisym a b : lex_le a b = true → lex_le b a = true → a = b.
Proof.
  revert b. induction a as [|x a IH]; intros [|y b]; cbn; try done.
  rewrite !orb_true_iff, !andb_true_iff, !Z.ltb_lt, !Z.eqb_eq.
  intros [?|[-> ?]] [?|[? ?]]; try lia. f_equal. eauto.
Qed.

Lemma lex_le_total a b : lex_le a b = true ∨ lex_le b a = true.
Proof.
  revert b. induction a as [|x a IH]; intros [|y b]; cbn; auto.
  rewrite !orb_true_iff, !andb_true_iff, !Z.ltb_lt, !Z.eqb_eq.
  destruct (Z.lt_trichotomy x y) as [?|[->|?]]; auto.
  destruct (IH b); auto.
Qed.

Section key_order.
Context {K : Type} `{OrdKey K}.

#[global] Instance key_le_refl : Reflexive (@key_le K _).
Proof. intros x. apply lex_le_refl. Qed.

#[global] Instance key_le_trans : Transitive (@key_le K _).
Proof. intros x y z. apply lex_le_trans. Qed.

#[global] Instance key_le_antisym : AntiSymm (=) (@key_le K _).
Proof. intros x y ??. by apply ord_key_inj, lex_le_antisym. Qed.

#[global] Instance key_le_total : Total (@key_le K _).
Proof. intros x y. apply lex_le_total. Qed.

End key_order.

Section map_iteration.
Context {K V : Type} `{Countable K} `{OrdKey K}.
Implicit Types m : gmap K V.

Lemma entries_perm m : entries m ≡ₚ map_to_list m.
Proof. apply merge_sort_Permutation. Qed.

Lemma elem_of_entries m k v : (k, v) ∈ entries m ↔ m !! k = Some v.
Proof. rewrite entries_perm. apply elem_of_map_to_list. Qed.

Lemma NoDup_keys m : NoDup (keys m).
Proof. unfold keys. rewrite entries_perm. apply NoDup_fst_map_to_list. Qed.

Lemma elem_of_values m v : v ∈ values m ↔ ∃ k, m !! k = Some v.
Proof.
  unfold values. rewrite list_elem_of_fmap. split.
  - intros [[k v'] [-> Hin]]. exists k. by apply elem_of_entries.
  - intros [k Hk]. exists (k, v). split; [done|]. by apply elem_of_entries.
Qed.

Lemma elem_of_keys m k : k ∈ keys m ↔ is_Some (m !! k).
Proof.
  unfold keys. rewrite list_elem_of_fmap. split.
  - intros [[k' v'] [-> Hin]]. exists v'. by apply elem_of_entries.
  - intros [v Hk]. exists (k, v). split; [done|]. by apply elem_of_entries.
Qed.

End map_iteration.

Section entry_updates.
Context {K V : Type} `{Countable K}.
Implicit Types (m : gmap K V) (f : V → V) (d : V).

Lemma cell_entry_update d f m k j :
  cell d (entry_update d f m k) j = if decide (j = k) then f (cell d m k) else cell d m j.
Proof.
  unfold entry_update. case_decide as Hj.
  - subst. unfold cell at 1. by rewrite lookup_insert_eq.
  - unfold cell at 1. by rewrite lookup_insert_ne by congruence.
Qed.

Lemma cell_foldl_update d f m l j :
  NoDup l →
  cell d (foldl (entry_update d f) m l) j
  = if decide (j ∈ l) then f (cell d m j) else cell d m j.
Proof.
  intros Hnd. revert m. induction Hnd as [|k l Hk Hnd IH]; intros m; cbn [foldl].
  { rewrite decide_False; [done|apply not_elem_of_nil]. }
  rewrite IH, cell_entry_update.
  destruct (decide (j = k)) as [->|Hjk].
  - rewrite (decide_False (P := k ∈ l)) by done. rewrite decide_True by set_solver. done.
  - destruct (decide (j ∈ l)); [rewrite decide_True by set_solver|rewrite decide_False by set_solver]; done.
Qed.

(** Updating one entry per pair of a list with distinct keys. *)
Lemma cell_foldl_pairs {X} d (f : X → V → V) m (l : list (K * X)) j :
  NoDup l.*1 →
  cell d (foldl (λ m p, entry_update d (f p.2) m p.1) m l) j
  = match (list_to_map l : gmap K X) !! j with
    | Some x => f x (cell d m j)
    | None => cell d m j
    end.
Proof.
  revert m. induction l as [|[k x] l IH]; intros m Hnd; cbn [foldl];
    [by rewrite list_to_map_nil, lookup_empty|]. rewrite list_to_map_cons.
  apply NoDup_cons in Hnd as [Hk Hnd]. rewrite IH by done. rewrite cell_entry_update. cbn.
  destruct (decide (j = k)) as [->|Hjk].
  - rewrite lookup_insert_eq. by rewrite (proj1 (not_elem_of_list_to_map l k)) by done.
  - by rewrite lookup_insert_ne by congruence.
Qed.

End entry_updates.

Lemma list_to_map_entries {K V} `{Countable K} `{OrdKey K} (m : gmap K V) :
  (list_to_map (entries m) : gmap K V) = m.
Proof.
  etrans; [|apply list_to_map_to_list]. apply list_to_map_proper.
  - apply NoDup_keys.
  - apply entries_perm.
Qed.

Lemma elem_of_set_iter {K} `{Countable K} `{OrdKey K} (s : gset K) k : k ∈ set_iter s ↔ k ∈ s.
Proof. unfold set_iter. rewrite merge_sort_Permutation. apply elem_of_elements. Qed.

#[global] Instance entry_le_total {K V} `{OrdKey K} : Total (@entry_le K V _).
Proof. intros p q. apply key_le_total. Qed.

Lemma StronglySorted_filter {A} (R : relation A) (P : A → Prop) `{∀ x, Decision (P x)} l :
  StronglySorted R l → StronglySorted R (filter P l).
Proof.
  induction 1 as [|x l Hl IH Hx]; [constructor|]. rewrite filter_cons. case_decide; [|done].
  constructor; [done|]. rewrite Forall_forall in *. intros y [_ Hy]%list_elem_of_filter. by apply Hx.
Qed.

Lemma filter_all {A} (P : A → Prop) `{∀ x, Decision (P x)} (l : list A) : (∀ x, x ∈ l → P x) → filter P l = l.
Proof.
  induction l as [|x l IH]; intros Hl; [done|]. rewrite filter_cons_True by (apply Hl, list_elem_of_here). f_equal. apply IH. intros y ?.
  by apply Hl, list_elem_of_further.
Qed.

Lemma filter_none {A} (P : A → Prop) `{∀ x, Decision (P x)} (l : list A) : (∀ x, x ∈ l → ¬ P x) → filter P l = [].
Proof.
  induction l as [|x l IH]; intros Hl; [done|]. rewrite filter_cons_False by (apply Hl, list_elem_of_here). apply IH. intros y ?.
  by apply Hl, list_elem_of_further.
Qed.

(** A map's keys are its domain in key order. *)
Lemma keys_dom {K V} `{Countable K} `{OrdKey K} (m : gmap K V) : keys m = set_iter (dom m).
Proof.
  unfold keys, set_iter. apply (Sorted_unique key_le).
  - apply (Sorted_fmap _ entry_le); [done|]. apply (Sorted_merge_sort _).
  - apply (Sorted_merge_sort _).
  - rewrite merge_sort_Permutation. rewrite entries_perm. apply NoDup_Permutation.
    + apply NoDup_fst_map_to_list.
    + apply NoDup_elements.
    + intros k. rewrite elem_of_elements, elem_of_dom. rewrite <-elem_of_keys.
      unfold keys. by rewrite entries_perm.
Qed.

(** A sorted part of the keys is determined by its members. *)
Lemma filter_keys_eq {K V} `{Countable K} `{OrdKey K} (m : gmap K V) (P : K → Prop) `{∀ k, Decision (P k)} l :
  StronglySorted key_le l → NoDup l → (∀ k, k ∈ l ↔ P k ∧ is_Some (m !! k)) → filter P (keys m) = l.
Proof.
  intros Hs Hnd Hl. apply (StronglySorted_unique key_le); [|done|].
  - apply StronglySorted_filter. rewrite keys_dom. apply (StronglySorted_merge_sort _).
  - apply NoDup_Permutation; [apply NoDup_filter, NoDup_keys|done|].
    intros k. by rewrite list_elem_of_filter, elem_of_keys, Hl.
Qed.

Lemma set_iter_NoDup {K} `{Countable K} `{OrdKey K} (s : gset K) : NoDup (set_iter s).
Proof. unfold set_iter. rewrite merge_sort_Permutation. apply NoDup_elements. Qed.

Lemma NoDup_fmap_filter {A B} (f : A → B) (P : A → Prop) `{∀ x, Decision (P x)} l :
  NoDup (f <$> l) → NoDup (f <$> filter P l).
Proof.
  induction l as [|x l IH]; [done|]. rewrite fmap_cons, NoDup_cons. intros [Hx Hl].
  rewrite filter_cons. case_decide; [|auto]. rewrite fmap_cons, NoDup_cons. split; [|auto].
  rewrite list_elem_of_fmap in *. intros (y & Hxy & Hy). apply Hx. exists y. split; [done|].
  by apply list_elem_of_filter in Hy as [_ ?].
Qed.

Lemma zsum_cons {A} (f : A → Z) a l : zsum f (a :: l) = f a + zsum f l.
Proof. done. Qed.

Lemma zsum_app {A} (f : A → Z) l k : zsum f (l ++ k) = zsum f l + zsum f k.
Proof. unfold zsum. induction l; cbn; lia. Qed.

Lemma zsum_nonneg {A} (f : A → Z) l : (∀ a, a ∈ l → 0 ≤ f a) → 0 ≤ zsum f l.
Proof.
  unfold zsum. induction l as [|a l IH]; cbn; intros Hf; [lia|].
  assert (0 ≤ f a) by (apply Hf; set_solver).
  assert (0 ≤ zsum f l) by (apply IH; set_solver). unfold zsum in *. lia.
Qed.

Lemma zsum_le {A} (f g : A → Z) l : (∀ a, a ∈ l → f a ≤ g a) → zsum f l ≤ zsum g l.
Proof.
  unfold zsum. induction l as [|a l IH]; cbn; intros Hf; [lia|].
  assert (f a ≤ g a) by (apply Hf; set_solver).
  assert (zsum f l ≤ zsum g l) by (apply IH; set_solver). unfold zsum in *. lia.
Qed.

Lemma zsum_ext {A} (f g : A → Z) l : (∀ a, a ∈ l → f a = g a) → zsum f l = zsum g l.
Proof.
  intros Hf. apply Z.le_antisymm; apply zsum_le; intros a Ha; rewrite Hf; lia || done.
Qed.

Lemma zsum_elem {A} (f : A → Z) l a : (∀ a, a ∈ l → 0 ≤ f a) → a ∈ l → f a ≤ zsum f l.
Proof.
  unfold zsum. induction l as [|b l IH]; cbn; intros Hf Ha; [by apply elem_of_nil in Ha|].
  assert (0 ≤ f b) by (apply Hf; set_solver).
  assert (0 ≤ zsum f l) by (apply zsum_nonneg; set_solver).
  apply elem_of_cons in Ha as [->|Ha]; [unfold zsum in *; lia|].
  assert (f a ≤ zsum f l) by (apply IH; set_solver). unfold zsum in *. lia.
Qed.

#[global] Instance zsum_Permutation {A} (f : A → Z) : Proper ((≡ₚ) ==> (=)) (zsum f).
Proof. induction 1 as [|x l k Hlk IH|x y l|l k j Hlk IH1 Hkj IH2]; rewrite ?zsum_cons; lia || congruence. Qed.

Lemma zsum_fmap {A B} (g : A → B) (f : B → Z) l : zsum f (g <$> l) = zsum (λ x, f (g x)) l.
Proof. induction l as [|x l IH]; [done|]. rewrite fmap_cons, !zsum_cons. by rewrite IH. Qed.

Lemma zsum_filter {A} (P : A → Prop) `{∀ x, Decision (P x)} (f : A → Z) l :
  (∀ x, x ∈ l → ¬ P x → f x = 0) → zsum f (filter P l) = zsum f l.
Proof.
  induction l as [|x l IH]; intros Hf; [done|]. rewrite filter_cons, zsum_cons.
  assert (zsum f (filter P l) = zsum f l) as Hl by (apply IH; set_solver).
  case_decide as HP; [by rewrite zsum_cons, Hl|]. rewrite Hl, (Hf x); [done|left|done].
Qed.

Section map_sums.
Context {K V : Type} `{Countable K}.
Implicit Types (m : gmap K V) (f : K → V → Z).

Lemma map_sum_empty f : map_sum f (∅ : gmap K V) = 0.
Proof. apply map_fold_empty. Qed.

Lemma map_sum_insert_None f m k v :
  m !! k = None → map_sum f (<[k:=v]> m) = f k v + map_sum f m.
Proof. intros Hk. unfold map_sum. rewrite map_fold_insert_L; [done| |done]. intros. lia. Qed.

Lemma map_sum_delete f m k v :
  m !! k = Some v → map_sum f m = f k v + map_sum f (delete k m).
Proof.
  intros Hk. rewrite <-(insert_delete_id m k v) at 1 by done.
  apply map_sum_insert_None, lookup_delete_eq.
Qed.

Lemma map_sum_insert_Some f m k v w :
  m !! k = Some v → map_sum f (<[k:=w]> m) = map_sum f m - f k v + f k w.
Proof.
  intros Hk. rewrite (map_sum_delete f m k v) by done.
  rewrite <-insert_delete_eq, map_sum_insert_None by apply lookup_delete_eq. lia.
Qed.

Lemma map_sum_nonneg f m : (∀ k v, m !! k = Some v → 0 ≤ f k v) → 0 ≤ map_sum f m.
Proof.
  induction m as [|k v m Hk IH] using map_ind; intros Hf; [by rewrite map_sum_empty|].
  rewrite map_sum_insert_None by done.
  assert (0 ≤ f k v) by (apply (Hf k); by rewrite lookup_insert_eq).
  assert (0 ≤ map_sum f m); [|lia]. apply IH. intros k' v' Hk'. apply (Hf k').
  rewrite lookup_insert_ne; [done|]. by intros ->; simplify_eq.
Qed.

Lemma map_sum_lookup_le f m k v :
  (∀ k v, m !! k = Some v → 0 ≤ f k v) → m !! k = Some v → f k v ≤ map_sum f m.
Proof.
  intros Hf Hk. rewrite (map_sum_delete f m k v) by done.
  assert (0 ≤ map_sum f (delete k m)); [|lia].
  apply map_sum_nonneg. intros k' v' [_ Hk']%lookup_delete_Some. eauto.
Qed.

Lemma map_sum_zero f m : (∀ k v, m !! k = Some v → f k v = 0) → map_sum f m = 0.
Proof.
  induction m as [|k v m Hk IH] using map_ind; intros Hf; [by rewrite map_sum_empty|].
  rewrite map_sum_insert_None by done.
  rewrite (Hf k v) by (by rewrite lookup_insert_eq). rewrite IH; [lia|].
  intros k' v' Hk'. apply (Hf k'). rewrite lookup_insert_ne; [done|]. by intros ->; simplify_eq.
Qed.

Lemma map_sum_ext f g m : (∀ k v, m !! k = Some v → f k v = g k v) → map_sum f m = map_sum g m.
Proof.
  induction m as [|k v m Hk IH] using map_ind; intros Hf; [by rewrite !map_sum_empty|].
  rewrite !map_sum_insert_None by done.
  rewrite (Hf k v) by (by rewrite lookup_insert_eq). rewrite IH; [lia|].
  intros k' v' Hk'. apply Hf. rewrite lookup_insert_ne; [done|]. by intros ->; simplify_eq.
Qed.

Lemma map_sum_to_list f m : map_sum f m = zsum (λ p, f p.1 p.2) (map_to_list m).
Proof.
  unfold map_sum, zsum. rewrite map_fold_foldr. induction (map_to_list m) as [|[k v] l IH]; [done|].
  cbn. by rewrite IH.
Qed.

(** Entries that contribute nothing can be filtered out. *)
Lemma map_sum_filter (P : K * V → Prop) `{∀ x, Decision (P x)} f m :
  (∀ k v, m !! k = Some v → ¬ P (k, v) → f k v = 0) → map_sum f (filter P m) = map_sum f m.
Proof.
  induction m as [|k v m Hk IH] using map_ind; intros Hf.
  { by rewrite map_filter_empty. }
  assert (Hm : map_sum f (filter P m) = map_sum f m).
  { apply IH. intros k' v' Hk'. apply Hf. rewrite lookup_insert_ne; [done|]. by intros ->; simplify_eq. }
  rewrite (map_sum_insert_None f m) by done. destruct (decide (P (k, v))) as [HP|HP].
  - rewrite map_filter_insert_True, map_sum_insert_None by (done || (apply map_lookup_filter_None; by left)).
    by rewrite Hm.
  - rewrite map_filter_insert_False, delete_id by done. rewrite (Hf k v), Hm by (done || by rewrite lookup_insert_eq).
    lia.
Qed.

End map_sums.

(** ** Automation *)

Create HintDb solvent.

(** Split a monadic equation [m = Ok _] or [m = Some _] into its steps. *)
Ltac simplify_res :=
  repeat match goal with
  | H : Ok _ = Ok _ |- _ => injection H as H; try subst
  | H : Ok _ = Err _ |- _ => discriminate H
  | H : Err _ = Ok _ |- _ => discriminate H
  | H : (_ ≫= _) = Ok _ |- _ =>
      let a := fresh "x" in let E := fresh "E" in
      apply bind_Ok in H as (a & E & H)
  | H : ok_or _ _ = Ok _ |- _ => apply ok_or_Ok in H
  | H : (_ ≫= _) = Some _ |- _ =>
      let a := fresh "x" in let E := fresh "E" in
      apply bind_Some in H as (a & E & H)
  end.

(** Turn boolean comparisons of integers into propositions. *)
Ltac zbool :=
  repeat match goal with
  | H : (_ <=? _) = true |- _ => apply Z.leb_le in H
  | H : (_ <=? _) = false |- _ => apply Z.leb_gt in H
  | H : (_ <? _) = true |- _ => apply Z.ltb_lt in H
  | H : (_ <? _) = false |- _ => apply Z.ltb_ge in H
  | H : (_ =? _) = true |- _ => apply Z.eqb_eq in H
  | H : (_ =? _) = false |- _ => apply Z.eqb_neq in H
  | H : negb _ = true |- _ => apply negb_true_iff in H
  | H : negb _ = false |- _ => apply negb_false_iff in H
  | H : (_ && _) = true |- _ => apply andb_true_iff in H as [? ?]
  | H : (_ || _) = false |- _ => apply orb_false_iff in H as [? ?]
  end.

(** Case on every [if] and [match] scrutinee of a hypothesis, closing the absurd cases. *)
Ltac case_hyp H :=
  repeat (match type of H with
  | context [match ?x with _ => _ end] => let E := fresh "E" in destruct x eqn:E
  end; cbn in H; try discriminate H; simplify_res).

(** ** Maxima and histograms *)

Lemma max_by_key_snoc {A} (f : A → Z) l x :
  max_by_key f (l ++ [x]) = match max_by_key f l with
                            | None => Some x
                            | Some b => if f b <=? f x then Some x else Some b
                            end.
Proof. unfold max_by_key. by rewrite foldl_app. Qed.

Lemma max_by_key_None {A} (f : A → Z) l : max_by_key f l = None → l = [].
Proof.
  destruct l as [|? ?] using rev_ind; [done|]. rewrite max_by_key_snoc. intros. by repeat case_match.
Qed.

(** The last element that no other one exceeds. *)
Lemma max_by_key_Some {A} (f : A → Z) l x :
  max_by_key f l = Some x →
  ∃ before after, l = before ++ x :: after ∧ (∀ y, y ∈ before → f y ≤ f x) ∧ (∀ y, y ∈ after → f y < f x).
Proof.
  revert x. induction l as [|z l IH] using rev_ind; [done|]. intros x. rewrite max_by_key_snoc.
  destruct (max_by_key f l) as [b|] eqn:Hb.
  - destruct (IH b eq_refl) as (bf & af & -> & Hbf & Haf). destruct (f b <=? f z) eqn:E; intros [= <-]; zbool.
    + exists (bf ++ b :: af), []. split; [done|]. split; [|set_solver].
      intros y [Hy|[->|Hy]%elem_of_cons]%elem_of_app; [apply Hbf in Hy; lia|lia|apply Haf in Hy; lia].
    + exists bf, (af ++ [z]). split; [by rewrite <-app_assoc|]. split; [done|].
      intros y [Hy|Hy%list_elem_of_singleton]%elem_of_app; [auto|by subst].
  - intros [= <-]. apply max_by_key_None in Hb as ->. exists [], []. set_solver.
Qed.

Lemma key_le_Z (a b : Z) : key_le a b ↔ a ≤ b.
Proof. unfold key_le, key_leb. cbn. rewrite orb_true_iff, andb_true_iff, Z.ltb_lt, Z.eqb_eq. lia. Qed.

Section sorted_keys.
Context {V : Type}.
Implicit Types m : gmap Z V.

Lemma keys_sorted m : StronglySorted Z.le (keys m).
Proof.
  rewrite keys_dom. assert (H : StronglySorted (@key_le Z _) (set_iter (dom m))) by apply (StronglySorted_merge_sort _).
  induction H as [|x l Hl IH Hx]; constructor; [done|]. eapply Forall_impl; [exact Hx|]. intros y. by apply key_le_Z.
Qed.

Lemma head_keys_le m k x : head (keys m) = Some k → is_Some (m !! x) → k ≤ x.
Proof.
  intros Hk Hx%elem_of_keys. pose proof (keys_sorted m) as Hs. destruct (keys m); simplify_eq/=.
  apply StronglySorted_inv in Hs as [_ Hs]. rewrite Forall_forall in Hs.
  apply elem_of_cons in Hx as [->|Hx]; [lia|by apply Hs].
Qed.

Lemma last_keys_le m k x : last (keys m) = Some k → is_Some (m !! x) → x ≤ k.
Proof.
  intros Hk Hx%elem_of_keys. pose proof (keys_sorted m) as Hs. apply last_Some in Hk as [l Hl]. rewrite Hl in *.
  apply elem_of_app in Hx as [Hx|Hx]; [|apply list_elem_of_singleton in Hx; lia].
  by eapply (StronglySorted_app_1_elem_of Z.le); [exact Hs|..|left].
Qed.
End sorted_keys.

(** How often each value occurs in a list. *)
Definition histogram (l : list Z) : gmap Z nat := foldl (entry_update 0%nat (λ n, (n + 1)%nat)) ∅ l.

Lemma histogram_dom l x : is_Some (histogram l !! x) ↔ x ∈ l.
Proof.
  unfold histogram. induction l as [|y l IH] using rev_ind.
  { cbn. rewrite lookup_empty, is_Some_alt. set_solver. }
  rewrite foldl_app. cbn. unfold entry_update at 1. rewrite elem_of_app, <-IH, list_elem_of_singleton.
  destruct (decide (x = y)) as [->|]; [rewrite lookup_insert_eq|rewrite lookup_insert_ne by done]; naive_solver.
Qed.

Lemma histogram_total l : map_sum (λ _ n, Z.of_nat n) (histogram l) = Z.of_nat (length l).
Proof.
  unfold histogram. induction l as [|y l IH] using rev_ind; [apply map_sum_empty|].
  rewrite foldl_app, length_app. cbn [foldl length]. unfold entry_update at 1. unfold cell.
  destruct (foldl _ _ l !! y) as [n|] eqn:Hy; cbn.
  - rewrite (map_sum_insert_Some _ _ _ n), IH by done. lia.
  - rewrite map_sum_insert_None, IH by done. lia.
Qed.

Lemma sum_values {K} `{Countable K} `{OrdKey K} (m : gmap K nat) :
  Z.of_nat (sum_list (values m)) = map_sum (λ _ n, Z.of_nat n) m.
Proof.
  rewrite map_sum_to_list. assert (Hp : entries m ≡ₚ map_to_list m) by apply entries_perm. rewrite <-Hp. clear Hp.
  unfold values. induction (entries m) as [|[k n] l IH]; [done|].
  rewrite zsum_cons, <-IH, fmap_cons. cbn. lia.
Qed.

(** ** Loops

    A [while] loop with a bound on its rounds: [step] either continues with a new
    state or leaves with a result.  The bound is a binary number, so a bound as large
    as a machine word costs nothing when the loop leaves early. *)

Fixpoint pos_loop {S R} (step : S → S + R) (fuel : positive) (s : S) : S + R :=
  match fuel with
  | xH => step s
  | xO p => match pos_loop step p s with
            | inl s' => pos_loop step p s'
            | inr r => inr r
            end
  | xI p => match step s with
            | inr r => inr r
            | inl s' => match pos_loop step p s' with
                        | inl s'' => pos_loop step p s''
                        | inr r => inr r
                        end
            end
  end.

Fixpoint nat_loop {S R} (step : S → S + R) (fuel : nat) (s : S) : S + R :=
  match fuel with
  | O => inl s
  | Datatypes.S n => match step s with inl s' => nat_loop step n s' | inr r => inr r end
  end.

Lemma nat_loop_add {S R} (step : S → S + R) n m s :
  nat_loop step (n + m) s = match nat_loop step n s with inl s' => nat_loop step m s' | inr r => inr r end.
Proof. revert s. induction n as [|n IH]; intros s; cbn; [done|]. destruct (step s); auto. Qed.

Lemma pos_loop_nat {S R} (step : S → S + R) p s : pos_loop step p s = nat_loop step (Pos.to_nat p) s.
Proof.
  revert s. induction p as [p IH|p IH|]; intros s; cbn [pos_loop].
  - rewrite Pos2Nat.inj_xI. change (Datatypes.S (2 * Pos.to_nat p)) with (1 + (2 * Pos.to_nat p))%nat.
    rewrite nat_loop_add. cbn [nat_loop]. destruct (step s) as [s'|r]; [|done].
    replace (2 * Pos.to_nat p)%nat with (Pos.to_nat p + Pos.to_nat p)%nat by lia.
    rewrite nat_loop_add, IH. destruct (nat_loop step (Pos.to_nat p) s'); auto.
  - rewrite Pos2Nat.inj_xO. replace (2 * Pos.to_nat p)%nat with (Pos.to_nat p + Pos.to_nat p)%nat by lia.
    rewrite nat_loop_add, IH. destruct (nat_loop step (Pos.to_nat p) s); auto.
  - rewrite Pos2Nat.inj_1. cbn. by destruct (step s).
Qed.

(** A loop whose rounds keep an invariant and strictly lower a measure leaves within any bound
    above the measure, with a result that the invariant justifies. *)
Lemma pos_loop_spec {S R} (step : S → S + R) (P : S → Prop) (Q : R → Prop) (measure : S → Z) p s :
  (∀ s, P s → 0 ≤ measure s) →
  (∀ s, P s → match step s with inl s' => P s' ∧ measure s' < measure s | inr r => Q r end) →
  P s → measure s < Zpos p → ∃ r, pos_loop step p s = inr r ∧ Q r.
Proof.
  intros Hpos Hstep. rewrite pos_loop_nat. intros HP Hm.
  assert (Hn : measure s < Z.of_nat (Pos.to_nat p)) by lia. clear Hm. revert s HP Hn.
  induction (Pos.to_nat p) as [|n IH]; intros s HP Hn; [specialize (Hpos s HP); lia|]. cbn.
  specialize (Hstep s HP). destruct (step s) as [s'|r]; [|eauto]. destruct Hstep. apply IH; [done|lia].
Qed.
