(* ===== verification/Commands.v ===== *)
(** * Reasoning about commands

    Running a command on a part of a larger state, catching its error, and the rules by
    which a fact about every outcome of a command follows from its steps. *)

From S2P Require Import Prelude.

(** Run a command on a part of the state, mapping its error in ([?] with [From]). *)
Definition zoom {S T E F A} (get : S → T) (put : S → T → S) (err : E → F) (c : cmd T E A) : cmd S F A := λ s,
  let '(r, t) := c (get s) in (map_err err r, put s t).

(** Run a command and look at its result instead of propagating the error. *)
Definition attempt {S E F A} (c : cmd S E A) : cmd S F (result E A) := λ s,
  let '(r, s') := c s in (Ok r, s').

(** [outcome c Q s]: run from [s], the result and the state left by [c] satisfy [Q]. *)
Definition outcome {S E A} (c : cmd S E A) (Q : result E A → S → Prop) (s : S) : Prop := Q (c s).1 (c s).2.

Section rules.
Context {S E : Type}.

Lemma outcome_pair {A} (c : cmd S E A) Q s r s' : c s = (r, s') → outcome c Q s → Q r s'.
Proof. unfold outcome. by intros ->. Qed.

Lemma outcome_mono {A} (c : cmd S E A) (P Q : result E A → S → Prop) s :
  outcome c P s → (∀ r s', P r s' → Q r s') → outcome c Q s.
Proof. unfold outcome. auto. Qed.

Lemma outcome_and {A} (c : cmd S E A) (P Q : result E A → S → Prop) s :
  outcome c P s → outcome c Q s → outcome c (λ r s', P r s' ∧ Q r s') s.
Proof. unfold outcome. auto. Qed.

Lemma outcome_ret {A} (a : A) (Q : result E A → S → Prop) s : Q (Ok a) s → outcome (mret a) Q s.
Proof. done. Qed.

Lemma outcome_fail {A} e (Q : result E A → S → Prop) s : Q (Err e) s → outcome (fail e) Q s.
Proof. done. Qed.

Lemma outcome_lift {A} (r : result E A) (Q : result E A → S → Prop) s : Q r s → outcome (lift r) Q s.
Proof. done. Qed.

Lemma outcome_bind {A B} (c : cmd S E A) (f : A → cmd S E B) (Q : result E B → S → Prop) s :
  outcome c (λ r s', match r with Ok a => outcome (f a) Q s' | Err e => Q (Err e) s' end) s →
  outcome (c ≫= f) Q s.
Proof. unfold outcome, mbind, cmd_bind. by destruct (c s) as [[a|e] s']. Qed.

Lemma outcome_gets {A B} (g : S → A) (f : A → cmd S E B) (Q : result E B → S → Prop) s :
  outcome (f (g s)) Q s → outcome (gets g ≫= f) Q s.
Proof. done. Qed.

Lemma outcome_modify {B} (g : S → S) (f : unit → cmd S E B) (Q : result E B → S → Prop) s :
  outcome (f tt) Q (g s) → outcome (modify g ≫= f) Q s.
Proof. done. Qed.

Lemma outcome_lift_bind {A B} (r : result E A) (f : A → cmd S E B) (Q : result E B → S → Prop) s :
  match r with Ok a => outcome (f a) Q s | Err e => Q (Err e) s end → outcome (lift r ≫= f) Q s.
Proof. by destruct r. Qed.

Lemma outcome_attempt {F A B} (c : cmd S F A) (f : result F A → cmd S E B) (Q : result E B → S → Prop) s :
  outcome c (λ r s', outcome (f r) Q s') s → outcome (attempt c ≫= f) Q s.
Proof. unfold outcome, attempt, mbind, cmd_bind. by destruct (c s). Qed.

(** A guard at the head of a command. *)
Lemma outcome_if {A} (b : bool) (c d : cmd S E A) (Q : result E A → S → Prop) s :
  (b = true → outcome c Q s) → (b = false → outcome d Q s) → outcome (if b then c else d) Q s.
Proof. destruct b; auto. Qed.

End rules.

Lemma outcome_zoom {S T E F A} get put err (c : cmd T E A) (Q : result F A → S → Prop) s :
  outcome c (λ r t, Q (map_err err r) (put s t)) (get s) → outcome (zoom get put err c) Q s.
Proof. unfold outcome, zoom. by destruct (c (get s)). Qed.

(** ** Statements that may fail

    A database answers each statement from a list of outcomes.  A command that ran is charged with the outcomes it used;
    it stops at the first that failed. *)

Definition stopped (used : list bool) : bool := existsb negb used.

Lemma stopped_app u u' : stopped (u ++ u') = stopped u || stopped u'.
Proof. apply existsb_app. Qed.

Section charged.
Context {S E : Type} (outcomes : S → list bool) (fault : E).

(** From [s0] to [s] every statement succeeded. *)
Definition unstopped (s0 s : S) : Prop := ∃ used, outcomes s0 = used ++ outcomes s ∧ stopped used = false.

(** A result with its reason: a success used no failed statement, an error is that of a failed statement or is a refusal. *)
Definition charged {A} (s0 : S) (Returned : A → Prop) (Refused : E → Prop) (res : result E A) (s : S) : Prop :=
  ∃ used, outcomes s0 = used ++ outcomes s ∧
    match res with
    | Ok a => stopped used = false ∧ Returned a
    | Err e => if stopped used then e = fault else Refused e
    end.

Lemma unstopped_refl s : unstopped s s.
Proof. by exists []. Qed.

Lemma charged_ret {A} s0 s (a : A) (Returned : A → Prop) Refused :
  unstopped s0 s → Returned a → charged s0 Returned Refused (Ok a) s.
Proof. intros (used & ? & ?) ?. by exists used. Qed.

Lemma charged_refused {A} s0 s e (Returned : A → Prop) (Refused : E → Prop) :
  unstopped s0 s → Refused e → charged s0 Returned Refused (Err e) s.
Proof. intros (used & ? & Hs) ?. exists used. by rewrite Hs. Qed.

(** The statement that answers [ok] and leaves [s']. *)
Lemma unstopped_true s0 s s' : unstopped s0 s → outcomes s = true :: outcomes s' → unstopped s0 s'.
Proof. intros (used & Hu & Hs) Ho. exists (used ++ [true]). rewrite Hu, Ho, <-app_assoc, stopped_app, Hs. done. Qed.

Lemma charged_false {A} s0 s s' (Returned : A → Prop) Refused :
  unstopped s0 s → outcomes s = false :: outcomes s' → charged s0 Returned Refused (Err fault) s'.
Proof.
  intros (used & Hu & Hs) Ho. exists (used ++ [false]). rewrite Hu, Ho, <-app_assoc, stopped_app, Hs. done.
Qed.

(** A charged part of a command: what follows runs unstopped. *)
Lemma outcome_charged {A B} s0 (c : cmd S E A) (f : A → cmd S E B) (P : A → Prop) (Returned : B → Prop) (R Refused : E → Prop) s :
  outcome c (charged s0 P R) s → (∀ e, R e → Refused e) →
  (∀ a s', P a → unstopped s0 s' → (c s).2 = s' → outcome (f a) (charged s0 Returned Refused) s') →
  outcome (c ≫= f) (charged s0 Returned Refused) s.
Proof.
  intros Hc HR Hf. apply outcome_bind. unfold outcome in *. destruct (c s) as [[a|e] s'] eqn:Hcs; cbn in *.
  - destruct Hc as (used & Hu & Hs & Ha). apply Hf; [done|by exists used|done].
  - destruct Hc as (used & Hu & He). exists used. split; [done|]. destruct (stopped used); auto.
Qed.

End charged.
