(* ===== verification/U256.v ===== *)
(** * Machine integers and typed identifiers

    [alloy_primitives::U256] as an integer between [0] and [2^256 - 1], with the
    checked and saturating operations the sources use, the fixed-byte identifiers
    of [crates/core/src/primitives/shared/ids.rs], and the lemmas that relate the
    saturating operations to exact integer arithmetic. *)

From S2P Require Import Prelude.

(** ** Identifiers

    [Address] is a 160-bit and [B256] a 256-bit big-endian value; both compare
    as unsigned integers, and the newtypes over them inherit the comparison. *)

Abbreviation Address := Z.
Abbreviation B256 := Z.
Abbreviation IntentId := B256.
Abbreviation MakerId := Address.
Abbreviation StrategyHash := B256.
Abbreviation ReservationId := B256.
Abbreviation RebateBatchId := B256.

(** A ulid: 128 bits, ordered as its text is. *)
Abbreviation TradeId := Z.

(** ** Unsigned 256-bit and 64-bit integers *)

Abbreviation U256 := Z.

Definition U256_MAX : Z := 2 ^ 256 - 1.
Definition U64_MAX : Z := 2 ^ 64 - 1.

Definition is_u256 (x : Z) : Prop := 0 ≤ x ≤ U256_MAX.

#[global] Instance is_u256_dec x : Decision (is_u256 x).
Proof. unfold is_u256. apply _. Defined.

Definition saturating_add (x y : U256) : U256 := Z.min (x + y) U256_MAX.
Definition saturating_sub (x y : U256) : U256 := Z.max (x - y) 0.
Definition saturating_mul (x y : U256) : U256 := Z.min (x * y) U256_MAX.

Definition checked_add (x y : U256) : option U256 :=
  if x + y <=? U256_MAX then Some (x + y) else None.
Definition checked_sub (x y : U256) : option U256 :=
  if y <=? x then Some (x - y) else None.
Definition checked_mul (x y : U256) : option U256 :=
  if x * y <=? U256_MAX then Some (x * y) else None.

(** The plain operators on [U256] wrap around. *)
Definition wrapping_add (x y : U256) : U256 := (x + y) mod 2 ^ 256.
Definition wrapping_sub (x y : U256) : U256 := (x - y) mod 2 ^ 256.
Definition wrapping_mul (x y : U256) : U256 := (x * y) mod 2 ^ 256.

(** [u64::saturating_add] and [u64::saturating_sub]. *)
Definition u64_saturating_add (x y : Z) : Z := Z.min (x + y) U64_MAX.
Definition u64_saturating_sub (x y : Z) : Z := Z.max (x - y) 0.

(** ** Lemmas *)

Lemma U256_MAX_pos : 0 < U256_MAX.
Proof. done. Qed.

Lemma U256_MAX_big : 10 ^ 60 < U256_MAX.
Proof. done. Qed.

Ltac u256 :=
  pose proof U256_MAX_pos; unfold is_u256, saturating_add, saturating_sub, saturating_mul in *; lia.

Lemma is_u256_0 : is_u256 0.
Proof. u256. Qed.

Lemma is_u256_MAX : is_u256 U256_MAX.
Proof. u256. Qed.

Lemma saturating_add_u256 x y : is_u256 x → is_u256 y → is_u256 (saturating_add x y).
Proof. u256. Qed.

Lemma saturating_sub_u256 x y : is_u256 x → is_u256 y → is_u256 (saturating_sub x y).
Proof. u256. Qed.

#[export] Hint Resolve is_u256_0 is_u256_MAX saturating_add_u256 saturating_sub_u256 : solvent.

Lemma saturating_add_exact x y : x + y ≤ U256_MAX → saturating_add x y = x + y.
Proof. u256. Qed.

Lemma saturating_sub_exact x y : y ≤ x → saturating_sub x y = x - y.
Proof. u256. Qed.

Lemma wrapping_add_exact x y : 0 ≤ x + y ≤ U256_MAX → wrapping_add x y = x + y.
Proof. intros H. apply Z.mod_small. unfold U256_MAX in H. lia. Qed.

Lemma wrapping_sub_exact x y : 0 ≤ x - y ≤ U256_MAX → wrapping_sub x y = x - y.
Proof. intros H. apply Z.mod_small. unfold U256_MAX in H. lia. Qed.

Lemma checked_add_Some x y z : checked_add x y = Some z ↔ z = x + y ∧ x + y ≤ U256_MAX.
Proof. unfold checked_add. case_match; zbool; split; intros; simplify_eq; lia || naive_solver lia. Qed.

Lemma checked_sub_Some x y z : checked_sub x y = Some z ↔ z = x - y ∧ y ≤ x.
Proof. unfold checked_sub. case_match; zbool; split; intros; simplify_eq; lia || naive_solver lia. Qed.

Lemma checked_sub_None x y : checked_sub x y = None ↔ x < y.
Proof. unfold checked_sub. case_match; zbool; split; intros; simplify_eq; lia || done. Qed.

Lemma checked_mul_Some x y z : checked_mul x y = Some z ↔ z = x * y ∧ x * y ≤ U256_MAX.
Proof. unfold checked_mul. case_match; zbool; split; intros; simplify_eq; lia || naive_solver lia. Qed.

(** A saturating fold of non-negative amounts is the exact total clamped to the word. *)
Lemma foldl_saturating_add {A} (f : A → Z) l x :
  is_u256 x → (∀ a, a ∈ l → 0 ≤ f a) →
  foldl (λ acc a, saturating_add acc (f a)) x l = Z.min (x + zsum f l) U256_MAX.
Proof.
  revert x. induction l as [|a l IH]; intros x Hx Hf; [cbn; u256|].
  assert (0 ≤ f a) by (apply Hf; set_solver).
  assert (0 ≤ zsum f l) by (apply zsum_nonneg; set_solver).
  cbn. rewrite IH; [unfold zsum in *; u256|u256|set_solver].
Qed.

(** Checked subtraction down a list succeeds exactly when the total fits. *)
Lemma try_fold_checked_sub {A} (f : A → Z) l b :
  (∀ a, a ∈ l → 0 ≤ f a) →
  try_fold_opt (λ r a, checked_sub r (f a)) b l
  = if zsum f l <=? b then Some (b - zsum f l) else
    match l with [] => Some b | _ => None end.
Proof.
  revert b. induction l as [|a l IH]; intros b Hf.
  { cbn. case_match; [f_equal; lia|done]. }
  assert (0 ≤ f a) by (apply Hf; set_solver).
  assert (0 ≤ zsum f l) by (apply zsum_nonneg; set_solver).
  change (zsum f (a :: l)) with (f a + zsum f l). cbn [try_fold_opt].
  destruct (checked_sub b (f a)) as [r|] eqn:Ea; cbn [mbind option_bind].
  - apply checked_sub_Some in Ea as [-> ?]. rewrite IH by set_solver.
    destruct (zsum f l <=? b - f a) eqn:E1, (f a + zsum f l <=? b) eqn:E2;
      zbool; try lia; [f_equal; lia|]. destruct l; [|done]. cbn in *. lia.
  - apply checked_sub_None in Ea. destruct (f a + zsum f l <=? b) eqn:E2; zbool; [lia|done].
Qed.

(** * Byte strings that are hashed

    Fixed-width big-endian encodings, as [to_be_bytes] gives them, and that a fixed-width
    prefix is read back. *)

(** [x.to_be_bytes()] on [n] bytes. *)
Definition be_bytes (n : nat) (x : Z) : list Z := (λ i, x / 256 ^ Z.of_nat (n - 1 - i) mod 256) <$> seq 0 n.

Definition of_be_bytes (l : list Z) : Z := foldl (λ acc b, acc * 256 + b) 0 l.

Lemma be_bytes_S n x : be_bytes (S n) x = (x / 256 ^ Z.of_nat n mod 256) :: be_bytes n x.
Proof.
  unfold be_bytes. rewrite <-cons_seq, fmap_cons. f_equal; [by rewrite Nat.sub_0_r, Nat.sub_succ, Nat.sub_0_r|].
  rewrite <-fmap_S_seq, <-list_fmap_compose. apply list_fmap_ext. intros i j _. cbn. do 4 f_equal. lia.
Qed.

Lemma of_be_bytes_acc n x a : foldl (λ acc b, acc * 256 + b) a (be_bytes n x) = a * 256 ^ Z.of_nat n + x mod 256 ^ Z.of_nat n.
Proof.
  revert a. induction n as [|n IH]; intros a; [cbn; by rewrite Z.mod_1_r; lia|].
  rewrite be_bytes_S. cbn [foldl]. rewrite IH, Nat2Z.inj_succ, Z.pow_succ_r by lia.
  rewrite (Z.mul_comm 256), Z.rem_mul_r by lia. lia.
Qed.

Lemma be_bytes_round_trip n x : 0 ≤ x < 256 ^ Z.of_nat n → of_be_bytes (be_bytes n x) = x.
Proof. intros Hx. unfold of_be_bytes. rewrite of_be_bytes_acc, Z.mod_small by done. lia. Qed.

Lemma length_be_bytes n x : length (be_bytes n x) = n.
Proof. unfold be_bytes. by rewrite length_fmap, length_seq. Qed.

(** A fixed-width field at the head of a preimage is determined by the preimage. *)
Lemma be_bytes_app_inj n x y (l l' : list Z) :
  0 ≤ x < 256 ^ Z.of_nat n → 0 ≤ y < 256 ^ Z.of_nat n → be_bytes n x ++ l = be_bytes n y ++ l' → x = y ∧ l = l'.
Proof.
  intros Hx Hy Heq. apply app_inj_1 in Heq as [He ->]; [|by rewrite !length_be_bytes]. split; [|done].
  by rewrite <-(be_bytes_round_trip n x Hx), He, be_bytes_round_trip.
Qed.
