(* ===== verification/Reservation.v ===== *)
(** * Accounts and reservations

    The value types of [crates/core/src/primitives/ledger]: the two ceilings a
    maker pull is held against ([account.rs]) and the reservation with its
    lifecycle ([reservation.rs]). *)

From stdpp Require Import strings.
From S2P Require Import Prelude U256.

Inductive AccountKey : Type :=
| WalletBudget (maker : MakerId) (token : Address)
| StrategyVirtual (maker : MakerId) (strategy_hash : StrategyHash) (token : Address).

#[global] Instance AccountKey_eq_dec : EqDecision AccountKey.
Proof. solve_decision. Defined.

Definition AccountKey_encode (a : AccountKey) : Z * Z + Z * Z * Z :=
  match a with
  | WalletBudget m t => inl (m, t)
  | StrategyVirtual m h t => inr (m, h, t)
  end.
Definition AccountKey_decode (x : Z * Z + Z * Z * Z) : AccountKey :=
  match x with
  | inl (m, t) => WalletBudget m t
  | inr (m, h, t) => StrategyVirtual m h t
  end.

#[global] Instance AccountKey_countable : Countable AccountKey.
Proof. apply (inj_countable' AccountKey_encode AccountKey_decode). by intros []. Defined.

(** The derived [Ord]: variant order first, then the fields in declaration order. *)
#[global] Program Instance AccountKey_ord : OrdKey AccountKey := {|
  ord_key a := match a with
               | WalletBudget m t => [0; m; t]
               | StrategyVirtual m h t => [1; m; h; t]
               end
|}.
Next Obligation. intros [] []; cbn; congruence. Qed.

Record ReservationSource := {
  src_maker : MakerId;
  src_strategy_hash : StrategyHash;
  src_token : Address;
  src_amount : U256
}.

#[global] Instance ReservationSource_eq_dec : EqDecision ReservationSource.
Proof. solve_decision. Defined.

(** The two accounts a source is held against. *)
Definition accounts (s : ReservationSource) : list AccountKey :=
  [WalletBudget (src_maker s) (src_token s);
   StrategyVirtual (src_maker s) (src_strategy_hash s) (src_token s)].

Inductive ReservationState : Type :=
| Pending | Committed | Posted | Voided | Expired | ReorgOpen.

#[global] Instance ReservationState_eq_dec : EqDecision ReservationState.
Proof. solve_decision. Defined.

Inductive ReservationOwner : Type :=
| Swap (intent : IntentId)
| Rebate (batch : RebateBatchId).

#[global] Instance ReservationOwner_eq_dec : EqDecision ReservationOwner.
Proof. solve_decision. Defined.

Definition owner_kind (o : ReservationOwner) : string :=
  match o with Swap _ => "swap" | Rebate _ => "rebate" end.

Definition owner_id (o : ReservationOwner) : B256 :=
  match o with Swap i => i | Rebate b => b end.

Definition swap_intent (o : ReservationOwner) : option IntentId :=
  match o with Swap i => Some i | Rebate _ => None end.

(** [matches!(owner, ReservationOwner::Swap(_))] *)
Definition is_swap (o : ReservationOwner) : bool :=
  match o with Swap _ => true | Rebate _ => false end.

Record Reservation := mk_reservation {
  res_id : ReservationId;
  res_owner : ReservationOwner;
  res_sources : list ReservationSource;
  res_state : ReservationState;
  res_expires_at : Z
}.

#[global] Instance Reservation_eq_dec : EqDecision Reservation.
Proof. solve_decision. Defined.

Definition Reservation_new (id : ReservationId) (owner : ReservationOwner)
    (sources : list ReservationSource) (expires_at : Z) : Reservation :=
  mk_reservation id owner sources Pending expires_at.

Definition for_swap id (intent : IntentId) sources expires_at : Reservation :=
  Reservation_new id (Swap intent) sources expires_at.

Definition for_rebate id (batch : RebateBatchId) sources expires_at : Reservation :=
  Reservation_new id (Rebate batch) sources expires_at.

Definition with_state (r : Reservation) (s : ReservationState) : Reservation :=
  mk_reservation (res_id r) (res_owner r) (res_sources r) s (res_expires_at r).

(** A source never names the same ceiling twice. *)
Lemma NoDup_accounts s : NoDup (accounts s).
Proof. unfold accounts. apply NoDup_ListNoDup. repeat constructor; cbn; intuition discriminate. Qed.
