(* ===== verification/LedgerEngine.v ===== *)
(** * The reservation engine

    [crates/core/src/primitives/ledger/engine.rs]: the pure double-entry ledger.
    Budgets are fed from outside; the engine owns the held compartments and
    derives the available room from both.  Each command returns its result and
    the ledger it leaves. *)

From S2P Require Import Prelude U256 Reservation.

Record Held := mk_held { held_pending : U256; held_consumed : U256 }.

#[global] Instance Held_eq_dec : EqDecision Held.
Proof. solve_decision. Defined.

Definition held_zero : Held := mk_held 0 0.

Record Ledger := mk_ledger {
  budgets : gmap AccountKey U256;
  held : gmap AccountKey Held;
  reservations : gmap ReservationId Reservation;
  filled : gmap ReservationId (list U256)
}.

Definition ledger_default : Ledger := mk_ledger ∅ ∅ ∅ ∅.

Record Shortfall := mk_shortfall {
  short_account : AccountKey;
  short_requested : U256;
  short_available : U256
}.

Inductive LedgerError : Type :=
| Duplicate (id : ReservationId)
| Unknown (id : ReservationId)
| WrongState (id : ReservationId) (found expected : ReservationState)
| Insufficient (short : Shortfall)
| FillCountMismatch (got want : nat)
| FillExceedsReserved (index : nat) (fill reserved : U256).

(** [self.held.entry(account).or_default()] followed by an in-place update. *)
Definition touch (f : Held → Held) (h : gmap AccountKey Held) (a : AccountKey) :
    gmap AccountKey Held :=
  entry_update held_zero f h a.

Definition add_pending (x : U256) (c : Held) : Held :=
  mk_held (saturating_add (held_pending c) x) (held_consumed c).
Definition sub_pending (x : U256) (c : Held) : Held :=
  mk_held (saturating_sub (held_pending c) x) (held_consumed c).
Definition settle_fill (amount fill : U256) (c : Held) : Held :=
  mk_held (saturating_sub (held_pending c) amount) (saturating_add (held_consumed c) fill).
Definition sub_consumed (x : U256) (c : Held) : Held :=
  mk_held (held_pending c) (saturating_sub (held_consumed c) x).

Definition set_budget (l : Ledger) (a : AccountKey) (b : U256) : Ledger :=
  mk_ledger (<[a := b]> (budgets l)) (held l) (reservations l) (filled l).

Definition set_budgets (l : Ledger) (bs : gmap AccountKey U256) : Ledger :=
  mk_ledger bs (held l) (reservations l) (filled l).

Definition set_held (l : Ledger) (h : gmap AccountKey Held) : Ledger :=
  mk_ledger (budgets l) h (reservations l) (filled l).

(** Set a present reservation's state; a missing entry is left alone. *)
Definition transition (l : Ledger) (id : ReservationId) (s : ReservationState) : Ledger :=
  match reservations l !! id with
  | Some r => mk_ledger (budgets l) (held l) (<[id := with_state r s]> (reservations l)) (filled l)
  | None => l
  end.

#[global] Arguments transition : simpl never.

Definition budget (l : Ledger) (a : AccountKey) : U256 := default 0 (budgets l !! a).

Definition available (l : Ledger) (a : AccountKey) : U256 :=
  let h := match held l !! a with
           | Some c => saturating_add (held_pending c) (held_consumed c)
           | None => 0
           end in
  saturating_sub (budget l a) h.

Definition pending (l : Ledger) (a : AccountKey) : U256 :=
  match held l !! a with Some c => held_pending c | None => 0 end.

Definition consumed (l : Ledger) (a : AccountKey) : U256 :=
  match held l !! a with Some c => held_consumed c | None => 0 end.

Definition reservation (l : Ledger) (id : ReservationId) : option Reservation :=
  reservations l !! id.

(** Sum a source set's demand per account. *)
Definition aggregate_demand (sources : list ReservationSource) : gmap AccountKey U256 :=
  foldl (λ demand s,
      foldl (entry_update 0 (λ sum, saturating_add sum (src_amount s))) demand (accounts s))
    ∅ sources.

Definition can_reserve (l : Ledger) (r : Reservation) : result LedgerError unit :=
  match reservations l !! res_id r with
  | Some _ => Err (Duplicate (res_id r))
  | None =>
      try_fold (λ _ '(a, requested),
          let avail := available l a in
          if avail <? requested then Err (Insufficient (mk_shortfall a requested avail)) else Ok tt)
        tt (entries (aggregate_demand (res_sources r)))
  end.

Definition restore (l : Ledger) (r : Reservation) : Ledger :=
  match reservations l !! res_id r with
  | Some _ => l
  | None =>
      let h := foldl (λ h p, touch (add_pending p.2) h p.1)
                 (held l) (entries (aggregate_demand (res_sources r))) in
      mk_ledger (budgets l) h (<[res_id r := r]> (reservations l)) (filled l)
  end.

Definition reserve (l : Ledger) (r : Reservation) : result LedgerError unit * Ledger :=
  match can_reserve l r with
  | Err e => (Err e, l)
  | Ok _ => (Ok tt, restore l r)
  end.

Definition commit (l : Ledger) (id : ReservationId) : result LedgerError unit * Ledger :=
  match reservations l !! id with
  | None => (Err (Unknown id), l)
  | Some r =>
      match res_state r with
      | Pending => (Ok tt, transition l id Committed)
      | Committed => (Ok tt, l)
      | s => (Err (WrongState id s Pending), l)
      end
  end.

Definition require_state (r : Reservation) (expected : ReservationState) : result LedgerError unit :=
  if decide (res_state r = expected) then Ok tt
  else Err (WrongState (res_id r) (res_state r) expected).

Definition pending_sources (l : Ledger) (id : ReservationId) :
    result LedgerError (list ReservationSource) :=
  r ← ok_or (reservations l !! id) (Unknown id);
  _ ← require_state r Pending;
  Ok (res_sources r).

Definition active_sources (l : Ledger) (id : ReservationId) :
    result LedgerError (list ReservationSource) :=
  r ← ok_or (reservations l !! id) (Unknown id);
  match res_state r with
  | Pending | Committed => Ok (res_sources r)
  | s => Err (WrongState id s Pending)
  end.

Fixpoint check_fills (i : nat) (sources : list ReservationSource) (fills : list U256) :
    result LedgerError unit :=
  match sources, fills with
  | s :: sources', x :: fills' =>
      if src_amount s <? x then Err (FillExceedsReserved i x (src_amount s))
      else check_fills (S i) sources' fills'
  | _, _ => Ok tt
  end.

Definition settle_holds (h : gmap AccountKey Held) (sources : list ReservationSource)
    (fills : list U256) : gmap AccountKey Held :=
  foldl (λ h '(s, x), foldl (touch (settle_fill (src_amount s) x)) h (accounts s))
    h (zip sources fills).

Definition post (l : Ledger) (id : ReservationId) (fills : list U256) :
    result LedgerError unit * Ledger :=
  match active_sources l id with
  | Err e => (Err e, l)
  | Ok sources =>
      if negb (length fills =? length sources)%nat
      then (Err (FillCountMismatch (length fills) (length sources)), l)
      else match check_fills 0 sources fills with
           | Err e => (Err e, l)
           | Ok _ =>
               let l' := mk_ledger (budgets l) (settle_holds (held l) sources fills)
                           (reservations l) (<[id := fills]> (filled l)) in
               (Ok tt, transition l' id Posted)
           end
  end.

Definition release_holds (h : gmap AccountKey Held) (sources : list ReservationSource) :
    gmap AccountKey Held :=
  foldl (λ h s, foldl (touch (sub_pending (src_amount s))) h (accounts s)) h sources.

Definition release_sources (l : Ledger) (id : ReservationId) (sources : list ReservationSource)
    (terminal : ReservationState) : Ledger :=
  transition (set_held l (release_holds (held l) sources)) id terminal.

Definition release_active (l : Ledger) (id : ReservationId) (terminal : ReservationState) :
    result LedgerError unit * Ledger :=
  match active_sources l id with
  | Err e => (Err e, l)
  | Ok sources => (Ok tt, release_sources l id sources terminal)
  end.

Definition void (l : Ledger) (id : ReservationId) : result LedgerError unit * Ledger :=
  release_active l id Voided.

Definition expire (l : Ledger) (id : ReservationId) : result LedgerError unit * Ledger :=
  match pending_sources l id with
  | Err e => (Err e, l)
  | Ok sources => (Ok tt, release_sources l id sources Expired)
  end.

Definition unconsume_holds (h : gmap AccountKey Held) (sources : list ReservationSource)
    (fills : list U256) : gmap AccountKey Held :=
  foldl (λ h '(i, s),
      foldl (touch (sub_consumed (default 0 (fills !! i)))) h (accounts s))
    h (imap pair sources).

Definition void_reorg (l : Ledger) (id : ReservationId) : result LedgerError unit * Ledger :=
  match reservations l !! id with
  | None => (Err (Unknown id), l)
  | Some r =>
      match require_state r Posted with
      | Err e => (Err e, l)
      | Ok _ =>
          let fills := default [] (filled l !! id) in
          let l' := mk_ledger (budgets l) (unconsume_holds (held l) (res_sources r) fills)
                      (reservations l) (delete id (filled l)) in
          (Ok tt, transition l' id ReorgOpen)
      end
  end.

Definition available_snapshot (l : Ledger) : gmap AccountKey U256 :=
  set_to_map (λ a, (a, available l a)) (dom (budgets l) ∪ dom (held l)).

Definition expired_swaps_as_of (l : Ledger) (now : Z) : list ReservationId :=
  res_id <$> filter (λ r, res_state r = Pending ∧ res_expires_at r ≤ now
                          ∧ is_swap (res_owner r) = true)
               (values (reservations l)).

(** The engine's command language, for reasoning about sequences of calls. *)
Inductive command : Type :=
| Reserve (r : Reservation)
| Commit (id : ReservationId)
| Post (id : ReservationId) (fills : list U256)
| Void (id : ReservationId)
| Expire (id : ReservationId)
| VoidReorg (id : ReservationId).

Definition exec (l : Ledger) (c : command) : result LedgerError unit * Ledger :=
  match c with
  | Reserve r => reserve l r
  | Commit id => commit l id
  | Post id fills => post l id fills
  | Void id => void l id
  | Expire id => expire l id
  | VoidReorg id => void_reorg l id
  end.

Definition run (l : Ledger) (cs : list command) : Ledger :=
  foldl (λ l c, (exec l c).2) l cs.
