(* ===== verification/LedgerInvariant.v ===== *)
(** * Correctness of the reservation engine

    What each command of [LedgerEngine] does to the two compartments of every
    account, and the invariant that the incremental accounting always equals the
    sum over the reservations. *)

From S2P Require Import Prelude U256 Reservation LedgerEngine.

(** ** Specification: the exact amounts a reservation stands for *)

Definition source_demand (a : AccountKey) (s : ReservationSource) : Z :=
  if decide (a ∈ accounts s) then src_amount s else 0.

Definition demand_at (a : AccountKey) (ss : list ReservationSource) : Z :=
  zsum (source_demand a) ss.

Definition source_fill (a : AccountKey) (p : ReservationSource * U256) : Z :=
  if decide (a ∈ accounts p.1) then p.2 else 0.

Definition fills_at (a : AccountKey) (ss : list ReservationSource) (fs : list U256) : Z :=
  zsum (source_fill a) (zip ss fs).

#[global] Arguments demand_at : simpl never.
#[global] Arguments fills_at : simpl never.

Definition holds_of (a : AccountKey) (r : Reservation) : Z :=
  match res_state r with
  | Pending | Committed => demand_at a (res_sources r)
  | _ => 0
  end.

Definition consumes_of (fs : gmap ReservationId (list U256)) (a : AccountKey)
    (id : ReservationId) (r : Reservation) : Z :=
  match res_state r with
  | Posted => fills_at a (res_sources r) (default [] (fs !! id))
  | _ => 0
  end.

Definition amounts_ok (ss : list ReservationSource) : Prop :=
  Forall (λ s, is_u256 (src_amount s)) ss.

Definition fills_ok (ss : list ReservationSource) (fs : list U256) : Prop :=
  Forall2 (λ s x, 0 ≤ x ≤ src_amount s) ss fs.

(** The incremental holds are the from-scratch fold of the reservations, and both
    compartments fit a word together. *)
Record ledger_ok (l : Ledger) : Prop := {
  ok_id : ∀ id r, reservations l !! id = Some r → res_id r = id;
  ok_amounts : ∀ id r, reservations l !! id = Some r → amounts_ok (res_sources r);
  ok_filled : ∀ id r, reservations l !! id = Some r → res_state r = Posted →
    ∃ fs, filled l !! id = Some fs ∧ fills_ok (res_sources r) fs;
  ok_pending : ∀ a, pending l a = map_sum (λ _ r, holds_of a r) (reservations l);
  ok_consumed : ∀ a, consumed l a = map_sum (consumes_of (filled l) a) (reservations l);
  ok_room : ∀ a, pending l a + consumed l a ≤ U256_MAX
}.

(** Nothing is promised past the fed budgets. *)
Definition within_budget (l : Ledger) : Prop :=
  ∀ a, pending l a + consumed l a ≤ budget l a.

(** Inputs the types of the program already guarantee, and a demand that a word can
    represent at every account. *)
Definition reservation_ok (r : Reservation) : Prop :=
  amounts_ok (res_sources r) ∧ ∀ a, demand_at a (res_sources r) ≤ U256_MAX.

Definition command_ok (c : command) : Prop :=
  match c with
  | Reserve r => res_state r = Pending ∧ reservation_ok r
  | Post _ fills => Forall is_u256 fills
  | _ => True
  end.

(** ** Pointwise effect of the hold loops *)

Lemma pending_cell l a : pending l a = held_pending (cell held_zero (held l) a).
Proof. unfold pending, cell. by destruct (held l !! a). Qed.

Lemma consumed_cell l a : consumed l a = held_consumed (cell held_zero (held l) a).
Proof. unfold consumed, cell. by destruct (held l !! a). Qed.

Lemma available_held l a :
  available l a = saturating_sub (budget l a) (saturating_add (pending l a) (consumed l a)).
Proof. unfold available, pending, consumed. destruct (held l !! a); [done|]. by u256. Qed.

Lemma touch_accounts f h s a :
  cell held_zero (foldl (touch f) h (accounts s)) a
  = if decide (a ∈ accounts s) then f (cell held_zero h a) else cell held_zero h a.
Proof. apply cell_foldl_update, NoDup_accounts. Qed.

Lemma source_demand_if a s :
  source_demand a s = if decide (a ∈ accounts s) then src_amount s else 0.
Proof. done. Qed.

Lemma source_fill_if a s x : source_fill a (s, x) = if decide (a ∈ accounts s) then x else 0.
Proof. done. Qed.

Lemma amounts_nonneg a ss : amounts_ok ss → ∀ s, s ∈ ss → 0 ≤ source_demand a s.
Proof.
  unfold amounts_ok. rewrite Forall_forall. intros Hok s Hs. unfold source_demand.
  case_decide; [|done]. by apply Hok.
Qed.

Lemma demand_nonneg a ss : amounts_ok ss → 0 ≤ demand_at a ss.
Proof. intros. by apply zsum_nonneg, amounts_nonneg. Qed.

Lemma fills_at_bounds a ss fs : fills_ok ss fs → 0 ≤ fills_at a ss fs ≤ demand_at a ss.
Proof.
  unfold fills_at, demand_at, fills_ok.
  induction 1 as [|s x ss fs Hx _ IH]; cbn [zip zip_with]; [done|].
  rewrite !zsum_cons, source_fill_if, source_demand_if. case_decide; lia.
Qed.

Lemma release_holds_cell h ss a :
  amounts_ok ss → 0 ≤ held_pending (cell held_zero h a) →
  held_pending (cell held_zero (release_holds h ss) a)
    = saturating_sub (held_pending (cell held_zero h a)) (demand_at a ss)
  ∧ held_consumed (cell held_zero (release_holds h ss) a) = held_consumed (cell held_zero h a).
Proof.
  unfold release_holds, demand_at. revert h. induction ss as [|s ss IH]; intros h Hss Hp; [cbn; u256|].
  pose proof (amounts_nonneg a _ Hss s ltac:(set_solver)) as Hs.
  apply Forall_cons in Hss as [_ Hss]. pose proof (demand_nonneg a ss Hss) as Hd.
  cbn [foldl]. unfold demand_at in Hd. destruct (IH (foldl (touch (sub_pending (src_amount s))) h (accounts s)))
    as [-> ->]; [done|rewrite touch_accounts; case_decide; cbn; u256|].
  rewrite touch_accounts, zsum_cons, source_demand_if. rewrite source_demand_if in Hs.
  case_decide; cbn; u256.
Qed.

Lemma settle_holds_cell h ss fs a :
  amounts_ok ss → fills_ok ss fs →
  0 ≤ held_pending (cell held_zero h a) → is_u256 (held_consumed (cell held_zero h a)) →
  held_pending (cell held_zero (settle_holds h ss fs) a)
    = saturating_sub (held_pending (cell held_zero h a)) (demand_at a ss)
  ∧ held_consumed (cell held_zero (settle_holds h ss fs) a)
    = saturating_add (held_consumed (cell held_zero h a)) (fills_at a ss fs).
Proof.
  unfold settle_holds, demand_at, fills_at. intros Hss Hfs. revert h Hss.
  induction Hfs as [|s x ss fs Hx Hfs IH]; intros h Hss Hp Hc; [cbn; u256|].
  pose proof (amounts_nonneg a _ Hss s ltac:(set_solver)) as Hs.
  apply Forall_cons in Hss as [Hsa Hss]. pose proof (demand_nonneg a ss Hss) as Hd.
  pose proof (fills_at_bounds a ss fs Hfs) as [Hf _].
  cbn [zip zip_with foldl]. unfold demand_at, fills_at in *.
  destruct (IH (foldl (touch (settle_fill (src_amount s) x)) h (accounts s))) as [-> ->];
    [done|rewrite touch_accounts; case_decide; cbn; u256..|].
  rewrite touch_accounts, !zsum_cons, source_demand_if, source_fill_if.
  rewrite source_demand_if in Hs. case_decide; cbn; u256.
Qed.

Lemma unconsume_holds_zip h ss fs :
  length fs = length ss →
  unconsume_holds h ss fs
  = foldl (λ h '(s, x), foldl (touch (sub_consumed x)) h (accounts s)) h (zip ss fs).
Proof.
  intros Hlen.
  assert (∀ pre h,
    foldl (λ h '(i, s), foldl (touch (sub_consumed (default 0 ((pre ++ fs) !! i)))) h (accounts s))
      h (imap (λ i s, ((length pre + i)%nat, s)) ss)
    = foldl (λ h '(s, x), foldl (touch (sub_consumed x)) h (accounts s)) h (zip ss fs)) as Hgen.
  { revert fs Hlen. induction ss as [|s ss IH]; intros [|x fs] Hlen pre h'; try done.
    injection Hlen as Hlen. cbn [imap zip zip_with foldl].
    rewrite Nat.add_0_r, list_lookup_middle by done. cbn [default from_option id].
    rewrite <-(IH fs Hlen (pre ++ [x])). rewrite <-app_assoc. f_equal.
    apply imap_ext. intros i y _. cbn. rewrite length_app. cbn. f_equal. lia. }
  apply (Hgen []).
Qed.

Lemma unconsume_holds_cell h ss fs a :
  fills_ok ss fs → 0 ≤ held_consumed (cell held_zero h a) →
  held_pending (cell held_zero (unconsume_holds h ss fs) a) = held_pending (cell held_zero h a)
  ∧ held_consumed (cell held_zero (unconsume_holds h ss fs) a)
    = saturating_sub (held_consumed (cell held_zero h a)) (fills_at a ss fs).
Proof.
  intros Hfs Hc. rewrite unconsume_holds_zip by (symmetry; by eapply Forall2_length).
  unfold fills_at. revert h Hc. induction Hfs as [|s x ss fs Hx Hfs IH]; intros h Hc; [cbn; u256|].
  pose proof (fills_at_bounds a ss fs Hfs) as [Hf _]. unfold fills_at in Hf.
  cbn [zip zip_with foldl].
  destruct (IH (foldl (touch (sub_consumed x)) h (accounts s))) as [-> ->];
    [rewrite touch_accounts; case_decide; cbn; u256|].
  rewrite touch_accounts, zsum_cons, source_fill_if. case_decide; cbn; u256.
Qed.

Lemma aggregate_demand_cell ss a :
  amounts_ok ss → cell 0 (aggregate_demand ss) a = Z.min (demand_at a ss) U256_MAX.
Proof.
  intros Hss. unfold aggregate_demand, demand_at.
  assert (∀ d, is_u256 (cell 0 d a) →
    cell 0 (foldl (λ d s, foldl (entry_update 0 (λ sum, saturating_add sum (src_amount s))) d
      (accounts s)) d ss) a = Z.min (cell 0 d a + zsum (source_demand a) ss) U256_MAX) as Hgen.
  { induction ss as [|s ss IH]; intros d Hd; [cbn; u256|].
    pose proof (amounts_nonneg a _ Hss s ltac:(set_solver)) as Hs.
    apply Forall_cons in Hss as [_ Hss]. pose proof (demand_nonneg a ss Hss) as Hn.
    cbn [foldl]. rewrite IH by (done || (rewrite cell_foldl_update by apply NoDup_accounts;
      rewrite source_demand_if in Hs; case_decide; u256)).
    rewrite cell_foldl_update by apply NoDup_accounts. rewrite zsum_cons, source_demand_if.
    rewrite source_demand_if in Hs. unfold demand_at in *. case_decide; u256. }
  rewrite Hgen; unfold cell; rewrite lookup_empty; cbn; [f_equal; lia|u256].
Qed.

Lemma restore_holds_cell h ss a :
  amounts_ok ss → is_u256 (held_pending (cell held_zero h a)) →
  let h' := foldl (λ h p, touch (add_pending p.2) h p.1) h (entries (aggregate_demand ss)) in
  held_pending (cell held_zero h' a)
    = saturating_add (held_pending (cell held_zero h a)) (Z.min (demand_at a ss) U256_MAX)
  ∧ held_consumed (cell held_zero h' a) = held_consumed (cell held_zero h a).
Proof.
  intros Hss Hp h'. unfold h', touch.
  rewrite (cell_foldl_pairs held_zero add_pending) by apply NoDup_keys.
  rewrite list_to_map_entries, <-aggregate_demand_cell by done. unfold cell in *.
  destruct (aggregate_demand ss !! a) as [x|]; cbn; u256.
Qed.

(** ** Effect of each command on the compartments *)

Lemma transition_held l id s : held (transition l id s) = held l.
Proof. unfold transition. by case_match. Qed.

Lemma transition_budgets l id s : budgets (transition l id s) = budgets l.
Proof. unfold transition. by case_match. Qed.

Lemma transition_filled l id s : filled (transition l id s) = filled l.
Proof. unfold transition. by case_match. Qed.

Lemma transition_reservations l id s r :
  reservations l !! id = Some r →
  reservations (transition l id s) = <[id := with_state r s]> (reservations l).
Proof. unfold transition. by intros ->. Qed.

Lemma active_sources_Ok l id ss :
  active_sources l id = Ok ss →
  ∃ r, reservations l !! id = Some r ∧ ss = res_sources r
       ∧ (res_state r = Pending ∨ res_state r = Committed).
Proof.
  unfold active_sources. intros H. simplify_res. exists x. case_match; simplify_res; eauto.
Qed.

Lemma pending_sources_Ok l id ss :
  pending_sources l id = Ok ss →
  ∃ r, reservations l !! id = Some r ∧ ss = res_sources r ∧ res_state r = Pending.
Proof.
  unfold pending_sources, require_state. intros H. simplify_res. exists x.
  case_decide; simplify_res; eauto.
Qed.

Lemma check_fills_Ok i ss fs :
  Forall is_u256 fs → length fs = length ss → check_fills i ss fs = Ok tt → fills_ok ss fs.
Proof.
  unfold fills_ok. revert i fs. induction ss as [|s ss IH]; intros i [|x fs] Hfs Hlen Hc;
    try done.
  apply Forall_cons in Hfs as [Hx Hfs]. cbn in Hc. case_match; [done|]. zbool.
  constructor; [u256|]. eapply IH; [done|by injection Hlen|done].
Qed.

Lemma can_reserve_Ok l r a :
  amounts_ok (res_sources r) → can_reserve l r = Ok tt →
  reservations l !! res_id r = None
  ∧ (0 < demand_at a (res_sources r) →
       Z.min (demand_at a (res_sources r)) U256_MAX ≤ available l a).
Proof.
  intros Hss. unfold can_reserve. case_match eqn:Hid; [done|]. intros Hfold. split; [done|].
  rewrite <-aggregate_demand_cell by done. unfold cell. intros Hpos.
  destruct (aggregate_demand (res_sources r) !! a) as [x|] eqn:Hx; cbn.
  - apply elem_of_entries in Hx. revert Hfold Hx.
    generalize (entries (aggregate_demand (res_sources r))).
    intros es. induction es as [|[b y] es IH]; cbn; [by intros _ ?%elem_of_nil|].
    case_match; [done|]. cbn. zbool. intros Hfold [[= <- <-]|Hx]%elem_of_cons; [lia|eauto].
  - rewrite available_held. u256.
Qed.

(** ** Preservation of the accounting invariant *)

(** A reservation's own contribution moves in step with its state. *)
Lemma map_sum_transition (f g : ReservationId → Reservation → Z) m id r s :
  m !! id = Some r →
  (∀ id' r', id' ≠ id → m !! id' = Some r' → g id' r' = f id' r') →
  map_sum g (<[id := with_state r s]> m) = map_sum f m - f id r + g id (with_state r s).
Proof.
  intros Hid Hother. rewrite (map_sum_insert_Some g m id r) by done.
  rewrite !(map_sum_delete _ m id r) by done.
  rewrite (map_sum_ext g f (delete id m)); [lia|].
  intros id' r' [Hne Hid']%lookup_delete_Some. by apply Hother.
Qed.

Lemma holds_nonneg l a : ledger_ok l → 0 ≤ pending l a ∧ 0 ≤ consumed l a.
Proof.
  intros Hok. rewrite (ok_pending l Hok), (ok_consumed l Hok). split.
  - apply map_sum_nonneg. intros id r Hr. unfold holds_of.
    case_match; try done; eapply demand_nonneg, ok_amounts; eauto.
  - apply map_sum_nonneg. intros id r Hr. unfold consumes_of. case_match eqn:Hs; try done.
    destruct (ok_filled l Hok id r Hr Hs) as (fs & -> & Hfs). cbn. by apply fills_at_bounds.
Qed.

Lemma active_demand_le l id r a :
  ledger_ok l → reservations l !! id = Some r →
  res_state r = Pending ∨ res_state r = Committed →
  demand_at a (res_sources r) ≤ pending l a.
Proof.
  intros Hok Hr Hs. rewrite (ok_pending l Hok).
  replace (demand_at a (res_sources r)) with (holds_of a r)
    by (unfold holds_of; by destruct Hs as [-> | ->]).
  apply (map_sum_lookup_le (λ _ r, holds_of a r) _ id); [|done].
  intros id' r' Hr'. unfold holds_of. case_match; try done; eapply demand_nonneg, ok_amounts; eauto.
Qed.

Lemma posted_fills_le l id r fs a :
  ledger_ok l → reservations l !! id = Some r → res_state r = Posted →
  filled l !! id = Some fs → fills_at a (res_sources r) fs ≤ consumed l a.
Proof.
  intros Hok Hr Hs Hfs. rewrite (ok_consumed l Hok).
  replace (fills_at a (res_sources r) fs) with (consumes_of (filled l) a id r)
    by (unfold consumes_of; by rewrite Hs, Hfs).
  apply (map_sum_lookup_le (consumes_of (filled l) a) _ id); [|done].
  intros id' r' Hr'. unfold consumes_of. case_match eqn:Hs'; try done.
  destruct (ok_filled l Hok id' r' Hr' Hs') as (fs' & -> & Hfs'). cbn. by apply fills_at_bounds.
Qed.

Lemma restore_spec l r a :
  ledger_ok l → reservations l !! res_id r = None →
  amounts_ok (res_sources r) →
  pending l a + consumed l a + demand_at a (res_sources r) ≤ U256_MAX →
  pending (restore l r) a = pending l a + demand_at a (res_sources r)
  ∧ consumed (restore l r) a = consumed l a.
Proof.
  intros Hok Hid Hss Hroom. destruct (holds_nonneg l a Hok) as [Hp Hc].
  pose proof (demand_nonneg a _ Hss). pose proof (ok_room l Hok a).
  unfold restore. rewrite Hid. rewrite !pending_cell, !consumed_cell in *. cbn [held].
  destruct (restore_holds_cell (held l) (res_sources r) a) as [-> ->]; [done|u256|u256].
Qed.

Lemma restore_ok l r :
  ledger_ok l → res_state r = Pending ∨ res_state r = Committed →
  amounts_ok (res_sources r) →
  (∀ a, pending l a + consumed l a + demand_at a (res_sources r) ≤ U256_MAX) →
  ledger_ok (restore l r).
Proof.
  intros Hok Hst Hss Hroom. destruct (reservations l !! res_id r) eqn:Hid.
  { unfold restore. by rewrite Hid. }
  pose proof (λ a, restore_spec l r a Hok Hid Hss (Hroom a)) as Hspec.
  assert (Hres : reservations (restore l r) = <[res_id r := r]> (reservations l)
               ∧ filled (restore l r) = filled l) by (unfold restore; by rewrite Hid).
  destruct Hres as [Hres Hfil].
  constructor; rewrite ?Hres, ?Hfil.
  - intros id r' [[<- <-]|[_ ?]]%lookup_insert_Some; [done|by eapply ok_id].
  - intros id r' [[<- <-]|[_ ?]]%lookup_insert_Some; [done|by eapply ok_amounts].
  - intros id r' [[<- <-]|[_ ?]]%lookup_insert_Some; [destruct Hst; congruence|by eapply ok_filled].
  - intros a. rewrite (proj1 (Hspec a)), map_sum_insert_None, (ok_pending l Hok) by done.
    unfold holds_of at 2. destruct Hst as [-> | ->]; lia.
  - intros a. rewrite (proj2 (Hspec a)), map_sum_insert_None, (ok_consumed l Hok) by done.
    unfold consumes_of at 2. destruct Hst as [-> | ->]; lia.
  - intros a. destruct (Hspec a) as [-> ->]. specialize (Hroom a). lia.
Qed.

(** Every lifecycle transition: one reservation changes state, the others and their
    recorded fills stay, and the compartments move by that reservation's share. *)
Lemma transition_ok l l' id r s :
  ledger_ok l → reservations l !! id = Some r →
  reservations l' = <[id := with_state r s]> (reservations l) →
  (∀ id', id' ≠ id → filled l' !! id' = filled l !! id') →
  (s = Posted → ∃ fs, filled l' !! id = Some fs ∧ fills_ok (res_sources r) fs) →
  (∀ a, pending l' a = pending l a - holds_of a r + holds_of a (with_state r s)) →
  (∀ a, consumed l' a = consumed l a - consumes_of (filled l) a id r
                        + consumes_of (filled l') a id (with_state r s)) →
  (∀ a, pending l' a + consumed l' a ≤ pending l a + consumed l a) →
  ledger_ok l'.
Proof.
  intros Hok Hr Hres Hfil Hpost Hp Hc Hroom. constructor; rewrite ?Hres.
  - intros id' r' [[<- <-]|[_ ?]]%lookup_insert_Some; [by apply (ok_id l Hok id r)|by apply (ok_id l Hok)].
  - intros id' r' [[<- <-]|[_ ?]]%lookup_insert_Some;
      [by apply (ok_amounts l Hok id r)|by eapply (ok_amounts l Hok)].
  - intros id' r' [[<- <-]|[Hne Hr']]%lookup_insert_Some; cbn; [done|].
    intros Hs. rewrite Hfil by done. by eapply (ok_filled l Hok).
  - intros a. rewrite Hp, (ok_pending l Hok).
    by rewrite (map_sum_transition (λ _ r, holds_of a r) (λ _ r, holds_of a r) _ id r).
  - intros a. rewrite Hc, (ok_consumed l Hok).
    rewrite (map_sum_transition (consumes_of (filled l) a) _ _ id r); [done..|].
    intros id' r' Hne _. unfold consumes_of. by rewrite Hfil.
  - intros a. specialize (Hroom a). pose proof (ok_room l Hok a). lia.
Qed.

Lemma commit_ok l id :
  ledger_ok l → ledger_ok (commit l id).2 ∧ held (commit l id).2 = held l.
Proof.
  intros Hok. unfold commit. destruct (reservations l !! id) as [r|] eqn:Hr; [|done].
  destruct (res_state r) eqn:Hs; cbn; try done. rewrite transition_held. split; [|done].
  apply (transition_ok l _ id r Committed); try done; [by apply transition_reservations|..].
  - intros id' _. by rewrite transition_filled.
  - intros a. rewrite !pending_cell, transition_held. unfold holds_of. rewrite Hs. cbn. lia.
  - intros a. rewrite !consumed_cell, transition_held. unfold consumes_of. rewrite Hs. cbn. lia.
  - intros a. by rewrite !pending_cell, !consumed_cell, transition_held.
Qed.

Lemma release_spec l id r s a :
  ledger_ok l → reservations l !! id = Some r →
  res_state r = Pending ∨ res_state r = Committed →
  pending (release_sources l id (res_sources r) s) a = pending l a - demand_at a (res_sources r)
  ∧ consumed (release_sources l id (res_sources r) s) a = consumed l a.
Proof.
  intros Hok Hr Hs. pose proof (active_demand_le l id r a Hok Hr Hs).
  destruct (holds_nonneg l a Hok) as [Hp _]. unfold release_sources.
  rewrite !pending_cell, !consumed_cell, transition_held in *. cbn [held set_held].
  destruct (release_holds_cell (held l) (res_sources r) a) as [-> ->];
    [by eapply ok_amounts|done|u256].
Qed.

Lemma release_ok l id r s :
  ledger_ok l → reservations l !! id = Some r →
  res_state r = Pending ∨ res_state r = Committed →
  s = Voided ∨ s = Expired →
  let l' := release_sources l id (res_sources r) s in
  ledger_ok l' ∧ ∀ a, pending l' a = pending l a - demand_at a (res_sources r)
                      ∧ consumed l' a = consumed l a.
Proof.
  intros Hok Hr Hs Ht l'. pose proof (λ a, release_spec l id r s a Hok Hr Hs) as Hspec.
  split; [|done]. eapply (transition_ok l l' id r s); try done.
  - unfold l', release_sources. by rewrite (transition_reservations _ _ _ r).
  - intros id' _. unfold l', release_sources. by rewrite transition_filled.
  - by destruct Ht as [-> | ->].
  - intros a. unfold l'. rewrite (proj1 (Hspec a)). unfold holds_of. cbn.
    destruct Hs as [-> | ->], Ht as [-> | ->]; lia.
  - intros a. unfold l'. rewrite (proj2 (Hspec a)). unfold consumes_of. cbn.
    destruct Hs as [-> | ->], Ht as [-> | ->]; lia.
  - intros a. unfold l'. destruct (Hspec a) as [-> ->].
    pose proof (demand_nonneg a _ (ok_amounts l Hok id r Hr)). lia.
Qed.

Lemma void_ok l id :
  ledger_ok l → (void l id).1 = Ok tt →
  ∃ r, reservations l !! id = Some r
  ∧ ledger_ok (void l id).2
  ∧ ∀ a, pending (void l id).2 a = pending l a - demand_at a (res_sources r)
         ∧ consumed (void l id).2 a = consumed l a.
Proof.
  intros Hok. unfold void, release_active.
  destruct (active_sources l id) as [ss|] eqn:Hact; [|done].
  apply active_sources_Ok in Hact as (r & Hr & -> & Hs). intros _. exists r. split; [done|].
  apply release_ok; auto.
Qed.

Lemma expire_ok l id :
  ledger_ok l → (expire l id).1 = Ok tt →
  ∃ r, reservations l !! id = Some r
  ∧ ledger_ok (expire l id).2
  ∧ ∀ a, pending (expire l id).2 a = pending l a - demand_at a (res_sources r)
         ∧ consumed (expire l id).2 a = consumed l a.
Proof.
  intros Hok. unfold expire. destruct (pending_sources l id) as [ss|] eqn:Hact; [|done].
  apply pending_sources_Ok in Hact as (r & Hr & -> & Hs). intros _. exists r. split; [done|].
  apply release_ok; auto.
Qed.

Lemma post_ok l id fills :
  ledger_ok l → Forall is_u256 fills → (post l id fills).1 = Ok tt →
  ∃ r, reservations l !! id = Some r ∧ fills_ok (res_sources r) fills
  ∧ ledger_ok (post l id fills).2
  ∧ ∀ a, pending (post l id fills).2 a = pending l a - demand_at a (res_sources r)
         ∧ consumed (post l id fills).2 a = consumed l a + fills_at a (res_sources r) fills.
Proof.
  intros Hok Hfs. unfold post. destruct (active_sources l id) as [ss|] eqn:Hact; [|done].
  apply active_sources_Ok in Hact as (r & Hr & -> & Hs).
  case_match eqn:Hlen; [done|]. apply negb_false_iff, Nat.eqb_eq in Hlen.
  destruct (check_fills 0 (res_sources r) fills) as [[]|] eqn:Hchk; [|done]. intros _. cbn.
  apply check_fills_Ok in Hchk; [|done..]. exists r. split; [done|]. split; [done|].
  set (l1 := mk_ledger _ _ _ _). set (l' := transition l1 id Posted).
  assert (Hspec : ∀ a, pending l' a = pending l a - demand_at a (res_sources r)
                     ∧ consumed l' a = consumed l a + fills_at a (res_sources r) fills).
  { intros a. pose proof (active_demand_le l id r a Hok Hr Hs).
    destruct (holds_nonneg l a Hok) as [Hp Hc]. pose proof (ok_room l Hok a).
    pose proof (fills_at_bounds a _ _ Hchk) as [? ?].
    unfold l', l1. rewrite !pending_cell, !consumed_cell, transition_held in *. cbn [held].
    destruct (settle_holds_cell (held l) (res_sources r) fills a) as [-> ->];
      [by eapply ok_amounts|done|done|u256|u256]. }
  split; [|done]. eapply (transition_ok l l' id r Posted); try done.
  - unfold l'. rewrite (transition_reservations _ _ _ r); done.
  - intros id' Hne. unfold l'. rewrite transition_filled. cbn. by rewrite lookup_insert_ne.
  - intros _. exists fills. unfold l'. rewrite transition_filled. cbn. by rewrite lookup_insert_eq.
  - intros a. rewrite (proj1 (Hspec a)). unfold holds_of. cbn. destruct Hs as [-> | ->]; lia.
  - intros a. rewrite (proj2 (Hspec a)). unfold consumes_of, l'. rewrite transition_filled. cbn.
    rewrite lookup_insert_eq. cbn. destruct Hs as [-> | ->]; lia.
  - intros a. destruct (Hspec a) as [-> ->]. pose proof (fills_at_bounds a _ _ Hchk). lia.
Qed.

Lemma void_reorg_ok l id :
  ledger_ok l → (void_reorg l id).1 = Ok tt →
  ∃ r fs, reservations l !! id = Some r ∧ filled l !! id = Some fs ∧ fills_ok (res_sources r) fs
  ∧ ledger_ok (void_reorg l id).2
  ∧ ∀ a, pending (void_reorg l id).2 a = pending l a
         ∧ consumed (void_reorg l id).2 a = consumed l a - fills_at a (res_sources r) fs.
Proof.
  intros Hok. unfold void_reorg, require_state.
  destruct (reservations l !! id) as [r|] eqn:Hr; [|done].
  case_decide as Hs; [|done]. intros _. destruct (ok_filled l Hok id r Hr Hs) as (fs & Hfil & Hfs).
  exists r, fs. split; [done|]. split; [done|]. split; [done|]. rewrite Hfil.
  change (default [] (Some fs)) with fs. cbn [snd].
  set (l1 := mk_ledger _ _ _ _). set (l' := transition l1 id ReorgOpen).
  assert (Hspec : ∀ a, pending l' a = pending l a
                     ∧ consumed l' a = consumed l a - fills_at a (res_sources r) fs).
  { intros a. pose proof (posted_fills_le l id r fs a Hok Hr Hs Hfil).
    destruct (holds_nonneg l a Hok) as [_ Hc]. unfold l', l1.
    rewrite !pending_cell, !consumed_cell, transition_held in *. cbn [held].
    destruct (unconsume_holds_cell (held l) (res_sources r) fs a) as [-> ->]; [done|done|u256]. }
  split; [|done]. eapply (transition_ok l l' id r ReorgOpen); try done.
  - unfold l'. rewrite (transition_reservations _ _ _ r); done.
  - intros id' Hne. unfold l'. rewrite transition_filled. cbn. by rewrite lookup_delete_ne.
  - intros a. rewrite (proj1 (Hspec a)). unfold holds_of. cbn. rewrite Hs. lia.
  - intros a. rewrite (proj2 (Hspec a)). unfold consumes_of. cbn. rewrite Hs, Hfil. cbn. lia.
  - intros a. destruct (Hspec a) as [-> ->]. pose proof (fills_at_bounds a _ _ Hfs). lia.
Qed.

(** ** Commands and sequences of commands *)

(** A refused command leaves the ledger exactly as it was. *)
Lemma exec_Err l c e : (exec l c).1 = Err e → (exec l c).2 = l.
Proof.
  destruct c; cbn; unfold reserve, commit, post, void, release_active, expire, void_reorg;
    repeat (case_match; cbn; try done).
Qed.

Lemma exec_budgets l c : budgets (exec l c).2 = budgets l.
Proof.
  destruct c; cbn; unfold reserve, restore, commit, post, void, release_active, expire, void_reorg,
    release_sources; repeat (case_match; cbn; try done); by rewrite ?transition_budgets.
Qed.

Lemma reserve_room l r a :
  ledger_ok l → reservation_ok r → can_reserve l r = Ok tt →
  pending l a + consumed l a + demand_at a (res_sources r) ≤ Z.max (pending l a + consumed l a) (budget l a).
Proof.
  intros Hok [Hss Hrep] Hcan. destruct (can_reserve_Ok l r a Hss Hcan) as [_ Hav].
  specialize (Hrep a). rewrite available_held in Hav. pose proof (demand_nonneg a _ Hss).
  destruct (holds_nonneg l a Hok). pose proof (ok_room l Hok a).
  destruct (Z.eq_dec (demand_at a (res_sources r)) 0); [lia|]. specialize (Hav ltac:(lia)). u256.
Qed.

Lemma reserve_ok l r :
  ledger_ok l → (∀ a, budget l a ≤ U256_MAX) → res_state r = Pending → reservation_ok r →
  (reserve l r).1 = Ok tt →
  ledger_ok (reserve l r).2
  ∧ ∀ a, pending (reserve l r).2 a = pending l a + demand_at a (res_sources r)
         ∧ consumed (reserve l r).2 a = consumed l a.
Proof.
  intros Hok Hb Hst Hr. unfold reserve. destruct (can_reserve l r) as [[]|] eqn:Hcan; [|done].
  intros _. cbn. pose proof (λ a, reserve_room l r a Hok Hr Hcan) as Hroom.
  destruct Hr as [Hss Hrep].
  assert (Hmax : ∀ a, pending l a + consumed l a + demand_at a (res_sources r) ≤ U256_MAX).
  { intros a. specialize (Hroom a). specialize (Hb a). pose proof (ok_room l Hok a). lia. }
  split; [by apply restore_ok; auto|]. intros a. apply restore_spec; try done.
  by apply (can_reserve_Ok l r a Hss Hcan).
Qed.

Lemma exec_ok l c :
  ledger_ok l → within_budget l → (∀ a, budget l a ≤ U256_MAX) → command_ok c →
  ledger_ok (exec l c).2 ∧ within_budget (exec l c).2.
Proof.
  intros Hok Hwb Hb Hc. destruct (exec l c).1 as [[]|e] eqn:Hres.
  2: { by rewrite (exec_Err l c e Hres). }
  assert (Hbud : ∀ a, budget (exec l c).2 a = budget l a)
    by (intros a; unfold budget; by rewrite exec_budgets).
  unfold within_budget. setoid_rewrite Hbud. destruct c as [r|id|id fills|id|id|id]; cbn in *.
  - destruct Hc as [Hst Hr]. destruct (reserve_ok l r Hok Hb Hst Hr Hres) as [Hok' Hspec].
    split; [done|]. intros a. destruct (Hspec a) as [-> ->]. specialize (Hwb a).
    assert (can_reserve l r = Ok tt) as Hcan
      by (unfold reserve in Hres; destruct (can_reserve l r) as [[]|]; done).
    pose proof (reserve_room l r a Hok Hr Hcan). lia.
  - destruct (commit_ok l id Hok) as [Hok' Hh]. split; [done|]. intros a.
    rewrite pending_cell, consumed_cell, Hh, <-pending_cell, <-consumed_cell. apply Hwb.
  - destruct (post_ok l id fills Hok Hc Hres) as (r & Hr & Hfs & Hok' & Hspec). split; [done|].
    intros a. destruct (Hspec a) as [-> ->]. specialize (Hwb a).
    pose proof (fills_at_bounds a _ _ Hfs). lia.
  - destruct (void_ok l id Hok Hres) as (r & Hr & Hok' & Hspec). split; [done|].
    intros a. destruct (Hspec a) as [-> ->]. specialize (Hwb a).
    pose proof (demand_nonneg a _ (ok_amounts l Hok id r Hr)). lia.
  - destruct (expire_ok l id Hok Hres) as (r & Hr & Hok' & Hspec). split; [done|].
    intros a. destruct (Hspec a) as [-> ->]. specialize (Hwb a).
    pose proof (demand_nonneg a _ (ok_amounts l Hok id r Hr)). lia.
  - destruct (void_reorg_ok l id Hok Hres) as (r & fs & Hr & Hfil & Hfs & Hok' & Hspec). split; [done|].
    intros a. destruct (Hspec a) as [-> ->]. specialize (Hwb a).
    pose proof (fills_at_bounds a _ _ Hfs). lia.
Qed.

Lemma run_ok cs l :
  ledger_ok l → within_budget l → (∀ a, budget l a ≤ U256_MAX) → Forall command_ok cs →
  ledger_ok (run l cs) ∧ within_budget (run l cs) ∧ budgets (run l cs) = budgets l.
Proof.
  unfold run. revert l. induction cs as [|c cs IH]; intros l Hok Hwb Hb Hcs; [done|].
  apply Forall_cons in Hcs as [Hc Hcs]. cbn. destruct (exec_ok l c Hok Hwb Hb Hc) as [Hok' Hwb'].
  assert (Hbud : budgets (exec l c).2 = budgets l) by apply exec_budgets.
  destruct (IH (exec l c).2 Hok' Hwb') as (H1 & H2 & H3); [|done|].
  - intros a. unfold budget. rewrite Hbud. apply Hb.
  - split_and!; [done..|]. by rewrite H3.
Qed.

Lemma available_exact l a :
  ledger_ok l → within_budget l → (∀ a, budget l a ≤ U256_MAX) →
  available l a = budget l a - pending l a - consumed l a.
Proof.
  intros Hok Hwb Hb. rewrite available_held. specialize (Hwb a). specialize (Hb a).
  pose proof (ok_room l Hok a). u256.
Qed.
