(* ===== verification/LedgerProperties.v ===== *)
(** * What the reservation engine guarantees

    The properties of [LedgerEngine] a caller relies on, from the accounting
    invariant of [LedgerInvariant]: admission, over-commitment, settlement, reorg
    compensation, the reservation lifecycle and the TTL sweep. *)

From S2P Require Import Prelude U256 Reservation LedgerEngine LedgerInvariant.

(** The transitions of the two-phase lifecycle. *)
Inductive allowed : ReservationState → ReservationState → Prop :=
| allowed_commit : allowed Pending Committed
| allowed_post s : s = Pending ∨ s = Committed → allowed s Posted
| allowed_void s : s = Pending ∨ s = Committed → allowed s Voided
| allowed_expire : allowed Pending Expired
| allowed_reorg : allowed Posted ReorgOpen.

(** A two-maker book for the witnesses: one wallet of 1000, its strategy of 600. *)
Definition demo_source (amount : U256) : ReservationSource :=
  {| src_maker := 1; src_strategy_hash := 7; src_token := 3; src_amount := amount |}.
Definition demo_wallet : AccountKey := WalletBudget 1 3.
Definition demo_virtual : AccountKey := StrategyVirtual 1 7 3.
Definition demo_ledger : Ledger :=
  set_budget (set_budget ledger_default demo_wallet 1000) demo_virtual 600.
Definition demo_reservation (id : ReservationId) (amount : U256) : Reservation :=
  for_swap id 99 [demo_source amount] 50.

Lemma default_ok bs : (∀ a x, bs !! a = Some x → is_u256 x) →
  ledger_ok (set_budgets ledger_default bs) ∧ within_budget (set_budgets ledger_default bs)
  ∧ ∀ a, budget (set_budgets ledger_default bs) a ≤ U256_MAX.
Proof.
  intros Hbs. split_and!.
  - constructor; cbn; try (intros ??; rewrite lookup_empty; done);
      intros a; unfold pending, consumed; cbn; rewrite lookup_empty, ?map_sum_empty; done.
  - intros a. unfold pending, consumed, budget. cbn. rewrite lookup_empty.
    destruct (bs !! a) eqn:E; cbn; [apply Hbs in E; u256|done].
  - intros a. unfold budget. cbn. destruct (bs !! a) eqn:E; cbn; [apply Hbs in E; u256|done].
Qed.

Lemma demo_ok : ledger_ok demo_ledger ∧ within_budget demo_ledger
  ∧ ∀ a, budget demo_ledger a ≤ U256_MAX.
Proof.
  change demo_ledger with (set_budgets ledger_default (<[demo_virtual := 600]> {[demo_wallet := 1000]})).
  apply default_ok. intros a x [[<- <-]|[_ [<- <-]%lookup_singleton_Some]]%lookup_insert_Some;
    by (split; vm_compute).
Qed.

Lemma demo_reservation_ok id amount : 0 ≤ amount ≤ 10 ^ 60 → reservation_ok (demo_reservation id amount).
Proof.
  intros Ha. pose proof U256_MAX_big. split.
  - repeat constructor; cbn; lia.
  - intros a. unfold demand_at, zsum, source_demand. cbn [demo_reservation for_swap Reservation_new
      res_sources foldr]. case_decide; cbn [demo_source src_amount]; lia.
Qed.

Lemma can_reserve_iff l r :
  can_reserve l r = Ok tt ↔
  reservations l !! res_id r = None ∧ ∀ a, cell 0 (aggregate_demand (res_sources r)) a ≤ available l a.
Proof.
  unfold can_reserve. case_match eqn:Hid; [naive_solver|].
  assert (Hall : (∀ a, cell 0 (aggregate_demand (res_sources r)) a ≤ available l a) ↔
    ∀ p, p ∈ entries (aggregate_demand (res_sources r)) → p.2 ≤ available l p.1).
  { split.
    - intros Hall [a x] Hx%elem_of_entries. specialize (Hall a). unfold cell in Hall.
      by rewrite Hx in Hall.
    - intros Hall a. unfold cell. destruct (aggregate_demand (res_sources r) !! a) as [x|] eqn:Hx; cbn.
      + by apply (Hall (a, x)), elem_of_entries.
      + rewrite available_held. u256. }
  rewrite Hall. clear Hall. generalize (entries (aggregate_demand (res_sources r))) as es.
  induction es as [|[a x] es IH]; cbn; [set_solver|].
  case_match eqn:Hx; cbn; zbool.
  - split; [done|]. intros [_ Hall]. specialize (Hall (a, x) ltac:(set_solver)). cbn in Hall. lia.
  - rewrite IH. split; intros [_ Hall]; (split; [done|]).
    + intros p [->|Hp]%elem_of_cons; [done|auto].
    + intros p Hp. apply Hall. set_solver.
Qed.

Lemma reserve_Ok_iff l r : (reserve l r).1 = Ok tt ↔ can_reserve l r = Ok tt.
Proof. unfold reserve. destruct (can_reserve l r) as [[]|]; cbn; split; congruence. Qed.

Lemma exec_lifecycle l c id r :
  reservations l !! id = Some r →
  ∃ s, reservations (exec l c).2 !! id = Some (with_state r s) ∧ (s = res_state r ∨ allowed (res_state r) s).
Proof.
  intros Hr.
  assert (Hsame : ∃ s, reservations l !! id = Some (with_state r s) ∧ (s = res_state r ∨ allowed (res_state r) s)).
  { exists (res_state r). split; [by destruct r|by left]. }
  assert (Hmove : ∀ l1 id' r' s, reservations l1 = reservations l → reservations l !! id' = Some r' →
    allowed (res_state r') s →
    ∃ s', reservations (transition l1 id' s) !! id = Some (with_state r s') ∧ (s' = res_state r ∨ allowed (res_state r) s')).
  { intros l1 id' r' s H1 Hr' Hal. rewrite (transition_reservations _ _ _ r') by congruence. rewrite H1.
    destruct (decide (id' = id)) as [->|Hne].
    - simplify_eq. exists s. rewrite lookup_insert_eq. auto.
    - by rewrite lookup_insert_ne. }
  destruct (exec l c).1 as [[]|e] eqn:Hres; [|by rewrite (exec_Err l c e)].
  destruct c as [r0|id0|id0 fills|id0|id0|id0]; cbn in *.
  - unfold reserve, restore in *. repeat case_match; cbn; try done.
    rewrite lookup_insert_ne; [done|]. intros Heq. congruence.
  - unfold commit in *. repeat (case_match; cbn in *; try done); eapply Hmove; try done.
    by (match goal with H : res_state _ = _ |- _ => rewrite H end; constructor).
  - unfold post in *. destruct (active_sources l id0) as [ss|] eqn:Ha; cbn in *; [|done].
    apply active_sources_Ok in Ha as (r0 & Hr0 & -> & Hs). repeat (case_match; cbn in *; try done).
    eapply Hmove; [done..|]. by constructor.
  - unfold void, release_active in *. destruct (active_sources l id0) as [ss|] eqn:Ha; cbn in *; [|done].
    apply active_sources_Ok in Ha as (r0 & Hr0 & -> & Hs). eapply Hmove; [done..|]. by constructor.
  - unfold expire in *. destruct (pending_sources l id0) as [ss|] eqn:Ha; cbn in *; [|done].
    apply pending_sources_Ok in Ha as (r0 & Hr0 & -> & Hs). eapply Hmove; [done..|]. rewrite Hs. constructor.
  - unfold void_reorg, require_state in *. repeat (case_match; cbn in *; try done).
    case_decide as Hs; [|done]. eapply Hmove; [done..|]. rewrite Hs. constructor.
Qed.

(** ** Properties *)

(** C1: starting from an accounted ledger within its budgets, no sequence of engine
    commands ever promises more of an account than its budget: the incremental holds stay the
    sum over the reservations, [pending + consumed] stays within the budget at every ceiling,
    and the available room is exactly what is left (no saturation ever hides a loss). *)
Theorem ledger_never_over_promises l cs :
  ledger_ok l → within_budget l → (∀ a, budget l a ≤ U256_MAX) → Forall command_ok cs →
  ledger_ok (run l cs)
  ∧ ∀ a, pending (run l cs) a + consumed (run l cs) a ≤ budget l a
         ∧ available (run l cs) a = budget l a - pending (run l cs) a - consumed (run l cs) a.
Proof.
  intros Hok Hwb Hb Hcs. destruct (run_ok cs l Hok Hwb Hb Hcs) as (Hok' & Hwb' & Hbud).
  assert (Hbud' : ∀ a, budget (run l cs) a = budget l a) by (intros a; unfold budget; by rewrite Hbud).
  split; [done|]. intros a. rewrite <-Hbud'. split; [apply Hwb'|].
  apply available_exact; [done..|]. intros b. by rewrite Hbud'.
Qed.

Lemma ledger_never_over_promises_witness :
  let cs := [Reserve (demo_reservation 1 400); Reserve (demo_reservation 2 300);
             Post 1 [350]; VoidReorg 1; Reserve (demo_reservation 3 600)] in
  available (run demo_ledger cs) demo_virtual = 0 ∧ pending (run demo_ledger cs) demo_virtual ≤ 600.
Proof.
  intros cs. split; [by vm_compute|].
  destruct demo_ok as (Hok & Hwb & Hb).
  pose proof (ledger_never_over_promises demo_ledger cs Hok Hwb Hb) as Hmain.
  assert (Hcs : Forall command_ok cs).
  { repeat (apply Forall_cons_2 || apply Forall_nil_2); cbn; try done;
      try (split; [done|apply demo_reservation_ok; lia]). }
  destruct (Hmain Hcs) as [_ Ha]. destruct (Ha demo_virtual) as [Hle _].
  change (budget demo_ledger demo_virtual) with 600 in Hle. vm_compute. discriminate.
Defined.

(** C2: admission is exactly the two-ceiling test: [reserve] succeeds if and only if the id
    is fresh and at every account (shared wallet and strategy virtual) the aggregate demand fits
    the available room; then it holds precisely that demand at both ceilings and nothing else,
    and otherwise the ledger is unchanged. *)
Theorem reserve_admission l r :
  ledger_ok l → (∀ a, budget l a ≤ U256_MAX) → res_state r = Pending → reservation_ok r →
  ((reserve l r).1 = Ok tt ↔
     reservation l (res_id r) = None ∧ ∀ a, demand_at a (res_sources r) ≤ available l a)
  ∧ ((reserve l r).1 = Ok tt →
       reservation (reserve l r).2 (res_id r) = Some r
       ∧ ∀ a, pending (reserve l r).2 a = pending l a + demand_at a (res_sources r)
              ∧ consumed (reserve l r).2 a = consumed l a)
  ∧ (∀ e, (reserve l r).1 = Err e → (reserve l r).2 = l).
Proof.
  intros Hok Hb Hst [Hss Hrep]. split_and!.
  - rewrite reserve_Ok_iff, can_reserve_iff.
    assert (Hc : ∀ a, cell 0 (aggregate_demand (res_sources r)) a = demand_at a (res_sources r)).
    { intros a. rewrite aggregate_demand_cell by done. specialize (Hrep a). lia. }
    by setoid_rewrite Hc.
  - intros Hres. split; [|by apply reserve_ok].
    apply reserve_Ok_iff in Hres as Hcan. unfold reserve. rewrite Hcan. cbn.
    unfold reservation, restore. apply can_reserve_iff in Hcan as [-> _]. cbn. apply lookup_insert_eq.
  - intros e. apply (exec_Err l (Reserve r)).
Qed.

Lemma reserve_admission_witness :
  (reserve demo_ledger (demo_reservation 1 600)).1 = Ok tt
  ∧ (reserve demo_ledger (demo_reservation 1 601)).1
    = Err (Insufficient (mk_shortfall demo_virtual 601 600))
  ∧ pending (reserve demo_ledger (demo_reservation 1 600)).2 demo_wallet = 600.
Proof.
  split; [by vm_compute|]. split; [by vm_compute|].
  destruct demo_ok as (Hok & _ & Hb).
  destruct (reserve_admission demo_ledger (demo_reservation 1 600) Hok Hb eq_refl
              (demo_reservation_ok 1 600 ltac:(lia))) as (_ & Hhold & _).
  destruct (Hhold ltac:(by vm_compute)) as [_ Ha]. rewrite (proj1 (Ha demo_wallet)). by vm_compute.
Defined.

(** Forced contention: once a reservation is admitted, a second one whose demand no longer
    fits what the first left of some account is refused with [Insufficient] (or as a duplicate),
    whatever the order or the other accounts, and changes nothing. *)
Theorem forced_contention l r1 r2 a :
  ledger_ok l → within_budget l → (∀ b, budget l b ≤ U256_MAX) →
  res_state r1 = Pending → reservation_ok r1 → reservation_ok r2 →
  (reserve l r1).1 = Ok tt →
  available l a < demand_at a (res_sources r1) + demand_at a (res_sources r2) →
  (0 < demand_at a (res_sources r2)) →
  let l1 := (reserve l r1).2 in
  (reserve l1 r2).2 = l1
  ∧ ((reserve l1 r2).1 = Err (Duplicate (res_id r2))
     ∨ ∃ s, (reserve l1 r2).1 = Err (Insufficient s)
            ∧ short_available s < short_requested s).
Proof.
  intros Hok Hwb Hb Hst Hr1 [Hss2 Hrep2] Hres Hover Hpos l1.
  destruct (reserve_ok l r1 Hok Hb Hst Hr1 Hres) as [Hok1 Hspec].
  destruct (exec_ok l (Reserve r1) Hok Hwb Hb (conj Hst Hr1)) as [_ Hwb1]. cbn in Hwb1.
  assert (Hbud : ∀ b, budget l1 b = budget l b)
    by (intros b; unfold budget; f_equal; f_equal; apply (exec_budgets l (Reserve r1))).
  rewrite available_exact in Hover by done.
  destruct (reserve l1 r2).1 as [[]|e] eqn:Hres2.
  - exfalso. apply reserve_Ok_iff, can_reserve_iff in Hres2 as [_ Hall]. specialize (Hall a).
    assert (Hb1 : ∀ b, budget l1 b ≤ U256_MAX) by (intros b; rewrite Hbud; apply Hb).
    rewrite aggregate_demand_cell, (available_exact l1 a Hok1 Hwb1 Hb1) in Hall by done.
    rewrite Hbud in Hall. unfold l1 in Hall. destruct (Hspec a) as [Hp Hc]. rewrite Hp, Hc in Hall.
    specialize (Hrep2 a). lia.
  - split; [by apply (exec_Err l1 (Reserve r2) e)|].
    unfold reserve in Hres2. destruct (can_reserve l1 r2) as [|e'] eqn:Hcan; cbn in Hres2; [done|].
    simplify_eq. unfold can_reserve in Hcan. case_match; [left; congruence|right].
    revert Hcan. generalize (entries (aggregate_demand (res_sources r2))) as es.
    induction es as [|[b x] es IH]; cbn; [done|]. case_match eqn:Hx; cbn; [|done].
    zbool. intros [= <-]. eauto.
Qed.

Lemma forced_contention_witness :
  let l1 := (reserve demo_ledger (demo_reservation 1 400)).2 in
  (reserve l1 (demo_reservation 2 300)).2 = l1.
Proof.
  destruct demo_ok as (Hok & Hwb & Hb).
  apply (forced_contention demo_ledger (demo_reservation 1 400) (demo_reservation 2 300) demo_virtual
    Hok Hwb Hb eq_refl (demo_reservation_ok 1 400 ltac:(lia)) (demo_reservation_ok 2 300 ltac:(lia)));
    by vm_compute.
Defined.

(** C10: settlement and its reversal: a successful [post] with the amounts actually pulled
    moves each source's whole hold out of pending, consumes exactly the filled part at both
    ceilings (the unfilled remainder is available again), and a later [void_reorg] gives the
    consumed part back, leaving the compartments as if the reservation had been voided. *)
Theorem reorg_compensates_post l id fills :
  ledger_ok l → Forall is_u256 fills → (post l id fills).1 = Ok tt →
  let l1 := (post l id fills).2 in
  let l2 := (void_reorg l1 id).2 in
  ∃ r, reservation l id = Some r
  ∧ (∀ a, pending l1 a = pending l a - demand_at a (res_sources r)
          ∧ consumed l1 a = consumed l a + fills_at a (res_sources r) fills)
  ∧ (void_reorg l1 id).1 = Ok tt
  ∧ reservation l2 id = Some (with_state r ReorgOpen)
  ∧ ∀ a, pending l2 a = pending (void l id).2 a ∧ consumed l2 a = consumed (void l id).2 a.
Proof.
  intros Hok Hfs Hres l1 l2. destruct (post_ok l id fills Hok Hfs Hres) as (r & Hr & Hf & Hok1 & Hspec).
  exists r. split; [done|]. split; [done|].
  assert (Hl1 : reservations l1 !! id = Some (with_state r Posted) ∧ filled l1 !! id = Some fills
              ∧ (void l id).1 = Ok tt).
  { unfold l1. unfold void, release_active, post in *.
    destruct (active_sources l id) eqn:Ha; [|done]. repeat (case_match; cbn in *; try done).
    rewrite (transition_reservations _ _ _ r) by done. rewrite transition_filled. cbn.
    by rewrite !lookup_insert_eq. }
  destruct Hl1 as (Hr1 & Hf1 & Hvoid).
  assert (Hre : (void_reorg l1 id).1 = Ok tt)
    by (unfold void_reorg, require_state; by rewrite Hr1, decide_True).
  split; [done|]. destruct (void_reorg_ok l1 id Hok1 Hre) as (r1 & fs1 & Hr1' & Hf1' & _ & _ & Hspec2).
  destruct (void_ok l id Hok Hvoid) as (r2 & Hr2 & _ & Hspec3).
  assert (r2 = r) as -> by congruence. assert (r1 = with_state r Posted) as -> by congruence.
  assert (fs1 = fills) as -> by congruence. split.
  - unfold l2, void_reorg, require_state. rewrite Hr1, decide_True by done.
    unfold reservation. cbn [snd]. rewrite (transition_reservations _ _ _ (with_state r Posted)) by done. by rewrite lookup_insert_eq.
  - intros a. unfold l2. destruct (Hspec2 a) as [-> ->], (Hspec3 a) as [-> ->].
    unfold l1. destruct (Hspec a) as [-> ->]. cbn. lia.
Qed.

Lemma reorg_compensates_post_witness :
  let l := (reserve demo_ledger (demo_reservation 1 400)).2 in
  (post l 1 [350]).1 = Ok tt ∧ (void_reorg (post l 1 [350]).2 1).1 = Ok tt.
Proof.
  intros l. split; [by vm_compute|].
  destruct demo_ok as (Hok & Hwb & Hb).
  assert (Hl : ledger_ok l).
  { apply reserve_ok; [done..| |by vm_compute]. apply demo_reservation_ok. lia. }
  destruct (reorg_compensates_post l 1 [350] Hl) as (r & _ & _ & Hre & _);
    [by repeat constructor|by vm_compute|done].
Defined.

(** The lifecycle is a one-way state machine: whatever commands run, a known reservation
    is never lost, keeps its id, owner, sources and deadline, and its state only moves along
    [Pending -> Committed -> Posted | Voided], [Pending -> Posted | Voided | Expired] and
    [Posted -> ReorgOpen]. In particular a committed hold can never expire. *)
Theorem lifecycle_is_one_way l cs id r :
  reservation l id = Some r →
  ∃ s, reservation (run l cs) id = Some (with_state r s) ∧ rtc allowed (res_state r) s
       ∧ (res_state r = Committed → s ≠ Expired).
Proof.
  unfold reservation, run. intros Hr.
  assert (Hrun : ∃ s, reservations (foldl (λ l c, (exec l c).2) l cs) !! id = Some (with_state r s)
                      ∧ rtc allowed (res_state r) s).
  { revert l r Hr. induction cs as [|c cs IH]; intros l r Hr; cbn.
    - exists (res_state r). split; [by destruct r|done].
    - destruct (exec_lifecycle l c id r Hr) as (s & Hs & Hal).
      destruct (IH _ _ Hs) as (s' & Hs' & Hrtc). exists s'. split; [done|]. cbn in Hrtc.
      destruct Hal as [->|Hal]; [done|]. by eapply rtc_l. }
  destruct Hrun as (s & Hs & Hrtc). exists s. split_and!; [done..|]. intros Hc ->. rewrite Hc in Hrtc.
  assert (∀ s', rtc allowed Committed s' → s' ≠ Expired ∧ s' ≠ Pending) as Hinv; [|by apply Hinv in Hrtc as [? _]].
  clear. intros s' Hrtc. remember Committed as c eqn:Hc.
  assert (c ≠ Expired ∧ c ≠ Pending) as Hc' by (by subst). clear Hc.
  induction Hrtc as [c|x y z Hxy _ IH]; [done|]. apply IH. inversion Hxy; subst; naive_solver.
Qed.

Lemma lifecycle_is_one_way_witness :
  let l := (reserve demo_ledger (demo_reservation 1 400)).2 in
  ∃ s, reservation (run l [Commit 1; Expire 1; Post 1 [400]]) 1
       = Some (with_state (demo_reservation 1 400) s) ∧ rtc allowed Pending s.
Proof.
  intros l.
  destruct (lifecycle_is_one_way l [Commit 1; Expire 1; Post 1 [400]] 1 (demo_reservation 1 400))
    as (s & Hs & Hrtc & _); [by vm_compute|]. exists s. exact (conj Hs Hrtc).
Defined.

(** the TTL sweep selects exactly the pending swap reservations whose deadline has passed:
    never a committed, terminal or rebate-owned one, and each at most once. *)
Theorem sweep_selects_elapsed_swaps l now :
  ledger_ok l →
  NoDup (expired_swaps_as_of l now)
  ∧ ∀ id, id ∈ expired_swaps_as_of l now ↔
      ∃ r i, reservation l id = Some r ∧ res_state r = Pending ∧ res_owner r = Swap i
             ∧ res_expires_at r ≤ now.
Proof.
  intros Hok. unfold expired_swaps_as_of, reservation. split.
  - assert (Hid : res_id <$> values (reservations l) = keys (reservations l)).
    { unfold values, keys. rewrite <-list_fmap_compose. apply list_fmap_ext. intros i [k r] Hk. cbn.
      apply (ok_id l Hok), elem_of_entries. by eapply list_elem_of_lookup_2. }
    assert (Hnd : NoDup (res_id <$> values (reservations l))) by (rewrite Hid; apply NoDup_keys).
    by apply NoDup_fmap_filter.
  - intros id. rewrite list_elem_of_fmap. split.
    + intros (r & -> & Hr). apply list_elem_of_filter in Hr as [(Hs & He & Ho) Hr].
      apply elem_of_values in Hr as [k Hk]. rewrite (ok_id l Hok k r Hk).
      destruct (res_owner r) as [i|] eqn:Hown; [|done]. eauto 8.
    + intros (r & i & Hr & Hs & Ho & He). exists r. split; [symmetry; by apply (ok_id l Hok)|].
      apply list_elem_of_filter. split; [by rewrite Ho|]. apply elem_of_values. eauto.
Qed.

Lemma sweep_selects_elapsed_swaps_witness :
  let l := (reserve demo_ledger (demo_reservation 1 400)).2 in
  expired_swaps_as_of l 50 = [1] ∧ expired_swaps_as_of l 49 = [] ∧ NoDup (expired_swaps_as_of l 50).
Proof.
  intros l. split; [by vm_compute|]. split; [by vm_compute|].
  destruct demo_ok as (Hok & Hwb & Hb).
  apply (sweep_selects_elapsed_swaps l 50).
  apply reserve_ok; [done..| |by vm_compute]. apply demo_reservation_ok. lia.
Defined.
