(* ===== verification/LedgerStore.v ===== *)
(** * The durable ledger store

    The [LedgerStore] port ([crates/core/src/deps/ledger/store.rs]) as a class of
    commands with the laws the service relies on, and its SQLite implementation
    ([crates/adapters/src/ledger/sqlite_store.rs]) as an instance.

    Each SQL statement either runs or reports a database failure; which of the two
    happens is outside the program, so the database carries the outcomes of the
    statements to come ([db_outcomes], [true] for success, an exhausted list for
    success) and consumes one per statement.  A failed statement, and a transaction
    that does not reach its commit, change nothing. *)

From stdpp Require Import strings.
From S2P Require Import Prelude U256 Reservation.

Inductive LedgerStoreError : Type :=
| Conflict (id : ReservationId)
| Db.

(** ** The port *)

Class LedgerStore (St : Type) := {
  store_reserve : Reservation → cmd St LedgerStoreError unit;
  store_commit : ReservationId → cmd St LedgerStoreError unit;
  store_post : ReservationId → list U256 → cmd St LedgerStoreError unit;
  store_void : ReservationId → cmd St LedgerStoreError unit;
  store_expire : ReservationId → cmd St LedgerStoreError unit;
  store_void_reorg : ReservationId → cmd St LedgerStoreError unit;
  open_reservations : cmd St LedgerStoreError (list Reservation)
}.

(** A durable transition fires only from the expected states. *)
Definition durable_move (from : list ReservationState) (to : ReservationState)
    (id : ReservationId) (m : gmap ReservationId Reservation) : gmap ReservationId Reservation :=
  match m !! id with
  | Some r => if decide (res_state r ∈ from) then <[id := with_state r to]> m else m
  | None => m
  end.

Definition is_open (s : ReservationState) : Prop := s = Pending ∨ s = Committed.

#[global] Instance is_open_dec s : Decision (is_open s).
Proof. unfold is_open. apply _. Defined.

(** What a reservation must be for a store to accept it: freshly created, with a 64-bit deadline. *)
Definition storable (r : Reservation) : Prop := res_state r = Pending ∧ 0 ≤ res_expires_at r.

(** A move command either applies its durable move or fails without a trace. *)
Definition move_law {St} (durable : St → gmap ReservationId Reservation)
    (op : cmd St LedgerStoreError unit) (from : list ReservationState) (to : ReservationState)
    (id : ReservationId) : Prop :=
  ∀ s, match op s with
       | (Ok _, s') => durable s' = durable_move from to id (durable s)
       | (Err _, s') => durable s' = durable s
       end.

(** What a posting records beside its move: the amounts, for a hold that is open. *)
Definition durable_book (id : ReservationId) (fills : list U256) (m : gmap ReservationId Reservation)
    (d : gmap ReservationId (list U256)) : gmap ReservationId (list U256) :=
  match m !! id with
  | Some r => if decide (res_state r ∈ [Pending; Committed]) then <[id := fills]> d else d
  | None => d
  end.

Definition fills_law {St A} (fills : St → gmap ReservationId (list U256)) (op : cmd St LedgerStoreError A) : Prop :=
  ∀ s, fills (op s).2 = fills s.

(** The contract of the port, over the durable reservations a store represents and the amounts it recorded for the
    posted ones. *)
Class LedgerStoreLaws (St : Type) `{LedgerStore St} := {
  durable : St → gmap ReservationId Reservation;
  durable_fills : St → gmap ReservationId (list U256);
  reserve_law r s : storable r →
    match store_reserve r s with
    | (Ok _, s') => durable s' = <[res_id r := r]> (durable s)
                    ∧ (durable s !! res_id r = None ∨ durable s !! res_id r = Some r)
    | (Err _, s') => durable s' = durable s
    end;
  commit_law id : move_law durable (store_commit id) [Pending] Committed id;
  post_law id fills : move_law durable (store_post id fills) [Pending; Committed] Posted id;
  void_law id : move_law durable (store_void id) [Pending; Committed] Voided id;
  expire_law id : move_law durable (store_expire id) [Pending] Expired id;
  void_reorg_law id : move_law durable (store_void_reorg id) [Posted] ReorgOpen id;
  open_law s :
    match open_reservations s with
    | (Ok rs, s') => durable s' = durable s ∧ NoDup (res_id <$> rs)
        ∧ ∀ r, r ∈ rs ↔ ∃ id, durable s !! id = Some r ∧ is_open (res_state r) ∧ res_id r = id
    | (Err _, s') => durable s' = durable s
    end;
  post_fills_law id fills s :
    match store_post id fills s with
    | (Ok _, s') => durable_fills s' = durable_book id fills (durable s) (durable_fills s)
    | (Err _, s') => durable_fills s' = durable_fills s
    end;
  reserve_fills_law r : fills_law durable_fills (store_reserve r);
  commit_fills_law id : fills_law durable_fills (store_commit id);
  void_fills_law id : fills_law durable_fills (store_void id);
  expire_fills_law id : fills_law durable_fills (store_expire id);
  void_reorg_fills_law id : fills_law durable_fills (store_void_reorg id);
  open_fills_law : fills_law durable_fills open_reservations
}.

(** ** SQLite *)

Record Row := mk_row {
  row_owner_kind : string;
  row_owner_id : B256;
  row_sources : list ReservationSource;
  row_state : string;
  row_filled : option (list U256);
  row_expires_at : Z
}.

(** The [ledger_reservation] table, keyed by the reservation id. *)
Record Sqlite := mk_sqlite {
  table : gmap ReservationId Row;
  db_outcomes : list bool
}.

Definition I64_MAX : Z := 2 ^ 63 - 1.

Definition i64_of (value : Z) : result LedgerStoreError Z :=
  if value <=? I64_MAX then Ok value else Err Db.

(** Run one statement: [map_err(db)?] on its outcome. *)
Definition statement : cmd Sqlite LedgerStoreError unit := λ db,
  match db_outcomes db with
  | [] => (Ok tt, db)
  | true :: rest => (Ok tt, mk_sqlite (table db) rest)
  | false :: rest => (Err Db, mk_sqlite (table db) rest)
  end.

Definition set_table (t : gmap ReservationId Row) : cmd Sqlite LedgerStoreError unit :=
  modify (λ db, mk_sqlite t (db_outcomes db)).

Definition with_row_state (row : Row) (to : string) : Row :=
  mk_row (row_owner_kind row) (row_owner_id row) (row_sources row) to (row_filled row)
    (row_expires_at row).

(** [UPDATE ledger_reservation SET state = to WHERE id = ? AND state IN from] *)
Definition update_state (t : gmap ReservationId Row) (id : ReservationId) (to : string)
    (from : list string) (f : Row → Row) : gmap ReservationId Row :=
  match t !! id with
  | Some row => if decide (row_state row ∈ from) then <[id := with_row_state (f row) to]> t else t
  | None => t
  end.

Definition sqlite_transition (id : ReservationId) (to from : string) : cmd Sqlite LedgerStoreError unit :=
  _ ← statement;
  t ← gets table;
  set_table (update_state t id to [from] (λ row, row)).

Definition sqlite_reserve (r : Reservation) : cmd Sqlite LedgerStoreError unit :=
  _ ← statement; (* begin *)
  expires ← lift (i64_of (res_expires_at r));
  _ ← statement; (* insert .. on conflict do nothing *)
  t ← gets table;
  match t !! res_id r with
  | None =>
      _ ← statement; (* commit *)
      set_table (<[res_id r := mk_row (owner_kind (res_owner r)) (owner_id (res_owner r))
                                 (res_sources r) "pending" None expires]> t)
  | Some stored =>
      _ ← statement; (* select *)
      let exact := bool_decide (row_state stored = "pending"%string)
        && bool_decide (row_owner_kind stored = owner_kind (res_owner r))
        && bool_decide (row_owner_id stored = owner_id (res_owner r))
        && bool_decide (row_sources stored = res_sources r)
        && bool_decide (row_expires_at stored = expires) in
      _ ← statement; (* commit *)
      if exact then mret tt else fail (Conflict (res_id r))
  end.

Definition sqlite_commit (id : ReservationId) : cmd Sqlite LedgerStoreError unit :=
  sqlite_transition id "committed" "pending".

Definition sqlite_post (id : ReservationId) (fills : list U256) : cmd Sqlite LedgerStoreError unit :=
  _ ← statement;
  t ← gets table;
  set_table (update_state t id "posted" ["pending"; "committed"]%string
    (λ row, mk_row (row_owner_kind row) (row_owner_id row) (row_sources row) (row_state row)
              (Some fills) (row_expires_at row))).

Definition sqlite_void (id : ReservationId) : cmd Sqlite LedgerStoreError unit :=
  _ ← statement;
  t ← gets table;
  set_table (update_state t id "voided" ["pending"; "committed"]%string (λ row, row)).

Definition sqlite_expire (id : ReservationId) : cmd Sqlite LedgerStoreError unit :=
  sqlite_transition id "expired" "pending".

Definition sqlite_void_reorg (id : ReservationId) : cmd Sqlite LedgerStoreError unit :=
  sqlite_transition id "reorg_open" "posted".

Definition decode_owner (kind : string) (id : B256) : option ReservationOwner :=
  if decide (kind = "swap"%string) then Some (Swap id)
  else if decide (kind = "rebate"%string) then Some (Rebate id)
  else None.

Definition decode_open_state (s : string) : option ReservationState :=
  if decide (s = "pending"%string) then Some Pending
  else if decide (s = "committed"%string) then Some Committed
  else None.

(** [expires_at as u64] of a signed column. *)
Definition as_u64 (z : Z) : Z := z mod 2 ^ 64.

Definition decode_open_row (p : ReservationId * Row) : result LedgerStoreError Reservation :=
  owner ← ok_or (decode_owner (row_owner_kind p.2) (row_owner_id p.2)) Db;
  let reservation := Reservation_new p.1 owner (row_sources p.2) (as_u64 (row_expires_at p.2)) in
  state ← ok_or (decode_open_state (row_state p.2)) Db;
  Ok (with_state reservation state).

(** [iter().map(f).collect::<Result<Vec<_>, _>>()] *)
Fixpoint collect {E A B} (f : A → result E B) (l : list A) : result E (list B) :=
  match l with
  | [] => Ok []
  | x :: l' => y ← f x; ys ← collect f l'; Ok (y :: ys)
  end.

Definition sqlite_open_reservations : cmd Sqlite LedgerStoreError (list Reservation) :=
  _ ← statement;
  t ← gets table;
  lift (collect decode_open_row
    (filter (λ p, row_state p.2 ∈ ["pending"; "committed"]%string) (entries t))).

#[global] Instance SqliteLedgerStore : LedgerStore Sqlite := {|
  store_reserve := sqlite_reserve;
  store_commit := sqlite_commit;
  store_post := sqlite_post;
  store_void := sqlite_void;
  store_expire := sqlite_expire;
  store_void_reorg := sqlite_void_reorg;
  open_reservations := sqlite_open_reservations
|}.

(** ** SQLite meets the contract *)

Definition state_label (s : ReservationState) : string :=
  match s with
  | Pending => "pending" | Committed => "committed" | Posted => "posted"
  | Voided => "voided" | Expired => "expired" | ReorgOpen => "reorg_open"
  end.

Definition decode_state (s : string) : option ReservationState :=
  list_find (λ st, state_label st = s) [Pending; Committed; Posted; Voided; Expired; ReorgOpen]
  ≫= λ p, Some p.2.

Definition decode_row (id : ReservationId) (row : Row) : option Reservation :=
  owner ← decode_owner (row_owner_kind row) (row_owner_id row);
  state ← decode_state (row_state row);
  Some (mk_reservation id owner (row_sources row) state (as_u64 (row_expires_at row))).

Definition sqlite_durable (db : Sqlite) : gmap ReservationId Reservation :=
  map_imap decode_row (table db).

(** The [filled] column of the rows that read as reservations. *)
Definition sqlite_fills (db : Sqlite) : gmap ReservationId (list U256) :=
  map_imap (λ id row, _ ← decode_row id row; row_filled row) (table db).

#[local] Arguments decode_state : simpl never.
#[local] Arguments decode_owner : simpl never.
#[local] Arguments state_label : simpl never.
#[local] Arguments as_u64 : simpl never.

Lemma decode_state_label s : decode_state (state_label s) = Some s.
Proof. by destruct s; vm_compute. Qed.

Lemma decode_state_inv l s : decode_state l = Some s → l = state_label s.
Proof.
  unfold decode_state. intros ([i st] & Hf & [= <-])%bind_Some.
  by apply list_find_Some in Hf as (_ & <- & _).
Qed.

Lemma decode_owner_kind o : decode_owner (owner_kind o) (owner_id o) = Some o.
Proof. by destruct o. Qed.

Lemma statement_table db : table (statement db).2 = table db.
Proof. unfold statement. by repeat case_match. Qed.

Lemma sqlite_durable_lookup db id : sqlite_durable db !! id = table db !! id ≫= decode_row id.
Proof. unfold sqlite_durable. by rewrite map_lookup_imap. Qed.

Lemma update_state_durable t id from to f o :
  (∀ row, row_owner_kind (f row) = row_owner_kind row ∧ row_owner_id (f row) = row_owner_id row
        ∧ row_sources (f row) = row_sources row ∧ row_expires_at (f row) = row_expires_at row) →
  sqlite_durable (mk_sqlite (update_state t id (state_label to) (state_label <$> from) f) o)
  = durable_move from to id (sqlite_durable (mk_sqlite t o)).
Proof.
  intros Hf. apply map_eq. intros j. unfold durable_move, update_state.
  rewrite !sqlite_durable_lookup. cbn [table].
  destruct (t !! id) as [row|] eqn:Hrow; cbn [mbind option_bind];
    [|by rewrite sqlite_durable_lookup].
  destruct (decode_row id row) as [r|] eqn:Hdec.
  - unfold decode_row in Hdec. simplify_res. simplify_eq. cbn [res_state].
    apply decode_state_inv in E0 as Hlab.
    assert (row_state row ∈ state_label <$> from ↔ x0 ∈ from) as Hin.
    { rewrite Hlab, list_elem_of_fmap. split; [|naive_solver]. intros (y & Hy & ?).
      apply (f_equal decode_state) in Hy. rewrite !decode_state_label in Hy. by simplify_eq. }
    destruct (decide (x0 ∈ from)) as [Hfrom|Hfrom].
    + rewrite decide_True by tauto. destruct (decide (j = id)) as [->|Hne].
      * rewrite !lookup_insert_eq. cbn. unfold decode_row. destruct (Hf row) as (H1 & H2 & H3 & H4).
        cbn. rewrite H1, H2, E. cbn. rewrite decode_state_label. cbn. by rewrite H3, H4.
      * rewrite !lookup_insert_ne by done. by rewrite sqlite_durable_lookup.
    + rewrite decide_False by tauto. by rewrite sqlite_durable_lookup.
  - case_decide; [|by rewrite sqlite_durable_lookup]. rewrite sqlite_durable_lookup. cbn [table].
    destruct (decide (j = id)) as [->|Hne]; [|by rewrite lookup_insert_ne].
    rewrite lookup_insert_eq, Hrow. cbn [mbind option_bind]. rewrite Hdec.
    unfold decode_row in *. destruct (Hf row) as (H1 & H2 & _).
    cbn [with_row_state row_owner_kind row_owner_id row_state]. rewrite H1, H2.
    destruct (decode_owner (row_owner_kind row) (row_owner_id row)); cbn in *; [|done].
    destruct (decode_state (row_state row)) eqn:Hst; [done|].
    exfalso. match goal with H : _ ∈ _ |- _ => apply list_elem_of_fmap in H as (y & Hy & _) end.
    rewrite Hy, decode_state_label in Hst. done.
Qed.

Lemma sqlite_move_law id from to f (op : cmd Sqlite LedgerStoreError unit) :
  (∀ row, row_owner_kind (f row) = row_owner_kind row ∧ row_owner_id (f row) = row_owner_id row
        ∧ row_sources (f row) = row_sources row ∧ row_expires_at (f row) = row_expires_at row) →
  op = (_ ← statement; t ← gets table;
        set_table (update_state t id (state_label to) (state_label <$> from) f)) →
  move_law sqlite_durable op from to id.
Proof.
  intros Hf -> db. unfold mbind, cmd_bind, gets, set_table, modify.
  pose proof (statement_table db) as Ht.
  destruct (statement db) as [[[]|e] db'] eqn:Hst; cbn [snd] in Ht.
  - rewrite update_state_durable by done. unfold sqlite_durable. cbn [table]. by rewrite Ht.
  - unfold sqlite_durable. by rewrite Ht.
Qed.

Lemma sqlite_reserve_law r db : storable r →
  match sqlite_reserve r db with
  | (Ok _, db') => sqlite_durable db' = <[res_id r := r]> (sqlite_durable db)
      ∧ (sqlite_durable db !! res_id r = None ∨ sqlite_durable db !! res_id r = Some r)
  | (Err _, db') => sqlite_durable db' = sqlite_durable db
  end.
Proof.
  intros [Hst Hexp].
  assert (Hsame : ∀ db1 db2, table db1 = table db2 → sqlite_durable db1 = sqlite_durable db2)
    by (intros ?? Ht; unfold sqlite_durable; by rewrite Ht).
  assert (Hu64 : ∀ x, i64_of (res_expires_at r) = Ok x → x = res_expires_at r ∧ as_u64 x = x).
  { unfold i64_of, as_u64, I64_MAX. intros x. case_match; zbool; [|done]. intros [= <-].
    split; [done|]. apply Z.mod_small. lia. }
  unfold sqlite_reserve, mbind, cmd_bind, gets, set_table, modify, lift, mret, cmd_ret, fail.
  pose proof (statement_table db) as Ht1.
  destruct (statement db) as [[[]|] db1]; cbn [snd] in Ht1; [|by apply Hsame].
  destruct (i64_of (res_expires_at r)) as [x|] eqn:Hx; [|by apply Hsame].
  destruct (Hu64 x eq_refl) as [-> Hx']. pose proof (statement_table db1) as Ht2.
  destruct (statement db1) as [[[]|] db2]; cbn [snd] in Ht2; [|apply Hsame; congruence].
  pose proof (statement_table db2) as Ht3.
  destruct (table db2 !! res_id r) as [row|] eqn:Hrow;
    destruct (statement db2) as [[[]|] db3]; cbn [snd] in Ht3; try (apply Hsame; congruence).
  - pose proof (statement_table db3) as Ht4.
    destruct (statement db3) as [[[]|] db4]; cbn [snd] in Ht4; [|apply Hsame; congruence].
    destruct (_ && _) eqn:Hex; [|apply Hsame; congruence].
    rewrite !andb_true_iff, !bool_decide_eq_true in Hex. destruct Hex as ((((H1 & H2) & H3) & H4) & H5).
    assert (sqlite_durable db !! res_id r = Some r) as Hr.
    { rewrite sqlite_durable_lookup. rewrite <-Ht1, <-Ht2, Hrow. cbn. unfold decode_row.
      rewrite H1, H2, H3, H4, H5, decode_owner_kind. cbn. rewrite Hx'. destruct r. by cbn in *; subst. }
    rewrite insert_id by done. split; [apply Hsame; congruence|by right].
  - assert (sqlite_durable db !! res_id r = None) as Hnone
      by (by rewrite sqlite_durable_lookup, <-Ht1, <-Ht2, Hrow).
    split; [|by left]. apply map_eq. intros j. rewrite sqlite_durable_lookup. cbn [table].
    destruct (decide (j = res_id r)) as [->|Hne].
    + rewrite !lookup_insert_eq. cbn. unfold decode_row. cbn. rewrite decode_owner_kind. cbn.
      rewrite Hx'. destruct r. by cbn in *; subst.
    + rewrite !lookup_insert_ne by done. by rewrite sqlite_durable_lookup, Ht2, Ht1.
Qed.

Lemma collect_Ok {E A B} (f : A → result E B) l rs :
  collect f l = Ok rs → Forall2 (λ x y, f x = Ok y) l rs.
Proof.
  revert rs. induction l as [|x l IH]; intros rs; cbn [collect]; intros H; simplify_res; [constructor|].
  constructor; auto.
Qed.

Lemma decode_open_state_label s : is_open s → decode_open_state (state_label s) = Some s.
Proof. by intros [-> | ->]. Qed.

Lemma open_label s : state_label s ∈ ["pending"; "committed"]%string ↔ is_open s.
Proof. unfold is_open. rewrite list_elem_of_In. destruct s; cbn; unfold state_label; naive_solver. Qed.

Lemma open_labels l : l ∈ ["pending"; "committed"]%string → ∃ s, l = state_label s ∧ is_open s.
Proof.
  unfold is_open. rewrite list_elem_of_In. intros [<-|[<-|[]]]; [exists Pending|exists Committed]; auto.
Qed.

Lemma decode_open_row_Ok id row r :
  row_state row ∈ ["pending"; "committed"]%string →
  decode_open_row (id, row) = Ok r ↔ decode_row id row = Some r.
Proof.
  intros Hst. unfold decode_open_row, decode_row. cbn [fst snd].
  destruct (decode_owner (row_owner_kind row) (row_owner_id row)) as [o|]; cbn; [|naive_solver].
  apply open_labels in Hst as (s & -> & Hs).
  rewrite decode_state_label, decode_open_state_label by done. cbn. unfold with_state. cbn. naive_solver.
Qed.

Lemma decode_row_state id row r :
  decode_row id row = Some r → row_state row = state_label (res_state r) ∧ res_id r = id.
Proof. unfold decode_row. intros H. simplify_res. simplify_eq. cbn. split; [by apply decode_state_inv|done]. Qed.

Lemma sqlite_open_law db :
  match sqlite_open_reservations db with
  | (Ok rs, db') => sqlite_durable db' = sqlite_durable db ∧ NoDup (res_id <$> rs)
      ∧ ∀ r, r ∈ rs ↔ ∃ id, sqlite_durable db !! id = Some r ∧ is_open (res_state r) ∧ res_id r = id
  | (Err _, db') => sqlite_durable db' = sqlite_durable db
  end.
Proof.
  assert (Hsame : ∀ db', table db' = table db → sqlite_durable db' = sqlite_durable db)
    by (intros ? Ht; unfold sqlite_durable; by rewrite Ht).
  unfold sqlite_open_reservations, mbind, cmd_bind, gets, lift. pose proof (statement_table db) as Ht.
  destruct (statement db) as [[[]|e] db']; cbn [snd] in Ht; [|by apply Hsame].
  destruct (collect _ _) as [rs|] eqn:Hc; [|by apply Hsame]. apply collect_Ok in Hc. rewrite Ht in Hc.
  assert (Hrow : ∀ r, r ∈ rs ↔ ∃ id row, table db !! id = Some row ∧ decode_row id row = Some r
                         ∧ row_state row ∈ ["pending"; "committed"]%string).
  { intros r. split.
    - intros [i Hi]%list_elem_of_lookup. destruct (Forall2_lookup_r _ _ _ _ _ Hc Hi) as ([id row] & Hp & Hd).
      apply list_elem_of_lookup_2, list_elem_of_filter in Hp as [Hst Hp]. apply elem_of_entries in Hp.
      exists id, row. split_and!; [done| |done]. by apply decode_open_row_Ok.
    - intros (id & row & Hp & Hd & Hst). apply elem_of_entries in Hp.
      assert (Hin : (id, row) ∈ filter (λ p, row_state p.2 ∈ ["pending"; "committed"]%string) (entries (table db)))
        by (apply list_elem_of_filter; done).
      apply list_elem_of_lookup in Hin as [i Hi].
      destruct (Forall2_lookup_l _ _ _ _ _ Hc Hi) as (r' & Hr' & Hd').
      apply (decode_open_row_Ok id row r') in Hst as Heq. apply Heq in Hd'. simplify_eq.
      by eapply list_elem_of_lookup_2. }
  split_and!; [by apply Hsame| |].
  - assert (Hids : res_id <$> rs = (filter (λ p, row_state p.2 ∈ ["pending"; "committed"]%string)
                                      (entries (table db))).*1).
    { assert (Hfil : Forall (λ p : ReservationId * Row, row_state p.2 ∈ ["pending"; "committed"]%string)
                (filter (λ p, row_state p.2 ∈ ["pending"; "committed"]%string) (entries (table db)))).
      { apply Forall_forall. by intros x [? ?]%list_elem_of_filter. }
      revert Hfil. clear Hrow. induction Hc as [|[id row] r l rs Hd _ IH]; [done|].
      intros [Hst Hfil]%Forall_cons. rewrite !fmap_cons, IH by done. f_equal.
      apply decode_open_row_Ok in Hd; [|done]. by apply decode_row_state in Hd as [_ ?]. }
    rewrite Hids. apply NoDup_fmap_filter, NoDup_keys.
  - intros r. rewrite Hrow. setoid_rewrite sqlite_durable_lookup. split.
    + intros (id & row & Hp & Hd & Hst). exists id. rewrite Hp. cbn.
      apply decode_row_state in Hd as Hd'. destruct Hd' as [Hlab Hid]. rewrite Hlab in Hst.
      apply open_label in Hst. done.
    + intros (id & Hr & Hop & Hid). apply bind_Some in Hr as (row & Hp & Hd). exists id, row.
      split_and!; [done..|]. apply decode_row_state in Hd as [-> _]. by apply open_label.
Qed.

(** *** The recorded amounts *)

Lemma sqlite_fills_lookup db id : sqlite_fills db !! id = row ← table db !! id; _ ← decode_row id row; row_filled row.
Proof. unfold sqlite_fills. by rewrite map_lookup_imap. Qed.

Lemma sqlite_fills_same db db' : table db' = table db → sqlite_fills db' = sqlite_fills db.
Proof. intros Ht. unfold sqlite_fills. by rewrite Ht. Qed.

(** A move keeps the amounts of every other row, and sets its own row's as [f] does. *)
Lemma update_state_fills t id from to f o :
  (∀ row, row_owner_kind (f row) = row_owner_kind row ∧ row_owner_id (f row) = row_owner_id row) →
  sqlite_fills (mk_sqlite (update_state t id (state_label to) (state_label <$> from) f) o)
  = match sqlite_durable (mk_sqlite t o) !! id with
    | Some r => if decide (res_state r ∈ from)
                then partial_alter (λ _, row ← t !! id; row_filled (f row)) id (sqlite_fills (mk_sqlite t o))
                else sqlite_fills (mk_sqlite t o)
    | None => sqlite_fills (mk_sqlite t o)
    end.
Proof.
  intros Hf. rewrite sqlite_durable_lookup. unfold update_state. cbn [table]. destruct (t !! id) as [row|] eqn:Hrow; [|done]. cbn [mbind option_bind].
  destruct (Hf row) as [Hk Hi].
  assert (Hdec : ∀ s, row_state row = state_label s → is_Some (decode_row id (with_row_state (f row) (state_label to))) ↔ is_Some (decode_row id row)).
  { intros s Hs. unfold decode_row. cbn. rewrite Hk, Hi, Hs, !decode_state_label. by destruct (decode_owner _ _). }
  assert (Hin : ∀ s, state_label s ∈ state_label <$> from ↔ s ∈ from).
  { intros s. rewrite list_elem_of_fmap. split; [|naive_solver]. intros (y & Hy & ?).
    apply (f_equal decode_state) in Hy. rewrite !decode_state_label in Hy. by simplify_eq. }
  destruct (decode_row id row) as [r|] eqn:Hr.
  - apply decode_row_state in Hr as Hs. destruct Hs as [Hs _]. rewrite Hs. destruct (decide (res_state r ∈ from)) as [Hd|Hd].
    + rewrite decide_True by (by apply Hin). apply map_eq. intros j. rewrite sqlite_fills_lookup. cbn [table].
      destruct (decide (j = id)) as [->|Hne].
      * rewrite lookup_insert_eq, lookup_partial_alter_eq. cbn [mbind option_bind].
        destruct (Hdec _ Hs) as [_ [r' Hr']]; [by exists r|]. by rewrite Hr'.
      * rewrite lookup_insert_ne, lookup_partial_alter_ne by done. by rewrite sqlite_fills_lookup.
    + by rewrite decide_False by (by rewrite Hin).
  - case_decide as Hd; [|done]. apply map_eq. intros j. rewrite !sqlite_fills_lookup. cbn [table].
    destruct (decide (j = id)) as [->|Hne]; [|by rewrite lookup_insert_ne]. rewrite lookup_insert_eq, Hrow. cbn [mbind option_bind]. rewrite Hr.
    apply list_elem_of_fmap in Hd as (s & Hs & _). destruct (decode_row id (with_row_state _ _)) eqn:E; [|done].
    destruct (proj1 (Hdec s Hs)) as [? [=]]. by exists r.
Qed.

Lemma sqlite_move_fills id from to (op : cmd Sqlite LedgerStoreError unit) :
  op = (_ ← statement; t ← gets table; set_table (update_state t id (state_label to) (state_label <$> from) (λ row, row))) →
  fills_law sqlite_fills op.
Proof.
  intros -> db. unfold mbind, cmd_bind, gets, set_table, modify. pose proof (statement_table db) as Ht.
  destruct (statement db) as [[[]|e] db']; cbn [snd] in *; [|by apply sqlite_fills_same].
  rewrite update_state_fills by done. rewrite <-(sqlite_fills_same db db' Ht). destruct (sqlite_durable _ !! id) as [r|] eqn:Hr; [|done].
  case_decide; [|done]. apply map_eq. intros j. destruct (decide (j = id)) as [->|Hne]; [|by rewrite lookup_partial_alter_ne].
  rewrite lookup_partial_alter_eq, sqlite_fills_lookup. cbn [table]. rewrite sqlite_durable_lookup in Hr. cbn [table] in Hr.
  destruct (table db' !! id) as [row|]; cbn in *; [|done]. by rewrite Hr.
Qed.

Lemma sqlite_post_fills id fills db :
  match sqlite_post id fills db with
  | (Ok _, db') => sqlite_fills db' = durable_book id fills (sqlite_durable db) (sqlite_fills db)
  | (Err _, db') => sqlite_fills db' = sqlite_fills db
  end.
Proof.
  unfold sqlite_post, mbind, cmd_bind, gets, set_table, modify. pose proof (statement_table db) as Ht.
  destruct (statement db) as [[[]|e] db']; cbn [snd] in *; [|by apply sqlite_fills_same].
  etrans; [apply (update_state_fills _ id [Pending; Committed] Posted); done|]. unfold durable_book.
  rewrite !sqlite_durable_lookup. cbn [table]. rewrite <-Ht. destruct (table db' !! id) as [row|] eqn:Hrow; cbn [mbind option_bind]; [|by apply sqlite_fills_same].
  destruct (decode_row id row) as [r|]; [|by apply sqlite_fills_same]. case_decide; [|by apply sqlite_fills_same].
  change (partial_alter (λ _, Some fills) id) with (insert (M := gmap ReservationId (list U256)) id fills). f_equal. by apply sqlite_fills_same.
Qed.

Lemma sqlite_reserve_fills r : fills_law sqlite_fills (sqlite_reserve r).
Proof.
  intros db. unfold sqlite_reserve, mbind, cmd_bind, gets, set_table, modify, lift, mret, cmd_ret, fail.
  pose proof (statement_table db) as Ht1. destruct (statement db) as [[[]|] db1]; cbn [snd] in *; [|by apply sqlite_fills_same].
  destruct (i64_of (res_expires_at r)) as [x|]; [|by apply sqlite_fills_same]. pose proof (statement_table db1) as Ht2.
  destruct (statement db1) as [[[]|] db2]; cbn [snd] in *; [|apply sqlite_fills_same; congruence]. pose proof (statement_table db2) as Ht3.
  destruct (table db2 !! res_id r) as [row|] eqn:Hrow; destruct (statement db2) as [[[]|] db3]; cbn [snd] in *; try (apply sqlite_fills_same; congruence).
  - pose proof (statement_table db3) as Ht4. destruct (statement db3) as [[[]|] db4]; cbn [snd] in *; [|apply sqlite_fills_same; congruence].
    destruct (_ && _); apply sqlite_fills_same; cbn [snd]; congruence.
  - apply map_eq. intros j. rewrite !sqlite_fills_lookup. cbn [table]. rewrite <-Ht1, <-Ht2. destruct (decide (j = res_id r)) as [->|Hne].
    + rewrite lookup_insert_eq, Hrow. cbn. by destruct (decode_row _ _).
    + by rewrite lookup_insert_ne.
Qed.

Lemma sqlite_open_fills : fills_law sqlite_fills sqlite_open_reservations.
Proof.
  intros db. unfold sqlite_open_reservations, mbind, cmd_bind, gets, lift. pose proof (statement_table db) as Ht.
  destruct (statement db) as [[[]|e] db']; by apply sqlite_fills_same.
Qed.

#[global] Instance SqliteLedgerStore_laws : LedgerStoreLaws Sqlite.
Proof.
  refine {| durable := sqlite_durable; durable_fills := sqlite_fills |}.
  - apply sqlite_reserve_law.
  - intros id. eapply (sqlite_move_law id [Pending] Committed (λ row, row)); [by intros row|reflexivity].
  - intros id fills. eapply (sqlite_move_law id [Pending; Committed] Posted); [|reflexivity]. done.
  - intros id. eapply (sqlite_move_law id [Pending; Committed] Voided (λ row, row)); [by intros row|reflexivity].
  - intros id. eapply (sqlite_move_law id [Pending] Expired (λ row, row)); [by intros row|reflexivity].
  - intros id. eapply (sqlite_move_law id [Posted] ReorgOpen (λ row, row)); [by intros row|reflexivity].
  - apply sqlite_open_law.
  - apply sqlite_post_fills.
  - apply sqlite_reserve_fills.
  - intros id. by apply (sqlite_move_fills id [Pending] Committed).
  - intros id. by apply (sqlite_move_fills id [Pending; Committed] Voided).
  - intros id. by apply (sqlite_move_fills id [Pending] Expired).
  - intros id. by apply (sqlite_move_fills id [Posted] ReorgOpen).
  - apply sqlite_open_fills.
Defined.
