(* ===== verification/LedgerService.v ===== *)
(** * The single-writer ledger service

    [crates/core/src/ledger/service.rs]: durable-first commands over the engine and
    the store, under one writer lock, republishing the available room after each.
    The lock makes each command atomic; budget reads and the clock are inputs.  The
    service is written and verified against the store's interface. *)

From stdpp Require Import strings.
From S2P Require Import Prelude U256 Reservation LedgerEngine LedgerInvariant LedgerProperties LedgerStore.

Inductive SolventError : Type :=
| LedgerRefused (e : LedgerError)
| StoreFailed (e : LedgerStoreError)
| BudgetSourceFailed.

Section service.
Context {St : Type} `{LedgerStore St}.

Record LedgerService := mk_service {
  svc_ledger : Ledger;
  svc_store : St;
  svc_available : gmap AccountKey U256
}.

Definition service_new (store : St) : LedgerService := mk_service ledger_default store ∅.

(** Run an engine or store command on its part of the service, mapping its error in. *)
Definition on_ledger (f : Ledger → result LedgerError unit * Ledger) :
    cmd LedgerService SolventError unit := λ s,
  let '(r, l) := f (svc_ledger s) in
  (map_err LedgerRefused r, mk_service l (svc_store s) (svc_available s)).

Definition on_store {A} (c : cmd St LedgerStoreError A) : cmd LedgerService SolventError A := λ s,
  let '(r, st) := c (svc_store s) in
  (map_err StoreFailed r, mk_service (svc_ledger s) st (svc_available s)).

Definition publish : cmd LedgerService SolventError unit :=
  modify (λ s, mk_service (svc_ledger s) (svc_store s) (available_snapshot (svc_ledger s))).

Definition feed_budgets (bs : list (AccountKey * U256)) : cmd LedgerService SolventError unit :=
  on_ledger (λ l, (Ok tt, foldl (λ l p, set_budget l p.1 p.2) l bs)).

Definition accounts_of (sources : list ReservationSource) : gset AccountKey :=
  list_to_set (sources ≫= accounts).

Fixpoint read_budgets (budget_of : AccountKey → result SolventError U256) (accts : list AccountKey) :
    result SolventError (list (AccountKey * U256)) :=
  match accts with
  | [] => Ok []
  | a :: accts' => b ← budget_of a; bs ← read_budgets budget_of accts'; Ok ((a, b) :: bs)
  end.

Definition reserve_owned (r : Reservation) (bs : list (AccountKey * U256)) :
    cmd LedgerService SolventError unit :=
  _ ← feed_budgets bs;
  _ ← on_ledger (λ l, (can_reserve l r, l));
  _ ← on_store (store_reserve r);
  _ ← on_ledger (λ l, (Ok tt, restore l r));
  publish.

Definition reserve (budget_of : AccountKey → result SolventError U256) (now : Z)
    (id : ReservationId) (intent : IntentId) (sources : list ReservationSource) (ttl_secs : Z) :
    cmd LedgerService SolventError unit :=
  bs ← lift (read_budgets budget_of (set_iter (accounts_of sources)));
  reserve_owned (for_swap id intent sources (u64_saturating_add now ttl_secs)) bs.

Definition reserve_rebate (budget_of : AccountKey → result SolventError U256) (now : Z)
    (id : ReservationId) (batch : RebateBatchId) (sources : list ReservationSource) (ttl_secs : Z) :
    cmd LedgerService SolventError unit :=
  bs ← lift (read_budgets budget_of (set_iter (accounts_of sources)));
  reserve_owned (for_rebate id batch sources (u64_saturating_add now ttl_secs)) bs.

Definition post (id : ReservationId) (fills : list U256) : cmd LedgerService SolventError unit :=
  _ ← on_store (store_post id fills);
  _ ← on_ledger (λ l, LedgerEngine.post l id fills);
  publish.

Definition commit (id : ReservationId) : cmd LedgerService SolventError unit :=
  _ ← on_store (store_commit id);
  _ ← on_ledger (λ l, LedgerEngine.commit l id);
  publish.

Definition void (id : ReservationId) : cmd LedgerService SolventError unit :=
  _ ← on_store (store_void id);
  _ ← on_ledger (λ l, LedgerEngine.void l id);
  publish.

Definition expire (id : ReservationId) : cmd LedgerService SolventError unit :=
  _ ← on_store (store_expire id);
  _ ← on_ledger (λ l, LedgerEngine.expire l id);
  publish.

Definition void_reorg (id : ReservationId) : cmd LedgerService SolventError unit :=
  _ ← on_store (store_void_reorg id);
  _ ← on_ledger (λ l, LedgerEngine.void_reorg l id);
  publish.

Definition reservation_sources (s : LedgerService) (id : ReservationId) :
    option (list ReservationSource) :=
  r ← reservation (svc_ledger s) id;
  if decide (res_state r = Pending) then Some (res_sources r) else None.

Definition settlement_reservation_sources (s : LedgerService) (id : ReservationId) :
    option (list ReservationSource) :=
  r ← reservation (svc_ledger s) id;
  if decide (res_state r = Committed ∨ res_state r = Posted) then Some (res_sources r) else None.

Fixpoint sweep_loop (ids : list ReservationId) (swept : list IntentId) :
    cmd LedgerService SolventError (list IntentId) :=
  match ids with
  | [] => mret swept
  | id :: ids' =>
      l ← gets svc_ledger;
      let intent := r ← reservation l id; swap_intent (res_owner r) in
      _ ← on_store (store_expire id);
      _ ← on_ledger (λ l, LedgerEngine.expire l id);
      sweep_loop ids' (swept ++ match intent with Some i => [i] | None => [] end)
  end.

Definition sweep_expired (now : Z) (exclude : gset ReservationId) :
    cmd LedgerService SolventError (list IntentId) :=
  l ← gets svc_ledger;
  let expired := filter (λ id, id ∉ exclude) (expired_swaps_as_of l now) in
  swept ← sweep_loop expired [];
  _ ← (if negb (length expired =? 0)%nat then publish else mret tt);
  mret swept.

Fixpoint recover_loop (budget_of : AccountKey → result SolventError U256) (rs : list Reservation) :
    cmd LedgerService SolventError unit :=
  match rs with
  | [] => mret tt
  | r :: rs' =>
      bs ← lift (read_budgets budget_of (set_iter (accounts_of (res_sources r))));
      _ ← feed_budgets bs;
      _ ← on_ledger (λ l, (Ok tt, restore l r));
      recover_loop budget_of rs'
  end.

Definition recover (budget_of : AccountKey → result SolventError U256) :
    cmd LedgerService SolventError unit :=
  open ← on_store open_reservations;
  _ ← recover_loop budget_of open;
  publish.

(** The quote path's lock-free read. *)
Definition service_available (s : LedgerService) (a : AccountKey) : U256 :=
  default 0 (svc_available s !! a).

(** [budgets] is the batched read of every active account. *)
Definition sync_budgets (read : result SolventError (gmap AccountKey U256)) :
    cmd LedgerService SolventError unit :=
  bs ← lift read;
  _ ← on_ledger (λ l, (Ok tt, set_budgets l bs));
  publish.

(** The writer's command language. *)
Inductive service_command : Type :=
| SReserve (r : Reservation) (bs : list (AccountKey * U256))
| SCommit (id : ReservationId)
| SPost (id : ReservationId) (fills : list U256)
| SVoid (id : ReservationId)
| SExpire (id : ReservationId)
| SVoidReorg (id : ReservationId)
| SSweep (now : Z) (exclude : gset ReservationId)
| SSync (read : result SolventError (gmap AccountKey U256)).

Definition service_exec (c : service_command) : cmd LedgerService SolventError unit :=
  match c with
  | SReserve r bs => reserve_owned r bs
  | SCommit id => commit id
  | SPost id fills => post id fills
  | SVoid id => void id
  | SExpire id => expire id
  | SVoidReorg id => void_reorg id
  | SSweep now exclude => _ ← sweep_expired now exclude; mret tt
  | SSync read => sync_budgets read
  end.

Definition service_run (s : LedgerService) (cs : list service_command) : LedgerService :=
  foldl (λ s c, (service_exec c s).2) s cs.

End service.
Arguments LedgerService : clear implicits.
Arguments mk_service {St} _ _ _.

(** * Durability of the ledger service

    The service against the store's contract: after any commands, with the database
    failing at any statement, memory and store agree on every open reservation, so a
    restart rebuilds exactly the holds that were promised. *)

Definition open_view (m : gmap ReservationId Reservation) : gmap ReservationId Reservation :=
  filter (λ p, is_open (res_state p.2)) m.

Lemma snapshot_available l a : default 0 (available_snapshot l !! a) = available l a.
Proof.
  assert (Hlook : ∀ x, available_snapshot l !! a = Some x ↔ a ∈ dom (budgets l) ∪ dom (held l) ∧ x = available l a).
  { intros x. unfold available_snapshot. rewrite lookup_set_to_map by (intros y y' _ _; exact id).
    split; [intros (y & Hy & [= -> <-]); done|intros [Ha ->]; eauto]. }
  destruct (available_snapshot l !! a) as [x|] eqn:E; cbn; [by destruct (proj1 (Hlook x) eq_refl) as [_ ->]|].
  assert (Hdom : a ∉ dom (budgets l) ∪ dom (held l)) by (intros Ha; by specialize (proj2 (Hlook _) (conj Ha eq_refl))).
  apply not_elem_of_union in Hdom as [H1%not_elem_of_dom H2%not_elem_of_dom].
  unfold available, budget. by rewrite H1, H2.
Qed.

(** Published rooms are words. *)
Lemma snapshot_words l :
  ledger_ok l → (∀ a, is_u256 (budget l a)) → ∀ a, is_u256 (default 0 (available_snapshot l !! a)).
Proof.
  intros Hok Hb a. rewrite snapshot_available, available_held. specialize (Hb a). pose proof (ok_room l Hok a).
  destruct (holds_nonneg l a Hok). u256.
Qed.

Section service_properties.
Context {St : Type} `{HS : LedgerStore St} `{HL : !LedgerStoreLaws St}.
Implicit Types (s : LedgerService St) (l : Ledger).

(** Memory and store hold the same open reservations. *)
Definition agree s : Prop := open_view (reservations (svc_ledger s)) = open_view (durable (svc_store s)).

Record service_ok s : Prop := {
  service_ledger_ok : ledger_ok (svc_ledger s);
  service_budgets_ok : ∀ a, is_u256 (budget (svc_ledger s) a);
  service_agree : agree s;
  service_words : ∀ a, is_u256 (service_available s a)
}.

(** Well-typed inputs; a settlement reports, for an open reservation, one amount per source and
    none above what was reserved. *)
Definition service_command_ok s (c : service_command) : Prop :=
  match c with
  | SReserve r bs => storable r ∧ reservation_ok r ∧ Forall (λ p, is_u256 p.2) bs
  | SPost id fills => Forall is_u256 fills ∧
      ∀ r, reservation (svc_ledger s) id = Some r → is_open (res_state r) → fills_ok (res_sources r) fills
  | SSync (Ok bs) => ∀ a x, bs !! a = Some x → is_u256 x
  | _ => True
  end.

Fixpoint admissible s (cs : list service_command) : Prop :=
  match cs with
  | [] => True
  | c :: cs' => service_command_ok s c ∧ admissible (service_exec c s).2 cs'
  end.

(** ** Open views *)

Lemma lookup_open_view m id :
  open_view m !! id = r ← m !! id; if decide (is_open (res_state r)) then Some r else None.
Proof.
  unfold open_view. rewrite map_lookup_filter. destruct (m !! id) as [r|]; cbn; [|done].
  case_decide; by simplify_option_eq.
Qed.

Lemma open_view_move from to id m1 m2 :
  (∀ st, st ∈ from → is_open st) → open_view m1 = open_view m2 →
  open_view (durable_move from to id m1) = open_view (durable_move from to id m2).
Proof.
  intros Hfrom Heq. apply map_eq. intros j.
  assert (Hj := f_equal (.!! j) Heq). assert (Hid := f_equal (.!! id) Heq).
  cbn in Hj, Hid. rewrite !lookup_open_view in Hj, Hid. rewrite !lookup_open_view.
  assert (Hmove : ∀ m, durable_move from to id m !! j =
    if decide (j = id) then (λ r, if decide (res_state r ∈ from) then with_state r to else r) <$> m !! id
    else m !! j).
  { intros m. unfold durable_move. destruct (m !! id) as [r|] eqn:Hr; cbn.
    - case_decide; case_decide; subst; rewrite ?lookup_insert_eq, ?lookup_insert_ne by done; done.
    - by case_decide; subst. }
  rewrite !Hmove. destruct (decide (j = id)) as [->|]; [|done].
  destruct (m1 !! id) as [r1|] eqn:E1, (m2 !! id) as [r2|] eqn:E2; cbn in *.
  - repeat case_decide; simplify_eq; cbn in *; try done; naive_solver.
  - repeat case_decide; simplify_eq; cbn in *; try done; naive_solver.
  - repeat case_decide; simplify_eq; cbn in *; try done; naive_solver.
  - done.
Qed.

Lemma open_view_closed_move from to id m :
  (∀ st, st ∈ from → ¬ is_open st) → ¬ is_open to → open_view (durable_move from to id m) = open_view m.
Proof.
  intros Hfrom Hto. apply map_eq. intros j. rewrite !lookup_open_view. unfold durable_move.
  destruct (m !! id) as [r|] eqn:Hr; [|done]. case_decide; [|done].
  destruct (decide (j = id)) as [->|]; [|by rewrite lookup_insert_ne].
  rewrite lookup_insert_eq, Hr. cbn. rewrite !decide_False by auto. done.
Qed.

(** ** The engine's commands as durable moves *)

Lemma commit_move l id : reservations (LedgerEngine.commit l id).2 = durable_move [Pending] Committed id (reservations l).
Proof.
  unfold LedgerEngine.commit, durable_move. destruct (reservations l !! id) as [r|] eqn:Hr; [|done].
  destruct (res_state r) eqn:Hs; cbn; rewrite ?(transition_reservations _ _ _ r) by done;
    case_decide as Hd; try done; set_solver.
Qed.

Lemma void_move l id :
  reservations (LedgerEngine.void l id).2 = durable_move [Pending; Committed] Voided id (reservations l).
Proof.
  unfold LedgerEngine.void, release_active, active_sources, durable_move.
  destruct (reservations l !! id) as [r|] eqn:Hr; cbn; [|done].
  destruct (res_state r) eqn:Hs; cbn; unfold release_sources; rewrite ?(transition_reservations _ _ _ r) by done;
    case_decide as Hd; try done; set_solver.
Qed.

Lemma expire_move l id :
  reservations (LedgerEngine.expire l id).2 = durable_move [Pending] Expired id (reservations l).
Proof.
  unfold LedgerEngine.expire, pending_sources, require_state, durable_move.
  destruct (reservations l !! id) as [r|] eqn:Hr; cbn; [|done].
  case_decide as Hs; cbn.
  - unfold release_sources. rewrite (transition_reservations _ _ _ r) by done.
    rewrite decide_True by set_solver. done.
  - by rewrite decide_False by set_solver.
Qed.

Lemma void_reorg_move l id :
  reservations (LedgerEngine.void_reorg l id).2 = durable_move [Posted] ReorgOpen id (reservations l).
Proof.
  unfold LedgerEngine.void_reorg, require_state, durable_move.
  destruct (reservations l !! id) as [r|] eqn:Hr; cbn; [|done].
  case_decide as Hs; cbn.
  - rewrite (transition_reservations _ _ _ r) by done. rewrite decide_True by set_solver. done.
  - by rewrite decide_False by set_solver.
Qed.

Lemma check_fills_fit i ss fs : fills_ok ss fs → check_fills i ss fs = Ok tt.
Proof.
  intros Hfs. revert i. induction Hfs as [|s x ss fs Hx _ IH]; intros i; [done|]. cbn.
  destruct (src_amount s <? x) eqn:E; zbool; [lia|apply IH].
Qed.

Lemma post_move l id fills :
  (∀ r, reservation l id = Some r → is_open (res_state r) → fills_ok (res_sources r) fills) →
  reservations (LedgerEngine.post l id fills).2 = durable_move [Pending; Committed] Posted id (reservations l).
Proof.
  intros Hfit. unfold LedgerEngine.post, active_sources, durable_move, reservation in *.
  destruct (reservations l !! id) as [r|] eqn:Hr; cbn; [|done].
  specialize (Hfit r eq_refl). unfold is_open in Hfit.
  assert (Hgo : fills_ok (res_sources r) fills →
    (length fills =? length (res_sources r))%nat = true ∧ check_fills 0 (res_sources r) fills = Ok tt).
  { intros Hf. split; [|by apply check_fills_fit]. apply Nat.eqb_eq. symmetry. by eapply Forall2_length. }
  destruct (res_state r) eqn:Hs; cbn; try (rewrite decide_False by set_solver; done);
    destruct (Hgo (Hfit ltac:(auto))) as [-> ->]; cbn;
    rewrite (transition_reservations _ _ _ r) by done; by rewrite decide_True by set_solver.
Qed.

Lemma can_reserve_fresh l r : can_reserve l r = Ok tt → reservations l !! res_id r = None.
Proof. unfold can_reserve. by destruct (reservations l !! res_id r). Qed.

(** ** Service commands *)

(** Every settlement command has one shape: the durable move, the engine's move, republish. *)
Lemma store_then_ledger (op : cmd St LedgerStoreError unit) f s :
  (_ ← on_store op; _ ← on_ledger f; publish) s =
  match op (svc_store s) with
  | (Err e, st) => (Err (StoreFailed e), mk_service (svc_ledger s) st (svc_available s))
  | (Ok _, st) =>
      match f (svc_ledger s) with
      | (Err e, l) => (Err (LedgerRefused e), mk_service l st (svc_available s))
      | (Ok _, l) => (Ok tt, mk_service l st (available_snapshot l))
      end
  end.
Proof.
  unfold mbind, cmd_bind, on_store, on_ledger, publish, modify. destruct (op (svc_store s)) as [[[]|e] st]; [|done].
  cbn. by destruct (f (svc_ledger s)) as [[[]|e] l].
Qed.

Lemma agree_move (op : cmd St LedgerStoreError unit) f from to id s :
  move_law durable op from to id →
  (∀ st, st ∈ from → is_open st) →
  reservations (f (svc_ledger s)).2 = durable_move from to id (reservations (svc_ledger s)) →
  agree s → agree ((_ ← on_store op; _ ← on_ledger f; publish) s).2.
Proof.
  intros Hlaw Hfrom Hf Hag. rewrite store_then_ledger. specialize (Hlaw (svc_store s)). unfold agree in *.
  destruct (op (svc_store s)) as [[[]|e] st]; cbn; [|by rewrite Hlaw].
  destruct (f (svc_ledger s)) as [[[]|e] l]; cbn in *; rewrite Hlaw, Hf; by apply open_view_move.
Qed.

(** ** Preservation of [service_ok] *)

Lemma ledger_ok_same_holds l l' :
  held l' = held l → reservations l' = reservations l → filled l' = filled l → ledger_ok l → ledger_ok l'.
Proof.
  destruct l, l'. cbn. intros -> -> -> []. constructor; assumption.
Qed.

Lemma exec_ledger_ok l c :
  ledger_ok l → (∀ a, budget l a ≤ U256_MAX) → command_ok c → ledger_ok (exec l c).2.
Proof.
  intros Hok Hb Hc. destruct (exec l c).1 as [[]|e] eqn:Hres; [|by rewrite (exec_Err l c e)].
  destruct c; cbn in *.
  - by apply reserve_ok; try apply Hc.
  - by apply commit_ok.
  - by destruct (post_ok l id fills Hok Hc Hres) as (? & _ & _ & ? & _).
  - by destruct (void_ok l id Hok Hres) as (? & _ & ? & _).
  - by destruct (expire_ok l id Hok Hres) as (? & _ & ? & _).
  - by destruct (void_reorg_ok l id Hok Hres) as (? & ? & _ & _ & _ & ? & _).
Qed.

Lemma exec_service_ok (op : cmd St LedgerStoreError unit) (c : command) s :
  service_ok s → command_ok c →
  agree ((_ ← on_store op; _ ← on_ledger (λ l, exec l c); publish) s).2 →
  service_ok ((_ ← on_store op; _ ← on_ledger (λ l, exec l c); publish) s).2.
Proof.
  intros [Hok Hb Hag Hw] Hc Hag'.
  pose proof (exec_ledger_ok _ c Hok (λ a, proj2 (Hb a)) Hc) as Hok'.
  pose proof (exec_budgets (svc_ledger s) c) as Hb'.
  rewrite store_then_ledger in *.
  destruct (op (svc_store s)) as [[[]|e] st]; cbn in *; [|by constructor].
  assert (Hbl : ∀ a, is_u256 (budget (exec (svc_ledger s) c).2 a)) by (intros a; unfold budget; rewrite Hb'; apply Hb).
  destruct (exec (svc_ledger s) c) as [[[]|e] l]; cbn in *; constructor; try done. by apply snapshot_words.
Qed.

Lemma feed_budgets_spec bs s :
  ∃ l, feed_budgets bs s = (Ok tt, mk_service l (svc_store s) (svc_available s))
    ∧ held l = held (svc_ledger s) ∧ reservations l = reservations (svc_ledger s)
    ∧ filled l = filled (svc_ledger s)
    ∧ ∀ a, budget l a = budget (svc_ledger s) a ∨ ∃ p, p ∈ bs ∧ budget l a = p.2.
Proof.
  exists (foldl (λ l p, set_budget l p.1 p.2) (svc_ledger s) bs). split; [done|].
  generalize (svc_ledger s) as l. induction bs as [|[k x] bs IH]; intros l; cbn [foldl fst snd]; [auto|].
  destruct (IH (set_budget l k x)) as (-> & -> & -> & Hb). split_and!; [done..|].
  intros a. destruct (Hb a) as [Ha|(p & Hp & Ha)]; [|right; exists p; split; [by right|done]].
  rewrite Ha. unfold budget, set_budget. cbn. destruct (decide (k = a)) as [->|].
  - rewrite lookup_insert_eq. right. exists (a, x). split; [left|done].
  - rewrite lookup_insert_ne by done. by left.
Qed.

Lemma feed_budgets_ok bs s :
  service_ok s → Forall (λ p, is_u256 p.2) bs →
  ∃ s', feed_budgets bs s = (Ok tt, s') ∧ service_ok s' ∧ svc_store s' = svc_store s
    ∧ svc_available s' = svc_available s
    ∧ held (svc_ledger s') = held (svc_ledger s)
    ∧ reservations (svc_ledger s') = reservations (svc_ledger s).
Proof.
  intros [Hok Hb Hag Hw] Hbs. destruct (feed_budgets_spec bs s) as (l & Hl & H1 & H2 & H3 & Hbud).
  eexists. split; [exact Hl|]. cbn. split_and!; try done.
  constructor; cbn.
  - by eapply ledger_ok_same_holds.
  - intros a. destruct (Hbud a) as [->|(p & Hp & ->)]; [apply Hb|].
    rewrite Forall_forall in Hbs. by apply Hbs.
  - unfold agree in *. cbn. by rewrite H2.
  - done.
Qed.

Lemma open_view_insert m r id : is_open (res_state r) → open_view (<[id := r]> m) = <[id := r]> (open_view m).
Proof. intros Hr. unfold open_view. by rewrite map_filter_insert_True. Qed.

Lemma reserve_owned_ok r bs s :
  service_ok s → storable r → reservation_ok r → Forall (λ p, is_u256 p.2) bs →
  service_ok (reserve_owned r bs s).2.
Proof.
  intros Hs Hst Hr Hbs. destruct (feed_budgets_ok bs s Hs Hbs) as (s' & Hf & Hs' & _).
  unfold reserve_owned, mbind, cmd_bind. rewrite Hf. clear Hf Hs s.
  unfold on_ledger at 1. destruct (can_reserve (svc_ledger s') r) as [[]|e] eqn:Hcan; cbn [map_err];
    [|by destruct s'].
  pose proof (reserve_law r (svc_store s') Hst) as Hlaw. unfold on_store. cbn.
  destruct (store_reserve r (svc_store s')) as [[[]|e] st]; cbn;
    destruct Hs' as [Hok Hb Hag Hw]; [|constructor; unfold agree in *; cbn; by rewrite ?Hlaw].
  destruct Hlaw as [Hdur _]. destruct Hst as [Hpend _].
  pose proof (exec_ledger_ok _ (Reserve r) Hok (λ a, proj2 (Hb a)) (conj Hpend Hr)) as Hok'.
  cbn in Hok'. unfold LedgerEngine.reserve in Hok'. rewrite Hcan in Hok'.
  apply can_reserve_fresh in Hcan as Hfresh.
  assert (Hbl : ∀ a, is_u256 (budget (restore (svc_ledger s') r) a)) by (intros a; unfold budget, restore; rewrite Hfresh; apply Hb).
  constructor; cbn.
  - done.
  - done.
  - unfold agree in *. cbn. unfold restore. rewrite Hfresh. cbn. rewrite Hdur, !open_view_insert by (left; done).
    by rewrite Hag.
  - by apply snapshot_words.
Qed.

Lemma sweep_loop_ok ids acc s : service_ok s → service_ok (sweep_loop ids acc s).2.
Proof.
  revert acc s. induction ids as [|id ids IH]; intros acc s Hs; [done|].
  cbn [sweep_loop]. unfold mbind, cmd_bind, gets. destruct Hs as [Hok Hb Hag Hw].
  pose proof (expire_law id (svc_store s)) as Hlaw. unfold on_store.
  destruct (store_expire id (svc_store s)) as [[[]|e] st]; cbn;
    [|constructor; unfold agree in *; cbn; by rewrite ?Hlaw].
  pose proof (exec_ledger_ok _ (Expire id) Hok (λ a, proj2 (Hb a)) I) as Hok'.
  pose proof (exec_budgets (svc_ledger s) (Expire id)) as Hb'.
  pose proof (expire_move (svc_ledger s) id) as Hmv. cbn in Hok', Hb'. unfold on_ledger. cbn.
  assert (service_ok (mk_service (LedgerEngine.expire (svc_ledger s) id).2 st (svc_available s))) as Hs'.
  { constructor; cbn; [done| | |done].
    - intros a. unfold budget. rewrite Hb'. apply Hb.
    - unfold agree in *. cbn. rewrite Hmv, Hlaw. apply open_view_move; [|done].
      intros ? ->%list_elem_of_singleton. by left. }
  destruct (LedgerEngine.expire (svc_ledger s) id) as [[[]|e] l]; cbn in *; [by apply IH|done].
Qed.

Lemma republish_ok s :
  service_ok s → service_ok (mk_service (svc_ledger s) (svc_store s) (available_snapshot (svc_ledger s))).
Proof. intros []. constructor; try done. by apply snapshot_words. Qed.

Lemma sweep_expired_ok now exclude s : service_ok s → service_ok (sweep_expired now exclude s).2.
Proof.
  intros Hs. unfold sweep_expired, mbind, cmd_bind, gets.
  set (ids := filter _ _). pose proof (sweep_loop_ok ids [] s Hs) as Hs'.
  destruct (sweep_loop ids [] s) as [[swept|e] s']; [|done]. cbn in *.
  destruct (negb _); cbn; [by apply republish_ok|done].
Qed.

Lemma sync_budgets_ok bs s :
  service_ok s → (∀ a x, bs !! a = Some x → is_u256 x) → service_ok (sync_budgets (Ok bs) s).2.
Proof.
  intros [Hok Hb Hag Hw] Hbs. assert (Hbl : ∀ a, is_u256 (budget (set_budgets (svc_ledger s) bs) a)).
  2: { constructor; cbn; try done; [|apply snapshot_words; [|done]]; by apply (ledger_ok_same_holds (svc_ledger s)). }
  intros a. unfold budget. change (is_u256 (default 0 (bs !! a))). destruct (bs !! a) eqn:E; cbn; [by apply (Hbs a)|]. u256.
Qed.

Lemma service_exec_ok c s : service_ok s → service_command_ok s c → service_ok (service_exec c s).2.
Proof.
  intros Hs Hc. pose proof (service_agree _ Hs) as Hag. destruct c; cbn in *.
  - destruct Hc as (? & ? & ?). by apply reserve_owned_ok.
  - apply (exec_service_ok _ (Commit id)); [done..|].
    eapply agree_move; [apply commit_law| |apply commit_move|done].
    intros ? ->%list_elem_of_singleton. by left.
  - destruct Hc as [Hf Hfit]. apply (exec_service_ok _ (Post id fills)); [done..|].
    eapply agree_move; [apply post_law| |by apply post_move|done].
    intros ? Hst. unfold is_open. set_solver.
  - apply (exec_service_ok _ (Void id)); [done..|].
    eapply agree_move; [apply void_law| |apply void_move|done]. intros ? Hst. unfold is_open. set_solver.
  - apply (exec_service_ok _ (Expire id)); [done..|].
    eapply agree_move; [apply expire_law| |apply expire_move|done]. intros ? Hst. unfold is_open. set_solver.
  - apply (exec_service_ok _ (VoidReorg id)); [done..|].
    rewrite store_then_ledger. pose proof (void_reorg_law id (svc_store s)) as Hlaw. unfold agree in *.
    assert (Hclosed : ∀ st, st ∈ [Posted] → ¬ is_open st) by (unfold is_open; set_solver).
    assert (Hto : ¬ is_open ReorgOpen) by (unfold is_open; naive_solver).
    pose proof (void_reorg_move (svc_ledger s) id) as Hmv.
    destruct (store_void_reorg id (svc_store s)) as [[[]|e] st]; cbn; [|by rewrite Hlaw].
    destruct (LedgerEngine.void_reorg (svc_ledger s) id) as [[[]|e] l]; cbn in *; rewrite Hlaw, Hmv;
      by rewrite !open_view_closed_move.
  - pose proof (sweep_expired_ok now exclude s Hs) as Hs'.
    unfold mbind, cmd_bind. by destruct (sweep_expired now exclude s) as [[]].
  - destruct read as [bs|e]; [by apply sync_budgets_ok|by destruct s].
Qed.

Lemma service_run_ok cs s : service_ok s → admissible s cs → service_ok (service_run s cs).
Proof.
  unfold service_run. revert s. induction cs as [|c cs IH]; intros s Hs; cbn [foldl admissible]; [done|].
  intros [Hc Hcs]. apply IH; [by apply service_exec_ok|done].
Qed.

(** ** Recovery *)

Lemma read_budgets_total budget_of accts :
  (∀ a, ∃ b, budget_of a = Ok b ∧ is_u256 b) →
  ∃ bs, read_budgets budget_of accts = Ok bs ∧ Forall (λ p, is_u256 p.2) bs.
Proof.
  intros Htot. induction accts as [|a accts (bs & IH & Hbs)]; [by exists []|].
  destruct (Htot a) as (b & Hb & Hu). exists ((a, b) :: bs). cbn. rewrite Hb, IH. auto.
Qed.

Lemma recover_loop_spec budget_of rs s :
  (∀ a, ∃ b, budget_of a = Ok b ∧ is_u256 b) →
  ledger_ok (svc_ledger s) → (∀ a, is_u256 (budget (svc_ledger s) a)) →
  NoDup (res_id <$> rs) → Forall (λ r, reservations (svc_ledger s) !! res_id r = None) rs →
  Forall (λ r, is_open (res_state r) ∧ amounts_ok (res_sources r)) rs →
  (∀ a, pending (svc_ledger s) a + consumed (svc_ledger s) a
        + zsum (λ r, demand_at a (res_sources r)) rs ≤ U256_MAX) →
  ∃ s', recover_loop budget_of rs s = (Ok tt, s') ∧ svc_store s' = svc_store s
    ∧ ledger_ok (svc_ledger s') ∧ (∀ a, is_u256 (budget (svc_ledger s') a))
    ∧ (∀ id r, reservations (svc_ledger s') !! id = Some r ↔
         reservations (svc_ledger s) !! id = Some r ∨ r ∈ rs ∧ res_id r = id)
    ∧ ∀ a, pending (svc_ledger s') a
           = pending (svc_ledger s) a + zsum (λ r, demand_at a (res_sources r)) rs
           ∧ consumed (svc_ledger s') a = consumed (svc_ledger s) a.
Proof.
  intros Htot. revert s. induction rs as [|r rs IH]; intros s Hok Hb Hnd Hfr Hrs Hroom.
  { exists s. cbn. split_and!; try done; [set_solver|]. intros a. split; [lia|done]. }
  rewrite fmap_cons, NoDup_cons in Hnd. destruct Hnd as [Hid Hnd].
  apply Forall_cons in Hfr as [Hfresh Hfr]. apply Forall_cons in Hrs as [[Hop Ham] Hrs].
  destruct (read_budgets_total budget_of (set_iter (accounts_of (res_sources r))) Htot) as (bs & Hread & Hbs).
  cbn [recover_loop]. unfold mbind, cmd_bind, lift. rewrite Hread.
  destruct (feed_budgets_spec bs s) as (l & -> & H1 & H2 & H3 & Hbud). unfold on_ledger. cbn [svc_ledger].
  assert (Hl : ledger_ok l) by (by eapply ledger_ok_same_holds).
  assert (Hp : ∀ a, pending l a = pending (svc_ledger s) a ∧ consumed l a = consumed (svc_ledger s) a)
    by (intros a; unfold pending, consumed; by rewrite H1).
  assert (Hnn : ∀ a, 0 ≤ zsum (λ r, demand_at a (res_sources r)) rs).
  { intros a. apply zsum_nonneg. intros r' Hr'. rewrite Forall_forall in Hrs. apply demand_nonneg, Hrs, Hr'. }
  assert (Hroom' : ∀ a, pending l a + consumed l a + demand_at a (res_sources r) ≤ U256_MAX).
  { intros a. destruct (Hp a) as [-> ->]. specialize (Hroom a). specialize (Hnn a).
    rewrite zsum_cons in Hroom. lia. }
  assert (Hf : reservations l !! res_id r = None) by congruence.
  pose proof (λ a, restore_spec l r a Hl Hf Ham (Hroom' a)) as Hspec.
  assert (Hres : reservations (restore l r) = <[res_id r := r]> (reservations (svc_ledger s)))
    by (unfold restore; rewrite Hf; cbn; by rewrite H2).
  destruct (IH (mk_service (restore l r) (svc_store s) (svc_available s))) as (s' & Hs' & Hst & Hok' & Hb' & Hres' & Hsum);
    cbn [svc_ledger svc_store].
  - by apply restore_ok.
  - intros a. unfold budget, restore. rewrite Hf. cbn. fold (budget l a).
    destruct (Hbud a) as [->|(p & Hpin & ->)]; [apply Hb|]. rewrite Forall_forall in Hbs. by apply Hbs.
  - done.
  - rewrite Hres. rewrite Forall_forall in Hfr |- *. intros r' Hr'. rewrite lookup_insert_ne; [by apply Hfr|].
    intros Heq. apply Hid. rewrite Heq. by apply list_elem_of_fmap_2.
  - done.
  - intros a. destruct (Hspec a) as [-> ->], (Hp a) as [-> ->]. specialize (Hroom a).
    rewrite zsum_cons in Hroom. lia.
  - exists s'. split_and!; try done.
    + intros id r'. rewrite Hres'. cbn [svc_ledger]. rewrite Hres, lookup_insert_Some. split.
      * intros [[[<- <-]|[_ ?]]|[? ?]]; [right; split; [left|done]|by left|right; split; [by right|done]].
      * intros [Hr'|[[->|Hr']%elem_of_cons <-]]; [|by left; left|by right].
        left. right. split; [|done]. intros <-. congruence.
    + intros a. destruct (Hsum a) as [-> ->]. cbn [svc_ledger]. destruct (Hspec a) as [-> ->], (Hp a) as [-> ->].
      rewrite zsum_cons. lia.
Qed.

Lemma open_list_sum m rs a :
  (∀ id r, m !! id = Some r → res_id r = id) → NoDup (res_id <$> rs) →
  (∀ r, r ∈ rs ↔ ∃ id, open_view m !! id = Some r ∧ res_id r = id) →
  zsum (λ r, demand_at a (res_sources r)) rs = map_sum (λ _ r, holds_of a r) m.
Proof.
  intros Hids Hnd Hin.
  assert (Hperm : rs ≡ₚ (map_to_list (open_view m)).*2).
  { apply NoDup_Permutation.
    - by eapply NoDup_fmap_1.
    - apply (NoDup_fmap_1 res_id). rewrite <-list_fmap_compose.
      rewrite (list_fmap_ext _ fst) by (intros i [k r] Hk; cbn; apply list_elem_of_lookup_2,
        elem_of_map_to_list, map_lookup_filter_Some in Hk as [Hk _]; by apply Hids).
      apply NoDup_fst_map_to_list.
    - intros r. rewrite Hin, list_elem_of_fmap. split.
      + intros (id & Hr & _). exists (id, r). split; [done|]. by apply elem_of_map_to_list.
      + intros ([id r'] & -> & Hr). exists id. cbn. apply elem_of_map_to_list in Hr. split; [done|].
        apply map_lookup_filter_Some in Hr as [Hr _]. by apply Hids. }
  rewrite Hperm, zsum_fmap. rewrite <-(map_sum_filter (λ p, is_open (res_state p.2))).
  - fold (open_view m). rewrite map_sum_to_list. apply zsum_ext. intros [id r] Hr. cbn.
    apply elem_of_map_to_list, map_lookup_filter_Some in Hr as [_ Hr]. cbn in Hr. unfold holds_of.
    by destruct Hr as [-> | ->].
  - cbn. intros id r _ Hcl. unfold holds_of, is_open in *. case_match; naive_solver.
Qed.

Lemma recover_rebuilds s1 budget_of rs st :
  service_ok s1 → open_reservations (svc_store s1) = (Ok rs, st) →
  (∀ a, ∃ b, budget_of a = Ok b ∧ is_u256 b) →
  ∃ s2, recover budget_of (service_new (svc_store s1)) = (Ok tt, s2)
    ∧ service_ok s2
    ∧ reservations (svc_ledger s2) = open_view (reservations (svc_ledger s1))
    ∧ ∀ a, pending (svc_ledger s2) a = pending (svc_ledger s1) a
           ∧ consumed (svc_ledger s2) a = 0
           ∧ service_available s2 a = available (svc_ledger s2) a.
Proof.
  intros [Hok Hb Hag _] Hopen Htot.
  pose proof (open_law (svc_store s1)) as Hlaw. rewrite Hopen in Hlaw. destruct Hlaw as (Hdur & Hnd & Hin).
  assert (Hids : ∀ id r, reservations (svc_ledger s1) !! id = Some r → res_id r = id) by apply ok_id, Hok.
  assert (Hin' : ∀ r, r ∈ rs ↔ ∃ id, open_view (reservations (svc_ledger s1)) !! id = Some r ∧ res_id r = id).
  { intros r. rewrite Hin, Hag. unfold open_view. by setoid_rewrite map_lookup_filter_Some; naive_solver. }
  pose proof (λ a, open_list_sum _ rs a Hids Hnd Hin') as Hsum.
  destruct (recover_loop_spec budget_of rs (mk_service ledger_default st ∅)) as (s2 & H2 & Hst2 & Hok2 & Hb2 & Hres2 & Hp2);
    cbn [svc_ledger] in *.
  - done.
  - apply (default_ok ∅). intros ??. by rewrite lookup_empty.
  - intros a. unfold budget. cbn. rewrite lookup_empty. cbn. u256.
  - done.
  - apply Forall_forall. intros r _. apply lookup_empty.
  - apply Forall_forall. intros r (id & [Hr Hop]%map_lookup_filter_Some & _)%Hin'.
    split; [done|]. by eapply ok_amounts.
  - intros a. rewrite Hsum. rewrite <-(ok_pending _ Hok a). pose proof (ok_room _ Hok a).
    destruct (holds_nonneg _ a Hok). unfold pending, consumed in *. cbn. rewrite !lookup_empty. lia.
  - exists (mk_service (svc_ledger s2) (svc_store s2) (available_snapshot (svc_ledger s2))).
    assert (Hview : reservations (svc_ledger s2) = open_view (reservations (svc_ledger s1))).
    { apply map_eq. intros id. apply option_eq. intros r. rewrite Hres2. cbn. rewrite lookup_empty, Hin'.
      assert (Hid : open_view (reservations (svc_ledger s1)) !! id = Some r → res_id r = id)
        by (intros [Hr _]%map_lookup_filter_Some; by apply Hids).
      split; [|intros Hr; right; split; [exists id; by auto|by auto]]. intros [?|[(id' & Hr & Hid') ?]]; [done|congruence]. }
    split_and!; try done.
    + unfold recover, mbind, cmd_bind, on_store, service_new. cbn. rewrite Hopen. cbn. by rewrite H2.
    + constructor; [done..| |by apply snapshot_words]. unfold agree. cbn. rewrite Hview, Hst2. cbn. rewrite Hdur, <-Hag.
      unfold open_view. rewrite map_filter_filter_l; [done|]. auto.
    + intros a. cbn [svc_ledger]. destruct (Hp2 a) as [-> ->].
      split_and!; [|unfold consumed; cbn; by rewrite lookup_empty|apply snapshot_available].
      rewrite Hsum, <-(ok_pending _ Hok a). unfold pending at 1. cbn. by rewrite lookup_empty.
Qed.

(** The published snapshot is the ledger's room. *)
Definition published s : Prop := ∀ a, service_available s a = available (svc_ledger s) a.

Lemma publish_published s l st : published (mk_service l st (available_snapshot l)).
Proof. intros a. apply snapshot_available. Qed.

Lemma store_then_ledger_published (op : cmd St LedgerStoreError unit) f s :
  ((_ ← on_store op; _ ← on_ledger f; publish) s).1 = Ok tt →
  published ((_ ← on_store op; _ ← on_ledger f; publish) s).2.
Proof.
  rewrite store_then_ledger. destruct (op (svc_store s)) as [[]]; [|done].
  destruct (f (svc_ledger s)) as [[]]; [|done]. intros _. by apply publish_published.
Qed.

Lemma sweep_expired_published now exclude s :
  published s → is_ok (sweep_expired now exclude s).1 = true → published (sweep_expired now exclude s).2.
Proof.
  unfold sweep_expired, mbind, cmd_bind, gets. intros Hp. set (ids := filter _ _).
  destruct ids as [|id ids]; [done|]. destruct (sweep_loop (id :: ids) [] s) as [[swept|e] s']; [|done].
  intros _. by apply publish_published.
Qed.

(** ** Properties *)

(** C11: whatever commands the writer runs whose postings fit the hold they settle (a posting that does not is
    already durable when the engine refuses it), and whichever database statements fail on the way, memory and
    store keep holding the same open reservations, and memory stays accounted. *)
Theorem memory_and_store_agree s cs :
  service_ok s → admissible s cs →
  agree (service_run s cs) ∧ ledger_ok (svc_ledger (service_run s cs)).
Proof. intros Hs Hcs. destruct (service_run_ok cs s Hs Hcs). done. Qed.

(** C12: a crash loses no promise.  Starting a fresh service on the store that any run left whose postings fit the
    hold they settle, recovery succeeds whenever the store and the budgets can be read, and rebuilds exactly the
    holds of the lost memory: every open reservation is back, no closed one is, each account's
    pending amount is what it was, and the service invariant holds again, so operation can resume. *)
Theorem recovery_rebuilds_the_holds s cs budget_of rs st :
  service_ok s → admissible s cs →
  open_reservations (svc_store (service_run s cs)) = (Ok rs, st) →
  (∀ a, ∃ b, budget_of a = Ok b ∧ is_u256 b) →
  ∃ s2, recover budget_of (service_new (svc_store (service_run s cs))) = (Ok tt, s2)
    ∧ service_ok s2
    ∧ reservations (svc_ledger s2) = open_view (reservations (svc_ledger (service_run s cs)))
    ∧ ∀ a, pending (svc_ledger s2) a = pending (svc_ledger (service_run s cs)) a
           ∧ consumed (svc_ledger s2) a = 0
           ∧ service_available s2 a = available (svc_ledger s2) a.
Proof. intros Hs Hcs. by apply recover_rebuilds, service_run_ok. Qed.

(** the lock-free snapshot the quote path reads is the ledger's room: once published, every
    command that succeeds leaves it published. *)
Theorem quotes_read_the_ledger s c :
  published s → (service_exec c s).1 = Ok tt → published (service_exec c s).2.
Proof.
  intros Hp. destruct c; cbn; try apply store_then_ledger_published.
  - unfold reserve_owned. destruct (feed_budgets_spec bs s) as (l & Hl & _).
    unfold mbind, cmd_bind. rewrite Hl. unfold on_ledger at 1 2. cbn.
    destruct (can_reserve l r); cbn; [|done]. unfold on_store. cbn.
    destruct (store_reserve r (svc_store s)) as [[]]; cbn; [|done]. intros _. by apply publish_published.
  - pose proof (sweep_expired_published now exclude s Hp) as Hsw. unfold mbind, cmd_bind.
    destruct (sweep_expired now exclude s) as [[]]; cbn in *; auto; done.
  - destruct read; cbn; [|done]. intros _. by apply publish_published.
Qed.
End service_properties.

(** ** Witnesses, on the SQLite store *)

Definition demo_service (outcomes : list bool) : LedgerService Sqlite := service_new (mk_sqlite ∅ outcomes).
Definition demo_budgets : list (AccountKey * U256) := [(demo_wallet, 1000); (demo_virtual, 600)].

Lemma demo_service_ok outcomes : service_ok (demo_service outcomes).
Proof.
  destruct (default_ok ∅) as (Hok & _ & _); [intros ??; by rewrite lookup_empty|].
  constructor; cbn; [done| |by vm_compute|]; intros a; [unfold budget|unfold service_available]; cbn; rewrite lookup_empty; cbn; u256.
Qed.

(** Reserve, fail a commit, commit again, reserve a second, settle the first. *)
Definition demo_script : list service_command :=
  [SReserve (demo_reservation 1 400) demo_budgets; SCommit 1; SCommit 1;
   SReserve (demo_reservation 2 150) demo_budgets; SPost 1 [390]].
Definition demo_outcomes : list bool := [true; true; true; false].

Lemma demo_admissible : admissible (demo_service demo_outcomes) demo_script.
Proof.
  assert (Hbs : Forall (λ p : AccountKey * U256, is_u256 p.2) demo_budgets)
    by (repeat apply Forall_cons_2; [by split; vm_compute..|apply Forall_nil_2]).
  assert (Hr : ∀ id x, 0 ≤ x ≤ 1000 → service_command_ok (demo_service []) (SReserve (demo_reservation id x) demo_budgets)).
  { intros id x Hx. split; [by split; [|vm_compute]|]. split; [|done]. apply demo_reservation_ok. lia. }
  cbn [admissible demo_script]. split; [by apply Hr|]. split; [done|]. split; [done|]. split; [by apply Hr|].
  split; [|done]. split; [repeat constructor; by vm_compute|].
  intros r. vm_compute. intros [= <-] _. repeat constructor; by vm_compute.
Qed.

Lemma memory_and_store_agree_witness :
  agree (service_run (demo_service demo_outcomes) demo_script)
  ∧ pending (svc_ledger (service_run (demo_service demo_outcomes) demo_script)) demo_wallet = 150
  ∧ consumed (svc_ledger (service_run (demo_service demo_outcomes) demo_script)) demo_wallet = 390.
Proof.
  split; [|split; by vm_compute].
  apply memory_and_store_agree; [apply demo_service_ok|apply demo_admissible].
Defined.

Lemma recovery_rebuilds_the_holds_witness :
  let s1 := service_run (demo_service demo_outcomes) demo_script in
  ∃ s2, recover (λ _, Ok 1000) (service_new (svc_store s1)) = (Ok tt, s2)
    ∧ pending (svc_ledger s2) demo_wallet = 150 ∧ service_available s2 demo_wallet = 850.
Proof.
  intros s1. unfold s1.
  destruct (recovery_rebuilds_the_holds (demo_service demo_outcomes) demo_script (λ _, Ok 1000)
    [demo_reservation 2 150] (svc_store s1)) as (s2 & H2 & _ & _ & Hp).
  - apply demo_service_ok.
  - apply demo_admissible.
  - by vm_compute.
  - intros _. exists 1000. split; [done|]. split; by vm_compute.
  - exists s2. split; [exact H2|]. split.
    + rewrite (proj1 (Hp demo_wallet)). by vm_compute.
    + apply (f_equal snd) in H2. cbn [snd] in H2. rewrite <-H2. by vm_compute.
Defined.

Lemma quotes_read_the_ledger_witness :
  let s := (service_exec (SReserve (demo_reservation 1 400) demo_budgets) (demo_service [])).2 in
  published s ∧ service_available s demo_virtual = 200.
Proof.
  intros s. unfold s. split; [|by vm_compute]. apply quotes_read_the_ledger; [|by vm_compute].
  intros a. unfold service_available, available, budget. cbn. by rewrite !lookup_empty.
Defined.

(** ** Where the durable-first order shows *)

(** [post] persists before the engine checks the fills.  A settlement report above the
    reserved amount is refused by the engine after the store has already recorded it: memory keeps
    the hold, the store has closed it, and a restart silently drops it. *)
Theorem refused_post_is_persisted :
  let s0 := (service_exec (SReserve (demo_reservation 1 400) demo_budgets) (demo_service [])).2 in
  let '(res, s1) := service_exec (SPost 1 [401]) s0 in
  res = Err (LedgerRefused (FillExceedsReserved 0 401 400))
  ∧ pending (svc_ledger s1) demo_wallet = 400
  ∧ (res_state <$> durable (svc_store s1) !! 1) = Some Posted
  ∧ pending (svc_ledger (recover (λ _, Ok 1000) (service_new (svc_store s1))).2) demo_wallet = 0.
Proof. by vm_compute. Qed.

(** A store failure in the middle of a sweep drops the intents already swept, and leaves the
    published room without the holds they released. *)
Theorem interrupted_sweep_is_silent :
  let s0 := service_run (demo_service [true; true; true; true; true; true; true; false])
    [SReserve (demo_reservation 1 400) demo_budgets; SReserve (demo_reservation 2 150) demo_budgets] in
  let '(res, s1) := sweep_expired 60 ∅ s0 in
  res = Err (StoreFailed Db)
  ∧ (res_state <$> reservation (svc_ledger s1) 1) = Some Expired
  ∧ available (svc_ledger s1) demo_wallet = 850
  ∧ service_available s1 demo_wallet = 450.
Proof. by vm_compute. Qed.
