(* ===== verification/LedgerHolds.v ===== *)
(** * The holds of the shared ledger

    What a client of the ledger service sees of it: the reservations it holds, and how each
    command moves them, whatever statement of the store fails. *)

From S2P Require Import Prelude Commands U256 Reservation LedgerEngine LedgerInvariant LedgerProperties LedgerStore LedgerService.

#[local] Open Scope Z_scope.

Section ledger.
Context {LSt : Type} `{HS : LedgerStore LSt} `{HL : !LedgerStoreLaws LSt}.
Implicit Types (l : LedgerService LSt) (r : ReservationId).

Definition holds l : gmap ReservationId Reservation := reservations (svc_ledger l).

(** The reservation is not open. *)
Definition closed l r : Prop := ∀ res, holds l !! r = Some res → ¬ is_open (res_state res).

Lemma reservation_sources_Some l r ss :
  reservation_sources l r = Some ss ↔ ∃ res, holds l !! r = Some res ∧ res_state res = Pending ∧ res_sources res = ss.
Proof.
  unfold reservation_sources, reservation, holds. destruct (reservations (svc_ledger l) !! r) as [res|]; cbn; [|naive_solver].
  case_decide; split; [intros [= <-]; eauto|intros (? & [= <-] & _ & <-); done|done|naive_solver].
Qed.

(** A settlement command on a held reservation: it moves the hold, or the store fails and nothing changes. *)
Definition hold_moves (to : ReservationState) l r (res : result SolventError unit) l' : Prop :=
  service_ok l' ∧
  match res with
  | Ok _ => ∃ x, holds l !! r = Some x ∧ holds l' = <[r := with_state x to]> (holds l)
  | Err e => holds l' = holds l ∧ ∃ se, e = StoreFailed se
  end.

Lemma durable_move_Some from to r (m : gmap ReservationId Reservation) x :
  m !! r = Some x → res_state x ∈ from → durable_move from to r m = <[r := with_state x to]> m.
Proof. intros Hx Hs. unfold durable_move. rewrite Hx. by rewrite decide_True. Qed.

Lemma store_then_ledger_moves (op : cmd LSt LedgerStoreError unit) f to l r x :
  holds l !! r = Some x → service_ok ((_ ← on_store op; _ ← on_ledger f; publish) l).2 →
  (f (svc_ledger l)).1 = Ok tt → reservations (f (svc_ledger l)).2 = <[r := with_state x to]> (holds l) →
  outcome (_ ← on_store op; _ ← on_ledger f; publish) (hold_moves to l r) l.
Proof.
  intros Hx Hok Hf Hres. unfold outcome. rewrite store_then_ledger in *. unfold hold_moves.
  destruct (op (svc_store l)) as [[[]|e] st]; [|by cbn in *; eauto].
  destruct (f (svc_ledger l)) as [[[]|e] l'] eqn:Hfl; cbn in *; [|done]. split; [done|]. by exists x.
Qed.

Lemma void_held l r ss :
  service_ok l → reservation_sources l r = Some ss → outcome (LedgerService.void r) (hold_moves Voided l r) l.
Proof.
  intros Hok (x & Hx & Hp & _)%reservation_sources_Some. pose proof Hx as Hx'. unfold holds in Hx'.
  apply (store_then_ledger_moves _ _ _ _ _ x); [done| | |].
  - by apply (service_exec_ok (SVoid r)).
  - unfold LedgerEngine.void, release_active, active_sources. rewrite Hx'. cbn. by rewrite Hp.
  - rewrite void_move. apply durable_move_Some; [done|]. rewrite Hp. set_solver.
Qed.

Lemma expire_held l r ss :
  service_ok l → reservation_sources l r = Some ss → outcome (LedgerService.expire r) (hold_moves Expired l r) l.
Proof.
  intros Hok (x & Hx & Hp & _)%reservation_sources_Some. pose proof Hx as Hx'. unfold holds in Hx'.
  apply (store_then_ledger_moves _ _ _ _ _ x); [done| | |].
  - by apply (service_exec_ok (SExpire r)).
  - unfold LedgerEngine.expire, pending_sources, require_state. rewrite Hx'. cbn. by rewrite decide_True.
  - rewrite expire_move. apply durable_move_Some; [done|]. rewrite Hp. set_solver.
Qed.

Lemma post_held l r ss fills :
  service_ok l → reservation_sources l r = Some ss → Forall is_u256 fills → fills_ok ss fills →
  outcome (LedgerService.post r fills) (hold_moves Posted l r) l.
Proof.
  intros Hok (x & Hx & Hp & <-)%reservation_sources_Some Hu Hf. pose proof Hx as Hx'. unfold holds in Hx'.
  assert (Hfit : ∀ y, reservation (svc_ledger l) r = Some y → is_open (res_state y) → fills_ok (res_sources y) fills).
  { intros y Hy _. unfold reservation in Hy. by simplify_eq. }
  apply (store_then_ledger_moves _ _ _ _ _ x); [done| | |].
  - by apply (service_exec_ok (SPost r fills)).
  - unfold LedgerEngine.post, active_sources. rewrite Hx'. cbn. rewrite Hp. cbn.
    rewrite (proj2 (Nat.eqb_eq _ _)) by (symmetry; by eapply Forall2_length). cbn. by rewrite check_fills_fit.
  - rewrite post_move by done. apply durable_move_Some; [done|]. rewrite Hp. set_solver.
Qed.

(** ** Settling *)

Lemma fills_words ss fs : fills_ok ss fs → amounts_ok ss → Forall is_u256 fs.
Proof.
  induction 1 as [|src y ss fs Hy _ IH]; [constructor|]. intros [Hs Hss]%Forall_cons.
  constructor; [unfold is_u256 in *; lia|by apply IH].
Qed.

(** What a settlement booked for a hold. *)
Definition booked l r : option (list U256) := filled (svc_ledger l) !! r.

(** A command that answers moved the ledger as the engine does; a refused one left it alone. *)
Lemma store_then_exec (op : cmd LSt LedgerStoreError unit) c l :
  outcome (_ ← on_store op; _ ← on_ledger (λ lg, exec lg c); publish) (λ res l',
    match res with
    | Ok _ => exec (svc_ledger l) c = (Ok tt, svc_ledger l')
    | Err e => svc_ledger l' = svc_ledger l ∧ ∀ le, e = LedgerRefused le → (exec (svc_ledger l) c).1 = Err le
    end) l.
Proof.
  unfold outcome. rewrite store_then_ledger. destruct (op (svc_store l)) as [[[]|e] st]; cbn; [|done].
  pose proof (exec_Err (svc_ledger l) c) as Herr. destruct (exec (svc_ledger l) c) as [[[]|e] lg]; cbn in *; [done|].
  split; [by eapply Herr|]. by intros ? [= <-].
Qed.

Lemma void_filled lg r : filled (LedgerEngine.void lg r).2 = filled lg.
Proof. unfold LedgerEngine.void, release_active, release_sources. case_match; [|done]. cbn. by rewrite transition_filled. Qed.

Lemma expire_filled lg r : filled (LedgerEngine.expire lg r).2 = filled lg.
Proof. unfold LedgerEngine.expire, release_sources. case_match; [|done]. cbn. by rewrite transition_filled. Qed.

Lemma post_filled lg r fills lg' : LedgerEngine.post lg r fills = (Ok tt, lg') → filled lg' = <[r := fills]> (filled lg).
Proof.
  unfold LedgerEngine.post. destruct (active_sources lg r); [|done]. destruct (negb _); [done|]. destruct (check_fills _ _ _); [|done].
  intros [= <-]. by rewrite transition_filled.
Qed.

(** The engine voids exactly the open reservations. *)
Lemma void_engine lg r :
  match LedgerEngine.void lg r with
  | (Ok _, lg') => ∃ x, reservations lg !! r = Some x ∧ is_open (res_state x) ∧ reservations lg' = <[r := with_state x Voided]> (reservations lg)
  | (Err _, _) => ∀ x, reservations lg !! r = Some x → ¬ is_open (res_state x)
  end.
Proof.
  pose proof (void_move lg r) as Hm. unfold LedgerEngine.void, release_active in *.
  destruct (active_sources lg r) as [ss|e] eqn:Ha; cbn in Hm.
  - apply active_sources_Ok in Ha as (x & Hx & _ & Hs). exists x. split; [done|]. split; [done|].
    rewrite Hm. apply durable_move_Some; [done|]. destruct Hs as [-> | ->]; set_solver.
  - intros x Hx Hs. unfold active_sources in Ha. rewrite Hx in Ha. cbn in Ha. by destruct Hs as [Hs|Hs]; rewrite Hs in Ha.
Qed.

(** Voiding any reservation: an open one is released; a refusal by the engine means that it is not open. *)
Lemma void_outcome l r :
  service_ok l →
  outcome (LedgerService.void r) (λ res l', service_ok l' ∧ (∀ r', booked l' r' = booked l r') ∧
    match res with
    | Ok _ => ∃ x, holds l !! r = Some x ∧ is_open (res_state x) ∧ holds l' = <[r := with_state x Voided]> (holds l)
    | Err e => holds l' = holds l ∧ ∀ le, e = LedgerRefused le → closed l r
    end) l.
Proof.
  intros Hok. pose proof (service_exec_ok (SVoid r) l Hok I) as Hok'. pose proof (store_then_exec (store_void r) (Void r) l) as Hex.
  pose proof (void_engine (svc_ledger l) r) as Heng. pose proof (void_filled (svc_ledger l) r) as Hfil.
  unfold outcome in *. split; [exact Hok'|]. cbn [exec] in Hex. change ((_ ← on_store (store_void r); _ ← on_ledger _; publish) l)
    with (LedgerService.void r l) in Hex. unfold booked, holds, closed, holds in *.
  destruct (LedgerService.void r l) as [[u|e] l']; cbn [fst snd] in *.
  - rewrite Hex in Heng, Hfil. cbn in Heng, Hfil. split; [by rewrite Hfil|done].
  - destruct Hex as [-> Href]. split; [done|]. split; [done|]. intros le ->. specialize (Href le eq_refl).
    by destruct (LedgerEngine.void (svc_ledger l) r) as [[]].
Qed.

(** Posting a held reservation books the amounts it was given. *)
Lemma post_outcome l r ss fills :
  service_ok l → reservation_sources l r = Some ss → Forall is_u256 fills → fills_ok ss fills →
  outcome (LedgerService.post r fills) (λ res l', hold_moves Posted l r res l' ∧
    (∀ r', r' ≠ r → booked l' r' = booked l r') ∧
    booked l' r = match res with Ok _ => Some fills | Err _ => booked l r end) l.
Proof.
  intros Hok Hss Hu Hf. pose proof (post_held l r ss fills Hok Hss Hu Hf) as Hmv. pose proof (store_then_exec (store_post r fills) (Post r fills) l) as Hex.
  unfold outcome in *. split; [exact Hmv|]. clear Hmv. cbn [exec] in Hex. change ((_ ← on_store (store_post r fills); _ ← on_ledger _; publish) l)
    with (LedgerService.post r fills l) in Hex. unfold booked. destruct (LedgerService.post r fills l) as [[u|e] l']; cbn [fst snd] in *.
  - apply post_filled in Hex. rewrite Hex. split; [|apply lookup_insert_eq]. intros r' Hr'. by rewrite lookup_insert_ne.
  - by destruct Hex as [-> _].
Qed.

(** ** Reserving *)

Lemma read_budgets_words budget_of accts bs :
  (∀ a x, budget_of a = Ok x → is_u256 x) → read_budgets budget_of accts = Ok bs → Forall (λ p, is_u256 p.2) bs.
Proof.
  intros Hb. revert bs. induction accts as [|a accts IH]; cbn.
  - intros bs [= <-]. constructor.
  - intros bs (b & Hba & (bs' & Hbs' & [= <-])%bind_Ok)%bind_Ok. constructor; [by eapply Hb|by apply IH].
Qed.

(** The hold is fresh and pending, or nothing is held; a refusal for want of room or a duplicate leaves the store alone. *)
Definition reserved_as (x : Reservation) l (res : result SolventError unit) l' : Prop :=
  service_ok l' ∧
  match res with
  | Ok _ => holds l !! res_id x = None ∧ holds l' = <[res_id x := x]> (holds l)
  | Err _ => holds l' = holds l
  end.

Lemma reserve_with_outcome l budget_of accts x :
  service_ok l → (∀ a y, budget_of a = Ok y → is_u256 y) → reservation_ok x → storable x →
  outcome (bs ← lift (read_budgets budget_of accts); reserve_owned x bs) (reserved_as x l) l.
Proof.
  intros Hok Hb Hr Hst. apply outcome_lift_bind. destruct (read_budgets budget_of _) as [bs|e] eqn:Hread; [|done].
  apply read_budgets_words in Hread; [|done].
  assert (Hok' : service_ok (reserve_owned x bs l).2) by (by apply reserve_owned_ok).
  unfold outcome, reserved_as. split; [done|]. unfold reserve_owned, mbind, cmd_bind.
  destruct (feed_budgets_spec bs l) as (lg & -> & _ & Hres & _). unfold on_ledger. cbn [svc_ledger svc_store svc_available].
  destruct (can_reserve lg x) as [[]|e] eqn:Hcan; cbn; [|done]. unfold on_store. cbn [svc_store].
  destruct (store_reserve x (svc_store l)) as [[[]|e] st]; cbn; [|done].
  apply can_reserve_fresh in Hcan. unfold holds. cbn. unfold restore. rewrite Hcan. cbn. rewrite Hres in *. done.
Qed.

Lemma expiry_unsigned now ttl : 0 ≤ now → 0 ≤ ttl → 0 ≤ u64_saturating_add now ttl.
Proof. unfold u64_saturating_add, U64_MAX. lia. Qed.

Lemma reserve_outcome l budget_of now r i ss ttl :
  service_ok l → (∀ a x, budget_of a = Ok x → is_u256 x) → 0 ≤ now → 0 ≤ ttl →
  reservation_ok (for_swap r i ss (u64_saturating_add now ttl)) →
  outcome (LedgerService.reserve budget_of now r i ss ttl) (reserved_as (for_swap r i ss (u64_saturating_add now ttl)) l) l.
Proof. intros Hok Hb Hnow Httl Hr. apply reserve_with_outcome; [done..|]. split; [done|]. by apply expiry_unsigned. Qed.

Lemma reserve_rebate_outcome l budget_of now r bid ss ttl :
  service_ok l → (∀ a x, budget_of a = Ok x → is_u256 x) → 0 ≤ now → 0 ≤ ttl →
  reservation_ok (for_rebate r bid ss (u64_saturating_add now ttl)) →
  outcome (reserve_rebate budget_of now r bid ss ttl) (reserved_as (for_rebate r bid ss (u64_saturating_add now ttl)) l) l.
Proof. intros Hok Hb Hnow Httl Hr. apply reserve_with_outcome; [done..|]. split; [done|]. by apply expiry_unsigned. Qed.

(** ** Sweeping *)

(** The hold was pending and expired. *)
Definition expired_hold l l' r x : Prop := holds l !! r = Some x ∧ res_state x = Pending ∧ holds l' !! r = Some (with_state x Expired).

Lemma expire_state_moves l r lg :
  LedgerEngine.expire (svc_ledger l) r = (Ok tt, lg) →
  ∃ x, holds l !! r = Some x ∧ res_state x = Pending ∧ reservations lg = <[r := with_state x Expired]> (holds l).
Proof.
  intros He. pose proof (expire_move (svc_ledger l) r) as Hm. rewrite He in Hm. cbn in Hm.
  unfold LedgerEngine.expire in He. destruct (pending_sources (svc_ledger l) r) as [ss|e] eqn:Hp; [|done].
  apply pending_sources_Ok in Hp as (x & Hx & _ & Hs). exists x. split; [exact Hx|]. split; [exact Hs|].
  rewrite Hm. apply durable_move_Some; [done|]. rewrite Hs. set_solver.
Qed.

(** Each hold is as it was or is one of [ids] and expired; when the sweep reports, all of [ids] expired and their intents are
    reported. *)
Lemma sweep_loop_moves ids acc l :
  NoDup ids →
  outcome (sweep_loop ids acc) (λ res l',
    filled (svc_ledger l') = filled (svc_ledger l)
    ∧ (∀ r, holds l' !! r = holds l !! r ∨ (r ∈ ids ∧ ∃ x, expired_hold l l' r x))
    ∧ match res with
      | Ok swept => (∀ r, r ∈ ids → ∃ x, expired_hold l l' r x)
          ∧ ∀ i, i ∈ swept ↔ i ∈ acc ∨ ∃ r x, r ∈ ids ∧ holds l !! r = Some x ∧ res_owner x = Swap i
      | Err _ => True
      end) l.
Proof.
  intros Hnd. revert acc l. induction Hnd as [|r ids Hr _ IH]; intros acc l.
  { cbn. split; [done|]. split; [by left|]. split; [set_solver|]. set_solver. }
  cbn [sweep_loop]. apply outcome_gets, outcome_bind. unfold outcome at 1, on_store.
  destruct (store_expire r (svc_store l)) as [[[]|e] st]; cbn; [|split; [done|]; split; [by left|done]].
  apply outcome_bind. unfold outcome at 1, on_ledger. cbn.
  destruct (LedgerEngine.expire (svc_ledger l) r) as [[[]|e] lg] eqn:He; cbn.
  2: { pose proof (exec_Err (svc_ledger l) (Expire r) e) as Hsame. cbn in Hsame.
       rewrite He in Hsame. cbn in Hsame. rewrite (Hsame eq_refl). split; [done|]. split; [by left|done]. }
  destruct (expire_state_moves l r lg He) as (x & Hx & Hp & Hm). set (l1 := mk_service lg st (svc_available l)).
  assert (Hne : ∀ r', r' ≠ r → holds l1 !! r' = holds l !! r') by (intros r' Hr'; unfold holds at 1; cbn; by rewrite Hm, lookup_insert_ne).
  assert (Heq : holds l1 !! r = Some (with_state x Expired)) by (unfold holds; cbn; by rewrite Hm, lookup_insert_eq).
  unfold holds in Hx. eapply outcome_mono; [apply IH|]. fold l1. intros res l' (Hfil & Hall & Hok).
  assert (Hr' : holds l' !! r = Some (with_state x Expired)).
  { destruct (Hall r) as [->|[Hin _]]; [done|by destruct Hr]. }
  assert (Hexp : expired_hold l l' r x) by (by unfold expired_hold).
  assert (Hlater : ∀ r' y, r' ≠ r → expired_hold l1 l' r' y → expired_hold l l' r' y).
  { intros r' y Hr1 (Hy & Hs & Hl'). split; [by rewrite <-(Hne r' Hr1)|done]. }
  split; [|split].
  - rewrite Hfil. cbn. pose proof (expire_filled (svc_ledger l) r) as Hf. by rewrite He in Hf.
  - intros r'. destruct (decide (r' = r)) as [->|Hr1]; [right; split; [left|by exists x]|].
    destruct (Hall r') as [H1|(Hin & y & Hy)]; [left; by rewrite H1, Hne|]. right. split; [by right|]. exists y. by apply Hlater.
  - destruct res as [swept|e]; [|done]. destruct Hok as [Hall' Hsw]. split.
    + intros r' [->|Hin]%elem_of_cons; [by exists x|]. destruct (Hall' r' Hin) as (y & Hy). exists y. apply Hlater; [|done].
      intros ->. by destruct Hr.
    + intros i. rewrite Hsw, elem_of_app. unfold reservation, holds. rewrite Hx. cbn [mbind option_bind]. split.
      * intros [[Hi|Hi]|(r' & y & Hin & Hy & Ho)]; [by left| |].
        -- right. exists r, x. split; [left|]. split; [done|]. destruct (res_owner x); cbn in Hi; set_solver.
        -- right. exists r', y. split; [by right|]. split; [|done]. rewrite <-Hy. symmetry. apply Hne. intros ->. by destruct Hr.
      * intros [Hi|(r' & y & [->|Hin]%elem_of_cons & Hy & Ho)]; [by do 2 left| |].
        -- left; right. simplify_eq. rewrite Ho. cbn. set_solver.
        -- right. exists r', y. split; [done|]. split; [|done]. rewrite <-Hy. apply Hne. intros ->. by destruct Hr.
Qed.

(** One sweep: holds expire only outside [exclude], and a sweep that reports names exactly the intents whose holds it expired. *)
Lemma sweep_outcome now exclude l :
  service_ok l →
  outcome (sweep_expired now exclude) (λ res l', service_ok l' ∧ (∀ r, booked l' r = booked l r)
    ∧ (∀ r, holds l' !! r = holds l !! r ∨ (r ∉ exclude ∧ ∃ x i, expired_hold l l' r x ∧ res_owner x = Swap i ∧ res_expires_at x ≤ now))
    ∧ match res with
      | Ok swept => (∀ i, i ∈ swept ↔ ∃ r x, r ∉ exclude ∧ expired_hold l l' r x ∧ res_owner x = Swap i)
          ∧ ∀ r x i, r ∉ exclude → holds l' !! r = Some x → res_state x = Pending → res_owner x = Swap i → now < res_expires_at x
      | Err _ => True
      end) l.
Proof.
  intros Hok. pose proof (sweep_expired_ok now exclude l Hok) as Hok'. unfold outcome. split; [exact Hok'|].
  destruct (sweep_selects_elapsed_swaps (svc_ledger l) now (service_ledger_ok _ Hok)) as [Hnd Hsel].
  unfold sweep_expired, mbind, cmd_bind, gets in *. set (ids := filter _ _) in *.
  assert (Hids : ∀ r, r ∈ ids ↔ r ∉ exclude ∧ ∃ x i, holds l !! r = Some x ∧ res_state x = Pending ∧ res_owner x = Swap i ∧ res_expires_at x ≤ now).
  { intros r. unfold ids. rewrite list_elem_of_filter, Hsel. done. }
  pose proof (sweep_loop_moves ids [] l (NoDup_filter _ _ Hnd)) as Hloop. unfold outcome in Hloop. clearbody ids.
  assert (Hout : ∀ l', (∀ r, holds l' !! r = holds l !! r ∨ (r ∈ ids ∧ ∃ x, expired_hold l l' r x)) →
    ∀ r, holds l' !! r = holds l !! r ∨ (r ∉ exclude ∧ ∃ x i, expired_hold l l' r x ∧ res_owner x = Swap i ∧ res_expires_at x ≤ now)).
  { intros l' Hall r. destruct (Hall r) as [?|(Hin & x & Hx)]; [by left|right]. apply Hids in Hin as (He & y & i & Hy & _ & Ho & Ht).
    split; [done|]. exists x, i. destruct Hx as (Hx & Hrest). simplify_eq. done. }
  destruct (sweep_loop ids [] l) as [[swept|e] l']; cbn in Hloop |- *;
    [|destruct Hloop as (Hfil & Hall & _); split; [by unfold booked; rewrite Hfil|split; [by apply Hout|done]]].
  destruct Hloop as (Hfil & Hall & Hexp & Hsw).
  assert (Hiff : ∀ i, i ∈ swept ↔ ∃ r x, r ∉ exclude ∧ expired_hold l l' r x ∧ res_owner x = Swap i).
  { intros i. rewrite Hsw. split.
    - intros [?|(r & x & Hin & Hx & Ho)]; [set_solver|]. destruct (Hexp r Hin) as (y & Hy & Hrest). exists r, x.
      split; [by apply Hids in Hin as [? _]|]. simplify_eq. done.
    - intros (r & x & He & (Hx & Hp & Hx') & Ho). right. exists r, x. split; [|done].
      destruct (Hall r) as [Hsame|[Hin _]]; [|done]. rewrite Hsame, Hx in Hx'. injection Hx' as Heq.
      assert (Hs : res_state x = Expired) by (by rewrite Heq). congruence. }
  assert (Hleft : ∀ r x i, r ∉ exclude → holds l' !! r = Some x → res_state x = Pending → res_owner x = Swap i → now < res_expires_at x).
  { intros r x i He Hx Hp Ho. apply Z.nle_gt. intros Hle. assert (Hin : r ∈ ids).
    { apply Hids. split; [done|]. exists x, i. destruct (Hall r) as [Heq|(_ & y & _ & _ & Hy)]; [by rewrite <-Heq|].
      rewrite Hx in Hy. injection Hy as ->. done. }
    destruct (Hexp r Hin) as (y & _ & _ & Hy). rewrite Hx in Hy. by injection Hy as ->. }
  destruct (negb _); cbn; (split; [by unfold booked; cbn; rewrite Hfil|split; [apply Hout, Hall|split; [exact Hiff|exact Hleft]]]).
Qed.

(** ** Restarting *)

(** Reads that fail, made total; what was read before the failure is the same. *)
Definition total_budgets (budget_of : AccountKey → result SolventError U256) : AccountKey → result SolventError U256 :=
  λ a, match budget_of a with Ok x => Ok x | Err _ => Ok 0 end.

Lemma read_budgets_Ok budget_of accts bs :
  read_budgets budget_of accts = Ok bs → read_budgets (total_budgets budget_of) accts = Ok bs.
Proof.
  revert bs. induction accts as [|a accts IH]; intros bs; cbn; [done|].
  intros (x & Hx & (xs & Hxs & [= <-])%bind_Ok)%bind_Ok. assert (Ht : total_budgets budget_of a = Ok x) by (unfold total_budgets; by rewrite Hx).
  rewrite Ht. cbn. by rewrite (IH xs Hxs).
Qed.

Lemma recover_loop_Ok budget_of rs l l' :
  recover_loop budget_of rs l = (Ok tt, l') → recover_loop (total_budgets budget_of) rs l = (Ok tt, l').
Proof.
  revert l. induction rs as [|r rs IH]; intros l; cbn [recover_loop]; [done|]. unfold mbind, cmd_bind, lift.
  destruct (read_budgets budget_of _) as [bs|e] eqn:Hr; [|done]. rewrite (read_budgets_Ok _ _ _ Hr).
  destruct (feed_budgets_spec bs l) as (lg & -> & _). unfold on_ledger. cbn. apply IH.
Qed.

Lemma recover_loop_store budget_of rs l : svc_store (recover_loop budget_of rs l).2 = svc_store l.
Proof.
  revert l. induction rs as [|r rs IH]; intros l; cbn [recover_loop]; [done|]. unfold mbind, cmd_bind, lift.
  destruct (read_budgets budget_of _) as [bs|e]; [|done]. destruct (feed_budgets_spec bs l) as (lg & -> & _).
  unfold on_ledger. cbn. by rewrite IH.
Qed.

(** A restart of the ledger rebuilds its open holds, or fails and leaves the store as it was. *)
Lemma ledger_restart l budget_of :
  service_ok l → (∀ a x, budget_of a = Ok x → is_u256 x) →
  outcome (LedgerService.recover budget_of) (λ res l',
    match res with
    | Ok _ => service_ok l' ∧ holds l' = open_view (holds l)
    | Err _ => durable (svc_store l') = durable (svc_store l)
    end) (service_new (svc_store l)).
Proof.
  intros Hok Hb. unfold outcome.
  destruct (LedgerService.recover budget_of (service_new (svc_store l))) as [res l'] eqn:Hrec. cbn.
  pose proof Hrec as Hrun. unfold LedgerService.recover, mbind, cmd_bind, on_store, service_new in Hrun. cbn in Hrun.
  pose proof (open_law (svc_store l)) as Hlaw. destruct (open_reservations (svc_store l)) as [[rs|e] st] eqn:Hopen; cbn in Hrun.
  2: { injection Hrun as <- <-. done. }
  pose proof (recover_loop_store budget_of rs (mk_service ledger_default st ∅)) as Hst.
  destruct (recover_loop budget_of rs _) as [[[]|e] l1] eqn:Hloop; cbn in Hrun, Hst; injection Hrun as <- <-.
  2: { rewrite Hst. by destruct Hlaw. }
  assert (Htot : ∀ a, ∃ x, total_budgets budget_of a = Ok x ∧ is_u256 x).
  { intros a. unfold total_budgets. destruct (budget_of a) as [x|] eqn:Ha; [exists x; eauto|exists 0]. split; [done|]. u256. }
  destruct (recover_rebuilds l (total_budgets budget_of) rs st Hok Hopen Htot) as (l2 & Hl2 & Hok2 & Hres & _).
  unfold LedgerService.recover, mbind, cmd_bind, on_store, service_new in Hl2. cbn in Hl2. rewrite Hopen in Hl2. cbn in Hl2.
  rewrite (recover_loop_Ok _ _ _ _ Hloop) in Hl2. cbn in Hl2. injection Hl2 as <-. done.
Qed.

(** A ledger with another store that represents the same is as good. *)
Lemma same_durable_ok (l : LedgerService LSt) lst :
  service_ok l → durable (svc_store l) = durable lst → service_ok (mk_service (svc_ledger l) lst (svc_available l)).
Proof. intros [] Hd. constructor; try done. unfold agree in *. cbn. by rewrite <-Hd. Qed.

End ledger.

(** * What the store keeps of a hold

    A client that outlives the ledger process reasons about the durable holds: memory forgets the
    closed ones at a restart.  Every hold in memory is the durable one, and each command moves the
    durable hold it names and no other. *)

Section mirror.
Context {LSt : Type} `{HS : LedgerStore LSt} `{HL : !LedgerStoreLaws LSt}.
Implicit Types (l : LedgerService LSt) (r : ReservationId).

Definition stored l : gmap ReservationId Reservation := durable (svc_store l).

Definition mirrors l : Prop := ∀ r x, holds l !! r = Some x → stored l !! r = Some x.

Lemma durable_move_ne from to r r' (m : gmap ReservationId Reservation) : r' ≠ r → durable_move from to r m !! r' = m !! r'.
Proof. intros Hr. unfold durable_move. destruct (m !! r); [|done]. case_decide; [|done]. by rewrite lookup_insert_ne. Qed.

Lemma mirrors_move from to r (m d : gmap ReservationId Reservation) :
  (∀ r x, m !! r = Some x → d !! r = Some x) →
  ∀ r' x, durable_move from to r m !! r' = Some x → durable_move from to r d !! r' = Some x.
Proof.
  intros Hm r' x. destruct (decide (r' = r)) as [->|Hne]; [|rewrite !durable_move_ne by done; apply Hm].
  unfold durable_move. destruct (m !! r) as [y|] eqn:Hy; [|by rewrite Hy]. rewrite (Hm _ _ Hy).
  case_decide; [by rewrite !lookup_insert_eq|rewrite Hy; by intros [= <-]; apply Hm].
Qed.

(** ** Commands on one hold *)

(** The command moves hold [r] at most, and its answer tells the state of the durable hold. *)
Record moves_hold (from : list ReservationState) (to : ReservationState) r l (res : result SolventError unit) l' : Prop := {
  mh_mirrors : mirrors l';
  mh_stored : stored l' = stored l ∨ stored l' = durable_move from to r (stored l);
  mh_ok : ∀ u, res = Ok u → ∃ x, stored l' !! r = Some x ∧ res_state x = to;
  mh_wrong : ∀ i found e, res = Err (LedgerRefused (WrongState i found e)) → ∃ x, stored l' !! r = Some x ∧ res_state x = found
}.

Lemma store_then_moves (op : cmd LSt LedgerStoreError unit) f from to r l :
  mirrors l → move_law durable op from to r →
  reservations (f (svc_ledger l)).2 = durable_move from to r (holds l) →
  ((f (svc_ledger l)).1 = Ok tt → ∃ x, reservations (f (svc_ledger l)).2 !! r = Some x ∧ res_state x = to) →
  (∀ i found e, (f (svc_ledger l)).1 = Err (WrongState i found e) → ∃ x, reservations (f (svc_ledger l)).2 !! r = Some x ∧ res_state x = found) →
  outcome (_ ← on_store op; _ ← on_ledger f; publish) (moves_hold from to r l) l.
Proof.
  intros Hm Hlaw Hf Hok Hwrong. unfold outcome. rewrite store_then_ledger. specialize (Hlaw (svc_store l)).
  destruct (op (svc_store l)) as [[[]|e] st]; cbn; [|split; unfold mirrors, stored, holds; cbn; rewrite ?Hlaw; first [done|by left]].
  assert (Hm' : ∀ r' x, reservations (f (svc_ledger l)).2 !! r' = Some x → durable st !! r' = Some x).
  { intros r' x. rewrite Hf, Hlaw. by apply mirrors_move. }
  assert (Hst : durable st = durable (svc_store l) ∨ durable st = durable_move from to r (durable (svc_store l))) by (by right).
  destruct (f (svc_ledger l)) as [[[]|e] lg]; cbn in *; split; unfold mirrors, stored, holds; cbn; try done.
  - intros _ _. destruct Hok as (x & Hx & Hs); [done|]. exists x. split; [by apply Hm'|done].
  - intros i found e' [= ->]. destruct (Hwrong i found e' eq_refl) as (x & Hx & Hs). exists x. split; [by apply Hm'|done].
Qed.

Lemma transition_reached lg r x to :
  reservations lg !! r = Some x → ∃ y, reservations (transition lg r to) !! r = Some y ∧ res_state y = to.
Proof. intros Hx. exists (with_state x to). rewrite (transition_reservations _ _ _ x) by done. by rewrite lookup_insert_eq. Qed.

Lemma commit_moves_hold r l : mirrors l → outcome (LedgerService.commit r) (moves_hold [Pending] Committed r l) l.
Proof.
  intros Hm. apply store_then_moves; [done|apply commit_law|apply commit_move| |]; unfold LedgerEngine.commit.
  - destruct (reservations (svc_ledger l) !! r) as [x|] eqn:Hx; [|done]. destruct (res_state x) eqn:Hs; try done; intros _.
    + by eapply transition_reached.
    + by exists x.
  - intros i found e. destruct (reservations (svc_ledger l) !! r) as [x|] eqn:Hx; [|done].
    destruct (res_state x) eqn:Hs; try done; cbn; intros [= _ <- _]; by exists x.
Qed.

(** The engine finds the sources of an open hold, or tells its state. *)
Lemma active_sources_cases lg r :
  match active_sources lg r with
  | Ok ss => ∃ x, reservations lg !! r = Some x ∧ ss = res_sources x ∧ is_open (res_state x)
  | Err (WrongState _ found _) => ∃ x, reservations lg !! r = Some x ∧ res_state x = found
  | Err _ => True
  end.
Proof.
  unfold active_sources. destruct (reservations lg !! r) as [x|] eqn:Hx; cbn; [|done].
  destruct (res_state x) eqn:Hs; exists x; rewrite ?Hs; unfold is_open; auto.
Qed.

Lemma void_moves_hold r l : mirrors l → outcome (LedgerService.void r) (moves_hold [Pending; Committed] Voided r l) l.
Proof.
  intros Hm. apply store_then_moves; [done|apply void_law|apply void_move| |]; unfold LedgerEngine.void, release_active, release_sources;
    pose proof (active_sources_cases (svc_ledger l) r) as Ha; destruct (active_sources (svc_ledger l) r) as [ss|e]; try done; cbn.
  - intros _. destruct Ha as (x & Hx & _ & _). by apply (transition_reached _ _ x).
  - by intros i found e' [= ->].
Qed.

Lemma post_moves_hold r fills l :
  mirrors l → (∀ x, holds l !! r = Some x → is_open (res_state x) → fills_ok (res_sources x) fills) →
  outcome (LedgerService.post r fills) (moves_hold [Pending; Committed] Posted r l) l.
Proof.
  intros Hm Hfit. apply store_then_moves; [done|apply post_law|by apply post_move| |]; unfold LedgerEngine.post;
    pose proof (active_sources_cases (svc_ledger l) r) as Ha; destruct (active_sources (svc_ledger l) r) as [ss|e]; try done; cbn.
  - destruct (negb _); [done|]. destruct (check_fills _ _ _); [|done]. intros _. destruct Ha as (x & Hx & _ & _). by apply (transition_reached _ _ x).
  - intros i found e. destruct (negb _); [done|]. destruct (check_fills 0 ss fills) as [|e'] eqn:Hc; [done|]. cbn. intros [= ->]. exfalso.
    destruct Ha as (x & Hx & -> & Hs). by rewrite (check_fills_fit 0 _ _ (Hfit x Hx Hs)) in Hc.
  - by intros i found e' [= ->].
Qed.

Lemma expire_moves_hold r l : mirrors l → outcome (LedgerService.expire r) (moves_hold [Pending] Expired r l) l.
Proof.
  intros Hm. apply store_then_moves; [done|apply expire_law|apply expire_move| |];
    unfold LedgerEngine.expire, pending_sources, require_state, release_sources;
    destruct (reservations (svc_ledger l) !! r) as [x|] eqn:Hx; cbn; try done; case_decide; cbn; try done.
  - intros _. by apply (transition_reached _ _ x).
  - intros i found e [= _ <- _]. by exists x.
Qed.

Lemma void_reorg_moves_hold r l : mirrors l → outcome (LedgerService.void_reorg r) (moves_hold [Posted] ReorgOpen r l) l.
Proof.
  intros Hm. apply store_then_moves; [done|apply void_reorg_law|apply void_reorg_move| |]; unfold LedgerEngine.void_reorg, require_state;
    destruct (reservations (svc_ledger l) !! r) as [x|] eqn:Hx; cbn; try done; case_decide; cbn; try done.
  - intros _. by apply (transition_reached _ _ x).
  - intros i found e [= _ <- _]. by exists x.
Qed.
(** ** Commands on many holds *)

Lemma can_reserve_duplicate lg x i : can_reserve lg x = Err (Duplicate i) → is_Some (reservations lg !! res_id x).
Proof.
  unfold can_reserve. destruct (reservations lg !! res_id x); [done|].
  induction (entries (aggregate_demand (res_sources x))) as [|[a y] es IH]; cbn; [done|]. case_match; cbn; [done|apply IH].
Qed.

Lemma reserve_owned_refused x bs l i :
  (reserve_owned x bs l).1 = Err (LedgerRefused (Duplicate i)) → is_Some (holds l !! res_id x).
Proof.
  unfold reserve_owned, mbind, cmd_bind. destruct (feed_budgets_spec bs l) as (lg & -> & _ & Hr & _). unfold on_ledger. cbn [svc_ledger svc_store svc_available].
  destruct (can_reserve lg x) as [[]|e] eqn:Hcan; cbn; [|intros [= ->]; unfold holds; rewrite <-Hr; by eapply can_reserve_duplicate].
  unfold on_store. cbn. by destruct (store_reserve x (svc_store l)) as [[[]|e] st].
Qed.

Lemma reserve_owned_mirrors x bs l :
  storable x → mirrors l →
  outcome (reserve_owned x bs) (λ _ l', mirrors l'
    ∧ (stored l' = stored l ∨ (stored l !! res_id x = None ∨ stored l !! res_id x = Some x) ∧ stored l' = <[res_id x := x]> (stored l))) l.
Proof.
  intros Hx Hm. unfold reserve_owned, outcome, mbind, cmd_bind. destruct (feed_budgets_spec bs l) as (lg & -> & _ & Hr & _).
  unfold on_ledger. cbn [svc_ledger svc_store svc_available].
  assert (Hm' : ∀ st, durable st = stored l → mirrors (mk_service lg st (svc_available l))).
  { intros st Hst r y. unfold stored, holds. cbn. rewrite Hr, Hst. apply Hm. }
  destruct (can_reserve lg x) as [[]|e] eqn:Hcan; cbn; [|split; [by apply Hm'|by left]].
  unfold on_store. cbn [svc_store]. pose proof (reserve_law x (svc_store l) Hx) as Hlaw.
  destruct (store_reserve x (svc_store l)) as [[[]|e] st]; cbn; [|split; [by apply Hm'|by left]].
  destruct Hlaw as [Hd Hfree]. split; [|by right]. apply can_reserve_fresh in Hcan. unfold mirrors, stored, holds, restore. cbn.
  rewrite Hcan. cbn. intros r y. rewrite Hd, Hr. intros [[<- <-]|[Hne Hy]]%lookup_insert_Some; [by rewrite lookup_insert_eq|].
  rewrite lookup_insert_ne by done. by apply Hm.
Qed.

Lemma read_budgets_error budget_of accts e :
  (∀ a e, budget_of a = Err e → e = BudgetSourceFailed) → read_budgets budget_of accts = Err e → e = BudgetSourceFailed.
Proof.
  intros Hb. induction accts as [|a accts IH]; cbn; [done|]. destruct (budget_of a) as [x|e'] eqn:Ha; cbn; [|intros [= <-]; by apply (Hb a)].
  destruct (read_budgets budget_of accts) as [bs|e']; cbn; [done|]. intros [= ->]. by apply IH.
Qed.

(** A reservation that answers is stored; one refused as a duplicate was held already. *)
Lemma reserve_mirrors l budget_of now r i ss ttl :
  service_ok l → mirrors l → (∀ a x, budget_of a = Ok x → is_u256 x) → (∀ a e, budget_of a = Err e → e = BudgetSourceFailed) → 0 ≤ now → 0 ≤ ttl →
  reservation_ok (for_swap r i ss (u64_saturating_add now ttl)) →
  outcome (LedgerService.reserve budget_of now r i ss ttl) (λ res l', service_ok l' ∧ mirrors l'
    ∧ (stored l' = stored l ∨ ∃ x, res_state x = Pending ∧ (stored l !! r = None ∨ stored l !! r = Some x) ∧ stored l' = <[r := x]> (stored l))
    ∧ (res = Ok tt ∨ (∃ j, res = Err (LedgerRefused (Duplicate j))) → is_Some (stored l' !! r))) l.
Proof.
  intros Hok Hm Hb Hbe Hnow Httl Hr. pose proof (reserve_outcome l budget_of now r i ss ttl Hok Hb Hnow Httl Hr) as Has. set (x := for_swap _ _ _ _) in *.
  assert (Hst : storable x) by (split; [done|by apply expiry_unsigned]). unfold LedgerService.reserve in *. fold x in Has |- *.
  unfold outcome, mbind, cmd_bind, lift in *. destruct (read_budgets budget_of _) as [bs|e] eqn:Hread; cbn [fst snd] in *.
  2: { split; [done|]. split; [done|]. split; [by left|]. intros [[=]|[j [= ->]]]. by apply read_budgets_error in Hread. }
  destruct (reserve_owned_mirrors x bs l Hst Hm) as [Hm' Hstored]. pose proof (reserve_owned_refused x bs l) as Hdup.
  destruct (reserve_owned x bs l) as [res l']. cbn [fst snd] in *. destruct Has as [Hok' Has].
  assert (Hset : stored l' = stored l ∨ ∃ y, res_state y = Pending ∧ (stored l !! r = None ∨ stored l !! r = Some y) ∧ stored l' = <[r := y]> (stored l)).
  { destruct Hstored as [?|[? ?]]; [by left|right; by exists x]. }
  split; [done|]. split; [done|]. split; [done|]. intros [->|[j ->]].
  - destruct Has as [_ Hh]. exists x. apply Hm'. by rewrite Hh, lookup_insert_eq.
  - destruct (Hdup j eq_refl) as [y Hy]. apply Hm in Hy. destruct Hset as [->|(z & _ & _ & ->)]; [by exists y|]. rewrite lookup_insert_eq. by exists z.
Qed.

(** A pending hold may have expired. *)
Definition may_expire (d d' : gmap ReservationId Reservation) : Prop :=
  ∀ r, d' !! r = d !! r ∨ ∃ x, d !! r = Some x ∧ res_state x = Pending ∧ d' !! r = Some (with_state x Expired).

Lemma may_expire_refl d : may_expire d d.
Proof. by left. Qed.

Lemma may_expire_step r d d' : may_expire (durable_move [Pending] Expired r d) d' → may_expire d d'.
Proof.
  intros H r'. destruct (decide (r' = r)) as [->|Hne]; [|specialize (H r'); by rewrite durable_move_ne in H].
  specialize (H r). unfold durable_move in H. destruct (d !! r) as [x|] eqn:Hx; [|by rewrite Hx in H].
  case_decide as Hs; [|by rewrite Hx in H]. apply list_elem_of_singleton in Hs. right. exists x. split; [done|]. split; [done|].
  rewrite lookup_insert_eq in H. by destruct H as [->|(y & [= <-] & Hy & _)].
Qed.

Lemma sweep_loop_mirrors ids acc l : mirrors l → outcome (sweep_loop ids acc) (λ _ l', mirrors l' ∧ may_expire (stored l) (stored l')) l.
Proof.
  revert acc l. induction ids as [|r ids IH]; intros acc l Hm; [by split; [|apply may_expire_refl]|].
  cbn [sweep_loop]. apply outcome_gets, outcome_bind. unfold outcome at 1, on_store. pose proof (expire_law r (svc_store l)) as Hlaw.
  destruct (store_expire r (svc_store l)) as [[[]|e] st]; cbn.
  2: { split; [|unfold stored; cbn; rewrite Hlaw; apply may_expire_refl]. intros r' x. unfold stored, holds. cbn. rewrite Hlaw. apply Hm. }
  apply outcome_bind. unfold outcome at 1, on_ledger. cbn. pose proof (expire_move (svc_ledger l) r) as Hmv.
  destruct (LedgerEngine.expire (svc_ledger l) r) as [res lg]. cbn in Hmv |- *.
  assert (Hm' : mirrors (mk_service lg st (svc_available l))).
  { intros r' x. unfold stored, holds. cbn. rewrite Hmv, Hlaw. by apply mirrors_move. }
  destruct res as [[]|e]; cbn.
  - eapply outcome_mono; [by apply IH|]. intros res' l' [Hm2 He]. split; [done|]. unfold stored in He at 1. cbn in He. rewrite Hlaw in He.
    by eapply may_expire_step.
  - split; [done|]. unfold stored at 2. cbn. rewrite Hlaw. apply (may_expire_step r), may_expire_refl.
Qed.

Lemma sweep_mirrors now exclude l :
  mirrors l → outcome (sweep_expired now exclude) (λ _ l', mirrors l' ∧ may_expire (stored l) (stored l')) l.
Proof.
  intros Hm. unfold sweep_expired. apply outcome_gets, outcome_bind. eapply outcome_mono; [by apply sweep_loop_mirrors|].
  intros [swept|e] l' [Hm' He]; [|done]. unfold outcome, mbind, cmd_bind. by destruct (negb _).
Qed.

Lemma sync_mirrors read l : mirrors l → outcome (sync_budgets read) (λ _ l', mirrors l' ∧ stored l' = stored l) l.
Proof. intros Hm. unfold sync_budgets. apply outcome_lift_bind. destruct read as [bs|e]; done. Qed.

(** A restart that comes up again keeps what is stored. *)
Lemma restart_mirrors budget_of l l' :
  service_ok l → mirrors l → (∀ a x, budget_of a = Ok x → is_u256 x) → LedgerService.recover budget_of (service_new (svc_store l)) = (Ok tt, l') →
  service_ok l' ∧ mirrors l' ∧ stored l' = stored l.
Proof.
  intros Hok Hm Hb Hrec. pose proof (ledger_restart l budget_of Hok Hb) as Hr. unfold outcome in Hr. rewrite Hrec in Hr. cbn in Hr. destruct Hr as [Hok' Hh].
  assert (Hst : stored l' = stored l).
  { unfold LedgerService.recover, mbind, cmd_bind, on_store, service_new in Hrec. cbn in Hrec. pose proof (open_law (svc_store l)) as Hlaw.
    destruct (open_reservations (svc_store l)) as [[rs|e] st]; cbn in Hrec; [|done].
    pose proof (recover_loop_store budget_of rs (mk_service ledger_default st ∅)) as Hst.
    destruct (recover_loop budget_of rs _) as [[[]|e] l1]; cbn in Hrec, Hst; [|done]. injection Hrec as <-. unfold stored. cbn. rewrite Hst.
    by destruct Hlaw. }
  split; [done|]. split; [|done]. intros r x. rewrite Hst, Hh. intros [Hx _]%map_lookup_filter_Some. by apply Hm.
Qed.

(** ** Commands of other clients *)

(** The reservations a command of the writer names. *)
Definition names (c : service_command) (r : ReservationId) : Prop :=
  match c with
  | SReserve x _ => res_id x = r
  | SCommit i | SPost i _ | SVoid i | SExpire i | SVoidReorg i => i = r
  | SSweep _ _ | SSync _ => False
  end.

Lemma moves_hold_others from to r l res l' (P : ReservationId → Prop) :
  moves_hold from to r l res l' → ¬ P r → ∀ r', P r' → stored l' !! r' = stored l !! r'.
Proof.
  intros Hm Hr r' Hr'. assert (r' ≠ r) by (by intros ->). destruct (mh_stored _ _ _ _ _ _ Hm) as [->| ->]; [done|]. by apply durable_move_ne.
Qed.

(** Whatever other clients do, a hold they do not name changes by expiring at most. *)
Lemma service_exec_mirrors c l (P : ReservationId → Prop) :
  mirrors l → service_command_ok l c → (∀ r, names c r → ¬ P r) →
  mirrors (service_exec c l).2 ∧ ∀ r, P r → stored (service_exec c l).2 !! r = stored l !! r
    ∨ ∃ x, stored l !! r = Some x ∧ res_state x = Pending ∧ stored (service_exec c l).2 !! r = Some (with_state x Expired).
Proof.
  intros Hm Hc Hn. destruct c as [x bs|i|i fills|i|i|i|now exclude|read]; cbn [service_exec].
  - destruct Hc as [Hx _]. destruct (reserve_owned_mirrors x bs l Hx Hm) as [Hm' Hst]. split; [done|]. intros r Hr. left.
    destruct Hst as [->|[_ ->]]; [done|]. rewrite lookup_insert_ne; [done|]. intros <-. by apply (Hn (res_id x)).
  - pose proof (commit_moves_hold i l Hm) as H. split; [apply H|]. intros r Hr. left. eapply moves_hold_others; [exact H|by apply Hn|done].
  - pose proof (post_moves_hold i fills l Hm (proj2 Hc)) as H. split; [apply H|]. intros r Hr. left. eapply moves_hold_others; [exact H|by apply Hn|done].
  - pose proof (void_moves_hold i l Hm) as H. split; [apply H|]. intros r Hr. left. eapply moves_hold_others; [exact H|by apply Hn|done].
  - pose proof (expire_moves_hold i l Hm) as H. split; [apply H|]. intros r Hr. left. eapply moves_hold_others; [exact H|by apply Hn|done].
  - pose proof (void_reorg_moves_hold i l Hm) as H. split; [apply H|]. intros r Hr. left. eapply moves_hold_others; [exact H|by apply Hn|done].
  - pose proof (sweep_mirrors now exclude l Hm) as [Hm' He]. unfold mbind, cmd_bind.
    destruct (sweep_expired now exclude l) as [[swept|e] l']; (split; [done|]); intros r _; apply He.
  - destruct (sync_mirrors read l Hm) as [Hm' ->]. split; [done|]. by left.
Qed.

(** ** Holds spent in full *)

(** The amounts the store recorded for its posted holds. *)
Definition recorded l : gmap ReservationId (list U256) := durable_fills (svc_store l).

(** Every posted hold among [P] was posted for all that it held. *)
Definition paid_in_full (P : ReservationId → Prop) l : Prop :=
  ∀ r x, P r → stored l !! r = Some x → res_state x = Posted → recorded l !! r = Some (src_amount <$> res_sources x).

Lemma paid_kept P l l' :
  recorded l' = recorded l → (∀ r x, P r → stored l' !! r = Some x → res_state x = Posted → stored l !! r = Some x) →
  paid_in_full P l → paid_in_full P l'.
Proof. intros Hr Hst Hp r x HP Hx Hs. rewrite Hr. apply Hp; eauto. Qed.

Lemma moves_paid P from to r l res l' :
  moves_hold from to r l res l' → to ≠ Posted → recorded l' = recorded l → paid_in_full P l → paid_in_full P l'.
Proof.
  intros Hm Hto Hrec. apply paid_kept; [done|]. intros r' x _ Hx Hs. destruct (mh_stored _ _ _ _ _ _ Hm) as [E|E]; rewrite E in Hx; [done|].
  unfold durable_move in Hx. destruct (stored l !! r) as [y|] eqn:Hy; [|done]. case_decide; [|done].
  apply lookup_insert_Some in Hx as [[_ <-]|[_ Hx]]; [by destruct Hto|done].
Qed.

Lemma store_then_recorded (op : cmd LSt LedgerStoreError unit) f l :
  fills_law durable_fills op → recorded ((_ ← on_store op; _ ← on_ledger f; publish) l).2 = recorded l.
Proof.
  intros Hlaw. rewrite store_then_ledger. specialize (Hlaw (svc_store l)). destruct (op (svc_store l)) as [[[]|e] st]; cbn in *; [|done].
  by destruct (f (svc_ledger l)) as [[[]|e] lg].
Qed.

Lemma sweep_loop_recorded ids acc l : recorded (sweep_loop ids acc l).2 = recorded l.
Proof.
  revert acc l. induction ids as [|r ids IH]; intros acc l; [done|]. cbn [sweep_loop]. unfold mbind, cmd_bind, gets, on_store.
  pose proof (expire_fills_law r (svc_store l)) as Hlaw. destruct (store_expire r (svc_store l)) as [[[]|e] st]; cbn in *; [|done].
  unfold on_ledger. cbn. destruct (LedgerEngine.expire (svc_ledger l) r) as [[[]|e] lg]; cbn; [|done]. by rewrite IH.
Qed.

Lemma sweep_recorded now exclude l : recorded (sweep_expired now exclude l).2 = recorded l.
Proof.
  unfold sweep_expired, mbind, cmd_bind, gets. pose proof (sweep_loop_recorded (filter (λ id, id ∉ exclude) (expired_swaps_as_of (svc_ledger l) now)) [] l) as Hl.
  destruct (sweep_loop _ _ l) as [[swept|e] l']; [|done]. by destruct (negb _).
Qed.

Lemma reserve_owned_recorded x bs l : recorded (reserve_owned x bs l).2 = recorded l.
Proof.
  unfold reserve_owned, mbind, cmd_bind. destruct (feed_budgets_spec bs l) as (lg & -> & _). unfold on_ledger. cbn.
  destruct (can_reserve lg x) as [[]|e]; cbn; [|done]. unfold on_store. cbn. pose proof (reserve_fills_law x (svc_store l)) as Hlaw.
  by destruct (store_reserve x (svc_store l)) as [[[]|e] st].
Qed.

Lemma reserve_owned_paid P x bs l : storable x → mirrors l → paid_in_full P l → paid_in_full P (reserve_owned x bs l).2.
Proof.
  intros Hx Hm. apply paid_kept; [apply reserve_owned_recorded|]. intros r y _ Hy Hs.
  destruct (reserve_owned_mirrors x bs l Hx Hm) as [_ [E|[_ E]]]; rewrite E in Hy; [done|].
  apply lookup_insert_Some in Hy as [[_ <-]|[_ Hy]]; [|done]. destruct Hx as [Hx _]. congruence.
Qed.

(** A posting of a hold among [P] for all that it holds. *)
Lemma post_paid P r fills l :
  (∀ x, P r → stored l !! r = Some x → fills = src_amount <$> res_sources x) → paid_in_full P l → paid_in_full P (LedgerService.post r fills l).2.
Proof.
  intros Hfull Hp. unfold LedgerService.post. rewrite store_then_ledger. pose proof (post_law r fills (svc_store l)) as Hd.
  pose proof (post_fills_law r fills (svc_store l)) as Hf. destruct (store_post r fills (svc_store l)) as [[[]|e] st]; cbn.
  2: { eapply paid_kept; [|intros r' x' _ Hx' _|exact Hp]; unfold recorded, stored in *; cbn in *; congruence. }
  assert (Hst : ∀ lg av, paid_in_full P (mk_service lg st av)).
  { intros lg av r' x HP Hx Hs. unfold stored, recorded in *. cbn in *. rewrite Hf. rewrite Hd in Hx. unfold durable_move, durable_book in *.
    destruct (durable (svc_store l) !! r) as [y|] eqn:Hy; [|by apply Hp]. case_decide; [|by apply Hp].
    apply lookup_insert_Some in Hx as [[<- <-]|[Hne Hx]]; [|rewrite lookup_insert_ne by done; by apply Hp].
    rewrite lookup_insert_eq. f_equal. exact (Hfull y HP eq_refl). }
  destruct (LedgerEngine.post (svc_ledger l) r fills) as [[[]|e] lg]; apply Hst.
Qed.

(** No command takes a hold among [P] to posted but a posting of all that it holds. *)
Lemma service_exec_paid P c l :
  mirrors l → service_command_ok l c →
  (∀ r fills x, c = SPost r fills → P r → stored l !! r = Some x → fills = src_amount <$> res_sources x) →
  paid_in_full P l → paid_in_full P (service_exec c l).2.
Proof.
  intros Hm Hc Hfull Hp. destruct c as [x bs|i|i fills|i|i|i|now exclude|read]; cbn [service_exec].
  - apply reserve_owned_paid; [apply Hc|done|done].
  - eapply moves_paid; [apply (commit_moves_hold i l Hm)|done|apply store_then_recorded, commit_fills_law|done].
  - apply post_paid; [|done]. intros x HP Hx. by eapply Hfull.
  - eapply moves_paid; [apply (void_moves_hold i l Hm)|done|apply store_then_recorded, void_fills_law|done].
  - eapply moves_paid; [apply (expire_moves_hold i l Hm)|done|apply store_then_recorded, expire_fills_law|done].
  - eapply moves_paid; [apply (void_reorg_moves_hold i l Hm)|done|apply store_then_recorded, void_reorg_fills_law|done].
  - pose proof (sweep_mirrors now exclude l Hm) as [_ He]. pose proof (sweep_recorded now exclude l) as Hr. unfold mbind, cmd_bind.
    destruct (sweep_expired now exclude l) as [res l']. cbn in He, Hr.
    assert (paid_in_full P l') by (eapply paid_kept; [exact Hr| |exact Hp]; intros r x _ Hx Hs; destruct (He r) as [E|(y & _ & _ & E)]; rewrite E in Hx; [done|]; by simplify_eq).
    by destruct res.
  - unfold sync_budgets, mbind, cmd_bind, lift. by destruct read.
Qed.

Lemma reserve_paid P l budget_of now r i ss ttl :
  0 ≤ now → 0 ≤ ttl → mirrors l → paid_in_full P l → paid_in_full P (LedgerService.reserve budget_of now r i ss ttl l).2.
Proof.
  intros Hnow Httl Hm Hp. unfold LedgerService.reserve, mbind, cmd_bind, lift. destruct (read_budgets _ _) as [bs|e]; [|done].
  apply reserve_owned_paid; [|done..]. split; [done|by apply expiry_unsigned].
Qed.

(** A restart reads the store only. *)
Lemma restart_paid P budget_of l l' :
  LedgerService.recover budget_of (service_new (svc_store l)) = (Ok tt, l') → stored l' = stored l → paid_in_full P l → paid_in_full P l'.
Proof.
  intros Hrec Hst. apply paid_kept; [|intros r x _; by rewrite Hst].
  unfold LedgerService.recover, mbind, cmd_bind, on_store, service_new in Hrec. cbn in Hrec. pose proof (open_fills_law (svc_store l)) as Hlaw.
  destruct (open_reservations (svc_store l)) as [[rs|e] st]; cbn in Hrec, Hlaw; [|done].
  pose proof (recover_loop_store budget_of rs (mk_service ledger_default st ∅)) as Hloop.
  destruct (recover_loop budget_of rs _) as [[[]|e] l1]; cbn in Hrec, Hloop; [|done]. injection Hrec as <-. unfold recorded. cbn. by rewrite Hloop.
Qed.

End mirror.
