(* ===== verification/Ratio.v ===== *)
(** * Exact rational prices

    [crates/core/src/primitives/pricing.rs]: [Ratio], a reduced non-negative
    rational of arbitrary precision, and the outcome of a price-bounded quote.  A
    ratio is a rational in lowest terms; every operation that may leave lowest
    terms reduces. *)

From Stdlib Require Export QArith Qround Qabs.
From Stdlib Require Import Lqa.
From Stdlib Require Import Lqa Ascii String.
From stdpp Require Import strings.
From S2P Require Import Prelude U256.

#[global] Open Scope Z_scope.

Definition Ratio : Type := Q.

(** [from_bigint]: a value of more than 32 bytes, or a negative one, is no word. *)
Definition from_bigint (x : Z) : option U256 :=
  if (x <? 0) || (U256_MAX <? x) then None else Some x.

Definition Ratio_new (num den : U256) : option Ratio :=
  if den =? 0 then None else Some (Qred (num # Z.to_pos den)).

Definition ratio_from (n : U256) : Ratio := n # 1.
Definition ratio_zero : Ratio := 0 # 1.
Definition ratio_is_zero (r : Ratio) : bool := Qnum r =? 0.

Definition invert (r : Ratio) : option Ratio :=
  if ratio_is_zero r then None else Some (Qinv r).

Definition floor_sqrt (r : Ratio) : option U256 :=
  from_bigint (Z.sqrt (Qnum r * Zpos (Qden r)) / Zpos (Qden r)).

Definition floor (r : Ratio) : option U256 := from_bigint (Qfloor r).
Definition ceil (r : Ratio) : option U256 := from_bigint (Qceiling r).

Definition ratio_mul (a b : Ratio) : Ratio := Qred (a * b).
Definition ratio_add (a b : Ratio) : Ratio := Qred (a + b).
Definition doubled (r : Ratio) : Ratio := Qred (r * (2 # 1)).
Definition midpoint (a b : Ratio) : Ratio := Qred ((a + b) / (2 # 1)).

Definition ratio_le (a b : Ratio) : bool := Qle_bool a b.
Definition ratio_lt (a b : Ratio) : bool := negb (Qle_bool b a).

Definition rel_diff_bps (r other : Ratio) : Z :=
  if ratio_is_zero other then U64_MAX
  else let bps := Qred (Qabs (r - other) / other * (10000 # 1)) in
       let t := Z.quot (Qnum bps) (Zpos (Qden bps)) in
       if t <=? U64_MAX then t else U64_MAX.

Record LimitedQuote := mk_limited {
  lq_amount_in : U256;
  lq_amount_out : U256;
  lq_limited : bool
}.

(** ** Lemmas *)

Lemma ratio_le_true a b : ratio_le a b = true ↔ (a <= b)%Q.
Proof. apply Qle_bool_iff. Qed.

Lemma ratio_le_false a b : ratio_le a b = false ↔ (b < a)%Q.
Proof.
  unfold ratio_le. split.
  - intros H. apply Qnot_le_lt. intros Hle%Qle_bool_iff. congruence.
  - intros H. apply not_true_is_false. intros Hle%Qle_bool_iff. by apply Qlt_not_le in H.
Qed.

Lemma ratio_lt_true a b : ratio_lt a b = true ↔ (a < b)%Q.
Proof. unfold ratio_lt. rewrite negb_true_iff. apply ratio_le_false. Qed.

Lemma ratio_lt_false a b : ratio_lt a b = false ↔ (b <= a)%Q.
Proof. unfold ratio_lt. rewrite negb_false_iff. apply ratio_le_true. Qed.

Lemma ratio_is_zero_true r : ratio_is_zero r = true ↔ (r == 0)%Q.
Proof. unfold ratio_is_zero, Qeq. cbn. rewrite Z.eqb_eq. lia. Qed.

Lemma from_bigint_Some x y : from_bigint x = Some y ↔ y = x ∧ is_u256 x.
Proof.
  unfold from_bigint, is_u256. destruct (x <? 0) eqn:E1; cbn; [zbool; naive_solver lia|].
  destruct (U256_MAX <? x) eqn:E2; zbool; naive_solver lia.
Qed.

Lemma from_bigint_None x : 0 ≤ x → from_bigint x = None ↔ U256_MAX < x.
Proof.
  unfold from_bigint. intros Hx. destruct (x <? 0) eqn:E1; zbool; [lia|]. cbn.
  destruct (U256_MAX <? x) eqn:E2; zbool; split; (done || lia).
Qed.

Lemma Ratio_new_Some num den r :
  Ratio_new num den = Some r → 0 < den → (r == inject_Z num / inject_Z den)%Q.
Proof.
  unfold Ratio_new. case_match; zbool; [done|]. intros [= <-] Hden.
  rewrite Qred_correct, Qmake_Qdiv. by rewrite Z2Pos.id.
Qed.

(** Comparing a fraction of integers with a ratio, by cross-multiplication. *)
Lemma ratio_le_frac (r : Ratio) (n d : Z) :
  0 < d → (r <= inject_Z n / inject_Z d)%Q ↔ Qnum r * d ≤ n * Zpos (Qden r).
Proof.
  intros Hd. destruct d as [|d|]; try lia. rewrite <-Qmake_Qdiv. unfold Qle. cbn. done.
Qed.

Lemma Qle_div_iff a b c : (0 < c)%Q → (a <= b / c)%Q ↔ (a * c <= b)%Q.
Proof.
  intros Hc. split; intros H; [|by apply Qle_shift_div_l].
  assert (Heq : (b / c * c == b)%Q) by (field; lra). rewrite <-Heq. apply Qmult_le_compat_r; lra.
Qed.

(** The integer root of a rational: the largest [s] with [s² ≤ r]. *)
Lemma floor_sqrt_raw (n : Z) (d : positive) s :
  0 ≤ n → 0 ≤ s → s ≤ Z.sqrt (n * Zpos d) / Zpos d ↔ s * s * Zpos d ≤ n.
Proof.
  intros Hn Hs.
  assert (Hdiv : s ≤ Z.sqrt (n * Zpos d) / Zpos d ↔ s * Zpos d ≤ Z.sqrt (n * Zpos d)).
  { split; intros H.
    - pose proof (Z.mul_div_le (Z.sqrt (n * Zpos d)) (Zpos d)). nia.
    - apply Z.div_le_lower_bound; lia. }
  rewrite Hdiv, <-(Z.sqrt_le_square (n * Zpos d) (s * Zpos d)) by nia. nia.
Qed.

(** [s] lies below the root exactly when [s²] lies below the ratio. *)
Lemma floor_sqrt_le (r : Ratio) b s :
  (0 <= r)%Q → floor_sqrt r = Some b → 0 ≤ s →
  s ≤ b ↔ (inject_Z (s * s) <= r)%Q.
Proof.
  intros Hr Hb Hs. apply from_bigint_Some in Hb as [-> _].
  rewrite floor_sqrt_raw by (done || (unfold Qle in Hr; cbn in Hr; lia)).
  unfold Qle, inject_Z. cbn. rewrite Z.mul_1_r. done.
Qed.

Lemma floor_sqrt_None (r : Ratio) s :
  (0 <= r)%Q → floor_sqrt r = None → 0 ≤ s ≤ U256_MAX → (inject_Z (s * s) <= r)%Q.
Proof.
  intros Hr Hb Hs. unfold floor_sqrt in Hb. rewrite from_bigint_None in Hb.
  - unfold Qle, inject_Z. cbn. rewrite Z.mul_1_r. apply floor_sqrt_raw; [unfold Qle in Hr; cbn in Hr; lia|lia|lia].
  - apply Z.div_pos; [apply Z.sqrt_nonneg|done].
Qed.

(** An amount scaled by a fraction, rounded to a word. *)
Lemma scaled_frac (a n d : Z) (r : Ratio) :
  0 < d → (r == inject_Z n / inject_Z d)%Q → (ratio_mul (ratio_from a) r == (a * n) # Z.to_pos d)%Q.
Proof.
  intros Hd Hr. unfold ratio_mul, ratio_from. rewrite Qred_correct, Hr, (Qmake_Qdiv (a * n)), Z2Pos.id by done.
  change (a # 1) with (inject_Z a). rewrite inject_Z_mult. field. intros E. unfold Qeq in E. cbn in E. lia.
Qed.

Lemma floor_scaled a n d r x :
  0 < d → (r == inject_Z n / inject_Z d)%Q →
  floor (ratio_mul (ratio_from a) r) = Some x ↔ x = a * n / d ∧ is_u256 (a * n / d).
Proof.
  intros Hd Hr. unfold floor. rewrite from_bigint_Some. rewrite (Qfloor_comp _ _ (scaled_frac a n d r Hd Hr)).
  cbn [Qfloor]. by rewrite Z2Pos.id.
Qed.

Lemma ceil_scaled a n d r x :
  0 < d → (r == inject_Z n / inject_Z d)%Q →
  ceil (ratio_mul (ratio_from a) r) = Some x ↔ x = - (- (a * n) / d) ∧ is_u256 (- (- (a * n) / d)).
Proof.
  intros Hd Hr. unfold ceil. rewrite from_bigint_Some. rewrite (Qceiling_comp _ _ (scaled_frac a n d r Hd Hr)).
  unfold Qceiling. cbn [Qfloor Qopp Qnum Qden]. by rewrite Z2Pos.id.
Qed.

(** * Decimal rendering of prices and amounts

    [format_price] of [crates/core/src/primitives/pricing.rs] and the decimal text of an
    integer.  A rendered price is never above the price, loses less than a millionth, and keeps
    six significant digits of a price below a millionth. *)

#[local] Open Scope Z_scope.

(** ** Digits *)

Fixpoint digits_loop (fuel : nat) (n : Z) (acc : list Z) : list Z :=
  match fuel with
  | O => acc
  | S fuel => if n <? 10 then n :: acc else digits_loop fuel (n / 10) (n mod 10 :: acc)
  end.

(** [to_str_radix(10)] and [Display] of a non-negative integer, most significant digit first. *)
Definition digits (n : Z) : list Z := digits_loop (S (Z.to_nat (Z.log2 n))) n [].

Definition digit_char (d : Z) : ascii := ascii_of_N (Z.to_N (48 + d)).
Definition text (ds : list Z) : string := string_of_list_ascii (digit_char <$> ds).

Definition to_string (n : Z) : string := text (digits n).

(** [{n:0width$}] *)
Definition pad_zero (width : nat) (ds : list Z) : list Z := replicate (width - length ds) 0 ++ ds.

(** [trim_end_matches('0')] *)
Fixpoint trim_end (ds : list Z) : list Z :=
  match ds with
  | [] => []
  | d :: ds => match trim_end ds with
               | [] => if d =? 0 then [] else [d]
               | ds => d :: ds
               end
  end.

(** [BigRational::to_integer] truncates; ratios are not negative. *)
Definition to_integer (r : Q) : Z := Z.quot (Qnum r) (Zpos (Qden r)).
Definition pow10 (n : Z) : Q := inject_Z (10 ^ n).

(** The price of one whole input token in whole output tokens. *)
Definition scaled_price (r : Ratio) (input_decimals output_decimals : Z) : Q :=
  Qred (Qred (r * pow10 input_decimals) / pow10 output_decimals).

Definition price_places (price : Q) : nat :=
  if to_integer (Qred (price * pow10 6)) =? 0
  then (length (digits (Zpos (Qden price))) - length (digits (Qnum price)) + 6)%nat
  else 6%nat.

Definition format_price (r : Ratio) (input_decimals output_decimals : Z) : string :=
  let price := scaled_price r input_decimals output_decimals in
  if Qnum price =? 0 then "0"%string
  else
    let places := price_places price in
    let scaled := to_integer (Qred (price * pow10 (Z.of_nat places))) in
    let ds := pad_zero (places + 1) (digits scaled) in
    let boundary := (length ds - places)%nat in
    match trim_end (drop boundary ds) with
    | [] => text (take boundary ds)
    | fraction => (text (take boundary ds) +:+ "." +:+ text fraction)%string
    end.

(** ** Reading a decimal back *)

Definition char_digit (a : ascii) : option Z :=
  let n := Z.of_N (N_of_ascii a) in if (48 <=? n) && (n <=? 57) then Some (n - 48) else None.

Definition dval (ds : list Z) : Z := foldl (λ v d, 10 * v + d) 0 ds.

Fixpoint split_point (l : list ascii) : list ascii * list ascii :=
  match l with
  | [] => ([], [])
  | a :: l => if bool_decide (a = "."%char) then ([], l) else let '(i, f) := split_point l in (a :: i, f)
  end.

(** The number a decimal text denotes. *)
Definition read_decimal (s : string) : option Q :=
  let '(int, frac) := split_point (list_ascii_of_string s) in
  i ← mapM char_digit int;
  f ← mapM char_digit frac;
  Some (inject_Z (dval (i ++ f)) / pow10 (Z.of_nat (length f)))%Q.

Definition is_digit (d : Z) : Prop := 0 ≤ d ≤ 9.

(** ** Lemmas *)

Lemma dval_app l k : dval (l ++ k) = dval l * 10 ^ Z.of_nat (length k) + dval k.
Proof.
  unfold dval. rewrite foldl_app. generalize (foldl (λ v d, 10 * v + d) 0 l) as v. induction k as [|d k IH] using rev_ind; intros v.
  { cbn. lia. }
  rewrite !foldl_app, length_app. cbn [foldl length]. rewrite IH, Nat.add_1_r, Nat2Z.inj_succ, Z.pow_succ_r by lia. lia.
Qed.

Lemma dval_cons d l : dval (d :: l) = d * 10 ^ Z.of_nat (length l) + dval l.
Proof. change (d :: l) with ([d] ++ l). rewrite dval_app. cbn. lia. Qed.

Lemma digits_loop_spec fuel n acc :
  0 ≤ n < 2 ^ Z.of_nat fuel → (0 < fuel)%nat →
  ∃ ds, digits_loop fuel n acc = ds ++ acc ∧ dval ds = n ∧ Forall is_digit ds ∧ ds ≠ []
    ∧ (0 < n → 10 ^ (Z.of_nat (length ds) - 1) ≤ n) ∧ n < 10 ^ Z.of_nat (length ds).
Proof.
  revert n acc. induction fuel as [|fuel IH]; intros n acc Hn Hf; [lia|]. cbn [digits_loop].
  destruct (n <? 10) eqn:E; zbool.
  { exists [n]. split_and!; try done; try (cbn; lia). repeat constructor; lia. }
  assert (Hd : n = 10 * (n / 10) + n mod 10) by (apply Z.div_mod; lia). pose proof (Z.mod_pos_bound n 10 ltac:(lia)) as Hm.
  assert (H1 : 1 ≤ n / 10) by (apply Z.div_le_lower_bound; lia).
  rewrite Nat2Z.inj_succ, Z.pow_succ_r in Hn by lia.
  destruct (IH (n / 10) (n mod 10 :: acc)) as (ds & -> & Hv & Hds & Hne & Hlo & Hhi); [lia| |].
  { destruct fuel; [|lia]. cbn in Hn. lia. }
  exists (ds ++ [n mod 10]). rewrite <-app_assoc. split; [done|]. rewrite dval_app, length_app, Hv. cbn [length].
  rewrite Nat.add_1_r, Nat2Z.inj_succ, Z.pow_succ_r by lia. specialize (Hlo ltac:(lia)). change (dval [n mod 10]) with (n mod 10).
  split_and!; try done; try lia.
  - apply Forall_app. split; [done|]. repeat constructor; lia.
  - by destruct ds.
  - intros _. assert (0 < length ds)%nat by (destruct ds; [done|cbn; lia]).
    replace (Z.of_nat (S (length ds)) - 1) with (Z.succ (Z.of_nat (length ds) - 1)) by lia. rewrite Z.pow_succ_r by lia. lia.
  - rewrite Nat2Z.inj_succ, Z.pow_succ_r by lia. lia.
Qed.

Lemma digits_spec n :
  0 ≤ n → dval (digits n) = n ∧ Forall is_digit (digits n) ∧ digits n ≠ []
    ∧ (0 < n → 10 ^ (Z.of_nat (length (digits n)) - 1) ≤ n) ∧ n < 10 ^ Z.of_nat (length (digits n)).
Proof.
  intros Hn. unfold digits. destruct (digits_loop_spec (S (Z.to_nat (Z.log2 n))) n []) as (ds & -> & Hds); [|lia|].
  - rewrite Nat2Z.inj_succ, Z2Nat.id by apply Z.log2_nonneg. split; [done|].
    destruct (decide (n = 0)) as [->|]; [done|]. apply Z.log2_spec. lia.
  - rewrite app_nil_r. naive_solver.
Qed.

Lemma pad_zero_spec width ds :
  Forall is_digit ds → dval (pad_zero width ds) = dval ds ∧ Forall is_digit (pad_zero width ds)
    ∧ length (pad_zero width ds) = Nat.max width (length ds).
Proof.
  intros Hds. unfold pad_zero. rewrite dval_app, length_app, length_replicate. split_and!.
  - assert (dval (replicate (width - length ds) 0) = 0) as ->; [|lia].
    induction (width - length ds)%nat as [|k IH]; [done|]. cbn [replicate]. by rewrite dval_cons, IH.
  - apply Forall_app. split; [|done]. apply Forall_replicate. split; lia.
  - lia.
Qed.

Lemma trim_end_spec ds :
  Forall is_digit ds → ∃ k, ds = trim_end ds ++ replicate k 0.
Proof.
  induction 1 as [|d ds Hd _ [k IH]]; [by exists 0%nat|]. cbn. destruct (trim_end ds) as [|e t] eqn:Ht.
  - destruct (d =? 0) eqn:E; zbool; [exists (S k)|exists k]; rewrite IH at 1; cbn; congruence.
  - exists k. rewrite IH at 1. done.
Qed.

Lemma dval_zeros k : dval (replicate k 0) = 0.
Proof. induction k as [|k IH]; [done|]. cbn [replicate]. by rewrite dval_cons, IH. Qed.

Lemma char_digit_char d : is_digit d → char_digit (digit_char d) = Some d ∧ digit_char d ≠ "."%char.
Proof.
  intros [H0 H9]. assert (Hd : d = 0 ∨ d = 1 ∨ d = 2 ∨ d = 3 ∨ d = 4 ∨ d = 5 ∨ d = 6 ∨ d = 7 ∨ d = 8 ∨ d = 9) by lia.
  repeat (destruct Hd as [->|Hd]; [by split|]). subst. by split.
Qed.

Lemma read_digits ds : Forall is_digit ds → mapM char_digit (digit_char <$> ds) = Some ds.
Proof.
  induction 1 as [|d ds Hd _ IH]; [done|]. cbn. destruct (char_digit_char d Hd) as [-> _]. cbn. by rewrite IH.
Qed.

Lemma split_digits ds l : Forall is_digit ds → split_point ((digit_char <$> ds) ++ "."%char :: l) = (digit_char <$> ds, l).
Proof.
  induction 1 as [|d ds Hd _ IH]; [done|]. cbn. destruct (char_digit_char d Hd) as [_ Hne].
  rewrite bool_decide_false by done. by rewrite IH.
Qed.

Lemma split_no_point ds : Forall is_digit ds → split_point (digit_char <$> ds) = (digit_char <$> ds, []).
Proof.
  induction 1 as [|d ds Hd _ IH]; [done|]. cbn. destruct (char_digit_char d Hd) as [_ Hne].
  rewrite bool_decide_false by done. by rewrite IH.
Qed.

Lemma to_integer_bounds (r : Q) : (0 <= r)%Q → (inject_Z (to_integer r) <= r)%Q ∧ (r < inject_Z (to_integer r + 1))%Q ∧ 0 ≤ to_integer r.
Proof.
  destruct r as [n d]. unfold to_integer, Qle, Qlt, inject_Z. cbn. intros Hr.
  rewrite Z.quot_div_nonneg by lia. pose proof (Z.mul_div_le n (Zpos d) ltac:(lia)).
  pose proof (Z.mul_succ_div_gt n (Zpos d) ltac:(lia)). pose proof (Z.div_pos n (Zpos d) ltac:(lia) ltac:(lia)). split_and!; lia.
Qed.

Lemma truncated (r : Q) :
  (0 <= r)%Q → let t := to_integer (Qred r) in (inject_Z t <= r)%Q ∧ (r < inject_Z (t + 1))%Q ∧ 0 ≤ t.
Proof.
  intros Hr t. pose proof (Qred_correct r) as He. destruct (to_integer_bounds (Qred r)) as (Hlo & Hhi & H0); [by rewrite He|].
  fold t in Hlo, Hhi, H0. rewrite He in Hlo, Hhi. done.
Qed.

Lemma pow10_pos n : 0 ≤ n → (0 < pow10 n)%Q.
Proof. intros Hn. unfold pow10. rewrite <-(Zlt_Qlt 0). by apply Z.pow_pos_nonneg. Qed.

Lemma pow10_add a b : 0 ≤ a → 0 ≤ b → (pow10 (a + b) == pow10 a * pow10 b)%Q.
Proof. intros Ha Hb. unfold pow10. by rewrite Z.pow_add_r, inject_Z_mult. Qed.

(** A decimal text of an integer and a fraction part denotes their digits over a power of ten. *)
Lemma read_integer int : Forall is_digit int → read_decimal (text int) = Some (inject_Z (dval (int ++ [])) / pow10 0)%Q.
Proof.
  intros Hi. unfold read_decimal, text. rewrite list_ascii_of_string_of_list_ascii, split_no_point by done.
  rewrite read_digits by done. done.
Qed.

Lemma read_fraction int frac :
  Forall is_digit int → Forall is_digit frac →
  read_decimal (text int +:+ "." +:+ text frac) = Some (inject_Z (dval (int ++ frac)) / pow10 (Z.of_nat (length frac)))%Q.
Proof.
  intros Hi Hf. unfold read_decimal, text.
  assert (Happ : ∀ a b, list_ascii_of_string (a +:+ b) = list_ascii_of_string a ++ list_ascii_of_string b).
  { intros a b. induction a as [|c a IH]; [done|]. change (String c a +:+ b) with (String c (a +:+ b)). cbn. by rewrite IH. }
  rewrite !Happ, !list_ascii_of_string_of_list_ascii. cbn [app list_ascii_of_string]. rewrite split_digits by done.
  rewrite read_digits by done. cbn [mbind option_bind]. by rewrite read_digits.
Qed.

(** Reading back what [format_price] renders of [n] units of the last place. *)
Lemma read_rendered n places :
  0 ≤ n →
  let ds := pad_zero (places + 1) (digits n) in
  let boundary := (length ds - places)%nat in
  ∃ v, read_decimal match trim_end (drop boundary ds) with
                    | [] => text (take boundary ds)
                    | fraction => text (take boundary ds) +:+ "." +:+ text fraction
                    end = Some v ∧ (v == inject_Z n / pow10 (Z.of_nat places))%Q.
Proof.
  intros Hn ds boundary. destruct (digits_spec n Hn) as (Hv & Hd & _).
  destruct (pad_zero_spec (places + 1) (digits n) Hd) as (Hv' & Hd' & Hl). fold ds in Hv', Hd', Hl. rewrite Hv in Hv'.
  assert (Hlen : length (drop boundary ds) = places) by (rewrite length_drop; unfold boundary; lia).
  assert (Hsplit : dval ds = dval (take boundary ds) * 10 ^ Z.of_nat places + dval (drop boundary ds)).
  { rewrite <-Hlen, <-dval_app, take_drop. done. }
  pose proof (Forall_take _ boundary _ Hd') as Hdi. pose proof (Forall_drop _ boundary _ Hd') as Hdf.
  destruct (trim_end_spec _ Hdf) as [k Hk]. set (frac := drop boundary ds) in *. set (int := take boundary ds) in *.
  destruct (trim_end frac) as [|e t] eqn:Ht.
  - eexists. split; [by apply read_integer|]. rewrite app_nil_r. cbn [app] in Hk. rewrite Hk, dval_zeros in Hsplit.
    change (pow10 0) with 1%Q. rewrite <-Hv', Hsplit, Z.add_0_r, inject_Z_mult. fold (pow10 (Z.of_nat places)).
    pose proof (pow10_pos (Z.of_nat places) ltac:(lia)). field. lra.
  - assert (Hte : Forall is_digit (e :: t)) by (rewrite Hk in Hdf; by apply Forall_app in Hdf as [? _]).
    eexists. split; [by apply read_fraction|]. rewrite <-Hlen, Hk, length_app, length_replicate, Nat2Z.inj_add, pow10_add by lia.
    assert (Hn' : n = dval (int ++ e :: t) * 10 ^ Z.of_nat k).
    { rewrite <-Hv', Hsplit, <-Hlen, Hk, dval_app, dval_zeros, length_app, !length_replicate, dval_app.
      rewrite Nat2Z.inj_add, Z.pow_add_r by lia. lia. }
    rewrite Hn', inject_Z_mult. fold (pow10 (Z.of_nat k)). pose proof (pow10_pos (Z.of_nat k) ltac:(lia)).
    pose proof (pow10_pos (Z.of_nat (length (e :: t))) ltac:(lia)). field. split; lra.
Qed.

(** Below a millionth the number of places leaves six significant digits. *)
Lemma price_places_spec (q : Q) :
  0 < Qnum q → (6 ≤ price_places q)%nat
    ∧ ((q < 1 # 1000000)%Q → (100000 # 1 <= q * pow10 (Z.of_nat (price_places q)))%Q)
    ∧ ((1 # 1000000 <= q)%Q → price_places q = 6%nat).
Proof.
  intros Hn. assert (Hq0 : (0 < q)%Q) by (unfold Qlt; cbn; lia).
  unfold price_places. change (pow10 6) with (1000000 # 1).
  destruct (truncated (q * (1000000 # 1))) as (Hlo & Hhi & Hge); [lra|]. set (t := to_integer _) in *. clearbody t.
  destruct (t =? 0) eqn:E; zbool.
  - rewrite E in Hlo, Hhi. split; [lia|]. split; [|intros; change (inject_Z (0 + 1)) with 1%Q in Hhi; lra]. intros Hsmall.
    destruct (digits_spec (Qnum q)) as (_ & _ & Hne & Hl1 & _); [lia|]. specialize (Hl1 Hn).
    destruct (digits_spec (Zpos (Qden q))) as (_ & _ & _ & _ & Hd2); [lia|].
    set (ln := length (digits (Qnum q))) in *. set (ld := length (digits (Zpos (Qden q)))) in *.
    assert (0 < ln)%nat by (unfold ln; destruct (digits (Qnum q)); [done|cbn; lia]).
    assert (Hgap : Qnum q * 10 ^ 6 < Zpos (Qden q)) by (unfold Qlt in Hsmall; cbn in Hsmall; lia).
    assert (Hll : (ln < ld)%nat).
    { destruct (decide (ln < ld)%nat) as [|Hnl]; [done|exfalso]. pose proof (Z.pow_le_mono_r 10 (Z.of_nat ld) (Z.of_nat ln) ltac:(lia) ltac:(lia)).
      assert (10 ^ Z.of_nat ln = 10 * 10 ^ (Z.of_nat ln - 1)) by (rewrite <-Z.pow_succ_r by lia; f_equal; lia). lia. }
    assert (Hz : 100000 * Zpos (Qden q) ≤ Qnum q * 10 ^ Z.of_nat (ld - ln + 6)).
    { assert (Hp : 10 ^ Z.of_nat (ld - ln + 6) * 10 ^ (Z.of_nat ln - 1) = 10 ^ Z.of_nat ld * 100000).
      { change 100000 with (10 ^ 5). rewrite <-!Z.pow_add_r by lia. f_equal. lia. }
      pose proof (Z.pow_pos_nonneg 10 (Z.of_nat (ld - ln + 6)) ltac:(lia) ltac:(lia)). nia. }
    clearbody ln ld. unfold Qle, pow10. cbn. lia.
  - split; [done|]. split; [|done]. intros Hsmall. exfalso.
    assert (Hz : (inject_Z t < inject_Z 1)%Q) by (change (inject_Z 1) with 1%Q; lra). rewrite <-Zlt_Qlt in Hz. lia.
Qed.

(** [t] units of the last of [places] places. *)
Lemma rendered_bounds (p v : Q) t places :
  6 ≤ places → 0 ≤ t → (0 <= p)%Q → (v == inject_Z t / pow10 places)%Q →
  (inject_Z t <= p * pow10 places)%Q → (p * pow10 places < inject_Z (t + 1))%Q →
  ((p < 1 # 1000000)%Q → (100000 # 1 <= p * pow10 places)%Q) → ((1 # 1000000 <= p)%Q → places = 6) →
  (v <= p)%Q ∧ (p - v < 1 # 1000000)%Q ∧ ((0 < p)%Q → (0 < v)%Q) ∧ ((p < 1 # 1000000)%Q → ((p - v) * (100000 # 1) <= p)%Q).
Proof.
  intros Hpl Ht Hp Hv Hlo Hhi Hsmall Hbig. pose proof (pow10_pos places ltac:(lia)) as Hw.
  assert (Hw6 : (1000000 # 1 <= pow10 places)%Q).
  { change (1000000 # 1) with (inject_Z (10 ^ 6)). unfold pow10. rewrite <-Zle_Qle. apply Z.pow_le_mono_r; lia. }
  assert (Hvt : (v * pow10 places == inject_Z t)%Q) by (rewrite Hv; field; lra).
  rewrite inject_Z_plus in Hhi. change (inject_Z 1) with 1%Q in Hhi. rewrite <-Hvt in Hlo, Hhi.
  assert (Hle : (v <= p)%Q) by (apply (Qmult_lt_0_le_reg_r _ _ (pow10 places)); done).
  assert (Hgap : ((p - v) * pow10 places < 1)%Q) by lra.
  split_and!; [done|nra| |].
  - intros Hp0. assert (Ht1 : 1 ≤ t); [|].
    + destruct (Qlt_le_dec p (1 # 1000000)) as [Hs|Hb].
      * specialize (Hsmall Hs). assert (Hz : (inject_Z 1 < inject_Z t)%Q) by (change (inject_Z 1) with 1%Q; lra).
        rewrite <-Zlt_Qlt in Hz. lia.
      * rewrite (Hbig Hb) in *. change (pow10 6) with (1000000 # 1) in *.
        assert (Hz : (inject_Z 0 < inject_Z t)%Q) by (change (inject_Z 0) with 0%Q; lra). rewrite <-Zlt_Qlt in Hz. lia.
    + assert (Hz : (inject_Z 1 <= inject_Z t)%Q) by (by rewrite <-Zle_Qle). change (inject_Z 1) with 1%Q in Hz. nra.
  - intros Hs. specialize (Hsmall Hs). nra.
Qed.

(** ** Properties *)

(** the rendered price is faithful: the text [format_price] writes denotes a number that is never above
    the price of one whole token, less than a millionth below it, positive whenever the price is, and, for a price under a
    millionth, within one part in a hundred thousand of it. *)
Theorem rendered_price_is_faithful (r : Ratio) input_decimals output_decimals :
  (0 <= r)%Q → 0 ≤ input_decimals → 0 ≤ output_decimals →
  let p := (r * pow10 input_decimals / pow10 output_decimals)%Q in
  ∃ v, read_decimal (format_price r input_decimals output_decimals) = Some v
    ∧ (v <= p)%Q ∧ (p - v < 1 # 1000000)%Q ∧ ((0 < p)%Q → (0 < v)%Q)
    ∧ ((p < 1 # 1000000)%Q → ((p - v) * (100000 # 1) <= p)%Q).
Proof.
  intros Hr Hi Ho p. unfold format_price. set (q := scaled_price r input_decimals output_decimals).
  assert (Hqp : (q == p)%Q) by (unfold q, scaled_price; by rewrite !Qred_correct).
  pose proof (pow10_pos _ Hi) as Hpi. pose proof (pow10_pos _ Ho) as Hpo.
  assert (Hp0 : (0 <= p)%Q).
  { unfold p. apply Qle_shift_div_l; [done|]. rewrite Qmult_0_l. apply Qmult_le_0_compat; lra. }
  clearbody q p. destruct (Qnum q =? 0) eqn:E; zbool.
  { exists 0%Q. split; [done|]. assert (q == 0)%Q by (unfold Qeq; cbn; lia). split_and!; lra. }
  assert (Hn : 0 < Qnum q) by (assert (0 <= q)%Q as Hq0 by lra; unfold Qle in Hq0; cbn in Hq0; lia).
  destruct (price_places_spec q Hn) as (Hpl & Hsmall & Hbig). set (places := price_places q) in *.
  pose proof (pow10_pos (Z.of_nat places) ltac:(lia)) as Hpp.
  destruct (truncated (q * pow10 (Z.of_nat places))) as (Hlo & Hhi & Ht0); [apply Qmult_le_0_compat; lra|].
  set (t := to_integer _) in *. clearbody t. destruct (read_rendered t places Ht0) as (v & Hread & Hv).
  exists v. split; [exact Hread|]. clear Hread. apply (rendered_bounds p v t (Z.of_nat places)); try lia; try done.
  - by rewrite <-Hqp.
  - by rewrite <-Hqp.
  - rewrite <-Hqp. exact Hsmall.
  - rewrite <-Hqp. intros H%Hbig. unfold places in *. lia.
Qed.

Lemma rendered_price_is_faithful_witness :
  format_price (1 # 3000000000) 6 6 = "0.000000000333333"%string
  ∧ ∃ v, read_decimal (format_price (1 # 3000000000) 6 6) = Some v ∧ (v <= 1 # 3000000000)%Q
      ∧ ((1 # 3000000000) - v < 1 # 1000000)%Q.
Proof.
  split; [vm_compute; reflexivity|].
  destruct (rendered_price_is_faithful (1 # 3000000000) 6 6) as (v & Hr & Hle & Hgap & _); [discriminate|lia|lia|].
  assert (Hp : ((1 # 3000000000) * pow10 6 / pow10 6 == 1 # 3000000000)%Q) by (vm_compute; reflexivity).
  rewrite Hp in Hle, Hgap. exists v. split; [exact Hr|]. split; [exact Hle|exact Hgap].
Defined.
