(* ===== verification/CurveDecode.v ===== *)
(** * Decoding a shipped strategy

    [crates/core/src/primitives/registry/curve.rs]: a strategy is an ABI-encoded
    order whose data ends in a VM program, a sequence of
    [opcode, args_len, args] instructions.  Bytes are integers below 256; the ABI
    decoder of the order is a parameter. *)

From stdpp Require Import strings.
From S2P Require Import Prelude U256.

Definition OP_XYC_SWAP : Z := 0x11.
Definition OP_XYC_CONCENTRATE : Z := 0x12.
Definition OP_PEGGED_SWAP : Z := 0x1F.
Definition OP_SALT : Z := 0x14.
Definition OP_FLAT_FEE : Z := 0x15.
Definition PRICE_NEUTRAL : list Z := [OP_SALT; 0x0D; 0x0E; 0x0F; 0x10; 0x21].
Definition CONCENTRATE_ARGS_LEN : nat := 64.
Definition PEGGED_ARGS_LEN : nat := 160.
Definition FEE_BPS_DENOMINATOR : Z := 1000000000.

Record PeggedParams := mk_pegged {
  pp_x0 : U256;
  pp_y0 : U256;
  pp_linear_width : U256;
  pp_rate_lt : U256;
  pp_rate_gt : U256
}.

Inductive Curve : Type :=
| Xyc
| Concentrate (sqrt_price_min sqrt_price_max : U256)
| Pegged (params : PeggedParams).

#[global] Instance PeggedParams_eq_dec : EqDecision PeggedParams.
Proof. solve_decision. Defined.
#[global] Instance Curve_eq_dec : EqDecision Curve.
Proof. solve_decision. Defined.

Definition curve_label (c : Curve) : string :=
  match c with Xyc => "XYC" | Concentrate _ _ => "Concentrated" | Pegged _ => "Pegged" end.

Inductive CurveSpec : Type :=
| Priceable (curve : Curve) (fees_in_bps : list Z)
| Unsupported.

(** [from_be_slice] and [from_be_bytes]. *)
Definition from_be (bytes : list Z) : Z := foldl (λ acc b, acc * 256 + b) 0 bytes.

(** [&args[from..to]] *)
Definition slice (args : list Z) (from to : nat) : list Z := take (to - from) (drop from args).

Definition split_at_checked (l : list Z) (n : Z) : option (list Z * list Z) :=
  if n <=? Z.of_nat (length l) then Some (take (Z.to_nat n) l, drop (Z.to_nat n) l) else None.

(** One instruction is consumed per round, so the length of the program bounds the rounds. *)
Fixpoint walk_loop (fuel : nat) (rest : list Z) : option (list (Z * list Z)) :=
  match rest with
  | opcode :: args_len :: tail =>
      match fuel with
      | O => None
      | S fuel' =>
          '(args, next) ← split_at_checked tail args_len;
          instructions ← walk_loop fuel' next;
          Some ((opcode, args) :: instructions)
      end
  | [] => Some []
  | [_] => None
  end.

Definition walk (program : list Z) : option (list (Z * list Z)) := walk_loop (length program) program.

Definition parse_flat_fee (args : list Z) : option Z :=
  if (length args =? 4)%nat then
    let bps := from_be args in
    if bps <=? FEE_BPS_DENOMINATOR then Some bps else None
  else None.

Definition max_linear_width : U256 := 5000 * 10 ^ 27.

Definition is_pegged_in_domain (p : PeggedParams) : bool :=
  negb (pp_x0 p =? 0) && negb (pp_y0 p =? 0) && negb (pp_rate_lt p =? 0)
  && negb (pp_rate_gt p =? 0) && (pp_linear_width p <=? max_linear_width).

Definition curve_of (curve_ixs : list (Z * list Z)) : option Curve :=
  match curve_ixs with
  | [(op, args)] =>
      if op =? OP_XYC_SWAP then Some Xyc
      else if (op =? OP_PEGGED_SWAP) && (length args =? PEGGED_ARGS_LEN)%nat then
        let params := mk_pegged (from_be (slice args 0 32)) (from_be (slice args 32 64))
          (from_be (slice args 64 96)) (from_be (slice args 96 128)) (from_be (slice args 128 160)) in
        if is_pegged_in_domain params then Some (Pegged params) else None
      else None
  | [(op_conc, args); (op_swap, _)] =>
      if (op_conc =? OP_XYC_CONCENTRATE) && (op_swap =? OP_XYC_SWAP)
         && (length args =? CONCENTRATE_ARGS_LEN)%nat then
        let sqrt_price_min := from_be (slice args 0 32) in
        let sqrt_price_max := from_be (slice args 32 64) in
        if negb (sqrt_price_min =? 0) && (sqrt_price_min <? sqrt_price_max)
        then Some (Concentrate sqrt_price_min sqrt_price_max) else None
      else None
  | _ => None
  end.

(** The loop of [classify], over the fees and curve instructions gathered so far. *)
Definition classify_step (acc : list Z * list (Z * list Z)) (ix : Z * list Z) :
    option (list Z * list (Z * list Z)) :=
  let '(fees, curves) := acc in
  let '(opcode, args) := ix in
  if opcode =? OP_FLAT_FEE then bps ← parse_flat_fee args; Some (fees ++ [bps], curves)
  else if (opcode =? OP_XYC_SWAP) || (opcode =? OP_XYC_CONCENTRATE) || (opcode =? OP_PEGGED_SWAP)
  then Some (fees, curves ++ [(opcode, args)])
  else if existsb (Z.eqb opcode) PRICE_NEUTRAL then Some (fees, curves)
  else None.

Definition classify (program : list Z) : CurveSpec :=
  match walk program with
  | None => Unsupported
  | Some instructions =>
      match try_fold_opt classify_step ([], []) instructions with
      | None => Unsupported
      | Some (fees, curve_ixs) =>
          match curve_of curve_ixs with
          | Some curve => Priceable curve fees
          | None => Unsupported
          end
      end
  end.

(** The decoded order: maker, traits, data. *)
Record Order := mk_order { order_maker : Address; order_traits : U256; order_data : list Z }.

Section decode.
Context (abi_decode : list Z → option Order).

Definition program_of (strategy : list Z) : option (list Z) :=
  order ← abi_decode strategy;
  let start := Z.land (Z.shiftr (order_traits order) 208) 0xFFFF in
  if start <=? Z.of_nat (length (order_data order)) then Some (drop (Z.to_nat start) (order_data order))
  else None.

Definition decode_strategy (strategy : list Z) : CurveSpec :=
  match program_of strategy with
  | Some program => classify program
  | None => Unsupported
  end.
End decode.

(** ** Specification *)

Definition is_byte (b : Z) : Prop := 0 ≤ b ≤ 255.

Definition encode_ix (ix : Z * list Z) : list Z := ix.1 :: Z.of_nat (length ix.2) :: ix.2.
Definition encode (ixs : list (Z * list Z)) : list Z := ixs ≫= encode_ix.

(** The parse-time domain of the contract's argument builders. *)
Definition curve_in_domain (c : Curve) : Prop :=
  match c with
  | Xyc => True
  | Concentrate lo hi => 0 < lo < hi
  | Pegged p => 0 < pp_x0 p ∧ 0 < pp_y0 p ∧ 0 < pp_rate_lt p ∧ 0 < pp_rate_gt p
                ∧ 0 ≤ pp_linear_width p ≤ 5000 * 10 ^ 27
  end.

(** What the opcodes of a program do to a price. *)
Definition fee_ix (ix : Z * list Z) : Prop := ix.1 = OP_FLAT_FEE.
Definition curve_ix (ix : Z * list Z) : Prop :=
  ix.1 = OP_XYC_SWAP ∨ ix.1 = OP_XYC_CONCENTRATE ∨ ix.1 = OP_PEGGED_SWAP.
Definition neutral_ix (ix : Z * list Z) : Prop := ix.1 ∈ PRICE_NEUTRAL.

#[global] Instance fee_ix_dec ix : Decision (fee_ix ix). Proof. unfold fee_ix. apply _. Defined.
#[global] Instance curve_ix_dec ix : Decision (curve_ix ix). Proof. unfold curve_ix. apply _. Defined.

(** ** Lemmas *)

#[local] Arguments PRICE_NEUTRAL : simpl never.
#[local] Arguments slice : simpl never.
#[local] Arguments from_be : simpl never.
#[local] Arguments max_linear_width : simpl never.

Lemma from_be_app l k : from_be (l ++ k) = from_be l * 256 ^ Z.of_nat (length k) + from_be k.
Proof.
  unfold from_be. rewrite foldl_app. generalize (foldl (λ acc b, acc * 256 + b) 0 l) as x.
  induction k as [|b k IH] using rev_ind; intros x; [cbn; lia|].
  rewrite !foldl_app, length_app. cbn [foldl length]. rewrite IH, Nat2Z.inj_add, Z.pow_add_r by lia.
  change (Z.of_nat 1) with 1. rewrite Z.pow_1_r. ring.
Qed.

Lemma from_be_bound l : Forall is_byte l → 0 ≤ from_be l < 256 ^ Z.of_nat (length l).
Proof.
  induction l as [|b l IH] using rev_ind; [done|]. intros [Hl Hb]%Forall_app.
  apply IH in Hl. apply Forall_cons in Hb as [Hb _]. unfold is_byte in Hb. rewrite from_be_app, length_app. cbn [length].
  change (from_be [b]) with b. rewrite Nat2Z.inj_add, Z.pow_add_r by lia.
  change (Z.of_nat 1) with 1. rewrite Z.pow_1_r. lia.
Qed.

Lemma walk_loop_encode ixs fuel :
  Forall (λ ix, (length ix.2 ≤ 255)%nat) ixs → (length ixs ≤ fuel)%nat → walk_loop fuel (encode ixs) = Some ixs.
Proof.
  intros Hixs. revert fuel. induction Hixs as [|[op args] ixs Hlen _ IH]; intros fuel Hf; [by destruct fuel|].
  destruct fuel as [|fuel]; [cbn in Hf; lia|]. cbn in Hf.
  change (encode ((op, args) :: ixs)) with (op :: Z.of_nat (length args) :: (args ++ encode ixs)).
  cbn [walk_loop]. unfold split_at_checked. rewrite length_app.
  destruct (_ <=? _) eqn:E; zbool; [|lia]. rewrite Nat2Z.id, take_app_length, drop_app_length. cbn.
  by rewrite IH by lia.
Qed.

Lemma length_encode ixs : (length ixs ≤ length (encode ixs))%nat.
Proof. unfold encode. induction ixs as [|[op args] ixs IH]; cbn; [done|]. rewrite length_app. lia. Qed.

Lemma walk_loop_Some fuel rest ixs :
  Forall is_byte rest → walk_loop fuel rest = Some ixs →
  rest = encode ixs ∧ Forall (λ ix, (length ix.2 ≤ 255)%nat) ixs.
Proof.
  revert rest ixs. induction fuel as [|fuel IH]; intros [|op [|n tail]] ixs Hb; cbn [walk_loop]; intros H;
    simplify_eq; [by split..|].
  apply Forall_cons in Hb as [_ Hb]. apply Forall_cons in Hb as [Hn Hb]. unfold is_byte in Hn.
  unfold split_at_checked in H. destruct (n <=? Z.of_nat (length tail)) eqn:E; zbool; [|done]. cbn in H.
  destruct (walk_loop fuel (drop (Z.to_nat n) tail)) as [ixs'|] eqn:Hw; [|done]. cbn in H. simplify_eq.
  apply IH in Hw as [Hd Hf]; [|by apply Forall_drop].
  assert (Hlen : length (take (Z.to_nat n) tail) = Z.to_nat n) by (rewrite length_take; lia).
  split; [|constructor; [cbn [snd]; lia|done]].
  change (encode ((op, take (Z.to_nat n) tail) :: ixs'))
    with (op :: Z.of_nat (length (take (Z.to_nat n) tail)) :: (take (Z.to_nat n) tail ++ encode ixs')).
  rewrite Hlen, <-Hd, take_drop, Z2Nat.id by lia. done.
Qed.

(** The gathered fees and curve instructions are the program's, in order. *)
Lemma classify_fold ixs acc out :
  try_fold_opt classify_step acc ixs = Some out →
  Forall (λ ix, fee_ix ix ∨ curve_ix ix ∨ neutral_ix ix) ixs
  ∧ (∃ fees, Forall2 (λ ix bps, parse_flat_fee ix.2 = Some bps) (filter fee_ix ixs) fees
             ∧ out.1 = acc.1 ++ fees)
  ∧ out.2 = acc.2 ++ filter curve_ix ixs.
Proof.
  revert acc. induction ixs as [|[op args] ixs IH]; intros [fees curves] H.
  { cbn in H. simplify_eq. cbn. rewrite !app_nil_r. split_and!; [constructor| |done].
    exists []. rewrite app_nil_r. by split. }
  cbn [try_fold_opt] in H. apply bind_Some in H as (acc' & Hst & H). apply IH in H as (Hall & (fs & Hfs & Hout) & Hc).
  unfold classify_step in Hst. cbn -[existsb] in Hst. rewrite !filter_cons. unfold fee_ix, curve_ix, neutral_ix in *. cbn [fst] in *.
  destruct (op =? OP_FLAT_FEE) eqn:E1; zbool.
  { apply bind_Some in Hst as (bps & Hbps & [= <-]). subst op. rewrite decide_True by done.
    rewrite decide_False by naive_solver. cbn in *. split_and!; [by constructor; [left|]| |done].
    exists (bps :: fs). rewrite Hout, <-app_assoc. split; [by constructor|done]. }
  rewrite decide_False by done.
  destruct ((op =? OP_XYC_SWAP) || (op =? OP_XYC_CONCENTRATE) || (op =? OP_PEGGED_SWAP)) eqn:E2.
  { rewrite !orb_true_iff, !Z.eqb_eq in E2. simplify_eq. rewrite decide_True by tauto. cbn in *.
    split_and!; [constructor; [tauto|done]|eauto|]. by rewrite Hc, <-app_assoc. }
  destruct (existsb (Z.eqb op) PRICE_NEUTRAL) eqn:E3; [|done]. simplify_eq. cbn -[existsb] in *.
  rewrite decide_False by (rewrite !orb_false_iff, !Z.eqb_neq in E2; tauto).
  split_and!; [constructor; [|done]|eauto|done]. right. right.
  apply existsb_exists in E3 as (x & Hx & ->%Z.eqb_eq). by apply list_elem_of_In.
Qed.

Lemma parse_flat_fee_bound args bps :
  Forall is_byte args → parse_flat_fee args = Some bps → 0 ≤ bps ≤ FEE_BPS_DENOMINATOR.
Proof.
  unfold parse_flat_fee. intros Hb H. repeat case_match; simplify_eq; zbool.
  apply from_be_bound in Hb. lia.
Qed.

Lemma slice_bytes args i j : Forall is_byte args → Forall is_byte (slice args i j).
Proof. intros. by apply Forall_take, Forall_drop. Qed.

Lemma curve_of_domain ixs c :
  Forall (λ ix : Z * list Z, Forall is_byte ix.2) ixs → curve_of ixs = Some c → curve_in_domain c.
Proof.
  assert (Hpos : ∀ args i j, Forall is_byte args → 0 ≤ from_be (slice args i j))
    by (intros args i j Hb; by apply from_be_bound, slice_bytes).
  intros Hb H. destruct ixs as [|[op args] [|[op' args'] [|]]]; cbn in H; try done;
    apply Forall_cons in Hb as [Hb _]; cbn in Hb.
  - repeat case_match; simplify_eq; cbn; [done|]. unfold is_pegged_in_domain in *. cbn in *. zbool.
    unfold max_linear_width in *.
    pose proof (Hpos args 0%nat 32%nat Hb). pose proof (Hpos args 32%nat 64%nat Hb). pose proof (Hpos args 64%nat 96%nat Hb).
    pose proof (Hpos args 96%nat 128%nat Hb). pose proof (Hpos args 128%nat 160%nat Hb). lia.
  - repeat case_match; simplify_eq; cbn. zbool. pose proof (Hpos args 0%nat 32%nat Hb). lia.
Qed.

Lemma encode_bytes ixs : Forall is_byte (encode ixs) → Forall (λ ix : Z * list Z, Forall is_byte ix.2) ixs.
Proof.
  unfold encode. induction ixs as [|[op args] ixs IH]; cbn; [constructor|].
  intros [_ [_ [? ?]%Forall_app]%Forall_cons]%Forall_cons. constructor; auto.
Qed.

Lemma classify_valid program curve fees :
  Forall is_byte program → classify program = Priceable curve fees →
  curve_in_domain curve
  ∧ Forall (λ bps, 0 ≤ bps ≤ FEE_BPS_DENOMINATOR) fees
  ∧ ∃ ixs, program = encode ixs
      ∧ Forall (λ ix, fee_ix ix ∨ curve_ix ix ∨ neutral_ix ix) ixs
      ∧ Forall2 (λ ix bps, parse_flat_fee ix.2 = Some bps) (filter fee_ix ixs) fees
      ∧ curve_of (filter curve_ix ixs) = Some curve.
Proof.
  intros Hb. unfold classify. destruct (walk program) as [ixs|] eqn:Hw; [|done].
  destruct (try_fold_opt classify_step ([], []) ixs) as [[fs cs]|] eqn:Hf; [|done].
  apply walk_loop_Some in Hw as [-> Hlen]; [|done].
  apply classify_fold in Hf as (Hall & (fees' & Hfees & Hout) & Hcs). cbn in Hout, Hcs. subst fs cs.
  destruct (curve_of (filter curve_ix ixs)) as [c|] eqn:Hc; [|done]. intros [= -> ->].
  apply encode_bytes in Hb. split_and!.
  - eapply curve_of_domain; [|done].
    apply Forall_forall. intros ix [_ Hix]%list_elem_of_filter. rewrite Forall_forall in Hb. by apply Hb.
  - apply Forall_forall. intros bps Hin. apply list_elem_of_lookup in Hin as [i Hi].
    destruct (Forall2_lookup_r _ _ _ _ _ Hfees Hi) as (ix & Hix & Hp).
    eapply parse_flat_fee_bound; [|done]. rewrite Forall_forall in Hb. apply Hb.
    apply list_elem_of_lookup_2 in Hix. by apply list_elem_of_filter in Hix as [_ ?].
  - eauto.
Qed.

(** ** Properties *)

(** The instruction walker and the encoding are inverse: a byte program walks to a list of
    instructions exactly when it is their encoding, so no byte is skipped, repeated or read past the end
    (a truncated program, or a lone trailing opcode, walks to nothing). *)
Theorem walk_inverts_encoding program ixs :
  Forall is_byte program →
  walk program = Some ixs ↔ program = encode ixs ∧ Forall (λ ix, (length ix.2 ≤ 255)%nat) ixs.
Proof.
  intros Hb. split; [by apply walk_loop_Some|]. intros [-> Hixs].
  apply walk_loop_encode; [done|apply length_encode].
Qed.

Lemma walk_inverts_encoding_witness :
  walk [0x15; 4; 0; 0; 0; 30; 0x11; 0] = Some [(0x15, [0; 0; 0; 30]); (0x11, [])].
Proof.
  apply walk_inverts_encoding.
  - repeat (apply Forall_cons_2; [by split; vm_compute|]). apply Forall_nil_2.
  - split; [done|]. repeat constructor; cbn; lia.
Defined.

(** A strategy is priced only when the chain would accept it: every instruction of a priceable
    program is a flat fee, a curve or price-neutral, the fees are the program's own in order and at most
    100%, and the curve's parameters are in the domain the contract enforces at parse time. *)
Theorem classify_prices_only_valid_programs program curve fees :
  Forall is_byte program → classify program = Priceable curve fees →
  curve_in_domain curve
  ∧ Forall (λ bps, 0 ≤ bps ≤ FEE_BPS_DENOMINATOR) fees
  ∧ ∃ ixs, program = encode ixs
      ∧ Forall (λ ix, fee_ix ix ∨ curve_ix ix ∨ neutral_ix ix) ixs
      ∧ Forall2 (λ ix bps, parse_flat_fee ix.2 = Some bps) (filter fee_ix ixs) fees
      ∧ curve_of (filter curve_ix ixs) = Some curve.
Proof. apply classify_valid. Qed.

Lemma classify_prices_only_valid_programs_witness :
  classify [0x15; 4; 0; 0; 0; 30; 0x14; 0; 0x11; 0] = Priceable Xyc [30]
  ∧ Forall (λ bps, 0 ≤ bps ≤ FEE_BPS_DENOMINATOR) [30].
Proof.
  split; [done|].
  apply (classify_prices_only_valid_programs [0x15; 4; 0; 0; 0; 30; 0x14; 0; 0x11; 0] Xyc [30]).
  - repeat (apply Forall_cons_2; [by split; vm_compute|]). apply Forall_nil_2.
  - done.
Defined.
