(* ===== verification/Curves.v ===== *)
(** * Curve pricing

    [crates/core/src/registry/curves.rs]: the integer ports of the three on-chain
    curves, their flat fees, and the price-bounded fill, in closed form for the
    constant-product curves and by bisection for the pegged one.  Every checked
    operation of the contract is an error value here. *)

From S2P Require Import Prelude U256 Ratio CurveDecode.

Inductive CurveError : Type :=
| EmptyReserves | AmountTooLarge | Infeasible | NoSolution | Overflow | DivByZero | InvalidParams.

Abbreviation curve_result := (result CurveError).

Class Pricing (P : Type) := {
  quote_exact_in : P → U256 → curve_result U256;
  quote_exact_out : P → U256 → curve_result U256;
  quote_with_limit : P → U256 → Ratio → curve_result LimitedQuote
}.

(** ** Bisection *)

Definition BISECTION_PRECISION : Z := 1000000000000.

Definition converged (lo hi : U256) : bool :=
  let gap := wrapping_sub hi lo in
  (gap <=? 1) || (gap <=? hi / BISECTION_PRECISION).

Definition bisect_mid (lo hi : U256) : U256 := wrapping_add lo (wrapping_sub hi lo / 2).

(** The gap at least halves, rounding up, every round, so 256 rounds close any bracket of words. *)
Definition BISECTION_FUEL : nat := 256.

Fixpoint bisect (clears : U256 → curve_result bool) (fuel : nat) (lo hi : U256) : curve_result U256 :=
  if converged lo hi then Ok lo
  else match fuel with
       | O => Ok lo
       | S fuel' =>
           let mid := bisect_mid lo hi in
           c ← clears mid;
           if c : bool then bisect clears fuel' mid hi else bisect clears fuel' lo mid
       end.

Fixpoint feasible_loop (prices : U256 → bool) (fuel : nat) (lo hi : U256) : U256 :=
  if converged lo hi then lo
  else match fuel with
       | O => lo
       | S fuel' =>
           let mid := bisect_mid lo hi in
           if prices mid then feasible_loop prices fuel' mid hi else feasible_loop prices fuel' lo mid
       end.

Definition feasible_bound (hi : U256) (prices : U256 → bool) : U256 :=
  if prices hi then hi else feasible_loop prices BISECTION_FUEL 0 hi.

Definition fill_step (bound : U256) : U256 := Z.max (bound / 1000000) 1.

Definition fd_marginal (quote : U256 → curve_result U256) (step a : U256) : curve_result Ratio :=
  match quote a with
  | Err _ => Ok ratio_zero
  | Ok here =>
      match quote (saturating_add a step) with
      | Ok ahead => ok_or (Ratio_new (saturating_sub ahead here) step) DivByZero
      | Err _ => Ok ratio_zero
      end
  end.

Definition fd_clears (quote : U256 → curve_result U256) (step : U256) (limit : Ratio) (a : U256) :
    curve_result bool :=
  if is_ok (quote a) then m ← fd_marginal quote step a; Ok (ratio_le limit m) else Ok false.

(** The trait's default [quote_with_limit]; [quote] is the pool's exact-in quote. *)
Definition fill_to_limit_numerical (quote : U256 → curve_result U256) (amount_in : U256) (limit : Ratio) :
    curve_result LimitedQuote :=
  if amount_in =? 0 then Ok (mk_limited 0 0 false)
  else
    let bound := feasible_bound amount_in (λ input, is_ok (quote input)) in
    if bound =? 0 then Ok (mk_limited 0 0 true)
    else
      let step := fill_step bound in
      at_bound ← fd_marginal quote step bound;
      if ratio_le limit at_bound then
        out ← quote bound;
        Ok (mk_limited bound out (bound <? amount_in))
      else
        at_zero ← fd_marginal quote step 0;
        if ratio_lt at_zero limit then Ok (mk_limited 0 0 true)
        else
          lo ← bisect (fd_clears quote step limit) BISECTION_FUEL 0 bound;
          out ← quote lo;
          Ok (mk_limited lo out (lo <? amount_in)).

(** ** Solidity arithmetic *)

Definition one18 : U256 := 10 ^ 18.
Definition one27 : U256 := 10 ^ 18 * 10 ^ 9.

Definition cmul (a b : U256) : curve_result U256 := ok_or (checked_mul a b) Overflow.
Definition cadd (a b : U256) : curve_result U256 := ok_or (checked_add a b) Overflow.

Definition fdiv (a b : U256) : curve_result U256 :=
  if b =? 0 then Err DivByZero else Ok (a / b).

Definition ceil_div (a b : U256) : curve_result U256 :=
  if b =? 0 then Err DivByZero
  else if a =? 0 then Ok 0
  else Ok ((a - 1) / b + 1).

(** The product is computed at 512 bits, where two words never overflow. *)
Definition mul_div (a b denom : U256) : curve_result U256 :=
  if denom =? 0 then Err DivByZero
  else let quotient := a * b / denom in
       if U256_MAX <? quotient then Err Overflow else Ok quotient.

Definition sqrt_floor (x : U256) : U256 := Z.sqrt x.
Definition sqrt_ceil (x : U256) : U256 :=
  let r := Z.sqrt x in if r * r <? x then r + 1 else r.

(** ** Flat fees *)

Definition bps_denominator : U256 := 1000000000.

Definition apply_flat_fee_in (amount : U256) (fee_bps : Z) : curve_result U256 :=
  product ← cmul amount fee_bps;
  cut ← ceil_div product bps_denominator;
  ok_or (checked_sub amount cut) AmountTooLarge.

(** [checked_sub(..).filter(|d| !d.is_zero())] *)
Definition checked_sub_nonzero (a b : U256) : option U256 :=
  d ← checked_sub a b; if d =? 0 then None else Some d.

Definition apply_flat_fee_out (amount : U256) (fee_bps : Z) : curve_result U256 :=
  denominator ← ok_or (checked_sub_nonzero bps_denominator fee_bps) InvalidParams;
  product ← cmul amount fee_bps;
  extra ← ceil_div product denominator;
  cadd amount extra.

Definition shrink_by_fees (amount : U256) (fees : list Z) : curve_result U256 :=
  try_fold apply_flat_fee_in amount fees.

Definition gross_up_by_fees (amount : U256) (fees : list Z) : curve_result U256 :=
  try_fold apply_flat_fee_out amount (rev fees).

(** ** Constant product *)

Record XycPool := mk_xyc { balance_in : U256; balance_out : U256 }.

Definition xyc_is_empty (p : XycPool) : bool := (balance_in p =? 0) || (balance_out p =? 0).

Definition xyc_marginal_price (p : XycPool) : curve_result Ratio :=
  if xyc_is_empty p then Err EmptyReserves
  else ok_or (Ratio_new (balance_out p) (balance_in p)) DivByZero.

Definition xyc_quote_exact_in (p : XycPool) (amount_in : U256) : curve_result U256 :=
  if xyc_is_empty p then Err EmptyReserves
  else num ← cmul amount_in (balance_out p);
       den ← cadd (balance_in p) amount_in;
       fdiv num den.

Definition xyc_quote_exact_out (p : XycPool) (amount_out : U256) : curve_result U256 :=
  if xyc_is_empty p then Err EmptyReserves
  else denominator ← ok_or (checked_sub_nonzero (balance_out p) amount_out) AmountTooLarge;
       num ← cmul amount_out (balance_in p);
       ceil_div num denominator.

Definition xyc_quote_with_limit (p : XycPool) (amount_in : U256) (limit : Ratio) :
    curve_result LimitedQuote :=
  if xyc_is_empty p then Err EmptyReserves
  else if ratio_is_zero limit then
    out ← xyc_quote_exact_in p amount_in;
    Ok (mk_limited amount_in out false)
  else
    spot ← xyc_marginal_price p;
    if ratio_le spot limit then Ok (mk_limited 0 0 (negb (amount_in =? 0)))
    else
      let k := ratio_mul (ratio_from (balance_in p)) (ratio_from (balance_out p)) in
      inv ← ok_or (invert limit) DivByZero;
      let amount := match floor_sqrt (ratio_mul k inv) with
                    | Some boundary => Z.min amount_in (saturating_sub boundary (balance_in p))
                    | None => amount_in
                    end in
      out ← xyc_quote_exact_in p amount;
      Ok (mk_limited amount out (amount <? amount_in)).

#[global] Instance XycPool_Pricing : Pricing XycPool := {|
  quote_exact_in := xyc_quote_exact_in;
  quote_exact_out := xyc_quote_exact_out;
  quote_with_limit := xyc_quote_with_limit
|}.

(** ** Concentrated liquidity *)

Definition concentrate_liquidity (balance_lt balance_gt sqrt_price_min sqrt_price_max : U256) :
    curve_result U256 :=
  let one := one18 in
  ratio ← mul_div sqrt_price_min one sqrt_price_max;
  alpha ← ok_or (checked_sub one ratio) InvalidParams;
  if alpha =? 0 then Err InvalidParams
  else
    lt_part ← mul_div balance_lt sqrt_price_min one;
    gt_part ← mul_div balance_gt one sqrt_price_max;
    beta ← cadd lt_part gt_part;
    four_alpha ← cmul 4 alpha;
    scaled ← mul_div four_alpha balance_lt one;
    four_ac ← cmul scaled balance_gt;
    beta2 ← cmul beta beta;
    disc ← cadd beta2 four_ac;
    numerator ← cadd beta (sqrt_floor disc);
    two_alpha ← cmul 2 alpha;
    mul_div numerator one two_alpha.

Definition grow_reserves (in_is_lt : bool) (balance_in balance_out sqrt_price_min sqrt_price_max : U256) :
    curve_result XycPool :=
  let one := one18 in
  let '(balance_lt, balance_gt) :=
    if in_is_lt then (balance_in, balance_out) else (balance_out, balance_in) in
  liquidity ← concentrate_liquidity balance_lt balance_gt sqrt_price_min sqrt_price_max;
  '(add_in, add_out) ←
    (if in_is_lt then
       scaled ← cmul liquidity one;
       add_in ← ceil_div scaled sqrt_price_max;
       add_out ← mul_div liquidity sqrt_price_min one;
       Ok (add_in, add_out)
     else
       scaled ← cmul liquidity sqrt_price_min;
       add_in ← ceil_div scaled one;
       add_out ← mul_div liquidity one sqrt_price_max;
       Ok (add_in, add_out));
  virtual_in ← cadd balance_in add_in;
  virtual_out ← cadd balance_out add_out;
  Ok (mk_xyc virtual_in virtual_out).

Record ConcentratePool := mk_concentrate { virtual_pool : curve_result XycPool }.

Definition from_reserves_and_bounds (token_in token_out : Address)
    (balance_in balance_out sqrt_price_min sqrt_price_max : U256) : ConcentratePool :=
  mk_concentrate (grow_reserves (token_in <? token_out) balance_in balance_out
    sqrt_price_min sqrt_price_max).

#[global] Instance ConcentratePool_Pricing : Pricing ConcentratePool := {|
  quote_exact_in p amount := v ← virtual_pool p; quote_exact_in v amount;
  quote_exact_out p amount := v ← virtual_pool p; quote_exact_out v amount;
  quote_with_limit p amount limit := v ← virtual_pool p; quote_with_limit v amount limit
|}.

(** ** Pegged *)

Definition pegged_invariant (u v a : U256) : curve_result U256 :=
  let one := one27 in
  u_one ← cmul u one;
  let sqrt_u := sqrt_floor u_one in
  v_one ← cmul v one;
  let sqrt_v := sqrt_floor v_one in
  sum ← cadd u v;
  scaled ← cmul a sum;
  linear ← fdiv scaled one;
  roots ← cadd sqrt_u sqrt_v;
  cadd roots linear.

Definition pegged_invariant_from_reserves (x y x0 y0 a : U256) : curve_result U256 :=
  let one := one27 in
  x_one ← cmul x one;
  u ← fdiv x_one x0;
  y_one ← cmul y one;
  v ← fdiv y_one y0;
  pegged_invariant u v a.

Definition pegged_solve (u a invariant_c : U256) : curve_result U256 :=
  let one := one27 in
  u_one ← cmul u one;
  let sqrt_u := sqrt_floor u_one in
  a_u ← cmul a u;
  au ← fdiv a_u one;
  sqrt_u_plus_au ← cadd sqrt_u au;
  if invariant_c <? sqrt_u_plus_au then Err Infeasible
  else
    let right_side := invariant_c - sqrt_u_plus_au in
    if a =? 0 then square ← cmul right_side right_side; fdiv square one
    else
      four_a ← cmul 4 a;
      product ← cmul four_a right_side;
      four_a_right ← fdiv product one;
      discriminant ← cadd one four_a_right;
      disc_one ← cmul discriminant one;
      let sqrt_discriminant := sqrt_ceil disc_one in
      if sqrt_discriminant <? one then Err NoSolution
      else
        denominator ← cadd one sqrt_discriminant;
        two_right ← cmul 2 right_side;
        numerator ← cmul two_right one;
        w ← fdiv numerator denominator;
        w2 ← cmul w w;
        fdiv w2 one.

Record Normalized := mk_normalized { n_x0 : U256; n_y0 : U256; n_invariant : U256 }.

Record PeggedPool := mk_pegged_pool {
  normalized : curve_result Normalized;
  x0_init : U256;
  y0_init : U256;
  linear_width : U256;
  rate_in : U256;
  rate_out : U256
}.

Definition from_reserves_and_params (token_in token_out : Address) (balance_in balance_out : U256)
    (params : PeggedParams) : PeggedPool :=
  let '(rate_in, rate_out, x0_init, y0_init) :=
    if token_in <? token_out
    then (pp_rate_lt params, pp_rate_gt params, pp_x0 params, pp_y0 params)
    else (pp_rate_gt params, pp_rate_lt params, pp_y0 params, pp_x0 params) in
  let normalized :=
    if (balance_in =? 0) && (balance_out =? 0) then Err EmptyReserves
    else x0 ← cmul balance_in rate_in;
         y0 ← cmul balance_out rate_out;
         invariant ← pegged_invariant_from_reserves x0 y0 x0_init y0_init (pp_linear_width params);
         Ok (mk_normalized x0 y0 invariant) in
  mk_pegged_pool normalized x0_init y0_init (pp_linear_width params) rate_in rate_out.

Definition pegged_weight (width balance initial : U256) : curve_result U256 :=
  coordinate ← mul_div balance one27 initial;
  scaled ← cmul coordinate one27;
  let root := sqrt_floor scaled in
  two_root ← cmul 2 root;
  slope ← mul_div one27 one27 two_root;
  cadd slope width.

Definition pegged_marginal_price (p : PeggedPool) : curve_result Ratio :=
  n ← normalized p;
  input_weight ← pegged_weight (linear_width p) (n_x0 n) (x0_init p);
  output_weight ← pegged_weight (linear_width p) (n_y0 n) (y0_init p);
  scale ← ok_or (Ratio_new (y0_init p) (x0_init p)) DivByZero;
  weights ← ok_or (Ratio_new input_weight output_weight) DivByZero;
  rates ← ok_or (Ratio_new (rate_in p) (rate_out p)) DivByZero;
  Ok (ratio_mul (ratio_mul scale weights) rates).

Definition pegged_quote_exact_in (p : PeggedPool) (amount_in : U256) : curve_result U256 :=
  let one := one27 in
  n ← normalized p;
  scaled_in ← cmul amount_in (rate_in p);
  x1 ← cadd (n_x0 n) scaled_in;
  x1_one ← cmul x1 one;
  u1 ← fdiv x1_one (x0_init p);
  v1 ← pegged_solve u1 (linear_width p) (n_invariant n);
  v1_y0 ← cmul v1 (y0_init p);
  y1 ← ceil_div v1_y0 one;
  delta_out ← ok_or (checked_sub (n_y0 n) y1) AmountTooLarge;
  fdiv delta_out (rate_out p).

Definition pegged_quote_exact_out (p : PeggedPool) (amount_out : U256) : curve_result U256 :=
  let one := one27 in
  n ← normalized p;
  scaled_out ← cmul amount_out (rate_out p);
  y1 ← ok_or (checked_sub (n_y0 n) scaled_out) AmountTooLarge;
  y1_one ← cmul y1 one;
  v1 ← fdiv y1_one (y0_init p);
  u1 ← pegged_solve v1 (linear_width p) (n_invariant n);
  u1_x0 ← cmul u1 (x0_init p);
  x1 ← ceil_div u1_x0 one;
  delta_in ← ok_or (checked_sub x1 (n_x0 n)) AmountTooLarge;
  ceil_div delta_in (rate_in p).

#[global] Instance PeggedPool_Pricing : Pricing PeggedPool := {|
  quote_exact_in := pegged_quote_exact_in;
  quote_exact_out := pegged_quote_exact_out;
  quote_with_limit p := fill_to_limit_numerical (pegged_quote_exact_in p)
|}.

(** ** Any curve *)

Inductive CurvePool : Type :=
| XycCurve (p : XycPool)
| ConcentrateCurve (p : ConcentratePool)
| PeggedCurve (p : PeggedPool).

Definition marginal_price (pool : CurvePool) : curve_result Ratio :=
  match pool with
  | XycCurve p => xyc_marginal_price p
  | ConcentrateCurve p => v ← virtual_pool p; xyc_marginal_price v
  | PeggedCurve p => pegged_marginal_price p
  end.

Definition from_curve (curve : Curve) (token_in token_out : Address) (balance_in balance_out : U256) :
    CurvePool :=
  match curve with
  | Xyc => XycCurve (mk_xyc balance_in balance_out)
  | Concentrate sqrt_price_min sqrt_price_max =>
      ConcentrateCurve (from_reserves_and_bounds token_in token_out balance_in balance_out
        sqrt_price_min sqrt_price_max)
  | Pegged params =>
      PeggedCurve (from_reserves_and_params token_in token_out balance_in balance_out params)
  end.

#[global] Instance CurvePool_Pricing : Pricing CurvePool := {|
  quote_exact_in pool := match pool with
    | XycCurve p => quote_exact_in p | ConcentrateCurve p => quote_exact_in p
    | PeggedCurve p => quote_exact_in p end;
  quote_exact_out pool := match pool with
    | XycCurve p => quote_exact_out p | ConcentrateCurve p => quote_exact_out p
    | PeggedCurve p => quote_exact_out p end;
  quote_with_limit pool := match pool with
    | XycCurve p => quote_with_limit p | ConcentrateCurve p => quote_with_limit p
    | PeggedCurve p => quote_with_limit p end
|}.
