(* ===== verification/CurveProperties.v ===== *)
(** * Correctness of curve pricing

    The quotes of [Curves] favour the maker by less than one unit, exact-out is the
    exact inverse of exact-in, stacked fees invert, and both price-bounded fills stop
    where the price limit says. *)

From Stdlib Require Import Lqa.
From S2P Require Import Prelude U256 Ratio CurveDecode Curves.

#[local] Open Scope Z_scope.

(** ** Arithmetic *)

Lemma fdiv_Ok a b c : fdiv a b = Ok c ↔ b ≠ 0 ∧ c = a / b.
Proof. unfold fdiv. case_match; zbool; split; intros H0; simplify_res; naive_solver. Qed.

Lemma cmul_Ok a b c : cmul a b = Ok c ↔ c = a * b ∧ a * b ≤ U256_MAX.
Proof. unfold cmul. rewrite ok_or_Ok. apply checked_mul_Some. Qed.

Lemma cadd_Ok a b c : cadd a b = Ok c ↔ c = a + b ∧ a + b ≤ U256_MAX.
Proof. unfold cadd. rewrite ok_or_Ok. apply checked_add_Some. Qed.

Lemma checked_sub_nonzero_Some a b d : checked_sub_nonzero a b = Some d ↔ d = a - b ∧ b < a.
Proof.
  unfold checked_sub_nonzero. rewrite bind_Some. setoid_rewrite checked_sub_Some. split.
  - intros (x & [-> ?] & Hd). case_match; zbool; [done|]. simplify_eq. lia.
  - intros [-> ?]. exists (a - b). split; [lia|]. case_match; zbool; [lia|done].
Qed.

(** Floor and ceiling division as adjoints of multiplication. *)
Lemma div_le_iff a b m : 0 < b → m ≤ a / b ↔ m * b ≤ a.
Proof.
  intros Hb. split; intros H.
  - pose proof (Z.mul_div_le a b Hb). nia.
  - apply Z.div_le_lower_bound; lia.
Qed.

Lemma ceil_div_le_iff a b c m : 0 ≤ a → 0 < b → ceil_div a b = Ok c → c ≤ m ↔ a ≤ m * b.
Proof.
  intros Ha Hb. unfold ceil_div. case_match; zbool; [lia|]. case_match; zbool; intros [= <-]; [nia|].
  split; intros H1.
  - pose proof (Z.mul_succ_div_gt (a - 1) b Hb). nia.
  - assert ((a - 1) / b < m); [|lia]. apply Z.div_lt_upper_bound; lia.
Qed.

Lemma ceil_div_total a b : 0 < b → ∃ c, ceil_div a b = Ok c.
Proof. intros Hb. unfold ceil_div. case_match; zbool; [lia|]. case_match; eauto. Qed.

Lemma ceil_div_nonneg a b c : 0 ≤ a → 0 < b → ceil_div a b = Ok c → 0 ≤ c.
Proof.
  intros Ha Hb Hc. destruct (Z.le_gt_cases 0 c); [done|].
  assert (c ≤ -1) as Hneg by lia. rewrite (ceil_div_le_iff a b c (-1)) in Hneg by done. lia.
Qed.

(** ** Constant product *)

Definition pool_ok (p : XycPool) : Prop := 0 < balance_in p ∧ 0 < balance_out p.

Lemma xyc_is_empty_false p : pool_ok p → xyc_is_empty p = false.
Proof. intros [??]. unfold xyc_is_empty. apply orb_false_iff. split; apply Z.eqb_neq; lia. Qed.

Lemma xyc_quote_exact_in_Ok p x y :
  pool_ok p → 0 ≤ x →
  xyc_quote_exact_in p x = Ok y ↔
  y = x * balance_out p / (balance_in p + x)
  ∧ x * balance_out p ≤ U256_MAX ∧ balance_in p + x ≤ U256_MAX.
Proof.
  intros Hp Hx. unfold xyc_quote_exact_in. rewrite xyc_is_empty_false by done. destruct Hp.
  rewrite bind_Ok. setoid_rewrite bind_Ok. setoid_rewrite cmul_Ok. setoid_rewrite cadd_Ok.
  setoid_rewrite fdiv_Ok. split; [naive_solver|]. intros (-> & ? & ?).
  eexists. split; [done|]. eexists. split; [done|]. split; [lia|done].
Qed.

Lemma xyc_quote_exact_out_Ok p y x :
  pool_ok p → xyc_quote_exact_out p y = Ok x →
  y < balance_out p ∧ ceil_div (y * balance_in p) (balance_out p - y) = Ok x.
Proof.
  intros Hp. unfold xyc_quote_exact_out. rewrite xyc_is_empty_false by done. intros H. simplify_res.
  apply checked_sub_nonzero_Some in E as [-> ?]. apply cmul_Ok in E0 as [-> _]. done.
Qed.

(** The marginal output per input once [a] has been sold into the pool. *)
Definition xyc_marginal_at (p : XycPool) (a : Z) : Q :=
  (inject_Z (balance_in p * balance_out p) / inject_Z ((balance_in p + a) * (balance_in p + a)))%Q.

Lemma xyc_boundary p (limit : Ratio) s :
  (0 < limit)%Q → 0 < s →
  (inject_Z (s * s) <= ratio_mul (ratio_mul (ratio_from (balance_in p)) (ratio_from (balance_out p))) (/ limit))%Q
  ↔ (limit <= inject_Z (balance_in p * balance_out p) / inject_Z (s * s))%Q.
Proof.
  intros Hl Hs. unfold ratio_mul, ratio_from. rewrite !Qred_correct.
  change (balance_in p # 1) with (inject_Z (balance_in p)). change (balance_out p # 1) with (inject_Z (balance_out p)).
  rewrite <-inject_Z_mult. fold (inject_Z (balance_in p * balance_out p) / limit)%Q.
  assert (Hss : (0 < inject_Z (s * s))%Q) by (rewrite <-(Zlt_Qlt 0); nia).
  rewrite !Qle_div_iff by done. by rewrite Qmult_comm.
Qed.

(** What a successful price-bounded fill of a constant-product pool is. *)
Definition limit_fill_ok (p : XycPool) (amount : U256) (limit : Ratio) (q : LimitedQuote) : Prop :=
  let a := lq_amount_in q in
  0 ≤ a ≤ amount
  ∧ xyc_quote_exact_in p a = Ok (lq_amount_out q)
  ∧ (lq_limited q = true ↔ a < amount)
  ∧ (0 < a → (limit <= xyc_marginal_at p a)%Q)
  ∧ (a < amount → (xyc_marginal_at p (a + 1) < limit)%Q).

Lemma spot_bound p (limit spot : Ratio) :
  pool_ok p → xyc_marginal_price p = Ok spot → (spot <= limit)%Q → (xyc_marginal_at p 1 < limit)%Q.
Proof.
  intros Hp. unfold xyc_marginal_price. rewrite xyc_is_empty_false by done. intros Hs Hle.
  apply ok_or_Ok, Ratio_new_Some in Hs; [|apply Hp]. rewrite Hs in Hle. destruct Hp as [Hi Ho].
  eapply Qlt_le_trans; [|exact Hle]. unfold xyc_marginal_at. apply Qnot_le_lt. rewrite Qle_div_iff
    by (rewrite <-(Zlt_Qlt 0); nia).
  intros H. assert (Heq : (inject_Z (balance_out p) / inject_Z (balance_in p)
    * inject_Z ((balance_in p + 1) * (balance_in p + 1))
    == inject_Z (balance_out p * ((balance_in p + 1) * (balance_in p + 1))) / inject_Z (balance_in p))%Q).
  { rewrite (inject_Z_mult (balance_out p)). field. intros E. unfold Qeq in E. cbn in E. lia. }
  rewrite Heq in H. apply Qle_not_lt in H. apply H. apply Qlt_shift_div_l; [rewrite <-(Zlt_Qlt 0); lia|].
  rewrite <-inject_Z_mult, <-Zlt_Qlt. nia.
Qed.

Lemma xyc_quote_zero p : pool_ok p → balance_in p ≤ U256_MAX → xyc_quote_exact_in p 0 = Ok 0.
Proof. intros Hp Hb. apply xyc_quote_exact_in_Ok; [done..|]. pose proof U256_MAX_pos. split; [done|lia]. Qed.

Lemma xyc_limit_spec p amount limit q :
  pool_ok p → balance_in p ≤ U256_MAX → 0 ≤ amount → (0 <= limit)%Q →
  xyc_quote_with_limit p amount limit = Ok q → limit_fill_ok p amount limit q.
Proof.
  intros Hp Hb Ha Hl. unfold xyc_quote_with_limit. rewrite xyc_is_empty_false by done.
  destruct (ratio_is_zero limit) eqn:Hz.
  { apply ratio_is_zero_true in Hz. intros H. simplify_res. unfold limit_fill_ok. cbn.
    split_and!; [lia|lia|done|split; [done|lia]| |lia]. intros _. rewrite Hz. unfold xyc_marginal_at.
    destruct Hp. apply Qle_shift_div_l; [rewrite <-(Zlt_Qlt 0); nia|]. rewrite Qmult_0_l, <-(Zle_Qle 0). nia. }
  assert (Hpos : (0 < limit)%Q).
  { apply Qle_lteq in Hl as [?|Heq]; [done|]. symmetry in Heq. apply ratio_is_zero_true in Heq. congruence. }
  intros H. simplify_res. rename x into spot. destruct (ratio_le spot limit) eqn:Hs.
  { simplify_res. unfold limit_fill_ok. cbn. split_and!; [lia|lia|by apply xyc_quote_zero| |lia|].
    - rewrite negb_true_iff, Z.eqb_neq. lia.
    - intros _. eapply spot_bound; [done..|]. by apply ratio_le_true. }
  simplify_res. unfold invert in E0. rewrite Hz in E0. simplify_eq. rename x0 into out.
  destruct Hp as [Hi Ho]. set (root := ratio_mul _ _) in *.
  assert (Hroot : (0 <= root)%Q).
  { unfold root, ratio_mul, ratio_from. rewrite !Qred_correct. apply Qmult_le_0_compat.
    - apply Qmult_le_0_compat; unfold Qle; cbn; lia.
    - apply Qlt_le_weak. by apply Qinv_lt_0_compat. }
  unfold limit_fill_ok. cbn [lq_amount_in lq_amount_out lq_limited].
  destruct (floor_sqrt root) as [b|] eqn:Hf.
  - set (a := Z.min amount (saturating_sub b (balance_in p))) in *.
    assert (0 ≤ a ≤ amount) by u256.
    split_and!; [lia|lia|done|by rewrite Z.ltb_lt| |].
    + intros Hpos'. apply xyc_boundary; [done|lia|]. apply (floor_sqrt_le root b); [done|done|lia|u256].
    + intros Hlt. apply Qnot_le_lt. intros Hm. apply xyc_boundary in Hm; [|done|lia].
      apply (floor_sqrt_le root b) in Hm; [u256|done|done|lia].
  - split_and!; [lia|lia|done|by rewrite Z.ltb_lt| |lia].
    intros Hpos'. apply xyc_boundary; [done|lia|].
    apply xyc_quote_exact_in_Ok in E1 as (_ & _ & ?); [|done|lia]. apply floor_sqrt_None; [done|done|lia].
Qed.

(** ** Stacked fees *)

Lemma flat_fee_adjoint g a f n g0 :
  0 ≤ f ≤ bps_denominator → 0 ≤ g → 0 ≤ a →
  apply_flat_fee_in g f = Ok n → apply_flat_fee_out a f = Ok g0 → (a ≤ n ↔ g0 ≤ g) ∧ 0 ≤ n ∧ 0 ≤ g0.
Proof.
  intros Hf Hg Ha Hin Hout. unfold apply_flat_fee_in, apply_flat_fee_out in *. simplify_res.
  apply cmul_Ok in E0 as [-> _], E2 as [-> _]. apply checked_sub_nonzero_Some in E as [-> ?].
  apply checked_sub_Some in Hin as [-> ?]. apply cadd_Ok in Hout as [-> _].
  assert (HB : 0 < bps_denominator) by done.
  pose proof (ceil_div_le_iff (a * f) (bps_denominator - f) _ (g - a) ltac:(nia) ltac:(lia) E1).
  pose proof (ceil_div_le_iff (g * f) bps_denominator _ (g - a) ltac:(nia) ltac:(lia) E3).
  pose proof (ceil_div_nonneg (a * f) (bps_denominator - f) _ ltac:(nia) ltac:(lia) E1). split_and!; nia.
Qed.

Lemma stacked_fees_adjoint fees g a n g0 :
  Forall (λ f, 0 ≤ f ≤ bps_denominator) fees → 0 ≤ g → 0 ≤ a →
  shrink_by_fees g fees = Ok n → gross_up_by_fees a fees = Ok g0 → (a ≤ n ↔ g0 ≤ g) ∧ 0 ≤ g0.
Proof.
  unfold shrink_by_fees, gross_up_by_fees. intros Hfees. revert g g0.
  induction Hfees as [|f fees Hf Hfees IH]; intros g g0 Hg Ha; cbn [try_fold rev].
  { cbn. intros [= <-] [= <-]. done. }
  rewrite try_fold_app. intros (n1 & Hn1 & Hin)%bind_Ok (a1 & Ha1 & Hout)%bind_Ok.
  cbn in Hout. apply bind_Ok in Hout as (g1 & Hout & [= ->]).
  assert (Hpos : 0 ≤ n1).
  { unfold apply_flat_fee_in in Hn1. simplify_res. apply checked_sub_Some in Hn1 as [-> ?]. lia. }
  destruct (IH n1 a1) as [Hiff Hp1]; [done..|].
  destruct (flat_fee_adjoint g a1 f n1 g0) as (Hiff' & _ & ?); [done..|]. split; [|done]. by rewrite Hiff.
Qed.

Lemma shrink_nonneg fees g n : 0 ≤ g → shrink_by_fees g fees = Ok n → 0 ≤ n.
Proof.
  unfold shrink_by_fees. revert g. induction fees as [|f fees IH]; intros g Hg; cbn; [by intros [= <-]|].
  intros (n1 & Hn1 & Hin)%bind_Ok. eapply IH; [|exact Hin].
  unfold apply_flat_fee_in in Hn1. simplify_res. apply checked_sub_Some in Hn1 as [-> ?]. lia.
Qed.

(** ** Bisection *)

Lemma bisect_mid_spec lo hi :
  0 ≤ lo ≤ hi → hi ≤ U256_MAX → bisect_mid lo hi = lo + (hi - lo) / 2 ∧ lo ≤ bisect_mid lo hi ≤ hi.
Proof.
  intros Hlo Hhi. unfold bisect_mid. rewrite wrapping_sub_exact by lia.
  assert (0 ≤ (hi - lo) / 2 ≤ hi - lo).
  { split; [apply Z.div_pos; lia|]. apply Z.div_le_upper_bound; lia. }
  rewrite wrapping_add_exact by lia. lia.
Qed.

Lemma not_converged_gap lo hi : 0 ≤ lo ≤ hi → hi ≤ U256_MAX → converged lo hi = false → 2 ≤ hi - lo.
Proof. intros Hlo Hhi. unfold converged. rewrite wrapping_sub_exact by lia. intros ?. zbool. lia. Qed.

(** Any predicate: the bisection closes the bracket around a point where it turns. *)
Lemma bisect_spec (p : U256 → bool) clears fuel lo hi :
  (∀ x, clears x = Ok (p x)) → 0 ≤ lo ≤ hi → hi ≤ U256_MAX → hi - lo ≤ 2 ^ Z.of_nat fuel →
  ∃ lo' hi', bisect clears fuel lo hi = Ok lo' ∧ lo ≤ lo' ≤ hi' ∧ hi' ≤ hi
    ∧ converged lo' hi' = true ∧ (lo' = lo ∨ p lo' = true) ∧ (hi' = hi ∨ p hi' = false).
Proof.
  intros Hp. revert lo hi. induction fuel as [|fuel IH]; intros lo hi Hlo Hhi Hgap;
    cbn [bisect]; destruct (converged lo hi) eqn:Hc; try (exists lo, hi; split_and!; auto; lia).
  - apply not_converged_gap in Hc; [|lia..]. cbn in Hgap. lia.
  - apply not_converged_gap in Hc; [|lia..]. rewrite Hp. cbn.
    destruct (bisect_mid_spec lo hi Hlo Hhi) as [Hmid Hb].
    assert (hi - lo - (hi - lo) / 2 ≤ 2 ^ Z.of_nat fuel ∧ (hi - lo) / 2 ≤ 2 ^ Z.of_nat fuel) as [H1 H2].
    { rewrite Nat2Z.inj_succ, Z.pow_succ_r in Hgap by lia.
      pose proof (Z.div_mod (hi - lo) 2). pose proof (Z.mod_pos_bound (hi - lo) 2). lia. }
    destruct (p (bisect_mid lo hi)) eqn:Hpm.
    + destruct (IH (bisect_mid lo hi) hi) as (lo' & hi' & -> & ? & ? & ? & Hl & Hh); [lia..|].
      exists lo', hi'. split_and!; try lia; try done. destruct Hl as [->|]; auto.
    + destruct (IH lo (bisect_mid lo hi)) as (lo' & hi' & -> & ? & ? & ? & Hl & Hh); [lia..|].
      exists lo', hi'. split_and!; try lia; try done. destruct Hh as [->|]; auto.
Qed.

Lemma bisect_feasible (p : U256 → bool) fuel lo hi :
  bisect (λ x, Ok (p x)) fuel lo hi = Ok (feasible_loop p fuel lo hi).
Proof.
  revert lo hi. induction fuel as [|fuel IH]; intros lo hi; cbn; destruct (converged lo hi); try done.
  by destruct (p (bisect_mid lo hi)).
Qed.

#[local] Arguments bisect : simpl never.
#[local] Arguments feasible_loop : simpl never.

Lemma U256_fuel x : 0 ≤ x ≤ U256_MAX → x - 0 ≤ 2 ^ Z.of_nat BISECTION_FUEL.
Proof. unfold U256_MAX, BISECTION_FUEL. lia. Qed.

Lemma feasible_loop_spec (prices : U256 → bool) fuel lo hi :
  0 ≤ lo ≤ hi → hi ≤ U256_MAX → hi - lo ≤ 2 ^ Z.of_nat fuel →
  let b := feasible_loop prices fuel lo hi in
  lo ≤ b ≤ hi ∧ (b = lo ∨ prices b = true)
  ∧ ∃ h, b ≤ h ≤ hi ∧ converged b h = true ∧ (h = hi ∨ prices h = false).
Proof.
  intros Hlo Hhi Hf b. unfold b.
  destruct (bisect_spec prices (λ x, Ok (prices x)) fuel lo hi) as (lo' & h & Hb & ? & ? & ? & Hl & Hh); [done..|].
  rewrite bisect_feasible in Hb. injection Hb as ->. split_and!; [lia|lia|done|]. exists h. split_and!; lia || done.
Qed.

Lemma feasible_bound_spec hi prices :
  0 ≤ hi ≤ U256_MAX →
  let b := feasible_bound hi prices in
  0 ≤ b ≤ hi ∧ (b = 0 ∨ prices b = true)
  ∧ (b < hi → ∃ h, b ≤ h ≤ hi ∧ converged b h = true ∧ prices h = false).
Proof.
  intros Hhi b. unfold b, feasible_bound. destruct (prices hi) eqn:Hp; [split_and!; auto; lia|].
  destruct (feasible_loop_spec prices BISECTION_FUEL 0 hi) as (? & Hl & h & ? & ? & Hh);
    [lia|lia|by apply U256_fuel|].
  split_and!; [lia|lia|done|]. intros _. exists h. split_and!; try lia; try done. by destruct Hh as [->|].
Qed.

Lemma fd_marginal_total quote step a : 0 < step → ∃ m, fd_marginal quote step a = Ok m ∧
  (is_ok (quote a) = false → m = ratio_zero).
Proof.
  intros Hs. unfold fd_marginal. destruct (quote a); [|eauto]. destruct (quote (saturating_add a step)); [|eauto].
  unfold Ratio_new. case_match; zbool; [lia|]. eexists. split; [done|]. done.
Qed.

Definition fd_clears_at (quote : U256 → curve_result U256) (step : U256) (limit : Ratio) (a : U256) : bool :=
  unwrap_or (fd_clears quote step limit a) false.

Lemma fd_clears_total quote step limit a :
  0 < step → fd_clears quote step limit a = Ok (fd_clears_at quote step limit a).
Proof.
  intros Hs. unfold fd_clears_at, fd_clears. destruct (is_ok (quote a)); [|done].
  destruct (fd_marginal_total quote step a Hs) as (m & -> & _). done.
Qed.

(** What a numerical price-bounded fill is: it prices, its last step clears the limit, and when it stops
    short a point within the bisection tolerance does not clear (or does not price at all). *)
Definition numerical_fill_ok (quote : U256 → curve_result U256) (amount : U256) (limit : Ratio)
    (q : LimitedQuote) : Prop :=
  let a := lq_amount_in q in
  let step := fill_step (feasible_bound amount (λ input, is_ok (quote input))) in
  0 ≤ a ≤ amount
  ∧ (lq_limited q = true ↔ a < amount)
  ∧ (0 < a → quote a = Ok (lq_amount_out q) ∧ fd_clears_at quote step limit a = true)
  ∧ (a < amount → ∃ h, a ≤ h ≤ amount ∧ converged a h = true ∧ fd_clears_at quote step limit h = false).

Lemma is_ok_false {A} (r : curve_result A) : is_ok r = false → ∃ e, r = Err e.
Proof. destruct r; [done|eauto]. Qed.

Lemma fd_clears_at_unpriced quote step limit a :
  is_ok (quote a) = false → fd_clears_at quote step limit a = false.
Proof. intros H. unfold fd_clears_at, fd_clears. by rewrite H. Qed.

Lemma fd_clears_at_marginal quote step limit a m :
  fd_marginal quote step a = Ok m → is_ok (quote a) = true → fd_clears_at quote step limit a = ratio_le limit m.
Proof. intros Hm H. unfold fd_clears_at, fd_clears. rewrite H, Hm. done. Qed.

Lemma converged_refl a : 0 ≤ a ≤ U256_MAX → converged a a = true.
Proof. intros Ha. unfold converged. rewrite wrapping_sub_exact by lia. by rewrite Z.sub_diag. Qed.

(** The bisection's arm: the limit lies between the marginals at zero and at the bound. *)
Lemma bisected_fill quote step bound limit :
  0 < step → 0 ≤ bound ≤ U256_MAX →
  fd_clears_at quote step limit 0 = true → fd_clears_at quote step limit bound = false →
  ∃ lo out h, bisect (fd_clears quote step limit) BISECTION_FUEL 0 bound = Ok lo ∧ quote lo = Ok out
    ∧ 0 ≤ lo ≤ h ∧ h ≤ bound ∧ converged lo h = true
    ∧ fd_clears_at quote step limit lo = true ∧ fd_clears_at quote step limit h = false.
Proof.
  intros Hs Hb H0 Hbound.
  destruct (bisect_spec (fd_clears_at quote step limit) (fd_clears quote step limit) BISECTION_FUEL 0 bound)
    as (lo & h & Hlo & ? & ? & ? & Hl & Hh); [by intros; apply fd_clears_total|lia|lia|by apply U256_fuel|].
  assert (Hcl : fd_clears_at quote step limit lo = true) by (by destruct Hl as [->|]).
  destruct (quote lo) as [out|e] eqn:Hq; [|by rewrite fd_clears_at_unpriced in Hcl; rewrite ?Hq].
  exists lo, out, h. split_and!; try lia; try done. by destruct Hh as [->|].
Qed.

Lemma fill_to_limit_spec quote amount limit :
  0 ≤ amount ≤ U256_MAX → (0 <= limit)%Q →
  ∃ q, fill_to_limit_numerical quote amount limit = Ok q ∧ numerical_fill_ok quote amount limit q.
Proof.
  intros Ha Hl. unfold fill_to_limit_numerical, numerical_fill_ok. set (prices := λ input, is_ok (quote input)).
  destruct (feasible_bound_spec amount prices Ha) as (Hb & Hpr & Hlt).
  set (bound := feasible_bound amount prices) in *. clearbody bound.
  assert (Hlt' : bound < amount → ∃ h, bound ≤ h ≤ amount ∧ converged bound h = true
    ∧ fd_clears_at quote (fill_step bound) limit h = false).
  { intros (h & ? & ? & Hh)%Hlt. exists h. split_and!; try lia; try done. by apply fd_clears_at_unpriced. }
  assert (Hs : 0 < fill_step bound) by (unfold fill_step; lia).
  destruct (amount =? 0) eqn:E0; zbool.
  { eexists. split; [done|]. cbn. split_and!; lia || done. }
  destruct (bound =? 0) eqn:E1; zbool.
  { subst. eexists. split; [done|]. cbn. split_and!; try (lia || done). }
  destruct Hpr as [|Hpr]; [done|].
  destruct (fd_marginal_total quote (fill_step bound) bound Hs) as (mb & Hmb & _). rewrite Hmb. cbn.
  pose proof (fd_clears_at_marginal _ _ limit _ _ Hmb Hpr) as Hcb.
  destruct (ratio_le limit mb) eqn:Elim.
  { unfold prices in Hpr. apply is_ok_true in Hpr as [out Hout]. rewrite Hout. cbn.
    eexists. split; [done|]. cbn. rewrite Z.ltb_lt. split_and!; lia || done. }
  destruct (fd_marginal_total quote (fill_step bound) 0 Hs) as (m0 & Hm0 & Hz). rewrite Hm0. cbn.
  destruct (ratio_lt m0 limit) eqn:Elt.
  { eexists. split; [done|]. cbn. split_and!; try (lia || done). intros _. exists 0.
    split_and!; try lia; [apply converged_refl; u256|]. destruct (is_ok (quote 0)) eqn:Hq0; [|by apply fd_clears_at_unpriced].
    rewrite (fd_clears_at_marginal _ _ _ _ m0) by done. by apply ratio_le_false, ratio_lt_true. }
  assert (Hq0 : is_ok (quote 0) = true).
  { destruct (is_ok (quote 0)) eqn:Hq0; [done|]. rewrite (Hz eq_refl) in Elt. apply ratio_lt_false in Elt.
    apply ratio_le_false in Elim. exfalso. apply (Qlt_irrefl limit). eapply Qle_lt_trans; [exact Elt|].
    eapply Qle_lt_trans; [|exact Elim]. unfold fd_marginal in Hmb. apply is_ok_true in Hpr as [out Hout].
    rewrite Hout in Hmb. destruct (quote (saturating_add bound (fill_step bound))); [|by injection Hmb as <-].
    apply ok_or_Ok, Ratio_new_Some in Hmb; [|done]. rewrite Hmb. apply Qle_shift_div_l; [by rewrite <-(Zlt_Qlt 0)|].
    rewrite Qmult_0_l. rewrite <-(Zle_Qle 0). u256. }
  destruct (bisected_fill quote (fill_step bound) bound limit) as (lo & out & h & -> & Hout & ? & ? & ? & Hcl & Hch);
    [done|lia| |done|].
  { rewrite (fd_clears_at_marginal _ _ _ _ m0) by done. by apply ratio_le_true, ratio_lt_false. }
  cbn. rewrite Hout. eexists. split; [done|]. cbn. rewrite Z.ltb_lt. split_and!; try (lia || done).
  intros _. exists h. split_and!; lia || done.
Qed.

(** ** Reserves *)

Lemma pegged_in_within p n x y :
  normalized p = Ok n → 0 < rate_out p → 0 ≤ y0_init p →
  pegged_quote_exact_in p x = Ok y → y * rate_out p ≤ n_y0 n.
Proof.
  intros Hn Hr Hy H. unfold pegged_quote_exact_in in H. rewrite Hn in H. simplify_res.
  apply checked_sub_Some in E6 as [-> Hle]. apply fdiv_Ok in H as [_ ->].
  match goal with |- (?t / _) * _ ≤ _ => pose proof (Z.mul_div_le t (rate_out p) Hr) end.
  assert (0 ≤ x7); [|lia]. apply cmul_Ok in E4 as [-> _]. apply (ceil_div_nonneg (x5 * y0_init p) one27); [|done|exact E5].
  apply Z.mul_nonneg_nonneg; [|done]. revert E3. clear. unfold pegged_solve. intros H. simplify_res.
  case_hyp H; apply fdiv_Ok in H as [_ ->]; (apply Z.div_pos; [|done]);
    match goal with E : cmul ?a ?a = Ok _ |- _ => apply cmul_Ok in E as [-> _] end; nia.
Qed.

(** ** Properties *)

(** A constant-product quote gives the maker exactly the rounding: selling [x] pays the largest [y]
    that does not lower the product of the reserves, always less than the reserve, and the quote fails
    only when a reserve is empty or the arithmetic leaves 256 bits. *)
Theorem xyc_exact_in_is_maximal p x :
  pool_ok p → 0 ≤ x →
  match xyc_quote_exact_in p x with
  | Ok y => 0 ≤ y < balance_out p
      ∧ ∀ z, z ≤ y ↔ balance_in p * balance_out p ≤ (balance_in p + x) * (balance_out p - z)
  | Err e => e = Overflow ∧ (U256_MAX < x * balance_out p ∨ U256_MAX < balance_in p + x)
  end.
Proof.
  intros Hp Hx. pose proof Hp as [Hi Ho]. destruct (xyc_quote_exact_in p x) as [y|e] eqn:Hq.
  - apply xyc_quote_exact_in_Ok in Hq as (-> & _); [|done..]. split.
    + split; [apply Z.div_pos; nia|]. apply Z.div_lt_upper_bound; nia.
    + intros z. rewrite div_le_iff by lia. nia.
  - unfold xyc_quote_exact_in in Hq. rewrite xyc_is_empty_false in Hq by done.
    unfold cmul, cadd, checked_mul, checked_add, fdiv in Hq.
    destruct (x * balance_out p <=? U256_MAX) eqn:E1, (balance_in p + x <=? U256_MAX) eqn:E2; cbn in Hq; zbool;
      try (injection Hq as <-; split; [done|lia]).
    destruct (balance_in p + x =? 0) eqn:E3; zbool; [lia|done].
Qed.

Lemma xyc_exact_in_is_maximal_witness :
  xyc_quote_exact_in (mk_xyc 1000 1000) 100 = Ok 90
  ∧ (1000 * 1000 ≤ (1000 + 100) * (1000 - 90)) ∧ ¬ (1000 * 1000 ≤ (1000 + 100) * (1000 - 91)).
Proof.
  pose proof (xyc_exact_in_is_maximal (mk_xyc 1000 1000) 100 ltac:(split; done) ltac:(done)) as H.
  split; [done|]. change (xyc_quote_exact_in (mk_xyc 1000 1000) 100) with (Ok 90 : curve_result U256) in H.
  cbn in H. destruct H as [_ H]. rewrite <-!H. lia.
Defined.

(** C29: exact-out is the exact inverse of exact-in: the input it asks for is the least one whose
    exact-in quote delivers the requested output, and an output at or above the reserve is refused. *)
Theorem xyc_exact_out_inverts p y :
  pool_ok p → 0 ≤ y →
  match xyc_quote_exact_out p y with
  | Ok x => 0 ≤ x ∧ y < balance_out p
      ∧ ∀ x' y', 0 ≤ x' → xyc_quote_exact_in p x' = Ok y' → (y ≤ y' ↔ x ≤ x')
  | Err AmountTooLarge => balance_out p ≤ y
  | Err e => e = Overflow ∧ U256_MAX < y * balance_in p
  end.
Proof.
  intros Hp Hy. pose proof Hp as [Hi Ho]. destruct (xyc_quote_exact_out p y) as [x|e] eqn:Hq.
  - apply xyc_quote_exact_out_Ok in Hq as [Hlt Hc]; [|done]. split_and!; [|done|].
    + eapply ceil_div_nonneg; [|..|exact Hc]; nia.
    + intros x' y' Hx' Hq. apply xyc_quote_exact_in_Ok in Hq as (-> & _); [|done..].
      rewrite div_le_iff by lia. rewrite (ceil_div_le_iff (y * balance_in p) (balance_out p - y) x x' ltac:(nia) ltac:(lia) Hc). nia.
  - unfold xyc_quote_exact_out in Hq. rewrite xyc_is_empty_false in Hq by done.
    unfold checked_sub_nonzero, checked_sub, cmul, checked_mul in Hq.
    destruct (y <=? balance_out p) eqn:E1; zbool; cbn in Hq; [|injection Hq as <-; lia].
    destruct (balance_out p - y =? 0) eqn:E2; zbool; cbn in Hq; [injection Hq as <-; lia|].
    destruct (y * balance_in p <=? U256_MAX) eqn:E3; zbool; cbn in Hq; [|injection Hq as <-; split; [done|lia]].
    destruct (ceil_div_total (y * balance_in p) (balance_out p - y)) as [c Hc]; [lia|]. congruence.
Qed.

Lemma xyc_exact_out_inverts_witness :
  xyc_quote_exact_out (mk_xyc 1000 1000) 90 = Ok 99
  ∧ ∀ x' y', 0 ≤ x' → xyc_quote_exact_in (mk_xyc 1000 1000) x' = Ok y' → (90 ≤ y' ↔ 99 ≤ x').
Proof.
  pose proof (xyc_exact_out_inverts (mk_xyc 1000 1000) 90 ltac:(split; done) ltac:(done)) as H.
  split; [done|]. change (xyc_quote_exact_out (mk_xyc 1000 1000) 90) with (Ok 99 : curve_result U256) in H.
  cbv beta iota in H. apply H.
Defined.

(** stacked flat fees invert: the gross input an exact-out quote charges is the least input that
    still leaves the curve its net amount after every fee is taken off in program order. *)
Theorem gross_up_inverts_shrink fees gross net amount charged :
  Forall (λ f, 0 ≤ f ≤ bps_denominator) fees → 0 ≤ gross → 0 ≤ amount →
  shrink_by_fees gross fees = Ok net → gross_up_by_fees amount fees = Ok charged →
  (amount ≤ net ↔ charged ≤ gross).
Proof. intros Hf Hg Ha Hs Hu. by destruct (stacked_fees_adjoint fees gross amount net charged). Qed.

Lemma gross_up_inverts_shrink_witness :
  gross_up_by_fees 1000000 [3000000; 500000] = Ok 1003512
  ∧ shrink_by_fees 1003512 [3000000; 500000] = Ok 1000000
  ∧ (1000000 ≤ 1000000 ↔ 1003512 ≤ 1003512).
Proof.
  split; [done|]. split; [done|].
  apply (gross_up_inverts_shrink [3000000; 500000]); try done.
  repeat (apply Forall_cons_2; [by split; vm_compute|]). apply Forall_nil_2.
Defined.

(** The closed-form fill stops exactly at the price limit: the amount it takes is quoted by the
    curve, its marginal price is still at or above the limit, and one more unit would fall below it (unless the whole
    request was filled). *)
Theorem xyc_limit_fill_is_exact p amount limit q :
  pool_ok p → balance_in p ≤ U256_MAX → 0 ≤ amount → (0 <= limit)%Q →
  xyc_quote_with_limit p amount limit = Ok q → limit_fill_ok p amount limit q.
Proof. apply xyc_limit_spec. Qed.

Lemma xyc_limit_fill_is_exact_witness :
  xyc_quote_with_limit (mk_xyc 1000 1000) 5000 (1 # 4) = Ok (mk_limited 1000 500 true)
  ∧ limit_fill_ok (mk_xyc 1000 1000) 5000 (1 # 4) (mk_limited 1000 500 true).
Proof.
  split; [by vm_compute|]. by apply xyc_limit_fill_is_exact; vm_compute.
Defined.

(** C30: the numerical fill terminates with a quote for every curve and every limit: its 256 rounds always
    close the bracket, the input it takes is one the curve prices and whose last step clears the limit, and when it stops
    short a point within the tolerance (one unit, or one part in a trillion) fails to clear. *)
Theorem numerical_fill_is_total quote amount limit :
  0 ≤ amount ≤ U256_MAX → (0 <= limit)%Q →
  ∃ q, fill_to_limit_numerical quote amount limit = Ok q ∧ numerical_fill_ok quote amount limit q.
Proof. apply fill_to_limit_spec. Qed.

(** A stable pool at its peg. *)
Definition demo_pegged : CurvePool :=
  from_curve (Pegged (mk_pegged (10 ^ 12) (10 ^ 12) (100 * one27) 1 1)) 1 2 (10 ^ 12) (10 ^ 12).

Lemma numerical_fill_is_total_witness :
  ∃ q, quote_with_limit demo_pegged (2 * 10 ^ 12) (9 # 10) = Ok q ∧ lq_amount_in q = 1003521094420.
Proof.
  destruct (numerical_fill_is_total (quote_exact_in demo_pegged) (2 * 10 ^ 12) (9 # 10)) as (q & Hq & Hok).
  - split; by vm_compute.
  - by vm_compute.
  - exists q. split; [exact Hq|]. vm_compute in Hq. injection Hq as <-. by vm_compute.
Defined.

(** C31: no constant-product or pegged quote, in either mode, promises more output than the maker's
    committed reserve. *)
Theorem quotes_stay_within_reserves curve token_in token_out bal_in bal_out :
  curve_in_domain curve → (∀ lo hi, curve ≠ Concentrate lo hi) → 0 ≤ bal_in → 0 ≤ bal_out →
  let pool := from_curve curve token_in token_out bal_in bal_out in
  (∀ x y, 0 ≤ x → quote_exact_in pool x = Ok y → y ≤ bal_out)
  ∧ (∀ y x, 0 ≤ y → quote_exact_out pool y = Ok x → y ≤ bal_out).
Proof.
  intros Hd Hc Hi Ho. destruct curve as [|lo hi|params]; [|by destruct (Hc lo hi)|]; cbn.
  - assert (Hp : ∀ r : curve_result U256, ∀ z, (if xyc_is_empty (mk_xyc bal_in bal_out) then Err EmptyReserves else r) = Ok z →
      pool_ok (mk_xyc bal_in bal_out)).
    { intros r z. unfold xyc_is_empty. cbn. case_match eqn:E; [done|]. zbool. split; cbn; lia. }
    split; intros a b Ha Hq.
    + pose proof (Hp _ _ Hq) as Hok. apply xyc_quote_exact_in_Ok in Hq as (-> & _); [|done..]. cbn in *.
      apply Z.div_le_upper_bound; destruct Hok; cbn in *; nia.
    + pose proof (Hp _ _ Hq) as Hok. apply xyc_quote_exact_out_Ok in Hq as [? _]; [cbn in *; lia|done].
  - destruct Hd as (Hx0 & Hy0 & Hlt & Hgt & _).
    set (pool := from_reserves_and_params token_in token_out bal_in bal_out params).
    assert (Hr : 0 < rate_out pool ∧ 0 ≤ y0_init pool).
    { unfold pool, from_reserves_and_params. destruct (token_in <? token_out); cbn; lia. }
    assert (Hn : ∀ n, normalized pool = Ok n → n_y0 n = bal_out * rate_out pool).
    { intros n. unfold pool, from_reserves_and_params. destruct (token_in <? token_out); cbn; intros H;
        case_hyp H; apply cmul_Ok in E1 as [-> _]; done. }
    destruct Hr as [Hr Hy]. split; intros a b Ha Hq.
    + destruct (normalized pool) as [n|] eqn:En.
      * pose proof (pegged_in_within pool n a b En Hr Hy Hq). rewrite (Hn n eq_refl) in *. nia.
      * unfold pegged_quote_exact_in in Hq. rewrite En in Hq. done.
    + unfold pegged_quote_exact_out in Hq. destruct (normalized pool) as [n|] eqn:En; [|done].
      cbn [mbind result_bind] in Hq. simplify_res. apply cmul_Ok in E as [-> _]. apply checked_sub_Some in E0 as [-> ?].
      rewrite (Hn n eq_refl) in *. nia.
Qed.

Lemma quotes_stay_within_reserves_witness :
  quote_exact_in demo_pegged (10 ^ 11) = Ok 99975052943 ∧ 99975052943 ≤ 10 ^ 12.
Proof.
  assert (Hq : quote_exact_in demo_pegged (10 ^ 11) = Ok 99975052943) by (by vm_compute).
  split; [exact Hq|].
  assert (Hd : curve_in_domain (Pegged (mk_pegged (10 ^ 12) (10 ^ 12) (100 * one27) 1 1)))
    by (repeat split; vm_compute; discriminate || reflexivity).
  pose proof (quotes_stay_within_reserves _ 1 2 (10 ^ 12) (10 ^ 12) Hd
    ltac:(discriminate) ltac:(discriminate) ltac:(discriminate)) as [Hin _].
  exact (Hin (10 ^ 11) 99975052943 ltac:(discriminate) Hq).
Defined.
