(* ===== verification/Registry.v ===== *)
(** * The liquidity registry

    [crates/core/src/primitives/registry/] ([event.rs], [strategy.rs],
    [snapshot.rs]) and [crates/core/src/registry/pricing.rs]: maker strategies folded
    from the Aqua event stream, indexed by key and by token pair, and their off-chain
    price.  The ABI decoder of the shipped order is a parameter. *)

From S2P Require Import Prelude U256 Reservation Ratio CurveDecode Curves CurveProperties.

(** ** Events *)

Record StrategyKey := mk_strategy_key {
  key_maker : MakerId;
  key_app : Address;
  key_hash : StrategyHash
}.

#[global] Instance StrategyKey_eq_dec : EqDecision StrategyKey.
Proof. solve_decision. Defined.
#[global] Instance StrategyKey_countable : Countable StrategyKey.
Proof.
  apply (inj_countable' (λ k, (key_maker k, key_app k, key_hash k)) (λ '(m, a, h), mk_strategy_key m a h)).
  by intros [].
Defined.
#[global] Program Instance StrategyKey_ord : OrdKey StrategyKey :=
  {| ord_key k := [key_maker k; key_app k; key_hash k] |}.
Next Obligation. destruct a, b. cbn in *. congruence. Qed.

Inductive AquaEvent : Type :=
| Shipped (maker : MakerId) (app : Address) (hash : StrategyHash) (strategy : list Z)
| Pushed (maker : MakerId) (app : Address) (hash : StrategyHash) (token : Address) (amount : U256)
| Pulled (maker : MakerId) (app : Address) (hash : StrategyHash) (token : Address) (amount : U256)
| Docked (maker : MakerId) (app : Address) (hash : StrategyHash).

Definition event_key (e : AquaEvent) : StrategyKey :=
  match e with
  | Shipped m a h _ | Pushed m a h _ _ | Pulled m a h _ _ | Docked m a h => mk_strategy_key m a h
  end.

(** ** Strategies *)

Record TokenPair := mk_pair { lo : Address; hi : Address }.

#[global] Instance TokenPair_eq_dec : EqDecision TokenPair.
Proof. solve_decision. Defined.
#[global] Instance TokenPair_countable : Countable TokenPair.
Proof. apply (inj_countable' (λ p, (lo p, hi p)) (λ '(a, b), mk_pair a b)). by intros []. Defined.
#[global] Program Instance TokenPair_ord : OrdKey TokenPair := {| ord_key p := [lo p; hi p] |}.
Next Obligation. destruct a, b. cbn in *. congruence. Qed.

Definition TokenPair_new (a b : Address) : TokenPair := mk_pair (Z.min a b) (Z.max a b).

Record MakerStrategy := mk_strategy {
  strat_key : StrategyKey;
  strat_curve : CurveSpec;
  balances : gmap Address U256;
  active : bool;
  program : list Z
}.

Definition balance (s : MakerStrategy) (token : Address) : U256 := default 0 (balances s !! token).

Definition pair (s : MakerStrategy) : option TokenPair :=
  match keys (balances s) with
  | [a; b] => Some (TokenPair_new a b)
  | _ => None
  end.

Definition set_balances (s : MakerStrategy) (b : gmap Address U256) : MakerStrategy :=
  mk_strategy (strat_key s) (strat_curve s) b (active s) (program s).
Definition deactivate (s : MakerStrategy) : MakerStrategy :=
  mk_strategy (strat_key s) (strat_curve s) (balances s) false (program s).

(** ** The snapshot *)

Record Snapshot := mk_snapshot {
  strategies : gmap StrategyKey MakerStrategy;
  by_pair : gmap TokenPair (gset StrategyKey)
}.

Definition snapshot_default : Snapshot := mk_snapshot ∅ ∅.

(** Taking a key out of its old bucket, pruning the bucket once empty. *)
Definition unindex (index : gmap TokenPair (gset StrategyKey)) (key : StrategyKey) (old : option TokenPair) :
    gmap TokenPair (gset StrategyKey) :=
  match old with
  | None => index
  | Some p =>
      match index !! p with
      | None => index
      | Some set =>
          let set' := set ∖ {[key]} in
          if decide (set' = ∅) then delete p index else <[p := set']> index
      end
  end.

Definition reindex (index : gmap TokenPair (gset StrategyKey)) (key : StrategyKey)
    (old new : option TokenPair) : gmap TokenPair (gset StrategyKey) :=
  if decide (old = new) then index
  else
    let index' := unindex index key old in
    match new with
    | None => index'
    | Some p => entry_update ∅ (λ set, set ∪ {[key]}) index' p
    end.

Section snapshot.
Context (abi_decode : list Z → option Order).

Definition MakerStrategy_new (key : StrategyKey) (strategy : list Z) : MakerStrategy :=
  mk_strategy key (decode_strategy abi_decode strategy) ∅ true strategy.

Definition apply (s : Snapshot) (e : AquaEvent) : Snapshot :=
  let key := event_key e in
  match e with
  | Shipped _ _ _ strategy =>
      match strategies s !! key with
      | Some _ => s
      | None => mk_snapshot (<[key := MakerStrategy_new key strategy]> (strategies s)) (by_pair s)
      end
  | Pushed _ _ _ token amount =>
      match strategies s !! key with
      | Some m =>
          if active m then
            let m' := set_balances m (entry_update 0 (λ b, saturating_add b amount) (balances m) token) in
            mk_snapshot (<[key := m']> (strategies s)) (reindex (by_pair s) key (pair m) (pair m'))
          else s
      | None => s
      end
  | Pulled _ _ _ token amount =>
      match strategies s !! key with
      | Some m =>
          if active m then
            match balances m !! token with
            | Some b => mk_snapshot
                (<[key := set_balances m (<[token := saturating_sub b amount]> (balances m))]> (strategies s))
                (by_pair s)
            | None => s
            end
          else s
      | None => s
      end
  | Docked _ _ _ =>
      match strategies s !! key with
      | Some m => mk_snapshot (<[key := deactivate m]> (strategies s))
                    (reindex (by_pair s) key (pair m) None)
      | None => s
      end
  end.

Definition fold_events (s : Snapshot) (es : list AquaEvent) : Snapshot := foldl apply s es.

End snapshot.

Definition active_strategies (s : Snapshot) : list MakerStrategy :=
  filter (λ m, active m = true) (values (strategies s)).

Definition strategies_for_maker (s : Snapshot) (maker : MakerId) : list MakerStrategy :=
  filter (λ m, key_maker (strat_key m) = maker) (active_strategies s).

Definition strategy_by_hash (s : Snapshot) (hash : StrategyHash) : option MakerStrategy :=
  (list_find (λ m, key_hash (strat_key m) = hash) (values (strategies s))) ≫= λ p, Some p.2.

Definition active_strategies_for_pair (s : Snapshot) (p : TokenPair) : list MakerStrategy :=
  omap (λ key, m ← strategies s !! key; if active m then Some m else None)
    (set_iter (default ∅ (by_pair s !! p))).

(** ** Aggregates *)

Record ActiveAsset := mk_active_asset { strategy_count : nat; asset_pairs : gset TokenPair }.

Definition active_assets (s : Snapshot) : gmap Address ActiveAsset :=
  foldl (λ acc '(token, p),
      entry_update (mk_active_asset 0 ∅)
        (λ asset, mk_active_asset (strategy_count asset + 1) (asset_pairs asset ∪ {[p]})) acc token)
    ∅ (omap pair (active_strategies s) ≫= λ p, [(lo p, p); (hi p, p)]).

Inductive CurveKind : Type := XycKind | ConcentratedKind | PeggedKind.

#[global] Instance CurveKind_eq_dec : EqDecision CurveKind.
Proof. solve_decision. Defined.

Record StrategyCount := mk_count { xyc : nat; concentrated : nat; pegged : nat }.

Definition StrategyCount_default : StrategyCount := mk_count 0 0 0.

Definition count_add (c : StrategyCount) (curve : Curve) : StrategyCount :=
  match curve with
  | Xyc => mk_count (xyc c + 1) (concentrated c) (pegged c)
  | Concentrate _ _ => mk_count (xyc c) (concentrated c + 1) (pegged c)
  | Pegged _ => mk_count (xyc c) (concentrated c) (pegged c + 1)
  end.

Definition dominant (c : StrategyCount) : option CurveKind :=
  fst <$> max_by_key (λ p, Z.of_nat p.2)
    (filter (λ p, (0 < p.2)%nat) [(XycKind, xyc c); (ConcentratedKind, concentrated c); (PeggedKind, pegged c)]).

(** One real basis point is [1e5] SwapVM units; the quotient is truncated to 32 bits. *)
Definition fee_in_bps (fees : list Z) : Z := (zsum id fees / 100000) mod 2 ^ 32.

Record PoolStats := mk_pool_stats {
  maker_count : nat;
  min_fee_bps : Z;
  max_fee_bps : Z;
  popular_fee_bps : Z;
  curve_mix : StrategyCount
}.

(** The priceable active strategies, each with its pair, curve and total fee. *)
Definition pool_entry (m : MakerStrategy) : option (TokenPair * (Curve * Z)) :=
  match strat_curve m with
  | Priceable curve fees => p ← pair m; Some (p, (curve, fee_in_bps fees))
  | Unsupported => None
  end.

Definition pool_entries (s : Snapshot) : list (TokenPair * (Curve * Z)) := omap pool_entry (active_strategies s).

(** [into_grouping_map().fold(..)] over the mix and the fee histogram. *)
Definition pool_groups (es : list (TokenPair * (Curve * Z))) : gmap TokenPair (StrategyCount * gmap Z nat) :=
  foldl (λ acc '(p, (curve, fee)),
      entry_update (StrategyCount_default, ∅)
        (λ '(mix, fees), (count_add mix curve, entry_update 0%nat (λ n, (n + 1)%nat) fees fee)) acc p)
    ∅ es.

Definition pool_stats_of (g : StrategyCount * gmap Z nat) : PoolStats :=
  let fees := g.2 in
  mk_pool_stats (sum_list (values fees)) (default 0 (head (keys fees))) (default 0 (last (keys fees)))
    (default 0 (fst <$> max_by_key (λ p, Z.of_nat p.2) (entries fees))) g.1.

Definition pool_stats (s : Snapshot) : gmap TokenPair PoolStats := pool_stats_of <$> pool_groups (pool_entries s).

(** ** Pricing a strategy *)

Inductive PriceError : Type := PriceUnsupported | PriceCurve (e : CurveError).

Definition price (s : MakerStrategy) (token_in token_out : Address) (amount : U256) (exact_in : bool) :
    result PriceError U256 :=
  match strat_curve s with
  | Unsupported => Err PriceUnsupported
  | Priceable curve fees =>
      let pool := from_curve curve token_in token_out (balance s token_in) (balance s token_out) in
      map_err PriceCurve
        (if exact_in then net ← shrink_by_fees amount fees; quote_exact_in pool net
         else curve_in ← quote_exact_out pool amount; gross_up_by_fees curve_in fees)
  end.

(** ** The accounts the budget poller reads: [ledger/service.rs] [active_accounts] *)

Definition push_token (m : MakerStrategy) (acc : gset AccountKey * list AccountKey) (token : Address) :
    gset AccountKey * list AccountKey :=
  let '(walleted, accounts) := acc in
  let wallet := WalletBudget (key_maker (strat_key m)) token in
  let virtual_account := StrategyVirtual (key_maker (strat_key m)) (key_hash (strat_key m)) token in
  if decide (wallet ∈ walleted) then (walleted, accounts ++ [virtual_account])
  else (walleted ∪ {[wallet]}, accounts ++ [wallet; virtual_account]).

Definition push_strategy (acc : gset AccountKey * list AccountKey) (m : MakerStrategy) :
    gset AccountKey * list AccountKey :=
  match pair m with
  | None => acc
  | Some p => foldl (push_token m) acc [lo p; hi p]
  end.

Definition active_accounts (s : Snapshot) : list AccountKey :=
  (foldl push_strategy (∅, []) (active_strategies s)).2.

(** * Correctness of the registry

    The pair index is exact after any event sequence, a strategy is a function of its own
    events, tombstones are final, and a re-scan folds every event exactly once. *)

(** ** The invariant *)

Abbreviation bucket := (cell (∅ : gset StrategyKey)).

Record snapshot_ok (s : Snapshot) : Prop := {
  sn_key : ∀ k m, strategies s !! k = Some m → strat_key m = k;
  sn_balances : ∀ k m t b, strategies s !! k = Some m → balances m !! t = Some b → is_u256 b;
  sn_index : ∀ p k, k ∈ bucket (by_pair s) p ↔
    ∃ m, strategies s !! k = Some m ∧ active m = true ∧ pair m = Some p;
  sn_pruned : ∀ p, by_pair s !! p ≠ Some ∅
}.

(** The pair a strategy is indexed under. *)
Definition indexed (m : MakerStrategy) : option TokenPair := if active m then pair m else None.

(** ** The index *)

Lemma unindex_bucket i k old p x :
  x ∈ bucket (unindex i k old) p ↔ x ∈ bucket i p ∧ ¬ (x = k ∧ old = Some p).
Proof.
  unfold unindex. destruct old as [q|]; [|naive_solver]. destruct (i !! q) as [set|] eqn:Hq.
  - destruct (decide (q = p)) as [->|Hne].
    + unfold cell. rewrite Hq. cbn. case_decide as He.
      * rewrite lookup_delete_eq. cbn. set_solver.
      * rewrite lookup_insert_eq. cbn. set_solver.
    + assert (Hsame : x ∈ bucket i p ↔ x ∈ bucket i p ∧ ¬ (x = k ∧ Some q = Some p)) by naive_solver.
      rewrite <-Hsame. unfold cell. case_decide; by rewrite ?lookup_delete_ne, ?lookup_insert_ne.
  - split; [|naive_solver]. intros Hx. split; [done|]. intros [-> [= ->]]. unfold cell in Hx. rewrite Hq in Hx.
    set_solver.
Qed.

Lemma unindex_pruned i k old : (∀ p, i !! p ≠ Some ∅) → ∀ p, unindex i k old !! p ≠ Some ∅.
Proof.
  intros Hi p. unfold unindex. destruct old as [q|]; [|done]. destruct (i !! q) as [set|]; [|done].
  case_decide.
  - intros H0%lookup_delete_Some. naive_solver.
  - intros [[-> H0]|[_ H0]]%lookup_insert_Some; [done|by apply (Hi p)].
Qed.

Lemma reindex_bucket i k old new p x :
  (k ∈ bucket i p → old = Some p) → (old = new → old = Some p → k ∈ bucket i p) →
  x ∈ bucket (reindex i k old new) p ↔ (x ∈ bucket i p ∧ x ≠ k) ∨ (x = k ∧ new = Some p).
Proof.
  intros Hold Hnew. unfold reindex. case_decide as Heq.
  { subst new. destruct (decide (x = k)) as [->|]; naive_solver. }
  destruct new as [q|].
  - rewrite cell_entry_update. case_decide as Hpq.
    + subst. rewrite elem_of_union, unindex_bucket, elem_of_singleton. naive_solver.
    + rewrite unindex_bucket. naive_solver.
  - rewrite unindex_bucket. naive_solver.
Qed.

Lemma reindex_pruned i k old new : (∀ p, i !! p ≠ Some ∅) → ∀ p, reindex i k old new !! p ≠ Some ∅.
Proof.
  intros Hi p. unfold reindex. case_decide; [done|]. destruct new as [q|]; [|by apply unindex_pruned].
  unfold entry_update. intros [[-> H0]|[_ H0]]%lookup_insert_Some; [set_solver|by apply unindex_pruned in H0].
Qed.

Lemma update_strategy_ok s k m m' :
  snapshot_ok s → strategies s !! k = Some m → strat_key m' = k →
  (∀ t b, balances m' !! t = Some b → is_u256 b) →
  (active m = true ∨ active m' = false) →
  snapshot_ok (mk_snapshot (<[k := m']> (strategies s)) (reindex (by_pair s) k (pair m) (indexed m'))).
Proof.
  intros [Hkey Hbal Hidx Hpr] Hm Hk Hb Hact. constructor; cbn.
  - intros k' m0 [[<- <-]|[_ ?]]%lookup_insert_Some; [done|by apply Hkey].
  - intros k' m0 t b [[<- <-]|[_ ?]]%lookup_insert_Some; [by apply Hb|by eapply Hbal].
  - intros p x. rewrite reindex_bucket.
    + rewrite Hidx. setoid_rewrite lookup_insert_Some. unfold indexed. split.
      * intros [[(m0 & ? & ? & ?) Hne]|[-> Hp]]; [naive_solver|].
        exists m'. destruct (active m'); naive_solver.
      * intros (m0 & [[<- <-]|[? ?]] & Ha & Hp); [right; by rewrite Ha|naive_solver].
    + rewrite Hidx. naive_solver.
    + intros Heq Hp. apply Hidx. exists m. split_and!; try done. destruct Hact as [|Hact]; [done|].
      unfold indexed in Heq. rewrite Hact in Heq. congruence.
  - by apply reindex_pruned.
Qed.

Lemma pair_dom m m' : dom (balances m') = dom (balances m) → pair m' = pair m.
Proof. intros Hd. unfold pair. by rewrite !keys_dom, Hd. Qed.

Lemma reindex_same i k old : reindex i k old old = i.
Proof. unfold reindex. by rewrite decide_True. Qed.

Definition event_ok (e : AquaEvent) : Prop :=
  match e with Pushed _ _ _ _ x | Pulled _ _ _ _ x => is_u256 x | _ => True end.

Section folds.
Context (abi_decode : list Z → option Order).
Abbreviation apply := (Registry.apply abi_decode).
Abbreviation fold_events := (Registry.fold_events abi_decode).

Lemma pair_new k strat : pair (MakerStrategy_new abi_decode k strat) = None.
Proof. unfold pair. rewrite keys_dom. cbn [balances MakerStrategy_new]. by rewrite dom_empty_L. Qed.

Lemma apply_ok s e : snapshot_ok s → event_ok e → snapshot_ok (apply s e).
Proof.
  intros Hs He. destruct e as [mk app h strat|mk app h t x|mk app h t x|mk app h]; cbn [Registry.apply event_key];
    set (k := mk_strategy_key mk app h).
  - destruct (strategies s !! k) as [m|] eqn:Hm; [done|]. destruct Hs as [Hkey Hbal Hidx Hpr]. constructor; cbn.
    + intros k' m0 [[<- <-]|[_ ?]]%lookup_insert_Some; [done|by apply Hkey].
    + intros k' m0 t b [[<- <-]|[_ ?]]%lookup_insert_Some; [by cbn|by eapply Hbal].
    + intros p k'. rewrite Hidx. setoid_rewrite lookup_insert_Some. split.
      2: { intros (m0 & [[<- <-]|[_ ?]] & ? & Hp); [by rewrite pair_new in Hp|by exists m0]. }
      intros (m0 & H0 & ? & ?). exists m0. split_and!; try done. right. split; [|done]. intros <-. congruence.
    + done.
  - destruct (strategies s !! k) as [m|] eqn:Hm; [|done]. destruct (active m) eqn:Ha; [|done].
    set (m' := set_balances m _).
    assert (Hi : pair m' = indexed m') by (unfold indexed, m'; cbn; by rewrite Ha). rewrite Hi.
    apply update_strategy_ok; auto; [apply (sn_key s Hs k m Hm)|].
    intros t' b. unfold m', entry_update. cbn. intros [[<- <-]|[_ ?]]%lookup_insert_Some; [|by eapply sn_balances].
    apply saturating_add_u256; [|done]. unfold cell. destruct (balances m !! t) eqn:Ht; cbn; [by eapply sn_balances|u256].
  - destruct (strategies s !! k) as [m|] eqn:Hm; [|done]. destruct (active m) eqn:Ha; [|done].
    destruct (balances m !! t) as [b|] eqn:Ht; [|done]. set (m' := set_balances m _).
    assert (Hi : pair m = indexed m').
    { unfold indexed, m'. cbn. rewrite Ha. symmetry. apply pair_dom. cbn. apply dom_insert_lookup_L. eauto. }
    rewrite <-(reindex_same (by_pair s) k (pair m)). rewrite Hi at 2. apply update_strategy_ok; auto; [apply (sn_key s Hs k m Hm)|].
    intros t' b'. unfold m'. cbn. intros [[<- <-]|[_ ?]]%lookup_insert_Some; [|by eapply sn_balances].
    apply saturating_sub_u256; [by eapply sn_balances|done].
  - destruct (strategies s !! k) as [m|] eqn:Hm; [|done].
    change (@None TokenPair) with (indexed (deactivate m)).
    apply update_strategy_ok; auto; [apply (sn_key s Hs k m Hm)|]. cbn. intros t b. by eapply sn_balances.
Qed.

Lemma default_snapshot_ok : snapshot_ok snapshot_default.
Proof.
  constructor; cbn; try (intros *; by rewrite lookup_empty). intros p k. unfold cell. rewrite lookup_empty. cbn.
  setoid_rewrite lookup_empty. set_solver.
Qed.

Lemma fold_ok es s : snapshot_ok s → Forall event_ok es → snapshot_ok (fold_events s es).
Proof.
  unfold Registry.fold_events. revert s. induction es as [|e es IH]; intros s Hs Hes; [done|].
  apply Forall_cons in Hes as [He Hes]. apply IH; [by apply apply_ok|done].
Qed.

(** ** Each strategy is a function of its own events *)

Lemma apply_other s e k : event_key e ≠ k → strategies (apply s e) !! k = strategies s !! k.
Proof.
  intros Hk. destruct e; cbn in *; repeat (case_match; cbn; try done); by rewrite lookup_insert_ne.
Qed.

Lemma apply_local s s' e k :
  strategies s !! k = strategies s' !! k → strategies (apply s e) !! k = strategies (apply s' e) !! k.
Proof.
  intros Hs. destruct (decide (event_key e = k)) as [Hk|Hk]; [|by rewrite !apply_other].
  destruct e; cbn in *; subst k; rewrite Hs; repeat (case_match; cbn; try done);
    by rewrite ?lookup_insert_eq, ?Hs.
Qed.

Lemma fold_local es s s' k :
  strategies s !! k = strategies s' !! k →
  strategies (fold_events s es) !! k = strategies (fold_events s' (filter (λ e, event_key e = k) es)) !! k.
Proof.
  unfold Registry.fold_events. revert s s'. induction es as [|e es IH]; intros s s' Hs; [done|].
  rewrite filter_cons. cbn [foldl]. case_decide as Hk; cbn [foldl]; apply IH; [by apply apply_local|].
  by rewrite apply_other.
Qed.

Lemma apply_docked s e k m :
  strategies s !! k = Some m → active m = false → strategies (apply s e) !! k = Some m.
Proof.
  intros Hm Ha. destruct (decide (event_key e = k)) as [Hk|Hk]; [|by rewrite apply_other].
  destruct e; cbn in *; subst k; rewrite Hm; rewrite ?Ha; try done. cbn. rewrite lookup_insert_eq. f_equal.
  destruct m. cbn in *. by subst.
Qed.

Lemma fold_docked es s k m :
  strategies s !! k = Some m → active m = false → strategies (fold_events s es) !! k = Some m.
Proof.
  unfold Registry.fold_events. revert s. induction es as [|e es IH]; intros s Hm Ha; [done|]. cbn.
  apply IH; [by apply apply_docked|done].
Qed.
End folds.

(** ** Pool aggregates *)

(** The curve and fee of each maker quoting [p]. *)
Definition group (p : TokenPair) (es : list (TokenPair * (Curve * Z))) : list (Curve * Z) :=
  (filter (λ e, e.1 = p) es).*2.

Lemma pool_groups_lookup es p :
  pool_groups es !! p =
  match group p es with
  | [] => None
  | g => Some (foldl count_add StrategyCount_default g.*1, histogram g.*2)
  end.
Proof.
  assert (Hcell : cell (StrategyCount_default, ∅) (pool_groups es) p
      = (foldl count_add StrategyCount_default (group p es).*1, histogram (group p es).*2)
    ∧ (is_Some (pool_groups es !! p) ↔ group p es ≠ [])).
  { unfold pool_groups, group. induction es as [|[q [c f]] es [IH IHs]] using rev_ind.
    { unfold cell. cbn. rewrite lookup_empty, is_Some_alt. done. }
    rewrite foldl_app, filter_app, filter_cons, filter_nil. cbn [foldl fst].
    rewrite cell_entry_update. case_decide as Hq; case_decide as Hq'; try (by subst).
    - subst q. rewrite IH, !fmap_app, foldl_app. unfold histogram. rewrite foldl_app. cbn. split; [done|].
      unfold entry_update. rewrite lookup_insert_eq, is_Some_alt. split; [|done]. intros _. by destruct (filter _ es).*2.
    - rewrite app_nil_r. split; [done|]. unfold entry_update. rewrite lookup_insert_ne by done. done. }
  destruct Hcell as [Hc Hs]. unfold cell in Hc. destruct (group p es) as [|x g] eqn:Hg.
  - destruct (pool_groups es !! p) eqn:E; [|done]. destruct Hs as [Hs _]. by destruct Hs; [eauto|].
  - destruct (pool_groups es !! p) eqn:E; [by cbn in Hc; rewrite Hc|].
    destruct Hs as [_ Hs]. by destruct Hs as [? ?].
Qed.

Definition mix_total (c : StrategyCount) : nat := (xyc c + concentrated c + pegged c)%nat.

Lemma mix_total_fold l c : mix_total (foldl count_add c l) = (mix_total c + length l)%nat.
Proof.
  revert c. induction l as [|x l IH]; intros c; cbn [foldl length]; [lia|]. rewrite IH.
  destruct x; unfold mix_total; cbn; lia.
Qed.

(** What the stats of a pool with makers [g] are. *)
Definition stats_ok (g : list (Curve * Z)) (st : PoolStats) : Prop :=
  maker_count st = length g
  ∧ mix_total (curve_mix st) = length g
  ∧ (min_fee_bps st ∈ g.*2 ∧ max_fee_bps st ∈ g.*2 ∧ popular_fee_bps st ∈ g.*2)
  ∧ (∀ f, f ∈ g.*2 → min_fee_bps st ≤ f ≤ max_fee_bps st)
  ∧ ∀ f, (cell 0 (histogram g.*2) f ≤ cell 0 (histogram g.*2) (popular_fee_bps st))%nat.

Lemma pool_stats_of_ok x g :
  stats_ok (x :: g) (pool_stats_of (foldl count_add StrategyCount_default (x :: g).*1, histogram (x :: g).*2)).
Proof.
  set (fees := (x :: g).*2). assert (Hdom := histogram_dom fees). set (h := histogram fees) in *.
  assert (Hne : is_Some (h !! x.2)) by (apply Hdom; left).
  unfold stats_ok, pool_stats_of. cbn [fst snd maker_count curve_mix min_fee_bps max_fee_bps popular_fee_bps].
  fold fees. split_and!.
  - apply Nat2Z.inj. rewrite sum_values. unfold h, fees. rewrite histogram_total, length_fmap. done.
  - rewrite mix_total_fold, length_fmap. done.
  - apply elem_of_keys in Hne as Hin. apply Hdom, elem_of_keys.
    destruct (keys h) as [|k l] eqn:E; [by apply elem_of_nil in Hin|]. left.
  - apply elem_of_keys in Hne as Hin. apply Hdom, elem_of_keys.
    destruct (last (keys h)) as [k|] eqn:E; [by apply last_Some_elem_of|].
    apply last_None in E. rewrite E in Hin. by apply elem_of_nil in Hin.
  - destruct (max_by_key _ (entries h)) as [[f n]|] eqn:E.
    + apply max_by_key_Some in E as (bf & af & He & _). cbn. apply Hdom. exists n. apply elem_of_entries.
      rewrite He. set_solver.
    + apply max_by_key_None in E. destruct Hne as [n Hn]. apply elem_of_entries in Hn. rewrite E in Hn.
      by apply elem_of_nil in Hn.
  - intros f Hf%Hdom. split.
    + destruct (keys h) as [|k l] eqn:E; [apply elem_of_keys in Hne; rewrite E in Hne; by apply elem_of_nil in Hne|].
      eapply head_keys_le; [|exact Hf]. by rewrite E.
    + destruct (last (keys h)) as [k|] eqn:E; [by eapply last_keys_le|].
      apply elem_of_keys in Hne. apply last_None in E. rewrite E in Hne. by apply elem_of_nil in Hne.
  - intros f. fold h. unfold cell at 1. destruct (h !! f) as [n|] eqn:Hn; cbn [default from_option]; [|apply Nat.le_0_l].
    destruct (max_by_key _ (entries h)) as [[f' n']|] eqn:E.
    + apply max_by_key_Some in E as (bf & af & He & H1 & H2).
      change (default 0 (fst <$> Some (f', n'))) with f'.
      assert (Hf' : h !! f' = Some n') by (apply elem_of_entries; rewrite He; set_solver).
      unfold cell. rewrite Hf'. cbn [default from_option]. apply elem_of_entries in Hn. rewrite He in Hn.
      apply elem_of_app in Hn as [Hn|[Hn|Hn]%elem_of_cons]; [apply H1 in Hn|injection Hn|apply H2 in Hn]; cbn in *; lia.
    + apply max_by_key_None in E. apply elem_of_entries in Hn. rewrite E in Hn. by apply elem_of_nil in Hn.
Qed.

(** ** Pricing *)

Lemma mul_div_nonneg a b d c : 0 ≤ a → 0 ≤ b → 0 ≤ d → mul_div a b d = Ok c → 0 ≤ c.
Proof.
  intros Ha Hb Hd. unfold mul_div. destruct (d =? 0) eqn:E; zbool; [done|].
  destruct (U256_MAX <? a * b / d); [done|]. intros [= <-]. apply Z.div_pos; nia.
Qed.

Lemma concentrate_liquidity_nonneg lt gt pmin pmax l :
  0 ≤ lt → 0 ≤ gt → 0 ≤ pmin → 0 ≤ pmax → concentrate_liquidity lt gt pmin pmax = Ok l → 0 ≤ l.
Proof.
  intros Hlt Hgt Hmin Hmax. unfold concentrate_liquidity.
  intros (ratio & _ & (alpha & Halpha & H)%bind_Ok)%bind_Ok. apply ok_or_Ok, checked_sub_Some in Halpha as [-> Hle].
  destruct (one18 - ratio =? 0) eqn:Ea; [done|].
  apply bind_Ok in H as (x & Hx & (y & Hy & (beta & Hb & H)%bind_Ok)%bind_Ok).
  assert (Hone : 0 ≤ one18) by done.
  apply mul_div_nonneg in Hx; [|done..]. apply mul_div_nonneg in Hy; [|done..].
  simplify_res. apply cadd_Ok in Hb as [-> _].
  repeat match goal with
  | H : cadd _ _ = Ok _ |- _ => apply cadd_Ok in H as [-> _]
  | H : cmul _ _ = Ok _ |- _ => apply cmul_Ok in H as [-> _]
  end.
  eapply mul_div_nonneg; [..|exact H]; unfold sqrt_floor; [|lia..].
  apply Z.add_nonneg_nonneg; [lia|apply Z.sqrt_nonneg].
Qed.

Lemma grow_reserves_nonneg b bi bo pmin pmax p :
  0 ≤ bi → 0 ≤ bo → 0 ≤ pmin → 0 < pmax → grow_reserves b bi bo pmin pmax = Ok p →
  0 ≤ balance_in p ∧ 0 ≤ balance_out p.
Proof.
  intros Hi Ho Hmin Hmax. unfold grow_reserves.
  assert (Hone : 0 < one18) by done.
  destruct b; intros (l & Hl & ([ai ao] & Hadd & (vi & Hvi & (vo & Hvo & [= <-])%bind_Ok)%bind_Ok)%bind_Ok)%bind_Ok;
    apply concentrate_liquidity_nonneg in Hl; try lia;
    apply bind_Ok in Hadd as (scaled & Hs & (x & Hx & (y & Hy & [= -> ->])%bind_Ok)%bind_Ok);
    apply cmul_Ok in Hs as [-> _]; apply cadd_Ok in Hvi as [-> _], Hvo as [-> _]; cbn;
    apply mul_div_nonneg in Hy; try lia; apply ceil_div_nonneg in Hx; try lia;
    apply Z.mul_nonneg_nonneg; lia.
Qed.

(** Both constant-product curves price on a pool of positive reserves. *)
Lemma product_curve_quotes curve token_in token_out bi bo x y :
  curve_in_domain curve → (∀ params, curve ≠ Pegged params) → 0 ≤ bi → 0 ≤ bo →
  let pool := from_curve curve token_in token_out bi bo in
  quote_exact_out pool y = Ok x →
  ∃ p, pool_ok p ∧ (∀ a, quote_exact_in pool a = xyc_quote_exact_in p a)
       ∧ (∀ a, quote_exact_out pool a = xyc_quote_exact_out p a).
Proof.
  intros Hd Hc Hi Ho pool Hq.
  assert (Hpos : ∀ p, 0 ≤ balance_in p → 0 ≤ balance_out p → xyc_quote_exact_out p y = Ok x → pool_ok p).
  { intros p Hpi Hpo. unfold xyc_quote_exact_out, xyc_is_empty.
    destruct ((balance_in p =? 0) || (balance_out p =? 0)) eqn:E; [done|]. zbool. intros _. split; lia. }
  destruct curve as [|pmin pmax|params]; [| |by destruct (Hc params)].
  - exists (mk_xyc bi bo). split; [by apply Hpos|done].
  - cbn in Hq, Hd. unfold pool. cbn. unfold from_reserves_and_bounds in *. cbn in *.
    destruct (grow_reserves (token_in <? token_out) bi bo pmin pmax) as [p|] eqn:Hg; [|done].
    exists p. split; [|done]. apply grow_reserves_nonneg in Hg as [? ?]; [by apply Hpos|lia..].
Qed.

(** A constant-product pool behind stacked fees: charging and quoting are adjoint. *)
Lemma fee_product_adjoint p fees y ci charged x net y' :
  pool_ok p → Forall (λ f, 0 ≤ f ≤ bps_denominator) fees → 0 ≤ x → 0 ≤ y →
  xyc_quote_exact_out p y = Ok ci → gross_up_by_fees ci fees = Ok charged →
  shrink_by_fees x fees = Ok net → xyc_quote_exact_in p net = Ok y' →
  (y ≤ y' ↔ charged ≤ x).
Proof.
  intros Hp Hf Hx Hy Hqo Hg Hn Hqi. pose proof Hp as [Hbi Hbo].
  apply xyc_quote_exact_out_Ok in Hqo as [Hlt Hqo]; [|done].
  assert (Hci : 0 ≤ ci) by (eapply ceil_div_nonneg; [..|exact Hqo]; nia).
  assert (Hnet : 0 ≤ net) by (apply (shrink_nonneg fees x); done).
  apply xyc_quote_exact_in_Ok in Hqi as (-> & _); [|done..].
  destruct (stacked_fees_adjoint fees x ci net charged) as [<- _]; [done..|].
  rewrite div_le_iff by lia.
  rewrite (ceil_div_le_iff (y * balance_in p) (balance_out p - y) ci net ltac:(nia) ltac:(lia) Hqo). nia.
Qed.

(** ** The poller's accounts *)

Definition is_wallet (a : AccountKey) : Prop := match a with WalletBudget _ _ => True | _ => False end.

#[global] Instance is_wallet_dec a : Decision (is_wallet a).
Proof. destruct a; apply _. Defined.

(** The two ceilings of one strategy at one of its tokens. *)
Definition accounts_at (m : MakerStrategy) (token : Address) : list AccountKey :=
  [WalletBudget (key_maker (strat_key m)) token;
   StrategyVirtual (key_maker (strat_key m)) (key_hash (strat_key m)) token].

Definition pair_tokens (m : MakerStrategy) : list Address :=
  match pair m with Some p => [lo p; hi p] | None => [] end.

(** Every wallet pushed is remembered, and pushed once. *)
Definition accounts_inv (acc : gset AccountKey * list AccountKey) : Prop :=
  (∀ a, a ∈ acc.1 ↔ is_wallet a ∧ a ∈ acc.2) ∧ NoDup (filter is_wallet acc.2).

Lemma push_token_spec m acc token :
  accounts_inv acc →
  accounts_inv (push_token m acc token)
  ∧ ∀ a, a ∈ (push_token m acc token).2 ↔ a ∈ acc.2 ∨ a ∈ accounts_at m token.
Proof.
  destruct acc as [w l]. intros [Hw Hnd]. cbn in Hw, Hnd. unfold push_token, accounts_at.
  case_decide as Hin; cbn [fst snd].
  - split.
    + split; cbn [fst snd].
      * intros a. rewrite Hw, elem_of_app, list_elem_of_singleton. split; [naive_solver|].
        intros [Ha [?| ->]]; [done|by cbn in Ha].
      * by rewrite filter_app, app_nil_r.
    + intros a. apply Hw in Hin as [_ Hin]. set_solver.
  - split; [|set_solver]. split; cbn [fst snd].
    + intros a. rewrite elem_of_union, Hw, elem_of_singleton, elem_of_app, !elem_of_cons. split.
      * intros [[? ?]| ->]; [by auto|]. split; [done|]. auto.
      * intros [Ha [?|[->|[->|Hn]]]]; [by auto|by auto|by cbn in Ha|by apply elem_of_nil in Hn].
    + rewrite filter_app. apply NoDup_app. split; [done|].
      split; [|apply NoDup_singleton]. intros a [Ha Hl]%list_elem_of_filter ->%list_elem_of_singleton.
      apply Hin, Hw. done.
Qed.

Lemma active_accounts_fold ms acc :
  accounts_inv acc →
  let out := foldl push_strategy acc ms in
  accounts_inv out ∧ ∀ a, a ∈ out.2 ↔ a ∈ acc.2 ∨ ∃ m token, m ∈ ms ∧ token ∈ pair_tokens m ∧ a ∈ accounts_at m token.
Proof.
  revert acc. induction ms as [|m ms IH]; intros acc Hinv; cbn [foldl].
  { split; [done|]. intros a. split; [by left|]. intros [?|(m & t & Hm & _)]; [done|by apply elem_of_nil in Hm]. }
  assert (Hstep : accounts_inv (push_strategy acc m)
    ∧ ∀ a, a ∈ (push_strategy acc m).2 ↔ a ∈ acc.2 ∨ ∃ token, token ∈ pair_tokens m ∧ a ∈ accounts_at m token).
  { unfold push_strategy, pair_tokens. destruct (pair m) as [p|].
    - cbn [foldl]. destruct (push_token_spec m acc (lo p) Hinv) as [H1 H2].
      destruct (push_token_spec m _ (hi p) H1) as [H3 H4]. split; [done|]. intros a. rewrite H4, H2.
      setoid_rewrite elem_of_cons. setoid_rewrite list_elem_of_singleton. naive_solver.
    - split; [done|]. intros a. split; [by left|]. intros [?|(t & Ht & _)]; [done|by apply elem_of_nil in Ht]. }
  destruct Hstep as [Hinv' Hacc']. destruct (IH _ Hinv') as [Hinv2 H2]. split; [done|].
  intros a. rewrite H2, Hacc'. setoid_rewrite elem_of_cons. naive_solver.
Qed.

(** The candidates of a pair in a snapshot whose index is right. *)
Lemma active_for_pair_ok s p m :
  snapshot_ok s →
  (m ∈ active_strategies_for_pair s p ↔ ∃ k, strategies s !! k = Some m ∧ active m = true ∧ pair m = Some p)
  ∧ NoDup (strat_key <$> active_strategies_for_pair s p).
Proof.
  intros Hs. unfold active_strategies_for_pair. split.
  - rewrite list_elem_of_omap. setoid_rewrite elem_of_set_iter. split.
    + intros (k & Hk & Hm). apply (sn_index s Hs) in Hk as (m' & Hm' & Ha & Hp). rewrite Hm' in Hm. cbn in Hm.
      rewrite Ha in Hm. simplify_eq. eauto.
    + intros (k & Hm & Ha & Hp). exists k. split; [by apply (sn_index s Hs); eauto|]. rewrite Hm. cbn. by rewrite Ha.
  - pose proof (set_iter_NoDup (default ∅ (by_pair s !! p))) as Hnd.
    induction Hnd as [|k l Hk Hnd IH]; [constructor|]. cbn.
    destruct (strategies s !! k) as [m'|] eqn:Hm'; cbn; [|done]. destruct (active m') eqn:Ha; cbn; [|done].
    constructor; [|done]. rewrite (sn_key s Hs k m' Hm'). rewrite list_elem_of_fmap.
    intros (m2 & Hkm & (k2 & Hk2 & Hm2)%list_elem_of_omap). apply bind_Some in Hm2 as (m3 & Hm3 & Hm2).
    destruct (active m3); simplify_eq. apply Hk. by rewrite (sn_key s Hs k2 m2 Hm3) in *.
Qed.

(** ** Properties *)

Section registry_properties.
Context (abi_decode : list Z → option Order).

(** C23: after any event sequence the pair index is exact: the candidates the router fetches for a pair
    are precisely the active strategies that hold exactly that pair of tokens, each once. *)
Theorem pair_index_is_exact es p m :
  Forall event_ok es →
  let s := fold_events abi_decode snapshot_default es in
  (m ∈ active_strategies_for_pair s p ↔
     ∃ k, strategies s !! k = Some m ∧ active m = true ∧ pair m = Some p)
  ∧ NoDup (strat_key <$> active_strategies_for_pair s p).
Proof. intros Hes s. apply active_for_pair_ok. by apply fold_ok; [apply default_snapshot_ok|]. Qed.

(** A strategy's state is a function of its own events: replaying only the events addressed to a
    key rebuilds that key's strategy, whatever the other makers did in between. *)
Theorem strategy_folds_its_own_events es k :
  strategies (fold_events abi_decode snapshot_default es) !! k
  = strategies (fold_events abi_decode snapshot_default (filter (λ e, event_key e = k) es)) !! k.
Proof. by apply fold_local. Qed.

(** docking is final: once a shipped strategy is docked, no later event (re-ship, push, pull or dock)
    revives it or moves its balances, and it is never offered to the router again. *)
Theorem docking_is_final es es' k m :
  Forall event_ok (es ++ es') →
  strategies (fold_events abi_decode snapshot_default es) !! k = Some m →
  let s := fold_events abi_decode snapshot_default
             (es ++ Docked (key_maker k) (key_app k) (key_hash k) :: es') in
  strategies s !! k = Some (deactivate m) ∧ ∀ p, deactivate m ∉ active_strategies_for_pair s p.
Proof.
  intros Hes Hm s.
  assert (Hk : strategies s !! k = Some (deactivate m)).
  { unfold s, fold_events. rewrite foldl_app. cbn [foldl].
    apply (fold_docked abi_decode es'); [|done]. destruct k as [mk app h].
    cbn. unfold fold_events in Hm. rewrite Hm. cbn. by rewrite lookup_insert_eq. }
  split; [done|]. intros p. unfold active_strategies_for_pair. rewrite list_elem_of_omap.
  intros (k' & _ & Hm'). apply bind_Some in Hm' as (m' & _ & Hm'). destruct (active m') eqn:Ha; simplify_eq.
Qed.

End registry_properties.

(** a pool's card is the aggregate of the active priceable strategies on its pair: the maker count
    and the curve mix count each of them once, the fee range is tight, and the popular fee is one of the most frequent ones. *)
Theorem pool_stats_are_exact s p :
  match pool_stats s !! p with
  | Some st => stats_ok (group p (pool_entries s)) st
  | None => group p (pool_entries s) = []
  end.
Proof.
  unfold pool_stats. rewrite lookup_fmap, pool_groups_lookup.
  destruct (group p (pool_entries s)) as [|x g]; [done|]. apply pool_stats_of_ok.
Qed.

(** For the constant-product curves with any stacked fees, pricing is consistent in both
    directions: the input an exact-out price charges is the least input whose exact-in price delivers that output. *)
Theorem exact_out_price_is_least s curve fees token_in token_out y charged x y' :
  strat_curve s = Priceable curve fees →
  curve_in_domain curve → (∀ params, curve ≠ Pegged params) →
  Forall (λ f, 0 ≤ f ≤ bps_denominator) fees →
  0 ≤ balance s token_in → 0 ≤ balance s token_out → 0 ≤ x → 0 ≤ y →
  price s token_in token_out y false = Ok charged →
  price s token_in token_out x true = Ok y' →
  (y ≤ y' ↔ charged ≤ x).
Proof.
  intros Hc Hd Hnp Hf Hi Ho Hx Hy. unfold price. rewrite Hc.
  intros Hout Hin.
  destruct (quote_exact_out _ y) as [ci|e] eqn:Hqo; [|done]. cbn [mbind result_bind] in Hout.
  destruct (gross_up_by_fees ci fees) as [g|e] eqn:Hg; [|done]. injection Hout as ->.
  destruct (shrink_by_fees x fees) as [net|e] eqn:Hn; [|done]. cbn [mbind result_bind] in Hin.
  destruct (quote_exact_in _ net) as [z|e] eqn:Hqi; [|done]. injection Hin as ->.
  destruct (product_curve_quotes _ _ _ _ _ _ _ Hd Hnp Hi Ho Hqo) as (p & Hp & Hpi & Hpo).
  rewrite Hpo in Hqo. rewrite Hpi in Hqi. by eapply fee_product_adjoint.
Qed.

(** the budget poller reads exactly the ceilings the ledger enforces: for every active strategy with a
    pair, the wallet and the strategy's virtual account at both tokens, and nothing else, each wallet once. *)
Theorem poller_reads_every_ceiling s :
  (∀ a, a ∈ active_accounts s ↔
     ∃ m token, m ∈ active_strategies s ∧ token ∈ pair_tokens m ∧ a ∈ accounts_at m token)
  ∧ NoDup (filter is_wallet (active_accounts s)).
Proof.
  unfold active_accounts. destruct (active_accounts_fold (active_strategies s) (∅, [])) as [[_ Hnd] Hall].
  { split; cbn; [|constructor]. intros a. set_solver. }
  split; [|exact Hnd]. intros a. rewrite Hall. cbn. split; [|by right].
  intros [Ha|Ha]; [by apply elem_of_nil in Ha|done].
Qed.

(** The most common shape; among equals the one listed last. *)
Definition kind_count (c : StrategyCount) (k : CurveKind) : nat :=
  match k with XycKind => xyc c | ConcentratedKind => concentrated c | PeggedKind => pegged c end.
Definition kind_rank (k : CurveKind) : nat :=
  match k with XycKind => 0 | ConcentratedKind => 1 | PeggedKind => 2 end.

(** A tie goes to the later shape: Pegged before Concentrated before Xyc, the opposite of the order the
    comment on [dominant] gives, so a pool of one Xyc and one Pegged maker classifies as pegged. *)
Theorem dominant_breaks_ties_late c k :
  dominant c = Some k →
  (0 < kind_count c k)%nat
  ∧ ∀ k', (kind_count c k' ≤ kind_count c k)%nat
          ∧ (kind_count c k' = kind_count c k → (kind_rank k' ≤ kind_rank k)%nat).
Proof.
  destruct c as [x q g]. unfold dominant. cbn [xyc concentrated pegged].
  rewrite !filter_cons, filter_nil. unfold max_by_key.
  repeat case_decide; cbn [snd] in *; cbn [foldl snd fst];
    repeat match goal with
    | |- context [if ?b then _ else _] => let E := fresh "E" in destruct b eqn:E; cbn [snd]
    end; zbool; intros Hk; cbn in Hk; simplify_eq;
    (split; [cbn; lia|]); intros []; cbn in *; lia.
Qed.

(** ** Witnesses *)

(** A maker ships an Xyc program with a 30 bps fee, funds it with two tokens and is filled once. *)
Definition demo_decode (strategy : list Z) : option Order := Some (mk_order 1 0 strategy).
Definition demo_program : list Z := [0x15; 4; 0; 45; 198; 192; 0x11; 0].
Definition demo_key : StrategyKey := mk_strategy_key 1 9 7.
Definition demo_events : list AquaEvent :=
  [Shipped 1 9 7 demo_program; Pushed 1 9 7 3 1000000; Pushed 1 9 7 5 1000000;
   Shipped 2 9 8 [0x11; 0]; Pushed 2 9 8 3 50; Pushed 1 9 7 3 1000; Pulled 1 9 7 5 900].

Lemma demo_events_ok : Forall event_ok demo_events.
Proof. repeat (apply Forall_cons_2; [by vm_compute|]). apply Forall_nil_2. Qed.

Definition demo_snapshot : Snapshot := fold_events demo_decode snapshot_default demo_events.
Definition demo_strategy : MakerStrategy :=
  mk_strategy demo_key (Priceable Xyc [3000000]) {[3 := 1001000; 5 := 999100]} true demo_program.

Lemma pair_index_is_exact_witness :
  active_strategies_for_pair demo_snapshot (TokenPair_new 5 3) = [demo_strategy]
  ∧ ∃ k, strategies demo_snapshot !! k = Some demo_strategy.
Proof.
  assert (Hs : active_strategies_for_pair demo_snapshot (TokenPair_new 5 3) = [demo_strategy]) by (by vm_compute).
  split; [exact Hs|].
  destruct (proj1 (proj1 (pair_index_is_exact demo_decode demo_events (TokenPair_new 5 3) demo_strategy demo_events_ok)))
    as (k & Hk & _); [|by exists k].
  change (demo_strategy ∈ active_strategies_for_pair demo_snapshot (TokenPair_new 5 3)). rewrite Hs. left.
Defined.

Lemma docking_is_final_witness :
  strategies (fold_events demo_decode snapshot_default (demo_events ++ [Docked 1 9 7; Pushed 1 9 7 3 5])) !! demo_key
  = Some (deactivate demo_strategy).
Proof.
  apply (docking_is_final demo_decode demo_events [Pushed 1 9 7 3 5] demo_key demo_strategy); [|by vm_compute].
  apply Forall_app. split; [apply demo_events_ok|]. apply Forall_cons_2; [by vm_compute|apply Forall_nil_2].
Defined.

Lemma exact_out_price_is_least_witness :
  price demo_strategy 3 5 90000 false = Ok 99398 ∧ price demo_strategy 3 5 99398 true = Ok 90000
  ∧ (90000 ≤ 90000 ↔ 99398 ≤ 99398).
Proof.
  assert (Ho : price demo_strategy 3 5 90000 false = Ok 99398) by (by vm_compute).
  assert (Hi : price demo_strategy 3 5 99398 true = Ok 90000) by (by vm_compute).
  split; [exact Ho|]. split; [exact Hi|].
  apply (exact_out_price_is_least demo_strategy Xyc [3000000] 3 5 90000 99398 99398 90000); try done.
  apply Forall_cons_2; [|apply Forall_nil_2]. split; by vm_compute.
Defined.
