(* ===== verification/RegistrySync.v ===== *)
(** * The registry's event log and its sync loop

    [crates/core/src/registry/sync.rs] over the SQLite event log of
    [crates/adapters/src/registry/sqlite_store.rs]: fetch a block range, drop what the
    cache has seen, insert what the log does not hold, fold the new events into the
    snapshot, and advance the cursor last.  The chain source is a parameter of a cycle;
    the outcome of each statement comes from the database. *)

From S2P Require Import Prelude U256 Reservation CurveDecode Registry.

#[local] Open Scope Z_scope.

Record EventCursor := mk_cursor { cur_block : Z; cur_log : Z }.

#[global] Instance EventCursor_eq_dec : EqDecision EventCursor.
Proof. solve_decision. Defined.
#[global] Instance EventCursor_countable : Countable EventCursor.
Proof.
  apply (inj_countable' (λ c, (cur_block c, cur_log c)) (λ '(b, l), mk_cursor b l)). by intros [].
Defined.
#[global] Program Instance EventCursor_ord : OrdKey EventCursor := {| ord_key c := [cur_block c; cur_log c] |}.
Next Obligation. destruct a, b. cbn in *. congruence. Qed.

Record EventExt := mk_ext {
  ext_event : AquaEvent;
  ext_address : Address;
  block_hash : option Z;
  block_number : option Z;
  transaction_hash : option Z;
  transaction_index : option Z;
  log_index : option Z;
  removed : bool
}.

(** [block_number.zip(log_index)] *)
Definition cursor (e : EventExt) : option EventCursor :=
  b ← block_number e;
  l ← log_index e;
  Some (mk_cursor b l).

(** ** The event log *)

(** The primary key of [aqua_event]. *)
Record RowKey := mk_row_key { rk_chain : Z; rk_block : Z; rk_hash : Z; rk_log : Z }.

#[global] Instance RowKey_eq_dec : EqDecision RowKey.
Proof. solve_decision. Defined.
#[global] Instance RowKey_countable : Countable RowKey.
Proof.
  apply (inj_countable' (λ k, (rk_chain k, rk_block k, rk_hash k, rk_log k)) (λ '(c, b, h, l), mk_row_key c b h l)).
  by intros [].
Defined.
#[global] Program Instance RowKey_ord : OrdKey RowKey :=
  {| ord_key k := [rk_chain k; rk_block k; rk_hash k; rk_log k] |}.
Next Obligation. destruct a, b. cbn in *. congruence. Qed.

Record EventRow := mk_event_row { row_event : EventExt; created_at : Z }.

Record EventDb := mk_event_db {
  aqua_event : gmap RowKey EventRow;
  registry_cursor : gmap Z EventCursor;
  event_outcomes : list bool
}.

Inductive StoreError : Type := EventDbError | Unpositioned.

Definition EVENT_I64_MAX : Z := 2 ^ 63 - 1.

Definition event_i64_of (value : Z) : result StoreError Z :=
  if value <=? EVENT_I64_MAX then Ok value else Err EventDbError.

(** Run one statement: [map_err(db)?] on its outcome. *)
Definition db_step : cmd EventDb StoreError unit := λ db,
  match event_outcomes db with
  | [] => (Ok tt, db)
  | good :: rest => ((if good then Ok tt else Err EventDbError),
                     mk_event_db (aqua_event db) (registry_cursor db) rest)
  end.

Definition store_cursor (chain : Z) : cmd EventDb StoreError (option EventCursor) :=
  chain_id ← lift (event_i64_of chain);
  _ ← db_step;
  gets (λ db, registry_cursor db !! chain_id).

(** The inserts of one transaction, on its view of the table: a conflicting key returns no row. *)
Fixpoint insert_rows (chain_id recorded_at : Z) (events : list EventExt) (t : gmap RowKey EventRow) :
    cmd EventDb StoreError (gmap RowKey EventRow * list EventExt) :=
  match events with
  | [] => mret (t, [])
  | e :: rest =>
      c ← lift (ok_or (cursor e) Unpositioned);
      hash ← lift (ok_or (block_hash e) Unpositioned);
      block ← lift (event_i64_of (cur_block c));
      log ← lift (event_i64_of (cur_log c));
      _ ← db_step;
      let key := mk_row_key chain_id block hash log in
      match t !! key with
      | Some _ => insert_rows chain_id recorded_at rest t
      | None =>
          '(t', added) ← insert_rows chain_id recorded_at rest (<[key := mk_event_row e recorded_at]> t);
          mret (t', e :: added)
      end
  end.

(** The transaction commits as a whole or not at all. *)
Definition store_insert (chain now : Z) (events : list EventExt) : cmd EventDb StoreError (list EventExt) :=
  match events with
  | [] => mret []
  | _ :: _ =>
      chain_id ← lift (event_i64_of chain);
      recorded_at ← lift (event_i64_of now);
      _ ← db_step; (* begin *)
      t ← gets aqua_event;
      '(t', added) ← insert_rows chain_id recorded_at events t;
      _ ← db_step; (* commit *)
      _ ← modify (λ db, mk_event_db t' (registry_cursor db) (event_outcomes db));
      mret added
  end.

Definition save_cursor (chain : Z) (c : EventCursor) : cmd EventDb StoreError unit :=
  chain_id ← lift (event_i64_of chain);
  block ← lift (event_i64_of (cur_block c));
  log ← lift (event_i64_of (cur_log c));
  _ ← db_step;
  modify (λ db, mk_event_db (aqua_event db) (<[chain_id := mk_cursor block log]> (registry_cursor db))
                  (event_outcomes db)).

Definition replay_le (p q : RowKey * EventRow) : Prop :=
  key_le (mk_cursor (rk_block p.1) (rk_log p.1)) (mk_cursor (rk_block q.1) (rk_log q.1)).

#[global] Instance replay_le_dec : RelDecision replay_le.
Proof. intros p q. unfold replay_le. apply _. Defined.

(** The log of one chain, [ORDER BY block_number, log_index]. *)
Definition replay (t : gmap RowKey EventRow) (chain_id : Z) : list EventExt :=
  (λ p, row_event p.2) <$>
    merge_sort replay_le (filter (λ p : RowKey * EventRow, rk_chain p.1 = chain_id) (entries t)).

Definition store_events (chain : Z) : cmd EventDb StoreError (list EventExt) :=
  chain_id ← lift (event_i64_of chain);
  _ ← db_step;
  gets (λ db, replay (aqua_event db) chain_id).

(** ** The sync loop *)

Inductive SyncError : Type :=
| SyncStore (e : StoreError)
| SyncSource.

Record ChainConfig := mk_chain_config { cfg_chain : Z; start_block : Z; overlap_blocks : Z }.

(** The store, the published snapshot, and the positions the cache holds. *)
Record RegistrySync := mk_registry_sync {
  sync_store : EventDb;
  sync_snapshot : Snapshot;
  seen : gset EventCursor
}.

Definition on_db {A} (m : cmd EventDb StoreError A) : cmd RegistrySync SyncError A := λ s,
  let '(r, db) := m (sync_store s) in
  (map_err SyncStore r, mk_registry_sync db (sync_snapshot s) (seen s)).

Definition publish_snapshot (snapshot : Snapshot) : cmd RegistrySync SyncError unit :=
  modify (λ s, mk_registry_sync (sync_store s) snapshot (seen s)).

Definition mark_seen (events : list EventExt) : cmd RegistrySync SyncError unit :=
  modify (λ s, mk_registry_sync (sync_store s) (sync_snapshot s) (seen s ∪ list_to_set (omap cursor events))).

(** [sort_by_key(|event| (event.block_number, event.log_index))]: absent positions sort first. *)
Definition option_key (o : option Z) : list Z := match o with None => [0; 0] | Some x => [1; x] end.
Definition position_le (a b : EventExt) : Prop :=
  lex_le (option_key (block_number a) ++ option_key (log_index a))
         (option_key (block_number b) ++ option_key (log_index b)) = true.

#[global] Instance position_le_dec : RelDecision position_le.
Proof. intros a b. unfold position_le. apply _. Defined.

(** An event the cache does not rule out. *)
Definition unseen (cache : gset EventCursor) (e : EventExt) : bool :=
  match cursor e with Some c => negb (bool_decide (c ∈ cache)) | None => false end.

Section sync.
Context (abi_decode : list Z → option Order) (config : ChainConfig).

Definition recover : cmd RegistrySync SyncError unit :=
  events ← on_db (store_events (cfg_chain config));
  publish_snapshot (fold_events abi_decode snapshot_default (ext_event <$> events)).

Definition sync_once (fetch : Z → Z → option (list EventExt)) (now to_block : Z) : cmd RegistrySync SyncError unit :=
  resume ← on_db (store_cursor (cfg_chain config));
  let from_block := match resume with
                    | None => start_block config
                    | Some c => u64_saturating_sub (cur_block c) (overlap_blocks config)
                    end in
  fetched ← lift (ok_or (fetch from_block to_block) SyncSource);
  cache ← gets seen;
  let fresh := filter (λ e, unseen cache e = true) fetched in
  inserted ← on_db (store_insert (cfg_chain config) now fresh);
  _ ← mark_seen fresh;
  _ ← match inserted with
      | [] => mret tt
      | _ :: _ =>
          snapshot ← gets sync_snapshot;
          publish_snapshot (fold_events abi_decode snapshot (ext_event <$> merge_sort position_le inserted))
      end;
  let progress := match resume with None => to_block | Some c => Z.max to_block (cur_block c) end in
  on_db (save_cursor (cfg_chain config) (mk_cursor progress 0)).

(** What can happen to a registry: a cycle against some source, the cache dropping entries that outlived
    their time, a restart that loses the cache and rebuilds the snapshot (a failed one publishes nothing and is
    tried again). *)
Inductive sync_event : Type :=
| Cycle (fetch : Z → Z → option (list EventExt)) (now to_block : Z)
| Evict (gone : gset EventCursor)
| Restart.

Definition sync_exec (s : RegistrySync) (ev : sync_event) : RegistrySync :=
  match ev with
  | Cycle fetch now to_block => (sync_once fetch now to_block s).2
  | Evict gone => mk_registry_sync (sync_store s) (sync_snapshot s) (seen s ∖ gone)
  | Restart => match recover (mk_registry_sync (sync_store s) snapshot_default ∅) with
               | (Ok _, s') => s'
               | (Err _, s') => mk_registry_sync (sync_store s') (sync_snapshot s) (seen s)
               end
  end.

Definition sync_run (s : RegistrySync) (evs : list sync_event) : RegistrySync := foldl sync_exec s evs.

End sync.

(** * Correctness of the registry sync

    Over a chain that does not reorganise, with any failures of the source and of the
    database, any cache evictions and any restarts, the published snapshot is always the
    fold of the durable log, the log is a prefix of the chain without gaps, and a cycle
    that reports success has caught up.  An event the source first omits is still
    logged, but is folded out of order. *)

Definition blk (e : EventExt) : Z := default 0 (block_number e).
Definition lg (e : EventExt) : Z := default 0 (log_index e).
Definition hsh (e : EventExt) : Z := default 0 (block_hash e).
Definition pos (e : EventExt) : EventCursor := mk_cursor (blk e) (lg e).

(** A mined log has a full position. *)
Definition mined (e : EventExt) : Prop :=
  block_number e = Some (blk e) ∧ block_hash e = Some (hsh e) ∧ log_index e = Some (lg e).

Lemma mined_cursor e : mined e → cursor e = Some (pos e).
Proof. intros (Hb & _ & Hl). unfold cursor. rewrite Hb. cbn [mbind option_bind]. rewrite Hl. done. Qed.

Definition pos_lt (a b : EventExt) : Prop := blk a < blk b ∨ (blk a = blk b ∧ lg a < lg b).

Lemma position_le_mined a b : mined a → mined b → position_le a b ↔ pos_lt a b ∨ pos a = pos b.
Proof.
  intros (Ha & _ & Hla) (Hb & _ & Hlb). unfold position_le. rewrite Ha, Hla, Hb, Hlb. cbn.
  rewrite !orb_true_iff, !andb_true_iff, !orb_true_iff, !Z.ltb_lt, !Z.eqb_eq, !andb_true_iff, !Z.eqb_eq.
  unfold pos_lt, pos. split; [|intros [?|[= ? ?]]; lia].
  intros H. destruct (decide (blk a = blk b ∧ lg a = lg b)) as [[E1 E2]|]; [right; by rewrite E1, E2|left; lia].
Qed.

#[global] Instance position_le_trans : Transitive position_le.
Proof. intros a b c. apply lex_le_trans. Qed.
#[global] Instance position_le_total : Total position_le.
Proof. intros a b. apply lex_le_total. Qed.
#[global] Instance replay_le_trans : Transitive replay_le.
Proof. intros a b c. apply key_le_trans. Qed.
#[global] Instance replay_le_total : Total replay_le.
Proof. intros a b. apply key_le_total. Qed.

Lemma StronglySorted_fmap_elem {A B} (f : A → B) (R : relation A) (S : relation B) l :
  (∀ x y, x ∈ l → y ∈ l → R x y → S (f x) (f y)) → StronglySorted R l → StronglySorted S (f <$> l).
Proof.
  intros Hf. induction 1 as [|x l Hl IH Hx]; [constructor|]. rewrite fmap_cons. constructor; [apply IH; set_solver|].
  rewrite Forall_fmap, Forall_forall in *. intros y Hy. apply Hf; [left|by right|by apply Hx].
Qed.

Lemma pos_key_le a b : mined a → mined b → key_le (pos a) (pos b) → position_le a b.
Proof.
  intros Ha Hb Hk. apply position_le_mined; [done..|]. unfold key_le, key_leb in Hk. cbn in Hk.
  rewrite !orb_true_iff, !andb_true_iff, !orb_true_iff, !andb_true_iff, !Z.ltb_lt, !Z.eqb_eq in Hk.
  unfold pos_lt, pos. destruct (decide (blk a = blk b ∧ lg a = lg b)) as [[E1 E2]|]; [right; by rewrite E1, E2|left; lia].
Qed.

Lemma filter_elem_iff {A} (P Q : A → Prop) `{∀ x, Decision (P x), ∀ x, Decision (Q x)} (l : list A) :
  (∀ x, x ∈ l → P x ↔ Q x) → filter P l = filter Q l.
Proof.
  induction l as [|x l IH]; intros HPQ; [done|]. rewrite !filter_cons, IH by set_solver.
  pose proof (HPQ x ltac:(left)). repeat case_decide; tauto || done.
Qed.

Lemma pos_sorted_position l : StronglySorted pos_lt l → (∀ e, e ∈ l → mined e) → StronglySorted position_le l.
Proof.
  induction 1 as [|e l Hl IH Hx]; intros Hm; constructor; [apply IH; set_solver|].
  rewrite Forall_forall in *. intros x Hxl. apply position_le_mined; [apply Hm; set_solver..|]. left. by apply Hx.
Qed.

Lemma pos_sorted_NoDup l : StronglySorted pos_lt l → NoDup l.
Proof.
  induction 1 as [|e l Hl IH Hx]; [apply NoDup_nil_2|]. apply NoDup_cons_2; [|done].
  intros Hin. rewrite Forall_forall in Hx. specialize (Hx e Hin). unfold pos_lt in Hx. lia.
Qed.

Lemma pos_sorted_inj l a b : StronglySorted pos_lt l → a ∈ l → b ∈ l → pos a = pos b → a = b.
Proof.
  unfold pos. intros Hs Ha Hb [= Hp Hl].
  induction Hs as [|e l Hsl IH Hx]; [by apply elem_of_nil in Ha|]. rewrite Forall_forall in Hx.
  apply elem_of_cons in Ha as [->|Ha], Hb as [->|Hb]; [done|apply Hx in Hb|apply Hx in Ha|by apply IH];
    unfold pos_lt in *; lia.
Qed.

(** Extending a prefix of the chain appends. *)
Lemma filter_upto_split l hi to :
  StronglySorted pos_lt l →
  filter (λ e, blk e ≤ Z.max hi to) l = filter (λ e, blk e ≤ hi) l ++ filter (λ e, hi < blk e ≤ to) l.
Proof.
  induction 1 as [|e l Hl IH Hx]; [done|]. rewrite !filter_cons, IH.
  destruct (decide (blk e ≤ hi)) as [Hle|Hgt].
  - rewrite decide_True by lia. rewrite (decide_False (P := hi < blk e ≤ to)) by lia. done.
  - assert (Hnil : filter (λ e, blk e ≤ hi) l = []).
    { destruct (filter (λ e, blk e ≤ hi) l) as [|x rest] eqn:Hfl; [reflexivity|].
      assert (Hin : x ∈ filter (λ e, blk e ≤ hi) l) by (rewrite Hfl; left).
      apply list_elem_of_filter in Hin as [Hle Hin]. rewrite Forall_forall in Hx. specialize (Hx x Hin). unfold pos_lt in Hx. lia. }
    rewrite Hnil. cbn. repeat case_decide; done || lia.
Qed.

Section stable_chain.
Context (abi_decode : list Z → option Order) (config : ChainConfig).
(** The canonical events, in chain order, none before the start block. *)
Context (canon : list EventExt).

Record chain_ok : Prop := {
  canon_mined : ∀ e, e ∈ canon → mined e;
  canon_start : ∀ e, e ∈ canon → start_block config ≤ blk e;
  canon_sorted : StronglySorted pos_lt canon;
  canon_overlap : 0 ≤ overlap_blocks config ∧ 0 ≤ start_block config
}.
Hypothesis Hchain : chain_ok.

(** The events up to a block, and a source that serves the chain. *)
Definition upto (hi : Z) : list EventExt := filter (λ e, blk e ≤ hi) canon.

Definition source_ok (fetch : Z → Z → option (list EventExt)) : Prop :=
  ∀ from to l, fetch from to = Some l → l ≡ₚ filter (λ e, from ≤ blk e ≤ to) canon.

Lemma canon_sorted_mined : StronglySorted position_le canon.
Proof. apply pos_sorted_position; [apply Hchain|]. by apply canon_mined. Qed.

Lemma canon_NoDup : NoDup canon.
Proof. apply pos_sorted_NoDup, Hchain. Qed.

(** A position identifies its event. *)
Lemma canon_pos_inj a b : a ∈ canon → b ∈ canon → pos a = pos b → a = b.
Proof. apply pos_sorted_inj, Hchain. Qed.

(** Any arrangement of chain events sorts back to chain order. *)
Lemma sort_canon (P : EventExt → Prop) `{∀ e, Decision (P e)} l :
  l ≡ₚ filter P canon → merge_sort position_le l = filter P canon.
Proof.
  intros Hl. apply (StronglySorted_unique_strong position_le).
  - intros a b Ha Hb Hab Hba.
    assert (Hac : a ∈ canon) by (rewrite merge_sort_Permutation, Hl in Ha; by apply list_elem_of_filter in Ha as [_ ?]).
    apply list_elem_of_filter in Hb as [_ Hb].
    pose proof (canon_mined Hchain a Hac) as Hma. pose proof (canon_mined Hchain b Hb) as Hmb.
    apply position_le_mined in Hab; [|done..]. apply position_le_mined in Hba; [|done..].
    apply canon_pos_inj; [done..|]. destruct Hab as [Hab|]; [|done]. destruct Hba as [Hba|]; [|done].
    unfold pos_lt in *. lia.
  - apply (StronglySorted_merge_sort _).
  - apply StronglySorted_filter, canon_sorted_mined.
  - by rewrite merge_sort_Permutation.
Qed.

(** ** The log *)

Definition row_key (e : EventExt) : RowKey := mk_row_key (cfg_chain config) (blk e) (hsh e) (lg e).

(** The rows of the chain are exactly its events up to a block. *)
Record holds (t : gmap RowKey EventRow) (hi : Z) : Prop := {
  holds_rows : ∀ k row, t !! k = Some row → rk_chain k = cfg_chain config →
    row_event row ∈ canon ∧ blk (row_event row) ≤ hi ∧ k = row_key (row_event row);
  holds_all : ∀ e, e ∈ canon → blk e ≤ hi → ∃ row, t !! row_key e = Some row
}.

Lemma row_key_pos a b : row_key a = row_key b → pos a = pos b.
Proof. unfold row_key, pos. congruence. Qed.

Lemma holds_event t hi e row : holds t hi → e ∈ canon → t !! row_key e = Some row → row_event row = e.
Proof.
  intros Ht He Hr. apply (holds_rows _ _ Ht) in Hr as (Hc & _ & Hk); [|done].
  apply canon_pos_inj; [done..|]. by apply row_key_pos.
Qed.

Lemma holds_beyond t hi e : holds t hi → e ∈ canon → t !! row_key e = None ↔ hi < blk e.
Proof.
  intros Ht He. split.
  - intros Hn. destruct (Z.le_gt_cases (blk e) hi) as [Hle|]; [|done].
    destruct (holds_all _ _ Ht e He Hle) as [row Hr]. congruence.
  - intros Hgt. destruct (t !! row_key e) as [row|] eqn:Hr; [|done].
    pose proof (holds_event _ _ _ _ Ht He Hr) as Heq. apply (holds_rows _ _ Ht) in Hr as (_ & Hle & _); [|done].
    rewrite Heq in Hle. lia.
Qed.

(** Replaying the log gives the chain back. *)
Lemma replay_holds t hi : holds t hi → replay t (cfg_chain config) = upto hi.
Proof.
  intros Ht. unfold replay, upto. set (rows := filter _ (entries t)).
  assert (Hrows : ∀ k row, (k, row) ∈ rows ↔ rk_chain k = cfg_chain config ∧ t !! k = Some row).
  { intros k row. unfold rows. rewrite list_elem_of_filter, elem_of_entries. done. }
  assert (Hspec : ∀ p, p ∈ rows → row_event p.2 ∈ canon ∧ blk (row_event p.2) ≤ hi ∧ p.1 = row_key (row_event p.2)).
  { intros [k row] [Hc Hr]%Hrows. by apply (holds_rows _ _ Ht). }
  rewrite <-(sort_canon (λ e, blk e ≤ hi) ((λ p, row_event p.2) <$> rows)).
  2: { apply NoDup_Permutation.
    - apply NoDup_fmap_2_strong.
      + intros p q Hp Hq Heq. destruct (Hspec p Hp) as (_ & _ & Hkp), (Hspec q Hq) as (_ & _ & Hkq).
        rewrite Heq in Hkp. destruct p as [k r], q as [k' r']. cbn in *. subst k k'.
        apply Hrows in Hp as [_ Hp], Hq as [_ Hq]. congruence.
      + unfold rows. apply NoDup_filter. apply (NoDup_fmap_1 fst), NoDup_keys.
    - apply NoDup_filter, canon_NoDup.
    - intros e. rewrite list_elem_of_fmap, list_elem_of_filter. split.
      + intros (p & -> & Hp). destruct (Hspec p Hp) as (? & ? & _). done.
      + intros [Hle He]. destruct (holds_all _ _ Ht e He Hle) as [row Hr]. exists (row_key e, row).
        split; [symmetry; by eapply holds_event|]. by apply Hrows. }
  apply (StronglySorted_unique_strong position_le).
  - intros a b Ha Hb Hab Hba. rewrite list_elem_of_fmap in Ha. destruct Ha as (p & -> & Hp).
    rewrite merge_sort_Permutation in Hp. rewrite merge_sort_Permutation, list_elem_of_fmap in Hb.
    destruct Hb as (q & -> & Hq). destruct (Hspec p Hp) as (Hpc & _), (Hspec q Hq) as (Hqc & _).
    pose proof (canon_mined Hchain _ Hpc). pose proof (canon_mined Hchain _ Hqc).
    apply position_le_mined in Hab; [|done..]. apply position_le_mined in Hba; [|done..].
    apply canon_pos_inj; [done..|]. unfold pos_lt in *. destruct Hab as [Hab|]; [|done]. destruct Hba as [Hba|]; [lia|done].
  - eapply StronglySorted_fmap_elem; [|apply (StronglySorted_merge_sort _)].
    intros p q Hp Hq Hle. rewrite merge_sort_Permutation in Hp. rewrite merge_sort_Permutation in Hq.
    destruct (Hspec p Hp) as (Hpc & _ & Hpk), (Hspec q Hq) as (Hqc & _ & Hqk). unfold replay_le in Hle.
    rewrite Hpk, Hqk in Hle. by apply pos_key_le; [apply (canon_mined Hchain)..|].
  - apply (StronglySorted_merge_sort _).
  - by rewrite !merge_sort_Permutation.
Qed.

(** ** The store *)

Definition same_tables (db db' : EventDb) : Prop :=
  aqua_event db' = aqua_event db ∧ registry_cursor db' = registry_cursor db.

Lemma db_step_same db r db' : db_step db = (r, db') → same_tables db db'.
Proof. unfold db_step. intros. repeat case_match; simplify_eq; done. Qed.

Lemma same_tables_trans a b c : same_tables a b → same_tables b c → same_tables a c.
Proof. unfold same_tables. intros [-> ->] [-> ->]. done. Qed.

Lemma event_i64_of_Ok v x : event_i64_of v = Ok x → x = v.
Proof. unfold event_i64_of. case_match; naive_solver. Qed.

(** The inserts return exactly the events whose key was free, on a view that gains their rows. *)
Lemma insert_rows_spec now events t db r db' :
  (∀ e, e ∈ events → mined e) → NoDup (row_key <$> events) →
  insert_rows (cfg_chain config) now events t db = (r, db') →
  same_tables db db' ∧
  ∀ t' added, r = Ok (t', added) →
    added = filter (λ e, t !! row_key e = None) events
    ∧ (∀ e, e ∈ events → is_Some (t' !! row_key e))
    ∧ (∀ k row, t !! k = Some row → t' !! k = Some row)
    ∧ (∀ k row, t' !! k = Some row → t !! k = Some row ∨ (row_event row ∈ events ∧ k = row_key (row_event row))).
Proof.
  revert t db r db'. induction events as [|e events IH]; intros t db r db' Hm Hnd.
  { intros [= <- <-]. split; [done|]. intros t' added [= <- <-]. split_and!; [done|set_solver|done|by left]. }
  rewrite fmap_cons in Hnd. apply NoDup_cons in Hnd as [Hnk Hnd].
  assert (Hme : mined e) by (apply Hm; left). pose proof Hme as (_ & Hh & _).
  cbn [insert_rows]. unfold mbind, cmd_bind, lift. rewrite mined_cursor, Hh by done. cbn [ok_or cur_block cur_log pos].
  destruct (event_i64_of (blk e)) as [b|] eqn:Hb; [|intros [= <- <-]; done]. apply event_i64_of_Ok in Hb as ->.
  destruct (event_i64_of (lg e)) as [l|] eqn:Hl; [|intros [= <- <-]; done]. apply event_i64_of_Ok in Hl as ->.
  destruct (db_step db) as [[[]|?] db1] eqn:Hst; apply db_step_same in Hst; [|intros [= <- <-]; done].
  change (mk_row_key (cfg_chain config) (blk e) (hsh e) (lg e)) with (row_key e).
  destruct (t !! row_key e) as [row|] eqn:Hk.
  - intros H. apply IH in H as [Hsame Hspec]; [|set_solver|done]. split; [by eapply same_tables_trans|].
    intros t' added Hr. destruct (Hspec t' added Hr) as (-> & Hall & Hkeep & Hnew). split_and!; [|..|done|].
    + rewrite filter_cons_False by (rewrite Hk; done). done.
    + intros e' [->|He']%elem_of_cons; [rewrite (Hkeep _ _ Hk); eauto|by apply Hall].
    + intros k r' Hk'. destruct (Hnew k r' Hk') as [?|[? ?]]; [by left|right; set_solver].
  - destruct (insert_rows (cfg_chain config) now events _ db1) as [[[t1 added1]|err] db2] eqn:Hrest;
      apply IH in Hrest as [Hsame Hspec]; try done; try (by (intros; apply Hm; right)).
    2: { intros [= <- <-]. split; [by eapply same_tables_trans|done]. }
    intros [= <- <-]. split; [by eapply same_tables_trans|]. intros t' added [= <- <-].
    destruct (Hspec t1 added1 eq_refl) as (-> & Hall & Hkeep & Hnew). split_and!.
    + rewrite filter_cons_True by done. f_equal. apply filter_elem_iff. intros x Hx.
      rewrite lookup_insert_ne; [done|]. intros Heq. apply Hnk. rewrite Heq. by apply list_elem_of_fmap_2.
    + intros e' [->|He']%elem_of_cons; [|by apply Hall]. rewrite (Hkeep (row_key e) (mk_event_row e now)); [eauto|].
      apply lookup_insert_eq.
    + intros k r' Hk'. apply Hkeep. rewrite lookup_insert_ne; [done|]. intros <-. congruence.
    + intros k r' Hk'. destruct (Hnew k r' Hk') as [[[<- <-]|[_ ?]]%lookup_insert_Some|[? ?]]; [right|by left|right].
      * split; [left|done].
      * set_solver.
Qed.

Lemma store_insert_spec now events db r db' :
  (∀ e, e ∈ events → mined e) → NoDup (row_key <$> events) →
  store_insert (cfg_chain config) now events db = (r, db') →
  registry_cursor db' = registry_cursor db ∧
  match r with
  | Err _ => aqua_event db' = aqua_event db
  | Ok added => added = filter (λ e, aqua_event db !! row_key e = None) events
      ∧ (∀ e, e ∈ events → is_Some (aqua_event db' !! row_key e))
      ∧ (∀ k row, aqua_event db !! k = Some row → aqua_event db' !! k = Some row)
      ∧ (∀ k row, aqua_event db' !! k = Some row →
           aqua_event db !! k = Some row ∨ (row_event row ∈ events ∧ k = row_key (row_event row)))
  end.
Proof.
  intros Hm Hnd. unfold store_insert. destruct events as [|e0 events0] eqn:Hev.
  { intros [= <- <-]. split; [done|]. split_and!; [done|set_solver|done|by left]. }
  rewrite <-Hev in *. clear e0 events0 Hev. unfold mbind, cmd_bind, lift, gets, modify.
  destruct (event_i64_of (cfg_chain config)) as [ch|] eqn:Hc; [|intros [= <- <-]; done]. apply event_i64_of_Ok in Hc as ->.
  destruct (event_i64_of now) as [at_|]; [|intros [= <- <-]; done].
  destruct (db_step db) as [[[]|?] db1] eqn:H1; apply db_step_same in H1 as [Ht1 Hc1]; [|intros [= <- <-]; done].
  destruct (insert_rows (cfg_chain config) at_ events (aqua_event db1) db1) as [[[t' added]|err] db2] eqn:H2;
    apply insert_rows_spec in H2 as [[Ht2 Hc2] Hspec]; try done.
  2: { intros [= <- <-]. split; congruence. }
  destruct (db_step db2) as [[[]|?] db3] eqn:H3; apply db_step_same in H3 as [Ht3 Hc3].
  2: { intros [= <- <-]. split; congruence. }
  intros [= <- <-]. cbn. split; [congruence|]. destruct (Hspec t' added eq_refl) as (-> & Hall & Hkeep & Hnew).
  rewrite Ht1 in *. done.
Qed.

Lemma save_cursor_spec c db r db' :
  save_cursor (cfg_chain config) c db = (r, db') →
  aqua_event db' = aqua_event db ∧
  registry_cursor db' !! cfg_chain config
    = match r with Ok _ => Some c | Err _ => registry_cursor db !! cfg_chain config end.
Proof.
  unfold save_cursor, mbind, cmd_bind, lift, modify.
  destruct (event_i64_of (cfg_chain config)) as [ch|] eqn:Hc; [|intros [= <- <-]; done]. apply event_i64_of_Ok in Hc as ->.
  destruct (event_i64_of (cur_block c)) as [b|] eqn:Hb; [|intros [= <- <-]; done]. apply event_i64_of_Ok in Hb as ->.
  destruct (event_i64_of (cur_log c)) as [l|] eqn:Hl; [|intros [= <- <-]; done]. apply event_i64_of_Ok in Hl as ->.
  destruct (db_step db) as [[[]|?] db1] eqn:H1; apply db_step_same in H1 as [Ht1 Hc1]; intros [= <- <-]; cbn.
  - split; [done|]. rewrite lookup_insert_eq. by destruct c.
  - by rewrite Hc1.
Qed.

Lemma store_cursor_spec db r db' :
  store_cursor (cfg_chain config) db = (r, db') →
  same_tables db db' ∧ ∀ c, r = Ok c → c = registry_cursor db !! cfg_chain config.
Proof.
  unfold store_cursor, mbind, cmd_bind, lift, gets.
  destruct (event_i64_of (cfg_chain config)) as [ch|] eqn:Hc; [|intros [= <- <-]; done]. apply event_i64_of_Ok in Hc as ->.
  destruct (db_step db) as [[[]|?] db1] eqn:H1; apply db_step_same in H1; intros [= <- <-]; [|done].
  split; [done|]. intros c [= <-]. by destruct H1 as [_ ->].
Qed.

Lemma store_events_spec db r db' :
  store_events (cfg_chain config) db = (r, db') →
  same_tables db db' ∧ ∀ l, r = Ok l → l = replay (aqua_event db) (cfg_chain config).
Proof.
  unfold store_events, mbind, cmd_bind, lift, gets.
  destruct (event_i64_of (cfg_chain config)) as [ch|] eqn:Hc; [|intros [= <- <-]; done]. apply event_i64_of_Ok in Hc as ->.
  destruct (db_step db) as [[[]|?] db1] eqn:H1; apply db_step_same in H1; intros [= <- <-]; [|done].
  split; [done|]. intros c [= <-]. by destruct H1 as [-> _].
Qed.

(** ** One cycle *)

Record in_sync (s : RegistrySync) (hi : Z) : Prop := {
  is_log : holds (aqua_event (sync_store s)) hi;
  is_snapshot : sync_snapshot s = fold_events abi_decode snapshot_default (ext_event <$> upto hi);
  is_seen : ∀ c, c ∈ seen s → ∃ e, e ∈ canon ∧ blk e ≤ hi ∧ pos e = c;
  is_start : start_block config - 1 ≤ hi;
  is_cursor : ∀ c, registry_cursor (sync_store s) !! cfg_chain config = Some c → cur_block c ≤ hi
}.

Lemma in_sync_db s hi db :
  in_sync s hi → same_tables (sync_store s) db → in_sync (mk_registry_sync db (sync_snapshot s) (seen s)) hi.
Proof. intros [Hl Hs Hse Hst Hc] [Ht Hr]. constructor; cbn; rewrite ?Ht, ?Hr; done. Qed.

(** Inserting a scanned range extends the log to its end and yields the new events in chain order. *)
Lemma insert_step s hi from to fetched now r db :
  in_sync s hi → from ≤ hi + 1 → fetched ≡ₚ filter (λ e, from ≤ blk e ≤ to) canon →
  store_insert (cfg_chain config) now (filter (λ e, unseen (seen s) e = true) fetched) (sync_store s) = (r, db) →
  registry_cursor db = registry_cursor (sync_store s) ∧
  match r with
  | Err _ => aqua_event db = aqua_event (sync_store s)
  | Ok added => holds (aqua_event db) (Z.max hi to)
      ∧ merge_sort position_le added = filter (λ e, hi < blk e ≤ to) canon
  end.
Proof.
  intros [Hlog _ Hseen _ _] Hfrom Hf Hi.
  assert (Hfe : ∀ e, e ∈ fetched ↔ e ∈ canon ∧ from ≤ blk e ≤ to).
  { intros e. rewrite Hf, list_elem_of_filter. tauto. }
  assert (Hun : ∀ e, e ∈ canon → hi < blk e → unseen (seen s) e = true).
  { intros e He Hgt. unfold unseen. rewrite mined_cursor by (by apply canon_mined).
    rewrite bool_decide_eq_false_2; [done|]. intros Hin. destruct (Hseen _ Hin) as (e' & _ & Hle & [= Hb _]). lia. }
  set (fresh := filter _ fetched) in *.
  assert (Hfr : ∀ e, e ∈ fresh ↔ e ∈ canon ∧ from ≤ blk e ≤ to ∧ unseen (seen s) e = true).
  { intros e. unfold fresh. rewrite list_elem_of_filter, Hfe. tauto. }
  apply store_insert_spec in Hi as [Hcur Hi].
  2: { intros e [He _]%Hfr. by apply canon_mined. }
  2: { apply NoDup_fmap_2_strong.
       - intros a b [Ha _]%Hfr [Hb _]%Hfr Hk. apply canon_pos_inj; [done..|]. by apply row_key_pos.
       - unfold fresh. apply NoDup_filter. rewrite Hf. apply NoDup_filter, canon_NoDup. }
  split; [done|]. destruct r as [added|]; [|done]. destruct Hi as (-> & Hall & Hkeep & Hnew). split.
  - constructor.
    + intros k row Hk Hch. destruct (Hnew k row Hk) as [Hold|[Hin Heq]].
      * destruct (holds_rows _ _ Hlog k row Hold Hch) as (? & ? & ?). split_and!; [done|lia|done].
      * apply Hfr in Hin as (? & ? & _). split_and!; [done|lia|done].
    + intros e He Hle. destruct (Z.le_gt_cases (blk e) hi) as [Hlo|Hgt].
      * destruct (holds_all _ _ Hlog e He Hlo) as [row Hr]. exists row. by apply Hkeep.
      * apply Hall, Hfr. split_and!; [done|lia|lia|by apply Hun].
  - apply sort_canon. apply NoDup_Permutation.
    + apply NoDup_filter. unfold fresh. apply NoDup_filter. rewrite Hf. apply NoDup_filter, canon_NoDup.
    + apply NoDup_filter, canon_NoDup.
    + intros e. rewrite !list_elem_of_filter, Hfr. split.
      * intros (Hn & He & Hr & _). apply (holds_beyond _ _ _ Hlog He) in Hn. split; [lia|done].
      * intros [Hr He]. split; [apply (holds_beyond _ _ _ Hlog He); lia|]. split_and!; [done|lia|lia|apply Hun; [done|lia]].
Qed.

Lemma fold_upto hi to :
  fold_events abi_decode (fold_events abi_decode snapshot_default (ext_event <$> upto hi))
    (ext_event <$> filter (λ e, hi < blk e ≤ to) canon)
  = fold_events abi_decode snapshot_default (ext_event <$> upto (Z.max hi to)).
Proof.
  unfold upto. rewrite filter_upto_split by apply Hchain. rewrite fmap_app. unfold fold_events. by rewrite foldl_app.
Qed.

(** The scanned range becomes the new prefix of a registry that folded it. *)
Lemma in_sync_extend s hi to from fetched added db :
  in_sync s hi → fetched ≡ₚ filter (λ e, from ≤ blk e ≤ to) canon →
  registry_cursor db = registry_cursor (sync_store s) → holds (aqua_event db) (Z.max hi to) →
  merge_sort position_le added = filter (λ e, hi < blk e ≤ to) canon →
  in_sync (mk_registry_sync db (fold_events abi_decode (sync_snapshot s) (ext_event <$> merge_sort position_le added))
    (seen s ∪ list_to_set (omap cursor (filter (λ e, unseen (seen s) e = true) fetched)))) (Z.max hi to).
Proof.
  intros [_ Hsn Hse Hst Hcu] Hf Hcur Hlog Hadd. constructor; cbn [sync_store sync_snapshot seen].
  - done.
  - rewrite Hsn, Hadd. apply fold_upto.
  - intros c [Hc|Hc]%elem_of_union.
    + destruct (Hse c Hc) as (e & He & Hle & Hp). exists e. split_and!; [done|lia|done].
    + apply elem_of_list_to_set, list_elem_of_omap in Hc as (e & [_ He]%list_elem_of_filter & Hc).
      rewrite Hf in He. apply list_elem_of_filter in He as [Hr He]. exists e.
      rewrite mined_cursor in Hc by (by apply canon_mined). injection Hc as <-. split_and!; [done|lia|done].
  - lia.
  - intros c. rewrite Hcur. intros Hc. specialize (Hcu c Hc). lia.
Qed.

Lemma fold_inserted inserted s :
  (match inserted with
   | [] => mret tt
   | _ :: _ => λ s0 : RegistrySync,
       publish_snapshot (fold_events abi_decode (sync_snapshot s0) (ext_event <$> merge_sort position_le inserted)) s0
   end : cmd RegistrySync SyncError unit) s
  = (Ok tt, mk_registry_sync (sync_store s)
      (fold_events abi_decode (sync_snapshot s) (ext_event <$> merge_sort position_le inserted)) (seen s)).
Proof. destruct inserted; [|done]. by destruct s. Qed.

(** Whatever fails, a cycle keeps the registry in sync with a prefix of the chain, and a successful one
    has caught up with its tip. *)
Lemma sync_once_ok fetch now to_block s hi r s' :
  in_sync s hi → source_ok fetch → sync_once abi_decode config fetch now to_block s = (r, s') →
  ∃ hi', hi ≤ hi' ∧ in_sync s' hi'
    ∧ (r = Ok tt → to_block ≤ hi' ∧ ∃ c, registry_cursor (sync_store s') !! cfg_chain config = Some c ∧ to_block ≤ cur_block c).
Proof.
  intros Hs Hsrc. unfold sync_once, mbind, cmd_bind, lift, gets. unfold on_db at 1.
  destruct (store_cursor (cfg_chain config) (sync_store s)) as [rc db1] eqn:Hc. apply store_cursor_spec in Hc as [Hsame Hresume].
  pose proof (in_sync_db s hi db1 Hs Hsame) as Hs1. set (s1 := mk_registry_sync db1 (sync_snapshot s) (seen s)) in *.
  destruct rc as [resume|]; cbn [map_err]; [|intros [= <- <-]; exists hi; split_and!; [lia|done|done]].
  specialize (Hresume resume eq_refl). set (from := match resume with None => _ | Some c => _ end).
  assert (Hfrom : from ≤ hi + 1).
  { unfold from, u64_saturating_sub. pose proof (canon_overlap Hchain). pose proof (is_start _ _ Hs).
    destruct resume as [c|]; [|lia]. symmetry in Hresume. pose proof (is_cursor _ _ Hs c Hresume). lia. }
  destruct (fetch from to_block) as [fetched|] eqn:Hf; cbn [ok_or]; [|intros [= <- <-]; exists hi; split_and!; [lia|done|done]].
  apply Hsrc in Hf. unfold on_db at 1.
  destruct (store_insert (cfg_chain config) now _ (sync_store s1)) as [ri db2] eqn:Hi.
  apply (insert_step s1 hi from to_block fetched now ri db2 Hs1 Hfrom Hf) in Hi as [Hcur Hi].
  destruct ri as [added|]; cbn [map_err].
  2: { intros [= <- <-]. exists hi. split_and!; [lia| |done]. by apply (in_sync_db s1). }
  destruct Hi as [Hlog Hadd]. unfold mark_seen, modify. rewrite fold_inserted. cbn [sync_store sync_snapshot seen].
  pose proof (in_sync_extend s1 hi to_block from fetched added db2 Hs1 Hf Hcur Hlog Hadd) as Hs3.
  set (s3 := mk_registry_sync db2 _ _) in *. unfold on_db.
  set (progress := match resume with None => to_block | Some c => Z.max to_block (cur_block c) end).
  destruct (save_cursor (cfg_chain config) (mk_cursor progress 0) (sync_store s3)) as [rs db4] eqn:Hsv.
  apply save_cursor_spec in Hsv as [Ht4 Hc4]. intros [= <- <-]. exists (Z.max hi to_block). split; [lia|].
  assert (Hprog : to_block ≤ progress ≤ Z.max hi to_block).
  { unfold progress. destruct resume as [c|]; [|lia]. symmetry in Hresume. pose proof (is_cursor _ _ Hs c Hresume). lia. }
  split; [|intros Hr; destruct rs; [|done]; split; [lia|]; cbn [sync_store]; rewrite Hc4; eexists; split; [done|]; cbn; lia].
  destruct Hs3 as [H1 H2 H3 H4 H5]. constructor; cbn [sync_store sync_snapshot seen]; try done; [by rewrite Ht4|].
  intros c. rewrite Hc4. destruct rs; [intros [= <-]; cbn; lia|by apply H5].
Qed.

(** A restart rebuilds the snapshot the registry already had. *)
Lemma recover_ok s hi snapshot cache r s' :
  in_sync s hi → recover abi_decode config (mk_registry_sync (sync_store s) snapshot cache) = (r, s') →
  same_tables (sync_store s) (sync_store s') ∧ seen s' = cache
  ∧ (r = Ok tt → sync_snapshot s' = sync_snapshot s).
Proof.
  intros Hs. unfold recover, mbind, cmd_bind, on_db. cbn [sync_store].
  destruct (store_events (cfg_chain config) (sync_store s)) as [re db1] eqn:He. apply store_events_spec in He as [Hsame Hre].
  destruct re as [events|]; cbn [map_err]; intros [= <- <-]; cbn; [|done]. split_and!; [done|done|]. intros _.
  rewrite (Hre events eq_refl), (replay_holds _ hi) by apply Hs. by rewrite (is_snapshot _ _ Hs).
Qed.

Definition event_in_order (ev : sync_event) : Prop :=
  match ev with Cycle fetch _ _ => source_ok fetch | _ => True end.

Lemma sync_exec_ok s hi ev :
  in_sync s hi → event_in_order ev → ∃ hi', hi ≤ hi' ∧ in_sync (sync_exec abi_decode config s ev) hi'.
Proof.
  intros Hs Hev. destruct ev as [fetch now to_block|gone|]; cbn [sync_exec].
  - destruct (sync_once abi_decode config fetch now to_block s) as [r s'] eqn:H.
    destruct (sync_once_ok _ _ _ _ _ _ _ Hs Hev H) as (hi' & Hle & Hs' & _). by exists hi'.
  - exists hi. split; [lia|]. destruct Hs as [? ? Hse ? ?]. constructor; cbn; try done. intros c Hc. apply Hse. set_solver.
  - exists hi. split; [lia|]. destruct (recover abi_decode config _) as [r s'] eqn:H.
    apply (recover_ok s hi) in H as (Hsame & Hseen & Hsnap); [|done].
    destruct r as [[]|]; [|by apply in_sync_db]. pose proof (in_sync_db s hi _ Hs Hsame) as [H1 H2 _ H4 H5].
    constructor; cbn in *; try done; [by rewrite Hsnap|]. rewrite Hseen. set_solver.
Qed.

Lemma sync_run_ok s hi evs :
  in_sync s hi → Forall event_in_order evs → ∃ hi', hi ≤ hi' ∧ in_sync (sync_run abi_decode config s evs) hi'.
Proof.
  intros Hs Hevs. revert s hi Hs. induction Hevs as [|ev evs Hev Hevs IH]; intros s hi Hs; [by exists hi; split; [lia|]|].
  destruct (sync_exec_ok s hi ev Hs Hev) as (h1 & Hle1 & Hs1). destruct (IH _ h1 Hs1) as (h2 & Hle2 & Hs2).
  exists h2. split; [lia|done].
Qed.

End stable_chain.

(** ** Properties *)

(** A registry before its first cycle. *)
Definition sync_new (outcomes : list bool) : RegistrySync :=
  mk_registry_sync (mk_event_db ∅ ∅ outcomes) snapshot_default ∅.

Lemma sync_new_ok abi_decode config canon outcomes :
  chain_ok config canon → in_sync abi_decode config canon (sync_new outcomes) (start_block config - 1).
Proof.
  intros Hc. assert (Hnil : upto canon (start_block config - 1) = []).
  { unfold upto. destruct (filter (λ e, blk e ≤ start_block config - 1) canon) as [|x rest] eqn:Hfl; [reflexivity|].
    assert (Hin : x ∈ filter (λ e, blk e ≤ start_block config - 1) canon) by (rewrite Hfl; left).
    apply list_elem_of_filter in Hin as [Hle Hin]. pose proof (canon_start _ _ Hc x Hin). lia. }
  constructor; cbn.
  - constructor; [intros k row Hk; by rewrite lookup_empty in Hk|]. intros e He Hle. pose proof (canon_start _ _ Hc e He). lia.
  - by rewrite Hnil.
  - set_solver.
  - lia.
  - intros c Hk. by rewrite lookup_empty in Hk.
Qed.

(** C21: the published registry is always the durable log replayed.  Over a chain that does not reorganise and a
    source that answers a request with all the events of its range or fails, after any cycles, cache evictions and
    restarts, with any such failures of the source and of the database, the log holds exactly the chain's events up to some
    block (no gap, no duplicate, nothing else), in chain order; the snapshot is the fold of that log, every event once; the saved cursor never runs ahead of it; and a
    restart that succeeds publishes the same snapshot. *)
Theorem snapshot_is_the_log_replayed abi_decode config canon outcomes evs :
  chain_ok config canon → Forall (event_in_order canon) evs →
  let s := sync_run abi_decode config (sync_new outcomes) evs in
  ∃ hi, replay (aqua_event (sync_store s)) (cfg_chain config) = upto canon hi
    ∧ sync_snapshot s
      = fold_events abi_decode snapshot_default (ext_event <$> replay (aqua_event (sync_store s)) (cfg_chain config))
    ∧ (∀ c, registry_cursor (sync_store s) !! cfg_chain config = Some c → cur_block c ≤ hi)
    ∧ (∀ s', recover abi_decode config (mk_registry_sync (sync_store s) snapshot_default ∅) = (Ok tt, s') →
         sync_snapshot s' = sync_snapshot s).
Proof.
  intros Hc Hevs s. destruct (sync_run_ok abi_decode config canon Hc _ _ evs (sync_new_ok _ _ _ outcomes Hc) Hevs)
    as (hi & _ & Hs). fold s in Hs. exists hi. rewrite (replay_holds config canon Hc _ hi) by apply Hs.
  split_and!; [done|apply Hs|apply Hs|]. intros s' Hr. by apply (recover_ok abi_decode config canon Hc s hi) in Hr as (_ & _ & ->).
Qed.

(** A cycle that reports success has caught up: every event of the chain up to its tip is in the log and
    in the snapshot, and the cursor has reached the tip. *)
Theorem successful_cycle_has_caught_up abi_decode config canon outcomes evs fetch now to_block s' :
  chain_ok config canon → Forall (event_in_order canon) evs → source_ok canon fetch →
  sync_once abi_decode config fetch now to_block (sync_run abi_decode config (sync_new outcomes) evs) = (Ok tt, s') →
  ∃ hi, to_block ≤ hi ∧ replay (aqua_event (sync_store s')) (cfg_chain config) = upto canon hi
    ∧ sync_snapshot s' = fold_events abi_decode snapshot_default (ext_event <$> upto canon hi)
    ∧ ∃ c, registry_cursor (sync_store s') !! cfg_chain config = Some c ∧ to_block ≤ cur_block c.
Proof.
  intros Hc Hevs Hsrc Hcyc.
  destruct (sync_run_ok abi_decode config canon Hc _ _ evs (sync_new_ok _ _ _ outcomes Hc) Hevs) as (h0 & _ & Hs).
  destruct (sync_once_ok abi_decode config canon Hc _ _ _ _ _ _ _ Hs Hsrc Hcyc) as (hi & _ & Hs' & Hdone).
  destruct (Hdone eq_refl) as [Hle Hcur]. exists hi. split_and!; [done|apply (replay_holds config canon Hc), Hs'|apply Hs'|done].
Qed.

(** ** A strategy shipped and funded over three blocks *)

Definition demo_ext (e : AquaEvent) (block log : Z) : EventExt :=
  mk_ext e 9 (Some (block + 1000)) (Some block) (Some 7) (Some 0) (Some log) false.
Definition demo_canon : list EventExt :=
  [demo_ext (Shipped 1 9 7 []) 10 0; demo_ext (Pushed 1 9 7 3 500) 11 0; demo_ext (Pushed 1 9 7 5 800) 12 1].
Definition demo_chain : ChainConfig := mk_chain_config 1 10 5.
Definition demo_fetch (from to : Z) : option (list EventExt) :=
  Some (rev (filter (λ e, from ≤ blk e ≤ to) demo_canon)).
Definition demo_no_decode (strategy : list Z) : option Order := None.

Lemma demo_chain_ok : chain_ok demo_chain demo_canon.
Proof.
  constructor.
  - intros e He. repeat (apply elem_of_cons in He as [->|He]; [done|]). by apply elem_of_nil in He.
  - intros e He. repeat (apply elem_of_cons in He as [->|He]; [cbn; lia|]). by apply elem_of_nil in He.
  - repeat (apply SSorted_cons; [|repeat (apply Forall_cons_2; [left; cbn; lia|]); apply Forall_nil_2]). apply SSorted_nil.
  - cbn. lia.
Qed.

Lemma demo_fetch_ok : source_ok demo_canon demo_fetch.
Proof. intros from to l [= <-]. by rewrite <-Permutation_rev. Qed.

(** Two cycles, the first failing to save its cursor, and a restart. *)
Definition demo_history : list sync_event :=
  [Cycle demo_fetch 1 11; Evict {[mk_cursor 10 0]}; Cycle demo_fetch 2 12; Restart].

Lemma demo_history_ok : Forall (event_in_order demo_canon) demo_history.
Proof.
  apply Forall_cons_2; [apply demo_fetch_ok|]. apply Forall_cons_2; [exact I|].
  apply Forall_cons_2; [apply demo_fetch_ok|]. apply Forall_cons_2; [exact I|apply Forall_nil_2].
Qed.

Definition demo_sync_outcomes : list bool := [true; true; true; true; true; false].

Lemma snapshot_is_the_log_replayed_witness :
  let s := sync_run demo_no_decode demo_chain (sync_new demo_sync_outcomes) demo_history in
  replay (aqua_event (sync_store s)) 1 = demo_canon
  ∧ sync_snapshot s = fold_events demo_no_decode snapshot_default (ext_event <$> demo_canon).
Proof.
  intros s. assert (Hl : replay (aqua_event (sync_store s)) 1 = demo_canon) by (vm_compute; reflexivity).
  split; [exact Hl|].
  destruct (snapshot_is_the_log_replayed demo_no_decode demo_chain demo_canon demo_sync_outcomes demo_history
    demo_chain_ok demo_history_ok) as (hi & _ & Hsn & _).
  rewrite <-Hl. exact Hsn.
Defined.

Lemma successful_cycle_has_caught_up_witness :
  ∃ s', sync_once demo_no_decode demo_chain demo_fetch 3 12
          (sync_run demo_no_decode demo_chain (sync_new demo_sync_outcomes) demo_history) = (Ok tt, s')
    ∧ ∃ hi, 12 ≤ hi ∧ replay (aqua_event (sync_store s')) 1 = upto demo_canon hi.
Proof.
  eexists. assert (Hr : sync_once demo_no_decode demo_chain demo_fetch 3 12
    (sync_run demo_no_decode demo_chain (sync_new demo_sync_outcomes) demo_history) = (Ok tt, _)) by (vm_compute; reflexivity).
  split; [exact Hr|].
  destruct (successful_cycle_has_caught_up demo_no_decode demo_chain demo_canon demo_sync_outcomes demo_history demo_fetch 3 12 _
    demo_chain_ok demo_history_ok demo_fetch_ok Hr) as (hi & Hle & Hrep & _).
  exists hi. split; [exact Hle|exact Hrep].
Defined.

(** A source that first omits the [Shipped]. *)
Definition omitting_fetch (from to : Z) : option (list EventExt) :=
  Some (filter (λ e, 11 ≤ blk e ∧ from ≤ blk e ≤ to) demo_canon).

(** A source that first omits a [Shipped] and returns it on the overlap re-scan: the event reaches the
    log, but it is folded after the [Pushed] that needed it, so the published strategy has no balance while a
    replay of the same log funds it. *)
Theorem omitted_event_folds_late :
  let s := sync_run demo_no_decode demo_chain (sync_new [])
             [Cycle omitting_fetch 1 12; Cycle demo_fetch 2 12] in
  replay (aqua_event (sync_store s)) 1 = demo_canon
  ∧ (λ m, balance m 3) <$> strategies (sync_snapshot s) !! mk_strategy_key 1 9 7 = Some 0
  ∧ (λ m, balance m 3) <$> strategies (fold_events demo_no_decode snapshot_default (ext_event <$> demo_canon))
        !! mk_strategy_key 1 9 7 = Some 500.
Proof. vm_compute. done. Qed.
