(* ===== verification/Candidates.v ===== *)
(** * Candidate venues

    [crates/core/src/routing/candidates.rs] and [guard.rs]: the priceable maker venues
    of a pair, net of fees, with their frozen output ceilings, ranked and cut to the
    best [k]; and the set of strategies withheld from routing. *)

From Stdlib Require Import Lqa.
From S2P Require Import Prelude U256 Reservation Ratio CurveDecode Curves CurveProperties Registry.

Record Candidate := mk_candidate {
  cand_key : StrategyKey;
  cand_token_in : Address;
  cand_token_out : Address;
  cap_out : U256;
  wallet_cap : U256;
  pool : CurvePool;
  fees_in_bps : list Z
}.

#[global] Instance Candidate_inhabited : Inhabited Candidate :=
  populate (mk_candidate (mk_strategy_key 0 0 0) 0 0 0 0 (XycCurve (mk_xyc 0 0)) []).

Definition BPS : Z := 1000000000.

Definition gamma_factor (g : Ratio) (f : Z) : curve_result Ratio :=
  retained ← ok_or (checked_sub_nonzero BPS f) InvalidParams;
  factor ← ok_or (Ratio_new retained BPS) DivByZero;
  Ok (ratio_mul g factor).

Definition gamma (c : Candidate) : curve_result Ratio := try_fold gamma_factor (ratio_from 1) (fees_in_bps c).

Definition cand_marginal_price (c : Candidate) : curve_result Ratio :=
  p ← marginal_price (pool c);
  g ← gamma c;
  Ok (ratio_mul p g).

Definition net_quote_exact_in (c : Candidate) (gross_in : U256) : curve_result U256 :=
  net ← shrink_by_fees gross_in (fees_in_bps c);
  quote_exact_in (pool c) net.

Definition net_quote_exact_out (c : Candidate) (amount_out : U256) : curve_result U256 :=
  curve_in ← quote_exact_out (pool c) amount_out;
  gross_up_by_fees curve_in (fees_in_bps c).

Definition input_within_output (c : Candidate) (max_out : U256) : option U256 :=
  input ← ok (net_quote_exact_out c max_out);
  match net_quote_exact_in c input with
  | Ok out => if out <=? max_out then Some input else Some (saturating_sub input 1)
  | Err _ => None
  end.

Definition feasible_input (c : Candidate) (upper : U256) : U256 :=
  feasible_bound upper (λ input, is_ok (net_quote_exact_in c input)).

(** [iter.find_map(f)] *)
Fixpoint find_map {A B} (f : A → option B) (l : list A) : option B :=
  match l with
  | [] => None
  | x :: l' => match f x with Some b => Some b | None => find_map f l' end
  end.

Definition full_input_bound (c : Candidate) : U256 :=
  match find_map (λ output, input ← ok (net_quote_exact_out c output);
                            if is_ok (net_quote_exact_in c input) then Some input else None)
          (filter (λ output, output ≠ 0) [cap_out c; saturating_sub (cap_out c) 1]) with
  | Some input => input
  | None => feasible_input c U256_MAX
  end.

Definition net_quote_with_limit (c : Candidate) (gross_bound : U256) (limit : Ratio) :
    curve_result LimitedQuote :=
  g ← gamma c;
  inv ← ok_or (invert g) DivByZero;
  let net_limit := ratio_mul limit inv in
  net_bound ← shrink_by_fees gross_bound (fees_in_bps c);
  net ← quote_with_limit (pool c) net_bound net_limit;
  gross ← gross_up_by_fees (lq_amount_in net) (fees_in_bps c);
  Ok (mk_limited (Z.min gross gross_bound) (lq_amount_out net) (lq_limited net)).

Definition MIN_PROBE_OUT : Z := 1000000.
Definition PROBE_DIVISORS : list Z := [1000000; 1000; 1].

Fixpoint spot_probe (c : Candidate) (amount : U256) (divisors : list Z) (marginal : option Ratio) :
    option Ratio :=
  match divisors with
  | [] => marginal
  | divisor :: rest =>
      let probe := Z.max (amount / divisor) 1 in
      match net_quote_exact_in c probe with
      | Err _ => marginal
      | Ok out =>
          let marginal' := Ratio_new out probe in
          if MIN_PROBE_OUT <=? out then marginal' else spot_probe c amount rest marginal'
      end
  end.

Definition spot_marginal (c : Candidate) (amount : U256) : option Ratio :=
  spot_probe c amount PROBE_DIVISORS None.

(** [Iterator::max] over ratios. *)
Definition ratio_max (l : list Ratio) : option Ratio :=
  foldl (λ best x, match best with
                   | None => Some x
                   | Some b => if ratio_le b x then Some x else Some b
                   end) None l.

(** ** The guard *)

Definition GuardSnapshot : Type := gset StrategyKey.

Definition is_guarded (g : GuardSnapshot) (key : StrategyKey) : bool := bool_decide (key ∈ g).
Definition guard (g : GuardSnapshot) (key : StrategyKey) : GuardSnapshot := g ∪ {[key]}.
Definition unguard (g : GuardSnapshot) (key : StrategyKey) : GuardSnapshot := g ∖ {[key]}.

(** ** Selection *)

Record RouteRequest := mk_request {
  req_intent : IntentId;
  req_token_in : Address;
  req_token_out : Address;
  req_amount : U256;
  req_exact_in : bool
}.

Abbreviation AvailableSnapshot := (gmap AccountKey U256).

Definition available (caps : AvailableSnapshot) (a : AccountKey) : U256 := default 0 (caps !! a).

Record FrozenCap := mk_frozen { deliverable : U256; wallet : U256 }.

Definition frozen_cap (s : MakerStrategy) (caps : AvailableSnapshot) (token_out : Address) : FrozenCap :=
  let w := available caps (WalletBudget (key_maker (strat_key s)) token_out) in
  let v := available caps (StrategyVirtual (key_maker (strat_key s)) (key_hash (strat_key s)) token_out) in
  mk_frozen (Z.min w v) w.

Definition build_pricing_candidate (s : MakerStrategy) (caps : AvailableSnapshot)
    (token_in token_out : Address) : option Candidate :=
  if negb (active s) then None
  else match strat_curve s with
       | Unsupported => None
       | Priceable curve fees =>
           let balance_in := balance s token_in in
           let balance_out := balance s token_out in
           if (balance_in =? 0) || (balance_out =? 0) then None
           else
             let cap := frozen_cap s caps token_out in
             Some (mk_candidate (strat_key s) token_in token_out (deliverable cap) (wallet cap)
               (from_curve curve token_in token_out balance_in balance_out) fees)
       end.

Definition build_candidate (s : MakerStrategy) (caps : AvailableSnapshot) (token_in token_out : Address) :
    option Candidate :=
  c ← build_pricing_candidate s caps token_in token_out;
  if cap_out c =? 0 then None else Some c.

Record Scored := mk_scored { score : option U256; scored : Candidate }.

Definition best_first (exact_in : bool) (a b : Scored) : comparison :=
  let by_score := match score a, score b with
                  | Some x, Some y => if exact_in then y ?= x else x ?= y
                  | Some _, None => Lt
                  | None, Some _ => Gt
                  | None, None => Eq
                  end in
  match by_score with
  | Eq => key_hash (cand_key (scored a)) ?= key_hash (cand_key (scored b))
  | c => c
  end.

Definition best_le (exact_in : bool) (a b : Scored) : Prop := best_first exact_in a b ≠ Gt.

#[global] Instance best_le_dec exact_in : RelDecision (best_le exact_in).
Proof. intros a b. unfold best_le. apply _. Defined.

Definition candidate_score (req : RouteRequest) (c : Candidate) : option U256 :=
  if req_exact_in req then ok (net_quote_exact_in c (req_amount req))
  else ok (net_quote_exact_out c (Z.min (req_amount req) (cap_out c))).

Record Selection := mk_selection { chosen : list Candidate; best_omitted_spot : option Ratio }.

Definition eligible (snapshot : Snapshot) (caps : AvailableSnapshot) (guards : GuardSnapshot)
    (req : RouteRequest) : list Candidate :=
  omap (λ s, build_candidate s caps (req_token_in req) (req_token_out req))
    (filter (λ s, is_guarded guards (strat_key s) = false)
       (active_strategies_for_pair snapshot (TokenPair_new (req_token_in req) (req_token_out req)))).

(** Partitioning off the best [k] and sorting them is sorting and cutting at [k]: the order is total on
    distinct strategy hashes. *)
Definition select (snapshot : Snapshot) (caps : AvailableSnapshot) (guards : GuardSnapshot)
    (req : RouteRequest) (k : nat) : Selection :=
  let ranked := merge_sort (best_le (req_exact_in req))
    ((λ c, mk_scored (candidate_score req c) c) <$> eligible snapshot caps guards req) in
  mk_selection (scored <$> take k ranked)
    (if (k <? length ranked)%nat
     then ratio_max (omap (λ s, spot_marginal (scored s) (req_amount req)) (drop k ranked))
     else None).

(** The shortfall from the best spot rate in basis points (the source divides by 100 for a percentage). *)
Definition price_impact_bps (cs : list Candidate) (amount_in amount_out : U256) : Z :=
  match ratio_max (omap (λ c, spot_marginal c amount_in) cs), Ratio_new amount_out amount_in with
  | Some best, Some effective => rel_diff_bps effective best
  | _, _ => 0
  end.

(** * What routing relies on of a venue

    The contract between pricing and routing ([pool_laws]): quotes are words, a
    price-bounded fill stays within its bound, and no venue fills at a price above any
    word.  Every curve built from well-formed reserves meets it. *)

#[local] Open Scope Z_scope.

Record pool_laws (p : CurvePool) : Prop := {
  law_exact_in : ∀ x y, is_u256 x → quote_exact_in p x = Ok y → is_u256 y;
  law_exact_out : ∀ y x, is_u256 y → quote_exact_out p y = Ok x → is_u256 x;
  law_limit : ∀ x limit q, is_u256 x → quote_with_limit p x limit = Ok q →
    0 ≤ lq_amount_in q ≤ x ∧ is_u256 (lq_amount_out q);
  law_top : ∀ x limit q, is_u256 x → (inject_Z U256_MAX < limit)%Q →
    quote_with_limit p x limit = Ok q → lq_amount_in q = 0
}.

Definition fees_ok (fees : list Z) : Prop := Forall (λ f, 0 ≤ f ≤ bps_denominator) fees.

Record cand_ok (c : Candidate) : Prop := {
  cand_pool : pool_laws (pool c);
  cand_fees : fees_ok (fees_in_bps c);
  cand_cap : is_u256 (cap_out c)
}.

(** ** Fees *)

Lemma fee_in_range g f n : 0 ≤ f → 0 ≤ g → apply_flat_fee_in g f = Ok n → 0 ≤ n ≤ g.
Proof.
  intros Hf Hg H. unfold apply_flat_fee_in in H. simplify_res. apply checked_sub_Some in H as [-> ?].
  apply cmul_Ok in E as [-> _]. apply ceil_div_nonneg in E0; [lia|nia|done].
Qed.

Lemma shrink_range fees g n : fees_ok fees → 0 ≤ g → shrink_by_fees g fees = Ok n → 0 ≤ n ≤ g.
Proof.
  unfold shrink_by_fees. intros Hf. revert g. induction Hf as [|f fees Hf _ IH]; intros g Hg; cbn.
  { intros [= <-]. lia. }
  intros (n1 & Hn1 & Hin)%bind_Ok. apply fee_in_range in Hn1; [|lia..]. apply IH in Hin; lia.
Qed.

Lemma fee_out_range a f g : 0 ≤ f → 0 ≤ a → apply_flat_fee_out a f = Ok g → a ≤ g ≤ U256_MAX.
Proof.
  intros Hf Ha H. unfold apply_flat_fee_out in H. simplify_res. apply checked_sub_nonzero_Some in E as [-> ?].
  apply cadd_Ok in H as [-> ?]. apply cmul_Ok in E0 as [-> _]. apply ceil_div_nonneg in E1; [lia|nia|lia].
Qed.

Lemma gross_up_range fees a g : fees_ok fees → is_u256 a → gross_up_by_fees a fees = Ok g → a ≤ g ≤ U256_MAX.
Proof.
  unfold gross_up_by_fees. intros Hf Ha. assert (Hr : fees_ok (rev fees)) by (by apply Forall_rev).
  revert a Ha. induction Hr as [|f fs Hfs _ IH]; intros a Ha; cbn; [intros [= <-]; u256|].
  intros (g1 & Hg1 & Hin)%bind_Ok. apply fee_out_range in Hg1; [|lia|apply Ha]. apply IH in Hin; [lia|].
  destruct Ha. split; lia.
Qed.

Lemma gross_up_zero fees g : gross_up_by_fees 0 fees = Ok g → g = 0.
Proof.
  unfold gross_up_by_fees. generalize (rev fees) as fs. induction fs as [|f fs IH]; cbn; [by intros [= <-]|].
  intros (g1 & Hg1 & Hin)%bind_Ok. unfold apply_flat_fee_out in Hg1. simplify_res.
  apply cmul_Ok in E0 as [-> _]. apply cadd_Ok in Hg1 as [-> _]. unfold ceil_div in E1. cbn in E1.
  destruct (x =? 0); [done|]. injection E1 as <-. by apply IH.
Qed.

Lemma gamma_factor_range g f g' :
  0 ≤ f → (0 < g <= 1)%Q → gamma_factor g f = Ok g' → (0 < g' <= 1)%Q.
Proof.
  intros Hf [Hg0 Hg1] H. unfold gamma_factor in H. simplify_res. apply checked_sub_nonzero_Some in E as [-> Hlt].
  apply Ratio_new_Some in E0; [|done]. unfold ratio_mul. rewrite Qred_correct, E0.
  assert (Hfac : (0 < inject_Z (BPS - f) / inject_Z BPS <= 1)%Q).
  { split.
    - apply Qlt_shift_div_l; [done|]. rewrite Qmult_0_l, <-(Zlt_Qlt 0). lia.
    - apply Qle_shift_div_r; [done|]. rewrite Qmult_1_l, <-Zle_Qle. lia. }
  set (r := (inject_Z (BPS - f) / inject_Z BPS)%Q) in *. clearbody r. clear E0. nra.
Qed.

Lemma gamma_range c g : fees_ok (fees_in_bps c) → gamma c = Ok g → (0 < g <= 1)%Q.
Proof.
  unfold gamma. intros Hf. assert (H1 : (0 < ratio_from 1 <= 1)%Q) by done. revert H1.
  generalize (ratio_from 1) as g0. induction Hf as [|f fs Hf _ IH]; intros g0 Hg0; cbn; [by intros [= <-]|].
  intros (g1 & Hg1 & Hin)%bind_Ok. eapply IH; [|exact Hin]. eapply gamma_factor_range; [|done..]. lia.
Qed.

(** ** Venues *)

Lemma net_exact_in_range c x y : cand_ok c → is_u256 x → net_quote_exact_in c x = Ok y → is_u256 y.
Proof.
  intros [Hp Hf _] Hx (n & Hn & Hq)%bind_Ok. apply shrink_range in Hn; [|done|apply Hx].
  eapply law_exact_in; [done| |exact Hq]. destruct Hx. split; lia.
Qed.

Lemma net_exact_out_range c y x : cand_ok c → is_u256 y → net_quote_exact_out c y = Ok x → is_u256 x.
Proof.
  intros [Hp Hf _] Hy (n & Hn & Hq)%bind_Ok. apply law_exact_out in Hn; [|done..].
  apply gross_up_range in Hq; [|done..]. destruct Hn. split; lia.
Qed.

Lemma net_limit_range c bound limit q :
  cand_ok c → is_u256 bound → net_quote_with_limit c bound limit = Ok q →
  0 ≤ lq_amount_in q ≤ bound ∧ is_u256 (lq_amount_out q).
Proof.
  intros [Hp Hf _] Hb. unfold net_quote_with_limit. intros H. simplify_res.
  apply shrink_range in E1; [|done|apply Hb]. apply law_limit in E2 as [Hin Hout]; [|done|destruct Hb; split; lia].
  apply gross_up_range in E3; [|done|destruct Hb; split; lia]. cbn. split; [lia|done].
Qed.

(** Above every price a word can express, nothing fills. *)
Lemma net_limit_top c bound limit q :
  cand_ok c → is_u256 bound → (inject_Z U256_MAX < limit)%Q → net_quote_with_limit c bound limit = Ok q →
  lq_amount_in q = 0.
Proof.
  intros [Hp Hf _] Hb Hl. unfold net_quote_with_limit. intros H. simplify_res.
  apply gamma_range in E as [Hg0 Hg1]; [|done].
  apply shrink_range in E1; [|done|apply Hb]. apply law_top in E2; [|done|destruct Hb; split; lia|].
  - rewrite E2 in E3. apply gross_up_zero in E3. subst. cbn. destruct Hb. lia.
  - unfold ratio_mul. rewrite Qred_correct. unfold invert in E0. case_match; [done|]. injection E0 as <-.
    assert (Hinv : (1 <= / x)%Q).
    { rewrite <-(Qmult_1_l (/ x)). apply Qle_shift_div_l; [done|]. by rewrite Qmult_1_l. }
    assert (H0 : (0 <= inject_Z U256_MAX)%Q) by done. set (m := inject_Z U256_MAX) in *. clearbody m.
    set (i := (/ x)%Q) in *. clearbody i. nra.
Qed.

(** The input that fills a venue to its ceiling is a word. *)
Lemma full_input_bound_range c : cand_ok c → is_u256 (full_input_bound c).
Proof.
  intros Hc. pose proof (cand_cap c Hc) as Hcap. unfold full_input_bound.
  assert (Hcs : Forall is_u256 (filter (λ output, output ≠ 0) [cap_out c; saturating_sub (cap_out c) 1])).
  { apply Forall_forall. intros y [_ Hy]%list_elem_of_filter. revert y Hy. apply Forall_forall. repeat constructor; u256. }
  induction Hcs as [|y ys Hy _ IH]; cbn [find_map].
  - unfold feasible_input. destruct (feasible_bound_spec U256_MAX (λ input, is_ok (net_quote_exact_in c input)))
      as [? _]; [u256|]. u256.
  - destruct (net_quote_exact_out c y) as [i|] eqn:Hi; cbn [ok mbind option_bind]; [|exact IH].
    destruct (is_ok _); [|exact IH]. exact (net_exact_out_range c y i Hc Hy Hi).
Qed.

(** ** The curves meet the contract *)

Definition xyc_wf (p : XycPool) : Prop := is_u256 (balance_in p) ∧ is_u256 (balance_out p).

Definition pool_wf (p : CurvePool) : Prop :=
  match p with
  | XycCurve p => xyc_wf p
  | ConcentrateCurve p => ∀ v, virtual_pool p = Ok v → xyc_wf v
  | PeggedCurve p => 0 < rate_in p ∧ 0 < rate_out p ∧ 0 ≤ x0_init p ∧ 0 ≤ y0_init p
      ∧ ∀ n, normalized p = Ok n → is_u256 (n_x0 n) ∧ is_u256 (n_y0 n)
  end.

Lemma xyc_wf_ok p : xyc_wf p → xyc_is_empty p = false → pool_ok p.
Proof. intros [[??] [??]]. unfold xyc_is_empty. intros ?. zbool. split; lia. Qed.

Lemma ceil_div_le a b c : 0 ≤ a → 0 < b → ceil_div a b = Ok c → 0 ≤ c ≤ a.
Proof.
  intros Ha Hb Hc. split; [by eapply ceil_div_nonneg|]. eapply ceil_div_le_iff; [done..|]. nia.
Qed.

Lemma xyc_in_range p x y : xyc_wf p → is_u256 x → xyc_quote_exact_in p x = Ok y → is_u256 y.
Proof.
  intros Hp Hx Hq. destruct (xyc_is_empty p) eqn:He; [unfold xyc_quote_exact_in in Hq; by rewrite He in Hq|].
  pose proof (xyc_wf_ok p Hp He) as Hok. apply xyc_quote_exact_in_Ok in Hq as (-> & _); [|done|apply Hx].
  destruct Hok, Hp as [_ [_ Hbo]], Hx. split; [apply Z.div_pos; nia|].
  transitivity (balance_out p); [|done]. apply Z.div_le_upper_bound; nia.
Qed.

Lemma xyc_limit_range p x limit q :
  xyc_wf p → is_u256 x → xyc_quote_with_limit p x limit = Ok q →
  0 ≤ lq_amount_in q ≤ x ∧ is_u256 (lq_amount_out q).
Proof.
  intros Hp Hx. unfold xyc_quote_with_limit. destruct (xyc_is_empty p) eqn:He; [done|].
  destruct (ratio_is_zero limit).
  { intros H. simplify_res. cbn. split; [destruct Hx; lia|by eapply xyc_in_range]. }
  intros (spot & _ & H)%bind_Ok. destruct (ratio_le spot limit).
  { injection H as <-. cbn. destruct Hx. split; [lia|u256]. }
  simplify_res. cbn. set (a := match floor_sqrt _ with Some _ => _ | None => _ end) in *.
  assert (Ha : 0 ≤ a ≤ x) by (unfold a; destruct Hx; destruct (floor_sqrt _); u256).
  split; [done|]. eapply xyc_in_range; [done| |exact E0]. destruct Hx. split; lia.
Qed.

Lemma Qlt_of_word n d : 0 ≤ n ≤ U256_MAX → 0 < d → (inject_Z n / inject_Z d <= inject_Z U256_MAX)%Q.
Proof.
  intros Hn Hd. apply Qle_shift_div_r; [by rewrite <-(Zlt_Qlt 0)|]. rewrite <-inject_Z_mult, <-Zle_Qle. nia.
Qed.

Lemma xyc_limit_top p x limit q :
  xyc_wf p → (inject_Z U256_MAX < limit)%Q → xyc_quote_with_limit p x limit = Ok q → lq_amount_in q = 0.
Proof.
  intros Hp Hl. unfold xyc_quote_with_limit. destruct (xyc_is_empty p) eqn:He; [done|].
  pose proof (xyc_wf_ok p Hp He) as [Hi Ho].
  destruct (ratio_is_zero limit) eqn:Hz.
  { apply ratio_is_zero_true in Hz. rewrite Hz in Hl. by vm_compute in Hl. }
  intros (spot & Hs & H)%bind_Ok. unfold xyc_marginal_price in Hs. rewrite He in Hs.
  apply ok_or_Ok, Ratio_new_Some in Hs; [|done].
  destruct (ratio_le spot limit) eqn:E; [by injection H as <-|]. apply ratio_le_false in E.
  rewrite Hs in E. pose proof (Qlt_of_word (balance_out p) (balance_in p) (proj2 Hp) Hi).
  exfalso. apply (Qlt_irrefl limit). eapply Qlt_le_trans; [exact E|]. apply Qlt_le_weak.
  eapply Qle_lt_trans; [exact H0|done].
Qed.

Lemma xyc_laws p : xyc_wf p → pool_laws (XycCurve p).
Proof.
  intros Hp. constructor; cbn.
  - intros x y. by apply xyc_in_range.
  - intros y x Hy Hq. destruct (xyc_is_empty p) eqn:He; [unfold xyc_quote_exact_out in Hq; by rewrite He in Hq|].
    pose proof (xyc_wf_ok p Hp He) as Hok. destruct Hy as [Hy _].
    unfold xyc_quote_exact_out in Hq. rewrite He in Hq. simplify_res. apply checked_sub_nonzero_Some in E as [-> ?].
    apply cmul_Ok in E0 as [-> ?]. destruct Hok. apply ceil_div_le in Hq; [|nia|lia]. split; lia.
  - intros x limit q. by apply xyc_limit_range.
  - intros x limit q _. by apply xyc_limit_top.
Qed.

(** The bisected fill of any curve whose quotes are words. *)
Lemma numerical_range quote x limit q :
  (∀ a b, is_u256 a → quote a = Ok b → is_u256 b) → is_u256 x →
  fill_to_limit_numerical quote x limit = Ok q → 0 ≤ lq_amount_in q ≤ x ∧ is_u256 (lq_amount_out q).
Proof.
  intros Hquote Hx. unfold fill_to_limit_numerical. pose proof Hx as [Hx0 Hx1].
  destruct (feasible_bound_spec x (λ input, is_ok (quote input)) Hx) as (Hb & _ & _).
  set (bound := feasible_bound _ _) in *. clearbody bound.
  destruct (x =? 0); [intros [= <-]; cbn; split; [lia|u256]|].
  destruct (bound =? 0); [intros [= <-]; cbn; split; [lia|u256]|].
  intros (mb & _ & H)%bind_Ok. destruct (ratio_le limit mb).
  { apply bind_Ok in H as (out & Hout & [= <-]). cbn. split; [lia|]. eapply Hquote; [|exact Hout]. split; lia. }
  apply bind_Ok in H as (m0 & _ & H). destruct (ratio_lt m0 limit); [injection H as <-; cbn; split; [lia|u256]|].
  apply bind_Ok in H as (l & Hl & (out & Hout & [= <-])%bind_Ok). cbn.
  assert (Hs : 0 < fill_step bound) by (unfold fill_step; lia).
  destruct (bisect_spec (fd_clears_at quote (fill_step bound) limit) (fd_clears quote (fill_step bound) limit)
    BISECTION_FUEL 0 bound) as (lo' & hi' & Hlo & ? & ? & _);
    [by intros; apply fd_clears_total|lia|lia|apply U256_fuel; lia|].
  rewrite Hl in Hlo. injection Hlo as ->. split; [lia|]. eapply Hquote; [|exact Hout]. split; lia.
Qed.

Lemma numerical_top quote x limit q :
  (∀ a b, is_u256 a → quote a = Ok b → is_u256 b) → is_u256 x → (inject_Z U256_MAX < limit)%Q →
  fill_to_limit_numerical quote x limit = Ok q → lq_amount_in q = 0.
Proof.
  intros Hquote Hx Hl Hq. assert (Hl0 : (0 <= limit)%Q).
  { apply Qlt_le_weak. eapply Qle_lt_trans; [|exact Hl]. by vm_compute. }
  destruct (fill_to_limit_spec quote x limit Hx Hl0) as (q' & Hq' & (Ha & _ & Hpos & _)). rewrite Hq in Hq'.
  injection Hq' as <-. destruct (Z.eq_dec (lq_amount_in q) 0) as [|Hne]; [done|]. exfalso.
  destruct Hpos as [_ Hcl]; [lia|]. set (step := fill_step _) in *.
  assert (Hs : 0 < step) by (unfold step, fill_step; lia). clearbody step.
  unfold fd_clears_at, fd_clears in Hcl. destruct (is_ok _); [|done].
  destruct (fd_marginal quote step (lq_amount_in q)) as [m|] eqn:Hm; [|done]. cbn in Hcl. apply ratio_le_true in Hcl.
  assert (Hm' : (m <= inject_Z U256_MAX)%Q).
  { unfold fd_marginal in Hm. destruct (quote (lq_amount_in q)) as [here|] eqn:Hh; [|injection Hm as <-; by vm_compute].
    destruct (quote (saturating_add _ _)) as [ahead|] eqn:Hah; [|injection Hm as <-; by vm_compute].
    apply ok_or_Ok, Ratio_new_Some in Hm; [|done]. rewrite Hm. apply Qlt_of_word; [|done].
    destruct Hx. apply Hquote in Hh; [|split; lia]. apply Hquote in Hah; [|u256]. u256. }
  apply (Qlt_irrefl limit). eapply Qle_lt_trans; [exact Hcl|]. eapply Qle_lt_trans; [exact Hm'|done].
Qed.

Lemma pegged_solve_nonneg u a c v : pegged_solve u a c = Ok v → 0 ≤ v.
Proof.
  unfold pegged_solve. intros H. simplify_res.
  case_hyp H; apply fdiv_Ok in H as [_ ->]; (apply Z.div_pos; [|done]);
    match goal with E : cmul ?a ?a = Ok _ |- _ => apply cmul_Ok in E as [-> _] end; nia.
Qed.

Lemma pegged_laws p : pool_wf (PeggedCurve p) → pool_laws (PeggedCurve p).
Proof.
  intros (Hri & Hro & Hx0 & Hy0 & Hn).
  assert (Hin : ∀ x y, is_u256 x → pegged_quote_exact_in p x = Ok y → is_u256 y).
  { intros x y _ H. unfold pegged_quote_exact_in in H. simplify_res. apply Hn in E as [_ [? ?]].
    apply pegged_solve_nonneg in E4. apply cmul_Ok in E5 as [-> ?]. apply ceil_div_le in E6; [|nia|done].
    apply checked_sub_Some in E7 as [-> ?]. apply fdiv_Ok in H as [_ ->].
    split; [apply Z.div_pos; lia|]. transitivity (n_y0 x0 - x7); [|lia]. apply Z.div_le_upper_bound; nia. }
  constructor; cbn.
  - done.
  - intros y x _ H. unfold pegged_quote_exact_out in H. simplify_res. apply Hn in E as [[? ?] _].
    apply pegged_solve_nonneg in E4. apply cmul_Ok in E5 as [-> ?]. apply ceil_div_le in E6; [|nia|done].
    apply checked_sub_Some in E7 as [-> ?]. apply ceil_div_le in H; [|lia..]. split; lia.
  - intros x limit q. by apply numerical_range.
  - intros x limit q. by apply numerical_top.
Qed.

Theorem pool_wf_laws p : pool_wf p → pool_laws p.
Proof.
  destruct p as [p|p|p]; [apply xyc_laws| |apply pegged_laws].
  intros Hp. cbn in Hp. destruct (virtual_pool p) as [v|e] eqn:Hv.
  - destruct (xyc_laws v (Hp v eq_refl)) as [H1 H2 H3 H4]. constructor; cbn; rewrite Hv; cbn; done.
  - constructor; cbn; rewrite Hv; cbn; done.
Qed.

(** Decoded strategies build well-formed pools. *)
Lemma from_curve_wf curve token_in token_out bi bo :
  curve_in_domain curve → is_u256 bi → is_u256 bo → pool_wf (from_curve curve token_in token_out bi bo).
Proof.
  intros Hd Hi Ho. destruct curve as [|pmin pmax|params]; cbn.
  - done.
  - intros v Hv. cbn in Hd.
    assert (Hnn : 0 ≤ balance_in v ∧ 0 ≤ balance_out v)
      by (eapply (grow_reserves_nonneg _ bi bo pmin pmax); [apply Hi|apply Ho|lia|lia|exact Hv]).
    unfold grow_reserves in Hv. destruct (token_in <? token_out);
      apply bind_Ok in Hv as (l & _ & ([ai ao] & _ & (vi & Hvi & (vo & Hvo & [= <-])%bind_Ok)%bind_Ok)%bind_Ok);
      apply cadd_Ok in Hvi as [-> ?], Hvo as [-> ?]; cbn in *; split; split; cbn; lia.
  - destruct Hd as (? & ? & ? & ? & ?). unfold from_reserves_and_params.
    destruct (token_in <? token_out); cbn; (split_and!; try lia); intros n Hq;
      case_hyp Hq; apply cmul_Ok in E0 as [-> ?], E1 as [-> ?]; destruct Hi, Ho; cbn; (split; (split; [nia|done])).
Qed.

(** ** Constant-product venues *)

Definition product_pool (p : CurvePool) : option XycPool :=
  match p with
  | XycCurve v => Some v
  | ConcentrateCurve c => ok (virtual_pool c)
  | PeggedCurve _ => None
  end.

Lemma product_quotes p v :
  product_pool p = Some v →
  (∀ x, quote_exact_in p x = xyc_quote_exact_in v x) ∧ (∀ y, quote_exact_out p y = xyc_quote_exact_out v y).
Proof.
  destruct p as [w|c|]; cbn; [by intros [= ->]| |done]. intros Hv%ok_Some. rewrite Hv. done.
Qed.

Definition product_cand (c : Candidate) : Prop :=
  cand_ok c ∧ ∃ v, product_pool (pool c) = Some v ∧ pool_ok v.

Lemma net_adjoint c y x g y' :
  product_cand c → 0 ≤ y → 0 ≤ g →
  net_quote_exact_out c y = Ok x → net_quote_exact_in c g = Ok y' → (y ≤ y' ↔ x ≤ g).
Proof.
  intros [[_ Hf _] (v & Hv & Hok)] Hy Hg (ci & Hci & Hgr)%bind_Ok (net & Hnet & Hq)%bind_Ok.
  destruct (product_quotes _ _ Hv) as [Hi Ho]. rewrite Hi in Hq. rewrite Ho in Hci.
  by eapply fee_product_adjoint.
Qed.

Lemma fee_in_mono f g1 g2 n1 n2 :
  0 ≤ f ≤ bps_denominator → 0 ≤ g1 ≤ g2 →
  apply_flat_fee_in g1 f = Ok n1 → apply_flat_fee_in g2 f = Ok n2 → n1 ≤ n2.
Proof.
  intros Hf Hg H1 H2. unfold apply_flat_fee_in in *.
  apply bind_Ok in H1 as (p1 & [-> _]%cmul_Ok & (c1 & Hc1 & H1)%bind_Ok).
  apply bind_Ok in H2 as (p2 & [-> _]%cmul_Ok & (c2 & Hc2 & H2)%bind_Ok).
  apply ok_or_Ok, checked_sub_Some in H1 as [-> ?], H2 as [-> ?].
  assert (HB : 0 < bps_denominator) by done.
  pose proof (ceil_div_le_iff (g1 * f) bps_denominator c1 c1 ltac:(nia) HB Hc1) as [Ha _].
  assert (c2 ≤ g2 - (g1 - c1)); [|lia].
  apply (ceil_div_le_iff (g2 * f) bps_denominator c2 (g2 - (g1 - c1)) ltac:(nia) HB Hc2). nia.
Qed.

Lemma shrink_mono fees g1 g2 n1 n2 :
  fees_ok fees → 0 ≤ g1 ≤ g2 → shrink_by_fees g1 fees = Ok n1 → shrink_by_fees g2 fees = Ok n2 → n1 ≤ n2.
Proof.
  unfold shrink_by_fees. intros Hf. revert g1 g2. induction Hf as [|f fees Hf _ IH]; intros g1 g2 Hg; cbn.
  { intros [= <-] [= <-]. lia. }
  intros (m1 & Hm1 & H1)%bind_Ok (m2 & Hm2 & H2)%bind_Ok. eapply IH; [|exact H1|exact H2]. split.
  - by apply fee_in_range in Hm1; lia.
  - by eapply fee_in_mono.
Qed.

(** The curve's value at a net input, overflow aside. *)
Definition xyc_curve (v : XycPool) (n : Z) : Z := n * balance_out v / (balance_in v + n).

Lemma xyc_curve_mono v n1 n2 : pool_ok v → 0 ≤ n1 ≤ n2 → 0 ≤ xyc_curve v n1 ≤ xyc_curve v n2.
Proof.
  intros [Hi Ho] Hn. unfold xyc_curve. split; [apply Z.div_pos; nia|]. apply div_le_iff; [lia|].
  pose proof (Z.mul_div_le (n1 * balance_out v) (balance_in v + n1) ltac:(lia)).
  set (q := n1 * balance_out v / (balance_in v + n1)) in *.
  assert (0 ≤ q ≤ balance_out v) by (split; [apply Z.div_pos; nia|]; apply Z.div_le_upper_bound; nia). nia.
Qed.

Lemma xyc_curve_reserves v n : pool_ok v → 0 ≤ n → xyc_curve v n ≤ balance_out v.
Proof. intros [Hi Ho] Hn. unfold xyc_curve. apply Z.div_le_upper_bound; nia. Qed.

Lemma net_in_mono c g1 g2 y1 y2 :
  product_cand c → 0 ≤ g1 ≤ g2 → net_quote_exact_in c g1 = Ok y1 → net_quote_exact_in c g2 = Ok y2 → y1 ≤ y2.
Proof.
  intros [[_ Hf _] (v & Hv & Hok)] Hg (n1 & Hn1 & H1)%bind_Ok (n2 & Hn2 & H2)%bind_Ok.
  destruct (product_quotes _ _ Hv) as [Hi _]. rewrite Hi in H1, H2.
  assert (n1 ≤ n2) by (by eapply shrink_mono). assert (0 ≤ n1) by (apply (shrink_nonneg (fees_in_bps c) g1); [lia|done]).
  apply xyc_quote_exact_in_Ok in H1 as (-> & _); [|done..]. apply xyc_quote_exact_in_Ok in H2 as (-> & _); [|done|lia].
  by apply xyc_curve_mono.
Qed.

Lemma net_in_zero c y : product_cand c → net_quote_exact_in c 0 = Ok y → y = 0.
Proof.
  intros [[_ Hf _] (v & Hv & Hok)] (n & Hn & Hq)%bind_Ok. destruct (product_quotes _ _ Hv) as [Hi _]. rewrite Hi in Hq.
  apply shrink_range in Hn; [|done..]. assert (n = 0) as -> by lia.
  by apply xyc_quote_exact_in_Ok in Hq as (-> & _).
Qed.

Lemma net_out_positive c y x :
  product_cand c → 0 < y → net_quote_exact_out c y = Ok x → 0 < x.
Proof.
  intros [[_ Hf _] (v & Hv & Hok)] Hy (ci & Hci & Hgr)%bind_Ok. destruct (product_quotes _ _ Hv) as [_ Ho].
  rewrite Ho in Hci. pose proof Hok as [Hbi Hbo].
  assert (Hw : is_u256 ci ∧ 0 < ci).
  { apply xyc_quote_exact_out_Ok in Hci as Hc; [|done]. destruct Hc as [Hlt Hc].
    unfold xyc_quote_exact_out in Hci. rewrite xyc_is_empty_false in Hci by done. simplify_res.
    apply cmul_Ok in E0 as [-> ?]. apply checked_sub_nonzero_Some in E as [-> _].
    pose proof (ceil_div_le (y * balance_in v) (balance_out v - y) ci ltac:(nia) ltac:(lia) Hc). split; [split; lia|].
    destruct (Z.le_gt_cases ci 0) as [Hle|]; [|done].
    apply (ceil_div_le_iff (y * balance_in v) (balance_out v - y) ci 0 ltac:(nia) ltac:(lia) Hc) in Hle. nia. }
  destruct Hw as [Hw ?]. apply gross_up_range in Hgr; [lia|done..].
Qed.

Lemma within_output_bound c max_out i g y :
  product_cand c → is_u256 max_out → input_within_output c max_out = Some i →
  0 ≤ g ≤ i → net_quote_exact_in c g = Ok y → y ≤ max_out.
Proof.
  intros Hc Hm Hi Hg Hy. unfold input_within_output in Hi.
  apply bind_Some in Hi as (inp & Hinp%ok_Some & Hi).
  assert (Hx : is_u256 inp) by (eapply net_exact_out_range; [apply Hc|done|exact Hinp]).
  destruct (net_quote_exact_in c inp) as [out|] eqn:Hout; [|done]. destruct (out <=? max_out) eqn:E; zbool; simplify_eq.
  - transitivity out; [|done]. apply (net_in_mono c g i); done.
  - assert (Hadj := net_adjoint c max_out inp g y Hc ltac:(apply Hm) ltac:(lia) Hinp Hy).
    destruct (Z.le_gt_cases y max_out) as [|Hgt]; [done|].
    assert (inp ≤ g) by (apply Hadj; lia). destruct Hx.
    assert (inp = 0) as -> by u256. apply net_in_zero in Hout; [|done]. destruct Hm. lia.
Qed.

(** A price-bounded fill delivers at most the curve's value at its bound. *)
Lemma xyc_limit_out v x limit q :
  pool_ok v → 0 ≤ x → xyc_quote_with_limit v x limit = Ok q → lq_amount_out q ≤ xyc_curve v x.
Proof.
  intros Hv Hx. unfold xyc_quote_with_limit. rewrite xyc_is_empty_false by done.
  pose proof (xyc_curve_mono v 0 x Hv ltac:(lia)) as H0.
  destruct (ratio_is_zero limit).
  { intros (o & Ho & [= <-])%bind_Ok. by apply xyc_quote_exact_in_Ok in Ho as (-> & _). }
  intros (spot & _ & H)%bind_Ok. destruct (ratio_le spot limit); [injection H as <-; cbn; lia|].
  apply bind_Ok in H as (inv & _ & (o & Ho & [= <-])%bind_Ok). cbn. destruct Hv as [Hi Hb].
  assert (Hr : ∀ b, 0 ≤ x `min` saturating_sub b (balance_in v) ≤ x) by (intros b; unfold saturating_sub; lia).
  destruct (floor_sqrt _) as [b|]; apply xyc_quote_exact_in_Ok in Ho as (-> & _); try done; try (by apply Hr).
  by apply xyc_curve_mono; [|apply Hr].
Qed.

Lemma within_output_curve c v max_out i n :
  product_cand c → product_pool (pool c) = Some v → is_u256 max_out → input_within_output c max_out = Some i →
  shrink_by_fees i (fees_in_bps c) = Ok n → xyc_curve v n ≤ max_out.
Proof.
  intros Hc Hv Hm Hi Hn. pose proof Hc as [[_ Hf _] (v' & Hv' & Hok)]. rewrite Hv in Hv'. injection Hv' as <-.
  destruct (product_quotes _ _ Hv) as [Hqi _]. pose proof Hi as Hi'. unfold input_within_output in Hi'.
  apply bind_Some in Hi' as (inp & Hinp%ok_Some & Hi').
  assert (Hx : is_u256 inp) by (eapply net_exact_out_range; [apply Hc|done|exact Hinp]).
  destruct (net_quote_exact_in c inp) as [out|] eqn:Hout; [|done].
  assert (Hle : 0 ≤ i ≤ inp) by (destruct Hx; destruct (out <=? max_out); injection Hi' as <-; unfold saturating_sub; lia).
  apply bind_Ok in Hout as (n' & Hn' & Hq). rewrite Hqi in Hq.
  assert (Hnn : 0 ≤ n) by (by apply (shrink_range _ _ _ Hf) in Hn; lia).
  assert (Hle' : n ≤ n') by (by apply (shrink_mono (fees_in_bps c) i inp)).
  apply xyc_quote_exact_in_Ok in Hq as (_ & Hmul & Hadd); [|done|lia]. destruct Hok as [Hbi Hbo].
  apply (within_output_bound c max_out i i); [done..|lia|]. unfold net_quote_exact_in. rewrite Hn. cbn [mbind result_bind].
  rewrite Hqi. apply xyc_quote_exact_in_Ok; [done..|]. split; [done|]. split; [nia|lia].
Qed.

(** ** Properties *)

(** capping a leg by its input never overshoots the cap: for a constant-product venue with any
    fees, every input up to the one [input_within_output] returns delivers at most the requested maximum. *)
Theorem input_within_output_never_overshoots c max_out i g y :
  product_cand c → is_u256 max_out → input_within_output c max_out = Some i →
  0 ≤ g ≤ i → net_quote_exact_in c g = Ok y → y ≤ max_out.
Proof. apply within_output_bound. Qed.

Definition demo_candidate (maker hash reserve_in reserve_out cap : Z) (fees : list Z) : Candidate :=
  mk_candidate (mk_strategy_key maker 9 hash) 3 5 cap cap (XycCurve (mk_xyc reserve_in reserve_out)) fees.

Lemma demo_candidate_ok maker hash ri ro cap fees :
  0 < ri ≤ 10 ^ 30 → 0 < ro ≤ 10 ^ 30 → 0 ≤ cap ≤ 10 ^ 30 → fees_ok fees →
  product_cand (demo_candidate maker hash ri ro cap fees).
Proof.
  intros Hi Ho Hc Hf. pose proof U256_MAX_big. split.
  - constructor; cbn; [|done|split; lia]. apply xyc_laws. split; split; cbn; lia.
  - exists (mk_xyc ri ro). split; [done|]. split; cbn; lia.
Qed.

Lemma input_within_output_never_overshoots_witness :
  let c := demo_candidate 1 1 1000000 3000000 500000 [3000000] in
  input_within_output c 500000 = Some 200602 ∧ net_quote_exact_in c 200602 = Ok 500000 ∧ 500000 ≤ 500000.
Proof.
  intros c.
  assert (Hi : input_within_output c 500000 = Some 200602) by (by vm_compute).
  assert (Hq : net_quote_exact_in c 200602 = Ok 500000) by (by vm_compute).
  split; [exact Hi|]. split; [exact Hq|].
  apply (input_within_output_never_overshoots c 500000 200602 200602 500000); [|split; discriminate|exact Hi|lia|exact Hq].
  apply demo_candidate_ok; try lia. apply Forall_cons_2; [split; discriminate|apply Forall_nil_2].
Defined.
