(* ===== verification/Waterfill.v ===== *)
(** * The capped water-fill solver

    [crates/core/src/routing/waterfill.rs]: split a request across candidate venues at
    a common marginal price, within every venue's output cap and every maker's wallet,
    then drop legs that do not earn their gas.  Vectors are lists indexed by the
    candidate's position; every index the code uses is in range. *)

From S2P Require Import Prelude U256 Ratio CurveDecode Curves Registry Candidates.

#[global] Instance Ratio_inhabited : Inhabited Ratio := populate ratio_zero.

Record RouteLeg := mk_leg {
  leg_maker : MakerId;
  leg_hash : StrategyHash;
  leg_token_in : Address;
  leg_token_out : Address;
  leg_in : U256;
  leg_out : U256
}.

Record Split := mk_split {
  legs : list RouteLeg;
  amount_in : U256;
  amount_out : U256;
  lambda : Ratio
}.

Definition gas (s : Split) (per_leg_cost : U256) : U256 :=
  saturating_mul per_leg_cost (Z.of_nat (length (legs s))).
Definition net_output (s : Split) (per_leg_cost : U256) : U256 :=
  saturating_sub (amount_out s) (gas s per_leg_cost).
Definition gross_input (s : Split) (per_leg_cost : U256) : U256 :=
  saturating_add (amount_in s) (gas s per_leg_cost).

Definition MAX_ITERS : nat := 128.

Inductive FillKind : Type := ExactIn | ExactOut.

Definition kind_of (req : RouteRequest) : FillKind := if req_exact_in req then ExactIn else ExactOut.

Definition toward_target (kind : FillKind) (q : LimitedQuote) : U256 :=
  match kind with ExactIn => lq_amount_in q | ExactOut => lq_amount_out q end.

Definition is_no_worse (kind : FillKind) (candidate current : Split) (per_leg_cost : U256) : bool :=
  match kind with
  | ExactIn => net_output current per_leg_cost <=? net_output candidate per_leg_cost
  | ExactOut => gross_input candidate per_leg_cost <=? gross_input current per_leg_cost
  end.

Definition NO_FILL : LimitedQuote := mk_limited 0 0 true.

(** ** Maker groups *)

Record MakerGroup := mk_group { indices : list nat; group_wallet_cap : U256 }.

#[global] Instance MakerGroup_inhabited : Inhabited MakerGroup := populate (mk_group [] 0).

Record MakerGroups := mk_groups { groups : list MakerGroup; group_by_leg : list nat }.

Definition group_candidate (by_maker : gmap MakerId MakerGroup) (ic : nat * Candidate) :
    gmap MakerId MakerGroup :=
  let '(index, c) := ic in
  entry_update (mk_group [] (wallet_cap c))
    (λ g, mk_group (indices g ++ [index]) (Z.min (group_wallet_cap g) (wallet_cap c)))
    by_maker (key_maker (cand_key c)).

Definition by_maker (candidates : list Candidate) : gmap MakerId MakerGroup :=
  foldl group_candidate ∅ (imap (λ i c, (i, c)) candidates).

Definition MakerGroups_new (candidates : list Candidate) : MakerGroups :=
  let gs := values (by_maker candidates) in
  mk_groups gs
    (foldl (λ v '(group_index, g), foldl (λ v index, <[index := group_index]> v) v (indices g))
       (replicate (length candidates) 0%nat) (imap (λ i g, (i, g)) gs)).

Definition output_for_leg (gs : MakerGroups) (outputs : list U256) (leg_index : nat) : U256 :=
  foldl (λ sum index, saturating_add sum (outputs !!! index)) 0
    (indices (groups gs !!! (group_by_leg gs !!! leg_index))).

(** ** Searching the water level *)

Definition sum (amounts : list U256) : U256 := foldl saturating_add 0 amounts.

Definition exceeds_budget (outputs : list U256) (budget : U256) : bool :=
  match try_fold_opt checked_sub budget outputs with Some _ => false | None => true end.

Definition price_upper (candidates : list Candidate) : Ratio :=
  let price := default (ratio_from U256_MAX)
    (ratio_max (filter (λ p, ratio_is_zero p = false)
       (omap (λ c, ok (cand_marginal_price c)) candidates))) in
  doubled price.

Record LevelBracket := mk_bracket { br_lo : Ratio; br_hi : Ratio }.

Fixpoint bracket_loop (fill : Ratio → U256) (target tol : U256) (iters : nat)
    (lo hi : Ratio) (m_lo m_hi : U256) : LevelBracket :=
  match iters with
  | O => mk_bracket lo hi
  | S iters' =>
      if saturating_sub m_lo m_hi <=? tol then mk_bracket lo hi
      else
        let mid := midpoint lo hi in
        let m := fill mid in
        if target <=? m then bracket_loop fill target tol iters' mid hi m m_hi
        else bracket_loop fill target tol iters' lo mid m_lo m
  end.

Definition ratio_min (a b : Ratio) : Ratio := if ratio_le a b then a else b.

Definition bracket_level (fill : Ratio → U256) (target : U256) (seed : option Ratio) (upper : Ratio) :
    LevelBracket :=
  let tol := Z.max (target / 1000000) 1 in
  let lo := ratio_zero in
  let hi := match seed with
            | Some s => if ratio_is_zero s then upper else ratio_min (doubled s) upper
            | None => upper
            end in
  let m_lo := fill lo in
  let m_hi := fill hi in
  let '(hi, m_hi) := if target <=? m_hi then (upper, fill upper) else (hi, m_hi) in
  let '(hi, m_hi) := if target <=? m_hi
                     then (doubled (ratio_from U256_MAX), fill (doubled (ratio_from U256_MAX)))
                     else (hi, m_hi) in
  bracket_loop fill target tol MAX_ITERS lo hi m_lo m_hi.

Definition fill_output (c : Candidate) (bound : U256) (level : Ratio) : U256 :=
  match net_quote_with_limit c bound level with Ok q => lq_amount_out q | Err _ => 0 end.

Definition group_output_at_level (candidates : list Candidate) (bounds : list U256) (g : MakerGroup)
    (level : Ratio) : U256 :=
  foldl (λ sum index, saturating_add sum (fill_output (candidates !!! index) (bounds !!! index) level))
    0 (indices g).

Definition group_floor_level (candidates : list Candidate) (bounds : list U256) (g : MakerGroup) : Ratio :=
  br_hi (bracket_level (group_output_at_level candidates bounds g) (group_wallet_cap g) None
    (price_upper ((λ index, candidates !!! index) <$> indices g))).

Definition wallet_floors (candidates : list Candidate) (bounds : list U256) (gs : MakerGroups) : list Ratio :=
  foldl (λ floors g,
      if (length (indices g) <? 2)%nat then floors
      else if negb (exceeds_budget
             ((λ index, fill_output (candidates !!! index) (bounds !!! index) ratio_zero) <$> indices g)
             (group_wallet_cap g)) then floors
      else let floor := group_floor_level candidates bounds g in
           foldl (λ floors index, <[index := floor]> floors) floors (indices g))
    (replicate (length candidates) ratio_zero) (groups gs).

Definition input_bound (target : U256) (kind : FillKind) (c : Candidate) : U256 :=
  match kind with
  | ExactIn =>
      Z.min (default (feasible_input c target) (input_within_output c (cap_out c))) target
  | ExactOut =>
      if target <? cap_out c
      then default (feasible_input c U256_MAX) (ok (net_quote_exact_out c target))
      else default (feasible_input c U256_MAX) (input_within_output c (cap_out c))
  end.

Definition input_bounds (candidates : list Candidate) (target : U256) (kind : FillKind) : list U256 :=
  input_bound target kind <$> candidates.

(** ** The book of one solve *)

Record Book := mk_book {
  book_candidates : list Candidate;
  bounds : list U256;
  floors : list Ratio;
  book_groups : MakerGroups;
  kind : FillKind
}.

Definition Book_new (candidates : list Candidate) (target : U256) (kind : FillKind) : Book :=
  let bounds := input_bounds candidates target kind in
  let groups := MakerGroups_new candidates in
  mk_book candidates bounds (wallet_floors candidates bounds groups) groups kind.

Definition ratio_max2 (a b : Ratio) : Ratio := if ratio_le a b then b else a.

Definition book_leg (b : Book) (i : nat) (level : Ratio) : LimitedQuote :=
  let level := ratio_max2 (floors b !!! i) level in
  unwrap_or (net_quote_with_limit (book_candidates b !!! i) (bounds b !!! i) level) NO_FILL.

Definition fills (b : Book) (level : Ratio) : list LimitedQuote :=
  (λ i, book_leg b i level) <$> seq 0 (length (book_candidates b)).

Definition measure (b : Book) (level : Ratio) : U256 :=
  foldl (λ sum i, saturating_add sum (toward_target (kind b) (book_leg b i level)))
    0 (seq 0 (length (book_candidates b))).

Definition topup_room (b : Book) (ins outs : list U256) (i : nat) : U256 :=
  let c := book_candidates b !!! i in
  let box_room := saturating_sub (bounds b !!! i) (ins !!! i) in
  if ratio_is_zero (floors b !!! i) then box_room
  else
    let used := output_for_leg (book_groups b) outs i in
    let out_room := saturating_sub (wallet_cap c) used in
    if out_room =? 0 then 0
    else match input_within_output c (saturating_add (outs !!! i) out_room) with
         | Some cap => Z.min (saturating_sub cap (ins !!! i)) box_room
         | None => 0
         end.

(** ** Assembly *)

Definition trim_le (candidates : list Candidate) (amounts : list U256) (a b : nat) : Prop :=
  match amounts !!! b ?= amounts !!! a with
  | Lt => True
  | Gt => False
  | Eq => key_hash (cand_key (candidates !!! a)) ≤ key_hash (cand_key (candidates !!! b))
  end.

#[global] Instance trim_le_dec candidates amounts : RelDecision (trim_le candidates amounts).
Proof. intros a b. unfold trim_le. case_match; apply _. Defined.

Definition trim_step (acc : list U256 * U256) (i : nat) : list U256 * U256 :=
  let '(amounts, remaining) := acc in
  let kept := Z.min (amounts !!! i) remaining in
  (<[i := kept]> amounts, remaining - kept).

Definition trim_to_total (candidates : list Candidate) (amounts : list U256) (target : U256)
    (idx : list nat) : list U256 :=
  let order := merge_sort (trim_le candidates amounts) (filter (λ i, amounts !!! i ≠ 0) idx) in
  (foldl trim_step (amounts, target) (rev order)).1.

Definition build_step (kind : FillKind) (acc : list RouteLeg * U256 * U256) (ca : Candidate * U256) :
    option (list RouteLeg * U256 * U256) :=
  let '(legs, total_in, total_out) := acc in
  let '(c, amount) := ca in
  if amount =? 0 then Some acc
  else
    '(l_in, l_out) ← match kind with
                     | ExactIn => out ← ok (net_quote_exact_in c amount); Some (amount, out)
                     | ExactOut => inp ← ok (net_quote_exact_out c amount); Some (inp, amount)
                     end;
    if (l_in =? 0) || (l_out =? 0) then Some acc
    else
      let leg := mk_leg (key_maker (cand_key c)) (key_hash (cand_key c)) (cand_token_in c)
                   (cand_token_out c) l_in l_out in
      total_in' ← checked_add total_in l_in;
      total_out' ← checked_add total_out l_out;
      Some (legs ++ [leg], total_in', total_out').

Definition build (candidates : list Candidate) (amounts : list U256) (kind : FillKind) (lambda : Ratio) :
    option Split :=
  '(legs, total_in, total_out) ← try_fold_opt (build_step kind) ([], 0, 0) (zip candidates amounts);
  match legs with
  | [] => None
  | _ => Some (mk_split legs total_in total_out lambda)
  end.

(** The extra output that adding [add] to leg [i] buys. *)
Definition topup_gain (b : Book) (ins : list U256) (i : nat) (add : U256) : U256 :=
  let c := book_candidates b !!! i in
  let here := unwrap_or (net_quote_exact_in c (ins !!! i)) 0 in
  let ahead := unwrap_or (net_quote_exact_in c (saturating_add (ins !!! i) add)) here in
  saturating_sub ahead here.

(** [max_by_key] on a pair key: the last lexicographic maximum. *)
Definition max_by_pair {A} (f : A → Z * Z) (l : list A) : option A :=
  foldl (λ best x, match best with
                   | None => Some x
                   | Some b => if lex_le [(f b).1; (f b).2] [(f x).1; (f x).2] then Some x else Some b
                   end) None l.

Record Topup := mk_topup { tp_ins : list U256; tp_outs : list U256; tp_remainder : U256 }.

(** One pass of the top-up loop: pour the remainder into the leg it buys the most with, or leave. *)
Definition topup_step (b : Book) (t : Topup) : Topup + list U256 :=
  if tp_remainder t =? 0 then inr (tp_ins t)
  else
    let n := length (book_candidates b) in
    let rooms := (λ i, topup_room b (tp_ins t) (tp_outs t) i) <$> seq 0 n in
    match max_by_pair (λ i, (topup_gain b (tp_ins t) i (Z.min (tp_remainder t) (rooms !!! i)),
                             key_hash (cand_key (book_candidates b !!! i))))
            (filter (λ i, rooms !!! i ≠ 0) (seq 0 n)) with
    | None => inr (tp_ins t)
    | Some i =>
        let add := Z.min (tp_remainder t) (rooms !!! i) in
        if add =? 0 then inr (tp_ins t)
        else
          let ins := <[i := saturating_add (tp_ins t !!! i) add]> (tp_ins t) in
          let out := unwrap_or (net_quote_exact_in (book_candidates b !!! i) (ins !!! i)) (tp_outs t !!! i) in
          inl (mk_topup ins (<[i := out]> (tp_outs t)) (tp_remainder t - add))
    end.

(** Every pass spends at least one unit of the remainder, which is at most a word. *)
Definition TOPUP_FUEL : positive := 2 ^ 256.

Definition assemble_exact_in (b : Book) (level : Ratio) (target : U256) : option Split :=
  let fs := fills b level in
  let ins := lq_amount_in <$> fs in
  let outs := lq_amount_out <$> fs in
  let remainder := saturating_sub target (sum ins) in
  match pos_loop (topup_step b) TOPUP_FUEL (mk_topup ins outs remainder) with
  | inr ins' => build (book_candidates b) ins' ExactIn level
  | inl _ => None
  end.

Definition assemble_exact_out (b : Book) (level : Ratio) (target : U256) : option Split :=
  let outs := lq_amount_out <$> fills b level in
  let outs' := trim_to_total (book_candidates b) outs target (seq 0 (length (book_candidates b))) in
  build (book_candidates b) outs' ExactOut level.

Definition solve (candidates : list Candidate) (req : RouteRequest) (warm : option Ratio) : option Split :=
  if (length candidates =? 0)%nat || (req_amount req =? 0) then None
  else
    let target := req_amount req in
    let kind := kind_of req in
    let book := Book_new candidates target kind in
    if measure book ratio_zero <? target then None
    else
      let level := bracket_level (measure book) target warm (price_upper candidates) in
      match kind with
      | ExactIn => assemble_exact_in book (br_hi level) target
      | ExactOut => assemble_exact_out book (br_lo level) target
      end.

(** ** The sparsity pass *)

(** [min_by_key] on (amount_out, strategy_hash): the first minimum. *)
Definition worst_leg (ls : list RouteLeg) : option RouteLeg :=
  foldl (λ best x, match best with
                   | None => Some x
                   | Some b => if lex_le [leg_out b; leg_hash b] [leg_out x; leg_hash x] then Some b else Some x
                   end) None ls.

Definition position {A} (P : A → bool) (l : list A) : option nat :=
  fst <$> list_find (λ x, P x = true) l.

(** [Vec::swap_remove]: the last element takes the removed one's place. *)
Definition swap_remove {A} (l : list A) (pos : nat) : list A :=
  match last l with
  | None => l
  | Some x => take (length l - 1) (<[pos := x]> l)
  end.

(** Each round removes one candidate, so the number of candidates bounds the rounds. *)
Fixpoint sparse_loop (fuel : nat) (req : RouteRequest) (per_leg_cost : U256) (max_legs : nat)
    (active : list Candidate) (best : Split) : Split :=
  match fuel with
  | O => best
  | S fuel' =>
      if (length (legs best) <=? 1)%nat then best
      else
        let over_cap := (max_legs <? length (legs best))%nat in
        match worst_leg (legs best) with
        | None => best
        | Some worst =>
            match position (λ c, key_hash (cand_key c) =? leg_hash worst) active with
            | None => best
            | Some pos =>
                let active' := swap_remove active pos in
                match solve active' req (Some (lambda best)) with
                | Some next =>
                    if over_cap || is_no_worse (kind_of req) next best per_leg_cost
                    then sparse_loop fuel' req per_leg_cost max_legs active' next
                    else best
                | None => best
                end
            end
        end
  end.

Definition solve_sparse (candidates : list Candidate) (req : RouteRequest) (per_leg_cost : U256)
    (max_legs : nat) (warm : option Ratio) : option Split :=
  best ← solve candidates req warm;
  Some (sparse_loop (length candidates) req per_leg_cost max_legs candidates best).

(** ** The price frontier *)

Definition capped_output (candidates : list Candidate) (bounds : list U256) (index : nat) (level : Ratio) : U256 :=
  match net_quote_with_limit (candidates !!! index) (bounds !!! index) level with
  | Ok q => Z.min (lq_amount_out q) (cap_out (candidates !!! index))
  | Err _ => 0
  end.

Definition polish_cost (candidates : list Candidate) (idx : list nat) (outputs : list U256) : U256 :=
  default U256_MAX
    (try_fold_opt (λ total i, if outputs !!! i =? 0 then Some total
                              else inp ← ok (net_quote_exact_out (candidates !!! i) (outputs !!! i));
                                   checked_add total inp) 0 idx).

Definition polish_step (candidates : list Candidate) (wallet : U256) (acc : U256 * option nat) (i : nat) :
    U256 * option nat :=
  let '(cost, selected) := acc in
  let c := candidates !!! i in
  if cap_out c <? wallet then acc
  else match net_quote_exact_out c wallet with
       | Err _ => acc
       | Ok input =>
           if (input =? 0) || negb (is_ok (net_quote_exact_in c input)) then acc
           else if (input <? cost) || ((input =? cost)
                   && match selected with
                      | Some previous => key_ltb (cand_key c) (cand_key (candidates !!! previous))
                      | None => false
                      end)
           then (input, Some i) else acc
       end.

Definition polish_wallet_fill (candidates : list Candidate) (idx : list nat) (outputs : list U256)
    (wallet : U256) : list U256 :=
  match (foldl (polish_step candidates wallet) (polish_cost candidates idx outputs, None) idx).2 with
  | Some selected => <[selected := wallet]> (foldl (λ os i, <[i := 0]> os) outputs idx)
  | None => outputs
  end.

Definition build_representable (candidates : list Candidate) (outputs : list U256) (level : Ratio) : option Split :=
  let all := seq 0 (length candidates) in
  let outputs := if exceeds_budget outputs U256_MAX
                 then trim_to_total candidates outputs U256_MAX all else outputs in
  match build candidates outputs ExactOut level with
  | Some split => Some split
  | None =>
      inputs ← mapM (λ '(c, output), if output =? 0 then Some 0 else ok (net_quote_exact_out c output))
                 (zip candidates outputs);
      let inputs := trim_to_total candidates inputs U256_MAX all in
      outputs' ← mapM (λ '(c, inp, output),
                    if (inp =? 0) || (output =? 0) then Some 0
                    else out ← ok (net_quote_exact_in c inp); Some (Z.min output out))
                  (zip (zip candidates inputs) outputs);
      build candidates outputs' ExactOut level
  end.

Record WalletBoundary := mk_boundary { binding_level : Ratio; capped_outputs : list (nat * U256) }.

Record Liquidity := mk_liquidity {
  liq_candidates : list Candidate;
  liq_bounds : list U256;
  wallet_boundaries : list WalletBoundary;
  best_price : option Ratio
}.

Definition wallet_boundary (candidates : list Candidate) (bounds : list U256) (full : list U256)
    (acc : list U256 * list WalletBoundary) (g : MakerGroup) : list U256 * list WalletBoundary :=
  let '(outputs, bs) := acc in
  if negb (exceeds_budget ((λ i, full !!! i) <$> indices g) (group_wallet_cap g)) then acc
  else
    let bracket := bracket_level
      (λ level, foldl (λ sum i, saturating_add sum (capped_output candidates bounds i level)) 0 (indices g))
      (group_wallet_cap g) None (price_upper ((λ i, candidates !!! i) <$> indices g)) in
    let outputs := foldl (λ os i, <[i := capped_output candidates bounds i (br_lo bracket)]> os)
                     outputs (indices g) in
    let outputs := trim_to_total candidates outputs (group_wallet_cap g) (indices g) in
    let outputs := polish_wallet_fill candidates (indices g) outputs (group_wallet_cap g) in
    (outputs, bs ++ [mk_boundary (br_hi bracket) ((λ i, (i, outputs !!! i)) <$> indices g)]).

Definition Liquidity_new (candidates : list Candidate) : Liquidity :=
  let bounds := full_input_bound <$> candidates in
  let full := (λ i, capped_output candidates bounds i ratio_zero) <$> seq 0 (length candidates) in
  let best := ratio_max (filter (λ p, ratio_is_zero p = false)
    (omap (λ '(c, output), if output =? 0 then None else ok (cand_marginal_price c)) (zip candidates full))) in
  let '(_, bs) := foldl (wallet_boundary candidates bounds full)
    (replicate (length candidates) 0, []) (groups (MakerGroups_new candidates)) in
  mk_liquidity candidates bounds bs best.

Definition at_price (l : Liquidity) (level : Ratio) : option Split :=
  let capped := foldl (λ os b, if ratio_le level (binding_level b)
                               then foldl (λ os '(i, output), <[i := Some output]> os) os (capped_outputs b)
                               else os)
    (replicate (length (liq_candidates l)) None) (wallet_boundaries l) in
  let outputs := imap (λ i o, match o with
                              | Some output => output
                              | None => capped_output (liq_candidates l) (liq_bounds l) i level
                              end) capped in
  build_representable (liq_candidates l) outputs level.
