(* ===== verification/WaterfillProperties.v ===== *)
(** * Correctness of the water-fill

    Exact-in never over-spends, exact-out delivers the exact target, every leg is
    priced by its own venue, the loops terminate, and the sparsity pass only ever
    improves the take. *)

From Stdlib Require Import Lqa.
From S2P Require Import Prelude U256 Reservation Ratio CurveDecode Curves CurveProperties Registry Candidates Waterfill.

#[local] Open Scope Z_scope.

(** ** Vectors *)

Lemma zsum_lookup_seq (l : list Z) : zsum (λ i, l !!! i) (seq 0 (length l)) = zsum id l.
Proof.
  induction l as [|x l IH]; [done|]. cbn [length seq]. rewrite !zsum_cons. cbn. f_equal.
  rewrite <-IH, <-fmap_S_seq, zsum_fmap. done.
Qed.

Lemma lookup_total_insert_if {A} `{Inhabited A} (l : list A) i j x :
  (i < length l)%nat → <[i := x]> l !!! j = if decide (i = j) then x else l !!! j.
Proof.
  intros Hi. case_decide; [subst; by rewrite list_lookup_total_insert_eq|by rewrite list_lookup_total_insert_ne].
Qed.

(** Replacing one entry shifts the total by the difference. *)
Lemma zsum_insert (l : list Z) i x : (i < length l)%nat → zsum id (<[i := x]> l) = zsum id l - l !!! i + x.
Proof.
  revert i. induction l as [|y l IH]; intros [|i] Hi; cbn [length] in Hi; try lia.
  - change (<[0%nat := x]> (y :: l)) with (x :: l). rewrite !zsum_cons. cbn. unfold id. lia.
  - change (<[S i := x]> (y :: l)) with (y :: <[i := x]> l). rewrite !zsum_cons, IH by lia. change ((y :: l) !!! S i) with (l !!! i). lia.
Qed.

Lemma Forall_lookup_total (P : Z → Prop) l i : Forall P l → (i < length l)%nat → P (l !!! i).
Proof.
  intros HP Hi. destruct (lookup_lt_is_Some_2 l i Hi) as [x Hx]. rewrite (list_lookup_total_correct l i x Hx).
  by eapply Forall_lookup_1.
Qed.

Lemma lookup_total_fmap_seq {A} `{Inhabited A} (f : nat → A) n i : (i < n)%nat → (f <$> seq 0 n) !!! i = f i.
Proof. intros Hi. apply list_lookup_total_correct. rewrite list_lookup_fmap, lookup_seq_lt by done. done. Qed.

(** ** Trimming *)

Lemma trim_fold_spec order amounts target :
  NoDup order → Forall (λ i, (i < length amounts)%nat) order → Forall (λ x, 0 ≤ x) amounts → 0 ≤ target →
  let '(out, rest) := foldl trim_step (amounts, target) order in
  length out = length amounts ∧ Forall (λ x, 0 ≤ x) out ∧ 0 ≤ rest
  ∧ (∀ i, out !!! i ≤ amounts !!! i) ∧ (∀ i, i ∉ order → out !!! i = amounts !!! i)
  ∧ zsum (λ i, out !!! i) order = Z.min target (zsum (λ i, amounts !!! i) order)
  ∧ rest = target - zsum (λ i, out !!! i) order.
Proof.
  intros Hnd. revert amounts target. induction Hnd as [|i order Hi Hnd IH]; intros amounts target Hr Ha Ht.
  { cbn. split_and!; try done; lia. }
  apply Forall_cons in Hr as [Hri Hr]. cbn [foldl trim_step].
  set (kept := Z.min (amounts !!! i) target).
  pose proof (Forall_lookup_total _ _ _ Ha Hri) as Hai. cbn in Hai.
  specialize (IH (<[i := kept]> amounts) (target - kept)).
  destruct (foldl trim_step (<[i := kept]> amounts, target - kept) order) as [out rest].
  destruct IH as (Hlen & Hnn & Hl & Hle & Hsame & Hsum & Hleft).
  { eapply Forall_impl; [exact Hr|]. intros j. by rewrite length_insert. }
  { apply Forall_insert; [done|]. unfold kept. lia. }
  { unfold kept. lia. }
  rewrite length_insert in Hlen.
  assert (Hpt : ∀ j, j ≠ i → (<[i := kept]> amounts) !!! j = amounts !!! j)
    by (intros j ?; by rewrite list_lookup_total_insert_ne).
  assert (Hsum' : zsum (λ j, <[i := kept]> amounts !!! j) order = zsum (λ j, amounts !!! j) order).
  { apply zsum_ext. intros j Hj. apply Hpt. by intros ->. }
  assert (Hout : out !!! i = kept) by (rewrite Hsame by done; by rewrite list_lookup_total_insert_eq).
  rewrite Hsum' in Hsum. rewrite !zsum_cons, Hout.
  split_and!; try done.
  - intros j. etrans; [apply Hle|]. destruct (decide (j = i)) as [->|]; [|by rewrite Hpt].
    rewrite list_lookup_total_insert_eq by done. unfold kept. lia.
  - intros j [Hji Hj]%not_elem_of_cons. rewrite Hsame by done. by apply Hpt.
  - rewrite Hsum. unfold kept.
    assert (0 ≤ zsum (λ j, amounts !!! j) order).
    { apply zsum_nonneg. intros j Hj. rewrite Forall_forall in Hr. by apply (Forall_lookup_total _ _ _ Ha), Hr. }
    lia.
  - rewrite Hleft. lia.
Qed.

(** Trimming a whole vector brings its total to the target exactly, by lowering entries only. *)
Lemma trim_to_total_spec candidates amounts target :
  length amounts = length candidates → Forall (λ x, 0 ≤ x) amounts → 0 ≤ target →
  let out := trim_to_total candidates amounts target (seq 0 (length candidates)) in
  length out = length amounts ∧ Forall (λ x, 0 ≤ x) out ∧ (∀ i, out !!! i ≤ amounts !!! i)
  ∧ zsum id out = Z.min target (zsum id amounts).
Proof.
  intros Hlen Ha Ht out. unfold out, trim_to_total.
  set (live := filter (λ i, amounts !!! i ≠ 0) (seq 0 (length candidates))).
  set (order := rev (merge_sort (trim_le candidates amounts) live)).
  assert (Hperm : order ≡ₚ live).
  { unfold order. rewrite <-Permutation_rev. apply merge_sort_Permutation. }
  assert (Hlive : ∀ i, i ∈ live ↔ amounts !!! i ≠ 0 ∧ (i < length amounts)%nat).
  { intros i. unfold live. rewrite list_elem_of_filter, elem_of_seq. rewrite Hlen. lia. }
  pose proof (trim_fold_spec order amounts target) as Hspec.
  destruct (foldl trim_step (amounts, target) order) as [o rest]. cbn [fst].
  destruct Hspec as (Hl & Hnn & _ & Hle & Hsame & Hsum & _).
  { rewrite Hperm. apply NoDup_filter, NoDup_seq. }
  { apply Forall_forall. intros i Hi. rewrite Hperm in Hi. by apply Hlive in Hi as [_ ?]. }
  { done. } { done. }
  assert (Htot : ∀ v : list Z, length v = length amounts → (∀ i, i ∉ live → (i < length amounts)%nat → v !!! i = 0) →
    zsum id v = zsum (λ i, v !!! i) order).
  { intros v Hv Hz. rewrite <-zsum_lookup_seq, Hv, Hlen, Hperm. unfold live. rewrite zsum_filter; [done|].
    intros i Hi Hz'. apply Hz; [|apply elem_of_seq in Hi; lia]. rewrite Hlive. tauto. }
  assert (Hz : ∀ i, i ∉ live → (i < length amounts)%nat → amounts !!! i = 0).
  { intros i Hi Hlt. rewrite Hlive in Hi. destruct (Z.eq_dec (amounts !!! i) 0); tauto. }
  split_and!; try done. rewrite (Htot o), (Htot amounts) by (done || (intros i Hi Hlt; rewrite Hsame by (by rewrite Hperm); auto)).
  done.
Qed.

(** ** Building legs *)

(** A leg that its own venue prices, neither side empty. *)
Definition leg_ok (kind : FillKind) (cas : list (Candidate * U256)) (l : RouteLeg) : Prop :=
  ∃ c amount, (c, amount) ∈ cas
    ∧ leg_maker l = key_maker (cand_key c) ∧ leg_hash l = key_hash (cand_key c)
    ∧ leg_token_in l = cand_token_in c ∧ leg_token_out l = cand_token_out c
    ∧ leg_in l ≠ 0 ∧ leg_out l ≠ 0
    ∧ match kind with
      | ExactIn => leg_in l = amount ∧ net_quote_exact_in c amount = Ok (leg_out l)
      | ExactOut => leg_out l = amount ∧ net_quote_exact_out c amount = Ok (leg_in l)
      end.

Definition fixed_side (kind : FillKind) (l : RouteLeg) : Z :=
  match kind with ExactIn => leg_in l | ExactOut => leg_out l end.

(** A venue that would give a positive fixed amount for nothing (its leg is dropped as dust). *)
Definition dust (kind : FillKind) (ca : Candidate * U256) : Prop :=
  ca.2 ≠ 0 ∧ match kind with
             | ExactIn => net_quote_exact_in ca.1 ca.2 = Ok 0
             | ExactOut => net_quote_exact_out ca.1 ca.2 = Ok 0
             end.

Lemma leg_ok_mono kind cas cas' l : leg_ok kind cas l → cas ⊆ cas' → leg_ok kind cas' l.
Proof. intros (c & a & Hin & H) Hsub. exists c, a. split; [by apply Hsub|done]. Qed.

(** One step adds nothing (a zero or dust amount) or one priced leg. *)
Lemma build_step_spec kind ls ti to c amount ls' ti' to' :
  build_step kind (ls, ti, to) (c, amount) = Some (ls', ti', to') →
  (ls' = ls ∧ ti' = ti ∧ to' = to ∧ (amount = 0 ∨ dust kind (c, amount)))
  ∨ (∃ l, ls' = ls ++ [l] ∧ ti' = ti + leg_in l ∧ to' = to + leg_out l
       ∧ leg_ok kind [(c, amount)] l ∧ fixed_side kind l = amount).
Proof.
  unfold build_step, dust, fixed_side, leg_ok. destruct (amount =? 0) eqn:E0; zbool; [intros [= <- <- <-]; left; split_and!; by auto|].
  destruct kind.
  - destruct (net_quote_exact_in c amount) as [out|e] eqn:Hq; cbn; [|done]. rewrite (proj2 (Z.eqb_neq amount 0)) by done. cbn.
    destruct (out =? 0) eqn:E1; zbool; [intros [= <- <- <-]; subst; left; split_and!; by auto|].
    intros H. simplify_res. simplify_eq. apply checked_add_Some in E as [-> _], E2 as [-> _]. right. eexists.
    split; [done|]. cbn. split_and!; try done. exists c, amount. split; [left|]. done.
  - destruct (net_quote_exact_out c amount) as [inp|e] eqn:Hq; cbn; [|done]. rewrite (proj2 (Z.eqb_neq amount 0)) by done.
    destruct (inp =? 0) eqn:E1; zbool; cbn; [intros [= <- <- <-]; subst; left; split_and!; by auto|].
    intros H. simplify_res. simplify_eq. apply checked_add_Some in E as [-> _], E2 as [-> _]. right. eexists.
    split; [done|]. cbn. split_and!; try done. exists c, amount. split; [left|]. done.
Qed.

Lemma build_fold kind cas ls ti to ls' ti' to' :
  Forall (λ ca : Candidate * U256, 0 ≤ ca.2) cas →
  try_fold_opt (build_step kind) (ls, ti, to) cas = Some (ls', ti', to') →
  ∃ new, ls' = ls ++ new ∧ ti' = ti + zsum leg_in new ∧ to' = to + zsum leg_out new
    ∧ Forall (leg_ok kind cas) new ∧ zsum (fixed_side kind) new ≤ zsum snd cas
    ∧ ((∀ ca, ca ∈ cas → ¬ dust kind ca) → zsum (fixed_side kind) new = zsum snd cas).
Proof.
  revert ls ti to. induction cas as [|[c a] cas IH]; intros ls ti to Hnn H.
  { cbn in H. simplify_eq. exists []. rewrite app_nil_r. cbn. split_and!; try done; lia. }
  apply Forall_cons in Hnn as [Ha Hnn]. cbn in Ha. cbn [try_fold_opt] in H.
  apply bind_Some in H as ([[ls1 ti1] to1] & Hst & H). apply IH in H as (new & -> & -> & -> & Hok & Hle & Heq); [|done].
  apply build_step_spec in Hst as [(-> & -> & -> & Hz)|(l & -> & -> & -> & Hl & Hfix)]; rewrite zsum_cons; cbn [snd].
  - exists new. split_and!; try done.
    + eapply Forall_impl; [exact Hok|]. intros l Hl. eapply leg_ok_mono; [exact Hl|]. set_solver.
    + lia.
    + intros Hnd. destruct Hz as [->|Hz]; [|by destruct (Hnd (c, a)); [left|]].
      rewrite Heq; [lia|]. intros ca Hca. apply Hnd. by right.
  - exists (l :: new). rewrite <-app_assoc. rewrite !zsum_cons. split_and!; try done; try lia.
    + constructor; [eapply leg_ok_mono; [exact Hl|set_solver]|].
      eapply Forall_impl; [exact Hok|]. intros l' Hl'. eapply leg_ok_mono; [exact Hl'|]. set_solver.
    + intros Hnd. rewrite Heq; [lia|]. intros ca Hca. apply Hnd. by right.
Qed.

(** What a built split is: priced legs, exact totals, the fixed side within the amounts asked for. *)
Record split_ok (kind : FillKind) (candidates : list Candidate) (amounts : list U256) (s : Split) : Prop := {
  split_legs : Forall (leg_ok kind (zip candidates amounts)) (legs s);
  split_some : legs s ≠ [];
  split_in : amount_in s = zsum leg_in (legs s);
  split_out : amount_out s = zsum leg_out (legs s);
  split_words : amount_in s ≤ U256_MAX ∧ amount_out s ≤ U256_MAX;
  split_fixed : zsum (fixed_side kind) (legs s) ≤ zsum id amounts;
  split_exact : (∀ ca, ca ∈ zip candidates amounts → ¬ dust kind ca) →
    zsum (fixed_side kind) (legs s) = zsum id amounts
}.

Lemma zsum_zip_snd (cs : list Candidate) (amounts : list Z) :
  length amounts = length cs → zsum snd (zip cs amounts) = zsum id amounts.
Proof.
  revert amounts. induction cs as [|c cs IH]; intros [|a amounts] Hl; try done.
  injection Hl as Hl. change (zip (c :: cs) (a :: amounts)) with ((c, a) :: zip cs amounts).
  rewrite !zsum_cons, IH by done. done.
Qed.

Lemma build_step_words kind acc ca acc' :
  build_step kind acc ca = Some acc' → acc.1.2 ≤ U256_MAX ∧ acc.2 ≤ U256_MAX →
  acc'.1.2 ≤ U256_MAX ∧ acc'.2 ≤ U256_MAX.
Proof.
  destruct acc as [[ls ti] to], ca as [c a]. unfold build_step. destruct (a =? 0); [by intros [= <-]|].
  intros ([li lo] & _ & H)%bind_Some. destruct (_ || _); [by simplify_eq|].
  apply bind_Some in H as (ti' & [-> Hi]%checked_add_Some & (to' & [-> Ho]%checked_add_Some & [= <-])%bind_Some). done.
Qed.

Lemma build_fold_words kind cas acc acc' :
  try_fold_opt (build_step kind) acc cas = Some acc' → acc.1.2 ≤ U256_MAX ∧ acc.2 ≤ U256_MAX →
  acc'.1.2 ≤ U256_MAX ∧ acc'.2 ≤ U256_MAX.
Proof.
  revert acc. induction cas as [|ca cas IH]; intros acc; cbn; [by intros [= <-]|].
  intros (a1 & H1 & H2)%bind_Some Hw. eapply IH; [exact H2|]. by eapply build_step_words.
Qed.

Lemma build_spec kind candidates amounts level s :
  length amounts = length candidates → Forall (λ x, 0 ≤ x) amounts →
  build candidates amounts kind level = Some s → split_ok kind candidates amounts s.
Proof.
  intros Hlen Hnn. unfold build. intros ([[ls ti] to] & Hf & H)%bind_Some.
  pose proof (build_fold_words _ _ _ _ Hf) as Hw.
  apply build_fold in Hf as (new & -> & -> & -> & Hok & Hle & Heq).
  - rewrite app_nil_l in H. destruct new as [|l new]; [done|]. injection H as <-.
    rewrite zsum_zip_snd in Hle, Heq by done. constructor; cbn [legs amount_in amount_out]; try done. by apply Hw.
  - apply Forall_forall. intros [c a] Hca. apply elem_of_zip_r in Hca. rewrite Forall_forall in Hnn. by apply Hnn.
Qed.

(** ** The water level *)

Lemma bracket_loop_spec fill target tol iters lo hi m_lo m_hi :
  target ≤ fill lo → fill hi < target →
  let b := bracket_loop fill target tol iters lo hi m_lo m_hi in
  target ≤ fill (br_lo b) ∧ fill (br_hi b) < target.
Proof.
  revert lo hi m_lo m_hi. induction iters as [|n IH]; intros lo hi m_lo m_hi Hlo Hhi; cbn; [done|].
  destruct (saturating_sub m_lo m_hi <=? tol); [done|].
  destruct (target <=? fill (midpoint lo hi)) eqn:E; zbool; apply IH; done.
Qed.

(** The lower level still reaches the target, whatever the seed; the upper one does not, provided
    nothing fills above every word. *)
Lemma bracket_level_spec fill target seed upper :
  target ≤ fill ratio_zero → fill (doubled (ratio_from U256_MAX)) < target →
  let b := bracket_level fill target seed upper in
  target ≤ fill (br_lo b) ∧ fill (br_hi b) < target.
Proof.
  intros H0 Htop. unfold bracket_level.
  set (hi := match seed with Some s => _ | None => _ end).
  destruct (target <=? fill hi) eqn:E1; zbool; cbv zeta iota beta.
  - destruct (target <=? fill upper) eqn:E2; zbool; apply bracket_loop_spec; done.
  - rewrite (proj2 (Z.leb_gt target (fill hi))) by done. by apply bracket_loop_spec.
Qed.

Lemma bracket_loop_lo fill target tol iters lo hi m_lo m_hi :
  target ≤ fill lo → target ≤ fill (br_lo (bracket_loop fill target tol iters lo hi m_lo m_hi)).
Proof.
  revert lo hi m_lo m_hi. induction iters as [|n IH]; intros lo hi m_lo m_hi Hlo; cbn; [done|].
  destruct (saturating_sub m_lo m_hi <=? tol); [done|].
  destruct (target <=? fill (midpoint lo hi)) eqn:E; zbool; apply IH; done.
Qed.

Lemma bracket_level_lo fill target seed upper :
  target ≤ fill ratio_zero → target ≤ fill (br_lo (bracket_level fill target seed upper)).
Proof.
  intros H0. unfold bracket_level. cbv zeta. repeat case_match; simplify_eq; by apply bracket_loop_lo.
Qed.

(** ** A book of well-formed venues *)

Definition book_ok (b : Book) : Prop :=
  Forall cand_ok (book_candidates b) ∧ Forall is_u256 (bounds b)
  ∧ length (bounds b) = length (book_candidates b).

Lemma book_cand b i : book_ok b → (i < length (book_candidates b))%nat → cand_ok (book_candidates b !!! i).
Proof.
  intros (Hc & _) Hi. destruct (lookup_lt_is_Some_2 _ _ Hi) as [c Hx]. rewrite (list_lookup_total_correct _ _ _ Hx).
  by eapply Forall_lookup_1.
Qed.

Lemma book_bound b i : book_ok b → (i < length (book_candidates b))%nat → is_u256 (bounds b !!! i).
Proof. intros (_ & Hb & Hl) Hi. apply (Forall_lookup_total is_u256); [done|lia]. Qed.

Lemma book_leg_range b i level :
  book_ok b → (i < length (book_candidates b))%nat →
  is_u256 (lq_amount_in (book_leg b i level)) ∧ is_u256 (lq_amount_out (book_leg b i level)).
Proof.
  intros Hb Hi. unfold book_leg. destruct (net_quote_with_limit _ _ _) as [q|] eqn:Hq; cbn; [|split; u256].
  pose proof (book_bound b i Hb Hi) as [? ?].
  apply net_limit_range in Hq as [? ?]; [|by apply book_cand|by apply book_bound]. split; [split; lia|done].
Qed.

Lemma measure_exact b level :
  book_ok b →
  measure b level = Z.min (zsum (λ i, toward_target (kind b) (book_leg b i level))
                             (seq 0 (length (book_candidates b)))) U256_MAX.
Proof.
  intros Hb. unfold measure. rewrite foldl_saturating_add; [f_equal; lia|u256|].
  intros i Hi. apply elem_of_seq in Hi. destruct (book_leg_range b i level Hb) as [[? _] [? _]]; [lia|].
  by destruct (kind b).
Qed.

(** Above every word no venue fills, so the book takes no input there. *)
Lemma measure_top b :
  book_ok b → kind b = ExactIn → measure b (doubled (ratio_from U256_MAX)) = 0.
Proof.
  intros Hb Hk. rewrite measure_exact by done. rewrite Hk. cbn [toward_target].
  assert (Hz : zsum (λ i, lq_amount_in (book_leg b i (doubled (ratio_from U256_MAX))))
                 (seq 0 (length (book_candidates b))) = 0); [|rewrite Hz; u256].
  rewrite (zsum_ext _ (λ _, 0)).
  { induction (seq 0 (length (book_candidates b))); [done|]. by rewrite zsum_cons. }
  intros i Hi. apply elem_of_seq in Hi. unfold book_leg.
  destruct (net_quote_with_limit _ _ _) as [q|] eqn:Hq; [|done]. cbn.
  eapply net_limit_top; [| | |exact Hq]; [apply book_cand; [done|lia]|apply book_bound; [done|lia]|].
  unfold ratio_max2. case_match eqn:E; [by vm_compute|]. apply ratio_le_false in E.
  eapply Qlt_trans; [|exact E]. by vm_compute.
Qed.

Lemma input_bound_range target kind c : cand_ok c → is_u256 target → is_u256 (input_bound target kind c).
Proof.
  intros Hc Ht.
  assert (Hf : ∀ u, is_u256 u → is_u256 (feasible_input c u)).
  { intros u [? ?]. unfold feasible_input. destruct (feasible_bound_spec u (λ input, is_ok (net_quote_exact_in c input)))
      as [? _]; [done|]. split; lia. }
  assert (Hw : ∀ m i, is_u256 m → input_within_output c m = Some i → is_u256 i).
  { intros m i Hm. unfold input_within_output. intros (inp & Hinp%ok_Some & Hi)%bind_Some.
    apply net_exact_out_range in Hinp; [|done..]. repeat case_match; simplify_eq; [done|u256]. }
  pose proof (cand_cap c Hc) as Hcap. pose proof is_u256_MAX as Hmax. unfold input_bound. destruct kind.
  - assert (Hd : is_u256 (default (feasible_input c target) (input_within_output c (cap_out c)))).
    { destruct (input_within_output c (cap_out c)) eqn:E; cbn; [exact (Hw _ _ Hcap E)|by apply Hf]. }
    destruct Hd, Ht. split; lia.
  - case_match.
    + destruct (net_quote_exact_out c target) eqn:E; cbn; [exact (net_exact_out_range c target _ Hc Ht E)|by apply Hf].
    + destruct (input_within_output c (cap_out c)) eqn:E; cbn; [exact (Hw _ _ Hcap E)|by apply Hf].
Qed.

Lemma Book_new_ok candidates target kind :
  Forall cand_ok candidates → is_u256 target → book_ok (Book_new candidates target kind).
Proof.
  intros Hc Ht. split_and!; [done| |].
  - cbn. unfold input_bounds. apply Forall_fmap. eapply Forall_impl; [exact Hc|].
    intros c Hcc. by apply input_bound_range.
  - cbn. unfold input_bounds. by rewrite length_fmap.
Qed.

Lemma length_fills b level : length (fills b level) = length (book_candidates b).
Proof. unfold fills. by rewrite length_fmap, length_seq. Qed.

Lemma fills_nonneg b level f :
  book_ok b → (∀ q, is_u256 (lq_amount_in q) → is_u256 (lq_amount_out q) → 0 ≤ f q) →
  Forall (λ x, 0 ≤ x) (f <$> fills b level).
Proof.
  intros Hb Hf. apply Forall_fmap, Forall_fmap, Forall_forall. intros i Hi. apply elem_of_seq in Hi.
  destruct (book_leg_range b i level Hb) as [? ?]; [lia|]. cbn. by apply Hf.
Qed.

(** ** Placing the remainder *)

Lemma max_by_pair_elem {A} (f : A → Z * Z) l x : max_by_pair f l = Some x → x ∈ l.
Proof.
  unfold max_by_pair. revert x. induction l as [|y l IH] using rev_ind; [done|]. intros x. rewrite foldl_app. cbn.
  rewrite elem_of_app, list_elem_of_singleton. intros H. repeat case_match; simplify_eq; eauto.
Qed.

Lemma max_by_pair_None {A} (f : A → Z * Z) l : max_by_pair f l = None → l = [].
Proof.
  unfold max_by_pair. destruct l as [|y l _] using rev_ind; [done|]. rewrite foldl_app. cbn. intros. by repeat case_match.
Qed.

Lemma topup_room_range b ins outs i :
  book_ok b → (i < length (book_candidates b))%nat → 0 ≤ ins !!! i ≤ bounds b !!! i →
  0 ≤ topup_room b ins outs i ≤ bounds b !!! i - ins !!! i.
Proof.
  intros Hb Hi Hins. unfold topup_room, saturating_sub. repeat case_match; lia.
Qed.

(** What every pass keeps: the legs stay in their boxes, grow only, and with the remainder make up
    the target. *)
Record topup_inv (b : Book) (ins0 : list U256) (target : U256) (t : Topup) : Prop := {
  inv_len : length (tp_ins t) = length (book_candidates b);
  inv_box : ∀ i, (i < length (book_candidates b))%nat → 0 ≤ tp_ins t !!! i ≤ bounds b !!! i;
  inv_grow : ∀ i, (i < length (book_candidates b))%nat → ins0 !!! i ≤ tp_ins t !!! i;
  inv_total : zsum id (tp_ins t) + tp_remainder t = target;
  inv_rest : 0 ≤ tp_remainder t
}.

(** What the loop leaves. *)
Record topup_done (b : Book) (ins0 : list U256) (target : U256) (ins : list U256) : Prop := {
  done_len : length ins = length (book_candidates b);
  done_box : ∀ i, (i < length (book_candidates b))%nat → 0 ≤ ins !!! i ≤ bounds b !!! i;
  done_grow : ∀ i, (i < length (book_candidates b))%nat → ins0 !!! i ≤ ins !!! i;
  done_total : zsum id ins ≤ target;
  done_full : zsum id ins = target
    ∨ ∃ outs, ∀ i, (i < length (book_candidates b))%nat → topup_room b ins outs i = 0
}.

Lemma topup_inv_done b ins0 target t :
  topup_inv b ins0 target t →
  tp_remainder t = 0 ∨ (∀ i, (i < length (book_candidates b))%nat → topup_room b (tp_ins t) (tp_outs t) i = 0) →
  topup_done b ins0 target (tp_ins t).
Proof.
  intros [? ? ? Ht ?] Hend. constructor; try done; [lia|]. destruct Hend as [H0|Hroom]; [left; lia|right; eauto].
Qed.

Lemma topup_add b ins0 target t i add outs :
  book_ok b → topup_inv b ins0 target t → (i < length (book_candidates b))%nat →
  0 < add ≤ tp_remainder t → add ≤ bounds b !!! i - tp_ins t !!! i →
  topup_inv b ins0 target
    (mk_topup (<[i := saturating_add (tp_ins t !!! i) add]> (tp_ins t)) outs (tp_remainder t - add)).
Proof.
  intros Hb [Hl Hbox Hg Ht Hr] Hi Hadd Hroom. pose proof (book_bound b i Hb Hi) as [_ Hmax].
  assert (Hexact : saturating_add (tp_ins t !!! i) add = tp_ins t !!! i + add) by (unfold saturating_add; lia).
  rewrite Hexact. constructor; cbn [tp_ins tp_remainder].
  - by rewrite length_insert.
  - intros j Hj. rewrite lookup_total_insert_if by lia. specialize (Hbox j Hj). case_decide; [subst; lia|done].
  - intros j Hj. rewrite lookup_total_insert_if by lia. specialize (Hg j Hj). case_decide; [subst; lia|done].
  - rewrite zsum_insert by lia. lia.
  - lia.
Qed.

Lemma topup_step_spec b ins0 target t :
  book_ok b → topup_inv b ins0 target t →
  match topup_step b t with
  | inl t' => topup_inv b ins0 target t' ∧ tp_remainder t' < tp_remainder t
  | inr ins => topup_done b ins0 target ins
  end.
Proof.
  intros Hb Hinv. pose proof (topup_inv_done _ _ _ _ Hinv) as Hdone. pose proof Hinv as [Hl Hbox _ _ Hr].
  unfold topup_step. destruct (tp_remainder t =? 0) eqn:E0; zbool; [auto|].
  destruct (max_by_pair _ _) as [i|] eqn:Hm.
  2: { apply Hdone. right. intros i Hi. apply max_by_pair_None in Hm.
       destruct (decide (topup_room b (tp_ins t) (tp_outs t) i = 0)) as [|Hne]; [done|]. exfalso.
       apply (not_elem_of_nil i). rewrite <-Hm. apply list_elem_of_filter. rewrite lookup_total_fmap_seq, elem_of_seq by done.
       split; [done|lia]. }
  apply max_by_pair_elem, list_elem_of_filter in Hm as [Hne Hi%elem_of_seq]. rewrite lookup_total_fmap_seq in Hne by lia.
  rewrite lookup_total_fmap_seq by lia. pose proof (topup_room_range b (tp_ins t) (tp_outs t) i Hb ltac:(lia) (Hbox i ltac:(lia))) as Hrg.
  destruct (Z.min _ _ =? 0) eqn:E1; zbool; [lia|]. split; [apply topup_add; [done..|lia|lia|lia]|cbn; lia].
Qed.

(** The pouring always ends, and never past the target or a box. *)
Lemma topup_spec b target ins outs :
  book_ok b → is_u256 target → length ins = length (book_candidates b) →
  (∀ i, (i < length (book_candidates b))%nat → 0 ≤ ins !!! i ≤ bounds b !!! i) → zsum id ins ≤ target →
  ∃ ins', pos_loop (topup_step b) TOPUP_FUEL (mk_topup ins outs (saturating_sub target (sum ins))) = inr ins'
    ∧ topup_done b ins target ins'.
Proof.
  intros Hb Ht Hl Hbox Hsum.
  assert (Hnn : ∀ a, a ∈ ins → 0 ≤ id a).
  { intros a (i & Ha)%list_elem_of_lookup_1. pose proof (lookup_lt_Some _ _ _ Ha) as Hi.
    specialize (Hbox i ltac:(lia)). rewrite (list_lookup_total_correct _ _ _ Ha) in Hbox. unfold id. lia. }
  pose proof (zsum_nonneg id ins Hnn) as Hz. destruct Ht as [Ht0 Ht1].
  assert (Hs : sum ins = zsum id ins).
  { unfold sum. change saturating_add with (λ acc a, saturating_add acc (id a)).
    rewrite foldl_saturating_add; [lia|split; lia|exact Hnn]. }
  apply (pos_loop_spec (topup_step b) (topup_inv b ins target) (topup_done b ins target) tp_remainder).
  - by intros t [].
  - intros t. by apply topup_step_spec.
  - constructor; cbn [tp_ins tp_remainder]; try done; rewrite ?Hs; unfold saturating_sub; lia.
  - cbn [tp_remainder]. rewrite Hs. change (Zpos TOPUP_FUEL) with (2 ^ 256). unfold U256_MAX, saturating_sub in *. lia.
Qed.

(** A fill keeps each leg in its box. *)
Lemma fills_box b level i :
  book_ok b → (i < length (book_candidates b))%nat →
  0 ≤ (lq_amount_in <$> fills b level) !!! i ≤ bounds b !!! i.
Proof.
  intros Hb Hi. unfold fills. rewrite <-list_fmap_compose, lookup_total_fmap_seq by done. cbn. unfold book_leg.
  pose proof (book_bound b i Hb Hi) as Hbd.
  destruct (net_quote_with_limit _ _ _) as [q|] eqn:Hq; cbn; [|destruct Hbd; lia].
  apply net_limit_range in Hq; [tauto|by apply book_cand|done].
Qed.

Lemma fills_total b level f :
  zsum id (f <$> fills b level) = zsum (λ i, f (book_leg b i level)) (seq 0 (length (book_candidates b))).
Proof. unfold fills. by rewrite !zsum_fmap. Qed.

(** The assembly at a level that under-fills the target. *)
Lemma assemble_exact_in_spec b level target :
  book_ok b → kind b = ExactIn → is_u256 target → measure b level < target →
  ∃ ins, topup_done b (lq_amount_in <$> fills b level) target ins
    ∧ assemble_exact_in b level target = build (book_candidates b) ins ExactIn level.
Proof.
  intros Hb Hk Ht Hm. rewrite measure_exact, Hk in Hm by done. cbn [toward_target] in Hm. rewrite <-fills_total in Hm.
  destruct (topup_spec b target (lq_amount_in <$> fills b level) (lq_amount_out <$> fills b level))
    as (ins & Hrun & Hdone); [done|done|by rewrite length_fmap, length_fills|intros i Hi; by apply fills_box|destruct Ht; lia|].
  exists ins. split; [done|]. unfold assemble_exact_in. by rewrite Hrun.
Qed.

Lemma topup_done_nonneg b ins0 target ins : topup_done b ins0 target ins → Forall (λ x, 0 ≤ x) ins.
Proof.
  intros [Hl Hbox _ _ _]. apply Forall_lookup_2. intros i x Hx. pose proof (lookup_lt_Some _ _ _ Hx) as Hi.
  specialize (Hbox i ltac:(lia)). rewrite (list_lookup_total_correct _ _ _ Hx) in Hbox. lia.
Qed.

(** ** One solve *)

(** What a solve returned, exact-in: the legs are a pouring that ended within the target. *)
Lemma solve_exact_in_inv candidates req warm s :
  Forall cand_ok candidates → is_u256 (req_amount req) → req_exact_in req = true →
  solve candidates req warm = Some s →
  let b := Book_new candidates (req_amount req) ExactIn in
  ∃ level ins, topup_done b (lq_amount_in <$> fills b level) (req_amount req) ins
    ∧ measure b level < req_amount req ∧ split_ok ExactIn candidates ins s ∧ lambda s = level.
Proof.
  intros Hc Ht Hk. unfold solve, kind_of. rewrite Hk. destruct (_ || _) eqn:E0; [done|].
  apply orb_false_iff in E0 as [_ E0]. zbool.
  set (b := Book_new candidates (req_amount req) ExactIn). destruct (measure b ratio_zero <? req_amount req) eqn:E1; [done|]. zbool.
  assert (Hb : book_ok b) by (by apply Book_new_ok).
  set (level := br_hi (bracket_level (measure b) (req_amount req) warm (price_upper candidates))).
  assert (Hlev : measure b level < req_amount req).
  { apply bracket_level_spec; [lia|]. rewrite measure_top by done. destruct Ht. lia. }
  destruct (assemble_exact_in_spec b level (req_amount req)) as (ins & Hd & ->); [done..|]. intros Hs.
  exists level, ins. split; [done|]. split; [done|]. split.
  - eapply build_spec; [by apply Hd|by eapply topup_done_nonneg|exact Hs].
  - unfold build in Hs. apply bind_Some in Hs as ([[ls ti] to] & _ & Hs). destruct ls; by simplify_eq.
Qed.

(** Exact-out: the legs are a fill that reaches the target, trimmed to it. *)
Lemma solve_exact_out_inv candidates req warm s :
  Forall cand_ok candidates → is_u256 (req_amount req) → req_exact_in req = false →
  solve candidates req warm = Some s →
  let b := Book_new candidates (req_amount req) ExactOut in
  ∃ level outs, length outs = length candidates ∧ Forall (λ x, 0 ≤ x) outs
    ∧ (∀ i, outs !!! i ≤ (lq_amount_out <$> fills b level) !!! i)
    ∧ zsum id outs = req_amount req ∧ split_ok ExactOut candidates outs s.
Proof.
  intros Hc Ht Hk. unfold solve, kind_of. rewrite Hk. destruct (_ || _) eqn:E0; [done|].
  apply orb_false_iff in E0 as [_ E0]. zbool.
  set (b := Book_new candidates (req_amount req) ExactOut). destruct (measure b ratio_zero <? req_amount req) eqn:E1; [done|]. zbool.
  assert (Hb : book_ok b) by (by apply Book_new_ok).
  set (level := br_lo (bracket_level (measure b) (req_amount req) warm (price_upper candidates))).
  assert (Hlev : req_amount req ≤ measure b level) by (by apply bracket_level_lo).
  rewrite measure_exact in Hlev by done. cbn [toward_target kind b Book_new] in Hlev.
  pose proof (fills_total b level lq_amount_out) as Htot. fold b in Hlev. rewrite <-Htot in Hlev.
  destruct (trim_to_total_spec candidates (lq_amount_out <$> fills b level) (req_amount req)) as (Hl & Hnn & Hle & Hsum).
  { by rewrite length_fmap, length_fills. }
  { apply fills_nonneg; [done|]. by intros q _ [? _]. }
  { apply Ht. }
  rewrite length_fmap, length_fills in Hl. intros Hs. exists level, (trim_to_total candidates
    (lq_amount_out <$> fills b level) (req_amount req) (seq 0 (length candidates))).
  split_and!; [done|done|exact Hle|rewrite Hsum; destruct Ht; lia|]. eapply build_spec; [done|done|exact Hs].
Qed.

Lemma split_fixed_in candidates amounts s : split_ok ExactIn candidates amounts s → amount_in s ≤ zsum id amounts.
Proof. intros [_ _ -> _ _ Hf _]. exact Hf. Qed.

(** ** Caps *)

(** The frozen ceiling is one the venue's curve can reach, or lies above its whole reserve. *)
Definition reachable_cap (c : Candidate) : Prop :=
  is_Some (input_within_output c (cap_out c)) ∨ ∃ v, product_pool (pool c) = Some v ∧ balance_out v ≤ cap_out c.

Lemma capped_in c target amount y :
  product_cand c → reachable_cap c → 0 ≤ amount ≤ input_bound target ExactIn c →
  net_quote_exact_in c amount = Ok y → y ≤ cap_out c.
Proof.
  intros Hc [[i Hi]|(v & Hv & Hcap)] Ha Hy.
  - unfold input_bound in Ha. rewrite Hi in Ha. cbn in Ha.
    eapply (within_output_bound c (cap_out c) i amount); [done|by apply cand_cap, Hc|done|lia|done].
  - pose proof Hc as [[_ Hf _] (v' & Hv' & Hok)]. rewrite Hv in Hv'. injection Hv' as <-.
    apply bind_Ok in Hy as (n & Hn & Hq). destruct (product_quotes _ _ Hv) as [Hqi _]. rewrite Hqi in Hq.
    apply shrink_range in Hn; [|done|lia]. apply xyc_quote_exact_in_Ok in Hq as (-> & _); [|done|lia].
    etrans; [by apply xyc_curve_reserves; [|lia]|done].
Qed.

Lemma product_limit c v : product_pool (pool c) = Some v →
  ∀ x limit, quote_with_limit (pool c) x limit = xyc_quote_with_limit v x limit.
Proof.
  destruct (pool c) as [w|w|w]; cbn; [by intros [= ->]| |done]. intros Hv%ok_Some x limit. rewrite Hv. done.
Qed.

Lemma capped_out c target level q :
  product_cand c → reachable_cap c → is_u256 target →
  net_quote_with_limit c (input_bound target ExactOut c) level = Ok q →
  Z.min target (lq_amount_out q) ≤ cap_out c.
Proof.
  intros Hc Hr Ht Hq. pose proof Hc as [Hk (v & Hv & Hok)]. pose proof (input_bound_range target ExactOut c Hk Ht) as Hb.
  destruct (target <? cap_out c) eqn:E; zbool; [lia|].
  unfold net_quote_with_limit in Hq.
  apply bind_Ok in Hq as (g & _ & (inv & _ & (n & Hn & (net & Hnet & (gr & _ & [= <-])%bind_Ok)%bind_Ok)%bind_Ok)%bind_Ok).
  cbn. rewrite (product_limit c v Hv) in Hnet. pose proof (shrink_range _ _ _ (cand_fees c Hk) (proj1 Hb) Hn) as Hnr.
  apply xyc_limit_out in Hnet; [|done|lia].
  assert (xyc_curve v n ≤ cap_out c); [|lia]. destruct Hr as [[i Hi]|(v' & Hv' & Hcap)].
  - unfold input_bound in Hn. rewrite (proj2 (Z.ltb_ge _ _) E), Hi in Hn.
    exact (within_output_curve c v (cap_out c) i n Hc Hv (cand_cap c Hk) Hi Hn).
  - rewrite Hv in Hv'. injection Hv' as <-. etrans; [apply xyc_curve_reserves; [done|lia]|done].
Qed.

Lemma elem_of_zip_lookup (cs : list Candidate) (amounts : list U256) c a :
  (c, a) ∈ zip cs amounts → ∃ i, cs !! i = Some c ∧ amounts !!! i = a ∧ (i < length cs)%nat.
Proof.
  intros (i & Hi)%list_elem_of_lookup_1. apply lookup_zip_with_Some in Hi as (x & y & [= -> ->] & Hx & Hy).
  exists i. split_and!; [done|by apply list_lookup_total_correct|by eapply lookup_lt_Some].
Qed.

Lemma Book_new_bound candidates target kind c i :
  candidates !! i = Some c → bounds (Book_new candidates target kind) !!! i = input_bound target kind c.
Proof. intros Hi. apply list_lookup_total_correct. cbn. unfold input_bounds. by rewrite list_lookup_fmap, Hi. Qed.

(** A leg of a candidate, priced by it and within its ceiling. *)
Definition leg_of (c : Candidate) (l : RouteLeg) : Prop :=
  leg_maker l = key_maker (cand_key c) ∧ leg_hash l = key_hash (cand_key c)
  ∧ leg_token_in l = cand_token_in c ∧ leg_token_out l = cand_token_out c ∧ 0 < leg_in l ∧ 0 < leg_out l.

Definition priced (kind : FillKind) (c : Candidate) (l : RouteLeg) : Prop :=
  match kind with
  | ExactIn => net_quote_exact_in c (leg_in l) = Ok (leg_out l)
  | ExactOut => net_quote_exact_out c (leg_out l) = Ok (leg_in l)
  end.

(** What a solve promises of its split. *)
Record fill_ok (kind : FillKind) (target : U256) (candidates : list Candidate) (s : Split) : Prop := {
  fill_legs : Forall (λ l, ∃ c, c ∈ candidates ∧ leg_of c l ∧ priced kind c l) (legs s);
  fill_some : legs s ≠ [];
  fill_in : amount_in s = zsum leg_in (legs s);
  fill_out : amount_out s = zsum leg_out (legs s);
  fill_words : amount_in s ≤ U256_MAX ∧ amount_out s ≤ U256_MAX;
  fill_target : zsum (fixed_side kind) (legs s) ≤ target
}.

Lemma leg_ok_priced kind candidates amounts l :
  Forall cand_ok candidates → Forall (λ x, 0 ≤ x) amounts → zsum id amounts ≤ U256_MAX →
  leg_ok kind (zip candidates amounts) l → ∃ c, c ∈ candidates ∧ leg_of c l ∧ priced kind c l.
Proof.
  intros Hc Hnn Hsum (c & a & Hin & Hm & Hh & Hti & Hto & Hi0 & Ho0 & Hk).
  pose proof (elem_of_zip_l _ _ _ _ Hin) as Hel. pose proof (elem_of_zip_r _ _ _ _ Hin) as Her.
  rewrite Forall_forall in Hc. rewrite Forall_forall in Hnn. specialize (Hc c Hel).
  assert (Ha : is_u256 a).
  { split; [by apply Hnn|]. etrans; [apply (zsum_elem id amounts a); [exact Hnn|done]|done]. }
  exists c. split; [done|]. unfold leg_of, priced. destruct kind; destruct Hk as [Hf Hq]; rewrite Hf in *.
  - destruct (net_exact_in_range c a _ Hc Ha Hq), Ha. split_and!; try done; lia.
  - destruct (net_exact_out_range c a _ Hc Ha Hq), Ha. split_and!; try done; lia.
Qed.

Lemma split_fill_ok kind target candidates amounts s :
  Forall cand_ok candidates → Forall (λ x, 0 ≤ x) amounts → is_u256 target → zsum id amounts ≤ target →
  split_ok kind candidates amounts s → fill_ok kind target candidates s.
Proof.
  intros Hc Hnn [_ Ht] Hsum [Hl Hs Hi Ho Hw Hf _]. constructor; try done; [|lia].
  eapply Forall_impl; [exact Hl|]. intros l. apply leg_ok_priced; [done|done|lia].
Qed.

Lemma solve_fill_ok candidates req warm s :
  Forall cand_ok candidates → is_u256 (req_amount req) → solve candidates req warm = Some s →
  fill_ok (kind_of req) (req_amount req) candidates s.
Proof.
  intros Hc Ht Hs. unfold kind_of. destruct (req_exact_in req) eqn:Hk.
  - apply solve_exact_in_inv in Hs as (level & ins & Hd & _ & Hok & _); [|done..].
    apply (split_fill_ok _ _ _ ins); [done|by eapply topup_done_nonneg|done|apply Hd|done].
  - apply solve_exact_out_inv in Hs as (level & outs & _ & Hnn & _ & Hsum & Hok); [|done..].
    apply (split_fill_ok _ _ _ outs); [done|done|done|lia|done].
Qed.

Lemma product_ok candidates : Forall product_cand candidates → Forall cand_ok candidates.
Proof. intros H. eapply Forall_impl; [exact H|]. by intros c []. Qed.

(** No constant-product venue gives a positive output away, so nothing is dropped as dust. *)
Lemma solve_exact_out_delivers candidates req warm s :
  Forall product_cand candidates → is_u256 (req_amount req) → req_exact_in req = false →
  solve candidates req warm = Some s → amount_out s = req_amount req.
Proof.
  intros Hc Ht Hk Hs. apply solve_exact_out_inv in Hs as (level & outs & _ & Hnn & _ & <- & Hok); [|by apply product_ok|done..].
  rewrite (split_out _ _ _ _ Hok). apply (split_exact _ _ _ _ Hok).
  intros [c a] Hca [Hne Hq]. cbn in Hne, Hq. rewrite Forall_forall in Hc. rewrite Forall_forall in Hnn.
  pose proof (Hc c (elem_of_zip_l _ _ _ _ Hca)) as Hpc. pose proof (Hnn a (elem_of_zip_r _ _ _ _ Hca)) as Ha. cbn in Ha.
  assert (0 < 0); [|lia]. apply (net_out_positive c a); [done|lia|done].
Qed.

(** The frozen ceilings hold leg by leg. *)
Lemma solve_capped candidates req warm s :
  Forall (λ c, product_cand c ∧ reachable_cap c) candidates → is_u256 (req_amount req) →
  solve candidates req warm = Some s →
  Forall (λ l, ∃ c, c ∈ candidates ∧ leg_maker l = key_maker (cand_key c) ∧ leg_hash l = key_hash (cand_key c)
                   ∧ leg_out l ≤ cap_out c) (legs s).
Proof.
  intros Hc Ht Hs.
  assert (Hok : Forall cand_ok candidates) by (eapply Forall_impl; [exact Hc|]; by intros c [[] _]).
  assert (Hel : ∀ i c, candidates !! i = Some c → c ∈ candidates ∧ product_cand c ∧ reachable_cap c).
  { intros i c Hi. split; [by eapply list_elem_of_lookup_2|]. exact (Forall_lookup_1 _ _ _ _ Hc Hi). }
  destruct (req_exact_in req) eqn:Hk.
  - apply solve_exact_in_inv in Hs as (level & ins & Hd & _ & Hsp & _); [|done..].
    eapply Forall_impl; [apply Hsp|]. intros l (c & a & Hin & Hm & Hh & _ & _ & _ & _ & _ & Hq).
    apply elem_of_zip_lookup in Hin as (i & Hi & <- & Hlt). destruct (Hel i c Hi) as (Hcc & Hpc & Hrc).
    exists c. split_and!; [exact Hcc|exact Hm|exact Hh|]. apply (capped_in c (req_amount req) (ins !!! i)); [done..| |done].
    rewrite <-(Book_new_bound candidates _ _ c i Hi). by apply Hd.
  - apply solve_exact_out_inv in Hs as (level & outs & Hl & Hnn & Hle & Hsum & Hsp); [|done..].
    eapply Forall_impl; [apply Hsp|]. intros l (c & a & Hin & Hm & Hh & _ & _ & _ & Ho0 & Hout & _).
    apply elem_of_zip_lookup in Hin as (i & Hi & <- & Hlt). destruct (Hel i c Hi) as (Hcc & Hpc & Hrc).
    exists c. split_and!; [exact Hcc|exact Hm|exact Hh|]. rewrite Hout. specialize (Hle i). unfold fills in Hle.
    rewrite <-list_fmap_compose, lookup_total_fmap_seq in Hle by done. cbn in Hle. unfold book_leg in Hle.
    rewrite (Book_new_bound candidates _ _ c i Hi) in Hle.
    change (book_candidates (Book_new candidates (req_amount req) ExactOut)) with candidates in Hle.
    rewrite (list_lookup_total_correct candidates i c Hi) in Hle.
    assert (Htot : outs !!! i ≤ req_amount req).
    { rewrite <-Hsum. apply (zsum_elem id outs (outs !!! i)); [by rewrite Forall_forall in Hnn|].
      destruct (lookup_lt_is_Some_2 outs i) as [x Hx]; [lia|]. apply (list_elem_of_lookup_2 _ i). rewrite Hx. f_equal.
      symmetry. by apply list_lookup_total_correct. }
    pose proof (cand_cap c (proj1 Hpc)) as [Hc0 _].
    destruct (net_quote_with_limit c _ _) as [q|] eqn:Hq; cbn in Hle; [|lia].
    apply capped_out in Hq; [lia|done..].
Qed.

(** ** Dropping legs *)

Lemma insert_snoc_submseteq {A} (l : list A) pos x : <[pos := x]> l ⊆+ l ++ [x].
Proof.
  destruct (decide (pos < length l)%nat) as [Hlt|Hge].
  - rewrite insert_take_drop by done. rewrite <-(take_drop pos l) at 3. rewrite <-app_assoc.
    apply submseteq_app; [done|]. destruct (lookup_lt_is_Some_2 l pos Hlt) as [y Hy].
    rewrite (drop_S l y pos) by done. rewrite Permutation_cons_append, <-app_comm_cons. by apply submseteq_cons.
  - rewrite list_insert_ge by lia. apply submseteq_inserts_r. done.
Qed.

Lemma swap_remove_submseteq {A} (l : list A) pos : swap_remove l pos ⊆+ l.
Proof.
  unfold swap_remove. destruct (last l) as [x|] eqn:Hl; [|done]. apply last_Some in Hl as [k ->].
  rewrite length_app. cbn [length]. rewrite Nat.add_sub. destruct (decide (pos < length k)%nat).
  - rewrite insert_app_l by done. rewrite take_app_length'; [apply insert_snoc_submseteq|by rewrite length_insert].
  - rewrite insert_app_r_alt by lia. rewrite take_app_length. apply submseteq_inserts_r. done.
Qed.

Lemma length_swap_remove {A} (l : list A) pos : length (swap_remove l pos) = (length l - 1)%nat.
Proof.
  unfold swap_remove. destruct (last l) as [x|] eqn:Hl.
  - rewrite length_take, length_insert. lia.
  - apply last_None in Hl as ->. done.
Qed.

Lemma position_lt {A} (P : A → bool) l pos : position P l = Some pos → (pos < length l)%nat.
Proof.
  unfold position. rewrite fmap_Some. intros ([i x] & (Hi & _)%list_find_Some & ->). by eapply lookup_lt_Some.
Qed.

Lemma build_step_length kind acc ca acc' :
  build_step kind acc ca = Some acc' → (length acc'.1.1 ≤ S (length acc.1.1))%nat.
Proof.
  destruct acc as [[ls ti] to], ca as [c a], acc' as [[ls' ti'] to']. intros H%build_step_spec.
  destruct H as [(-> & _)|(l & -> & _)]; cbn; [lia|]. rewrite length_app. cbn. lia.
Qed.

Lemma build_length candidates amounts kind level s :
  build candidates amounts kind level = Some s → (length (legs s) ≤ length candidates)%nat.
Proof.
  unfold build. intros ([[ls ti] to] & Hf & H)%bind_Some.
  assert (Hlen : ∀ cas acc acc', try_fold_opt (build_step kind) acc cas = Some acc' →
    (length acc'.1.1 ≤ length acc.1.1 + length cas)%nat).
  { induction cas as [|ca cas IH]; intros acc acc'; cbn; [intros [= <-]; lia|].
    intros (a1 & H1%build_step_length & H2%IH)%bind_Some. lia. }
  apply Hlen in Hf. cbn in Hf. rewrite length_zip_with in Hf. destruct ls; simplify_eq; cbn [legs] in *; lia.
Qed.

Lemma solve_length candidates req warm s : solve candidates req warm = Some s → (length (legs s) ≤ length candidates)%nat.
Proof.
  unfold solve, assemble_exact_in, assemble_exact_out. intros H.
  repeat case_match; simplify_eq; by eapply build_length in H.
Qed.

Lemma is_no_worse_trans kind a b c cost :
  is_no_worse kind a b cost = true → is_no_worse kind b c cost = true → is_no_worse kind a c cost = true.
Proof. unfold is_no_worse. destruct kind; rewrite !Z.leb_le; lia. Qed.

Lemma is_no_worse_refl kind a cost : is_no_worse kind a a cost = true.
Proof. unfold is_no_worse. destruct kind; rewrite Z.leb_le; lia. Qed.

(** Every accepted split is a solve of a sub-book, and none is worse while the leg budget does not bind. *)
Lemma sparse_loop_spec fuel req cost max_legs active best warm :
  solve active req warm = Some best →
  let s := sparse_loop fuel req cost max_legs active best in
  (∃ active' warm', active' ⊆+ active ∧ solve active' req warm' = Some s)
  ∧ ((length active ≤ max_legs)%nat → is_no_worse (kind_of req) s best cost = true).
Proof.
  revert active best warm. induction fuel as [|fuel IH]; intros active best warm Hs; cbn [sparse_loop].
  { split; [by exists active, warm|]. intros _. apply is_no_worse_refl. }
  assert (Hstop : (∃ active' warm', active' ⊆+ active ∧ solve active' req warm' = Some best)
    ∧ ((length active ≤ max_legs)%nat → is_no_worse (kind_of req) best best cost = true)).
  { split; [by exists active, warm|]. intros _. apply is_no_worse_refl. }
  destruct (length (legs best) <=? 1)%nat; [done|]. destruct (worst_leg _) as [w|]; [|done].
  destruct (position _ active) as [pos|]; [|done].
  destruct (solve (swap_remove active pos) req _) as [next|] eqn:Hn; [|done].
  destruct (_ || _) eqn:Hacc; [|done]. destruct (IH _ _ _ Hn) as [(active' & warm' & Hsub & Hs') Hbetter].
  split.
  - exists active', warm'. split; [|done]. etrans; [exact Hsub|apply swap_remove_submseteq].
  - intros Hmax. apply solve_length in Hs. apply orb_true_iff in Hacc as [Hover|Hacc].
    { apply Nat.ltb_lt in Hover. lia. }
    eapply is_no_worse_trans; [|exact Hacc]. apply Hbetter. rewrite length_swap_remove. lia.
Qed.

(** One round per candidate is enough: extra rounds change nothing. *)
Lemma sparse_loop_fuel fuel req cost max_legs active best :
  (length active ≤ fuel)%nat →
  sparse_loop fuel req cost max_legs active best = sparse_loop (length active) req cost max_legs active best.
Proof.
  revert active best. induction fuel as [|fuel IH]; intros active best Hf.
  { by replace (length active) with 0%nat by lia. }
  destruct (length active) as [|n] eqn:Hl.
  { apply length_zero_iff_nil in Hl as ->. cbn. by repeat case_match. }
  cbn [sparse_loop]. destruct (length (legs best) <=? 1)%nat; [done|]. destruct (worst_leg _) as [w|]; [|done].
  destruct (position _ active) as [pos|]; [|done]. destruct (solve _ req _) as [next|]; [|done].
  destruct (_ || _); [|done]. rewrite IH by (rewrite length_swap_remove; lia).
  by rewrite length_swap_remove, Hl, Nat.sub_succ, Nat.sub_0_r.
Qed.

(** ** Properties *)

(** The loop that places the unfilled remainder always ends, whatever the venues quote: for every
    book and every level below the target it leaves with inputs inside every leg's box, no lower than the
    fill they started from and never past the target, and it stops short of the target only when no leg has
    room left. *)
Theorem topup_loop_ends candidates target level :
  Forall cand_ok candidates → is_u256 target →
  let b := Book_new candidates target ExactIn in
  measure b level < target →
  ∃ ins, pos_loop (topup_step b) TOPUP_FUEL
           (mk_topup (lq_amount_in <$> fills b level) (lq_amount_out <$> fills b level)
              (saturating_sub target (sum (lq_amount_in <$> fills b level)))) = inr ins
    ∧ topup_done b (lq_amount_in <$> fills b level) target ins.
Proof.
  intros Hc Ht b Hm. assert (Hb : book_ok b) by (by apply Book_new_ok).
  rewrite measure_exact in Hm by done. change (kind b) with ExactIn in Hm. cbn [toward_target] in Hm.
  rewrite <-(fills_total b level lq_amount_in) in Hm. apply topup_spec; [done|done|by rewrite length_fmap, length_fills|intros i Hi; by apply fills_box|destruct Ht; lia].
Qed.

(** A solved split is honest in both directions: it has at least one leg, every leg belongs to a
    candidate and carries exactly the amounts that candidate's own net-of-fee quote gives, neither side of a
    leg is zero, the totals are the sums of the legs, and the fixed side never exceeds the request. *)
Theorem solved_split_is_priced candidates req warm s :
  Forall cand_ok candidates → is_u256 (req_amount req) → solve candidates req warm = Some s →
  fill_ok (kind_of req) (req_amount req) candidates s.
Proof. apply solve_fill_ok. Qed.

(** C18: an exact-out split over constant-product venues delivers exactly the requested output. *)
Theorem exact_out_delivers_the_request candidates req warm s :
  Forall product_cand candidates → is_u256 (req_amount req) → req_exact_in req = false →
  solve candidates req warm = Some s → amount_out s = req_amount req.
Proof. apply solve_exact_out_delivers. Qed.

(** No leg of a split promises more than its venue's frozen ceiling, in either direction. *)
Theorem legs_stay_within_caps candidates req warm s :
  Forall (λ c, product_cand c ∧ reachable_cap c) candidates → is_u256 (req_amount req) →
  solve candidates req warm = Some s →
  Forall (λ l, ∃ c, c ∈ candidates ∧ leg_maker l = key_maker (cand_key c) ∧ leg_hash l = key_hash (cand_key c)
                   ∧ leg_out l ≤ cap_out c) (legs s).
Proof. apply solve_capped. Qed.

(** The sparsity pass ends within one round per candidate (more rounds change nothing), always returns
    a solve of the same request over some of the candidates, and, when the leg budget admits every candidate,
    never leaves the resolver worse off than the plain solve: no less net output, no more gross input. *)
Theorem sparsity_pass_never_hurts candidates req cost max_legs warm s0 :
  solve candidates req warm = Some s0 →
  ∃ s, solve_sparse candidates req cost max_legs warm = Some s
    ∧ (∃ kept warm', kept ⊆+ candidates ∧ solve kept req warm' = Some s)
    ∧ ((length candidates ≤ max_legs)%nat → is_no_worse (kind_of req) s s0 cost = true)
    ∧ (∀ fuel, (length candidates ≤ fuel)%nat → sparse_loop fuel req cost max_legs candidates s0 = s).
Proof.
  intros Hs. exists (sparse_loop (length candidates) req cost max_legs candidates s0).
  destruct (sparse_loop_spec (length candidates) req cost max_legs candidates s0 warm Hs) as [Hsub Hbetter].
  split_and!; [unfold solve_sparse; by rewrite Hs|done|done|]. intros fuel Hf. by apply sparse_loop_fuel.
Qed.

(** ** Two venues of different makers *)

Definition demo_venues : list Candidate :=
  [demo_candidate 1 1 1000000 3000000 500000 [3000000]; demo_candidate 2 2 5000000 14000000 900000 []].
Definition demo_request (amount : Z) (exact_in : bool) : RouteRequest := mk_request 1 3 5 amount exact_in.

Lemma demo_venues_product : Forall product_cand demo_venues.
Proof.
  apply Forall_cons_2; [|apply Forall_cons_2; [|apply Forall_nil_2]]; apply demo_candidate_ok; try lia; [|apply Forall_nil_2].
  apply Forall_cons_2; [split; discriminate|apply Forall_nil_2].
Qed.

Lemma demo_venues_reachable : Forall (λ c, product_cand c ∧ reachable_cap c) demo_venues.
Proof.
  pose proof demo_venues_product as Hp. apply Forall_cons in Hp as [H1 [H2 _]%Forall_cons].
  apply Forall_cons_2; [|apply Forall_cons_2; [|apply Forall_nil_2]]; (split; [done|left; by vm_compute; eexists]).
Qed.

Lemma demo_amount_u256 : is_u256 300000.
Proof. split; discriminate. Qed.

Lemma topup_loop_ends_witness :
  let b := Book_new demo_venues 600000 ExactIn in
  measure b (ratio_from 2) = 544113 ∧
  ∃ ins, pos_loop (topup_step b) TOPUP_FUEL
           (mk_topup (lq_amount_in <$> fills b (ratio_from 2)) (lq_amount_out <$> fills b (ratio_from 2))
              (saturating_sub 600000 (sum (lq_amount_in <$> fills b (ratio_from 2))))) = inr ins
    ∧ topup_done b (lq_amount_in <$> fills b (ratio_from 2)) 600000 ins.
Proof.
  intros b. assert (Hm : measure b (ratio_from 2) = 544113) by (by vm_compute). split; [exact Hm|].
  apply (topup_loop_ends demo_venues 600000 (ratio_from 2)); [apply product_ok, demo_venues_product|split; discriminate|].
  fold b. rewrite Hm. lia.
Defined.

Lemma solved_split_is_priced_witness :
  ∃ s, solve demo_venues (demo_request 300000 true) None = Some s ∧ leg_out <$> legs s = [220026; 591615]
    ∧ fill_ok ExactIn 300000 demo_venues s.
Proof.
  eexists. assert (Hs : solve demo_venues (demo_request 300000 true) None = Some _) by (vm_compute; reflexivity).
  split; [exact Hs|]. split; [reflexivity|].
  apply (solved_split_is_priced demo_venues (demo_request 300000 true) None);
    [apply product_ok, demo_venues_product|apply demo_amount_u256|exact Hs].
Defined.

Lemma exact_out_delivers_the_request_witness :
  ∃ s, solve demo_venues (demo_request 300000 false) None = Some s ∧ length (legs s) = 2%nat ∧ amount_out s = 300000.
Proof.
  eexists. assert (Hs : solve demo_venues (demo_request 300000 false) None = Some _) by (vm_compute; reflexivity).
  split; [exact Hs|]. split; [reflexivity|].
  apply (exact_out_delivers_the_request demo_venues (demo_request 300000 false) None);
    [apply demo_venues_product|apply demo_amount_u256|reflexivity|exact Hs].
Defined.

Lemma legs_stay_within_caps_witness :
  ∃ s, solve demo_venues (demo_request 1000000 false) None = Some s ∧ leg_out <$> legs s = [252372; 747628]
    ∧ Forall (λ l, ∃ c, c ∈ demo_venues ∧ leg_maker l = key_maker (cand_key c)
                       ∧ leg_hash l = key_hash (cand_key c) ∧ leg_out l ≤ cap_out c) (legs s).
Proof.
  eexists. assert (Hs : solve demo_venues (demo_request 1000000 false) None = Some _) by (vm_compute; reflexivity).
  split; [exact Hs|]. split; [reflexivity|].
  apply (legs_stay_within_caps demo_venues (demo_request 1000000 false) None);
    [apply demo_venues_reachable|split; discriminate|exact Hs].
Defined.

Lemma sparsity_pass_never_hurts_witness :
  ∃ s0 s, solve demo_venues (demo_request 300000 true) None = Some s0 ∧ length (legs s0) = 2%nat
    ∧ solve_sparse demo_venues (demo_request 300000 true) 100000 8 None = Some s ∧ length (legs s) = 1%nat
    ∧ is_no_worse ExactIn s s0 100000 = true.
Proof.
  eexists. eexists. assert (Hs : solve demo_venues (demo_request 300000 true) None = Some _) by (vm_compute; reflexivity).
  split; [exact Hs|]. split; [reflexivity|].
  destruct (sparsity_pass_never_hurts demo_venues (demo_request 300000 true) 100000 8 None _ Hs)
    as (s & Hsp & _ & Hbetter & _).
  assert (He : solve_sparse demo_venues (demo_request 300000 true) 100000 8 None = Some _) by (vm_compute; reflexivity).
  split; [exact He|]. split; [reflexivity|]. rewrite He in Hsp. injection Hsp as <-. apply Hbetter. cbn. lia.
Defined.
