(* ===== verification/Routing.v ===== *)
(** * The router

    [crates/core/src/routing/service.rs] [route]: rank the candidates, solve the
    gas-aware split, and accept it only when it clears the taker's bound. *)

From S2P Require Import Prelude U256 Reservation Ratio CurveDecode Curves CurveProperties Registry Candidates Waterfill WaterfillProperties.

Record RoutingConfig := mk_routing_config { max_candidates : nat; max_legs : nat; gas_units_per_leg : Z }.

Record RoutePlan := mk_plan {
  plan_intent : IntentId;
  plan_legs : list RouteLeg;
  expected_profit : U256;
  plan_impact_bps : Z
}.

Record RoutingBook := mk_routing_book {
  rb_snapshot : Snapshot;
  rb_caps : AvailableSnapshot;
  rb_guards : GuardSnapshot
}.

Definition route (book : RoutingBook) (req : RouteRequest) (bound : U256) (config : RoutingConfig)
    (per_leg_cost : U256) (warm : option Ratio) : option RoutePlan :=
  let selection := select (rb_snapshot book) (rb_caps book) (rb_guards book) req (max_candidates config) in
  split ← solve_sparse (chosen selection) req per_leg_cost (max_legs config) warm;
  profit ← (if req_exact_in req then checked_sub (net_output split per_leg_cost) bound
            else checked_sub bound (gross_input split per_leg_cost));
  Some (mk_plan (req_intent req) (legs split) profit
    (price_impact_bps (chosen selection) (amount_in split) (amount_out split))).

(** * Correctness of the router

    A snapshot folded from chain events yields only well-formed venues, and every plan
    the router returns uses live, unguarded strategies of the pair and accounts for its
    profit exactly. *)

#[local] Open Scope Z_scope.

Section venues.
Context (abi_decode : list Z → option Order).
(** The decoder returns bytes. *)
Hypothesis decodes_bytes : ∀ strategy order, abi_decode strategy = Some order → Forall is_byte (order_data order).

(** A strategy's curve and fees are ones the contract would accept. *)
Definition spec_ok (m : MakerStrategy) : Prop :=
  ∀ curve fees, strat_curve m = Priceable curve fees → curve_in_domain curve ∧ fees_ok fees.

Lemma decode_ok strategy curve fees :
  decode_strategy abi_decode strategy = Priceable curve fees → curve_in_domain curve ∧ fees_ok fees.
Proof.
  unfold decode_strategy, program_of. destruct (abi_decode strategy) as [order|] eqn:Ho; [|done]. cbn [mbind option_bind].
  destruct (_ <=? _); [|done]. intros H. apply classify_valid in H as (? & ? & _); [done|].
  apply Forall_drop. by eapply decodes_bytes.
Qed.

Definition specs_ok (s : Snapshot) : Prop := ∀ k m, strategies s !! k = Some m → spec_ok m.

Lemma apply_specs_ok s e : specs_ok s → specs_ok (apply abi_decode s e).
Proof.
  intros Hs. destruct e as [mk app h strat|mk app h t x|mk app h t x|mk app h]; cbn [apply event_key];
    set (k := mk_strategy_key mk app h); destruct (strategies s !! k) as [m|] eqn:Hm; try done.
  - intros k' m'. cbn. intros [[<- <-]|[_ ?]]%lookup_insert_Some; [|by eapply Hs]. intros curve fees. apply decode_ok.
  - destruct (active m); [|done]. intros k' m'. cbn. intros [[<- <-]|[_ ?]]%lookup_insert_Some; [|by eapply Hs].
    exact (Hs k m Hm).
  - destruct (active m); [|done]. destruct (balances m !! t); [|done]. intros k' m'. cbn.
    intros [[<- <-]|[_ ?]]%lookup_insert_Some; [|by eapply Hs]. exact (Hs k m Hm).
  - intros k' m'. cbn. intros [[<- <-]|[_ ?]]%lookup_insert_Some; [|by eapply Hs]. exact (Hs k m Hm).
Qed.

Lemma fold_specs_ok es s : specs_ok s → specs_ok (fold_events abi_decode s es).
Proof. unfold fold_events. revert s. induction es as [|e es IH]; intros s Hs; [done|]. by apply IH, apply_specs_ok. Qed.

Lemma active_for_pair_Some s p m :
  m ∈ active_strategies_for_pair s p → active m = true ∧ ∃ k, strategies s !! k = Some m.
Proof.
  unfold active_strategies_for_pair. rewrite list_elem_of_omap.
  intros (k & _ & (m' & Hk & H)%bind_Some). destruct (active m') eqn:Ha; simplify_eq. eauto.
Qed.

(** A candidate is a live, unguarded strategy of the pair at its frozen ceilings. *)
Definition candidate_of (s : Snapshot) (guards : GuardSnapshot) (req : RouteRequest) (c : Candidate)
    (m : MakerStrategy) : Prop :=
  m ∈ active_strategies_for_pair s (TokenPair_new (req_token_in req) (req_token_out req))
  ∧ active m = true ∧ strat_key m ∉ guards ∧ cand_key c = strat_key m
  ∧ cand_token_in c = req_token_in req ∧ cand_token_out c = req_token_out req.

Lemma build_candidate_Some m caps token_in token_out c :
  build_candidate m caps token_in token_out = Some c →
  ∃ curve fees, strat_curve m = Priceable curve fees ∧ balance m token_in ≠ 0 ∧ balance m token_out ≠ 0
    ∧ c = mk_candidate (strat_key m) token_in token_out (deliverable (frozen_cap m caps token_out))
            (wallet (frozen_cap m caps token_out))
            (from_curve curve token_in token_out (balance m token_in) (balance m token_out)) fees.
Proof.
  unfold build_candidate, build_pricing_candidate. destruct (active m); [|done]. cbn [negb].
  destruct (strat_curve m) as [curve fees|]; [|done].
  destruct (_ || _) eqn:E; [done|]. apply orb_false_iff in E as [? ?]. zbool. cbn [mbind option_bind].
  destruct (cap_out _ =? 0); [done|]. intros [= <-]. exists curve, fees. done.
Qed.

Lemma eligible_strategy s caps guards req c :
  c ∈ eligible s caps guards req → ∃ m, candidate_of s guards req c m
    ∧ build_candidate m caps (req_token_in req) (req_token_out req) = Some c.
Proof.
  unfold eligible. rewrite list_elem_of_omap. intros (m & [Hg Hm]%list_elem_of_filter & Hb). exists m. split; [|done].
  pose proof (active_for_pair_Some _ _ _ Hm) as [Ha _]. apply build_candidate_Some in Hb as (? & ? & _ & _ & _ & ->).
  unfold candidate_of. split_and!; try done. unfold is_guarded in Hg. by apply bool_decide_eq_false in Hg.
Qed.

Lemma balance_u256 s k m t : snapshot_ok s → strategies s !! k = Some m → is_u256 (balance m t).
Proof.
  intros Hs Hm. unfold balance. destruct (balances m !! t) as [b|] eqn:Hb; cbn; [|u256].
  by eapply sn_balances.
Qed.

(** Every venue of a well-formed snapshot meets the pricing contract. *)
Lemma eligible_ok s caps guards req :
  snapshot_ok s → specs_ok s → (∀ a, is_u256 (Candidates.available caps a)) → Forall cand_ok (eligible s caps guards req).
Proof.
  intros Hok Hsp Hcaps. apply Forall_forall. intros c (m & (Hm & _) & Hb)%eligible_strategy.
  apply active_for_pair_Some in Hm as [_ [k Hk]]. apply build_candidate_Some in Hb as (curve & fees & Hc & _ & _ & ->).
  destruct (Hsp k m Hk curve fees Hc) as [Hd Hf]. constructor; cbn; [|done|].
  - apply pool_wf_laws, from_curve_wf; [done|by eapply balance_u256..].
  - pose proof (Hcaps (WalletBudget (key_maker (strat_key m)) (req_token_out req))) as [? ?].
    pose proof (Hcaps (StrategyVirtual (key_maker (strat_key m)) (key_hash (strat_key m)) (req_token_out req))) as [? ?].
    split; lia.
Qed.

(** A snapshot folded from chain events is well formed. *)
Lemma folded_ok es :
  Forall event_ok es → snapshot_ok (fold_events abi_decode snapshot_default es) ∧ specs_ok (fold_events abi_decode snapshot_default es).
Proof. intros Hes. split; [apply fold_ok; [apply default_snapshot_ok|done]|by apply fold_specs_ok]. Qed.

End venues.

(** ** Plans *)

Lemma chosen_eligible s caps guards req k :
  chosen (select s caps guards req k) ⊆+ eligible s caps guards req.
Proof.
  unfold select. cbn [chosen]. set (ranked := merge_sort _ _).
  assert (Hr : scored <$> ranked ≡ₚ eligible s caps guards req).
  { unfold ranked. rewrite merge_sort_Permutation, <-list_fmap_compose. by rewrite list_fmap_id. }
  rewrite <-Hr. rewrite <-(take_drop k ranked) at 2. rewrite fmap_app. by apply submseteq_inserts_r.
Qed.

Lemma submseteq_Forall {A} (P : A → Prop) l k : l ⊆+ k → Forall P k → Forall P l.
Proof. intros Hs Hk. apply Forall_forall. intros x Hx. rewrite Forall_forall in Hk. apply Hk. by eapply elem_of_submseteq. Qed.

(** A sparse split is a priced fill of the candidates it was given. *)
Lemma solve_sparse_fill_ok candidates req cost max_legs warm s :
  Forall cand_ok candidates → is_u256 (req_amount req) →
  solve_sparse candidates req cost max_legs warm = Some s → fill_ok (kind_of req) (req_amount req) candidates s.
Proof.
  intros Hc Ht. unfold solve_sparse. intros (s0 & Hs0 & [= <-])%bind_Some.
  destruct (sparse_loop_spec (length candidates) req cost max_legs candidates s0 warm Hs0) as [(kept & w & Hsub & Hs) _].
  apply solve_fill_ok in Hs as [Hl ? ? ? ? ?]; [|by eapply submseteq_Forall|done]. constructor; try done.
  eapply Forall_impl; [exact Hl|]. intros l (c & Hin & H). exists c. split; [by eapply elem_of_submseteq|done].
Qed.

(** The profit of a plan, with its gas, closes the gap to the taker's bound exactly. *)
Lemma profit_exact_in s cost bound profit :
  amount_out s ≤ U256_MAX → 0 < bound → checked_sub (net_output s cost) bound = Some profit →
  0 ≤ profit ∧ amount_out s = bound + profit + cost * Z.of_nat (length (legs s)).
Proof.
  intros Hw Hb [-> Hle]%checked_sub_Some. unfold net_output, gas, saturating_sub, saturating_mul in *. lia.
Qed.

Lemma profit_exact_out s cost bound profit :
  0 ≤ amount_in s → bound < U256_MAX → checked_sub bound (gross_input s cost) = Some profit →
  0 ≤ profit ∧ bound = amount_in s + cost * Z.of_nat (length (legs s)) + profit.
Proof.
  intros Hw Hb [-> Hle]%checked_sub_Some. unfold gross_input, gas, saturating_add, saturating_mul in *. lia.
Qed.

(** A leg of a live, unguarded strategy of the pair. *)
Definition leg_sourced (s : Snapshot) (guards : GuardSnapshot) (req : RouteRequest) (l : RouteLeg) : Prop :=
  0 < leg_in l ∧ 0 < leg_out l
  ∧ leg_token_in l = req_token_in req ∧ leg_token_out l = req_token_out req
  ∧ ∃ m, m ∈ active_strategies_for_pair s (TokenPair_new (req_token_in req) (req_token_out req))
      ∧ active m = true ∧ strat_key m ∉ guards
      ∧ leg_maker l = key_maker (strat_key m) ∧ leg_hash l = key_hash (strat_key m).

(** The split a plan is made of. *)
Lemma route_split s caps guards req bound config cost warm plan :
  snapshot_ok s → specs_ok s → (∀ a, is_u256 (Candidates.available caps a)) → is_u256 (req_amount req) →
  route (mk_routing_book s caps guards) req bound config cost warm = Some plan →
  ∃ sp, plan_legs plan = legs sp ∧ plan_intent plan = req_intent req
    ∧ (if req_exact_in req then checked_sub (net_output sp cost) bound else checked_sub bound (gross_input sp cost)) = Some (expected_profit plan)
    ∧ legs sp ≠ [] ∧ amount_in sp = zsum leg_in (legs sp) ∧ amount_out sp = zsum leg_out (legs sp)
    ∧ amount_out sp ≤ U256_MAX ∧ zsum (fixed_side (kind_of req)) (legs sp) ≤ req_amount req
    ∧ Forall (leg_sourced s guards req) (legs sp).
Proof.
  intros Hok Hsp Hcaps Ht. unfold route. cbn [rb_snapshot rb_caps rb_guards].
  intros (sp & Hs & (profit & Hp & [= <-])%bind_Some)%bind_Some. cbn [plan_legs plan_intent expected_profit].
  set (sel := select s caps guards req (max_candidates config)) in *.
  pose proof (chosen_eligible s caps guards req (max_candidates config)) as Hsub. fold sel in Hsub.
  assert (Hc : Forall cand_ok (chosen sel)) by (eapply submseteq_Forall; [exact Hsub|]; by apply eligible_ok).
  apply solve_sparse_fill_ok in Hs as [Hl Hne Hi Ho [_ Hw] Htgt]; [|done..].
  exists sp. split_and!; try done. eapply Forall_impl; [exact Hl|]. intros l (c & Hin & (Hm & Hh & Hti & Hto & H1 & H2) & _).
  apply (elem_of_submseteq _ _ _ Hin) in Hsub as (m & (Hact & Ha & Hg & Hk & Hci & Hco) & _)%eligible_strategy.
  unfold leg_sourced. rewrite Hti, Hto, Hm, Hh, Hk. split_and!; try done. by exists m.
Qed.

(** C17: every plan is one the resolver can stand behind.  For a snapshot folded from any chain events and
    any frozen ceilings, a returned plan has at least one leg; each leg trades the requested tokens through a
    strategy that is live, indexed under the pair and not withheld by a guard; the plan never spends more than
    an exact-in request (never delivers more than an exact-out one); and the taker's bound, which is positive and less than the largest
    word, is met with the reported profit and the whole per-leg gas accounted to the unit. *)
Theorem route_plan_is_sound abi_decode es caps guards req bound config cost warm plan :
  (∀ strategy order, abi_decode strategy = Some order → Forall is_byte (order_data order)) →
  Forall event_ok es → (∀ a, is_u256 (Candidates.available caps a)) → is_u256 (req_amount req) →
  0 < bound < U256_MAX →
  let snapshot := fold_events abi_decode snapshot_default es in
  route (mk_routing_book snapshot caps guards) req bound config cost warm = Some plan →
  plan_legs plan ≠ [] ∧ plan_intent plan = req_intent req
  ∧ Forall (λ l, 0 < leg_in l ∧ 0 < leg_out l
      ∧ leg_token_in l = req_token_in req ∧ leg_token_out l = req_token_out req
      ∧ ∃ m, m ∈ active_strategies_for_pair snapshot (TokenPair_new (req_token_in req) (req_token_out req))
          ∧ active m = true ∧ strat_key m ∉ guards
          ∧ leg_maker l = key_maker (strat_key m) ∧ leg_hash l = key_hash (strat_key m)) (plan_legs plan)
  ∧ 0 ≤ expected_profit plan
  ∧ let gas := cost * Z.of_nat (length (plan_legs plan)) in
    if req_exact_in req
    then zsum leg_in (plan_legs plan) ≤ req_amount req
         ∧ zsum leg_out (plan_legs plan) = bound + expected_profit plan + gas
    else zsum leg_out (plan_legs plan) ≤ req_amount req
         ∧ zsum leg_in (plan_legs plan) + gas + expected_profit plan = bound.
Proof.
  intros Hd Hes Hcaps Ht Hb snapshot Hr. destruct (folded_ok abi_decode Hd es Hes) as [Hok Hsp].
  destruct (route_split _ _ _ _ _ _ _ _ _ Hok Hsp Hcaps Ht Hr) as (sp & -> & -> & Hp & Hne & Hi & Ho & Hw & Htgt & Hl).
  split; [done|]. split; [done|]. split; [exact Hl|]. cbn zeta. rewrite <-Hi, <-Ho. unfold kind_of in Htgt.
  assert (Hin : 0 ≤ amount_in sp).
  { rewrite Hi. apply zsum_nonneg. intros l Hx. rewrite Forall_forall in Hl. destruct (Hl l Hx) as (? & _). lia. }
  destruct (req_exact_in req); cbn [fixed_side] in Htgt.
  - apply profit_exact_in in Hp as [? ?]; [|done|lia]. split; [done|]. split; [by rewrite Hi|done].
  - apply profit_exact_out in Hp as [? ?]; [|done|lia]. split; [done|]. split; [by rewrite Ho|lia].
Qed.

Definition demo_byte_decode (strategy : list Z) : option Order :=
  if bool_decide (Forall is_byte strategy) then Some (mk_order 1 0 strategy) else None.

Lemma demo_byte_decodes strategy order : demo_byte_decode strategy = Some order → Forall is_byte (order_data order).
Proof. unfold demo_byte_decode. case_bool_decide; [|done]. by intros [= <-]. Qed.

Definition demo_caps : AvailableSnapshot :=
  {[WalletBudget 1 5 := 500000; StrategyVirtual 1 7 5 := 400000]}.

Lemma demo_caps_words a : is_u256 (Candidates.available demo_caps a).
Proof.
  unfold Candidates.available, demo_caps. destruct (_ !! a) as [x|] eqn:Ha; cbn; [|split; discriminate].
  apply lookup_insert_Some in Ha as [[_ <-]|[_ [_ <-]%lookup_singleton_Some]]; split; discriminate.
Qed.

Lemma route_plan_is_sound_witness :
  ∃ plan, route (mk_routing_book (fold_events demo_byte_decode snapshot_default demo_events) demo_caps ∅)
            (mk_request 11 3 5 90000 true) 80000 (mk_routing_config 4 2 100) 50 None = Some plan
    ∧ expected_profit plan = 2141
    ∧ zsum leg_out (plan_legs plan) = 80000 + expected_profit plan + 50 * 1.
Proof.
  eexists. assert (Hr : route (mk_routing_book (fold_events demo_byte_decode snapshot_default demo_events) demo_caps ∅)
    (mk_request 11 3 5 90000 true) 80000 (mk_routing_config 4 2 100) 50 None = Some _) by (vm_compute; reflexivity).
  split; [exact Hr|]. split; [vm_compute; reflexivity|].
  assert (Ht : is_u256 90000) by (split; discriminate).
  assert (Hb : 0 < 80000 < U256_MAX) by (pose proof U256_MAX_big; lia).
  destruct (route_plan_is_sound demo_byte_decode demo_events demo_caps ∅ (mk_request 11 3 5 90000 true) 80000
    (mk_routing_config 4 2 100) 50 None _
    demo_byte_decodes demo_events_ok demo_caps_words Ht Hb Hr) as (_ & _ & _ & _ & _ & Hout).
  exact Hout.
Defined.
