(* ===== verification/Frontier.v ===== *)
(** * The price frontier never offers more than its makers can deliver

    [Liquidity] of [crates/core/src/routing/waterfill.rs]: the split that every venue would fill
    at one price.  Its legs are priced by their own venues and within their ceilings, and the
    legs of one maker together stay within the maker's wallet, at every price. *)

From Stdlib Require Import Lqa.
From S2P Require Import Prelude U256 Reservation Ratio CurveDecode Curves CurveProperties Registry Candidates Waterfill WaterfillProperties.

#[local] Open Scope Z_scope.

(** ** A venue fills less at a higher price *)

Lemma fee_out_total f g g' a :
  0 ≤ f → 0 ≤ a ≤ g → apply_flat_fee_out g f = Ok g' → ∃ a', apply_flat_fee_out a f = Ok a' ∧ 0 ≤ a' ≤ g'.
Proof.
  intros Hf Ha H. unfold apply_flat_fee_out in *.
  apply bind_Ok in H as (d & Hd & (p & [-> Hp]%cmul_Ok & (e & He & [-> Hs]%cadd_Ok)%bind_Ok)%bind_Ok).
  rewrite Hd. apply ok_or_Ok, checked_sub_nonzero_Some in Hd as [-> Hd].
  assert (Hd0 : 0 < bps_denominator - f) by lia. set (d := bps_denominator - f) in *. clearbody d. cbn [mbind result_bind].
  rewrite (proj2 (cmul_Ok a f (a * f))) by (split; [done|nia]). cbn [mbind result_bind].
  destruct (ceil_div_total (a * f) d Hd0) as [e' He']. rewrite He'. cbn [mbind result_bind].
  pose proof (ceil_div_nonneg (a * f) d e' ltac:(nia) Hd0 He') as He0.
  assert (He1 : e' ≤ e).
  { eapply ceil_div_le_iff; [|exact Hd0|exact He'|]; [nia|]. pose proof (ceil_div_le_iff (g * f) d e e ltac:(nia) Hd0 He) as [Hx _]. nia. }
  exists (a + e'). split; [|lia]. apply cadd_Ok. split; [done|lia].
Qed.

Lemma gross_up_total fees g g' a :
  fees_ok fees → 0 ≤ a ≤ g → gross_up_by_fees g fees = Ok g' → ∃ a', gross_up_by_fees a fees = Ok a' ∧ 0 ≤ a' ≤ g'.
Proof.
  unfold gross_up_by_fees. intros Hf. assert (Hr : fees_ok (rev fees)) by (by apply Forall_rev). clear Hf.
  revert g a. induction Hr as [|f fs Hf _ IH]; intros g a Ha; cbn.
  { intros [= <-]. exists a. done. }
  intros (m & Hm & H)%bind_Ok. destruct (fee_out_total f g m a) as (m' & Hm' & Hle); [lia|done|done|].
  rewrite Hm'. cbn. by eapply IH.
Qed.

Lemma xyc_quote_total v x y a : pool_ok v → 0 ≤ a ≤ x → xyc_quote_exact_in v x = Ok y → xyc_quote_exact_in v a = Ok (xyc_curve v a).
Proof.
  intros Hv Ha (_ & Hm & Hs)%xyc_quote_exact_in_Ok; [|done|lia]. apply xyc_quote_exact_in_Ok; [done|lia|].
  destruct Hv. split; [done|]. split; [nia|lia].
Qed.

(** A pool that quotes its whole bound fills at every price. *)
Lemma xyc_limit_total v x y limit :
  pool_ok v → 0 ≤ x → xyc_quote_exact_in v x = Ok y → ∃ q, xyc_quote_with_limit v x limit = Ok q.
Proof.
  intros Hv Hx Hq. unfold xyc_quote_with_limit. rewrite xyc_is_empty_false by done.
  destruct (ratio_is_zero limit) eqn:Hz; [rewrite Hq; by eexists|].
  assert (Hs : ∃ spot, xyc_marginal_price v = Ok spot).
  { unfold xyc_marginal_price, Ratio_new. rewrite xyc_is_empty_false by done. destruct Hv as [Hi _].
    rewrite (proj2 (Z.eqb_neq _ _)) by lia. by eexists. }
  destruct Hs as [spot ->]. cbn [mbind result_bind]. destruct (ratio_le spot limit); [by eexists|].
  unfold invert. rewrite Hz. cbn [mbind result_bind ok_or].
  assert (Hr : ∀ b, 0 ≤ x `min` saturating_sub b (balance_in v) ≤ x) by (intros b; unfold saturating_sub; lia).
  destruct (floor_sqrt _) as [b|]; [rewrite (xyc_quote_total v x y _ Hv (Hr b) Hq)|rewrite Hq]; by eexists.
Qed.

Lemma xyc_marginal_mono v a b : pool_ok v → 0 ≤ a ≤ b → (xyc_marginal_at v b <= xyc_marginal_at v a)%Q.
Proof.
  intros [Hi Ho] Hab. unfold xyc_marginal_at. apply Qle_shift_div_l; [rewrite <-(Zlt_Qlt 0); nia|].
  set (k := balance_in v * balance_out v). set (s := (balance_in v + a) * (balance_in v + a)).
  set (t := (balance_in v + b) * (balance_in v + b)). assert (Ht : 0 < t) by (unfold t; nia).
  assert (Hst : s ≤ t) by (unfold s, t; nia). assert (Hk : 0 ≤ k) by (unfold k; nia).
  assert (Heq : (inject_Z k / inject_Z t * inject_Z s == inject_Z (k * s) / inject_Z t)%Q).
  { rewrite inject_Z_mult. field. intros E. unfold Qeq in E. cbn in E. lia. }
  rewrite Heq. apply Qle_shift_div_r; [rewrite <-(Zlt_Qlt 0); lia|]. rewrite <-inject_Z_mult, <-Zle_Qle. nia.
Qed.

Lemma xyc_limit_mono v x l1 l2 q1 q2 :
  pool_ok v → balance_in v ≤ U256_MAX → 0 ≤ x → (0 <= l1)%Q → (l1 <= l2)%Q →
  xyc_quote_with_limit v x l1 = Ok q1 → xyc_quote_with_limit v x l2 = Ok q2 → lq_amount_out q2 ≤ lq_amount_out q1.
Proof.
  intros Hv Hb Hx Hl1 Hl H1 H2. assert (Hl2 : (0 <= l2)%Q) by lra.
  apply xyc_limit_spec in H1 as (Ha1 & Hq1 & _ & _ & Hend); [|done..].
  apply xyc_limit_spec in H2 as (Ha2 & Hq2 & _ & Hin & _); [|done..].
  apply xyc_quote_exact_in_Ok in Hq1 as (Hq1 & _); [|done|lia]. rewrite Hq1.
  apply xyc_quote_exact_in_Ok in Hq2 as (Hq2 & _); [|done|lia]. rewrite Hq2.
  apply (xyc_curve_mono v (lq_amount_in q2) (lq_amount_in q1)); [done|]. split; [lia|].
  destruct (Z.le_gt_cases (lq_amount_in q2) (lq_amount_in q1)) as [|Hgt]; [done|exfalso].
  pose proof (Hend ltac:(lia)) as Hlt. pose proof (Hin ltac:(lia)) as Hle.
  pose proof (xyc_marginal_mono v (lq_amount_in q1 + 1) (lq_amount_in q2) Hv ltac:(lia)). lra.
Qed.

(** A venue whose whole bound is quoted: no intermediate product overflows. *)
Definition quotable (c : Candidate) : Prop :=
  is_ok (net_quote_with_limit c (full_input_bound c) ratio_zero) = true.

Definition venue_output (c : Candidate) (level : Ratio) : U256 :=
  match net_quote_with_limit c (full_input_bound c) level with
  | Ok q => Z.min (lq_amount_out q) (cap_out c)
  | Err _ => 0
  end.

Lemma venue_output_range c level : cand_ok c → 0 ≤ venue_output c level ≤ cap_out c.
Proof.
  intros Hc. unfold venue_output. pose proof (cand_cap c Hc) as [? ?].
  destruct (net_quote_with_limit _ _ _) as [q|] eqn:Hq; [|lia].
  apply net_limit_range in Hq as [_ [? ?]]; [lia|done|by apply full_input_bound_range].
Qed.

Lemma net_limit_total c level :
  product_cand c → quotable c → ∃ g v net n q,
    gamma c = Ok g ∧ (0 < g)%Q ∧ product_pool (pool c) = Some v ∧ pool_ok v ∧ balance_in v ≤ U256_MAX ∧ 0 ≤ n
    ∧ xyc_quote_with_limit v n (ratio_mul level (/ g)) = Ok net
    ∧ net_quote_with_limit c (full_input_bound c) level = Ok q ∧ lq_amount_out q = lq_amount_out net
    ∧ shrink_by_fees (full_input_bound c) (fees_in_bps c) = Ok n.
Proof.
  intros [Hok (v & Hv & Hpv)] Hq. pose proof (full_input_bound_range c Hok) as Hb.
  unfold quotable in Hq. destruct (net_quote_with_limit c (full_input_bound c) ratio_zero) as [q0|] eqn:H0; [|done].
  unfold net_quote_with_limit in H0 |- *. simplify_res. rename x into g, x0 into inv, x1 into n, x2 into net0, x3 into g0.
  pose proof (gamma_range _ _ (cand_fees c Hok) E) as [Hg0 _].
  unfold invert in E0. destruct (ratio_is_zero g) eqn:Hz; [done|]. injection E0 as <-.
  pose proof (shrink_range _ _ _ (cand_fees c Hok) (proj1 Hb) E1) as Hn.
  rewrite (product_limit c v Hv) in E2.
  assert (Hqn : ∃ y, xyc_quote_exact_in v n = Ok y ∧ lq_amount_in net0 = n).
  { unfold xyc_quote_with_limit in E2. rewrite xyc_is_empty_false in E2 by done.
    assert (Hz0 : ratio_is_zero (ratio_mul ratio_zero (/ g)) = true).
    { apply ratio_is_zero_true. unfold ratio_mul. rewrite Qred_correct. change ratio_zero with 0%Q. ring. }
    rewrite Hz0 in E2. apply bind_Ok in E2 as (y & Hy & [= <-]). exists y. done. }
  destruct Hqn as (y & Hy & Hin0). rewrite Hin0 in E3.
  destruct (xyc_limit_total v n y (ratio_mul level (/ g)) Hpv (proj1 Hn) Hy) as [net Hnet].
  pose proof Hy as (_ & _ & Hsum)%xyc_quote_exact_in_Ok; [|done|lia].
  assert (Hin : 0 ≤ lq_amount_in net ≤ n).
  { assert (Hnu : is_u256 n) by (destruct Hb; split; lia).
    assert (Hnet' : quote_with_limit (pool c) n (ratio_mul level (/ g)) = Ok net) by (by rewrite (product_limit c v Hv)).
    exact (proj1 (law_limit _ (cand_pool c Hok) _ _ _ Hnu Hnet')). }
  destruct (gross_up_total _ _ _ _ (cand_fees c Hok) Hin E3) as (gr & Hgr & _).
  exists g, v, net, n. eexists. rewrite E. cbn [mbind result_bind ok_or]. unfold invert. rewrite Hz. cbn [mbind result_bind ok_or].
  rewrite E1. cbn [mbind result_bind]. rewrite (product_limit c v Hv), Hnet. cbn [mbind result_bind]. rewrite Hgr.
  split_and!; try done; lia.
Qed.

Lemma venue_output_mono c l1 l2 :
  product_cand c → quotable c → (0 <= l1)%Q → (l1 <= l2)%Q → venue_output c l2 ≤ venue_output c l1.
Proof.
  intros Hc Hq H0 Hl. unfold venue_output.
  destruct (net_limit_total c l1 Hc Hq) as (g & v & net1 & n & q1 & Hg & Hg0 & Hv & Hpv & Hb & Hn & Hx1 & -> & -> & Hs).
  destruct (net_limit_total c l2 Hc Hq) as (g' & v' & net2 & n' & q2 & Hg' & _ & Hv' & _ & _ & _ & Hx2 & -> & -> & Hs').
  rewrite Hg in Hg'. rewrite Hv in Hv'. rewrite Hs in Hs'. simplify_eq.
  assert (Hi : (0 < / g')%Q) by (by apply Qinv_lt_0_compat).
  enough (lq_amount_out net2 ≤ lq_amount_out net1) by lia.
  eapply (xyc_limit_mono v' n'); [done..| | |exact Hx1|exact Hx2]; unfold ratio_mul; rewrite ?Qred_correct.
  - apply Qmult_le_0_compat; lra.
  - by apply Qmult_le_compat_r; [|lra].
Qed.

(** ** A maker's venues *)

Definition owner (cs : list Candidate) (i : nat) : MakerId := key_maker (cand_key (cs !!! i)).
Definition owned (cs : list Candidate) (m : MakerId) : list nat :=
  filter (λ i, owner cs i = m) (seq 0 (length cs)).

(** The group of a maker: its venues in order, and the least of the wallets they report. *)
Record group_of (cs : list Candidate) (m : MakerId) (g : MakerGroup) : Prop := {
  group_indices : indices g = owned cs m;
  group_wallet : Forall (λ i, group_wallet_cap g ≤ wallet_cap (cs !!! i)) (indices g);
  group_source : ∃ i, i ∈ indices g ∧ group_wallet_cap g = wallet_cap (cs !!! i)
}.

Lemma lookup_total_snoc {A} `{Inhabited A} (l : list A) x : (l ++ [x]) !!! length l = x.
Proof. apply list_lookup_total_correct. rewrite lookup_app_r, Nat.sub_diag by lia. done. Qed.

Lemma owned_lt cs m i : i ∈ owned cs m ↔ (i < length cs)%nat ∧ owner cs i = m.
Proof. unfold owned. rewrite list_elem_of_filter, elem_of_seq. split; [intros []|intros []]; split; (done || lia). Qed.

Lemma owned_lookup cs c m i : i ∈ owned cs m → (cs ++ [c]) !!! i = cs !!! i.
Proof. intros [Hi _]%owned_lt. by rewrite lookup_total_app_l. Qed.

Lemma owner_snoc cs c i : owner (cs ++ [c]) i = if decide (i = length cs) then key_maker (cand_key c) else owner cs i.
Proof.
  unfold owner. case_decide as Hi; [subst; by rewrite lookup_total_snoc|].
  destruct (decide (i < length cs)%nat); [by rewrite lookup_total_app_l|].
  rewrite !list_lookup_total_alt, (lookup_ge_None_2 cs), lookup_ge_None_2; [done| |lia]. rewrite length_app. cbn. lia.
Qed.

Lemma filter_ext_elem {A} (P Q : A → Prop) `{∀ x, Decision (P x), ∀ x, Decision (Q x)} (l : list A) :
  (∀ x, x ∈ l → P x ↔ Q x) → filter P l = filter Q l.
Proof.
  induction l as [|x l IH]; intros HPQ; [done|]. rewrite !filter_cons, IH by (intros y Hy; apply HPQ; by right).
  destruct (HPQ x) as [? ?]; [by left|]. repeat case_decide; tauto.
Qed.

Lemma owned_snoc cs c m :
  owned (cs ++ [c]) m = owned cs m ++ (if decide (key_maker (cand_key c) = m) then [length cs] else []).
Proof.
  unfold owned. rewrite length_app. cbn [length]. rewrite Nat.add_1_r, seq_S, filter_app. cbn [plus]. f_equal.
  - apply filter_ext_elem. intros i Hi. apply elem_of_seq in Hi. rewrite owner_snoc, decide_False by lia. done.
  - pose proof (owner_snoc cs c (length cs)) as Ho. rewrite decide_True in Ho by done.
    rewrite filter_cons. repeat case_decide; (done || congruence).
Qed.

(** Adding a venue of another maker, and one of the same maker. *)
Lemma group_of_other cs c m g : group_of cs m g → key_maker (cand_key c) ≠ m → group_of (cs ++ [c]) m g.
Proof.
  intros [Hi Hw (i & Hii & Hs)] Hm. constructor.
  - rewrite owned_snoc, decide_False by done. by rewrite app_nil_r.
  - apply Forall_forall. intros j Hj. rewrite (owned_lookup _ _ m) by (by rewrite <-Hi). rewrite Forall_forall in Hw. by apply Hw.
  - exists i. by rewrite (owned_lookup _ _ m) by (by rewrite <-Hi).
Qed.

Lemma group_of_same cs c g :
  let m := key_maker (cand_key c) in
  group_of cs m g ∨ g = mk_group [] (wallet_cap c) ∧ owned cs m = [] →
  group_of (cs ++ [c]) m (mk_group (indices g ++ [length cs]) (Z.min (group_wallet_cap g) (wallet_cap c))).
Proof.
  intros m [[Hi Hw (i & Hii & Hs)]|[-> Ho]]; constructor; cbn [indices group_wallet_cap].
  - rewrite owned_snoc, decide_True by done. by rewrite Hi.
  - apply Forall_app. split; [|constructor; [rewrite lookup_total_snoc; lia|done]]. apply Forall_forall. intros j Hj.
    rewrite (owned_lookup _ _ m) by (by rewrite <-Hi). rewrite Forall_forall in Hw. specialize (Hw j Hj). cbn in Hw. lia.
  - destruct (Z.min_spec (group_wallet_cap g) (wallet_cap c)) as [[_ ->]|[_ ->]].
    + exists i. rewrite (owned_lookup _ _ m) by (by rewrite <-Hi). set_solver.
    + exists (length cs). rewrite lookup_total_snoc. set_solver.
  - rewrite owned_snoc, decide_True by done. by rewrite Ho.
  - constructor; [rewrite lookup_total_snoc; lia|done].
  - exists (length cs). rewrite lookup_total_snoc, Z.min_id. set_solver.
Qed.

Lemma by_maker_spec cs m :
  match by_maker cs !! m with Some g => group_of cs m g | None => owned cs m = [] end.
Proof.
  revert m. induction cs as [|c cs IH] using rev_ind; intros m; [done|].
  unfold by_maker. rewrite imap_app, foldl_app. cbn [imap foldl]. fold (by_maker cs). unfold group_candidate at 1, entry_update.
  rewrite Nat.add_0_r. destruct (decide (key_maker (cand_key c) = m)) as [<-|Hm].
  - rewrite lookup_insert_eq. specialize (IH (key_maker (cand_key c))). apply group_of_same. unfold cell.
    destruct (by_maker cs !! _); cbn; auto.
  - rewrite lookup_insert_ne by done. specialize (IH m). destruct (by_maker cs !! m); [by apply group_of_other|].
    rewrite owned_snoc, decide_False by done. by rewrite IH.
Qed.

(** The groups partition the venues. *)
Lemma groups_disjoint cs : NoDup (mjoin (indices <$> groups (MakerGroups_new cs))).
Proof.
  cbn. unfold values.
  assert (Hg : ∀ m g, (m, g) ∈ entries (by_maker cs) → indices g = owned cs m).
  { intros m g Hin%elem_of_entries. pose proof (by_maker_spec cs m) as H. rewrite Hin in H. apply H. }
  pose proof (NoDup_keys (by_maker cs)) as Hk. unfold keys in Hk. revert Hk Hg.
  induction (entries (by_maker cs)) as [|[m g] es IH]; intros Hk Hg; [constructor|].
  apply NoDup_cons in Hk as [Hm Hk]. cbn. apply NoDup_app. split_and!.
  - rewrite (Hg m g) by left. apply NoDup_filter, NoDup_seq.
  - intros i Hi (js & Hjs & (g' & -> & ([m' g''] & -> & Hin)%list_elem_of_fmap)%list_elem_of_fmap)%list_elem_of_join.
    rewrite (Hg m g) in Hi by left. cbn in Hjs. rewrite (Hg m' g'') in Hjs by (by right).
    apply owned_lt in Hi as [_ Hi], Hjs as [_ Hjs]. apply Hm. apply list_elem_of_fmap. exists (m', g''). split; [cbn; congruence|done].
  - apply IH; [done|]. intros m' g' Hin. apply Hg. by right.
Qed.

(** ** The allocation at a wallet's boundary *)

(** An allocation to the venues of a maker that its ceilings and its wallet allow. *)
Record within (cs : list Candidate) (idx : list nat) (wallet : U256) (o : nat → U256) : Prop := {
  within_cap : Forall (λ i, 0 ≤ o i ≤ cap_out (cs !!! i)) idx;
  within_wallet : zsum o idx ≤ wallet
}.

Lemma within_ext cs idx wallet o o' : (∀ i, i ∈ idx → o i = o' i) → within cs idx wallet o → within cs idx wallet o'.
Proof.
  intros He [Hc Hw]. constructor; [|by rewrite <-(zsum_ext o)]. rewrite Forall_forall in Hc. apply Forall_forall.
  intros i Hi. rewrite <-He by done. by apply Hc.
Qed.

Lemma trim_within cs amounts target idx :
  NoDup idx → Forall (λ i, (i < length amounts)%nat) idx → Forall (λ x, 0 ≤ x) amounts → 0 ≤ target →
  let out := trim_to_total cs amounts target idx in
  length out = length amounts ∧ Forall (λ x, 0 ≤ x) out ∧ (∀ i, out !!! i ≤ amounts !!! i)
  ∧ zsum (λ i, out !!! i) idx ≤ target.
Proof.
  intros Hnd Hlt Ha Ht out. unfold out, trim_to_total.
  set (live := filter (λ i, amounts !!! i ≠ 0) idx).
  set (order := rev (merge_sort (trim_le cs amounts) live)).
  assert (Hperm : order ≡ₚ live) by (unfold order; rewrite <-Permutation_rev; apply merge_sort_Permutation).
  pose proof (trim_fold_spec order amounts target) as Hspec.
  destruct (foldl trim_step (amounts, target) order) as [o rest]. cbn [fst].
  destruct Hspec as (Hl & Hnn & _ & Hle & _ & Hsum & _); [rewrite Hperm; by apply NoDup_filter| |done|done|].
  { apply Forall_forall. intros i Hi. rewrite Hperm in Hi. apply list_elem_of_filter in Hi as [_ Hi].
    rewrite Forall_forall in Hlt. by apply Hlt. }
  split_and!; try done. rewrite Hperm in Hsum. unfold live in Hsum. rewrite (zsum_filter _ (λ i, o !!! i)) in Hsum; [lia|].
  intros i Hi Hz. rewrite Forall_forall in Hlt. specialize (Hlt i Hi). specialize (Hle i).
  assert (Hz' : amounts !!! i = 0) by (destruct (Z.eq_dec (amounts !!! i) 0); tauto).
  pose proof (Forall_lookup_total _ _ i Hnn ltac:(lia)) as H0. cbn in H0. lia.
Qed.

Lemma polish_step_selects cs wallet acc i :
  (polish_step cs wallet acc i).2 = acc.2
  ∨ (polish_step cs wallet acc i).2 = Some i ∧ wallet ≤ cap_out (cs !!! i).
Proof.
  destruct acc as [cost sel]. unfold polish_step. destruct (cap_out _ <? wallet) eqn:Hc; [by left|]. zbool.
  destruct (net_quote_exact_out _ _); [|by left]. destruct (_ || _); [by left|]. destruct (_ || _); [by right|by left].
Qed.

Definition selects (cs : list Candidate) (wallet : U256) (idx : list nat) (sel : option nat) : Prop :=
  match sel with Some i => i ∈ idx ∧ wallet ≤ cap_out (cs !!! i) | None => True end.

Lemma polish_select cs wallet idx acc ys :
  ys ⊆ idx → selects cs wallet idx acc.2 → selects cs wallet idx (foldl (polish_step cs wallet) acc ys).2.
Proof.
  revert acc. induction ys as [|i ys IH]; intros acc Hsub Hs; [exact Hs|]. cbn [foldl].
  apply IH; [intros j Hj; apply Hsub; by right|].
  destruct (polish_step_selects cs wallet acc i) as [->|[-> Hc]]; [done|]. split; [apply Hsub; by left|done].
Qed.

(** Assigning [f i] at every index of a list. *)
Lemma set_fold {A} `{Inhabited A} (f : nat → A) idx (os : list A) i :
  foldl (λ os i, <[i := f i]> os) os idx !!! i = if decide (i ∈ idx ∧ (i < length os)%nat) then f i else os !!! i.
Proof.
  revert os. induction idx as [|j idx IH]; intros os; cbn [foldl]; [by rewrite decide_False by set_solver|].
  rewrite IH, length_insert. destruct (decide (i = j)) as [->|Hij].
  - destruct (decide (j < length os)%nat) as [Hl|Hl].
    + rewrite list_lookup_total_insert_eq by done. repeat case_decide; set_solver.
    + rewrite list_insert_ge by lia. repeat case_decide; (done || naive_solver).
  - rewrite list_lookup_total_insert_ne by done. repeat case_decide; set_solver.
Qed.

Lemma length_set_fold {A} (f : nat → A) idx (os : list A) : length (foldl (λ os i, <[i := f i]> os) os idx) = length os.
Proof. revert os. induction idx as [|j idx IH]; intros os; cbn; [done|]. by rewrite IH, length_insert. Qed.

Lemma Forall_set_fold {A} (P : A → Prop) (f : nat → A) idx (os : list A) :
  Forall P os → Forall (λ i, P (f i)) idx → Forall P (foldl (λ os i, <[i := f i]> os) os idx).
Proof.
  intros Hos Hf. revert os Hos. induction Hf as [|j idx Hj _ IH]; intros os Hos; cbn; [done|].
  by apply IH, Forall_insert.
Qed.

Lemma polish_within cs idx outputs wallet :
  NoDup idx → Forall (λ i, (i < length outputs)%nat) idx → 0 ≤ wallet → Forall (λ i, 0 ≤ cap_out (cs !!! i)) idx →
  within cs idx wallet (λ i, outputs !!! i) →
  Forall (λ x, 0 ≤ x) outputs →
  length (polish_wallet_fill cs idx outputs wallet) = length outputs
  ∧ Forall (λ x, 0 ≤ x) (polish_wallet_fill cs idx outputs wallet)
  ∧ within cs idx wallet (λ i, polish_wallet_fill cs idx outputs wallet !!! i).
Proof.
  intros Hnd Hlt Hw Hcap Ho Hnn. unfold polish_wallet_fill.
  pose proof (polish_select cs wallet idx (polish_cost cs idx outputs, None) idx (reflexivity _) I) as Hs.
  destruct ((foldl _ _ idx).2) as [sel|]; [|done]. destruct Hs as [Hsel Hc].
  split; [by rewrite length_insert, (length_set_fold (λ _, 0))|].
  split; [apply Forall_insert; [|done]; apply (Forall_set_fold _ (λ _, 0)); [done|]; by apply Forall_true|].
  rewrite Forall_forall in Hlt.
  assert (Hv : ∀ i, i ∈ idx → <[sel := wallet]> (foldl (λ os i, <[i := 0]> os) outputs idx) !!! i = if decide (sel = i) then wallet else 0).
  { intros i Hi. rewrite lookup_total_insert_if by (rewrite (length_set_fold (λ _, 0)); by apply Hlt).
    case_decide; [done|]. rewrite (set_fold (λ _, 0)), decide_True by (split; [done|by apply Hlt]). done. }
  apply (within_ext _ _ _ (λ i, if decide (sel = i) then wallet else 0)); [intros i Hi; by rewrite Hv|]. constructor.
  - rewrite Forall_forall in Hcap. apply Forall_forall. intros i Hi. specialize (Hcap i Hi). cbn in Hcap. case_decide; [by subst|lia].
  - clear Hlt Hcap Ho Hv Hc Hnn. induction Hnd as [|i idx Hi Hnd IH]; [by apply not_elem_of_nil in Hsel|]. rewrite zsum_cons.
    case_decide as Hd.
    + subst. rewrite (zsum_ext _ (λ _, 0)); [|intros j Hj; rewrite decide_False; [done|by intros ->]].
      assert (zsum (λ _ : nat, 0) idx = 0) as -> by (clear; induction idx; [done|by rewrite zsum_cons]). lia.
    + apply elem_of_cons in Hsel as [?|Hsel]; [by subst|]. specialize (IH Hsel). lia.
Qed.

(** ** Where the wallet binds *)

(** The upper end of the search either falls short of the target or is above every price. *)
Lemma bracket_loop_hi (P : Ratio → Prop) fill target tol iters lo hi m_lo m_hi :
  (∀ l, (0 <= l)%Q → fill l < target → P l) → (0 <= lo)%Q → (0 <= hi)%Q → P hi →
  P (br_hi (bracket_loop fill target tol iters lo hi m_lo m_hi)).
Proof.
  intros HP. revert lo hi m_lo m_hi. induction iters as [|n IH]; intros lo hi m_lo m_hi Hlo Hhi Hf; cbn; [done|].
  destruct (saturating_sub m_lo m_hi <=? tol); [done|].
  assert (Hmid : (0 <= midpoint lo hi)%Q).
  { unfold midpoint. rewrite Qred_correct. apply Qle_shift_div_l; [done|]. lra. }
  destruct (target <=? fill (midpoint lo hi)) eqn:E; zbool; apply IH; (done || by apply HP).
Qed.

Lemma bracket_level_hi (P : Ratio → Prop) fill target upper :
  (∀ l, (0 <= l)%Q → fill l < target → P l) → P (doubled (ratio_from U256_MAX)) → (0 <= upper)%Q →
  P (br_hi (bracket_level fill target None upper)).
Proof.
  intros HP Htop Hu. unfold bracket_level. assert (H0 : (0 <= ratio_zero)%Q) by done.
  destruct (target <=? fill upper) eqn:E1; zbool; cbv zeta iota beta.
  - rewrite (proj2 (Z.leb_le target (fill upper))) by done. by apply bracket_loop_hi.
  - rewrite (proj2 (Z.leb_gt target (fill upper))) by done. apply bracket_loop_hi; [done..|]. by apply HP.
Qed.

Definition frontier_venue (c : Candidate) : Prop := product_cand c ∧ quotable c.

Lemma venue_output_top c : frontier_venue c → venue_output c (doubled (ratio_from U256_MAX)) = 0.
Proof.
  intros [Hc Hq]. pose proof Hc as [Hok _]. unfold venue_output.
  destruct (net_limit_total c (doubled (ratio_from U256_MAX)) Hc Hq)
    as (g & v & net & n & q & Hg & _ & Hv & Hpv & Hb & Hn & Hx & -> & -> & Hs).
  pose proof (gamma_range _ _ (cand_fees c Hok) Hg) as [Hg0 Hg1].
  pose proof (shrink_range _ _ _ (cand_fees c Hok) (proj1 (full_input_bound_range c Hok)) Hs) as Hr.
  assert (Hinv : (1 <= / g)%Q).
  { rewrite <-(Qmult_1_l (/ g)). apply Qle_shift_div_l; [done|]. by rewrite Qmult_1_l. }
  set (top := doubled (ratio_from U256_MAX)) in *. assert (Ht : (inject_Z U256_MAX < top)%Q) by done. clearbody top.
  assert (Hlim : (inject_Z U256_MAX < ratio_mul top (/ g))%Q).
  { unfold ratio_mul. rewrite Qred_correct. assert (H0 : (0 <= inject_Z U256_MAX)%Q) by done.
    set (m := inject_Z U256_MAX) in *. clearbody m. set (i := (/ g)%Q) in *. clearbody i. nra. }
  assert (Hx' : quote_with_limit (pool c) n (ratio_mul top (/ g)) = Ok net) by (by rewrite (product_limit c v Hv)).
  apply (law_top _ (cand_pool c Hok)) in Hx' as Hz; [|destruct (full_input_bound_range c Hok); split; lia|done].
  apply xyc_limit_spec in Hx as (_ & Hq0 & _); [|done..|assert (H0 : (0 <= inject_Z U256_MAX)%Q) by done; lra].
  rewrite Hz in Hq0. apply xyc_quote_exact_in_Ok in Hq0 as (-> & _); [|done|lia].
  pose proof (cand_cap c Hok) as [? _]. rewrite Z.mul_0_l, Zdiv_0_l. lia.
Qed.

Lemma ratio_max_elem l r : ratio_max l = Some r → r ∈ l.
Proof.
  unfold ratio_max. set (f := λ (best : option Ratio) x, _).
  assert (Hgen : ∀ acc, foldl f acc l = Some r → r ∈ l ∨ acc = Some r).
  { induction l as [|x l IH]; intros acc; cbn; [by right|]. intros H. apply IH in H as [?|H]; [left; by right|].
    unfold f in H. destruct acc as [b|]; [|left; simplify_eq; by left].
    destruct (ratio_le b x); simplify_eq; [left; by left|by right]. }
  intros H. by destruct (Hgen None H).
Qed.

Lemma marginal_nonneg c p : product_cand c → cand_marginal_price c = Ok p → (0 <= p)%Q.
Proof.
  intros [Hok (v & Hv & Hi & Ho)] (m & Hm & (g & Hg & [= <-])%bind_Ok)%bind_Ok.
  pose proof (gamma_range _ _ (cand_fees c Hok) Hg) as [? _]. unfold ratio_mul. rewrite Qred_correct.
  apply Qmult_le_0_compat; [|lra].
  assert (Hx : xyc_marginal_price v = Ok m).
  { destruct (pool c) as [w|w|w]; cbn in Hv, Hm; [by simplify_eq| |done]. apply ok_Some in Hv. by rewrite Hv in Hm. }
  unfold xyc_marginal_price in Hx. destruct (xyc_is_empty v); [done|]. apply ok_or_Ok, Ratio_new_Some in Hx; [|done].
  rewrite Hx. apply Qle_shift_div_l; [by rewrite <-(Zlt_Qlt 0)|]. rewrite Qmult_0_l, <-(Zle_Qle 0). lia.
Qed.

Lemma price_upper_nonneg cs : Forall product_cand cs → (0 <= price_upper cs)%Q.
Proof.
  intros Hc. unfold price_upper, doubled. rewrite Qred_correct. apply Qmult_le_0_compat; [|done].
  destruct (ratio_max _) as [r|] eqn:Hr; cbn [default]; [|done].
  apply ratio_max_elem, list_elem_of_filter in Hr as [_ (c & Hin & Hp%ok_Some)%list_elem_of_omap].
  rewrite Forall_forall in Hc. eapply marginal_nonneg; [by apply Hc|done].
Qed.

(** ** The boundaries of all makers *)

Definition group_fill (cs : list Candidate) (g : MakerGroup) (level : Ratio) : Z :=
  zsum (λ i, venue_output (cs !!! i) level) (indices g).

Record boundary_of (cs : list Candidate) (g : MakerGroup) (b : WalletBoundary) (o : nat → U256) : Prop := {
  boundary_outputs : capped_outputs b = (λ i, (i, o i)) <$> indices g;
  boundary_within : within cs (indices g) (group_wallet_cap g) o;
  boundary_level : Forall (λ i, frontier_venue (cs !!! i)) (indices g) →
    (0 <= binding_level b)%Q ∧ group_fill cs g (binding_level b) ≤ group_wallet_cap g
}.

Inductive boundaries (cs : list Candidate) : list MakerGroup → list WalletBoundary → Prop :=
| boundaries_nil : boundaries cs [] []
| boundaries_fits g gs bs :
    group_fill cs g ratio_zero ≤ group_wallet_cap g → boundaries cs gs bs → boundaries cs (g :: gs) bs
| boundaries_binds g gs b bs o :
    boundary_of cs g b o → boundaries cs gs bs → boundaries cs (g :: gs) (b :: bs).

Definition group_ok (cs : list Candidate) (g : MakerGroup) : Prop :=
  NoDup (indices g) ∧ Forall (λ i, (i < length cs)%nat) (indices g) ∧ is_u256 (group_wallet_cap g).

Section frontier.
Context (cs : list Candidate) (Hcs : Forall cand_ok cs).

#[local] Abbreviation bounds := (full_input_bound <$> cs).
#[local] Abbreviation full := ((λ i, capped_output cs bounds i ratio_zero) <$> seq 0 (length cs)).

Lemma cs_ok i : (i < length cs)%nat → cand_ok (cs !!! i).
Proof.
  intros [c Hc]%lookup_lt_is_Some_2. rewrite (list_lookup_total_correct _ _ _ Hc). by eapply Forall_lookup_1.
Qed.

Lemma capped_output_venue i level : (i < length cs)%nat → capped_output cs bounds i level = venue_output (cs !!! i) level.
Proof.
  intros Hi. unfold capped_output, venue_output. destruct (lookup_lt_is_Some_2 _ _ Hi) as [c Hc].
  rewrite (list_lookup_total_correct _ _ _ Hc), (list_lookup_total_correct bounds i (full_input_bound c)); [done|].
  by rewrite list_lookup_fmap, Hc.
Qed.

Lemma group_sum g level :
  group_ok cs g →
  foldl (λ sum i, saturating_add sum (capped_output cs bounds i level)) 0 (indices g)
  = Z.min (group_fill cs g level) U256_MAX.
Proof.
  intros (_ & Hlt & _). rewrite Forall_forall in Hlt. rewrite foldl_saturating_add; [|u256|].
  - rewrite Z.add_0_l. f_equal. apply zsum_ext. intros i Hi. by apply capped_output_venue, Hlt.
  - intros i Hi. rewrite capped_output_venue by (by apply Hlt). by apply venue_output_range, cs_ok, Hlt.
Qed.

Lemma exceeds_full g : group_ok cs g →
  exceeds_budget ((λ i, full !!! i) <$> indices g) (group_wallet_cap g) = false →
  group_fill cs g ratio_zero ≤ group_wallet_cap g.
Proof.
  intros (_ & Hlt & [Hw _]). rewrite Forall_forall in Hlt.
  assert (He : (λ i, full !!! i) <$> indices g = (λ i, venue_output (cs !!! i) ratio_zero) <$> indices g).
  { apply list_fmap_ext. intros k i Hi. apply list_elem_of_lookup_2 in Hi. rewrite lookup_total_fmap_seq by (by apply Hlt).
    by apply capped_output_venue, Hlt. }
  rewrite He. unfold exceeds_budget. rewrite (try_fold_checked_sub id).
  - rewrite zsum_fmap. change (zsum _ (indices g)) with (group_fill cs g ratio_zero).
    destruct (group_fill cs g ratio_zero <=? _) eqn:Hz; zbool; [done|].
    unfold group_fill in *. destruct (indices g); [cbn in *; lia|done].
  - intros x (i & -> & Hi)%list_elem_of_fmap. by apply venue_output_range, cs_ok, Hlt.
Qed.

Lemma boundary_hi g :
  group_ok cs g → Forall (λ i, frontier_venue (cs !!! i)) (indices g) →
  let b := bracket_level (λ level, foldl (λ sum i, saturating_add sum (capped_output cs bounds i level)) 0 (indices g))
    (group_wallet_cap g) None (price_upper ((λ i, cs !!! i) <$> indices g)) in
  (0 <= br_hi b)%Q ∧ group_fill cs g (br_hi b) ≤ group_wallet_cap g.
Proof.
  intros Hg Hf. pose proof Hg as (_ & _ & [Hw0 Hw]).
  apply (bracket_level_hi (λ l, (0 <= l)%Q ∧ group_fill cs g l ≤ group_wallet_cap g)).
  - intros l Hl. rewrite group_sum by done. split; [done|lia].
  - split; [done|]. assert (Hz : group_fill cs g (doubled (ratio_from U256_MAX)) = 0); [|lia].
    unfold group_fill. clear Hg. induction Hf as [|i l Hi _ IH]; [done|]. by rewrite zsum_cons, venue_output_top, IH.
  - apply price_upper_nonneg. apply Forall_fmap. eapply Forall_impl; [exact Hf|]. by intros i [].
Qed.

Lemma wallet_boundary_step outputs bs g :
  group_ok cs g → length outputs = length cs → Forall (λ x, 0 ≤ x) outputs →
  let r := wallet_boundary cs bounds full (outputs, bs) g in
  length r.1 = length cs ∧ Forall (λ x, 0 ≤ x) r.1
  ∧ (r.2 = bs ∧ group_fill cs g ratio_zero ≤ group_wallet_cap g ∨ ∃ b o, r.2 = bs ++ [b] ∧ boundary_of cs g b o).
Proof.
  intros Hg Hlen Hnn. pose proof Hg as (Hnd & Hlt & [Hw Hmax]). unfold wallet_boundary.
  destruct (exceeds_budget _ _) eqn:Hex; cbn [negb]; [|split_and!; [done|done|left; split; [done|by apply exceeds_full]]].
  set (br := bracket_level _ _ _ _). pose proof (boundary_hi g Hg) as Hhi. cbv zeta in Hhi. fold br in Hhi.
  set (o1 := foldl _ outputs (indices g)).
  assert (Hl1 : length o1 = length cs) by (unfold o1; by rewrite (length_set_fold (λ i, capped_output cs bounds i (br_lo br)))).
  rewrite Forall_forall in Hlt.
  assert (Hv : ∀ i, i ∈ indices g → o1 !!! i = venue_output (cs !!! i) (br_lo br)).
  { intros i Hi. unfold o1. rewrite (set_fold (λ i, capped_output cs bounds i (br_lo br))), decide_True.
    - by apply capped_output_venue, Hlt.
    - split; [done|]. rewrite Hlen. by apply Hlt. }
  assert (Hn1 : Forall (λ x, 0 ≤ x) o1).
  { unfold o1. apply (Forall_set_fold _ (λ i, capped_output cs bounds i (br_lo br))); [done|]. apply Forall_forall. intros i Hi.
    rewrite capped_output_venue by (by apply Hlt). by apply venue_output_range, cs_ok, Hlt. }
  clearbody o1. destruct (trim_within cs o1 (group_wallet_cap g) (indices g)) as (Hl2 & Hn2 & Hle & Hsum); [done| |done|done|].
  { apply Forall_forall. intros i Hi. rewrite Hl1. by apply Hlt. }
  set (o2 := trim_to_total cs o1 _ _) in *. clearbody o2.
  destruct (polish_within cs (indices g) o2 (group_wallet_cap g)) as (Hl3 & Hn3 & Hw3); [done| |done| | |done|].
  { apply Forall_forall. intros i Hi. rewrite Hl2, Hl1. by apply Hlt. }
  { apply Forall_forall. intros i Hi. by apply cand_cap, cs_ok, Hlt. }
  { constructor; [|done]. apply Forall_forall. intros i Hi. specialize (Hle i). rewrite Hv in Hle by done.
    destruct (venue_output_range (cs !!! i) (br_lo br)) as [_ ?]; [by apply cs_ok, Hlt|].
    pose proof (Forall_lookup_total _ _ i Hn2) as H0. cbn in H0. rewrite Hl2, Hl1 in H0. specialize (H0 (Hlt i Hi)). lia. }
  cbn [fst snd]. split_and!; [congruence|done|]. right. eexists _, (λ i, polish_wallet_fill cs (indices g) o2 (group_wallet_cap g) !!! i).
  split; [done|]. by constructor.
Qed.

Lemma boundaries_fold gs outputs bs0 :
  Forall (group_ok cs) gs → length outputs = length cs → Forall (λ x, 0 ≤ x) outputs →
  ∃ bs, (foldl (wallet_boundary cs bounds full) (outputs, bs0) gs).2 = bs0 ++ bs ∧ boundaries cs gs bs.
Proof.
  intros Hg. revert outputs bs0. induction Hg as [|g gs Hg _ IH]; intros outputs bs0 Hl Hn.
  { exists []. rewrite app_nil_r. split; [done|constructor]. }
  pose proof (wallet_boundary_step outputs bs0 g Hg Hl Hn) as (Hl' & Hn' & Hr). cbn [foldl].
  destruct (wallet_boundary cs bounds full (outputs, bs0) g) as [o' bs']. cbn [fst snd] in *.
  destruct (IH o' bs' Hl' Hn') as (bs & -> & Hb). destruct Hr as [[-> Hf]|(b & o & -> & Hbo)].
  - exists bs. split; [done|]. by apply boundaries_fits.
  - exists (b :: bs). rewrite <-app_assoc. split; [done|]. by eapply boundaries_binds.
Qed.

Definition fits_at (g : MakerGroup) (level : Ratio) : Prop :=
  Forall (λ i, frontier_venue (cs !!! i)) (indices g) → (0 <= level)%Q → group_fill cs g level ≤ group_wallet_cap g.

Lemma group_fill_mono g l1 l2 :
  Forall (λ i, frontier_venue (cs !!! i)) (indices g) → (0 <= l1)%Q → (l1 <= l2)%Q → group_fill cs g l2 ≤ group_fill cs g l1.
Proof.
  intros Hf H0 Hl. rewrite Forall_forall in Hf. apply zsum_le. intros i Hi. destruct (Hf i Hi). by apply venue_output_mono.
Qed.

(** What a group is given at a price: its own curves, or the allocation its boundary fixed. *)
Definition given (g : MakerGroup) (level : Ratio) (os res : list (option U256)) : Prop :=
  (∀ i, i ∈ indices g → res !!! i = os !!! i) ∧ fits_at g level
  ∨ ∃ o, within cs (indices g) (group_wallet_cap g) o ∧ ∀ i, i ∈ indices g → res !!! i = Some (o i).

Definition cap_at (level : Ratio) (os : list (option U256)) (b : WalletBoundary) : list (option U256) :=
  if ratio_le level (binding_level b)
  then foldl (λ os '(i, output), <[i := Some output]> os) os (capped_outputs b) else os.

Lemma cap_at_spec g b o level os :
  group_ok cs g → boundary_of cs g b o → length os = length cs →
  length (cap_at level os b) = length cs
  ∧ (∀ i, i ∉ indices g → cap_at level os b !!! i = os !!! i)
  ∧ given g level os (cap_at level os b).
Proof.
  intros (_ & Hlt & _) [Ho Hw Hb] Hl. rewrite Forall_forall in Hlt. unfold cap_at. destruct (ratio_le level (binding_level b)) eqn:Hle.
  - assert (Hset : foldl (λ os '(i, output), <[i := Some output]> os) os (capped_outputs b)
                   = foldl (λ os i, <[i := Some (o i)]> os) os (indices g)).
    { rewrite Ho. clear. revert os. induction (indices g); intros os; [done|]. cbn. apply IHl. }
    rewrite Hset, (length_set_fold (λ i, Some (o i))). split; [done|]. split.
    + intros i Hi. rewrite (set_fold (λ i, Some (o i))), decide_False by (by intros []). done.
    + right. exists o. split; [done|]. intros i Hi. rewrite (set_fold (λ i, Some (o i))), decide_True; [done|].
      rewrite Hl. split; [done|by apply Hlt].
  - apply ratio_le_false in Hle. split; [done|]. split; [done|]. left. split; [done|]. intros Hf H0.
    destruct (Hb Hf) as [Hb0 Hb1]. etrans; [|exact Hb1]. apply group_fill_mono; [done..|by apply Qlt_le_weak].
Qed.

Lemma at_price_given gs bs level os :
  boundaries cs gs bs → Forall (group_ok cs) gs → NoDup (mjoin (indices <$> gs)) → length os = length cs →
  let res := foldl (cap_at level) os bs in
  length res = length cs ∧ (∀ i, i ∉ mjoin (indices <$> gs) → res !!! i = os !!! i)
  ∧ Forall (λ g, given g level os res) gs.
Proof.
  intros Hb. revert os. induction Hb as [|g gs bs Hfit Hb IH|g gs b bs o Hbo Hb IH]; intros os Hok Hnd Hl res; [done|..];
    apply Forall_cons in Hok as [Hg Hok]; cbn in Hnd; apply NoDup_app in Hnd as (_ & Hdis & Hnd).
  - destruct (IH os Hok Hnd Hl) as (Hl' & Hsame & Hgs). split; [done|]. cbn. split; [set_solver|]. constructor; [|done].
    left. split; [intros i Hi; by apply Hsame, Hdis|]. intros Hf H0. etrans; [|exact Hfit]. by apply group_fill_mono.
  - destruct (cap_at_spec g b o level os Hg Hbo Hl) as (Hl1 & Hs1 & Hg1). unfold res. cbn [foldl].
    set (os1 := cap_at level os b) in *. clearbody os1.
    destruct (IH os1 Hok Hnd Hl1) as (Hl' & Hsame & Hgs). cbv zeta in Hl', Hsame, Hgs. clear res. set (res := foldl _ os1 bs) in *. clearbody res.
    split; [done|]. cbn. split; [intros i Hi; rewrite Hsame, Hs1 by set_solver; done|]. constructor.
    + destruct Hg1 as [[H1 H2]|(o' & H1 & H2)]; [left|right].
      * split; [|done]. intros i Hi. rewrite Hsame by (by apply Hdis). by apply H1.
      * exists o'. split; [done|]. intros i Hi. rewrite Hsame by (by apply Hdis). by apply H2.
    + rewrite Forall_forall in Hgs. apply Forall_forall. intros g' Hg'. destruct (Hgs g' Hg') as [[H1 H2]|H1]; [left|by right].
      split; [|done]. intros i Hi. rewrite H1, Hs1; [done| |done]. intros Hin. apply (Hdis i Hin).
      apply list_elem_of_join. exists (indices g'). split; [done|]. by apply list_elem_of_fmap_2.
Qed.

Lemma groups_ok : Forall (λ c, is_u256 (wallet_cap c)) cs → Forall (group_ok cs) (groups (MakerGroups_new cs)).
Proof.
  intros Hw. apply Forall_forall. intros g (m & Hm)%elem_of_values. pose proof (by_maker_spec cs m) as H. rewrite Hm in H.
  destruct H as [Hi _ (i & Hii & Hs)]. unfold group_ok. rewrite Hs, Hi in *. split_and!.
  - apply NoDup_filter, NoDup_seq.
  - apply Forall_forall. by intros j [? _]%owned_lt.
  - apply owned_lt in Hii as [Hlt _]. destruct (lookup_lt_is_Some_2 _ _ Hlt) as [c Hc].
    rewrite (list_lookup_total_correct _ _ _ Hc). exact (Forall_lookup_1 _ _ _ _ Hw Hc).
Qed.

(** The outputs that the frontier asks of the venues at a price, before they are made representable. *)
Definition frontier_outputs (level : Ratio) : list U256 :=
  imap (λ i o, match o with Some output => output | None => capped_output cs bounds i level end)
    (foldl (cap_at level) (replicate (length cs) None) (wallet_boundaries (Liquidity_new cs))).

Record outputs_ok (level : Ratio) (os : list U256) : Prop := {
  outputs_length : length os = length cs;
  outputs_cap : ∀ i, (i < length cs)%nat → 0 ≤ os !!! i ≤ cap_out (cs !!! i);
  outputs_wallet : Forall frontier_venue cs → (0 <= level)%Q →
    ∀ m, Forall (λ i, zsum (λ j, os !!! j) (owned cs m) ≤ wallet_cap (cs !!! i)) (owned cs m)
}.

(** Every venue sits in the group of its maker, and is given its curve's output or the group's allocation. *)
Definition allotted (level : Ratio) (os : list U256) (i : nat) (g : MakerGroup) : Prop :=
  group_of cs (owner cs i) g
  ∧ ((∀ j, j ∈ indices g → os !!! j = venue_output (cs !!! j) level) ∧ fits_at g level
     ∨ ∃ o, within cs (indices g) (group_wallet_cap g) o ∧ ∀ j, j ∈ indices g → os !!! j = o j).

Lemma frontier_allotted level :
  Forall (λ c, is_u256 (wallet_cap c)) cs →
  length (frontier_outputs level) = length cs
  ∧ ∀ i, (i < length cs)%nat → ∃ g, allotted level (frontier_outputs level) i g.
Proof.
  intros Hw. pose proof (groups_ok Hw) as Hg. pose proof (groups_disjoint cs) as Hnd.
  destruct (boundaries_fold (groups (MakerGroups_new cs)) (replicate (length cs) 0) [] Hg) as (bs & Hbs & Hb).
  { apply length_replicate. } { by apply Forall_replicate. }
  assert (Hwb : wallet_boundaries (Liquidity_new cs) = bs) by (unfold Liquidity_new; by destruct (foldl _ _ _)).
  unfold frontier_outputs. rewrite Hwb.
  destruct (at_price_given _ _ level (replicate (length cs) None) Hb Hg Hnd) as (Hl & _ & Hgs); [apply length_replicate|].
  cbv zeta in Hl, Hgs. set (res := foldl _ _ bs) in *. clearbody res. rewrite length_imap. split; [done|].
  assert (Hos : ∀ i, (i < length cs)%nat → imap (λ i o, match o with Some output => output | None => capped_output cs bounds i level end) res !!! i
      = match res !!! i with Some o => o | None => venue_output (cs !!! i) level end).
  { intros i Hi. destruct (lookup_lt_is_Some_2 res i) as [o Ho]; [lia|].
    rewrite (list_lookup_total_correct _ _ _ Ho). apply list_lookup_total_correct. rewrite list_lookup_imap, Ho. cbn.
    destruct o; [done|]. by rewrite capped_output_venue. }
  set (os := imap _ res) in *. clearbody os. intros i Hi. pose proof (by_maker_spec cs (owner cs i)) as H.
  destruct (by_maker cs !! owner cs i) as [g|] eqn:Hm.
  2:{ assert (Hin : i ∈ owned cs (owner cs i)) by (by apply owned_lt). rewrite H in Hin. by apply not_elem_of_nil in Hin. }
  exists g. split; [done|]. rewrite Forall_forall in Hgs. destruct (Hgs g) as [[H1 H2]|(o & H1 & H2)].
  - apply elem_of_values. by exists (owner cs i).
  - left. split; [|done]. intros j Hj. pose proof Hj as Hj'. rewrite (group_indices _ _ _ H) in Hj'. apply owned_lt in Hj' as [Hj' _].
    rewrite Hos, H1 by done. by rewrite lookup_total_replicate_2.
  - right. exists o. split; [done|]. intros j Hj. pose proof Hj as Hj'. rewrite (group_indices _ _ _ H) in Hj'. apply owned_lt in Hj' as [Hj' _].
    rewrite Hos by done. by rewrite H2.
Qed.

Lemma frontier_outputs_ok level : Forall (λ c, is_u256 (wallet_cap c)) cs → outputs_ok level (frontier_outputs level).
Proof.
  intros Hw. destruct (frontier_allotted level Hw) as [Hl Hall]. set (os := frontier_outputs level) in *. clearbody os.
  constructor; [done| |].
  - intros i Hi. destruct (Hall i Hi) as (g & Hgo & Hcase).
    assert (Hin : i ∈ indices g) by (rewrite (group_indices _ _ _ Hgo); by apply owned_lt).
    destruct Hcase as [[H1 _]|(o & [Hc _] & H1)]; rewrite H1 by done.
    + by apply venue_output_range, cs_ok.
    + rewrite Forall_forall in Hc. by apply Hc.
  - intros Hf H0 m. apply Forall_forall. intros i Hi. pose proof Hi as [Hlt Hm]%owned_lt.
    destruct (Hall i Hlt) as (g & [Hidx Hwal _] & Hcase). rewrite Hm in Hidx. rewrite Forall_forall in Hwal.
    etrans; [|apply Hwal; by rewrite Hidx]. rewrite <-Hidx.
    destruct Hcase as [[H1 Hfit]|(o & [_ Hsum] & H1)]; [|by rewrite (zsum_ext _ o)].
    rewrite (zsum_ext _ (λ j, venue_output (cs !!! j) level)) by done. apply Hfit; [|done].
    apply Forall_forall. intros j. rewrite Hidx. intros [Hj _]%owned_lt. destruct (lookup_lt_is_Some_2 _ _ Hj) as [c Hc].
    rewrite (list_lookup_total_correct _ _ _ Hc). exact (Forall_lookup_1 _ _ _ _ Hf Hc).
Qed.

End frontier.

(** ** Making the split representable *)

(** The outputs shrink, never grow. *)
Definition shrinks (os os' : list U256) : Prop :=
  length os' = length os ∧ ∀ i, (i < length os)%nat → 0 ≤ os' !!! i ≤ os !!! i.

Lemma shrinks_trans a b c : shrinks a b → shrinks b c → shrinks a c.
Proof.
  intros [Hl1 H1] [Hl2 H2]. split; [congruence|]. intros i Hi. specialize (H1 i Hi). specialize (H2 i ltac:(lia)). lia.
Qed.

Lemma nonneg_lookup (os : list Z) : (∀ i, (i < length os)%nat → 0 ≤ os !!! i) → Forall (λ x, 0 ≤ x) os.
Proof. intros H. apply Forall_lookup. intros i x Hi. rewrite <-(list_lookup_total_correct _ _ _ Hi). by eapply H, lookup_lt_Some. Qed.

Lemma trim_shrinks cs os target :
  length os = length cs → Forall (λ x, 0 ≤ x) os → 0 ≤ target →
  shrinks os (trim_to_total cs os target (seq 0 (length cs))).
Proof.
  intros Hl Hn Ht. destruct (trim_to_total_spec cs os target Hl Hn Ht) as (Hl' & Hn' & Hle & _). split; [done|].
  intros i Hi. pose proof (Forall_lookup_total _ _ i Hn' ltac:(lia)) as H0. cbn in H0. specialize (Hle i). lia.
Qed.

(** Re-quoting the outputs from the trimmed inputs. *)
Lemma requoted_shrinks cs inputs os os' :
  length inputs = length cs → length os = length cs → Forall cand_ok cs → Forall is_u256 inputs → Forall (λ x, 0 ≤ x) os →
  mapM (λ '(c, inp, output), if (inp =? 0) || (output =? 0) then Some 0
                             else out ← ok (net_quote_exact_in c inp); Some (Z.min output out))
    (zip (zip cs inputs) os) = Some os' → shrinks os os'.
Proof.
  intros Hli Hlo Hcs Hin Hos Hm. apply mapM_Some in Hm.
  assert (Hl : length os' = length os) by (apply Forall2_length in Hm; rewrite !length_zip_with in Hm; lia).
  split; [done|]. intros i Hi. destruct (lookup_lt_is_Some_2 os' i) as [y Hy]; [lia|].
  destruct (lookup_lt_is_Some_2 os i Hi) as [o Ho]. destruct (lookup_lt_is_Some_2 inputs i) as [x Hx]; [lia|].
  destruct (lookup_lt_is_Some_2 cs i) as [c Hc]; [lia|].
  rewrite (list_lookup_total_correct _ _ _ Ho), (list_lookup_total_correct _ _ _ Hy).
  eapply (Forall2_lookup_lr _ _ _ i (c, x, o)) in Hm; [|by rewrite !lookup_zip_with, Hc, Hx, Ho|exact Hy].
  pose proof (Forall_lookup_1 _ _ _ _ Hos Ho) as Ho0. cbn in Ho0. cbn in Hm.
  destruct (_ || _); [simplify_eq; lia|]. destruct (net_quote_exact_in c x) as [out|] eqn:Hq; cbn in Hm; [|done]. simplify_eq.
  apply net_exact_in_range in Hq as [? _]; [lia|exact (Forall_lookup_1 _ _ _ _ Hcs Hc)|exact (Forall_lookup_1 _ _ _ _ Hin Hx)].
Qed.

Lemma quoted_inputs cs os inputs :
  length os = length cs → Forall cand_ok cs → Forall is_u256 os →
  mapM (λ '(c, output), if output =? 0 then Some 0 else ok (net_quote_exact_out c output)) (zip cs os) = Some inputs →
  length inputs = length cs ∧ Forall is_u256 inputs.
Proof.
  intros Hl Hcs Hos Hm. apply mapM_Some in Hm. split; [apply Forall2_length in Hm; rewrite length_zip_with in Hm; lia|].
  apply Forall_lookup. intros i x Hx. destruct (Forall2_lookup_r _ _ _ i x Hm Hx) as ([c o] & Hz & Hq).
  apply lookup_zip_with_Some in Hz as (? & ? & [= <- <-] & Hc & Ho). destruct (o =? 0); [simplify_eq; u256|].
  apply ok_Some in Hq. exact (net_exact_out_range _ _ _ (Forall_lookup_1 _ _ _ _ Hcs Hc) (Forall_lookup_1 _ _ _ _ Hos Ho) Hq).
Qed.

Lemma build_representable_spec cs os level s :
  Forall cand_ok cs → length os = length cs → Forall is_u256 os → build_representable cs os level = Some s →
  ∃ os', shrinks os os' ∧ build cs os' ExactOut level = Some s.
Proof.
  intros Hcs Hl Hos. unfold build_representable.
  assert (Hnn : ∀ os, Forall is_u256 os → Forall (λ x, 0 ≤ x) os) by (intros ? H; eapply Forall_impl; [exact H|]; by intros ? []).
  assert (Hsame : shrinks os os).
  { split; [done|]. intros i Hi. pose proof (Forall_lookup_total _ _ i (Hnn _ Hos) Hi). cbn in *. lia. }
  set (os1 := if exceeds_budget os U256_MAX then _ else _).
  assert (H1 : shrinks os os1) by (unfold os1; destruct (exceeds_budget _ _); [apply trim_shrinks; [done|by apply Hnn|u256]|done]).
  clearbody os1. assert (Hos1 : Forall is_u256 os1).
  { apply Forall_lookup. intros i x Hx. rewrite <-(list_lookup_total_correct _ _ _ Hx). apply lookup_lt_Some in Hx.
    destruct H1 as [Hl1 H1]. specialize (H1 i ltac:(lia)). pose proof (Forall_lookup_total is_u256 _ i Hos ltac:(lia)) as [_ ?]. split; lia. }
  destruct (build cs os1 ExactOut level) as [s'|] eqn:Hb; [intros [= <-]; by exists os1|].
  intros (inputs & Hin & (os2 & Hm & Hb2)%bind_Some)%bind_Some. exists os2. split; [|done].
  destruct H1 as [Hl1 H1]. apply quoted_inputs in Hin as [Hli Hiu]; [|lia|done|done].
  destruct (trim_shrinks cs inputs U256_MAX) as [Hlt Ht]; [done|by apply Hnn|u256|].
  eapply shrinks_trans; [split; [exact Hl1|exact H1]|]. eapply requoted_shrinks; [| |done| | |exact Hm]; [lia|lia| |by apply Hnn].
  apply Forall_lookup. intros i x Hx. rewrite <-(list_lookup_total_correct _ _ _ Hx). apply lookup_lt_Some in Hx.
  specialize (Ht i ltac:(lia)). pose proof (Forall_lookup_total is_u256 _ i Hiu ltac:(lia)) as [_ ?]. split; lia.
Qed.

(** ** The legs of a maker *)

(** What a split takes from a maker. *)
Definition maker_out (m : MakerId) (ls : list RouteLeg) : Z :=
  zsum (λ l, if decide (leg_maker l = m) then leg_out l else 0) ls.

Definition maker_ask (m : MakerId) (ca : Candidate * U256) : Z :=
  if decide (key_maker (cand_key ca.1) = m) then ca.2 else 0.

Lemma build_fold_maker m cas ls ti to ls' ti' to' :
  Forall (λ ca : Candidate * U256, 0 ≤ ca.2) cas →
  try_fold_opt (build_step ExactOut) (ls, ti, to) cas = Some (ls', ti', to') →
  maker_out m ls' ≤ maker_out m ls + zsum (maker_ask m) cas.
Proof.
  intros Hnn. revert ls ti to. induction Hnn as [|[c a] cas Ha _ IH]; intros ls ti to; cbn [try_fold_opt].
  { intros [= <- _ _]. cbn. lia. }
  intros ([[ls1 ti1] to1] & Hst & H)%bind_Some. apply IH in H. rewrite zsum_cons. cbn [snd] in Ha.
  apply build_step_spec in Hst as [(-> & _)|(l & -> & _ & _ & Hl & Hfix)].
  - unfold maker_ask at 1. cbn. case_decide; lia.
  - destruct Hl as (c' & a' & Hin & Hm & _). apply list_elem_of_singleton in Hin as [= -> ->].
    unfold maker_out in H at 2. rewrite zsum_app, zsum_cons in H. fold (maker_out m ls) in H. rewrite Hm in H. cbn in Hfix.
    unfold maker_ask at 1. cbn. cbn in H. rewrite <-Hfix. case_decide; cbn in H; lia.
Qed.

Lemma zip_seq (cs : list Candidate) (os : list U256) :
  length os = length cs → zip cs os = (λ i, (cs !!! i, os !!! i)) <$> seq 0 (length cs).
Proof.
  intros Hl. apply list_eq. intros i. rewrite list_lookup_fmap, lookup_zip_with.
  destruct (cs !! i) as [c|] eqn:Hc; cbn.
  - pose proof (lookup_lt_Some _ _ _ Hc) as Hi. rewrite lookup_seq_lt by done. destruct (lookup_lt_is_Some_2 os i) as [o Ho]; [lia|].
    rewrite Ho. cbn. by rewrite (list_lookup_total_correct _ _ _ Hc), (list_lookup_total_correct _ _ _ Ho).
  - apply lookup_ge_None in Hc. rewrite lookup_seq_ge by lia. done.
Qed.

Lemma zsum_owned cs os m : length os = length cs → zsum (maker_ask m) (zip cs os) = zsum (λ i, os !!! i) (owned cs m).
Proof.
  intros Hl. rewrite zip_seq, zsum_fmap by done. unfold owned, maker_ask. cbn.
  rewrite <-(zsum_filter (λ i, owner cs i = m)); [|intros i _ Hi; by rewrite decide_False].
  apply zsum_ext. intros i [Hi _]%list_elem_of_filter. by rewrite decide_True.
Qed.

Lemma build_maker cs os level s m :
  length os = length cs → Forall (λ x, 0 ≤ x) os → build cs os ExactOut level = Some s →
  maker_out m (legs s) ≤ zsum (λ i, os !!! i) (owned cs m).
Proof.
  intros Hl Hn. unfold build. intros ([[ls ti] to] & Hf & H)%bind_Some. apply (build_fold_maker m) in Hf.
  - rewrite zsum_owned in Hf by done. destruct ls; [done|]. injection H as <-. cbn [legs]. unfold maker_out in *. cbn in Hf |- *. lia.
  - apply Forall_forall. intros [c a] Hca. apply elem_of_zip_r in Hca. rewrite Forall_forall in Hn. by apply Hn.
Qed.

(** ** Executable splits *)

(** Every leg is priced by its own venue and within its ceiling; the totals are exact words. *)
Record executable (cs : list Candidate) (s : Split) : Prop := {
  exec_legs : Forall (λ l, ∃ c, c ∈ cs ∧ leg_of c l ∧ priced ExactOut c l ∧ leg_out l ≤ cap_out c) (legs s);
  exec_some : legs s ≠ [];
  exec_in : amount_in s = zsum leg_in (legs s);
  exec_out : amount_out s = zsum leg_out (legs s);
  exec_words : amount_in s ≤ U256_MAX ∧ amount_out s ≤ U256_MAX
}.

(** No maker is asked for more than its wallet. *)
Definition wallets_respected (cs : list Candidate) (s : Split) : Prop :=
  ∀ c, c ∈ cs → maker_out (key_maker (cand_key c)) (legs s) ≤ wallet_cap c.

Lemma built_executable cs os level s :
  Forall cand_ok cs → length os = length cs → (∀ i, (i < length cs)%nat → 0 ≤ os !!! i ≤ cap_out (cs !!! i)) →
  build cs os ExactOut level = Some s → executable cs s.
Proof.
  intros Hcs Hl Hcap Hb. apply build_spec in Hb as [Hlegs Hs Hi Ho Hw _ _]; [|done|apply nonneg_lookup; intros i ?; apply Hcap; lia].
  constructor; try done. eapply Forall_impl; [exact Hlegs|]. intros l (c & a & Hin & Hm & Hh & Hti & Hto & Hi0 & Ho0 & Ha & Hq).
  apply elem_of_zip_lookup in Hin as (i & Hc & <- & Hlt). pose proof (Forall_lookup_1 _ _ _ _ Hcs Hc) as Hok.
  specialize (Hcap i Hlt). rewrite (list_lookup_total_correct _ _ _ Hc) in Hcap. pose proof (cand_cap c Hok) as [_ ?].
  exists c. unfold leg_of, priced. rewrite Ha in *. apply net_exact_out_range in Hq as Hr; [|done|split; lia]. destruct Hr.
  split_and!; try done; try lia. by eapply list_elem_of_lookup_2.
Qed.

Lemma Liquidity_new_fields cs : liq_candidates (Liquidity_new cs) = cs ∧ liq_bounds (Liquidity_new cs) = full_input_bound <$> cs.
Proof. unfold Liquidity_new. by destruct (foldl _ _ _). Qed.

Lemma frontier_split cs level s :
  Forall cand_ok cs → Forall (λ c, is_u256 (wallet_cap c)) cs → at_price (Liquidity_new cs) level = Some s →
  executable cs s ∧ (Forall frontier_venue cs → (0 <= level)%Q → wallets_respected cs s).
Proof.
  intros Hcs Hw Hs. pose proof (frontier_outputs_ok cs Hcs level Hw) as [Hl Hcap Hwal].
  assert (Hrep : build_representable cs (frontier_outputs cs level) level = Some s).
  { destruct (Liquidity_new_fields cs) as [Hc Hb]. unfold at_price in Hs. rewrite Hc, Hb in Hs. exact Hs. }
  set (os := frontier_outputs cs level) in *. clearbody os.
  apply build_representable_spec in Hrep as (os' & [Hl' Hsh] & Hb); [|done|done|].
  2:{ apply Forall_lookup. intros i x Hx. rewrite <-(list_lookup_total_correct _ _ _ Hx). apply lookup_lt_Some in Hx.
      specialize (Hcap i ltac:(lia)). destruct (cand_cap _ (cs_ok cs Hcs i ltac:(lia))). split; lia. }
  assert (Hcap' : ∀ i, (i < length cs)%nat → 0 ≤ os' !!! i ≤ cap_out (cs !!! i)).
  { intros i Hi. specialize (Hcap i Hi). specialize (Hsh i ltac:(lia)). lia. }
  split; [by apply (built_executable cs os' level); [|lia| |]|].
  intros Hf H0 c Hc. apply list_elem_of_lookup in Hc as [i Hi]. specialize (Hwal Hf H0 (key_maker (cand_key c))).
  rewrite Forall_forall in Hwal. pose proof (lookup_lt_Some _ _ _ Hi) as Hlt. rewrite <-(list_lookup_total_correct _ _ _ Hi).
  etrans; [|apply Hwal, owned_lt; split; [done|]; unfold owner; by rewrite (list_lookup_total_correct _ _ _ Hi)].
  rewrite (list_lookup_total_correct _ _ _ Hi).
  etrans; [eapply build_maker; [| |exact Hb]; [lia|apply nonneg_lookup; intros; apply Hcap'; lia]|].
  apply zsum_le. intros j [Hj _]%owned_lt. apply Hsh. lia.
Qed.
