(* ===== verification/Assets.v ===== *)
(** * The asset catalog

    [crates/core/src/asset/service.rs] and [primitives/asset.rs]: the token list indexed by
    address, the orientation and the label of a pair, the listing of assets with their liquidity,
    and the pairs offered to a maker.  Numbers that are only shown (market prices and wallet
    balances as floating point) are values of an abstract type. *)

From Stdlib Require Import Ascii.
From stdpp Require Import strings.
From S2P Require Import Prelude U256 Ratio CurveDecode Registry.

#[local] Open Scope Z_scope.

(** ** The token list *)

Record TokenMeta := mk_meta {
  meta_chain_id : Z;
  meta_address : Address;
  meta_symbol : string;
  meta_name : string;
  meta_decimals : Z;
  meta_logo_uri : option string;
  meta_tags : list string
}.

Record TokenList := mk_token_list { list_name : string; tokens : list TokenMeta }.

Record Token := mk_token {
  token_address : Address;
  token_chain_id : Z;
  token_symbol : string;
  token_logo_uri : option string;
  token_decimals : Z
}.

#[global] Instance Token_eq_dec : EqDecision Token.
Proof. solve_decision. Defined.

Abbreviation Catalog := (gmap Address TokenMeta).

(** Collecting into a map keeps the last entry of an address. *)
Definition AssetManager_new (l : TokenList) : Catalog :=
  foldl (λ m t, <[meta_address t := t]> m) ∅ (tokens l).

Definition DEFAULT_DECIMALS : Z := 18.
Definition STABLE_TAG : string := "stables".

(** [eq_ignore_ascii_case] *)
Definition to_ascii_lowercase (a : ascii) : ascii :=
  let n := N_of_ascii a in
  if (65 <=? n)%N && (n <=? 90)%N then ascii_of_N (n + 32) else a.

Fixpoint eq_ignore_ascii_case (s t : string) : bool :=
  match s, t with
  | EmptyString, EmptyString => true
  | String a s, String b t =>
      bool_decide (to_ascii_lowercase a = to_ascii_lowercase b) && eq_ignore_ascii_case s t
  | _, _ => false
  end.

Section catalog.
Context (catalog : Catalog).

Definition is_stable (address : Address) : bool :=
  match catalog !! address with
  | Some meta => existsb (λ tag, eq_ignore_ascii_case tag STABLE_TAG) (meta_tags meta)
  | None => false
  end.

Definition base_quote (p : TokenPair) : Address * Address :=
  match is_stable (lo p), is_stable (hi p) with
  | true, false => (hi p, lo p)
  | _, _ => (lo p, hi p)
  end.

Definition token_of (meta : TokenMeta) : Token :=
  mk_token (meta_address meta) (meta_chain_id meta) (meta_symbol meta) (meta_logo_uri meta) (meta_decimals meta).

Definition token (address : Address) : option Token := token_of <$> catalog !! address.

Definition decimals (address : Address) : Z :=
  match catalog !! address with Some meta => meta_decimals meta | None => DEFAULT_DECIMALS end.

Definition token_or_default (address : Address) : Token :=
  default (mk_token address 0 EmptyString None DEFAULT_DECIMALS) (token address).

Definition catalog_tokens : list Token := token_of <$> values catalog.

(** The checksummed text of an address comes from the address library. *)
Context (address_text : Address → string).

Definition short (address : Address) : string :=
  let s := address_text address in
  String.substring 0 6 s +:+ "…" +:+ String.substring (String.length s - 4) 4 s.

Definition asset_symbol (address : Address) : string :=
  match catalog !! address with Some meta => meta_symbol meta | None => short address end.

Definition pair_label (p : TokenPair) : string :=
  let '(base, quote) := base_quote p in asset_symbol base +:+ "/" +:+ asset_symbol quote.

(** ** Listing assets *)

Context {F64 : Type}.

(** The market data of a token, as the valuation answers it. *)
Record Market := mk_market {
  market_price : Address → option F64;
  market_change : Address → option F64
}.

Record Asset := mk_asset {
  asset_address : Address;
  asset_chain_id : Z;
  asset_token_symbol : string;
  asset_name : string;
  asset_decimals : Z;
  asset_tags : list string;
  asset_logo_uri : option string;
  asset_price_usd : option F64;
  asset_change_24h : option F64;
  supported : bool;
  active_strategy_count : nat;
  asset_pair_labels : list string
}.

Definition assemble (market : Market) (meta : TokenMeta) (activity : option ActiveAsset) : Asset :=
  mk_asset (meta_address meta) (meta_chain_id meta) (meta_symbol meta) (meta_name meta) (meta_decimals meta)
    (meta_tags meta) (meta_logo_uri meta)
    (market_price market (meta_address meta)) (market_change market (meta_address meta))
    (bool_decide (is_Some activity))
    (match activity with Some a => strategy_count a | None => 0%nat end)
    (match activity with Some a => pair_label <$> set_iter (asset_pairs a) | None => [] end).

Definition list_assets (market : Market) (snapshot : Snapshot) (supported_only : bool) : list Asset :=
  let active := active_assets snapshot in
  filter (λ a, negb supported_only || supported a = true)
    ((λ meta, assemble market meta (active !! meta_address meta)) <$> values catalog).

(** ** The pairs offered *)

Inductive PairKind : Type := StablePair | VolatilePair.

Record Amount := mk_amount { amount_raw : string; amount_display : string; amount_usd : option F64 }.
Record TokenBalance := mk_token_balance { tb_token : Token; tb_balance : Amount; tb_pullable : Amount }.
Record PairWallet := mk_pair_wallet { pw_base : F64; pw_quote : F64; pw_base_raw : string; pw_quote_raw : string }.

Record PairInfo := mk_pair_info {
  pi_base : Token;
  pi_quote : Token;
  pi_kind : PairKind;
  pi_mid : option F64;
  pi_default_fee_bps : Z;
  pi_default_band_pct : F64;
  pi_wallet : option PairWallet
}.

(** Floating point and Unicode case folding belong to the language's library. *)
Context (f64_zero : F64) (f64_is_zero : F64 → bool) (f64_div : F64 → F64 → F64) (parse_f64 : string → option F64).
Context (to_lowercase : string → string) (contains : string → string → bool).

Definition mid_price (market : Market) (base quote : Address) : option F64 :=
  b ← market_price market base;
  q ← market_price market quote;
  if f64_is_zero q then None else Some (f64_div b q).

Definition wallet_balance (balances : list TokenBalance) (address : Address) : option Amount :=
  tb_balance <$> find (λ b, token_address (tb_token b) =? address) balances.

Definition display_balance (balance : option Amount) : F64 :=
  default f64_zero (a ← balance; parse_f64 (amount_display a)).

Definition raw_balance (balance : option Amount) : string :=
  match balance with Some a => amount_raw a | None => "0" end.

Definition matches_search (base quote : Token) (search : string) : bool :=
  let needle := to_lowercase search in
  let hit t := contains (to_lowercase (token_symbol t)) needle
               || contains (to_lowercase (address_text (token_address t))) needle in
  hit base || hit quote.

(** [tuple_combinations] *)
Fixpoint combinations {A} (l : list A) : list (A * A) :=
  match l with
  | [] => []
  | a :: l => ((λ b, (a, b)) <$> l) ++ combinations l
  end.

Definition pair_info (market : Market) (wallet : option (list TokenBalance)) (search : option string)
    (default_fee_bps : Z) (default_band_pct : F64) (ab : Token * Token) : option PairInfo :=
  let '(a, b) := ab in
  let a_stable := is_stable (token_address a) in
  let b_stable := is_stable (token_address b) in
  if negb a_stable && negb b_stable then None
  else
    let '(base_addr, quote_addr) := base_quote (TokenPair_new (token_address a) (token_address b)) in
    base ← token base_addr;
    quote ← token quote_addr;
    if (match search with Some q => negb (matches_search base quote q) | None => false end) then None
    else Some (mk_pair_info base quote (if a_stable && b_stable then StablePair else VolatilePair)
      (mid_price market (token_address base) (token_address quote)) default_fee_bps default_band_pct
      ((λ balances,
          let base_balance := wallet_balance balances (token_address base) in
          let quote_balance := wallet_balance balances (token_address quote) in
          mk_pair_wallet (display_balance base_balance) (display_balance quote_balance)
            (raw_balance base_balance) (raw_balance quote_balance)) <$> wallet)).

Definition pairs (market : Market) (wallet : option (list TokenBalance)) (search : option string)
    (default_fee_bps : Z) (default_band_pct : F64) : list PairInfo :=
  omap (pair_info market wallet search default_fee_bps default_band_pct) (combinations catalog_tokens).

End catalog.

Arguments Market : clear implicits.
Arguments Asset : clear implicits.
Arguments Amount : clear implicits.
Arguments TokenBalance : clear implicits.
Arguments PairInfo : clear implicits.

(** ** Lemmas *)

(** A catalog lists every token under its own address. *)
Definition keyed (catalog : Catalog) : Prop := ∀ a meta, catalog !! a = Some meta → meta_address meta = a.

Lemma AssetManager_new_keyed l : keyed (AssetManager_new l).
Proof.
  unfold AssetManager_new. assert (Hgen : ∀ m, keyed m → keyed (foldl (λ m t, <[meta_address t := t]> m) m (tokens l))).
  { induction (tokens l) as [|t ts IH]; intros m Hm; [done|]. apply IH.
    intros a meta [[<- <-]|[_ ?]]%lookup_insert_Some; [done|by apply Hm]. }
  by apply Hgen.
Qed.

Lemma TokenPair_new_eq a b c d :
  TokenPair_new a b = TokenPair_new c d ↔ (a = c ∧ b = d) ∨ (a = d ∧ b = c).
Proof. unfold TokenPair_new. split; [intros [= H1 H2]; lia|intros [[-> ->]|[-> ->]]; f_equal; lia]. Qed.

Lemma base_quote_spec catalog p :
  let '(b, q) := base_quote catalog p in
  TokenPair_new b q = TokenPair_new (lo p) (hi p)
  ∧ (is_stable catalog (lo p) || is_stable catalog (hi p) = true → is_stable catalog q = true).
Proof.
  unfold base_quote. destruct (is_stable catalog (lo p)) eqn:H1, (is_stable catalog (hi p)) eqn:H2;
    (split; [apply TokenPair_new_eq; auto|by intros]).
Qed.

Section combinations.
Context {A : Type} (addr : A → Address).

Definition pair_key (ab : A * A) : TokenPair := TokenPair_new (addr ab.1) (addr ab.2).

Lemma combinations_elem (l : list A) (a b : A) : (a, b) ∈ combinations l → a ∈ l ∧ b ∈ l.
Proof.
  induction l as [|x l IH]; cbn; [by intros ?%not_elem_of_nil|].
  intros [(y & [= -> ->] & Hy)%list_elem_of_fmap|H]%elem_of_app; [split; [left|by right]|]. destruct (IH H). split; by right.
Qed.

Lemma combinations_complete (l : list A) (a b : A) : a ∈ l → b ∈ l → a ≠ b → (a, b) ∈ combinations l ∨ (b, a) ∈ combinations l.
Proof.
  induction l as [|x l IH]; [by intros ?%not_elem_of_nil|]. cbn. rewrite !elem_of_app.
  intros [->|Ha]%elem_of_cons [->|Hb]%elem_of_cons Hne; [done|..].
  - left. left. by apply list_elem_of_fmap_2.
  - right. left. by apply list_elem_of_fmap_2.
  - destruct (IH Ha Hb Hne); auto.
Qed.

Lemma combinations_once (l : list A) : NoDup (addr <$> l) → NoDup (pair_key <$> combinations l).
Proof.
  induction l as [|x l IH]; cbn; [constructor|]. intros [Hx Hl]%NoDup_cons. rewrite fmap_app. apply NoDup_app. split_and!.
  - rewrite <-list_fmap_compose. clear IH Hx. induction l as [|y l IH]; cbn in *; [constructor|].
    apply NoDup_cons in Hl as [Hy Hl]. constructor; [|by apply IH].
    intros (z & Hk & Hz)%list_elem_of_fmap. apply TokenPair_new_eq in Hk as [[_ H2]|[H1 H2]]; cbn in *.
    + apply Hy. rewrite H2. by apply list_elem_of_fmap_2.
    + apply Hy. rewrite H2, H1. by apply list_elem_of_fmap_2.
  - intros k (ab & -> & (y & -> & Hy)%list_elem_of_fmap)%list_elem_of_fmap ([c d] & Hk & Hcd)%list_elem_of_fmap.
    apply combinations_elem in Hcd as [Hc Hd]. apply TokenPair_new_eq in Hk as [[Hk _]|[Hk _]]; cbn in Hk;
      apply Hx; rewrite Hk; by apply list_elem_of_fmap_2.
  - by apply IH.
Qed.
End combinations.

Lemma elem_of_catalog_tokens catalog a :
  keyed catalog → (∃ t, t ∈ catalog_tokens catalog ∧ token_address t = a) ↔ a ∈ dom catalog.
Proof.
  intros Hk. rewrite elem_of_dom. unfold catalog_tokens. split.
  - intros (t & (m & -> & (k & Hm)%elem_of_values)%list_elem_of_fmap & <-). cbn. rewrite (Hk _ _ Hm). by exists m.
  - intros [m Hm]. exists (token_of m). split; [|by apply Hk]. apply list_elem_of_fmap_2, elem_of_values. by exists a.
Qed.

Lemma catalog_tokens_once catalog : keyed catalog → NoDup (token_address <$> catalog_tokens catalog).
Proof.
  intros Hk. unfold catalog_tokens. rewrite <-list_fmap_compose. cbn.
  assert (He : meta_address <$> values catalog = keys catalog).
  { unfold values, keys. rewrite <-list_fmap_compose. apply list_fmap_ext. intros i [a m] H%list_elem_of_lookup_2%elem_of_entries.
    by apply Hk in H. }
  change (NoDup (meta_address <$> values catalog)). rewrite He. apply NoDup_keys.
Qed.

Lemma token_keyed catalog a t : keyed catalog → token catalog a = Some t → token_address t = a ∧ a ∈ dom catalog.
Proof.
  intros Hk. unfold token. intros (m & Hm & ->)%fmap_Some. split; [by apply Hk|]. apply elem_of_dom. by exists m.
Qed.

Lemma NoDup_omap_key {A B K} (f : A → option B) (ka : A → K) (kb : B → K) l :
  (∀ x y, f x = Some y → kb y = ka x) → NoDup (ka <$> l) → NoDup (kb <$> omap f l).
Proof.
  intros Hf. induction l as [|x l IH]; cbn; [constructor|]. intros [Hx Hl]%NoDup_cons.
  destruct (f x) as [y|] eqn:Hy; cbn; [|by apply IH]. constructor; [|by apply IH].
  rewrite (Hf x y Hy). intros (y' & He & (x' & Hx' & Hfx')%list_elem_of_omap)%list_elem_of_fmap.
  apply Hx. rewrite He, (Hf x' y' Hfx'). by apply list_elem_of_fmap_2.
Qed.

Section offers.
Context {F64 : Type} (address_text : Address → string).
Context (f64_zero : F64) (f64_is_zero : F64 → bool) (f64_div : F64 → F64 → F64) (parse_f64 : string → option F64).
Context (to_lowercase : string → string) (contains : string → string → bool).

#[local] Abbreviation pair_info catalog :=
  (pair_info catalog address_text f64_zero f64_is_zero f64_div parse_f64 to_lowercase contains).
#[local] Abbreviation pairs catalog :=
  (pairs catalog address_text f64_zero f64_is_zero f64_div parse_f64 to_lowercase contains).

Definition offer_key (p : PairInfo F64) : TokenPair :=
  TokenPair_new (token_address (pi_base p)) (token_address (pi_quote p)).

Lemma pair_info_key catalog market wallet search fee band a b p :
  keyed catalog → pair_info catalog market wallet search fee band (a, b) = Some p →
  offer_key p = pair_key token_address (a, b) ∧ is_stable catalog (token_address (pi_quote p)) = true
  ∧ is_stable catalog (token_address a) || is_stable catalog (token_address b) = true.
Proof.
  intros Hk. cbn. destruct (negb _ && negb _) eqn:Hst; [done|].
  assert (Hs : is_stable catalog (token_address a) || is_stable catalog (token_address b) = true).
  { by destruct (is_stable catalog (token_address a)), (is_stable catalog (token_address b)). }
  pose proof (base_quote_spec catalog (TokenPair_new (token_address a) (token_address b))) as Hbq.
  destruct (base_quote catalog _) as [ba qa]. destruct Hbq as [Hkey Hq].
  intros (base & [Hba _]%token_keyed & (quote & [Hqa _]%token_keyed & H)%bind_Some)%bind_Some; [|done..].
  assert (Hp : pi_base p = base ∧ pi_quote p = quote) by (repeat case_match; simplify_eq; done).
  destruct Hp as [Hpb Hpq]. unfold offer_key. rewrite Hpb, Hpq, Hba, Hqa. split_and!; [|apply Hq|done].
  - unfold pair_key. cbn. rewrite Hkey. cbn. apply TokenPair_new_eq. lia.
  - cbn. rewrite orb_true_iff in Hs |- *. destruct (Z.min_spec (token_address a) (token_address b)) as [[? ->]|[? ->]],
      (Z.max_spec (token_address a) (token_address b)) as [[? ->]|[? ->]]; try lia; tauto.
Qed.

Lemma pair_info_total catalog market wallet fee band a b :
  keyed catalog → a ∈ catalog_tokens catalog → b ∈ catalog_tokens catalog →
  is_stable catalog (token_address a) || is_stable catalog (token_address b) = true →
  ∃ p, pair_info catalog market wallet None fee band (a, b) = Some p.
Proof.
  intros Hk Ha Hb Hs. cbn.
  assert (Hn : negb (is_stable catalog (token_address a)) && negb (is_stable catalog (token_address b)) = false).
  { by destruct (is_stable catalog (token_address a)), (is_stable catalog (token_address b)). }
  rewrite Hn. set (p := TokenPair_new _ _).
  assert (Hdom : ∀ x, x = token_address a ∨ x = token_address b → is_Some (token catalog x)).
  { intros x Hx. assert (Hd : x ∈ dom catalog) by (apply elem_of_catalog_tokens; [done|]; destruct Hx as [->| ->]; eauto).
    apply elem_of_dom in Hd as [m Hm]. unfold token. rewrite Hm. by eexists. }
  assert (Hbq : is_Some (token catalog (base_quote catalog p).1) ∧ is_Some (token catalog (base_quote catalog p).2)).
  { unfold base_quote. split; apply Hdom; repeat case_match; cbn; lia. }
  destruct (base_quote catalog p) as [ba qa]. destruct Hbq as [[tb Htb] [tq Htq]]. cbn in Htb, Htq. rewrite Htb, Htq. by eexists.
Qed.

(** the pairs offered to a maker are exactly the pairs of listed tokens with a stablecoin on at least one
    side, each once whatever the order of the list, and always quoted in a stablecoin. *)
Theorem pairs_are_offered_once l market wallet fee band :
  let catalog := AssetManager_new l in
  let offers := pairs catalog market wallet None fee band in
  NoDup (offer_key <$> offers)
  ∧ Forall (λ p, is_stable catalog (token_address (pi_quote p)) = true) offers
  ∧ ∀ a b, a ≠ b →
      (∃ p, p ∈ offers ∧ offer_key p = TokenPair_new a b)
      ↔ a ∈ dom catalog ∧ b ∈ dom catalog ∧ (is_stable catalog a = true ∨ is_stable catalog b = true).
Proof.
  intros catalog offers. pose proof (AssetManager_new_keyed l : keyed catalog) as Hk. clearbody catalog. split_and!.
  - apply (NoDup_omap_key _ (pair_key token_address)); [|by apply combinations_once, catalog_tokens_once].
    intros [a b] p Hp. by apply pair_info_key in Hp as (-> & _).
  - apply Forall_forall. intros p ([a b] & _ & Hp)%list_elem_of_omap. by apply pair_info_key in Hp as (_ & ? & _).
  - intros a b Hab. rewrite <-!(elem_of_catalog_tokens catalog) by done. rewrite <-orb_true_iff. split.
    + intros (p & ([x y] & [Hx Hy]%combinations_elem & Hp)%list_elem_of_omap & Hkey).
      apply pair_info_key in Hp as (Hpk & _ & Hs); [|done]. rewrite Hpk in Hkey. unfold pair_key in Hkey. cbn in Hkey.
      apply TokenPair_new_eq in Hkey as [[<- <-]|[<- <-]]; split_and!; eauto. by rewrite orb_comm.
    + intros ((x & Hx & <-) & (y & Hy & <-) & Hs). assert (Hne : x ≠ y) by (by intros ->).
      destruct (combinations_complete _ x y Hx Hy Hne) as [Hc|Hc].
      * destruct (pair_info_total catalog market wallet fee band x y Hk Hx Hy Hs) as [p Hp]. exists p.
        split; [apply list_elem_of_omap; by exists (x, y)|]. apply pair_info_key in Hp as (-> & _); done.
      * rewrite orb_comm in Hs. destruct (pair_info_total catalog market wallet fee band y x Hk Hy Hx Hs) as [p Hp]. exists p.
        split; [apply list_elem_of_omap; by exists (y, x)|]. apply pair_info_key in Hp as (-> & _); [|done].
        apply TokenPair_new_eq. by right.
Qed.

End offers.

(** * What a token amount is worth

    [crates/core/src/valuation/service.rs], [primitives/amount.rs] and
    [primitives/shared/valuation.rs]: amounts in base units with their decimal text and their value
    in dollars, where a price is known.  Decimal arithmetic belongs to a library and is a class of
    operations; the price oracle is an argument. *)

(** The operations of the decimal library that the code uses, the parsing of a decimal text and its
    conversion to floating point. *)
Class DecimalOps (D F64 : Type) := {
  parse_decimal : string → option D;
  decimal_zero : D;
  decimal_is_positive : D → bool;
  decimal_add : D → D → D;
  decimal_mul : D → D → D;
  decimal_to_f64 : D → F64;
  alloy_format_units : U256 → Z → option string
}.

Section valuation.
Context {D F64 : Type} `{DecimalOps D F64}.

(** [s.trim_end_matches(c)] *)
Fixpoint trim_end_matches (c : ascii) (s : string) : string :=
  match s with
  | EmptyString => EmptyString
  | String a s' => match trim_end_matches c s' with
                   | EmptyString => if bool_decide (a = c) then EmptyString else String a EmptyString
                   | t => String a t
                   end
  end.

Fixpoint contains_char (c : ascii) (s : string) : bool :=
  match s with EmptyString => false | String a s' => bool_decide (a = c) || contains_char c s' end.

Definition format_units (raw : U256) (decimals : Z) : string :=
  match alloy_format_units raw decimals with
  | Some s => if contains_char "." s then trim_end_matches "." (trim_end_matches "0" s) else s
  | None => to_string raw
  end.

Definition from_base_units (raw : U256) (decimals : Z) : Amount F64 :=
  mk_amount (to_string raw) (format_units raw decimals) None.

(** [share_pct], in basis points (the source divides by 100 for a percentage). *)
Definition share_bps (part total : U256) : Z :=
  if total =? 0 then 0
  else let bps := saturating_mul part 10000 / total in if bps <=? U64_MAX then bps else 0.

(** [UsdPrice::value] *)
Definition price_value (price whole_tokens : D) : option D :=
  if decimal_is_positive price then Some (decimal_mul whole_tokens price) else None.

Context (oracle : Address → option D).

Definition valuation_amount (base_units : U256) (token : Address) (decimals : Z) : Amount F64 :=
  let a := from_base_units base_units decimals in
  mk_amount (amount_raw a) (amount_display a)
    (decimal_to_f64 <$> (p ← oracle token; w ← parse_decimal (amount_display a); price_value p w)).

Definition usd (base_units : U256) (t : Token) : option D :=
  whole ← parse_decimal (format_units base_units (token_decimals t));
  p ← oracle (token_address t);
  price_value p whole.

Definition tvl (holdings : list (Token * U256)) : option D :=
  try_fold_opt (λ total '(t, base_units), v ← usd base_units t; Some (decimal_add total v)) decimal_zero holdings.

Definition tvl_usd (holdings : list (Token * U256)) : option F64 := decimal_to_f64 <$> tvl holdings.

Record TokenAmount := mk_token_amount { ta_token : Token; ta_amount : Amount F64 }.
Record TokenAmounts := mk_token_amounts { ta_entries : list TokenAmount; total_usd : option F64 }.

Definition priced_amounts (holdings : list (Token * U256)) : TokenAmounts :=
  mk_token_amounts
    ((λ '(t, base_units), mk_token_amount t (valuation_amount base_units (token_address t) (token_decimals t))) <$> holdings)
    (tvl_usd holdings).

(** ** All or nothing *)

Lemma tvl_Some holdings : is_Some (tvl holdings) ↔ Forall (λ '(t, x), is_Some (usd x t)) holdings.
Proof.
  unfold tvl. generalize decimal_zero. induction holdings as [|[t x] hs IH]; intros total; cbn [try_fold_opt].
  { split; [constructor|by eexists]. }
  rewrite Forall_cons. destruct (usd x t) as [v|]; cbn [mbind option_bind].
  - rewrite IH. split; [intros ?; split; [by eexists|done]|by intros []].
  - split; [by intros [? ?]|by intros [[? ?] _]].
Qed.

Lemma usd_entry t base_units :
  is_Some (usd base_units t) ↔ is_Some (amount_usd (valuation_amount base_units (token_address t) (token_decimals t))).
Proof.
  unfold usd, valuation_amount. cbn. rewrite fmap_is_Some.
  destruct (parse_decimal _), (oracle _); cbn; rewrite ?is_Some_None; naive_solver.
Qed.

(** A breakdown lists every holding with its exact base units, and totals them exactly when every
    one of them is valued. *)
Lemma priced_amounts_all_or_nothing holdings :
  let r := priced_amounts holdings in
  (λ e, (ta_token e, amount_raw (ta_amount e))) <$> ta_entries r = (λ '(t, x), (t, to_string x)) <$> holdings
  ∧ (is_Some (total_usd r) ↔ Forall (λ e, is_Some (amount_usd (ta_amount e))) (ta_entries r)).
Proof.
  cbn. split.
  - rewrite <-list_fmap_compose. apply list_fmap_ext. by intros i [t x] _.
  - unfold tvl_usd. rewrite fmap_is_Some, tvl_Some, Forall_fmap. apply Forall_proper; [|done].
    intros [t x]. cbn. apply usd_entry.
Qed.

End valuation.
