(* ===== verification/Depth.v ===== *)
(** * Depth curves

    [crates/core/src/pool/depth.rs]: the executable liquidity of a pair or of one position, sampled
    from the price frontier at fixed impacts.  Numbers of a point are rendered as text, as the
    interface shows them; the impact is kept in basis points (the source divides it by 100 for a
    percentage). *)

From stdpp Require Import strings sorting.
From Stdlib Require Import Lqa.
From S2P Require Import Prelude U256 Reservation Ratio CurveDecode Curves CurveProperties Registry Candidates Waterfill WaterfillProperties Routing Frontier Assets.

#[local] Open Scope Z_scope.

Inductive Side : Type := Buy | Sell.

Record DepthPoint := mk_point {
  trade_size : string;
  point_output : string;
  effective_price : string;
  impact : Z;
  makers_used : nat
}.

Record PoolDepth := mk_depth { axis_title : string; depth_best_price : string; points : list DepthPoint }.

Definition IMPACT_LADDER_BPS : list Z := [10; 50; 100; 200; 500; 1000].
Definition BISECT_ITERS : nat := 48.
Definition TOLERANCE_DIVISOR : Z := 10000.

(** ** One direction of a pair *)

Record Direction := mk_direction { token_in : Address; token_out : Address; in_dec : Z; out_dec : Z }.

Definition direction (catalog : Catalog) (p : TokenPair) (side : Side) : Direction :=
  let '(base, quote) := base_quote catalog p in
  let '(i, o) := match side with Sell => (base, quote) | Buy => (quote, base) end in
  mk_direction i o (decimals catalog i) (decimals catalog o).

Definition depth_symbol (catalog : Catalog) (address : Address) : string :=
  match token catalog address with Some t => token_symbol t | None => "token" end.

Definition direction_price (d : Direction) (price : Ratio) : string := format_price price (in_dec d) (out_dec d).

(** A split that cannot price is at the tip: it moved nothing. *)
Definition impact_bps (s : Split) (best : Ratio) : Z :=
  match Ratio_new (amount_out s) (amount_in s) with
  | Some effective => if ratio_lt effective best then rel_diff_bps effective best else 0
  | None => 0
  end.

Definition depth_point (d : Direction) (best : Ratio) (s : Split) : DepthPoint :=
  mk_point (to_string (amount_in s)) (to_string (amount_out s))
    (match Ratio_new (amount_out s) (amount_in s) with Some price => direction_price d price | None => "0" end)
    (impact_bps s best) (length (remove_dups (leg_maker <$> legs s))).

(** ** Stable sorting, deduplication and [map_while] *)

Fixpoint insert_by {A} (le : A → A → bool) (x : A) (l : list A) : list A :=
  match l with
  | [] => [x]
  | y :: l' => if le x y then x :: l else y :: insert_by le x l'
  end.

Definition sort_stable {A} (le : A → A → bool) (l : list A) : list A := foldr (insert_by le) [] l.

(** [dedup_by_key]: of consecutive elements with one key, the first stays. *)
Fixpoint dedup_from {A} (key : A → Z) (x : A) (l : list A) : list A :=
  match l with
  | [] => []
  | y :: l' => if key x =? key y then dedup_from key x l' else y :: dedup_from key y l'
  end.
Definition dedup_by_key {A} (key : A → Z) (l : list A) : list A :=
  match l with [] => [] | x :: l' => x :: dedup_from key x l' end.

Fixpoint map_while {A B} (f : A → option B) (l : list A) : list B :=
  match l with
  | [] => []
  | x :: l' => match f x with Some y => y :: map_while f l' | None => [] end
  end.

(** ** The sweep *)

Record Probe := mk_probe { pr_lo : Ratio; pr_hi : Ratio; reached : Split; below : U256 }.

Fixpoint impact_loop (liquidity : Liquidity) (best : Ratio) (target_bps : Z) (iters : nat) (p : Probe) : Split :=
  match iters with
  | O => reached p
  | S iters' =>
      if saturating_sub (amount_in (reached p)) (below p)
         <=? Z.max (amount_in (reached p) / TOLERANCE_DIVISOR) 1
      then reached p
      else
        let level := midpoint (pr_lo p) (pr_hi p) in
        match at_price liquidity level with
        | Some split =>
            if target_bps <=? impact_bps split best
            then impact_loop liquidity best target_bps iters' (mk_probe level (pr_hi p) split (below p))
            else impact_loop liquidity best target_bps iters' (mk_probe (pr_lo p) level (reached p) (amount_in split))
        | None => impact_loop liquidity best target_bps iters' (mk_probe (pr_lo p) level (reached p) 0)
        end
  end.

Definition size_for_impact (liquidity : Liquidity) (best : Ratio) (ceiling : Split) (upper : Ratio) (target_bps : Z) :
    option Split :=
  if impact_bps ceiling best <? target_bps then None
  else Some (impact_loop liquidity best target_bps BISECT_ITERS (mk_probe ratio_zero upper ceiling 0)).

(** The frontier is a vector that grows and shrinks at its end: here its last element comes first. *)
Fixpoint pop_worse (best : Ratio) (split : Split) (frontier : list Split) : list Split :=
  match frontier with
  | [] => []
  | previous :: rest =>
      if (amount_out previous <=? amount_out split) && (impact_bps split best <? impact_bps previous best)
      then pop_worse best split rest else frontier
  end.

Definition push_rung (best : Ratio) (frontier : list Split) (split : Split) : list Split :=
  let frontier := pop_worse best split frontier in
  match frontier with
  | [] => [split]
  | previous :: _ => if amount_out previous <? amount_out split then split :: frontier else frontier
  end.

Definition ladder (liquidity : Liquidity) (best : Ratio) (ceiling : Split) : list Split :=
  let upper := doubled best in
  let rungs := map_while (size_for_impact liquidity best ceiling upper) IMPACT_LADDER_BPS in
  let rungs := sort_stable (λ a b, amount_in a <=? amount_in b) rungs in
  let rungs := dedup_by_key amount_in rungs in
  rev (foldl (push_rung best) [] rungs).

Definition curve_splits (liquidity : Liquidity) (best : Ratio) (include_capacity : bool) : list Split :=
  let ceiling := at_price liquidity ratio_zero in
  let rungs := match ceiling with Some ceiling => ladder liquidity best ceiling | None => [] end in
  match rungs with
  | [] => if include_capacity then match ceiling with Some split => [split] | None => [] end else []
  | _ => rungs
  end.

Definition depth_curve (d : Direction) (liquidity : Liquidity) (title : string) (include_capacity : bool) : PoolDepth :=
  match best_price liquidity with
  | None => mk_depth title "0" []
  | Some best =>
      mk_depth title (direction_price d best) (depth_point d best <$> curve_splits liquidity best include_capacity)
  end.

(** ** The service *)

Definition depth_candidates (snapshot : Snapshot) (caps : AvailableSnapshot) (guards : GuardSnapshot)
    (p : TokenPair) (d : Direction) (strategy : option MakerStrategy) : list Candidate :=
  match strategy with
  | Some m =>
      if is_guarded guards (strat_key m) then []
      else match build_candidate m caps (token_in d) (token_out d) with Some c => [c] | None => [] end
  | None =>
      sort_stable (λ a b, key_leb (cand_key a) (cand_key b))
        (omap (λ m, build_candidate m caps (token_in d) (token_out d))
           (filter (λ m, is_guarded guards (strat_key m) = false) (active_strategies_for_pair snapshot p)))
  end.

Definition depth_for (catalog : Catalog) (snapshot : Snapshot) (caps : AvailableSnapshot) (guards : GuardSnapshot)
    (p : TokenPair) (side : Side) (strategy : option MakerStrategy) : PoolDepth :=
  let d := direction catalog p side in
  let candidates := depth_candidates snapshot caps guards p d strategy in
  depth_curve d (Liquidity_new candidates)
    ("Cumulative " +:+ depth_symbol catalog (token_in d) +:+ " in vs price impact")
    (bool_decide (is_Some strategy)).

Definition depth (catalog : Catalog) (snapshot : Snapshot) (caps : AvailableSnapshot) (guards : GuardSnapshot)
    (p : TokenPair) (side : Side) : option PoolDepth :=
  match active_strategies_for_pair snapshot p with
  | [] => None
  | _ => Some (depth_for catalog snapshot caps guards p side None)
  end.

Definition position_depth (catalog : Catalog) (snapshot : Snapshot) (caps : AvailableSnapshot) (guards : GuardSnapshot)
    (hash : StrategyHash) (side : Side) : option PoolDepth :=
  strategy ← strategy_by_hash snapshot hash;
  p ← Registry.pair strategy;
  Some (depth_for catalog snapshot caps guards p side (Some strategy)).

(** ** The shape of the curve *)

(** A later point takes more input for more output at no less impact. *)
Definition further (best : Ratio) (a b : Split) : Prop :=
  amount_in a < amount_in b ∧ amount_out a < amount_out b ∧ impact_bps a best ≤ impact_bps b best.

Lemma further_trans best : Transitive (further best).
Proof. intros a b c (? & ? & ?) (? & ? & ?). unfold further. lia. Qed.

Lemma insert_by_elem {A} (le : A → A → bool) x l y : y ∈ insert_by le x l ↔ y = x ∨ y ∈ l.
Proof. induction l as [|z l IH]; cbn; [set_solver|]. destruct (le x z); set_solver. Qed.

Lemma sort_stable_elem {A} (le : A → A → bool) l y : y ∈ sort_stable le l ↔ y ∈ l.
Proof. unfold sort_stable. induction l as [|x l IH]; cbn; [done|]. rewrite insert_by_elem, IH. set_solver. Qed.

Section sorting.
Context {A : Type} (key : A → Z).
#[local] Abbreviation le := (λ a b, key a <=? key b).

Lemma insert_by_sorted x l :
  StronglySorted (λ a b, key a ≤ key b) l → StronglySorted (λ a b, key a ≤ key b) (insert_by le x l).
Proof.
  induction 1 as [|y l Hl IH Hy]; cbn; [repeat constructor|]. destruct (_ <=? _) eqn:E; zbool.
  - constructor; [by constructor|]. constructor; [done|]. eapply Forall_impl; [exact Hy|]. cbn. lia.
  - constructor; [done|]. apply Forall_forall. intros z [->|Hz]%insert_by_elem; [lia|].
    rewrite Forall_forall in Hy. by apply Hy.
Qed.

Lemma sort_stable_sorted l : StronglySorted (λ a b, key a ≤ key b) (sort_stable le l).
Proof. unfold sort_stable. induction l as [|x l IH]; cbn; [constructor|]. by apply insert_by_sorted. Qed.

Lemma length_sort_stable l : length (sort_stable le l) = length l.
Proof.
  unfold sort_stable. assert (Hi : ∀ x l, length (insert_by le x l) = S (length l)).
  { intros x k. induction k as [|y k IH]; cbn; [done|]. destruct (_ <=? _); cbn; [done|]. by rewrite IH. }
  induction l as [|x l IH]; cbn; [done|]. by rewrite Hi, IH.
Qed.

(** Deduplicating a sorted list leaves strictly increasing keys. *)
Lemma dedup_from_sorted x l :
  StronglySorted (λ a b, key a ≤ key b) (x :: l) →
  StronglySorted (λ a b, key a < key b) (x :: dedup_from key x l) ∧ dedup_from key x l ⊆ l.
Proof.
  revert x. induction l as [|y l IH]; intros x Hs; [split; [repeat constructor|done]|].
  apply StronglySorted_inv in Hs as [Hl Hx]. apply Forall_cons in Hx as [Hxy Hxl]. cbn in Hxy.
  cbn [dedup_from]. destruct (key x =? key y) eqn:E; zbool.
  - apply StronglySorted_inv in Hl as [Hl _]. destruct (IH x) as [Hd Hsub]; [by constructor|]. split; [done|set_solver].
  - destruct (IH y Hl) as [Hd Hsub]. split; [|set_solver]. constructor; [done|].
    apply StronglySorted_inv in Hd as [_ Hy]. constructor; [lia|]. eapply Forall_impl; [exact Hy|]. cbn. lia.
Qed.

Lemma dedup_sorted l :
  StronglySorted (λ a b, key a ≤ key b) l →
  StronglySorted (λ a b, key a < key b) (dedup_by_key key l) ∧ dedup_by_key key l ⊆ l.
Proof.
  destruct l as [|x l]; intros Hs; [split; [constructor|done]|]. cbn. destruct (dedup_from_sorted x l Hs). split; [done|set_solver].
Qed.

Lemma length_dedup_from x l : (length (dedup_from key x l) ≤ length l)%nat.
Proof. revert x. induction l as [|y l IH]; intros x; cbn; [lia|]. destruct (_ =? _); cbn; [specialize (IH x)|specialize (IH y)]; lia. Qed.
End sorting.

(** Popping keeps a suffix whose head is not dominated by the new rung. *)
Lemma pop_worse_spec best split fr :
  StronglySorted (flip (further best)) fr →
  StronglySorted (flip (further best)) (pop_worse best split fr) ∧ pop_worse best split fr ⊆ fr
  ∧ (length (pop_worse best split fr) ≤ length fr)%nat
  ∧ match pop_worse best split fr with
    | [] => True
    | p :: _ => amount_out p ≤ amount_out split → impact_bps p best ≤ impact_bps split best
    end.
Proof.
  induction 1 as [|p fr Hfr IH Hp]; cbn; [split_and!; [constructor|done|lia|done]|].
  destruct (_ && _) eqn:E; [destruct IH as (? & ? & ? & ?); split_and!; [done|set_solver|lia|done]|].
  split_and!; [by constructor|done|done|]. intros Hle. apply andb_false_iff in E as [E%Z.leb_gt|E%Z.ltb_ge]; [lia|done].
Qed.

Lemma push_rung_spec best fr split :
  StronglySorted (flip (further best)) fr → Forall (λ s, amount_in s < amount_in split) fr →
  StronglySorted (flip (further best)) (push_rung best fr split)
  ∧ (∀ s, s ∈ push_rung best fr split → s = split ∨ s ∈ fr) ∧ (length (push_rung best fr split) ≤ S (length fr))%nat.
Proof.
  intros Hs Hin. destruct (pop_worse_spec best split fr Hs) as (Hp & Hsub & Hlen & Hhd). unfold push_rung.
  destruct (pop_worse best split fr) as [|p rest]; [split_and!; [repeat constructor|set_solver|cbn; lia]|].
  destruct (amount_out p <? amount_out split) eqn:E; zbool; [|split_and!; [done|set_solver|lia]].
  split_and!; [|set_solver|cbn in *; lia]. constructor; [done|]. rewrite Forall_forall in Hin.
  assert (Hpf : further best p split) by (split; [apply Hin, Hsub; by left|split; [done|apply Hhd; lia]]).
  constructor; [done|]. apply StronglySorted_inv in Hp as [_ Hr]. eapply Forall_impl; [exact Hr|]. cbn.
  intros s Hs'. by eapply further_trans.
Qed.

Lemma ladder_fold best rungs fr :
  StronglySorted (λ a b, amount_in a < amount_in b) rungs → StronglySorted (flip (further best)) fr →
  Forall (λ s, Forall (λ r, amount_in s < amount_in r) rungs) fr →
  let out := foldl (push_rung best) fr rungs in
  StronglySorted (flip (further best)) out ∧ (∀ s, s ∈ out → s ∈ rungs ∨ s ∈ fr) ∧ (length out ≤ length rungs + length fr)%nat.
Proof.
  intros Hr. revert fr. induction Hr as [|r rungs Hr IH Hlt]; intros fr Hfr Hin; cbn; [split_and!; [done|auto|lia]|].
  assert (Hhd : Forall (λ s, amount_in s < amount_in r) fr) by (eapply Forall_impl; [exact Hin|]; by intros s [? _]%Forall_cons).
  destruct (push_rung_spec best fr r Hfr Hhd) as (Hs & Hel & Hlen).
  destruct (IH (push_rung best fr r) Hs) as (Ho & He & Hl).
  { apply Forall_forall. intros s [->|Hsf]%Hel; [done|]. rewrite Forall_forall in Hin. by apply Hin, Forall_cons in Hsf as [_ ?]. }
  split_and!; [done| |lia]. intros s [Hsr|[->|Hsf]%Hel]%He; [left; by right|left; by left|by right].
Qed.

Lemma StronglySorted_rev {A} (R : A → A → Prop) l : StronglySorted (flip R) l → StronglySorted R (rev l).
Proof.
  induction 1 as [|x l Hl IH Hx]; cbn; [constructor|]. apply StronglySorted_app_2; [|done|repeat constructor].
  intros y z Hy ->%list_elem_of_singleton. rewrite Forall_forall in Hx. apply Hx. by rewrite <-Permutation_rev in Hy.
Qed.

(** ** Where the points come from *)

(** A split of the frontier, at a price that is not negative when the tip is not. *)
Definition offered (liquidity : Liquidity) (best : Ratio) (s : Split) : Prop :=
  ∃ level, at_price liquidity level = Some s ∧ ((0 <= best)%Q → (0 <= level)%Q).

Lemma impact_loop_offered liquidity best target iters p :
  offered liquidity best (reached p) → target ≤ impact_bps (reached p) best →
  ((0 <= best)%Q → (0 <= pr_lo p)%Q ∧ (0 <= pr_hi p)%Q) →
  let s := impact_loop liquidity best target iters p in offered liquidity best s ∧ target ≤ impact_bps s best.
Proof.
  revert p. induction iters as [|n IH]; intros p Ho Hi Hb; [done|]. cbn [impact_loop].
  destruct (_ <=? _); [done|]. set (level := midpoint (pr_lo p) (pr_hi p)).
  assert (Hl : (0 <= best)%Q → (0 <= level)%Q).
  { intros H0. destruct (Hb H0). unfold level, midpoint. rewrite Qred_correct. apply Qle_shift_div_l; [done|]. lra. }
  assert (Hb' : (0 <= best)%Q → (0 <= pr_lo p)%Q ∧ (0 <= level)%Q) by (intros H0; destruct (Hb H0); auto).
  assert (Hb'' : (0 <= best)%Q → (0 <= level)%Q ∧ (0 <= pr_hi p)%Q) by (intros H0; destruct (Hb H0); auto).
  destruct (at_price liquidity level) as [s|] eqn:Hs; [|by apply IH].
  destruct (target <=? impact_bps s best) eqn:E; zbool; apply IH; try done. by exists level.
Qed.

Lemma size_for_impact_offered liquidity best ceiling target s :
  at_price liquidity ratio_zero = Some ceiling →
  size_for_impact liquidity best ceiling (doubled best) target = Some s →
  offered liquidity best s ∧ target ≤ impact_bps s best.
Proof.
  intros Hc. unfold size_for_impact. destruct (impact_bps ceiling best <? target) eqn:E; zbool; [done|]. intros Hs. apply (inj Some) in Hs. rewrite <-Hs. clear Hs.
  apply impact_loop_offered; [by exists ratio_zero|done|]. cbn. intros H0. split; [done|].
  unfold doubled. rewrite Qred_correct. lra.
Qed.

Lemma map_while_elem {A B} (f : A → option B) l y : y ∈ map_while f l → ∃ x, x ∈ l ∧ f x = Some y.
Proof.
  induction l as [|x l IH]; cbn; [by intros ?%not_elem_of_nil|]. destruct (f x) as [z|] eqn:Hf; [|by intros ?%not_elem_of_nil].
  intros [->|H]%elem_of_cons; [exists x; split; [left|done]|]. destruct (IH H) as (x' & ? & ?). exists x'. split; [by right|done].
Qed.

Lemma length_map_while {A B} (f : A → option B) l : (length (map_while f l) ≤ length l)%nat.
Proof. induction l as [|x l IH]; cbn; [lia|]. destruct (f x); cbn; lia. Qed.

Lemma ladder_spec liquidity best ceiling :
  at_price liquidity ratio_zero = Some ceiling →
  StronglySorted (further best) (ladder liquidity best ceiling)
  ∧ Forall (λ s, offered liquidity best s ∧ 10 ≤ impact_bps s best) (ladder liquidity best ceiling)
  ∧ (length (ladder liquidity best ceiling) ≤ 6)%nat.
Proof.
  intros Hc. unfold ladder. set (rungs := map_while _ _).
  destruct (dedup_sorted amount_in (sort_stable (λ a b, amount_in a <=? amount_in b) rungs)) as [Hs Hsub]; [apply sort_stable_sorted|].
  destruct (ladder_fold best _ [] Hs) as (Ho & He & Hl); [constructor|constructor|].
  split_and!; [by apply StronglySorted_rev| |].
  - apply Forall_forall. intros s Hs'. rewrite <-Permutation_rev in Hs'. apply He in Hs' as [Hs'|Hs']; [|by apply not_elem_of_nil in Hs'].
    apply Hsub, sort_stable_elem, map_while_elem in Hs' as (t & Ht & Hf). apply size_for_impact_offered in Hf as [? ?]; [|done].
    split; [done|]. etrans; [|done]. unfold IMPACT_LADDER_BPS in Ht. set_unfold. lia.
  - rewrite length_rev. etrans; [exact Hl|]. cbn [length]. rewrite Nat.add_0_r.
    assert (Hd : ∀ l : list Split, (length (dedup_by_key amount_in l) ≤ length l)%nat).
    { intros [|x l]; cbn; [lia|]. pose proof (length_dedup_from amount_in x l). lia. }
    etrans; [apply Hd|]. rewrite (length_sort_stable amount_in). unfold rungs. apply (length_map_while _ IMPACT_LADDER_BPS).
Qed.

Lemma curve_splits_spec liquidity best include :
  StronglySorted (further best) (curve_splits liquidity best include)
  ∧ Forall (offered liquidity best) (curve_splits liquidity best include)
  ∧ (length (curve_splits liquidity best include) ≤ 6)%nat.
Proof.
  unfold curve_splits. destruct (at_price liquidity ratio_zero) as [c|] eqn:Hc.
  - destruct (ladder_spec liquidity best c Hc) as (Hs & Ho & Hl). destruct (ladder liquidity best c) as [|s l].
    + destruct include; [|split_and!; [constructor|constructor|cbn; lia]].
      split_and!; [repeat constructor| |cbn; lia]. constructor; [by exists ratio_zero|done].
    + split_and!; [done| |done]. eapply Forall_impl; [exact Ho|]. by intros ? [].
  - destruct include; split_and!; try constructor; cbn; lia.
Qed.

(** ** The venues behind a curve *)

(** The strategies a curve is about: the position's own one, or those of the pair. *)
Definition in_scope (snapshot : Snapshot) (p : TokenPair) (strategy : option MakerStrategy) (m : MakerStrategy) : Prop :=
  match strategy with Some own => m = own | None => m ∈ active_strategies_for_pair snapshot p end.

(** A venue of a strategy in scope that is live and that no guard withholds, at the ceilings the ledger publishes. *)
Definition depth_venue (snapshot : Snapshot) (caps : AvailableSnapshot) (guards : GuardSnapshot) (p : TokenPair) (d : Direction)
    (strategy : option MakerStrategy) (c : Candidate) (m : MakerStrategy) : Prop :=
  in_scope snapshot p strategy m ∧ (∃ k, strategies snapshot !! k = Some m) ∧ active m = true ∧ strat_key m ∉ guards
  ∧ build_candidate m caps (token_in d) (token_out d) = Some c.

Lemma build_candidate_active m caps i o c : build_candidate m caps i o = Some c → active m = true.
Proof. unfold build_candidate, build_pricing_candidate. by destruct (active m). Qed.

Lemma depth_candidates_venues snapshot caps guards p d strategy c :
  (∀ m, strategy = Some m → ∃ k, strategies snapshot !! k = Some m) →
  c ∈ depth_candidates snapshot caps guards p d strategy → ∃ m, depth_venue snapshot caps guards p d strategy c m.
Proof.
  intros Hstr. unfold depth_candidates, depth_venue, in_scope. destruct strategy as [m|].
  - destruct (is_guarded guards (strat_key m)) eqn:Hg; [by intros ?%not_elem_of_nil|].
    destruct (build_candidate m caps _ _) as [c'|] eqn:Hb; [|by intros ?%not_elem_of_nil]. intros ->%list_elem_of_singleton.
    exists m. split_and!; [done|by apply Hstr|by eapply build_candidate_active|by apply bool_decide_eq_false in Hg|done].
  - rewrite sort_stable_elem. intros (m & [Hg Hm]%list_elem_of_filter & Hb)%list_elem_of_omap. exists m.
    pose proof (active_for_pair_Some _ _ _ Hm) as [Ha Hk]. split_and!; [done|done|done|by apply bool_decide_eq_false in Hg|done].
Qed.

Section venues.
Context (snapshot : Snapshot) (caps : AvailableSnapshot) (guards : GuardSnapshot) (p : TokenPair) (d : Direction)
  (strategy : option MakerStrategy).
Hypothesis Hok : snapshot_ok snapshot.
Hypothesis Hsp : specs_ok snapshot.
Hypothesis Hcaps : ∀ a, is_u256 (Candidates.available caps a).

Lemma depth_venue_ok c m :
  depth_venue snapshot caps guards p d strategy c m →
  cand_ok c ∧ is_u256 (wallet_cap c)
  ∧ cand_key c = strat_key m ∧ cand_token_in c = token_in d ∧ cand_token_out c = token_out d
  ∧ wallet_cap c = Candidates.available caps (WalletBudget (key_maker (strat_key m)) (token_out d))
  ∧ cap_out c ≤ Candidates.available caps (StrategyVirtual (key_maker (strat_key m)) (key_hash (strat_key m)) (token_out d)).
Proof.
  intros (_ & [k Hk] & _ & _ & Hb). apply build_candidate_Some in Hb as (curve & fees & Hc & _ & _ & ->).
  destruct (Hsp k m Hk curve fees Hc) as [Hd Hf]. cbn.
  pose proof (Hcaps (WalletBudget (key_maker (strat_key m)) (token_out d))) as [? ?].
  pose proof (Hcaps (StrategyVirtual (key_maker (strat_key m)) (key_hash (strat_key m)) (token_out d))) as [? ?].
  split_and!; try done; try lia. constructor; cbn; [|done|split; lia].
  apply pool_wf_laws, from_curve_wf; [done|by eapply balance_u256..].
Qed.

(** What an executable split draws from the ledger's availability. *)
Record drawn (s : Split) : Prop := {
  drawn_legs : Forall (λ l, ∃ m c, depth_venue snapshot caps guards p d strategy c m
    ∧ leg_maker l = key_maker (strat_key m) ∧ leg_hash l = key_hash (strat_key m)
    ∧ leg_token_in l = token_in d ∧ leg_token_out l = token_out d
    ∧ net_quote_exact_out c (leg_out l) = Ok (leg_in l)
    ∧ 0 < leg_out l ≤ Candidates.available caps (StrategyVirtual (leg_maker l) (leg_hash l) (token_out d))) (legs s);
  drawn_in : amount_in s = zsum leg_in (legs s);
  drawn_out : amount_out s = zsum leg_out (legs s)
}.

Lemma best_price_nonneg cs best : Forall product_cand cs → best_price (Liquidity_new cs) = Some best → (0 <= best)%Q.
Proof.
  intros Hc Hb. unfold Liquidity_new in Hb. destruct (foldl _ _ _) in Hb. cbn in Hb.
  apply ratio_max_elem, list_elem_of_filter in Hb as [_ ([c o] & Hin & Hp)%list_elem_of_omap].
  destruct (o =? 0); [done|]. apply ok_Some in Hp. rewrite Forall_forall in Hc. eapply marginal_nonneg; [|exact Hp].
  apply Hc. by eapply elem_of_zip_l.
Qed.

Lemma offered_drawn cs best s :
  (∀ c, c ∈ cs → ∃ m, depth_venue snapshot caps guards p d strategy c m) →
  best_price (Liquidity_new cs) = Some best → offered (Liquidity_new cs) best s →
  drawn s ∧ (Forall frontier_venue cs →
    ∀ maker, maker_out maker (legs s) ≤ Candidates.available caps (WalletBudget maker (token_out d))).
Proof.
  intros Hcs Hbest (level & Hs & H0).
  assert (Hc : Forall cand_ok cs) by (apply Forall_forall; intros c (m & Hm)%Hcs; by eapply depth_venue_ok).
  assert (Hw : Forall (λ c, is_u256 (wallet_cap c)) cs) by (apply Forall_forall; intros c (m & Hm)%Hcs; by eapply depth_venue_ok).
  apply frontier_split in Hs as [[Hl _ Hi Ho _] Hwal]; [|done|done]. split.
  - constructor; [|done|done]. eapply Forall_impl; [exact Hl|].
    intros l (c & Hin & (Hm & Hh & Hti & Hto & _ & Hpos) & Hp & Hcap). destruct (Hcs c Hin) as (m & Hv). exists m, c.
    destruct (depth_venue_ok c m Hv) as (_ & _ & Hk & Hci & Hco & _ & Hvirt). rewrite Hm, Hh, Hk, Hti, Hto.
    split_and!; try done; lia.
  - intros Hf maker. assert (Hn : 0 ≤ Candidates.available caps (WalletBudget maker (token_out d))) by apply Hcaps.
    assert (Hp : Forall product_cand cs) by (eapply Forall_impl; [exact Hf|]; by intros ? []).
    specialize (Hwal Hf (H0 (best_price_nonneg cs best Hp Hbest))). unfold maker_out.
    destruct (decide (Exists (λ l, leg_maker l = maker) (legs s))) as [(l & Hlin & Hlm)%Exists_exists|Hno].
    + rewrite Forall_forall in Hl. destruct (Hl l Hlin) as (c & Hin & (Hm & _) & _). destruct (Hcs c Hin) as (m & Hv).
      destruct (depth_venue_ok c m Hv) as (_ & _ & Hk & _ & _ & Hwc & _). specialize (Hwal c Hin). rewrite Hwc, Hk in Hwal.
      assert (key_maker (strat_key m) = maker) as <- by congruence. exact Hwal.
    + rewrite (zsum_ext _ (λ _, 0)); [clear -Hn; induction (legs s); [done|]; rewrite zsum_cons; cbn in *; lia|].
      intros l Hlin. rewrite decide_False; [done|]. intros Hlm. apply Hno, Exists_exists. by exists l.
Qed.

End venues.

(** ** Properties *)

(** C27: depth curves show only what can be executed.  For a snapshot folded from any chain events, any
    published availability and any guards, the points of a curve are splits over the strategies it is about, the position's own strategy when one is
    given and the strategies indexed under the pair otherwise, each of them live and unguarded: at most six points, each taking more input for more output at no less impact than the one before; every leg
    is priced by its own strategy and within the strategy's availability; and when the venues are constant-product ones whose
    full fill does not overflow, the legs of a maker together stay within what its wallet has available. *)
Theorem depth_shows_executable_liquidity abi_decode es catalog caps guards p side strategy :
  (∀ s order, abi_decode s = Some order → Forall is_byte (order_data order)) →
  Forall event_ok es → (∀ a, is_u256 (Candidates.available caps a)) →
  let snapshot := fold_events abi_decode snapshot_default es in
  (∀ m, strategy = Some m → ∃ k, strategies snapshot !! k = Some m) →
  let d := direction catalog p side in
  ∃ best splits,
    points (depth_for catalog snapshot caps guards p side strategy) = depth_point d best <$> splits
    ∧ (length splits ≤ 6)%nat
    ∧ StronglySorted (further best) splits
    ∧ Forall (λ s, drawn snapshot caps guards p d strategy s
        ∧ (Forall frontier_venue (depth_candidates snapshot caps guards p d strategy) →
           ∀ maker, maker_out maker (legs s) ≤ Candidates.available caps (WalletBudget maker (token_out d)))) splits.
Proof.
  intros Hd Hes Hcaps snapshot Hstr d. destruct (folded_ok abi_decode Hd es Hes) as [Hok Hsp]. fold snapshot in Hok, Hsp.
  unfold depth_for, depth_curve. fold d. set (cs := depth_candidates snapshot caps guards p d strategy).
  destruct (best_price (Liquidity_new cs)) as [best|] eqn:Hb.
  - exists best, (curve_splits (Liquidity_new cs) best (bool_decide (is_Some strategy))).
    destruct (curve_splits_spec (Liquidity_new cs) best (bool_decide (is_Some strategy))) as (Hs & Ho & Hl).
    split_and!; [done|done|done|]. eapply Forall_impl; [exact Ho|]. intros s. apply offered_drawn; [done..| |done].
    intros c. by apply depth_candidates_venues.
  - exists ratio_zero, []. split_and!; [done|cbn; lia|constructor|done].
Qed.

Lemma depth_shows_executable_liquidity_witness :
  let snapshot := fold_events demo_byte_decode snapshot_default demo_events in
  ∃ best splits,
    points (depth_for ∅ snapshot demo_caps ∅ (mk_pair 3 5) Sell None)
      = depth_point (direction ∅ (mk_pair 3 5) Sell) best <$> splits
    ∧ length splits = 5%nat ∧ Forall (λ s, maker_out 1 (legs s) ≤ 500000) splits.
Proof.
  intros snapshot.
  assert (Hsome : ∀ m, None = Some m → ∃ k, strategies snapshot !! k = Some m) by done.
  destruct (depth_shows_executable_liquidity demo_byte_decode demo_events ∅ demo_caps ∅ (mk_pair 3 5) Sell None
    demo_byte_decodes demo_events_ok demo_caps_words Hsome) as (best & splits & Hpts & _ & _ & Hs).
  fold snapshot in Hpts, Hs. exists best, splits. split; [exact Hpts|]. split.
  - rewrite <-(length_fmap (depth_point (direction ∅ (mk_pair 3 5) Sell) best)), <-Hpts. vm_compute. reflexivity.
  - assert (Hf : Forall frontier_venue (depth_candidates snapshot demo_caps ∅ (mk_pair 3 5) (direction ∅ (mk_pair 3 5) Sell) None)).
    { set (cs := depth_candidates _ _ _ _ _ _).
      assert (Hpool : Forall (λ c, quotable c ∧ ∃ v, product_pool (pool c) = Some v ∧ pool_ok v) cs).
      { assert (Hcs : cs = [default inhabitant (head cs)]) by (vm_compute; reflexivity). rewrite Hcs. constructor; [|done].
        split; [vm_compute; reflexivity|]. exists (mk_xyc 1001000 999100). split; [vm_compute; reflexivity|split; reflexivity]. }
      rewrite Forall_forall in Hpool. apply Forall_forall. intros c Hc. destruct (Hpool c Hc) as [Hq Hv]. split; [split; [|exact Hv]|exact Hq].
      destruct (depth_candidates_venues snapshot demo_caps ∅ (mk_pair 3 5) (direction ∅ (mk_pair 3 5) Sell) None c Hsome Hc) as (m & Hm).
      destruct (folded_ok demo_byte_decode demo_byte_decodes demo_events demo_events_ok) as [Hok Hsp].
      exact (proj1 (depth_venue_ok snapshot demo_caps ∅ _ _ _ Hok Hsp demo_caps_words c m Hm)). }
    eapply Forall_impl; [exact Hs|]. intros s [_ Hw]. specialize (Hw Hf 1). exact Hw.
Defined.
