(* ===== verification/Quote.v ===== *)
(** * Quotes

    [crates/core/src/quote/service.rs] and [primitives/quote.rs]: a read-only estimate over the live
    registry, the ledger's published availability and the guards, and the check that an order signed
    from it can be filled.  The hash, the text of a hash and of an instant, the gas cost of a leg and
    the price oracle are arguments.  Percentages are kept in basis points. *)

From stdpp Require Import strings.
From S2P Require Import Prelude U256 Ratio CurveDecode CurveProperties Registry Candidates Waterfill WaterfillProperties Routing Assets.

#[local] Open Scope Z_scope.

Definition QUOTE_TTL_SECS : Z := 30.
Definition QUOTE_BPS : Z := 10000.

(** [BPS.checked_sub(slippage_bps)] is on 16 bits; the product is checked on a word. *)
Definition min_amount_out (amount_out : U256) (slippage_bps : Z) : option U256 :=
  if QUOTE_BPS <? slippage_bps then None
  else product ← checked_mul amount_out (QUOTE_BPS - slippage_bps); Some (product / QUOTE_BPS).

(** The preimage of a quote's id: two addresses and the amount. *)
Definition quote_preimage (token_in token_out : Address) (amount_in : U256) : list Z :=
  be_bytes 20 token_in ++ be_bytes 20 token_out ++ be_bytes 32 amount_in.

(** Collecting into a map keeps the last label of a hash. *)
Definition curve_labels (snapshot : Snapshot) (token_in token_out : Address) : gmap StrategyHash string :=
  foldl (λ m '(h, label), <[h := label]> m) ∅
    (omap (λ s, match strat_curve s with
                | Priceable curve _ => Some (key_hash (strat_key s), curve_label curve)
                | Unsupported => None
                end) (active_strategies_for_pair snapshot (TokenPair_new token_in token_out))).

Section quote.
Context {D F64 : Type} `{DecimalOps D F64} (oracle : Address → option D).
Context (catalog : Catalog) (config : RoutingConfig).
Context (keccak256 : list Z → B256) (hex_text : B256 → string) (rfc3339 : Z → string).
Context (leg_cost : RouteRequest → U256).

Record QuoteLeg := mk_quote_leg {
  ql_maker : Address;
  ql_strategy_hash : string;
  ql_token_in : Token;
  ql_token_out : Token;
  ql_amount_in : Amount F64;
  ql_amount_out : Amount F64;
  ql_curve : string;
  ql_share_bps : Z
}.

Record QuoteResponse := mk_quote_response {
  quote_id : string;
  quote_amount_out : Amount F64;
  executor_fee : option (Amount F64);
  quote_impact_bps : Z;
  makers_sourced : Z;
  quote_legs : list QuoteLeg;
  expires_at : string
}.

Inductive QuoteOutcome : Type :=
| Quote (q : QuoteResponse)
| NoRoute
| SettlementCostExceedsLimit.

Definition quote_hash (token_in token_out : Address) (amount_in : U256) : B256 :=
  keccak256 (quote_preimage token_in token_out amount_in).

Definition quote_leg (labels : gmap StrategyHash string) (total_out : U256) (l : RouteLeg) : option QuoteLeg :=
  token_in ← token catalog (leg_token_in l);
  token_out ← token catalog (leg_token_out l);
  Some (mk_quote_leg (leg_maker l) (hex_text (leg_hash l)) token_in token_out
    (valuation_amount oracle (leg_in l) (token_address token_in) (token_decimals token_in))
    (valuation_amount oracle (leg_out l) (token_address token_out) (token_decimals token_out))
    (default EmptyString (labels !! leg_hash l)) (share_bps (leg_out l) total_out)).

Definition quote_expires_at (now : Z) : string := rfc3339 (u64_saturating_add now QUOTE_TTL_SECS).

(** The order that a quote would be signed into. *)
Definition order_request (id : B256) (token_in token_out : Address) (min_out : U256) : RouteRequest :=
  mk_request id token_in token_out min_out false.

(** What [quote_inner] decides before it renders an answer: the candidates, and the split or the refusal. *)
Definition quote_split (book : RoutingBook) (token_in token_out : Address) (amount_in : U256) (slippage_bps : option Z) :
    list Candidate * (Split + QuoteOutcome) :=
  let id := quote_hash token_in token_out amount_in in
  let request := mk_request id token_in token_out amount_in true in
  let selection := select (rb_snapshot book) (rb_caps book) (rb_guards book) request (max_candidates config) in
  (chosen selection,
   match solve_sparse (chosen selection) request (leg_cost request) (max_legs config) None with
   | None => inr NoRoute
   | Some split =>
       match slippage_bps with
       | None => inl split
       | Some slippage_bps =>
           match min_amount_out (amount_out split) slippage_bps with
           | None => inr NoRoute
           | Some min_out =>
               if min_out =? 0 then inr SettlementCostExceedsLimit
               else
                 let order := order_request id token_in token_out min_out in
                 match route book order amount_in config (leg_cost order) None with
                 | None => inr SettlementCostExceedsLimit
                 | Some _ => inl split
                 end
           end
       end
   end).

Definition quote_inner (book : RoutingBook) (now : Z) (token_in token_out : Address) (amount_in : U256)
    (slippage_bps : option Z) : QuoteOutcome :=
  match quote_split book token_in token_out amount_in slippage_bps with
  | (_, inr outcome) => outcome
  | (chosen, inl split) =>
      let labels := curve_labels (rb_snapshot book) token_in token_out in
      Quote (mk_quote_response (hex_text (quote_hash token_in token_out amount_in))
        (valuation_amount oracle (amount_out split) token_out (decimals catalog token_out)) None
        (price_impact_bps chosen amount_in (amount_out split))
        (Z.of_nat (length (legs split)))
        (omap (quote_leg labels (amount_out split)) (legs split)) (quote_expires_at now))
  end.

Definition quote (book : RoutingBook) (now : Z) (token_in token_out : Address) (amount_in : U256) : option QuoteResponse :=
  match quote_inner book now token_in token_out amount_in None with Quote q => Some q | _ => None end.

Definition quote_for_order (book : RoutingBook) (now : Z) (token_in token_out : Address) (amount_in : U256)
    (slippage_bps : Z) : QuoteOutcome :=
  quote_inner book now token_in token_out amount_in (Some slippage_bps).

(** ** Lemmas *)

Lemma min_amount_out_spec out slippage m :
  0 ≤ out → 0 ≤ slippage → min_amount_out out slippage = Some m →
  slippage ≤ 10000 ∧ m = out * (10000 - slippage) / 10000 ∧ 0 ≤ m ≤ out.
Proof.
  intros Ho Hs. unfold min_amount_out, QUOTE_BPS. destruct (10000 <? slippage) eqn:E; zbool; [done|].
  intros (p & [-> _]%checked_mul_Some & [= <-])%bind_Some. split; [done|]. split; [done|].
  split; [apply Z.div_pos; nia|]. apply Z.div_le_upper_bound; nia.
Qed.

Lemma quote_split_inl book token_in token_out amount_in slippage cs split :
  quote_split book token_in token_out amount_in slippage = (cs, inl split) →
  let id := quote_hash token_in token_out amount_in in
  let request := mk_request id token_in token_out amount_in true in
  cs = chosen (select (rb_snapshot book) (rb_caps book) (rb_guards book) request (max_candidates config))
  ∧ solve_sparse cs request (leg_cost request) (max_legs config) None = Some split
  ∧ ∀ bps, slippage = Some bps → ∃ min_out plan, min_amount_out (amount_out split) bps = Some min_out ∧ min_out ≠ 0
      ∧ route book (order_request id token_in token_out min_out) amount_in config
          (leg_cost (order_request id token_in token_out min_out)) None = Some plan.
Proof.
  intros Hq id request. unfold quote_split in Hq. fold id in Hq. fold request in Hq. injection Hq as <- Hq. split; [done|].
  destruct (solve_sparse _ _ _ _ _) as [s|]; [|done]. destruct slippage as [bps|].
  - destruct (min_amount_out _ _) as [m|] eqn:Hm; [|done]. destruct (m =? 0) eqn:Hz; [done|]. zbool.
    destruct (route _ _ _ _ _ _) as [plan|] eqn:Hr; [|done]. injection Hq as <-. split; [done|].
    intros ? [= <-]. exists m, plan. done.
  - injection Hq as <-. done.
Qed.

Lemma quote_split_inr book token_in token_out amount_in slippage cs o q :
  quote_split book token_in token_out amount_in slippage = (cs, inr o) → o ≠ Quote q.
Proof.
  unfold quote_split. intros [= _ Ho]. destruct (solve_sparse _ _ _ _ _); [|by simplify_eq]. destruct slippage; [|done].
  destruct (min_amount_out _ _) as [m|]; [|by simplify_eq]. destruct (m =? 0); [by simplify_eq|]. destruct (route _ _ _ _ _ _); by simplify_eq.
Qed.

(** The shares of a quote never add up to more than the whole. *)
Lemma share_bps_le part total : 0 ≤ part → 0 < total → 0 ≤ share_bps part total ∧ share_bps part total * total ≤ part * 10000.
Proof.
  intros Hp Ht. unfold share_bps. rewrite (proj2 (Z.eqb_neq total 0)) by lia. unfold saturating_mul.
  pose proof (Z.mul_div_le (Z.min (part * 10000) U256_MAX) total Ht). pose proof is_u256_MAX as [? ?].
  assert (0 ≤ Z.min (part * 10000) U256_MAX / total) by (apply Z.div_pos; lia).
  destruct (_ <=? U64_MAX); nia.
Qed.

Lemma shares_sum labels total ls :
  0 < total → Forall (λ l, 0 ≤ leg_out l) ls →
  zsum ql_share_bps (omap (quote_leg labels total) ls) * total ≤ zsum leg_out ls * 10000.
Proof.
  intros Ht. induction 1 as [|l ls Hl _ IH]; [done|]. cbn [omap list_omap]. rewrite (zsum_cons leg_out).
  destruct (quote_leg labels total l) as [q|] eqn:Hq; [|lia]. rewrite zsum_cons.
  assert (ql_share_bps q = share_bps (leg_out l) total) as ->.
  { apply bind_Some in Hq as (ti & _ & (to & _ & [= <-])%bind_Some). done. }
  destruct (share_bps_le (leg_out l) total Hl Ht). lia.
Qed.

Lemma quote_legs_listed labels total ls :
  Forall (λ l, is_Some (token catalog (leg_token_in l)) ∧ is_Some (token catalog (leg_token_out l))) ls →
  (λ q, (ql_maker q, ql_strategy_hash q, amount_raw (ql_amount_in q), amount_raw (ql_amount_out q)))
    <$> omap (quote_leg labels total) ls
  = (λ l, (leg_maker l, hex_text (leg_hash l), to_string (leg_in l), to_string (leg_out l))) <$> ls.
Proof.
  induction 1 as [|l ls [[ti Hi] [to Ho]] _ IH]; [done|]. cbn [omap list_omap]. unfold quote_leg at 1. rewrite Hi, Ho.
  cbn [mbind option_bind fmap list_fmap]. f_equal. exact IH.
Qed.

End quote.

(** ** Properties *)

Arguments mk_quote_response {F64}.

(** A leg through a venue chosen for the request, made from a live, unguarded strategy of the pair at the ceilings of
    the book, and priced by that venue. *)
Definition leg_chosen (book : RoutingBook) (request : RouteRequest) (k : nat) (l : RouteLeg) : Prop :=
  ∃ m c, m ∈ active_strategies_for_pair (rb_snapshot book) (TokenPair_new (req_token_in request) (req_token_out request))
    ∧ active m = true ∧ strat_key m ∉ rb_guards book
    ∧ build_candidate m (rb_caps book) (req_token_in request) (req_token_out request) = Some c
    ∧ c ∈ chosen (select (rb_snapshot book) (rb_caps book) (rb_guards book) request k)
    ∧ leg_maker l = key_maker (strat_key m) ∧ leg_hash l = key_hash (strat_key m)
    ∧ leg_token_in l = req_token_in request ∧ leg_token_out l = req_token_out request
    ∧ 0 < leg_in l ∧ 0 < leg_out l ∧ net_quote_exact_in c (leg_in l) = Ok (leg_out l).

Lemma split_chosen book request k cost max_legs split :
  let cs := chosen (select (rb_snapshot book) (rb_caps book) (rb_guards book) request k) in
  Forall cand_ok cs → is_u256 (req_amount request) → req_exact_in request = true →
  solve_sparse cs request cost max_legs None = Some split → Forall (leg_chosen book request k) (legs split).
Proof.
  intros cs Hc Ht Hin Hs. apply solve_sparse_fill_ok in Hs as [Hl _ _ _ _ _]; [|done..].
  eapply Forall_impl; [exact Hl|]. intros l (c & Hcs & (Hm & Hh & Hti & Hto & H1 & H2) & Hp).
  pose proof (elem_of_submseteq _ _ _ Hcs (chosen_eligible _ _ _ _ _)) as He.
  apply eligible_strategy in He as (m & (Hact & Ha & Hg & Hk & Hci & Hco) & Hb).
  unfold kind_of in Hp. rewrite Hin in Hp. exists m, c. rewrite Hm, Hh, Hti, Hto, Hk. split_and!; try done.
Qed.

(** C19: a quote for an order can be honoured.  When an order quote is answered with slippage [bps], what it shows
    is a split of the requested amount over the venues chosen for the request: each leg goes through a chosen venue, made
    from a live, unguarded strategy of the pair, and has exactly the output that venue prices its input at; the shown
    output and the shown legs are that split's, which spends at most the amount, and the shown shares add up to at most
    the whole; and the order signed from it, for the output less the slippage rounded
    down, has a route over the same book within the whole input, its gas included, with the rest as profit. *)
Theorem quoted_order_clears {D F64} `{DecimalOps D F64} (oracle : Address → option D) catalog config keccak256 hex_text rfc3339 leg_cost
    abi_decode es caps guards now token_in token_out amount_in bps q :
  (∀ s order, abi_decode s = Some order → Forall is_byte (order_data order)) →
  Forall event_ok es → (∀ a, is_u256 (Candidates.available caps a)) → 0 < amount_in < U256_MAX → 0 ≤ bps →
  let book := mk_routing_book (fold_events abi_decode snapshot_default es) caps guards in
  quote_for_order oracle catalog config keccak256 hex_text rfc3339 leg_cost book now token_in token_out amount_in bps = Quote q →
  let request := mk_request (quote_hash keccak256 token_in token_out amount_in) token_in token_out amount_in true in
  ∃ split min_out plan,
    Forall (leg_chosen book request (max_candidates config)) (legs split)
    ∧ quote_legs q = omap (quote_leg oracle catalog hex_text (curve_labels (rb_snapshot book) token_in token_out) (amount_out split)) (legs split)
    ∧ amount_raw (quote_amount_out q) = to_string (amount_out split) ∧ makers_sourced q = Z.of_nat (length (legs split))
    ∧ zsum leg_in (legs split) ≤ amount_in ∧ amount_out split = zsum leg_out (legs split)
    ∧ zsum ql_share_bps (quote_legs q) ≤ 10000
    ∧ min_out = amount_out split * (10000 - bps) / 10000 ∧ 0 < min_out
    ∧ let order := order_request (quote_hash keccak256 token_in token_out amount_in) token_in token_out min_out in
      route book order amount_in config (leg_cost order) None = Some plan
      ∧ plan_legs plan ≠ [] ∧ zsum leg_out (plan_legs plan) ≤ min_out ∧ 0 ≤ expected_profit plan
      ∧ zsum leg_in (plan_legs plan) + leg_cost order * Z.of_nat (length (plan_legs plan)) + expected_profit plan = amount_in.
Proof.
  intros Hd Hes Hcaps Ha Hb book Hq. destruct (folded_ok abi_decode Hd es Hes) as [Hok Hsp].
  unfold quote_for_order, quote_inner in Hq. destruct (quote_split _ _ _ _ _ _ _ _) as [cs [split|o]] eqn:Hs; [|by apply quote_split_inr with (q := q) in Hs].
  injection Hq as <-. apply quote_split_inl in Hs as (Hcs & Hsolve & Hord).
  destruct (Hord bps eq_refl) as (min_out & plan & Hmin & Hnz & Hr). set (id := quote_hash _ _ _ _) in *.
  assert (Hc : Forall cand_ok cs).
  { rewrite Hcs. eapply submseteq_Forall; [apply chosen_eligible|]. by apply eligible_ok. }
  assert (Hch : Forall (leg_chosen book (mk_request id token_in token_out amount_in true) (max_candidates config)) (legs split)).
  { rewrite Hcs in Hc, Hsolve. eapply split_chosen; [exact Hc|cbn; split; lia|done|exact Hsolve]. }
  apply solve_sparse_fill_ok in Hsolve as [Hl Hne Hi Ho [_ Hw] Htgt]; [|done|cbn; split; lia].
  assert (Hpos : Forall (λ l, 0 < leg_in l ∧ 0 < leg_out l) (legs split)).
  { eapply Forall_impl; [exact Hl|]. by intros l (c & _ & (_ & _ & _ & _ & ? & ?) & _). }
  assert (Hout : 0 < amount_out split).
  { rewrite Ho. destruct (legs split) as [|l ls]; [done|]. apply Forall_cons in Hpos as [[_ ?] Hpos]. rewrite zsum_cons.
    assert (0 ≤ zsum leg_out ls) by (apply zsum_nonneg; intros x Hx; rewrite Forall_forall in Hpos; destruct (Hpos x Hx); lia). lia. }
  apply min_amount_out_spec in Hmin as (Hbps & Hmo & Hmr); [|lia|done].
  exists split, min_out, plan. split; [exact Hch|]. split; [done|]. split; [done|]. split; [done|]. split; [exact Htgt|]. split; [done|]. split.
  { cbn [quote_legs]. apply (Z.mul_le_mono_pos_r _ _ (amount_out split)); [done|].
    etrans; [apply shares_sum; [done|eapply Forall_impl; [exact Hpos|]; cbn; lia]|]. rewrite <-Ho. lia. }
  split; [done|]. split; [lia|]. cbn zeta. split; [exact Hr|].
  apply route_split in Hr as (sp & -> & _ & Hp & Hne' & Hi' & Ho' & Hw' & Ht' & Hleg); [|done|done|done|cbn; split; lia].
  cbn [req_exact_in order_request] in Hp. apply profit_exact_out in Hp as [? ?]; [| |lia].
  - rewrite <-Hi'. cbn in Ht'. split_and!; [done|done|done|lia].
  - rewrite Hi'. apply zsum_nonneg. intros l Hx. rewrite Forall_forall in Hleg. destruct (Hleg l Hx) as (? & _). lia.
Qed.

(** A decimal library of whole dollars. *)
Definition whole_dollars : DecimalOps Z Z := {|
  parse_decimal _ := Some 1; decimal_zero := 0; decimal_is_positive d := 0 <? d;
  decimal_add := Z.add; decimal_mul := Z.mul; decimal_to_f64 := id; alloy_format_units x _ := Some (to_string x)
|}.

Lemma quoted_order_clears_witness :
  let book := mk_routing_book (fold_events demo_byte_decode snapshot_default demo_events) demo_caps ∅ in
  ∃ q, @quote_for_order Z Z whole_dollars (λ _, Some 1) ∅ (mk_routing_config 4 2 100) (λ _, 7) to_string to_string
         (λ _, 50) book 1000 3 5 90000 100 = Quote q
    ∧ amount_raw (quote_amount_out q) = "82191"%string
    ∧ (∃ l, leg_chosen book (mk_request 7 3 5 90000 true) 4 l)
    ∧ ∃ min_out plan, 0 < min_out ∧ route book (order_request 7 3 5 min_out) 90000 (mk_routing_config 4 2 100) 50 None = Some plan
        ∧ zsum leg_in (plan_legs plan) + 50 * Z.of_nat (length (plan_legs plan)) + expected_profit plan = 90000.
Proof.
  intros book. eexists.
  assert (Hq : @quote_for_order Z Z whole_dollars (λ _, Some 1) ∅ (mk_routing_config 4 2 100) (λ _, 7) to_string to_string
         (λ _, 50) book 1000 3 5 90000 100 = Quote _) by (vm_compute; reflexivity).
  split; [exact Hq|]. split; [vm_compute; reflexivity|].
  assert (Ha : 0 < 90000 < U256_MAX) by (pose proof U256_MAX_big; lia).
  destruct (@quoted_order_clears Z Z whole_dollars (λ _, Some 1) ∅ (mk_routing_config 4 2 100) (λ _, 7) to_string to_string
    (λ _, 50) demo_byte_decode demo_events demo_caps ∅ 1000 3 5 90000 100 _ demo_byte_decodes demo_events_ok demo_caps_words Ha ltac:(lia) Hq)
    as (split & min_out & plan & Hch & _ & _ & Hn & _ & _ & _ & _ & Hpos & Hr & _ & _ & _ & Hsum).
  split.
  { destruct (legs split) as [|l ls]; [vm_compute in Hn; discriminate|]. exists l. by apply Forall_cons in Hch as [Hl _]. }
  exists min_out, plan. split; [exact Hpos|]. split; [exact Hr|exact Hsum].
Defined.
