(* ===== verification/History.v ===== *)
(** * The price history of a position

    [crates/core/src/maker/history.rs] and [MakerService::history]: the fee-free price of a
    strategy after each transaction that touched it, over a window of time, from the event log of
    [crates/adapters/src/registry/sqlite_store.rs] and the block headers of
    [crates/adapters/src/registry/block_times.rs].  Headers older than the window are located by
    binary search instead of being read one by one. *)

From Stdlib Require Import Ascii.
From stdpp Require Import strings.
From S2P Require Import Prelude Commands U256 Ratio CurveDecode Curves Registry RegistrySync Routing Assets Depth Quote.

#[local] Open Scope Z_scope.

(** ** Reads of the event log *)

(** The events of one strategy, in the order of the chain. *)
Definition store_history (chain : Z) (hash : StrategyHash) : cmd EventDb StoreError (list EventExt) :=
  chain_id ← lift (event_i64_of chain);
  _ ← db_step;
  gets (λ db, filter (λ e, key_hash (event_key (ext_event e)) = hash) (replay (aqua_event db) chain_id)).

Record RecordedEvent := mk_recorded { rec_at : Z; rec_event : EventExt }.

(** A page of the log, newest first, before a position: [ORDER BY block_number DESC, log_index DESC]. *)
Definition recent_rows (t : gmap RowKey EventRow) (chain_id : Z) (before : EventCursor) (limit : nat) : list EventRow :=
  take limit (rev (snd <$> merge_sort replay_le
    (filter (λ p : RowKey * EventRow, rk_chain p.1 = chain_id
      ∧ (rk_block p.1 < cur_block before ∨ rk_block p.1 = cur_block before ∧ rk_log p.1 < cur_log before)) (entries t)))).

Definition store_recent (chain : Z) (before : option EventCursor) (limit : nat) : cmd EventDb StoreError (list RecordedEvent) :=
  edge ← lift match before with
              | Some c => block ← event_i64_of (cur_block c); log ← event_i64_of (cur_log c); Ok (mk_cursor block log)
              | None => Ok (mk_cursor EVENT_I64_MAX EVENT_I64_MAX)
              end;
  chain_id ← lift (event_i64_of chain);
  _ ← db_step;
  db ← gets id;
  lift (try_fold (λ rows row, if row.(created_at) <? 0 then Err EventDbError else Ok (rows ++ [mk_recorded (created_at row) (row_event row)]))
          [] (recent_rows (aqua_event db) chain_id edge limit)).

Definition store_count_since (chain since : Z) : cmd EventDb StoreError Z :=
  chain_id ← lift (event_i64_of chain);
  since ← lift (event_i64_of since);
  _ ← db_step;
  gets (λ db, Z.of_nat (length (filter (λ p : RowKey * EventRow, rk_chain p.1 = chain_id ∧ since ≤ created_at p.2) (map_to_list (aqua_event db))))).

(** ** Times *)

Inductive HistoryError : Type :=
| HistoryStore (e : StoreError)
| HeaderRpc
| HeaderMissing (hash : B256).

(** The headers of some blocks; the first that cannot be read fails the call. *)
Definition timestamps (header : B256 → result HistoryError Z) (hashes : list B256) : result HistoryError (gmap B256 Z) :=
  try_fold (λ times hash, at_ ← header hash; Ok (<[hash := at_]> times)) ∅ hashes.

(** The first position whose block is not before [start], between [left] and [right]. *)
Fixpoint search_edge (fuel : nat) (header : B256 → result HistoryError Z) (hashes : list B256) (start : Z) (left right : nat) :
    result HistoryError nat :=
  match fuel with
  | O => Ok left
  | S fuel =>
      if (left <? right)%nat
      then
        let middle := (left + (right - left) / 2)%nat in
        let hash := nth middle hashes 0 in
        times ← timestamps header [hash];
        at_ ← ok_or (times !! hash) (HeaderMissing hash);
        if at_ <? start then search_edge fuel header hashes start (middle + 1) right
        else search_edge fuel header hashes start left middle
      else Ok left
  end.

(** Each turn makes the range shorter, so its length is enough fuel. *)
Definition window_times (header : B256 → result HistoryError Z) (hashes : list B256) (start : Z) : result HistoryError (gmap B256 Z) :=
  left ← search_edge (length hashes) header hashes start 0 (length hashes);
  times ← timestamps header (drop left hashes);
  Ok (foldl (λ times hash, <[hash := start]> times) times (take left hashes)).

(** ** Transactions *)

(** [slice::chunk_by]: maximal runs in which each element is related to the next. *)
Fixpoint chunk_by {A} (r : A → A → bool) (l : list A) : list (list A) :=
  match l with
  | [] => []
  | x :: l' =>
      match chunk_by r l' with
      | (y :: c) :: cs => if r x y then (x :: y :: c) :: cs else [x] :: (y :: c) :: cs
      | cs => [x] :: cs
      end
  end.

Definition same_transaction (a b : EventExt) : bool :=
  bool_decide (block_hash a = block_hash b) && bool_decide (transaction_hash a = transaction_hash b).

(** ** Prices *)

Record StrategyPrice := mk_strategy_price { sp_at : Z; sp_price : option string }.

Record PositionHistory := mk_history { ph_from : Z; ph_to : Z; ph_created_block : option Z; ph_prices : list StrategyPrice }.

Definition checked_pow10 (n : Z) : option U256 := if 10 ^ n <=? U256_MAX then Some (10 ^ n) else None.

(** A sample at the time of the one before takes its place. *)
Definition push_price (prices : list StrategyPrice) (p : StrategyPrice) : list StrategyPrice :=
  match last prices with
  | Some q => if sp_at q =? sp_at p then removelast prices ++ [p] else prices ++ [p]
  | None => prices ++ [p]
  end.

Section history.
Context {D F64 : Type} `{DecimalOps D F64}.
Context (abi_decode : list Z → option Order).

(** [marginal_price]: whole quote tokens per whole base token, to 18 places; none when it shows as zero. *)
Definition position_price (strategy : MakerStrategy) (curve : Curve) (base quote : Token) : option string :=
  if negb (active strategy) then None
  else
    raw ← ok (marginal_price (from_curve curve (token_address base) (token_address quote)
                (balance strategy (token_address base)) (balance strategy (token_address quote))));
    base_unit ← checked_pow10 (token_decimals base);
    quote_unit ← checked_pow10 (token_decimals quote);
    units ← Ratio_new base_unit quote_unit;
    scaled ← floor (ratio_mul (ratio_mul raw units) (ratio_from (10 ^ 18)));
    if scaled =? 0 then None else Some (format_units scaled 18).

Definition is_shipped (e : AquaEvent) : bool := match e with Shipped _ _ _ _ => true | _ => false end.

(** The events of a transaction that stand. *)
Definition live (transaction : list EventExt) : list EventExt := filter (λ e, removed e = false) transaction.

Definition created_in (created : option Z) (transaction : list EventExt) : option Z :=
  foldl (λ created e, if is_shipped (ext_event e) && negb (bool_decide (is_Some created)) then block_number e else created)
    created (live transaction).

Fixpoint history_loop (strategy : MakerStrategy) (curve : Curve) (base quote : Token) (times : gmap B256 Z) (from to_ : Z)
    (snapshot : Snapshot) (created : option Z) (prices : list StrategyPrice) (transactions : list (list EventExt)) :
    result HistoryError (option Z * list StrategyPrice) :=
  match transactions with
  | [] => Ok (created, prices)
  | [] :: rest => history_loop strategy curve base quote times from to_ snapshot created prices rest
  | (first :: _) as transaction :: rest =>
      hash ← ok_or (block_hash first) (HistoryStore Unpositioned);
      at_ ← ok_or (times !! hash) (HeaderMissing hash);
      if to_ <=? at_ then Ok (created, prices)
      else
        let snapshot := fold_events abi_decode snapshot (ext_event <$> live transaction) in
        let price := s ← strategies snapshot !! strat_key strategy; position_price s curve base quote in
        history_loop strategy curve base quote times from to_ snapshot (created_in created transaction)
          (push_price prices (mk_strategy_price (Z.max at_ from) price)) rest
  end.

Definition price_history (strategy : MakerStrategy) (base quote : Token) (events : list EventExt) (times : gmap B256 Z) (from to_ : Z) :
    result HistoryError PositionHistory :=
  match strat_curve strategy with
  | Priceable curve _ =>
      '(created, prices) ← history_loop strategy curve base quote times from to_ snapshot_default None [] (chunk_by same_transaction events);
      Ok (mk_history from to_ created prices)
  | _ => Ok (mk_history from to_ None [])
  end.

(** ** The service *)

Inductive MakerPeriod : Type := Week | Month | Quarter | HalfYear.

Definition period_days (p : MakerPeriod) : Z := match p with Week => 7 | Month => 30 | Quarter => 90 | HalfYear => 180 end.

Definition window (p : MakerPeriod) (now : Z) : Z * Z :=
  let end_ := u64_saturating_add now 1 in (u64_saturating_sub end_ (period_days p * 86400), end_).

Definition positioned_hash (e : EventExt) : result HistoryError B256 :=
  if bool_decide (transaction_hash e = None) || bool_decide (cursor e = None) then Err (HistoryStore Unpositioned)
  else ok_or (block_hash e) (HistoryStore Unpositioned).

Fixpoint positioned_hashes (events : list EventExt) : result HistoryError (list B256) :=
  match events with
  | [] => Ok []
  | e :: events' => h ← positioned_hash e; hs ← positioned_hashes events'; Ok (h :: hs)
  end.

(** [history], given what the event log answers for the strategy. *)
Definition history (catalog : Catalog) (snapshot : Snapshot) (log : result StoreError (list EventExt)) (header : B256 → result HistoryError Z)
    (now : Z) (hash : StrategyHash) : result HistoryError (option PositionHistory) :=
  match strategy_by_hash snapshot hash with
  | None => Ok None
  | Some strategy =>
      match pair strategy with
      | None => Ok None
      | Some p =>
          let '(base, quote) := base_quote catalog p in
          events ← map_err HistoryStore log;
          hashes ← positioned_hashes events;
          let hashes := dedup_by_key id hashes in
          let '(from, to_) := window Week now in
          times ← window_times header hashes from;
          h ← price_history strategy (token_or_default catalog base) (token_or_default catalog quote) events times from to_;
          Ok (Some h)
      end
  end.

End history.

(** * The price history is the price over time

    The binary search finds the edge of the window, and the samples of a history are exactly the
    prices the strategy had at the times something happened to it. *)

(** ** Locating the window *)

Section times.
Context (header : B256 → result HistoryError Z) (time : B256 → Z) (start : Z).

Lemma timestamps_Ok hashes :
  (∀ h, h ∈ hashes → header h = Ok (time h)) →
  ∃ m, timestamps header hashes = Ok m ∧ (∀ h, h ∈ hashes → m !! h = Some (time h)).
Proof.
  unfold timestamps. intros Hread.
  enough (∀ m : gmap B256 Z, ∃ m' : gmap B256 Z, try_fold (λ times hash, at_ ← header hash; Ok (<[hash := at_]> times)) m hashes = Ok m'
    ∧ (∀ h, h ∈ hashes → m' !! h = Some (time h)) ∧ ∀ h, h ∉ hashes → m' !! h = m !! h) as Hall.
  { destruct (Hall ∅) as (m & Hm & Hin & _). by exists m. }
  induction hashes as [|h hs IH]; intros m; cbn [try_fold].
  { exists m. split_and!; [done| |done]. by intros ? ?%elem_of_nil. }
  rewrite (Hread h) by apply list_elem_of_here. cbn [mbind result_bind].
  destruct (IH (λ x Hx, Hread x (list_elem_of_further _ _ _ Hx)) (<[h := time h]> m)) as (m' & Hm & Hin & Hout). exists m'. split; [done|]. split.
  - intros x Hx. destruct (decide (x ∈ hs)); [by apply Hin|]. apply elem_of_cons in Hx as [->|]; [|done]. by rewrite Hout, lookup_insert_eq.
  - intros x Hx. apply not_elem_of_cons in Hx as [? ?]. by rewrite Hout, lookup_insert_ne.
Qed.

Context (hashes : list B256).
Hypothesis readable : ∀ h, h ∈ hashes → header h = Ok (time h).
Hypothesis ordered : ∀ i j h h', (i ≤ j)%nat → hashes !! i = Some h → hashes !! j = Some h' → time h ≤ time h'.

(** What lies before a position is before the window, what lies at or after it is not. *)
Definition edge (k : nat) : Prop :=
  (k ≤ length hashes)%nat ∧ (∀ i h, (i < k)%nat → hashes !! i = Some h → time h < start)
  ∧ ∀ i h, (k ≤ i)%nat → hashes !! i = Some h → start ≤ time h.

Lemma search_edge_Ok fuel left right :
  (right - left ≤ fuel)%nat → (left ≤ right ≤ length hashes)%nat →
  (∀ i h, (i < left)%nat → hashes !! i = Some h → time h < start) →
  (∀ i h, (right ≤ i)%nat → hashes !! i = Some h → start ≤ time h) →
  ∃ k, search_edge fuel header hashes start left right = Ok k ∧ edge k.
Proof.
  revert left right. induction fuel as [|fuel IH]; intros left right Hf Hlr Hl Hr; cbn [search_edge].
  { exists left. split; [done|]. split_and!; [lia|done|]. intros i h ?. apply Hr. lia. }
  destruct (Nat.ltb_spec left right) as [Hlt|Hge].
  2:{ exists left. split; [done|]. split_and!; [lia|done|]. intros i h ?. apply Hr. lia. }
  set (middle := (left + (right - left) / 2)%nat).
  assert (Hm : (left ≤ middle < right)%nat) by (unfold middle; pose proof (Nat.Div0.div_le_upper_bound (right - left) 2 (right - left)); pose proof (Nat.div_lt (right - left) 2); lia).
  destruct (lookup_lt_is_Some_2 hashes middle) as [h Hh]; [lia|].
  rewrite (nth_lookup_Some hashes middle 0 h) by done.
  destruct (timestamps_Ok [h]) as (m & -> & Hin).
  { intros x ->%list_elem_of_singleton. apply readable. by eapply list_elem_of_lookup_2. }
  cbn [mbind result_bind]. rewrite (Hin h) by by apply list_elem_of_singleton. cbn [ok_or mbind result_bind].
  destruct (Z.ltb_spec (time h) start) as [Hb|Hb]; apply IH; try lia; try done.
  - intros i x Hi Hx. assert (time x ≤ time h) by (eapply (ordered i middle); [lia|done|done]). lia.
  - intros i x Hi Hx. assert (time h ≤ time x) by (eapply (ordered middle i); [lia|done|done]). lia.
Qed.

(** Every block is given its time, or the start of the window where that is later. *)
Lemma window_times_Ok :
  ∃ m, window_times header hashes start = Ok m
    ∧ ∀ h, h ∈ hashes → ∃ t, m !! h = Some t ∧ Z.max t start = Z.max (time h) start.
Proof.
  destruct (search_edge_Ok (length hashes) 0 (length hashes)) as (k & Hk & Hle & Hbefore & Hafter); [lia|lia|lia| |].
  { intros i h ? Hi. apply lookup_lt_Some in Hi. lia. }
  unfold window_times. rewrite Hk. cbn [mbind result_bind].
  destruct (timestamps_Ok (drop k hashes)) as (m & -> & Hin).
  { intros h Hh. apply readable. rewrite <-(take_drop k hashes), elem_of_app. by right. }
  cbn [mbind result_bind]. eexists. split; [reflexivity|]. intros h Hh.
  enough (∀ (l : list B256) (m' : gmap B256 Z), (∀ x, x ∈ l → time x < start) → (∀ x, x ∈ hashes → x ∉ l → ∃ t, m' !! x = Some t ∧ Z.max t start = Z.max (time x) start) →
    ∃ t, foldl (λ times hash, <[hash := start]> times) m' l !! h = Some t ∧ Z.max t start = Z.max (time h) start) as Hall.
  { apply Hall.
    - intros x (i & Hi)%list_elem_of_lookup_1. apply lookup_take_Some in Hi as [Hi ?]. by eapply Hbefore.
    - intros x Hx Hnot. exists (time x). split; [|done]. apply Hin. rewrite <-(take_drop k hashes), elem_of_app in Hx. by destruct Hx. }
  clear m Hin. intros l. induction l as [|x l IH]; intros m' Hl Hm; cbn [foldl].
  { apply Hm; [done|by apply not_elem_of_nil]. }
  apply IH; [intros y ?; apply Hl; by apply list_elem_of_further|]. intros y Hy Hnot. destruct (decide (y = x)) as [->|Hne].
  - exists start. rewrite lookup_insert_eq. split; [done|]. pose proof (Hl x (list_elem_of_here _ _)). lia.
  - rewrite lookup_insert_ne by done. apply Hm; [done|]. by apply not_elem_of_cons.
Qed.

End times.

(** ** Transactions *)

Lemma chunk_by_concat {A} (r : A → A → bool) l : concat (chunk_by r l) = l.
Proof.
  induction l as [|x l IH]; [done|]. cbn [chunk_by]. rewrite <-IH at 2. destruct (chunk_by r l) as [|[|y c] cs]; [done|done|]. by destruct (r x y).
Qed.

(** Along a chunk, every element has what the relation keeps. *)
Lemma chunk_by_uniform {A B} (r : A → A → bool) (f : A → B) l :
  (∀ x y, r x y = true → f x = f y) → Forall (λ c, match c with [] => False | x :: c' => Forall (λ y, f y = f x) c' end) (chunk_by r l).
Proof.
  intros Hr. induction l as [|x l IH]; [constructor|]. cbn [chunk_by]. destruct (chunk_by r l) as [|[|y c] cs]; [by repeat constructor|by inversion IH|].
  apply Forall_cons in IH as [Hc Hcs]. destruct (r x y) eqn:E; [|by repeat constructor].
  pose proof (Hr _ _ E) as Hxy. constructor; [|done]. constructor; [done|]. eapply Forall_impl; [exact Hc|]. cbn. congruence.
Qed.

(** ** Distinct times *)

Lemma dedup_from_app (x : Z) l a :
  dedup_from id x (l ++ [a]) = dedup_from id x l ++ (if default x (last l) =? a then [] else [a]).
Proof.
  revert x. induction l as [|y l IH]; intros x; cbn [dedup_from app].
  { cbn. by destruct (x =? a). }
  rewrite !IH. assert (Hlast : default x (last (y :: l)) = default y (last l)) by (rewrite last_cons; by destruct (last l)).
  rewrite Hlast. unfold id. destruct (Z.eqb_spec x y) as [->|]; done.
Qed.

Lemma dedup_snoc (l : list Z) a :
  dedup_by_key id (l ++ [a]) = if bool_decide (last l = Some a) then dedup_by_key id l else dedup_by_key id l ++ [a].
Proof.
  destruct l as [|x l]; [done|]. cbn [dedup_by_key app]. rewrite dedup_from_app.
  assert (Hlast : last (x :: l) = Some (default x (last l))) by (rewrite last_cons; by destruct (last l)).
  rewrite Hlast. destruct (Z.eqb_spec (default x (last l)) a) as [->|Hne].
  - by rewrite bool_decide_eq_true_2, app_nil_r.
  - rewrite bool_decide_eq_false_2 by congruence. done.
Qed.

Lemma last_dedup (l : list Z) : last (dedup_by_key id l) = last l.
Proof.
  induction l as [|a l IH] using rev_ind; [done|]. rewrite dedup_snoc, last_snoc. case_bool_decide; [by rewrite IH|]. by rewrite last_snoc.
Qed.

Lemma dedup_In (l : list Z) x : x ∈ dedup_by_key id l → x ∈ l.
Proof.
  induction l as [|a l IH] using rev_ind; [done|]. rewrite dedup_snoc. case_bool_decide; rewrite elem_of_app; [auto|]. rewrite elem_of_app. tauto.
Qed.

(** A run of one time adds at most that time. *)
Lemma dedup_run (l : list Z) a k :
  dedup_by_key id (l ++ replicate (S k) a) = if bool_decide (last l = Some a) then dedup_by_key id l else dedup_by_key id l ++ [a].
Proof.
  induction k as [|k IH]; [by rewrite <-dedup_snoc|]. change (replicate (S (S k)) a) with (a :: replicate (S k) a). rewrite replicate_cons_app, app_assoc, dedup_snoc, IH. rewrite bool_decide_eq_true_2; [done|]. change (replicate (S k) a) with (a :: replicate k a). by rewrite replicate_cons_app, app_assoc, last_snoc.
Qed.

(** Times in order leave each time once, in order. *)
Lemma dedup_strict (l : list Z) : StronglySorted Z.le l → StronglySorted Z.lt (dedup_by_key id l).
Proof.
  induction l as [|a l IH] using rev_ind; [constructor|]. intros Hs. rewrite dedup_snoc.
  pose proof (StronglySorted_app_1_l _ _ _ Hs) as Hl. case_bool_decide as Hlast; [auto|].
  apply StronglySorted_app_2; [|auto|by repeat constructor]. intros x y Hx ->%list_elem_of_singleton. apply dedup_In in Hx.
  destruct l as [|b l _] using rev_ind; [by apply elem_of_nil in Hx|]. rewrite last_snoc in Hlast.
  assert (x ≤ b) by (apply elem_of_app in Hx as [Hx| ->%list_elem_of_singleton]; [|done]; eapply (StronglySorted_app_1_elem_of Z.le l [b]); [done|done|by apply list_elem_of_singleton]).
  assert (b ≤ a) by (eapply (StronglySorted_app_1_elem_of Z.le (l ++ [b]) [a]); [done| |by apply list_elem_of_singleton]; apply elem_of_app; right; by apply list_elem_of_singleton).
  assert (b ≠ a) by congruence. lia.
Qed.

Lemma dedup_ids_sorted (R : relation Z) (l : list Z) : StronglySorted R l → StronglySorted R (dedup_by_key id l).
Proof.
  induction l as [|a l IH] using rev_ind; [constructor|]. intros Hs. rewrite dedup_snoc.
  pose proof (IH (StronglySorted_app_1_l _ _ _ Hs)) as Hl. case_bool_decide; [done|]. apply StronglySorted_app_2; [|done|by repeat constructor].
  intros x y Hx%dedup_In Hy. by eapply (StronglySorted_app_1_elem_of R l [a]).
Qed.

Lemma In_dedup (l : list Z) x : x ∈ l → x ∈ dedup_by_key id l.
Proof.
  induction l as [|a l IH] using rev_ind; [done|]. rewrite dedup_snoc. intros [Hx| ->%list_elem_of_singleton]%elem_of_app.
  - case_bool_decide; [auto|]. apply elem_of_app. auto.
  - case_bool_decide as Hl; [|apply elem_of_app; right; by apply list_elem_of_singleton]. apply IH. by apply last_Some_elem_of.
Qed.

Lemma sorted_lookup {A} (R : relation A) (l : list A) i j x y :
  (∀ z, R z z) → StronglySorted R l → (i ≤ j)%nat → l !! i = Some x → l !! j = Some y → R x y.
Proof.
  intros Hrefl Hs. revert i j. induction Hs as [|z l Hs IH Hz]; intros [|i] [|j] Hij Hx Hy; cbn in *; simplify_eq; try done; try lia.
  - rewrite Forall_forall in Hz. by eapply Hz, list_elem_of_lookup_2.
  - apply (IH i j); [lia|done|done].
Qed.

(** ** Keeping and dropping all *)

(** ** The samples *)

Section samples.
Context {D F64 : Type} `{DecimalOps D F64}.
Context (abi_decode : list Z → option Order) (strategy : MakerStrategy) (curve : Curve) (base quote : Token) (time : B256 → Z) (from to_ : Z).

(** When an event happened. *)
Definition event_time (e : EventExt) : Z := time (default 0 (block_hash e)).

Definition clipped (e : EventExt) : Z := Z.max (event_time e) from.

(** The price once some events have happened. *)
Definition price_after (events : list EventExt) : option string :=
  s ← strategies (fold_events abi_decode snapshot_default (ext_event <$> live events)) !! strat_key strategy;
  position_price s curve base quote.

(** The price at a time: after everything that happened by then. *)
Definition price_as_of (events : list EventExt) (t : Z) : option string := price_after (filter (λ e, event_time e ≤ t) events).

(** A sample at each time, within the window, at which something happened. *)
Definition samples (events : list EventExt) : list StrategyPrice :=
  (λ t, mk_strategy_price t (price_as_of events t)) <$> dedup_by_key id (clipped <$> filter (λ e, event_time e < to_) events).

Lemma live_app l k : live (l ++ k) = live l ++ live k.
Proof. apply filter_app. Qed.

Lemma fold_live s l k :
  fold_events abi_decode (fold_events abi_decode s (ext_event <$> live l)) (ext_event <$> live k) = fold_events abi_decode s (ext_event <$> live (l ++ k)).
Proof. unfold fold_events. by rewrite live_app, fmap_app, foldl_app. Qed.

(** Events after a time do not change the price at that time. *)
Lemma price_as_of_later l k t : (∀ e, e ∈ k → t < event_time e) → price_as_of (l ++ k) t = price_as_of l t.
Proof.
  intros Hk. unfold price_as_of. rewrite filter_app, (filter_none _ k), app_nil_r; [done|]. intros e He. specialize (Hk e He). lia.
Qed.

Lemma price_as_of_all l t : (∀ e, e ∈ l → event_time e ≤ t) → price_as_of l t = price_after l.
Proof. intros Hl. unfold price_as_of. by rewrite filter_all. Qed.

(** A sample is taken again when more happens at its time, and once otherwise. *)
Lemma push_samples (f g : Z → option string) ts a :
  StronglySorted Z.lt (dedup_by_key id ts) → (∀ t, t ∈ dedup_by_key id ts → t ≤ a) → (∀ t, t ∈ dedup_by_key id ts → t ≠ a → g t = f t) →
  push_price ((λ t, mk_strategy_price t (f t)) <$> dedup_by_key id ts) (mk_strategy_price a (g a))
  = (λ t, mk_strategy_price t (g t)) <$> (if bool_decide (last ts = Some a) then dedup_by_key id ts else dedup_by_key id ts ++ [a]).
Proof.
  intros Hs Hle Hg. unfold push_price. rewrite fmap_last, last_dedup.
  assert (Hsame : ∀ l, l ⊆ dedup_by_key id ts → a ∉ l → (λ t, mk_strategy_price t (f t)) <$> l = (λ t, mk_strategy_price t (g t)) <$> l).
  { intros l Hl Ha. apply list_fmap_ext. intros i x Hx%list_elem_of_lookup_2. rewrite Hg; [done|by apply Hl|by intros ->]. }
  assert (Hend : last (dedup_by_key id ts) = last ts) by apply last_dedup. destruct (dedup_by_key id ts) as [|b l _] using rev_ind.
  { rewrite <-Hend. by cbn. }
  rewrite last_snoc in Hend. rewrite <-Hend. cbn [fmap option_fmap option_map sp_at].
  assert (Hb : ∀ x, x ∈ l → x < b) by (intros x Hx; eapply (StronglySorted_app_1_elem_of Z.lt l [b]); [done|done|by apply list_elem_of_singleton]).
  assert (b ≤ a) by (apply Hle, elem_of_app; right; by apply list_elem_of_singleton). destruct (Z.eqb_spec b a) as [->|Hne].
  - rewrite bool_decide_eq_true_2 by done. rewrite !fmap_app. cbn. rewrite removelast_last. f_equal. apply Hsame; [set_solver|].
    intros Ha%Hb. lia.
  - rewrite bool_decide_eq_false_2 by congruence. rewrite (fmap_app _ (l ++ [b]) [a]). f_equal. apply Hsame; [done|].
    rewrite not_elem_of_app, list_elem_of_singleton. split; [|done]. intros Ha%Hb. lia.
Qed.

(** One transaction more: a run of events of one time, not before the others. *)
Lemma samples_step l first rest :
  StronglySorted Z.le (clipped <$> l) → (∀ e, e ∈ l → event_time e < to_ ∧ clipped e ≤ clipped first) →
  event_time first < to_ → Forall (λ e, event_time e = event_time first) rest →
  push_price (samples l) (mk_strategy_price (clipped first) (price_after (l ++ first :: rest))) = samples (l ++ first :: rest).
Proof.
  intros Hsorted Hl Hf Hrest. set (tx := first :: rest).
  assert (Htx : ∀ e, e ∈ tx → event_time e = event_time first).
  { unfold tx. intros e [->|He]%elem_of_cons; [done|]. by eapply (proj1 (Forall_forall _ _) Hrest). }
  assert (Hruns : clipped <$> tx = replicate (S (length rest)) (clipped first)).
  { apply (const_fmap clipped tx). intros i e He. unfold clipped. by rewrite (Htx e) by by eapply list_elem_of_lookup_2. }
  assert (Hlast : price_as_of (l ++ tx) (clipped first) = price_after (l ++ tx)).
  { apply price_as_of_all. intros e [He|He]%elem_of_app; [destruct (Hl e He); unfold clipped in *; lia|]. rewrite (Htx e He). unfold clipped. lia. }
  unfold samples. rewrite (filter_all _ l), (filter_all _ (l ++ tx)).
  2:{ intros e [He|He]%elem_of_app; [by apply Hl|]. by rewrite (Htx e He). }
  2:{ intros e He. by apply Hl. }
  rewrite fmap_app, Hruns, dedup_run, <-Hlast. apply push_samples; [by apply dedup_strict| |].
  - intros t (e & -> & He)%dedup_In%list_elem_of_fmap. by apply Hl.
  - intros t (e & -> & He)%dedup_In%list_elem_of_fmap Hne. apply price_as_of_later. intros x Hx. rewrite (Htx x Hx). destruct (Hl e He) as [_ ?].
    unfold clipped in *. lia.
Qed.

(** The events of a transaction are of one block, whose time is known. *)
Definition timed (times : gmap B256 Z) (transaction : list EventExt) : Prop :=
  match transaction with
  | [] => False
  | first :: rest => Forall (λ e, event_time e = event_time first) rest
      ∧ ∃ h t, block_hash first = Some h ∧ times !! h = Some t ∧ Z.max t from = clipped first
  end.

Lemma history_loop_samples times transactions l created :
  from < to_ → Forall (timed times) transactions → StronglySorted Z.le (clipped <$> (l ++ concat transactions)) → (∀ e, e ∈ l → event_time e < to_) →
  ∃ created' k, history_loop abi_decode strategy curve base quote times from to_ (fold_events abi_decode snapshot_default (ext_event <$> live l)) created (samples l) transactions
    = Ok (created', samples k) ∧ k = filter (λ e, event_time e < to_) (l ++ concat transactions).
Proof.
  intros Hwin. revert l created. induction transactions as [|[|first rest] txs IH]; intros l created Htimed Hsorted Hl; cbn [history_loop concat].
  { rewrite app_nil_r. eexists _, _. split; [done|]. symmetry. by apply filter_all. }
  { by inversion Htimed. }
  apply Forall_cons in Htimed as [[Hrest (h & t & Hh & Ht & Hmax)] Htxs]. rewrite Hh. cbn [ok_or mbind result_bind]. rewrite Ht. cbn [ok_or mbind result_bind].
  assert (Hbefore : ∀ e, e ∈ l → clipped e ≤ clipped first).
  { intros e He. rewrite fmap_app in Hsorted. eapply (StronglySorted_app_1_elem_of Z.le _ _ _ _ Hsorted); [by apply list_elem_of_fmap_2|]. apply list_elem_of_here. }
  destruct (Z.leb_spec to_ t) as [Hend|Hgo].
  - eexists _, _. split; [done|]. rewrite filter_app, (filter_all _ l) by done. rewrite filter_none; [by rewrite app_nil_r|].
    intros e He. assert (Hle : clipped first ≤ clipped e).
    { cbn [concat app] in He. apply elem_of_cons in He as [->|He]; [lia|]. rewrite fmap_app in Hsorted. apply StronglySorted_app_1_r in Hsorted. cbn in Hsorted.
      apply StronglySorted_inv in Hsorted as [_ Hall]. rewrite Forall_forall in Hall. apply Hall. by apply list_elem_of_fmap_2. }
    unfold clipped in *. lia.
  - assert (Hf : event_time first < to_) by (unfold clipped in Hmax; lia).
    destruct (IH (l ++ first :: rest) (created_in created (first :: rest))) as (created' & k & Hloop & Hk); [done| | |].
    { by rewrite <-app_assoc. }
    { intros e [He|[->|He]%elem_of_cons]%elem_of_app; [by apply Hl|done|]. rewrite (proj1 (Forall_forall _ _) Hrest e He). done. }
    exists created', k. rewrite fold_live. fold (price_after (l ++ first :: rest)). rewrite Hmax, samples_step; [|eapply StronglySorted_app_1_l; by rewrite <-fmap_app|auto|done|done].
    split; [exact Hloop|]. by rewrite Hk, <-app_assoc.
Qed.

Lemma samples_window l : from < to_ → samples (filter (λ e, event_time e < to_) l) = samples l.
Proof.
  intros Hwin. unfold samples. rewrite (filter_all _ (filter _ l)) by (intros e He; by apply list_elem_of_filter in He as [? _]).
  apply list_fmap_ext. intros i t Ht%list_elem_of_lookup_2. f_equal. apply dedup_In, list_elem_of_fmap in Ht as (e & -> & He%list_elem_of_filter).
  destruct He as [He _]. unfold price_as_of. f_equal. assert (Hlt : clipped e < to_) by (unfold clipped; lia). clear He. revert Hlt. generalize (clipped e). clear e. intros t Hlt.
  induction l as [|x l IH]; [done|]. rewrite !filter_cons. destruct (decide (event_time x < to_)); rewrite ?filter_cons, IH; [done|].
  rewrite decide_False by lia. done.
Qed.

End samples.

(** ** The service *)

Section service.
Context {D F64 : Type} `{DecimalOps D F64}.
Context (abi_decode : list Z → option Order) (header : B256 → result HistoryError Z) (time : B256 → Z).

(** A mined event whose block can be read. *)
Definition mined (e : EventExt) : Prop :=
  is_Some (transaction_hash e) ∧ is_Some (cursor e) ∧ ∃ h, block_hash e = Some h ∧ header h = Ok (time h).

Lemma positioned_hashes_Ok events : Forall mined events → positioned_hashes events = Ok ((λ e, default 0 (block_hash e)) <$> events).
Proof.
  induction 1 as [|e events ([x Hx] & [c Hc] & h & Hh & _) _ IH]; [done|]. cbn. unfold positioned_hash. rewrite Hx, Hc, Hh. cbn. by rewrite IH.
Qed.

Lemma window_open p now : 0 ≤ now → (window p now).1 < (window p now).2.
Proof. intros. unfold window, u64_saturating_sub, u64_saturating_add, U64_MAX. destruct p; cbn; lia. Qed.

Lemma same_transaction_hash a b : same_transaction a b = true → block_hash a = block_hash b.
Proof. unfold same_transaction. intros [Ha _]%andb_true_iff. by apply bool_decide_eq_true in Ha. Qed.

(** The transactions of a log, with the times read for the window. *)
Lemma transactions_timed from times events :
  Forall mined events →
  (∀ h, h ∈ dedup_by_key id ((λ e, default 0 (block_hash e)) <$> events) → ∃ t, times !! h = Some t ∧ Z.max t from = Z.max (time h) from) →
  Forall (timed time from times) (chunk_by same_transaction events).
Proof.
  intros Hm Htimes. pose proof (chunk_by_uniform same_transaction block_hash events same_transaction_hash) as Hu.
  assert (Hin : Forall (λ c, Forall (λ e, e ∈ events) c) (chunk_by same_transaction events)).
  { apply Forall_forall. intros c Hc. apply Forall_forall. intros e He. rewrite <-(chunk_by_concat same_transaction events). apply list_elem_of_In, in_concat. exists c.
    by rewrite <-!list_elem_of_In. }
  eapply Forall_impl; [exact (proj2 (Forall_and _ _) (conj Hu Hin))|]. intros [|first rest] [Hsame Hev]; [done|]. apply Forall_cons in Hev as [Hfirst _].
  destruct (proj1 (Forall_forall _ _) Hm first Hfirst) as (_ & _ & h & Hh & _). split.
  - eapply Forall_impl; [exact Hsame|]. cbn. intros e He. unfold event_time. by rewrite He.
  - destruct (Htimes h) as (t & Ht & Hmax); [apply In_dedup, list_elem_of_fmap; exists first; by rewrite Hh|]. exists h, t. split_and!; [done|done|].
    unfold clipped, event_time. by rewrite Hh.
Qed.

(** C35: the history of a strategy is its price over time: for a log of mined events, in the order of
    their blocks' times, the service answers, although it reads only the headers it needs; and its
    samples are one for each moment of the window at which something happened to the strategy, in
    order, each with the price after everything that had happened by then. *)
Theorem history_is_the_price_over_time catalog snapshot events now hash strategy p curve fees :
  strategy_by_hash snapshot hash = Some strategy → pair strategy = Some p → strat_curve strategy = Priceable curve fees →
  Forall mined events → StronglySorted Z.le (event_time time <$> events) → 0 ≤ now →
  let '(base, quote) := base_quote catalog p in
  let '(from, to_) := window Week now in
  ∃ created,
    history abi_decode catalog snapshot (Ok events) header now hash
    = Ok (Some (mk_history from to_ created
        (samples abi_decode strategy curve (token_or_default catalog base) (token_or_default catalog quote) time from to_ events))).
Proof.
  intros Hs Hp Hc Hm Hsorted Hnow. unfold history. rewrite Hs, Hp. destruct (base_quote catalog p) as [base quote].
  pose proof (window_open Week now Hnow) as Hwin. destruct (window Week now) as [from to_]. cbn in Hwin. cbn [map_err mbind result_bind].
  rewrite positioned_hashes_Ok by done. cbn [mbind result_bind]. set (hashes := dedup_by_key id _).
  destruct (window_times_Ok header time from hashes) as (times & -> & Htimes).
  { intros h (e & -> & He)%dedup_In%list_elem_of_fmap. destruct (proj1 (Forall_forall _ _) Hm e He) as (_ & _ & h & Hh & Hr). by rewrite Hh. }
  { intros i j x y. apply (sorted_lookup (λ a b, time a ≤ time b)); [done|]. apply dedup_ids_sorted. clear -Hsorted.
    induction events as [|e events IH]; cbn in *; [constructor|]. apply StronglySorted_inv in Hsorted as [? Hall]. constructor; [auto|].
    rewrite Forall_fmap in Hall |- *. exact Hall. }
  cbn [mbind result_bind]. unfold price_history. rewrite Hc.
  destruct (history_loop_samples abi_decode strategy curve (token_or_default catalog base) (token_or_default catalog quote) time from to_ times
              (chunk_by same_transaction events) [] None) as (created & k & Hloop & ->); [done|by apply transactions_timed| |by intros ? ?%elem_of_nil|].
  { cbn. rewrite chunk_by_concat. clear -Hsorted. induction events as [|e events IH]; cbn in *; [constructor|]. apply StronglySorted_inv in Hsorted as [? Hall].
    constructor; [auto|]. rewrite Forall_fmap in Hall |- *. eapply Forall_impl; [exact Hall|]. cbn. unfold clipped. lia. }
  exists created. change (samples _ _ _ _ _ _ _ _ []) with (@nil StrategyPrice) in Hloop. change (fold_events abi_decode snapshot_default (ext_event <$> live [])) with snapshot_default in Hloop.
  rewrite Hloop. cbn [mbind result_bind]. cbn [app]. rewrite chunk_by_concat, samples_window by done. done.
Qed.

End service.

(** ** One history *)

Definition demo_log (es : list AquaEvent) : list EventExt := imap (λ i e, mk_ext e 0 (Some (Z.of_nat i / 3)) (Some (Z.of_nat i / 3)) (Some (Z.of_nat i / 3)) (Some 0) (Some (Z.of_nat i)) false) es.

Definition block_time (h : B256) : Z := 999000 + 700000 * h.

Definition history_events : list EventExt := filter (λ e, key_hash (event_key (ext_event e)) = 7) (demo_log demo_events).

(** Funded before the window, traded within it, and once after it. *)
Lemma history_is_the_price_over_time_witness :
  ∃ created,
    @history Z Z whole_dollars demo_byte_decode ∅ (fold_events demo_byte_decode snapshot_default demo_events) (Ok history_events) (λ h, Ok (block_time h)) 2000000 7
    = Ok (Some (mk_history 1395201 2000001 created
        [mk_strategy_price 1395201 (Some "1000000000000000000"); mk_strategy_price 1699000 (Some "999000999000999000")])).
Proof.
  destruct (strategy_by_hash (fold_events demo_byte_decode snapshot_default demo_events) 7) as [strategy|] eqn:Hs; [|by vm_compute in Hs].
  assert (Hspec : pair strategy = Some (mk_pair 3 5) ∧ strat_curve strategy = Priceable Xyc [3000000] ∧ strat_key strategy = demo_key) by (vm_compute in Hs; by simplify_eq).
  destruct Hspec as (Hp & Hc & Hk).
  destruct (@history_is_the_price_over_time Z Z whole_dollars demo_byte_decode (λ h, Ok (block_time h)) block_time ∅
              (fold_events demo_byte_decode snapshot_default demo_events) history_events 2000000 7 strategy (mk_pair 3 5) Xyc [3000000]) as [created Hh];
    [exact Hs|exact Hp|exact Hc| | |lia|].
  - repeat (apply Forall_cons_2; [by repeat (split || eexists)|]). apply Forall_nil_2.
  - vm_compute. repeat constructor; by intros [=].
  - exists created. rewrite Hh. do 3 f_equal. unfold samples, price_as_of, price_after. rewrite Hk. by vm_compute.
Defined.
