(* ===== verification/Maker.v ===== *)
(** * What a maker sees

    [crates/core/src/maker/service.rs] with the values of [primitives/maker.rs],
    [primitives/pool.rs] and [primitives/registry/range.rs]: the check before a strategy is
    shipped, the positions of a maker with what they commit and what the wallet covers, the same
    by token, the roster and the dashboard.

    Balances, metrics and events come from ports and are arguments; figures that are only shown
    are floating point, whose operations are the class [FloatOps], and ranges use the decimal
    library, the class [RangeDecimals]. *)

From Stdlib Require Import Ascii.
From stdpp Require Import strings.
From S2P Require Import Prelude U256 Ratio CurveDecode Curves Registry RegistrySync Routing Assets Quote History.

#[local] Open Scope string_scope.
#[local] Open Scope list_scope.
#[local] Open Scope Z_scope.

Class FloatOps (F : Type) := {
  f_zero : F;
  f_add : F → F → F;
  f_sub : F → F → F;
  f_mul : F → F → F;
  f_div : F → F → F;
  f_of_int : Z → F;
  f_positive : F → bool;
  (** [{:.2}] *)
  f_two_places : F → string
}.

(** The decimal library, where an operation may overflow; [fmt] rounds to 8 places. *)
Class RangeDecimals (D F : Type) := {
  rd_of_int : Z → D;
  rd_from_u128 : Z → option D;
  rd_checked_div : D → D → option D;
  rd_checked_mul : D → D → option D;
  rd_fmt : D → string;
  (** [x as f64 / 1e13] *)
  f_of_scaled : Z → F
}.

(** Reading an amount's text. *)
Class AmountText := { parse_u256 : string → option U256 }.

(** ** Price ranges *)

Section ranges.
Context {D F : Type} `{RangeDecimals D F}.

Inductive RangeKind : Type := FullRange | BoundedRange | PegRange.

Record PositionRange := mk_position_range {
  pr_kind : RangeKind;
  pr_lower : option string;
  pr_upper : option string;
  pr_peg : option string;
  pr_below : option F;
  pr_above : option F
}.

Definition E18 : Z := 10 ^ 18.
Definition U128_MAX : Z := 2 ^ 128 - 1.

Definition range_mul_div (a b c : U256) : option U256 := x ← checked_mul a b; if c =? 0 then None else Some (x / c).

Definition range_pow10 (exp : Z) : option U256 := if 10 ^ exp <=? U128_MAX then Some (10 ^ exp) else None.

Definition u128_of (x : U256) : option Z := if x <=? U128_MAX then Some x else None.

Definition peg_price (p : PeggedParams) (dec_lo dec_hi : Z) (base_is_lo : bool) : option string :=
  ratio ← range_mul_div (pp_y0 p) E18 (pp_x0 p);
  peg ← range_mul_div ratio (pp_rate_lt p) (pp_rate_gt p);
  lo_unit ← range_pow10 dec_lo;
  hi_unit ← range_pow10 dec_hi;
  human ← range_mul_div peg lo_unit hi_unit;
  human ← u128_of human;
  human ← rd_from_u128 human;
  human ← rd_checked_div human (rd_of_int E18);
  oriented ← (if base_is_lo then Some human else rd_checked_div (rd_of_int 1) human);
  Some (rd_fmt oriented).

Definition symmetric_range_pct (a : U256) : option F :=
  let one := 10 ^ 27 in
  twice ← checked_mul a 2;
  denom ← checked_add twice one;
  x ← range_mul_div one one denom;
  scaled ← range_mul_div x (100 * 10 ^ 13) one;
  f_of_scaled <$> u128_of scaled.

(** The price of the lower token in the higher one that a square root encodes. *)
Definition price_hi_per_lo (sqrt : U256) (dec_lo dec_hi : Z) : option D :=
  sqrt ← u128_of sqrt;
  s ← rd_checked_div (rd_of_int sqrt) (rd_of_int E18);
  base_units ← rd_checked_mul s s;
  let diff := dec_lo - dec_hi in
  let factor := 10 ^ Z.abs diff in
  if U64_MAX <? factor then None
  else if 0 <=? diff then rd_checked_mul base_units (rd_of_int factor) else rd_checked_div base_units (rd_of_int factor).

Definition oriented (min max : D) (base_is_lo : bool) : option (D * D) :=
  if base_is_lo then Some (min, max)
  else lower ← rd_checked_div (rd_of_int 1) max; upper ← rd_checked_div (rd_of_int 1) min; Some (lower, upper).

Definition concentrated_range (sqrt_min sqrt_max : U256) (dec_lo dec_hi : Z) (base_is_lo : bool) : PositionRange :=
  let bounds := min ← price_hi_per_lo sqrt_min dec_lo dec_hi; max ← price_hi_per_lo sqrt_max dec_lo dec_hi; oriented min max base_is_lo in
  mk_position_range BoundedRange ((λ b, rd_fmt b.1) <$> bounds) ((λ b, rd_fmt b.2) <$> bounds) None None None.

Definition price_range (curve : Curve) (dec_lo dec_hi : Z) (base_is_lo : bool) : PositionRange :=
  match curve with
  | Xyc => mk_position_range FullRange None None None None None
  | Concentrate sqrt_min sqrt_max => concentrated_range sqrt_min sqrt_max dec_lo dec_hi base_is_lo
  | Pegged p =>
      let band := symmetric_range_pct (pp_linear_width p) in
      mk_position_range PegRange None None (peg_price p dec_lo dec_hi base_is_lo) band band
  end.

Record PriceRange := mk_price_range {
  rg_kind : string;
  rg_lower : option string;
  rg_upper : option string;
  rg_peg : option string;
  rg_below : option F;
  rg_above : option F;
  rg_label : string
}.

Definition wire_range `{FloatOps F} (range : PositionRange) (quote_symbol : string) : PriceRange :=
  let '(kind, label) :=
    match pr_kind range with
    | FullRange => ("full", "Full range")
    | BoundedRange =>
        ("bounded", match pr_lower range, pr_upper range with
                    | Some lo, Some hi => lo +:+ "–" +:+ hi +:+ " " +:+ quote_symbol
                    | _, _ => "Bounded"
                    end)
    | PegRange =>
        ("peg", match pr_peg range, pr_below range with
                | Some peg, Some pct => "±" +:+ f_two_places pct +:+ "% around " +:+ peg +:+ " " +:+ quote_symbol
                | Some peg, None => peg +:+ " " +:+ quote_symbol
                | None, _ => "Pegged"
                end)
    end in
  mk_price_range kind (pr_lower range) (pr_upper range) (pr_peg range) (pr_below range) (pr_above range) label.

End ranges.

(** ** Ports *)

Record Holdings := mk_holdings { hd_balance : U256; hd_pullable : U256 }.

Inductive MakerError : Type :=
| MakerBalances
| MakerMetricsFailed
| MakerEvents (e : StoreError)
| InvalidId (id_type reason : string).

Record TokenVolume := mk_volume { tv_token : Address; tv_base_units : U256 }.

Record MakerActivityBucket := mk_bucket { bk_from : Z; bk_to : Z; bk_fills : Z; bk_latency : option Z }.

Record MakerMetrics := mk_maker_metrics {
  mm_fills : Z;
  mm_activity : list MakerActivityBucket;
  mm_last_fill_at : option Z;
  mm_volume : list TokenVolume;
  mm_inflow : list TokenVolume;
  mm_quotes : Z;
  mm_latency : option Z
}.

Record PositionMetrics (F : Type) := mk_position_metrics {
  pm_fills : Z;
  pm_daily_fills : list Z;
  pm_volume : list TokenVolume;
  pm_last_fill_at : option Z;
  pm_quote_uptime : option F
}.
Arguments mk_position_metrics {F}.
Arguments pm_fills {F}.
Arguments pm_daily_fills {F}.
Arguments pm_volume {F}.
Arguments pm_last_fill_at {F}.
Arguments pm_quote_uptime {F}.

Abbreviation Window := (Z * Z)%type.

(** What the service reads: balances of an owner, metrics over a window, and a strategy's events. *)
Record MakerPorts (F : Type) := mk_maker_ports {
  port_holdings : Address → list Address → result MakerError (gmap Address Holdings);
  port_maker : MakerId → Window → result MakerError MakerMetrics;
  port_position : StrategyHash → TokenPair → Window → result MakerError (PositionMetrics F);
  port_pair_fills : list TokenPair → Window → result MakerError Z;
  port_events : StrategyHash → result StoreError (list EventExt)
}.
Arguments mk_maker_ports {F}.
Arguments port_holdings {F}.
Arguments port_maker {F}.
Arguments port_position {F}.
Arguments port_pair_fills {F}.
Arguments port_events {F}.

(** ** Before shipping *)

Record PreviewResponse := mk_preview { pv_exists : bool; pv_requires_approval : list Address; pv_warnings : list string }.

Definition max_ship_amount : U256 := Z.shiftr U256_MAX 8.

Definition validate_ship_amounts (amounts : list (Address * U256)) : result MakerError unit :=
  match amounts with
  | [(left_token, left_amount); (right_token, right_amount)] =>
      if (left_token =? 0) || (right_token =? 0) then Err (InvalidId "position token" "the zero address is not supported")
      else if left_token =? right_token then Err (InvalidId "position tokens" "token addresses must be distinct")
      else if existsb (λ amount, (amount =? 0) || (max_ship_amount <? amount)) [left_amount; right_amount]
           then Err (InvalidId "position amount" "each amount must be positive and fit in uint248")
           else Ok tt
  | _ => Err (InvalidId "position amounts" "exactly two token amounts are required")
  end.

Section preview.
Context {F : Type} (ports : MakerPorts F) (address_text : Address → string).

(** One amount against the wallet: a warning, an approval to ask for, or nothing. *)
Definition preview_step (holdings : gmap Address Holdings) (acc : list Address * list string) (entry : Address * U256) : list Address * list string :=
  let '(token, amount) := entry in
  let held := holdings !! token in
  let balance := default 0 (hd_balance <$> held) in
  let pullable := default 0 (hd_pullable <$> held) in
  if balance <? amount then (acc.1, acc.2 ++ ["insufficient balance for " +:+ address_text token])
  else if pullable <? amount then (acc.1 ++ [token], acc.2)
  else acc.

Definition preview (snapshot : Snapshot) (maker : Address) (hash : StrategyHash) (amounts : list (Address * U256)) : result MakerError PreviewResponse :=
  _ ← validate_ship_amounts amounts;
  let exists_ := bool_decide (is_Some (strategy_by_hash snapshot hash)) in
  holdings ← port_holdings ports maker amounts.*1;
  let '(requires_approval, warnings) := foldl (preview_step holdings) ([], []) amounts in
  Ok (mk_preview exists_ requires_approval warnings).

End preview.

(** ** Positions *)

Section figures.
Context {F : Type} `{FloatOps F}.

(** Sums of figures, all or nothing. *)
Definition sum_usd (values : list (option F)) : option F := try_fold_opt (λ acc v, x ← v; Some (f_add acc x)) f_zero values.

Definition ratio_of (num den : option F) : option F :=
  match num, den with Some n, Some d => if f_positive d then Some (f_div n d) else None | _, _ => None end.

Definition change_pct (cur prev : option F) : option F :=
  match cur, prev with
  | Some c, Some p => if f_positive p then Some (f_mul (f_div (f_sub c p) p) (f_of_int 100)) else None
  | _, _ => None
  end.

Definition pct_of (a b : Z) : option F := if 0 <? b then Some (f_mul (f_div (f_of_int a) (f_of_int b)) (f_of_int 100)) else None.

Definition annualized_apy (fees liquidity : option F) (days : Z) : option F :=
  match fees, liquidity with
  | Some x, Some l =>
      if f_positive l then Some (f_mul (f_mul (f_div x l) (f_div (f_of_int 365) (f_of_int days))) (f_of_int 100)) else None
  | _, _ => None
  end.

Record Economics := mk_economics { ec_fees : option F; ec_apy : option F; ec_volume : option F }.

(** The fee a volume earned: [v * fee / 10_000]. *)
Definition fee_on (fee_bps : Z) (volume : F) : F := f_div (f_mul volume (f_of_int fee_bps)) (f_of_int 10000).

Definition economics (volume : option F) (fee_bps : Z) (liquidity : option F) (days : Z) : Economics :=
  let fees := fee_on fee_bps <$> volume in
  mk_economics fees (annualized_apy fees liquidity days) volume.

End figures.

Inductive PoolType : Type := StablePool | CorrelatedPool | VolatilePool.

Definition classify_pair (stable_lo stable_hi : bool) (dominant : option CurveKind) : PoolType :=
  match stable_lo, stable_hi, dominant with
  | true, true, _ => StablePool
  | _, _, Some PeggedKind => CorrelatedPool
  | _, _, _ => VolatilePool
  end.

Definition curve_kind (curve : Curve) : CurveKind :=
  match curve with Xyc => XycKind | Concentrate _ _ => ConcentratedKind | Pegged _ => PeggedKind end.

Record PairFee := mk_pair_fee { pf_pair : TokenPair; pf_fee_bps : Z }.

Definition priceable_fee (s : MakerStrategy) : option PairFee :=
  match strat_curve s with
  | Priceable _ fees => p ← pair s; Some (mk_pair_fee p (fee_in_bps fees))
  | _ => None
  end.

Definition is_priceable (s : MakerStrategy) : bool := match strat_curve s with Priceable _ _ => true | _ => false end.

(** [address_text] is the checksummed text of an address, [address_hex] and [hash_text] the plain ones. *)
Section service.
Context {D F : Type} `{DecimalOps D F} `{FloatOps F} `{RangeDecimals D F} `{AmountText}.
Context (catalog : Catalog) (oracle : Address → option D) (address_text address_hex : Address → string) (hash_text : B256 → string) (ports : MakerPorts F).

Record Split := mk_split { spl_token : Token; spl_pct : F }.

Record PositionBalances := mk_position_balances {
  pb_virtual : TokenAmounts (F64 := F);
  pb_actual : TokenAmounts (F64 := F);
  pb_backed : bool;
  pb_shortfall : option string;
  pb_coverage : option F;
  pb_opening : TokenAmounts (F64 := F);
  pb_split : list Split
}.

Record ActiveStats := mk_active_stats {
  as_fills : Z;
  as_daily_fills : list Z;
  as_volume : option F;
  as_uptime : option F;
  as_last_fill_at : option Z
}.

Record Position := mk_position {
  po_hash : string;
  po_pair : string;
  po_base : Token;
  po_quote : Token;
  po_maker : Address;
  po_curve : string;
  po_pair_type : PoolType;
  po_state : string;
  po_fee_bps : Z;
  po_mid_price : option string;
  po_range : PriceRange (F := F);
  po_balances : PositionBalances;
  po_economics : Economics (F := F);
  po_active_stats : option ActiveStats
}.

Definition valued (balances : gmap Address U256) : TokenAmounts :=
  priced_amounts oracle ((λ '(address, amount), (token_or_default catalog address, amount)) <$> entries balances).

(** What the wallet lets be pulled of each committed amount. *)
Definition capped (committed : gmap Address U256) (holdings : gmap Address Holdings) : gmap Address U256 :=
  map_imap (λ address amount, Some (Z.min amount (default 0 (hd_pullable <$> holdings !! address)))) committed.

Definition pullable (s : MakerStrategy) : result MakerError TokenAmounts :=
  holdings ← port_holdings ports (key_maker (strat_key s)) (keys (balances s));
  Ok (valued (capped (balances s) holdings)).

Definition find_amount (amounts : TokenAmounts (F64 := F)) (address : Address) : option (Amount F) :=
  p ← list_find (λ e, token_address (ta_token e) = address) (ta_entries amounts); Some (ta_amount p.2).

(** How far one committed amount is above what is there. *)
Definition deficit (actual : TokenAmounts) (address : Address) (want : U256) : U256 :=
  let have := default 0 (a ← find_amount actual address; parse_u256 (amount_raw a)) in
  saturating_sub want have.

Definition shortfall (committed : gmap Address U256) (actual : TokenAmounts) : option string :=
  let deficits :=
    omap (λ '(address, want),
        let d := deficit actual address want in
        if d =? 0 then None
        else
          let t := token_or_default catalog address in
          Some (amount_display (from_base_units (F64 := F) d (token_decimals t)) +:+ " " +:+ token_symbol t))
      (entries committed) in
  match deficits with [] => None | _ => Some ("short " +:+ String.concat " · " deficits) end.

Definition coverage (actual virtual : TokenAmounts (F64 := F)) : option F := ratio_of (total_usd actual) (total_usd virtual).

Definition split (balances : TokenAmounts) : list Split :=
  let total := default f_zero (total_usd balances) in
  if negb (f_positive total) then []
  else omap (λ e, (λ usd, mk_split (ta_token e) (f_mul (f_div usd total) (f_of_int 100))) <$> amount_usd (ta_amount e)) (ta_entries balances).

(** Add a push of the shipping transaction to the opening balances. *)
Definition open_push (ship_tx : Z) (opening : gmap Address U256) (e : EventExt) : result MakerError (gmap Address U256) :=
  if negb (bool_decide (transaction_hash e = Some ship_tx)) || removed e then Ok opening
  else match ext_event e with
       | Pushed _ _ _ token amount =>
           sum ← ok_or (checked_add (default 0 (opening !! token)) amount) (MakerEvents EventDbError);
           Ok (<[token := sum]> opening)
       | _ => Ok opening
       end.

Definition opening_balances (log : list EventExt) : result MakerError (option (gmap Address U256)) :=
  match (p ← list_find (λ e, is_shipped (ext_event e) = true) log; transaction_hash p.2) with
  | None => Ok None
  | Some ship_tx => opening ← try_fold (open_push ship_tx) ∅ log; Ok (Some opening)
  end.

Definition opening (hash : StrategyHash) : result MakerError TokenAmounts :=
  log ← map_err MakerEvents (port_events ports hash);
  o ← opening_balances log;
  Ok match o with Some balances => valued balances | None => mk_token_amounts [] None end.

Definition usd_of (volume : list TokenVolume) : option F :=
  tvl_usd oracle ((λ v, (token_or_default catalog (tv_token v), tv_base_units v)) <$> volume).

Definition range (curve : Curve) (p : TokenPair) (base_is_lo : bool) (quote : Token) : PriceRange :=
  wire_range (price_range curve (decimals catalog (lo p)) (decimals catalog (hi p)) base_is_lo) (token_symbol quote).

Definition build (s : MakerStrategy) (detail : bool) (w : Window) : result MakerError (option Position) :=
  match strat_curve s, pair s with
  | Priceable curve fees, Some p =>
      let '(base_addr, quote_addr) := base_quote catalog p in
      match token catalog base_addr, token catalog quote_addr with
      | Some base, Some quote =>
          let fee_bps := fee_in_bps fees in
          let range := range curve p (base_addr =? lo p) quote in
          let virtual := valued (balances s) in
          actual ← pullable s;
          let short := shortfall (balances s) actual in
          let cover := coverage actual virtual in
          opening ← opening (key_hash (strat_key s));
          let days := Z.max ((w.2 - w.1) / 86400) 1 mod 2 ^ 32 in
          metrics ← port_position ports (key_hash (strat_key s)) p w;
          let volume := usd_of (pm_volume metrics) in
          let economics := economics volume fee_bps (total_usd virtual) days in
          Ok (Some (mk_position (hash_text (key_hash (strat_key s))) (pair_label catalog address_text p) base quote (key_maker (strat_key s))
            (curve_label curve) (classify_pair (is_stable catalog (lo p)) (is_stable catalog (hi p)) (Some (curve_kind curve)))
            (if active s then "active" else "docked") fee_bps (position_price s curve base quote) range
            (mk_position_balances virtual actual (bool_decide (short = None)) short cover opening (split virtual)) economics
            (if detail then Some (mk_active_stats (pm_fills metrics) (pm_daily_fills metrics) volume (pm_quote_uptime metrics) (pm_last_fill_at metrics))
             else None)))
      | _, _ => Ok None
      end
  | _, _ => Ok None
  end.

(** Positions in order, skipping what has none; the first failure ends it. *)
Fixpoint build_all (strategies : list MakerStrategy) (w : Window) : result MakerError (list Position) :=
  match strategies with
  | [] => Ok []
  | s :: rest => p ← build s false w; ps ← build_all rest w; Ok (match p with Some p => p :: ps | None => ps end)
  end.

Definition position (snapshot : Snapshot) (now : Z) (hash : StrategyHash) : result MakerError (option Position) :=
  match strategy_by_hash snapshot hash with
  | None => Ok None
  | Some s => build s true (window Week now)
  end.

Definition positions_in (snapshot : Snapshot) (maker : MakerId) (w : Window) : result MakerError (list Position) :=
  build_all (strategies_for_maker snapshot maker) w.

Definition positions (snapshot : Snapshot) (now : Z) (maker : MakerId) (period : MakerPeriod) : result MakerError (list Position) :=
  positions_in snapshot maker (window period now).

(** ** Inventory *)

Record InventoryLeg := mk_inventory_leg {
  il_hash : string;
  il_pair : string;
  il_curve : string;
  il_fee_bps : Z;
  il_current : Amount F;
  il_opening : Amount F;
  il_volume : option F;
  il_fees : option F;
  il_apy : option F;
  il_coverage : option F
}.

Record TokenGroup := mk_token_group { tg_token : Token; tg_legs : list InventoryLeg }.

Record InventoryRow := mk_inventory_row {
  ir_token : Token;
  ir_wallet : Amount F;
  ir_shared : Amount F;
  ir_fees : option F;
  ir_apy : option F;
  ir_legs : list InventoryLeg
}.

Definition inventory_leg (p : Position) (e : TokenAmount (F64 := F)) : InventoryLeg :=
  let opening := default (from_base_units 0 (token_decimals (ta_token e))) (find_amount (pb_opening (po_balances p)) (token_address (ta_token e))) in
  mk_inventory_leg (po_hash p) (po_pair p) (po_curve p) (po_fee_bps p) (ta_amount e) opening (ec_volume (po_economics p)) (ec_fees (po_economics p))
    (ec_apy (po_economics p)) (pb_coverage (po_balances p)).

Definition push_leg (groups : gmap Address TokenGroup) (p : Position) (e : TokenAmount (F64 := F)) : gmap Address TokenGroup :=
  let address := token_address (ta_token e) in
  let g := default (mk_token_group (ta_token e) []) (groups !! address) in
  <[address := mk_token_group (tg_token g) (tg_legs g ++ [inventory_leg p e])]> groups.

Definition push_position (groups : gmap Address TokenGroup) (p : Position) : gmap Address TokenGroup :=
  foldl (λ groups e, push_leg groups p e) groups (ta_entries (pb_virtual (po_balances p))).

(** Positions are grouped as they are built; a failure drops what was grouped. *)
Definition group_legs_by_token (snapshot : Snapshot) (maker : MakerId) (w : Window) : result MakerError (gmap Address TokenGroup) :=
  ps ← build_all (strategies_for_maker snapshot maker) w;
  Ok (foldl push_position ∅ ps).

Definition inventory_row (address : Address) (g : TokenGroup) (holdings : gmap Address Holdings) (days : Z) : InventoryRow :=
  let wallet_raw := default 0 (hd_balance <$> holdings !! address) in
  let amount x := valuation_amount oracle x address (token_decimals (tg_token g)) in
  let shared_raw := foldl saturating_add 0 (omap (λ leg, parse_u256 (amount_raw (il_current leg))) (tg_legs g)) in
  let shared := amount shared_raw in
  let fees := sum_usd (il_fees <$> tg_legs g) in
  mk_inventory_row (tg_token g) (amount wallet_raw) shared fees (annualized_apy fees (amount_usd shared) days) (tg_legs g).

Definition inventory (snapshot : Snapshot) (now : Z) (maker : MakerId) (period : MakerPeriod) : result MakerError (list InventoryRow) :=
  groups ← group_legs_by_token snapshot maker (window period now);
  holdings ← port_holdings ports maker (keys groups);
  Ok ((λ '(address, g), inventory_row address g holdings (period_days period)) <$> entries groups).

(** ** The roster *)

Record MakerSummary := mk_summary { su_maker : Address; su_active_positions : Z; su_liquidity : option F }.

Definition group_maker (groups : gmap MakerId (Z * list (Address * U256))) (s : MakerStrategy) : gmap MakerId (Z * list (Address * U256)) :=
  let '(count, committed) := default (0, []) (groups !! key_maker (strat_key s)) in
  <[key_maker (strat_key s) := (count + 1, committed ++ entries (balances s))]> groups.

Definition roster (snapshot : Snapshot) : list MakerSummary :=
  (λ '(maker, (count, committed)),
      mk_summary maker count (tvl_usd oracle ((λ '(address, amount), (token_or_default catalog address, amount)) <$> committed)))
    <$> entries (foldl group_maker ∅ (filter (λ s, is_priceable s = true) (active_strategies snapshot))).

(** ** The dashboard *)

Record MakerKpis := mk_kpis {
  kp_liquidity : option F;
  kp_volume : option F;
  kp_wallet : option F;
  kp_pullable : option F;
  kp_ratio : option F;
  kp_fees : option F;
  kp_liquidity_change : option F;
  kp_volume_change : option F;
  kp_fees_change : option F
}.

Record FillShare := mk_fill_share { fs_filled : Z; fs_pair_fills : Z; fs_share : option F }.

Record MakerDashboard := mk_dashboard {
  md_maker : Address;
  md_window_days : Z;
  md_active_positions : Z;
  md_kpis : MakerKpis;
  md_fill_share : FillShare;
  md_latency : option Z;
  md_previous_latency : option Z;
  md_fills_change : option F;
  md_activity : list MakerActivityBucket;
  md_insight : option string
}.

Definition active_priceable_strategies (snapshot : Snapshot) (maker : MakerId) : list MakerStrategy :=
  filter (λ s, active s && is_priceable s = true) (strategies_for_maker snapshot maker).

(** The window of the same length before this one. *)
Definition previous_window (w : Window) : Window := (u64_saturating_sub w.1 (w.2 - w.1), w.1).

Fixpoint period_fees_of (strategies : list MakerStrategy) (w : Window) : result MakerError (list (option F)) :=
  match strategies with
  | [] => Ok []
  | s :: rest =>
      match priceable_fee s with
      | None => period_fees_of rest w
      | Some fee =>
          metrics ← port_position ports (key_hash (strat_key s)) (pf_pair fee) w;
          fees ← period_fees_of rest w;
          Ok ((fee_on (pf_fee_bps fee) <$> usd_of (pm_volume metrics)) :: fees)
      end
  end.

Definition period_fees (strategies : list MakerStrategy) (w : Window) : result MakerError (option F) :=
  fees ← period_fees_of strategies w; Ok (sum_usd fees).

Definition fill_share (strategies : list MakerStrategy) (filled : Z) (w : Window) : result MakerError FillShare :=
  pair_fills ← port_pair_fills ports (set_iter (list_to_set (omap pair strategies) : gset TokenPair)) w;
  Ok (mk_fill_share filled pair_fills (pct_of filled pair_fills)).

(** The distinct tokens a set of strategies commits. *)
Definition strategy_tokens (strategies : list MakerStrategy) : list Address :=
  set_iter (list_to_set (strategies ≫= λ s, keys (balances s)) : gset Address).

Definition wallet_usd (maker : Address) (tokens : list Address) : result MakerError (option F) :=
  holdings ← port_holdings ports maker tokens;
  Ok (tvl_usd oracle ((λ '(address, h), (token_or_default catalog address, hd_balance h)) <$> entries holdings)).

Record Undercut := mk_undercut { uc_gap : Z; uc_pair : TokenPair; uc_competitor : Address; uc_their_fee : Z; uc_my_fee : Z }.

(** Keep the larger gap, the earlier of two equal ones. *)
Definition undercut_step (maker : MakerId) (mine : PairFee) (best : option Undercut) (other : MakerStrategy) : option Undercut :=
  if key_maker (strat_key other) =? maker then best
  else match priceable_fee other with
       | None => best
       | Some theirs =>
           if negb (bool_decide (pf_pair theirs = pf_pair mine)) then best
           else
             let gap := Z.max (pf_fee_bps mine - pf_fee_bps theirs) 0 in
             if (0 <? gap) && match best with Some b => uc_gap b <? gap | None => true end
             then Some (mk_undercut gap (pf_pair mine) (key_maker (strat_key other)) (pf_fee_bps theirs) (pf_fee_bps mine)) else best
       end.

Definition best_undercut (snapshot : Snapshot) (maker : MakerId) (strategies : list MakerStrategy) : option Undercut :=
  foldl (λ best mine, foldl (undercut_step maker mine) best (active_strategies snapshot)) None (omap priceable_fee strategies).

Definition short_addr (address : Address) : string :=
  let hex := address_hex address in String.substring 0 6 hex +:+ "…" +:+ String.substring (String.length hex - 4) 4 hex.

Definition undercut_insight (snapshot : Snapshot) (maker : MakerId) (strategies : list MakerStrategy) : option string :=
  (λ u, short_addr (uc_competitor u) +:+ " quotes " +:+ pair_label catalog address_text (uc_pair u) +:+ " at " +:+ to_string (uc_their_fee u)
        +:+ " bps vs your " +:+ to_string (uc_my_fee u) +:+ " bps") <$> best_undercut snapshot maker strategies.

Definition dashboard (snapshot : Snapshot) (now : Z) (maker : MakerId) (period : MakerPeriod) : result MakerError MakerDashboard :=
  let w := window period now in
  ps ← positions_in snapshot maker w;
  let shared := sum_usd ((λ p, total_usd (pb_virtual (po_balances p))) <$> ps) in
  let pulled := sum_usd ((λ p, total_usd (pb_actual (po_balances p))) <$> ps) in
  let strategies := active_priceable_strategies snapshot maker in
  wallet ← wallet_usd maker (strategy_tokens strategies);
  let historical := filter (λ s, key_maker (strat_key s) = maker) (values (Registry.strategies snapshot)) in
  current ← port_maker ports maker w;
  previous ← port_maker ports maker (previous_window w);
  let volume := usd_of (mm_volume current) in
  fees ← period_fees historical w;
  previous_fees ← period_fees historical (previous_window w);
  share ← fill_share historical (mm_fills current) w;
  Ok (mk_dashboard maker (period_days period) (Z.of_nat (length ps))
        (mk_kpis shared volume wallet pulled (ratio_of pulled shared) fees None (change_pct volume (usd_of (mm_volume previous))) (change_pct fees previous_fees))
        share (mm_latency current) (mm_latency previous)
        (change_pct (Some (f_of_int (mm_fills current))) (Some (f_of_int (mm_fills previous)))) (mm_activity current)
        (undercut_insight snapshot maker strategies)).

End service.

(** * What a maker is shown is what the chain and the registry hold

    A position is shown as backed exactly when the wallet covers every amount it commits, and the
    inventory accounts for every commitment of the positions shown, once per token. *)

Section properties.
Context {D F : Type} `{DecimalOps D F} `{FloatOps F} `{RangeDecimals D F} `{AmountText}.
Context (catalog : Catalog) (oracle : Address → option D) (address_text : Address → string) (hash_text : B256 → string) (ports : MakerPorts F).

(** The text of an amount reads back as the amount. *)
Hypothesis amounts_read : ∀ x, is_u256 x → parse_u256 (to_string x) = Some x.

(** A catalog lists each token under its address. *)
Hypothesis catalog_keyed : ∀ address meta, catalog !! address = Some meta → meta_address meta = address.

Lemma token_or_default_address address : token_address (token_or_default catalog address) = address.
Proof.
  unfold token_or_default, token. destruct (catalog !! address) as [meta|] eqn:E; [|done]. cbn. by apply catalog_keyed.
Qed.

(** ** Amounts by token *)

Lemma valued_entries m :
  ta_entries (valued (F := F) catalog oracle m)
  = (λ '(address, x), mk_token_amount (token_or_default catalog address) (valuation_amount oracle x address (token_decimals (token_or_default catalog address)))) <$> entries m.
Proof.
  unfold valued, priced_amounts. cbn [ta_entries]. rewrite <-list_fmap_compose. apply list_fmap_ext. intros i [address x] _. cbn.
  by rewrite token_or_default_address.
Qed.

Lemma find_valued m address :
  find_amount (valued (F := F) catalog oracle m) address
  = (λ x, valuation_amount oracle x address (token_decimals (token_or_default catalog address))) <$> m !! address.
Proof.
  unfold find_amount. rewrite valued_entries. destruct (list_find _ _) as [[i e]|] eqn:Hf.
  - apply list_find_Some in Hf as (Hi & He & _). apply list_lookup_fmap_Some in Hi as ([a x] & -> & Hi). cbn in He. rewrite token_or_default_address in He.
    subst a. apply list_elem_of_lookup_2, elem_of_entries in Hi. by rewrite Hi.
  - apply list_find_None in Hf. destruct (m !! address) as [x|] eqn:Hm; [|done]. apply elem_of_entries in Hm. exfalso.
    rewrite Forall_fmap, Forall_forall in Hf. apply (Hf _ Hm). cbn. apply token_or_default_address.
Qed.

(** ** Backing *)

(** The wallet covers what is committed. *)
Definition covers (committed : gmap Address U256) (holdings : gmap Address Holdings) : Prop :=
  ∀ address amount, committed !! address = Some amount → amount ≤ default 0 (hd_pullable <$> holdings !! address).

Lemma deficit_capped committed holdings address want :
  committed !! address = Some want → is_u256 want → (∀ a h, holdings !! a = Some h → is_u256 (hd_pullable h)) →
  deficit (valued (F := F) catalog oracle (capped committed holdings)) address want = Z.max (want - default 0 (hd_pullable <$> holdings !! address)) 0.
Proof.
  intros Hc Hw Hh. unfold deficit. rewrite find_valued. unfold capped. rewrite map_lookup_imap, Hc. cbn [fmap option_fmap option_map mbind option_bind amount_raw valuation_amount from_base_units].
  assert (Hp : is_u256 (default 0 (hd_pullable <$> holdings !! address))).
  { destruct (holdings !! address) as [h|] eqn:E; cbn; [by eapply Hh|]. unfold is_u256. u256. }
  rewrite amounts_read by (unfold is_u256 in *; lia). cbn. unfold saturating_sub, is_u256 in *. lia.
Qed.

Lemma shortfall_None committed holdings :
  map_Forall (λ _ x, is_u256 x) committed → (∀ a h, holdings !! a = Some h → is_u256 (hd_pullable h)) →
  shortfall (F := F) catalog committed (valued (F := F) catalog oracle (capped committed holdings)) = None ↔ covers committed holdings.
Proof.
  intros Hc Hh. unfold shortfall. set (f := λ '(address, want), _).
  assert (Hnil : omap f (entries committed) = [] ↔ ∀ p, p ∈ entries committed → f p = None).
  { generalize (entries committed). intros l. induction l as [|x l IH]; [by split; [intros _ p ?%elem_of_nil|]|]. cbn. destruct (f x) eqn:E.
    - split; [done|]. intros Hall. by rewrite Hall in E by apply list_elem_of_here.
    - change (match f x with Some y => y :: omap f l | None => omap f l end) with (omap f (x :: l)). rewrite IH. split.
      + intros Hall p [->|Hp]%elem_of_cons; auto.
      + intros Hall p Hp. apply Hall. by apply list_elem_of_further. }
  transitivity (omap f (entries committed) = []); [by destruct (omap f (entries committed))|]. rewrite Hnil. unfold covers, f. split.
  - intros Hall address amount Ha. specialize (Hall (address, amount) (proj2 (elem_of_entries _ _ _) Ha)). cbn in Hall.
    rewrite (deficit_capped committed holdings address amount Ha (Hc _ _ Ha) Hh) in Hall. case_match eqn:E; [|done]. zbool. lia.
  - intros Hall [address amount] Hp%elem_of_entries. cbn. rewrite (deficit_capped committed holdings address amount Hp (Hc _ _ Hp) Hh).
    specialize (Hall _ _ Hp). by rewrite (proj2 (Z.eqb_eq _ _)) by lia.
Qed.

(** ** Positions *)

(** A strategy a position is made of. *)
Definition is_shown (s : MakerStrategy) : bool :=
  match strat_curve s, pair s with
  | Priceable _ _, Some p => let '(b, q) := base_quote catalog p in bool_decide (is_Some (token catalog b) ∧ is_Some (token catalog q))
  | _, _ => false
  end.

(** What a position says of the strategy behind it. *)
Record shows (s : MakerStrategy) (p : Position (F := F)) : Prop := {
  shows_virtual : pb_virtual (po_balances p) = valued catalog oracle (balances s);
  shows_backed : ∃ holdings, port_holdings ports (key_maker (strat_key s)) (keys (balances s)) = Ok holdings
    ∧ (pb_backed (po_balances p) = true ↔ shortfall (F := F) catalog (balances s) (valued (F := F) catalog oracle (capped (balances s) holdings)) = None)
}.

Lemma build_Ok s detail w p :
  build catalog oracle address_text hash_text ports s detail w = Ok p →
  match p with Some p => is_shown s = true ∧ shows s p | None => is_shown s = false end.
Proof.
  unfold build, is_shown. destruct (strat_curve s) as [curve fees|]; [|by intros [= <-]]. destruct (pair s) as [pr|]; [|by intros [= <-]].
  destruct (base_quote catalog pr) as [b q]. destruct (token catalog b) as [base|]; [|by intros [= <-]; rewrite bool_decide_eq_false_2 by (intros [[] ?]; done)].
  destruct (token catalog q) as [quote|]; [|by intros [= <-]; rewrite bool_decide_eq_false_2 by (intros [? []]; done)].
  intros Hb. apply bind_Ok in Hb as (actual & Hp & Hb). apply bind_Ok in Hb as (o & Ho & Hb). apply bind_Ok in Hb as (metrics & Hm & Hb).
  injection Hb as <-. split; [by apply bool_decide_eq_true_2|]. unfold pullable in Hp. apply bind_Ok in Hp as (holdings & Hh & [= <-]).
  split; [done|]. exists holdings. split; [done|]. cbn. by rewrite bool_decide_eq_true.
Qed.

Lemma build_all_Ok ss w ps :
  build_all catalog oracle address_text hash_text ports ss w = Ok ps → Forall2 shows (filter (λ s, is_shown s = true) ss) ps.
Proof.
  revert ps. induction ss as [|s ss IH]; intros ps; cbn [build_all]; [by intros [= <-]; constructor|]. intros Hb.
  apply bind_Ok in Hb as (p & Hp & Hb). apply bind_Ok in Hb as (ps' & Hps & [= <-]). apply build_Ok in Hp. rewrite filter_cons.
  destruct p as [p|]; [destruct Hp as [Hs Hp]; rewrite decide_True by done; constructor; auto|]. rewrite decide_False by congruence. auto.
Qed.

(** ** Inventory *)

(** The amounts a group lists, as they read. *)
Definition currents (g : TokenGroup (F := F)) : list U256 := omap (λ leg, parse_u256 (amount_raw (il_current leg))) (tg_legs g).

Definition amounts_at (groups : gmap Address (TokenGroup (F := F))) (a : Address) : list U256 := default [] (currents <$> groups !! a).

(** Each group is of the token it is filed under. *)
Definition filed_groups (groups : gmap Address (TokenGroup (F := F))) : Prop := ∀ a g, groups !! a = Some g → tg_token g = token_or_default catalog a.

Lemma push_leg_at groups p a x b :
  is_u256 x →
  let groups' := push_leg groups p (mk_token_amount (token_or_default catalog a) (valuation_amount oracle x a (token_decimals (token_or_default catalog a)))) in
  (filed_groups groups → filed_groups groups')
  ∧ amounts_at groups' b = amounts_at groups b ++ (if decide (b = a) then [x] else [])
  ∧ (is_Some (groups' !! b) ↔ b = a ∨ is_Some (groups !! b)).
Proof.
  intros Hx. unfold push_leg, amounts_at, filed_groups. cbn [ta_token]. rewrite token_or_default_address. split_and!.
  - intros Hf c g. rewrite lookup_insert_Some. intros [[<- <-]|[_ Hg]]; [|by apply Hf]. cbn. destruct (groups !! a) as [g|] eqn:E; [|done]. by apply Hf in E.
  - destruct (decide (b = a)) as [->|Hne]; [rewrite lookup_insert_eq|rewrite lookup_insert_ne by done; by rewrite app_nil_r].
    cbn -[inventory_leg]. unfold currents. cbn [tg_legs]. rewrite omap_app. f_equal; [by destruct (groups !! a)|].
    cbn -[inventory_leg]. change (amount_raw (il_current (inventory_leg p _))) with (to_string x). by rewrite amounts_read.
  - destruct (decide (b = a)) as [->|]; [rewrite lookup_insert_eq; split; [by left|by eexists]|]. rewrite lookup_insert_ne by done. tauto.
Qed.

(** One position adds each amount its strategy commits. *)
Lemma push_position_at groups s p b :
  shows s p → map_Forall (λ _ x, is_u256 x) (balances s) →
  (filed_groups groups → filed_groups (push_position groups p))
  ∧ amounts_at (push_position groups p) b = amounts_at groups b ++ option_list (balances s !! b)
  ∧ (is_Some (push_position groups p !! b) ↔ is_Some (balances s !! b) ∨ is_Some (groups !! b)).
Proof.
  intros [Hv _] Hb. unfold push_position. rewrite Hv, valued_entries.
  assert (Hlist : ∀ l, NoDup l.*1 → (∀ a x, (a, x) ∈ l → is_u256 x) → ∀ groups,
    let groups' := foldl (λ groups e, push_leg groups p e) groups
      ((λ '(address, x), mk_token_amount (token_or_default catalog address) (valuation_amount oracle x address (token_decimals (token_or_default catalog address)))) <$> l) in
    (filed_groups groups → filed_groups groups') ∧ amounts_at groups' b = amounts_at groups b ++ option_list ((list_to_map l : gmap Address U256) !! b)
    ∧ (is_Some (groups' !! b) ↔ is_Some ((list_to_map l : gmap Address U256) !! b) ∨ is_Some (groups !! b))).
  { intros l. induction l as [|[a x] l IH]; intros Hnd Hl gs; cbn [foldl fmap list_fmap fst].
    { cbn. rewrite lookup_empty, app_nil_r. split_and!; [done|done|]. split; [by right|by intros [[? [=]]|?]]. }
    apply NoDup_cons in Hnd as [Ha Hnd]. destruct (push_leg_at gs p a x b) as (Hf & Hat & Hdom); [by eapply Hl, list_elem_of_here|].
    destruct (IH Hnd (λ c y Hc, Hl c y (list_elem_of_further _ _ _ Hc)) (push_leg gs p (mk_token_amount (token_or_default catalog a) (valuation_amount oracle x a (token_decimals (token_or_default catalog a)))))) as (Hf' & Hat' & Hdom').
    cbn [list_to_map]. split_and!; [auto| |].
    - rewrite Hat', Hat, <-app_assoc. f_equal. cbn. destruct (decide (b = a)) as [->|].
      + rewrite lookup_insert_eq. by rewrite (proj1 (not_elem_of_list_to_map l a)).
      + by rewrite lookup_insert_ne.
    - rewrite Hdom', Hdom. cbn. destruct (decide (b = a)) as [->|].
      + rewrite lookup_insert_eq. split; [left; by eexists|tauto].
      + rewrite lookup_insert_ne by done. tauto. }
  specialize (Hlist (entries (balances s)) (NoDup_keys _)). rewrite list_to_map_entries in Hlist. apply Hlist. intros a x Hx%elem_of_entries. by eapply Hb.
Qed.

Lemma push_positions_at ss ps groups b :
  Forall2 shows ss ps → Forall (λ s, map_Forall (λ _ x, is_u256 x) (balances s)) ss → filed_groups groups →
  filed_groups (foldl push_position groups ps)
  ∧ amounts_at (foldl push_position groups ps) b = amounts_at groups b ++ omap (λ s, balances s !! b) ss
  ∧ (is_Some (foldl push_position groups ps !! b) ↔ b ∈ (ss ≫= λ s, keys (balances s)) ∨ is_Some (groups !! b)).
Proof.
  intros Hs. revert groups. induction Hs as [|s p ss ps Hsp Hs IH]; intros groups Hu Hf; cbn [foldl].
  { cbn. rewrite app_nil_r. split_and!; [done|done|]. set_solver. }
  apply Forall_cons in Hu as [Hu Hus]. destruct (push_position_at groups s p b Hsp Hu) as (Hf1 & Hat & Hdom).
  destruct (IH (push_position groups p) Hus (Hf1 Hf)) as (Hf2 & Hat2 & Hdom2). split_and!; [done| |].
  - rewrite Hat2, Hat, <-app_assoc. f_equal. cbn. by destruct (balances s !! b).
  - rewrite Hdom2, Hdom. cbn. rewrite elem_of_app, elem_of_keys. tauto.
Qed.

Lemma committed_total a ss : zsum id (omap (λ s, balances s !! a) ss) = zsum (λ s, balance s a) ss.
Proof.
  induction ss as [|s ss IH]; [done|]. cbn [omap list_omap]. change (zsum _ (s :: ss)) with (balance s a + zsum (λ s, balance s a) ss). rewrite <-IH.
  unfold balance. by destruct (balances s !! a).
Qed.

(** ** The views *)

Context (abi_decode : list Z → option Order) (es : list AquaEvent).
Hypothesis events_ok : Forall event_ok es.
Let snapshot := fold_events abi_decode snapshot_default es.

(** The strategies a maker is shown. *)
Definition shown (maker : MakerId) : list MakerStrategy := filter (λ s, is_shown s = true) (strategies_for_maker snapshot maker).

Lemma shown_ok maker : Forall (λ s, key_maker (strat_key s) = maker ∧ map_Forall (λ _ x, is_u256 x) (balances s)) (shown maker).
Proof.
  apply Forall_forall. intros s Hs. apply list_elem_of_filter in Hs as [_ Hs]. apply list_elem_of_filter in Hs as [Hm Hs]. split; [done|].
  apply list_elem_of_filter in Hs as [_ Hs]. apply elem_of_values in Hs as [k Hk]. intros a x Hx.
  eapply (sn_balances snapshot); [|exact Hk|exact Hx]. apply fold_ok; [apply default_snapshot_ok|exact events_ok].
Qed.

(** A maker's positions are those of its active strategies that can be priced and shown, and each is
    reported as backed exactly when the wallet lets every committed amount be pulled in full. *)
Theorem backed_positions_are_covered now maker period ps :
  (∀ owner tokens holdings, port_holdings ports owner tokens = Ok holdings → ∀ a h, holdings !! a = Some h → is_u256 (hd_pullable h)) →
  positions catalog oracle address_text hash_text ports snapshot now maker period = Ok ps →
  Forall2 (λ s p, ∃ holdings, port_holdings ports maker (keys (balances s)) = Ok holdings
    ∧ (pb_backed (po_balances p) = true ↔ covers (balances s) holdings)) (shown maker) ps.
Proof.
  intros Hh Hps. unfold positions, positions_in in Hps. apply build_all_Ok in Hps. pose proof (shown_ok maker) as Hs. fold (shown maker) in Hps.
  induction Hps as [|s p ss ps Hsp _ IH]; [constructor|]. apply Forall_cons in Hs as [[Hm Hb] Hs]. constructor; [|auto].
  destruct Hsp as [_ (holdings & Hp & Hback)]. rewrite Hm in Hp. exists holdings. split; [done|]. rewrite Hback. apply shortfall_None; [done|]. by eapply Hh.
Qed.

(** C36: the inventory accounts for every commitment once: it has one row for each token the positions
    shown commit, in address order, and each row's shared balance is the total committed over those
    positions, up to the largest word. *)
Theorem inventory_accounts_every_commitment now maker period rows :
  inventory catalog oracle address_text hash_text ports snapshot now maker period = Ok rows →
  (λ r, (token_address (ir_token r), amount_raw (ir_shared r))) <$> rows
  = (λ a, (a, to_string (Z.min (zsum (λ s, balance s a) (shown maker)) U256_MAX))) <$> strategy_tokens (shown maker).
Proof.
  unfold inventory, group_legs_by_token. intros Hrows. apply bind_Ok in Hrows as (groups & Hg & Hrows). apply bind_Ok in Hg as (ps & Hps & [= <-]).
  apply bind_Ok in Hrows as (holdings & _ & [= <-]). apply build_all_Ok in Hps. fold (shown maker) in Hps.
  assert (Hu : Forall (λ s, map_Forall (λ _ x, is_u256 x) (balances s)) (shown maker)) by (eapply Forall_impl; [apply shown_ok|]; by intros s []).
  set (groups := foldl push_position ∅ ps).
  assert (Hall : ∀ b, filed_groups groups ∧ amounts_at groups b = omap (λ s, balances s !! b) (shown maker)
    ∧ (is_Some (groups !! b) ↔ b ∈ (shown maker ≫= λ s, keys (balances s)))).
  { intros b. destruct (push_positions_at (shown maker) ps ∅ b Hps Hu) as (Hf & Hat & Hd); [by intros ? ?; rewrite lookup_empty|].
    split_and!; [done|exact Hat|]. unfold groups. rewrite Hd, lookup_empty. split; [by intros [?|[? [=]]]|by left]. }
  transitivity ((λ a, (a, to_string (Z.min (zsum (λ s, balance s a) (shown maker)) U256_MAX))) <$> keys groups).
  2:{ f_equal. rewrite keys_dom. unfold strategy_tokens. f_equal. apply set_eq. intros b. rewrite elem_of_dom, elem_of_list_to_set. apply Hall. }
  unfold keys. rewrite <-!list_fmap_compose. apply list_fmap_ext. intros i [a g] Hi. apply list_elem_of_lookup_2, elem_of_entries in Hi.
  destruct (Hall a) as (Hf & Hat & _). unfold inventory_row, compose. cbn [ir_token ir_shared amount_raw valuation_amount from_base_units fst].
  rewrite (Hf _ _ Hi), token_or_default_address. do 2 f_equal.
  assert (Hg : currents g = omap (λ s, balances s !! a) (shown maker)) by (rewrite <-Hat; unfold amounts_at; by rewrite Hi).
  change (omap _ (tg_legs g)) with (currents g). rewrite Hg, <-committed_total. clear -Hu. change (foldl saturating_add) with (foldl (λ acc x, saturating_add acc (id x))).
  rewrite (foldl_saturating_add id _ 0); [done|unfold is_u256; u256|].
  intros x Hx. apply list_elem_of_omap in Hx as (s & Hs & Hx). rewrite Forall_forall in Hu. specialize (Hu s Hs a x Hx). unfold is_u256, id in *. lia.
Qed.

End properties.

(** ** A maker with one position *)

#[local] Instance whole_float : FloatOps Z := {|
  f_zero := 0; f_add := Z.add; f_sub := Z.sub; f_mul := Z.mul; f_div := Z.div; f_of_int := id; f_positive x := 0 <? x; f_two_places := to_string
|}.

#[local] Instance whole_decimals : RangeDecimals Z Z := {|
  rd_of_int := id; rd_from_u128 := Some; rd_checked_div a b := if b =? 0 then None else Some (a / b); rd_checked_mul a b := Some (a * b);
  rd_fmt := to_string; f_of_scaled := id
|}.

#[local] Instance digit_text : AmountText := {| parse_u256 s := dval <$> mapM char_digit (String.list_ascii_of_string s) |}.

#[local] Existing Instance whole_dollars.

Lemma digits_read x : is_u256 x → parse_u256 (to_string x) = Some x.
Proof.
  intros [Hx _]. destruct (digits_spec x Hx) as (Hv & Hd & _). cbn [parse_u256 digit_text]. unfold to_string, text.
  rewrite String.list_ascii_of_string_of_list_ascii, read_digits by done. cbn [fmap option_fmap option_map]. by rewrite Hv.
Qed.

Definition two_tokens : Catalog := list_to_map [(3, mk_meta 1 3 "ABC" "ABC" 6 None []); (5, mk_meta 1 5 "USDC" "USDC" 6 None ["stables"%string])].

Lemma two_tokens_keyed address meta : two_tokens !! address = Some meta → meta_address meta = address.
Proof. unfold two_tokens. cbn. rewrite !lookup_insert_Some, lookup_empty. naive_solver. Qed.

(** A wallet that covers the second token in full and the first in part. *)
Definition wallet (first : U256) : gmap Address Holdings := list_to_map [(3, mk_holdings first first); (5, mk_holdings 2000000 2000000)].

Definition demo_ports (first : U256) : MakerPorts Z :=
  mk_maker_ports (λ _ _, Ok (wallet first)) (λ _ _, Ok (mk_maker_metrics 0 [] None [] [] 0 None)) (λ _ _ _, Ok (mk_position_metrics 0 [] [] None None)) (λ _ _, Ok 0) (λ _, Ok []).

Lemma wallet_words first owner tokens holdings :
  is_u256 first → port_holdings (demo_ports first) owner tokens = Ok holdings → ∀ a h, holdings !! a = Some h → is_u256 (hd_pullable h).
Proof.
  intros Hf [= <-] a h. unfold wallet. cbn. rewrite !lookup_insert_Some, lookup_empty. intros [[_ <-]|[_ [[_ <-]|[_ [=]]]]]; cbn; [done|]. by apply (bool_decide_eq_true_1 (is_u256 2000000)).
Qed.

Definition demo_positions (first : U256) : result MakerError (list (Position (F := Z))) :=
  positions two_tokens (λ _, Some 1) to_string to_string (demo_ports first) (fold_events demo_byte_decode snapshot_default demo_events) 1000000 1 Week.

Lemma backed_positions_are_covered_witness :
  ∃ ps, demo_positions 1500 = Ok ps ∧ (λ p, pb_backed (po_balances p)) <$> ps = [false]
    ∧ Forall2 (λ s p, ∃ holdings, port_holdings (demo_ports 1500) 1 (keys (balances s)) = Ok holdings ∧ (pb_backed (po_balances p) = true ↔ covers (balances s) holdings))
        (shown two_tokens demo_byte_decode demo_events 1) ps.
Proof.
  eexists. assert (Hps : demo_positions 1500 = Ok _) by (vm_compute; reflexivity). split; [exact Hps|]. split; [reflexivity|].
  apply (backed_positions_are_covered two_tokens (λ _, Some 1) to_string to_string (demo_ports 1500) digits_read two_tokens_keyed
    demo_byte_decode demo_events demo_events_ok 1000000 1 Week); [|exact Hps].
  intros owner tokens holdings. apply wallet_words. by apply (bool_decide_eq_true_1 (is_u256 1500)).
Defined.

Lemma inventory_accounts_every_commitment_witness :
  ∃ rows, inventory two_tokens (λ _, Some 1) to_string to_string (demo_ports 1500) (fold_events demo_byte_decode snapshot_default demo_events) 1000000 1 Week = Ok rows
    ∧ (λ r, (token_address (ir_token r), amount_raw (ir_shared r))) <$> rows = [(3, "1001000"); (5, "999100")].
Proof.
  eexists. assert (Hrows : inventory two_tokens (λ _, Some 1) to_string to_string (demo_ports 1500) (fold_events demo_byte_decode snapshot_default demo_events) 1000000 1 Week = Ok _)
    by (vm_compute; reflexivity). split; [exact Hrows|].
  rewrite (inventory_accounts_every_commitment two_tokens (λ _, Some 1) to_string to_string (demo_ports 1500) digits_read two_tokens_keyed
    demo_byte_decode demo_events demo_events_ok 1000000 1 Week _ Hrows). by vm_compute.
Defined.
