(* ===== verification/RebatePolicy.v ===== *)
(** * The rebate policy

    [crates/core/src/rebate/policy.rs] and the values of [primitives/rebate.rs]: when
    a strategy's price has drifted from the market, decide whether it keeps quoting, is
    withheld from routing, or funds a restoration whose surplus is shared with its
    maker. *)

From Stdlib Require Import String.
From Stdlib Require Import Lqa String.
From S2P Require Import Prelude U256 Reservation Ratio CurveDecode Curves CurveProperties Registry Candidates Waterfill WaterfillProperties Routing.

#[local] Open Scope Z_scope.

Record RebateAccrual := mk_accrual {
  acc_trade : TradeId;
  acc_strategy : StrategyKey;
  acc_token_in : Address;
  acc_token_out : Address;
  acc_in : U256;
  acc_out : U256;
  confirmed_block : Z;
  allocation_weight : U256
}.

(** Executable prices of both sides of a pair, as output per input. *)
Record RebateMarket := mk_market {
  token_a : Address;
  token_b : Address;
  a_to_b : Ratio;
  b_to_a : Ratio
}.

Definition rate (m : RebateMarket) (token_in token_out : Address) : option Ratio :=
  if (token_in =? token_a m) && (token_out =? token_b m) then Some (a_to_b m)
  else if (token_in =? token_b m) && (token_out =? token_a m) then Some (b_to_a m)
  else None.

Record RebateRequirements := mk_requirements {
  rq_token : Address;
  rq_gas_cost : U256;
  minimum_maker_rebate : U256;
  minimum_executor_profit : U256
}.

Record RebateAllocation := mk_allocation { al_trade : TradeId; al_amount : U256 }.

Record RebatePlan := mk_rebate_plan {
  rp_batch : RebateBatchId;
  rp_strategy : StrategyKey;
  rp_token_in : Address;
  rp_token_out : Address;
  rp_in : U256;
  rp_out : U256;
  gross_surplus : U256;
  safe_gas_cost : U256;
  maker_rebate : U256;
  executor_profit : U256;
  rp_deviation_bps : Z;
  allocations : list RebateAllocation
}.

Inductive RebateAssessment : Type :=
| Quoteable (deviation_bps : Z)
| Guarded (deviation_bps : Z)
| Ready (plan : RebatePlan).

Inductive RebateError : Type :=
| InvalidAccrual (reason : string)
| StrategyMismatch (hash : StrategyHash)
| InvalidExecution (reason : string)
| MarketPairMismatch
| MissingRequirements (token : Address)
| Arithmetic
| RebateCurve (e : CurveError).

Abbreviation rebate_result := (result RebateError).

Definition BASIS_POINTS : Z := 10000.
Definition EXECUTOR_SHARE_BPS : Z := 500.

Record RebatePolicyConfig := mk_policy_config { deviation_threshold_bps : Z; gas_safety_bps : Z }.

Definition RebatePolicyConfig_new (threshold safety : Z) : RebatePolicyConfig :=
  mk_policy_config threshold (Z.max safety BASIS_POINTS).

(** ** Sharing the surplus *)

Definition scale_bps (amount : U256) (bps : Z) (round_up : bool) : rebate_result U256 :=
  ratio ← ok_or (Ratio_new bps BASIS_POINTS) Arithmetic;
  let scaled := ratio_mul (ratio_from amount) ratio in
  ok_or (if round_up then ceil scaled else floor scaled) Arithmetic.

Definition weighted_share (rebate weight total : U256) : rebate_result U256 :=
  share ← ok_or (Ratio_new weight total) Arithmetic;
  ok_or (floor (ratio_mul (ratio_from rebate) share)) Arithmetic.

(** The shares in accrual order; the last trade takes what rounding left. *)
Fixpoint allocate_loop (rebate total allocated : U256) (accruals : list RebateAccrual) :
    rebate_result (list RebateAllocation) :=
  match accruals with
  | [] => Ok []
  | accrual :: rest =>
      amount ← match rest with
               | [] => ok_or (checked_sub rebate allocated) Arithmetic
               | _ :: _ => weighted_share rebate (allocation_weight accrual) total
               end;
      allocated' ← ok_or (checked_add allocated amount) Arithmetic;
      shares ← allocate_loop rebate total allocated' rest;
      Ok (mk_allocation (acc_trade accrual) amount :: shares)
  end.

Definition allocate (rebate : U256) (accruals : list RebateAccrual) : rebate_result (list RebateAllocation) :=
  total ← try_fold (λ total accrual, ok_or (checked_add total (allocation_weight accrual)) Arithmetic) 0 accruals;
  if total =? 0 then Err (InvalidAccrual "allocation weight is zero")
  else allocate_loop rebate total 0 accruals.

(** ** The displaced direction *)

Record Direction := mk_direction {
  dir_candidate : Candidate;
  price_limit : Ratio;
  output_value_rate : Ratio;
  dir_deviation_bps : Z
}.

(** One direction's entry into the running best. *)
Definition consider_direction (strategy : MakerStrategy) (caps : AvailableSnapshot) (market : RebateMarket)
    (best : option Direction) (dir : Address * Address) : rebate_result (option Direction) :=
  let '(token_in, token_out) := dir in
  value ← ok_or (rate market token_out token_in) MarketPairMismatch;
  limit ← ok_or (invert value) MarketPairMismatch;
  match build_pricing_candidate strategy caps token_in token_out with
  | None => Ok best
  | Some candidate =>
      marginal ← map_err RebateCurve (cand_marginal_price candidate);
      if ratio_le marginal limit then Ok best
      else
        let direction := mk_direction candidate limit value (rel_diff_bps marginal limit) in
        match best with
        | None => Ok (Some direction)
        | Some current => if dir_deviation_bps current <? dir_deviation_bps direction
                          then Ok (Some direction) else Ok best
        end
  end.

Definition best_direction (strategy : MakerStrategy) (caps : AvailableSnapshot) (market : RebateMarket) :
    rebate_result (option Direction) :=
  try_fold (consider_direction strategy caps market) None
    [(token_a market, token_b market); (token_b market, token_a market)].

(** ** The assessment *)

(** The economics of a restoration that stopped at its price limit. *)
Definition assess_fill (config : RebatePolicyConfig) (batch_id : RebateBatchId) (accruals : list RebateAccrual)
    (strategy : MakerStrategy) (requirements : list RebateRequirements) (opportunity : Direction)
    (fill : LimitedQuote) : rebate_result RebateAssessment :=
  let c := dir_candidate opportunity in
  let guarded := Ok (Guarded (dir_deviation_bps opportunity)) in
  amount_in ← map_err RebateCurve (net_quote_exact_out c (lq_amount_out fill));
  external_value ← ok_or (floor (ratio_mul (ratio_from (lq_amount_out fill)) (output_value_rate opportunity)))
                     Arithmetic;
  match checked_sub external_value amount_in with
  | None => guarded
  | Some gross =>
      rq ← ok_or (List.find (λ rq, rq_token rq =? cand_token_in c) requirements)
             (MissingRequirements (cand_token_in c));
      safe_gas ← scale_bps (rq_gas_cost rq) (gas_safety_bps config) true;
      match checked_sub gross safe_gas with
      | None => guarded
      | Some post_gas =>
          profit ← scale_bps post_gas EXECUTOR_SHARE_BPS false;
          rebate ← ok_or (checked_sub post_gas profit) Arithmetic;
          if (rebate <? minimum_maker_rebate rq) || (profit <? minimum_executor_profit rq) then guarded
          else
            shares ← allocate rebate accruals;
            Ok (Ready (mk_rebate_plan batch_id (strat_key strategy) (cand_token_in c) (cand_token_out c)
              amount_in (lq_amount_out fill) gross safe_gas rebate profit (dir_deviation_bps opportunity) shares))
      end
  end.

Definition assess (config : RebatePolicyConfig) (batch_id : RebateBatchId) (accruals : list RebateAccrual)
    (strategy : MakerStrategy) (caps : AvailableSnapshot) (market : RebateMarket)
    (requirements : list RebateRequirements) : rebate_result RebateAssessment :=
  if existsb (λ a, negb (bool_decide (acc_strategy a = strat_key strategy))) accruals
  then Err (StrategyMismatch (key_hash (strat_key strategy)))
  else match pair strategy with
  | None => Err MarketPairMismatch
  | Some p =>
      if existsb (λ a, negb (bool_decide (TokenPair_new (acc_token_in a) (acc_token_out a) = p))) accruals
      then Err (InvalidAccrual "trade pair does not match the strategy")
      else if negb (bool_decide (p = TokenPair_new (token_a market) (token_b market)))
              || (token_a market =? token_b market) || ratio_is_zero (a_to_b market) || ratio_is_zero (b_to_a market)
      then Err MarketPairMismatch
      else
        best ← best_direction strategy caps market;
        match best with
        | None => Ok (Quoteable 0)
        | Some opportunity =>
            let deviation := dir_deviation_bps opportunity in
            let c := dir_candidate opportunity in
            if deviation <? deviation_threshold_bps config then Ok (Quoteable deviation)
            else if cap_out c =? 0 then Ok (Guarded deviation)
            else
              fill ← map_err RebateCurve (net_quote_with_limit c (full_input_bound c) (price_limit opportunity));
              if (lq_amount_in fill =? 0) || (lq_amount_out fill =? 0) then Ok (Guarded deviation)
              else if negb (lq_limited fill) then Ok (Guarded deviation)
              else assess_fill config batch_id accruals strategy requirements opportunity fill
        end
  end.

(** * Correctness of the rebate policy

    The maker's rebate is shared out to the unit, a ready plan pays gas, executor and
    maker out of surplus the market really offers, and a strategy stops quoting exactly
    when its price has drifted by the threshold. *)

(** ** Rounding *)

Lemma map_err_Ok {E F A} (f : E → F) (r : result E A) a : map_err f r = Ok a ↔ r = Ok a.
Proof. destruct r; cbn; split; naive_solver. Qed.

Lemma weighted_share_Ok rebate weight total x :
  0 < total → weighted_share rebate weight total = Ok x ↔ x = rebate * weight / total ∧ is_u256 (rebate * weight / total).
Proof.
  intros Ht. unfold weighted_share. destruct (Ratio_new weight total) as [r|] eqn:Hr.
  - cbn [ok_or mbind result_bind]. rewrite ok_or_Ok. apply floor_scaled; [done|by apply Ratio_new_Some].
  - unfold Ratio_new in Hr. case_match; zbool; [lia|done].
Qed.

Lemma scale_bps_down amount bps x :
  scale_bps amount bps false = Ok x ↔ x = amount * bps / BASIS_POINTS ∧ is_u256 (amount * bps / BASIS_POINTS).
Proof.
  unfold scale_bps. destruct (Ratio_new bps BASIS_POINTS) as [r|] eqn:Hr; [|done].
  cbn [ok_or mbind result_bind]. rewrite ok_or_Ok. apply floor_scaled; [done|by apply Ratio_new_Some].
Qed.

(** Rounding up never charges less. *)
Lemma scale_bps_up amount bps x :
  scale_bps amount bps true = Ok x → is_u256 x ∧ amount * bps ≤ x * BASIS_POINTS < amount * bps + BASIS_POINTS.
Proof.
  unfold scale_bps. destruct (Ratio_new bps BASIS_POINTS) as [r|] eqn:Hr; [|done].
  cbn [ok_or mbind result_bind]. intros H%ok_or_Ok. apply from_bigint_Some in H as [-> Hw]. split; [done|].
  apply Ratio_new_Some in Hr; [|done]. rewrite (Qceiling_comp _ _ (scaled_frac amount bps BASIS_POINTS r ltac:(done) Hr)).
  unfold Qceiling. cbn [Qopp Qnum Qden Qfloor]. change (Zpos (Z.to_pos BASIS_POINTS)) with BASIS_POINTS.
  unfold BASIS_POINTS. pose proof (Z.div_mod (- (amount * bps)) 10000). pose proof (Z.mod_pos_bound (- (amount * bps)) 10000).
  lia.
Qed.

(** ** Sharing *)

Definition total_weight (accruals : list RebateAccrual) : Z := zsum allocation_weight accruals.

(** Every share but the last is its floored proportion, and the last is at least its own. *)
Record shares_ok (rebate total : U256) (accruals : list RebateAccrual) (shares : list RebateAllocation) : Prop := {
  shares_trades : al_trade <$> shares = acc_trade <$> accruals;
  shares_floor : ∀ i a s, accruals !! i = Some a → shares !! i = Some s →
    rebate * allocation_weight a / total ≤ al_amount s;
  shares_exact : ∀ i a s, (S i < length accruals)%nat → accruals !! i = Some a → shares !! i = Some s →
    al_amount s = rebate * allocation_weight a / total
}.

Lemma allocate_loop_spec rebate total done_weight allocated accruals :
  is_u256 rebate → 0 < total → accruals ≠ [] → Forall (λ a, 0 ≤ allocation_weight a) accruals →
  done_weight + total_weight accruals = total → 0 ≤ allocated → allocated * total ≤ rebate * done_weight →
  ∃ shares, allocate_loop rebate total allocated accruals = Ok shares ∧ shares_ok rebate total accruals shares
    ∧ allocated + zsum al_amount shares = rebate.
Proof.
  intros Hr Ht Hne Hw. revert done_weight allocated Hne.
  induction Hw as [|a accruals Ha Hw IH]; intros dw allocated Hne Hsum Hall Hle; [done|].
  unfold total_weight in Hsum. rewrite zsum_cons in Hsum. cbn [allocate_loop].
  assert (Hws : 0 ≤ zsum allocation_weight accruals) by (apply zsum_nonneg; by apply Forall_forall).
  assert (Hcap : allocated ≤ rebate) by (destruct Hr; nia). destruct accruals as [|b rest].
  - rewrite (proj2 (checked_sub_Some rebate allocated (rebate - allocated))) by done. cbn [ok_or mbind result_bind].
    rewrite (proj2 (checked_add_Some allocated (rebate - allocated) rebate)) by (destruct Hr; lia). cbn [ok_or mbind result_bind allocate_loop].
    eexists. split; [done|]. split; [|cbn; lia]. constructor; [done| |].
    + intros [|i] a' s Hi Hs; [|done]. injection Hi as <-. injection Hs as <-. cbn.
      apply Z.div_le_upper_bound; [lia|]. cbn in Hsum. nia.
    + cbn. intros. lia.
  - set (share := rebate * allocation_weight a / total).
    assert (Hd : 0 ≤ share ∧ share * total ≤ rebate * allocation_weight a).
    { pose proof (Z.mul_div_le (rebate * allocation_weight a) total ltac:(lia)). fold share in H.
      split; [apply Z.div_pos; destruct Hr; nia|lia]. }
    assert (Hfit : allocated + share ≤ rebate) by (destruct Hr; nia).
    rewrite (proj2 (weighted_share_Ok rebate (allocation_weight a) total share Ht)) by (split; [done|]; destruct Hr; split; lia).
    cbn [mbind result_bind]. rewrite (proj2 (checked_add_Some allocated share (allocated + share))) by (destruct Hr; lia).
    cbn [ok_or mbind result_bind].
    destruct (IH (dw + allocation_weight a) (allocated + share)) as (shares & -> & [Hts Hfl Hex] & Htot);
      [done|unfold total_weight; lia|lia|nia|]. cbn [mbind result_bind].
    eexists. split; [done|]. split; [|rewrite zsum_cons; cbn; lia]. constructor.
    + rewrite !fmap_cons. by f_equal.
    + intros [|i] a' s Hi Hs; [|by eapply Hfl]. injection Hi as <-. by injection Hs as <-.
    + intros [|i] a' s Hlt Hi Hs; [injection Hi as <-; by injection Hs as <-|]. eapply Hex; [|done..]. cbn in *. lia.
Qed.

Lemma total_weight_fold accruals acc :
  0 ≤ acc ≤ U256_MAX → Forall (λ a, 0 ≤ allocation_weight a) accruals →
  try_fold (λ total accrual, ok_or (checked_add total (allocation_weight accrual)) Arithmetic) acc accruals
  = if acc + total_weight accruals <=? U256_MAX then Ok (acc + total_weight accruals) else Err Arithmetic.
Proof.
  intros Hacc Hw. revert acc Hacc. unfold total_weight. induction Hw as [|a l Ha Hw IH]; intros acc Hacc; cbn [try_fold].
  { cbn. rewrite Z.add_0_r. by rewrite (proj2 (Z.leb_le _ _)) by lia. }
  assert (0 ≤ zsum allocation_weight l) by (apply zsum_nonneg; by apply Forall_forall).
  rewrite zsum_cons, Z.add_assoc. unfold checked_add. destruct (acc + allocation_weight a <=? U256_MAX) eqn:E; zbool.
  - cbn [ok_or mbind result_bind]. apply IH. lia.
  - cbn. by rewrite (proj2 (Z.leb_gt _ _)) by lia.
Qed.

(** The three outcomes of sharing a rebate. *)
Lemma allocate_spec rebate accruals :
  is_u256 rebate → Forall (λ a, 0 ≤ allocation_weight a) accruals →
  let total := total_weight accruals in
  if U256_MAX <? total then allocate rebate accruals = Err Arithmetic
  else if total =? 0 then allocate rebate accruals = Err (InvalidAccrual "allocation weight is zero")
  else ∃ shares, allocate rebate accruals = Ok shares ∧ shares_ok rebate total accruals shares
         ∧ zsum al_amount shares = rebate.
Proof.
  intros Hr Hw total. unfold allocate. rewrite total_weight_fold by (done || (pose proof U256_MAX_pos; lia)).
  rewrite Z.add_0_l. fold total. assert (0 ≤ total) by (apply zsum_nonneg; by apply Forall_forall).
  destruct (total <=? U256_MAX) eqn:E1; zbool; [|by rewrite (proj2 (Z.ltb_lt _ _)) by done].
  rewrite (proj2 (Z.ltb_ge _ _)) by done. cbn [mbind result_bind]. destruct (total =? 0) eqn:E2; zbool; [done|].
  destruct (allocate_loop_spec rebate total 0 0 accruals) as (shares & Hs & Hok & Hsum); try done; try lia.
  { intros ->. done. }
  exists shares. split_and!; [done..|lia].
Qed.

Lemma allocate_total rebate accruals shares :
  is_u256 rebate → Forall (λ a, 0 ≤ allocation_weight a) accruals → allocate rebate accruals = Ok shares →
  zsum al_amount shares = rebate.
Proof.
  intros Hr Hw Ha. pose proof (allocate_spec rebate accruals Hr Hw) as H. cbn zeta in H.
  destruct (U256_MAX <? _); [congruence|]. destruct (_ =? 0); [congruence|].
  destruct H as (s & Hs & _ & Hsum). congruence.
Qed.

(** ** Directions *)

(** A direction in which the strategy sells above the price at which the market buys back. *)
Definition displaced (strategy : MakerStrategy) (caps : AvailableSnapshot) (market : RebateMarket)
    (token_in token_out : Address) (d : Direction) : Prop :=
  ∃ marginal, rate market token_out token_in = Some (output_value_rate d)
    ∧ invert (output_value_rate d) = Some (price_limit d)
    ∧ build_pricing_candidate strategy caps token_in token_out = Some (dir_candidate d)
    ∧ cand_marginal_price (dir_candidate d) = Ok marginal
    ∧ (price_limit d < marginal)%Q
    ∧ dir_deviation_bps d = rel_diff_bps marginal (price_limit d).

(** Folding a list of directions keeps the largest displacement seen. *)
Definition best_of (strategy : MakerStrategy) (caps : AvailableSnapshot) (market : RebateMarket)
    (dirs : list (Address * Address)) (best : option Direction) : Prop :=
  match best with
  | None => ∀ p d, p ∈ dirs → ¬ displaced strategy caps market p.1 p.2 d
  | Some b => (∃ p, p ∈ dirs ∧ displaced strategy caps market p.1 p.2 b)
      ∧ ∀ p d, p ∈ dirs → displaced strategy caps market p.1 p.2 d → dir_deviation_bps d ≤ dir_deviation_bps b
  end.

Lemma displaced_fun strategy caps market ti to d d' :
  displaced strategy caps market ti to d → displaced strategy caps market ti to d' → d = d'.
Proof.
  intros (m & Hr & Hi & Hb & Hm & _ & Hd) (m' & Hr' & Hi' & Hb' & Hm' & _ & Hd'). destruct d, d'. cbn in *. congruence.
Qed.

Lemma consider_direction_spec strategy caps market best p best' :
  consider_direction strategy caps market best p = Ok best' →
  (best' = best ∧ (∀ d, displaced strategy caps market p.1 p.2 d →
     ∃ b, best = Some b ∧ dir_deviation_bps d ≤ dir_deviation_bps b))
  ∨ (∃ d, best' = Some d ∧ displaced strategy caps market p.1 p.2 d
       ∧ ∀ b, best = Some b → dir_deviation_bps b < dir_deviation_bps d).
Proof.
  destruct p as [ti to]. unfold consider_direction. cbn [fst snd].
  intros (v & Hv%ok_or_Ok & (limit & Hl%ok_or_Ok & H)%bind_Ok)%bind_Ok.
  destruct (build_pricing_candidate strategy caps ti to) as [c|] eqn:Hc.
  2: { injection H as <-. left. split; [done|]. intros d (m & _ & _ & Hb & _). congruence. }
  apply bind_Ok in H as (m & Hm%map_err_Ok & H). destruct (ratio_le m limit) eqn:Hle.
  { injection H as <-. left. split; [done|]. apply ratio_le_true in Hle.
    intros d (m' & Hr & Hi & Hb & Hm' & Hgt & _). exfalso. destruct d as [c' l' v' dev]. cbn in *.
    assert (v' = v) as -> by congruence. assert (l' = limit) as -> by congruence. assert (c' = c) as -> by congruence.
    assert (m' = m) as -> by congruence. lra. }
  apply ratio_le_false in Hle. set (d := mk_direction c limit v (rel_diff_bps m limit)) in *.
  assert (Hd : displaced strategy caps market ti to d) by (by exists m).
  destruct best as [b|].
  - destruct (dir_deviation_bps b <? dir_deviation_bps d) eqn:E; zbool; injection H as <-.
    + right. exists d. split_and!; [done..|]. by intros ? [= ->].
    + left. split; [done|]. intros d' Hd'. rewrite (displaced_fun _ _ _ _ _ _ _ Hd' Hd). eauto.
  - injection H as <-. right. exists d. split_and!; done.
Qed.

Lemma best_direction_fold strategy caps market seen dirs best best' :
  best_of strategy caps market seen best →
  try_fold (consider_direction strategy caps market) best dirs = Ok best' →
  best_of strategy caps market (seen ++ dirs) best'.
Proof.
  revert seen best. induction dirs as [|p dirs IH]; intros seen best Hbest; cbn [try_fold].
  { intros [= <-]. by rewrite app_nil_r. }
  intros (b1 & Hp & Hrest)%bind_Ok. change (p :: dirs) with ([p] ++ dirs). rewrite app_assoc. eapply IH; [|exact Hrest].
  apply consider_direction_spec in Hp as [[-> Hno]|(d & -> & Hd & Hgt)].
  - destruct best as [b|]; cbn in *.
    + destruct Hbest as [(q & Hq & Hqd) Hmax]. split; [exists q; set_solver|].
      intros q' d' [Hq'|Hq'%list_elem_of_singleton]%elem_of_app Hd'; [by eapply Hmax|]. subst q'.
      destruct (Hno d' Hd') as (? & [= <-] & ?). done.
    + intros q d [Hq|Hq%list_elem_of_singleton]%elem_of_app Hd; [by eapply Hbest|]. subst q. by destruct (Hno d Hd) as (? & ? & _).
  - cbn. split; [exists p; split; [set_solver|done]|].
    intros q d' [Hq|Hq%list_elem_of_singleton]%elem_of_app Hd'; [|subst q; by rewrite (displaced_fun _ _ _ _ _ _ _ Hd' Hd)].
    destruct best as [b|]; cbn in Hbest; [|by destruct (Hbest q d' Hq)].
    destruct Hbest as [_ Hmax]. specialize (Hmax q d' Hq Hd'). specialize (Hgt b eq_refl). lia.
Qed.

Definition both_ways (market : RebateMarket) : list (Address * Address) :=
  [(token_a market, token_b market); (token_b market, token_a market)].

Lemma best_direction_spec strategy caps market best :
  best_direction strategy caps market = Ok best → best_of strategy caps market (both_ways market) best.
Proof. intros H. apply (best_direction_fold strategy caps market [] _ None best); [|exact H]. cbn. set_solver. Qed.

(** ** The assessment *)

(** What a ready plan promises, given the direction and the requirements it was priced with. *)
Record plan_ok (config : RebatePolicyConfig) (d : Direction) (rq : RebateRequirements) (plan : RebatePlan) : Prop := {
  plan_tokens : rp_token_in plan = cand_token_in (dir_candidate d) ∧ rp_token_out plan = cand_token_out (dir_candidate d);
  plan_priced : net_quote_exact_out (dir_candidate d) (rp_out plan) = Ok (rp_in plan);
  plan_value : rp_in plan + gross_surplus plan = Qfloor (ratio_mul (ratio_from (rp_out plan)) (output_value_rate d));
  plan_split : safe_gas_cost plan + maker_rebate plan + executor_profit plan = gross_surplus plan;
  plan_gas : rq_gas_cost rq * gas_safety_bps config ≤ safe_gas_cost plan * BASIS_POINTS;
  plan_executor : executor_profit plan = (maker_rebate plan + executor_profit plan) * EXECUTOR_SHARE_BPS / BASIS_POINTS;
  plan_minimums : minimum_maker_rebate rq ≤ maker_rebate plan ∧ minimum_executor_profit rq ≤ executor_profit plan;
  plan_shares : zsum al_amount (allocations plan) = maker_rebate plan
}.

Lemma assess_fill_ready config batch accruals strategy rqs d fill plan :
  cand_ok (dir_candidate d) → is_u256 (lq_amount_out fill) →
  Forall (λ a, 0 ≤ allocation_weight a) accruals →
  assess_fill config batch accruals strategy rqs d fill = Ok (Ready plan) →
  rp_batch plan = batch ∧ rp_strategy plan = strat_key strategy ∧ rp_deviation_bps plan = dir_deviation_bps d
  ∧ rp_out plan = lq_amount_out fill
  ∧ is_u256 (maker_rebate plan) ∧ allocate (maker_rebate plan) accruals = Ok (allocations plan)
  ∧ ∃ rq, rq ∈ rqs ∧ rq_token rq = rp_token_in plan ∧ plan_ok config d rq plan.
Proof.
  intros Hc Hout Hw. unfold assess_fill. intros (ai & Hai%map_err_Ok & (ev & Hev%ok_or_Ok & H)%bind_Ok)%bind_Ok.
  apply from_bigint_Some in Hev as [Hev Hevw]. rewrite <-Hev in Hevw.
  destruct (checked_sub ev ai) as [gross|] eqn:Hg; [|done]. apply checked_sub_Some in Hg as [Hg Hgle].
  apply bind_Ok in H as (rq & Hrq%ok_or_Ok & (gas & Hgas & H)%bind_Ok). apply scale_bps_up in Hgas as [Hgw Hgas].
  apply List.find_some in Hrq as [Hin Htok]. zbool.
  destruct (checked_sub gross gas) as [post|] eqn:Hp; [|done]. apply checked_sub_Some in Hp as [Hp Hple].
  apply bind_Ok in H as (profit & Hprofit & (rebate & Hrb%ok_or_Ok & H)%bind_Ok).
  apply checked_sub_Some in Hrb as [Hrb Hrble]. apply scale_bps_down in Hprofit as [Hprofit Hpw].
  destruct (_ || _) eqn:Hmin; [done|]. apply orb_false_iff in Hmin as [Hmin1 Hmin2]. zbool.
  apply bind_Ok in H as (shares & Hs & [= <-]). cbn.
  assert (Hpost : rebate + profit = post) by lia.
  assert (Hrw : is_u256 rebate).
  { rewrite <-Hprofit in Hpw. destruct Hpw, Hevw, Hgw. destruct (net_exact_out_range _ _ _ Hc Hout Hai). split; lia. }
  split_and!; try done; try apply Hrw. exists rq. split; [by apply list_elem_of_In|]. split; [done|].
  constructor; cbn; try done; try lia.
  - by rewrite Hpost.
  - by eapply allocate_total.
Qed.

(** What the policy knows of the strategy it assesses. *)
Definition assessable (strategy : MakerStrategy) (caps : AvailableSnapshot) : Prop :=
  spec_ok strategy ∧ (∀ t, is_u256 (balance strategy t)) ∧ ∀ a, is_u256 (Candidates.available caps a).

Lemma pricing_candidate_ok strategy caps ti to c :
  assessable strategy caps → build_pricing_candidate strategy caps ti to = Some c →
  cand_ok c ∧ cand_token_in c = ti ∧ cand_token_out c = to ∧ cand_key c = strat_key strategy.
Proof.
  intros (Hs & Hbal & Hcaps). unfold build_pricing_candidate. destruct (active strategy); [|done]. cbn [negb].
  destruct (strat_curve strategy) as [curve fees|] eqn:Hc; [|done]. destruct (_ || _); [done|]. intros [= <-].
  destruct (Hs curve fees Hc) as [Hd Hf]. split; [|done]. constructor; cbn; [|done|].
  - by apply pool_wf_laws, from_curve_wf.
  - pose proof (Hcaps (WalletBudget (key_maker (strat_key strategy)) to)) as [? ?].
    pose proof (Hcaps (StrategyVirtual (key_maker (strat_key strategy)) (key_hash (strat_key strategy)) to)) as [? ?].
    split; lia.
Qed.

(** How an assessment was reached. *)
Lemma assess_inv config batch accruals strategy caps market rqs a :
  assess config batch accruals strategy caps market rqs = Ok a →
  ∃ best, best_of strategy caps market (both_ways market) best ∧
    match best with
    | None => a = Quoteable 0
    | Some d =>
        if dir_deviation_bps d <? deviation_threshold_bps config then a = Quoteable (dir_deviation_bps d)
        else a = Guarded (dir_deviation_bps d)
          ∨ ∃ fill, net_quote_with_limit (dir_candidate d) (full_input_bound (dir_candidate d)) (price_limit d) = Ok fill
              ∧ lq_limited fill = true ∧ lq_amount_out fill ≠ 0 ∧ assess_fill config batch accruals strategy rqs d fill = Ok a
    end.
Proof.
  unfold assess. destruct (existsb _ _); [done|]. destruct (pair strategy) as [p|]; [|done].
  destruct (existsb _ _); [done|]. destruct (_ || _); [done|]. intros (best & Hb & H)%bind_Ok.
  exists best. split; [by apply best_direction_spec|]. destruct best as [d|]; [|by injection H as <-].
  destruct (_ <? _); [by injection H as <-|]. destruct (_ =? 0); [injection H as <-; by left|].
  apply bind_Ok in H as (fill & Hf%map_err_Ok & H). destruct (_ || _) eqn:Hz; [injection H as <-; by left|].
  destruct (lq_limited fill) eqn:Hl; cbn [negb] in H; [|injection H as <-; by left]. right. exists fill.
  apply orb_false_iff in Hz as [_ Hz]. zbool. done.
Qed.

Lemma assess_fill_deviation config batch accruals strategy rqs d fill a :
  assess_fill config batch accruals strategy rqs d fill = Ok a →
  match a with Quoteable _ => False | Guarded x => x = dir_deviation_bps d | Ready plan => rp_deviation_bps plan = dir_deviation_bps d end.
Proof.
  unfold assess_fill. intros (ai & _ & (ev & _ & H)%bind_Ok)%bind_Ok.
  destruct (checked_sub ev ai) as [gross|]; [|by injection H as <-].
  apply bind_Ok in H as (rq & _ & (gas & _ & H)%bind_Ok). destruct (checked_sub gross gas); [|by injection H as <-].
  apply bind_Ok in H as (profit & _ & (rebate & _ & H)%bind_Ok). destruct (_ || _); [by injection H as <-|].
  by apply bind_Ok in H as (shares & _ & [= <-]).
Qed.

(** What a published plan is, from the assessment that produced it. *)
Lemma assess_ready config batch accruals strategy caps market rqs plan :
  assessable strategy caps → Forall (λ a, 0 ≤ allocation_weight a) accruals →
  assess config batch accruals strategy caps market rqs = Ok (Ready plan) →
  rp_batch plan = batch ∧ rp_strategy plan = strat_key strategy
  ∧ deviation_threshold_bps config ≤ rp_deviation_bps plan ∧ is_u256 (rp_out plan) ∧ rp_out plan ≠ 0
  ∧ is_u256 (maker_rebate plan) ∧ allocate (maker_rebate plan) accruals = Ok (allocations plan)
  ∧ ∃ d rq, (rp_token_in plan, rp_token_out plan) ∈ both_ways market
      ∧ displaced strategy caps market (rp_token_in plan) (rp_token_out plan) d
      ∧ rp_deviation_bps plan = dir_deviation_bps d
      ∧ rq ∈ rqs ∧ rq_token rq = rp_token_in plan ∧ plan_ok config d rq plan.
Proof.
  intros Has Hw H. apply assess_inv in H as ([d|] & Hbest & H); [|done]. destruct Hbest as [([ti to] & Hp & Hd) _]. cbn in Hd.
  destruct (_ <? _) eqn:E; zbool; [done|]. destruct H as [|(fill & Hf & _ & Hz & H)]; [done|].
  pose proof Hd as (m & _ & _ & Hb & _). destruct (pricing_candidate_ok _ _ _ _ _ Has Hb) as (Hc & Hti & Hto & _).
  assert (Hout : is_u256 (lq_amount_out fill)) by (eapply net_limit_range; [done|by apply full_input_bound_range|exact Hf]).
  apply assess_fill_ready in H as (Hba & Hst & Hdev & Ho & Hrw & Hal & rq & Hrq & Htok & Hok); [|done..].
  pose proof (plan_tokens _ _ _ _ Hok) as [Hpi Hpo]. rewrite Hti in Hpi. rewrite Hto in Hpo. rewrite <-Ho in *.
  split; [done|]. split; [done|]. split; [lia|]. do 4 (split; [done|]). exists d, rq. rewrite Hpi in *. rewrite Hpo. done.
Qed.

(** ** Properties *)

(** A maker rebate is shared out to the last unit.  When the weights have a positive total that fits a
    word, sharing succeeds: one share per trade in accrual order, every share but the last is exactly its
    floored proportion, the last is at least its own, and the shares add up to the rebate.  Weights that sum
    to zero or overflow are refused with their own errors. *)
Theorem rebate_is_fully_shared rebate accruals :
  is_u256 rebate → Forall (λ a, 0 ≤ allocation_weight a) accruals →
  let total := total_weight accruals in
  if U256_MAX <? total then allocate rebate accruals = Err Arithmetic
  else if total =? 0 then allocate rebate accruals = Err (InvalidAccrual "allocation weight is zero")
  else ∃ shares, allocate rebate accruals = Ok shares ∧ shares_ok rebate total accruals shares
         ∧ zsum al_amount shares = rebate.
Proof. apply allocate_spec. Qed.

(** C32: a restoration is published only when it pays everyone out of real surplus: it trades a displaced
    direction of the assessed strategy at the strategy's own net price, the market value of its output covers
    the input and the whole gross surplus, the surplus is exactly the gas with its safety margin, the maker's
    rebate and the executor's five percent, both clear their minimums, and the trades' shares add up to the
    rebate. *)
Theorem ready_plan_pays_everyone config batch accruals strategy caps market rqs plan :
  assessable strategy caps → Forall (λ a, 0 ≤ allocation_weight a) accruals →
  assess config batch accruals strategy caps market rqs = Ok (Ready plan) →
  rp_batch plan = batch ∧ rp_strategy plan = strat_key strategy
  ∧ deviation_threshold_bps config ≤ rp_deviation_bps plan
  ∧ ∃ d rq, (rp_token_in plan, rp_token_out plan) ∈ both_ways market
      ∧ displaced strategy caps market (rp_token_in plan) (rp_token_out plan) d
      ∧ rp_deviation_bps plan = dir_deviation_bps d
      ∧ rq ∈ rqs ∧ rq_token rq = rp_token_in plan ∧ plan_ok config d rq plan.
Proof.
  intros Has Hw H. apply assess_ready in H as (? & ? & ? & _ & _ & _ & _ & d & rq & H); [|done..]. split_and!; [done..|].
  by exists d, rq.
Qed.

(** A strategy keeps quoting exactly while every direction in which it is displaced from the market
    stays below the threshold; once it is guarded or ready, the reported deviation has reached the threshold
    and is the largest of its displaced directions. *)
Theorem displaced_strategies_stop_quoting config batch accruals strategy caps market rqs a :
  assess config batch accruals strategy caps market rqs = Ok a →
  match a with
  | Quoteable _ => ∀ p d, p ∈ both_ways market → displaced strategy caps market p.1 p.2 d →
      dir_deviation_bps d < deviation_threshold_bps config
  | Guarded x | Ready (mk_rebate_plan _ _ _ _ _ _ _ _ _ _ x _) =>
      deviation_threshold_bps config ≤ x
      ∧ (∃ p d, p ∈ both_ways market ∧ displaced strategy caps market p.1 p.2 d ∧ dir_deviation_bps d = x)
      ∧ ∀ p d, p ∈ both_ways market → displaced strategy caps market p.1 p.2 d → dir_deviation_bps d ≤ x
  end.
Proof.
  intros (best & Hbest & H)%assess_inv. destruct best as [b|].
  2: { subst a. intros p d Hp Hd. by destruct (Hbest p d Hp). }
  destruct Hbest as [(p0 & Hp0 & Hb0) Hmax]. destruct (_ <? _) eqn:E; zbool.
  { subst a. intros p d Hp Hd. specialize (Hmax p d Hp Hd). lia. }
  assert (Hend : deviation_threshold_bps config ≤ dir_deviation_bps b
    ∧ (∃ p d, p ∈ both_ways market ∧ displaced strategy caps market p.1 p.2 d ∧ dir_deviation_bps d = dir_deviation_bps b)
    ∧ ∀ p d, p ∈ both_ways market → displaced strategy caps market p.1 p.2 d → dir_deviation_bps d ≤ dir_deviation_bps b).
  { split_and!; [done|by exists p0, b|done]. }
  destruct H as [->|(fill & _ & _ & _ & H%assess_fill_deviation)]; [done|].
  destruct a as [x|x|plan]; [done|by rewrite H|]. destruct plan. cbn in H. by rewrite H.
Qed.

(** ** A displaced constant-product strategy *)

Definition demo_accruals : list RebateAccrual :=
  [mk_accrual 1 demo_key 3 5 1000 990 10 1; mk_accrual 2 demo_key 3 5 2000 1980 11 2].
Definition demo_market : RebateMarket := mk_market 3 5 (1 # 2) (3 # 2).
Definition demo_requirements : list RebateRequirements := [mk_requirements 3 100 1000 50].
Definition demo_policy : RebatePolicyConfig := RebatePolicyConfig_new 100 12000.

Lemma demo_accruals_ok : Forall (λ a, 0 ≤ allocation_weight a) demo_accruals.
Proof. apply Forall_cons_2; [cbn; lia|]. apply Forall_cons_2; [cbn; lia|]. apply Forall_nil_2. Qed.

Lemma demo_assessable : assessable demo_strategy demo_caps.
Proof.
  split_and!; [|intros t|apply demo_caps_words].
  - intros curve fees [= <- <-]. split; [done|]. apply Forall_cons_2; [split; discriminate|apply Forall_nil_2].
  - unfold balance. destruct (balances demo_strategy !! t) as [b|] eqn:Hb; cbn; [|split; discriminate].
    cbn in Hb. apply lookup_insert_Some in Hb as [[_ <-]|[_ [_ <-]%lookup_singleton_Some]]; split; discriminate.
Qed.


Lemma rebate_is_fully_shared_witness :
  ∃ shares, allocate 1000 demo_accruals = Ok shares ∧ al_amount <$> shares = [333; 667]
    ∧ zsum al_amount shares = 1000.
Proof.
  assert (Hr : is_u256 1000) by (split; discriminate).
  destruct (rebate_is_fully_shared 1000 demo_accruals Hr demo_accruals_ok) as (shares & Hs & _ & Hsum).
  exists shares. split; [exact Hs|]. split; [|exact Hsum]. vm_compute in Hs. injection Hs as <-. reflexivity.
Defined.

Lemma ready_plan_pays_everyone_witness :
  ∃ plan, assess demo_policy 77 demo_accruals demo_strategy demo_caps demo_market demo_requirements = Ok (Ready plan)
    ∧ maker_rebate plan = 46786 ∧ ∃ d rq, plan_ok demo_policy d rq plan.
Proof.
  eexists. assert (Ha : assess demo_policy 77 demo_accruals demo_strategy demo_caps demo_market demo_requirements
    = Ok (Ready _)) by (vm_compute; reflexivity).
  split; [exact Ha|]. split; [reflexivity|].
  destruct (ready_plan_pays_everyone demo_policy 77 demo_accruals demo_strategy demo_caps demo_market demo_requirements _
    demo_assessable demo_accruals_ok Ha) as (_ & _ & _ & d & rq & _ & _ & _ & _ & _ & Hok).
  exists d, rq. exact Hok.
Defined.

Lemma displaced_strategies_stop_quoting_witness :
  assess (RebatePolicyConfig_new 5000 12000) 77 demo_accruals demo_strategy demo_caps demo_market demo_requirements
    = Ok (Quoteable 4926)
  ∧ ∀ d, displaced demo_strategy demo_caps demo_market 3 5 d → dir_deviation_bps d < 5000.
Proof.
  assert (Ha : assess (RebatePolicyConfig_new 5000 12000) 77 demo_accruals demo_strategy demo_caps demo_market
    demo_requirements = Ok (Quoteable 4926)) by (vm_compute; reflexivity).
  split; [exact Ha|]. intros d Hd.
  exact (displaced_strategies_stop_quoting _ _ _ _ _ _ _ _ Ha (3, 5) d ltac:(left) Hd).
Defined.
