(* ===== verification/RebateStore.v ===== *)
(** * Rebate batches and their durable store

    The batch values of [crates/core/src/primitives/rebate.rs] and
    [primitives/execution/authorization.rs], and the [RebateStore] port
    ([crates/core/src/deps/rebate/store.rs]) as a class of commands with the laws the
    batch state machine relies on. *)

From Stdlib Require Import String.
From S2P Require Import Prelude U256 Reservation Ratio CurveDecode Curves Registry Candidates RebatePolicy.

#[local] Open Scope Z_scope.

#[global] Instance RebateAccrual_eq_dec : EqDecision RebateAccrual.
Proof. solve_decision. Defined.
#[global] Instance RebateAllocation_eq_dec : EqDecision RebateAllocation.
Proof. solve_decision. Defined.
#[global] Instance RebatePlan_eq_dec : EqDecision RebatePlan.
Proof. solve_decision. Defined.

(** ** Signed executions *)

Inductive ExecutionKind : Type := UserFill | RebateKind.

#[global] Instance ExecutionKind_eq_dec : EqDecision ExecutionKind.
Proof. solve_decision. Defined.

Definition as_u8 (k : ExecutionKind) : Z := match k with UserFill => 0 | RebateKind => 1 end.

Record ExecutionAuthorization := mk_authorization {
  auth_kind : ExecutionKind;
  auth_nonce : U256;
  context_hash : B256;
  auth_strategy_hash : StrategyHash;
  auth_maker : MakerId;
  auth_token_in : Address;
  auth_token_out : Address;
  auth_amount_out : U256;
  amount_in_limit : U256;
  rebate_amount : U256;
  deadline_block : Z
}.

#[global] Instance ExecutionAuthorization_eq_dec : EqDecision ExecutionAuthorization.
Proof. solve_decision. Defined.

(** [ExecutionAuthorization::user_fill] and [::rebate]. *)
Definition user_fill (nonce : U256) (context : B256) (hash : StrategyHash) (maker : MakerId)
    (token_in token_out : Address) (amount_out limit : U256) : ExecutionAuthorization :=
  mk_authorization UserFill nonce context hash maker token_in token_out amount_out limit 0 U64_MAX.

Definition rebate_authorization (nonce : U256) (context : B256) (hash : StrategyHash) (maker : MakerId)
    (token_in token_out : Address) (amount_out limit rebate : U256) (deadline : Z) : ExecutionAuthorization :=
  mk_authorization RebateKind nonce context hash maker token_in token_out amount_out limit rebate deadline.

(** The signed payload offered to public executors; bytes are lists of integers. *)
Record RebateExecution := mk_execution {
  ex_plan : RebatePlan;
  ex_reservation : ReservationId;
  authorization : ExecutionAuthorization;
  ex_order : list Z;
  policy_signature : list Z;
  calldata : list Z;
  published_at : Z
}.

#[global] Instance RebateExecution_eq_dec : EqDecision RebateExecution.
Proof. solve_decision. Defined.

(** A mined filler event. *)
Record RebateExecutedEvent := mk_executed {
  ev_batch : RebateBatchId;
  ev_strategy_hash : StrategyHash;
  executor : Address;
  ev_maker : MakerId;
  ev_token_in : Address;
  ev_token_out : Address;
  ev_in : U256;
  ev_out : U256;
  ev_rebate : U256;
  tx_hash : B256;
  block_number : Z;
  log_index : Z
}.

#[global] Instance RebateExecutedEvent_eq_dec : EqDecision RebateExecutedEvent.
Proof. solve_decision. Defined.

Record RebateSettlement := mk_rebate_settlement {
  st_plan : RebatePlan;
  st_reservation : ReservationId;
  st_event : RebateExecutedEvent;
  executed_at : Z
}.

#[global] Instance RebateSettlement_eq_dec : EqDecision RebateSettlement.
Proof. solve_decision. Defined.

(** ** Batches *)

Module BatchState.
Inductive RebateBatchState : Type :=
| Accumulating
| Guarded
| Preparing (plan : RebatePlan) (reservation : ReservationId)
| Ready (execution : RebateExecution)
| Invalidating (reservation : ReservationId).

#[global] Instance RebateBatchState_eq_dec : EqDecision RebateBatchState.
Proof. solve_decision. Defined.
End BatchState.

Abbreviation RebateBatchState := BatchState.RebateBatchState.

Record RebateBatch := mk_batch {
  rb_id : RebateBatchId;
  rb_strategy : StrategyKey;
  rb_pair : TokenPair;
  rb_accruals : gmap TradeId RebateAccrual;
  rb_state : RebateBatchState
}.

#[global] Instance RebateBatch_eq_dec : EqDecision RebateBatch.
Proof. solve_decision. Defined.

Definition RebateBatch_new (id : RebateBatchId) (p : TokenPair) (accrual : RebateAccrual) : RebateBatch :=
  mk_batch id (acc_strategy accrual) p {[acc_trade accrual := accrual]} BatchState.Accumulating.

Definition with_batch_state (b : RebateBatch) (s : RebateBatchState) : RebateBatch :=
  mk_batch (rb_id b) (rb_strategy b) (rb_pair b) (rb_accruals b) s.

Definition with_accruals (b : RebateBatch) (a : gmap TradeId RebateAccrual) : RebateBatch :=
  mk_batch (rb_id b) (rb_strategy b) (rb_pair b) a (rb_state b).

(** ** The port *)

Inductive RebateStoreError : Type :=
| RebateConflict (hash : StrategyHash)
| RebateDb.

Record ExecutedRebateCursor := mk_rebate_cursor { rc_executed_at : Z; rc_batch : RebateBatchId }.

Record ExecutedRebateQuery := mk_rebate_query {
  rq_maker : option MakerId;
  rq_before : option ExecutedRebateCursor;
  rq_limit : Z
}.

Class RebateStore (St : Type) := {
  rebate_save : RebateBatch → cmd St RebateStoreError unit;
  rebate_open_batches : cmd St RebateStoreError (list RebateBatch);
  rebate_close : RebateBatchId → cmd St RebateStoreError unit;
  scan_cursor : Z → cmd St RebateStoreError (option Z);
  save_scan_cursor : Z → Z → cmd St RebateStoreError unit;
  begin_settlement : RebateSettlement → cmd St RebateStoreError unit;
  pending_settlements : cmd St RebateStoreError (list RebateSettlement);
  finish_settlement : RebateBatchId → cmd St RebateStoreError unit;
  executed_rebates : ExecutedRebateQuery → cmd St RebateStoreError (list RebateSettlement);
  executed_rebate : RebateBatchId → cmd St RebateStoreError (option RebateSettlement)
}.

(** ** Wire formats

    The ABI of the filler contract, the hash and the text of a trade id are code of other
    crates: operations of this class, with the laws below. *)

Class RebateWire := {
  order_decode : list Z → option Order;
  order_encode : Order → list Z;
  keccak256 : list Z → B256;
  execute_rebate_call : Order → ExecutionAuthorization → list Z → list Z;
  trade_id_to_string : TradeId → list Z;
  trade_id_from_str : list Z → option TradeId;
  (** The encodings that batch ids, nonces and reservation ids are hashes of. *)
  batch_preimage : StrategyKey → TradeId → list Z;
  nonce_preimage : RebatePlan → Z → list Z;
  reservation_preimage : RebateBatchId → Z → list Z
}.

(** Decoding inverts encoding. *)
Class RebateWireLaws `{RebateWire} := {
  order_round_trip o : order_decode (order_encode o) = Some o;
  trade_id_round_trip t : trade_id_from_str (trade_id_to_string t) = Some t
}.

#[global] Instance Order_eq_dec : EqDecision Order.
Proof. solve_decision. Defined.

(** An execution whose order, hash and calldata are those of its authorization. *)
Definition execution_sound `{RebateWire} (e : RebateExecution) : Prop :=
  auth_kind (authorization e) = RebateKind ∧ length (policy_signature e) = 65%nat ∧
  ∃ order, order_decode (ex_order e) = Some order ∧ order_maker order = auth_maker (authorization e)
    ∧ keccak256 (order_encode order) = auth_strategy_hash (authorization e)
    ∧ calldata e = execute_rebate_call order (authorization e) (policy_signature e).

(** ** The contract

    What a store represents: the open batch of each strategy, the batch every mined leg was attributed to, the
    settlements in progress and completed, and the scan cursors. *)

Record RebateView := mk_rebate_view {
  v_open : gmap StrategyKey RebateBatch;
  v_attributed : gmap (StrategyKey * TradeId) (RebateBatchId * RebateAccrual);
  v_settling : gmap RebateBatchId RebateSettlement;
  v_executed : gmap RebateBatchId RebateSettlement;
  v_cursor : gmap Z Z
}.

(** What a batch must be to be read back as it was written. *)
Record batch_storable `{RebateWire} (b : RebateBatch) : Prop := {
  storable_keyed : ∀ t a, rb_accruals b !! t = Some a → acc_trade a = t ∧ acc_strategy a = rb_strategy b;
  storable_pair : lo (rb_pair b) ≤ hi (rb_pair b);
  storable_sound : ∀ e, rb_state b = BatchState.Ready e → execution_sound e
}.

(** The leg is unattributed, or attributed to this batch with this body. *)
Definition attributable (v : RebateView) (b : RebateBatch) : Prop :=
  ∀ t a, rb_accruals b !! t = Some a →
    v_attributed v !! (rb_strategy b, t) = None ∨ v_attributed v !! (rb_strategy b, t) = Some (rb_id b, a).

Definition attribute (b : RebateBatch) (m : gmap (StrategyKey * TradeId) (RebateBatchId * RebateAccrual)) :
    gmap (StrategyKey * TradeId) (RebateBatchId * RebateAccrual) :=
  map_fold (λ t a m, <[(rb_strategy b, t) := (rb_id b, a)]> m) m (rb_accruals b).

(** Saving replaces the strategy's open batch and attributes its legs. *)
Definition view_save (b : RebateBatch) (v : RebateView) : RebateView :=
  let old := from_option rb_accruals ∅ (v_open v !! rb_strategy b) in
  mk_rebate_view (<[rb_strategy b := with_accruals b (rb_accruals b ∪ old)]> (v_open v))
    (attribute b (v_attributed v)) (v_settling v) (v_executed v) (v_cursor v).

Definition view_close (id : RebateBatchId) (v : RebateView) : RebateView :=
  mk_rebate_view (filter (λ p, rb_id p.2 ≠ id) (v_open v)) (v_attributed v) (v_settling v) (v_executed v) (v_cursor v).

Definition view_begin (s : RebateSettlement) (v : RebateView) : RebateView :=
  mk_rebate_view (v_open v) (v_attributed v) (<[rp_batch (st_plan s) := s]> (v_settling v)) (v_executed v) (v_cursor v).

Definition view_finish (id : RebateBatchId) (v : RebateView) : RebateView :=
  mk_rebate_view (filter (λ p, rb_id p.2 ≠ id) (v_open v)) (v_attributed v) (delete id (v_settling v))
    (match v_settling v !! id with Some s => <[id := s]> (v_executed v) | None => v_executed v end) (v_cursor v).

Definition view_cursor (chain block : Z) (v : RebateView) : RebateView :=
  mk_rebate_view (v_open v) (v_attributed v) (v_settling v) (v_executed v)
    (<[chain := Z.max block (default block (v_cursor v !! chain))]> (v_cursor v)).

(** The settlement of a batch, in progress or completed. *)
Definition view_settlement (v : RebateView) (id : RebateBatchId) : option RebateSettlement :=
  match v_settling v !! id with Some s => Some s | None => v_executed v !! id end.

(** Two records of the same execution, whenever it was observed. *)
Definition same_settlement (s s' : RebateSettlement) : Prop :=
  st_plan s = st_plan s' ∧ st_reservation s = st_reservation s' ∧ st_event s = st_event s'.

Lemma lookup_attribute (b : RebateBatch) m k trade :
  attribute b m !! (k, trade)
  = if decide (k = rb_strategy b)
    then match rb_accruals b !! trade with Some a => Some (rb_id b, a) | None => m !! (k, trade) end
    else m !! (k, trade).
Proof.
  unfold attribute. induction (rb_accruals b) as [|t a l Hl Hf IH] using map_first_key_ind.
  { rewrite map_fold_empty. by case_decide. }
  rewrite map_fold_insert_first_key by done. destruct (decide (trade = t)) as [->|Ht].
  - rewrite lookup_insert_eq. destruct (decide (k = rb_strategy b)) as [->|Hk]; [by rewrite lookup_insert_eq|].
    rewrite lookup_insert_ne, IH by congruence. by rewrite ?decide_False by done.
  - rewrite !lookup_insert_ne by congruence. apply IH.
Qed.

(** Attributions and completed settlements are only ever added to, and only the worker moves the scan cursors. *)
Definition grows (v v' : RebateView) : Prop :=
  v_attributed v ⊆ v_attributed v' ∧ v_executed v ⊆ v_executed v' ∧ v_cursor v' = v_cursor v.

#[global] Instance grows_preorder : PreOrder grows.
Proof. split; [done|]. intros v1 v2 v3 (? & ? & ?) (? & ? & ?). split_and!; [by etrans|by etrans|congruence]. Qed.

Lemma grows_save b v : attributable v b → grows v (view_save b v).
Proof.
  intros Hat. split_and!; [|done..]. cbn. apply map_subseteq_spec. intros [k t] x Hx. rewrite lookup_attribute.
  case_decide as Hk; [|done]. destruct (rb_accruals b !! t) as [a|] eqn:Ha; [|done]. subst k.
  destruct (Hat t a Ha) as [Hn|Hs]; congruence.
Qed.

Lemma grows_finish id v :
  (∀ x, v_settling v !! id = Some x → v_executed v !! id = None) → grows v (view_finish id v).
Proof.
  intros Hn. split_and!; [done| |done]. cbn. destruct (v_settling v !! id) as [x|] eqn:Hx; [|done]. apply insert_subseteq. by eapply Hn.
Qed.

Class RebateStoreLaws (St : Type) `{RebateWire, RebateStore St} := {
  rebate_store_ok : St → Prop;
  view : St → RebateView;
  (** Open batches are filed under their strategy, with distinct ids that were never executed, and attributed legs. *)
  view_ok s : rebate_store_ok s →
    (∀ k b, v_open (view s) !! k = Some b → rb_strategy b = k
       ∧ v_executed (view s) !! rb_id b = None
       ∧ ∀ t a, rb_accruals b !! t = Some a → v_attributed (view s) !! (k, t) = Some (rb_id b, a))
    ∧ (∀ k k' b b', v_open (view s) !! k = Some b → v_open (view s) !! k' = Some b' → rb_id b = rb_id b' → k = k')
    ∧ (∀ id x, v_settling (view s) !! id = Some x → rp_batch (st_plan x) = id ∧ v_executed (view s) !! id = None);
  save_law b s : rebate_store_ok s → batch_storable b →
    match rebate_save b s with
    | (Ok _, s') => rebate_store_ok s' ∧ view s' = view_save b (view s) ∧ attributable (view s) b
        ∧ (∀ old, v_open (view s) !! rb_strategy b = Some old → rb_id old = rb_id b ∧ rb_pair old = rb_pair b)
        ∧ (∀ k b', v_open (view s) !! k = Some b' → rb_id b' = rb_id b → k = rb_strategy b)
    | (Err e, s') => rebate_store_ok s' ∧ view s' = view s
        ∧ ∀ old, v_open (view s) !! rb_strategy b = Some old → rb_id old = rb_id b → rb_pair old = rb_pair b →
            attributable (view s) b → e = RebateDb
    end;
  open_batches_law s : rebate_store_ok s →
    match rebate_open_batches s with
    | (Ok bs, s') => rebate_store_ok s' ∧ view s' = view s ∧ NoDup (rb_strategy <$> bs)
        ∧ ∀ b, b ∈ bs ↔ v_open (view s) !! rb_strategy b = Some b
    | (Err e, s') => rebate_store_ok s' ∧ view s' = view s ∧ e = RebateDb
    end;
  close_law id s : rebate_store_ok s →
    match rebate_close id s with
    | (Ok _, s') => rebate_store_ok s' ∧ view s' = view_close id (view s)
    | (Err _, s') => rebate_store_ok s' ∧ view s' = view s
    end;
  begin_law x s : rebate_store_ok s →
    match begin_settlement x s with
    | (Ok _, s') => rebate_store_ok s'
        ∧ match view_settlement (view s) (rp_batch (st_plan x)) with
          | None => view s' = view_begin x (view s)
          | Some y => view s' = view s ∧ same_settlement y x
          end
    | (Err _, s') => rebate_store_ok s'
        ∧ (view s' = view s
           ∨ view_settlement (view s) (rp_batch (st_plan x)) = None ∧ view s' = view_begin x (view s))
    end;
  pending_law s : rebate_store_ok s →
    match pending_settlements s with
    | (Ok xs, s') => rebate_store_ok s' ∧ view s' = view s ∧ NoDup ((λ x, rp_batch (st_plan x)) <$> xs)
        ∧ ∀ x, x ∈ xs ↔ v_settling (view s) !! rp_batch (st_plan x) = Some x
    | (Err e, s') => rebate_store_ok s' ∧ view s' = view s ∧ e = RebateDb
    end;
  finish_law id s : rebate_store_ok s →
    match finish_settlement id s with
    | (Ok _, s') => rebate_store_ok s' ∧ view s' = view_finish id (view s) ∧ is_Some (view_settlement (view s) id)
    | (Err e, s') => rebate_store_ok s' ∧ view s' = view s ∧ e = RebateDb
    end;
  scan_law chain s : rebate_store_ok s →
    match scan_cursor chain s with
    | (Ok c, s') => rebate_store_ok s' ∧ view s' = view s ∧ c = v_cursor (view s) !! chain
    | (Err _, s') => rebate_store_ok s' ∧ view s' = view s
    end;
  save_scan_law chain block s : rebate_store_ok s → 0 ≤ block →
    match save_scan_cursor chain block s with
    | (Ok _, s') => rebate_store_ok s' ∧ view s' = view_cursor chain block (view s)
    | (Err _, s') => rebate_store_ok s' ∧ view s' = view s
    end
}.
