(* ===== verification/RebateSqlite.v ===== *)
(** * The SQLite rebate store

    [crates/adapters/src/rebate/sqlite_store.rs] over the tables of
    [migrations/0011_rebate_batches.sql] to [0013_rebate_history.sql].  A JSON column
    holds the value it encodes; trade ids are stored as text.  As in the ledger's store,
    the database carries the outcomes of the statements to come, and a transaction that
    does not reach its commit changes nothing. *)

From stdpp Require Import strings.
From S2P Require Import Prelude U256 Reservation LedgerStore Ratio CurveDecode Curves Registry Candidates RebatePolicy RebateStore.

#[local] Open Scope Z_scope.

(** ** Stored values *)

Record StoredAllocation := mk_stored_allocation { sal_trade : list Z; sal_amount : U256 }.

Record StoredPlan := mk_stored_plan {
  sp_batch : B256;
  sp_maker : Address;
  sp_app : Address;
  sp_strategy_hash : B256;
  sp_token_in : Address;
  sp_token_out : Address;
  sp_in : U256;
  sp_out : U256;
  sp_gross : U256;
  sp_gas : U256;
  sp_rebate : U256;
  sp_profit : U256;
  sp_deviation : Z;
  sp_allocations : list StoredAllocation
}.

Record StoredAuthorization := mk_stored_authorization {
  sau_kind : Z;
  sau_nonce : U256;
  sau_context : B256;
  sau_strategy_hash : B256;
  sau_maker : Address;
  sau_token_in : Address;
  sau_token_out : Address;
  sau_out : U256;
  sau_in_limit : U256;
  sau_rebate : U256;
  sau_deadline : Z
}.

Record StoredExecution := mk_stored_execution {
  se_plan : StoredPlan;
  se_reservation : B256;
  se_authorization : StoredAuthorization;
  se_order : list Z;
  se_signature : list Z;
  se_calldata : list Z;
  se_published_at : Z
}.

Inductive StoredState : Type :=
| StoredAccumulating
| StoredGuarded
| StoredPreparing (plan : StoredPlan) (reservation : B256)
| StoredReady (execution : StoredExecution)
| StoredInvalidating (reservation : B256).

Record StoredAccrual := mk_stored_accrual {
  sac_trade : list Z;
  sac_maker : Address;
  sac_app : Address;
  sac_strategy_hash : B256;
  sac_token_in : Address;
  sac_token_out : Address;
  sac_in : U256;
  sac_out : U256;
  sac_weight : U256;
  sac_block : Z
}.

#[global] Instance StoredAccrual_eq_dec : EqDecision StoredAccrual.
Proof. solve_decision. Defined.

Record StoredSettlement := mk_stored_settlement {
  ss_plan : StoredPlan;
  ss_reservation : B256;
  ss_event : RebateExecutedEvent;
  ss_executed_at : Z
}.

Section stored.
Context `{RebateWire}.

Definition StoredAllocation_from (a : RebateAllocation) : StoredAllocation :=
  mk_stored_allocation (trade_id_to_string (al_trade a)) (al_amount a).

Definition StoredAllocation_into (a : StoredAllocation) : result RebateStoreError RebateAllocation :=
  trade ← ok_or (trade_id_from_str (sal_trade a)) RebateDb;
  Ok (mk_allocation trade (sal_amount a)).

Definition StoredPlan_from (p : RebatePlan) : StoredPlan :=
  mk_stored_plan (rp_batch p) (key_maker (rp_strategy p)) (key_app (rp_strategy p)) (key_hash (rp_strategy p))
    (rp_token_in p) (rp_token_out p) (rp_in p) (rp_out p) (gross_surplus p) (safe_gas_cost p) (maker_rebate p)
    (executor_profit p) (rp_deviation_bps p) (StoredAllocation_from <$> allocations p).

Definition StoredPlan_into (p : StoredPlan) : result RebateStoreError RebatePlan :=
  shares ← collect StoredAllocation_into (sp_allocations p);
  Ok (mk_rebate_plan (sp_batch p) (mk_strategy_key (sp_maker p) (sp_app p) (sp_strategy_hash p))
        (sp_token_in p) (sp_token_out p) (sp_in p) (sp_out p) (sp_gross p) (sp_gas p) (sp_rebate p)
        (sp_profit p) (sp_deviation p) shares).

Definition StoredAuthorization_from (a : ExecutionAuthorization) : StoredAuthorization :=
  mk_stored_authorization (as_u8 (auth_kind a)) (auth_nonce a) (context_hash a) (auth_strategy_hash a)
    (auth_maker a) (auth_token_in a) (auth_token_out a) (auth_amount_out a) (amount_in_limit a)
    (rebate_amount a) (deadline_block a).

Definition StoredAuthorization_into (a : StoredAuthorization) : result RebateStoreError ExecutionAuthorization :=
  if negb (sau_kind a =? as_u8 RebateKind) then Err RebateDb
  else Ok (rebate_authorization (sau_nonce a) (sau_context a) (sau_strategy_hash a) (sau_maker a)
             (sau_token_in a) (sau_token_out a) (sau_out a) (sau_in_limit a) (sau_rebate a) (sau_deadline a)).

Definition StoredExecution_from (e : RebateExecution) : StoredExecution :=
  mk_stored_execution (StoredPlan_from (ex_plan e)) (ex_reservation e) (StoredAuthorization_from (authorization e))
    (ex_order e) (policy_signature e) (calldata e) (published_at e).

(** A stored execution is only read back when its order and calldata are those of its authorization. *)
Definition StoredExecution_into (e : StoredExecution) : result RebateStoreError RebateExecution :=
  auth ← StoredAuthorization_into (se_authorization e);
  if negb (length (se_signature e) =? 65)%nat then Err RebateDb
  else
    order ← ok_or (order_decode (se_order e)) RebateDb;
    if negb (order_maker order =? auth_maker auth) || negb (keccak256 (order_encode order) =? auth_strategy_hash auth)
    then Err RebateDb
    else if negb (bool_decide (execute_rebate_call order auth (se_signature e) = se_calldata e)) then Err RebateDb
    else
      plan ← StoredPlan_into (se_plan e);
      Ok (mk_execution plan (se_reservation e) auth (se_order e) (se_signature e) (se_calldata e)
            (se_published_at e)).

Definition StoredState_name (s : StoredState) : string :=
  match s with
  | StoredAccumulating => "accumulating"
  | StoredGuarded => "guarded"
  | StoredPreparing _ _ => "preparing"
  | StoredReady _ => "ready"
  | StoredInvalidating _ => "invalidating"
  end.

Definition StoredState_try_from (s : RebateBatchState) : StoredState :=
  match s with
  | BatchState.Accumulating => StoredAccumulating
  | BatchState.Guarded => StoredGuarded
  | BatchState.Preparing plan r => StoredPreparing (StoredPlan_from plan) r
  | BatchState.Ready e => StoredReady (StoredExecution_from e)
  | BatchState.Invalidating r => StoredInvalidating r
  end.

Definition StoredState_into (s : StoredState) : result RebateStoreError RebateBatchState :=
  match s with
  | StoredAccumulating => Ok BatchState.Accumulating
  | StoredGuarded => Ok BatchState.Guarded
  | StoredPreparing plan r => p ← StoredPlan_into plan; Ok (BatchState.Preparing p r)
  | StoredReady e => x ← StoredExecution_into e; Ok (BatchState.Ready x)
  | StoredInvalidating r => Ok (BatchState.Invalidating r)
  end.

Definition StoredAccrual_from (a : RebateAccrual) : StoredAccrual :=
  mk_stored_accrual (trade_id_to_string (acc_trade a)) (key_maker (acc_strategy a)) (key_app (acc_strategy a))
    (key_hash (acc_strategy a)) (acc_token_in a) (acc_token_out a) (acc_in a) (acc_out a) (allocation_weight a)
    (confirmed_block a).

Definition StoredAccrual_into (a : StoredAccrual) : result RebateStoreError RebateAccrual :=
  trade ← ok_or (trade_id_from_str (sac_trade a)) RebateDb;
  Ok (mk_accrual trade (mk_strategy_key (sac_maker a) (sac_app a) (sac_strategy_hash a)) (sac_token_in a)
        (sac_token_out a) (sac_in a) (sac_out a) (sac_block a) (sac_weight a)).

Definition StoredSettlement_from (s : RebateSettlement) : StoredSettlement :=
  mk_stored_settlement (StoredPlan_from (st_plan s)) (st_reservation s) (st_event s) (executed_at s).

Definition StoredSettlement_into (s : StoredSettlement) : result RebateStoreError RebateSettlement :=
  plan ← StoredPlan_into (ss_plan s);
  Ok (mk_rebate_settlement plan (ss_reservation s) (ss_event s) (ss_executed_at s)).

End stored.

(** ** Tables *)

Record BatchRow := mk_batch_row {
  br_strategy : StrategyKey;
  br_lo : Address;
  br_hi : Address;
  br_state : string;
  br_payload : option StoredState;
  br_open : bool
}.

Record SettlementRow := mk_settlement_row {
  sr_status : string;
  sr_payload : StoredSettlement;
  sr_maker : MakerId;
  sr_executed_at : Z
}.

(** [rebate_batch] by id, [rebate_accrual] by strategy and trade, [rebate_settlement] by batch and
    [rebate_scan_cursor] by chain. *)
Record RebateSqlite := mk_rebate_db {
  rebate_batch : gmap RebateBatchId BatchRow;
  rebate_accrual : gmap (StrategyKey * list Z) (RebateBatchId * StoredAccrual);
  rebate_settlement : gmap RebateBatchId SettlementRow;
  rebate_scan_cursor : gmap Z Z;
  rebate_outcomes : list bool
}.

Definition rebate_statement : cmd RebateSqlite RebateStoreError unit := λ db,
  match rebate_outcomes db with
  | [] => (Ok tt, db)
  | ok :: rest =>
      ((if ok : bool then Ok tt else Err RebateDb),
       mk_rebate_db (rebate_batch db) (rebate_accrual db) (rebate_settlement db) (rebate_scan_cursor db) rest)
  end.

Definition set_batches (t : gmap RebateBatchId BatchRow) (a : gmap (StrategyKey * list Z) (RebateBatchId * StoredAccrual)) :
    cmd RebateSqlite RebateStoreError unit :=
  modify (λ db, mk_rebate_db t a (rebate_settlement db) (rebate_scan_cursor db) (rebate_outcomes db)).

Definition set_settlements (t : gmap RebateBatchId BatchRow) (s : gmap RebateBatchId SettlementRow) :
    cmd RebateSqlite RebateStoreError unit :=
  modify (λ db, mk_rebate_db t (rebate_accrual db) s (rebate_scan_cursor db) (rebate_outcomes db)).

(** The open row of a strategy; a partial unique index keeps it the only one. *)
Definition open_row (t : gmap RebateBatchId BatchRow) (k : StrategyKey) : option (RebateBatchId * BatchRow) :=
  head (filter (λ p, br_strategy p.2 = k ∧ br_open p.2 = true) (entries t)).

Definition rebate_i64_of (value : Z) : result RebateStoreError Z :=
  if value <=? I64_MAX then Ok value else Err RebateDb.

Definition u64_of (value : Z) : result RebateStoreError Z :=
  if value <? 0 then Err RebateDb else Ok value.

(** [UPDATE rebate_batch SET state = 'closed', state_payload = NULL, is_open = 0] *)
Definition close_row (row : BatchRow) : BatchRow :=
  mk_batch_row (br_strategy row) (br_lo row) (br_hi row) "closed" None false.

Section sqlite.
Context `{RebateWire}.

Definition persist_accrual (b : RebateBatch) (t : gmap (StrategyKey * list Z) (RebateBatchId * StoredAccrual))
    (a : RebateAccrual) : cmd RebateSqlite RebateStoreError (gmap (StrategyKey * list Z) (RebateBatchId * StoredAccrual)) :=
  let payload := StoredAccrual_from a in
  let key := (rb_strategy b, trade_id_to_string (acc_trade a)) in
  _ ← rebate_statement; (* insert .. on conflict do nothing *)
  let taken := filter (λ p, p.2.1 = rb_id b ∧ p.1.2 = key.2) t in
  match t !! key with
  | None =>
      if decide (taken = ∅) then mret (<[key := (rb_id b, payload)]> t)
      else _ ← rebate_statement; fail (RebateConflict (key_hash (rb_strategy b)))
  | Some stored =>
      _ ← rebate_statement; (* select *)
      if bool_decide (stored = (rb_id b, payload)) then mret t
      else fail (RebateConflict (key_hash (rb_strategy b)))
  end.

Fixpoint persist_accruals (b : RebateBatch) (t : gmap (StrategyKey * list Z) (RebateBatchId * StoredAccrual))
    (l : list RebateAccrual) : cmd RebateSqlite RebateStoreError (gmap (StrategyKey * list Z) (RebateBatchId * StoredAccrual)) :=
  match l with
  | [] => mret t
  | a :: l' => t' ← persist_accrual b t a; persist_accruals b t' l'
  end.

Definition sqlite_save (b : RebateBatch) : cmd RebateSqlite RebateStoreError unit :=
  _ ← rebate_statement; (* begin *)
  _ ← rebate_statement; (* insert .. on conflict do nothing *)
  t ← gets rebate_batch;
  let conflict := bool_decide (is_Some (t !! rb_id b)) || bool_decide (is_Some (open_row t (rb_strategy b))) in
  let t := if conflict then t
           else <[rb_id b := mk_batch_row (rb_strategy b) (lo (rb_pair b)) (hi (rb_pair b)) "accumulating" None true]> t in
  _ ← rebate_statement; (* select *)
  let exact := match open_row t (rb_strategy b) with
               | Some (id, row) => (id =? rb_id b) && (br_lo row =? lo (rb_pair b)) && (br_hi row =? hi (rb_pair b))
               | None => false
               end in
  if negb exact then fail (RebateConflict (key_hash (rb_strategy b)))
  else
    a ← gets rebate_accrual;
    a ← persist_accruals b a (values (rb_accruals b));
    let stored := StoredState_try_from (rb_state b) in
    _ ← rebate_statement; (* update .. where id = ? and is_open = 1 *)
    match t !! rb_id b with
    | Some row =>
        if br_open row then
          _ ← rebate_statement; (* commit *)
          set_batches (<[rb_id b := mk_batch_row (br_strategy row) (br_lo row) (br_hi row) (StoredState_name stored)
                                      (Some stored) true]> t) a
        else fail (RebateConflict (key_hash (rb_strategy b)))
    | None => fail (RebateConflict (key_hash (rb_strategy b)))
    end.

(** The rows of a batch are read in any order: they are inserted into a map. *)
Definition decode_accrual (k : StrategyKey) (m : gmap TradeId RebateAccrual) (s : StoredAccrual) :
    result RebateStoreError (gmap TradeId RebateAccrual) :=
  a ← StoredAccrual_into s;
  if negb (bool_decide (acc_strategy a = k)) then Err RebateDb else Ok (<[acc_trade a := a]> m).

Definition into_batch (id : RebateBatchId) (row : BatchRow) : cmd RebateSqlite RebateStoreError RebateBatch :=
  stored ← lift (ok_or (br_payload row) RebateDb);
  if negb (bool_decide (StoredState_name stored = br_state row)) then fail RebateDb
  else
    state ← lift (StoredState_into stored);
    _ ← rebate_statement;
    t ← gets rebate_accrual;
    accruals ← lift (try_fold (decode_accrual (br_strategy row)) ∅
                       ((λ p, p.2.2) <$> filter (λ p, p.2.1 = id) (map_to_list t)));
    mret (mk_batch id (br_strategy row) (TokenPair_new (br_lo row) (br_hi row)) accruals state).

Fixpoint into_batches (rows : list (RebateBatchId * BatchRow)) : cmd RebateSqlite RebateStoreError (list RebateBatch) :=
  match rows with
  | [] => mret []
  | (id, row) :: rows' => b ← into_batch id row; bs ← into_batches rows'; mret (b :: bs)
  end.

Definition sqlite_open_batches : cmd RebateSqlite RebateStoreError (list RebateBatch) :=
  _ ← rebate_statement;
  t ← gets rebate_batch;
  into_batches (filter (λ p, br_open p.2 = true) (entries t)).

Definition sqlite_close (id : RebateBatchId) : cmd RebateSqlite RebateStoreError unit :=
  _ ← rebate_statement;
  db ← gets (λ db, db);
  set_batches (match rebate_batch db !! id with
               | Some row => if br_open row then <[id := close_row row]> (rebate_batch db) else rebate_batch db
               | None => rebate_batch db
               end) (rebate_accrual db).

Definition sqlite_scan_cursor (chain : Z) : cmd RebateSqlite RebateStoreError (option Z) :=
  chain ← lift (rebate_i64_of chain);
  _ ← rebate_statement;
  t ← gets rebate_scan_cursor;
  match t !! chain with
  | None => mret None
  | Some block => b ← lift (u64_of block); mret (Some b)
  end.

(** The upsert never moves a cursor back. *)
Definition sqlite_save_scan_cursor (chain block : Z) : cmd RebateSqlite RebateStoreError unit :=
  chain ← lift (rebate_i64_of chain);
  block ← lift (rebate_i64_of block);
  _ ← rebate_statement;
  modify (λ db, mk_rebate_db (rebate_batch db) (rebate_accrual db) (rebate_settlement db)
    (match rebate_scan_cursor db !! chain with
     | Some current => if current <=? block then <[chain := block]> (rebate_scan_cursor db) else rebate_scan_cursor db
     | None => <[chain := block]> (rebate_scan_cursor db)
     end) (rebate_outcomes db)).

(** The insert and the comparison are separate statements: a failure of the second leaves the row. *)
Definition sqlite_begin_settlement (s : RebateSettlement) : cmd RebateSqlite RebateStoreError unit :=
  let id := rp_batch (st_plan s) in
  at_ ← lift (rebate_i64_of (executed_at s));
  _ ← rebate_statement; (* insert .. on conflict do nothing *)
  db ← gets (λ db, db);
  _ ← match rebate_settlement db !! id with
      | Some _ => mret tt
      | None =>
          if bool_decide (is_Some (rebate_batch db !! id)) then
            set_settlements (rebate_batch db)
              (<[id := mk_settlement_row "settling" (StoredSettlement_from s) (key_maker (rp_strategy (st_plan s))) at_]>
                 (rebate_settlement db))
          else fail RebateDb (* foreign key *)
      end;
  _ ← rebate_statement; (* select *)
  t ← gets rebate_settlement;
  match t !! id with
  | None => fail (RebateConflict (key_hash (rp_strategy (st_plan s))))
  | Some row =>
      stored ← lift (StoredSettlement_into (sr_payload row));
      if bool_decide (st_plan stored = st_plan s) && (st_reservation stored =? st_reservation s)
         && bool_decide (st_event stored = st_event s)
      then mret tt else fail (RebateConflict (key_hash (rp_strategy (st_plan s))))
  end.

Definition sqlite_pending_settlements : cmd RebateSqlite RebateStoreError (list RebateSettlement) :=
  _ ← rebate_statement;
  t ← gets rebate_settlement;
  lift (collect (λ p, StoredSettlement_into (sr_payload p.2))
          (filter (λ p, sr_status p.2 = "settling"%string) (entries t))).

Definition sqlite_finish_settlement (id : RebateBatchId) : cmd RebateSqlite RebateStoreError unit :=
  _ ← rebate_statement; (* begin *)
  _ ← rebate_statement; (* update rebate_settlement *)
  db ← gets (λ db, db);
  t ← match rebate_settlement db !! id with
      | None => _ ← rebate_statement; fail RebateDb
      | Some row =>
          if bool_decide (sr_status row = "settling"%string)
          then mret (<[id := mk_settlement_row "executed" (sr_payload row) (sr_maker row) (sr_executed_at row)]>
                       (rebate_settlement db))
          else _ ← rebate_statement; (* select status *)
               if bool_decide (sr_status row = "executed"%string) then mret (rebate_settlement db) else fail RebateDb
      end;
  _ ← rebate_statement; (* update rebate_batch *)
  _ ← rebate_statement; (* commit *)
  set_settlements (match rebate_batch db !! id with
                   | Some row => <[id := close_row row]> (rebate_batch db)
                   | None => rebate_batch db
                   end) t.

(** [ORDER BY executed_at DESC, batch_id DESC] *)
Definition newest_first (p q : RebateBatchId * SettlementRow) : Prop :=
  sr_executed_at q.2 < sr_executed_at p.2 ∨ (sr_executed_at q.2 = sr_executed_at p.2 ∧ q.1 ≤ p.1).

#[global] Instance newest_first_dec : RelDecision newest_first.
Proof. intros p q. unfold newest_first. apply _. Defined.

Definition before_cursor (cursor : option (Z * RebateBatchId)) (p : RebateBatchId * SettlementRow) : bool :=
  match cursor with
  | None => true
  | Some (at_, id) => (sr_executed_at p.2 <? at_) || ((sr_executed_at p.2 =? at_) && (p.1 <? id))
  end.

Definition of_maker (maker : option MakerId) (p : RebateBatchId * SettlementRow) : bool :=
  match maker with None => true | Some m => sr_maker p.2 =? m end.

Definition sqlite_executed_rebates (q : ExecutedRebateQuery) : cmd RebateSqlite RebateStoreError (list RebateSettlement) :=
  cursor ← match rq_before q with
           | None => mret None
           | Some c => at_ ← lift (rebate_i64_of (rc_executed_at c)); mret (Some (at_, rc_batch c))
           end;
  _ ← rebate_statement;
  t ← gets rebate_settlement;
  let rows := filter (λ p, sr_status p.2 = "executed"%string ∧ of_maker (rq_maker q) p = true
                           ∧ before_cursor cursor p = true) (map_to_list t) in
  lift (collect (λ p, StoredSettlement_into (sr_payload p.2))
          (take (Z.to_nat (rq_limit q)) (merge_sort newest_first rows))).

Definition sqlite_executed_rebate (id : RebateBatchId) : cmd RebateSqlite RebateStoreError (option RebateSettlement) :=
  _ ← rebate_statement;
  t ← gets rebate_settlement;
  match t !! id with
  | Some row => if bool_decide (sr_status row = "executed"%string)
                then s ← lift (StoredSettlement_into (sr_payload row)); mret (Some s) else mret None
  | None => mret None
  end.

#[global] Instance SqliteRebateStore : RebateStore RebateSqlite := {|
  rebate_save := sqlite_save;
  rebate_open_batches := sqlite_open_batches;
  rebate_close := sqlite_close;
  scan_cursor := sqlite_scan_cursor;
  save_scan_cursor := sqlite_save_scan_cursor;
  begin_settlement := sqlite_begin_settlement;
  pending_settlements := sqlite_pending_settlements;
  finish_settlement := sqlite_finish_settlement;
  executed_rebates := sqlite_executed_rebates;
  executed_rebate := sqlite_executed_rebate
|}.

End sqlite.
