(* ===== verification/RebateSqliteProperties.v ===== *)
(** * The SQLite rebate store meets the port's contract

    Round trips of the stored values, what the tables represent, and the laws of
    [RebateStoreLaws] for every statement sequence of [RebateSqlite]. *)

From stdpp Require Import strings.
From S2P Require Import Prelude U256 Reservation LedgerStore Ratio CurveDecode Curves Registry Candidates RebatePolicy RebateStore RebateSqlite.

#[local] Open Scope Z_scope.

(** ** Reindexing a map

    The entries of a map under new keys; a key is meant to come from one entry only. *)

Section rekey.
Context {K V K' V' : Type} `{Countable K, Countable K'}.
Implicit Types (f : K → V → option (K' * V')) (m : gmap K V).

Definition rekey f m : gmap K' V' := list_to_map (omap (λ p, f p.1 p.2) (map_to_list m)).

Definition rekey_inj f m : Prop := ∀ k1 v1 k2 v2 k' w1 w2,
  m !! k1 = Some v1 → m !! k2 = Some v2 → f k1 v1 = Some (k', w1) → f k2 v2 = Some (k', w2) → k1 = k2.

Lemma lookup_rekey f m k' w :
  rekey_inj f m → rekey f m !! k' = Some w ↔ ∃ k v, m !! k = Some v ∧ f k v = Some (k', w).
Proof.
  intros Hinj. unfold rekey. rewrite <-elem_of_list_to_map.
  - rewrite list_elem_of_omap. split.
    + intros ([k v] & Hin%elem_of_map_to_list & Hf). eauto.
    + intros (k & v & Hk & Hf). exists (k, v). split; [by apply elem_of_map_to_list|done].
  - assert (Hsub : ∀ k v, (k, v) ∈ map_to_list m → m !! k = Some v) by (intros; by apply elem_of_map_to_list).
    pose proof (NoDup_fst_map_to_list m) as Hnd. revert Hsub Hnd.
    generalize (map_to_list m) as l. induction l as [|[k v] l IH]; intros Hsub Hnd; [apply NoDup_nil_2|].
    rewrite fmap_cons in Hnd. apply NoDup_cons in Hnd as [Hk Hnd]. cbn in Hk |- *.
    assert (IH' : NoDup (omap (λ p, f p.1 p.2) l).*1) by (apply IH; [intros; apply Hsub; by right|done]).
    destruct (f k v) as [[j w']|] eqn:Hf; [|done]. rewrite fmap_cons. apply NoDup_cons_2; [|done].
    intros ([j' w2] & Hj & ([k2 v2] & Hin & Hf2)%list_elem_of_omap)%list_elem_of_fmap. cbn in Hj, Hf2. subst j'.
    apply Hk. assert (k = k2) as ->.
    { eapply (Hinj k v k2 v2); [apply Hsub; left|apply Hsub; by right|done..]. }
    apply list_elem_of_fmap. by exists (k2, v2).
Qed.

Lemma rekey_eq f m (m' : gmap K' V') :
  rekey_inj f m → (∀ k' w, m' !! k' = Some w ↔ ∃ k v, m !! k = Some v ∧ f k v = Some (k', w)) → rekey f m = m'.
Proof.
  intros Hinj Hm'. apply map_eq. intros k'. apply option_eq. intros w. by rewrite lookup_rekey, Hm'.
Qed.

End rekey.

(** ** Round trips *)

Lemma collect_round_trip {E A B} (f : A → B) (g : B → result E A) l :
  (∀ x, g (f x) = Ok x) → collect g (f <$> l) = Ok l.
Proof. intros Hgf. induction l as [|x l IH]; cbn; [done|]. by rewrite Hgf, IH. Qed.

Section round_trips.
Context `{RebateWire, !RebateWireLaws}.

Lemma StoredPlan_round_trip p : StoredPlan_into (StoredPlan_from p) = Ok p.
Proof.
  unfold StoredPlan_into, StoredPlan_from. cbn [sp_allocations].
  rewrite collect_round_trip; [by destruct p as [? []]|].
  intros a. unfold StoredAllocation_into, StoredAllocation_from. cbn. rewrite trade_id_round_trip. by destruct a.
Qed.

#[local] Arguments StoredPlan_into : simpl never.
#[local] Arguments StoredPlan_from : simpl never.
#[local] Arguments StoredAuthorization_into : simpl never.
#[local] Arguments StoredExecution_into : simpl never.
#[local] Arguments StoredExecution_from : simpl never.

Lemma StoredAccrual_round_trip a : StoredAccrual_into (StoredAccrual_from a) = Ok a.
Proof.
  unfold StoredAccrual_into, StoredAccrual_from. cbn. rewrite trade_id_round_trip. by destruct a as [? []].
Qed.

Lemma StoredSettlement_round_trip s : StoredSettlement_into (StoredSettlement_from s) = Ok s.
Proof. unfold StoredSettlement_into, StoredSettlement_from. cbn. rewrite StoredPlan_round_trip. by destruct s. Qed.

Lemma StoredAuthorization_round_trip a :
  auth_kind a = RebateKind → StoredAuthorization_into (StoredAuthorization_from a) = Ok a.
Proof. destruct a. cbn. by intros ->. Qed.

Lemma StoredExecution_round_trip e :
  execution_sound e → StoredExecution_into (StoredExecution_from e) = Ok e.
Proof.
  intros (Hk & Hs & o & Ho & Hm & Hh & Hc). unfold StoredExecution_into, StoredExecution_from. cbn.
  rewrite StoredAuthorization_round_trip by done. cbn [mbind result_bind]. rewrite Hs, Ho. cbn [negb ok_or mbind result_bind Nat.eqb].
  rewrite Hm, Hh, !Z.eqb_refl. cbn [negb orb]. rewrite bool_decide_true by done. cbn [negb].
  rewrite StoredPlan_round_trip. by destruct e.
Qed.

(** A stored execution that reads back is sound. *)
Lemma StoredExecution_into_sound s e : StoredExecution_into s = Ok e → execution_sound e.
Proof.
  unfold StoredExecution_into. intros (a & Ha & Hr)%bind_Ok. unfold StoredAuthorization_into in Ha.
  destruct (negb (sau_kind _ =? _)); [done|]. injection Ha as <-.
  destruct (length _ =? 65)%nat eqn:Hs; [|done]. apply Nat.eqb_eq in Hs. cbn [negb] in Hr.
  apply bind_Ok in Hr as (o & Ho%ok_or_Ok & Hr). destruct (_ || _) eqn:Hm; [done|].
  apply orb_false_iff in Hm as [Hm Hh]. zbool. case_bool_decide as Hc; [|done]. cbn [negb] in Hr.
  apply bind_Ok in Hr as (p & Hp & [= <-]). split; [done|]. split; [done|]. exists o. cbn. auto.
Qed.

(** A batch state written by the store reads back, provided published work is sound. *)
Lemma StoredState_round_trip s :
  (∀ e, s = BatchState.Ready e → execution_sound e) → StoredState_into (StoredState_try_from s) = Ok s.
Proof.
  intros Hs. destruct s; cbn; try done.
  - by rewrite StoredPlan_round_trip.
  - by rewrite StoredExecution_round_trip by auto.
Qed.

Lemma trade_id_to_string_inj t t' : trade_id_to_string t = trade_id_to_string t' → t = t'.
Proof. intros Ht. pose proof (trade_id_round_trip t) as H1. rewrite Ht, trade_id_round_trip in H1. congruence. Qed.

End round_trips.

(** ** What the tables represent *)

Abbreviation AccrualTable := (gmap (StrategyKey * list Z) (RebateBatchId * StoredAccrual)).
Abbreviation BatchTable := (gmap RebateBatchId BatchRow).

Section views.
Context `{RebateWire, !RebateWireLaws}.
Implicit Types (t : AccrualTable) (rows : BatchTable) (db : RebateSqlite).

Definition batch_accruals t (id : RebateBatchId) : gmap TradeId RebateAccrual :=
  rekey (λ _ v, if decide (v.1 = id) then a ← ok (StoredAccrual_into v.2); Some (acc_trade a, a) else None) t.

Definition attributed_view t : gmap (StrategyKey * TradeId) (RebateBatchId * RebateAccrual) :=
  rekey (λ key v, a ← ok (StoredAccrual_into v.2); Some ((key.1, acc_trade a), (v.1, a))) t.

Definition stored_batches rows t : gmap StrategyKey RebateBatch :=
  rekey (λ id row, if br_open row
                   then stored ← br_payload row; state ← ok (StoredState_into stored);
                        Some (br_strategy row, mk_batch id (br_strategy row) (TokenPair_new (br_lo row) (br_hi row))
                                                 (batch_accruals t id) state)
                   else None) rows.

Definition settlement_view (status : string) (rows : gmap RebateBatchId SettlementRow) :
    gmap RebateBatchId RebateSettlement :=
  omap (λ row, if decide (sr_status row = status) then ok (StoredSettlement_into (sr_payload row)) else None) rows.

Definition sqlite_view db : RebateView :=
  mk_rebate_view (stored_batches (rebate_batch db) (rebate_accrual db)) (attributed_view (rebate_accrual db))
    (settlement_view "settling" (rebate_settlement db)) (settlement_view "executed" (rebate_settlement db))
    (rebate_scan_cursor db).

(** ** Well-formed tables *)

Definition batch_rows_ok rows : Prop :=
  (∀ id row, rows !! id = Some row → br_open row = true →
     br_lo row ≤ br_hi row ∧ ∃ stored st, br_payload row = Some stored ∧ br_state row = StoredState_name stored
       ∧ StoredState_into stored = Ok st)
  ∧ ∀ id row id' row', rows !! id = Some row → rows !! id' = Some row' → br_open row = true → br_open row' = true →
      br_strategy row = br_strategy row' → id = id'.

Definition accrual_rows_ok rows t : Prop := ∀ k text id stored, t !! (k, text) = Some (id, stored) →
  (∃ a, stored = StoredAccrual_from a ∧ acc_strategy a = k ∧ text = trade_id_to_string (acc_trade a))
  ∧ ∃ row, rows !! id = Some row ∧ br_strategy row = k.

Record rebate_db_ok db : Prop := {
  db_batches : batch_rows_ok (rebate_batch db);
  db_accruals : accrual_rows_ok (rebate_batch db) (rebate_accrual db);
  db_settlements : ∀ id row, rebate_settlement db !! id = Some row →
    (∃ x, sr_payload row = StoredSettlement_from x ∧ rp_batch (st_plan x) = id)
    ∧ (sr_status row = "settling"%string ∨ sr_status row = "executed"%string)
    ∧ ∃ batch, rebate_batch db !! id = Some batch ∧ (sr_status row = "executed"%string → br_open batch = false);
  db_cursors : ∀ chain block, rebate_scan_cursor db !! chain = Some block → 0 ≤ block
}.

(** ** Reading the views *)

Lemma lookup_batch_accruals rows t id trade a :
  accrual_rows_ok rows t →
  batch_accruals t id !! trade = Some a
  ↔ acc_trade a = trade ∧ t !! (acc_strategy a, trade_id_to_string trade) = Some (id, StoredAccrual_from a).
Proof.
  intros Hok. unfold batch_accruals. rewrite lookup_rekey.
  - split.
    + intros ([k text] & [bid stored] & Ht & Hf). cbn in Hf. case_decide as Hb; [|done]. subst bid.
      destruct (Hok _ _ _ _ Ht) as [(a' & -> & <- & ->) _]. rewrite StoredAccrual_round_trip in Hf. cbn in Hf.
      injection Hf as <- <-. auto.
    + intros [<- Ht]. eexists _, _. split; [exact Ht|]. cbn. rewrite decide_True by done.
      by rewrite StoredAccrual_round_trip.
  - intros [k1 x1] [b1 s1] [k2 x2] [b2 s2] j w1 w2 H1 H2 Hf1 Hf2. cbn in Hf1, Hf2.
    do 2 (case_decide; [|done]). subst.
    destruct (Hok _ _ _ _ H1) as [(a1 & -> & <- & ->) (r1 & Hr1 & Hk1)].
    destruct (Hok _ _ _ _ H2) as [(a2 & -> & <- & ->) (r2 & Hr2 & Hk2)].
    rewrite StoredAccrual_round_trip in Hf1, Hf2. cbn in Hf1, Hf2. congruence.
Qed.

Lemma lookup_attributed rows t k trade id a :
  accrual_rows_ok rows t →
  attributed_view t !! (k, trade) = Some (id, a)
  ↔ acc_trade a = trade ∧ t !! (k, trade_id_to_string trade) = Some (id, StoredAccrual_from a).
Proof.
  intros Hok. unfold attributed_view. rewrite lookup_rekey.
  - split.
    + intros ([k' text] & [bid stored] & Ht & Hf). cbn in Hf.
      destruct (Hok _ _ _ _ Ht) as [(a' & -> & Hk & ->) _]. rewrite StoredAccrual_round_trip in Hf. cbn in Hf.
      injection Hf as <- <- <- <-. auto.
    + intros [<- Ht]. eexists _, _. split; [exact Ht|]. cbn. by rewrite StoredAccrual_round_trip.
  - intros [k1 x1] [b1 s1] [k2 x2] [b2 s2] j w1 w2 H1 H2 Hf1 Hf2. cbn in Hf1, Hf2.
    destruct (Hok _ _ _ _ H1) as [(a1 & -> & <- & ->) _]. destruct (Hok _ _ _ _ H2) as [(a2 & -> & <- & ->) _].
    rewrite StoredAccrual_round_trip in Hf1, Hf2. cbn in Hf1, Hf2. congruence.
Qed.

Lemma lookup_open rows t k b :
  batch_rows_ok rows →
  stored_batches rows t !! k = Some b
  ↔ ∃ id row stored st, rows !! id = Some row ∧ br_open row = true ∧ br_strategy row = k
      ∧ br_payload row = Some stored ∧ StoredState_into stored = Ok st
      ∧ b = mk_batch id k (TokenPair_new (br_lo row) (br_hi row)) (batch_accruals t id) st.
Proof.
  intros [_ Hone]. unfold stored_batches. rewrite lookup_rekey.
  - split.
    + intros (id & row & Hr & Hf). destruct (br_open row) eqn:Ho; [|done].
      apply bind_Some in Hf as (stored & Hp & (st & Hs%ok_Some & [= <- <-])%bind_Some). by exists id, row, stored, st.
    + intros (id & row & stored & st & Hr & Ho & <- & Hp & Hs & ->). exists id, row. split; [done|].
      by rewrite Ho, Hp; cbn; rewrite Hs.
  - intros id1 r1 id2 r2 j w1 w2 H1 H2 Hf1 Hf2.
    destruct (br_open r1) eqn:Ho1; [|done]. destruct (br_open r2) eqn:Ho2; [|done].
    apply bind_Some in Hf1 as (? & _ & (? & _ & [= E1 _])%bind_Some).
    apply bind_Some in Hf2 as (? & _ & (? & _ & [= E2 _])%bind_Some).
    eapply Hone; [exact H1|exact H2|done..|congruence].
Qed.

Lemma lookup_settlement db status id x :
  rebate_db_ok db → 
  settlement_view status (rebate_settlement db) !! id = Some x
  ↔ ∃ row, rebate_settlement db !! id = Some row ∧ sr_status row = status
      ∧ sr_payload row = StoredSettlement_from x ∧ rp_batch (st_plan x) = id.
Proof.
  intros Hok. unfold settlement_view. rewrite lookup_omap. split.
  - intros (row & Hr & Hf)%bind_Some. case_decide; [|done].
    destruct (db_settlements _ Hok _ _ Hr) as [(y & Hp & Hy) _]. rewrite Hp, StoredSettlement_round_trip in Hf.
    injection Hf as <-. eauto.
  - intros (row & -> & <- & Hp & _). cbn. rewrite decide_True by done. by rewrite Hp, StoredSettlement_round_trip.
Qed.

Lemma open_row_Some rows k id row :
  batch_rows_ok rows →
  open_row rows k = Some (id, row) ↔ rows !! id = Some row ∧ br_strategy row = k ∧ br_open row = true.
Proof.
  intros [_ Hone]. unfold open_row. set (l := filter _ _).
  assert (Hl : ∀ p, p ∈ l ↔ (br_strategy p.2 = k ∧ br_open p.2 = true) ∧ rows !! p.1 = Some p.2).
  { intros [i r]. unfold l. rewrite list_elem_of_filter, elem_of_entries. done. }
  split.
  - intros Hh. assert (Hin : (id, row) ∈ l) by (destruct l; [done|]; injection Hh as ->; left).
    apply Hl in Hin as [[? ?] ?]. auto.
  - intros (Hr & Hk & Ho). assert (Hin : (id, row) ∈ l) by (by apply Hl).
    destruct l as [|[i r] l']; [by apply elem_of_nil in Hin|].
    assert (Hi : (i, r) ∈ (i, r) :: l') by left. apply Hl in Hi as [[Hk' Ho'] Hr']. cbn in *.
    assert (i = id) as -> by (eapply Hone; [exact Hr'|exact Hr|done..|congruence]). congruence.
Qed.

Lemma open_row_None rows k id row :
  batch_rows_ok rows → open_row rows k = None → rows !! id = Some row → br_strategy row = k → br_open row = false.
Proof.
  intros Hok Hn Hr Hk. destruct (br_open row) eqn:Ho; [|done].
  assert (Hs : open_row rows k = Some (id, row)) by (by apply open_row_Some). congruence.
Qed.

End views.

#[local] Arguments settlement_view : simpl never.
#[local] Arguments StoredSettlement_into : simpl never.
#[local] Arguments StoredSettlement_from : simpl never.
#[local] Arguments stored_batches : simpl never.
#[local] Arguments attributed_view : simpl never.

(** ** Statements

    A statement only consumes an outcome. *)

Definition with_outcomes (db : RebateSqlite) (o : list bool) : RebateSqlite :=
  mk_rebate_db (rebate_batch db) (rebate_accrual db) (rebate_settlement db) (rebate_scan_cursor db) o.

Lemma statement_cases db :
  ∃ o, rebate_statement db = (Ok tt, with_outcomes db o) ∨ rebate_statement db = (Err RebateDb, with_outcomes db o).
Proof.
  unfold rebate_statement. destruct (rebate_outcomes db) as [|[] o] eqn:Ho.
  - exists []. left. destruct db. cbn in *. by subst.
  - exists o. by left.
  - exists o. by right.
Qed.

Section laws.
Context `{RebateWire, !RebateWireLaws}.
Implicit Types (t : AccrualTable) (rows : BatchTable) (db : RebateSqlite).

Lemma db_ok_outcomes db o : rebate_db_ok db → rebate_db_ok (with_outcomes db o).
Proof. intros []. by constructor. Qed.

Lemma with_outcomes_twice db o o' : with_outcomes (with_outcomes db o) o' = with_outcomes db o'.
Proof. done. Qed.

(** Run one statement of a command: it succeeds, or the command fails with the tables untouched. *)
Ltac statement Hdb :=
  unfold mbind, cmd_bind;
  let o := fresh "o" in let Hst := fresh "Hst" in
  match goal with |- context [rebate_statement ?db] => destruct (statement_cases db) as (o & [Hst|Hst]) end;
  rewrite Hst; clear Hst; rewrite ?with_outcomes_twice; cbn [with_outcomes rebate_batch rebate_accrual rebate_settlement rebate_scan_cursor];
  [|try (split_and!; [by apply (db_ok_outcomes _ o Hdb)|done..])].

(** ** Accruals *)

(** [t'] adds to [t] exactly the legs [l] of the batch. *)
Definition persisted (b : RebateBatch) (l : list RebateAccrual) t t' : Prop :=
  (∀ key v, t !! key = Some v → t' !! key = Some v)
  ∧ (∀ a, a ∈ l → t' !! (rb_strategy b, trade_id_to_string (acc_trade a)) = Some (rb_id b, StoredAccrual_from a))
  ∧ ∀ key v, t' !! key = Some v → t !! key = Some v
      ∨ ∃ a, a ∈ l ∧ key = (rb_strategy b, trade_id_to_string (acc_trade a)) ∧ v = (rb_id b, StoredAccrual_from a).

Definition free_or_own (b : RebateBatch) t (a : RebateAccrual) : Prop :=
  t !! (rb_strategy b, trade_id_to_string (acc_trade a)) = None
  ∨ t !! (rb_strategy b, trade_id_to_string (acc_trade a)) = Some (rb_id b, StoredAccrual_from a).

(** No other strategy has a leg in the batch. *)
Definition exclusive (b : RebateBatch) t : Prop :=
  ∀ k text stored, t !! (k, text) = Some (rb_id b, stored) → k = rb_strategy b.

Lemma persist_accrual_spec b t a db :
  ∃ o, match persist_accrual b t a db with
       | (Ok t', db') => db' = with_outcomes db o ∧ persisted b [a] t t'
       | (Err e, db') => db' = with_outcomes db o ∧ (exclusive b t → free_or_own b t a → e = RebateDb)
       end.
Proof.
  unfold persist_accrual. set (key := (rb_strategy b, trade_id_to_string (acc_trade a))).
  unfold mbind, cmd_bind. destruct (statement_cases db) as (o & [Hst|Hst]); rewrite Hst; clear Hst;
    [|by exists o].
  destruct (t !! key) as [stored|] eqn:Hk.
  - destruct (statement_cases (with_outcomes db o)) as (o' & [Hst|Hst]); rewrite Hst; clear Hst; exists o'; [|done].
    case_bool_decide as Hs; cbn; (split; [done|]).
    + subst stored. split_and!; [done| |auto]. intros x ->%list_elem_of_singleton. done.
    + intros _ [Hf|Hf]; unfold key in *; congruence.
  - case_decide as Ht; cbn.
    + exists o. split; [done|]. split_and!.
      * intros key' v Hv. rewrite lookup_insert_ne; [done|]. intros <-. congruence.
      * intros x ->%list_elem_of_singleton. by rewrite lookup_insert_eq.
      * intros key' v [(<- & <-)|(? & ?)]%lookup_insert_Some; [|by left].
        right. exists a. split; [by apply list_elem_of_singleton|done].
    + destruct (statement_cases (with_outcomes db o)) as (o' & [Hst|Hst]); rewrite Hst; clear Hst; exists o'; [|done].
      cbn. split; [done|]. intros Hex _. destruct Ht. apply map_empty. intros [k text].
      apply map_lookup_filter_None. right. intros [bid stored] Hin [Hb Htx]. cbn in *. subst.
      apply Hex in Hin as Heq. subst k. unfold key in Hk. congruence.
Qed.

Lemma persisted_exclusive b l t t' : persisted b l t t' → exclusive b t → exclusive b t'.
Proof.
  intros (_ & _ & Hback) Hex k text stored [?|(a & _ & Hk & _)]%Hback; [by eapply Hex|congruence].
Qed.

Lemma persist_accruals_spec b l t db :
  ∃ o, match persist_accruals b t l db with
       | (Ok t', db') => db' = with_outcomes db o ∧ persisted b l t t'
       | (Err e, db') => db' = with_outcomes db o
           ∧ (NoDup (acc_trade <$> l) → exclusive b t → (∀ a, a ∈ l → free_or_own b t a) → e = RebateDb)
       end.
Proof.
  revert t db. induction l as [|a l IH]; intros t db; cbn [persist_accruals].
  { exists (rebate_outcomes db). split; [by destruct db|]. split_and!; [done|set_solver|auto]. }
  unfold mbind, cmd_bind. destruct (persist_accrual_spec b t a db) as (o & Ha).
  destruct (persist_accrual b t a db) as [[t1|e] db1]; destruct Ha as [-> Ha].
  2: { exists o. split; [done|]. intros _ Hex Hf. apply Ha; [done|]. apply Hf. left. }
  destruct (IH t1 (with_outcomes db o)) as (o' & Hl). exists o'.
  destruct (persist_accruals b t1 l (with_outcomes db o)) as [[t2|e] db2]; destruct Hl as [-> Hl]; (split; [done|]).
  - destruct Ha as (A1 & A2 & A3), Hl as (B1 & B2 & B3). split_and!; [auto| |].
    + intros x [->|Hx]%elem_of_cons; [|auto]. apply B1, A2. by apply list_elem_of_singleton.
    + intros key v [[?|(x & Hx%list_elem_of_singleton & Hk)]%A3|(x & Hx & Hk)]%B3; [by left| |].
      * subst x. right. exists a. split; [by left|done].
      * right. exists x. split; [by right|done].
  - rewrite fmap_cons. intros [Hna Hnd]%NoDup_cons Hex Hf. apply Hl; [done|by eapply persisted_exclusive|].
    intros x Hx. destruct (Hf x) as [Hn|Hs]; [by right| |right; by apply (proj1 Ha)].
    left. destruct Ha as (_ & _ & Ha). destruct (t1 !! _) as [v|] eqn:Hv; [|done].
    destruct (Ha _ _ Hv) as [Hv'|(y & Hy%list_elem_of_singleton & Hk & _)]; [congruence|].
    subst y. injection Hk as Hk. apply trade_id_to_string_inj in Hk. destruct Hna. rewrite <-Hk. by apply list_elem_of_fmap_2.
Qed.

(** ** Saving a batch *)

(** The row a batch is saved under: its own open row, or a new one for a strategy without any. *)
Definition slot rows (b : RebateBatch) : Prop :=
  (rows !! rb_id b = None ∧ open_row rows (rb_strategy b) = None)
  ∨ ∃ row, rows !! rb_id b = Some row ∧ br_open row = true ∧ br_strategy row = rb_strategy b
      ∧ br_lo row = lo (rb_pair b) ∧ br_hi row = hi (rb_pair b).

Definition saved_row (b : RebateBatch) : BatchRow :=
  mk_batch_row (rb_strategy b) (lo (rb_pair b)) (hi (rb_pair b)) (StoredState_name (StoredState_try_from (rb_state b)))
    (Some (StoredState_try_from (rb_state b))) true.

Lemma slot_exclusive rows t b : accrual_rows_ok rows t → slot rows b → exclusive b t.
Proof.
  intros Hacc Hslot k text stored Ht. destruct (Hacc _ _ _ _ Ht) as [_ (row & Hr & Hk)].
  destruct Hslot as [[Hn _]|(row' & Hr' & _ & Hk' & _)]; congruence.
Qed.

Lemma saved_rows_ok rows b :
  batch_rows_ok rows → batch_storable b → slot rows b → batch_rows_ok (<[rb_id b := saved_row b]> rows).
Proof.
  intros [Hopen Hone] [_ Hpair Hsound] Hslot. split.
  - intros id row [(<- & <-)|(? & ?)]%lookup_insert_Some Ho; [|by eapply Hopen]. cbn. split; [done|].
    eexists _, _. split_and!; [done..|]. by apply StoredState_round_trip.
  - assert (Hother : ∀ id row, rb_id b ≠ id → rows !! id = Some row → br_open row = true → br_strategy row ≠ rb_strategy b).
    { intros id row Hne Hr Ho Hk. destruct Hslot as [[Hn Hopn]|(row' & Hr' & Ho' & Hk' & _)].
      - apply (open_row_None rows _ id row) in Hopn; [congruence|by split|done..].
      - destruct Hne. eapply Hone; [exact Hr'|exact Hr|done..|congruence]. }
    intros id row id' row' [(<- & <-)|(Hne & Hr)]%lookup_insert_Some [(<- & <-)|(Hne' & Hr')]%lookup_insert_Some Ho Ho' Hk;
      [done| | |by eapply Hone]; cbn in Hk; exfalso; eapply Hother; eauto.
Qed.

Lemma saved_accruals_ok rows b t t' :
  accrual_rows_ok rows t → batch_storable b → slot rows b → persisted b (values (rb_accruals b)) t t' →
  accrual_rows_ok (<[rb_id b := saved_row b]> rows) t'.
Proof.
  intros Hacc [Hkeyed _ _] Hslot (_ & _ & Hback) k text id stored Ht.
  destruct (Hback _ _ Ht) as [Hold|(a & (trade & Ha)%elem_of_values & Hk & Hv)].
  - destruct (Hacc _ _ _ _ Hold) as [Ha (row & Hr & Hk)]. split; [done|].
    destruct (decide (rb_id b = id)) as [<-|]; [rewrite lookup_insert_eq|rewrite lookup_insert_ne by done; eauto].
    exists (saved_row b). split; [done|]. cbn. destruct Hslot as [[Hn _]|(row' & Hr' & _ & Hk' & _)]; congruence.
  - destruct (Hkeyed _ _ Ha) as [Htr Hst]. simplify_eq. split; [eauto|].
    rewrite lookup_insert_eq. by exists (saved_row b).
Qed.

Lemma StoredAccrual_from_inj a a' : StoredAccrual_from a = StoredAccrual_from a' → a = a'.
Proof. intros Heq. pose proof (StoredAccrual_round_trip a) as H1. rewrite Heq, StoredAccrual_round_trip in H1. congruence. Qed.

Lemma saved_batch_accruals rows b t t' :
  accrual_rows_ok rows t → batch_storable b → slot rows b → persisted b (values (rb_accruals b)) t t' →
  batch_accruals t' (rb_id b) = rb_accruals b ∪ batch_accruals t (rb_id b)
  ∧ ∀ id, id ≠ rb_id b → batch_accruals t' id = batch_accruals t id.
Proof.
  intros Hacc Hst Hslot Hp. pose proof (saved_accruals_ok _ _ _ _ Hacc Hst Hslot Hp) as Hacc'.
  pose proof (slot_exclusive _ _ _ Hacc Hslot) as Hex. destruct Hp as (Hfwd & Hnew & Hback).
  assert (Hb : ∀ trade a, rb_accruals b !! trade = Some a → acc_trade a = trade ∧ acc_strategy a = rb_strategy b
    ∧ t' !! (rb_strategy b, trade_id_to_string trade) = Some (rb_id b, StoredAccrual_from a)).
  { intros trade a Ha. destruct (storable_keyed _ Hst _ _ Ha) as [<- Hs]. split_and!; [done..|].
    apply Hnew, elem_of_values. eauto. }
  split.
  - apply map_eq. intros trade. apply option_eq. intros a.
    rewrite (lookup_batch_accruals _ _ _ _ _ Hacc'), lookup_union_Some_raw, (lookup_batch_accruals _ _ _ _ _ Hacc).
    split.
    + intros [<- Ht']. destruct (rb_accruals b !! acc_trade a) as [a'|] eqn:Ha.
      * left. destruct (Hb _ _ Ha) as (_ & _ & Ht).
        assert (acc_strategy a = rb_strategy b) as Hs.
        { destruct (Hback _ _ Ht') as [?|(? & _ & ? & _)]; [by eapply Hex|congruence]. }
        rewrite Hs in Ht'. rewrite Ht in Ht'. f_equal. apply StoredAccrual_from_inj. congruence.
      * right. split; [done|]. split; [done|]. destruct (Hback _ _ Ht') as [?|(x & (tr & Hx)%elem_of_values & Hk & Hv)]; [done|].
        destruct (Hb _ _ Hx) as (Htr & _ & _). assert (a = x) as -> by (apply StoredAccrual_from_inj; congruence). congruence.
    + intros [Ha|(_ & <- & Ht)]; [|split; [done|by apply Hfwd]].
      destruct (Hb _ _ Ha) as (<- & -> & Ht). auto.
  - intros id Hid. apply map_eq. intros trade. apply option_eq. intros a.
    rewrite (lookup_batch_accruals _ _ _ _ _ Hacc'), (lookup_batch_accruals _ _ _ _ _ Hacc).
    split; intros [<- Ht]; (split; [done|]); [|by apply Hfwd].
    destruct (Hback _ _ Ht) as [?|(? & _ & _ & ?)]; congruence.
Qed.


Lemma pair_new_ordered (p : TokenPair) : lo p ≤ hi p → TokenPair_new (lo p) (hi p) = p.
Proof. intros Hp. destruct p as [l h]. cbn in *. unfold TokenPair_new. f_equal; lia. Qed.

Lemma batch_accruals_unfiled rows t id : accrual_rows_ok rows t → rows !! id = None → batch_accruals t id = ∅.
Proof.
  intros Hacc Hn. apply map_empty. intros trade. apply eq_None_not_Some. intros [a Ha].
  apply (lookup_batch_accruals _ _ _ _ _ Hacc) in Ha as [_ Ht].
  destruct (Hacc _ _ _ _ Ht) as [_ (row & Hr & _)]. congruence.
Qed.

(** The open batch that a saved one replaces. *)
Lemma slot_open rows t b :
  batch_rows_ok rows → accrual_rows_ok rows t → batch_storable b → slot rows b →
  from_option rb_accruals ∅ (stored_batches rows t !! rb_strategy b) = batch_accruals t (rb_id b)
  ∧ (∀ old, stored_batches rows t !! rb_strategy b = Some old → rb_id old = rb_id b ∧ rb_pair old = rb_pair b)
  ∧ ∀ k b', stored_batches rows t !! k = Some b' → rb_id b' = rb_id b → k = rb_strategy b.
Proof.
  intros Hrows Hacc Hst [[Hn Hopn]|(row & Hr & Ho & Hk & Hlo & Hhi)].
  - assert (Hnone : stored_batches rows t !! rb_strategy b = None).
    { apply eq_None_not_Some. intros [b' Hb']. apply lookup_open in Hb' as (id & row & ? & ? & Hr & Ho & Hk & _); [|done].
      apply (open_row_None rows _ id row) in Hopn; [congruence|done..]. }
    rewrite Hnone. cbn. split_and!; [by erewrite batch_accruals_unfiled|done|].
    intros k b' (id & row & ? & ? & Hr & _ & _ & _ & _ & ->)%lookup_open Hid; [|done]. cbn in Hid. congruence.
  - destruct Hrows as [Hopen Hone]. destruct (Hopen _ _ Hr Ho) as [Hle (stored & st & Hp & _ & Hs)].
    assert (Hview : stored_batches rows t !! rb_strategy b
      = Some (mk_batch (rb_id b) (rb_strategy b) (rb_pair b) (batch_accruals t (rb_id b)) st)).
    { apply lookup_open; [done|]. exists (rb_id b), row, stored, st. split_and!; try done.
      rewrite Hlo, Hhi, pair_new_ordered; [done|apply Hst]. }
    rewrite Hview. cbn. split_and!; [done| |]; [intros old [= <-]; done|].
    intros k b' (id & row' & ? & ? & Hr' & _ & Hk' & _ & _ & ->)%lookup_open Hid; [|done]. cbn in Hid. congruence.
Qed.

Lemma saved_view rows b t t' :
  batch_rows_ok rows → accrual_rows_ok rows t → batch_storable b → slot rows b →
  persisted b (values (rb_accruals b)) t t' →
  stored_batches (<[rb_id b := saved_row b]> rows) t'
  = <[rb_strategy b := with_accruals b (rb_accruals b ∪ from_option rb_accruals ∅ (stored_batches rows t !! rb_strategy b))]>
      (stored_batches rows t)
  ∧ attributed_view t' = attribute b (attributed_view t).
Proof.
  intros Hrows Hacc Hst Hslot Hp. pose proof (saved_rows_ok _ _ Hrows Hst Hslot) as Hrows'.
  pose proof (saved_accruals_ok _ _ _ _ Hacc Hst Hslot Hp) as Hacc'.
  destruct (saved_batch_accruals _ _ _ _ Hacc Hst Hslot Hp) as [Hown Hrest].
  destruct (slot_open _ t _ Hrows Hacc Hst Hslot) as (-> & _ & Hids). rewrite <-Hown. split.
  - apply map_eq. intros k. apply option_eq. intros x. rewrite lookup_insert_Some, !lookup_open by done. split.
    + intros (id & row & stored & st & [(<- & <-)|(Hne & Hr)]%lookup_insert_Some & Ho & Hk & Hpl & Hs & ->).
      * left. cbn in Hk, Hpl. split; [done|]. injection Hpl as <-. rewrite StoredState_round_trip in Hs by apply Hst.
        injection Hs as <-. unfold with_accruals. cbn. rewrite pair_new_ordered by apply Hst. by rewrite Hk.
      * right. rewrite Hrest by done. split; [|by exists id, row, stored, st]. intros <-. apply Hne.
        destruct Hslot as [[_ Hopn]|(row' & Hr' & Ho' & Hk' & _)].
        -- apply (open_row_None rows _ id row) in Hopn; [congruence|done..].
        -- symmetry. eapply (proj2 Hrows); [exact Hr|exact Hr'|done..|congruence].
    + intros [[<- <-]|(Hne & id & row & stored & st & Hr & Ho & Hk & Hpl & Hs & ->)].
      * exists (rb_id b), (saved_row b), (StoredState_try_from (rb_state b)), (rb_state b).
        rewrite lookup_insert_eq. split_and!; try done; [apply StoredState_round_trip, Hst|].
        unfold with_accruals. cbn. by rewrite pair_new_ordered by apply Hst.
      * assert (id ≠ rb_id b) as Hid.
        { intros ->. apply Hne. destruct Hslot as [[Hn _]|(row' & Hr' & _ & Hk' & _)]; congruence. }
        exists id, row, stored, st. rewrite lookup_insert_ne by done. rewrite Hrest by done. done.
  - apply map_eq. intros [k trade]. rewrite lookup_attribute. destruct Hp as (Hfwd & Hnew & Hback).
    assert (Hb : ∀ a, rb_accruals b !! trade = Some a → attributed_view t' !! (rb_strategy b, trade) = Some (rb_id b, a)).
    { intros a Ha. apply (lookup_attributed _ _ _ _ _ _ Hacc'). destruct (storable_keyed _ Hst _ _ Ha) as [<- _].
      split; [done|]. apply Hnew, elem_of_values. eauto. }
    assert (Hsame : (k = rb_strategy b → rb_accruals b !! trade = None) →
      attributed_view t' !! (k, trade) = attributed_view t !! (k, trade)).
    { intros Hnone. apply option_eq. intros [id a].
      rewrite (lookup_attributed _ _ _ _ _ _ Hacc'), (lookup_attributed _ _ _ _ _ _ Hacc).
      split; intros [<- Ht]; (split; [done|]); [|by apply Hfwd].
      destruct (Hback _ _ Ht) as [?|(x & (tr & Hx)%elem_of_values & Hk & Hv)]; [done|].
      assert (a = x) as -> by (apply StoredAccrual_from_inj; congruence).
      destruct (storable_keyed _ Hst _ _ Hx) as [Htr _]. rewrite Htr in Hnone. rewrite Hnone in Hx by congruence. done. }
    case_decide as Hk; [subst k|by apply Hsame]. destruct (rb_accruals b !! trade) as [a|] eqn:Ha; [by apply Hb|by apply Hsame].
Qed.

(** Where the save goes on after its first select. *)
Definition after_insert rows (b : RebateBatch) : BatchTable :=
  if bool_decide (is_Some (rows !! rb_id b)) || bool_decide (is_Some (open_row rows (rb_strategy b))) then rows
  else <[rb_id b := mk_batch_row (rb_strategy b) (lo (rb_pair b)) (hi (rb_pair b)) "accumulating" None true]> rows.

Definition exact_row rows (b : RebateBatch) : bool :=
  match open_row rows (rb_strategy b) with
  | Some (id, row) => (id =? rb_id b) && (br_lo row =? lo (rb_pair b)) && (br_hi row =? hi (rb_pair b))
  | None => false
  end.

Lemma exact_row_slot rows b :
  batch_rows_ok rows → exact_row (after_insert rows b) b = true →
  slot rows b ∧ ∃ row, after_insert rows b !! rb_id b = Some row ∧ br_open row = true
    ∧ br_strategy row = rb_strategy b ∧ br_lo row = lo (rb_pair b) ∧ br_hi row = hi (rb_pair b)
    ∧ ∀ x, <[rb_id b := x]> (after_insert rows b) = <[rb_id b := x]> rows.
Proof.
  intros Hrows. unfold after_insert, exact_row, slot.
  destruct (bool_decide (is_Some (rows !! rb_id b))) eqn:H1; cbn [orb];
    [|destruct (bool_decide (is_Some (open_row rows (rb_strategy b)))) eqn:H2].
  - destruct (open_row rows _) as [[id row]|] eqn:Hop; [|done]. apply open_row_Some in Hop as (Hr & Hk & Ho); [|done].
    intros Hx. zbool. subst id. split; [right; by exists row|by exists row].
  - destruct (open_row rows _) as [[id row]|] eqn:Hop; [|done]. apply open_row_Some in Hop as (Hr & Hk & Ho); [|done].
    intros Hx. zbool. subst id. split; [right; by exists row|by exists row].
  - apply bool_decide_eq_false in H1, H2. rewrite <-eq_None_not_Some in H1. rewrite <-eq_None_not_Some in H2. intros _. split; [by left|].
    eexists. rewrite lookup_insert_eq. split_and!; try done. intros x. by rewrite insert_insert_eq.
Qed.

Lemma resave_exact rows t b old :
  batch_rows_ok rows → batch_storable b → stored_batches rows t !! rb_strategy b = Some old → rb_id old = rb_id b →
  rb_pair old = rb_pair b → exact_row (after_insert rows b) b = true.
Proof.
  intros Hrows Hst (id & row & stored & st & Hr & Ho & Hk & _ & _ & ->)%lookup_open Hid Hpair; [|done].
  cbn in Hid, Hpair. subst id. destruct (proj1 Hrows _ _ Hr Ho) as [Hle _].
  unfold after_insert. rewrite bool_decide_true by (by eexists). cbn [orb]. unfold exact_row.
  assert (Hop : open_row rows (rb_strategy b) = Some (rb_id b, row)) by (by apply open_row_Some).
  rewrite Hop, Z.eqb_refl. cbn [andb]. apply (f_equal lo) in Hpair as Hl. apply (f_equal hi) in Hpair as Hh.
  cbn in Hl, Hh. rewrite Z.min_l in Hl by done. rewrite Z.max_r in Hh by done. rewrite Hl, Hh, !Z.eqb_refl. done.
Qed.

Lemma attributable_free rows t b :
  accrual_rows_ok rows t → batch_storable b →
  (∀ trade a, rb_accruals b !! trade = Some a →
     attributed_view t !! (rb_strategy b, trade) = None ∨ attributed_view t !! (rb_strategy b, trade) = Some (rb_id b, a))
  ↔ ∀ a, a ∈ values (rb_accruals b) → free_or_own b t a.
Proof.
  intros Hacc Hst. split.
  - intros Hat a (trade & Ha)%elem_of_values. destruct (storable_keyed _ Hst _ _ Ha) as [Htr _]. unfold free_or_own.
    rewrite Htr. destruct (Hat _ _ Ha) as [Hn|Hs].
    + left. destruct (t !! _) as [[id stored]|] eqn:Hs; [|done].
      destruct (Hacc _ _ _ _ Hs) as [(a' & -> & _ & Htx%trade_id_to_string_inj) _]. subst trade.
      assert (attributed_view t !! (rb_strategy b, acc_trade a') = Some (id, a')) by
        (apply (lookup_attributed _ _ _ _ _ _ Hacc); by rewrite Htx in *). congruence.
    + right. by apply (lookup_attributed _ _ _ _ _ _ Hacc) in Hs as [_ Hs].
  - intros Hf trade a Ha. destruct (storable_keyed _ Hst _ _ Ha) as [Htr _].
    assert (Hv : a ∈ values (rb_accruals b)) by (apply elem_of_values; eauto). apply Hf in Hv. unfold free_or_own in Hv.
    rewrite Htr in Hv. destruct Hv as [Hn|Hs].
    + left. apply eq_None_not_Some. intros [[id x] Hx]. apply (lookup_attributed _ _ _ _ _ _ Hacc) in Hx as [_ Hx]. congruence.
    + right. by apply (lookup_attributed _ _ _ _ _ _ Hacc).
Qed.

Lemma NoDup_accrual_trades b : batch_storable b → NoDup (acc_trade <$> values (rb_accruals b)).
Proof.
  intros Hst. unfold values. assert (Heq : acc_trade <$> (entries (rb_accruals b)).*2 = keys (rb_accruals b)).
  { unfold keys. assert (Hin : ∀ p, p ∈ entries (rb_accruals b) → acc_trade p.2 = p.1).
    { intros [t a] Hin%elem_of_entries. by destruct (storable_keyed _ Hst _ _ Hin). }
    revert Hin. generalize (entries (rb_accruals b)) as l. induction l as [|p l IH]; intros Hin; [done|].
    rewrite !fmap_cons. f_equal; [apply Hin; left|apply IH; intros; apply Hin; by right]. }
  rewrite Heq. apply NoDup_keys.
Qed.

Lemma sqlite_save_law b db :
  rebate_db_ok db → batch_storable b →
  match sqlite_save b db with
  | (Ok _, db') => rebate_db_ok db' ∧ sqlite_view db' = view_save b (sqlite_view db) ∧ attributable (sqlite_view db) b
      ∧ (∀ old, v_open (sqlite_view db) !! rb_strategy b = Some old → rb_id old = rb_id b ∧ rb_pair old = rb_pair b)
      ∧ (∀ k b', v_open (sqlite_view db) !! k = Some b' → rb_id b' = rb_id b → k = rb_strategy b)
  | (Err e, db') => rebate_db_ok db' ∧ sqlite_view db' = sqlite_view db
      ∧ ∀ old, v_open (sqlite_view db) !! rb_strategy b = Some old → rb_id old = rb_id b → rb_pair old = rb_pair b →
          attributable (sqlite_view db) b → e = RebateDb
  end.
Proof.
  intros Hdb Hst. pose proof (db_batches _ Hdb) as Hrows. pose proof (db_accruals _ Hdb) as Hacc.
  unfold sqlite_save. statement Hdb. statement Hdb. unfold gets. cbn [rebate_batch with_outcomes].
  fold (after_insert (rebate_batch db) b). statement Hdb.
  fold (exact_row (after_insert (rebate_batch db) b) b).
  destruct (exact_row _ b) eqn:Hex; cbn [negb].
  2: { unfold fail. split_and!; [by apply (db_ok_outcomes _ _ Hdb)|done|]. intros old Ho Hid Hp _. exfalso.
       eapply eq_true_false_abs; [|exact Hex]. by apply (resave_exact _ (rebate_accrual db) _ old). }
  apply exact_row_slot in Hex as (Hslot & row & Hr & Hop & Hk & Hlo & Hhi & Hins); [|done].
  cbn [rebate_accrual with_outcomes].
  match goal with |- context [persist_accruals b ?t ?l ?d] => destruct (persist_accruals_spec b l t d) as (o2 & Hl) end.
  destruct (persist_accruals _ _ _ _) as [[t'|e] db2]; destruct Hl as [-> Hl].
  2: { split_and!; [by apply (db_ok_outcomes _ o2 Hdb)|done|]. intros old _ _ _ Hat. apply Hl.
       - by apply NoDup_accrual_trades.
       - by eapply slot_exclusive.
       - by apply (attributable_free _ _ _ Hacc Hst). }
  statement Hdb. rewrite Hr, Hop. statement Hdb. unfold set_batches, modify.
  cbn [rebate_batch rebate_accrual rebate_settlement rebate_scan_cursor with_outcomes rebate_outcomes].
  rewrite Hins, Hk, Hlo, Hhi. fold (saved_row b).
  destruct (saved_view _ _ _ _ Hrows Hacc Hst Hslot Hl) as [Hv1 Hv2].
  destruct (slot_open _ (rebate_accrual db) _ Hrows Hacc Hst Hslot) as (_ & Hs1 & Hs2).
  split_and!; [|unfold sqlite_view, view_save; cbn; by rewrite Hv1, Hv2| |done|done].
  - constructor; cbn; [by apply saved_rows_ok|by eapply saved_accruals_ok| |apply Hdb].
    intros id srow Hsr. destruct (db_settlements _ Hdb _ _ Hsr) as (Hp1 & Hp2 & br & Hbr & Hcl). split_and!; [done..|].
    destruct (decide (rb_id b = id)) as [<-|]; [|rewrite lookup_insert_ne by done; eauto].
    rewrite lookup_insert_eq. eexists. split; [done|]. intros Hex%Hcl.
    destruct Hslot as [[Hn _]|(br' & Hbr' & Ho' & _)]; congruence.
  - unfold attributable. cbn [v_attributed sqlite_view]. rewrite (attributable_free _ _ _ Hacc Hst). intros a Ha. destruct Hl as (Hfwd & Hnew & _). unfold free_or_own.
    specialize (Hnew a Ha). destruct (rebate_accrual db !! _) as [v|] eqn:Hv; [|by left].
    right. apply Hfwd in Hv. congruence.
Qed.

(** ** Reading open batches *)

Lemma image_list {A B} (f : B → A) (P : B → Prop) (l : list A) :
  (∀ x, x ∈ l → ∃ y, x = f y ∧ P y) → ∃ ys, l = f <$> ys ∧ Forall P ys.
Proof.
  induction l as [|x l IH]; intros Hl; [by exists []|].
  destruct (Hl x) as (y & -> & Hy); [left|]. destruct IH as (ys & -> & Hys); [intros; apply Hl; by right|].
  exists (y :: ys). split; [done|by constructor].
Qed.

Lemma lookup_foldl_accruals (l : list RebateAccrual) (m : gmap TradeId RebateAccrual) trade a :
  NoDup (acc_trade <$> l) → (∀ x, x ∈ l → m !! acc_trade x = None) →
  foldl (λ m a, <[acc_trade a := a]> m) m l !! trade = Some a ↔ m !! trade = Some a ∨ (a ∈ l ∧ acc_trade a = trade).
Proof.
  revert m. induction l as [|x l IH]; intros m Hnd Hm; cbn [foldl]; [set_solver|].
  rewrite fmap_cons in Hnd. apply NoDup_cons in Hnd as [Hx Hnd]. rewrite IH; [|done|].
  - rewrite lookup_insert_Some. split.
    + intros [[[<- <-]|[? ?]]|[? ?]]; [right; split; [left|done]|by left|right; split; [by right|done]].
    + intros [Ht|[[->|Ha]%elem_of_cons <-]]; [|by left; left|by right]. left. right. split; [|done].
      intros <-. assert (Hn : m !! acc_trade x = None) by (apply Hm; left). congruence.
  - intros y Hy. rewrite lookup_insert_ne; [apply Hm; by right|]. intros Heq. apply Hx. rewrite Heq. by apply list_elem_of_fmap_2.
Qed.

Lemma decode_accruals_foldl k m l :
  Forall (λ a, acc_strategy a = k) l →
  try_fold (decode_accrual k) m (StoredAccrual_from <$> l) = Ok (foldl (λ m a, <[acc_trade a := a]> m) m l).
Proof.
  intros Hl. revert m. induction Hl as [|a l Ha _ IH]; intros m; [done|]. rewrite fmap_cons. cbn [try_fold foldl].
  assert (decode_accrual k m (StoredAccrual_from a) = Ok (<[acc_trade a := a]> m)) as ->.
  { unfold decode_accrual. rewrite StoredAccrual_round_trip. cbn [mbind result_bind]. by rewrite bool_decide_true. }
  apply IH.
Qed.

Lemma decode_batch_accruals rows t id k row :
  accrual_rows_ok rows t → rows !! id = Some row → br_strategy row = k →
  try_fold (decode_accrual k) ∅ ((λ p, p.2.2) <$> filter (λ p, p.2.1 = id) (map_to_list t)) = Ok (batch_accruals t id).
Proof.
  intros Hacc Hr Hk. set (L := filter _ (map_to_list t)).
  destruct (image_list (λ a, ((k, trade_id_to_string (acc_trade a)), (id, StoredAccrual_from a)))
    (λ a, acc_strategy a = k) L) as (l & HL & Hl).
  { intros [[k' text] [bid stored]] [Hb Hin%elem_of_map_to_list]%list_elem_of_filter. cbn in Hb. subst bid.
    destruct (Hacc _ _ _ _ Hin) as [(a & -> & <- & ->) (row' & Hr' & Hk')]. exists a.
    assert (acc_strategy a = k) as Hs by congruence. by rewrite Hs. }
  assert (Hnd : NoDup (acc_trade <$> l)).
  { assert (HL1 : NoDup (L.*1)) by (apply NoDup_fmap_filter, NoDup_fst_map_to_list).
    rewrite HL, <-list_fmap_compose in HL1. apply (NoDup_fmap_1 (λ tr, (k, trade_id_to_string tr))).
    by rewrite <-list_fmap_compose. }
  rewrite HL, <-list_fmap_compose. change ((λ p, p.2.2) ∘ _) with StoredAccrual_from.
  rewrite decode_accruals_foldl by done. f_equal. apply map_eq. intros trade. apply option_eq. intros a.
  rewrite lookup_foldl_accruals by done. rewrite (lookup_batch_accruals _ _ _ _ _ Hacc). rewrite lookup_empty.
  assert (Hin : ∀ a, a ∈ l ↔ acc_strategy a = k ∧ t !! (k, trade_id_to_string (acc_trade a)) = Some (id, StoredAccrual_from a)).
  { intros x. rewrite Forall_forall in Hl. split.
    - intros Hx. split; [by apply Hl|].
      assert (Hin : ((k, trade_id_to_string (acc_trade x)), (id, StoredAccrual_from x)) ∈ L)
        by (rewrite HL; by apply (list_elem_of_fmap_2 (λ a, ((k, trade_id_to_string (acc_trade a)), (id, StoredAccrual_from a))))).
      apply list_elem_of_filter in Hin as [_ Hin]. by apply elem_of_map_to_list.
    - intros [_ Ht]. assert (Hin : ((k, trade_id_to_string (acc_trade x)), (id, StoredAccrual_from x)) ∈ L)
        by (apply list_elem_of_filter; split; [done|by apply elem_of_map_to_list]).
      rewrite HL in Hin. apply list_elem_of_fmap in Hin as (y & Hy & Hin).
      assert (x = y) as -> by (apply StoredAccrual_from_inj; congruence). done. }
  rewrite Hin. split.
  - intros [|[[-> Ht] <-]]; [done|auto].
  - intros [<- Ht]. right. split; [|done]. destruct (Hacc _ _ _ _ Ht) as [_ (row' & Hr' & Hk')].
    assert (acc_strategy a = k) as Hs by congruence. rewrite Hs in *. done.
Qed.

Lemma into_batch_spec id row db :
  rebate_db_ok db → rebate_batch db !! id = Some row → br_open row = true →
  ∃ o, match into_batch id row db with
       | (Ok b, db') => db' = with_outcomes db o ∧ rb_id b = id ∧ rb_strategy b = br_strategy row
           ∧ stored_batches (rebate_batch db) (rebate_accrual db) !! br_strategy row = Some b
       | (Err e, db') => db' = with_outcomes db o ∧ e = RebateDb
       end.
Proof.
  intros Hdb Hr Ho. destruct (proj1 (db_batches _ Hdb) _ _ Hr Ho) as [Hle (stored & st & Hp & Hn & Hs)].
  unfold into_batch. rewrite Hp. cbn [ok_or]. unfold mbind at 1, cmd_bind at 1, lift at 1. cbn beta iota.
  rewrite bool_decide_true by done. cbn [negb]. unfold mbind at 1, cmd_bind at 1, lift at 1. rewrite Hs. cbn beta iota.
  unfold mbind at 1, cmd_bind at 1. destruct (statement_cases db) as (o & [Hst|Hst]); rewrite Hst; clear Hst; exists o; [|done].
  unfold mbind, cmd_bind, gets, lift. cbn [with_outcomes rebate_accrual].
  erewrite decode_batch_accruals; [|apply Hdb|exact Hr|done]. cbn. split_and!; [done..|].
  apply lookup_open; [apply Hdb|]. by exists id, row, stored, st.
Qed.

Lemma into_batches_spec (rows : list (RebateBatchId * BatchRow)) db :
  rebate_db_ok db → (∀ p, p ∈ rows → rebate_batch db !! p.1 = Some p.2 ∧ br_open p.2 = true) →
  ∃ o, match into_batches rows db with
       | (Ok bs, db') => db' = with_outcomes db o
           ∧ Forall2 (λ p b, rb_id b = p.1 ∧ rb_strategy b = br_strategy p.2
                             ∧ stored_batches (rebate_batch db) (rebate_accrual db) !! rb_strategy b = Some b) rows bs
       | (Err e, db') => db' = with_outcomes db o ∧ e = RebateDb
       end.
Proof.
  revert db. induction rows as [|[id row] rows IH]; intros db Hdb Hin.
  { exists (rebate_outcomes db). split; [by destruct db|constructor]. }
  cbn [into_batches]. unfold mbind, cmd_bind.
  destruct (Hin (id, row)) as [Hr Ho]; [left|]. destruct (into_batch_spec id row db Hdb Hr Ho) as (o & Hb).
  destruct (into_batch id row db) as [[b|e] db1]; [|exists o; done]. destruct Hb as (-> & Hid & Hk & Hv).
  destruct (IH (with_outcomes db o)) as (o' & Hbs); [by apply db_ok_outcomes|intros; apply Hin; by right|].
  exists o'. destruct (into_batches rows (with_outcomes db o)) as [[bs|e] db2]; [|done].
  destruct Hbs as [-> Hbs]. split; [done|]. constructor; [|done]. cbn. by rewrite Hk.
Qed.

Lemma sqlite_open_batches_law db :
  rebate_db_ok db →
  match sqlite_open_batches db with
  | (Ok bs, db') => rebate_db_ok db' ∧ sqlite_view db' = sqlite_view db ∧ NoDup (rb_strategy <$> bs)
      ∧ ∀ b, b ∈ bs ↔ v_open (sqlite_view db) !! rb_strategy b = Some b
  | (Err e, db') => rebate_db_ok db' ∧ sqlite_view db' = sqlite_view db ∧ e = RebateDb
  end.
Proof.
  intros Hdb. unfold sqlite_open_batches. statement Hdb. unfold gets. cbn [rebate_batch with_outcomes].
  set (rows := filter _ (entries (rebate_batch db))).
  assert (Hrows : ∀ p, p ∈ rows ↔ rebate_batch db !! p.1 = Some p.2 ∧ br_open p.2 = true).
  { intros [i r]. unfold rows. rewrite list_elem_of_filter, elem_of_entries. cbn. tauto. }
  destruct (into_batches_spec rows (with_outcomes db o)) as (o' & Hbs); [by apply db_ok_outcomes|intros p Hp; by apply Hrows|].
  destruct (into_batches rows (with_outcomes db o)) as [[bs|e] db']; destruct Hbs as [-> Hbs];
    [|split_and!; [by do 2 apply db_ok_outcomes|done|done]].
  split_and!; [by do 2 apply db_ok_outcomes|done| |].
  - assert (Hs : (λ p : RebateBatchId * BatchRow, br_strategy p.2) <$> rows = rb_strategy <$> bs).
    { clear Hrows. clearbody rows. induction Hbs as [|p b rows' bs' (_ & Hk & _) _ IH]; [done|]. rewrite !fmap_cons. by rewrite Hk, IH. }
    rewrite <-Hs. apply NoDup_fmap_2_strong.
    + intros [i r] [j q] [Hi Hoi]%Hrows [Hj Hoj]%Hrows Hk. cbn in *.
      assert (i = j) as -> by (eapply (proj2 (db_batches _ Hdb)); eauto). congruence.
    + apply NoDup_filter. apply (NoDup_fmap_1 fst), NoDup_keys.
  - intros b. cbn [v_open sqlite_view]. split.
    + intros Hb. apply list_elem_of_lookup in Hb as [i Hi]. destruct (Forall2_lookup_r _ _ _ _ _ Hbs Hi) as (p & _ & _ & _ & Hv). done.
    + intros Hv. pose proof Hv as (id & row & stored & st & Hr & Ho & Hk & _)%lookup_open; [|apply Hdb].
      assert (Hp : (id, row) ∈ rows) by (by apply Hrows). apply list_elem_of_lookup in Hp as [i Hi].
      destruct (Forall2_lookup_l _ _ _ _ _ Hbs Hi) as (b' & Hb' & _ & Hk' & Hv'). cbn in Hk', Hv'.
      rewrite Hk', Hk, Hv in Hv'. injection Hv' as ->. by apply list_elem_of_lookup_2 in Hb'.
Qed.

(** ** Closing a batch *)

Lemma closed_rows_ok rows id row :
  rows !! id = Some row → batch_rows_ok rows → batch_rows_ok (<[id := close_row row]> rows).
Proof.
  intros Hr [Hopen Hone]. split.
  - intros i r [(<- & <-)|(? & ?)]%lookup_insert_Some Ho; [done|by eapply Hopen].
  - intros i r j q [(<- & <-)|(? & ?)]%lookup_insert_Some [(<- & <-)|(? & ?)]%lookup_insert_Some Ho Ho' Hk;
      [done|done|done|by eapply Hone].
Qed.

Lemma closed_accruals_ok rows t id row :
  rows !! id = Some row → accrual_rows_ok rows t → accrual_rows_ok (<[id := close_row row]> rows) t.
Proof.
  intros Hr Hacc k text i stored Ht. destruct (Hacc _ _ _ _ Ht) as [Ha (r & Hi & Hk)]. split; [done|].
  destruct (decide (id = i)) as [<-|]; [|rewrite lookup_insert_ne by done; eauto].
  rewrite lookup_insert_eq. exists (close_row row). split; [done|]. cbn. congruence.
Qed.

Lemma closed_settlements_ok rows id row (t : gmap RebateBatchId SettlementRow) :
  (∀ i r, t !! i = Some r → (∃ x, sr_payload r = StoredSettlement_from x ∧ rp_batch (st_plan x) = i)
     ∧ (sr_status r = "settling"%string ∨ sr_status r = "executed"%string)
     ∧ ∃ batch, rows !! i = Some batch ∧ (sr_status r = "executed"%string → br_open batch = false)) →
  ∀ i r, t !! i = Some r → (∃ x, sr_payload r = StoredSettlement_from x ∧ rp_batch (st_plan x) = i)
     ∧ (sr_status r = "settling"%string ∨ sr_status r = "executed"%string)
     ∧ ∃ batch, <[id := close_row row]> rows !! i = Some batch ∧ (sr_status r = "executed"%string → br_open batch = false).
Proof.
  intros Ht i r Hr. destruct (Ht i r Hr) as (H1 & H2 & b & Hb & Hc). split_and!; [done..|].
  destruct (decide (id = i)) as [->|]; [rewrite lookup_insert_eq|rewrite lookup_insert_ne by done]; eauto.
Qed.

Lemma closed_stored_batches rows t id row :
  batch_rows_ok rows → rows !! id = Some row →
  stored_batches (<[id := close_row row]> rows) t = filter (λ p, rb_id p.2 ≠ id) (stored_batches rows t).
Proof.
  intros Hrows Hr. apply map_eq. intros k. apply option_eq. intros b. rewrite map_lookup_filter_Some, !lookup_open;
    [|done|by apply closed_rows_ok]. cbn. split.
  - intros (i & r & stored & st & [(<- & <-)|(Hne & Hi)]%lookup_insert_Some & Ho & Hk & Hp & Hs & ->); [done|].
    split; [by exists i, r, stored, st|done].
  - intros [(i & r & stored & st & Hi & Ho & Hk & Hp & Hs & ->) Hne]. cbn in Hne. exists i, r, stored, st.
    by rewrite lookup_insert_ne.
Qed.

Lemma absent_stored_batches rows t id :
  batch_rows_ok rows → (∀ row, rows !! id = Some row → br_open row = false) →
  filter (λ p, rb_id p.2 ≠ id) (stored_batches rows t) = stored_batches rows t.
Proof.
  intros Hrows Hn. apply map_filter_id. intros k b (i & r & stored & st & Hi & Ho & _ & _ & _ & ->)%lookup_open; [|done].
  cbn. intros ->. apply Hn in Hi. congruence.
Qed.

Lemma sqlite_close_law id db :
  rebate_db_ok db →
  match sqlite_close id db with
  | (Ok _, db') => rebate_db_ok db' ∧ sqlite_view db' = view_close id (sqlite_view db)
  | (Err _, db') => rebate_db_ok db' ∧ sqlite_view db' = sqlite_view db
  end.
Proof.
  intros Hdb. unfold sqlite_close. statement Hdb. unfold gets, set_batches, modify.
  cbn [rebate_batch rebate_accrual rebate_settlement rebate_scan_cursor with_outcomes rebate_outcomes].
  destruct Hdb as [Hrows Hacc Hset Hcur]. destruct (rebate_batch db !! id) as [row|] eqn:Hr; [destruct (br_open row) eqn:Ho|].
  - split; [constructor; cbn; [by apply closed_rows_ok|by apply closed_accruals_ok|by apply closed_settlements_ok|done]|].
    unfold sqlite_view, view_close. cbn. by rewrite closed_stored_batches.
  - split; [by constructor|]. unfold sqlite_view, view_close. cbn. rewrite absent_stored_batches; [done..|naive_solver].
  - split; [by constructor|]. unfold sqlite_view, view_close. cbn. rewrite absent_stored_batches; [done..|naive_solver].
Qed.

(** ** Settlements *)

Lemma settlement_view_insert status id row (rows : gmap RebateBatchId SettlementRow) :
  settlement_view status (<[id := row]> rows)
  = if decide (sr_status row = status)
    then match StoredSettlement_into (sr_payload row) with
         | Ok x => <[id := x]> (settlement_view status rows)
         | Err _ => delete id (settlement_view status rows)
         end
    else delete id (settlement_view status rows).
Proof.
  unfold settlement_view. case_decide as Hs; [destruct (StoredSettlement_into (sr_payload row)) as [x|] eqn:Hx|].
  - rewrite (omap_insert_Some _ _ _ _ x); [done|]. by rewrite decide_True, Hx.
  - rewrite omap_insert_None; [done|]. by rewrite decide_True, Hx.
  - rewrite omap_insert_None; [done|]. by rewrite decide_False.
Qed.

Lemma settlement_of_row db id row x :
  rebate_db_ok db → rebate_settlement db !! id = Some row → sr_payload row = StoredSettlement_from x →
  view_settlement (sqlite_view db) id = Some x.
Proof.
  intros Hdb Hr Hp. unfold view_settlement. cbn [v_settling v_executed sqlite_view]. unfold settlement_view.
  rewrite !lookup_omap, Hr. cbn. rewrite Hp, StoredSettlement_round_trip.
  destruct (proj1 (proj2 (db_settlements _ Hdb _ _ Hr))) as [Hs|Hs]; by rewrite Hs.
Qed.

Lemma no_settlement_row db id :
  rebate_db_ok db → rebate_settlement db !! id = None ↔ view_settlement (sqlite_view db) id = None.
Proof.
  intros Hdb. split.
  - intros Hn. unfold view_settlement. cbn [v_settling v_executed sqlite_view]. unfold settlement_view.
    by rewrite !lookup_omap, Hn.
  - intros Hn. destruct (rebate_settlement db !! id) as [row|] eqn:Hr; [|done].
    destruct (proj1 (db_settlements _ Hdb _ _ Hr)) as (x & Hx & _). by rewrite (settlement_of_row _ _ _ x Hdb Hr) in Hn.
Qed.

(** The row that opens a settlement. *)
Lemma begun_view x db o :
  rebate_db_ok db → rebate_settlement db !! rp_batch (st_plan x) = None → is_Some (rebate_batch db !! rp_batch (st_plan x)) →
  let db' := mk_rebate_db (rebate_batch db) (rebate_accrual db)
    (<[rp_batch (st_plan x) := mk_settlement_row "settling" (StoredSettlement_from x) (key_maker (rp_strategy (st_plan x)))
         (executed_at x)]> (rebate_settlement db)) (rebate_scan_cursor db) o in
  rebate_db_ok db' ∧ sqlite_view db' = view_begin x (sqlite_view db).
Proof.
  intros Hdb Hn [br Hbr]. split.
  - destruct Hdb as [Hrows Hacc Hset Hcur]. constructor; cbn; [done|done| |done].
    intros id row [(<- & <-)|(? & ?)]%lookup_insert_Some; [|by apply Hset]. cbn. split_and!; [eauto|by left|].
    exists br. split; [done|]. intros [=].
  - unfold sqlite_view, view_begin. cbn. rewrite !settlement_view_insert. cbn. rewrite StoredSettlement_round_trip.
    f_equal. apply delete_id. unfold settlement_view. by rewrite lookup_omap, Hn.
Qed.

Lemma rebate_i64_of_Ok v x : rebate_i64_of v = Ok x → x = v.
Proof. unfold rebate_i64_of. case_match; [by intros [= <-]|done]. Qed.

Lemma sqlite_begin_law x db :
  rebate_db_ok db →
  match sqlite_begin_settlement x db with
  | (Ok _, db') => rebate_db_ok db'
      ∧ match view_settlement (sqlite_view db) (rp_batch (st_plan x)) with
        | None => sqlite_view db' = view_begin x (sqlite_view db)
        | Some y => sqlite_view db' = sqlite_view db ∧ same_settlement y x
        end
  | (Err _, db') => rebate_db_ok db'
      ∧ (sqlite_view db' = sqlite_view db
         ∨ view_settlement (sqlite_view db) (rp_batch (st_plan x)) = None ∧ sqlite_view db' = view_begin x (sqlite_view db))
  end.
Proof.
  intros Hdb. unfold sqlite_begin_settlement. unfold mbind at 1, cmd_bind at 1, lift at 1.
  destruct (rebate_i64_of (executed_at x)) as [at_|e] eqn:Hat; [|auto]. apply rebate_i64_of_Ok in Hat. subst at_.
  statement Hdb; [|split; [by apply (db_ok_outcomes _ o)|by left]]. unfold gets. cbn [rebate_settlement rebate_batch with_outcomes].
  destruct (rebate_settlement db !! rp_batch (st_plan x)) as [row|] eqn:Hr.
  - unfold mret at 1, cmd_ret at 1. cbn beta iota. statement Hdb; [|split; [by apply (db_ok_outcomes _ o0)|by left]]. rewrite Hr.
    destruct (proj1 (db_settlements _ Hdb _ _ Hr)) as (y & Hy & _). rewrite (settlement_of_row _ _ _ y Hdb Hr Hy).
    unfold lift. rewrite Hy, StoredSettlement_round_trip. cbn beta iota. destruct (_ && _) eqn:Hx; cbn.
    + apply andb_true_iff in Hx as [Hx1 Hx3]. apply andb_true_iff in Hx1 as [Hx1 Hx2].
      apply bool_decide_eq_true in Hx1, Hx3. zbool. split; [by apply (db_ok_outcomes _ o0)|]. done.
    + split; [by apply (db_ok_outcomes _ o0)|by left].
  - pose proof (proj1 (no_settlement_row _ _ Hdb) Hr) as Hvn. rewrite Hvn.
    case_bool_decide; [|split; [by apply (db_ok_outcomes _ o)|by left]].
    unfold set_settlements, modify. cbn [rebate_accrual rebate_scan_cursor rebate_outcomes with_outcomes].
    match goal with |- context [rebate_statement ?d] => destruct (statement_cases d) as (o' & [Hst|Hst]) end;
      rewrite Hst; clear Hst; cbn [with_outcomes rebate_batch rebate_accrual rebate_settlement rebate_scan_cursor];
      pose proof (begun_view x db o' Hdb Hr ltac:(done)) as [Hok Hv].
    + unfold gets. cbn [rebate_settlement]. rewrite lookup_insert_eq. unfold lift. cbn [sr_payload].
      rewrite StoredSettlement_round_trip. cbn beta iota. rewrite !bool_decide_true, Z.eqb_refl by done. done.
    + split; [done|]. by right.
Qed.

Lemma sqlite_pending_law db :
  rebate_db_ok db →
  match sqlite_pending_settlements db with
  | (Ok xs, db') => rebate_db_ok db' ∧ sqlite_view db' = sqlite_view db ∧ NoDup ((λ x, rp_batch (st_plan x)) <$> xs)
      ∧ ∀ x, x ∈ xs ↔ v_settling (sqlite_view db) !! rp_batch (st_plan x) = Some x
  | (Err e, db') => rebate_db_ok db' ∧ sqlite_view db' = sqlite_view db ∧ e = RebateDb
  end.
Proof.
  intros Hdb. unfold sqlite_pending_settlements. statement Hdb. unfold gets, lift. cbn [rebate_settlement with_outcomes].
  set (rows := filter _ (entries (rebate_settlement db))).
  assert (Hrows : ∀ p, p ∈ rows ↔ rebate_settlement db !! p.1 = Some p.2 ∧ sr_status p.2 = "settling"%string).
  { intros [i r]. unfold rows. rewrite list_elem_of_filter, elem_of_entries. cbn. tauto. }
  assert (Hall : ∃ xs, collect (λ p, StoredSettlement_into (sr_payload p.2)) rows = Ok xs
    ∧ Forall2 (λ p x, sr_payload p.2 = StoredSettlement_from x ∧ rp_batch (st_plan x) = p.1) rows xs).
  { assert (Hr : ∀ p, p ∈ rows → rebate_settlement db !! p.1 = Some p.2) by (intros p Hp; by apply Hrows).
    clear Hrows. clearbody rows. induction rows as [|[i r] rows IH]; [by exists []|].
    destruct IH as (xs & Hc & Hf); [intros; apply Hr; by right|].
    destruct (proj1 (db_settlements _ Hdb i r (Hr (i, r) ltac:(left)))) as (x & Hx & Hi). exists (x :: xs).
    cbn. rewrite Hx, StoredSettlement_round_trip. cbn. rewrite Hc. split; [done|by constructor]. }
  destruct Hall as (xs & -> & Hf). split_and!; [by apply (db_ok_outcomes _ o)|done| |].
  - assert (Hs : rows.*1 = (λ x, rp_batch (st_plan x)) <$> xs).
    { clear Hrows. clearbody rows. induction Hf as [|p x rows' xs' (_ & Hk) _ IH]; [done|]. rewrite !fmap_cons. by rewrite Hk, IH. }
    rewrite <-Hs. apply NoDup_fmap_filter, NoDup_keys.
  - intros x. cbn [v_settling sqlite_view]. rewrite lookup_settlement by done. split.
    + intros [i Hi]%list_elem_of_lookup. destruct (Forall2_lookup_r _ _ _ _ _ Hf Hi) as (p & Hp%list_elem_of_lookup_2 & Hx & Hb).
      apply Hrows in Hp as [Hp Hs]. exists p.2. by rewrite Hb.
    + intros (row & Hr & Hs & Hp & _). assert (Hin : (rp_batch (st_plan x), row) ∈ rows) by (by apply Hrows).
      apply list_elem_of_lookup in Hin as [i Hi]. destruct (Forall2_lookup_l _ _ _ _ _ Hf Hi) as (y & Hy & Hp' & _).
      cbn in Hp'. rewrite Hp in Hp'. assert (x = y) as ->; [|by apply list_elem_of_lookup_2 in Hy].
      pose proof (StoredSettlement_round_trip x) as H1. rewrite Hp', StoredSettlement_round_trip in H1. congruence.
Qed.

Lemma finished_view id row (t : gmap RebateBatchId SettlementRow) db o :
  rebate_db_ok db → rebate_settlement db !! id = Some row →
  t = (if bool_decide (sr_status row = "settling"%string)
       then <[id := mk_settlement_row "executed" (sr_payload row) (sr_maker row) (sr_executed_at row)]> (rebate_settlement db)
       else rebate_settlement db) →
  let rows := match rebate_batch db !! id with
              | Some row => <[id := close_row row]> (rebate_batch db)
              | None => rebate_batch db
              end in
  let db' := mk_rebate_db rows (rebate_accrual db) t (rebate_scan_cursor db) o in
  rebate_db_ok db' ∧ sqlite_view db' = view_finish id (sqlite_view db) ∧ is_Some (view_settlement (sqlite_view db) id).
Proof.
  intros Hdb Hr Ht. destruct (db_settlements _ Hdb _ _ Hr) as ((x & Hx & Hid) & Hst & br & Hbr & Hbc).
  pose proof (settlement_of_row _ _ _ x Hdb Hr Hx) as Hvs.
  assert (Hopen : stored_batches (match rebate_batch db !! id with
      | Some row => <[id := close_row row]> (rebate_batch db) | None => rebate_batch db end) (rebate_accrual db)
    = filter (λ p, rb_id p.2 ≠ id) (stored_batches (rebate_batch db) (rebate_accrual db))).
  { destruct (rebate_batch db !! id) eqn:Hb; [by apply closed_stored_batches; [apply Hdb|]|].
    rewrite absent_stored_batches; [done|apply Hdb|naive_solver]. }
  split_and!; [| |by rewrite Hvs].
  - destruct Hdb as [Hrows Hacc Hset Hcur]. constructor; cbn; [..|done].
    + destruct (rebate_batch db !! id) eqn:Hb; [by apply closed_rows_ok|done].
    + destruct (rebate_batch db !! id) eqn:Hb; [by apply closed_accruals_ok|done].
    + rewrite Hbr. pose proof (closed_settlements_ok _ id br _ Hset) as Hset'. subst t. case_bool_decide; [|done].
      intros i r [(<- & <-)|(? & ?)]%lookup_insert_Some; [|by apply Hset'].
      cbn. split_and!; [by exists x|by right|]. exists (close_row br). by rewrite lookup_insert_eq.
  - unfold sqlite_view, view_finish. cbn. rewrite Hopen. unfold view_settlement in Hvs. cbn in Hvs.
    assert (Hs1 : settlement_view "settling" (rebate_settlement db) !! id
      = if bool_decide (sr_status row = "settling"%string) then Some x else None).
    { unfold settlement_view. rewrite lookup_omap, Hr. cbn. rewrite Hx, StoredSettlement_round_trip. 
      destruct Hst as [Hs|Hs]; by rewrite Hs. }
    rewrite Hs1. subst t. case_bool_decide as Hs.
    + rewrite !settlement_view_insert. cbn. rewrite Hx, StoredSettlement_round_trip. done.
    + by rewrite delete_id.
Qed.

Lemma sqlite_finish_law id db :
  rebate_db_ok db →
  match sqlite_finish_settlement id db with
  | (Ok _, db') => rebate_db_ok db' ∧ sqlite_view db' = view_finish id (sqlite_view db)
      ∧ is_Some (view_settlement (sqlite_view db) id)
  | (Err e, db') => rebate_db_ok db' ∧ sqlite_view db' = sqlite_view db ∧ e = RebateDb
  end.
Proof.
  intros Hdb. unfold sqlite_finish_settlement. statement Hdb. statement Hdb. unfold gets.
  cbn [rebate_settlement rebate_batch with_outcomes].
  destruct (rebate_settlement db !! id) as [row|] eqn:Hr.
  - destruct (bool_decide (sr_status row = "settling"%string)) eqn:Hs.
    + unfold mret at 1, cmd_ret at 1. cbn beta iota. statement Hdb. statement Hdb.
      unfold set_settlements, modify. cbn [rebate_accrual rebate_scan_cursor rebate_outcomes with_outcomes].
      apply (finished_view id row); [done..|]. by rewrite Hs.
    + statement Hdb. destruct (bool_decide (sr_status row = "executed"%string)); [|unfold fail; cbn beta iota; split_and!; [by apply (db_ok_outcomes _ o1)|done..]].
      unfold mret at 1, cmd_ret at 1. cbn beta iota. statement Hdb. statement Hdb.
      unfold set_settlements, modify. cbn [rebate_accrual rebate_scan_cursor rebate_outcomes with_outcomes].
      apply (finished_view id row); [done..|]. by rewrite Hs.
  - statement Hdb. unfold fail. cbn beta iota. split_and!; [by apply (db_ok_outcomes _ o1)|done..].
Qed.

Lemma sqlite_scan_law chain db :
  rebate_db_ok db →
  match sqlite_scan_cursor chain db with
  | (Ok c, db') => rebate_db_ok db' ∧ sqlite_view db' = sqlite_view db ∧ c = v_cursor (sqlite_view db) !! chain
  | (Err _, db') => rebate_db_ok db' ∧ sqlite_view db' = sqlite_view db
  end.
Proof.
  intros Hdb. unfold sqlite_scan_cursor. unfold mbind at 1, cmd_bind at 1, lift at 1.
  destruct (rebate_i64_of chain) as [c|e] eqn:Hc; [|auto]. apply rebate_i64_of_Ok in Hc. subst c.
  statement Hdb. unfold gets. cbn [rebate_scan_cursor with_outcomes]. unfold sqlite_view. cbn [v_cursor].
  destruct (rebate_scan_cursor db !! chain) as [b|] eqn:Hb; cbn.
  - unfold lift, u64_of. destruct (b <? 0) eqn:Hneg; zbool; cbn; split_and!; try done; by apply (db_ok_outcomes _ o).
  - split_and!; try done; by apply (db_ok_outcomes _ o).
Qed.

Lemma sqlite_save_scan_law chain block db :
  rebate_db_ok db → 0 ≤ block →
  match sqlite_save_scan_cursor chain block db with
  | (Ok _, db') => rebate_db_ok db' ∧ sqlite_view db' = view_cursor chain block (sqlite_view db)
  | (Err _, db') => rebate_db_ok db' ∧ sqlite_view db' = sqlite_view db
  end.
Proof.
  intros Hdb Hpos. unfold sqlite_save_scan_cursor. unfold mbind at 1, cmd_bind at 1, lift at 1.
  destruct (rebate_i64_of chain) as [c|e] eqn:Hc; [|auto]. apply rebate_i64_of_Ok in Hc. subst c.
  unfold mbind at 1, cmd_bind at 1, lift at 1.
  destruct (rebate_i64_of block) as [c|e] eqn:Hc; [|auto]. apply rebate_i64_of_Ok in Hc. subst c.
  statement Hdb. unfold modify. cbn [rebate_scan_cursor rebate_outcomes].
  assert (Hcur : ∀ m : gmap Z Z, match m !! chain with
      | Some current => if current <=? block then <[chain := block]> m else m
      | None => <[chain := block]> m end = <[chain := Z.max block (default block (m !! chain))]> m).
  { intros m. destruct (m !! chain) as [c|] eqn:Hm; cbn; [|by rewrite Z.max_id].
    destruct (c <=? block) eqn:Hle; zbool; [by rewrite Z.max_l|]. rewrite Z.max_r by lia. by rewrite insert_id. }
  rewrite Hcur. split; [|unfold sqlite_view, view_cursor; cbn; done].
  destruct Hdb as [Hrows Hacc Hset Hpc]. constructor; cbn; [done..|].
  intros c b [(<- & <-)|(? & ?)]%lookup_insert_Some; [lia|by eapply Hpc].
Qed.

Lemma sqlite_view_ok db :
  rebate_db_ok db →
  (∀ k b, v_open (sqlite_view db) !! k = Some b → rb_strategy b = k
     ∧ v_executed (sqlite_view db) !! rb_id b = None
     ∧ ∀ (tr : TradeId) a, rb_accruals b !! tr = Some a → v_attributed (sqlite_view db) !! (k, tr) = Some (rb_id b, a))
  ∧ (∀ k k' b b', v_open (sqlite_view db) !! k = Some b → v_open (sqlite_view db) !! k' = Some b' → rb_id b = rb_id b' → k = k')
  ∧ (∀ id x, v_settling (sqlite_view db) !! id = Some x → rp_batch (st_plan x) = id ∧ v_executed (sqlite_view db) !! id = None).
Proof.
  intros Hdb. pose proof (db_batches _ Hdb) as Hrows. pose proof (db_accruals _ Hdb) as Hacc.
  cbn [v_open v_attributed v_settling v_executed sqlite_view]. split_and!.
  - intros k b (id & row & stored & st & Hr & Ho & Hk & Hp & Hs & ->)%lookup_open; [|done]. cbn. split_and!; [done| |].
    { apply eq_None_not_Some. intros [x Hx]. apply lookup_settlement in Hx as (srow & Hsr & Hse & _); [|done].
      destruct (db_settlements _ Hdb _ _ Hsr) as (_ & _ & br & Hbr & Hbc).
      assert (br = row) as -> by congruence. specialize (Hbc Hse). congruence. }
    intros trade a Ha. apply (lookup_batch_accruals _ _ _ _ _ Hacc) in Ha as [Htr Ht].
    apply (lookup_attributed _ _ _ _ _ _ Hacc). split; [done|].
    destruct (Hacc _ _ _ _ Ht) as [_ (row' & Hr' & Hk')]. assert (acc_strategy a = k) as <- by congruence. done.
  - intros k k' b b' (id & row & ? & ? & Hr & _ & Hk & _ & _ & ->)%lookup_open
      (id' & row' & ? & ? & Hr' & _ & Hk' & _ & _ & ->)%lookup_open; [|done..]. cbn. congruence.
  - intros id x (row & Hr & Hs & Hp & Hid)%lookup_settlement; [|done]. split; [done|].
    unfold settlement_view. rewrite lookup_omap, Hr. cbn. by rewrite Hs.
Qed.

#[global] Instance SqliteRebateStore_laws : RebateStoreLaws RebateSqlite := {|
  rebate_store_ok := rebate_db_ok;
  view := sqlite_view;
  view_ok := sqlite_view_ok;
  save_law := sqlite_save_law;
  open_batches_law := sqlite_open_batches_law;
  close_law := sqlite_close_law;
  begin_law := sqlite_begin_law;
  pending_law := sqlite_pending_law;
  finish_law := sqlite_finish_law;
  scan_law := sqlite_scan_law;
  save_scan_law := sqlite_save_scan_law
|}.

(** ** Round trip *)

(** What is saved is read back.  After a successful save, reading the open batches returns the batch exactly as it was
    saved, state, plan, authorization, signature and calldata included, with the legs it already had added. *)
Theorem saved_batch_is_read_back b db db1 bs db2 :
  rebate_db_ok db → batch_storable b → sqlite_save b db = (Ok tt, db1) → sqlite_open_batches db1 = (Ok bs, db2) →
  with_accruals b (rb_accruals b ∪ from_option rb_accruals ∅ (v_open (sqlite_view db) !! rb_strategy b)) ∈ bs
  ∧ ∀ b', b' ∈ bs → rb_strategy b' = rb_strategy b → rb_id b' = rb_id b ∧ rb_state b' = rb_state b.
Proof.
  intros Hdb Hst Hsave Hread. pose proof (sqlite_save_law b db Hdb Hst) as Hlaw. rewrite Hsave in Hlaw.
  destruct Hlaw as (Hdb1 & Hv & _ & _). pose proof (sqlite_open_batches_law db1 Hdb1) as Hopen. rewrite Hread in Hopen.
  destruct Hopen as (_ & _ & _ & Hin). split.
  - apply Hin. rewrite Hv. cbn. apply lookup_insert_eq.
  - intros b' Hb' Hk. apply Hin in Hb'. rewrite Hv, Hk in Hb'. cbn in Hb'. rewrite lookup_insert_eq in Hb'.
    injection Hb' as <-. done.
Qed.

End laws.
