(* ===== verification/RebateSqliteRefines.v ===== *)
(** * The SQLite rebate store is its specification

    Every operation of [crates/adapters/src/rebate/sqlite_store.rs] does what the abstract store promises, with the same
    result, unless one of its statements failed; then it fails, and leaves no trace but for a settlement that was already
    recorded. *)

From stdpp Require Import strings.
From Stdlib Require Import String.
From S2P Require Import Prelude Commands U256 Reservation LedgerStore CurveDecode Registry RebatePolicy RebateStore RebateSqlite RebateSqliteProperties.

#[local] Open Scope Z_scope.

(** ** The specification *)

Inductive store_op : Type :=
| OpSave (b : RebateBatch)
| OpClose (id : RebateBatchId)
| OpBegin (x : RebateSettlement)
| OpFinish (id : RebateBatchId)
| OpCursor (chain block : Z).

Abbreviation store_result := (result RebateStoreError unit).

Definition store_i64_fits (v : Z) : bool := v <=? I64_MAX.

Section refines.
Context `{RebateWire, !RebateWireLaws}.

Definition store_op_ok (o : store_op) : Prop :=
  match o with OpSave b => batch_storable b | OpCursor _ block => 0 ≤ block | _ => True end.

Definition store_exec (o : store_op) : cmd RebateSqlite RebateStoreError unit :=
  match o with
  | OpSave b => sqlite_save b
  | OpClose id => sqlite_close id
  | OpBegin x => sqlite_begin_settlement x
  | OpFinish id => sqlite_finish_settlement id
  | OpCursor chain block => sqlite_save_scan_cursor chain block
  end.

(** A batch can be saved over the open batch of its own id and pair, or as the first of its strategy under an id never
    used, with legs that are unattributed or its own. *)
Definition saveable (filed : gset RebateBatchId) (v : RebateView) (b : RebateBatch) : Prop :=
  attributable v b ∧
  match v_open v !! rb_strategy b with
  | Some old => rb_id old = rb_id b ∧ rb_pair old = rb_pair b
  | None => rb_id b ∉ filed
  end.

(** What an operation answers and leaves: the ids ever filed, and the view. *)
Inductive store_spec (filed : gset RebateBatchId) (v : RebateView) :
    store_op → store_result → gset RebateBatchId → RebateView → Prop :=
| spec_saves b :
    saveable filed v b → store_spec filed v (OpSave b) (Ok tt) ({[rb_id b]} ∪ filed) (view_save b v)
| spec_conflicts b :
    ¬ saveable filed v b → store_spec filed v (OpSave b) (Err (RebateConflict (key_hash (rb_strategy b)))) filed v
| spec_closes id : store_spec filed v (OpClose id) (Ok tt) filed (view_close id v)
| spec_begins x :
    store_i64_fits (executed_at x) = true → view_settlement v (rp_batch (st_plan x)) = None → rp_batch (st_plan x) ∈ filed →
    store_spec filed v (OpBegin x) (Ok tt) filed (view_begin x v)
| spec_begun x y :
    store_i64_fits (executed_at x) = true → view_settlement v (rp_batch (st_plan x)) = Some y → same_settlement y x →
    store_spec filed v (OpBegin x) (Ok tt) filed v
| spec_other_settlement x y :
    store_i64_fits (executed_at x) = true → view_settlement v (rp_batch (st_plan x)) = Some y → ¬ same_settlement y x →
    store_spec filed v (OpBegin x) (Err (RebateConflict (key_hash (rp_strategy (st_plan x))))) filed v
| spec_unknown x :
    store_i64_fits (executed_at x) = false
      ∨ view_settlement v (rp_batch (st_plan x)) = None ∧ rp_batch (st_plan x) ∉ filed →
    store_spec filed v (OpBegin x) (Err RebateDb) filed v
| spec_finishes id : is_Some (view_settlement v id) → store_spec filed v (OpFinish id) (Ok tt) filed (view_finish id v)
| spec_unsettled id : view_settlement v id = None → store_spec filed v (OpFinish id) (Err RebateDb) filed v
| spec_scans chain block :
    store_i64_fits chain && store_i64_fits block = true → store_spec filed v (OpCursor chain block) (Ok tt) filed (view_cursor chain block v)
| spec_unfit chain block :
    store_i64_fits chain && store_i64_fits block = false → store_spec filed v (OpCursor chain block) (Err RebateDb) filed v.

(** With a failed statement: no trace, but a new settlement may have been recorded before it. *)
Inductive store_faulty (filed : gset RebateBatchId) (v : RebateView) : store_op → RebateView → Prop :=
| faulty_lost o : store_faulty filed v o v
| faulty_recorded x :
    view_settlement v (rp_batch (st_plan x)) = None → rp_batch (st_plan x) ∈ filed → store_faulty filed v (OpBegin x) (view_begin x v).

(** A run of operations, each with whether one of its statements failed. *)
Inductive store_run : gset RebateBatchId → RebateView → list (store_op * bool) → list store_result →
    gset RebateBatchId → RebateView → Prop :=
| run_done filed v : store_run filed v [] [] filed v
| run_spec filed v o res filed1 v1 ops rs filed2 v2 :
    store_spec filed v o res filed1 v1 → store_run filed1 v1 ops rs filed2 v2 →
    store_run filed v ((o, false) :: ops) (res :: rs) filed2 v2
| run_fault filed v o v1 ops rs filed2 v2 :
    store_faulty filed v o v1 → store_run filed v1 ops rs filed2 v2 →
    store_run filed v ((o, true) :: ops) (Err RebateDb :: rs) filed2 v2.

Fixpoint rebate_run (db : RebateSqlite) (ops : list store_op) : list store_result * RebateSqlite :=
  match ops with
  | [] => ([], db)
  | o :: ops' => let '(res, db1) := store_exec o db in let '(rs, db2) := rebate_run db1 ops' in (res :: rs, db2)
  end.

Definition filed_ids (db : RebateSqlite) : gset RebateBatchId := dom (rebate_batch db).

(** ** Refusals *)

Abbreviation charged := (charged rebate_outcomes RebateDb).
Abbreviation unstopped := (unstopped rebate_outcomes).

Lemma statement_charged_r {A} db0 (k : unit → cmd RebateSqlite RebateStoreError A) (P : A → Prop) R db :
  unstopped db0 db → (∀ o, unstopped db0 (with_outcomes db o) → outcome (k tt) (charged db0 P R) (with_outcomes db o)) →
  outcome (rebate_statement ≫= k) (charged db0 P R) db.
Proof.
  intros Hu Hk. unfold outcome, mbind, cmd_bind, rebate_statement. destruct (rebate_outcomes db) as [|[] o] eqn:Ho.
  - specialize (Hk []). unfold outcome, with_outcomes in Hk. rewrite <-Ho in Hk. destruct db. by apply Hk.
  - apply Hk. eapply unstopped_true; [done|]. by rewrite Ho.
  - eapply charged_false; [done|]. by rewrite Ho.
Qed.

Lemma persist_accrual_charged db0 db b t a :
  unstopped db0 db →
  outcome (persist_accrual b t a) (charged db0 (λ _, True) (λ e, e = RebateConflict (key_hash (rb_strategy b)))) db.
Proof.
  intros Hu. unfold persist_accrual. cbv zeta. apply statement_charged_r; [done|]. intros o Hu1. destruct (t !! _).
  - apply statement_charged_r; [done|]. intros o2 Hu2. case_bool_decide; [by apply charged_ret|by apply charged_refused].
  - case_decide; [by apply charged_ret|]. apply statement_charged_r; [done|]. intros o2 Hu2. by apply charged_refused.
Qed.

Lemma persist_accruals_charged db0 db b t l :
  unstopped db0 db →
  outcome (persist_accruals b t l) (charged db0 (λ _, True) (λ e, e = RebateConflict (key_hash (rb_strategy b)))) db.
Proof.
  revert t db. induction l as [|a l IH]; intros t db Hu; cbn [persist_accruals]; [by apply charged_ret|].
  eapply outcome_charged; [by apply persist_accrual_charged|done|]. intros t' db' _ Hu' _. by apply IH.
Qed.

(** A new open row of a strategy that had none is its open row. *)
Lemma open_row_new rows id row :
  batch_rows_ok rows → open_row rows (br_strategy row) = None → br_open row = true →
  open_row (<[id := row]> rows) (br_strategy row) = Some (id, row).
Proof.
  intros Hrows Hno Ho. unfold open_row. destruct (head _) as [[i r]|] eqn:Hh.
  - apply head_Some_elem_of, list_elem_of_filter in Hh as [[Hk Hor] Hin%elem_of_entries]. cbn in *.
    apply lookup_insert_Some in Hin as [[-> ->]|[_ Hr]]; [done|].
    assert (br_open r = false) by (by eapply open_row_None). congruence.
  - apply head_None in Hh. exfalso. apply (not_elem_of_nil (id, row)). rewrite <-Hh. apply list_elem_of_filter. split; [done|].
    apply elem_of_entries, lookup_insert_eq.
Qed.

(** The save finds its row exactly when the strategy has this open batch, or none and the id is new. *)
Lemma exact_row_view rows t b :
  batch_rows_ok rows → batch_storable b →
  exact_row (after_insert rows b) b = true
  ↔ match stored_batches rows t !! rb_strategy b with
    | Some old => rb_id old = rb_id b ∧ rb_pair old = rb_pair b
    | None => rb_id b ∉ dom rows
    end.
Proof.
  intros Hrows Hst. destruct (stored_batches rows t !! rb_strategy b) as [old|] eqn:Hold.
  - split; [|intros [? ?]; by eapply resave_exact]. intros Hex.
    destruct (exact_row_slot rows b Hrows Hex) as [[[_ Hn]|(row & Hr & Ho & Hk & Hlo & Hhi)] _];
      apply lookup_open in Hold as (id & row' & stored & st & Hr' & Ho' & Hk' & _ & _ & ->); [|done| |done].
    + assert (br_open row' = false) by (by eapply open_row_None). congruence.
    + assert (id = rb_id b) as -> by (eapply (proj2 Hrows); [exact Hr'|exact Hr|done|done|congruence]).
      assert (row' = row) as -> by congruence. cbn. split; [done|]. rewrite Hlo, Hhi. apply pair_new_ordered, Hst.
  - assert (Hno : open_row rows (rb_strategy b) = None).
    { destruct (open_row rows (rb_strategy b)) as [[id row]|] eqn:Hor; [|done]. apply open_row_Some in Hor as (Hr & Hk & Ho); [|done].
      destruct (proj1 Hrows _ _ Hr Ho) as [_ (stored & st & Hp & _ & Hs)]. exfalso. apply eq_None_not_Some in Hold. apply Hold.
      eexists. apply lookup_open; [done|]. by exists id, row, stored, st. }
    rewrite not_elem_of_dom. split.
    + intros Hex. destruct (exact_row_slot rows b Hrows Hex) as [[[Hn _]|(row & Hr & Ho & Hk & _)] _]; [done|].
      assert (br_open row = false) by (by eapply open_row_None). congruence.
    + intros Hn. unfold after_insert. rewrite Hn, Hno. cbn [bool_decide orb]. rewrite !bool_decide_false by (by intros [? ?]). cbn [orb].
      unfold exact_row. rewrite (open_row_new rows) by done. cbn. by rewrite !Z.eqb_refl.
Qed.

Lemma save_charged b db :
  rebate_db_ok db → batch_storable b →
  outcome (sqlite_save b) (charged db (λ _, exact_row (after_insert (rebate_batch db) b) b = true)
    (λ e, e = RebateConflict (key_hash (rb_strategy b)))) db.
Proof.
  intros Hdb Hst. unfold sqlite_save. apply statement_charged_r; [apply unstopped_refl|]. intros o1 Hu1.
  apply statement_charged_r; [done|]. intros o2 Hu2. apply outcome_gets. cbv zeta. cbn [rebate_batch with_outcomes].
  fold (after_insert (rebate_batch db) b). apply statement_charged_r; [done|]. intros o3 Hu3. fold (exact_row (after_insert (rebate_batch db) b) b).
  destruct (exact_row _ b) eqn:Hex; cbn [negb]; [|by apply charged_refused]. apply outcome_gets.
  eapply outcome_charged; [by apply persist_accruals_charged|done|]. intros t' db' _ Hu4 _. apply statement_charged_r; [done|]. intros o5 Hu5.
  apply exact_row_slot in Hex as (_ & row & -> & -> & _); [|by apply db_batches]. apply statement_charged_r; [done|]. intros o6 Hu6. by apply charged_ret.
Qed.

Lemma save_filed b db :
  outcome (sqlite_save b) (λ res db', filed_ids db' = match res with Ok _ => {[rb_id b]} ∪ filed_ids db | Err _ => filed_ids db end) db.
Proof.
  assert (Hsame : ∀ o, filed_ids (with_outcomes db o) = filed_ids db) by done.
  assert (Hst : ∀ (k : unit → cmd RebateSqlite RebateStoreError unit) (Q : store_result → RebateSqlite → Prop) o0,
    (∀ o, outcome (k tt) Q (with_outcomes db o)) → (∀ e o, Q (Err e) (with_outcomes db o)) →
    outcome (rebate_statement ≫= k) Q (with_outcomes db o0)).
  { intros k Q o0 Hk He. unfold outcome, mbind, cmd_bind. destruct (statement_cases (with_outcomes db o0)) as (o & [->| ->]); cbn; [apply Hk|apply He]. }
  match goal with |- outcome ?c ?Q _ => cut (outcome c Q (with_outcomes db (rebate_outcomes db))); [by clear Hsame Hst; destruct db|] end. unfold sqlite_save.
  apply Hst; [|done]. intros o1. apply Hst; [|done]. intros o2. apply outcome_gets. cbv zeta. cbn [rebate_batch with_outcomes].
  fold (after_insert (rebate_batch db) b). apply Hst; [|done]. intros o3. destruct (negb _); [by apply outcome_fail|]. apply outcome_gets. cbn [rebate_accrual with_outcomes].
  apply outcome_bind. unfold outcome at 1. destruct (persist_accruals_spec b (values (rb_accruals b)) (rebate_accrual db) (with_outcomes db o3)) as (o4 & Hp).
  destruct (persist_accruals _ _ _ _) as [[t'|e] db']; cbn [fst snd]; destruct Hp as [-> _]; [|done]. rewrite with_outcomes_twice. apply Hst; [|done]. intros o5.
  destruct (after_insert (rebate_batch db) b !! rb_id b) as [row|] eqn:Hr; [|by apply outcome_fail]. destruct (br_open row); [|by apply outcome_fail].
  apply Hst; [|done]. intros o6. unfold outcome, filed_ids. cbn. rewrite dom_insert_L. unfold after_insert. case_match; [done|]. rewrite dom_insert_L. set_solver.
Qed.

Lemma close_charged id db :
  outcome (sqlite_close id) (charged db (λ _, True) (λ _, False)) db ∧ filed_ids (sqlite_close id db).2 = filed_ids db.
Proof.
  split.
  - unfold sqlite_close. apply statement_charged_r; [apply unstopped_refl|]. intros o Hu. apply outcome_gets. by apply charged_ret.
  - unfold sqlite_close, mbind, cmd_bind, gets. destruct (statement_cases db) as (o & [->| ->]); [|done]. cbn. unfold filed_ids. cbn.
    case_match eqn:Hr; [|done]. case_match; [|done]. by rewrite dom_insert_lookup_L by (by eexists).
Qed.

Lemma rebate_i64_of_fits v : rebate_i64_of v = if store_i64_fits v then Ok v else Err RebateDb.
Proof. done. Qed.

Lemma begin_charged x db :
  rebate_db_ok db →
  outcome (sqlite_begin_settlement x) (charged db (λ _, store_i64_fits (executed_at x) = true ∧ is_Some (rebate_batch db !! rp_batch (st_plan x)))
    (λ e, match view_settlement (sqlite_view db) (rp_batch (st_plan x)) with
          | Some y => store_i64_fits (executed_at x) = true ∧ e = RebateConflict (key_hash (rp_strategy (st_plan x))) ∧ ¬ same_settlement y x
              ∨ store_i64_fits (executed_at x) = false ∧ e = RebateDb
          | None => e = RebateDb ∧ (store_i64_fits (executed_at x) = false ∨ rebate_batch db !! rp_batch (st_plan x) = None)
          end)) db.
Proof.
  intros Hdb. unfold sqlite_begin_settlement. cbv zeta. apply outcome_lift_bind. rewrite rebate_i64_of_fits.
  destruct (store_i64_fits (executed_at x)) eqn:Hf.
  2: { apply charged_refused; [apply unstopped_refl|]. destruct (view_settlement _ _); auto. }
  apply statement_charged_r; [apply unstopped_refl|]. intros o1 Hu1. apply outcome_gets. cbn [rebate_settlement rebate_batch with_outcomes].
  destruct (rebate_settlement db !! rp_batch (st_plan x)) as [row|] eqn:Hr.
  - destruct (db_settlements _ Hdb _ _ Hr) as ((y & Hy & _) & _ & br & Hbr & _). rewrite (settlement_of_row _ _ _ y Hdb Hr Hy).
    change (mret tt ≫= ?k) with (k tt). apply statement_charged_r; [done|]. intros o2 Hu2. apply outcome_gets. cbn [rebate_settlement with_outcomes].
    rewrite Hr. apply outcome_lift_bind. rewrite Hy, StoredSettlement_round_trip. destruct (_ && _) eqn:Hx.
    + apply charged_ret; [done|]. split; [done|by eexists].
    + apply charged_refused; [done|]. left. split_and!; [done..|]. intros (H1 & H2 & H3).
      rewrite (bool_decide_true _ H1), (bool_decide_true _ H3), (proj2 (Z.eqb_eq _ _) H2) in Hx. done.
  - rewrite (proj1 (no_settlement_row _ _ Hdb) Hr). case_bool_decide as Hb.
    + apply outcome_bind. unfold outcome at 1. cbn [set_settlements modify fst snd].
      apply statement_charged_r; [done|]. intros o2 Hu2. apply outcome_gets. cbn. rewrite lookup_insert_eq.
      apply outcome_lift_bind. cbn [sr_payload]. rewrite StoredSettlement_round_trip. rewrite !bool_decide_true, Z.eqb_refl by done. by apply charged_ret.
    + apply outcome_bind. apply charged_refused; [done|]. split; [done|]. right. by apply eq_None_not_Some.
Qed.

Lemma finish_charged id db :
  rebate_db_ok db →
  outcome (sqlite_finish_settlement id) (charged db (λ _, True)
    (λ e, e = RebateDb ∧ view_settlement (sqlite_view db) id = None)) db.
Proof.
  intros Hdb. unfold sqlite_finish_settlement. apply statement_charged_r; [apply unstopped_refl|]. intros o1 Hu1.
  apply statement_charged_r; [done|]. intros o2 Hu2. apply outcome_gets. cbn [rebate_settlement rebate_batch with_outcomes].
  apply (outcome_charged _ _ _ _ _ (λ _, True) _ (λ e, e = RebateDb ∧ view_settlement (sqlite_view db) id = None)); [|done|].
  - destruct (rebate_settlement db !! id) as [row|] eqn:Hr.
    + case_bool_decide as Hs; [by apply charged_ret|]. apply statement_charged_r; [done|]. intros o3 Hu3.
      rewrite bool_decide_true; [by apply charged_ret|]. by destruct (proj1 (proj2 (db_settlements _ Hdb _ _ Hr))).
    + apply statement_charged_r; [done|]. intros o3 Hu3. apply charged_refused; [done|]. split; [done|]. by apply no_settlement_row.
  - intros t db' _ Hu3 _. apply statement_charged_r; [done|]. intros o4 Hu4. apply statement_charged_r; [done|]. intros o5 Hu5. by apply charged_ret.
Qed.

Lemma scan_charged chain block db :
  outcome (sqlite_save_scan_cursor chain block) (charged db (λ _, store_i64_fits chain && store_i64_fits block = true)
    (λ e, e = RebateDb ∧ store_i64_fits chain && store_i64_fits block = false)) db.
Proof.
  unfold sqlite_save_scan_cursor. apply outcome_lift_bind. rewrite rebate_i64_of_fits.
  destruct (store_i64_fits chain); [|by apply charged_refused; [apply unstopped_refl|]]. apply outcome_lift_bind. rewrite rebate_i64_of_fits.
  destruct (store_i64_fits block); [|by apply charged_refused; [apply unstopped_refl|]].
  apply statement_charged_r; [apply unstopped_refl|]. intros o Hu. by apply charged_ret.
Qed.

(** Only a save files a batch. *)
Ltac run_statements :=
  repeat match goal with
  | |- context [rebate_statement ?d] =>
      let o := fresh "o" in destruct (statement_cases d) as (o & [->| ->]); cbn [with_outcomes rebate_batch rebate_settlement]; [|done]
  end.

Lemma begin_filed x db : filed_ids (sqlite_begin_settlement x db).2 = filed_ids db.
Proof.
  unfold sqlite_begin_settlement. unfold mbind, cmd_bind, lift, gets. destruct (rebate_i64_of _); [|done].
  run_statements. destruct (rebate_settlement db !! _) as [row|].
  - unfold mret at 1, cmd_ret at 1. cbn beta iota. run_statements. repeat case_match; done.
  - case_bool_decide; [|done]. unfold set_settlements, modify. cbn [fst snd]. run_statements. repeat case_match; done.
Qed.

Lemma finish_filed id db : filed_ids (sqlite_finish_settlement id db).2 = filed_ids db.
Proof.
  assert (Hdom : dom (match rebate_batch db !! id with Some row => <[id := close_row row]> (rebate_batch db) | None => rebate_batch db end)
    = dom (rebate_batch db)).
  { destruct (rebate_batch db !! id) eqn:Hr; [|done]. by rewrite dom_insert_lookup_L by (by eexists). }
  unfold sqlite_finish_settlement. unfold mbind, cmd_bind, gets. run_statements. destruct (rebate_settlement db !! id) as [row|].
  - case_bool_decide.
    + unfold mret at 1, cmd_ret at 1. cbn beta iota. run_statements. unfold filed_ids. cbn. done.
    + run_statements. case_bool_decide; [|done]. unfold mret at 1, cmd_ret at 1. cbn beta iota. run_statements. unfold filed_ids. cbn. done.
  - run_statements. done.
Qed.

Lemma scan_filed chain block db : filed_ids (sqlite_save_scan_cursor chain block db).2 = filed_ids db.
Proof.
  unfold sqlite_save_scan_cursor. unfold mbind, cmd_bind, lift. destruct (rebate_i64_of chain); [|done]. destruct (rebate_i64_of block); [|done].
  run_statements. done.
Qed.

(** ** Every operation is its specification *)

(** The result and the tables an operation left are those of the specification. *)
Definition refined (o : store_op) (db : RebateSqlite) (res : store_result) (db' : RebateSqlite) : Prop :=
  rebate_db_ok db' ∧ ∃ used, rebate_outcomes db = used ++ rebate_outcomes db' ∧
    if stopped used then res = Err RebateDb ∧ filed_ids db' = filed_ids db ∧ store_faulty (filed_ids db) (sqlite_view db) o (sqlite_view db')
    else store_spec (filed_ids db) (sqlite_view db) o res (filed_ids db') (sqlite_view db').

Lemma saveable_exact b db :
  rebate_db_ok db → batch_storable b →
  exact_row (after_insert (rebate_batch db) b) b = true → attributable (sqlite_view db) b → saveable (filed_ids db) (sqlite_view db) b.
Proof. intros Hdb Hst Hex Hat. split; [done|]. by apply (exact_row_view _ (rebate_accrual db)) in Hex; [|apply db_batches|]. Qed.

(** A refused save is not saveable: the law of the port says it of an open batch, and a new one is refused only for its legs. *)
Lemma refused_save b db :
  rebate_db_ok db → batch_storable b →
  outcome (sqlite_save b) (λ res _, ∀ h, res = Err (RebateConflict h) → ¬ saveable (filed_ids db) (sqlite_view db) b) db.
Proof.
  intros Hdb Hst. pose proof (db_batches _ Hdb) as Hrows. pose proof (db_accruals _ Hdb) as Hacc.
  unfold outcome, sqlite_save. unfold mbind, cmd_bind, gets.
  repeat match goal with |- context [rebate_statement ?d] => let o := fresh "o" in destruct (statement_cases d) as (o & [->| ->]);
    cbn [with_outcomes rebate_batch rebate_accrual]; [|done] end.
  fold (after_insert (rebate_batch db) b). fold (exact_row (after_insert (rebate_batch db) b) b).
  destruct (exact_row _ b) eqn:Hex; cbn [negb].
  2: { intros h _ [_ Hs]. apply (exact_row_view _ (rebate_accrual db)) in Hs; [congruence|done..]. }
  apply exact_row_slot in Hex as (Hslot & row & Hr & Hop & _); [|done].
  match goal with |- context [persist_accruals b ?t ?l ?d] => destruct (persist_accruals_spec b l t d) as (o2 & Hl) end.
  destruct (persist_accruals _ _ _ _) as [[t'|e] db2]; destruct Hl as [-> Hl].
  - match goal with |- context [rebate_statement ?d] => destruct (statement_cases d) as (o5 & [->| ->]); [|done] end.
    cbn [with_outcomes rebate_batch rebate_accrual]. rewrite Hr, Hop.
    match goal with |- context [rebate_statement ?d] => destruct (statement_cases d) as (o3 & [->| ->]); done end.
  - cbn [fst]. intros h [= ->] [Hat _]. discriminate Hl; [by apply NoDup_accrual_trades|by eapply slot_exclusive|by apply (attributable_free _ _ _ Hacc Hst)].
Qed.

Lemma save_refined b db : rebate_db_ok db → batch_storable b → outcome (sqlite_save b) (refined (OpSave b) db) db.
Proof.
  intros Hdb Hst. pose proof (sqlite_save_law b db Hdb Hst) as Hlaw. pose proof (save_charged b db Hdb Hst) as Hch.
  pose proof (save_filed b db) as Hf. pose proof (refused_save b db Hdb Hst) as Href. unfold outcome in *.
  destruct (sqlite_save b db) as [[[]|e] db']; cbn [fst snd] in *; destruct Hch as (used & Hu & Hch).
  - destruct Hlaw as (Hdb' & Hv & Hat & _). destruct Hch as [Hs Hex]. split; [done|]. exists used. rewrite Hs, Hf, Hv. split; [done|].
    apply spec_saves. by apply saveable_exact.
  - destruct Hlaw as (Hdb' & Hv & _). split; [done|]. exists used. split; [done|]. rewrite Hf, Hv. destruct (stopped used).
    + split_and!; [by rewrite Hch|done|constructor].
    + rewrite Hch in *. apply spec_conflicts. by eapply Href.
Qed.

(** A settlement that cannot be written, or of a batch that was never filed, leaves no trace. *)
Lemma begin_untouched x db :
  rebate_db_ok db → store_i64_fits (executed_at x) = false ∨ rebate_batch db !! rp_batch (st_plan x) = None →
  sqlite_view (sqlite_begin_settlement x db).2 = sqlite_view db.
Proof.
  intros Hdb Hno. unfold sqlite_begin_settlement. cbv zeta. unfold mbind, cmd_bind, lift, gets. rewrite rebate_i64_of_fits.
  destruct (store_i64_fits (executed_at x)); [|done]. destruct Hno as [Hno|Hno]; [done|]. run_statements.
  destruct (rebate_settlement db !! rp_batch (st_plan x)) as [row|] eqn:Hr.
  - destruct (db_settlements _ Hdb _ _ Hr) as (_ & _ & br & Hbr & _). congruence.
  - by rewrite bool_decide_false by (rewrite Hno; by intros [? ?]).
Qed.

Lemma begin_refined x db : rebate_db_ok db → outcome (sqlite_begin_settlement x) (refined (OpBegin x) db) db.
Proof.
  intros Hdb. pose proof (sqlite_begin_law x db Hdb) as Hlaw. pose proof (begin_charged x db Hdb) as Hch. pose proof (begin_filed x db) as Hf.
  pose proof (begin_untouched x db Hdb) as Hun.
  assert (Hfiled : rp_batch (st_plan x) ∈ filed_ids db ↔ is_Some (rebate_batch db !! rp_batch (st_plan x))) by apply elem_of_dom.
  unfold outcome in *. destruct (sqlite_begin_settlement x db) as [[[]|e] db']; cbn [fst snd] in *;
    destruct Hch as (used & Hu & Hch), Hlaw as [Hdb' Hv]; (split; [done|]); exists used; (split; [done|]); rewrite Hf.
  - destruct Hch as (-> & Hfit & Hb). destruct (view_settlement _ _) as [y|] eqn:Hy.
    + destruct Hv as [-> Hsame]. by eapply spec_begun.
    + rewrite Hv. by apply spec_begins; [..|apply Hfiled].
  - destruct (stopped used).
    + subst e. split_and!; [done..|]. destruct (rebate_batch db !! rp_batch (st_plan x)) eqn:Hb; [|rewrite Hun by auto; constructor].
      destruct Hv as [->|[Hn ->]]; [constructor|]. apply faulty_recorded; [done|]. apply Hfiled. by eexists.
    + destruct (view_settlement _ _) as [y|] eqn:Hy.
      * assert (sqlite_view db' = sqlite_view db) as -> by (by destruct Hv as [|[? _]]).
        destruct Hch as [(Hfit & -> & Hns)|[Hfit ->]]; [by eapply spec_other_settlement|]. apply spec_unknown. by left.
      * destruct Hch as [-> Hr]. rewrite (Hun Hr). apply spec_unknown. destruct Hr as [?|Hr]; [by left|right]. split; [done|].
        rewrite Hfiled, Hr. by intros [? ?].
Qed.

Lemma store_exec_refined o db : rebate_db_ok db → store_op_ok o → outcome (store_exec o) (refined o db) db.
Proof.
  intros Hdb Ho. destruct o as [b|id|x|id|chain block]; cbn [store_exec]; [by apply save_refined| |by apply begin_refined|..]; unfold outcome, refined.
  - pose proof (sqlite_close_law id db Hdb) as Hlaw. destruct (close_charged id db) as [Hch Hf]. unfold outcome in Hch.
    destruct (sqlite_close id db) as [[[]|e] db']; cbn [fst snd] in *; destruct Hch as (used & Hu & Hch), Hlaw as [Hdb' ->];
      (split; [done|]); exists used; (split; [done|]); rewrite Hf.
    + destruct Hch as [-> _]. constructor.
    + destruct (stopped used); [|done]. subst e. split_and!; [done..|constructor].
  - pose proof (sqlite_finish_law id db Hdb) as Hlaw. pose proof (finish_charged id db Hdb) as Hch. pose proof (finish_filed id db) as Hf.
    unfold outcome in Hch. destruct (sqlite_finish_settlement id db) as [[[]|e] db']; cbn [fst snd] in *;
      destruct Hch as (used & Hu & Hch), Hlaw as (Hdb' & -> & Hset); (split; [done|]); exists used; (split; [done|]); rewrite Hf.
    + destruct Hch as [-> _]. by constructor.
    + subst e. destruct (stopped used); [split_and!; [done..|constructor]|]. constructor. apply Hch.
  - pose proof (sqlite_save_scan_law chain block db Hdb Ho) as Hlaw. pose proof (scan_charged chain block db) as Hch. pose proof (scan_filed chain block db) as Hf.
    unfold outcome in Hch. destruct (sqlite_save_scan_cursor chain block db) as [[[]|e] db']; cbn [fst snd] in *;
      destruct Hch as (used & Hu & Hch), Hlaw as [Hdb' ->]; (split; [done|]); exists used; (split; [done|]); rewrite Hf.
    + destruct Hch as [-> Hfit]. by constructor.
    + destruct (stopped used); [subst e; split_and!; [done..|constructor]|]. destruct Hch as [-> Hfit]. by constructor.
Qed.

(** C25: the SQLite tables implement the abstract store.  Whatever operations run, and whichever of their statements fail, the
    tables stay well formed, and every operation answers and leaves what the specification says.  Without a failed
    statement a batch is saved exactly over the open batch of its own id and pair, or as the first of its strategy under
    a new id, with legs that are unattributed or its own, and is refused as a conflict otherwise; a settlement is recorded
    once, for a batch that was filed, and finished exactly when recorded; a batch closes and a cursor never moves back.
    An operation with a failed statement fails and changes nothing, but the recording of a settlement may already have
    taken effect. *)
Theorem sqlite_rebate_store_refines ops db :
  rebate_db_ok db → Forall store_op_ok ops →
  let '(rs, db') := rebate_run db ops in
  rebate_db_ok db' ∧ ∃ used, length used = length ops ∧ rebate_outcomes db = concat used ++ rebate_outcomes db'
    ∧ store_run (filed_ids db) (sqlite_view db) (zip ops (stopped <$> used)) rs (filed_ids db') (sqlite_view db').
Proof.
  intros Hdb Hops. revert db Hdb. induction Hops as [|o ops Ho _ IH]; intros db Hdb; cbn [rebate_run];
    [split; [done|exists []; split_and!; [done..|constructor]]|].
  pose proof (store_exec_refined o db Hdb Ho) as Hstep. unfold outcome in Hstep. destruct (store_exec o db) as [res db1]. cbn [fst snd] in Hstep.
  destruct Hstep as (Hdb1 & u & Hu & Hs). specialize (IH db1 Hdb1). destruct (rebate_run db1 ops) as [rs db2].
  destruct IH as (Hdb2 & used & Hlen & Hus & Hr). split; [done|]. exists (u :: used). split; [cbn; by rewrite Hlen|].
  split; [cbn; by rewrite Hu, Hus, <-app_assoc|]. cbn. destruct (stopped u).
  - destruct Hs as (-> & Hf & Hfa). rewrite Hf in Hr. by econstructor.
  - by econstructor.
Qed.

End refines.
