(* ===== verification/RebateCall.v ===== *)
(** * Signed rebate calls

    [crates/adapters/src/rebate/call_builder.rs] and the credential check of
    [adapters/src/execution/filler.rs]: the authorization, order and calldata that public
    executors submit.  The signer is an argument. *)

From Stdlib Require Import String.
From S2P Require Import Prelude U256 Ratio CurveDecode Curves Registry Candidates RebatePolicy RebateStore.

#[local] Open Scope Z_scope.

Inductive RebateCallBuilderError : Type :=
| InvalidPlan (reason : string)
| PlanStrategyMismatch
| StrategyHashMismatch
| UndecodableProgram
| StrategyMakerMismatch
| UnprotectedStrategy
| Signing.

Definition PREFIX_LENGTH : nat := 22.
Definition ONLY_TAKER_BALANCE_NON_ZERO : Z := 0x0e.
Definition ADDRESS_LENGTH : Z := 20.

(** The program starts with the gate that only admits holders of the credential. *)
Definition uses_taker_credential (program : list Z) (credential : Address) : bool :=
  if (List.length program <? PREFIX_LENGTH)%nat then false
  else
    let prefix := take PREFIX_LENGTH program in
    bool_decide (prefix !! 0%nat = Some ONLY_TAKER_BALANCE_NON_ZERO)
    && bool_decide (prefix !! 1%nat = Some ADDRESS_LENGTH)
    && (from_be (slice prefix 2 PREFIX_LENGTH) =? credential).

Definition validate_plan (plan : RebatePlan) (deadline : Z) : result RebateCallBuilderError unit :=
  if rp_batch plan =? 0 then Err (InvalidPlan "batch id is zero")
  else if key_maker (rp_strategy plan) =? 0 then Err (InvalidPlan "maker is zero")
  else if (rp_token_in plan =? 0) || (rp_token_out plan =? 0) || (rp_token_in plan =? rp_token_out plan)
  then Err (InvalidPlan "token pair is invalid")
  else if (rp_in plan =? 0) || (rp_out plan =? 0) || (maker_rebate plan =? 0) then Err (InvalidPlan "amounts and maker rebate must be non-zero")
  else if negb (bool_decide (is_Some (checked_add (rp_in plan) (maker_rebate plan)))) then Err (InvalidPlan "executor deposit exceeds uint256")
  else if deadline =? 0 then Err (InvalidPlan "deadline block is zero")
  else Ok tt.

Section builder.
Context `{RebateWire} (taker_credential : Address) (authorize : ExecutionAuthorization → option (list Z)).

Definition rebate_nonce (plan : RebatePlan) (deadline : Z) : U256 := keccak256 (nonce_preimage plan deadline).

Definition build (strategy : MakerStrategy) (plan : RebatePlan) (reservation : ReservationId)
    (deadline published : Z) : result RebateCallBuilderError RebateExecution :=
  let key := strat_key strategy in
  if negb (bool_decide (rp_strategy plan = key)) then Err PlanStrategyMismatch
  else
    _ ← validate_plan plan deadline;
    order ← ok_or (order_decode (program strategy)) UndecodableProgram;
    if negb (order_maker order =? key_maker key) then Err StrategyMakerMismatch
    else if negb (uses_taker_credential (order_data order) taker_credential) then Err UnprotectedStrategy
    else if negb (keccak256 (order_encode order) =? key_hash key) then Err StrategyHashMismatch
    else
      let auth := rebate_authorization (rebate_nonce plan deadline) (rp_batch plan) (key_hash key) (key_maker key)
                    (rp_token_in plan) (rp_token_out plan) (rp_out plan) (rp_in plan) (maker_rebate plan) deadline in
      signature ← ok_or (authorize auth) Signing;
      Ok (mk_execution plan reservation auth (order_encode order) signature
            (execute_rebate_call order auth signature) published).

End builder.

(** ** The contract the batch state machine relies on *)

(** Everything signed is the plan: the authorization names its batch, strategy, tokens and amounts. *)
Record authorizes (plan : RebatePlan) (deadline : Z) (a : ExecutionAuthorization) : Prop := {
  authorizes_kind : auth_kind a = RebateKind;
  authorizes_batch : context_hash a = rp_batch plan;
  authorizes_hash : auth_strategy_hash a = key_hash (rp_strategy plan);
  authorizes_maker : auth_maker a = key_maker (rp_strategy plan);
  authorizes_tokens : auth_token_in a = rp_token_in plan ∧ auth_token_out a = rp_token_out plan;
  authorizes_amounts : auth_amount_out a = rp_out plan ∧ amount_in_limit a = rp_in plan
    ∧ rebate_amount a = maker_rebate plan;
  authorizes_deadline : deadline_block a = deadline
}.

Definition call_builder : Type :=
  MakerStrategy → RebatePlan → ReservationId → Z → Z → result RebateCallBuilderError RebateExecution.

(** A builder returns sound executions of exactly the plan, reservation and deadline it was given, and of no plan that asks
    for nothing. *)
Definition builder_ok `{RebateWire} (b : call_builder) : Prop :=
  ∀ strategy plan reservation deadline published e, b strategy plan reservation deadline published = Ok e →
    execution_sound e ∧ ex_plan e = plan ∧ ex_reservation e = reservation ∧ published_at e = published
    ∧ authorizes plan deadline (authorization e) ∧ ex_order e ≠ [] ∧ calldata e ≠ [] ∧ deadline ≠ 0
    ∧ rp_strategy plan = strat_key strategy ∧ rp_in plan ≠ 0.

Section contract.
Context `{RebateWire, !RebateWireLaws} (taker_credential : Address).
Context (authorize : ExecutionAuthorization → option (list Z)).
(** A policy signature has 65 bytes, and encodings are not empty. *)
Context (authorize_length : ∀ a s, authorize a = Some s → List.length s = 65%nat).
Context (encodings : (∀ o, order_encode o ≠ []) ∧ ∀ o a s, execute_rebate_call o a s ≠ []).

Lemma build_ok : builder_ok (build taker_credential authorize).
Proof.
  intros strategy plan reservation deadline published e Hb. unfold build in Hb.
  case_bool_decide as Hk; [|done]. cbn [negb] in Hb. apply bind_Ok in Hb as ([] & Hv & Hb).
  apply bind_Ok in Hb as (order & Ho%ok_or_Ok & Hb). destruct (_ =? _) eqn:Hm in Hb; [|done]. cbn [negb] in Hb.
  destruct (uses_taker_credential _ _); [|done]. cbn [negb] in Hb. destruct (_ =? _) eqn:Hh in Hb; [|done]. cbn [negb] in Hb.
  zbool. apply bind_Ok in Hb as (s & Hs%ok_or_Ok & [= <-]). cbn.
  destruct encodings as [Hoe Hce]. split_and!; try done.
  - split; [done|]. split; [by eapply authorize_length|]. exists order. cbn. by rewrite order_round_trip.
  - by constructor; cbn; rewrite ?Hk.
  - intros ->. unfold validate_plan in Hv. by repeat case_match.
  - intros Hz. unfold validate_plan in Hv. rewrite Hz in Hv. by repeat case_match.
Qed.

End contract.
