(* ===== verification/RebateService.v ===== *)
(** * The rebate service

    [crates/core/src/rebate/service.rs]: one live batch per strategy, moved between
    accumulating, guarded, preparing, ready and invalidating, with its inventory held in
    the ledger, its strategy withheld from routing by the guard, and every change written
    to the rebate store.  The [batches] lock makes each method one step.

    The market book, the gas price, the call builder, the budget reads and the clock of one
    call are the fields of [RebateWorld]. *)

From Stdlib Require Import String.
From S2P Require Import Prelude Commands U256 Reservation LedgerEngine LedgerStore LedgerService Ratio CurveDecode Curves Registry Candidates RebatePolicy RebateStore RebateCall.

#[local] Open Scope Z_scope.

Inductive RebateMarketBookError : Type :=
| MarketNotFound (token : Address)
| MarketStale (token : Address)
| MarketInvalid.

(** The variants of [SolventError] that reach the service. *)
Inductive RebateServiceError : Type :=
| ERebate (e : RebateError)
| ERebateStore (e : RebateStoreError)
| ELedger (e : SolventError)
| EMarketBook (e : RebateMarketBookError)
| EGasPrice
| ECallBuilder (e : RebateCallBuilderError).

Record RebateMinimums := mk_minimums {
  min_token : Address;
  min_maker_rebate : U256;
  min_executor_profit : U256
}.

Record RebateMarketRequest := mk_market_request {
  mr_token_a : Address;
  mr_token_a_decimals : Z;
  mr_token_b : Address;
  mr_token_b_decimals : Z;
  mr_max_age_secs : Z
}.

Record RebateServiceConfig := mk_rebate_config {
  native_token : Address;
  gas_units : Z;
  market_max_age_secs : Z
}.

Record RebateWorld := mk_world {
  w_market : RebateMarketRequest → result RebateMarketBookError RebateMarket;
  w_gas_price_wei : option Z;
  w_build : call_builder;
  w_budget_of : AccountKey → result SolventError U256;
  w_now : Z
}.

Record RebateEvaluationInput := mk_evaluation {
  in_strategy : MakerStrategy;
  in_caps : AvailableSnapshot;
  in_minimums : list RebateMinimums;
  in_reservation_id : ReservationId;
  in_reservation_ttl_secs : Z;
  in_deadline_block : Z;
  in_published_at : Z
}.

(** [AssetManager::decimals] over the catalog's decimals. *)
Definition DEFAULT_DECIMALS : Z := 18.
Definition decimals (catalog : gmap Address Z) (a : Address) : Z := default DEFAULT_DECIMALS (catalog !! a).

(** ** Validation *)

Definition active_reservation (s : RebateBatchState) : option ReservationId :=
  match s with
  | BatchState.Preparing _ r | BatchState.Invalidating r => Some r
  | BatchState.Ready e => Some (ex_reservation e)
  | BatchState.Accumulating | BatchState.Guarded => None
  end.

Definition validate_accrual (a : RebateAccrual) : rebate_result unit :=
  if acc_token_in a =? acc_token_out a then Err (InvalidAccrual "tokens are identical")
  else if (acc_in a =? 0) || (acc_out a =? 0) || (allocation_weight a =? 0) || (confirmed_block a =? 0)
  then Err (InvalidAccrual "amounts, allocation weight, and confirmed block must be non-zero")
  else Ok tt.

Definition plan_matches_batch (plan : RebatePlan) (b : RebateBatch) : bool :=
  if negb (rp_batch plan =? rb_id b) || negb (bool_decide (rp_strategy plan = rb_strategy b))
     || negb (bool_decide (TokenPair_new (rp_token_in plan) (rp_token_out plan) = rb_pair b))
     || (rp_in plan =? 0) || (rp_out plan =? 0) || (maker_rebate plan =? 0)
  then false
  else
    let allocation_trades : gset TradeId := list_to_set (al_trade <$> allocations plan) in
    let allocations_match := (size allocation_trades =? List.length (allocations plan))%nat
      && (size allocation_trades =? size (rb_accruals b))%nat
      && forallb (λ trade, bool_decide (is_Some (rb_accruals b !! trade))) (set_iter allocation_trades) in
    let total := try_fold_opt (λ sum a, checked_add sum (al_amount a)) 0 (allocations plan) in
    allocations_match && bool_decide (total = Some (maker_rebate plan)).

Definition validate_ready (b : RebateBatch) (e : RebateExecution) : bool :=
  let a := authorization e in
  let plan := ex_plan e in
  negb (negb (bool_decide (auth_kind a = RebateKind))
        || negb (context_hash a =? rb_id b)
        || negb (auth_strategy_hash a =? key_hash (rb_strategy b))
        || negb (auth_maker a =? key_maker (rb_strategy b))
        || negb (auth_token_in a =? rp_token_in plan)
        || negb (auth_token_out a =? rp_token_out plan)
        || negb (auth_amount_out a =? rp_out plan)
        || negb (amount_in_limit a =? rp_in plan)
        || negb (rebate_amount a =? maker_rebate plan)
        || (deadline_block a =? 0)
        || (List.length (ex_order e) =? 0)%nat
        || negb (List.length (policy_signature e) =? 65)%nat
        || (List.length (calldata e) =? 0)%nat).

Definition validate_batch (b : RebateBatch) : rebate_result unit :=
  if bool_decide (rb_accruals b = ∅)
     || existsb (λ p, negb (p.1 =? acc_trade p.2) || negb (bool_decide (acc_strategy p.2 = rb_strategy b))
                      || negb (bool_decide (TokenPair_new (acc_token_in p.2) (acc_token_out p.2) = rb_pair b))
                      || negb (is_ok (validate_accrual p.2))) (entries (rb_accruals b))
  then Err (InvalidAccrual "persisted batch contains invalid accruals")
  else
    let plan := match rb_state b with
                | BatchState.Preparing plan _ => Some plan
                | BatchState.Ready e => Some (ex_plan e)
                | _ => None
                end in
    if match plan with Some plan => negb (plan_matches_batch plan b) | None => false end
    then Err (InvalidAccrual "persisted plan does not match its batch")
    else match rb_state b with
         | BatchState.Ready e =>
             if validate_ready b e then Ok tt
             else Err (InvalidAccrual "persisted execution does not match its plan")
         | _ => Ok tt
         end.

(** The fields that a settlement's event shares with its plan. *)
Definition event_matches_plan (ev : RebateExecutedEvent) (plan : RebatePlan) : bool :=
  negb (negb (ev_batch ev =? rp_batch plan)
        || negb (ev_strategy_hash ev =? key_hash (rp_strategy plan))
        || negb (ev_maker ev =? key_maker (rp_strategy plan))
        || negb (ev_token_in ev =? rp_token_in plan)
        || negb (ev_token_out ev =? rp_token_out plan)
        || negb (ev_in ev =? rp_in plan)
        || negb (ev_out ev =? rp_out plan)
        || negb (ev_rebate ev =? maker_rebate plan)
        || (executor ev =? 0)
        || (tx_hash ev =? 0)
        || (block_number ev =? 0)).

Definition validate_execution_event (ev : RebateExecutedEvent) (e : RebateExecution) : rebate_result unit :=
  if negb (event_matches_plan ev (ex_plan e)) || (deadline_block (authorization e) <? block_number ev)
  then Err (InvalidExecution "event does not match the signed plan")
  else Ok tt.

Definition validate_settlement (s : RebateSettlement) : rebate_result unit :=
  if (st_reservation s =? 0) || negb (event_matches_plan (st_event s) (st_plan s))
  then Err (InvalidExecution "persisted settlement does not match its plan")
  else Ok tt.

Definition batch_id `{RebateWire} (a : RebateAccrual) : RebateBatchId :=
  keccak256 (batch_preimage (acc_strategy a) (acc_trade a)).

(** ** The service *)

Section service.
Context {LSt RSt : Type} `{LedgerStore LSt} `{RebateWire} `{RebateStore RSt}.
Context (policy : RebatePolicyConfig) (config : RebateServiceConfig) (catalog : gmap Address Z).

Record RebateService := mk_rebate_service {
  rs_batches : gmap StrategyKey RebateBatch;
  rs_ledger : LedgerService LSt;
  rs_guards : GuardSnapshot;
  rs_store : RSt
}.

Definition with_ledger {A} (c : cmd (LedgerService LSt) SolventError A) : cmd RebateService RebateServiceError A :=
  zoom rs_ledger (λ s l, mk_rebate_service (rs_batches s) l (rs_guards s) (rs_store s)) ELedger c.

Definition with_store {A} (c : cmd RSt RebateStoreError A) : cmd RebateService RebateServiceError A :=
  zoom rs_store (λ s st, mk_rebate_service (rs_batches s) (rs_ledger s) (rs_guards s) st) ERebateStore c.

Definition set_guards (f : GuardSnapshot → GuardSnapshot) : cmd RebateService RebateServiceError unit :=
  modify (λ s, mk_rebate_service (rs_batches s) (rs_ledger s) (f (rs_guards s)) (rs_store s)).

Definition guard_strategy (k : StrategyKey) := set_guards (λ g, guard g k).
Definition unguard_strategy (k : StrategyKey) := set_guards (λ g, unguard g k).

Definition set_batches (f : gmap StrategyKey RebateBatch → gmap StrategyKey RebateBatch) :
    cmd RebateService RebateServiceError unit :=
  modify (λ s, mk_rebate_service (f (rs_batches s)) (rs_ledger s) (rs_guards s) (rs_store s)).

(** [*batch = next] through the map's entry. *)
Definition set_batch (k : StrategyKey) (b : RebateBatch) := set_batches (λ m, <[k := b]> m).

Definition save (b : RebateBatch) := with_store (rebate_save b).

Definition rebate_fail {A} (e : RebateError) : cmd RebateService RebateServiceError A := fail (ERebate e).

Definition release_if_held (r : ReservationId) : cmd RebateService RebateServiceError unit :=
  l ← gets rs_ledger;
  match reservation_sources l r with
  | Some _ => with_ledger (LedgerService.void r)
  | None => mret tt
  end.

(** Finish the compensation of an interrupted reservation change; the batch as it then is. *)
Definition finish_interrupted_transition (k : StrategyKey) (b : RebateBatch) :
    cmd RebateService RebateServiceError RebateBatch :=
  match rb_state b with
  | BatchState.Preparing _ r | BatchState.Invalidating r =>
      _ ← guard_strategy (rb_strategy b);
      _ ← release_if_held r;
      let b' := with_batch_state b BatchState.Guarded in
      _ ← set_batch k b';
      _ ← save b';
      mret b'
  | _ => mret b
  end.

(** ** Accrual *)

Definition accrue_live (a : RebateAccrual) (b : RebateBatch) : cmd RebateService RebateServiceError RebateBatchId :=
  let k := acc_strategy a in
  match rb_accruals b !! acc_trade a with
  | Some existing =>
      if negb (bool_decide (existing = a))
      then rebate_fail (InvalidAccrual "trade and strategy identify conflicting legs")
      else b' ← finish_interrupted_transition k b; mret (rb_id b')
  | None =>
      if negb (bool_decide (rb_pair b = TokenPair_new (acc_token_in a) (acc_token_out a)))
      then rebate_fail (InvalidAccrual "strategy pair changed")
      else match rb_state b with
      | BatchState.Ready _ => rebate_fail (InvalidExecution "confirmed fill arrived while public work is executable")
      | _ =>
          let was_accumulating := bool_decide (rb_state b = BatchState.Accumulating) in
          _ ← guard_strategy k;
          let reservation := active_reservation (rb_state b) in
          let next := with_accruals b (<[acc_trade a := a]> (rb_accruals b)) in
          _ ← match reservation with
              | Some r =>
                  let next := with_batch_state next (BatchState.Invalidating r) in
                  _ ← save next;
                  _ ← set_batch k next;
                  release_if_held r
              | None => mret tt
              end;
          let next := with_batch_state next BatchState.Guarded in
          saved ← attempt (save next);
          match saved with
          | Err e =>
              _ ← (if negb (bool_decide (is_Some reservation)) && was_accumulating
                   then unguard_strategy (rb_strategy b) else mret tt);
              fail e
          | Ok _ => _ ← set_batch k next; mret (rb_id b)
          end
      end
  end.

Definition accrue (a : RebateAccrual) : cmd RebateService RebateServiceError RebateBatchId :=
  _ ← lift (map_err ERebate (validate_accrual a));
  batches ← gets rs_batches;
  match batches !! acc_strategy a with
  | Some b => accrue_live a b
  | None =>
      let id := batch_id a in
      let k := acc_strategy a in
      _ ← guard_strategy k;
      let b := with_batch_state (RebateBatch_new id (TokenPair_new (acc_token_in a) (acc_token_out a)) a)
                 BatchState.Guarded in
      saved ← attempt (save b);
      match saved with
      | Err e => _ ← unguard_strategy k; fail e
      | Ok _ => _ ← set_batch k b; mret id
      end
  end.

(** ** Economics *)

Definition gas_cost_in (w : RebateWorld) (gas_native : U256) (token : Address) : result RebateServiceError U256 :=
  if token =? native_token config then Ok gas_native
  else
    conversion ← map_err EMarketBook (w_market w (mk_market_request (native_token config)
      (decimals catalog (native_token config)) token (decimals catalog token) (market_max_age_secs config)));
    native_per_token ← ok_or (rate conversion token (native_token config)) (ERebate MarketPairMismatch);
    inverse ← ok_or (invert native_per_token) (ERebate MarketPairMismatch);
    ok_or (ceil (ratio_mul (ratio_from gas_native) inverse)) (ERebate Arithmetic).

Fixpoint requirements_of (w : RebateWorld) (p : TokenPair) (gas_native : U256) (minimums : list RebateMinimums) :
    result RebateServiceError (list RebateRequirements) :=
  match minimums with
  | [] => Ok []
  | m :: rest =>
      if negb (min_token m =? lo p) && negb (min_token m =? hi p)
      then Err (ERebate (MissingRequirements (min_token m)))
      else
        gas_cost ← gas_cost_in w gas_native (min_token m);
        requirements ← requirements_of w p gas_native rest;
        Ok (mk_requirements (min_token m) gas_cost (min_maker_rebate m) (min_executor_profit m) :: requirements)
  end.

Definition economics (w : RebateWorld) (strategy : MakerStrategy) (minimums : list RebateMinimums) :
    result RebateServiceError (RebateMarket * list RebateRequirements) :=
  p ← ok_or (pair strategy) (ERebate MarketPairMismatch);
  market ← map_err EMarketBook (w_market w (mk_market_request (lo p) (decimals catalog (lo p)) (hi p)
    (decimals catalog (hi p)) (market_max_age_secs config)));
  price ← ok_or (w_gas_price_wei w) EGasPrice;
  gas_native ← ok_or (checked_mul price (gas_units config)) (ERebate Arithmetic);
  requirements ← requirements_of w p gas_native minimums;
  Ok (market, requirements).

(** ** Evaluation *)

(** A firm plan: persist the intent, hold the inventory, sign, publish. *)
Definition evaluate_ready (w : RebateWorld) (input : RebateEvaluationInput) (b : RebateBatch) (plan : RebatePlan) :
    cmd RebateService RebateServiceError RebateAssessment :=
  let k := strat_key (in_strategy input) in
  let r := in_reservation_id input in
  _ ← guard_strategy k;
  let sources := [Build_ReservationSource (key_maker k) (key_hash k) (rp_token_out plan) (rp_out plan)] in
  let next := with_batch_state b (BatchState.Preparing plan r) in
  _ ← save next;
  _ ← set_batch k next;
  held ← attempt (with_ledger (reserve_rebate (w_budget_of w) (w_now w) r (rb_id next) sources
                                 (in_reservation_ttl_secs input)));
  match held with
  | Ok _ =>
      match w_build w (in_strategy input) plan r (in_deadline_block input) (in_published_at input) with
      | Err e =>
          _ ← release_if_held r;
          let b' := with_batch_state next BatchState.Guarded in
          _ ← set_batch k b';
          _ ← save b';
          fail (ECallBuilder e)
      | Ok execution =>
          let ready := with_batch_state next (BatchState.Ready execution) in
          saved ← attempt (save ready);
          match saved with
          | Err e => _ ← release_if_held r; fail e
          | Ok _ => _ ← set_batch k ready; mret (Ready plan)
          end
      end
  | Err (ELedger (LedgerRefused (Insufficient _))) =>
      let b' := with_batch_state next BatchState.Guarded in
      _ ← set_batch k b';
      _ ← save b';
      mret (Guarded (rp_deviation_bps plan))
  | Err e => fail e
  end.

Definition evaluate (w : RebateWorld) (input : RebateEvaluationInput) :
    cmd RebateService RebateServiceError RebateAssessment :=
  let k := strat_key (in_strategy input) in
  batches ← gets rs_batches;
  b ← lift (ok_or (batches !! k) (ERebate (StrategyMismatch (key_hash k))));
  b ← finish_interrupted_transition k b;
  match rb_state b with
  | BatchState.Ready e => mret (Ready (ex_plan e))
  | _ =>
      '(market, requirements) ← lift (economics w (in_strategy input) (in_minimums input));
      assessment ← lift (map_err ERebate (assess policy (rb_id b) (values (rb_accruals b)) (in_strategy input)
                                            (in_caps input) market requirements));
      match assessment with
      | Quoteable deviation =>
          let next := with_batch_state b BatchState.Accumulating in
          _ ← save next;
          _ ← set_batch k next;
          _ ← unguard_strategy k;
          mret (Quoteable deviation)
      | Guarded deviation =>
          _ ← guard_strategy k;
          let next := with_batch_state b BatchState.Guarded in
          _ ← save next;
          _ ← set_batch k next;
          mret (Guarded deviation)
      | Ready plan => evaluate_ready w input b plan
      end
  end.

(** ** Closing a batch *)

Definition discard (k : StrategyKey) : cmd RebateService RebateServiceError bool :=
  batches ← gets rs_batches;
  match batches !! k with
  | None => mret false
  | Some b =>
      match rb_state b with
      | BatchState.Ready _ => rebate_fail (InvalidExecution "public work must expire before its batch is discarded")
      | _ =>
          _ ← match active_reservation (rb_state b) with
              | Some r =>
                  let b' := with_batch_state b (BatchState.Invalidating r) in
                  _ ← set_batch k b';
                  _ ← save b';
                  release_if_held r
              | None => mret tt
              end;
          _ ← with_store (rebate_close (rb_id b));
          _ ← set_batches (delete k);
          _ ← unguard_strategy k;
          mret true
      end
  end.

(** The first live batch with this id, in key order. *)
Definition batch_by_id (m : gmap StrategyKey RebateBatch) (id : RebateBatchId) : option (StrategyKey * RebateBatch) :=
  head (filter (λ p, rb_id p.2 = id) (entries m)).

(** Consume the hold of a settlement that is still held. *)
Definition post_settlement (x : RebateSettlement) : cmd RebateService RebateServiceError unit :=
  l ← gets rs_ledger;
  match reservation_sources l (st_reservation x) with
  | Some _ => with_ledger (LedgerService.post (st_reservation x) [ev_out (st_event x)])
  | None => mret tt
  end.

Definition settle (event : RebateExecutedEvent) (executed_at : Z) : cmd RebateService RebateServiceError bool :=
  batches ← gets rs_batches;
  match batch_by_id batches (ev_batch event) with
  | None => mret false
  | Some (k, b) =>
      match rb_state b with
      | BatchState.Ready e =>
          _ ← lift (map_err ERebate (validate_execution_event event e));
          let x := mk_rebate_settlement (ex_plan e) (ex_reservation e) event executed_at in
          _ ← with_store (begin_settlement x);
          _ ← post_settlement x;
          _ ← with_store (finish_settlement (rb_id b));
          _ ← set_batches (delete k);
          _ ← unguard_strategy k;
          mret true
      | _ => rebate_fail (InvalidExecution "mined event does not identify ready work")
      end
  end.

Definition expire_ready (k : StrategyKey) (safe_scanned_block : Z) : cmd RebateService RebateServiceError bool :=
  batches ← gets rs_batches;
  match batches !! k with
  | Some b =>
      match rb_state b with
      | BatchState.Ready e =>
          if safe_scanned_block <=? deadline_block (authorization e) then mret false
          else
            let r := ex_reservation e in
            let next := with_batch_state b (BatchState.Invalidating r) in
            _ ← save next;
            _ ← set_batch k next;
            l ← gets rs_ledger;
            _ ← match reservation_sources l r with
                | Some _ => with_ledger (LedgerService.expire r)
                | None => mret tt
                end;
            let next := with_batch_state next BatchState.Guarded in
            _ ← save next;
            _ ← set_batch k next;
            mret true
      | _ => mret false
      end
  | None => mret false
  end.

(** ** Recovery *)

Fixpoint recover_settlements (xs : list RebateSettlement) : cmd RebateService RebateServiceError unit :=
  match xs with
  | [] => mret tt
  | x :: xs' =>
      _ ← lift (map_err ERebate (validate_settlement x));
      _ ← guard_strategy (rp_strategy (st_plan x));
      _ ← post_settlement x;
      _ ← with_store (finish_settlement (rp_batch (st_plan x)));
      _ ← unguard_strategy (rp_strategy (st_plan x));
      recover_settlements xs'
  end.

(** One open batch as it joins the recovered ones. *)
Definition recover_batch (b : RebateBatch) : cmd RebateService RebateServiceError RebateBatch :=
  match rb_state b with
  | BatchState.Accumulating | BatchState.Guarded => _ ← guard_strategy (rb_strategy b); mret b
  | BatchState.Ready e =>
      _ ← guard_strategy (rb_strategy b);
      l ← gets rs_ledger;
      match reservation_sources l (ex_reservation e) with
      | None => rebate_fail (InvalidExecution "ready work has no inventory reservation")
      | Some _ => mret b
      end
  | BatchState.Preparing _ r | BatchState.Invalidating r =>
      _ ← guard_strategy (rb_strategy b);
      _ ← release_if_held r;
      let b' := with_batch_state b BatchState.Guarded in
      _ ← save b';
      mret b'
  end.

Fixpoint recover_batches (bs : list RebateBatch) (recovered : gmap StrategyKey RebateBatch) :
    cmd RebateService RebateServiceError (gmap StrategyKey RebateBatch) :=
  match bs with
  | [] => mret recovered
  | b :: bs' =>
      _ ← lift (map_err ERebate (validate_batch b));
      if bool_decide (is_Some (recovered !! rb_strategy b))
      then rebate_fail (InvalidAccrual "multiple open batches target one strategy")
      else b' ← recover_batch b; recover_batches bs' (<[rb_strategy b' := b']> recovered)
  end.

Definition recover : cmd RebateService RebateServiceError unit :=
  pending ← with_store pending_settlements;
  _ ← recover_settlements pending;
  open ← with_store rebate_open_batches;
  recovered ← recover_batches open ∅;
  set_batches (λ _, recovered).

(** ** Reads *)

Definition open_batches (s : RebateService) : list RebateBatch := values (rs_batches s).

Definition ready_of (b : RebateBatch) : option RebateExecution :=
  match rb_state b with BatchState.Ready e => Some e | _ => None end.

Definition ready (s : RebateService) : list RebateExecution := omap ready_of (values (rs_batches s)).

Definition ready_by_id (s : RebateService) (id : RebateBatchId) : option RebateExecution :=
  find_map (λ b, if rb_id b =? id then ready_of b else None) (values (rs_batches s)).

Definition executed (q : ExecutedRebateQuery) : cmd RebateService RebateServiceError (list RebateSettlement) :=
  with_store (executed_rebates q).

Definition executed_by_id (id : RebateBatchId) : cmd RebateService RebateServiceError (option RebateSettlement) :=
  with_store (executed_rebate id).

End service.
Arguments RebateService : clear implicits.
Arguments mk_rebate_service {LSt RSt} _ _ _ _.
