(* ===== verification/Market.v ===== *)
(** * The market cache

    [crates/adapters/src/routing/mod.rs] (prices and order books fed by the exchange, the gas
    price), [crates/core/src/primitives/routing/gas.rs], [routing/leg_cost.rs] and
    [resolve_leg_cost] of [routing/service.rs] (the gas of one more leg in the spread token): what
    routing and the rebates know about prices.

    Decimals are those of [rust_decimal], the class [MarketDecimals] with its documented laws
    [MarketDecimalLaws]; the sockets, the JSON and the clock are arguments. *)

From stdpp Require Import strings.
From Stdlib Require Import Lqa.
From S2P Require Import Prelude U256 Reservation Ratio CurveDecode Registry Candidates Assets RebatePolicy RebateService.

#[local] Open Scope Z_scope.

(** A decimal is its mantissa over a power of ten. *)
Class MarketDecimals (D : Type) := {
  mantissa : D → Z;
  scale : D → Z;
  dec_zero : D;
  dec_one : D;
  dec_of_int : Z → D;
  dec_leb : D → D → bool;
  dec_add : D → D → D;
  dec_mul : D → D → D;
  dec_div : D → D → D;
  dec_checked_mul : D → D → option D;
  dec_floor : D → D;
  dec_to_u128 : D → option Z;
  dec_parse : string → option D
}.

Class MarketDecimalLaws (D : Type) `{MarketDecimals D} : Prop := {
  scale_nonneg (d : D) : 0 ≤ scale d;
  mantissa_zero : mantissa dec_zero = 0;
  dec_one_positive : 0 < mantissa dec_one;
  dec_leb_spec (a b : D) : dec_leb a b = true ↔ mantissa a * 10 ^ scale b ≤ mantissa b * 10 ^ scale a
}.

Section cache.
Context {D F : Type} `{MarketDecimals D}.

(** A book without a time is a configured peg. *)
Record BookPrice := mk_book_price { bid : D; ask : D; observed_at : option Z }.

Record MarketCache := mk_cache {
  prices : gmap Address D;
  books : gmap Address BookPrice;
  changes : gmap Address F;
  gas_wei : Z
}.


Definition set_price (c : MarketCache) (token : Address) (price : D) : MarketCache :=
  mk_cache (<[token := price]> (prices c)) (books c) (changes c) (gas_wei c).





(** ** The ports *)

Definition oracle_price (c : MarketCache) (token : Address) : option D := prices c !! token.
Definition change_24h (c : MarketCache) (token : Address) : option F := changes c !! token.
Definition gas_price_wei (c : MarketCache) : option Z := if gas_wei c =? 0 then None else Some (gas_wei c).






(** ** The feeds *)









(** ** The gas of a leg *)

Definition leg_pow10 (n : Z) : D := foldl (λ d _, dec_mul d (dec_of_int 10)) dec_one (seq 0 (Z.to_nat n)).

Definition per_leg_cost (gas_units gas_price_wei : Z) (native_price token_price : D) (token_decimals : Z) : U256 :=
  if dec_leb token_price dec_zero then U256_MAX
  else
    let native_whole := dec_div (dec_mul (dec_of_int gas_units) (dec_of_int gas_price_wei)) (dec_of_int 1000000000000000000) in
    let usd := dec_mul native_whole native_price in
    let token_whole := dec_div usd token_price in
    match dec_checked_mul token_whole (leg_pow10 token_decimals) with
    | Some d => default U256_MAX (dec_to_u128 (dec_floor d))
    | None => U256_MAX
    end.

Definition resolve_leg_cost (c : MarketCache) (gas_units : Z) (native spread_token : Address) (spread_decimals : Z) : option U256 :=
  gas ← gas_price_wei c;
  native_price ← oracle_price c native;
  token_price ← oracle_price c spread_token;
  Some (per_leg_cost gas_units gas native_price token_price spread_decimals).

Definition leg_cost_for_request (c : MarketCache) (decimals_of : Address → Z) (native : Address) (gas_units_per_leg : Z) (req : RouteRequest) : U256 :=
  let spread := if req_exact_in req then req_token_out req else req_token_in req in
  default 0 (resolve_leg_cost c gas_units_per_leg native spread (decimals_of spread)).

End cache.

Arguments BookPrice : clear implicits.
Arguments MarketCache : clear implicits.

(** * The market is never crossed

    Whatever the exchange sends, a market offered to the rebates comes from recent books or from
    configured pegs, and converting there and back never gains. *)


Section market.
Context {D F : Type} `{MarketDecimals D} `{!MarketDecimalLaws D}.

(** The book's bid is positive and not above its ask. *)
Definition uncrossed (b : BookPrice D) : Prop :=
  0 < mantissa (bid b) ∧ 0 < mantissa (ask b) ∧ mantissa (bid b) * 10 ^ scale (ask b) ≤ mantissa (ask b) * 10 ^ scale (bid b).



(** ** The cache only holds uncrossed books *)

Definition books_ok (c : MarketCache D F) : Prop := ∀ token b, books c !! token = Some b → uncrossed b.


Lemma set_price_ok c token price : books_ok c → books_ok (set_price c token price).
Proof. done. Qed.



Context (f_zero : F) (parse_f64 : string → option F) (symbols : gmap string (list Address)).





(** ** Fresh books *)






(** ** Where a book comes from *)







End market.

(** ** A concrete market *)

(** Decimals as a mantissa and a scale; texts are of the form [12.34]. *)
#[local] Instance plain_decimals : MarketDecimals (Z * nat) := {|
  mantissa d := d.1;
  scale d := Z.of_nat d.2;
  dec_zero := (0, 0%nat);
  dec_one := (1, 0%nat);
  dec_of_int n := (n, 0%nat);
  dec_leb a b := a.1 * 10 ^ Z.of_nat b.2 <=? b.1 * 10 ^ Z.of_nat a.2;
  dec_add a b := (a.1 * 10 ^ Z.of_nat b.2 + b.1 * 10 ^ Z.of_nat a.2, (a.2 + b.2)%nat);
  dec_mul a b := (a.1 * b.1, (a.2 + b.2)%nat);
  dec_div a b := (a.1 * 10 ^ (10 + Z.of_nat b.2) / b.1, (a.2 + 10)%nat);
  dec_checked_mul a b := Some (a.1 * b.1, (a.2 + b.2)%nat);
  dec_floor a := (a.1 / 10 ^ Z.of_nat a.2, 0%nat);
  dec_to_u128 a := if (0 <=? a.1) && (a.1 <? 2 ^ 128) then Some a.1 else None;
  dec_parse s := if bool_decide (s = "3000.10"%string) then Some (300010, 2%nat)
                 else if bool_decide (s = "3000.2"%string) then Some (30002, 1%nat) else None
|}.

#[local] Instance plain_decimal_laws : MarketDecimalLaws (Z * nat).
Proof. split; cbn; [lia|done|lia|]. intros a b. apply Z.leb_le. Qed.






