(* ===== verification/PriceHistory.v ===== *)
(** * Charted prices

    [crates/adapters/src/routing/history.rs] and [crates/core/src/asset/history.rs]: the price of
    a pair over time from the exchange's candles, read page by page, checked, and joined on their
    common timestamps.

    The exchange's answers are arguments, floating point is the class [KlineFloats].  The cache in
    front of the reader returns what a load returned and is not modelled. *)

From stdpp Require Import strings sorting.
From S2P Require Import Prelude U256 Reservation.

#[local] Open Scope string_scope.
#[local] Open Scope list_scope.
#[local] Open Scope Z_scope.

Class KlineFloats (F : Type) := {
  kf_one : F;
  kf_div : F → F → F;
  kf_finite : F → bool;
  (** greater than zero, and less than zero *)
  kf_positive : F → bool;
  kf_negative : F → bool;
  kf_parse : string → option F
}.

Definition KLINE_PAGE_SIZE : nat := 1000.
Definition MAX_ALL_PAGES : nat := 16.
Definition HOUR_MS : Z := 60 * 60 * 1000.
Definition DAY_MS : Z := 24 * HOUR_MS.

Inductive PriceHistoryPeriod : Type := SevenDays | ThreeMonths | AllTime.

Inductive HistorySourceError : Type :=
| HistoryNotFound (token : Address)
| HistoryInvalid (reason : string)
| HistorySource (reason : string)
| HistorySamePair.

Inductive MarketSource : Type := Binance (symbol : string) | FixedUsd.
#[global] Instance MarketSource_eq_dec : EqDecision MarketSource.
Proof. solve_decision. Defined.

Record PeriodRequest := mk_period { pq_interval : string; pq_interval_ms : Z; pq_start_ms : Z; pq_paginate : bool }.

Definition period_request (period : PriceHistoryPeriod) (now_ms : Z) : PeriodRequest :=
  match period with
  | SevenDays => mk_period "1h" HOUR_MS (u64_saturating_sub now_ms (7 * DAY_MS)) false
  | ThreeMonths => mk_period "4h" (4 * HOUR_MS) (u64_saturating_sub now_ms (90 * DAY_MS)) false
  | AllTime => mk_period "1d" DAY_MS 0 true
  end.

(** A value of a candle's row. *)
Inductive JsonValue : Type := JUint (n : Z) | JText (s : string) | JOther.

Section history.
Context {F : Type} `{KlineFloats F}.

Record Kline := mk_kline { kl_time : Z; kl_close : F; kl_volume : F }.

Record PairPricePoint := mk_price_point { pp_time : Z; pp_price : F; pp_volume : option F }.

Inductive TokenHistory : Type := HistoryFixed | HistorySeries (points : list Kline).

Definition invalid_data {A} (reason : string) : result HistorySourceError A := Err (HistoryInvalid reason).

Definition parse_number (value : option JsonValue) (field : string) : result HistorySourceError F :=
  match value with
  | Some (JText s) => ok_or (kf_parse s) (HistoryInvalid ("kline " +:+ field +:+ " is missing or invalid"))
  | _ => invalid_data ("kline " +:+ field +:+ " is missing or invalid")
  end.

Definition parse_kline (row : list JsonValue) : result HistorySourceError Kline :=
  time ← match head row with Some (JUint n) => Ok n | _ => invalid_data "kline open time is missing or invalid" end;
  close ← parse_number (row !! 4%nat) "close price";
  volume ← parse_number (row !! 7%nat) "quote volume";
  if negb (kf_finite close) || negb (kf_positive close) then invalid_data "kline close price must be finite and positive"
  else if negb (kf_finite volume) || kf_negative volume then invalid_data "kline quote volume must be finite and non-negative"
  else Ok (mk_kline time close volume).

(** A page: the rows from a time on, at most a page's worth. *)
Context (fetch_rows : string → string → Z → nat → result string (list (list JsonValue))).

Definition fetch_page (symbol interval : string) (start limit : Z) : result HistorySourceError (list Kline) :=
  rows ← map_err HistorySource (fetch_rows symbol interval start (Z.to_nat limit));
  mapM parse_kline rows.

Fixpoint fetch_pages (request : PeriodRequest) (symbol : string) (now_ms : Z) (pages : nat) (cursor : Z) (points : list Kline) :
    result HistorySourceError (list Kline) :=
  match pages with
  | O => Ok points
  | S pages =>
      page ← fetch_page symbol (pq_interval request) cursor (Z.of_nat KLINE_PAGE_SIZE);
      match last page with
      | None => Ok points
      | Some final =>
          if kl_time final <? cursor then invalid_data "kline timestamps moved backwards"
          else
            let points := points ++ filter (λ p, kl_time p ≤ now_ms) page in
            if negb (pq_paginate request) || (length page <? KLINE_PAGE_SIZE)%nat || (now_ms <=? kl_time final) then Ok points
            else
              let next := kl_time final + pq_interval_ms request in
              if 2 ^ 64 <=? next then invalid_data "kline timestamp overflow"
              else if next <=? cursor then invalid_data "kline pagination did not advance"
              else if (pages =? 0)%nat then invalid_data "kline history exceeded the pagination limit"
              else fetch_pages request symbol now_ms pages next points
      end
  end.

Fixpoint increasing (points : list Kline) : bool :=
  match points with
  | a :: ((b :: _) as rest) => (kl_time a <? kl_time b) && increasing rest
  | _ => true
  end.

Definition validate_series (points : list Kline) : result HistorySourceError unit :=
  match points with
  | [] => invalid_data "price source returned no klines"
  | _ => if increasing points then Ok tt else invalid_data "kline timestamps must be strictly increasing"
  end.

Definition fetch_symbol (symbol : string) (period : PriceHistoryPeriod) (now_ms : Z) : result HistorySourceError (list Kline) :=
  let request := period_request period now_ms in
  points ← fetch_pages request symbol now_ms MAX_ALL_PAGES (pq_start_ms request) [];
  _ ← validate_series points;
  Ok points.

Definition pair_point (time : Z) (price : F) (volume : option F) : result HistorySourceError PairPricePoint :=
  if negb (kf_finite price) || negb (kf_positive price) then invalid_data "pair price must be finite and positive"
  else Ok (mk_price_point time price volume).

(** The two cursors of the loop, as the rests of the series. *)
Fixpoint align_series (base : list Kline) : list Kline → result HistorySourceError (list PairPricePoint) :=
  fix align_quote quote :=
    match base, quote with
    | b :: base', q :: quote' =>
        if kl_time b <? kl_time q then align_series base' quote
        else if kl_time q <? kl_time b then align_quote quote'
        else
          point ← pair_point (kl_time b) (kf_div (kl_close b) (kl_close q)) (Some (kl_volume b));
          points ← align_series base' quote';
          Ok (point :: points)
    | _, _ => Ok []
    end.

Definition pair_points (base quote : TokenHistory) (now_ms : Z) : result HistorySourceError (list PairPricePoint) :=
  match base, quote with
  | HistoryFixed, HistoryFixed => point ← pair_point now_ms kf_one None; Ok [point]
  | HistorySeries base, HistoryFixed => mapM (λ p, pair_point (kl_time p) (kl_close p) (Some (kl_volume p))) base
  | HistoryFixed, HistorySeries quote => mapM (λ p, pair_point (kl_time p) (kf_div kf_one (kl_close p)) (Some (kl_volume p))) quote
  | HistorySeries base, HistorySeries quote => align_series base quote
  end.

Definition token_history (source : MarketSource) (period : PriceHistoryPeriod) (now_ms : Z) : result HistorySourceError TokenHistory :=
  match source with
  | FixedUsd => Ok HistoryFixed
  | Binance symbol => points ← fetch_symbol symbol period now_ms; Ok (HistorySeries points)
  end.

Definition load_history (sources : gmap Address MarketSource) (base quote : Address) (period : PriceHistoryPeriod) (now_ms : Z) :
    result HistorySourceError (list PairPricePoint) :=
  base_source ← ok_or (sources !! base) (HistoryNotFound base);
  quote_source ← ok_or (sources !! quote) (HistoryNotFound quote);
  histories ← (if bool_decide (base_source = quote_source)
               then h ← token_history base_source period now_ms; Ok (h, h)
               else b ← token_history base_source period now_ms; q ← token_history quote_source period now_ms; Ok (b, q));
  points ← pair_points histories.1 histories.2 now_ms;
  match points with
  | [] => invalid_data "the two price series have no common timestamps"
  | _ => Ok points
  end.

(** [PairHistoryService::history] *)
Definition pair_history (sources : gmap Address MarketSource) (base quote : Address) (period : PriceHistoryPeriod) (now_ms : Z) :
    result HistorySourceError (list PairPricePoint) :=
  if base =? quote then Err HistorySamePair else load_history sources base quote period now_ms.

End history.

Arguments Kline : clear implicits.
Arguments PairPricePoint : clear implicits.
Arguments TokenHistory : clear implicits.

(** * Charted prices are market prices

    A chart that is served is a sequence of usable prices in time order, none in the future, and
    where both tokens trade it holds exactly their common candles. *)

(** A traversal that succeeds succeeded at every element. *)
Lemma mapM_Ok {E A B} (f : A → result E B) l res : mapM f l = Ok res → Forall2 (λ x y, f x = Ok y) l res.
Proof.
  revert res. induction l as [|x l IH]; intros res; cbn; [intros [= <-]; constructor|].
  destruct (f x) as [y|] eqn:Hx; [|done]. cbn. destruct (mapM f l) as [ys|]; [|done]. intros [= <-]. constructor; [done|by apply IH].
Qed.

Section chart.
Context {F : Type} `{KlineFloats F}.

(** A checked series: strictly increasing, and not past [now]. *)
Definition series (now_ms : Z) (l : list (Kline F)) : Prop :=
  StronglySorted (λ a b, kl_time a < kl_time b) l ∧ ∀ k, k ∈ l → kl_time k ≤ now_ms.

Definition usable (p : PairPricePoint F) : Prop := kf_finite (pp_price p) = true ∧ kf_positive (pp_price p) = true.

Definition in_order (now_ms : Z) (points : list (PairPricePoint F)) : Prop :=
  StronglySorted (λ a b, pp_time a < pp_time b) points ∧ ∀ p, p ∈ points → pp_time p ≤ now_ms ∧ usable p.

(** The point of two candles of the same time. *)
Definition joined (b q : Kline F) : PairPricePoint F := mk_price_point (kl_time b) (kf_div (kl_close b) (kl_close q)) (Some (kl_volume b)).

Lemma increasing_sorted l : increasing l = true → StronglySorted (λ a b : Kline F, kl_time a < kl_time b) l.
Proof.
  intros Hl. apply Sorted_StronglySorted; [intros a b c; lia|]. induction l as [|a l IH]; [constructor|]. destruct l as [|b l]; [repeat constructor|].
  cbn [increasing] in Hl. apply andb_true_iff in Hl as [Hab Hl]. zbool. constructor; [by apply IH|by constructor].
Qed.

Lemma fetch_pages_times fetch_rows request symbol now_ms pages cursor points res :
  fetch_pages fetch_rows request symbol now_ms pages cursor points = Ok res →
  (∀ k, k ∈ points → kl_time k ≤ now_ms) → ∀ k : Kline F, k ∈ res → kl_time k ≤ now_ms.
Proof.
  revert cursor points. induction pages as [|pages IH]; intros cursor points; cbn [fetch_pages]; [by intros [= <-]|].
  destruct (fetch_page _ _ _ _ _) as [page|]; [|done]. cbn [mbind result_bind]. destruct (last page) as [final|]; [|by intros [= <-]].
  destruct (_ <? _); [done|]. intros Hres Hp. assert (Hp' : ∀ k, k ∈ points ++ filter (λ p, kl_time p ≤ now_ms) page → kl_time k ≤ now_ms).
  { intros k [Hk|[Hk _]%list_elem_of_filter]%elem_of_app; [by apply Hp|done]. }
  destruct (_ || _); [by injection Hres as <-|]. destruct (2 ^ 64 <=? _); [done|]. destruct (_ <=? cursor); [done|]. destruct (pages =? 0)%nat; [done|].
  by apply (IH _ _ Hres).
Qed.

Lemma fetch_symbol_series fetch_rows symbol period now_ms l : fetch_symbol fetch_rows symbol period now_ms = Ok l → series now_ms l.
Proof.
  unfold fetch_symbol. destruct (fetch_pages _ _ _ _ _ _ _) as [points|] eqn:Hp; [|done]. cbn [mbind result_bind].
  destruct (validate_series points) as [[]|] eqn:Hv; [|done]. cbn [mbind result_bind]. intros [= <-]. split.
  - unfold validate_series in Hv. destruct points; [done|]. destruct (increasing _) eqn:Hi; [|done]. by apply increasing_sorted.
  - apply (fetch_pages_times _ _ _ _ _ _ _ _ Hp). intros k Hk. by apply elem_of_nil in Hk.
Qed.

Lemma pair_point_Ok time price volume p : pair_point time price volume = Ok p → p = mk_price_point time price volume ∧ usable p.
Proof.
  unfold pair_point, usable. destruct (_ || _) eqn:E; [done|]. intros [= <-]. apply orb_false_iff in E as [E1 E2].
  by apply negb_false_iff in E1, E2.
Qed.

(** *** The join *)

Lemma align_join base quote points :
  StronglySorted (λ a b, kl_time a < kl_time b) base → StronglySorted (λ a b, kl_time a < kl_time b) quote →
  align_series base quote = Ok points →
  StronglySorted (λ a b, pp_time a < pp_time b) points ∧ (∀ p, p ∈ points → usable p)
  ∧ ∀ p, p ∈ points ↔ ∃ b q, b ∈ base ∧ q ∈ quote ∧ kl_time b = kl_time q ∧ p = joined b q.
Proof.
  intros Hb. revert quote points. induction Hb as [|b base Hbs IHb Hb]; intros quote points Hq.
  { destruct quote; intros [= <-]; (split; [constructor|]); split; set_solver. }
  revert points. induction Hq as [|q quote Hqs IHq Hq]; intros points Ha.
  { injection Ha as <-. split; [constructor|]. split; set_solver. }
  rewrite Forall_forall in Hb, Hq. change (align_series (b :: base) (q :: quote)) with
    (if kl_time b <? kl_time q then align_series base (q :: quote) else if kl_time q <? kl_time b then align_series (b :: base) quote
     else point ← pair_point (kl_time b) (kf_div (kl_close b) (kl_close q)) (Some (kl_volume b)); points ← align_series base quote; Ok (point :: points)) in Ha.
  destruct (kl_time b <? kl_time q) eqn:E1; zbool.
  { destruct (IHb (q :: quote) points) as (Hs & Hu & Hin); [by constructor; [|apply Forall_forall]|done|]. split; [done|]. split; [done|]. intros p. rewrite Hin.
    split; [set_solver|]. intros (b' & q' & Hb' & Hq' & Ht & ->). exists b', q'. split; [|done].
    apply elem_of_cons in Hb' as [->|]; [|done]. apply elem_of_cons in Hq' as [->|Hq']; [lia|]. specialize (Hq q' Hq'). lia. }
  destruct (kl_time q <? kl_time b) eqn:E2; zbool.
  { destruct (IHq points Ha) as (Hs & Hu & Hin). split; [done|]. split; [done|]. intros p. rewrite Hin.
    split; [set_solver|]. intros (b' & q' & Hb' & Hq' & Ht & ->). exists b', q'. split; [done|]. split; [|done].
    apply elem_of_cons in Hq' as [->|]; [|done]. apply elem_of_cons in Hb' as [->|Hb']; [lia|]. specialize (Hb b' Hb'). lia. }
  destruct (pair_point _ _ _) as [point|] eqn:Hp; [|done]. cbn [mbind result_bind] in Ha. apply pair_point_Ok in Hp as [-> Hpu].
  destruct (align_series base quote) as [rest|] eqn:Hr; [|done]. injection Ha as <-. destruct (IHb quote rest Hqs Hr) as (Hs & Hu & Hin).
  assert (Hlater : ∀ p, p ∈ rest → kl_time b < pp_time p). { intros p (b' & q' & Hb' & _ & _ & ->)%Hin. by apply Hb. }
  split; [constructor; [done|]; by apply Forall_forall|]. split; [intros p [->|Hp]%elem_of_cons; [done|by apply Hu]|].
  intros p. rewrite elem_of_cons, Hin. split.
  - intros [->|(b' & q' & ? & ? & ? & ->)]; [|exists b', q'; set_solver]. exists b, q. split; [left|]. split; [left|]. split; [lia|done].
  - intros (b' & q' & Hb' & Hq' & Ht & ->).
    apply elem_of_cons in Hb' as [->|Hb'], Hq' as [->|Hq']; [by left|specialize (Hq _ Hq'); lia|specialize (Hb _ Hb'); lia|right; eauto 6].
Qed.

(** A series priced against a fixed dollar. *)
Lemma mapped_series now_ms l (f : Kline F → F) points :
  series now_ms l → mapM (λ p, pair_point (kl_time p) (f p) (Some (kl_volume p))) l = Ok points →
  in_order now_ms points ∧ pp_time <$> points = kl_time <$> l.
Proof.
  intros [Hs Hn] Hm. apply mapM_Ok in Hm. assert (Hp : Forall2 (λ k p, p = mk_price_point (kl_time k) (f k) (Some (kl_volume k)) ∧ usable p) l points).
  { eapply Forall2_impl; [exact Hm|]. intros k p. apply pair_point_Ok. }
  clear Hm. induction Hp as [|k p l points [-> Hu] Hp IH]; [split; [split; [constructor|set_solver]|done]|].
  apply StronglySorted_inv in Hs as [Hs Hk]. destruct IH as [[Hso Hin] Ht]; [done|intros; apply Hn; by right|].
  split; [|by rewrite !fmap_cons, Ht]. split.
  - constructor; [done|]. pose proof (proj1 (Forall_forall _ _) Hk) as Hk'. apply Forall_forall. intros p Hpin. assert (Hx : pp_time p ∈ kl_time <$> l) by (rewrite <-Ht; by apply list_elem_of_fmap_2).
    apply list_elem_of_fmap in Hx as (k' & -> & Hin'). by apply Hk'.
  - intros p [->|Hpin]%elem_of_cons; [|by apply Hin]. split; [|done]. apply Hn. left.
Qed.

Lemma token_history_series fetch_rows source period now_ms l : token_history fetch_rows source period now_ms = Ok (HistorySeries l) → series now_ms l.
Proof.
  destruct source as [symbol|]; [|done]. unfold token_history.
  destruct (fetch_symbol fetch_rows symbol period now_ms) as [points|] eqn:Hf; [|done]. intros [= <-]. by apply fetch_symbol_series in Hf.
Qed.

Lemma pair_points_in_order base quote now_ms points :
  (∀ l, base = HistorySeries l → series now_ms l) → (∀ l, quote = HistorySeries l → series now_ms l) →
  pair_points base quote now_ms = Ok points → in_order now_ms points.
Proof.
  intros Hb Hq. destruct base as [|base], quote as [|quote]; cbn [pair_points].
  - destruct (pair_point _ _ _) as [p|] eqn:Hp; [|done]. intros [= <-]. apply pair_point_Ok in Hp as [-> Hu]. split; [repeat constructor|].
    intros p ->%list_elem_of_singleton. split; [cbn; lia|done].
  - intros Hm. by apply (mapped_series now_ms) in Hm as [? _]; [|apply Hq].
  - intros Hm. by apply (mapped_series now_ms) in Hm as [? _]; [|apply Hb].
  - intros Ha. specialize (Hb _ eq_refl) as [Hbs Hbn]. specialize (Hq _ eq_refl) as [Hqs _]. apply align_join in Ha as (Hs & Hu & Hin); [|done..].
    split; [done|]. intros p Hp. split; [|by apply Hu]. apply Hin in Hp as (b & q & Hbin & _ & _ & ->). by apply Hbn.
Qed.

(** a chart that is served for a pair has at least one point, its points are in strictly increasing time
    order with none in the future, every price is finite and positive, and where both tokens trade on
    the exchange under different symbols it is exactly the join of their two candle series on their
    common times. *)
Theorem charted_prices_are_market_prices fetch_rows sources base quote period now_ms points :
  pair_history fetch_rows sources base quote period now_ms = Ok points →
  base ≠ quote ∧ points ≠ [] ∧ in_order now_ms points
  ∧ ∀ s t, sources !! base = Some (Binance s) → sources !! quote = Some (Binance t) → s ≠ t →
      ∃ bs qs, fetch_symbol fetch_rows s period now_ms = Ok bs ∧ fetch_symbol fetch_rows t period now_ms = Ok qs
        ∧ ∀ p, p ∈ points ↔ ∃ b q, b ∈ bs ∧ q ∈ qs ∧ kl_time b = kl_time q ∧ p = joined b q.
Proof.
  unfold pair_history, load_history. destruct (base =? quote) eqn:Hne; [done|]. zbool.
  destruct (sources !! base) as [sb|]; [|done]. destruct (sources !! quote) as [sq|]; [|done]. cbn [ok_or mbind result_bind].
  destruct (if bool_decide _ then _ else _) as [[hb hq]|] eqn:Hh; [|done]. cbn [mbind result_bind fst snd].
  destruct (pair_points hb hq now_ms) as [ps|] eqn:Hp; [|done]. cbn [mbind result_bind]. intros Hres.
  assert (Heq : ps = points ∧ points ≠ []) by (destruct ps; [done|by injection Hres as <-]). destruct Heq as [-> Hpne]. clear Hres.
  assert (Hboth : token_history fetch_rows sb period now_ms = Ok hb ∧ token_history fetch_rows sq period now_ms = Ok hq).
  { case_bool_decide as Es; [subst sq|]; destruct (token_history fetch_rows sb period now_ms) as [x|]; try done; cbn [mbind result_bind] in Hh; [by injection Hh as <- <-|].
    destruct (token_history fetch_rows sq period now_ms) as [y|]; [|done]. by injection Hh as <- <-. }
  destruct Hboth as [Htb Htq]. split_and!; try done.
  - eapply pair_points_in_order; [..|exact Hp]; intros l ->; by apply token_history_series in Htb || by apply token_history_series in Htq.
  - intros s t [= ->] [= ->] Hst. unfold token_history in Htb, Htq.
    destruct (fetch_symbol fetch_rows s period now_ms) as [bs|] eqn:Hbs; [|done]. destruct (fetch_symbol fetch_rows t period now_ms) as [qs|] eqn:Hqs; [|done].
    injection Htb as <-. injection Htq as <-. exists bs, qs. split; [done|]. split; [done|].
    apply fetch_symbol_series in Hbs as [Hbs _]. apply fetch_symbol_series in Hqs as [Hqs _]. by apply align_join in Hp as (_ & _ & ?).
Qed.

End chart.

(** ** A chart of two candles *)

Module ChartDemo.


(** Prices as integers, read from a decimal text of one digit. *)
#[local] Instance whole_prices : KlineFloats Z := {|
  kf_one := 1; kf_div := Z.div; kf_finite _ := true; kf_positive := Z.ltb 0; kf_negative x := (x <? 0)%Z;
  kf_parse s := match s with "8" => Some 8 | "2" => Some 2 | "4" => Some 4 | _ => None end |}.

Definition candle (time : Z) (close : string) : list JsonValue :=
  [JUint time; JOther; JOther; JOther; JText close; JOther; JOther; JText "4"].

(** One pair trades three hours, the other only the last two and one later. *)
Definition exchange (symbol interval : string) (start : Z) (limit : nat) : result string (list (list JsonValue)) :=
  if bool_decide (symbol = "ETHUSDC") then Ok [candle 1000 "8"; candle 2000 "8"; candle 3000 "4"]
  else Ok [candle 2000 "2"; candle 3000 "4"; candle 4000 "4"].

Definition sources : gmap Address MarketSource := {[ 7 := Binance "ETHUSDC"; 9 := Binance "BTCUSDC" ]}.

(** [charted_prices_are_market_prices] at a pair whose candles overlap in two hours *)
Lemma charted_prices_are_market_prices_witness :
  pair_history exchange sources 7 9 SevenDays 3500 = Ok [mk_price_point 2000 4 (Some 4); mk_price_point 3000 1 (Some 4)]
  ∧ in_order 3500 [mk_price_point 2000 4 (Some 4); mk_price_point 3000 1 (Some 4)].
Proof.
  assert (Hok : pair_history exchange sources 7 9 SevenDays 3500 = Ok [mk_price_point 2000 4 (Some 4); mk_price_point 3000 1 (Some 4)])
    by (vm_compute; reflexivity).
  split; [exact Hok|]. exact (proj1 (proj2 (proj2 (charted_prices_are_market_prices exchange sources 7 9 SevenDays 3500 _ Hok)))).
Defined.

End ChartDemo.
