(* ===== verification/RebateServiceInvariant.v ===== *)
(** * The invariant of the rebate service

    What ties the live batches, the ledger's holds, the routing guard and the store
    together, and its preservation by every step of the service, whatever statement of
    either store fails. *)

From Stdlib Require Import String.
From S2P Require Import Prelude Commands U256 Reservation LedgerEngine LedgerInvariant LedgerProperties LedgerStore LedgerService LedgerHolds Ratio CurveDecode Curves Registry Candidates RebatePolicy RebateStore RebateCall RebateService.

#[local] Open Scope Z_scope.

(** ** Valid batches *)

(** What [validate_batch] asks of the accruals. *)
Record accruals_valid (b : RebateBatch) : Prop := {
  valid_some : rb_accruals b ≠ ∅;
  valid_legs : ∀ t a, rb_accruals b !! t = Some a → acc_trade a = t ∧ acc_strategy a = rb_strategy b
    ∧ TokenPair_new (acc_token_in a) (acc_token_out a) = rb_pair b ∧ validate_accrual a = Ok tt
}.

(** A prepared plan whose input is zero.  The policy prices the output of a restoration on its own, and a pegged curve may
    round that price to nothing; such a plan is persisted before the call builder refuses it. *)
Definition free_plan (b : RebateBatch) : bool :=
  match rb_state b with BatchState.Preparing plan _ => rp_in plan =? 0 | _ => false end.

(** The plan matches its batch, whatever its input. *)
Definition with_input (plan : RebatePlan) (input : U256) : RebatePlan :=
  mk_rebate_plan (rp_batch plan) (rp_strategy plan) (rp_token_in plan) (rp_token_out plan) input (rp_out plan)
    (gross_surplus plan) (safe_gas_cost plan) (maker_rebate plan) (executor_profit plan) (rp_deviation_bps plan) (allocations plan).
Definition plan_fits (plan : RebatePlan) (b : RebateBatch) : Prop := plan_matches_batch (with_input plan 1) b = true.

Lemma plan_matches_fits plan b : plan_matches_batch plan b = true ↔ rp_in plan ≠ 0 ∧ plan_fits plan b.
Proof.
  unfold plan_fits, plan_matches_batch, with_input. cbn [rp_batch rp_strategy rp_token_in rp_token_out rp_in rp_out maker_rebate allocations].
  change (1 =? 0) with false. destruct (Z.eqb_spec (rp_in plan) 0) as [Hz|Hz]; rewrite ?orb_true_r, ?orb_false_r; cbn [orb]; [|naive_solver].
  split; [done|naive_solver].
Qed.

(** What it asks of a plan, by state, the input of a prepared plan apart. *)
Definition state_valid (b : RebateBatch) : Prop :=
  match rb_state b with
  | BatchState.Preparing plan _ => plan_fits plan b
  | BatchState.Ready e => plan_matches_batch (ex_plan e) b = true ∧ validate_ready b e = true
  | _ => True
  end.

Lemma existsb_false {A} (f : A → bool) l : existsb f l = false ↔ ∀ x, x ∈ l → f x = false.
Proof.
  induction l as [|x l IH]; cbn; [set_solver|]. rewrite orb_false_iff, IH. split.
  - intros [Hx Hl] y [->|Hy]%elem_of_cons; auto.
  - intros Hall. split; [apply Hall; left|intros; apply Hall; by right].
Qed.

Lemma leg_flag_false (p : TradeId * RebateAccrual) b :
  negb (p.1 =? acc_trade p.2) || negb (bool_decide (acc_strategy p.2 = rb_strategy b))
  || negb (bool_decide (TokenPair_new (acc_token_in p.2) (acc_token_out p.2) = rb_pair b))
  || negb (is_ok (validate_accrual p.2)) = false
  ↔ acc_trade p.2 = p.1 ∧ acc_strategy p.2 = rb_strategy b
    ∧ TokenPair_new (acc_token_in p.2) (acc_token_out p.2) = rb_pair b ∧ validate_accrual p.2 = Ok tt.
Proof.
  rewrite !orb_false_iff, !negb_false_iff, !bool_decide_eq_true, Z.eqb_eq, is_ok_true.
  split; [intros (((? & ?) & ?) & [[] ?])|intros (? & ? & ? & ?)]; split_and!; eauto.
Qed.

(** The validation refuses a batch that is well formed only for a plan without input. *)
Definition PLAN_MISMATCH : RebateError := InvalidAccrual "persisted plan does not match its batch".

Lemma validate_batch_valid b :
  accruals_valid b → state_valid b → validate_batch b = if free_plan b then Err PLAN_MISMATCH else Ok tt.
Proof.
  intros Hv Hs. unfold validate_batch. set (bad := bool_decide _ || existsb _ _).
  assert (bad = false) as ->.
  { unfold bad. rewrite orb_false_iff, bool_decide_eq_false, existsb_false. destruct Hv as [Hne Hall]. split; [done|].
    intros [t a] Ha%elem_of_entries. apply leg_flag_false. by apply Hall. }
  unfold state_valid, free_plan in *. destruct (rb_state b) as [| |plan r|e|r]; try done.
  - destruct (plan_matches_batch plan b) eqn:Hm; cbn [negb].
    + apply plan_matches_fits in Hm as [Hm _]. by rewrite (proj2 (Z.eqb_neq _ _) Hm).
    + destruct (Z.eqb_spec (rp_in plan) 0) as [|Hne]; [done|]. by rewrite (proj2 (plan_matches_fits _ _) (conj Hne Hs)) in Hm.
  - destruct Hs as [-> ->]. done.
Qed.

(** The accruals and the plan checks do not look at the state. *)
Lemma accruals_valid_state b s : accruals_valid (with_batch_state b s) ↔ accruals_valid b.
Proof. split; intros []; by constructor. Qed.

Lemma plan_matches_state plan b s : plan_matches_batch plan (with_batch_state b s) = plan_matches_batch plan b.
Proof. done. Qed.

Lemma pair_new_le a b : lo (TokenPair_new a b) ≤ hi (TokenPair_new a b).
Proof. cbn. lia. Qed.

Lemma valid_storable `{RebateWire} b :
  accruals_valid b → (∀ e, rb_state b = BatchState.Ready e → execution_sound e) → batch_storable b.
Proof.
  intros [Hne Hlegs] Hs. constructor; [|..|done].
  - intros t a Ha. by destruct (Hlegs t a Ha) as (? & ? & _).
  - destruct (map_choose _ Hne) as (t & a & Ha). destruct (Hlegs t a Ha) as (_ & _ & <- & _). apply pair_new_le.
Qed.

(** One more valid leg of the same pair. *)
Lemma accruals_valid_insert b a :
  accruals_valid b → acc_strategy a = rb_strategy b → validate_accrual a = Ok tt →
  rb_pair b = TokenPair_new (acc_token_in a) (acc_token_out a) →
  accruals_valid (with_accruals b (<[acc_trade a := a]> (rb_accruals b))).
Proof.
  intros [Hne Hlegs] Hk Hv Hp. constructor; cbn; [apply insert_non_empty|].
  intros t x [(<- & <-)|(_ & Hx)]%lookup_insert_Some; [by rewrite Hp|by apply Hlegs].
Qed.

Lemma accruals_valid_new `{RebateWire} a :
  validate_accrual a = Ok tt →
  accruals_valid (RebateBatch_new (batch_id a) (TokenPair_new (acc_token_in a) (acc_token_out a)) a).
Proof.
  intros Hv. constructor; cbn; [apply map_non_empty_singleton|].
  intros t x (<- & <-)%lookup_singleton_Some. done.
Qed.

(** ** The invariant *)

(** Reservation ids are derived from the batch they belong to: no id serves two batches. *)
Class RebateReservationIds := {
  own : ReservationId → RebateBatchId → Prop;
  own_inj r b b' : own r b → own r b' → b = b'
}.

(** What the store already represented at some point in the past, and the executions that were observed on chain. *)
Class RebateHistory := {
  past : RebateView;
  observed : RebateExecutedEvent → Prop
}.

(** A reservation change that was persisted and may not have been finished. *)
Definition interrupted (s : RebateBatchState) : Prop :=
  ∃ r, s = BatchState.Invalidating r ∨ ∃ plan, s = BatchState.Preparing plan r.

(** The durable batch [b'] differs from the live [b] at most by a compensation that memory already made. *)
Definition tracks (b b' : RebateBatch) : Prop :=
  b' = with_batch_state b (rb_state b') ∧
  (rb_state b' = rb_state b
   ∨ (rb_state b = BatchState.Guarded ∧ interrupted (rb_state b'))
   ∨ ∃ r plan, rb_state b = BatchState.Invalidating r ∧ rb_state b' = BatchState.Preparing plan r).

(** The single source a plan is funded from. *)
Definition plan_source (plan : RebatePlan) : ReservationSource :=
  Build_ReservationSource (key_maker (rp_strategy plan)) (key_hash (rp_strategy plan)) (rp_token_out plan) (rp_out plan).

Section invariant.
Context {LSt RSt : Type} `{HS : LedgerStore LSt} `{HL : !LedgerStoreLaws LSt}.
Context `{HW : RebateWire} `{HR : RebateStore RSt} `{HRL : !RebateStoreLaws RSt} `{HI : RebateReservationIds} `{HH : RebateHistory}.
Implicit Types (s : RebateService LSt RSt) (k : StrategyKey) (b : RebateBatch) (r : ReservationId).

Definition durable_view s : RebateView := view (rs_store s).
Definition held_for (l : LedgerService LSt) r (bid : RebateBatchId) (plan : RebatePlan) : Prop :=
  ∃ x, holds l !! r = Some x ∧ res_state x = Pending ∧ res_owner x = Rebate bid ∧ res_sources x = [plan_source plan].

(** What is asked of a durable batch: the validation that recovery performs, the input of a prepared plan apart, and more. *)
Record durable_ok b : Prop := {
  durable_valid : accruals_valid b;
  durable_state : state_valid b;
  durable_sound : ∀ e, rb_state b = BatchState.Ready e → execution_sound e ∧ is_u256 (rp_out (ex_plan e));
  durable_weights : ∀ t a, rb_accruals b !! t = Some a → 0 ≤ allocation_weight a
}.

Record rebate_ok s : Prop := {
  inv_store : rebate_store_ok (rs_store s);
  inv_ledger : service_ok (rs_ledger s);
  inv_tracked : ∀ k b, rs_batches s !! k = Some b → ∃ b', v_open (durable_view s) !! k = Some b' ∧ tracks b b';
  inv_live : ∀ k b', v_open (durable_view s) !! k = Some b' → is_Some (rs_batches s !! k);
  inv_guarded : ∀ k b, rs_batches s !! k = Some b → rb_state b ≠ BatchState.Accumulating → k ∈ rs_guards s;
  inv_durable : ∀ k b', v_open (durable_view s) !! k = Some b' → durable_ok b'
    ∧ ∀ r, active_reservation (rb_state b') = Some r → own r (rb_id b') ∧ r ≠ 0;
  inv_ready : ∀ k b e, rs_batches s !! k = Some b → rb_state b = BatchState.Ready e →
    held_for (rs_ledger s) (ex_reservation e) (rb_id b) (ex_plan e)
    ∨ is_Some (v_settling (durable_view s) !! rb_id b) ∧ closed (rs_ledger s) (ex_reservation e);
  inv_owned : ∀ r x bid, holds (rs_ledger s) !! r = Some x → res_owner x = Rebate bid → is_open (res_state x) →
    res_state x = Pending
    ∧ ∃ k b, rs_batches s !! k = Some b ∧ rb_id b = bid ∧ active_reservation (rb_state b) = Some r;
  inv_ids : ∀ r x bid, holds (rs_ledger s) !! r = Some x → own r bid ↔ res_owner x = Rebate bid;
  inv_settling : ∀ id x, v_settling (durable_view s) !! id = Some x → validate_settlement x = Ok tt
    ∧ ∃ k b e, rs_batches s !! k = Some b ∧ rb_id b = id ∧ rb_state b = BatchState.Ready e
        ∧ st_plan x = ex_plan e ∧ st_reservation x = ex_reservation e
        ∧ block_number (st_event x) ≤ deadline_block (authorization e);
  inv_observed : ∀ id x, v_settling (durable_view s) !! id = Some x → observed (st_event x);
  inv_past : grows past (durable_view s)
}.

(** ** Consequences *)

Lemma tracks_fields b b' :
  tracks b b' → rb_id b' = rb_id b ∧ rb_strategy b' = rb_strategy b ∧ rb_pair b' = rb_pair b ∧ rb_accruals b' = rb_accruals b.
Proof. intros [-> _]. done. Qed.

Lemma tracks_refl b : tracks b b.
Proof. split; [by destruct b|by left]. Qed.

(** A live reservation is also in the durable state. *)
Lemma tracks_active b b' r :
  tracks b b' → active_reservation (rb_state b) = Some r → active_reservation (rb_state b') = Some r.
Proof. intros [_ [Hs|[[Hs _]|(r' & plan & Hs & Hs')]]] Ha; rewrite ?Hs, ?Hs' in *; cbn in *; congruence. Qed.

Lemma live_strategy s k b : rebate_ok s → rs_batches s !! k = Some b → rb_strategy b = k.
Proof.
  intros Hok Hb. destruct (inv_tracked _ Hok _ _ Hb) as (b' & Hb' & Ht).
  destruct (proj1 (view_ok _ (inv_store _ Hok)) _ _ Hb') as [Hk _].
  destruct (tracks_fields _ _ Ht) as (_ & Hs & _). congruence.
Qed.

Lemma live_unique s k k' b b' :
  rebate_ok s → rs_batches s !! k = Some b → rs_batches s !! k' = Some b' → rb_id b = rb_id b' → k = k'.
Proof.
  intros Hok Hb Hb' Hid. destruct (inv_tracked _ Hok _ _ Hb) as (c & Hc & Ht), (inv_tracked _ Hok _ _ Hb') as (c' & Hc' & Ht').
  destruct (tracks_fields _ _ Ht) as [Hi _], (tracks_fields _ _ Ht') as [Hi' _].
  eapply (proj1 (proj2 (view_ok _ (inv_store _ Hok)))); [exact Hc|exact Hc'|congruence].
Qed.

Lemma live_own s k b r :
  rebate_ok s → rs_batches s !! k = Some b → active_reservation (rb_state b) = Some r → own r (rb_id b) ∧ r ≠ 0.
Proof.
  intros Hok Hb Ha. destruct (inv_tracked _ Hok _ _ Hb) as (b' & Hb' & Ht).
  destruct (inv_durable _ Hok _ _ Hb') as [_ Ho]. destruct (tracks_fields _ _ Ht) as [<- _].
  apply Ho. by eapply tracks_active.
Qed.

Lemma live_durable s k b :
  rebate_ok s → rs_batches s !! k = Some b →
  accruals_valid b ∧ (∀ t a, rb_accruals b !! t = Some a → 0 ≤ allocation_weight a).
Proof.
  intros Hok Hb. destruct (inv_tracked _ Hok _ _ Hb) as (b' & Hb' & [Heq _]).
  destruct (inv_durable _ Hok _ _ Hb') as [[Hv _ _ Hw] _].
  rewrite Heq in Hv, Hw. split; [by apply accruals_valid_state in Hv|done].
Qed.

(** An id of the batch that the batch does not name is not held. *)
Lemma closed_inactive s k b r :
  rebate_ok s → rs_batches s !! k = Some b → own r (rb_id b) → active_reservation (rb_state b) ≠ Some r →
  closed (rs_ledger s) r.
Proof.
  intros Hok Hb Ho Hna x Hx Hop. pose proof (proj1 (inv_ids _ Hok _ _ _ Hx) Ho) as Howner.
  destruct (inv_owned _ Hok _ _ _ Hx Howner Hop) as (_ & k' & b' & Hb' & Hid & Ha).
  assert (k' = k) as -> by (by eapply live_unique). congruence.
Qed.

Lemma not_settling s k b :
  rebate_ok s → rs_batches s !! k = Some b → (∀ e, rb_state b ≠ BatchState.Ready e) →
  v_settling (durable_view s) !! rb_id b = None.
Proof.
  intros Hok Hb Hs. apply eq_None_not_Some. intros [x Hx].
  destruct (inv_settling _ Hok _ _ Hx) as (_ & k' & b' & e & Hb' & Hid & He & _).
  assert (k' = k) as -> by (by eapply live_unique). simplify_eq. by eapply Hs.
Qed.

(** The held reservation of a batch is pending. *)
Lemma sources_of_open s r x bid :
  rebate_ok s → holds (rs_ledger s) !! r = Some x → own r bid →
  reservation_sources (rs_ledger s) r = None → closed (rs_ledger s) r.
Proof.
  intros Hok Hx Ho Hn y Hy Hop. simplify_eq. pose proof (proj1 (inv_ids _ Hok _ _ _ Hx) Ho) as Howner.
  destruct (inv_owned _ Hok _ _ _ Hx Howner Hop) as [Hp _].
  assert (Hs : reservation_sources (rs_ledger s) r = Some (res_sources x)) by (apply reservation_sources_Some; eauto). congruence.
Qed.

(** ** Changes of one part of the state *)

Definition put_ledger s l : RebateService LSt RSt := mk_rebate_service (rs_batches s) l (rs_guards s) (rs_store s).
Definition put_store s st : RebateService LSt RSt := mk_rebate_service (rs_batches s) (rs_ledger s) (rs_guards s) st.
Definition put_guards s g : RebateService LSt RSt := mk_rebate_service (rs_batches s) (rs_ledger s) g (rs_store s).
Definition put_batches s m : RebateService LSt RSt := mk_rebate_service m (rs_ledger s) (rs_guards s) (rs_store s).

Lemma same_view_ok s st : rebate_ok s → rebate_store_ok st → view st = durable_view s → rebate_ok (put_store s st).
Proof.
  intros Hok Hst Hv. destruct Hok. constructor; cbn; try done; unfold durable_view in *; cbn; by rewrite Hv.
Qed.

Lemma same_holds_ok s l : rebate_ok s → service_ok l → holds l = holds (rs_ledger s) → rebate_ok (put_ledger s l).
Proof.
  intros Hok Hl Hh. destruct Hok. constructor; cbn; try done.
  - intros k b e Hb He. destruct (inv_ready0 k b e Hb He) as [(x & Hx & ?)|[? Hc]]; [left; exists x; by rewrite Hh|right].
    split; [done|]. intros x. rewrite Hh. apply Hc.
  - intros r x bid. rewrite Hh. apply inv_owned0.
  - intros r x bid. rewrite Hh. apply inv_ids0.
Qed.

Lemma guard_ok s k : rebate_ok s → rebate_ok (put_guards s (guard (rs_guards s) k)).
Proof.
  intros Hok. destruct Hok. constructor; cbn; try done.
  intros k' b Hb Hs. unfold guard. apply elem_of_union_l. by eapply inv_guarded0.
Qed.

Lemma unguard_ok s k :
  rebate_ok s → (∀ b, rs_batches s !! k = Some b → rb_state b = BatchState.Accumulating) →
  rebate_ok (put_guards s (unguard (rs_guards s) k)).
Proof.
  intros Hok Hk. destruct Hok. constructor; cbn; try done.
  intros k' b Hb Hs. unfold unguard. apply elem_of_difference. split; [by eapply inv_guarded0|].
  intros ->%elem_of_singleton. apply Hs. by apply Hk.
Qed.

(** A hold of batch [b] ends: [r] moves to a closed state. *)
Lemma move_ok s l k b r x to :
  rebate_ok s → rs_batches s !! k = Some b → own r (rb_id b) → service_ok l →
  holds (rs_ledger s) !! r = Some x → holds l = <[r := with_state x to]> (holds (rs_ledger s)) → ¬ is_open to →
  (∀ e, rb_state b = BatchState.Ready e → ex_reservation e = r → is_Some (v_settling (durable_view s) !! rb_id b)) →
  rebate_ok (put_ledger s l).
Proof.
  intros Hok Hb Hown Hl Hx Hh Hto Hready. pose proof Hok as Hok0. destruct Hok. constructor; cbn; try done.
  - intros k' b' e Hb' He. destruct (decide (ex_reservation e = r)) as [Her|Her].
    + right. assert (own r (rb_id b')) as Hown'.
      { rewrite <-Her. eapply (live_own s k' b'); [done..|]. by rewrite He. }
      assert (k' = k) as -> by (eapply live_unique; [done..|]; by eapply own_inj). simplify_eq. split; [by eapply Hready|].
      intros y. rewrite Hh, lookup_insert_eq. intros [= <-]. done.
    + destruct (inv_ready0 k' b' e Hb' He) as [(y & Hy & ?)|[? Hc]]; [left; exists y|right].
      * by rewrite Hh, lookup_insert_ne by congruence.
      * split; [done|]. intros y. rewrite Hh, lookup_insert_ne by congruence. apply Hc.
  - intros r' y bid. rewrite Hh. intros [(<- & <-)|(_ & Hy)]%lookup_insert_Some; [done|by apply inv_owned0].
  - intros r' y bid. rewrite Hh. intros [(<- & <-)|(_ & Hy)]%lookup_insert_Some; [cbn; by apply inv_ids0|by apply inv_ids0].
Qed.

(** A fresh hold for the batch that prepares it. *)
Lemma rebate_reserve_ok s l k b r x :
  rebate_ok s → rs_batches s !! k = Some b → active_reservation (rb_state b) = Some r →
  (∀ e, rb_state b ≠ BatchState.Ready e) → service_ok l →
  holds (rs_ledger s) !! r = None → holds l = <[r := x]> (holds (rs_ledger s)) → res_state x = Pending →
  res_owner x = Rebate (rb_id b) → rebate_ok (put_ledger s l).
Proof.
  intros Hok Hb Ha Hnr Hl Hn Hh Hp Ho. pose proof (live_own _ _ _ _ Hok Hb Ha) as [Hown _]. pose proof Hok as Hok0. destruct Hok. constructor; cbn; try done.
  - intros k' b' e Hb' He. destruct (inv_ready0 k' b' e Hb' He) as [(y & Hy & Hr)|[Hs Hc]]; [left; exists y|right].
    + rewrite Hh, lookup_insert_ne; [done|]. intros Heq. congruence.
    + split; [done|]. intros y. rewrite Hh. intros [(Heq & <-)|(_ & Hy)]%lookup_insert_Some; [|by apply Hc].
      assert (own r (rb_id b')) as Hown'.
      { rewrite Heq. apply (live_own s k' b' _ Hok0 Hb'). by rewrite He. }
      assert (k' = k) as ->; [|exfalso; apply (Hnr e); congruence].
      apply (live_unique s k' k b' b Hok0 Hb' Hb). by eapply own_inj.
  - intros r' y bid. rewrite Hh. intros [(<- & <-)|(_ & Hy)]%lookup_insert_Some Hown' Hop; [|by eapply inv_owned0].
    split; [done|]. exists k, b. split_and!; [done| |done]. congruence.
  - intros r' y bid. rewrite Hh. intros [(<- & <-)|(_ & Hy)]%lookup_insert_Some; [|by eapply inv_ids0].
    rewrite Ho. split; [intros Hown'; f_equal; by eapply own_inj|by intros [= <-]].
Qed.

(** A live batch changes state, in memory and possibly in the store. *)
Lemma replace_ok s st k b next b' :
  rebate_ok s → rs_batches s !! k = Some b → rb_id next = rb_id b →
  rebate_store_ok st → v_open (view st) = <[k := b']> (v_open (durable_view s)) →
  v_settling (view st) = v_settling (durable_view s) → tracks next b' → durable_ok b' →
  (∀ r, active_reservation (rb_state b') = Some r → own r (rb_id b) ∧ r ≠ 0) →
  (rb_state next ≠ BatchState.Accumulating → k ∈ rs_guards s) →
  (∀ e, rb_state next = BatchState.Ready e → held_for (rs_ledger s) (ex_reservation e) (rb_id b) (ex_plan e)) →
  (∀ r, active_reservation (rb_state b) = Some r → active_reservation (rb_state next) = Some r ∨ closed (rs_ledger s) r) →
  v_settling (durable_view s) !! rb_id b = None → grows (durable_view s) (view st) →
  rebate_ok (mk_rebate_service (<[k := next]> (rs_batches s)) (rs_ledger s) (rs_guards s) st).
Proof.
  intros Hok Hb Hid Hst Hv Hset Htr Hdur Hown Hg Hready Hact Hns Hgrow. pose proof Hok as Hok0. destruct Hok.
  pose proof (tracks_fields _ _ Htr) as [Hid' _]. constructor; unfold durable_view in *; cbn; rewrite ?Hv, ?Hset; try done.
  - intros k' c [(<- & <-)|(? & Hc)]%lookup_insert_Some; [exists b'; by rewrite lookup_insert_eq|].
    rewrite lookup_insert_ne by done. by apply inv_tracked0.
  - intros k' c [(<- & <-)|(? & Hc)]%lookup_insert_Some; [by rewrite lookup_insert_eq|].
    rewrite lookup_insert_ne by done. by eapply inv_live0.
  - intros k' c [(<- & <-)|(? & Hc)]%lookup_insert_Some; [done|by eapply inv_guarded0].
  - intros k' c [(<- & <-)|(? & Hc)]%lookup_insert_Some; [|by eapply inv_durable0].
    split; [done|]. intros r Hr. rewrite Hid', Hid. by apply Hown.
  - intros k' c e [(<- & <-)|(? & Hc)]%lookup_insert_Some He; [left; rewrite Hid; by apply Hready|by eapply inv_ready0].
  - intros r x bid Hx Ho Hop. destruct (inv_owned0 r x bid Hx Ho Hop) as (Hp & k' & c & Hc & Hcid & Hca). split; [done|].
    destruct (decide (k' = k)) as [->|Hne]; [|exists k', c; by rewrite lookup_insert_ne].
    simplify_eq. destruct (Hact r Hca) as [Hn|Hcl]; [|by edestruct Hcl].
    exists k, next. rewrite lookup_insert_eq. auto.
  - intros id x Hx. destruct (inv_settling0 id x Hx) as (Hval & k' & c & e & Hc & Hcid & Hce & Hrest). split; [done|].
    exists k', c, e. rewrite lookup_insert_ne; [done|]. intros <-. simplify_eq.
  - by etrans.
Qed.

(** A batch leaves memory and store together. *)
Lemma remove_ok s st k b :
  rebate_ok s → rs_batches s !! k = Some b → rebate_store_ok st →
  v_open (view st) = filter (λ p, rb_id p.2 ≠ rb_id b) (v_open (durable_view s)) →
  v_settling (view st) = delete (rb_id b) (v_settling (durable_view s)) →
  (∀ r, active_reservation (rb_state b) = Some r → closed (rs_ledger s) r) → grows (durable_view s) (view st) →
  rebate_ok (mk_rebate_service (delete k (rs_batches s)) (rs_ledger s) (unguard (rs_guards s) k) st).
Proof.
  intros Hok Hb Hst Hv Hset Hact Hgrow. pose proof Hok as Hok0. destruct Hok.
  assert (Hother : ∀ k' b', rs_batches s !! k' = Some b' → k' ≠ k → rb_id b' ≠ rb_id b).
  { intros k' b' Hb' Hne Hid. apply Hne. by eapply live_unique. }
  constructor; unfold durable_view in *; cbn; rewrite ?Hv, ?Hset; try done.
  - intros k' c (Hne & Hc)%lookup_delete_Some. destruct (inv_tracked0 _ _ Hc) as (c' & Hc' & Ht). exists c'. split; [|done].
    apply map_lookup_filter_Some. split; [done|]. cbn. destruct (tracks_fields _ _ Ht) as [-> _]. by eapply Hother.
  - intros k' c (Hc & Hne)%map_lookup_filter_Some. rewrite lookup_delete_ne; [by eapply inv_live0|]. intros <-. cbn in Hne.
    destruct (inv_tracked0 _ _ Hb) as (b' & Hb' & Ht). destruct (tracks_fields _ _ Ht) as [Hid _]. congruence.
  - intros k' c (Hne & Hc)%lookup_delete_Some Hs. unfold unguard. apply elem_of_difference.
    split; [by eapply inv_guarded0|]. intros ->%elem_of_singleton. done.
  - intros k' c (Hc & _)%map_lookup_filter_Some. by eapply inv_durable0.
  - intros k' c e (Hne & Hc)%lookup_delete_Some He. destruct (inv_ready0 k' c e Hc He) as [?|[Hs ?]]; [by left|].
    right. rewrite lookup_delete_ne; [done|]. intros Heq. by eapply Hother.
  - intros r x bid Hx Ho Hop. destruct (inv_owned0 r x bid Hx Ho Hop) as (Hp & k' & c & Hc & Hcid & Hca). split; [done|].
    exists k', c. rewrite lookup_delete_ne; [done|]. intros ->. simplify_eq. by eapply Hact.
  - intros id x (Hne & Hx)%lookup_delete_Some. destruct (inv_settling0 id x Hx) as (Hval & k' & c & e & Hc & Hcid & Hce & Hrest).
    split; [done|]. exists k', c, e. rewrite lookup_delete_ne; [done|]. intros ->. simplify_eq.
  - intros id x (_ & Hx)%lookup_delete_Some. by eapply inv_observed0.
  - by etrans.
Qed.

(** A new guarded batch joins memory and store together. *)
Lemma insert_ok s st k b :
  rebate_ok s → rs_batches s !! k = None → rebate_store_ok st →
  v_open (view st) = <[k := b]> (v_open (durable_view s)) → v_settling (view st) = v_settling (durable_view s) →
  durable_ok b → rb_state b = BatchState.Guarded → k ∈ rs_guards s →
  grows (durable_view s) (view st) →
  rebate_ok (mk_rebate_service (<[k := b]> (rs_batches s)) (rs_ledger s) (rs_guards s) st).
Proof.
  intros Hok Hn Hst Hv Hset Hdur Hs Hg Hgrow. destruct Hok. constructor; unfold durable_view in *; cbn; rewrite ?Hv, ?Hset; try done.
  - intros k' c [(<- & <-)|(? & Hc)]%lookup_insert_Some.
    + exists b. rewrite lookup_insert_eq. split; [done|apply tracks_refl].
    + rewrite lookup_insert_ne by done. by apply inv_tracked0.
  - intros k' c [(<- & <-)|(? & Hc)]%lookup_insert_Some; [by rewrite lookup_insert_eq|].
    rewrite lookup_insert_ne by done. by eapply inv_live0.
  - intros k' c [(<- & <-)|(? & Hc)]%lookup_insert_Some; [done|by eapply inv_guarded0].
  - intros k' c [(<- & <-)|(? & Hc)]%lookup_insert_Some; [|by eapply inv_durable0]. split; [done|]. by rewrite Hs.
  - intros k' c e [(<- & <-)|(? & Hc)]%lookup_insert_Some He; [congruence|by eapply inv_ready0].
  - intros r x bid Hx Ho Hop. destruct (inv_owned0 r x bid Hx Ho Hop) as (Hp & k' & c & Hc & Hrest). split; [done|].
    exists k', c. rewrite lookup_insert_ne; [done|]. intros ->. congruence.
  - intros id x Hx. destruct (inv_settling0 id x Hx) as (Hval & k' & c & e & Hc & Hrest). split; [done|].
    exists k', c, e. rewrite lookup_insert_ne; [done|]. intros ->. congruence.
  - by etrans.
Qed.

End invariant.
