(* ===== verification/RebateServiceSteps.v ===== *)
(** * The steps of the rebate service

    Each method of the service, run from a state that satisfies the invariant, leaves a
    state that satisfies it, on success and on every failure of either store. *)

From Stdlib Require Import String.
From S2P Require Import Prelude Commands U256 Reservation LedgerEngine LedgerInvariant LedgerProperties LedgerStore LedgerService LedgerHolds Ratio CurveDecode Curves Registry Candidates RebatePolicy RebateStore RebateCall RebateService RebateServiceInvariant.

#[local] Open Scope Z_scope.

Section steps.
Context {LSt RSt : Type} `{HS : LedgerStore LSt} `{HL : !LedgerStoreLaws LSt}.
Context `{HW : RebateWire} `{HR : RebateStore RSt} `{HRL : !RebateStoreLaws RSt} `{HI : RebateReservationIds} `{HH : RebateHistory}.
Context (policy : RebatePolicyConfig) (config : RebateServiceConfig) (catalog : gmap Address Z).
Implicit Types (s : RebateService LSt RSt) (k : StrategyKey) (b : RebateBatch) (r : ReservationId).

(** ** Saving *)

(** [next] is the live batch [b] with possibly more legs and another state. *)
Record succeeds b next : Prop := {
  succeeds_id : rb_id next = rb_id b;
  succeeds_strategy : rb_strategy next = rb_strategy b;
  succeeds_pair : rb_pair next = rb_pair b;
  succeeds_accruals : rb_accruals b ⊆ rb_accruals next
}.

Lemma succeeds_state b st : succeeds b (with_batch_state b st).
Proof. by constructor. Qed.

Lemma view_save_live s k b next :
  rebate_ok s → rs_batches s !! k = Some b → succeeds b next →
  v_open (view_save next (durable_view s)) = <[k := next]> (v_open (durable_view s)).
Proof.
  intros Hok Hb [Hid Hk Hp Ha]. unfold view_save. cbn. rewrite Hk, (live_strategy _ _ _ Hok Hb).
  destruct (inv_tracked _ Hok _ _ Hb) as (b' & Hb' & Ht). rewrite Hb'. cbn.
  destruct (tracks_fields _ _ Ht) as (_ & _ & _ & ->). f_equal.
  destruct next as [ni nk np na ns]. unfold with_accruals. cbn in *. f_equal. apply map_eq. intros t.
  destruct (na !! t) as [a|] eqn:Hn.
  - by rewrite (lookup_union_Some_l _ _ _ a).
  - rewrite lookup_union_r by done. apply eq_None_not_Some. intros [a Hx]. eapply lookup_weaken in Hx; [|exact Ha]. congruence.
Qed.

(** Everything but the live batches and the store. *)
Definition frame s s' : Prop := rs_ledger s' = rs_ledger s ∧ rs_guards s' = rs_guards s.

Lemma save_outcome s next :
  rebate_ok s → batch_storable next →
  outcome (save next) (λ res s', ∃ st, s' = put_store s st ∧ rebate_store_ok st ∧
    match res with
    | Ok _ => view st = view_save next (durable_view s) ∧ attributable (durable_view s) next
        ∧ (∀ k b', v_open (durable_view s) !! k = Some b' → rb_id b' = rb_id next → k = rb_strategy next)
    | Err e => view st = durable_view s ∧ ∃ se, e = ERebateStore se
        ∧ ∀ b, rs_batches s !! rb_strategy next = Some b → succeeds b next → attributable (durable_view s) next → se = RebateDb
    end) s.
Proof.
  intros Hok Hst. unfold save, with_store. apply outcome_zoom. unfold outcome.
  pose proof (save_law next (rs_store s) (inv_store _ Hok) Hst) as Hlaw.
  destruct (rebate_save next (rs_store s)) as [[[]|e] st]; cbn; exists st; (split; [done|]).
  - destruct Hlaw as (H1 & H2 & H3 & _ & H4). done.
  - destruct Hlaw as (H1 & H2 & H3). split_and!; [done..|]. exists e. split; [done|]. intros b Hb [Hi Hk Hp Ha] Hat.
    destruct (inv_tracked _ Hok _ _ Hb) as (b' & Hb' & Ht). destruct (tracks_fields _ _ Ht) as (Hi' & _ & Hp' & _).
    eapply H3; [exact Hb'|congruence..|done].
Qed.

(** What [replace_ok] asks of the next state of a live batch. *)
Record admissible_next s k b next : Prop := {
  next_succeeds : succeeds b next;
  next_valid : accruals_valid next;
  next_state_valid : state_valid next;
  next_weights : ∀ t a, rb_accruals next !! t = Some a → 0 ≤ allocation_weight a;
  next_sound : ∀ e, rb_state next = BatchState.Ready e → execution_sound e ∧ is_u256 (rp_out (ex_plan e));
  next_own : ∀ r, active_reservation (rb_state next) = Some r → own r (rb_id b) ∧ r ≠ 0;
  next_guarded : rb_state next ≠ BatchState.Accumulating → k ∈ rs_guards s;
  next_held : ∀ e, rb_state next = BatchState.Ready e → held_for (rs_ledger s) (ex_reservation e) (rb_id b) (ex_plan e);
  next_released : ∀ r, active_reservation (rb_state b) = Some r →
    active_reservation (rb_state next) = Some r ∨ closed (rs_ledger s) r;
  next_settling : v_settling (durable_view s) !! rb_id b = None
}.

Lemma next_durable s k b next : admissible_next s k b next → durable_ok next.
Proof. intros []. by constructor. Qed.

Lemma next_storable s k b next : admissible_next s k b next → batch_storable next.
Proof. intros []. apply valid_storable; [done|]. intros e He. by destruct (next_sound0 e He). Qed.

Lemma saved_ok s st k b next :
  rebate_ok s → rs_batches s !! k = Some b → admissible_next s k b next → rebate_store_ok st →
  view st = view_save next (durable_view s) → attributable (durable_view s) next →
  rebate_ok (mk_rebate_service (<[k := next]> (rs_batches s)) (rs_ledger s) (rs_guards s) st).
Proof.
  intros Hok Hb Hn Hst Hv Hat. pose proof (next_durable _ _ _ _ Hn) as Hdur.
  destruct Hn as [Hsucc Hval Hstate Hw Hs Ho Hg Hh Hrel Hset].
  apply (replace_ok s st k b next next); try done.
  - apply Hsucc.
  - rewrite Hv. by apply (view_save_live s k b next).
  - by rewrite Hv.
  - apply tracks_refl.
  - rewrite Hv. by apply grows_save.
Qed.

(** The durable change first, then memory; the caller decides what a failure does. *)
Lemma attempt_save_set_outcome {A} s k b next (f : cmd (RebateService LSt RSt) RebateServiceError A)
    (g : RebateServiceError → cmd (RebateService LSt RSt) RebateServiceError A) Q :
  rebate_ok s → rs_batches s !! k = Some b → admissible_next s k b next →
  (∀ s', rebate_ok s' → frame s s' → rs_batches s' = <[k := next]> (rs_batches s) →
     durable_view s' = view_save next (durable_view s) → outcome f Q s') →
  (∀ s' e, rebate_ok s' → frame s s' → rs_batches s' = rs_batches s → durable_view s' = durable_view s →
     outcome (g (ERebateStore e)) Q s') →
  outcome (saved ← attempt (save next); match saved with Err e => g e | Ok _ => _ ← set_batch k next; f end) Q s.
Proof.
  intros Hok Hb Hn Hf He. apply outcome_attempt.
  eapply outcome_mono; [apply save_outcome; [done|by eapply next_storable]|].
  intros res s' (st & -> & Hst & Hres). destruct res as [[]|e].
  - destruct Hres as (Hv & Hat & _). unfold set_batch, set_batches. apply outcome_modify. cbn. apply Hf; cbn; try done.
    by apply (saved_ok s st k b).
  - destruct Hres as (Hv & se & -> & _). apply He; [|done..]. by apply same_view_ok.
Qed.

(** The same, with the failure propagated. *)
Lemma save_set_outcome {A} s k b next (f : cmd (RebateService LSt RSt) RebateServiceError A) Q :
  rebate_ok s → rs_batches s !! k = Some b → admissible_next s k b next →
  (∀ s', rebate_ok s' → frame s s' → rs_batches s' = <[k := next]> (rs_batches s) →
     durable_view s' = view_save next (durable_view s) → outcome f Q s') →
  (∀ s' e, rebate_ok s' → frame s s' → rs_batches s' = rs_batches s → durable_view s' = durable_view s →
     Q (Err (ERebateStore e)) s') →
  outcome (_ ← save next; _ ← set_batch k next; f) Q s.
Proof.
  intros Hok Hb Hn Hf He.
  assert (Hgo : outcome (saved ← attempt (save next); match saved with Err e => fail e | Ok _ => _ ← set_batch k next; f end) Q s).
  { by apply (attempt_save_set_outcome s k b). }
  unfold outcome, attempt, mbind, cmd_bind in *. by destruct (save next s) as [[]].
Qed.

(** Memory first, then the store: the store may keep the interrupted state. *)
Lemma set_save_outcome {A} s k b next (f : cmd (RebateService LSt RSt) RebateServiceError A) Q :
  rebate_ok s → rs_batches s !! k = Some b → admissible_next s k b next →
  (∀ b', v_open (durable_view s) !! k = Some b' → tracks b b' → tracks next b') →
  (∀ s', rebate_ok s' → frame s s' → rs_batches s' = <[k := next]> (rs_batches s) → outcome f Q s') →
  (∀ s' e, rebate_ok s' → frame s s' → rs_batches s' = <[k := next]> (rs_batches s) → Q (Err (ERebateStore e)) s') →
  outcome (_ ← set_batch k next; _ ← save next; f) Q s.
Proof.
  intros Hok Hb Hn Htr Hf He. unfold set_batch, set_batches. apply outcome_modify. apply outcome_bind.
  pose proof (next_durable _ _ _ _ Hn) as Hdur. pose proof Hn as [Hsucc Hval Hstate Hw Hs Ho Hg Hh Hrel Hset].
  destruct (inv_tracked _ Hok _ _ Hb) as (b' & Hb' & Ht).
  assert (Hmem : rebate_ok (put_batches s (<[k := next]> (rs_batches s)))).
  { destruct (inv_durable _ Hok _ _ Hb') as [Hd' Ho']. destruct (tracks_fields _ _ Ht) as (Hid' & _).
    apply (replace_ok s (rs_store s) k b next b'); try done.
    - apply Hsucc.
    - apply inv_store, Hok.
    - unfold durable_view in *. by rewrite insert_id.
    - by apply Htr.
    - intros r Hr. rewrite <-Hid'. by apply Ho'. }
  eapply outcome_mono; [apply save_outcome; [done|by eapply next_storable]|].
  intros res s' (st & -> & Hst & Hres). destruct res as [[]|e].
  - destruct Hres as (Hv & Hat & _). apply Hf; cbn; try done. by apply (saved_ok s st k b).
  - destruct Hres as (Hv & se & -> & _). apply He; [|done..]. by apply (same_view_ok (put_batches s _)).
Qed.

(** ** Releasing a hold *)

Lemma release_outcome s k b r :
  rebate_ok s → rs_batches s !! k = Some b → own r (rb_id b) → (∀ e, rb_state b ≠ BatchState.Ready e) →
  outcome (release_if_held r) (λ res s', rebate_ok s' ∧ (∃ l, s' = put_ledger s l) ∧
    match res with
    | Ok _ => closed (rs_ledger s') r
    | Err e => ∃ se, e = ELedger (StoreFailed se)
    end) s.
Proof.
  intros Hok Hb Ho Hnr. unfold release_if_held. apply outcome_gets.
  destruct (reservation_sources (rs_ledger s) r) as [ss|] eqn:Hs.
  - unfold with_ledger. apply outcome_zoom.
    eapply outcome_mono; [by eapply void_held; [apply inv_ledger|]|].
    intros res l [Hl Hres]. split_and!; [|by exists l|].
    + destruct res as [[]|e].
      * destruct Hres as (x & Hx & Hh). apply (move_ok s l k b r x Voided); try done.
        -- unfold is_open. naive_solver.
        -- intros e He. by destruct (Hnr e).
      * apply same_holds_ok; [done..|]. apply Hres.
    + destruct res as [[]|e]; cbn.
      * destruct Hres as (x & Hx & Hh). intros y. unfold closed. rewrite Hh, lookup_insert_eq. intros [= <-].
        unfold is_open. cbn. naive_solver.
      * destruct Hres as (_ & se & ->). eauto.
  - apply outcome_ret. split_and!; [done|exists (rs_ledger s); by destruct s|]. cbn.
    intros x Hx. eapply sources_of_open; [done..|exact Hx].
Qed.

Lemma release_live s l k b : rs_batches (put_ledger s l) !! k = Some b ↔ rs_batches s !! k = Some b.
Proof. done. Qed.

(** Ending an interrupted change in memory keeps the durable batch tracked. *)
Lemma tracks_guarded b b' :
  tracks b b' → interrupted (rb_state b) → tracks (with_batch_state b BatchState.Guarded) b'.
Proof.
  intros [Heq Hs] Hi. split; [done|]. right; left. split; [done|].
  destruct Hs as [->|[[_ ?]|(r & plan & _ & ->)]]; [done|done|exists r; eauto].
Qed.

(** From an interrupted batch whose hold is gone to a guarded one. *)
Lemma guarded_next s k b :
  rebate_ok s → rs_batches s !! k = Some b → (∀ e, rb_state b ≠ BatchState.Ready e) → k ∈ rs_guards s →
  (∀ r, active_reservation (rb_state b) = Some r → closed (rs_ledger s) r) →
  admissible_next s k b (with_batch_state b BatchState.Guarded).
Proof.
  intros Hok Hb Hnr Hg Hc. destruct (live_durable _ _ _ Hok Hb) as [Hv Hw]. constructor; try done.
  - by apply accruals_valid_state.
  - intros r Hr. right. by apply Hc.
  - by eapply not_settling.
Qed.

Lemma interrupted_not_ready b : interrupted (rb_state b) → ∀ e, rb_state b ≠ BatchState.Ready e.
Proof. intros (r & [Hs|[plan Hs]]) e; rewrite Hs; done. Qed.

Lemma finish_interrupted_outcome s k b :
  rebate_ok s → rs_batches s !! k = Some b →
  outcome (finish_interrupted_transition k b) (λ res s', rebate_ok s' ∧ rs_guards s ⊆ rs_guards s' ∧
    match res with
    | Ok b' => rs_batches s' = <[k := b']> (rs_batches s) ∧ rs_batches s' !! k = Some b' ∧ ¬ interrupted (rb_state b')
        ∧ (b' = b ∧ s' = s ∨ b' = with_batch_state b BatchState.Guarded)
    | Err e => (∃ se, e = ERebateStore se) ∨ ∃ se, e = ELedger (StoreFailed se)
    end) s.
Proof.
  intros Hok Hb. unfold finish_interrupted_transition.
  assert (Hgo : ∀ r, active_reservation (rb_state b) = Some r → interrupted (rb_state b) →
    outcome (_ ← guard_strategy (rb_strategy b); _ ← release_if_held r;
             let b' := with_batch_state b BatchState.Guarded in _ ← set_batch k b'; _ ← save b'; mret b')
      (λ res s', rebate_ok s' ∧ rs_guards s ⊆ rs_guards s' ∧
        match res with
        | Ok b' => rs_batches s' = <[k := b']> (rs_batches s) ∧ rs_batches s' !! k = Some b' ∧ ¬ interrupted (rb_state b')
            ∧ (b' = b ∧ s' = s ∨ b' = with_batch_state b BatchState.Guarded)
        | Err e => (∃ se, e = ERebateStore se) ∨ ∃ se, e = ELedger (StoreFailed se)
        end) s).
  { intros r Ha Hi. pose proof (interrupted_not_ready _ Hi) as Hnr. destruct (live_own _ _ _ _ Hok Hb Ha) as [Ho _].
    unfold guard_strategy, set_guards. apply outcome_modify. apply outcome_bind.
    pose proof (guard_ok s (rb_strategy b) Hok) as Hok1. set (s1 := put_guards s _) in Hok1.
    eapply outcome_mono; [by apply (release_outcome s1 k b r)|].
    assert (Hsub : rs_guards s ⊆ rs_guards s1) by (cbn; unfold guard; set_solver).
    intros res s2 (Hok2 & (l & ->) & Hres). destruct res as [[]|e]; [|split_and!; [done..|by right]].
    pose proof (live_strategy _ _ _ Hok Hb) as Hk.
    assert (Hnot : ¬ interrupted BatchState.Guarded) by (intros (? & [|[? ?]]); done).
    eapply set_save_outcome; [done|exact Hb|..].
    - apply guarded_next; [done..| |].
      + cbn. unfold guard. rewrite Hk. set_solver.
      + intros r' Hr'. assert (r' = r) as -> by congruence. done.
    - intros b' _ Ht. by apply tracks_guarded.
    - intros s' Hok' [_ Hg] Hm. apply outcome_ret. rewrite Hg, Hm. split_and!; try done; [apply lookup_insert_eq|by right].
    - intros s' e Hok' [_ Hg] Hm. rewrite Hg. split_and!; [done..|left; eauto]. }
  destruct (rb_state b) as [| |plan r|e|r] eqn:Hs;
    try (apply outcome_ret; split_and!; [done|done|by rewrite insert_id|done|rewrite Hs; intros (? & [|[? ?]]); done|by left]).
  - apply (Hgo r); [done|]. exists r. eauto.
  - apply (Hgo r); [done|]. exists r. eauto.
Qed.

Lemma ready_or_not b : (∃ e, rb_state b = BatchState.Ready e) ∨ ∀ e, rb_state b ≠ BatchState.Ready e.
Proof. destruct (rb_state b); eauto. Qed.

(** ** Accrual *)

Lemma succeeds_accrue b a st :
  rb_accruals b !! acc_trade a = None →
  succeeds b (with_batch_state (with_accruals b (<[acc_trade a := a]> (rb_accruals b))) st).
Proof. intros Hn. constructor; cbn; try done. by apply insert_subseteq. Qed.

(** The next state of a batch that takes one more leg. *)
Lemma accrued_next s k b a st :
  rebate_ok s → rs_batches s !! k = Some b → (∀ e, rb_state b ≠ BatchState.Ready e) →
  acc_strategy a = k → validate_accrual a = Ok tt → 0 ≤ allocation_weight a →
  rb_pair b = TokenPair_new (acc_token_in a) (acc_token_out a) → rb_accruals b !! acc_trade a = None → k ∈ rs_guards s →
  (st = BatchState.Guarded ∧ (∀ r, active_reservation (rb_state b) = Some r → closed (rs_ledger s) r)
   ∨ ∃ r, st = BatchState.Invalidating r ∧ active_reservation (rb_state b) = Some r) →
  admissible_next s k b (with_batch_state (with_accruals b (<[acc_trade a := a]> (rb_accruals b))) st).
Proof.
  intros Hok Hb Hnr Hk Hv Hw Hp Hn Hg Hst. destruct (live_durable _ _ _ Hok Hb) as [Hval Hws].
  pose proof (live_strategy _ _ _ Hok Hb) as Hs.
  assert (Hnot : ∀ e, st ≠ BatchState.Ready e) by (destruct Hst as [[-> _]|(? & -> & _)]; done).
  constructor; cbn.
  - by apply succeeds_accrue.
  - apply accruals_valid_state, accruals_valid_insert; congruence.
  - unfold state_valid. cbn. by destruct Hst as [[-> _]|(? & -> & _)].
  - intros t x [(<- & <-)|(_ & ?)]%lookup_insert_Some; [done|by eapply Hws].
  - intros e He. by destruct (Hnot e).
  - intros r Hr. destruct Hst as [[-> _]|(r' & -> & Ha)]; [done|]. cbn in Hr. simplify_eq. by eapply live_own.
  - done.
  - intros e He. by destruct (Hnot e).
  - intros r Hr. destruct Hst as [[-> Hc]|(r' & -> & Ha)]; [right; by apply Hc|]. left. cbn. congruence.
  - by eapply not_settling.
Qed.

Definition recorded (a : RebateAccrual) (res : result RebateServiceError RebateBatchId) s' : Prop :=
  rebate_ok s' ∧
  match res with
  | Ok id => ∃ b, rs_batches s' !! acc_strategy a = Some b ∧ rb_id b = id ∧ rb_accruals b !! acc_trade a = Some a
  | Err _ => True
  end.

Lemma accrue_live_outcome s a b :
  rebate_ok s → rs_batches s !! acc_strategy a = Some b → validate_accrual a = Ok tt → 0 ≤ allocation_weight a →
  outcome (accrue_live a b) (recorded a) s.
Proof.
  intros Hok Hb Hv Hw. set (k := acc_strategy a) in *. unfold accrue_live. fold k.
  destruct (rb_accruals b !! acc_trade a) as [x|] eqn:Hx.
  { case_bool_decide as Hxa; [subst x|by apply outcome_fail]. cbn [negb]. apply outcome_bind.
    eapply outcome_mono; [by apply finish_interrupted_outcome|].
    intros res s' (Hok' & _ & Hres). destruct res as [b'|e]; [|done]. apply outcome_ret. split; [done|].
    destruct Hres as (_ & Hb' & _ & Hcase). exists b'. split_and!; [done..|]. destruct Hcase as [[-> _]| ->]; done. }
  case_bool_decide as Hp; [|by apply outcome_fail]. cbn [negb].
  destruct (ready_or_not b) as [(e & He)|Hnr].
  { rewrite He. by apply outcome_fail. }
  assert (Hgo : outcome (
    let was_accumulating := bool_decide (rb_state b = BatchState.Accumulating) in
    _ ← guard_strategy k;
    let reservation := active_reservation (rb_state b) in
    let next := with_accruals b (<[acc_trade a := a]> (rb_accruals b)) in
    _ ← match reservation with
        | Some r =>
            let next := with_batch_state next (BatchState.Invalidating r) in
            _ ← save next; _ ← set_batch k next; release_if_held r
        | None => mret tt
        end;
    let next := with_batch_state next BatchState.Guarded in
    saved ← attempt (save next);
    match saved with
    | Err e =>
        _ ← (if negb (bool_decide (is_Some reservation)) && was_accumulating
             then unguard_strategy (rb_strategy b) else mret tt);
        fail e
    | Ok _ => _ ← set_batch k next; mret (rb_id b)
    end) (recorded a) s).
  2: { destruct (rb_state b) as [| | | |]; first [done|by apply outcome_fail]. }
  cbv zeta. unfold guard_strategy, set_guards. apply outcome_modify.
  pose proof (guard_ok s k Hok) as Hok1. change (mk_rebate_service _ _ _ _) with (put_guards s (guard (rs_guards s) k)).
  set (s1 := put_guards s _) in *. assert (Hg : k ∈ rs_guards s1) by (cbn; unfold guard; set_solver).
  apply outcome_bind. destruct (active_reservation (rb_state b)) as [r|] eqn:Ha.
  - destruct (live_own _ _ _ _ Hok Hb Ha) as [Hown _].
    apply (save_set_outcome s1 k b); [done|done| | |].
    + apply accrued_next; try done. right. eauto.
    + intros s2 Hok2 [Hl2 Hg2] Hm2 _. set (next1 := with_batch_state _ (BatchState.Invalidating r)) in *.
      assert (Hb2 : rs_batches s2 !! k = Some next1) by (rewrite Hm2; apply lookup_insert_eq).
      eapply outcome_mono; [by apply (release_outcome s2 k next1 r)|].
      intros res s3 (Hok3 & (l & ->) & Hres). destruct res as [[]|e]; [|done].
      apply (attempt_save_set_outcome _ k next1); [done|done| | |].
      * apply (guarded_next _ k next1); [done|done|done|cbn; by rewrite Hg2|].
        intros r' [= <-]. done.
      * intros s4 Hok4 _ Hm4 _. apply outcome_ret. split; [done|].
        eexists. rewrite Hm4, lookup_insert_eq. split_and!; [done..|]. cbn. apply lookup_insert_eq.
      * intros s4 e Hok4 _ _ _. rewrite bool_decide_true by eauto. done.
    + intros s2 e Hok2 _ _ _. done.
  - apply outcome_ret. apply (attempt_save_set_outcome s1 k b); [done|done| | |].
    + apply accrued_next; try done. left. split; [done|]. intros r Hr. congruence.
    + intros s2 Hok2 _ Hm2 _. apply outcome_ret. split; [done|].
      eexists. rewrite Hm2, lookup_insert_eq. split_and!; [done..|]. cbn. apply lookup_insert_eq.
    + intros s2 e Hok2 _ Hm2 _. rewrite bool_decide_false by (intros [? ?]; done). cbn [negb andb]. case_bool_decide as Hacc; [|done].
      unfold unguard_strategy, set_guards. apply outcome_modify. apply outcome_fail. split; [|done].
      apply (unguard_ok s2); [done|]. intros b2. rewrite Hm2, (live_strategy _ _ _ Hok Hb). cbn. rewrite Hb. by intros [= <-].
Qed.

Lemma accrue_outcome s a :
  rebate_ok s → 0 ≤ allocation_weight a → outcome (accrue a) (recorded a) s.
Proof.
  intros Hok Hw. unfold accrue. apply outcome_lift_bind. destruct (validate_accrual a) as [[]|e] eqn:Hv; [|done].
  cbn [map_err]. apply outcome_gets. destruct (rs_batches s !! acc_strategy a) as [b|] eqn:Hb;
    [by apply accrue_live_outcome|].
  cbv zeta. unfold guard_strategy, set_guards. apply outcome_modify. set (k := acc_strategy a) in *.
  pose proof (guard_ok s k Hok) as Hok1. change (mk_rebate_service _ _ _ _) with (put_guards s (guard (rs_guards s) k)).
  set (s1 := put_guards s _) in *. set (b := with_batch_state _ BatchState.Guarded).
  assert (Hval : accruals_valid b) by (apply accruals_valid_state; by apply accruals_valid_new).
  assert (Hopen : v_open (durable_view s1) !! k = None).
  { apply eq_None_not_Some. intros [b' Hb']. destruct (inv_live _ Hok1 _ _ Hb') as [? Hl]. cbn in Hl. congruence. }
  apply outcome_attempt. eapply outcome_mono; [apply save_outcome; [done|by apply valid_storable]|].
  intros res s2 (st & -> & Hst & Hres). destruct res as [[]|e].
  - destruct Hres as (Hv2 & Hat2 & _). unfold set_batch, set_batches. apply outcome_modify. apply outcome_ret. split; cbn.
    + apply (insert_ok s1 st k b); try done.
      * rewrite Hv2. unfold view_save. cbn. change (acc_strategy a) with k. change (durable_view s) with (durable_view s1).
        rewrite Hopen. cbn. f_equal. unfold b, with_accruals, RebateBatch_new. cbn. by rewrite (right_id_L ∅ (∪)).
      * by rewrite Hv2.
      * constructor; [done..|]. cbn. intros t x (_ & <-)%lookup_singleton_Some. done.
      * cbn. unfold guard. set_solver.
      * rewrite Hv2. by apply grows_save.
    + exists b. change (acc_strategy a) with k. rewrite lookup_insert_eq. split_and!; [done..|]. cbn. apply lookup_singleton_eq.
  - destruct Hres as (Hv2 & _). unfold unguard_strategy, set_guards. apply outcome_modify. apply outcome_fail.
    split; [|done]. apply (unguard_ok (put_store s1 st)); [by apply same_view_ok|]. cbn. congruence.
Qed.

End steps.
