(* ===== verification/RebateServiceClosing.v ===== *)
(** * Ending a batch

    Discarding a batch, settling its execution and expiring its public work
    ([discard], [settle] and [expire_ready] of [crates/core/src/rebate/service.rs])
    preserve the invariant of the service on every path. *)

From Stdlib Require Import String.
From S2P Require Import Prelude Commands U256 Reservation LedgerEngine LedgerInvariant LedgerProperties LedgerStore LedgerService LedgerHolds Ratio CurveDecode Curves Registry Candidates RebatePolicy RebateStore RebateCall RebateService RebateServiceInvariant RebateServiceSteps.

#[local] Open Scope Z_scope.

Section closing.
Context {LSt RSt : Type} `{HS : LedgerStore LSt} `{HL : !LedgerStoreLaws LSt}.
Context `{HW : RebateWire} `{HR : RebateStore RSt} `{HRL : !RebateStoreLaws RSt} `{HI : RebateReservationIds} `{HH : RebateHistory}.
Implicit Types (s : RebateService LSt RSt) (k : StrategyKey) (b : RebateBatch) (r : ReservationId).

(** ** Discarding *)

(** A batch that names a reservation and is not executable can always be marked as invalidating it. *)
Lemma invalidating_next s k b r :
  rebate_ok s → rs_batches s !! k = Some b → active_reservation (rb_state b) = Some r →
  v_settling (durable_view s) !! rb_id b = None →
  admissible_next s k b (with_batch_state b (BatchState.Invalidating r)).
Proof.
  intros Hok Hb Ha Hns. destruct (live_durable _ _ _ Hok Hb) as [Hv Hw]. constructor; try done.
  - by apply accruals_valid_state.
  - intros r' [= <-]. by eapply live_own.
  - intros _. eapply inv_guarded; [done..|]. intros Hs. by rewrite Hs in Ha.
  - intros r' Hr'. left. cbn. congruence.
Qed.

Lemma tracks_invalidating b b' r :
  tracks b b' → active_reservation (rb_state b) = Some r → (∀ e, rb_state b ≠ BatchState.Ready e) →
  tracks (with_batch_state b (BatchState.Invalidating r)) b'.
Proof.
  intros [Heq Hs] Ha Hnr. split; [done|]. cbn.
  destruct (rb_state b) as [| |plan r'|e|r'] eqn:Hb; cbn in Ha; simplify_eq.
  - destruct Hs as [Hs|[[? _]|(? & ? & ? & _)]]; [|done..]. right; right. exists r, plan. by rewrite Hs.
  - by destruct (Hnr e).
  - destruct Hs as [Hs|[[? _]|(r' & plan & [= <-] & Hs)]]; [by left|done|]. right; right. eauto.
Qed.

Definition finished k (c : cmd (RebateService LSt RSt) RebateServiceError unit) :
    cmd (RebateService LSt RSt) RebateServiceError bool :=
  _ ← c; _ ← set_batches (delete k); _ ← unguard_strategy k; mret true.

(** The batch is gone from memory, store and guard. *)
Definition gone k (res : result RebateServiceError bool) s' : Prop :=
  rebate_ok s' ∧ (res = Ok true → rs_batches s' !! k = None ∧ v_open (durable_view s') !! k = None ∧ k ∉ rs_guards s').

Lemma removed_gone s st k b :
  rebate_ok s → rs_batches s !! k = Some b → rebate_store_ok st →
  v_open (view st) = filter (λ p, rb_id p.2 ≠ rb_id b) (v_open (durable_view s)) →
  v_settling (view st) = delete (rb_id b) (v_settling (durable_view s)) →
  (∀ r, active_reservation (rb_state b) = Some r → closed (rs_ledger s) r) → grows (durable_view s) (view st) →
  gone k (Ok true) (mk_rebate_service (delete k (rs_batches s)) (rs_ledger s) (unguard (rs_guards s) k) st).
Proof.
  intros Hok Hb Hst Hv Hset Hact Hgrow. assert (Hok' := remove_ok s st k b Hok Hb Hst Hv Hset Hact Hgrow).
  split; [done|]. intros _. cbn. split_and!.
  - apply lookup_delete_eq.
  - apply eq_None_not_Some. intros [b' Hb']. destruct (inv_live _ Hok' _ _ Hb') as [? Hl]. cbn in Hl.
    by rewrite lookup_delete_eq in Hl.
  - unfold unguard. set_solver.
Qed.

Lemma close_outcome s k b :
  rebate_ok s → rs_batches s !! k = Some b → (∀ e, rb_state b ≠ BatchState.Ready e) →
  (∀ r, active_reservation (rb_state b) = Some r → closed (rs_ledger s) r) →
  outcome (finished k (with_store (rebate_close (rb_id b)))) (gone k) s.
Proof.
  intros Hok Hb Hnr Hc. unfold finished. apply outcome_bind. unfold with_store. apply outcome_zoom. unfold outcome at 1.
  pose proof (close_law (rb_id b) (rs_store s) (inv_store _ Hok)) as Hlaw.
  destruct (rebate_close (rb_id b) (rs_store s)) as [[[]|e] st]; cbn; destruct Hlaw as [Hst Hv].
  - unfold set_batches, unguard_strategy, set_guards. do 2 apply outcome_modify. apply outcome_ret. cbn.
    apply (removed_gone s st k b); try done; rewrite Hv; [done| |done].
    cbn. rewrite delete_id; [done|]. by apply (not_settling s k b).
  - split; [|done]. by apply (same_view_ok s st).
Qed.

Lemma discard_outcome s k : rebate_ok s → outcome (discard k) (gone k) s.
Proof.
  intros Hok. unfold discard. apply outcome_gets. destruct (rs_batches s !! k) as [b|] eqn:Hb; [|by apply outcome_ret].
  destruct (ready_or_not b) as [(e & He)|Hnr]; [rewrite He; by apply outcome_fail|].
  assert (Hgo : outcome (
    _ ← match active_reservation (rb_state b) with
        | Some r => let b' := with_batch_state b (BatchState.Invalidating r) in
                    _ ← set_batch k b'; _ ← save b'; release_if_held r
        | None => mret tt
        end;
    finished k (with_store (rebate_close (rb_id b)))) (gone k) s).
  2: { destruct (rb_state b) as [| | |e|] eqn:Hs; try exact Hgo. by destruct (Hnr e). }
  apply outcome_bind. destruct (active_reservation (rb_state b)) as [r|] eqn:Ha.
  - cbv zeta. destruct (live_own _ _ _ _ Hok Hb Ha) as [Ho _]. set (b1 := with_batch_state b _).
    apply (set_save_outcome s k b); [done|done| | | |].
    + apply invalidating_next; try done. by apply (not_settling s k b).
    + intros b' _ Ht. by apply tracks_invalidating.
    + intros s1 Hok1 _ Hm1. assert (Hb1 : rs_batches s1 !! k = Some b1) by (rewrite Hm1; apply lookup_insert_eq).
      eapply outcome_mono; [by apply (release_outcome s1 k b1 r)|].
      intros res s2 (Hok2 & (l & ->) & Hres). destruct res as [[]|e]; [|done].
      change (rb_id b) with (rb_id b1). apply close_outcome; [done..|]. intros r' [= <-]. done.
    + done.
  - apply outcome_ret. apply close_outcome; [done..|]. congruence.
Qed.

(** ** Expiring public work *)

(** What an expiry may leave: the batch guarded again with nothing held, or everything as it was, or a store failure. *)
Definition expired_to s k block (res : result RebateServiceError bool) s' : Prop :=
  rebate_ok s' ∧
  match res with
  | Ok true => ∃ b e, rs_batches s !! k = Some b ∧ rb_state b = BatchState.Ready e
      ∧ deadline_block (authorization e) < block
      ∧ rs_batches s' !! k = Some (with_batch_state b BatchState.Guarded)
      ∧ closed (rs_ledger s') (ex_reservation e)
  | Ok false => s' = s
  | Err e => (∃ se, e = ERebateStore se) ∨ ∃ se, e = ELedger (StoreFailed se)
  end.

(** The second half of an expiry, once the hold is gone. *)
Lemma expire_tail_outcome s k block b e s1 :
  rs_batches s !! k = Some b → rb_state b = BatchState.Ready e → deadline_block (authorization e) < block →
  rebate_ok s1 → rs_batches s1 !! k = Some (with_batch_state b (BatchState.Invalidating (ex_reservation e))) →
  closed (rs_ledger s1) (ex_reservation e) →
  outcome (let next := with_batch_state (with_batch_state b (BatchState.Invalidating (ex_reservation e))) BatchState.Guarded in
           _ ← save next; _ ← set_batch k next; mret true) (expired_to s k block) s1.
Proof.
  intros Hb Hs Hlate Hok1 Hb1 Hc. cbv zeta. set (b1 := with_batch_state b (BatchState.Invalidating _)) in *.
  apply (save_set_outcome s1 k b1); [done|done| | |].
  - apply guarded_next; [done|done|done| |by intros r' [= <-]]. by apply (inv_guarded _ Hok1 k b1 Hb1).
  - intros s2 Hok2 [Hl2 _] Hm2 _. apply outcome_ret. split; [done|]. exists b, e. rewrite Hm2, lookup_insert_eq, Hl2. done.
  - intros s2 err Hok2 _ _ _. split; [done|]. left. eauto.
Qed.

(** Expiry is for work whose execution was not observed. *)
Lemma expire_ready_outcome s k block :
  rebate_ok s →
  (∀ b e, rs_batches s !! k = Some b → rb_state b = BatchState.Ready e → deadline_block (authorization e) < block →
     v_settling (durable_view s) !! rb_id b = None) →
  outcome (expire_ready k block) (expired_to s k block) s.
Proof.
  intros Hok Hns. unfold expire_ready. apply outcome_gets.
  destruct (rs_batches s !! k) as [b|] eqn:Hb; [|by apply outcome_ret].
  destruct (rb_state b) as [| | |e|] eqn:Hs; try by apply outcome_ret.
  apply outcome_if; [by intros; apply outcome_ret|intros Hlate; zbool]. specialize (Hns b e eq_refl Hs Hlate).
  cbv zeta. set (r := ex_reservation e). set (b1 := with_batch_state b (BatchState.Invalidating r)).
  assert (Ha : active_reservation (rb_state b) = Some r) by (by rewrite Hs).
  destruct (live_own _ _ _ _ Hok Hb Ha) as [Ho _].
  apply (save_set_outcome s k b); [done|done|by apply invalidating_next| |].
  2: { intros s' err Hok' _ _ _. split; [done|]. left. eauto. }
  intros s1 Hok1 [Hl1 Hg1] Hm1 _. apply outcome_gets.
  assert (Hb1 : rs_batches s1 !! k = Some b1) by (rewrite Hm1; apply lookup_insert_eq).
  apply outcome_bind. destruct (reservation_sources (rs_ledger s1) r) as [ss|] eqn:Hrs.
  - unfold with_ledger. apply outcome_zoom. eapply outcome_mono; [by eapply expire_held; [apply inv_ledger|]|].
    intros res l [Hl Hres]. change (mk_rebate_service (rs_batches s1) l (rs_guards s1) (rs_store s1)) with (put_ledger s1 l).
    destruct res as [[]|err]; cbn [map_err].
    + destruct Hres as (x & Hx & Hh). apply (expire_tail_outcome s k block b e); try done.
      * apply (move_ok s1 l k b1 r x Expired); try done. unfold is_open. naive_solver.
      * intros y. cbn. rewrite Hh, lookup_insert_eq. intros [= <-]. unfold is_open. cbn. naive_solver.
    + destruct Hres as (Hh & se & ->). split; [by apply same_holds_ok|]. right. eauto.
  - apply outcome_ret. apply (expire_tail_outcome s k block b e); try done.
    intros y Hy. eapply (sources_of_open s1 r y (rb_id b)); done.
Qed.

(** ** Settling an execution *)

Lemma batch_by_id_Some (m : gmap StrategyKey RebateBatch) id k b :
  batch_by_id m id = Some (k, b) → m !! k = Some b ∧ rb_id b = id.
Proof.
  unfold batch_by_id. intros Hh%head_Some_elem_of. apply list_elem_of_filter in Hh as [Hid Hin].
  split; [by apply elem_of_entries|done].
Qed.

Lemma batch_by_id_None (m : gmap StrategyKey RebateBatch) id k b :
  batch_by_id m id = None → m !! k = Some b → rb_id b ≠ id.
Proof.
  unfold batch_by_id. intros Hh%head_None Hb Hid. assert (Hin : (k, b) ∈ filter (λ p : StrategyKey * RebateBatch, rb_id p.2 = id) (entries m)).
  { apply list_elem_of_filter. split; [done|by apply elem_of_entries]. }
  rewrite Hh in Hin. by apply not_elem_of_nil in Hin.
Qed.

(** What is known of a live executable batch. *)
Lemma live_ready s k b e :
  rebate_ok s → rs_batches s !! k = Some b → rb_state b = BatchState.Ready e →
  v_open (durable_view s) !! k = Some b ∧ plan_matches_batch (ex_plan e) b = true ∧ validate_ready b e = true
  ∧ execution_sound e ∧ is_u256 (rp_out (ex_plan e)) ∧ rp_batch (ex_plan e) = rb_id b
  ∧ own (ex_reservation e) (rb_id b) ∧ ex_reservation e ≠ 0 ∧ v_executed (durable_view s) !! rb_id b = None.
Proof.
  intros Hok Hb Hs. destruct (inv_tracked _ Hok _ _ Hb) as (b' & Hb' & [Heq Ht]).
  destruct Ht as [Ht|[[? _]|(? & ? & ? & _)]]; [|congruence..].
  assert (b' = b) as -> by (rewrite Heq, Ht; by destruct b).
  destruct (inv_durable _ Hok _ _ Hb') as [[_ Hv Hsound _] _].
  unfold state_valid in Hv. rewrite Hs in Hv. destruct Hv as [Hp Hr]. destruct (Hsound e Hs) as [Hx Hu].
  assert (Ha : active_reservation (rb_state b) = Some (ex_reservation e)) by (by rewrite Hs).
  destruct (live_own _ _ _ _ Hok Hb Ha) as [Ho Hne].
  destruct (proj1 (view_ok _ (inv_store _ Hok)) _ _ Hb') as (_ & Hex & _).
  split_and!; try done. unfold plan_matches_batch in Hp. by destruct (Z.eqb_spec (rp_batch (ex_plan e)) (rb_id b)).
Qed.

Lemma validate_execution_event_Ok ev e u :
  validate_execution_event ev e = Ok u →
  event_matches_plan ev (ex_plan e) = true ∧ block_number ev ≤ deadline_block (authorization e).
Proof.
  unfold validate_execution_event. destruct (event_matches_plan ev (ex_plan e)); [|done]. cbn.
  destruct (Z.ltb_spec (deadline_block (authorization e)) (block_number ev)); [done|auto].
Qed.

Lemma validate_execution_event_Err ev e err :
  validate_execution_event ev e = Err err →
  event_matches_plan ev (ex_plan e) = false ∨ deadline_block (authorization e) < block_number ev.
Proof.
  unfold validate_execution_event. destruct (event_matches_plan ev (ex_plan e)); [|auto]. cbn.
  destruct (Z.ltb_spec (deadline_block (authorization e)) (block_number ev)); [auto|done].
Qed.

Lemma event_matches_out ev plan : event_matches_plan ev plan = true → ev_out ev = rp_out plan.
Proof.
  unfold event_matches_plan. rewrite negb_true_iff, !orb_false_iff, !negb_false_iff, !Z.eqb_eq. tauto.
Qed.

(** Recording a settlement of a live executable batch. *)
Lemma begin_ok s st k b e x :
  rebate_ok s → rs_batches s !! k = Some b → rb_state b = BatchState.Ready e →
  st_plan x = ex_plan e → st_reservation x = ex_reservation e → validate_settlement x = Ok tt →
  block_number (st_event x) ≤ deadline_block (authorization e) → observed (st_event x) →
  rebate_store_ok st → view st = view_begin x (durable_view s) → rebate_ok (put_store s st).
Proof.
  intros Hok Hb Hs Hp Hr Hv Hbl Hob Hst Hview. destruct (live_ready _ _ _ _ Hok Hb Hs) as (_ & _ & _ & _ & _ & Hid & _).
  rewrite <-Hp in Hid. destruct Hok as [? ? ? ? ? ? Hrdy ? ? Hsett Hobs ?]. constructor; unfold durable_view in *; cbn; rewrite ?Hview; cbn; try done.
  - intros k' b' e' Hb' He'. destruct (Hrdy _ _ _ Hb' He') as [?|[Hset ?]]; [by left|right]. split; [|done].
    apply lookup_insert_is_Some'. by right.
  - intros id y [(<- & <-)|(_ & Hy)]%lookup_insert_Some; [|by apply Hsett]. split; [done|]. exists k, b, e. done.
  - intros id y [(<- & <-)|(_ & Hy)]%lookup_insert_Some; [done|by eapply Hobs].
Qed.

(** The record of the settlement is durable once [begin_settlement] returned. *)
Lemma begin_outcome s k b e x :
  rebate_ok s → rs_batches s !! k = Some b → rb_state b = BatchState.Ready e →
  st_plan x = ex_plan e → st_reservation x = ex_reservation e → validate_settlement x = Ok tt →
  block_number (st_event x) ≤ deadline_block (authorization e) → observed (st_event x) →
  outcome (with_store (begin_settlement x)) (λ res s', rebate_ok s' ∧ (∃ st, s' = put_store s st) ∧
    match res with
    | Ok _ => v_executed (durable_view s') = v_executed (durable_view s)
        ∧ ∃ y, v_settling (durable_view s') !! rb_id b = Some y ∧ same_settlement y x
    | Err err => ∃ se, err = ERebateStore se
    end) s.
Proof.
  intros Hok Hb Hs Hp Hr Hv Hbl Hob. destruct (live_ready _ _ _ _ Hok Hb Hs) as (_ & _ & _ & _ & _ & Hid & _ & _ & Hex).
  assert (Hbatch : rp_batch (st_plan x) = rb_id b) by congruence.
  unfold with_store. apply outcome_zoom. unfold outcome. pose proof (begin_law x (rs_store s) (inv_store _ Hok)) as Hlaw.
  rewrite Hbatch in Hlaw. unfold view_settlement in Hlaw. fold (durable_view s) in Hlaw. rewrite Hex in Hlaw.
  destruct (begin_settlement x (rs_store s)) as [[[]|err] st]; cbn; destruct Hlaw as [Hst Hlaw].
  - change (mk_rebate_service _ _ _ _) with (put_store s st).
    destruct (v_settling (durable_view s) !! rb_id b) as [y|] eqn:Hy.
    + destruct Hlaw as [Hview Hsame]. split_and!; [by apply same_view_ok|by exists st|unfold durable_view; cbn; by rewrite Hview|].
      exists y. unfold durable_view. cbn. rewrite Hview. done.
    + split_and!; [by apply (begin_ok s st k b e x)|by exists st|unfold durable_view; cbn; by rewrite Hlaw|].
      exists x. unfold durable_view. cbn. rewrite Hlaw. unfold view_begin. cbn. rewrite Hbatch, lookup_insert_eq. done.
  - change (mk_rebate_service _ _ _ _) with (put_store s st). split_and!; [|by exists st|eauto].
    destruct Hlaw as [Hview|[_ Hview]]; [by apply same_view_ok|by apply (begin_ok s st k b e x)].
Qed.

(** A pending hold is consumed with [amount] booked for it, exactly and only it; a closed one is left as it is. *)
Definition posted (l l' : LedgerService LSt) r (amount : U256) : Prop :=
  match reservation_sources l r with
  | Some _ => ∀ r', holds l' !! r' = (if bool_decide (r' = r) then (λ x, with_state x Posted) <$> holds l !! r' else holds l !! r')
      ∧ booked l' r' = (if bool_decide (r' = r) then Some [amount] else booked l r')
  | None => l' = l
  end.

Lemma post_settlement_outcome s k b e x :
  rebate_ok s → rs_batches s !! k = Some b → rb_state b = BatchState.Ready e →
  is_Some (v_settling (durable_view s) !! rb_id b) → st_reservation x = ex_reservation e →
  ev_out (st_event x) = rp_out (ex_plan e) →
  outcome (post_settlement x) (λ res s', rebate_ok s' ∧ (∃ l, s' = put_ledger s l) ∧
    match res with
    | Ok _ => closed (rs_ledger s') (ex_reservation e)
        ∧ posted (rs_ledger s) (rs_ledger s') (ex_reservation e) (rp_out (ex_plan e))
    | Err err => ∃ se, err = ELedger (StoreFailed se)
    end) s.
Proof.
  intros Hok Hb Hs Hset Hr Hout. destruct (live_ready _ _ _ _ Hok Hb Hs) as (_ & _ & _ & _ & Hu & _ & Ho & _ & _).
  unfold post_settlement. apply outcome_gets. rewrite Hr. set (r := ex_reservation e) in *.
  destruct (reservation_sources (rs_ledger s) r) as [ss|] eqn:Hrs.
  - pose proof Hrs as (y & Hy & Hp & Hss)%reservation_sources_Some.
    destruct (inv_ready _ Hok _ _ _ Hb Hs) as [(z & Hz & _ & _ & Hsrc)|[_ Hc]].
    2: { exfalso. apply (Hc y Hy). unfold is_open. rewrite Hp. auto. }
    assert (z = y) as -> by (fold r in Hz; congruence).
    unfold with_ledger. apply outcome_zoom. rewrite Hout.
    eapply outcome_mono; [eapply post_outcome; [by apply inv_ledger|done|by constructor|]|].
    { rewrite <-Hss, Hsrc. unfold is_u256 in Hu. constructor; [cbn; lia|constructor]. }
    intros res l ([Hl Hres] & Hbo & Hbr). change (mk_rebate_service _ _ _ _) with (put_ledger s l). destruct res as [[]|err]; cbn.
    + destruct Hres as (y' & Hy' & Hh). assert (y' = y) as -> by congruence. split_and!.
      * apply (move_ok s l k b r y Posted); try done. unfold is_open. naive_solver.
      * by exists l.
      * intros w. rewrite Hh, lookup_insert_eq. intros [= <-]. unfold is_open. cbn. naive_solver.
      * unfold posted. rewrite Hrs. intros r'. rewrite Hh. case_bool_decide as Hr'; [|by rewrite lookup_insert_ne, Hbo].
        subst r'. by rewrite lookup_insert_eq, Hy, Hbr.
    + destruct Hres as (Hh & se & ->). split_and!; [by apply same_holds_ok|by exists l|eauto].
  - apply outcome_ret. split_and!; [done|exists (rs_ledger s); by destruct s| |].
    + intros y Hy. eapply (sources_of_open s r y (rb_id b)); done.
    + unfold posted. by rewrite Hrs.
Qed.

(** What [settle] may leave: the batch gone and its execution recorded with its inventory spent; or nothing changed, because
    no live batch has this id, the one that has it is not executable, or the event is not of the signed plan or comes after
    its deadline; or a store failure. *)
Definition settled_to s event (res : result RebateServiceError bool) s' : Prop :=
  rebate_ok s' ∧
  match res with
  | Ok true => ∃ k b e y, rs_batches s !! k = Some b ∧ rb_id b = ev_batch event ∧ rb_state b = BatchState.Ready e
      ∧ event_matches_plan event (ex_plan e) = true ∧ block_number event ≤ deadline_block (authorization e)
      ∧ rs_batches s' = delete k (rs_batches s) ∧ rs_guards s' = unguard (rs_guards s) k
      ∧ v_open (durable_view s') !! k = None
      ∧ posted (rs_ledger s) (rs_ledger s') (ex_reservation e) (rp_out (ex_plan e)) ∧ closed (rs_ledger s') (ex_reservation e)
      ∧ v_executed (durable_view s') = <[rb_id b := y]> (v_executed (durable_view s))
      ∧ (held_for (rs_ledger s) (ex_reservation e) (rb_id b) (ex_plan e) ∨ is_Some (v_settling (durable_view s) !! rb_id b))
      ∧ st_plan y = ex_plan e ∧ st_reservation y = ex_reservation e ∧ st_event y = event
  | Ok false => s' = s ∧ ∀ k b, rs_batches s !! k = Some b → rb_id b ≠ ev_batch event
  | Err (ERebate _) => s' = s ∧ ∃ k b, rs_batches s !! k = Some b ∧ rb_id b = ev_batch event
      ∧ ∀ e, rb_state b = BatchState.Ready e →
          event_matches_plan event (ex_plan e) = false ∨ deadline_block (authorization e) < block_number event
  | Err e => (∃ se, e = ERebateStore se) ∨ ∃ se, e = ELedger (StoreFailed se)
  end.

Lemma finish_grows s id : rebate_ok s → grows (durable_view s) (view_finish id (durable_view s)).
Proof.
  intros Hok. apply grows_finish. intros x Hx. by apply (proj2 (proj2 (view_ok _ (inv_store _ Hok))) id x).
Qed.

Lemma finish_outcome s k b r y :
  rebate_ok s → rs_batches s !! k = Some b → active_reservation (rb_state b) = Some r → closed (rs_ledger s) r →
  v_settling (durable_view s) !! rb_id b = Some y →
  outcome (finished k (with_store (finish_settlement (rb_id b)))) (λ res s', gone k res s' ∧
    match res with
    | Ok ok => ok = true ∧ rs_batches s' = delete k (rs_batches s) ∧ rs_guards s' = unguard (rs_guards s) k
        ∧ rs_ledger s' = rs_ledger s ∧ v_executed (durable_view s') = <[rb_id b := y]> (v_executed (durable_view s))
    | Err err => ∃ se, err = ERebateStore se
    end) s.
Proof.
  intros Hok Hb Ha Hc Hy. unfold finished. apply outcome_bind. unfold with_store. apply outcome_zoom. unfold outcome at 1.
  pose proof (finish_law (rb_id b) (rs_store s) (inv_store _ Hok)) as Hlaw.
  destruct (finish_settlement (rb_id b) (rs_store s)) as [[[]|e] st]; cbn; destruct Hlaw as (Hst & Hv & _).
  - unfold set_batches, unguard_strategy, set_guards. do 2 apply outcome_modify. apply outcome_ret. cbn. split_and!; try done.
    + apply (removed_gone s st k b); try done; [by rewrite Hv..| |rewrite Hv; by apply finish_grows].
      intros r' Hr'. by assert (r' = r) as -> by congruence.
    + unfold durable_view in *. cbn. rewrite Hv. unfold view_finish. cbn. by rewrite Hy.
  - split; [|eauto]. split; [|done]. by apply (same_view_ok s st).
Qed.

Lemma settle_outcome s event at_ :
  rebate_ok s → observed event → outcome (settle event at_) (settled_to s event) s.
Proof.
  intros Hok Hob. unfold settle. apply outcome_gets. destruct (batch_by_id (rs_batches s) (ev_batch event)) as [[k b]|] eqn:Hby.
  2: { apply outcome_ret. split_and!; [done..|]. intros k b Hb. by eapply batch_by_id_None. }
  apply batch_by_id_Some in Hby as [Hb Hbid].
  destruct (rb_state b) as [| | |e|] eqn:Hs;
    try by (apply outcome_fail; split; [done|]; split; [done|]; exists k, b; split_and!; [done..|]; intros ? ?; congruence).
  apply outcome_lift_bind. destruct (validate_execution_event event e) as [[]|err] eqn:Hv; [cbn [map_err]|].
  2: { split; [done|]. split; [done|]. exists k, b. split_and!; [done..|]. intros e' He'. assert (e' = e) as -> by congruence.
       by apply (validate_execution_event_Err _ _ err). }
  apply validate_execution_event_Ok in Hv as [Hmatch Hblock].
  destruct (live_ready _ _ _ _ Hok Hb Hs) as (_ & _ & _ & _ & _ & _ & _ & Hne & _).
  cbv zeta. set (x := mk_rebate_settlement _ _ _ _).
  assert (Hx : validate_settlement x = Ok tt).
  { unfold validate_settlement. cbn. rewrite Hmatch. by destruct (Z.eqb_spec (ex_reservation e) 0). }
  apply outcome_bind. eapply outcome_mono; [by apply (begin_outcome s k b e x)|].
  intros res s1 (Hok1 & (st & ->) & Hres). destruct res as [[]|err]; [|split; [done|]; destruct Hres as [se ->]; eauto].
  destruct Hres as (Hex1 & y & Hy & Hsame). apply outcome_bind.
  eapply outcome_mono; [apply (post_settlement_outcome (put_store s st) k b e x);
    [done|done|done|by exists y|done|by apply event_matches_out]|].
  intros res s2 (Hok2 & (l & ->) & Hres). destruct res as [[]|err]; [|split; [done|]; destruct Hres as [se ->]; eauto].
  destruct Hres as [Hc Hp]. eapply outcome_mono.
  { apply (finish_outcome (put_ledger (put_store s st) l) k b (ex_reservation e) y); try done. by rewrite Hs. }
  intros res s3 [[Hok3 Hgone] Hres]. split; [done|]. destruct res as [ok|err]; [|destruct Hres as [se ->]; eauto].
  destruct Hres as (-> & Hm & Hg & Hl & Hex). destruct (Hgone eq_refl) as (_ & Hopen & _). destruct Hsame as (Hs1 & Hs2 & Hs3).
  exists k, b, e, y. rewrite Hl, Hm, Hg, Hex. rewrite <-Hex1. split_and!; try done.
  destruct (inv_ready _ Hok _ _ _ Hb Hs) as [?|[? _]]; auto.
Qed.

End closing.
