(* ===== verification/RebateServiceEvaluate.v ===== *)
(** * Evaluating a batch

    The plan that an assessment publishes passes the checks that recovery makes of it, and
    [evaluate] of [crates/core/src/rebate/service.rs] preserves the invariant of the
    service on every path. *)

From Stdlib Require Import String.
From S2P Require Import Prelude Commands U256 Reservation LedgerEngine LedgerInvariant LedgerProperties LedgerStore LedgerService LedgerHolds Ratio CurveDecode Curves CurveProperties Registry Candidates Routing RebatePolicy RebateStore RebateCall RebateService RebateServiceInvariant RebateServiceSteps RebateServiceClosing.

#[local] Open Scope Z_scope.

(** ** Published plans match their batch *)

Lemma pair_new_comm a b : TokenPair_new a b = TokenPair_new b a.
Proof. unfold TokenPair_new. by rewrite Z.min_comm, Z.max_comm. Qed.

Lemma both_ways_pair market ti to :
  (ti, to) ∈ both_ways market → TokenPair_new ti to = TokenPair_new (token_a market) (token_b market).
Proof.
  unfold both_ways. rewrite !elem_of_cons, elem_of_nil. intros [[= -> ->]|[[= -> ->]|[]]]; [done|apply pair_new_comm].
Qed.

Lemma assess_pair config batch accruals strategy caps market rqs a x :
  assess config batch accruals strategy caps market rqs = Ok a → x ∈ accruals →
  TokenPair_new (acc_token_in x) (acc_token_out x) = TokenPair_new (token_a market) (token_b market).
Proof.
  unfold assess. destruct (existsb _ _); [done|]. destruct (pair strategy) as [p|]; [|done].
  destruct (existsb _ accruals) eqn:Hex; [done|]. rewrite existsb_false in Hex. destruct (_ || _) eqn:Hm; [done|].
  rewrite !orb_false_iff, negb_false_iff, bool_decide_eq_true in Hm. destruct Hm as [[[-> _] _] _].
  intros _ Hx%Hex. by rewrite negb_false_iff, bool_decide_eq_true in Hx.
Qed.

Lemma checked_sum_total (l : list RebateAllocation) acc :
  0 ≤ acc → Forall (λ a, 0 ≤ al_amount a) l → acc + zsum al_amount l ≤ U256_MAX →
  try_fold_opt (λ sum a, checked_add sum (al_amount a)) acc l = Some (acc + zsum al_amount l).
Proof.
  intros Hacc Hl. revert acc Hacc. induction Hl as [|a l Ha Hl IH]; intros acc Hacc Hle; cbn [try_fold_opt].
  { cbn. by rewrite Z.add_0_r. }
  assert (0 ≤ zsum al_amount l) by (apply zsum_nonneg; by apply Forall_forall).
  rewrite zsum_cons in *. assert (Hadd : checked_add acc (al_amount a) = Some (acc + al_amount a)).
  { unfold checked_add. by rewrite (proj2 (Z.leb_le _ _)) by lia. }
  rewrite Hadd. cbn [mbind option_bind]. rewrite IH by lia. f_equal. lia.
Qed.

(** The shares name each trade of the batch once. *)
Lemma shares_match b rebate shares :
  accruals_valid b → (∀ t a, rb_accruals b !! t = Some a → 0 ≤ allocation_weight a) → is_u256 rebate →
  allocate rebate (values (rb_accruals b)) = Ok shares →
  al_trade <$> shares = keys (rb_accruals b) ∧ Forall (λ a, 0 ≤ al_amount a) shares ∧ zsum al_amount shares = rebate.
Proof.
  intros Hv Hw Hr Ha.
  assert (Hws : Forall (λ a, 0 ≤ allocation_weight a) (values (rb_accruals b))).
  { apply Forall_forall. intros a (t & Ht)%elem_of_values. by eapply Hw. }
  pose proof (allocate_spec rebate _ Hr Hws) as Hsp. cbn zeta in Hsp. rewrite Ha in Hsp.
  destruct (U256_MAX <? _); [done|]. destruct (Z.eqb_spec (total_weight (values (rb_accruals b))) 0) as [|Hne]; [done|].
  destruct Hsp as (? & [= <-] & Hok & Hsum). split_and!; [|..|done].
  - rewrite (shares_trades _ _ _ _ Hok). unfold values, keys. rewrite <-list_fmap_compose. apply list_fmap_ext.
    intros i [t a] Hi%list_elem_of_lookup_2. apply elem_of_entries in Hi. by destruct (valid_legs _ Hv t a Hi) as (Ht & _).
  - assert (Htot : 0 ≤ total_weight (values (rb_accruals b))) by (apply zsum_nonneg; by apply Forall_forall).
    apply Forall_lookup. intros i s Hi.
    destruct (values (rb_accruals b) !! i) as [a|] eqn:Hai.
    + pose proof (shares_floor _ _ _ _ Hok i a s Hai Hi) as Hf. rewrite Forall_lookup in Hws. specialize (Hws i a Hai).
      destruct Hr. pose proof (Z.div_pos (rebate * allocation_weight a) (total_weight (values (rb_accruals b)))). nia.
    + apply lookup_lt_Some in Hi. apply lookup_ge_None in Hai. pose proof (shares_trades _ _ _ _ Hok) as Hlen.
      apply (f_equal length) in Hlen. rewrite !length_fmap in Hlen. lia.
Qed.

Lemma keys_to_set {V} (m : gmap Z V) : list_to_set (keys m) = dom m.
Proof. apply set_eq. intros t. by rewrite elem_of_list_to_set, elem_of_keys, elem_of_dom. Qed.

(** A plan that the policy publishes for a valid batch is one that recovery accepts, if it asks for anything. *)
Lemma assess_plan_matches config b strategy caps market rqs plan :
  assessable strategy caps → (∀ rq, rq ∈ rqs → 0 < minimum_maker_rebate rq) →
  accruals_valid b → (∀ t a, rb_accruals b !! t = Some a → 0 ≤ allocation_weight a) → rb_strategy b = strat_key strategy →
  assess config (rb_id b) (values (rb_accruals b)) strategy caps market rqs = Ok (Ready plan) →
  plan_fits plan b ∧ is_u256 (rp_out plan) ∧ rp_strategy plan = strat_key strategy.
Proof.
  intros Has Hmin Hv Hw Hk Ha. pose proof Ha as Hready. apply assess_ready in Hready; [|done|].
  2: { apply Forall_forall. intros a (t & Ht)%elem_of_values. by eapply Hw. }
  destruct Hready as (Hid & Hs & _ & Hout & Hne & Hrw & Hal & d & rq & Hdir & Hd & _ & Hrq & _ & Hok).
  split_and!; try done; [|apply Hout..]. unfold plan_fits, plan_matches_batch, with_input.
  cbn [rp_batch rp_strategy rp_token_in rp_token_out rp_in rp_out maker_rebate allocations]. change (1 =? 0) with false.
  assert (Hrb : maker_rebate plan ≠ 0).
  { pose proof (plan_minimums _ _ _ _ Hok) as [? _]. specialize (Hmin rq Hrq). lia. }
  assert (Hpair : TokenPair_new (rp_token_in plan) (rp_token_out plan) = rb_pair b).
  { rewrite (both_ways_pair _ _ _ Hdir). destruct (map_choose _ (valid_some _ Hv)) as (t & a & Hta).
    destruct (valid_legs _ Hv t a Hta) as (_ & _ & <- & _). symmetry. eapply assess_pair; [exact Ha|]. apply elem_of_values. eauto. }
  rewrite (proj2 (Z.eqb_eq _ _) Hid), !bool_decide_true by congruence. cbn [negb orb].
  rewrite (proj2 (Z.eqb_neq _ _) Hne), (proj2 (Z.eqb_neq _ _) Hrb). cbn [orb].
  destruct (shares_match b _ _ Hv Hw Hrw Hal) as (Htr & Hnn & Hsum).
  cbv zeta. rewrite checked_sum_total by (done || (destruct Hrw; lia)). rewrite Z.add_0_l, Hsum, Htr, keys_to_set.
  rewrite (bool_decide_true (Some _ = Some _)) by done. rewrite andb_true_r, size_dom, Nat.eqb_refl.
  assert (Hlen : length (allocations plan) = size (rb_accruals b)).
  { rewrite <-(length_fmap al_trade), Htr. unfold keys. rewrite length_fmap, entries_perm. apply length_map_to_list. }
  rewrite Hlen, Nat.eqb_refl. cbn [andb]. apply forallb_forall. intros t Ht%list_elem_of_In.
  apply bool_decide_eq_true, elem_of_dom. unfold set_iter in Ht. by rewrite merge_sort_Permutation, elem_of_elements in Ht.
Qed.

(** ** The evaluation *)

(** What the caller of one evaluation promises. *)
Record evaluation_ok `{RebateWire} (w : RebateWorld) (input : RebateEvaluationInput) : Prop := {
  eval_assessable : assessable (in_strategy input) (in_caps input);
  eval_minimums : ∀ m, m ∈ in_minimums input → 0 < min_maker_rebate m;
  eval_builder : builder_ok (w_build w);
  eval_budgets : ∀ a x, w_budget_of w a = Ok x → is_u256 x;
  eval_now : 0 ≤ w_now w ∧ 0 ≤ in_reservation_ttl_secs input;
  eval_reservation : in_reservation_id input ≠ 0
}.

Lemma requirements_minimums config catalog w p gas minimums rqs :
  requirements_of config catalog w p gas minimums = Ok rqs → (∀ m, m ∈ minimums → 0 < min_maker_rebate m) →
  ∀ rq, rq ∈ rqs → 0 < minimum_maker_rebate rq.
Proof.
  revert rqs. induction minimums as [|m ms IH]; intros rqs; cbn; [intros [= <-] _ ? []%elem_of_nil|].
  destruct (_ && _); [done|]. intros (gc & _ & (rest & Hr & [= <-])%bind_Ok)%bind_Ok Hm rq [->|Hin]%elem_of_cons.
  - apply Hm. left.
  - eapply IH; [exact Hr| |exact Hin]. intros m' Hm'. apply Hm. by right.
Qed.

Lemma economics_requirements config catalog w strategy minimums market rqs :
  economics config catalog w strategy minimums = Ok (market, rqs) → (∀ m, m ∈ minimums → 0 < min_maker_rebate m) →
  ∀ rq, rq ∈ rqs → 0 < minimum_maker_rebate rq.
Proof.
  intros (p & _ & (mk & _ & (price & _ & (gas & _ & (rs & Hrs & [= <- <-])%bind_Ok)%bind_Ok)%bind_Ok)%bind_Ok)%bind_Ok.
  by eapply requirements_minimums.
Qed.

(** What the builder signed passes the check of ready work. *)
Lemma built_ready `{RebateWire} b strategy plan r deadline published e build :
  builder_ok build → build strategy plan r deadline published = Ok e → rp_batch plan = rb_id b →
  rp_strategy plan = rb_strategy b → validate_ready b e = true.
Proof.
  intros Hb He Hid Hs. destruct (Hb _ _ _ _ _ _ He) as (Hsound & Hep & _ & _ & [Hk Hc Hh Hm [Hti Hto] (Ho & Hi & Hr) Hd] & Hne & Hce & Hdl & _).
  destruct Hsound as (_ & Hlen & _). unfold validate_ready. apply negb_true_iff.
  rewrite Hep, Hk, Hc, Hid, Hh, Hm, Hs, Hti, Hto, Ho, Hi, Hr, Hd, Hlen, !Z.eqb_refl, bool_decide_true by done. cbn [negb orb].
  rewrite (proj2 (Z.eqb_neq _ _) Hdl). by destruct (ex_order e), (calldata e).
Qed.

Lemma single_source_ok r bid expires s :
  is_u256 (src_amount s) → reservation_ok (for_rebate r bid [s] expires).
Proof.
  intros Hu. split; [by constructor|]. intros a. unfold demand_at. cbn. unfold source_demand. pose proof U256_MAX_pos.
  destruct Hu. case_decide; lia.
Qed.

Section evaluate.
Context {LSt RSt : Type} `{HS : LedgerStore LSt} `{HL : !LedgerStoreLaws LSt}.
Context `{HW : RebateWire} `{HR : RebateStore RSt} `{HRL : !RebateStoreLaws RSt} `{HI : RebateReservationIds} `{HH : RebateHistory}.
Context (policy : RebatePolicyConfig) (config : RebateServiceConfig) (catalog : gmap Address Z).
Implicit Types (s : RebateService LSt RSt) (k : StrategyKey) (b : RebateBatch) (r : ReservationId).

(** What an evaluation reports is what it left: a quoting strategy, a withheld one, or held and signed public work. *)
Definition evaluated k (res : result RebateServiceError RebateAssessment) s' : Prop :=
  rebate_ok s' ∧
  match res with
  | Ok (Quoteable _) => (k ∉ rs_guards s') ∧ ∃ b, rs_batches s' !! k = Some b ∧ rb_state b = BatchState.Accumulating
  | Ok (Guarded _) => k ∈ rs_guards s' ∧ ∃ b, rs_batches s' !! k = Some b ∧ rb_state b = BatchState.Guarded
  | Ok (Ready plan) => k ∈ rs_guards s' ∧ ∃ b e, rs_batches s' !! k = Some b ∧ rb_state b = BatchState.Ready e ∧ ex_plan e = plan
  | Err _ => True
  end.

(** Back to guarded after the hold is gone, in memory first. *)
Lemma back_to_guarded {A} s k b (c : cmd (RebateService LSt RSt) RebateServiceError A) (Q : result RebateServiceError A → _ → Prop) :
  rebate_ok s → rs_batches s !! k = Some b → interrupted (rb_state b) → k ∈ rs_guards s →
  (∀ r, active_reservation (rb_state b) = Some r → closed (rs_ledger s) r) →
  (∀ s', rebate_ok s' → k ∈ rs_guards s' → rs_batches s' !! k = Some (with_batch_state b BatchState.Guarded) → outcome c Q s') →
  (∀ s' e, rebate_ok s' → Q (Err e) s') →
  outcome (let b' := with_batch_state b BatchState.Guarded in _ ← set_batch k b'; _ ← save b'; c) Q s.
Proof.
  intros Hok Hb Hi Hg Hc Hf He. cbv zeta. apply (set_save_outcome s k b); [done|done| | | |].
  - apply guarded_next; try done. by apply interrupted_not_ready.
  - intros b' _ Ht. by apply tracks_guarded.
  - intros s' Hok' [_ Hg'] Hm. apply Hf; [done|by rewrite Hg'|]. rewrite Hm. apply lookup_insert_eq.
  - intros s' e Hok' _ _. by apply He.
Qed.

(** Signing and publishing the work whose inventory is held. *)
Lemma publish_outcome s k b plan r w input :
  rebate_ok s → rs_batches s !! k = Some b → rb_state b = BatchState.Preparing plan r → k ∈ rs_guards s →
  strat_key (in_strategy input) = k → r = in_reservation_id input → evaluation_ok w input →
  state_valid b → is_u256 (rp_out plan) → rp_strategy plan = k → rp_batch plan = rb_id b →
  held_for (rs_ledger s) r (rb_id b) plan →
  outcome (match w_build w (in_strategy input) plan r (in_deadline_block input) (in_published_at input) with
    | Err e => _ ← release_if_held r; let b' := with_batch_state b BatchState.Guarded in
               _ ← set_batch k b'; _ ← save b'; fail (ECallBuilder e)
    | Ok execution =>
        let ready := with_batch_state b (BatchState.Ready execution) in
        saved ← attempt (save ready);
        match saved with
        | Err e => _ ← release_if_held r; fail e
        | Ok _ => _ ← set_batch k ready; mret (Ready plan)
        end
    end) (evaluated k) s.
Proof.
  intros Hok Hb Hs Hg Hk -> Hev Hval Hu Hps Hpb Hheld. set (r := in_reservation_id input) in *.
  assert (Ha : active_reservation (rb_state b) = Some r) by (by rewrite Hs).
  destruct (live_own _ _ _ _ Hok Hb Ha) as [Ho Hr0]. pose proof (live_strategy _ _ _ Hok Hb) as Hbk.
  assert (Hnr : ∀ e, rb_state b ≠ BatchState.Ready e) by (rewrite Hs; done).
  destruct (live_durable _ _ _ Hok Hb) as [Hacc Hw].
  destruct (w_build w _ plan r _ _) as [e|err] eqn:He.
  - pose proof (eval_builder _ _ Hev _ _ _ _ _ _ He) as (Hsound & Hep & Her & _ & _ & _ & _ & _ & _ & Hin).
    cbv zeta. apply (attempt_save_set_outcome s k b _ _ (λ e, _ ← release_if_held r; fail e)); [done|done| | |].
    + constructor; try done.
      * by apply accruals_valid_state.
      * unfold state_valid in *. cbn. rewrite Hs in Hval. rewrite Hep. split; [by apply plan_matches_fits|].
        by eapply (built_ready (with_batch_state b _)); [apply Hev|exact He|..]; cbn; [|congruence].
      * intros e' [= <-]. by rewrite Hep.
      * intros r' [= <-]. by rewrite Her.
      * intros e' [= <-]. by rewrite Hep, Her.
      * intros r' Hr'. left. cbn. congruence.
      * by apply (not_settling s k b).
    + intros s' Hok' [_ Hg'] Hm _. apply outcome_ret. split; [done|]. rewrite Hg'. split; [done|].
      exists (with_batch_state b (BatchState.Ready e)), e. rewrite Hm, lookup_insert_eq. done.
    + intros s' err Hok' _ Hm _. apply outcome_bind.
      eapply outcome_mono; [apply (release_outcome s' k b r); try done; by rewrite Hm|].
      intros [[]|err'] s2 (Hok2 & _); [by apply outcome_fail|done].
  - apply outcome_bind. eapply outcome_mono; [by apply (release_outcome s k b r)|].
    intros [[]|err'] s2 (Hok2 & (l & ->) & Hres); [|done]. apply (back_to_guarded (put_ledger s l) k b); try done.
    + exists r. right. eauto.
    + intros r' Hr'. by assert (r' = r) as -> by congruence.
Qed.

(** Holding the inventory of a persisted intent. *)
Lemma hold_outcome s k b plan r w input :
  rebate_ok s → rs_batches s !! k = Some b → rb_state b = BatchState.Preparing plan r → evaluation_ok w input →
  is_u256 (rp_out plan) → rp_strategy plan = k →
  outcome (with_ledger (reserve_rebate (w_budget_of w) (w_now w) r (rb_id b)
             [Build_ReservationSource (key_maker k) (key_hash k) (rp_token_out plan) (rp_out plan)]
             (in_reservation_ttl_secs input)))
    (λ res s', rebate_ok s' ∧ (∃ l, s' = put_ledger s l) ∧
      match res with
      | Ok _ => held_for (rs_ledger s') r (rb_id b) plan
      | Err _ => holds (rs_ledger s') = holds (rs_ledger s)
      end) s.
Proof.
  intros Hok Hb Hs Hev Hu Hk. unfold with_ledger. apply outcome_zoom. destruct (eval_now _ _ Hev) as [Hnow Httl].
  eapply outcome_mono; [apply reserve_rebate_outcome; [by apply inv_ledger|apply Hev|done|done|by apply single_source_ok]|].
  intros res l [Hl Hres]. change (mk_rebate_service _ _ _ _) with (put_ledger s l). destruct res as [[]|e]; cbn [map_err].
  - destruct Hres as [Hn Hh]. split_and!; [|by exists l|].
    + eapply (rebate_reserve_ok s l k b r); [done|done|by rewrite Hs|by rewrite Hs|done|done|exact Hh|done|done].
    + eexists. cbn. rewrite Hh, lookup_insert_eq. split_and!; try done. unfold plan_source. by rewrite Hk.
  - split_and!; [by apply same_holds_ok|by exists l|done].
Qed.

(** An id of the batch that it does not name yet is not held, so a failed reservation leaves it unheld. *)
Lemma prepare_next s k b plan r :
  rebate_ok s → rs_batches s !! k = Some b → active_reservation (rb_state b) = None → k ∈ rs_guards s →
  plan_fits plan b → own r (rb_id b) → r ≠ 0 →
  admissible_next s k b (with_batch_state b (BatchState.Preparing plan r)).
Proof.
  intros Hok Hb Ha Hg Hp Ho Hr. destruct (live_durable _ _ _ Hok Hb) as [Hv Hw]. constructor; try done.
  - by apply accruals_valid_state.
  - by intros r' [= <-].
  - intros r' Hr'. congruence.
  - apply (not_settling s k b); [done..|]. intros e He. by rewrite He in Ha.
Qed.

Lemma evaluate_ready_outcome s b plan w input :
  let k := strat_key (in_strategy input) in
  rebate_ok s → rs_batches s !! k = Some b → active_reservation (rb_state b) = None → evaluation_ok w input →
  own (in_reservation_id input) (rb_id b) → plan_fits plan b → is_u256 (rp_out plan) → rp_strategy plan = k →
  outcome (evaluate_ready w input b plan) (evaluated k) s.
Proof.
  intros k Hok Hb Ha Hev Ho Hp Hu Hk. unfold evaluate_ready. fold k. set (r := in_reservation_id input) in *.
  unfold guard_strategy, set_guards. apply outcome_modify. pose proof (guard_ok s k Hok) as Hok1.
  change (mk_rebate_service _ _ _ _) with (put_guards s (guard (rs_guards s) k)). set (s1 := put_guards s _) in *.
  assert (Hg1 : k ∈ rs_guards s1) by (cbn; unfold guard; set_solver).
  cbv zeta. set (next := with_batch_state b (BatchState.Preparing plan r)).
  apply (save_set_outcome s1 k b); [done|done|apply prepare_next; try done; apply Hev| |done].
  intros s2 Hok2 [Hl2 Hg2] Hm2 _. assert (Hb2 : rs_batches s2 !! k = Some next) by (rewrite Hm2; apply lookup_insert_eq).
  assert (Hpb : rp_batch plan = rb_id b).
  { unfold plan_fits, plan_matches_batch in Hp. cbn in Hp. by destruct (Z.eqb_spec (rp_batch plan) (rb_id b)). }
  apply outcome_attempt. eapply outcome_mono; [by apply (hold_outcome s2 k next plan r w input)|].
  intros res s3 (Hok3 & (l & ->) & Hres). rewrite <-Hg2 in Hg1. destruct res as [[]|e].
  - by apply (publish_outcome _ k next plan r).
  - assert (Hc : closed l r).
    { intros x. cbn in Hres. rewrite Hres, Hl2. apply (closed_inactive s1 k b); [done..|]. by rewrite Ha. }
    destruct e as [?|?|[[]|?|]|?| |?]; try by apply outcome_fail.
    apply (back_to_guarded (put_ledger s2 l) k next); [done|done|exists r; right; eauto|done|by intros r' [= <-]| |done].
    intros s' Hok' Hg' Hb'. apply outcome_ret. split; [done|]. split; [done|]. by eexists.
Qed.

Lemma evaluate_outcome s w input :
  let k := strat_key (in_strategy input) in
  rebate_ok s → evaluation_ok w input →
  (∀ b, rs_batches s !! k = Some b → own (in_reservation_id input) (rb_id b)) →
  outcome (evaluate policy config catalog w input) (evaluated k) s.
Proof.
  intros k Hok Hev Hown. unfold evaluate. fold k. apply outcome_gets.
  destruct (rs_batches s !! k) as [b0|] eqn:Hb0; [|done]. specialize (Hown b0 eq_refl).
  cbn [ok_or]. apply outcome_lift_bind. apply outcome_bind.
  eapply outcome_mono; [by apply finish_interrupted_outcome|]. clear Hok Hb0.
  intros res s1 (Hok & _ & Hres). destruct res as [b|e]; [|done]. destruct Hres as (_ & Hb & Hni & Hcase).
  assert (Hid : rb_id b = rb_id b0) by (destruct Hcase as [[-> _]| ->]; done). rewrite <-Hid in Hown. clear Hcase Hid b0 s.
  rename s1 into s. destruct (ready_or_not b) as [(e & Hs)|Hnr].
  { rewrite Hs. apply outcome_ret. split; [done|]. split; [|by exists b, e].
    apply (inv_guarded _ Hok k b Hb). by rewrite Hs. }
  assert (Ha : active_reservation (rb_state b) = None).
  { destruct (rb_state b) as [| |plan r|e|r]; [done|done|..].
    - destruct Hni. exists r. right. by exists plan.
    - by destruct (Hnr e).
    - destruct Hni. exists r. by left. }
  destruct (live_durable _ _ _ Hok Hb) as [Hv Hw].
  assert (Hgo : outcome (
      '(market, requirements) ← lift (economics config catalog w (in_strategy input) (in_minimums input));
      assessment ← lift (map_err ERebate (assess policy (rb_id b) (values (rb_accruals b)) (in_strategy input)
                                            (in_caps input) market requirements));
      match assessment with
      | Quoteable deviation =>
          let next := with_batch_state b BatchState.Accumulating in
          _ ← save next; _ ← set_batch k next; _ ← unguard_strategy k; mret (Quoteable deviation)
      | Guarded deviation =>
          _ ← guard_strategy k; let next := with_batch_state b BatchState.Guarded in
          _ ← save next; _ ← set_batch k next; mret (Guarded deviation)
      | Ready plan => evaluate_ready w input b plan
      end) (evaluated k) s).
  2: { destruct (rb_state b) as [| | |e|] eqn:Hs; try exact Hgo. by destruct (Hnr e). }
  apply outcome_lift_bind. destruct (economics _ _ _ _ _) as [[market rqs]|e] eqn:Hec; [|done].
  apply outcome_lift_bind. destruct (assess _ _ _ _ _ _ _) as [[dev|dev|plan]|e] eqn:Has; [..|done]; cbn [map_err]; cbv zeta.
  - apply (save_set_outcome s k b); [done|done| | |done].
    + constructor; try done; [by apply accruals_valid_state|intros; congruence|by apply (not_settling s k b)].
    + intros s' Hok' [_ Hg'] Hm _. unfold unguard_strategy, set_guards. apply outcome_modify. apply outcome_ret.
      assert (Hl : rs_batches s' !! k = Some (with_batch_state b BatchState.Accumulating)) by (rewrite Hm; apply lookup_insert_eq).
      split; [|split]; cbn.
      * apply (unguard_ok s' k); [done|]. intros c Hc. by simplify_eq.
      * unfold unguard. set_solver.
      * eexists. split; [exact Hl|done].
  - unfold guard_strategy, set_guards. apply outcome_modify. pose proof (guard_ok s k Hok) as Hok1.
    change (mk_rebate_service _ _ _ _) with (put_guards s (guard (rs_guards s) k)). set (s1 := put_guards s _) in *.
    assert (Hg1 : k ∈ rs_guards s1) by (cbn; unfold guard; set_solver).
    apply (save_set_outcome s1 k b); [done|done| | |done].
    + apply guarded_next; try done. intros; congruence.
    + intros s' Hok' [_ Hg'] Hm _. apply outcome_ret. split; [done|]. rewrite Hg', Hm, lookup_insert_eq. split; [done|]. by eexists.
  - destruct (assess_plan_matches policy b _ _ _ _ _ (eval_assessable _ _ Hev)
      (economics_requirements _ _ _ _ _ _ _ Hec (eval_minimums _ _ Hev)) Hv Hw (live_strategy _ _ _ Hok Hb) Has) as (Hp & Hu & Hk).
    by apply evaluate_ready_outcome.
Qed.

End evaluate.
