(* ===== verification/RebateSharedLedger.v ===== *)
(** * The shared ledger

    The rebate service shares its ledger with the swap path.  Ledger commands on
    reservations that no batch owns, the sweep of expired swaps and the budget sync leave
    every hold of a batch alone, so they preserve the invariant of the rebate service. *)

From Stdlib Require Import String.
From S2P Require Import Prelude Commands U256 Reservation LedgerEngine LedgerInvariant LedgerProperties LedgerStore LedgerService LedgerHolds Ratio CurveDecode Curves Registry Candidates RebatePolicy RebateStore RebateCall RebateService RebateServiceInvariant.

#[local] Open Scope Z_scope.

Section shared.
Context {LSt : Type} `{HS : LedgerStore LSt} `{HL : !LedgerStoreLaws LSt} `{HI : RebateReservationIds}.
Implicit Types (l : LedgerService LSt) (r : ReservationId).

(** A reservation id that belongs to no batch. *)
Definition unowned r : Prop := ∀ bid, ¬ own r bid.

(** The commands of the swap path. *)
Definition swap_command l (c : service_command) : Prop :=
  service_command_ok l c ∧
  match c with
  | SReserve x _ => (∀ bid, res_owner x ≠ Rebate bid) ∧ unowned (res_id x)
  | SCommit r | SPost r _ | SVoid r | SExpire r | SVoidReorg r => unowned r
  | SSweep _ _ | SSync _ => True
  end.

(** The holds that batches own are the same. *)
Definition spares l l' : Prop :=
  ∀ r, holds l' !! r = holds l !! r
       ∨ (unowned r ∧ ∀ x bid, holds l' !! r = Some x → res_owner x ≠ Rebate bid).

(** Owners and ids agree, as in [inv_ids]. *)
Definition owners_ok l : Prop := ∀ r x bid, holds l !! r = Some x → own r bid ↔ res_owner x = Rebate bid.

Lemma spares_refl l : spares l l.
Proof. intros r. by left. Qed.

Lemma spares_same l l' : holds l' = holds l → spares l l'.
Proof. intros Hh r. left. by rewrite Hh. Qed.

Lemma spares_trans l1 l2 l3 : spares l1 l2 → spares l2 l3 → spares l1 l3.
Proof. intros H12 H23 r. destruct (H23 r) as [->|?]; [apply H12|by right]. Qed.

Lemma spares_owners l l' : owners_ok l → spares l l' → owners_ok l'.
Proof.
  intros Ho Hsp r x bid Hx. destruct (Hsp r) as [Heq|[Hun Hne]].
  - apply Ho. by rewrite <-Heq.
  - split; [intros Hown; by destruct (Hun bid)|intros Heq; by destruct (Hne x bid Hx)].
Qed.

(** A state change of a swap's reservation. *)
Lemma spares_move l l' from to r :
  owners_ok l → unowned r → holds l' = durable_move from to r (holds l) → spares l l'.
Proof.
  intros Ho Hun Hh r'. rewrite Hh. unfold durable_move. destruct (holds l !! r) as [x|] eqn:Hx; [|by left].
  case_decide; [|by left]. destruct (decide (r' = r)) as [->|Hne]; [|left; by rewrite lookup_insert_ne].
  right. split; [done|]. intros y bid. rewrite lookup_insert_eq. intros [= <-] Heq. cbn in Heq.
  by apply (Hun bid), (Ho r x bid Hx).
Qed.

Lemma spares_store_then_ledger (op : cmd LSt LedgerStoreError unit) f from to l r :
  owners_ok l → unowned r →
  reservations (f (svc_ledger l)).2 = durable_move from to r (holds l) →
  spares l ((_ ← on_store op; _ ← on_ledger f; publish) l).2.
Proof.
  intros Ho Hun Hf. rewrite store_then_ledger. destruct (op (svc_store l)) as [[[]|e] st]; [|by apply spares_same].
  destruct (f (svc_ledger l)) as [[[]|e] l'] eqn:Hfl; by apply (spares_move _ _ from to r).
Qed.

(** The sweep moves only the ids it was given. *)
Lemma sweep_loop_spares ids acc l :
  owners_ok l → Forall unowned ids → spares l (sweep_loop ids acc l).2.
Proof.
  intros Ho Hids. revert acc l Ho. induction Hids as [|r ids Hr _ IH]; intros acc l Ho; [apply spares_refl|].
  cbn [sweep_loop]. unfold mbind, cmd_bind, gets, on_store.
  destruct (store_expire r (svc_store l)) as [[[]|e] st]; cbn; [|by apply spares_same].
  pose proof (expire_move (svc_ledger l) r) as Hmv. unfold on_ledger. cbn [svc_ledger svc_store svc_available].
  destruct (LedgerEngine.expire (svc_ledger l) r) as [[[]|e] l'] eqn:He; cbn in *.
  - assert (Hsp : spares l (mk_service l' st (svc_available l))) by (by apply (spares_move _ _ [Pending] Expired r)).
    eapply spares_trans; [exact Hsp|]. apply IH. by eapply spares_owners.
  - by apply (spares_move _ _ [Pending] Expired r).
Qed.

Lemma expired_swaps_unowned l now r :
  service_ok l → owners_ok l → r ∈ expired_swaps_as_of (svc_ledger l) now → unowned r.
Proof.
  intros Hok Ho (x & -> & Hx)%list_elem_of_fmap. apply list_elem_of_filter in Hx as [(_ & _ & Hsw) Hx].
  apply elem_of_values in Hx as (id & Hx). pose proof (ok_id _ (service_ledger_ok _ Hok) _ _ Hx) as Hid. intros bid Hown.
  rewrite Hid in Hown. apply (Ho id x bid Hx) in Hown. by rewrite Hown in Hsw.
Qed.

Lemma swap_command_spares l c :
  service_ok l → owners_ok l → swap_command l c → spares l (service_exec c l).2.
Proof.
  intros Hok Ho [Hc Hs]. destruct c as [x bs|r|r fills|r|r|r|now ex|[bs|e]]; cbn [service_exec].
  - destruct Hs as [Hne Hun]. unfold reserve_owned, mbind, cmd_bind.
    destruct (feed_budgets_spec bs l) as (lg & -> & _ & Hres & _). unfold on_ledger. cbn [svc_ledger svc_store svc_available].
    destruct (can_reserve lg x) as [[]|e] eqn:Hcan; cbn; [|by apply spares_same].
    unfold on_store. cbn [svc_store]. destruct (store_reserve x (svc_store l)) as [[[]|e] st]; cbn; [|by apply spares_same].
    apply can_reserve_fresh in Hcan. intros r. unfold holds. cbn. unfold restore. rewrite Hcan. cbn. rewrite Hres.
    destruct (decide (r = res_id x)) as [->|Hr]; [|left; by rewrite lookup_insert_ne].
    right. split; [done|]. intros y bid. rewrite lookup_insert_eq. by intros [= <-].
  - apply (spares_store_then_ledger _ _ [Pending] Committed _ r); [done..|apply commit_move].
  - apply (spares_store_then_ledger _ _ [Pending; Committed] Posted _ r); [done..|]. apply post_move. apply Hc.
  - apply (spares_store_then_ledger _ _ [Pending; Committed] Voided _ r); [done..|apply void_move].
  - apply (spares_store_then_ledger _ _ [Pending] Expired _ r); [done..|apply expire_move].
  - apply (spares_store_then_ledger _ _ [Posted] ReorgOpen _ r); [done..|apply void_reorg_move].
  - unfold sweep_expired, mbind, cmd_bind, gets. set (ids := filter _ _).
    assert (Hids : Forall unowned ids).
    { apply Forall_forall. intros r [_ Hr]%list_elem_of_filter. by eapply expired_swaps_unowned. }
    pose proof (sweep_loop_spares ids [] l Ho Hids) as Hsp.
    destruct (sweep_loop ids [] l) as [[swept|e] l']; cbn in *; [|done]. by destruct (negb _).
  - by apply spares_same.
  - by apply spares_same.
Qed.

Context {RSt : Type} `{HW : RebateWire} `{HR : RebateStore RSt} `{HRL : !RebateStoreLaws RSt} `{HH : RebateHistory}.
Implicit Types (s : RebateService LSt RSt).

Lemma spares_ok s l : rebate_ok s → service_ok l → spares (rs_ledger s) l → rebate_ok (put_ledger s l).
Proof.
  intros Hok Hl Hsp. pose proof (spares_owners _ _ (inv_ids _ Hok) Hsp) as Ho.
  assert (Hsame : ∀ r bid, own r bid → holds l !! r = holds (rs_ledger s) !! r).
  { intros r bid Hown. destruct (Hsp r) as [?|[Hun _]]; [done|by destruct (Hun bid)]. }
  pose proof Hok as Hok0. destruct Hok as [? ? ? ? ? ? Hready Howned ? ? ? ?]. constructor; try done; cbn.
  - intros k b e Hb He. assert (Hown : own (ex_reservation e) (rb_id b)).
    { apply (live_own s k b _ Hok0 Hb). by rewrite He. }
    pose proof (Hsame _ _ Hown) as Heq. destruct (Hready k b e Hb He) as [(x & Hx & Hrest)|[Hset Hc]]; [left; exists x; by rewrite Heq|].
    right. split; [done|]. intros x. rewrite Heq. apply Hc.
  - intros r x bid Hx Hrb. assert (Hown : own r bid) by (by apply (Ho r x bid Hx)).
    rewrite (Hsame _ _ Hown) in Hx. by apply Howned.
Qed.

(** The swap path does not disturb the rebate service. *)
Lemma swap_command_ok s c :
  rebate_ok s → swap_command (rs_ledger s) c → rebate_ok (put_ledger s (service_exec c (rs_ledger s)).2).
Proof.
  intros Hok Hc. pose proof (inv_ledger _ Hok) as Hl. apply spares_ok; [done|by apply service_exec_ok, Hc|].
  apply swap_command_spares; [done|exact (inv_ids _ Hok)|done].
Qed.

End shared.
