(* ===== verification/RebateRecovery.v ===== *)
(** * Recovery of the rebate service

    A restart loses the live batches and the guard and rebuilds the ledger from its store.
    [recover] of [crates/core/src/rebate/service.rs] completes the settlements that were
    recorded, finishes the interrupted transitions and withholds every open strategy again. *)

From Stdlib Require Import String.
From S2P Require Import Prelude Commands U256 Reservation LedgerEngine LedgerInvariant LedgerProperties LedgerStore LedgerService LedgerHolds Ratio CurveDecode Curves Registry Candidates RebatePolicy RebateStore RebateCall RebateService RebateServiceInvariant RebateServiceSteps RebateServiceClosing.

#[local] Open Scope Z_scope.

Section recovery.
Context {LSt RSt : Type} `{HS : LedgerStore LSt} `{HL : !LedgerStoreLaws LSt}.
Context `{HW : RebateWire} `{HR : RebateStore RSt} `{HRL : !RebateStoreLaws RSt} `{HI : RebateReservationIds} `{HH : RebateHistory}.
Implicit Types (s : RebateService LSt RSt) (k : StrategyKey) (b : RebateBatch) (r : ReservationId).

(** The service that memory would be if it held exactly what is durable, every open strategy guarded. *)
Definition durable_memory s : gmap StrategyKey RebateBatch := v_open (durable_view s).
Definition shadow s : RebateService LSt RSt :=
  mk_rebate_service (durable_memory s) (rs_ledger s) (dom (durable_memory s)) (rs_store s).

(** What holds while recovery runs, whatever memory holds. *)
Definition recovering s : Prop := rebate_ok (shadow s).

(** ** The restart *)

Lemma open_view_Some (m : gmap ReservationId Reservation) r x :
  open_view m !! r = Some x ↔ m !! r = Some x ∧ is_open (res_state x).
Proof. unfold open_view. apply map_lookup_filter_Some. Qed.

(** After a crash, with a ledger that has every open hold and no other than before. *)
Lemma crash_recovering s l :
  rebate_ok s → service_ok l → holds l ⊆ holds (rs_ledger s) → open_view (holds (rs_ledger s)) ⊆ holds l →
  recovering (mk_rebate_service ∅ l ∅ (rs_store s)).
Proof.
  intros Hok Hl Hsubm Hopenm. assert (Hsub : ∀ r x, holds l !! r = Some x → holds (rs_ledger s) !! r = Some x).
  { intros r x Hx. by eapply lookup_weaken. }
  assert (Hclosed : ∀ r, closed (rs_ledger s) r → closed l r).
  { intros r Hc x Hx%Hsub. by apply Hc. }
  assert (Hready : ∀ k b e, v_open (durable_view s) !! k = Some b → rb_state b = BatchState.Ready e → rs_batches s !! k = Some b).
  { intros k b e Hb He. destruct (inv_live _ Hok _ _ Hb) as [c Hc]. destruct (inv_tracked _ Hok _ _ Hc) as (b' & Hb' & [Heq Ht]).
    assert (b' = b) as -> by congruence. destruct Ht as [Ht|[[_ (r & [?|[? ?]])]|(? & ? & _ & ?)]]; [|congruence..].
    assert (b = c) as -> by (rewrite Heq, Ht; by destruct c). done. }
  unfold recovering, shadow, durable_memory. unfold durable_view in *. cbn. constructor; unfold durable_view; cbn.
  - apply inv_store, Hok.
  - done.
  - intros k b Hb. exists b. split; [done|apply tracks_refl].
  - eauto.
  - intros k b Hb _. by apply elem_of_dom_2 in Hb.
  - apply (inv_durable _ Hok).
  - intros k b e Hb He. destruct (inv_ready _ Hok k b e (Hready _ _ _ Hb He) He) as [(x & Hx & Hp & Hrest)|[Hset Hc]].
    + left. exists x. split; [|done]. eapply lookup_weaken; [|exact Hopenm]. apply open_view_Some. split; [done|].
      unfold is_open. rewrite Hp. auto.
    + right. auto.
  - intros r x bid Hx%Hsub Ho Hop. destruct (inv_owned _ Hok r x bid Hx Ho Hop) as (Hp & k & b & Hb & Hid & Ha).
    split; [done|]. destruct (inv_tracked _ Hok _ _ Hb) as (b' & Hb' & Ht). exists k, b'. split_and!; [done| |by eapply tracks_active].
    destruct (tracks_fields _ _ Ht) as [-> _]. done.
  - intros r x bid Hx%Hsub. by apply (inv_ids _ Hok).
  - intros id x Hx. destruct (inv_settling _ Hok id x Hx) as (Hv & k & b & e & Hb & Hid & He & Hrest). split; [done|].
    exists k, b, e. split; [|done]. by destruct (live_ready _ _ _ _ Hok Hb He) as [? _].
  - apply (inv_observed _ Hok).
  - apply (inv_past _ Hok).
Qed.

(** ** Commands that do not read memory *)

Definition reframe s s0 : RebateService LSt RSt := mk_rebate_service (rs_batches s0) (rs_ledger s) (rs_guards s0) (rs_store s).

(** The command runs the same whatever batches and guards are in memory, and leaves them alone. *)
Definition blind {A} (c : cmd (RebateService LSt RSt) RebateServiceError A) : Prop :=
  ∀ s s0, c (reframe s s0) = ((c s).1, reframe (c s).2 s0) ∧ reframe (c s).2 s = (c s).2.

Lemma blind_ledger {A} (c : cmd (LedgerService LSt) SolventError A) : blind (with_ledger c).
Proof. intros s s0. unfold with_ledger, zoom, reframe. cbn. by destruct (c (rs_ledger s)). Qed.

Lemma blind_store {A} (c : cmd RSt RebateStoreError A) : blind (with_store c).
Proof. intros s s0. unfold with_store, zoom, reframe. cbn. by destruct (c (rs_store s)). Qed.

Lemma blind_post x : blind (post_settlement x).
Proof.
  intros s s0. unfold post_settlement, mbind, cmd_bind, gets. cbn.
  destruct (reservation_sources _ _); [apply blind_ledger|by destruct s].
Qed.

Lemma blind_release r : blind (release_if_held r).
Proof.
  intros s s0. unfold release_if_held, mbind, cmd_bind, gets. cbn.
  destruct (reservation_sources _ _); [apply blind_ledger|by destruct s].
Qed.

(** What such a command does to the shadow, it does to the service. *)
Lemma blind_outcome {A} (c : cmd (RebateService LSt RSt) RebateServiceError A) (Q : result RebateServiceError A → _ → Prop) s s0 :
  blind c → outcome c Q (reframe s s0) →
  outcome c (λ res s', Q res (reframe s' s0) ∧ rs_batches s' = rs_batches s ∧ rs_guards s' = rs_guards s) s.
Proof.
  intros Hb. destruct (Hb s s0) as [Heq Hre]. unfold outcome. rewrite Heq. cbn. intros HQ. split; [done|]. by rewrite <-Hre.
Qed.

Lemma shadow_reframe s : shadow s = reframe s (shadow s).
Proof. done. Qed.

Lemma reframe_shadow s s' : durable_view s' = durable_view s → reframe s' (shadow s) = shadow s'.
Proof. intros Hv. unfold reframe, shadow, durable_memory. cbn. by rewrite Hv. Qed.

Lemma guards_recovering s g : recovering (put_guards s g) ↔ recovering s.
Proof. done. Qed.

(** Some durable batch was prepared with a plan that asks for nothing: its validation refuses it. *)
Definition free_work s : Prop := ∃ k b, v_open (durable_view s) !! k = Some b ∧ free_plan b = true.

(** Errors that only a database failure produces. *)
Definition database_error (e : RebateServiceError) : Prop :=
  e = ERebateStore RebateDb ∨ ∃ se, e = ELedger (StoreFailed se).

(** ** Completing recorded settlements *)

(** A durable settlement of an open batch, found while recovering. *)
Lemma settling_open s id x :
  recovering s → v_settling (durable_view s) !! id = Some x →
  rp_batch (st_plan x) = id ∧ validate_settlement x = Ok tt ∧ event_matches_plan (st_event x) (st_plan x) = true ∧
  ∃ k b e, durable_memory s !! k = Some b ∧ rb_id b = id ∧ rb_state b = BatchState.Ready e
    ∧ st_plan x = ex_plan e ∧ st_reservation x = ex_reservation e
    ∧ block_number (st_event x) ≤ deadline_block (authorization e).
Proof.
  intros Hok Hx. destruct (inv_settling _ Hok id x Hx) as (Hv & Hrest).
  destruct (proj2 (proj2 (view_ok _ (inv_store _ Hok))) id x Hx) as [Hid _]. split_and!; try done.
  unfold validate_settlement in Hv. destruct (event_matches_plan _ _); [done|]. rewrite orb_true_r in Hv. done.
Qed.

Lemma recover_settlement_outcome s x :
  recovering s → v_settling (durable_view s) !! rp_batch (st_plan x) = Some x →
  outcome (_ ← post_settlement x; with_store (finish_settlement (rp_batch (st_plan x)))) (λ res s',
    recovering s' ∧ rs_guards s' = rs_guards s ∧
    match res with
    | Ok _ => v_settling (durable_view s') = delete (rp_batch (st_plan x)) (v_settling (durable_view s))
    | Err e => database_error e
    end) s.
Proof.
  intros Hok Hx. destruct (settling_open _ _ _ Hok Hx) as (_ & _ & Hm & k & b & e & Hb & Hid & Hs & Hp & Hr & _).
  apply outcome_bind. eapply outcome_mono.
  { eapply (blind_outcome _ _ s (shadow s)); [apply blind_post|]. rewrite <-shadow_reframe.
    eapply (post_settlement_outcome (shadow s) k b e x); [done|exact Hb|done| |done|].
    - rewrite Hid. by exists x.
    - rewrite <-Hp. by apply event_matches_out. }
  intros res s1 ((Hok1 & (l & Hl) & Hres) & _ & Hg1). destruct res as [[]|err].
  2: { split_and!; [|done|by right]. rewrite reframe_shadow in Hok1; [done|]. unfold reframe, put_ledger in Hl. injection Hl as _ Hst.
       unfold durable_view. by rewrite Hst. }
  destruct Hres as [Hc _]. assert (Hst : rs_store s1 = rs_store s) by (unfold reframe, put_ledger in Hl; by injection Hl).
  assert (Hv1 : durable_view s1 = durable_view s) by (unfold durable_view; by rewrite Hst).
  rewrite (reframe_shadow _ _ Hv1) in *. unfold with_store. apply outcome_zoom. unfold outcome.
  pose proof (finish_law (rp_batch (st_plan x)) (rs_store s1) (inv_store _ Hok1)) as Hlaw.
  fold (durable_view s1) in Hlaw. rewrite Hv1 in Hlaw.
  destruct (finish_settlement _ _) as [[[]|err] st]; cbn; destruct Hlaw as (Hsok & Hview & Hlaw).
  - split_and!; [|done|unfold durable_view; cbn; by rewrite Hview].
    assert (Hb1 : rs_batches (shadow s1) !! k = Some b) by (unfold shadow, durable_memory; cbn; by rewrite Hv1).
    assert (Hopen : v_open (view st) = delete k (durable_memory s1)).
    { rewrite Hview. cbn. unfold durable_memory. rewrite Hv1. rewrite <-Hid. apply map_eq. intros k'. apply option_eq. intros b'.
      rewrite map_lookup_filter_Some, lookup_delete_Some. cbn. split.
      - intros [Hb' Hne]. split; [|done]. intros <-. unfold durable_memory in Hb. congruence.
      - intros [Hne Hb']. split; [done|]. intros Heq. apply Hne. symmetry.
        apply (proj1 (proj2 (view_ok _ (inv_store _ Hok))) k' k b' b); done. }
    assert (Hrm := remove_ok (shadow s1) st k b Hok1 Hb1 Hsok).
    unfold recovering, shadow, durable_memory, durable_view. cbn. rewrite Hopen.
    replace (dom (delete k (durable_memory s1))) with (unguard (rs_guards (shadow s1)) k) by (cbn; by rewrite dom_delete_L).
    apply Hrm.
    + rewrite Hview. change (durable_view (shadow s1)) with (durable_view s1). rewrite Hv1. cbn. by rewrite Hid.
    + rewrite Hview. change (durable_view (shadow s1)) with (durable_view s1). rewrite Hv1. cbn. by rewrite Hid.
    + intros r. rewrite Hs. intros [= <-]. done.
    + change (durable_view (shadow s1)) with (durable_view s1). rewrite Hview, Hv1. by apply (finish_grows (shadow s)).
  - split_and!; [|done|left; by rewrite Hlaw].
    unfold recovering, shadow, durable_memory, durable_view. cbn. rewrite Hview, <-Hv1.
    apply (same_view_ok (shadow s1) st); [done..|]. by rewrite Hview, <-Hv1.
Qed.

(** Every recorded settlement is completed, or a database failed and the rest can be retried. *)
Lemma recover_settlements_outcome s xs :
  recovering s → NoDup ((λ x, rp_batch (st_plan x)) <$> xs) →
  (∀ id x, v_settling (durable_view s) !! id = Some x ↔ x ∈ xs ∧ rp_batch (st_plan x) = id) →
  outcome (recover_settlements xs) (λ res s', recovering s' ∧
    match res with Ok _ => v_settling (durable_view s') = ∅ | Err e => database_error e end) s.
Proof.
  revert s. induction xs as [|x xs IH]; intros s Hok Hnd Hall; cbn [recover_settlements].
  { apply outcome_ret. split; [done|]. apply map_empty. intros id. apply eq_None_not_Some. intros [x [Hx _]%Hall].
    by apply not_elem_of_nil in Hx. }
  rewrite fmap_cons in Hnd. apply NoDup_cons in Hnd as [Hnx Hnd].
  assert (Hx : v_settling (durable_view s) !! rp_batch (st_plan x) = Some x) by (apply Hall; split; [left|done]).
  destruct (settling_open _ _ _ Hok Hx) as (_ & Hv & _). apply outcome_lift_bind. rewrite Hv. cbn [map_err].
  unfold guard_strategy, set_guards. apply outcome_modify.
  change (mk_rebate_service _ _ _ _) with (put_guards s (guard (rs_guards s) (rp_strategy (st_plan x)))). set (s1 := put_guards s _).
  assert (Hgo : outcome (_ ← (_ ← post_settlement x; with_store (finish_settlement (rp_batch (st_plan x))));
      _ ← unguard_strategy (rp_strategy (st_plan x)); recover_settlements xs)
    (λ res s', recovering s' ∧ match res with Ok _ => v_settling (durable_view s') = ∅ | Err e => database_error e end) s1).
  { apply outcome_bind. eapply outcome_mono; [by apply (recover_settlement_outcome s1)|].
    intros [[]|e] s2 (Hok2 & _ & Hres); [|done]. unfold unguard_strategy, set_guards. apply outcome_modify. apply IH; [done|done|].
    intros id y. unfold durable_view in *. cbn [rs_store]. rewrite Hres, lookup_delete_Some.
    change (view (rs_store s1)) with (view (rs_store s)). rewrite Hall, elem_of_cons. split.
    - intros (Hne & [->|Hy] & <-); [done|auto].
    - intros [Hy <-]. split_and!; [|by right|done]. intros Heq. apply Hnx. rewrite Heq.
      by apply (list_elem_of_fmap_2 (λ x, rp_batch (st_plan x))). }
  unfold outcome, mbind, cmd_bind in *. by destruct (post_settlement x s1) as [[[]|e] s2].
Qed.

(** ** Reopening the batches *)

(** One durable batch joined the recovered ones and is not interrupted any more, or a database failed. *)
Definition reopened s k (res : result RebateServiceError RebateBatch) s' : Prop :=
  recovering s' ∧ v_settling (durable_view s') = ∅ ∧
  match res with
  | Ok b' => durable_memory s' = <[k := b']> (durable_memory s) ∧ rb_strategy b' = k ∧ ¬ interrupted (rb_state b')
      ∧ rs_guards s' = guard (rs_guards s) k
  | Err e => database_error e
  end.

Lemma not_interrupted_guarded : ¬ interrupted BatchState.Guarded.
Proof. intros (? & [|[? ?]]); done. Qed.

(** The durable half of ending an interrupted transition. *)
Lemma resave_outcome s k b :
  recovering s → v_settling (durable_view s) = ∅ → durable_memory s !! k = Some b → interrupted (rb_state b) →
  (∀ r, active_reservation (rb_state b) = Some r → closed (rs_ledger s) r) →
  outcome (let b' := with_batch_state b BatchState.Guarded in _ ← save b'; mret b')
    (λ res s', recovering s' ∧ v_settling (durable_view s') = ∅ ∧ rs_guards s' = rs_guards s ∧
      match res with
      | Ok b' => durable_memory s' = <[k := b']> (durable_memory s) ∧ b' = with_batch_state b BatchState.Guarded
      | Err e => database_error e
      end) s.
Proof.
  intros Hok Hset Hb Hi Hc. pose proof (live_strategy (shadow s) k b Hok Hb) as Hk. cbv zeta. set (b' := with_batch_state b _).
  assert (Hn : admissible_next (shadow s) k b b').
  { apply guarded_next; try done; [by apply interrupted_not_ready|by apply elem_of_dom_2 in Hb]. }
  apply outcome_bind. eapply outcome_mono.
  { eapply (blind_outcome _ _ s (shadow s)); [apply blind_store|]. rewrite <-shadow_reframe.
    apply save_outcome; [done|by eapply next_storable]. }
  intros res s3 ((st & Hs3 & Hsok & Hcase) & _ & Hg3).
  assert (rs_ledger s3 = rs_ledger s ∧ rs_store s3 = st) as [Hl3 Hst3] by (unfold reframe, put_store in Hs3; by injection Hs3).
  destruct res as [[]|e].
  - destruct Hcase as (Hview & Hat & _). assert (Hopen : durable_memory s3 = <[k := b']> (durable_memory s)).
    { unfold durable_memory at 1, durable_view. rewrite Hst3, Hview. by apply (view_save_live (shadow s) k b b'). }
    apply outcome_ret. split_and!; [| |done..].
    + unfold recovering, shadow. rewrite Hopen, dom_insert_lookup_L, Hl3, Hst3 by (by exists b).
      by apply (saved_ok (shadow s) st k b b').
    + unfold durable_view. by rewrite Hst3, Hview.
  - destruct Hcase as (Hview & se & -> & Hdb). assert (Hv3 : durable_view s3 = durable_view s) by (unfold durable_view; by rewrite Hst3).
    split_and!; [|by rewrite Hv3|done|].
    + unfold recovering, shadow, durable_memory. rewrite Hv3, Hl3, Hst3. by apply (same_view_ok (shadow s) st).
    + left. f_equal. apply (Hdb b); [by change (rb_strategy b') with (rb_strategy b); rewrite Hk|apply succeeds_state|].
      intros t a Ha'. right. change (rb_strategy b') with (rb_strategy b). rewrite Hk.
      destruct (proj1 (view_ok _ (inv_store _ Hok)) k b Hb) as (_ & _ & Hat). by apply Hat.
Qed.

Lemma recover_interrupted_outcome s k b r :
  recovering s → v_settling (durable_view s) = ∅ → durable_memory s !! k = Some b →
  active_reservation (rb_state b) = Some r → interrupted (rb_state b) →
  outcome (_ ← guard_strategy (rb_strategy b); _ ← release_if_held r;
           let b' := with_batch_state b BatchState.Guarded in _ ← save b'; mret b') (reopened s k) s.
Proof.
  intros Hok Hset Hb Ha Hi. pose proof (live_strategy (shadow s) k b Hok Hb) as Hk.
  rewrite Hk. unfold guard_strategy, set_guards. apply outcome_modify.
  change (mk_rebate_service _ _ _ _) with (put_guards s (guard (rs_guards s) k)). set (s1 := put_guards s _).
  destruct (live_own (shadow s) k b r Hok Hb Ha) as [Ho _]. pose proof (interrupted_not_ready _ Hi) as Hnr.
  apply outcome_bind. eapply outcome_mono.
  { eapply (blind_outcome _ _ s1 (shadow s1)); [apply blind_release|]. rewrite <-shadow_reframe.
    by apply (release_outcome (shadow s1) k b r). }
  intros res s2 ((Hok2 & (l & Hl) & Hres) & _ & Hg2).
  assert (Hst : rs_store s2 = rs_store s) by (unfold reframe, put_ledger in Hl; by injection Hl).
  assert (Hv2 : durable_view s2 = durable_view s1) by (unfold durable_view; by rewrite Hst).
  assert (Hm2 : durable_memory s2 = durable_memory s) by (unfold durable_memory; by rewrite Hv2).
  rewrite (reframe_shadow _ _ Hv2) in *. destruct res as [[]|e]; [|split_and!; [done|by rewrite Hv2|by right]].
  eapply outcome_mono.
  { apply (resave_outcome s2 k b); [done|by rewrite Hv2|by rewrite Hm2|done|].
    intros r' Hr'. by assert (r' = r) as -> by congruence. }
  intros res s3 (Hok3 & Hset3 & Hg3 & Hcase). split_and!; [done..|]. destruct res as [b'|e]; [|done].
  destruct Hcase as [Hopen ->]. rewrite Hopen, Hm2, Hg3, Hg2. split_and!; [done..|apply not_interrupted_guarded|done].
Qed.

Lemma recover_batch_outcome s k b :
  recovering s → v_settling (durable_view s) = ∅ → durable_memory s !! k = Some b →
  outcome (recover_batch b) (reopened s k) s.
Proof.
  intros Hok Hset Hb. pose proof (live_strategy (shadow s) k b Hok Hb) as Hk. unfold recover_batch.
  assert (Hkeep : ¬ interrupted (rb_state b) → reopened s k (Ok b) (put_guards s (guard (rs_guards s) k))).
  { intros Hni. split_and!; try done. by rewrite insert_id. }
  destruct (rb_state b) as [| |plan r|e|r] eqn:Hs.
  - rewrite Hk. unfold guard_strategy, set_guards. apply outcome_modify. apply outcome_ret. apply Hkeep. intros (? & [|[? ?]]); done.
  - rewrite Hk. unfold guard_strategy, set_guards. apply outcome_modify. apply outcome_ret. apply Hkeep. apply not_interrupted_guarded.
  - apply recover_interrupted_outcome; rewrite ?Hs; try done. exists r. eauto.
  - rewrite Hk. unfold guard_strategy, set_guards. apply outcome_modify. apply outcome_gets. cbn [rs_ledger].
    destruct (inv_ready _ Hok k b e Hb Hs) as [(x & Hx & Hp & _)|[Hin _]].
    2: { change (durable_view (shadow s)) with (durable_view s) in Hin. rewrite Hset, lookup_empty in Hin. by destruct Hin. }
    assert (Hrs : reservation_sources (rs_ledger s) (ex_reservation e) = Some (res_sources x)) by (apply reservation_sources_Some; eauto).
    rewrite Hrs. apply outcome_ret. apply Hkeep. intros (? & [|[? ?]]); done.
  - apply recover_interrupted_outcome; rewrite ?Hs; try done. exists r. eauto.
Qed.

(** The batches recovered so far are durable, guarded and settled in their state. *)
Record recovered_ok s (recovered : gmap StrategyKey RebateBatch) (rest : list RebateBatch) : Prop := {
  rec_ok : recovering s;
  rec_settled : v_settling (durable_view s) = ∅;
  rec_done : ∀ k b, recovered !! k = Some b → durable_memory s !! k = Some b ∧ k ∈ rs_guards s ∧ ¬ interrupted (rb_state b);
  rec_rest : ∀ b, b ∈ rest → durable_memory s !! rb_strategy b = Some b ∧ recovered !! rb_strategy b = None;
  rec_all : ∀ k b, durable_memory s !! k = Some b → recovered !! k = Some b ∨ b ∈ rest;
  rec_nodup : NoDup (rb_strategy <$> rest)
}.

Lemma recover_batches_outcome s bs recovered :
  recovered_ok s recovered bs →
  outcome (recover_batches bs recovered) (λ res s',
    match res with
    | Ok m => recovered_ok s' m []
    | Err e => recovering s' ∧ (database_error e ∨ e = ERebate PLAN_MISMATCH ∧ free_work s')
    end) s.
Proof.
  revert s recovered. induction bs as [|b bs IH]; intros s m Hrec; cbn [recover_batches]; [by apply outcome_ret|].
  destruct Hrec as [Hok Hset Hdone Hrest Hall Hnd]. destruct (Hrest b) as [Hb Hnew]; [by left|]. rewrite fmap_cons in Hnd.
  apply NoDup_cons in Hnd as [Hnx Hnd]. destruct (inv_durable _ Hok _ _ Hb) as [[Hv Hst _ _] _].
  apply outcome_lift_bind. rewrite (validate_batch_valid b Hv Hst). destruct (free_plan b) eqn:Hf; cbn [map_err].
  { split; [done|]. right. split; [done|]. by exists (rb_strategy b), b. }
   rewrite bool_decide_false by (rewrite Hnew; by intros [? ?]).
  apply outcome_bind. eapply outcome_mono; [by apply (recover_batch_outcome s (rb_strategy b) b)|].
  intros res s' (Hok' & Hset' & Hres). destruct res as [b'|e]; [|by auto]. destruct Hres as (Hmem & Hk & Hni & Hg).
  set (k := rb_strategy b) in *. apply IH. rewrite Hk. constructor; [done|done|..|done]; rewrite ?Hmem, ?Hg.
  - intros k' c [(<- & <-)|(Hne & Hc)]%lookup_insert_Some.
    + rewrite lookup_insert_eq. split_and!; [done| |done]. unfold guard. set_solver.
    + rewrite lookup_insert_ne by done. destruct (Hdone k' c Hc) as (? & ? & ?). split_and!; [done| |done]. unfold guard. set_solver.
  - intros c Hc. destruct (Hrest c) as [Hc1 Hc2]; [by right|]. assert (k ≠ rb_strategy c).
    { intros Heq. apply Hnx. fold k. rewrite Heq. by apply list_elem_of_fmap_2. }
    by rewrite !lookup_insert_ne.
  - intros k' c [(<- & <-)|(Hne & Hc)]%lookup_insert_Some; [left; apply lookup_insert_eq|].
    destruct (Hall k' c Hc) as [?|Hin]; [left; by rewrite lookup_insert_ne|].
    apply elem_of_cons in Hin as [->|?]; [|by right]. destruct Hne.
    pose proof (live_strategy (shadow s) k' b Hok Hc). done.
Qed.

(** All that was durable is live again, guarded, with nothing interrupted and nothing left to settle. *)
Definition recovered_to (res : result RebateServiceError unit) s' : Prop :=
  match res with
  | Ok _ => rebate_ok s' ∧ rs_batches s' = v_open (durable_view s') ∧ v_settling (durable_view s') = ∅
      ∧ ∀ k b, rs_batches s' !! k = Some b → k ∈ rs_guards s' ∧ ¬ interrupted (rb_state b)
  | Err e => recovering s' ∧ (database_error e ∨ e = ERebate PLAN_MISMATCH ∧ free_work s')
  end.

Lemma recovered_rebate_ok s m :
  recovered_ok s m [] → recovered_to (Ok tt) (put_batches s m).
Proof.
  intros [Hok Hset Hdone _ Hall _].
  assert (Heq : m = durable_memory s).
  { apply map_eq. intros k. apply option_eq. intros b. split; [apply Hdone|]. intros Hb.
    destruct (Hall k b Hb) as [?|Hin]; [done|by apply not_elem_of_nil in Hin]. }
  split_and!; [|done..|]; cbn; [|intros k b Hb; by destruct (Hdone k b Hb) as (_ & ? & ?)].
  pose proof Hok as [? ? ? ? ? ? ? ? ? ? ? ?]. rewrite Heq in *. constructor; try done.
  cbn. intros k b Hb _. by destruct (Hdone k b Hb) as (_ & ? & _).
Qed.

Lemma recover_outcome s : recovering s → outcome recover recovered_to s.
Proof.
  intros Hok. unfold recover, with_store. apply outcome_bind, outcome_zoom. unfold outcome at 1.
  pose proof (pending_law (rs_store s) (inv_store _ Hok)) as Hlaw.
  assert (Hput : ∀ s1 st, recovering s1 → rebate_store_ok st → view st = durable_view s1 →
    recovering (put_store s1 st) ∧ durable_view (put_store s1 st) = durable_view s1).
  { intros s1 st Hok1 Hst Hv. split; [|done]. unfold recovering, shadow, durable_memory, durable_view. cbn. rewrite Hv.
    by apply (same_view_ok (shadow s1) st). }
  destruct (pending_settlements (rs_store s)) as [[xs|e] st]; cbn; destruct Hlaw as (Hst & Hv & Hlaw).
  2: { destruct (Hput s st) as [? _]; [done..|]. split; [done|left; left; by rewrite Hlaw]. }
  destruct (Hput s st) as [Hok1 Hv1]; [done..|]. destruct Hlaw as [Hnd Hall].
  match goal with |- outcome _ _ ?x => change x with (put_store s st) end. apply outcome_bind.
  eapply outcome_mono; [apply (recover_settlements_outcome (put_store s st) xs); [done|done|]|].
  { intros id x. rewrite Hv1, Hall. fold (durable_view s). split; [|by intros [? <-]].
    intros Hx. destruct (settling_open s id x Hok Hx) as [<- _]. done. }
  clear Hv Hst Hnd Hall Hok1 Hv1. intros [[]|e] s1 [Hok1 Hset1]; [|split; [done|by left]].
  apply outcome_bind, outcome_zoom. unfold outcome at 1. pose proof (open_batches_law (rs_store s1) (inv_store _ Hok1)) as Hlaw.
  destruct (rebate_open_batches (rs_store s1)) as [[bs|e] st1]; cbn; destruct Hlaw as (Hst & Hv & Hlaw).
  2: { destruct (Hput s1 st1) as [? _]; [done..|]. split; [done|left; left; by rewrite Hlaw]. }
  destruct (Hput s1 st1) as [Hok2 Hv2]; [done..|]. destruct Hlaw as [Hnd Hall].
  match goal with |- outcome _ _ ?x => change x with (put_store s1 st1) end. apply outcome_bind.
  eapply outcome_mono; [apply (recover_batches_outcome (put_store s1 st1) bs ∅)|].
  { constructor; [done|by rewrite Hv2|done|..|done].
    - intros b Hb%Hall. split; [|done]. unfold durable_memory. by rewrite Hv2.
    - intros k b Hb. right. apply Hall. unfold durable_memory in Hb. rewrite Hv2 in Hb.
      by rewrite (live_strategy (shadow s1) k b Hok1 Hb). }
  intros [m|e] s2 Hrec; [|done]. by apply recovered_rebate_ok.
Qed.

End recovery.
