(* ===== verification/RebateWorker.v ===== *)
(** * The rebate worker

    [crates/core/src/rebate/worker.rs]: one tick reconciles the executions mined up to the
    safe head, takes in the confirmed legs that no batch has yet, and expires, discards or
    evaluates every open batch. *)

From Stdlib Require Import String.
From S2P Require Import Prelude Commands U256 Reservation LedgerEngine LedgerInvariant LedgerProperties LedgerStore LedgerService LedgerHolds Ratio CurveDecode Curves CurveProperties Registry Candidates Routing RebatePolicy RebateStore RebateCall RebateService RebateServiceInvariant RebateServiceSteps RebateServiceClosing RebateServiceEvaluate.

#[local] Open Scope Z_scope.

Definition INTAKE_BATCH_LIMIT : Z := 256.

Record RebateWorkerConfig := mk_worker_config {
  wc_chain : Z;
  start_block : Z;
  authorization_ttl_blocks : Z;
  wc_reservation_ttl_secs : Z
}.

Record RebateWorkerReport := mk_report { accrued : nat; evaluated_batches : nat; settled : nat; expired : nat }.

Inductive BatchOutcome : Type := Unchanged | Evaluated | Expired.

Inductive WorkerError : Type :=
| WService (e : RebateServiceError)
| WRebateStore (e : RebateStoreError)
| WRegistryEvents
| WAccrualSource
| WChainSource
| WOutOfFuel.

(** What one tick reads besides the service: the registry's event cursor, the accrual source over the shared database, the
    filler's log, the registry snapshot, the world of each evaluation and the clock. *)
Record WorkerWorld (RSt : Type) := mk_worker_world {
  ww_registry_cursor : option (option Z);
  ww_pending : RSt → Z → option (list RebateAccrual);
  ww_has_unsettled : StrategyKey → option bool;
  ww_fetch : Z → Z → option (list RebateExecutedEvent);
  ww_snapshot : Snapshot;
  ww_world : StrategyKey → RebateWorld;
  ww_now : Z
}.
Arguments ww_registry_cursor {RSt} _.
Arguments ww_pending {RSt} _ _ _.
Arguments ww_has_unsettled {RSt} _ _.
Arguments ww_fetch {RSt} _ _ _.
Arguments ww_snapshot {RSt} _.
Arguments ww_world {RSt} _ _.
Arguments ww_now {RSt} _.

Section worker.
Context {LSt RSt : Type} `{LedgerStore LSt} `{RebateWire} `{RebateStore RSt}.
Context (policy : RebatePolicyConfig) (service_config : RebateServiceConfig) (catalog : gmap Address Z).
Context (config : RebateWorkerConfig).

Abbreviation worker_cmd := (cmd (RebateService LSt RSt) WorkerError).

Definition on_service {A} (c : cmd (RebateService LSt RSt) RebateServiceError A) : worker_cmd A :=
  zoom (λ s, s) (λ _ s, s) WService c.

Definition on_rebate_store {A} (c : cmd RSt RebateStoreError A) : worker_cmd A :=
  zoom rs_store (λ s st, mk_rebate_service (rs_batches s) (rs_ledger s) (rs_guards s) st) WRebateStore c.

(** ** Reconciliation *)

Fixpoint settle_events (events : list RebateExecutedEvent) (now : Z) (n : nat) : worker_cmd nat :=
  match events with
  | [] => mret n
  | event :: events' =>
      ok ← on_service (settle event now);
      settle_events events' now (n + Nat.b2n ok)
  end.

Definition reconcile_executions (w : WorkerWorld RSt) (safe_head : Z) : worker_cmd nat :=
  cursor ← on_rebate_store (scan_cursor (wc_chain config));
  let from_block := match cursor with Some block => u64_saturating_add block 1 | None => start_block config end in
  if safe_head <? from_block then mret 0%nat
  else
    events ← lift (ok_or (ww_fetch w from_block safe_head) WChainSource);
    n ← settle_events events (ww_now w) 0;
    _ ← on_rebate_store (save_scan_cursor (wc_chain config) safe_head);
    mret n.

(** ** Intake *)

Fixpoint accrue_all (pending : list RebateAccrual) (n : nat) : worker_cmd nat :=
  match pending with
  | [] => mret n
  | accrual :: pending' => _ ← on_service (accrue accrual); accrue_all pending' (S n)
  end.

Fixpoint intake (fuel : nat) (w : WorkerWorld RSt) (n : nat) : worker_cmd nat :=
  match fuel with
  | O => fail WOutOfFuel
  | S fuel' =>
      st ← gets rs_store;
      pending ← lift (ok_or (ww_pending w st INTAKE_BATCH_LIMIT) WAccrualSource);
      n' ← accrue_all pending n;
      if Z.of_nat (List.length pending) <? INTAKE_BATCH_LIMIT then mret n' else intake fuel' w n'
  end.

(** ** One batch *)

Definition reservation_id_of (id : RebateBatchId) (deadline : Z) : ReservationId :=
  keccak256 (reservation_preimage id deadline).

Definition minimums_of (p : TokenPair) : list RebateMinimums := [mk_minimums (lo p) 1 1; mk_minimums (hi p) 1 1].

Definition process_batch (w : WorkerWorld RSt) (caps : AvailableSnapshot) (safe_head current_head : Z) (b : RebateBatch) :
    worker_cmd BatchOutcome :=
  match rb_state b with
  | BatchState.Ready _ =>
      expired ← on_service (expire_ready (rb_strategy b) safe_head);
      mret (if expired : bool then Expired else Unchanged)
  | _ =>
      waiting ← (if existsb (λ a, safe_head <? confirmed_block a) (values (rb_accruals b)) then mret true
                 else lift (ok_or (ww_has_unsettled w (rb_strategy b)) WAccrualSource));
      if waiting : bool then mret Unchanged
      else match strategies (ww_snapshot w) !! rb_strategy b with
      | None => mret Unchanged
      | Some strategy =>
          if negb (active strategy) then _ ← on_service (discard (rb_strategy b)); mret Unchanged
          else
            let deadline := u64_saturating_add current_head (authorization_ttl_blocks config) in
            _ ← on_service (evaluate policy service_config catalog (ww_world w (rb_strategy b))
                  (mk_evaluation strategy caps (minimums_of (rb_pair b)) (reservation_id_of (rb_id b) deadline)
                     (wc_reservation_ttl_secs config) deadline (ww_now w)));
            mret Evaluated
      end
  end.

(** The pass over the open batches: every batch is tried, the first error is kept. *)
Fixpoint process_all (w : WorkerWorld RSt) (caps : AvailableSnapshot) (safe_head current_head : Z) (bs : list RebateBatch)
    (report : RebateWorkerReport) (first_error : option WorkerError) :
    worker_cmd (RebateWorkerReport * option WorkerError) :=
  match bs with
  | [] => mret (report, first_error)
  | b :: bs' =>
      out ← attempt (process_batch w caps safe_head current_head b);
      let report' := match out with
        | Ok Evaluated => mk_report (accrued report) (S (evaluated_batches report)) (settled report) (expired report)
        | Ok Expired => mk_report (accrued report) (evaluated_batches report) (settled report) (S (expired report))
        | _ => report
        end in
      let first_error' := match out, first_error with Err e, None => Some e | _, _ => first_error end in
      process_all w caps safe_head current_head bs' report' first_error'
  end.

Definition tick (fuel : nat) (w : WorkerWorld RSt) (current_head : Z) : worker_cmd RebateWorkerReport :=
  cursor ← lift (ok_or (ww_registry_cursor w) WRegistryEvents);
  match cursor with
  | None => mret (mk_report 0 0 0 0)
  | Some registry_block =>
      let safe_head := Z.min current_head registry_block in
      n_settled ← reconcile_executions w safe_head;
      n_accrued ← intake fuel w 0;
      caps ← gets (λ s, svc_available (rs_ledger s));
      bs ← gets open_batches;
      '(report, first_error) ← process_all w caps safe_head current_head bs (mk_report n_accrued 0 n_settled 0) None;
      match first_error with
      | Some e => fail e
      | None => mret report
      end
  end.

End worker.

(** * The steps of the rebate worker

    A tick preserves the invariant of the service without assuming anything about recorded
    settlements: public work expires only after the blocks up to its deadline were scanned
    and every execution in them was settled. *)

(** ** Commands on one strategy *)

Create HintDb strategy_local.

Section locality.
Context {LSt RSt : Type} `{HS : LedgerStore LSt} `{HW : RebateWire} `{HR : RebateStore RSt}.
Implicit Types (s : RebateService LSt RSt) (k : StrategyKey).

(** The command leaves the live batches of other strategies alone. *)
Definition local_to {E A} k (c : cmd (RebateService LSt RSt) E A) : Prop :=
  ∀ s k', k' ≠ k → rs_batches (c s).2 !! k' = rs_batches s !! k'.

Lemma local_ret {E A} k (a : A) : local_to k (mret a : cmd _ E A).
Proof. done. Qed.

Lemma local_fail {E A} k e : local_to k (fail e : cmd _ E A).
Proof. done. Qed.

Lemma local_lift {E A} k (r : result E A) : local_to k (lift r).
Proof. done. Qed.

Lemma local_gets {E A} k (g : RebateService LSt RSt → A) : local_to k (gets g : cmd _ E A).
Proof. done. Qed.

Lemma local_bind {E A B} k (c : cmd (RebateService LSt RSt) E A) (f : A → cmd (RebateService LSt RSt) E B) :
  local_to k c → (∀ a, local_to k (f a)) → local_to k (c ≫= f).
Proof.
  intros Hc Hf s k' Hk. specialize (Hc s k' Hk). unfold mbind, cmd_bind. destruct (c s) as [[a|e] s'']; [|done].
  cbn in Hc. by rewrite (Hf a s'' k' Hk).
Qed.

Lemma local_attempt {E F A} k (c : cmd (RebateService LSt RSt) E A) : local_to k c → local_to k (attempt c : cmd _ F _).
Proof. intros Hc s k' Hk. specialize (Hc s k' Hk). unfold attempt. by destruct (c s). Qed.

Lemma local_ledger {A} k (c : cmd (LedgerService LSt) SolventError A) : local_to k (with_ledger c : cmd (RebateService LSt RSt) _ _).
Proof. intros s k' _. unfold with_ledger, zoom. by destruct (c (rs_ledger s)). Qed.

Lemma local_store {A} k (c : cmd RSt RebateStoreError A) : local_to k (with_store c).
Proof. intros s k' _. unfold with_store, zoom. by destruct (c (rs_store s)). Qed.

Lemma local_guards k f : local_to k (set_guards f).
Proof. done. Qed.

Lemma local_set k b : local_to k (set_batch k b).
Proof. intros s k' Hk. cbn. by rewrite lookup_insert_ne. Qed.

Lemma local_delete k : local_to k (set_batches (delete k)).
Proof. intros s k' Hk. cbn. by rewrite lookup_delete_ne. Qed.

End locality.

#[export] Hint Resolve local_ret local_fail local_lift local_gets local_attempt local_ledger local_store : strategy_local.
#[export] Hint Resolve local_guards local_set local_delete : strategy_local.
#[export] Hint Extern 2 (local_to _ (_ ≫= _)) => apply local_bind; [|intros ?] : strategy_local.
#[export] Hint Extern 1 (local_to _ (let _ := _ in _)) => cbv zeta : strategy_local.

(** Split on what a command matches on until only its statements are left. *)
Ltac strategy_local :=
  repeat first
    [ progress cbv zeta
    | solve [eauto with strategy_local]
    | apply local_bind; [|intros ?]
    | apply local_attempt
    | match goal with |- local_to _ (match ?x with _ => _ end) => destruct x end ].

Section local_operations.
Context {LSt RSt : Type} `{HS : LedgerStore LSt} `{HW : RebateWire} `{HR : RebateStore RSt}.
Context (policy : RebatePolicyConfig) (service_config : RebateServiceConfig) (catalog : gmap Address Z).

Lemma local_release k r : local_to k (release_if_held r : cmd (RebateService LSt RSt) _ _).
Proof. unfold release_if_held. strategy_local. Qed.
#[local] Hint Resolve local_release : strategy_local.

Lemma local_save k b : local_to k (save b : cmd (RebateService LSt RSt) _ _).
Proof. apply local_store. Qed.
#[local] Hint Resolve local_save : strategy_local.

Lemma local_finish k b : local_to k (finish_interrupted_transition k b : cmd (RebateService LSt RSt) _ _).
Proof. unfold finish_interrupted_transition, guard_strategy. strategy_local. Qed.
#[local] Hint Resolve local_finish : strategy_local.

Lemma local_expire k block : local_to k (expire_ready k block : cmd (RebateService LSt RSt) _ _).
Proof. unfold expire_ready. strategy_local. Qed.

Lemma local_discard k : local_to k (discard k : cmd (RebateService LSt RSt) _ _).
Proof. unfold discard, rebate_fail, unguard_strategy. strategy_local. Qed.

Lemma local_evaluate k w input :
  strat_key (in_strategy input) = k →
  local_to k (evaluate policy service_config catalog w input : cmd (RebateService LSt RSt) _ _).
Proof. intros <-. unfold evaluate, evaluate_ready, guard_strategy, unguard_strategy. strategy_local. Qed.

End local_operations.

(** ** Changing what is remembered *)

Definition history (p : RebateView) (obs : RebateExecutedEvent → Prop) : RebateHistory := {| past := p; observed := obs |}.

Section steps.
Context {LSt RSt : Type} `{HS : LedgerStore LSt} `{HL : !LedgerStoreLaws LSt}.
Context `{HW : RebateWire} `{HR : RebateStore RSt} `{HRL : !RebateStoreLaws RSt} `{HI : RebateReservationIds}.
Context (policy : RebatePolicyConfig) (service_config : RebateServiceConfig) (catalog : gmap Address Z).
Context (config : RebateWorkerConfig).
Implicit Types (s : RebateService LSt RSt) (k : StrategyKey) (b : RebateBatch) (r : ReservationId).

Lemma rehistory {H1 : RebateHistory} (H2 : RebateHistory) s :
  rebate_ok (HH := H1) s → grows (past (RebateHistory := H2)) (durable_view s) →
  (∀ id x, v_settling (durable_view s) !! id = Some x → observed (RebateHistory := H2) (st_event x)) →
  rebate_ok (HH := H2) s.
Proof. intros [] ? ?. by constructor. Qed.

(** The first block that is not scanned yet. *)
Definition scan_from (v : RebateView) : Z :=
  match v_cursor v !! wc_chain config with Some block => u64_saturating_add block 1 | None => start_block config end.

(** The filler's log, and the executions of it from a block on. *)
Context (log : RebateExecutedEvent → Prop).
Definition mined_from (block : Z) (ev : RebateExecutedEvent) : Prop := log ev ∧ block ≤ block_number ev.

(** Between ticks, a recorded settlement is of an execution that the next scan will return again. *)
Definition worker_ok s : Prop :=
  rebate_ok (HH := history (durable_view s) (mined_from (scan_from (durable_view s)))) s.

(** Once the blocks up to [safe_head] are reconciled, it is of an execution beyond them. *)
Definition beyond (v : RebateView) (safe_head : Z) (ev : RebateExecutedEvent) : Prop :=
  mined_from (scan_from v) ev ∧ safe_head < block_number ev.

Definition reconciled v safe_head s : Prop := rebate_ok (HH := history v (beyond v safe_head)) s.

(** Nothing attributed or executed is ever forgotten. *)
Definition kept (v v' : RebateView) : Prop := v_attributed v ⊆ v_attributed v' ∧ v_executed v ⊆ v_executed v'.

Lemma grows_kept v v' : grows v v' → kept v v'.
Proof. by intros (? & ? & _). Qed.

Lemma kept_trans v1 v2 v3 : kept v1 v2 → kept v2 v3 → kept v1 v3.
Proof. intros [? ?] [? ?]. split; by etrans. Qed.

Lemma reconciled_grows v safe_head s : reconciled v safe_head s → grows v (durable_view s).
Proof. intros Hok. apply (inv_past _ Hok). Qed.

Lemma reconciled_worker_ok v safe_head s : reconciled v safe_head s → worker_ok s ∧ kept v (durable_view s).
Proof.
  intros Hok. pose proof (reconciled_grows _ _ _ Hok) as Hg. split; [|by apply grows_kept].
  apply (rehistory _ _ Hok); [done|]. intros id x Hx. destruct (inv_observed _ Hok _ _ Hx) as [Hm _].
  unfold scan_from in *. destruct Hg as (_ & _ & Hc). cbn. unfold scan_from. by rewrite Hc.
Qed.

(** ** Reconciliation *)

(** What the chain source is relied on for: the log of the range, whole and as it stays. *)
Definition fetch_ok (fetch : Z → Z → option (list RebateExecutedEvent)) : Prop :=
  ∀ from to evs, fetch from to = Some evs → ∀ ev, ev ∈ evs ↔ log ev ∧ from ≤ block_number ev ≤ to.

Lemma on_service_outcome {A} (c : cmd (RebateService LSt RSt) RebateServiceError A) (Q : result WorkerError A → _ → Prop) s :
  outcome c (λ res s', Q (map_err WService res) s') s → outcome (on_service c) Q s.
Proof. unfold outcome, on_service, zoom. by destruct (c s). Qed.

Lemma settle_events_outcome {H : RebateHistory} s events now n :
  rebate_ok s → (∀ ev, ev ∈ events → observed ev) →
  outcome (settle_events events now n) (λ res s', rebate_ok s' ∧
    match res with
    | Ok _ => rs_batches s' ⊆ rs_batches s ∧ ∀ ev k b, ev ∈ events → rs_batches s' !! k = Some b → rb_id b ≠ ev_batch ev
    | Err e => e ≠ WOutOfFuel
    end) s.
Proof.
  revert s n. induction events as [|ev events IH]; intros s n Hok Hobs; cbn [settle_events].
  { apply outcome_ret. split_and!; [done..|]. by intros ? ? ? ?%not_elem_of_nil. }
  apply outcome_bind, on_service_outcome. eapply outcome_mono; [apply settle_outcome; [done|apply Hobs; left]|].
  intros res s1 [Hok1 Hres]. destruct res as [ok|err]; cbn [map_err]; [|done].
  assert (Hsub : rs_batches s1 ⊆ rs_batches s ∧ ∀ k b, rs_batches s1 !! k = Some b → rb_id b ≠ ev_batch ev).
  { destruct ok; [|destruct Hres as [-> ?]; done].
    destruct Hres as (k & b & e & y & Hb & Hid & _ & _ & _ & -> & _). split; [apply delete_subseteq|].
    intros k' b' (Hne & Hb')%lookup_delete_Some Hid'. apply Hne. eapply (live_unique s); [done..|congruence]. }
  destruct Hsub as [Hsub Hgone]. eapply outcome_mono; [apply IH; [done|intros ev' ?; apply Hobs; by right]|].
  intros [n'|err] s2 [Hok2 Hres2]; (split; [done|]); [|done]. destruct Hres2 as [Hsub2 Hgone2]. split; [by etrans|].
  intros ev' k b [->|Hin]%elem_of_cons Hb; [|by eapply Hgone2]. eapply Hgone. by eapply lookup_weaken.
Qed.

(** A settlement that is still recorded is of a live batch, named by its event. *)
Lemma settling_live {H : RebateHistory} s id x :
  rebate_ok s → v_settling (durable_view s) !! id = Some x →
  ev_batch (st_event x) = id ∧ ∃ k b, rs_batches s !! k = Some b ∧ rb_id b = id.
Proof.
  intros Hok Hx. destruct (inv_settling _ Hok _ _ Hx) as (Hv & k & b & e & Hb & Hid & _). split; [|by exists k, b].
  destruct (proj2 (proj2 (view_ok _ (inv_store _ Hok))) _ _ Hx) as [<- _]. unfold validate_settlement in Hv.
  destruct (event_matches_plan _ _) eqn:Hm; [|by rewrite orb_true_r in Hv]. unfold event_matches_plan in Hm.
  rewrite negb_true_iff, !orb_false_iff, !negb_false_iff, !Z.eqb_eq in Hm. tauto.
Qed.

(** Moving the scan cursor. *)
Lemma view_cursor_ok {H : RebateHistory} (H2 : RebateHistory) s st chain block :
  rebate_ok (HH := H) s → rebate_store_ok st → view st = view_cursor chain block (durable_view s) →
  past (RebateHistory := H2) = view st →
  (∀ id x, v_settling (durable_view s) !! id = Some x → observed (RebateHistory := H2) (st_event x)) →
  rebate_ok (HH := H2) (put_store s st).
Proof.
  intros [] Hst Hv Hp Hobs. constructor; try done; unfold durable_view in *; cbn; rewrite ?Hv; cbn; try done.
  rewrite Hp, Hv. done.
Qed.

Lemma read_store_outcome {A} (c : cmd RSt RebateStoreError A) (P : A → Prop) (Q : result WorkerError A → _ → Prop) s :
  (let '(res, st) := c (rs_store s) in rebate_store_ok st ∧ view st = durable_view s ∧
     match res with Ok a => P a | Err _ => True end) →
  (∀ res st, rebate_store_ok st → view st = durable_view s → match res with Ok a => P a | Err e => e ≠ WOutOfFuel end →
     Q res (put_store s st)) →
  outcome (on_rebate_store c) Q s.
Proof.
  intros Hlaw HQ. apply outcome_zoom. unfold outcome. destruct (c (rs_store s)) as [res st].
  destruct Hlaw as (Hst & Hv & Hp). apply HQ; [done..|]. by destruct res.
Qed.

Lemma same_view_worker_ok s st : worker_ok s → rebate_store_ok st → view st = durable_view s → worker_ok (put_store s st).
Proof.
  intros Hok Hst Hv. unfold worker_ok. assert (durable_view (put_store s st) = durable_view s) as -> by done.
  by apply same_view_ok.
Qed.

Lemma reconcile_outcome s w safe_head :
  worker_ok s → fetch_ok (ww_fetch w) → 0 ≤ safe_head → 0 ≤ start_block config →
  outcome (reconcile_executions config w safe_head) (λ res s', kept (durable_view s) (durable_view s') ∧
    match res with Ok _ => reconciled (durable_view s') safe_head s' | Err e => worker_ok s' ∧ e ≠ WOutOfFuel end) s.
Proof.
  intros Hok Hfetch Hhead Hstart. unfold reconcile_executions. apply outcome_bind.
  eapply (read_store_outcome _ (λ c, c = v_cursor (durable_view s) !! wc_chain config)).
  { pose proof (scan_law (wc_chain config) (rs_store s) (inv_store _ Hok)) as Hlaw.
    destruct (scan_cursor (wc_chain config) (rs_store s)) as [[c|e] st]; naive_solver. }
  intros res st Hst Hv Hc. pose proof (same_view_worker_ok s st Hok Hst Hv) as Hok1.
  assert (Hv1 : durable_view (put_store s st) = durable_view s) by done.
  destruct res as [c|e]; [|by rewrite Hv1]. subst c. fold (scan_from (durable_view s)). rewrite <-Hv1 in *. clear Hv Hst Hok.
  revert Hok1. generalize (put_store s st) as s1. clear Hv1 s st. intros s Hok. set (from := scan_from (durable_view s)).
  destruct (Z.ltb_spec safe_head from) as [Hlt|Hle].
  { apply outcome_ret. split; [done|]. apply (rehistory _ _ Hok); [done|]. intros id x Hx.
    destruct (inv_observed _ Hok _ _ Hx) as [Hl Hb]. cbn. unfold beyond, mined_from. fold from. fold from in Hb. split; [done|lia]. }
  apply outcome_lift_bind. destruct (ww_fetch w from safe_head) as [evs|] eqn:Hf; [|done]. cbn [ok_or].
  pose proof (Hfetch _ _ _ Hf) as Hevs. apply outcome_bind.
  eapply outcome_mono; [apply (settle_events_outcome (H := history (durable_view s) (mined_from from))); [done|]|].
  { intros ev [Hl Hb]%Hevs. split; [done|lia]. }
  intros res s1 [Hok1 Hres]. pose proof (grows_kept _ _ (inv_past _ Hok1)) as Hk1. cbn in Hk1.
  assert (Hfrom1 : scan_from (durable_view s1) = from).
  { unfold from, scan_from. pose proof (inv_past _ Hok1) as (_ & _ & Hc). cbn in Hc. by rewrite Hc. }
  assert (Hw1 : worker_ok s1).
  { apply (rehistory _ _ Hok1); [done|]. intros id x Hx. cbn. rewrite Hfrom1. by apply (inv_observed _ Hok1 id). }
  destruct res as [n|err]; [|done]. destruct Hres as [_ Hgone].
  assert (Hbeyond : ∀ id x, v_settling (durable_view s1) !! id = Some x → log (st_event x) ∧ safe_head < block_number (st_event x)).
  { intros id x Hx. destruct (inv_observed _ Hok1 _ _ Hx) as [Hl Hb]. split; [done|].
    destruct (Z.lt_ge_cases safe_head (block_number (st_event x))) as [|Hge]; [done|]. exfalso.
    destruct (settling_live _ _ _ Hok1 Hx) as (Hev & k & b & Hb1 & Hid).
    apply (Hgone (st_event x) k b); [|done|congruence]. apply Hevs. auto. }
  apply outcome_bind, outcome_zoom. unfold outcome. cbn.
  pose proof (save_scan_law (wc_chain config) safe_head (rs_store s1) (inv_store _ Hok1) Hhead) as Hlaw.
  destruct (save_scan_cursor _ _ _) as [[[]|err] st]; cbn; destruct Hlaw as [Hst Hv].
  - split; [split; unfold durable_view; cbn; rewrite Hv; apply Hk1|].
    apply (view_cursor_ok _ s1 st (wc_chain config) safe_head Hok1); try done. intros id x Hx.
    destruct (Hbeyond id x Hx) as [Hl Hb]. cbn. split; [split|]; [done| |done].
    unfold scan_from, durable_view. cbn. rewrite Hv. cbn. rewrite lookup_insert_eq. unfold u64_saturating_add.
    rewrite <-Hfrom1 in Hle. unfold scan_from, u64_saturating_add in Hle. fold (durable_view s1).
    destruct (v_cursor (durable_view s1) !! wc_chain config) as [c|]; cbn; lia.
  - split; [unfold durable_view; cbn; rewrite Hv; apply Hk1|]. split; [by apply same_view_worker_ok|done].
Qed.

(** ** Intake *)

Definition leg (a : RebateAccrual) : StrategyKey * TradeId := (acc_strategy a, acc_trade a).

(** The leg is in the durable history of a batch. *)
Definition attributed_in (v : RebateView) (a : RebateAccrual) : Prop := ∃ id, v_attributed v !! leg a = Some (id, a).

Lemma attributed_grows v v' a : v_attributed v ⊆ v_attributed v' → attributed_in v a → attributed_in v' a.
Proof. intros Hsub [id Hid]. exists id. by eapply lookup_weaken. Qed.

Lemma live_attributed {H : RebateHistory} s k b t a :
  rebate_ok s → rs_batches s !! k = Some b → rb_accruals b !! t = Some a → v_attributed (durable_view s) !! (k, t) = Some (rb_id b, a).
Proof.
  intros Hok Hb Ha. destruct (inv_tracked _ Hok _ _ Hb) as (b' & Hb' & Ht). destruct (tracks_fields _ _ Ht) as (<- & _ & _ & Hacc).
  destruct (proj1 (view_ok _ (inv_store _ Hok)) _ _ Hb') as (_ & _ & Hat). apply Hat. by rewrite Hacc.
Qed.

(** Public work outstanding for a strategy. *)
Definition executable s k : Prop := ∃ b e, rs_batches s !! k = Some b ∧ rb_state b = BatchState.Ready e.

Lemma local_accrue a : local_to (acc_strategy a) (accrue a : cmd (RebateService LSt RSt) _ _).
Proof.
  unfold accrue, accrue_live, guard_strategy, unguard_strategy, rebate_fail, finish_interrupted_transition, release_if_held, save.
  strategy_local.
Qed.

(** Taking in a leg leaves executable batches as they are: a new leg is refused, one that is already there changes nothing. *)
Lemma accrue_executable s a id s' :
  accrue a s = (Ok id, s') → ∀ k, executable s k → executable s' k.
Proof.
  intros Hacc k (b & e & Hb & Hs). destruct (decide (k = acc_strategy a)) as [->|Hne].
  2: { exists b, e. pose proof (local_accrue a s k Hne) as Hloc. rewrite Hacc in Hloc. cbn in Hloc. by rewrite Hloc. }
  revert Hacc. unfold accrue, mbind, cmd_bind, lift, gets.
  destruct (validate_accrual a) as [[]|err]; cbn; [|done]. rewrite Hb. unfold accrue_live, finish_interrupted_transition. rewrite Hs.
  destruct (rb_accruals b !! acc_trade a) as [x|]; (destruct (negb _); [done|]); [|done].
  intros [= _ <-]. by exists b, e.
Qed.

Lemma accrue_step v obs s a :
  rebate_ok (HH := history v obs) s → 0 ≤ allocation_weight a →
  outcome (accrue a) (λ res s', rebate_ok (HH := history v obs) s' ∧ grows (durable_view s) (durable_view s') ∧
    match res with
    | Ok _ => attributed_in (durable_view s') a ∧ ∀ k, executable s k → executable s' k
    | Err _ => True
    end) s.
Proof.
  intros Hok Hw. assert (Hok' : rebate_ok (HH := history (durable_view s) obs) s).
  { apply (rehistory _ _ Hok); [done|]. apply (inv_observed _ Hok). }
  pose proof (accrue_outcome s a Hok' Hw) as Hout. unfold outcome in *.
  destruct (accrue a s) as [res s'] eqn:Hacc. cbn in *. destruct Hout as [Hok1 Hres]. pose proof (inv_past _ Hok1) as Hg. cbn in Hg.
  split_and!; [|done|].
  { apply (rehistory _ _ Hok1); [etrans; [apply (inv_past _ Hok)|done]|]. apply (inv_observed _ Hok1). }
  destruct res as [id|err]; [|done]. destruct Hres as (b & Hb & _ & Ha). split.
  { exists (rb_id b). by eapply live_attributed. }
  by eapply accrue_executable.
Qed.

Lemma accrue_all_outcome v obs s l n :
  rebate_ok (HH := history v obs) s → Forall (λ a, 0 ≤ allocation_weight a) l →
  outcome (accrue_all l n) (λ res s', rebate_ok (HH := history v obs) s' ∧ grows (durable_view s) (durable_view s') ∧
    match res with
    | Ok _ => (∀ a, a ∈ l → attributed_in (durable_view s') a) ∧ ∀ k, executable s k → executable s' k
    | Err e => e ≠ WOutOfFuel
    end) s.
Proof.
  revert s n. induction l as [|a l IH]; intros s n Hok Hw; cbn [accrue_all].
  { apply outcome_ret. split; [done|]. split; [done|]. split; [|done]. by intros a ?%not_elem_of_nil. }
  apply Forall_cons in Hw as [Ha Hw]. apply outcome_bind, on_service_outcome.
  eapply outcome_mono; [by apply accrue_step|]. intros [id|err] s1 (Hok1 & Hg1 & Hres1); [|done]. destruct Hres1 as [Hat Hex].
  eapply outcome_mono; [by apply IH|]. intros [n'|err] s2 (Hok2 & Hg2 & Hres2); (split; [done|]; split; [by etrans|]); [|done].
  destruct Hres2 as [Hat2 Hex2]. split; [|auto]. intros x [->|Hx]%elem_of_cons; [|by apply Hat2].
  eapply attributed_grows; [apply Hg2|done].
Qed.

(** What the accrual source is relied on for: confirmed legs that no batch has, oldest first, up to the limit; all of them when
    the limit is not reached, but those of strategies with executable work. *)
Record source_ok (legs : list RebateAccrual) (pending : RSt → Z → option (list RebateAccrual)) : Prop := {
  source_legs : ∀ st limit l a, rebate_store_ok st → pending st limit = Some l → a ∈ l →
    a ∈ legs ∧ v_attributed (view st) !! leg a = None;
  source_all : ∀ st limit l a, rebate_store_ok st → pending st limit = Some l → Z.of_nat (length l) < limit → a ∈ legs →
    v_attributed (view st) !! leg a = None →
    (∀ b e, v_open (view st) !! acc_strategy a = Some b → rb_state b ≠ BatchState.Ready e) → a ∈ l
}.

(** Every leg is in a batch, but those of strategies with executable work, which wait. *)
Definition taken_in (legs : list RebateAccrual) s : Prop :=
  ∀ a, a ∈ legs → ¬ executable s (acc_strategy a) → is_Some (v_attributed (durable_view s) !! leg a).

Definition waiting (legs : list RebateAccrual) (v : RebateView) : list RebateAccrual := filter (λ a, v_attributed v !! leg a = None) legs.

Lemma waiting_shrinks legs v v' a :
  v_attributed v ⊆ v_attributed v' → a ∈ legs → v_attributed v !! leg a = None → attributed_in v' a →
  (length (waiting legs v') < length (waiting legs v))%nat.
Proof.
  intros Hsub Ha Hn [id Hat]. unfold waiting.
  assert (Hle : ∀ l, (length (filter (λ a, v_attributed v' !! leg a = None) l) ≤ length (filter (λ a, v_attributed v !! leg a = None) l))%nat).
  { induction l as [|x l IH]; [done|]. rewrite !filter_cons. repeat case_decide; cbn; try lia.
    exfalso. destruct (v_attributed v !! leg x) as [y|] eqn:Hy; [|done]. eapply lookup_weaken in Hy; [|done]. congruence. }
  apply list_elem_of_split in Ha as (l1 & l2 & ->). rewrite !filter_app, !length_app, !filter_cons.
  rewrite (decide_True (P := v_attributed v !! leg a = None)) by done. rewrite decide_False by congruence. cbn.
  pose proof (Hle l1). pose proof (Hle l2). lia.
Qed.

Lemma intake_outcome legs v obs w fuel s n :
  Forall (λ a, 0 ≤ allocation_weight a) legs → source_ok legs (ww_pending w) →
  rebate_ok (HH := history v obs) s → (length (waiting legs (durable_view s)) < fuel)%nat →
  outcome (intake fuel w n) (λ res s', rebate_ok (HH := history v obs) s' ∧ grows (durable_view s) (durable_view s') ∧
    match res with Ok _ => taken_in legs s' | Err e => e ≠ WOutOfFuel end) s.
Proof.
  intros Hw Hsrc. revert s n. induction fuel as [|fuel IH]; intros s n Hok Hfuel; [lia|]. cbn [intake].
  apply outcome_gets, outcome_lift_bind. destruct (ww_pending w (rs_store s) INTAKE_BATCH_LIMIT) as [l|] eqn:Hp; [|done]. cbn [ok_or].
  pose proof (inv_store _ Hok) as Hst.
  assert (Hl : ∀ a, a ∈ l → a ∈ legs ∧ v_attributed (durable_view s) !! leg a = None).
  { intros a Ha. by eapply (source_legs _ _ Hsrc). }
  assert (Hlw : Forall (λ a, 0 ≤ allocation_weight a) l).
  { rewrite Forall_forall in Hw |- *. intros a Ha. by apply Hw, Hl. }
  apply outcome_bind. eapply outcome_mono; [by apply accrue_all_outcome|].
  intros [n'|e] s1 (Hok1 & Hg1 & Hres); [|done]. destruct Hres as [Hat Hex].
  apply outcome_if; intros Hlen; zbool.
  - apply outcome_ret. split; [done|]. split; [done|]. intros a Ha Hne. destruct (v_attributed (durable_view s1) !! leg a) eqn:Hn; [done|].
    exfalso. assert (Hn0 : v_attributed (durable_view s) !! leg a = None).
    { destruct (v_attributed (durable_view s) !! leg a) eqn:Hy; [|done]. eapply lookup_weaken in Hy; [|apply Hg1]. congruence. }
    assert (Hin : a ∈ l).
    { eapply (source_all _ _ Hsrc); [exact Hst|exact Hp|exact Hlen|done|done|]. intros b e Hb He. apply Hne, Hex.
      destruct (inv_live _ Hok _ _ Hb) as [c Hc]. destruct (inv_tracked _ Hok _ _ Hc) as (b' & Hb' & [_ Ht]).
      assert (b' = b) as -> by (unfold durable_view in Hb'; congruence). exists c, e. split; [done|].
      destruct Ht as [Ht|[[_ (r & [?|[? ?]])]|(? & ? & _ & ?)]]; congruence. }
    destruct (Hat a Hin) as [id Hid]. congruence.
  - destruct l as [|a l]; [unfold INTAKE_BATCH_LIMIT in Hlen; cbn in Hlen; lia|]. destruct (Hl a) as [Ha Hna]; [by left|].
    eapply outcome_mono; [apply IH; [done|]|].
    + assert (Hlt := waiting_shrinks legs (durable_view s) (durable_view s1) a (proj1 Hg1) Ha Hna (Hat a ltac:(by left))). lia.
    + intros res s2 (? & ? & ?). split; [done|]. split; [by etrans|done].
Qed.

(** ** One batch *)

(** Reservation ids are hashes of the batch they belong to. *)
Context (ids_own : ∀ bid deadline, own (reservation_id_of bid deadline) bid).
Context (ids_nonzero : ∀ bid deadline, reservation_id_of bid deadline ≠ 0).

(** What a tick reads is well typed. *)
Record world_ok (w : WorkerWorld RSt) : Prop := {
  world_fetch : fetch_ok (ww_fetch w);
  world_strategies : ∀ k m, strategies (ww_snapshot w) !! k = Some m →
    strat_key m = k ∧ spec_ok m ∧ ∀ t, is_u256 (balance m t);
  world_services : ∀ k, builder_ok (w_build (ww_world w k)) ∧ (∀ a x, w_budget_of (ww_world w k) a = Ok x → is_u256 x)
    ∧ 0 ≤ w_now (ww_world w k)
}.

(** The batch still has the id it was listed with. *)
Definition listed s b : Prop := ∀ b', rs_batches s !! rb_strategy b = Some b' → rb_id b' = rb_id b.

Lemma process_batch_local w caps safe_head current_head b :
  world_ok w → local_to (rb_strategy b) (process_batch policy service_config catalog config w caps safe_head current_head b).
Proof.
  intros Hw. assert (Hon : ∀ A (c : cmd (RebateService LSt RSt) RebateServiceError A), local_to (rb_strategy b) c →
    local_to (rb_strategy b) (on_service c)).
  { intros A c Hc s k' Hk. specialize (Hc s k' Hk). unfold on_service, zoom. by destruct (c s). }
  unfold process_batch. destruct (rb_state b); (apply local_bind; [|intros ?]);
    try solve [apply Hon, local_expire|strategy_local].
  all: destruct a; [apply local_ret|]. all: destruct (strategies (ww_snapshot w) !! rb_strategy b) as [m|] eqn:Hm; [|apply local_ret].
  all: destruct (world_strategies _ Hw _ _ Hm) as [Hk _]; destruct (negb _); cbv zeta; (apply local_bind; [|intros ?; apply local_ret]);
    apply Hon; [apply local_discard|].
  all: by apply local_evaluate.
Qed.

Lemma process_batch_outcome v w caps safe_head current_head s b :
  reconciled v safe_head s → world_ok w → (∀ a, is_u256 (Candidates.available caps a)) → 0 ≤ wc_reservation_ttl_secs config →
  listed s b →
  outcome (process_batch policy service_config catalog config w caps safe_head current_head b)
    (λ res s', reconciled v safe_head s' ∧ res ≠ Err WOutOfFuel) s.
Proof.
  intros Hok Hw Hcaps Httl Hb. unfold process_batch.
  assert (Hexpire : outcome (expired ← on_service (expire_ready (rb_strategy b) safe_head); mret (if expired : bool then Expired else Unchanged))
    (λ res s', reconciled v safe_head s' ∧ res ≠ Err WOutOfFuel) s).
  { apply outcome_bind, on_service_outcome. eapply outcome_mono; [apply (expire_ready_outcome (HH := history v (beyond v safe_head))); [exact Hok|]|].
    - intros b' e Hb' He Hlate. apply eq_None_not_Some. intros [x Hx].
      destruct (inv_settling _ Hok _ _ Hx) as (_ & k & c & e' & Hc & Hid & Hs & _ & _ & Hdl).
      assert (k = rb_strategy b) as -> by (by eapply (live_unique s)). simplify_eq.
      assert (e' = e) as -> by congruence. destruct (inv_observed _ Hok _ _ Hx) as [_ Hbl]. lia.
    - intros [ok|err] s' [Hok' _]; [|done]. by apply outcome_ret. }
  assert (Hrest : outcome (
    waiting ← (if existsb (λ a, safe_head <? confirmed_block a) (values (rb_accruals b)) then mret true
               else lift (ok_or (ww_has_unsettled w (rb_strategy b)) WAccrualSource));
    if waiting : bool then mret Unchanged
    else match strategies (ww_snapshot w) !! rb_strategy b with
    | None => mret Unchanged
    | Some strategy =>
        if negb (active strategy) then _ ← on_service (discard (rb_strategy b)); mret Unchanged
        else
          let deadline := u64_saturating_add current_head (authorization_ttl_blocks config) in
          _ ← on_service (evaluate policy service_config catalog (ww_world w (rb_strategy b))
                (mk_evaluation strategy caps (minimums_of (rb_pair b)) (reservation_id_of (rb_id b) deadline)
                   (wc_reservation_ttl_secs config) deadline (ww_now w)));
          mret Evaluated
    end) (λ res s', reconciled v safe_head s' ∧ res ≠ Err WOutOfFuel) s); [|by destruct (rb_state b)].
  apply outcome_bind. eapply (outcome_mono _ (λ res s', s' = s ∧ res ≠ Err WOutOfFuel)).
  { by destruct (existsb _ _); [|destruct (ww_has_unsettled w _)]. }
  intros [[]|err] s' [-> Herr]; [by apply outcome_ret| |split; [done|congruence]]. destruct (strategies (ww_snapshot w) !! rb_strategy b) as [m|] eqn:Hm; [|by apply outcome_ret].
  destruct (world_strategies _ Hw _ _ Hm) as (Hk & Hspec & Hbal). destruct (negb (active m)).
  - apply outcome_bind, on_service_outcome. eapply outcome_mono; [by apply (discard_outcome (HH := history v (beyond v safe_head)))|].
    intros [ok|err] s' [Hok' _]; [|done]. by apply outcome_ret.
  - cbv zeta. apply outcome_bind, on_service_outcome. destruct (world_services _ Hw (rb_strategy b)) as (Hbu & Hbo & Hn).
    eapply outcome_mono; [apply (evaluate_outcome (HH := history v (beyond v safe_head))); [exact Hok| |]|].
    + constructor; cbn; [done| |done|done|done|apply ids_nonzero].
      intros x Hx. unfold minimums_of in Hx. rewrite !elem_of_cons, elem_of_nil in Hx. destruct Hx as [->|[->|[]]]; cbn; lia.
    + cbn. rewrite Hk. intros b' Hb'. rewrite (Hb b' Hb'). apply ids_own.
    + intros [a|err] s' [Hok' _]; [|done]. by apply outcome_ret.
Qed.

Lemma process_all_outcome v w caps safe_head current_head bs report err s :
  reconciled v safe_head s → world_ok w → (∀ a, is_u256 (Candidates.available caps a)) → 0 ≤ wc_reservation_ttl_secs config →
  NoDup (rb_strategy <$> bs) → (∀ b, b ∈ bs → listed s b) → err ≠ Some WOutOfFuel →
  outcome (process_all policy service_config catalog config w caps safe_head current_head bs report err)
    (λ res s', reconciled v safe_head s' ∧ ∃ report' err', res = Ok (report', err') ∧ err' ≠ Some WOutOfFuel) s.
Proof.
  intros Hok Hw Hcaps Httl. revert s report err Hok. induction bs as [|b bs IH]; intros s report err Hok Hnd Hl He; cbn [process_all].
  { apply outcome_ret. split; [done|]. by exists report, err. }
  rewrite fmap_cons in Hnd. apply NoDup_cons in Hnd as [Hnb Hnd]. apply outcome_attempt.
  pose proof (process_batch_local w caps safe_head current_head b Hw s) as Hloc.
  pose proof (process_batch_outcome v w caps safe_head current_head s b Hok Hw Hcaps Httl (Hl b ltac:(by left))) as Hout.
  unfold outcome in Hout |- *. destruct (process_batch _ _ _ _ _ _ _ _ _ _) as [out s1]. cbn in Hout, Hloc |- *.
  destruct Hout as [Hok1 Hne]. apply IH; [done|done| |destruct out as [?|e], err; congruence].
  intros c Hc c'. rewrite Hloc; [by apply Hl; right|]. intros Heq. apply Hnb. rewrite <-Heq. by apply list_elem_of_fmap_2.
Qed.

(** ** The tick *)

Lemma open_batches_listed {H : RebateHistory} s :
  rebate_ok s → NoDup (rb_strategy <$> open_batches s) ∧ ∀ b, b ∈ open_batches s → listed s b.
Proof.
  intros Hok. unfold open_batches. split.
  - assert (Heq : rb_strategy <$> values (rs_batches s) = keys (rs_batches s)); [|rewrite Heq; apply NoDup_keys].
    unfold values, keys. rewrite <-list_fmap_compose. apply list_fmap_ext. intros i [k b] Hi%list_elem_of_lookup_2.
    apply elem_of_entries in Hi. cbn. by eapply live_strategy.
  - intros b (k & Hb)%elem_of_values b' Hb'. rewrite (live_strategy _ _ _ Hok Hb) in Hb'. congruence.
Qed.

(** A tick, whatever fails in it: the service and its scan stay consistent, and the batches taken in, the executions recorded
    and the attributions made are never lost. *)
Lemma tick_outcome legs fuel w current_head s :
  worker_ok s → world_ok w → Forall (λ a, 0 ≤ allocation_weight a) legs → source_ok legs (ww_pending w) →
  0 ≤ current_head → (∀ c, ww_registry_cursor w = Some (Some c) → 0 ≤ c) → 0 ≤ start_block config → 0 ≤ wc_reservation_ttl_secs config →
  (length legs < fuel)%nat →
  outcome (tick policy service_config catalog config fuel w current_head) (λ res s',
    worker_ok s' ∧ kept (durable_view s) (durable_view s') ∧ res ≠ Err WOutOfFuel) s.
Proof.
  intros Hok Hw Hlegs Hsrc Hhead Hreg Hstart Httl Hfuel. unfold tick. apply outcome_lift_bind.
  destruct (ww_registry_cursor w) as [[c|]|] eqn:Hc; cbn [ok_or]; [|by apply outcome_ret|done].
  specialize (Hreg c eq_refl). set (safe := Z.min current_head c). apply outcome_bind.
  eapply outcome_mono; [apply reconcile_outcome; [done|apply Hw|lia|done]|].
  intros [n1|e] s1 [Hk1 Hres1]; [|destruct Hres1; split_and!; [done..|congruence]].
  set (v := durable_view s1) in *. apply outcome_bind. eapply outcome_mono.
  { apply (intake_outcome legs v (beyond v safe) w fuel s1 0 Hlegs Hsrc Hres1). unfold waiting.
    pose proof (length_filter (λ a, v_attributed (durable_view s1) !! leg a = None) legs). lia. }
  assert (Hend : ∀ s', reconciled v safe s' → worker_ok s' ∧ kept (durable_view s) (durable_view s')).
  { intros s' Hok'. destruct (reconciled_worker_ok _ _ _ Hok') as [? ?]. split; [done|by eapply kept_trans]. }
  intros [n2|e] s2 (Hok2 & _ & Hres2).
  2: { destruct (Hend s2 Hok2). split_and!; [done..|congruence]. }
  do 2 apply outcome_gets. destruct (open_batches_listed s2 Hok2) as [Hnd Hl]. apply outcome_bind. eapply outcome_mono.
  { apply (process_all_outcome v w); [done|done| |done|done|done|done]. apply (service_words _ (inv_ledger _ Hok2)). }
  intros res s3 (Hok3 & report & err & -> & Herr). destruct (Hend s3 Hok3). destruct err as [e|].
  - apply outcome_fail. split_and!; [done..|congruence].
  - apply outcome_ret. done.
Qed.

End steps.
