(* ===== verification/RebateSystem.v ===== *)
(** * The rebate system

    The service, its worker, the swap path that shares the ledger, crashes and restarts as
    one transition system.  [app/src/main.rs] recovers the ledger before the rebate service
    and runs the worker's ticks from then on.

    A crash inside an operation is a crash after the same operation in which every later
    statement failed: a failed statement changes nothing that is durable, and what memory
    held is lost either way. *)

From Stdlib Require Import String.
From S2P Require Import Prelude Commands U256 Reservation LedgerEngine LedgerInvariant LedgerProperties LedgerStore LedgerService LedgerHolds Ratio CurveDecode Curves CurveProperties Registry Candidates RebatePolicy RebateStore RebateCall RebateService RebateServiceInvariant RebateServiceSteps RebateServiceClosing RebateServiceEvaluate RebateSharedLedger RebateRecovery RebateWorker.

#[local] Open Scope Z_scope.

(** ** The transition system *)

Section system.
Context {LSt RSt : Type} `{HS : LedgerStore LSt} `{HL : !LedgerStoreLaws LSt}.
Context `{HW : RebateWire} `{HR : RebateStore RSt} `{HRL : !RebateStoreLaws RSt} `{HI : RebateReservationIds}.
Context (policy : RebatePolicyConfig) (service_config : RebateServiceConfig) (catalog : gmap Address Z).
Context (config : RebateWorkerConfig) (log : RebateExecutedEvent → Prop).
Context (config_ok : 0 ≤ start_block config ∧ 0 ≤ wc_reservation_ttl_secs config).
Context (ids_own : ∀ bid deadline, own (reservation_id_of bid deadline) bid).
Context (ids_nonzero : ∀ bid deadline, reservation_id_of bid deadline ≠ 0).
Implicit Types (s : RebateService LSt RSt).

(** The process runs, or is down with its databases as it left them. *)
Inductive phase : Type :=
| Running (s : RebateService LSt RSt)
| Down (lst : LSt) (rst : RSt).

(** Starting: the ledger recovers first, then the rebate service; either failure stops the process. *)
Definition boot (budget_of : AccountKey → result SolventError U256) (lst : LSt) (rst : RSt) : phase :=
  match LedgerService.recover budget_of (service_new lst) with
  | (Err _, l) => Down (svc_store l) rst
  | (Ok _, l) =>
      match RebateService.recover (mk_rebate_service ∅ l ∅ rst) with
      | (Err _, s) => Down (svc_store (rs_ledger s)) (rs_store s)
      | (Ok _, s) => Running s
      end
  end.

Inductive rebate_step : phase → phase → Prop :=
| step_tick s legs fuel w head :
    world_ok log w → Forall (λ a, 0 ≤ allocation_weight a) legs → source_ok legs (ww_pending w) → 0 ≤ head →
    (∀ c, ww_registry_cursor w = Some (Some c) → 0 ≤ c) → (List.length legs < fuel)%nat →
    rebate_step (Running s) (Running (tick policy service_config catalog config fuel w head s).2)
| step_swap s c :
    swap_command (rs_ledger s) c →
    rebate_step (Running s) (Running (put_ledger s (service_exec c (rs_ledger s)).2))
| step_crash s : rebate_step (Running s) (Down (svc_store (rs_ledger s)) (rs_store s))
| step_boot lst rst budget_of :
    (∀ a x, budget_of a = Ok x → is_u256 x) → rebate_step (Down lst rst) (boot budget_of lst rst).

Definition phase_view (p : phase) : RebateView :=
  match p with Running s => durable_view s | Down _ rst => view rst end.

Definition scan_history (v : RebateView) : RebateHistory := history v (mined_from log (scan_from config v)).

(** The invariant; while the process is down, that of some memory it could have had. *)
Definition phase_ok (p : phase) : Prop :=
  match p with
  | Running s => worker_ok config log s
  | Down lst rst => ∃ s, recovering (HH := scan_history (view rst)) s ∧ durable (svc_store (rs_ledger s)) = durable lst ∧ rs_store s = rst
  end.

Lemma recovering_rebase {H : RebateHistory} s :
  recovering (HH := H) s → (∀ ev, observed (RebateHistory := H) ev → mined_from log (scan_from config (durable_view s)) ev) →
  recovering (HH := scan_history (durable_view s)) s.
Proof. intros Hok Hobs. apply (rehistory _ _ Hok); [done|]. intros id x Hx. by eapply Hobs, (inv_observed _ Hok). Qed.

(** Once the ledger is rebuilt, recovery can start. *)
Lemma boot_recovering lst rst budget_of l :
  (∀ a x, budget_of a = Ok x → is_u256 x) → phase_ok (Down lst rst) →
  LedgerService.recover budget_of (service_new lst) = (Ok tt, l) →
  recovering (HH := scan_history (view rst)) (mk_rebate_service ∅ l ∅ rst).
Proof.
  intros Hb (s & Hok & Hd & <-) Hrec. set (l0 := mk_service (svc_ledger (rs_ledger s)) lst (svc_available (rs_ledger s))).
  pose proof (same_durable_ok _ lst (inv_ledger _ Hok) Hd) as Hl0. pose proof (ledger_restart l0 budget_of Hl0 Hb) as Hres.
  unfold outcome in Hres. cbn in Hres. rewrite Hrec in Hres. destruct Hres as [Hl Hh]. cbn in Hl, Hh.
  apply (crash_recovering (HH := scan_history (view (rs_store s))) (shadow s)); [done|done|..].
  - rewrite Hh. apply map_filter_subseteq.
  - by rewrite Hh.
Qed.

Lemma boot_ok lst rst budget_of :
  (∀ a x, budget_of a = Ok x → is_u256 x) → phase_ok (Down lst rst) →
  phase_ok (boot budget_of lst rst) ∧ kept (view rst) (phase_view (boot budget_of lst rst)).
Proof.
  intros Hb (s & Hok & Hd & Hst). set (l0 := mk_service (svc_ledger (rs_ledger s)) lst (svc_available (rs_ledger s))).
  pose proof (same_durable_ok _ lst (inv_ledger _ Hok) Hd) as Hl0. pose proof (ledger_restart l0 budget_of Hl0 Hb) as Hres.
  unfold boot, outcome in *. cbn in Hres. change (svc_store l0) with lst in Hres.
  destruct (LedgerService.recover budget_of (service_new lst)) as [[[]|e] l] eqn:Hl; cbn in Hres.
  2: { split; [|done]. exists s. split_and!; [done|congruence|done]. }
  assert (Hrec : recovering (HH := scan_history (view rst)) (mk_rebate_service ∅ l ∅ rst)).
  { apply (boot_recovering lst rst budget_of); [done|by exists s|done]. }
  pose proof (recover_outcome _ Hrec) as Hout. unfold outcome in Hout.
  destruct (RebateService.recover _) as [[[]|e] s2]; cbn in Hout |- *.
  - destruct Hout as (Hok2 & _ & Hset & _). pose proof (grows_kept _ _ (inv_past _ Hok2)) as Hk. split; [|exact Hk].
    apply (rehistory _ _ Hok2); [done|]. intros id x Hx. by rewrite Hset, lookup_empty in Hx.
  - destruct Hout as [Hok2 _]. pose proof (inv_past _ Hok2) as Hg. split; [|by apply grows_kept in Hg].
    exists s2. split_and!; [|done..]. apply (recovering_rebase _ Hok2). intros ev [Hl' Hfrom]. split; [done|].
    destruct Hg as (_ & _ & Hc). cbn in Hc. unfold scan_from in *. change (durable_view (shadow s2)) with (durable_view s2) in Hc. by rewrite Hc.
Qed.

Lemma step_ok p p' : rebate_step p p' → phase_ok p → phase_ok p' ∧ kept (phase_view p) (phase_view p').
Proof.
  intros [s legs fuel w head Hw Hlegs Hsrc Hhead Hreg Hfuel|s c Hc|s|lst rst budget_of Hb] Hok.
  - destruct config_ok as [Hst Httl].
    destruct (tick_outcome policy service_config catalog config log ids_own ids_nonzero legs fuel w head s Hok Hw Hlegs Hsrc
      Hhead Hreg Hst Httl Hfuel) as (Hok' & Hk & _). done.
  - split; [|done]. by apply (swap_command_ok (HH := scan_history (durable_view s))).
  - split; [|done]. exists (mk_rebate_service ∅ (rs_ledger s) ∅ (rs_store s)). split_and!; [|done..].
    apply (crash_recovering (HH := scan_history (durable_view s)) s); [done|by apply (inv_ledger _ Hok)|done|apply map_filter_subseteq].
  - by apply boot_ok.
Qed.

(** A new installation: empty stores. *)
Lemma fresh_ok l rst :
  service_ok l → holds l = ∅ → rebate_store_ok rst → v_open (view rst) = ∅ → v_settling (view rst) = ∅ →
  phase_ok (Running (mk_rebate_service ∅ l ∅ rst)).
Proof.
  intros Hl Hh Hst Hopen Hset. constructor; unfold durable_view; cbn; rewrite ?Hopen, ?Hset, ?Hh; try done.
Qed.

Lemma system_run_ok p p' : rtc rebate_step p p' → phase_ok p → phase_ok p' ∧ kept (phase_view p) (phase_view p').
Proof.
  induction 1 as [p|p p1 p2 Hstep _ IH]; intros Hok; [done|].
  destruct (step_ok _ _ Hstep Hok) as [Hok1 Hk1]. destruct (IH Hok1) as [Hok2 Hk2]. split; [done|by eapply kept_trans].
Qed.

End system.
