(* ===== verification/RebateDemo.v ===== *)
(** * A concrete rebate system

    The SQLite stores, a wire format with an injective hash, a constant-product strategy
    behind the taker credential and the worlds of two ticks: the first accrues two mined
    legs and publishes their restoration, the second observes its execution and settles it. *)

From Stdlib Require Import String.
From S2P Require Import Prelude Commands U256 Reservation LedgerEngine LedgerInvariant LedgerStore LedgerService LedgerHolds Ratio CurveDecode Curves Registry Candidates Routing RebatePolicy RebateStore RebateSqlite RebateSqliteProperties RebateCall RebateService RebateServiceInvariant RebateServiceEvaluate RebateSharedLedger RebateWorker RebateSystem.

#[local] Open Scope Z_scope.

#[export] Instance demo_wire : RebateWire := {|
  order_decode l := match l with 99 :: m :: t :: data => Some (mk_order m t data) | _ => None end;
  order_encode o := 99 :: order_maker o :: order_traits o :: order_data o;
  keccak256 l := match l with 99 :: _ => 7 | _ => Zpos (countable.encode l) end;
  execute_rebate_call _ _ _ := [1];
  trade_id_to_string t := [t];
  trade_id_from_str l := match l with [t] => Some t | _ => None end;
  batch_preimage k t := [2; key_maker k; key_app k; key_hash k; t];
  nonce_preimage plan deadline := [3; rp_batch plan; deadline];
  reservation_preimage id deadline := [4; id; deadline]
|}.

#[export] Instance demo_wire_laws : RebateWireLaws.
Proof. split; [by intros []|done]. Qed.

Lemma demo_reservation_inj b b' d d' : reservation_id_of b d = reservation_id_of b' d' → b = b'.
Proof. intros [= Heq]. apply (inj countable.encode) in Heq. congruence. Qed.

Definition demo_own (r : ReservationId) (bid : RebateBatchId) : Prop := ∃ deadline, r = reservation_id_of bid deadline.

Lemma demo_own_inj r b b' : demo_own r b → demo_own r b' → b = b'.
Proof. intros [d ->] [d' Heq]. by eapply demo_reservation_inj. Qed.

#[export] Instance demo_ids : RebateReservationIds := {| own := demo_own; own_inj := demo_own_inj |}.

Lemma demo_ids_own bid deadline : own (reservation_id_of bid deadline) bid.
Proof. by exists deadline. Qed.

Lemma demo_ids_nonzero bid deadline : reservation_id_of bid deadline ≠ 0.
Proof. done. Qed.

(** The program gates the credential 7. *)
Definition demo_order : list Z := [99; 1; 0] ++ [14; 20] ++ replicate 19 0 ++ [7].
Definition demo_restorable : MakerStrategy :=
  mk_strategy demo_key (Priceable Xyc [3000000]) {[3 := 1001000; 5 := 999100]} true demo_order.

Definition demo_service_config : RebateServiceConfig := mk_rebate_config 3 100 60.
Definition demo_worker_config : RebateWorkerConfig := mk_worker_config 1 1 20 3600.
Definition demo_builder : call_builder := build 7 (λ _, Some (replicate 65 1)).
Definition demo_world : RebateWorld := mk_world (λ _, Ok demo_market) (Some 1) demo_builder (λ _, Ok 999100) 1000.

(** A source that reads what is unattributed off the store. *)
Definition view_source (legs : list RebateAccrual) (st : RebateSqlite) (limit : Z) : option (list RebateAccrual) :=
  Some (take (Z.to_nat limit) (filter (λ a, v_attributed (sqlite_view st) !! leg a = None
    ∧ (b ← v_open (sqlite_view st) !! acc_strategy a; ready_of b) = None) legs)).

Definition demo_tick_world (fetch : Z → Z → option (list RebateExecutedEvent)) (known : gmap StrategyKey MakerStrategy) :
    WorkerWorld RebateSqlite :=
  mk_worker_world _ (Some (Some 110)) (view_source demo_accruals) (λ _, Some false) fetch (mk_snapshot known ∅) (λ _, demo_world) 1000.

Definition demo_tick fetch known (head : Z) (s : RebateService Sqlite RebateSqlite) :=
  tick demo_policy demo_service_config ∅ demo_worker_config 3 (demo_tick_world fetch known) head s.

Definition demo_known : gmap StrategyKey MakerStrategy := {[demo_key := demo_restorable]}.

Definition demo_fresh : RebateService Sqlite RebateSqlite :=
  mk_rebate_service ∅ (demo_service []) ∅ (mk_rebate_db ∅ ∅ ∅ ∅ []).

Definition demo_sync : service_command :=
  SSync (Ok {[WalletBudget 1 5 := 999100; StrategyVirtual 1 7 5 := 999100]}).

Definition demo_synced : RebateService Sqlite RebateSqlite :=
  put_ledger demo_fresh (service_exec demo_sync (rs_ledger demo_fresh)).2.

(** Nothing is mined before block 105. *)
Definition demo_quiet (from to : Z) : option (list RebateExecutedEvent) := if to <? 105 then Some [] else None.

Definition demo_published := demo_tick demo_quiet demo_known 100 demo_synced.

(** The same tick before the registry knows the strategy: the legs are taken in and wait. *)
Definition demo_waiting := demo_tick demo_quiet ∅ 100 demo_synced.

(** The execution of the published work. *)
Definition demo_event : RebateExecutedEvent :=
  match ready demo_published.2 with
  | e :: _ => mk_executed (rp_batch (ex_plan e)) 7 77 1 (rp_token_in (ex_plan e)) (rp_token_out (ex_plan e)) (rp_in (ex_plan e))
                (rp_out (ex_plan e)) (maker_rebate (ex_plan e)) 555 105 0
  | [] => mk_executed 0 0 0 0 0 0 0 0 0 0 105 0
  end.

Definition demo_log (ev : RebateExecutedEvent) : Prop := ev = demo_event.
Definition demo_fetch (from to : Z) : option (list RebateExecutedEvent) :=
  Some (if (from <=? 105) && (105 <=? to) then [demo_event] else []).

Definition demo_settled := demo_tick demo_fetch demo_known 110 demo_published.2.

(** ** What is relied on holds of it *)

Lemma view_source_ok legs : source_ok legs (view_source legs).
Proof.
  split; unfold view_source; cbn -[sqlite_view].
  - intros st limit l a _ [= <-] (i & Ha%list_elem_of_lookup_2 & _)%elem_of_take. by apply list_elem_of_filter in Ha as [[Hn _] Hin].
  - intros st limit l a _ [= <-] Hlen Ha Hn Hr. rewrite firstn_all2.
    + apply list_elem_of_filter. split_and!; [done| |done]. apply eq_None_not_Some.
      intros [e (b & Hb & He)%bind_Some]. apply (Hr b e Hb). unfold ready_of in He. by destruct (rb_state b); simplify_eq.
    + rewrite length_take in Hlen. lia.
Qed.

Lemma demo_restorable_ok :
  spec_ok demo_restorable ∧ ∀ t, is_u256 (balance demo_restorable t).
Proof.
  split.
  - intros curve fees [= <- <-]. split; [done|]. apply Forall_cons_2; [split; discriminate|apply Forall_nil_2].
  - intros t. unfold balance. destruct (balances demo_restorable !! t) as [b|] eqn:Hb; cbn; [|split; discriminate].
    cbn in Hb. apply lookup_insert_Some in Hb as [[_ <-]|[_ [_ <-]%lookup_singleton_Some]]; split; discriminate.
Qed.

Lemma demo_builder_ok : builder_ok demo_builder.
Proof. apply build_ok; [by intros a s [= <-]|done]. Qed.

Lemma demo_world_ok fetch known : fetch_ok demo_log fetch → known ⊆ demo_known → world_ok demo_log (demo_tick_world fetch known).
Proof.
  intros Hf Hk. destruct demo_restorable_ok as (Hs & Hb). constructor; cbn.
  - done.
  - intros k m Hm. eapply lookup_weaken in Hm; [|exact Hk]. unfold demo_known in Hm.
    by apply lookup_singleton_Some in Hm as (<- & <-).
  - intros k. split_and!; [apply demo_builder_ok| |done]. intros a x [= <-]. split; discriminate.
Qed.

Lemma demo_event_block : block_number demo_event = 105.
Proof. unfold demo_event. by destruct (ready demo_published.2). Qed.

(** One event at block 105 is the whole log. *)
Lemma quiet_before ev0 : block_number ev0 = 105 → fetch_ok (λ ev, ev = ev0) demo_quiet.
Proof.
  intros Hblock from to evs. unfold demo_quiet. destruct (Z.ltb_spec to 105); [|done]. intros [= <-] ev. rewrite elem_of_nil.
  split; [done|]. intros [-> Hb]. lia.
Qed.

Lemma one_event_ok ev0 :
  block_number ev0 = 105 →
  fetch_ok (λ ev, ev = ev0) (λ from to, Some (if (from <=? 105) && (105 <=? to) then [ev0] else [])).
Proof.
  intros Hblock from to evs [= <-] ev.
  destruct (Z.leb_spec from 105), (Z.leb_spec 105 to); cbn; rewrite ?elem_of_nil, ?list_elem_of_singleton; split;
    try done; try (intros [-> Hb]; lia).
  - intros ->. split; [done|lia].
  - by intros [-> _].
Qed.

Lemma demo_fresh_ok : worker_ok demo_worker_config demo_log demo_fresh.
Proof.
  apply (fresh_ok demo_worker_config demo_log); [apply demo_service_ok|done| |done|done].
  constructor; cbn; [split|..]; intros *; rewrite ?lookup_empty; try done.
Qed.

Lemma demo_sync_ok : swap_command (rs_ledger demo_fresh) demo_sync.
Proof.
  split; [|done]. cbn. intros a x [[_ <-]|[_ [_ <-]%lookup_singleton_Some]]%lookup_insert_Some; split; discriminate.
Qed.

(** The run: sync the budgets, publish, settle. *)
Abbreviation demo_step := (rebate_step demo_policy demo_service_config ∅ demo_worker_config demo_log).

Lemma demo_step_tick fetch known head s :
  fetch_ok demo_log fetch → known ⊆ demo_known → 0 ≤ head → demo_step (Running s) (Running (demo_tick fetch known head s).2).
Proof.
  intros Hf Hk Hh. apply (step_tick _ _ _ _ _ _ demo_accruals); [by apply demo_world_ok|apply demo_accruals_ok|apply view_source_ok|done| |cbn; lia].
  by intros c [= <-].
Qed.

Lemma demo_run_synced : rtc demo_step (Running demo_fresh) (Running demo_synced).
Proof. apply rtc_once, step_swap, demo_sync_ok. Qed.

Lemma demo_run_waiting : rtc demo_step (Running demo_fresh) (Running demo_waiting.2).
Proof.
  eapply rtc_r; [apply demo_run_synced|]. apply demo_step_tick; [apply quiet_before, demo_event_block|apply map_empty_subseteq|done].
Qed.

Lemma demo_run_published : rtc demo_step (Running demo_fresh) (Running demo_published.2).
Proof. eapply rtc_r; [apply demo_run_synced|]. by apply demo_step_tick; [apply quiet_before, demo_event_block|..]. Qed.

Lemma demo_run_settled : rtc demo_step (Running demo_published.2) (Running demo_settled.2).
Proof. apply rtc_once. by apply demo_step_tick; [apply one_event_ok, demo_event_block|..]. Qed.

(** The published work is live. *)
Lemma demo_ready :
  ∃ b e, rs_batches demo_published.2 !! demo_key = Some b ∧ rb_state b = BatchState.Ready e
    ∧ maker_rebate (ex_plan e) = 46786 ∧ v_settling (durable_view demo_published.2) !! rb_id b = None.
Proof. do 2 eexists. split; [vm_compute; reflexivity|]. split; [reflexivity|]. split; [reflexivity|vm_compute; reflexivity]. Qed.
