(* ===== verification/RebateSystemProperties.v ===== *)
(** * Properties of the rebate system

    What holds of every run from an empty installation: ticks of the worker, commands of
    the swap path, crashes and restarts in any order, whatever statements of either database
    fail. *)

From Stdlib Require Import String.
From S2P Require Import Prelude Commands U256 Reservation LedgerEngine LedgerInvariant LedgerProperties LedgerStore LedgerService LedgerHolds Ratio CurveDecode Curves CurveProperties Registry Candidates Routing RebatePolicy RebateStore RebateSqlite RebateSqliteProperties RebateSqliteRefines RebateCall RebateService RebateServiceInvariant RebateServiceSteps RebateServiceClosing RebateServiceEvaluate RebateSharedLedger RebateRecovery RebateWorker RebateSystem RebateDemo.

#[local] Open Scope Z_scope.

(** ** Runs *)

Section runs.
Context {LSt RSt : Type} `{HS : LedgerStore LSt} `{HL : !LedgerStoreLaws LSt}.
Context `{HW : RebateWire} `{HR : RebateStore RSt} `{HRL : !RebateStoreLaws RSt} `{HI : RebateReservationIds}.
Context (policy : RebatePolicyConfig) (service_config : RebateServiceConfig) (catalog : gmap Address Z).
Context (config : RebateWorkerConfig) (log : RebateExecutedEvent → Prop).
Implicit Types (s : RebateService LSt RSt) (k : StrategyKey) (p : phase (LSt := LSt) (RSt := RSt)).

(** The worker's settings are unsigned, and reservation ids are non-zero hashes that name their batch. *)
Record deployed : Prop := {
  deployed_config : 0 ≤ start_block config ∧ 0 ≤ wc_reservation_ttl_secs config;
  deployed_own : ∀ bid deadline, own (reservation_id_of bid deadline) bid;
  deployed_nonzero : ∀ bid deadline, reservation_id_of bid deadline ≠ 0
}.

(** Nothing is stored or held yet. *)
Record installed s : Prop := {
  installed_batches : rs_batches s = ∅ ∧ rs_guards s = ∅;
  installed_ledger : service_ok (rs_ledger s) ∧ holds (rs_ledger s) = ∅;
  installed_store : rebate_store_ok (rs_store s) ∧ v_open (durable_view s) = ∅ ∧ v_settling (durable_view s) = ∅
}.

(** The phases of any run of an installation. *)
Definition reachable p : Prop :=
  ∃ s, installed s ∧ rtc (rebate_step policy service_config catalog config log) (Running s) p.

Lemma reachable_ok p : deployed → reachable p → phase_ok config log p.
Proof.
  intros [Hc Ho Hz] (s & [[Hb Hg] [Hl Hh] (Hst & Hopen & Hset)] & Hrun).
  refine (proj1 (system_run_ok policy service_config catalog config log Hc Ho Hz _ _ Hrun _)).
  destruct s as [m l g rst]. cbn in *. subst m g. by apply fresh_ok.
Qed.

(** The live state of a run, with any history that can be told of it. *)
Lemma reachable_rebate_ok s (H : RebateHistory) :
  deployed → reachable (Running s) → grows (past (RebateHistory := H)) (durable_view s) → (∀ ev, observed (RebateHistory := H) ev) →
  rebate_ok (HH := H) s.
Proof. intros Hd Hr%reachable_ok Hg Hobs; [|done]. by apply (rehistory _ _ Hr). Qed.

(** ** Properties *)

(** C13: in every run, inventory and quoting follow the batches.  A strategy whose batch is past accumulating is withheld
    from routing; executable work has its plan's inventory held by a pending reservation of that batch, or its mined
    execution is recorded; and every open rebate reservation of the ledger is named by one live batch, so none is leaked
    by a failed, interrupted or repeated transition. *)
Theorem rebate_inventory_is_accounted s :
  deployed → reachable (Running s) →
  (∀ k b, rs_batches s !! k = Some b → rb_state b ≠ BatchState.Accumulating → is_guarded (rs_guards s) k = true)
  ∧ (∀ k b e, rs_batches s !! k = Some b → rb_state b = BatchState.Ready e →
       held_for (rs_ledger s) (ex_reservation e) (rb_id b) (ex_plan e)
       ∨ is_Some (v_settling (durable_view s) !! rb_id b))
  ∧ (∀ r x bid, holds (rs_ledger s) !! r = Some x → res_owner x = Rebate bid → is_open (res_state x) →
       res_state x = Pending
       ∧ ∃ k b, rs_batches s !! k = Some b ∧ rb_id b = bid ∧ active_reservation (rb_state b) = Some r
           ∧ ∀ k' b', rs_batches s !! k' = Some b' → active_reservation (rb_state b') = Some r → k' = k).
Proof.
  intros Hd Hok%reachable_ok; [|done]. cbn in Hok. split_and!.
  - intros k b Hb Hs. apply bool_decide_eq_true. by eapply inv_guarded.
  - intros k b e Hb Hs. destruct (inv_ready _ Hok k b e Hb Hs) as [?|[? _]]; auto.
  - intros r x bid Hx Ho Hop. destruct (inv_owned _ Hok r x bid Hx Ho Hop) as (Hp & k & b & Hb & Hid & Ha).
    split; [done|]. exists k, b. split_and!; [done..|]. intros k' b' Hb' Ha'.
    destruct (live_own _ _ _ _ Hok Hb Ha) as [Hown _], (live_own _ _ _ _ Hok Hb' Ha') as [Hown' _].
    eapply (live_unique s); [done..|]. by eapply own_inj.
Qed.

(** C14: a mined leg is rebated once.  Along every run, across crashes and restarts, a leg that was attributed to a batch
    stays attributed to that batch with the same body, and a recorded execution of a batch is never replaced. *)
Theorem legs_are_rebated_once p p' :
  deployed → reachable p → rtc (rebate_step policy service_config catalog config log) p p' →
  (∀ k t bid a, v_attributed (phase_view p) !! (k, t) = Some (bid, a) → v_attributed (phase_view p') !! (k, t) = Some (bid, a))
  ∧ (∀ bid x, v_executed (phase_view p) !! bid = Some x → v_executed (phase_view p') !! bid = Some x).
Proof.
  intros Hd Hok%reachable_ok Hrun; [|done]. destruct Hd as [Hc Ho Hz].
  destruct (system_run_ok policy service_config catalog config log Hc Ho Hz _ _ Hrun Hok) as [_ [Ha He]].
  split; intros *; intros Hl; by eapply lookup_weaken.
Qed.

(** C20: a mined execution spends exactly the signed plan.  From any reachable state, [settle] either finds no live batch of
    that id and changes nothing; or fails and changes nothing, exactly because that batch is not executable, or the event
    is not the signed plan's or comes after its deadline; or it removes the batch, frees its strategy, posts its
    reservation with the plan's whole output, which is what the reservation holds, touches no other reservation, and
    records the event with the batch's plan and reservation (a reservation that an earlier attempt already posted stays as
    it is); or a database failed. *)
Theorem settlement_spends_the_signed_plan s event at_ :
  deployed → reachable (Running s) →
  outcome (settle event at_) (settled_to (HH := history (durable_view s) (λ _, True)) s event) s.
Proof. intros Hd Hr. apply settle_outcome; [|done]. by apply reachable_rebate_ok. Qed.

(** C33: a restart completes.  From the databases any run left, once the ledger has recovered, recovery of the rebate service
    succeeds: recorded settlements are completed, interrupted transitions are finished with their inventory released,
    every durable batch is live and withheld again, and the invariant holds.  It fails only because a database failed,
    or because the crash left a batch prepared with a plan whose input is zero, which its validation refuses; and either
    way what is durable still satisfies the invariant, so that recovery can be tried again. *)
Theorem rebate_recovery_completes lst rst budget_of l :
  deployed → reachable (Down lst rst) → (∀ a x, budget_of a = Ok x → is_u256 x) →
  LedgerService.recover budget_of (service_new lst) = (Ok tt, l) →
  outcome recover (recovered_to (HH := scan_history config log (view rst))) (mk_rebate_service ∅ l ∅ rst).
Proof.
  intros Hd Hr%reachable_ok Hb Hl; [|done]. by apply recover_outcome, (boot_recovering _ _ lst rst budget_of).
Qed.

(** A tick ends and leaves the system consistent.  With fuel for one round per confirmed leg the intake loop never runs
    out, whatever fails; work is expired only when no execution of it is recorded; and the invariant that the next scan
    will return every recorded, unfinished settlement again holds after it. *)
Theorem worker_tick_ends s legs fuel w head :
  deployed → reachable (Running s) →
  world_ok log w → Forall (λ a, 0 ≤ allocation_weight a) legs → source_ok legs (ww_pending w) → 0 ≤ head →
  (∀ c, ww_registry_cursor w = Some (Some c) → 0 ≤ c) → (List.length legs < fuel)%nat →
  let '(res, s') := tick policy service_config catalog config fuel w head s in
  res ≠ Err WOutOfFuel ∧ worker_ok config log s' ∧ kept (durable_view s) (durable_view s').
Proof.
  intros Hd Hok%reachable_ok Hw Hlegs Hsrc Hhead Hreg Hfuel; [|done]. destruct Hd as [[Hst Httl] Ho Hz].
  destruct (tick_outcome policy service_config catalog config log Ho Hz legs fuel w head s Hok Hw Hlegs Hsrc Hhead Hreg Hst Httl Hfuel)
    as (? & ? & ?). by destruct (tick _ _ _ _ _ _ _ s).
Qed.

(** What an evaluation reports is what it left.  A strategy reported quoteable is routable with an accumulating batch; one
    reported guarded is withheld; one reported ready is withheld with executable work of exactly the reported plan in its
    batch, whose inventory the ledger holds or whose execution is recorded; and the invariant holds on every path. *)
Theorem published_work_is_held_and_signed s w input :
  deployed → reachable (Running s) → evaluation_ok w input →
  (∀ b, rs_batches s !! strat_key (in_strategy input) = Some b → own (in_reservation_id input) (rb_id b)) →
  outcome (evaluate policy service_config catalog w input)
    (evaluated (HH := history (durable_view s) (λ _, True)) (strat_key (in_strategy input))) s.
Proof. intros Hd Hr Hev Hown. apply evaluate_outcome; [|done..]. by apply reachable_rebate_ok. Qed.

(** Intake takes in every confirmed leg.  A successful intake leaves every leg that the source knows attributed to a
    batch, but those of strategies whose work is executable, which wait in the trade tables. *)
Theorem intake_takes_in_every_leg s legs fuel w n :
  deployed → reachable (Running s) → Forall (λ a, 0 ≤ allocation_weight a) legs → source_ok legs (ww_pending w) →
  (List.length legs < fuel)%nat →
  outcome (intake fuel w n) (λ res s', match res with Ok _ => taken_in legs s' | Err e => e ≠ WOutOfFuel end) s.
Proof.
  intros Hd Hr Hlegs Hsrc Hfuel. eapply outcome_mono.
  - apply (intake_outcome legs (durable_view s) (λ _, True) w fuel s n Hlegs Hsrc); [by apply reachable_rebate_ok|].
    unfold waiting. pose proof (length_filter (λ a, v_attributed (durable_view s) !! leg a = None) legs). lia.
  - by intros [?|?] s' (_ & _ & ?).
Qed.

(** C34: whatever is durable is well formed: in every run, running or down, every open batch in the store passes the
    validation that recovery makes, unless it was prepared with a plan whose input is zero, and is then refused for
    exactly that plan; executable work never has such a plan; and every recorded settlement passes its validation and
    names an open executable batch. *)
Theorem durable_batches_validate p :
  deployed → reachable p →
  (∀ k b, v_open (phase_view p) !! k = Some b → validate_batch b = if free_plan b then Err PLAN_MISMATCH else Ok tt)
  ∧ (∀ k b e, v_open (phase_view p) !! k = Some b → rb_state b = BatchState.Ready e → rp_in (ex_plan e) ≠ 0)
  ∧ ∀ id x, v_settling (phase_view p) !! id = Some x → validate_settlement x = Ok tt
      ∧ ∃ k b e, v_open (phase_view p) !! k = Some b ∧ rb_id b = id ∧ rb_state b = BatchState.Ready e
          ∧ st_plan x = ex_plan e ∧ st_reservation x = ex_reservation e.
Proof.
  intros Hd Hok%reachable_ok; [|done].
  assert (Hgo : ∀ (H : RebateHistory) s, rebate_ok s →
    (∀ k b, v_open (durable_view s) !! k = Some b → validate_batch b = if free_plan b then Err PLAN_MISMATCH else Ok tt)
    ∧ (∀ k b e, v_open (durable_view s) !! k = Some b → rb_state b = BatchState.Ready e → rp_in (ex_plan e) ≠ 0)
    ∧ ∀ id x, v_settling (durable_view s) !! id = Some x → validate_settlement x = Ok tt
        ∧ ∃ k b e, v_open (durable_view s) !! k = Some b ∧ rb_id b = id ∧ rb_state b = BatchState.Ready e
            ∧ st_plan x = ex_plan e ∧ st_reservation x = ex_reservation e).
  { intros H s Hs. split_and!.
    { intros k b Hb. destruct (inv_durable _ Hs _ _ Hb) as [[? ? _ _] _]. by apply validate_batch_valid. }
    { intros k b e Hb He. destruct (inv_durable _ Hs _ _ Hb) as [[_ Hv _ _] _]. unfold state_valid in Hv. rewrite He in Hv.
      by destruct (proj1 (plan_matches_fits (ex_plan e) b) (proj1 Hv)). }
    intros id x Hx.
    destruct (inv_settling _ Hs id x Hx) as (Hv & k & b & e & Hb & Hid & He & Hp & Hr & _). split; [done|].
    exists k, b, e. destruct (live_ready _ _ _ _ Hs Hb He) as [? _]. done. }
  destruct p as [s|lst rst]; [by eapply Hgo|]. destruct Hok as (s & Hok & _ & <-). by apply (Hgo _ _ Hok).
Qed.

End runs.

(** ** Witnesses, on the SQLite stores *)

Abbreviation demo_reachable := (reachable demo_policy demo_service_config ∅ demo_worker_config demo_log).

Lemma demo_deployed : deployed demo_worker_config.
Proof. constructor; [done|apply demo_ids_own|apply demo_ids_nonzero]. Qed.

Lemma demo_installed : installed demo_fresh.
Proof.
  constructor; [done|split; [apply demo_service_ok|done]|]. split; [|done]. apply (inv_store _ demo_fresh_ok).
Qed.

Lemma demo_reach p :
  rtc (rebate_step demo_policy demo_service_config ∅ demo_worker_config demo_log) (Running demo_fresh) p → demo_reachable p.
Proof. intros Hr. exists demo_fresh. split; [apply demo_installed|done]. Qed.

Lemma rebate_inventory_is_accounted_witness :
  ∃ b e, rs_batches demo_published.2 !! demo_key = Some b ∧ rb_state b = BatchState.Ready e
    ∧ held_for (rs_ledger demo_published.2) (ex_reservation e) (rb_id b) (ex_plan e).
Proof.
  destruct demo_ready as (b & e & Hb & Hs & _ & Hn). exists b, e. split; [exact Hb|]. split; [exact Hs|].
  destruct (rebate_inventory_is_accounted demo_policy demo_service_config ∅ demo_worker_config demo_log demo_published.2
    demo_deployed (demo_reach _ demo_run_published)) as (_ & Hfund & _).
  destruct (Hfund demo_key b e Hb Hs) as [Hh|[x Hx]]; [exact Hh|]. rewrite Hn in Hx. discriminate Hx.
Defined.

Lemma legs_are_rebated_once_witness :
  ∃ bid a, v_attributed (durable_view demo_published.2) !! (demo_key, 1) = Some (bid, a)
    ∧ v_attributed (durable_view demo_settled.2) !! (demo_key, 1) = Some (bid, a).
Proof.
  assert (Hat : ∃ bid a, v_attributed (durable_view demo_published.2) !! (demo_key, 1) = Some (bid, a))
    by (do 2 eexists; vm_compute; reflexivity).
  destruct Hat as (bid & a & Hat). exists bid, a. split; [exact Hat|].
  exact (proj1 (legs_are_rebated_once demo_policy demo_service_config ∅ demo_worker_config demo_log (Running demo_published.2)
    (Running demo_settled.2) demo_deployed (demo_reach _ demo_run_published) demo_run_settled) demo_key 1 bid a Hat).
Defined.

Lemma settlement_spends_the_signed_plan_witness :
  (settle demo_event 2000 demo_published.2).1 = Ok true
  ∧ outcome (settle demo_event 2000) (settled_to (HH := history (durable_view demo_published.2) (λ _, True)) demo_published.2 demo_event)
      demo_published.2.
Proof.
  split; [vm_compute; reflexivity|].
  exact (settlement_spends_the_signed_plan demo_policy demo_service_config ∅ demo_worker_config demo_log demo_published.2 demo_event 2000
    demo_deployed (demo_reach _ demo_run_published)).
Defined.

Definition demo_down : RebateSqlite := rs_store demo_published.2.
Definition demo_restarted := LedgerService.recover (λ _, Ok 999100) (service_new (svc_store (rs_ledger demo_published.2))).

Lemma demo_run_down :
  rtc (rebate_step demo_policy demo_service_config ∅ demo_worker_config demo_log) (Running demo_fresh)
    (Down (svc_store (rs_ledger demo_published.2)) demo_down).
Proof. eapply rtc_r; [apply demo_run_published|apply step_crash]. Qed.

Lemma rebate_recovery_completes_witness :
  (recover (mk_rebate_service ∅ demo_restarted.2 ∅ demo_down)).1 = Ok tt
  ∧ outcome recover (recovered_to (HH := scan_history demo_worker_config demo_log (view demo_down)))
      (mk_rebate_service ∅ demo_restarted.2 ∅ demo_down).
Proof.
  split; [vm_compute; reflexivity|].
  assert (Hl : demo_restarted = (Ok tt, demo_restarted.2)).
  { rewrite (surjective_pairing demo_restarted) at 1. f_equal. }
  refine (rebate_recovery_completes demo_policy demo_service_config ∅ demo_worker_config demo_log _ demo_down (λ _, Ok 999100) _
    demo_deployed (demo_reach _ demo_run_down) _ Hl).
  intros a x Hx. injection Hx as <-. split; discriminate.
Defined.

Lemma worker_tick_ends_witness :
  demo_settled.1 = Ok (mk_report 0 0 1 0) ∧ worker_ok demo_worker_config demo_log demo_settled.2.
Proof.
  split; [vm_compute; reflexivity|].
  pose proof (worker_tick_ends demo_policy demo_service_config ∅ demo_worker_config demo_log demo_published.2 demo_accruals 3
    (demo_tick_world demo_fetch demo_known) 110 demo_deployed (demo_reach _ demo_run_published)
    (demo_world_ok _ _ (one_event_ok _ demo_event_block) (reflexivity _)) demo_accruals_ok (view_source_ok _) ltac:(lia)) as Ht.
  assert (Hreg : ∀ c, ww_registry_cursor (demo_tick_world demo_fetch demo_known) = Some (Some c) → 0 ≤ c).
  { intros c Hc. injection Hc as <-. lia. }
  assert (Hfuel : (List.length demo_accruals < 3)%nat) by (cbn; lia).
  specialize (Ht Hreg Hfuel). unfold demo_settled, demo_tick.
  destruct (tick demo_policy demo_service_config ∅ demo_worker_config 3 (demo_tick_world demo_fetch demo_known) 110 demo_published.2) as [res s'].
  exact (proj1 (proj2 Ht)).
Defined.

(** The evaluation that the second tick would make of the waiting batch. *)
Definition demo_waiting_id : RebateBatchId := batch_id (mk_accrual 1 demo_key 3 5 1000 990 10 1).
Definition demo_input : RebateEvaluationInput :=
  mk_evaluation demo_restorable demo_caps (minimums_of (TokenPair_new 3 5)) (reservation_id_of demo_waiting_id 130) 3600 130 1000.

Lemma demo_evaluation_ok : evaluation_ok demo_world demo_input.
Proof.
  destruct demo_restorable_ok as (Hs & Hb). constructor; cbn.
  - split_and!; [done..|apply demo_caps_words].
  - intros m Hm. unfold minimums_of in Hm. rewrite !elem_of_cons, elem_of_nil in Hm. destruct Hm as [->|[->|[]]]; cbn; lia.
  - apply demo_builder_ok.
  - intros a x [= <-]. split; discriminate.
  - lia.
  - apply demo_ids_nonzero.
Qed.

Lemma published_work_is_held_and_signed_witness :
  (∃ plan, (evaluate demo_policy demo_service_config ∅ demo_world demo_input demo_waiting.2).1 = Ok (Ready plan) ∧ maker_rebate plan = 46786)
  ∧ outcome (evaluate demo_policy demo_service_config ∅ demo_world demo_input)
      (evaluated (HH := history (durable_view demo_waiting.2) (λ _, True)) demo_key) demo_waiting.2.
Proof.
  split; [eexists; split; [vm_compute; reflexivity|reflexivity]|].
  refine (published_work_is_held_and_signed demo_policy demo_service_config ∅ demo_worker_config demo_log demo_waiting.2 demo_world demo_input
    demo_deployed (demo_reach _ demo_run_waiting) demo_evaluation_ok _).
  intros b Hb. exists 130. assert (Hid : rb_id <$> rs_batches demo_waiting.2 !! demo_key = Some demo_waiting_id) by (vm_compute; reflexivity).
  change (strat_key (in_strategy demo_input)) with demo_key in Hb. rewrite Hb in Hid. injection Hid as ->. reflexivity.
Defined.

Lemma intake_takes_in_every_leg_witness :
  (intake 3 (demo_tick_world demo_quiet ∅) 0 demo_synced).1 = Ok 2%nat
  ∧ outcome (intake 3 (demo_tick_world demo_quiet ∅) 0)
      (λ res s', match res with Ok _ => taken_in demo_accruals s' | Err e => e ≠ WOutOfFuel end) demo_synced.
Proof.
  split; [vm_compute; reflexivity|].
  refine (intake_takes_in_every_leg demo_policy demo_service_config ∅ demo_worker_config demo_log demo_synced demo_accruals 3
    (demo_tick_world demo_quiet ∅) 0 demo_deployed (demo_reach _ demo_run_synced) demo_accruals_ok (view_source_ok _) _).
  cbn. lia.
Defined.

Lemma durable_batches_validate_witness :
  ∃ b, v_open (durable_view demo_published.2) !! demo_key = Some b ∧ validate_batch b = Ok tt.
Proof.
  assert (Hb : is_Some (v_open (durable_view demo_published.2) !! demo_key)) by (eexists; vm_compute; reflexivity).
  assert (Hf : free_plan <$> v_open (durable_view demo_published.2) !! demo_key = Some false) by (vm_compute; reflexivity).
  destruct Hb as [b Hb]. exists b. split; [exact Hb|]. rewrite Hb in Hf. injection Hf as Hf.
  pose proof (proj1 (durable_batches_validate demo_policy demo_service_config ∅ demo_worker_config demo_log (Running demo_published.2)
    demo_deployed (demo_reach _ demo_run_published)) demo_key b Hb) as Hv. rewrite Hf in Hv. exact Hv.
Defined.

Definition demo_db : RebateSqlite := mk_rebate_db ∅ ∅ ∅ ∅ [].
Definition demo_ready_batch : RebateBatch := default (mk_batch 0 demo_key (TokenPair_new 3 5) ∅ BatchState.Guarded)
  (rs_batches demo_published.2 !! demo_key).

Lemma demo_ready_storable : batch_storable demo_ready_batch.
Proof.
  destruct demo_ready as (b & e & Hb & Hs & _). unfold demo_ready_batch. rewrite Hb. change (batch_storable b).
  assert (Hok : rebate_ok (HH := history (durable_view demo_published.2) (λ _, True)) demo_published.2).
  { apply (reachable_rebate_ok demo_policy demo_service_config ∅ demo_worker_config demo_log);
      [apply demo_deployed|apply demo_reach, demo_run_published|done|done]. }
  apply valid_storable; [by apply (live_durable _ _ _ Hok Hb)|]. intros e' He. assert (e' = e) as -> by congruence.
  by destruct (live_ready _ _ _ _ Hok Hb Hs) as (_ & _ & _ & Hx & _).
Qed.

Lemma sqlite_rebate_store_refines_witness :
  let ops := [OpSave demo_ready_batch; OpFinish (rb_id demo_ready_batch); OpClose (rb_id demo_ready_batch); OpSave demo_ready_batch; OpCursor 1 110] in
  let '(rs, db') := rebate_run demo_db ops in
  rs = [Ok tt; Err RebateDb; Ok tt; Err (RebateConflict (key_hash demo_key)); Ok tt]
  ∧ ∃ used, store_run (filed_ids demo_db) (sqlite_view demo_db) (zip ops (stopped <$> used)) rs (filed_ids db') (sqlite_view db').
Proof.
  intros ops. assert (Hops : Forall store_op_ok ops).
  { apply Forall_cons_2; [apply demo_ready_storable|]. do 2 (apply Forall_cons_2; [exact I|]). apply Forall_cons_2; [apply demo_ready_storable|].
    apply Forall_cons_2; [cbn; lia|apply Forall_nil_2]. }
  pose proof (sqlite_rebate_store_refines ops demo_db (inv_store _ demo_fresh_ok) Hops) as Hr.
  assert (Hrs : (rebate_run demo_db ops).1 = [Ok tt; Err RebateDb; Ok tt; Err (RebateConflict (key_hash demo_key)); Ok tt]) by (vm_compute; reflexivity).
  destruct (rebate_run demo_db ops) as [rs db']. destruct Hr as (_ & used & _ & _ & Hr). split; [exact Hrs|]. exists used. exact Hr.
Defined.

Lemma saved_batch_is_read_back_witness :
  ∃ bs, (sqlite_open_batches (sqlite_save demo_ready_batch demo_db).2).1 = Ok bs ∧ demo_ready_batch ∈ bs.
Proof.
  assert (Hs : sqlite_save demo_ready_batch demo_db = (Ok tt, (sqlite_save demo_ready_batch demo_db).2)) by (vm_compute; reflexivity).
  assert (Hr : ∃ bs db2, sqlite_open_batches (sqlite_save demo_ready_batch demo_db).2 = (Ok bs, db2)) by (do 2 eexists; vm_compute; reflexivity).
  destruct Hr as (bs & db2 & Hr). exists bs. split; [rewrite Hr; reflexivity|].
  destruct (saved_batch_is_read_back demo_ready_batch demo_db _ bs db2 (inv_store _ demo_fresh_ok) demo_ready_storable Hs Hr) as [Hin _].
  assert (Hu : with_accruals demo_ready_batch (rb_accruals demo_ready_batch ∪ from_option rb_accruals ∅ (v_open (sqlite_view demo_db) !! rb_strategy demo_ready_batch))
    = demo_ready_batch) by (vm_compute; reflexivity).
  rewrite Hu in Hin. exact Hin.
Defined.
