(* ===== verification/Intent.v ===== *)
(** * Orders

    The order as the rest of the system reads it: [primitives/ingest/curve.rs] (amounts
    that decay over time), [primitives/ingest/fee.rs] (the executor's fee),
    [primitives/ingest/intent.rs], and the admission of raw orders by
    [ingest/service.rs]. *)

From S2P Require Import Prelude U256 Ratio.

(** ** Amount curves *)

Inductive Rounding : Type := Up | Down.

Inductive AmountCurve : Type :=
| Static (amount : U256)
| Linear (start end_ : U256) (start_time end_time : Z) (rounding : Rounding).

Definition dutch (start end_ : U256) (start_time end_time : Z) : AmountCurve :=
  match start ?= end_ with
  | Eq => Static start
  | Lt => Linear start end_ start_time end_time Up
  | Gt => Linear start end_ start_time end_time Down
  end.

(** How far the amount has moved inside the window; [None] where the source would panic. *)
Definition decay (start end_ : U256) (start_time end_time : Z) (rounding : Rounding) (t : Z) : option U256 :=
  frac ← Ratio_new (t - start_time) (end_time - start_time);
  let rising := start <=? end_ in
  let magnitude := if rising then wrapping_sub end_ start else wrapping_sub start end_ in
  let moved := ratio_mul (ratio_from magnitude) frac in
  match rounding with Up => ceil moved | Down => floor moved end.

Definition amount_at (c : AmountCurve) (t : Z) : U256 :=
  match c with
  | Static amount => amount
  | Linear start end_ start_time end_time rounding =>
      if t <=? start_time then start
      else if end_time <=? t then end_
      else
        let delta := default 0 (decay start end_ start_time end_time rounding t) in
        if start <=? end_ then wrapping_add start delta else wrapping_sub start delta
  end.

(** ** The executor's fee *)

Definition BPS_DENOMINATOR : Z := 10000.

Inductive FeeError : Type := FeeBps | FeeOverflow | InputBelowFee.

(** [ExecutionFeePolicy] is its basis points. *)
Definition ExecutionFeePolicy_new (bps : Z) : result FeeError Z :=
  if (bps =? 0) || (BPS_DENOMINATOR <=? bps) then Err FeeBps else Ok bps.

Definition fee (bps : Z) (gross_input : U256) : result FeeError U256 :=
  let quotient := gross_input / BPS_DENOMINATOR in
  let remainder := gross_input mod BPS_DENOMINATOR in
  base ← ok_or (checked_mul quotient bps) FeeOverflow;
  rounded_remainder ← ok_or (value ← checked_mul remainder bps;
                             value ← checked_add value (BPS_DENOMINATOR - 1);
                             Some (value / BPS_DENOMINATOR)) FeeOverflow;
  fee ← ok_or (checked_add base rounded_remainder) FeeOverflow;
  Ok (Z.max fee 1).

Definition routing_input (bps : Z) (gross_input : U256) : result FeeError U256 :=
  fee ← fee bps gross_input;
  ok_or (amount ← checked_sub gross_input fee; if amount =? 0 then None else Some amount) InputBelowFee.

(** ** Intents *)

Inductive ProtocolId : Type := UniswapXV2 | Erc7683.

#[global] Instance ProtocolId_eq_dec : EqDecision ProtocolId.
Proof. solve_decision. Defined.

Record IntentInput := mk_input { inp_token : Address; inp_curve : AmountCurve }.

Record IntentOutput := mk_output { out_token : Address; out_curve : AmountCurve; out_recipient : Address }.

Record Exclusivity := mk_exclusivity { excl_filler : Address; excl_ends_at : Z }.

Record Intent := mk_intent {
  int_id : IntentId;
  int_protocol : ProtocolId;
  int_input : IntentInput;
  routing_input_limit : option U256;
  int_outputs : list IntentOutput;
  int_deadline : Z;
  int_exclusivity : option Exclusivity;
  int_settler : Address;
  origin_chain : Z;
  int_raw : list Z;
  int_signature : list Z;
  observed_at : Z
}.

Record RawOrder := mk_raw {
  raw_protocol : ProtocolId;
  raw_chain : Z;
  raw_payload : list Z;
  raw_signature : list Z;
  raw_observed_at : Z
}.

(** ** The admission pipeline *)

Section pipeline.
Context (normalizer : ProtocolId → option (RawOrder → option Intent)) (supported_chains : gset Z) (dedup_ttl : Z).

Definition is_admissible (now : Z) (intent : Intent) : bool :=
  if negb (bool_decide (origin_chain intent ∈ supported_chains)) then false
  else if int_deadline intent <=? now then false
  else if (length (int_outputs intent) =? 0)%nat then false
  else if amount_at (inp_curve (int_input intent)) now =? 0 then false
  else if existsb (λ o, amount_at (out_curve o) now =? 0) (int_outputs intent) then false
  else true.

(** The cache of orders already let through: when each was entered, on the cache's own clock; an entry is found until it
    is [dedup_ttl] old. *)
Definition dedup_get (dedup : gmap IntentId Z) (at_ : Z) (id : IntentId) : bool :=
  match dedup !! id with Some entered => at_ <? entered + dedup_ttl | None => false end.

Definition process (at_ now : Z) (raw : RawOrder) (dedup : gmap IntentId Z) : option Intent * gmap IntentId Z :=
  match normalizer (raw_protocol raw) with
  | None => (None, dedup)
  | Some normalize =>
      match normalize raw with
      | None => (None, dedup)
      | Some intent =>
          if negb (is_admissible now intent) then (None, dedup)
          else if dedup_get dedup at_ (int_id intent) then (None, dedup)
          else (Some intent, <[int_id intent := at_]> dedup)
      end
  end.

(** An order of the merged feeds: the instant and the wall-clock second it is processed at, and whether the decision loop
    still takes what is sent to it. *)
Record Arrival := mk_arrival { arr_at : Z; arr_now : Z; arr_raw : RawOrder; arr_taken : bool }.

(** What reaches the decision loop, with the instant it was sent; the loop ends with the feeds or with its receiver. *)
Fixpoint run_pipeline (arrivals : list Arrival) (dedup : gmap IntentId Z) : list (Z * Intent) :=
  match arrivals with
  | [] => []
  | x :: rest =>
      match process (arr_at x) (arr_now x) (arr_raw x) dedup with
      | (None, dedup) => run_pipeline rest dedup
      | (Some intent, dedup) => if arr_taken x then (arr_at x, intent) :: run_pipeline rest dedup else []
      end
  end.

End pipeline.

(** * Properties of orders and their admission *)

(** ** Amount curves *)

(** The amounts are words, and the window is not empty. *)
Definition curve_wf (c : AmountCurve) : Prop :=
  match c with
  | Static amount => is_u256 amount
  | Linear start end_ start_time end_time rounding =>
      is_u256 start ∧ is_u256 end_ ∧ start_time < end_time
      ∧ (start < end_ → rounding = Up) ∧ (end_ < start → rounding = Down)
  end.

Lemma dutch_wf start end_ start_time end_time :
  is_u256 start → is_u256 end_ → start_time < end_time → curve_wf (dutch start end_ start_time end_time).
Proof. intros Hs He Ht. unfold dutch. destruct (Z.compare_spec start end_); cbn; [done|..]; split_and!; (done || lia). Qed.

Lemma scaled_bounds m e w : 0 ≤ m → 0 ≤ e ≤ w → 0 < w → 0 ≤ m * e / w ≤ m ∧ 0 ≤ - (- (m * e) / w) ≤ m.
Proof.
  intros Hm He Hw. assert (0 ≤ m * e ≤ m * w) by nia.
  assert (0 ≤ m * e / w) by (apply Z.div_pos; lia). assert (m * e / w ≤ m) by (apply Z.div_le_upper_bound; lia).
  assert (- (m * e) / w ≤ 0) by (apply Z.div_le_upper_bound; lia). assert (- m ≤ - (m * e) / w) by (apply Z.div_le_lower_bound; lia).
  lia.
Qed.

(** Inside the window nothing panics, and the amount is the interpolation rounded up. *)
Lemma decay_Some start end_ start_time end_time rounding t :
  is_u256 start → is_u256 end_ → start_time < t < end_time →
  ∃ d, decay start end_ start_time end_time rounding t = Some d ∧ 0 ≤ d ≤ Z.abs (end_ - start)
    ∧ d = match rounding with
          | Up => - (- (Z.abs (end_ - start) * (t - start_time)) / (end_time - start_time))
          | Down => Z.abs (end_ - start) * (t - start_time) / (end_time - start_time)
          end.
Proof.
  intros Hs He Ht. unfold decay. set (e := t - start_time). set (w := end_time - start_time).
  destruct (Ratio_new e w) as [frac|] eqn:Hf; [|unfold Ratio_new in Hf; case_match; zbool; [lia|done]].
  cbn [mbind option_bind]. apply Ratio_new_Some in Hf; [|lia].
  assert (Hm : (if start <=? end_ then wrapping_sub end_ start else wrapping_sub start end_) = Z.abs (end_ - start)).
  { case_match; zbool; rewrite wrapping_sub_exact by u256; lia. }
  rewrite Hm. set (m := Z.abs (end_ - start)). assert (Hmu : 0 ≤ m ≤ U256_MAX) by u256.
  destruct (scaled_bounds m e w) as [Hd Hu]; [lia..|].
  destruct rounding; eexists; (split; [|split; [|reflexivity]; lia]).
  - apply (ceil_scaled m e w frac); [lia|done|]. split; [done|]. u256.
  - apply (floor_scaled m e w frac); [lia|done|]. split; [done|]. u256.
Qed.

(** The amount at a time, as an integer: the interpolation between the end points, rounded up. *)
Lemma amount_at_exact start end_ start_time end_time rounding t :
  curve_wf (Linear start end_ start_time end_time rounding) → start_time < t < end_time →
  amount_at (Linear start end_ start_time end_time rounding) t
  = start - (start - end_) * (t - start_time) / (end_time - start_time).
Proof.
  intros (Hs & He & Hw & Hup & Hdown) Ht.
  destruct (decay_Some start end_ start_time end_time rounding t) as (d & Hd & Hb & Heq); [done..|].
  cbn [amount_at]. rewrite Hd. cbn [from_option id]. destruct (t <=? start_time) eqn:E1; zbool; [lia|].
  destruct (end_time <=? t) eqn:E2; zbool; [lia|]. destruct (start <=? end_) eqn:E3; zbool.
  - rewrite wrapping_add_exact by u256.
    destruct (decide (start = end_)) as [->|Hne].
    { rewrite Z.sub_diag, Z.mul_0_l, Z.div_0_l by lia. lia. }
    rewrite (Hup ltac:(lia)) in Heq. rewrite Heq, Z.abs_eq by lia.
    replace (- ((end_ - start) * (t - start_time))) with ((start - end_) * (t - start_time)) by lia. lia.
  - rewrite wrapping_sub_exact by u256. rewrite (Hdown ltac:(lia)) in Heq. rewrite Heq, Z.abs_neq by lia.
    by replace (- (end_ - start)) with (start - end_) by lia.
Qed.

(** A curve that moves only one way stays between its end points. *)
Lemma amount_at_mono start end_ start_time end_time rounding t t' :
  curve_wf (Linear start end_ start_time end_time rounding) → t ≤ t' →
  let c := Linear start end_ start_time end_time rounding in
  (start ≤ end_ → start ≤ amount_at c t ≤ amount_at c t' ∧ amount_at c t' ≤ end_)
  ∧ (end_ ≤ start → end_ ≤ amount_at c t' ≤ amount_at c t ∧ amount_at c t ≤ start).
Proof.
  intros Hwf Ht c. pose proof Hwf as (_ & _ & Hw & _).
  assert (Hat : ∀ u, amount_at c u = start - (start - end_) * (Z.min (Z.max u start_time) end_time - start_time) / (end_time - start_time)).
  { intros u. destruct (decide (u ≤ start_time)); [|destruct (decide (end_time ≤ u))].
    - rewrite Z.max_r, Z.min_l, Z.sub_diag, Z.mul_0_r, Z.div_0_l by lia. cbn.
      destruct (u <=? start_time) eqn:E; zbool; lia.
    - rewrite Z.min_r, Z.div_mul by lia. cbn. destruct (u <=? start_time) eqn:E; zbool; [lia|].
      destruct (end_time <=? u) eqn:E'; zbool; lia.
    - rewrite Z.max_l, Z.min_l by lia. apply amount_at_exact; [done|lia]. }
  rewrite !Hat. set (w := end_time - start_time) in *.
  set (a := Z.min (Z.max t start_time) end_time - start_time). set (b := Z.min (Z.max t' start_time) end_time - start_time).
  assert (Hab : 0 ≤ a ≤ b ∧ b ≤ w) by lia. assert (Hwp : 0 < w) by lia.
  assert (Hdm : ∀ x y, x ≤ y → x / w ≤ y / w) by (intros; apply Z.div_le_mono; lia).
  split; intros Hse.
  - pose proof (Hdm ((start - end_) * b) ((start - end_) * a) ltac:(nia)).
    pose proof (Hdm ((start - end_) * a) 0 ltac:(nia)) as Hz. rewrite Z.div_0_l in Hz by lia.
    pose proof (Hdm ((start - end_) * w) ((start - end_) * b) ltac:(nia)) as Hm. rewrite Z.div_mul in Hm by lia. lia.
  - pose proof (Hdm ((start - end_) * a) ((start - end_) * b) ltac:(nia)).
    pose proof (Hdm 0 ((start - end_) * a) ltac:(nia)) as Hz. rewrite Z.div_0_l in Hz by lia.
    pose proof (Hdm ((start - end_) * b) ((start - end_) * w) ltac:(nia)) as Hm. rewrite Z.div_mul in Hm by lia. lia.
Qed.

Lemma amount_at_word c t : curve_wf c → is_u256 (amount_at c t).
Proof.
  destruct c as [amount|start end_ st et r]; [done|]. intros Hwf. pose proof Hwf as (Hs & He & _).
  destruct (amount_at_mono start end_ st et r t t Hwf ltac:(lia)) as [Hup Hdown].
  destruct (Z.le_ge_cases start end_) as [H|H]; [specialize (Hup H)|specialize (Hdown H)]; u256.
Qed.

(** ** The executor's fee *)

(** The split computation is the exact rounded-up share, and it never overflows. *)
Lemma fee_exact bps gross :
  0 < bps < BPS_DENOMINATOR → is_u256 gross →
  fee bps gross = Ok (Z.max 1 (- (- (gross * bps) / BPS_DENOMINATOR))).
Proof.
  intros Hb Hg. unfold fee, BPS_DENOMINATOR in *. pose proof (Z.div_mod gross 10000 ltac:(lia)) as Hdm.
  pose proof (Z.mod_pos_bound gross 10000 ltac:(lia)) as Hr. set (q := gross / 10000) in *. set (r := gross mod 10000) in *.
  assert (Hq : 0 ≤ q) by (apply Z.div_pos; u256). pose proof U256_MAX_big.
  unfold checked_mul, checked_add. destruct (q * bps <=? U256_MAX) eqn:E1; zbool; [|unfold is_u256 in Hg; nia].
  cbn [ok_or mbind result_bind option_bind]. destruct (r * bps <=? U256_MAX) eqn:E2; zbool; [|nia]. cbn [ok_or mbind result_bind option_bind].
  destruct (r * bps + (10000 - 1) <=? U256_MAX) eqn:E3; zbool; [|nia]. cbn [ok_or mbind result_bind option_bind].
  set (y := (r * bps + (10000 - 1)) / 10000).
  assert (Hy : 10000 * y ≤ r * bps + 9999 < 10000 * y + 10000).
  { pose proof (Z.div_mod (r * bps + (10000 - 1)) 10000 ltac:(lia)).
    pose proof (Z.mod_pos_bound (r * bps + (10000 - 1)) 10000 ltac:(lia)). subst y. lia. }
  assert (Hfee : - (- (gross * bps) / 10000) = q * bps + y).
  { assert (Hx : - (gross * bps) / 10000 = - (q * bps + y)); [|lia]. symmetry. apply Z.div_unique_pos with (10000 * y - r * bps); lia. }
  destruct (q * bps + y <=? U256_MAX) eqn:E4; zbool; [|unfold is_u256 in Hg; nia]. cbn [ok_or mbind result_bind option_bind].
  rewrite Hfee. apply (f_equal Ok), Z.max_comm.
Qed.

(** ** Admission *)

Section admission.
Context (normalizer : ProtocolId → option (RawOrder → option Intent)) (supported_chains : gset Z) (dedup_ttl : Z).

(** What an order must be to reach the decision loop. *)
Record admitted (now : Z) (raw : RawOrder) (intent : Intent) : Prop := {
  admitted_decoded : ∃ normalize, normalizer (raw_protocol raw) = Some normalize ∧ normalize raw = Some intent;
  admitted_chain : origin_chain intent ∈ supported_chains;
  admitted_live : now < int_deadline intent;
  admitted_outputs : int_outputs intent ≠ [];
  admitted_input : amount_at (inp_curve (int_input intent)) now ≠ 0;
  admitted_amounts : ∀ o, o ∈ int_outputs intent → amount_at (out_curve o) now ≠ 0
}.

Lemma is_admissible_true now intent :
  is_admissible supported_chains now intent = true ↔
  origin_chain intent ∈ supported_chains ∧ now < int_deadline intent ∧ int_outputs intent ≠ []
  ∧ amount_at (inp_curve (int_input intent)) now ≠ 0 ∧ ∀ o, o ∈ int_outputs intent → amount_at (out_curve o) now ≠ 0.
Proof.
  unfold is_admissible. case_bool_decide as Hc; cbn [negb]; [|naive_solver].
  destruct (int_deadline intent <=? now) eqn:Hd; zbool; [naive_solver lia|].
  destruct (int_outputs intent) as [|o os] eqn:Ho; [naive_solver|]. cbn [length Nat.eqb].
  destruct (_ =? 0) eqn:Hi; zbool; [naive_solver|]. rewrite <-Ho.
  destruct (existsb _ _) eqn:Hx.
  - apply existsb_exists in Hx as (x & Hx%list_elem_of_In & Hz). zbool. naive_solver.
  - split; [|done]. intros _. split_and!; [done|lia|congruence|done|]. intros x Hin Hz.
    assert (existsb (λ o, amount_at (out_curve o) now =? 0) (int_outputs intent) = true); [|congruence].
    apply existsb_exists. exists x. split; [by apply list_elem_of_In|lia].
Qed.

(** The order's hash was let through less than [dedup_ttl] ago. *)
Definition recent (dedup : gmap IntentId Z) (at_ : Z) (id : IntentId) : Prop :=
  ∃ entered, dedup !! id = Some entered ∧ at_ < entered + dedup_ttl.

Lemma dedup_get_true dedup at_ id : dedup_get dedup_ttl dedup at_ id = true ↔ recent dedup at_ id.
Proof. unfold dedup_get, recent. destruct (dedup !! id) as [e|]; [|naive_solver]. rewrite Z.ltb_lt. naive_solver. Qed.

Lemma process_Some at_ now raw dedup intent dedup' :
  process normalizer supported_chains dedup_ttl at_ now raw dedup = (Some intent, dedup') →
  admitted now raw intent ∧ ¬ recent dedup at_ (int_id intent) ∧ dedup' = <[int_id intent := at_]> dedup.
Proof.
  unfold process. destruct (normalizer _) as [normalize|] eqn:Hn; [|done]. destruct (normalize raw) as [i|] eqn:Hi; [|done].
  destruct (is_admissible _ _ i) eqn:Ha; cbn [negb]; [|done]. destruct (dedup_get _ _ _ _) eqn:Hd; [done|]. intros [= <- <-].
  apply is_admissible_true in Ha as (?&?&?&?&?). rewrite <-dedup_get_true, Hd. split; [|done]. split; eauto.
Qed.

Lemma process_None at_ now raw dedup dedup' :
  process normalizer supported_chains dedup_ttl at_ now raw dedup = (None, dedup') →
  dedup' = dedup ∧ ∀ intent, admitted now raw intent → recent dedup at_ (int_id intent).
Proof.
  unfold process. intros Hp. destruct (normalizer _) as [normalize|] eqn:Hn.
  2: { injection Hp as <-. split; [done|]. intros i [(? & ? & _) _ _ _ _ _]. congruence. }
  destruct (normalize raw) as [i|] eqn:Hi.
  2: { injection Hp as <-. split; [done|]. intros i [(? & ? & ?) _ _ _ _ _]. congruence. }
  destruct (is_admissible _ _ i) eqn:Ha; cbn [negb] in Hp.
  - destruct (dedup_get _ _ _ _) eqn:Hd; [|done]. injection Hp as <-. split; [done|]. apply dedup_get_true in Hd.
    intros i' [(? & ? & ?) _ _ _ _ _]. congruence.
  - injection Hp as <-. split; [done|]. intros i' [(n & Hn' & Hi') ? ? ? ? ?]. assert (i' = i) as -> by congruence.
    assert (is_admissible supported_chains now i = true); [|congruence]. by apply is_admissible_true.
Qed.

(** Two orders of one hash are let through at least [dedup_ttl] apart. *)
Definition spaced (p q : Z * Intent) : Prop := int_id p.2 = int_id q.2 → p.1 + dedup_ttl ≤ q.1.

Lemma recent_insert dedup at_ id id' at' :
  recent (<[id := at_]> dedup) at' id' ↔ if decide (id' = id) then at' < at_ + dedup_ttl else recent dedup at' id'.
Proof.
  unfold recent. case_decide as Hid; [subst id'; rewrite lookup_insert_eq|rewrite lookup_insert_ne by done]; naive_solver.
Qed.

Lemma run_pipeline_spaced arrivals dedup :
  0 ≤ dedup_ttl →
  let out := run_pipeline normalizer supported_chains dedup_ttl arrivals dedup in
  StronglySorted spaced out ∧ ∀ p, p ∈ out → ¬ recent dedup p.1 (int_id p.2).
Proof.
  intros Httl. revert dedup. induction arrivals as [|x arrivals IH]; intros dedup; cbn [run_pipeline].
  { split; [constructor|by intros ? ?%elem_of_nil]. }
  destruct (process _ _ _ _ _ _ dedup) as [[i|] d1] eqn:Hp; [|apply process_None in Hp as [-> _]; apply IH].
  apply process_Some in Hp as (_ & Hnr & ->). destruct (arr_taken x); [|split; [constructor|by intros ? ?%elem_of_nil]].
  destruct (IH (<[int_id i := arr_at x]> dedup)) as [Hs Hn]. split.
  - constructor; [done|]. apply Forall_forall. intros q Hq Hid%symmetry. specialize (Hn q Hq). rewrite recent_insert in Hn.
    cbn in Hid. rewrite decide_True in Hn by done. cbn. lia.
  - intros q [->|Hq]%elem_of_cons; [done|]. specialize (Hn q Hq). rewrite recent_insert in Hn. case_decide as Hid; [|done].
    intros (e & He & Hl). apply Hnr. exists e. rewrite <-Hid. split; [done|lia].
Qed.

Lemma run_pipeline_sound arrivals dedup at_ i :
  (at_, i) ∈ run_pipeline normalizer supported_chains dedup_ttl arrivals dedup →
  ∃ x, x ∈ arrivals ∧ arr_at x = at_ ∧ admitted (arr_now x) (arr_raw x) i.
Proof.
  revert dedup. induction arrivals as [|x arrivals IH]; intros dedup; cbn [run_pipeline]; [by intros ?%elem_of_nil|].
  assert (Hrest : ∀ d, (at_, i) ∈ run_pipeline normalizer supported_chains dedup_ttl arrivals d →
    ∃ x', x' ∈ x :: arrivals ∧ arr_at x' = at_ ∧ admitted (arr_now x') (arr_raw x') i).
  { intros d (x' & ? & ?)%IH. exists x'. split; [by right|done]. }
  destruct (process _ _ _ _ _ _ dedup) as [[j|] d1] eqn:Hp; [|apply Hrest].
  apply process_Some in Hp as (Ha & _). destruct (arr_taken x); [|by intros ?%elem_of_nil].
  intros [[= -> ->]|Hin]%elem_of_cons; [|by eapply Hrest]. exists x. split; [left|done].
Qed.

Lemma run_pipeline_complete arrivals dedup x i :
  0 < dedup_ttl → StronglySorted Z.le (arr_at <$> arrivals) → Forall (λ y, arr_taken y = true) arrivals →
  x ∈ arrivals → admitted (arr_now x) (arr_raw x) i →
  recent dedup (arr_at x) (int_id i)
  ∨ ∃ p, p ∈ run_pipeline normalizer supported_chains dedup_ttl arrivals dedup
         ∧ int_id p.2 = int_id i ∧ p.1 ≤ arr_at x < p.1 + dedup_ttl.
Proof.
  intros Httl Hsort Htaken. revert dedup. induction arrivals as [|y arrivals IH]; intros dedup Hx Ha; cbn [run_pipeline]; [by apply elem_of_nil in Hx|].
  cbn in Hsort. apply StronglySorted_cons in Hsort as [Hle Hsort]. apply Forall_cons in Htaken as [Hy Htaken].
  destruct (process _ _ _ _ _ _ dedup) as [[j|] d1] eqn:Hp.
  - apply process_Some in Hp as (Haj & Hnr & ->). rewrite Hy. apply elem_of_cons in Hx as [->|Hx].
    { right. exists (arr_at y, j). split; [left|]. destruct Ha as [(? & ? & ?) _ _ _ _ _], Haj as [(? & ? & ?) _ _ _ _ _]. simplify_eq.
      cbn. split; [done|lia]. }
    destruct (IH Hsort Htaken (<[int_id j := arr_at y]> dedup) Hx Ha) as [Hr|(p & ? & ? & ?)]; [|right; exists p; split; [by right|done]].
    rewrite recent_insert in Hr. case_decide as Hid; [|by left]. right. exists (arr_at y, j). split; [left|]. cbn. split; [done|].
    split; [|done]. rewrite Forall_forall in Hle. by apply Hle, list_elem_of_fmap_2.
  - apply process_None in Hp as [-> Hseen]. apply elem_of_cons in Hx as [->|Hx]; [left; by apply Hseen|by apply IH].
Qed.

End admission.

(** ** Theorems *)

(** A Dutch amount is the exact line, rounded for the swapper.  Inside and outside its window the amount is the line through
    the two points at the clamped time, rounded down when the amount falls and up when it rises; so it is a word, it
    never leaves the interval between its ends, and over time it only moves from the first towards the second. *)
Theorem dutch_amounts_are_exact start end_ start_time end_time t t' :
  is_u256 start → is_u256 end_ → start_time < end_time → t ≤ t' →
  let c := dutch start end_ start_time end_time in
  amount_at c t = start - (start - end_) * (Z.max start_time (Z.min t end_time) - start_time) / (end_time - start_time)
  ∧ (start ≤ end_ → start ≤ amount_at c t ≤ amount_at c t' ∧ amount_at c t' ≤ end_)
  ∧ (end_ ≤ start → end_ ≤ amount_at c t' ≤ amount_at c t ∧ amount_at c t ≤ start).
Proof.
  intros Hs He Hw Ht c. pose proof (dutch_wf start end_ start_time end_time Hs He Hw) as Hwf. subst c. unfold dutch in *.
  destruct (Z.compare_spec start end_) as [->|Hlt|Hgt].
  { cbn [amount_at]. rewrite Z.sub_diag, Z.mul_0_l, Z.div_0_l by lia. lia. }
  all: split; [|by apply amount_at_mono]; destruct (Z.le_gt_cases t start_time) as [H1|H1];
    [cbn [amount_at]; rewrite (proj2 (Z.leb_le _ _)) by lia; replace (_ - start_time) with 0 by lia; by rewrite Z.mul_0_r, Z.div_0_l, Z.sub_0_r by lia|];
    destruct (Z.le_gt_cases end_time t) as [H2|H2];
    [cbn [amount_at]; rewrite (proj2 (Z.leb_gt _ _)) by lia; rewrite (proj2 (Z.leb_le end_time t)) by lia;
     replace (Z.max _ _) with end_time by lia; rewrite Z.div_mul by lia; lia|];
    rewrite amount_at_exact by (done || lia); by replace (Z.max _ _) with t by lia.
Qed.

Lemma dutch_amounts_are_exact_witness :
  let c := dutch 1000 1 0 10 in
  amount_at c 3 = 701 ∧ amount_at c 3 = 1000 - (1000 - 1) * (Z.max 0 (Z.min 3 10) - 0) / (10 - 0).
Proof.
  intros c. split; [vm_compute; reflexivity|].
  apply (dutch_amounts_are_exact 1000 1 0 10 3 7); [split; vm_compute; congruence..|lia|lia].
Defined.

(** C37: the pipeline lets through exactly the orders worth deciding on, once per window.  Whatever the feeds carry and for as long
    as the decision loop listens: each order sent on is the decoding, by the normalizer of its own protocol, of an order
    that at its arrival was on a supported chain, before its deadline and with non-zero amounts on both sides; two
    orders of one hash are sent at least the deduplication window apart; and an order that qualifies is sent on its
    arrival or repeats one sent less than a window before. *)
Theorem pipeline_admits_live_orders_once normalizer supported_chains dedup_ttl arrivals :
  0 < dedup_ttl → StronglySorted Z.le (arr_at <$> arrivals) →
  let out := run_pipeline normalizer supported_chains dedup_ttl arrivals ∅ in
  StronglySorted (spaced dedup_ttl) out
  ∧ (∀ at_ i, (at_, i) ∈ out → ∃ x, x ∈ arrivals ∧ arr_at x = at_ ∧ admitted normalizer supported_chains (arr_now x) (arr_raw x) i)
  ∧ (Forall (λ x, arr_taken x = true) arrivals →
     ∀ x i, x ∈ arrivals → admitted normalizer supported_chains (arr_now x) (arr_raw x) i →
     ∃ p, p ∈ out ∧ int_id p.2 = int_id i ∧ p.1 ≤ arr_at x < p.1 + dedup_ttl).
Proof.
  intros Httl Hsort out. split; [apply run_pipeline_spaced; lia|]. split; [intros at_ i; apply run_pipeline_sound|].
  intros Htaken x i Hx Ha. destruct (run_pipeline_complete normalizer supported_chains dedup_ttl arrivals ∅ x i) as [(? & He & _)|?]; [done..| |done].
  by rewrite lookup_empty in He.
Qed.

(** An order of a feed that decodes to a fixed intent: sent, repeated inside the window, and sent again after it. *)
Definition sample_intent : Intent :=
  mk_intent 7 UniswapXV2 (mk_input 2 (Static 10)) None [mk_output 3 (Static 5) 1] 100 None 9 1 [] [] 0.

Lemma pipeline_admits_live_orders_once_witness :
  let raw := mk_raw UniswapXV2 1 [] [] 0 in
  let arrivals := [mk_arrival 0 50 raw true; mk_arrival 4 54 raw true; mk_arrival 20 70 raw true; mk_arrival 40 100 raw true] in
  let out := run_pipeline (λ _, Some (λ _, Some sample_intent)) {[1]} 10 arrivals ∅ in
  out = [(0, sample_intent); (20, sample_intent)] ∧ StronglySorted (spaced 10) out.
Proof.
  intros raw arrivals out. split; [vm_compute; reflexivity|].
  apply (pipeline_admits_live_orders_once (λ _, Some (λ _, Some sample_intent)) {[1]} 10 arrivals); [lia|].
  cbn. repeat first [lia | apply StronglySorted_cons; split | apply Forall_cons; split | constructor].
Defined.
