(* ===== verification/Trade.v ===== *)
(** * Trades

    [primitives/trade.rs]: a submitted swap, the stages it passed through and the makers
    it sourced; and the [TradeStore] port ([deps/trade.rs]) as a class, with the contract
    its clients rely on: a table of trades with one row per signed order, moved forward by
    [advance] and closed once by [settle].

    A floating-point column that is stored and never read by the core is carried as its
    bits. *)

From stdpp Require Import strings.
From S2P Require Import Prelude Commands U256 Reservation.

(** ** The lifecycle *)

Inductive TradeStatus : Type :=
| Created | Quoted | Reserved | Simulated | Submitted | Confirmed | Declined | Failed.

#[global] Instance TradeStatus_eq_dec : EqDecision TradeStatus.
Proof. solve_decision. Defined.

Definition status_str (s : TradeStatus) : string :=
  match s with
  | Created => "created" | Quoted => "quoted" | Reserved => "reserved" | Simulated => "simulated"
  | Submitted => "submitted" | Confirmed => "confirmed" | Declined => "declined" | Failed => "failed"
  end.

Definition rank (s : TradeStatus) : Z :=
  match s with
  | Created => 0 | Quoted => 1 | Reserved => 2 | Simulated => 3
  | Submitted => 4 | Confirmed => 5 | Declined => 6 | Failed => 7
  end.

Definition status_from_str (s : string) : option TradeStatus :=
  if bool_decide (s = "created") then Some Created
  else if bool_decide (s = "quoted") then Some Quoted
  else if bool_decide (s = "reserved") then Some Reserved
  else if bool_decide (s = "simulated") then Some Simulated
  else if bool_decide (s = "submitted") then Some Submitted
  else if bool_decide (s = "confirmed") then Some Confirmed
  else if bool_decide (s = "declined") then Some Declined
  else if bool_decide (s = "failed") then Some Failed
  else None.

Lemma status_round_trip s : status_from_str (status_str s) = Some s.
Proof. by destruct s. Qed.

Lemma status_str_inj s s' : status_str s = status_str s' → s = s'.
Proof. intros Hs. pose proof (status_round_trip s) as H1. rewrite Hs, status_round_trip in H1. congruence. Qed.

Lemma rank_inj s s' : rank s = rank s' → s = s'.
Proof. by destruct s, s'. Qed.

(** ** Records *)

Record Trade := mk_trade {
  t_id : TradeId;
  order_hash : IntentId;
  taker : Address;
  t_token_in : Address;
  t_token_out : Address;
  t_amount_in : U256;
  min_amount_out : U256;
  t_amount_out : option U256;
  status : TradeStatus;
  deadline_block : Z;
  signature : option (list Z);
  price_impact : option Z;
  surplus : option U256;
  tx_hash : option B256;
  block_number : option Z;
  created_at : Z;
  settled_at : option Z;
  token_in_price_usd : option Z;
  token_out_price_usd : option Z
}.

Record TradeLeg := mk_trade_leg {
  tl_maker : MakerId;
  tl_strategy_hash : StrategyHash;
  tl_amount_in : U256;
  tl_amount_out : U256
}.

Record TradeAttempt := mk_attempt { attempt_status : TradeStatus; attempt_at : Z }.

Record TradeInfo := mk_info { info_trade : Trade; info_attempts : list TradeAttempt; info_legs : list TradeLeg }.

#[global] Instance Trade_eq_dec : EqDecision Trade.
Proof. solve_decision. Defined.
#[global] Instance TradeLeg_eq_dec : EqDecision TradeLeg.
Proof. solve_decision. Defined.

Record CreateResult := mk_create_result { cr_id : TradeId; cr_created : bool }.

Record Settlement := mk_settlement {
  set_status : TradeStatus;
  set_amount_out : option U256;
  set_tx_hash : option B256;
  set_block_number : option Z;
  set_at : Z
}.

Record TradeFilter := mk_trade_filter {
  f_status : option TradeStatus;
  f_taker : option Address;
  f_pair : option (Address * Address);
  f_strategy_hash : option StrategyHash
}.

Record Page := mk_page { page_limit : Z; page_cursor : option TradeId }.

Record MakerFill := mk_maker_fill { fill_trade : Trade; fill_amount_in : U256; fill_amount_out : U256 }.

Inductive TradeStoreError : Type := TradeDb.

(** ** The port *)

Class TradeStore (St : Type) := {
  trade_create : Trade → list TradeLeg → list TradeAttempt → cmd St TradeStoreError CreateResult;
  trade_advance : TradeId → TradeStatus → Z → cmd St TradeStoreError unit;
  trade_settle : TradeId → Settlement → cmd St TradeStoreError unit;
  trade_info : TradeId → cmd St TradeStoreError (option TradeInfo);
  find_by_order : IntentId → cmd St TradeStoreError (option Trade);
  trade_list : TradeFilter → Page → cmd St TradeStoreError (list Trade);
  list_for_maker : MakerId → Page → option (Z * Z) → cmd St TradeStoreError (list MakerFill)
}.

(** ** What a store represents *)

(** A trade with its legs and the first time it reached each stage. *)
Record TradeRecord := mk_record {
  tr_trade : Trade;
  tr_legs : list TradeLeg;
  tr_attempts : gmap string Z
}.

Abbreviation TradeView := (gmap TradeId TradeRecord).

Definition add_attempt (m : gmap string Z) (a : TradeAttempt) : gmap string Z :=
  match m !! status_str (attempt_status a) with Some _ => m | None => <[status_str (attempt_status a) := attempt_at a]> m end.

Definition with_status (t : Trade) (s : TradeStatus) : Trade :=
  mk_trade (t_id t) (order_hash t) (taker t) (t_token_in t) (t_token_out t) (t_amount_in t) (min_amount_out t) (t_amount_out t)
    s (deadline_block t) (signature t) (price_impact t) (surplus t) (tx_hash t) (block_number t) (created_at t) (settled_at t)
    (token_in_price_usd t) (token_out_price_usd t).

Definition with_settlement (t : Trade) (o : Settlement) : Trade :=
  mk_trade (t_id t) (order_hash t) (taker t) (t_token_in t) (t_token_out t) (t_amount_in t) (min_amount_out t)
    (set_amount_out o) (set_status o) (deadline_block t) (signature t) (price_impact t) (surplus t) (set_tx_hash o)
    (set_block_number o) (created_at t) (Some (set_at o)) (token_in_price_usd t) (token_out_price_usd t).

(** Forward only, and never once settled. *)
Definition advance_trade (s : TradeStatus) (t : Trade) : Trade :=
  match settled_at t with
  | None => if rank (status t) <? rank s then with_status t s else t
  | Some _ => t
  end.

(** Once. *)
Definition settle_trade (o : Settlement) (t : Trade) : Trade :=
  match settled_at t with None => with_settlement t o | Some _ => t end.

Definition view_create (t : Trade) (legs : list TradeLeg) (attempts : list TradeAttempt) (v : TradeView) : TradeView :=
  <[t_id t := mk_record t legs (foldl add_attempt ∅ attempts)]> v.

Definition view_advance (id : TradeId) (s : TradeStatus) (at_ : Z) (v : TradeView) : TradeView :=
  alter (λ r, mk_record (advance_trade s (tr_trade r)) (tr_legs r) (add_attempt (tr_attempts r) (mk_attempt s at_))) id v.

Definition view_settle (id : TradeId) (o : Settlement) (v : TradeView) : TradeView :=
  alter (λ r, mk_record (settle_trade o (tr_trade r)) (tr_legs r)
                (add_attempt (tr_attempts r) (mk_attempt (set_status o) (set_at o)))) id v.

(** The trade of an order. *)
Definition of_order (v : TradeView) (h : IntentId) (id : TradeId) (r : TradeRecord) : Prop :=
  v !! id = Some r ∧ order_hash (tr_trade r) = h.

(** Rows are filed under their id and each order has one. *)
Record trades_ok (v : TradeView) : Prop := {
  trades_filed : ∀ id r, v !! id = Some r → t_id (tr_trade r) = id;
  trades_orders : ∀ id id' r r', v !! id = Some r → v !! id' = Some r' → order_hash (tr_trade r) = order_hash (tr_trade r') → id = id'
}.

(** ** The contract *)

(** Times and blocks are unsigned. *)
Definition trade_typed (t : Trade) : Prop :=
  0 ≤ deadline_block t ∧ 0 ≤ created_at t ∧ (∀ b, block_number t = Some b → 0 ≤ b) ∧ (∀ a, settled_at t = Some a → 0 ≤ a).

Definition settlement_typed (o : Settlement) : Prop := 0 ≤ set_at o ∧ ∀ b, set_block_number o = Some b → 0 ≤ b.

Class TradeStoreLaws (St : Type) `{TradeStore St} := {
  trade_view : St → TradeView;
  trade_store_ok : St → Prop;
  trade_view_ok s : trade_store_ok s → trades_ok (trade_view s);
  create_law t legs attempts s : trade_typed t → Forall (λ a, 0 ≤ attempt_at a) attempts → trade_store_ok s →
    outcome (trade_create t legs attempts) (λ res s', trade_store_ok s' ∧
      match res with
      | Ok c =>
          (∃ r, of_order (trade_view s) (order_hash t) (cr_id c) r ∧ cr_created c = false ∧ trade_view s' = trade_view s)
          ∨ ((∀ id r, ¬ of_order (trade_view s) (order_hash t) id r) ∧ trade_view s !! t_id t = None
             ∧ c = mk_create_result (t_id t) true ∧ trade_view s' = view_create t legs attempts (trade_view s))
      | Err _ => trade_view s' = trade_view s
      end) s;
  advance_law id st at_ s : 0 ≤ at_ → trade_store_ok s →
    outcome (trade_advance id st at_) (λ res s', trade_store_ok s' ∧
      match res with
      | Ok _ => is_Some (trade_view s !! id) ∧ trade_view s' = view_advance id st at_ (trade_view s)
      | Err _ => trade_view s' = trade_view s
      end) s;
  settle_law id o s : settlement_typed o → trade_store_ok s →
    outcome (trade_settle id o) (λ res s', trade_store_ok s' ∧
      match res with
      | Ok _ => is_Some (trade_view s !! id) ∧ trade_view s' = view_settle id o (trade_view s)
      | Err _ => trade_view s' = trade_view s
      end) s;
  info_law id s : trade_store_ok s →
    outcome (trade_info id) (λ res s', trade_store_ok s' ∧ trade_view s' = trade_view s ∧
      match res with
      | Ok (Some i) => ∃ r, trade_view s !! id = Some r ∧ info_trade i = tr_trade r ∧ info_legs i = tr_legs r
          ∧ ∀ a, a ∈ info_attempts i ↔ tr_attempts r !! status_str (attempt_status a) = Some (attempt_at a)
      | Ok None => trade_view s !! id = None
      | Err _ => True
      end) s;
  find_law h s : trade_store_ok s →
    outcome (find_by_order h) (λ res s', trade_store_ok s' ∧ trade_view s' = trade_view s ∧
      match res with
      | Ok (Some t) => ∃ r, of_order (trade_view s) h (t_id t) r ∧ tr_trade r = t
      | Ok None => ∀ id r, ¬ of_order (trade_view s) h id r
      | Err _ => True
      end) s
}.

(** ** The life of a trade *)

(** A trade only moves forward: the order it carries never changes, its rank never falls while it is open, and once settled
    its header is final. *)
Record moves (t t' : Trade) : Prop := {
  moves_id : t_id t' = t_id t;
  moves_order : order_hash t' = order_hash t;
  moves_rank : settled_at t' = None → rank (status t) ≤ rank (status t');
  moves_settled : ∀ at_, settled_at t = Some at_ → t' = t
}.

Lemma moves_refl t : moves t t.
Proof. by split. Qed.

Lemma moves_trans t1 t2 t3 : moves t1 t2 → moves t2 t3 → moves t1 t3.
Proof.
  intros [I1 O1 R1 S1] [I2 O2 R2 S2]. split; [congruence..| |].
  - intros Hs. etrans; [apply R1|by apply R2]. destruct (settled_at t2) as [a|] eqn:E; [|done].
    rewrite (S2 a eq_refl), E in Hs. done.
  - intros a Ha. rewrite (S2 a); [by eapply S1|]. by rewrite (S1 a Ha).
Qed.

Lemma moves_advance s t : moves t (advance_trade s t).
Proof.
  unfold advance_trade. destruct (settled_at t) as [a|] eqn:E; [apply moves_refl|].
  case_match; zbool; [|apply moves_refl]. split; cbn; [done..| |congruence]. intros _. lia.
Qed.

Lemma moves_settle o t : moves t (settle_trade o t).
Proof. unfold settle_trade. destruct (settled_at t) as [a|] eqn:E; [apply moves_refl|]. split; cbn; (done || congruence). Qed.

(** A later view knows every trade of an earlier one, with the same legs and stages, and moved forward. *)
Definition follows (v v' : TradeView) : Prop :=
  ∀ id r, v !! id = Some r → ∃ r', v' !! id = Some r' ∧ moves (tr_trade r) (tr_trade r') ∧ tr_legs r' = tr_legs r
    ∧ tr_attempts r ⊆ tr_attempts r'.

#[global] Instance follows_preorder : PreOrder follows.
Proof.
  split.
  - intros v id r Hr. exists r. split_and!; [done|apply moves_refl|done|done].
  - intros v1 v2 v3 H1 H2 id r (r2 & Hr2 & Hm & Hl & Ha)%H1. apply H2 in Hr2 as (r3 & Hr3 & Hm3 & Hl3 & Ha3).
    exists r3. split_and!; [done|by eapply moves_trans|congruence|by etrans].
Qed.

Lemma add_attempt_grows m a : m ⊆ add_attempt m a.
Proof. unfold add_attempt. destruct (m !! _) eqn:E; [done|]. by apply insert_subseteq. Qed.

Lemma follows_alter id f v :
  (∀ r, moves (tr_trade r) (tr_trade (f r)) ∧ tr_legs (f r) = tr_legs r ∧ tr_attempts r ⊆ tr_attempts (f r)) → follows v (alter f id v).
Proof.
  intros Hf id' r Hr. destruct (decide (id' = id)) as [->|Hne].
  - rewrite lookup_alter_eq, Hr. exists (f r). split; [done|apply Hf].
  - rewrite lookup_alter_ne by done. exists r. split_and!; [done|apply moves_refl|done|done].
Qed.

Lemma follows_advance id s at_ v : follows v (view_advance id s at_ v).
Proof. apply follows_alter. intros r. cbn. split_and!; [apply moves_advance|done|apply add_attempt_grows]. Qed.

Lemma follows_settle id o v : follows v (view_settle id o v).
Proof. apply follows_alter. intros r. cbn. split_and!; [apply moves_settle|done|apply add_attempt_grows]. Qed.

Lemma follows_create t legs attempts v : v !! t_id t = None → follows v (view_create t legs attempts v).
Proof.
  intros Hn id r Hr. exists r. unfold view_create. rewrite lookup_insert_ne by congruence.
  split_and!; [done|apply moves_refl|done|done].
Qed.
