(* ===== verification/TradeSqlite.v ===== *)
(** * The SQLite trade store

    [adapters/src/trade/sqlite_store.rs]: the tables [trade], [trade_attempt] and
    [trade_leg], the statements of each method in their order, and the proof that they meet
    the contract of the port.  As in the other stores each statement consumes one outcome;
    a transaction that does not reach its commit changes nothing.  Foreign keys are
    enforced, as the driver does by default: an attempt of an unknown trade is refused. *)

From stdpp Require Import strings.
From Stdlib Require Import String.
From S2P Require Import Prelude Commands U256 Reservation LedgerStore Trade.

#[local] Open Scope Z_scope.

(** ** Tables *)

Record TradeRow := mk_trade_row {
  row_order_hash : IntentId;
  row_taker : Address;
  row_token_in : Address;
  row_token_out : Address;
  row_amount_in : U256;
  row_min_amount_out : U256;
  row_amount_out : option U256;
  row_status : string;
  row_status_rank : Z;
  row_deadline_block : Z;
  row_signature : option (list Z);
  row_price_impact : option Z;
  row_surplus : option U256;
  row_tx_hash : option B256;
  row_block_number : option Z;
  row_created_at : Z;
  row_settled_at : option Z;
  row_in_price : option Z;
  row_out_price : option Z
}.

(** [trade] by id, [trade_attempt] by trade and stage, [trade_leg] by trade and position. *)
Record TradeDatabase := mk_trade_db {
  trade_rows : gmap TradeId TradeRow;
  attempt_rows : gmap (TradeId * string) Z;
  leg_rows : gmap (TradeId * Z) TradeLeg;
  trade_outcomes : list bool
}.

Definition trade_statement : cmd TradeDatabase TradeStoreError unit := λ db,
  match trade_outcomes db with
  | [] => (Ok tt, db)
  | ok :: rest => ((if ok : bool then Ok tt else Err TradeDb), mk_trade_db (trade_rows db) (attempt_rows db) (leg_rows db) rest)
  end.

(** Commit the tables of a transaction. *)
Definition commit_tables (t : gmap TradeId TradeRow) (a : gmap (TradeId * string) Z) (l : gmap (TradeId * Z) TradeLeg) :
    cmd TradeDatabase TradeStoreError unit :=
  _ ← trade_statement; modify (λ db, mk_trade_db t a l (trade_outcomes db)).

(** ** Columns *)

Definition trade_i64_of (value : Z) : result TradeStoreError Z := if value <=? I64_MAX then Ok value else Err TradeDb.

Definition opt_i64_of (value : option Z) : result TradeStoreError (option Z) :=
  match value with Some v => x ← trade_i64_of v; Ok (Some x) | None => Ok None end.

Definition count (value : Z) : result TradeStoreError Z := if value <? 0 then Err TradeDb else Ok value.

Definition opt_count (value : option Z) : result TradeStoreError (option Z) :=
  match value with Some v => x ← count v; Ok (Some x) | None => Ok None end.

Definition row_to_trade (id : TradeId) (row : TradeRow) : result TradeStoreError Trade :=
  st ← ok_or (status_from_str (row_status row)) TradeDb;
  deadline ← count (row_deadline_block row);
  block ← opt_count (row_block_number row);
  created ← count (row_created_at row);
  settled ← opt_count (row_settled_at row);
  Ok (mk_trade id (row_order_hash row) (row_taker row) (row_token_in row) (row_token_out row) (row_amount_in row)
        (row_min_amount_out row) (row_amount_out row) st deadline (row_signature row) (row_price_impact row) (row_surplus row)
        (row_tx_hash row) block created settled (row_in_price row) (row_out_price row)).

(** The row that an insert of [t] writes. *)
Definition row_of_trade (t : Trade) : result TradeStoreError TradeRow :=
  deadline ← trade_i64_of (deadline_block t);
  block ← opt_i64_of (block_number t);
  created ← trade_i64_of (created_at t);
  settled ← opt_i64_of (settled_at t);
  Ok (mk_trade_row (order_hash t) (taker t) (t_token_in t) (t_token_out t) (t_amount_in t) (min_amount_out t) (t_amount_out t)
        (status_str (status t)) (rank (status t)) deadline (signature t) (price_impact t) (surplus t) (tx_hash t) block created
        settled (token_in_price_usd t) (token_out_price_usd t)).

(** ** Statements *)

(** [SELECT .. FROM trade WHERE order_hash = ?], which a unique index keeps to one row. *)
Definition order_row (t : gmap TradeId TradeRow) (h : IntentId) : option (TradeId * TradeRow) :=
  head (filter (λ p, row_order_hash p.2 = h) (entries t)).

(** The table an insert leaves and whether it inserted. *)
Definition insert_trade (t : gmap TradeId TradeRow) (trade : Trade) :
    cmd TradeDatabase TradeStoreError (gmap TradeId TradeRow * bool) :=
  row ← lift (row_of_trade trade);
  _ ← trade_statement;
  match order_row t (order_hash trade) with
  | Some _ => mret (t, false) (* on conflict (order_hash) do nothing *)
  | None =>
      match t !! t_id trade with
      | Some _ => fail TradeDb (* the primary key *)
      | None => mret (<[t_id trade := row]> t, true)
      end
  end.

Fixpoint insert_legs (id : TradeId) (idx : Z) (legs : list TradeLeg) (l : gmap (TradeId * Z) TradeLeg) :
    cmd TradeDatabase TradeStoreError (gmap (TradeId * Z) TradeLeg) :=
  match legs with
  | [] => mret l
  | leg :: legs' =>
      _ ← trade_statement;
      match l !! (id, idx) with
      | Some _ => fail TradeDb
      | None => insert_legs id (idx + 1) legs' (<[(id, idx) := leg]> l)
      end
  end.

Definition insert_attempt (t : gmap TradeId TradeRow) (id : TradeId) (s : TradeStatus) (at_ : Z) (a : gmap (TradeId * string) Z) :
    cmd TradeDatabase TradeStoreError (gmap (TradeId * string) Z) :=
  at_ ← lift (trade_i64_of at_);
  _ ← trade_statement;
  match a !! (id, status_str s) with
  | Some _ => mret a (* on conflict do nothing *)
  | None => match t !! id with
            | Some _ => mret (<[(id, status_str s) := at_]> a)
            | None => fail TradeDb (* the foreign key *)
            end
  end.

Fixpoint insert_attempts (t : gmap TradeId TradeRow) (id : TradeId) (attempts : list TradeAttempt) (a : gmap (TradeId * string) Z) :
    cmd TradeDatabase TradeStoreError (gmap (TradeId * string) Z) :=
  match attempts with
  | [] => mret a
  | x :: attempts' => a ← insert_attempt t id (attempt_status x) (attempt_at x) a; insert_attempts t id attempts' a
  end.

(** ** The port *)

Definition sqlite_create (trade : Trade) (legs : list TradeLeg) (attempts : list TradeAttempt) :
    cmd TradeDatabase TradeStoreError CreateResult :=
  _ ← trade_statement; (* begin *)
  db ← gets (λ db, db);
  p ← insert_trade (trade_rows db) trade;
  if p.2 : bool then
    l ← insert_legs (t_id trade) 0 legs (leg_rows db);
    a ← insert_attempts p.1 (t_id trade) attempts (attempt_rows db);
    _ ← commit_tables p.1 a l;
    mret (mk_create_result (t_id trade) true)
  else
    _ ← trade_statement; (* select *)
    id ← lift (ok_or (fst <$> order_row (trade_rows db) (order_hash trade)) TradeDb);
    _ ← commit_tables (trade_rows db) (attempt_rows db) (leg_rows db);
    mret (mk_create_result id false).

(** [UPDATE trade SET status = ?, status_rank = ? WHERE id = ? AND status_rank < ? AND settled_at IS NULL] *)
Definition advance_row (s : TradeStatus) (row : TradeRow) : TradeRow :=
  if (row_status_rank row <? rank s) && bool_decide (row_settled_at row = None)
  then mk_trade_row (row_order_hash row) (row_taker row) (row_token_in row) (row_token_out row) (row_amount_in row)
         (row_min_amount_out row) (row_amount_out row) (status_str s) (rank s) (row_deadline_block row) (row_signature row)
         (row_price_impact row) (row_surplus row) (row_tx_hash row) (row_block_number row) (row_created_at row)
         (row_settled_at row) (row_in_price row) (row_out_price row)
  else row.

Definition sqlite_advance (id : TradeId) (s : TradeStatus) (at_ : Z) : cmd TradeDatabase TradeStoreError unit :=
  _ ← trade_statement; (* begin *)
  _ ← trade_statement; (* update *)
  db ← gets (λ db, db);
  let t := alter (advance_row s) id (trade_rows db) in
  a ← insert_attempt t id s at_ (attempt_rows db);
  commit_tables t a (leg_rows db).

(** [UPDATE trade SET .. WHERE id = ? AND settled_at IS NULL] *)
Definition settle_row (o : Settlement) (block : option Z) (at_ : Z) (row : TradeRow) : TradeRow :=
  if bool_decide (row_settled_at row = None)
  then mk_trade_row (row_order_hash row) (row_taker row) (row_token_in row) (row_token_out row) (row_amount_in row)
         (row_min_amount_out row) (set_amount_out o) (status_str (set_status o)) (rank (set_status o)) (row_deadline_block row)
         (row_signature row) (row_price_impact row) (row_surplus row) (set_tx_hash o) block (row_created_at row) (Some at_)
         (row_in_price row) (row_out_price row)
  else row.

Definition sqlite_settle (id : TradeId) (o : Settlement) : cmd TradeDatabase TradeStoreError unit :=
  _ ← trade_statement; (* begin *)
  block ← lift (opt_i64_of (set_block_number o));
  at_ ← lift (trade_i64_of (set_at o));
  _ ← trade_statement; (* update *)
  db ← gets (λ db, db);
  let t := alter (settle_row o block at_) id (trade_rows db) in
  a ← insert_attempt t id (set_status o) (set_at o) (attempt_rows db);
  commit_tables t a (leg_rows db).

Definition sqlite_find_by_order (h : IntentId) : cmd TradeDatabase TradeStoreError (option Trade) :=
  _ ← trade_statement;
  db ← gets (λ db, db);
  match order_row (trade_rows db) h with
  | Some (id, row) => t ← lift (row_to_trade id row); mret (Some t)
  | None => mret None
  end.

Definition row_to_attempt (p : string * Z) : result TradeStoreError TradeAttempt :=
  s ← ok_or (status_from_str p.1) TradeDb; at_ ← count p.2; Ok (mk_attempt s at_).

(** [ORDER BY at, status] *)
Definition attempt_le (p q : string * Z) : Prop := p.2 < q.2 ∨ (p.2 = q.2 ∧ String.leb p.1 q.1 = true).

#[global] Instance attempt_le_dec : RelDecision attempt_le.
Proof. intros p q. unfold attempt_le. apply _. Defined.

Definition trade_attempts (a : gmap (TradeId * string) Z) (id : TradeId) : list (string * Z) :=
  merge_sort attempt_le ((λ p, (p.1.2, p.2)) <$> filter (λ p, p.1.1 = id) (map_to_list a)).

#[global] Program Instance OrdKey_pair : OrdKey (Z * Z) := {| ord_key p := [p.1; p.2] |}.
Next Obligation. intros [] []. cbn. congruence. Qed.

Definition trade_legs_of (l : gmap (TradeId * Z) TradeLeg) (id : TradeId) : list TradeLeg :=
  omap (l !!.) (filter (λ k, k.1 = id) (keys l)).

Definition sqlite_info (id : TradeId) : cmd TradeDatabase TradeStoreError (option TradeInfo) :=
  _ ← trade_statement;
  db ← gets (λ db, db);
  match trade_rows db !! id with
  | None => mret None
  | Some row =>
      _ ← trade_statement;
      attempts ← lift (collect row_to_attempt (trade_attempts (attempt_rows db) id));
      _ ← trade_statement;
      t ← lift (row_to_trade id row);
      mret (Some (mk_info t attempts (trade_legs_of (leg_rows db) id)))
  end.

(** ** Listings *)

Definition opt_matches {A} `{EqDecision A} (o : option A) (x : A) : bool :=
  match o with Some y => bool_decide (x = y) | None => true end.

Definition matches (db : TradeDatabase) (f : TradeFilter) (page : Page) (p : TradeId * TradeRow) : bool :=
  match f_status f with Some s => bool_decide (row_status p.2 = status_str s) | None => true end
  && opt_matches (f_taker f) (row_taker p.2)
  && match f_pair f with
     | Some (a, b) => ((row_token_in p.2 =? a) && (row_token_out p.2 =? b)) || ((row_token_in p.2 =? b) && (row_token_out p.2 =? a))
     | None => true
     end
  && match f_strategy_hash f with
     | Some h => existsb (λ leg, tl_strategy_hash leg =? h) (trade_legs_of (leg_rows db) p.1)
     | None => true
     end
  && match page_cursor page with Some c => p.1 <? c | None => true end.

(** [ORDER BY id DESC LIMIT ?] *)
Definition newest (limit : Z) (rows : list (TradeId * TradeRow)) : list (TradeId * TradeRow) :=
  take (Z.to_nat limit) (reverse rows).

Definition sqlite_list (f : TradeFilter) (page : Page) : cmd TradeDatabase TradeStoreError (list Trade) :=
  _ ← trade_statement;
  db ← gets (λ db, db);
  lift (collect (λ p, row_to_trade p.1 p.2) (newest (page_limit page) (List.filter (matches db f page) (entries (trade_rows db))))).

Definition in_window (window : option (Z * Z)) (row : TradeRow) : bool :=
  match window with
  | Some (from, to) =>
      bool_decide (row_status row = "confirmed"%string)
      && match row_settled_at row with Some at_ => (from <=? at_) && (at_ <? to) | None => false end
  | None => true
  end.

(** Add the maker's legs of one trade to the fills read so far. *)
Definition add_leg (id : TradeId) (row : TradeRow) (fills : list MakerFill) (leg : TradeLeg) : result TradeStoreError (list MakerFill) :=
  match last fills with
  | Some fill =>
      if t_id (fill_trade fill) =? id then
        i ← ok_or (checked_add (fill_amount_in fill) (tl_amount_in leg)) TradeDb;
        o ← ok_or (checked_add (fill_amount_out fill) (tl_amount_out leg)) TradeDb;
        Ok (take (List.length fills - 1) fills ++ [mk_maker_fill (fill_trade fill) i o])
      else t ← row_to_trade id row; Ok (fills ++ [mk_maker_fill t (tl_amount_in leg) (tl_amount_out leg)])
  | None => t ← row_to_trade id row; Ok (fills ++ [mk_maker_fill t (tl_amount_in leg) (tl_amount_out leg)])
  end.

Definition maker_legs (l : gmap (TradeId * Z) TradeLeg) (maker : MakerId) (id : TradeId) : list TradeLeg :=
  List.filter (λ leg, tl_maker leg =? maker) (trade_legs_of l id).

Definition sqlite_list_for_maker (maker : MakerId) (page : Page) (window : option (Z * Z)) :
    cmd TradeDatabase TradeStoreError (list MakerFill) :=
  window ← lift (match window with
                 | Some (from, to) => from ← trade_i64_of from; to ← trade_i64_of to; Ok (Some (from, to))
                 | None => Ok None
                 end);
  _ ← trade_statement;
  db ← gets (λ db, db);
  let rows := newest (page_limit page)
    (List.filter (λ p, negb (List.length (maker_legs (leg_rows db) maker p.1) =? 0)%nat && in_window window p.2
                       && match page_cursor page with Some c => p.1 <? c | None => true end) (entries (trade_rows db))) in
  lift (try_fold (λ fills p, try_fold (add_leg p.1 p.2) fills (maker_legs (leg_rows db) maker p.1)) [] rows).

#[global] Instance sqlite_trade_store : TradeStore TradeDatabase := {|
  trade_create := sqlite_create;
  trade_advance := sqlite_advance;
  trade_settle := sqlite_settle;
  trade_info := sqlite_info;
  find_by_order := sqlite_find_by_order;
  trade_list := sqlite_list;
  list_for_maker := sqlite_list_for_maker
|}.
