(* ===== verification/TradeSqliteProperties.v ===== *)
(** * The SQLite trade store meets the port's contract *)

From stdpp Require Import strings.
From S2P Require Import Prelude Commands U256 Reservation LedgerStore Trade TradeSqlite.

#[local] Open Scope Z_scope.

(** ** What the tables represent *)

Implicit Types (db : TradeDatabase) (row : TradeRow) (id : TradeId).

Definition attempts_of (a : gmap (TradeId * string) Z) id : gmap string Z := list_to_map (trade_attempts a id).

Definition record_of db id row : option TradeRecord :=
  t ← ok (row_to_trade id row); Some (mk_record t (trade_legs_of (leg_rows db) id) (attempts_of (attempt_rows db) id)).

Definition sqlite_trade_view db : TradeView := map_imap (record_of db) (trade_rows db).

(** A row as the store writes it. *)
Record row_ok row : Prop := {
  row_status_ok : ∃ s, row_status row = status_str s ∧ row_status_rank row = rank s;
  row_times_ok : 0 ≤ row_deadline_block row ∧ 0 ≤ row_created_at row
    ∧ (∀ b, row_block_number row = Some b → 0 ≤ b) ∧ ∀ a, row_settled_at row = Some a → 0 ≤ a
}.

Record trade_db_ok db : Prop := {
  db_rows : ∀ id row, trade_rows db !! id = Some row → row_ok row;
  db_orders : ∀ id id' row row', trade_rows db !! id = Some row → trade_rows db !! id' = Some row' →
    row_order_hash row = row_order_hash row' → id = id';
  db_attempts : ∀ id s at_, attempt_rows db !! (id, s) = Some at_ →
    is_Some (trade_rows db !! id) ∧ 0 ≤ at_ ∧ ∃ st, s = status_str st;
  db_legs : ∀ id idx leg, leg_rows db !! (id, idx) = Some leg → is_Some (trade_rows db !! id)
}.

(** ** Rows and trades *)

Lemma count_Ok v : 0 ≤ v → count v = Ok v.
Proof. intros Hv. unfold count. by destruct (v <? 0) eqn:E; zbool; [lia|]. Qed.

Lemma opt_count_Ok o : (∀ v, o = Some v → 0 ≤ v) → opt_count o = Ok o.
Proof. intros Ho. destruct o as [v|]; cbn; [|done]. by rewrite count_Ok by auto. Qed.

Lemma trade_i64_of_Ok v x : trade_i64_of v = Ok x → x = v.
Proof. unfold trade_i64_of. case_match; [by intros [= <-]|done]. Qed.

Lemma opt_i64_of_Ok o x : opt_i64_of o = Ok x → x = o.
Proof. destruct o as [v|]; cbn; [|by intros [= <-]]. intros (y & ->%trade_i64_of_Ok & [= <-])%bind_Ok. done. Qed.

(** A row that the store wrote reads back as a trade. *)
Lemma row_to_trade_ok id row : row_ok row → ∃ t, row_to_trade id row = Ok t
  ∧ t_id t = id ∧ order_hash t = row_order_hash row ∧ settled_at t = row_settled_at row ∧ rank (status t) = row_status_rank row.
Proof.
  intros [(s & Hs & Hr) (Hd & Hc & Hb & Ha)]. unfold row_to_trade.
  rewrite Hs, status_round_trip, (count_Ok _ Hd), (opt_count_Ok _ Hb), (count_Ok _ Hc), (opt_count_Ok _ Ha). cbn.
  eexists. by split_and!.
Qed.

Lemma row_of_trade_ok t row : trade_typed t → row_of_trade t = Ok row →
  row_ok row ∧ row_to_trade (t_id t) row = Ok t ∧ row_order_hash row = order_hash t.
Proof.
  intros (Hd & Hc & Hb & Ha) Hrow. unfold row_of_trade in Hrow. apply bind_Ok in Hrow as (d & ->%trade_i64_of_Ok & Hrow).
  apply bind_Ok in Hrow as (b & ->%opt_i64_of_Ok & Hrow). apply bind_Ok in Hrow as (c & ->%trade_i64_of_Ok & Hrow).
  apply bind_Ok in Hrow as (a & ->%opt_i64_of_Ok & [= <-]). split_and!.
  - split; cbn; [by eexists|done].
  - unfold row_to_trade. cbn. rewrite status_round_trip, (count_Ok _ Hd), (opt_count_Ok _ Hb), (count_Ok _ Hc), (opt_count_Ok _ Ha).
    by destruct t.
  - done.
Qed.

(** ** The view *)

Lemma lookup_trade_view db id : sqlite_trade_view db !! id = trade_rows db !! id ≫= record_of db id.
Proof. apply map_lookup_imap. Qed.

Lemma trade_view_Some db id r :
  sqlite_trade_view db !! id = Some r ↔ ∃ row t, trade_rows db !! id = Some row ∧ row_to_trade id row = Ok t
    ∧ r = mk_record t (trade_legs_of (leg_rows db) id) (attempts_of (attempt_rows db) id).
Proof.
  rewrite lookup_trade_view, bind_Some. unfold record_of. split.
  - intros (row & Hrow & (t & Ht%ok_Some & [= <-])%bind_Some). eauto.
  - intros (row & t & Hrow & Ht & ->). exists row. split; [done|]. apply bind_Some. exists t. by rewrite ok_Some.
Qed.

Lemma trade_view_row db id : trade_db_ok db → is_Some (sqlite_trade_view db !! id) ↔ is_Some (trade_rows db !! id).
Proof.
  intros Hdb. split.
  - intros [r (row & t & Hrow & _)%trade_view_Some]. by eexists.
  - intros [row Hrow]. destruct (row_to_trade_ok id row) as (t & Ht & _); [by eapply db_rows|].
    eexists. apply trade_view_Some. eauto.
Qed.

Lemma sqlite_trade_view_ok db : trade_db_ok db → trades_ok (sqlite_trade_view db).
Proof.
  intros Hdb. split.
  - intros id r (row & t & Hrow & Ht & ->)%trade_view_Some. cbn.
    destruct (row_to_trade_ok id row) as (t' & Ht' & Hid & _); [by eapply db_rows|]. congruence.
  - intros id id' r r' (row & t & Hrow & Ht & ->)%trade_view_Some (row' & t' & Hrow' & Ht' & ->)%trade_view_Some. cbn. intros Ho.
    eapply (db_orders _ Hdb); [done..|].
    destruct (row_to_trade_ok id row) as (? & Hx & _ & Hy & _); [by eapply db_rows|].
    destruct (row_to_trade_ok id' row') as (? & Hx' & _ & Hy' & _); [by eapply db_rows|]. congruence.
Qed.

Lemma order_row_Some db h id row : order_row (trade_rows db) h = Some (id, row) → trade_rows db !! id = Some row ∧ row_order_hash row = h.
Proof.
  unfold order_row. intros Hh%head_Some_elem_of. apply list_elem_of_filter in Hh as [Ho Hin]. by apply elem_of_entries in Hin.
Qed.

Lemma order_row_None db h : order_row (trade_rows db) h = None → ∀ id row, trade_rows db !! id = Some row → row_order_hash row ≠ h.
Proof.
  unfold order_row. intros Hh%head_None id row Hrow Ho. apply (elem_of_nil (id, row)). rewrite <-Hh.
  apply list_elem_of_filter. split; [done|]. by apply elem_of_entries.
Qed.

Lemma of_order_row db h id r : trade_db_ok db → of_order (sqlite_trade_view db) h id r →
  ∃ row, trade_rows db !! id = Some row ∧ row_order_hash row = h.
Proof.
  intros Hdb [(row & t & Hrow & Ht & ->)%trade_view_Some Ho]. exists row. split; [done|]. cbn in Ho.
  destruct (row_to_trade_ok id row) as (? & Hx & _ & Hy & _); [by eapply db_rows|]. congruence.
Qed.

(** ** Attempts *)

Lemma elem_of_trade_attempts a id s at_ : (s, at_) ∈ trade_attempts a id ↔ a !! (id, s) = Some at_.
Proof.
  unfold trade_attempts. rewrite merge_sort_Permutation, list_elem_of_fmap. split.
  - intros ([[id' s'] at'] & Heq & [Hid Hin%elem_of_map_to_list]%list_elem_of_filter). cbn in *. by simplify_eq.
  - intros Ha. exists ((id, s), at_). split; [done|]. apply list_elem_of_filter. split; [done|]. by apply elem_of_map_to_list.
Qed.

Lemma lookup_attempts_of a id s : attempts_of a id !! s = a !! (id, s).
Proof.
  apply option_eq. intros at_. unfold attempts_of. rewrite <-elem_of_list_to_map, elem_of_trade_attempts; [done|].
  unfold trade_attempts. rewrite merge_sort_Permutation, <-list_fmap_compose.
  pose proof (NoDup_fst_map_to_list a) as Hnd. revert Hnd. generalize (map_to_list a) as l.
  induction l as [|[[id' s'] at'] l IH]; intros Hnd; [constructor|]. rewrite fmap_cons in Hnd. apply NoDup_cons in Hnd as [Hni Hnd].
  rewrite filter_cons. case_decide as Hid; [|auto]. cbn in Hid |- *. subst id'. constructor; [|auto].
  intros ([[id' s2] at2] & Hs & [Hid Hin]%list_elem_of_filter)%list_elem_of_fmap. cbn in *. subst. apply Hni.
  apply list_elem_of_fmap. by exists ((id, s2), at2).
Qed.

Lemma attempts_of_add a id id' s at_ :
  attempts_of (match a !! (id, status_str s) with Some _ => a | None => <[(id, status_str s) := at_]> a end) id'
  = if decide (id' = id) then add_attempt (attempts_of a id') (mk_attempt s at_) else attempts_of a id'.
Proof.
  apply map_eq. intros str. rewrite lookup_attempts_of. case_decide as Hid; [subst id'|].
  - unfold add_attempt. cbn. rewrite lookup_attempts_of. destruct (a !! (id, status_str s)) as [x|] eqn:Ha.
    + by rewrite lookup_attempts_of.
    + destruct (decide (str = status_str s)) as [->|Hne]; [by rewrite !lookup_insert_eq|].
      by rewrite !lookup_insert_ne, lookup_attempts_of by congruence.
  - rewrite lookup_attempts_of. destruct (a !! (id, status_str s)); [done|]. by rewrite lookup_insert_ne by congruence.
Qed.

(** ** Statements *)

Definition with_trade_outcomes db (o : list bool) : TradeDatabase := mk_trade_db (trade_rows db) (attempt_rows db) (leg_rows db) o.

Lemma trade_db_ok_outcomes db o : trade_db_ok db → trade_db_ok (with_trade_outcomes db o).
Proof. intros []. by constructor. Qed.

Lemma outcome_statement {A} (k : unit → cmd TradeDatabase TradeStoreError A) (Q : result TradeStoreError A → TradeDatabase → Prop) db :
  (∀ o, outcome (k tt) Q (with_trade_outcomes db o)) → (∀ o, Q (Err TradeDb) (with_trade_outcomes db o)) →
  outcome (trade_statement ≫= k) Q db.
Proof.
  intros Hk He. unfold outcome, mbind, cmd_bind, trade_statement. destruct (trade_outcomes db) as [|[] o] eqn:Ho.
  - specialize (Hk []). unfold outcome, with_trade_outcomes in Hk. rewrite <-Ho in Hk. by destruct db.
  - apply Hk.
  - apply He.
Qed.

Lemma outcome_commit {A} t a l (Q : result TradeStoreError A → TradeDatabase → Prop) (k : unit → cmd TradeDatabase TradeStoreError A) db :
  (∀ o, outcome (k tt) Q (mk_trade_db t a l o)) → (∀ o, Q (Err TradeDb) (with_trade_outcomes db o)) →
  outcome (commit_tables t a l ≫= k) Q db.
Proof.
  intros Hk He. apply outcome_bind. unfold commit_tables. apply outcome_statement; [|done]. intros o. apply Hk.
Qed.

(** An inserted attempt: of a known trade, kept when the stage was reached before. *)
Lemma insert_attempt_outcome db t id s at_ a0 :
  0 ≤ at_ → (∀ at', a0 !! (id, status_str s) = Some at' → is_Some (t !! id)) →
  outcome (insert_attempt t id s at_ a0) (λ res db', ∃ o, db' = with_trade_outcomes db o ∧
    match res with
    | Ok a => is_Some (t !! id) ∧
        a = match a0 !! (id, status_str s) with Some _ => a0 | None => <[(id, status_str s) := at_]> a0 end
    | Err _ => True
    end) db.
Proof.
  intros Hat Hknown. unfold insert_attempt. apply outcome_lift_bind.
  destruct (trade_i64_of at_) as [x|e] eqn:Hx; [apply trade_i64_of_Ok in Hx as ->|by exists (trade_outcomes db); destruct db].
  apply outcome_statement; [|intros o; by exists o]. intros o.
  destruct (a0 !! _) as [y|] eqn:Hy; [apply outcome_ret; exists o; split_and!; eauto|].
  destruct (t !! id) eqn:Ht; [apply outcome_ret|apply outcome_fail]; exists o; eauto.
Qed.

(** A row updated in place, with a stage added: the trade moves the same way. *)
Lemma updated_view db id (f : TradeRow → TradeRow) (g : Trade → Trade) s at_ o :
  trade_db_ok db → 0 ≤ at_ →
  (∀ row t, row_ok row → row_to_trade id row = Ok t → row_ok (f row) ∧ row_order_hash (f row) = row_order_hash row ∧ row_to_trade id (f row) = Ok (g t)) →
  let a := match attempt_rows db !! (id, status_str s) with Some _ => attempt_rows db | None => <[(id, status_str s) := at_]> (attempt_rows db) end in
  let db' := mk_trade_db (alter f id (trade_rows db)) a (leg_rows db) o in
  is_Some (trade_rows db !! id) →
  trade_db_ok db' ∧ sqlite_trade_view db'
  = alter (λ r, mk_record (g (tr_trade r)) (tr_legs r) (add_attempt (tr_attempts r) (mk_attempt s at_))) id (sqlite_trade_view db).
Proof.
  intros Hdb Hat Hf a db' [row0 Hrow0].
  assert (Hlook : ∀ j row, alter f id (trade_rows db) !! j = Some row →
    ∃ row1, trade_rows db !! j = Some row1 ∧ row_ok row ∧ row_order_hash row = row_order_hash row1).
  { intros j row Hj. destruct (decide (j = id)) as [->|Hne].
    - rewrite lookup_alter_eq in Hj. apply fmap_Some in Hj as (row1 & Hr1 & ->). exists row1.
      destruct (row_to_trade_ok id row1) as (t & Ht & _); [by eapply db_rows|].
      destruct (Hf row1 t) as (? & ? & _); [by eapply db_rows|done|]. done.
    - rewrite lookup_alter_ne in Hj by done. exists row. split_and!; [done|by eapply db_rows|done]. }
  assert (Hin : ∀ j, is_Some (trade_rows db !! j) → is_Some (alter f id (trade_rows db) !! j)).
  { intros j. by rewrite lookup_alter_is_Some. }
  split; [split|]; subst db'; cbn.
  - intros j row Hj. by destruct (Hlook j row Hj) as (? & _ & ? & _).
  - intros j j' row row' Hj Hj' Ho. destruct (Hlook j row Hj) as (r1 & Hr1 & _ & E1), (Hlook j' row' Hj') as (r2 & Hr2 & _ & E2).
    eapply (db_orders _ Hdb); [done..|congruence].
  - intros j str at' Ha. assert (Hc : attempt_rows db !! (j, str) = Some at' ∨ (j = id ∧ str = status_str s ∧ at' = at_)).
    { subst a. destruct (attempt_rows db !! (id, status_str s)); [by left|].
      apply lookup_insert_Some in Ha as [[[= <- <-] <-]|[_ Ha]]; auto. }
    destruct Hc as [(? & ? & ?)%(db_attempts _ Hdb)|(-> & -> & ->)]; split_and!; eauto.
  - intros j idx leg Hl. by eapply Hin, db_legs.
  - apply map_eq. intros j. rewrite lookup_trade_view. cbn. destruct (decide (j = id)) as [->|Hne].
    + rewrite !lookup_alter_eq, lookup_trade_view, Hrow0. cbn. unfold record_of. cbn.
      destruct (row_to_trade_ok id row0) as (t & Ht & _); [by eapply db_rows|].
      destruct (Hf row0 t) as (_ & _ & Hft); [by eapply db_rows|done|]. rewrite Ht, Hft. cbn. do 2 f_equal.
      subst a. rewrite attempts_of_add. by rewrite decide_True.
    + rewrite !lookup_alter_ne, lookup_trade_view by done. destruct (trade_rows db !! j) as [row|]; [|done]. cbn.
      unfold record_of. cbn. destruct (row_to_trade j row); [|done]. cbn. do 2 f_equal.
      subst a. rewrite attempts_of_add. by rewrite decide_False.
Qed.

Lemma advance_row_ok id s row t :
  row_ok row → row_to_trade id row = Ok t →
  row_ok (advance_row s row) ∧ row_order_hash (advance_row s row) = row_order_hash row
  ∧ row_to_trade id (advance_row s row) = Ok (advance_trade s t).
Proof.
  intros Hok Ht. pose proof Hok as [(st & Hst & Hrk) (Hd & Hc & Hb & Ha)].
  destruct (row_to_trade_ok id row Hok) as (t' & Ht' & _ & _ & Hset & Hrank). assert (t' = t) as -> by congruence.
  unfold advance_row, advance_trade. rewrite Hset, Hrank. destruct (row_settled_at row) as [a|] eqn:Hs.
  { rewrite bool_decide_false, andb_false_r by done. done. }
  rewrite bool_decide_true, andb_true_r by done. destruct (_ <? _); [|done]. split_and!; [split; cbn; eauto|done|].
  unfold row_to_trade in Ht |- *. cbn. rewrite status_round_trip, (count_Ok _ Hd), (opt_count_Ok _ Hb), (count_Ok _ Hc). cbn.
  rewrite Hst, status_round_trip, (count_Ok _ Hd), (opt_count_Ok _ Hb), (count_Ok _ Hc), Hs in Ht. cbn in Ht. by injection Ht as <-.
Qed.

Lemma settle_row_ok id o row t :
  settlement_typed o → row_ok row → row_to_trade id row = Ok t →
  let f := settle_row o (set_block_number o) (set_at o) in
  row_ok (f row) ∧ row_order_hash (f row) = row_order_hash row ∧ row_to_trade id (f row) = Ok (settle_trade o t).
Proof.
  intros [Hat Hblk] Hok Ht f. pose proof Hok as [(st & Hst & Hrk) (Hd & Hc & Hb & Ha)].
  destruct (row_to_trade_ok id row Hok) as (t' & Ht' & _ & _ & Hset & Hrank). assert (t' = t) as -> by congruence.
  subst f. unfold settle_row, settle_trade. rewrite Hset. destruct (row_settled_at row) as [a|] eqn:Hs.
  { by rewrite bool_decide_false by done. }
  rewrite bool_decide_true by done. split_and!; [split; cbn; [eauto|]; split_and!; [done..|congruence]|done|].
  unfold row_to_trade in Ht |- *. cbn. rewrite status_round_trip, (count_Ok _ Hd), (opt_count_Ok _ Hblk), (count_Ok _ Hc), (count_Ok _ Hat). cbn.
  rewrite Hst, status_round_trip, (count_Ok _ Hd), (opt_count_Ok _ Hb), (count_Ok _ Hc), Hs in Ht. cbn in Ht. by injection Ht as <-.
Qed.

(** ** The laws *)

Lemma known_attempt db id (f : TradeRow → TradeRow) s at' :
  trade_db_ok db → attempt_rows db !! (id, s) = Some at' → is_Some (alter f id (trade_rows db) !! id).
Proof. intros Hdb (? & _ & _)%(db_attempts _ Hdb). by rewrite lookup_alter_is_Some. Qed.

Lemma sqlite_advance_law id st at_ db :
  0 ≤ at_ → trade_db_ok db →
  outcome (sqlite_advance id st at_) (λ res db', trade_db_ok db' ∧
    match res with
    | Ok _ => is_Some (sqlite_trade_view db !! id) ∧ sqlite_trade_view db' = view_advance id st at_ (sqlite_trade_view db)
    | Err _ => sqlite_trade_view db' = sqlite_trade_view db
    end) db.
Proof.
  intros Hat Hdb. assert (Hsame : ∀ o, trade_db_ok (with_trade_outcomes db o)) by (intros; by apply trade_db_ok_outcomes).
  unfold sqlite_advance. apply outcome_statement; [|intros o; split; [apply Hsame|done]]. intros o1. apply outcome_statement; [|intros o; split; [apply Hsame|done]]. intros o2.
  apply outcome_gets. cbn. apply outcome_bind. eapply outcome_mono.
  { apply insert_attempt_outcome; [done|]. intros at' Ha. cbn in Ha. by eapply known_attempt. }
  intros [a|e] db' (o3 & -> & Hres); [|split; [apply Hsame|done]]. destruct Hres as [Hrow ->]. cbn.
  rewrite lookup_alter_is_Some in Hrow. unfold commit_tables. apply outcome_statement; [|intros; split; [apply Hsame|done]].
  intros o4. unfold outcome, modify. cbn. destruct (updated_view db id (advance_row st) (advance_trade st) st at_ o4) as [? Hv]; [done..| |done|].
  { intros. by apply advance_row_ok. }
  split; [done|]. split; [by apply trade_view_row|done].
Qed.

Lemma sqlite_settle_law id o db :
  settlement_typed o → trade_db_ok db →
  outcome (sqlite_settle id o) (λ res db', trade_db_ok db' ∧
    match res with
    | Ok _ => is_Some (sqlite_trade_view db !! id) ∧ sqlite_trade_view db' = view_settle id o (sqlite_trade_view db)
    | Err _ => sqlite_trade_view db' = sqlite_trade_view db
    end) db.
Proof.
  intros Ho Hdb. pose proof Ho as [Hat _].
  assert (Hsame : ∀ o, trade_db_ok (with_trade_outcomes db o)) by (intros; by apply trade_db_ok_outcomes).
  unfold sqlite_settle. apply outcome_statement; [|intros; split; [apply Hsame|done]]. intros o1.
  apply outcome_lift_bind. destruct (opt_i64_of _) as [b|e] eqn:Hb; [apply opt_i64_of_Ok in Hb as ->|split; [apply Hsame|done]].
  apply outcome_lift_bind. destruct (trade_i64_of _) as [x|e] eqn:Hx; [apply trade_i64_of_Ok in Hx as ->|split; [apply Hsame|done]].
  apply outcome_statement; [|intros; split; [apply Hsame|done]]. intros o2. apply outcome_gets. cbn. apply outcome_bind. eapply outcome_mono.
  { apply insert_attempt_outcome; [done|]. intros at' Ha. cbn in Ha. by eapply known_attempt. }
  intros [a|e] db' (o3 & -> & Hres); [|split; [apply Hsame|done]]. destruct Hres as [Hrow ->]. cbn.
  rewrite lookup_alter_is_Some in Hrow. unfold commit_tables. apply outcome_statement; [|intros; split; [apply Hsame|done]].
  intros o4. unfold outcome, modify. cbn.
  destruct (updated_view db id (settle_row o (set_block_number o) (set_at o)) (settle_trade o) (set_status o) (set_at o) o4) as [? Hv]; [done..| |done|].
  { intros. by apply settle_row_ok. }
  split; [done|]. split; [by apply trade_view_row|done].
Qed.

(** ** Legs *)

Definition positions id (n : nat) : list (TradeId * Z) := (λ i, (id, Z.of_nat i)) <$> seq 0 n.

Lemma elem_of_positions id n k : k ∈ positions id n ↔ k.1 = id ∧ 0 ≤ k.2 < Z.of_nat n.
Proof.
  unfold positions. rewrite list_elem_of_fmap. destruct k as [j i]. cbn. split.
  - intros (x & [= -> ->] & Hx%elem_of_seq). lia.
  - intros [-> Hi]. exists (Z.to_nat i). rewrite elem_of_seq, Z2Nat.id by lia. split; [done|lia].
Qed.

Lemma positions_sorted id n : StronglySorted key_le (positions id n) ∧ NoDup (positions id n).
Proof.
  unfold positions. split.
  - generalize 0%nat as b. induction n as [|n IH]; intros b; cbn; constructor; [apply IH|].
    apply Forall_forall. intros k (x & -> & Hx%elem_of_seq)%list_elem_of_fmap. unfold key_le, key_leb. cbn.
    rewrite Z.ltb_irrefl, Z.eqb_refl. cbn. destruct (Z.ltb_spec (Z.of_nat b) (Z.of_nat x)); [done|]. lia.
  - apply NoDup_fmap; [|apply NoDup_seq]. intros x y. intros [= ?]. lia.
Qed.

(** The legs of a trade are read back in their positions. *)
Lemma trade_legs_of_eq (l : gmap (TradeId * Z) TradeLeg) id legs :
  (∀ idx leg, l !! (id, idx) = Some leg ↔ 0 ≤ idx ∧ legs !! Z.to_nat idx = Some leg) → trade_legs_of l id = legs.
Proof.
  intros Hl. unfold trade_legs_of. destruct (positions_sorted id (List.length legs)) as [Hs Hnd].
  rewrite (filter_keys_eq l _ (positions id (List.length legs))); [|done|done|].
  - unfold positions. assert (Hgo : ∀ b n, (n + b = List.length legs)%nat →
      omap (l !!.) ((λ i, (id, Z.of_nat i)) <$> seq b n) = drop b legs).
    { intros b n. revert b. induction n as [|n IH]; intros b Hb; cbn.
      - by rewrite drop_ge by lia.
      - destruct (lookup_lt_is_Some_2 legs b) as [leg Hleg]; [lia|]. rewrite (drop_S _ leg) by done.
        assert (l !! (id, Z.of_nat b) = Some leg) as ->; [apply Hl; rewrite Nat2Z.id; split; [lia|done]|].
        by rewrite IH by lia. }
    by rewrite Hgo by lia.
  - intros [j i]. rewrite elem_of_positions. cbn. split.
    + intros [-> Hi]. split; [done|]. destruct (lookup_lt_is_Some_2 legs (Z.to_nat i)) as [leg Hleg]; [lia|].
      exists leg. apply Hl. split; [lia|done].
    + intros [-> [leg [Hi Hleg]%Hl]]. apply lookup_lt_Some in Hleg. split; [done|lia].
Qed.

Lemma trade_legs_of_same (l l' : gmap (TradeId * Z) TradeLeg) id :
  (∀ idx, l !! (id, idx) = l' !! (id, idx)) → trade_legs_of l id = trade_legs_of l' id.
Proof.
  intros Hl. unfold trade_legs_of.
  assert (Hk : filter (λ k, k.1 = id) (keys l) = filter (λ k, k.1 = id) (keys l')).
  { symmetry. apply filter_keys_eq.
    - apply StronglySorted_filter. rewrite keys_dom. apply (StronglySorted_merge_sort _).
    - apply NoDup_filter, NoDup_keys.
    - intros [j i]. rewrite list_elem_of_filter, elem_of_keys. cbn. split; intros [-> Hi]; [by rewrite <-Hl|by rewrite Hl]. }
  rewrite Hk. apply list_omap_ext, Forall2_same_length_lookup. split; [done|].
  intros i k k' Hi Hi'. simplify_eq. apply list_elem_of_lookup_2, list_elem_of_filter in Hi as [<- _]. destruct k. apply Hl.
Qed.

Lemma insert_legs_outcome id idx legs l db :
  0 ≤ idx →
  outcome (insert_legs id idx legs l) (λ res db', ∃ o, db' = with_trade_outcomes db o ∧
    match res with
    | Ok l' => ∀ j i, l' !! (j, i) = if decide (j = id ∧ idx ≤ i < idx + Z.of_nat (List.length legs))
                                     then legs !! Z.to_nat (i - idx) else l !! (j, i)
    | Err _ => True
    end) db.
Proof.
  revert idx l db. induction legs as [|leg legs IH]; intros idx l db Hidx; cbn [insert_legs].
  - apply outcome_ret. exists (trade_outcomes db). split; [by destruct db|]. intros j i. rewrite decide_False; [done|cbn; lia].
  - apply outcome_statement; [|intros o; by exists o]. intros o. destruct (l !! (id, idx)); [by apply outcome_fail; exists o|].
    eapply outcome_mono; [apply (IH (idx + 1)); lia|]. intros res db' (o' & -> & Hres). exists o'. split; [done|].
    destruct res as [l'|]; [|done]. intros j i. rewrite Hres. cbn [List.length].
    destruct (decide (j = id ∧ idx ≤ i < idx + Z.of_nat (S (List.length legs)))) as [[-> Hi]|Hn].
    + destruct (decide (i = idx)) as [->|Hne].
      * rewrite decide_False by lia. rewrite lookup_insert_eq. by rewrite Z.sub_diag.
      * rewrite decide_True by lia. by replace (Z.to_nat (i - idx)) with (S (Z.to_nat (i - (idx + 1)))) by lia.
    + rewrite decide_False by lia. apply lookup_insert_ne. intros [= <- <-]. lia.
Qed.

Lemma insert_attempts_outcome t id attempts a db :
  is_Some (t !! id) → Forall (λ x, 0 ≤ attempt_at x) attempts →
  outcome (insert_attempts t id attempts a) (λ res db', ∃ o, db' = with_trade_outcomes db o ∧
    match res with
    | Ok a' => (∀ j, attempts_of a' j = if decide (j = id) then foldl add_attempt (attempts_of a j) attempts else attempts_of a j)
        ∧ ∀ j s at_, a' !! (j, s) = Some at_ → a !! (j, s) = Some at_ ∨ (j = id ∧ 0 ≤ at_ ∧ ∃ st, s = status_str st)
    | Err _ => True
    end) db.
Proof.
  intros Ht Hat. revert a db. induction Hat as [|x attempts Hx _ IH]; intros a db; cbn [insert_attempts].
  - apply outcome_ret. exists (trade_outcomes db). split; [by destruct db|]. split; [intros j; by case_decide|auto].
  - apply outcome_bind. eapply outcome_mono; [by apply (insert_attempt_outcome db t id (attempt_status x) (attempt_at x) a)|].
    intros [a1|e] db' (o & -> & Hres); [|by exists o]. destruct Hres as [_ ->].
    eapply outcome_mono; [apply IH|]. intros [a2|e2] db' (o2 & -> & Hres2); exists o2; (split; [done|]); [|done].
    destruct Hres2 as [Hof Hin]. split.
    + intros j. rewrite Hof, attempts_of_add. case_decide as Hj; [|done]. cbn [foldl]. by destruct x.
    + intros j s at_ [H|H]%Hin; [|by right]. destruct (a !! (id, status_str (attempt_status x))); [by left|].
      apply lookup_insert_Some in H as [[[= <- <-] <-]|[_ H]]; [right; eauto|by left].
Qed.

(** The tables after a trade was created. *)
Lemma created_view db t row legs attempts a l o :
  trade_db_ok db → trade_typed t → row_of_trade t = Ok row → trade_rows db !! t_id t = None →
  (∀ id row', trade_rows db !! id = Some row' → row_order_hash row' ≠ order_hash t) →
  (∀ j, attempts_of a j = if decide (j = t_id t) then foldl add_attempt (attempts_of (attempt_rows db) j) attempts else attempts_of (attempt_rows db) j) →
  (∀ j s at_, a !! (j, s) = Some at_ → attempt_rows db !! (j, s) = Some at_ ∨ (j = t_id t ∧ 0 ≤ at_ ∧ ∃ st, s = status_str st)) →
  (∀ j i, l !! (j, i) = if decide (j = t_id t ∧ 0 ≤ i < 0 + Z.of_nat (List.length legs)) then legs !! Z.to_nat (i - 0) else leg_rows db !! (j, i)) →
  let db' := mk_trade_db (<[t_id t := row]> (trade_rows db)) a l o in
  trade_db_ok db' ∧ sqlite_trade_view db' = view_create t legs attempts (sqlite_trade_view db).
Proof.
  intros Hdb Ht Hrow Hnew Hord Ha Hain Hl db'. destruct (row_of_trade_ok t row Ht Hrow) as (Hok & Hrt & Hoh).
  assert (Hnoatt : attempts_of (attempt_rows db) (t_id t) = ∅).
  { apply map_empty. intros s. rewrite lookup_attempts_of. destruct (attempt_rows db !! (t_id t, s)) eqn:E; [|done].
    apply (db_attempts _ Hdb) in E as ([? ?] & _). congruence. }
  assert (Hnoleg : ∀ i, leg_rows db !! (t_id t, i) = None).
  { intros i. destruct (leg_rows db !! _) eqn:E; [|done]. apply (db_legs _ Hdb) in E as [? ?]. congruence. }
  split; [split|]; subst db'; cbn.
  - intros id row' [[_ <-]|[_ H]]%lookup_insert_Some; [done|by eapply db_rows].
  - intros id id' r r' [[<- <-]|[_ H]]%lookup_insert_Some [[<- <-]|[_ H']]%lookup_insert_Some Ho; [done|..].
    + by destruct (Hord id' r' H'); congruence.
    + by destruct (Hord id r H); congruence.
    + by eapply (db_orders _ Hdb).
  - intros j s at_ [H|(-> & ? & ?)]%Hain; [|by rewrite lookup_insert_eq; eauto].
    apply (db_attempts _ Hdb) in H as (? & ? & ?). split_and!; [|done..]. apply lookup_insert_is_Some. destruct (decide (t_id t = j)); auto.
  - intros j i leg Hj. rewrite Hl in Hj. case_decide as Hc; [destruct Hc as [-> _]; by rewrite lookup_insert_eq|].
    apply (db_legs _ Hdb) in Hj. apply lookup_insert_is_Some. destruct (decide (t_id t = j)); auto.
  - apply map_eq. intros j. rewrite lookup_trade_view. unfold view_create. cbn. destruct (decide (j = t_id t)) as [->|Hne].
    + rewrite !lookup_insert_eq. cbn. unfold record_of. cbn. rewrite Hrt. cbn. do 2 f_equal.
      * apply trade_legs_of_eq. intros i leg. rewrite Hl, Z.sub_0_r. case_decide as Hc; [naive_solver|].
        rewrite Hnoleg. split; [done|]. intros [Hi Hleg%lookup_lt_Some]. lia.
      * by rewrite Ha, decide_True, Hnoatt.
    + rewrite !lookup_insert_ne, lookup_trade_view by done. destruct (trade_rows db !! j) as [r|]; [|done]. cbn. unfold record_of. cbn.
      destruct (row_to_trade j r); [|done]. cbn. do 2 f_equal.
      * apply trade_legs_of_same. intros i. rewrite Hl, decide_False; [done|]. by intros [? _].
      * by rewrite Ha, decide_False.
Qed.

Lemma sqlite_create_law t legs attempts db :
  trade_typed t → Forall (λ a, 0 ≤ attempt_at a) attempts → trade_db_ok db →
  outcome (sqlite_create t legs attempts) (λ res db', trade_db_ok db' ∧
    match res with
    | Ok c =>
        (∃ r, of_order (sqlite_trade_view db) (order_hash t) (cr_id c) r ∧ cr_created c = false ∧ sqlite_trade_view db' = sqlite_trade_view db)
        ∨ ((∀ id r, ¬ of_order (sqlite_trade_view db) (order_hash t) id r) ∧ sqlite_trade_view db !! t_id t = None
           ∧ c = mk_create_result (t_id t) true ∧ sqlite_trade_view db' = view_create t legs attempts (sqlite_trade_view db))
    | Err _ => sqlite_trade_view db' = sqlite_trade_view db
    end) db.
Proof.
  intros Ht Hat Hdb. assert (Hsame : ∀ o, trade_db_ok (with_trade_outcomes db o)) by (intros; by apply trade_db_ok_outcomes).
  unfold sqlite_create. apply outcome_statement; [|intros o; split; [apply Hsame|done]]. intros o1. apply outcome_gets. cbn.
  apply outcome_bind. unfold insert_trade. apply outcome_lift_bind.
  destruct (row_of_trade t) as [row|e] eqn:Hrow; [|split; [apply Hsame|done]].
  apply outcome_statement; [|intros o; split; [apply Hsame|done]]. intros o2.
  destruct (order_row (trade_rows db) (order_hash t)) as [[id row0]|] eqn:Hor.
  - apply outcome_ret. cbn. apply outcome_statement; [|intros o; split; [apply Hsame|done]]. intros o3.
    apply outcome_lift_bind. cbn. apply outcome_commit; [|intros o; split; [apply Hsame|done]]. intros o4.
    apply outcome_ret. split; [apply (Hsame o4)|]. left. apply order_row_Some in Hor as [Hid Ho].
    destruct (row_to_trade_ok id row0) as (t0 & Ht0 & _ & Ho0 & _); [by eapply db_rows|].
    eexists. split; [|done]. split; [apply trade_view_Some; eauto|]. cbn. congruence.
  - destruct (trade_rows db !! t_id t) eqn:Hnew; [apply outcome_fail; split; [apply Hsame|done]|]. apply outcome_ret. cbn.
    apply outcome_bind. eapply outcome_mono; [by apply insert_legs_outcome|].
    intros [l|e] db' (o3 & -> & Hl); [|split; [apply Hsame|done]].
    apply outcome_bind. eapply outcome_mono; [apply insert_attempts_outcome; [by rewrite lookup_insert_eq|done]|].
    intros [a|e] db' (o4 & -> & Ha); [|split; [apply Hsame|done]]. destruct Ha as [Ha Hain].
    apply outcome_commit; [|intros o; split; [apply Hsame|done]]. intros o5. apply outcome_ret.
    destruct (created_view db t row legs attempts a l o5) as [Hdb' Hv]; try done; [by apply order_row_None|].
    split; [done|]. right. split_and!; [|by rewrite lookup_trade_view, Hnew|done|done].
    intros id r (row' & Hr & Ho)%of_order_row; [|done]. by eapply order_row_None.
Qed.

Lemma row_to_attempt_Ok st at_ : 0 ≤ at_ → row_to_attempt (status_str st, at_) = Ok (mk_attempt st at_).
Proof. intros Hat. unfold row_to_attempt. cbn [fst snd]. by rewrite status_round_trip, count_Ok. Qed.

Lemma collect_attempts a id :
  (∀ s at_, a !! (id, s) = Some at_ → 0 ≤ at_ ∧ ∃ st, s = status_str st) →
  ∃ xs, collect row_to_attempt (trade_attempts a id) = Ok xs
    ∧ ∀ x, x ∈ xs ↔ a !! (id, status_str (attempt_status x)) = Some (attempt_at x).
Proof.
  intros Ha.
  assert (Hgo : ∀ l, (∀ s at_, (s, at_) ∈ l → 0 ≤ at_ ∧ ∃ st, s = status_str st) →
    ∃ xs, collect row_to_attempt l = Ok xs ∧ ∀ x, x ∈ xs ↔ (status_str (attempt_status x), attempt_at x) ∈ l).
  { induction l as [|[s at_] l IH]; intros Hl; [exists []; split; [done|]; intros x; by rewrite !elem_of_nil|].
    destruct IH as (xs & Hxs & Hin); [intros; apply Hl; by right|]. destruct (Hl s at_) as (Hat & st & ->); [left|].
    exists (mk_attempt st at_ :: xs). cbn [collect]. rewrite row_to_attempt_Ok by done. cbn [mbind result_bind].
    rewrite Hxs. split; [done|]. intros x. rewrite !elem_of_cons, Hin.
    split; [intros [->|?]; [by left|by right]|intros [[= Hs Hx]|?]; [left|by right]].
    destruct x; cbn in *. f_equal; [by apply status_str_inj|done]. }
  destruct (Hgo (trade_attempts a id)) as (xs & Hxs & Hin).
  { intros s at_ Hs. by apply elem_of_trade_attempts, Ha in Hs. }
  exists xs. split; [done|]. intros x. by rewrite Hin, elem_of_trade_attempts.
Qed.

Lemma sqlite_info_law id db :
  trade_db_ok db →
  outcome (sqlite_info id) (λ res db', trade_db_ok db' ∧ sqlite_trade_view db' = sqlite_trade_view db ∧
    match res with
    | Ok (Some i) => ∃ r, sqlite_trade_view db !! id = Some r ∧ info_trade i = tr_trade r ∧ info_legs i = tr_legs r
        ∧ ∀ a, a ∈ info_attempts i ↔ tr_attempts r !! status_str (attempt_status a) = Some (attempt_at a)
    | Ok None => sqlite_trade_view db !! id = None
    | Err _ => True
    end) db.
Proof.
  intros Hdb. assert (Hsame : ∀ o, trade_db_ok (with_trade_outcomes db o)) by (intros; by apply trade_db_ok_outcomes).
  unfold sqlite_info. apply outcome_statement; [|intros o; split_and!; [apply Hsame|done..]]. intros o1. apply outcome_gets. cbn.
  destruct (trade_rows db !! id) as [row|] eqn:Hrow.
  2: { apply outcome_ret. split_and!; [apply Hsame|done|]. by rewrite lookup_trade_view, Hrow. }
  apply outcome_statement; [|intros o; split_and!; [apply Hsame|done..]]. intros o2.
  destruct (collect_attempts (attempt_rows db) id) as (xs & Hxs & Hin).
  { intros s at_ (_ & ? & ?)%(db_attempts _ Hdb). done. }
  apply outcome_lift_bind. rewrite Hxs. apply outcome_statement; [|intros o; split_and!; [apply Hsame|done..]]. intros o3.
  destruct (row_to_trade_ok id row) as (t & Ht & _); [by eapply db_rows|]. apply outcome_lift_bind. rewrite Ht. apply outcome_ret.
  split_and!; [apply Hsame|done|]. eexists. split; [apply trade_view_Some; eauto|]. cbn. split_and!; [done|done|].
  intros x. by rewrite lookup_attempts_of.
Qed.

Lemma sqlite_find_law h db :
  trade_db_ok db →
  outcome (sqlite_find_by_order h) (λ res db', trade_db_ok db' ∧ sqlite_trade_view db' = sqlite_trade_view db ∧
    match res with
    | Ok (Some t) => ∃ r, of_order (sqlite_trade_view db) h (t_id t) r ∧ tr_trade r = t
    | Ok None => ∀ id r, ¬ of_order (sqlite_trade_view db) h id r
    | Err _ => True
    end) db.
Proof.
  intros Hdb. assert (Hsame : ∀ o, trade_db_ok (with_trade_outcomes db o)) by (intros; by apply trade_db_ok_outcomes).
  unfold sqlite_find_by_order. apply outcome_statement; [|intros o; split_and!; [apply Hsame|done..]]. intros o1. apply outcome_gets. cbn.
  destruct (order_row _ h) as [[id row]|] eqn:Hor.
  - apply order_row_Some in Hor as [Hrow Ho]. destruct (row_to_trade_ok id row) as (t & Ht & Hid & Hoh & _); [by eapply db_rows|].
    apply outcome_lift_bind. rewrite Ht. apply outcome_ret. split_and!; [apply Hsame|done|]. rewrite Hid.
    eexists. split; [split; [apply trade_view_Some; eauto|cbn; congruence]|done].
  - apply outcome_ret. split_and!; [apply Hsame|done|]. intros id r (row & Hr & Ho)%of_order_row; [|done]. by eapply order_row_None.
Qed.

#[global] Instance sqlite_trade_store_laws : TradeStoreLaws TradeDatabase := {|
  trade_view := sqlite_trade_view;
  trade_store_ok := trade_db_ok;
  trade_view_ok := sqlite_trade_view_ok;
  create_law := sqlite_create_law;
  advance_law := sqlite_advance_law;
  settle_law := sqlite_settle_law;
  info_law := sqlite_info_law;
  find_law := sqlite_find_law
|}.

(** ** Refinement *)

(** The operations that write, with what they return. *)
Inductive trade_op : Type :=
| TradeCreate (t : Trade) (legs : list TradeLeg) (attempts : list TradeAttempt)
| TradeAdvance (id : TradeId) (s : TradeStatus) (at_ : Z)
| TradeSettle (id : TradeId) (o : Settlement).

Definition trade_op_typed (o : trade_op) : Prop :=
  match o with
  | TradeCreate t _ attempts => trade_typed t ∧ Forall (λ a, 0 ≤ attempt_at a) attempts
  | TradeAdvance _ _ at_ => 0 ≤ at_
  | TradeSettle _ o => settlement_typed o
  end.

Definition trade_exec (o : trade_op) : cmd TradeDatabase TradeStoreError (option CreateResult) :=
  match o with
  | TradeCreate t legs attempts => c ← sqlite_create t legs attempts; mret (Some c)
  | TradeAdvance id s at_ => _ ← sqlite_advance id s at_; mret None
  | TradeSettle id o => _ ← sqlite_settle id o; mret None
  end.

(** ** What an operation promises *)

(** Times and block numbers are written as 64-bit integers. *)
Definition i64_fits (v : Z) : bool := v <=? I64_MAX.
Definition opt_i64_fits (o : option Z) : bool := match o with Some v => i64_fits v | None => true end.
Definition trade_fits (t : Trade) : bool :=
  i64_fits (deadline_block t) && opt_i64_fits (block_number t) && i64_fits (created_at t) && opt_i64_fits (settled_at t).
Definition attempts_fit (attempts : list TradeAttempt) : bool := forallb (λ a, i64_fits (attempt_at a)) attempts.

(** The trade that records an order. *)
Definition order_trade (v : TradeView) (h : IntentId) : option TradeId :=
  fst <$> head (filter (λ p, order_hash (tr_trade p.2) = h) (entries v)).

(** An order is recorded once, a trade moves forward by [view_advance] and [view_settle], and what cannot be written or
    names no trade is refused. *)
Definition trade_spec (o : trade_op) (v : TradeView) : result TradeStoreError (option CreateResult) * TradeView :=
  match o with
  | TradeCreate t legs attempts =>
      if negb (trade_fits t) then (Err TradeDb, v)
      else match order_trade v (order_hash t) with
           | Some id => (Ok (Some (mk_create_result id false)), v)
           | None =>
               if bool_decide (is_Some (v !! t_id t)) || negb (attempts_fit attempts) then (Err TradeDb, v)
               else (Ok (Some (mk_create_result (t_id t) true)), view_create t legs attempts v)
           end
  | TradeAdvance id s at_ =>
      if i64_fits at_ && bool_decide (is_Some (v !! id)) then (Ok None, view_advance id s at_ v) else (Err TradeDb, v)
  | TradeSettle id o =>
      if i64_fits (set_at o) && opt_i64_fits (set_block_number o) && bool_decide (is_Some (v !! id))
      then (Ok None, view_settle id o v) else (Err TradeDb, v)
  end.

(** The same when a statement may have failed: the operation fails and leaves no trace. *)
Definition trade_spec_faulty (o : trade_op) (fault : bool) (v : TradeView) :
    result TradeStoreError (option CreateResult) * TradeView :=
  if fault then (Err TradeDb, v) else trade_spec o v.

Fixpoint trade_spec_run (v : TradeView) (ops : list (trade_op * bool)) :
    list (result TradeStoreError (option CreateResult)) * TradeView :=
  match ops with
  | [] => ([], v)
  | (o, fault) :: ops' =>
      let '(res, v1) := trade_spec_faulty o fault v in let '(rs, v2) := trade_spec_run v1 ops' in (res :: rs, v2)
  end.

Fixpoint trade_run (db : TradeDatabase) (ops : list trade_op) :
    list (result TradeStoreError (option CreateResult)) * TradeDatabase :=
  match ops with
  | [] => ([], db)
  | o :: ops' => let '(res, db1) := trade_exec o db in let '(rs, db2) := trade_run db1 ops' in (res :: rs, db2)
  end.

(** ** Refusals *)

Lemma statement_charged {A} db0 (k : unit → cmd TradeDatabase TradeStoreError A) (P : A → Prop) R db :
  unstopped trade_outcomes db0 db →
  (∀ o, unstopped trade_outcomes db0 (with_trade_outcomes db o) → outcome (k tt) (charged trade_outcomes TradeDb db0 P R) (with_trade_outcomes db o)) →
  outcome (trade_statement ≫= k) (charged trade_outcomes TradeDb db0 P R) db.
Proof.
  intros Hu Hk. unfold outcome, mbind, cmd_bind, trade_statement. destruct (trade_outcomes db) as [|[] o] eqn:Ho.
  - specialize (Hk []). unfold outcome, with_trade_outcomes in Hk. rewrite <-Ho in Hk. destruct db. by apply Hk.
  - apply Hk. eapply unstopped_true; [done|]. by rewrite Ho.
  - eapply charged_false; [done|]. by rewrite Ho.
Qed.

Lemma commit_charged db0 t a l P R db :
  unstopped trade_outcomes db0 db → P tt → outcome (commit_tables t a l) (charged trade_outcomes TradeDb db0 P R) db.
Proof.
  intros Hu Hp. unfold commit_tables. apply statement_charged; [done|]. intros o Hu'. by apply charged_ret.
Qed.

Lemma trade_i64_of_fits v : trade_i64_of v = if i64_fits v then Ok v else Err TradeDb.
Proof. done. Qed.

Lemma opt_i64_of_fits o : opt_i64_of o = if opt_i64_fits o then Ok o else Err TradeDb.
Proof. destruct o as [v|]; cbn; [|done]. rewrite trade_i64_of_fits. by destruct (i64_fits v). Qed.

Lemma row_of_trade_fits t : is_ok (row_of_trade t) = trade_fits t.
Proof.
  unfold row_of_trade, trade_fits. rewrite !trade_i64_of_fits, !opt_i64_of_fits.
  destruct (i64_fits (deadline_block t)), (opt_i64_fits (block_number t)), (i64_fits (created_at t)), (opt_i64_fits (settled_at t)); done.
Qed.

Lemma insert_attempt_charged db0 db t id s at_ a :
  unstopped trade_outcomes db0 db → (∀ x, a !! (id, status_str s) = Some x → is_Some (t !! id)) →
  outcome (insert_attempt t id s at_ a)
    (charged trade_outcomes TradeDb db0 (λ _, i64_fits at_ = true ∧ is_Some (t !! id)) (λ _, i64_fits at_ = false ∨ t !! id = None)) db.
Proof.
  intros Hu Hk. unfold insert_attempt. apply outcome_lift_bind. rewrite trade_i64_of_fits.
  destruct (i64_fits at_) eqn:Hf; [|apply charged_refused; auto]. apply statement_charged; [done|]. intros o Hu'.
  destruct (a !! _) as [x|] eqn:Ha; [apply charged_ret; [done|]; split; [done|by eapply Hk]|].
  destruct (t !! id) eqn:Ht; [apply charged_ret|apply charged_refused]; eauto.
Qed.

Lemma insert_legs_charged db0 db id idx legs l R :
  unstopped trade_outcomes db0 db → (∀ i, idx ≤ i → l !! (id, i) = None) →
  outcome (insert_legs id idx legs l) (charged trade_outcomes TradeDb db0 (λ _, True) R) db.
Proof.
  revert idx l db. induction legs as [|leg legs IH]; intros idx l db Hu Hl; cbn [insert_legs]; [by apply charged_ret|].
  apply statement_charged; [done|]. intros o Hu'. rewrite Hl by lia. apply IH; [done|]. intros i Hi.
  rewrite lookup_insert_ne by (intros [= ?]; lia). apply Hl. lia.
Qed.

Lemma insert_attempts_charged db0 db t id attempts a :
  unstopped trade_outcomes db0 db → is_Some (t !! id) →
  outcome (insert_attempts t id attempts a)
    (charged trade_outcomes TradeDb db0 (λ _, attempts_fit attempts = true) (λ _, attempts_fit attempts = false)) db.
Proof.
  intros Hu Ht. revert a db Hu. induction attempts as [|x attempts IH]; intros a db Hu; cbn [insert_attempts attempts_fit forallb]; [by apply charged_ret|].
  eapply outcome_charged; [by apply insert_attempt_charged| |].
  - intros e [->| Hn]; [done|]. rewrite Hn in Ht. by destruct Ht.
  - intros a' db' [-> _] Hu' _. by apply IH.
Qed.

Lemma create_charged t legs attempts db :
  trade_db_ok db →
  outcome (sqlite_create t legs attempts) (charged trade_outcomes TradeDb db
    (λ c, trade_fits t = true ∧ (cr_created c = true → attempts_fit attempts = true))
    (λ _, trade_fits t = false ∨ order_row (trade_rows db) (order_hash t) = None
            ∧ (is_Some (trade_rows db !! t_id t) ∨ attempts_fit attempts = false))) db.
Proof.
  intros Hdb. unfold sqlite_create. apply statement_charged; [apply unstopped_refl|]. intros o1 Hu1. apply outcome_gets. cbn [trade_rows leg_rows attempt_rows with_trade_outcomes].
  apply (outcome_charged _ _ _ _ _ (λ p, trade_fits t = true ∧
      p = match order_row (trade_rows db) (order_hash t) with Some _ => (trade_rows db, false) | None => (p.1, true) end
      ∧ (p.2 = true → is_Some (p.1 !! t_id t) ∧ trade_rows db !! t_id t = None)) _
      (λ _, trade_fits t = false ∨ order_row (trade_rows db) (order_hash t) = None ∧ is_Some (trade_rows db !! t_id t))).
  - unfold insert_trade. apply outcome_lift_bind. pose proof (row_of_trade_fits t) as Hf.
    destruct (row_of_trade t) as [row|e]; cbn in Hf; [|apply charged_refused; auto].
    apply statement_charged; [done|]. intros o2 Hu2. destruct (order_row _ _) as [p|] eqn:Hor; [by apply charged_ret|].
    destruct (trade_rows db !! t_id t) eqn:Hid; [apply charged_refused; [done|]; right; split; [done|by eexists]|].
    apply charged_ret; [done|]. split_and!; [done..|]. intros _. cbn. by rewrite lookup_insert_eq.
  - intros e [?|[? ?]]; auto.
  - intros [rows ins] db' (Hfit & Hp & Hins) Hu _. cbn [fst snd] in *. destruct (order_row (trade_rows db) (order_hash t)) as [[id row]|] eqn:Hor.
    + injection Hp as -> ->. apply statement_charged; [done|]. intros o2 Hu2. apply outcome_lift_bind. cbn [fmap option_fmap option_map ok_or fst].
      eapply outcome_charged; [by apply (commit_charged _ _ _ _ (λ _, True) (λ _, False))|done|]. intros _ db'' _ Hu3 _. by apply charged_ret.
    + injection Hp as ->. destruct (Hins eq_refl) as [Hnew Hold].
      eapply outcome_charged; [apply (insert_legs_charged _ _ _ _ _ _ (λ _, False)); [done|]|done|].
      { intros i _. apply eq_None_not_Some. intros [leg Hleg]. destruct (db_legs _ Hdb _ _ _ Hleg) as [? ?]. congruence. }
      intros l db2 _ Hu2 _. eapply outcome_charged; [by apply insert_attempts_charged|intros e ?; auto|]. intros a db3 Hat Hu3 _.
      eapply outcome_charged; [by apply (commit_charged _ _ _ _ (λ _, True) (λ _, False))|done|]. intros _ db4 _ Hu4 _. by apply charged_ret.
Qed.

Lemma advance_charged id s at_ db :
  trade_db_ok db →
  outcome (sqlite_advance id s at_) (charged trade_outcomes TradeDb db (λ _, i64_fits at_ = true) (λ _, i64_fits at_ = false ∨ trade_rows db !! id = None)) db.
Proof.
  intros Hdb. unfold sqlite_advance. apply statement_charged; [apply unstopped_refl|]. intros o1 Hu1. apply statement_charged; [done|]. intros o2 Hu2.
  apply outcome_gets. cbv zeta. eapply outcome_charged; [apply insert_attempt_charged; [done|]| |].
  - intros x Hx. cbn in *. rewrite lookup_alter_is_Some. by eapply db_attempts.
  - intros e [?|Hn]; [by left|right]. cbn in Hn. by apply lookup_alter_None in Hn.
  - intros a db' [Hf _] Hu _. by apply commit_charged.
Qed.

Lemma settle_charged id o db :
  trade_db_ok db →
  outcome (sqlite_settle id o) (charged trade_outcomes TradeDb db (λ _, i64_fits (set_at o) && opt_i64_fits (set_block_number o) = true)
    (λ _, i64_fits (set_at o) && opt_i64_fits (set_block_number o) = false ∨ trade_rows db !! id = None)) db.
Proof.
  intros Hdb. unfold sqlite_settle. apply statement_charged; [apply unstopped_refl|]. intros o1 Hu1. apply outcome_lift_bind. rewrite opt_i64_of_fits.
  destruct (opt_i64_fits _); [|apply charged_refused; [done|]; left; apply andb_false_r]. apply outcome_lift_bind. rewrite trade_i64_of_fits.
  destruct (i64_fits (set_at o)) eqn:Hf; [|apply charged_refused; auto]. apply statement_charged; [done|]. intros o2 Hu2.
  apply outcome_gets. cbv zeta. eapply outcome_charged; [apply insert_attempt_charged; [done|]| |].
  - intros x Hx. cbn in *. rewrite lookup_alter_is_Some. by eapply db_attempts.
  - intros e [?|Hn]; [congruence|right]. cbn in Hn. by apply lookup_alter_None in Hn.
  - intros a db' _ Hu _. by apply commit_charged.
Qed.

(** ** Every operation is its specification *)

Lemma order_trade_Some v h id r : trades_ok v → of_order v h id r → order_trade v h = Some id.
Proof.
  intros Hv [Hid Ho]. unfold order_trade. destruct (head _) as [[id' r']|] eqn:Hh.
  - apply head_Some_elem_of, list_elem_of_filter in Hh as [Ho' Hin%elem_of_entries]. cbn in *. f_equal.
    eapply (trades_orders _ Hv); [done..|congruence].
  - apply head_None in Hh. apply (f_equal (λ l, (id, r) ∈ l)) in Hh. exfalso. apply (not_elem_of_nil (id, r)). rewrite <-Hh.
    apply list_elem_of_filter. split; [done|]. by apply elem_of_entries.
Qed.

Lemma order_trade_None v h : (∀ id r, ¬ of_order v h id r) → order_trade v h = None.
Proof.
  intros Hn. unfold order_trade. destruct (head _) as [[id r]|] eqn:Hh; [|done].
  apply head_Some_elem_of, list_elem_of_filter in Hh as [Ho Hin%elem_of_entries]. by destruct (Hn id r).
Qed.

Lemma trade_exec_spec o db :
  trade_db_ok db → trade_op_typed o →
  let '(res, db') := trade_exec o db in
  trade_db_ok db' ∧ ∃ used, trade_outcomes db = used ++ trade_outcomes db'
    ∧ (res, sqlite_trade_view db') = trade_spec_faulty o (stopped used) (sqlite_trade_view db).
Proof.
  intros Hdb Ho. destruct o as [t legs attempts|id s at_|id o]; cbn [trade_exec]; unfold mbind, cmd_bind.
  - destruct Ho as [Ht Ha]. pose proof (sqlite_create_law t legs attempts db Ht Ha Hdb) as Hlaw. pose proof (create_charged t legs attempts db Hdb) as Hch.
    unfold outcome in *. destruct (sqlite_create t legs attempts db) as [[c|[]] db']; cbn in *; destruct Hlaw as [Hdb' Hv], Hch as (used & Hu & Hch);
      (split; [done|]); exists used; (split; [done|]); unfold trade_spec_faulty; cbn.
    + destruct Hch as (-> & -> & Hat). cbn. destruct Hv as [(r & Hr & Hc & ->)|(Hno & Hnew & -> & ->)].
      * rewrite (order_trade_Some _ _ _ _ (sqlite_trade_view_ok _ Hdb) Hr). destruct c; cbn in *. by subst.
      * rewrite (order_trade_None _ _ Hno), Hat by done. rewrite bool_decide_false by (rewrite Hnew; by intros [? ?]). done.
    + rewrite Hv. destruct (stopped used); [done|]. destruct Hch as [->|[Hor Hr]]; [done|]. destruct (trade_fits t); [cbn|done].
      rewrite order_trade_None.
      2: { intros id r (row & Hrow & Hoh)%of_order_row; [|done]. by eapply order_row_None. }
      destruct Hr as [Hr|Hr]; [by rewrite bool_decide_true by (by apply trade_view_row)|]. by rewrite Hr, orb_true_r.
  - pose proof (sqlite_advance_law id s at_ db Ho Hdb) as Hlaw. pose proof (advance_charged id s at_ db Hdb) as Hch.
    unfold outcome in *. destruct (sqlite_advance id s at_ db) as [[[]|[]] db']; cbn in *; destruct Hlaw as [Hdb' Hv], Hch as (used & Hu & Hch);
      (split; [done|]); exists used; (split; [done|]); unfold trade_spec_faulty; cbn.
    + destruct Hch as (-> & ->), Hv as [Hid ->]. by rewrite bool_decide_true.
    + rewrite Hv. destruct (stopped used); [done|]. destruct Hch as [->|Hn]; [done|].
      rewrite bool_decide_false by (rewrite trade_view_row, Hn by done; by intros [? ?]). by rewrite andb_false_r.
  - pose proof (sqlite_settle_law id o db Ho Hdb) as Hlaw. pose proof (settle_charged id o db Hdb) as Hch.
    unfold outcome in *. destruct (sqlite_settle id o db) as [[[]|[]] db']; cbn in *; destruct Hlaw as [Hdb' Hv], Hch as (used & Hu & Hch);
      (split; [done|]); exists used; (split; [done|]); unfold trade_spec_faulty; cbn.
    + destruct Hch as (-> & ->), Hv as [Hid ->]. by rewrite bool_decide_true.
    + rewrite Hv. destruct (stopped used); [done|]. destruct Hch as [->|Hn]; [done|].
      rewrite bool_decide_false by (rewrite trade_view_row, Hn by done; by intros [? ?]). by rewrite andb_false_r.
Qed.

(** C24: the SQLite trade tables implement the abstract trades.  Whatever operations run, and whichever of their statements
    fail, the tables stay well formed, and the results and what the tables represent are exactly those of the
    specification, given which operations had a failing statement: those fail and leave no trace, and every other one
    does what it promises.  An order is recorded once, with its legs and its first stages; a later creation of the same
    order returns the first trade and changes nothing; a trade that exists advances or settles by the forward-only rules;
    and only a trade that is unknown, an id that another order has, or a time beyond 64 bits is refused. *)
Theorem sqlite_trade_store_refines ops db :
  trade_db_ok db → Forall trade_op_typed ops →
  let '(rs, db') := trade_run db ops in
  trade_db_ok db' ∧ ∃ used, length used = length ops ∧ trade_outcomes db = concat used ++ trade_outcomes db'
    ∧ (rs, sqlite_trade_view db') = trade_spec_run (sqlite_trade_view db) (zip ops (stopped <$> used)).
Proof.
  intros Hdb Hops. revert db Hdb. induction Hops as [|o ops Ho _ IH]; intros db Hdb; cbn [trade_run]; [split; [done|by exists []]|].
  pose proof (trade_exec_spec o db Hdb Ho) as Hstep. destruct (trade_exec o db) as [res db1]. destruct Hstep as (Hdb1 & u & Hu & Hs).
  specialize (IH db1 Hdb1). destruct (trade_run db1 ops) as [rs db2]. destruct IH as (Hdb2 & used & Hlen & Hus & Hr).
  split; [done|]. exists (u :: used). split; [cbn; by rewrite Hlen|]. split; [cbn; by rewrite Hu, Hus, <-app_assoc|].
  cbn. by rewrite <-Hs, <-Hr.
Qed.

Definition empty_trades : TradeDatabase := mk_trade_db ∅ ∅ ∅ [].

Lemma empty_trades_ok : trade_db_ok empty_trades.
Proof. split; cbn; intros *; by rewrite ?lookup_empty. Qed.

Definition sample_trade (id : TradeId) (order : IntentId) : Trade :=
  mk_trade id order 1 2 3 100 90 None Quoted 50 None None None None None 7 None None None.

Lemma sqlite_trade_store_refines_witness :
  let ops := [TradeCreate (sample_trade 1 11) [] [mk_attempt Created 7]; TradeAdvance 1 Submitted 8;
              TradeCreate (sample_trade 2 11) [] [mk_attempt Created 9]; TradeSettle 1 (mk_settlement Confirmed (Some 90) (Some 5) (Some 42) 10);
              TradeAdvance 1 Failed 11] in
  let db := mk_trade_db ∅ ∅ ∅ [true; true; true; true; true; false] in
  let '(rs, db') := trade_run db ops in
  rs = [Ok (Some (mk_create_result 1 true)); Err TradeDb; Ok (Some (mk_create_result 1 false)); Ok None; Ok None]
  ∧ (status ∘ tr_trade <$> sqlite_trade_view db' !! 1) = Some Confirmed ∧ sqlite_trade_view db' !! 2 = None
  ∧ ∃ used, (rs, sqlite_trade_view db') = trade_spec_run (sqlite_trade_view db) (zip ops (stopped <$> used)).
Proof.
  intros ops db. assert (Hdb : trade_db_ok db) by (by apply (trade_db_ok_outcomes empty_trades), empty_trades_ok).
  assert (Hops : Forall trade_op_typed ops) by (repeat constructor; cbn; try lia; intros ? [=]; lia).
  pose proof (sqlite_trade_store_refines ops db Hdb Hops) as Hr.
  assert (Hrs : (trade_run db ops).1 = [Ok (Some (mk_create_result 1 true)); Err TradeDb; Ok (Some (mk_create_result 1 false)); Ok None; Ok None])
    by (vm_compute; reflexivity).
  assert (H1 : (status ∘ tr_trade <$> sqlite_trade_view (trade_run db ops).2 !! 1) = Some Confirmed) by (vm_compute; reflexivity).
  assert (H2 : sqlite_trade_view (trade_run db ops).2 !! 2 = None) by (vm_compute; reflexivity).
  destruct (trade_run db ops) as [rs db']. destruct Hr as (_ & used & _ & _ & Hr). split; [exact Hrs|]. split; [exact H1|]. split; [exact H2|].
  exists used. exact Hr.
Defined.
