(* ===== verification/Fills.v ===== *)
(** * Fills and the execution port

    [primitives/execution/fill.rs]: the transaction that settles a reserved plan and its
    lifecycle.  The [FillStore] port ([deps/execution/store.rs]) with its SQLite
    implementation ([adapters/src/execution/store.rs]); the [Execution] and [SimGate] ports
    ([deps/execution/engine.rs], [sim.rs]) with the walletkit executor
    ([adapters/src/execution/executor.rs]); and the settlement reader
    ([adapters/src/execution/settlement.rs]).

    The wallet is another package: a class of its operations and of what the executor
    relies on.  Its log lists the transactions handed to it; a send that reports an error
    may or may not have been logged. *)

From stdpp Require Import strings.
From S2P Require Import Prelude Commands U256 Reservation LedgerStore CurveDecode Registry.

#[local] Open Scope Z_scope.

(** ** Fills *)

Record FillTx := mk_fill_tx {
  ftx_intent : IntentId;
  ftx_chain_id : Z;
  filler_owner : Address;
  ftx_filler : Address;
  ftx_value : U256;
  ftx_calldata : list Z
}.

Definition FillTx_new (intent : IntentId) (chain_id : Z) (owner filler : Address) (calldata : list Z) : FillTx :=
  mk_fill_tx intent chain_id owner filler 0 calldata.

Inductive ExecStatus : Type :=
| ExecPending
| ExecConfirmed (block : Z) (tx : B256)
| ExecFailed (reason : string)
| ExecDropped.

#[global] Instance ExecStatus_eq_dec : EqDecision ExecStatus.
Proof. solve_decision. Defined.

Abbreviation ExecHandle := B256.

Inductive SimVerdict : Type := SimOk | SimReject (reason : string).

Record TrackedFill := mk_tracked { tf_intent : IntentId; tf_reservation : ReservationId }.

#[global] Instance TrackedFill_eq_dec : EqDecision TrackedFill.
Proof. solve_decision. Defined.

(** ** The fill store *)

Inductive FillStoreError : Type := FillDb.

Class FillStore (St : Type) := {
  fill_track : IntentId → ReservationId → list Z → cmd St FillStoreError unit;
  fill_handle : IntentId → cmd St FillStoreError (option (list Z));
  fill_untrack : IntentId → cmd St FillStoreError unit;
  fill_tracked : cmd St FillStoreError (list TrackedFill);
  fill_record_terminal : IntentId → ExecStatus → cmd St FillStoreError unit;
  fill_terminal : IntentId → cmd St FillStoreError (option ExecStatus)
}.

(** The in-flight rows and the terminal statuses a store represents. *)
Record FillView := mk_fill_view {
  fv_inflight : gmap IntentId (ReservationId * list Z);
  fv_terminal : gmap IntentId ExecStatus
}.

Definition view_track (intent : IntentId) (r : ReservationId) (handle : list Z) (v : FillView) : FillView :=
  match fv_inflight v !! intent with
  | Some _ => v
  | None => mk_fill_view (<[intent := (r, handle)]> (fv_inflight v)) (fv_terminal v)
  end.

Definition view_untrack (intent : IntentId) (v : FillView) : FillView :=
  mk_fill_view (delete intent (fv_inflight v)) (fv_terminal v).

Definition view_terminal (intent : IntentId) (s : ExecStatus) (v : FillView) : FillView :=
  match s with ExecPending => v | _ => mk_fill_view (fv_inflight v) (<[intent := s]> (fv_terminal v)) end.

(** Blocks are unsigned and fit a column. *)
Definition status_storable (s : ExecStatus) : Prop :=
  match s with ExecConfirmed block _ => 0 ≤ block ≤ I64_MAX | _ => True end.

Class FillStoreLaws (St : Type) `{FillStore St} := {
  fill_view : St → FillView;
  fill_store_ok : St → Prop;
  track_law intent r handle s : fill_store_ok s →
    outcome (fill_track intent r handle) (λ res s', fill_store_ok s' ∧
      match res with Ok _ => fill_view s' = view_track intent r handle (fill_view s) | Err _ => fill_view s' = fill_view s end) s;
  handle_law intent s : fill_store_ok s →
    outcome (fill_handle intent) (λ res s', fill_store_ok s' ∧ fill_view s' = fill_view s ∧
      match res with Ok o => o = snd <$> fv_inflight (fill_view s) !! intent | Err _ => True end) s;
  untrack_law intent s : fill_store_ok s →
    outcome (fill_untrack intent) (λ res s', fill_store_ok s' ∧
      match res with Ok _ => fill_view s' = view_untrack intent (fill_view s) | Err _ => fill_view s' = fill_view s end) s;
  fill_tracked_law s : fill_store_ok s →
    outcome fill_tracked (λ res s', fill_store_ok s' ∧ fill_view s' = fill_view s ∧
      match res with
      | Ok l => NoDup (tf_intent <$> l) ∧ ∀ f, f ∈ l ↔ fst <$> fv_inflight (fill_view s) !! tf_intent f = Some (tf_reservation f)
      | Err _ => True
      end) s;
  record_terminal_law intent st s : status_storable st → fill_store_ok s →
    outcome (fill_record_terminal intent st) (λ res s', fill_store_ok s' ∧
      match res with Ok _ => fill_view s' = view_terminal intent st (fill_view s) | Err _ => fill_view s' = fill_view s end) s;
  terminal_law intent s : fill_store_ok s →
    outcome (fill_terminal intent) (λ res s', fill_store_ok s' ∧ fill_view s' = fill_view s ∧
      match res with Ok o => o = fv_terminal (fill_view s) !! intent | Err _ => True end) s;
  terminal_blocks intent block tx s : fill_store_ok s → fv_terminal (fill_view s) !! intent = Some (ExecConfirmed block tx) → 0 ≤ block
}.

(** ** SQLite *)

Record TerminalRow := mk_terminal_row {
  ter_status : string;
  ter_tx_hash : option B256;
  ter_block : option Z;
  ter_reason : option string
}.

(** [inflight_fill] and [inflight_fill_terminal], both by order hash. *)
Record FillDatabase := mk_fill_db {
  inflight_fill : gmap IntentId (ReservationId * list Z);
  inflight_fill_terminal : gmap IntentId TerminalRow;
  fill_outcomes : list bool
}.

Definition fill_statement : cmd FillDatabase FillStoreError unit := λ db,
  match fill_outcomes db with
  | [] => (Ok tt, db)
  | ok :: rest => ((if ok : bool then Ok tt else Err FillDb), mk_fill_db (inflight_fill db) (inflight_fill_terminal db) rest)
  end.

Definition set_inflight (f : gmap IntentId (ReservationId * list Z) → gmap IntentId (ReservationId * list Z)) :
    cmd FillDatabase FillStoreError unit :=
  modify (λ db, mk_fill_db (f (inflight_fill db)) (inflight_fill_terminal db) (fill_outcomes db)).

Definition sqlite_track (intent : IntentId) (r : ReservationId) (handle : list Z) : cmd FillDatabase FillStoreError unit :=
  _ ← fill_statement;
  set_inflight (λ t, match t !! intent with Some _ => t | None => <[intent := (r, handle)]> t end).

Definition sqlite_handle (intent : IntentId) : cmd FillDatabase FillStoreError (option (list Z)) :=
  _ ← fill_statement; db ← gets (λ db, db); mret (snd <$> inflight_fill db !! intent).

Definition sqlite_untrack (intent : IntentId) : cmd FillDatabase FillStoreError unit :=
  _ ← fill_statement; set_inflight (delete intent).

(** The query names no order. *)
Definition sqlite_tracked : cmd FillDatabase FillStoreError (list TrackedFill) :=
  _ ← fill_statement; db ← gets (λ db, db); mret ((λ p, mk_tracked p.1 p.2.1) <$> entries (inflight_fill db)).

(** [block as i64] *)
Definition as_i64 (v : Z) : Z := if v <=? I64_MAX then v else v - 2 ^ 64.

Definition terminal_row (s : ExecStatus) : option TerminalRow :=
  match s with
  | ExecConfirmed block tx => Some (mk_terminal_row "confirmed" (Some tx) (Some (as_i64 block)) None)
  | ExecFailed reason => Some (mk_terminal_row "failed" None None (Some reason))
  | ExecDropped => Some (mk_terminal_row "dropped" None None None)
  | ExecPending => None
  end.

Definition sqlite_record_terminal (intent : IntentId) (s : ExecStatus) : cmd FillDatabase FillStoreError unit :=
  match terminal_row s with
  | None => mret tt
  | Some row =>
      _ ← fill_statement;
      modify (λ db, mk_fill_db (inflight_fill db) (<[intent := row]> (inflight_fill_terminal db)) (fill_outcomes db))
  end.

Definition decode_terminal (row : TerminalRow) : result FillStoreError ExecStatus :=
  if bool_decide (ter_status row = "confirmed") then
    tx ← ok_or (ter_tx_hash row) FillDb;
    block ← ok_or (ter_block row) FillDb;
    if block <? 0 then Err FillDb else Ok (ExecConfirmed block tx)
  else if bool_decide (ter_status row = "failed") then Ok (ExecFailed (default "execution failed" (ter_reason row)))
  else if bool_decide (ter_status row = "dropped") then Ok ExecDropped
  else Err FillDb.

Definition sqlite_terminal (intent : IntentId) : cmd FillDatabase FillStoreError (option ExecStatus) :=
  _ ← fill_statement;
  db ← gets (λ db, db);
  match inflight_fill_terminal db !! intent with
  | None => mret None
  | Some row => s ← lift (decode_terminal row); mret (Some s)
  end.

#[global] Instance sqlite_fill_store : FillStore FillDatabase := {|
  fill_track := sqlite_track;
  fill_handle := sqlite_handle;
  fill_untrack := sqlite_untrack;
  fill_tracked := sqlite_tracked;
  fill_record_terminal := sqlite_record_terminal;
  fill_terminal := sqlite_terminal
|}.

(** ** The wallet *)

(** walletkit's lifecycle, with its non-terminal states together. *)
Inductive TxStatus : Type :=
| TxInFlight | TxConfirmed (block : Z) | TxFailed (reason : string) | TxReplaced | TxDropped.

Record TxHandle := mk_tx_handle { th_status : TxStatus; th_broadcasts : list B256 }.

Record TxIntent := mk_tx_intent {
  txi_chain_id : Z;
  txi_from : Address;
  txi_to : Address;
  txi_value : U256;
  txi_data : list Z
}.

Inductive SimOutcome : Type := SimSuccess | SimRevert (reason : string) | SimUnknown.

Class Wallet (W : Type) := {
  HandleId : Type;
  wallet_send : TxIntent → cmd W unit HandleId;
  wallet_handle : HandleId → W → result unit (option TxHandle);
  wallet_tick : cmd W unit unit;
  wallet_dry_run : TxIntent → W → result unit SimOutcome;
  (** [serde_json] of a handle id. *)
  handle_to_bytes : HandleId → option (list Z);
  handle_from_bytes : list Z → option HandleId;
  (** The block of a transaction's receipt, as the provider reports it. *)
  receipt_block : B256 → W → result unit (option (option Z))
}.

Class WalletLaws (W : Type) `{Wallet W} := {
  wallet_log : W → list TxIntent;
  send_logged tx w : outcome (wallet_send tx) (λ res w',
    match res with
    | Ok _ => wallet_log w' = wallet_log w ++ [tx]
    | Err _ => wallet_log w' = wallet_log w ∨ wallet_log w' = wallet_log w ++ [tx]
    end) w;
  tick_logged w : outcome wallet_tick (λ _ w', wallet_log w' = wallet_log w) w;
  (** Blocks are counted in 63 bits. *)
  mined_block id w h block : wallet_handle id w = Ok (Some h) → th_status h = TxConfirmed block → 0 ≤ block ≤ I64_MAX
}.

(** ** The execution ports *)

Inductive ExecutionError : Type := Engine.

Class Execution (St : Type) := {
  exec_submit : FillTx → ReservationId → cmd St ExecutionError ExecHandle;
  exec_status : ExecHandle → cmd St ExecutionError (option ExecStatus);
  exec_forget : IntentId → cmd St ExecutionError unit;
  exec_tracked : cmd St ExecutionError (list TrackedFill);
  exec_tick : cmd St ExecutionError unit;
  simulate : FillTx → cmd St ExecutionError SimVerdict
}.

(** The raw call of a fill. *)
Definition fill_to_intent (fill : FillTx) : TxIntent :=
  mk_tx_intent (ftx_chain_id fill) (filler_owner fill) (ftx_filler fill) (ftx_value fill) (ftx_calldata fill).

Class ExecutionLaws (St : Type) `{Execution St} := {
  inflight : St → gmap IntentId ReservationId;
  exec_log : St → list TxIntent;
  exec_ok : St → Prop;
  (** A transaction the executor knows as one of an order. *)
  exec_sent : St → IntentId → B256 → Prop;
  submit_law fill r s : exec_ok s →
    outcome (exec_submit fill r) (λ res s', exec_ok s' ∧
      match inflight s !! ftx_intent fill with
      | Some _ => inflight s' = inflight s ∧ exec_log s' = exec_log s ∧ ∀ h, res = Ok h → h = ftx_intent fill
      | None =>
          match res with
          | Ok h => h = ftx_intent fill ∧ inflight s' = <[ftx_intent fill := r]> (inflight s) ∧ exec_log s' = exec_log s ++ [fill_to_intent fill]
          | Err _ => inflight s' = inflight s ∧ (exec_log s' = exec_log s ∨ exec_log s' = exec_log s ++ [fill_to_intent fill])
          end
      end) s;
  status_law h s : exec_ok s →
    outcome (exec_status h) (λ res s', exec_ok s' ∧ inflight s' = inflight s ∧ exec_log s' = exec_log s
      ∧ (∀ i tx, exec_sent s' i tx → exec_sent s i tx)
      ∧ match res with Ok (Some (ExecConfirmed block tx)) => 0 ≤ block ∧ exec_sent s' h tx | _ => True end) s;
  forget_law intent s : exec_ok s →
    outcome (exec_forget intent) (λ res s', exec_ok s' ∧ exec_log s' = exec_log s ∧
      match res with Ok _ => inflight s' = delete intent (inflight s) | Err _ => inflight s' = inflight s end) s;
  tracked_law s : exec_ok s →
    outcome exec_tracked (λ res s', exec_ok s' ∧ inflight s' = inflight s ∧ exec_log s' = exec_log s
      ∧ (∀ i tx, exec_sent s' i tx → exec_sent s i tx) ∧
      match res with
      | Ok l => NoDup (tf_intent <$> l) ∧ ∀ f, f ∈ l ↔ inflight s !! tf_intent f = Some (tf_reservation f)
      | Err _ => True
      end) s;
  exec_tick_law s : exec_ok s →
    outcome exec_tick (λ _ s', exec_ok s' ∧ inflight s' = inflight s ∧ exec_log s' = exec_log s) s;
  simulate_law fill s : exec_ok s →
    outcome (simulate fill) (λ _ s', exec_ok s' ∧ inflight s' = inflight s ∧ exec_log s' = exec_log s) s
}.

(** ** The walletkit executor *)

Section executor.
Context {FSt W : Type} `{HF : FillStore FSt} `{HW : Wallet W}.

Record Executor := mk_executor { ex_store : FSt; ex_wallet : W }.

Definition on_fills {A} (c : cmd FSt FillStoreError A) : cmd Executor ExecutionError A :=
  zoom ex_store (λ s st, mk_executor st (ex_wallet s)) (λ _, Engine) c.

Definition on_wallet {A} (c : cmd W unit A) : cmd Executor ExecutionError A :=
  zoom ex_wallet (λ s w, mk_executor (ex_store s) w) (λ _, Engine) c.

Definition read_wallet {A} (f : W → result unit A) : cmd Executor ExecutionError A :=
  w ← gets ex_wallet; lift (map_err (λ _, Engine) (f w)).

Definition to_exec_status (status : TxStatus) (mined_tx : B256) : ExecStatus :=
  match status with
  | TxConfirmed block => ExecConfirmed block mined_tx
  | TxFailed reason => ExecFailed reason
  | TxReplaced | TxDropped => ExecDropped
  | TxInFlight => ExecPending
  end.

(** The latest broadcast whose receipt is at the block. *)
Fixpoint mined_broadcast (newest_first : list B256) (block : Z) : cmd Executor ExecutionError B256 :=
  match newest_first with
  | [] => fail Engine
  | tx :: rest =>
      receipt ← read_wallet (receipt_block tx);
      if bool_decide (receipt = Some (Some block)) then mret tx else mined_broadcast rest block
  end.

Definition status_for (handle : TxHandle) : cmd Executor ExecutionError ExecStatus :=
  match th_status handle with
  | TxConfirmed block => tx ← mined_broadcast (reverse (th_broadcasts handle)) block; mret (ExecConfirmed block tx)
  | status => mret (to_exec_status status (default 0 (last (th_broadcasts handle))))
  end.

Definition to_verdict (outcome : SimOutcome) : SimVerdict :=
  match outcome with
  | SimSuccess => SimOk
  | SimRevert reason => SimReject reason
  | SimUnknown => SimReject "unrecognized simulation outcome"
  end.

Definition executor_submit (fill : FillTx) (reservation : ReservationId) : cmd Executor ExecutionError ExecHandle :=
  let key := ftx_intent fill in
  tracked ← on_fills (fill_handle (ftx_intent fill));
  match tracked with
  | Some _ => mret key
  | None =>
      id ← on_wallet (wallet_send (fill_to_intent fill));
      bytes ← lift (ok_or (handle_to_bytes id) Engine);
      _ ← on_fills (fill_track (ftx_intent fill) reservation bytes);
      mret key
  end.

Definition executor_status (handle : ExecHandle) : cmd Executor ExecutionError (option ExecStatus) :=
  tracked ← on_fills (fill_handle handle);
  match tracked with
  | None => on_fills (fill_terminal handle)
  | Some bytes =>
      id ← lift (ok_or (handle_from_bytes bytes) Engine);
      h ← read_wallet (wallet_handle id);
      match h with
      | Some h => s ← status_for h; mret (Some s)
      | None => on_fills (fill_terminal handle)
      end
  end.

Definition executor_forget (intent : IntentId) : cmd Executor ExecutionError unit :=
  tracked ← on_fills (fill_handle intent);
  _ ← match tracked with
      | Some bytes =>
          id ← lift (ok_or (handle_from_bytes bytes) Engine);
          h ← read_wallet (wallet_handle id);
          match h with
          | Some h => s ← status_for h; on_fills (fill_record_terminal intent s)
          | None => mret tt
          end
      | None => mret tt
      end;
  on_fills (fill_untrack intent).

Definition executor_tracked : cmd Executor ExecutionError (list TrackedFill) := on_fills fill_tracked.

Definition executor_tick : cmd Executor ExecutionError unit := on_wallet wallet_tick.

Definition executor_simulate (fill : FillTx) : cmd Executor ExecutionError SimVerdict :=
  preview ← read_wallet (wallet_dry_run (fill_to_intent fill));
  mret (to_verdict preview).

#[global] Instance walletkit_execution : Execution Executor := {|
  exec_submit := executor_submit;
  exec_status := executor_status;
  exec_forget := executor_forget;
  exec_tracked := executor_tracked;
  exec_tick := executor_tick;
  simulate := executor_simulate
|}.

End executor.
Arguments Executor : clear implicits.
Arguments mk_executor {FSt W} _ _.

(** ** The settlement reader *)

Inductive SettlementError : Type := SettlementRead.

(** What a fill's receipt says was pulled for one source. *)
Definition pulled_for (pulls : list AquaEvent) (source : ReservationSource) : U256 :=
  foldl saturating_add 0 (omap (λ event,
    match event with
    | Pulled maker _ hash token amount =>
        if (maker =? src_maker source) && (hash =? src_strategy_hash source) && (token =? src_token source) then Some amount else None
    | _ => None
    end) pulls).

(** [receipt] reads a transaction's receipt as the Aqua events its logs decode to. *)
Definition settled (receipt : B256 → result unit (option (list AquaEvent))) (tx : B256) (sources : list ReservationSource) :
    result SettlementError (list U256) :=
  logs ← map_err (λ _, SettlementRead) (receipt tx);
  pulls ← ok_or logs SettlementRead;
  Ok (pulled_for pulls <$> sources).

(** * The executor meets the execution port's contract

    The SQLite fill store meets its contract, and over any such store and any wallet the
    walletkit executor meets that of the [Execution] port; and what the settlement reader
    reports. *)

(** ** The SQLite fill store *)

Section sqlite_fills.
Implicit Types (db : FillDatabase).

Definition terminal_view db : gmap IntentId ExecStatus := omap (λ row, ok (decode_terminal row)) (inflight_fill_terminal db).

Definition sqlite_fill_view db : FillView := mk_fill_view (inflight_fill db) (terminal_view db).

(** Every terminal row reads back. *)
Definition fill_db_ok db : Prop := ∀ i row, inflight_fill_terminal db !! i = Some row → ∃ s, decode_terminal row = Ok s.

Definition with_fill_outcomes db o : FillDatabase := mk_fill_db (inflight_fill db) (inflight_fill_terminal db) o.

Lemma outcome_fill_statement {A} (k : unit → cmd FillDatabase FillStoreError A) Q db :
  (∀ o, outcome (k tt) Q (with_fill_outcomes db o)) → (∀ o, Q (Err FillDb) (with_fill_outcomes db o)) →
  outcome (fill_statement ≫= k) Q db.
Proof.
  intros Hk He. unfold outcome, mbind, cmd_bind, fill_statement. destruct (fill_outcomes db) as [|[] o] eqn:Ho.
  - specialize (Hk []). unfold outcome, with_fill_outcomes in Hk. rewrite <-Ho in Hk. by destruct db.
  - apply Hk.
  - apply He.
Qed.

(** A terminal status that is recorded reads back. *)
Lemma terminal_round_trip s row : status_storable s → terminal_row s = Some row → decode_terminal row = Ok s.
Proof.
  destruct s as [|block tx|reason|]; cbn; intros Hs; [done|..]; intros [= <-]; [|done|done].
  unfold decode_terminal, as_i64. cbn. destruct (block <=? I64_MAX) eqn:E; zbool; [|lia].
  destruct (block <? 0) eqn:E'; zbool; [lia|done].
Qed.

Lemma sqlite_track_law intent r handle db :
  fill_db_ok db →
  outcome (sqlite_track intent r handle) (λ res db', fill_db_ok db' ∧
    match res with Ok _ => sqlite_fill_view db' = view_track intent r handle (sqlite_fill_view db) | Err _ => sqlite_fill_view db' = sqlite_fill_view db end) db.
Proof.
  intros Hdb. apply outcome_fill_statement; [|done]. intros o. split; [done|]. cbn.
  unfold view_track. cbn. by destruct (inflight_fill db !! intent).
Qed.

Lemma sqlite_tracked_law db :
  fill_db_ok db →
  outcome sqlite_tracked (λ res db', fill_db_ok db' ∧ sqlite_fill_view db' = sqlite_fill_view db ∧
    match res with
    | Ok l => NoDup (tf_intent <$> l) ∧ ∀ f, f ∈ l ↔ fst <$> fv_inflight (sqlite_fill_view db) !! tf_intent f = Some (tf_reservation f)
    | Err _ => True
    end) db.
Proof.
  intros Hdb. apply outcome_fill_statement; [|done]. intros o. apply outcome_gets, outcome_ret. split_and!; [done|done|..].
  - rewrite <-list_fmap_compose. apply NoDup_keys.
  - intros f. cbn. rewrite list_elem_of_fmap, fmap_Some. split.
    + intros ([i [r h]] & -> & Hin%elem_of_entries). cbn in *. by exists (r, h).
    + intros ([r h] & Hf & Hr). exists (tf_intent f, (r, h)). split; [destruct f; cbn in *; congruence|]. by apply elem_of_entries.
Qed.

Lemma sqlite_record_terminal_law intent st db :
  status_storable st → fill_db_ok db →
  outcome (sqlite_record_terminal intent st) (λ res db', fill_db_ok db' ∧
    match res with Ok _ => sqlite_fill_view db' = view_terminal intent st (sqlite_fill_view db) | Err _ => sqlite_fill_view db' = sqlite_fill_view db end) db.
Proof.
  intros Hst Hdb. unfold sqlite_record_terminal. destruct (terminal_row st) as [row|] eqn:Hrow.
  2: { apply outcome_ret. destruct st; try done. }
  pose proof (terminal_round_trip st row Hst Hrow) as Hdec. apply outcome_fill_statement; [|done]. intros o. unfold outcome, modify. cbn. split.
  - intros i row' Hi. cbn in Hi. apply lookup_insert_Some in Hi as [[_ <-]|[_ H]]; [by eexists|by eapply Hdb].
  - unfold sqlite_fill_view, terminal_view. cbn. rewrite (omap_insert_Some _ _ _ _ st) by (by rewrite Hdec). by destruct st.
Qed.

Lemma sqlite_terminal_law intent db :
  fill_db_ok db →
  outcome (sqlite_terminal intent) (λ res db', fill_db_ok db' ∧ sqlite_fill_view db' = sqlite_fill_view db ∧
    match res with Ok o => o = fv_terminal (sqlite_fill_view db) !! intent | Err _ => True end) db.
Proof.
  intros Hdb. apply outcome_fill_statement; [|done]. intros o. apply outcome_gets. cbn. unfold terminal_view. rewrite lookup_omap.
  destruct (inflight_fill_terminal db !! intent) as [row|] eqn:Hrow; [|by apply outcome_ret].
  destruct (Hdb _ _ Hrow) as [s Hs]. apply outcome_lift_bind. rewrite Hs. apply outcome_ret. cbn. by rewrite Hs.
Qed.

Lemma sqlite_terminal_blocks intent block tx db :
  fill_db_ok db → fv_terminal (sqlite_fill_view db) !! intent = Some (ExecConfirmed block tx) → 0 ≤ block.
Proof.
  intros _. cbn. unfold terminal_view. rewrite lookup_omap. destruct (inflight_fill_terminal db !! intent) as [row|]; [|done]. cbn.
  unfold decode_terminal. case_bool_decide; [|by repeat case_bool_decide].
  destruct (ter_tx_hash row); [|done]. destruct (ter_block row) as [b|]; [|done]. cbn.
  destruct (b <? 0) eqn:E; [done|]. zbool. cbn. intros [= <- _]. lia.
Qed.

#[global] Instance sqlite_fill_store_laws : FillStoreLaws FillDatabase.
Proof.
  refine {| fill_view := sqlite_fill_view; fill_store_ok := fill_db_ok; track_law := sqlite_track_law;
            fill_tracked_law := sqlite_tracked_law; record_terminal_law := sqlite_record_terminal_law; terminal_law := sqlite_terminal_law;
            terminal_blocks := sqlite_terminal_blocks |}.
  - intros intent db Hdb. by apply outcome_fill_statement.
  - intros intent db Hdb. by apply outcome_fill_statement.
Defined.

End sqlite_fills.

(** ** The executor *)

Section executor.
Context {FSt W : Type} `{HF : FillStore FSt} `{HFL : !FillStoreLaws FSt} `{HW : Wallet W} `{HWL : !WalletLaws W}.
Implicit Types (s : Executor FSt W).

Definition executor_inflight s : gmap IntentId ReservationId := fst <$> fv_inflight (fill_view (ex_store s)).

(** A broadcast of the order's handle, or the transaction its record ended with. *)
Definition executor_sent s (i : IntentId) (tx : B256) : Prop :=
  (∃ r bytes id h, fv_inflight (fill_view (ex_store s)) !! i = Some (r, bytes) ∧ handle_from_bytes bytes = Some id
     ∧ wallet_handle id (ex_wallet s) = Ok (Some h) ∧ tx ∈ th_broadcasts h)
  ∨ ∃ block, fv_terminal (fill_view (ex_store s)) !! i = Some (ExecConfirmed block tx).

(** Only what a statement consumes differs. *)
Definition same_state s s' : Prop :=
  fill_store_ok (ex_store s') ∧ fill_view (ex_store s') = fill_view (ex_store s) ∧ ex_wallet s' = ex_wallet s.

Lemma same_state_trans s1 s2 s3 : same_state s1 s2 → same_state s2 s3 → same_state s1 s3.
Proof. intros (_ & Hi & Hl) (Hok & Hi' & Hl'). split_and!; [done|congruence..]. Qed.

Lemma same_state_sent s s' i tx : same_state s s' → executor_sent s' i tx ↔ executor_sent s i tx.
Proof. intros (_ & Hv & Hw). unfold executor_sent. by rewrite Hv, Hw. Qed.

(** The store, with another state that represents the same. *)
Definition same_fills s s' : Prop :=
  fill_store_ok (ex_store s') ∧ executor_inflight s' = executor_inflight s ∧ wallet_log (ex_wallet s') = wallet_log (ex_wallet s).

Lemma on_fills_outcome {A} (c : cmd FSt FillStoreError A) (Q : result ExecutionError A → Executor FSt W → Prop) s :
  outcome c (λ res st, Q (map_err (λ _, Engine) res) (mk_executor st (ex_wallet s))) (ex_store s) → outcome (on_fills c) Q s.
Proof. unfold outcome, on_fills, zoom. by destruct (c (ex_store s)). Qed.

(** Reading the wallet changes nothing. *)
Lemma read_wallet_bind {A B} (f : W → result unit A) (k : A → cmd (Executor FSt W) ExecutionError B) Q s :
  match f (ex_wallet s) with Ok a => outcome (k a) Q s | Err _ => Q (Err Engine) s end → outcome (read_wallet f ≫= k) Q s.
Proof. intros H. apply outcome_bind. unfold read_wallet. apply outcome_gets, outcome_lift. by destruct (f _). Qed.

Lemma mined_broadcast_outcome txs block s :
  outcome (mined_broadcast txs block) (λ res s', s' = s ∧ ∀ tx, res = Ok tx → tx ∈ txs) s.
Proof.
  induction txs as [|tx txs IH]; cbn [mined_broadcast]; [done|]. apply read_wallet_bind. destruct (receipt_block _ _); [|done].
  apply outcome_if; intros _.
  - apply outcome_ret. split; [done|]. intros ? [= <-]. left.
  - eapply outcome_mono; [exact IH|]. intros res s' [-> Hin]. split; [done|]. intros tx' Htx. right. by apply Hin.
Qed.

Lemma status_for_outcome h s :
  outcome (status_for h) (λ res s', s' = s ∧ ∀ st, res = Ok st → ∀ block tx, st = ExecConfirmed block tx →
    th_status h = TxConfirmed block ∧ tx ∈ th_broadcasts h) s.
Proof.
  unfold status_for. destruct (th_status h) eqn:Hs; try (apply outcome_ret; by split; [|intros ? [= <-]]).
  apply outcome_bind. eapply outcome_mono; [apply mined_broadcast_outcome|]. intros [tx|e] s' [-> Hin]; [|by split].
  apply outcome_ret. split; [done|]. intros ? [= <-] ? ? [= <- <-]. split; [done|]. by apply elem_of_reverse, Hin.
Qed.

Lemma fill_handle_bind {B} i (k : option (list Z) → cmd (Executor FSt W) ExecutionError B) Q s :
  fill_store_ok (ex_store s) →
  (∀ s', same_fills s s' → ex_wallet s' = ex_wallet s → fill_view (ex_store s') = fill_view (ex_store s) →
    outcome (k (snd <$> fv_inflight (fill_view (ex_store s)) !! i)) Q s' ∧ Q (Err Engine) s') →
  outcome (on_fills (fill_handle i) ≫= k) Q s.
Proof.
  intros Hok Hk. apply outcome_bind, on_fills_outcome. eapply outcome_mono; [by apply handle_law|].
  intros res st (Hst & Hv & Hres).
  destruct (Hk (mk_executor st (ex_wallet s))) as [H1 H2]; [|done|done|].
  { split_and!; [done| |done]. unfold executor_inflight. cbn. by rewrite Hv. }
  destruct res as [o|e]; cbn; [by subst o|done].
Qed.

Lemma executor_submit_law fill r s :
  fill_store_ok (ex_store s) →
  outcome (executor_submit fill r) (λ res s', fill_store_ok (ex_store s') ∧
    match executor_inflight s !! ftx_intent fill with
    | Some _ => executor_inflight s' = executor_inflight s ∧ wallet_log (ex_wallet s') = wallet_log (ex_wallet s) ∧ ∀ h, res = Ok h → h = ftx_intent fill
    | None =>
        match res with
        | Ok h => h = ftx_intent fill ∧ executor_inflight s' = <[ftx_intent fill := r]> (executor_inflight s)
            ∧ wallet_log (ex_wallet s') = wallet_log (ex_wallet s) ++ [fill_to_intent fill]
        | Err _ => executor_inflight s' = executor_inflight s ∧
            (wallet_log (ex_wallet s') = wallet_log (ex_wallet s) ∨ wallet_log (ex_wallet s') = wallet_log (ex_wallet s) ++ [fill_to_intent fill])
        end
    end) s.
Proof.
  intros Hok. unfold executor_submit. apply fill_handle_bind; [done|]. intros s1 (Hok1 & Hi1 & Hl1) Hw1 Hv1.
  assert (Hlk : executor_inflight s !! ftx_intent fill = fst <$> fv_inflight (fill_view (ex_store s)) !! ftx_intent fill) by apply lookup_fmap.
  rewrite Hlk. clear Hlk. destruct (fv_inflight _ !! ftx_intent fill) as [[r0 h0]|] eqn:Hi; cbn.
  - split; [apply outcome_ret|]; (split_and!; [done..|]); [by intros h [= <-]|done].
  - split; [|split_and!; auto]. apply outcome_bind, outcome_zoom. eapply outcome_mono; [apply send_logged|].
    intros [id|e] w Hlog; cbn; [|split_and!; [done|done|rewrite <-Hw1 in *; destruct Hlog as [->| ->]; auto]].
    rewrite Hw1 in Hlog. apply outcome_lift_bind. destruct (handle_to_bytes id) as [bytes|]; cbn; [|split_and!; auto].
    apply outcome_bind, on_fills_outcome. cbn. eapply outcome_mono; [by apply track_law|].
    intros [[]|e] st [Hst Hv]; cbn; rewrite Hv1 in Hv.
    + apply outcome_ret. cbn. split_and!; [done|done| |done]. unfold executor_inflight. cbn. rewrite Hv. unfold view_track. rewrite Hi. cbn.
      by rewrite fmap_insert.
    + split_and!; [done| |auto]. unfold executor_inflight. cbn. by rewrite Hv.
Qed.

Lemma fill_terminal_law i s :
  fill_store_ok (ex_store s) → outcome (on_fills (fill_terminal i)) (λ res s', same_state s s' ∧
    ∀ o, res = Ok o → o = fv_terminal (fill_view (ex_store s)) !! i) s.
Proof.
  intros Hok. apply on_fills_outcome. eapply outcome_mono; [by apply terminal_law|]. intros res st (Hst & Hv & Hres).
  split; [by split_and!|]. destruct res as [o|e]; cbn; [|done]. by intros ? [= <-].
Qed.

Lemma same_fills_trans s1 s2 s3 : same_fills s1 s2 → same_fills s2 s3 → same_fills s1 s3.
Proof. intros (_ & Hi & Hl) (Hok & Hi' & Hl'). split_and!; [done|congruence..]. Qed.

Lemma executor_status_law h s :
  fill_store_ok (ex_store s) →
  outcome (executor_status h) (λ res s', same_state s s' ∧
    match res with Ok (Some (ExecConfirmed block tx)) => 0 ≤ block ∧ executor_sent s h tx | _ => True end) s.
Proof.
  intros Hok. unfold executor_status. apply fill_handle_bind; [done|]. intros s1 Hs1 Hw1 Hv1.
  assert (Hsame : same_state s s1) by (split_and!; [apply Hs1|done..]). split; [|done].
  assert (Hterm : outcome (on_fills (fill_terminal h)) (λ res s', same_state s s' ∧
    match res with Ok (Some (ExecConfirmed block tx)) => 0 ≤ block ∧ executor_sent s h tx | _ => True end) s1).
  { eapply outcome_mono; [apply fill_terminal_law, Hs1|]. intros res s2 [Hs2 Hres]. split; [by eapply same_state_trans|].
    destruct res as [[[|block tx| |]|]|]; try done. specialize (Hres _ eq_refl). rewrite Hv1 in Hres.
    split; [by eapply terminal_blocks|]. right. eauto. }
  destruct (fv_inflight _ !! h) as [[r bytes]|] eqn:Hi; [|done]. cbn. apply outcome_lift_bind.
  destruct (handle_from_bytes bytes) as [id|] eqn:Hid; [|done]. cbn.
  apply read_wallet_bind. destruct (wallet_handle id _) as [[th|]|] eqn:Hth; [|done|done].
  apply outcome_bind. eapply outcome_mono; [apply status_for_outcome|]. intros [st|e] s2 [-> Hst]; [|done].
  apply outcome_ret. split; [done|]. destruct st as [|block tx| |]; try done. rewrite Hw1 in Hth.
  destruct (Hst _ eq_refl _ _ eq_refl) as [Hblock Hin]. split; [by eapply mined_block|]. left. by exists r, bytes, id, th.
Qed.

Lemma executor_forget_law intent s :
  fill_store_ok (ex_store s) →
  outcome (executor_forget intent) (λ res s', fill_store_ok (ex_store s') ∧ wallet_log (ex_wallet s') = wallet_log (ex_wallet s) ∧
    match res with Ok _ => executor_inflight s' = delete intent (executor_inflight s) | Err _ => executor_inflight s' = executor_inflight s end) s.
Proof.
  intros Hok. unfold executor_forget. apply fill_handle_bind; [done|]. intros s1 Hs1 _ _.
  split; [|destruct Hs1 as (? & ? & ?); by split_and!].
  apply outcome_bind, (outcome_mono _ (λ _ s', same_fills s s')).
  - destruct (snd <$> _) as [bytes|]; [|done]. apply outcome_lift_bind. destruct (handle_from_bytes bytes) as [id|]; [|done]. cbn.
    apply read_wallet_bind. destruct (wallet_handle id _) as [[th|]|] eqn:Hth; [|done|done].
    apply outcome_bind. eapply outcome_mono; [apply status_for_outcome|]. intros [st|e] s2 [-> Hst]; [|done].
    apply on_fills_outcome. eapply outcome_mono.
    { apply record_terminal_law; [|apply Hs1]. destruct st as [|block tx| |]; try done. cbn. eapply mined_block; [done|]. by eapply (Hst _ eq_refl). }
    intros [[]|e] st' [Hok' Hv]; (eapply same_fills_trans; [exact Hs1|]); (split_and!; [done| |done]);
      unfold executor_inflight; cbn; rewrite Hv; by destruct st.
  - intros [[]|e] s2 (Hok2 & Hi2 & Hl2); [|by split_and!]. apply on_fills_outcome. eapply outcome_mono; [by apply untrack_law|].
    intros [[]|e] st [Hst Hv]; cbn; split_and!; try done; unfold executor_inflight in *; cbn; rewrite Hv; cbn; [|done].
    by rewrite fmap_delete, Hi2.
Qed.

#[global] Instance walletkit_execution_laws : ExecutionLaws (Executor FSt W).
Proof.
  refine {| inflight := executor_inflight; exec_log := λ s, wallet_log (ex_wallet s); exec_ok := λ s, fill_store_ok (ex_store s);
            exec_sent := executor_sent; submit_law := executor_submit_law; forget_law := executor_forget_law |}.
  - intros h s Hok. eapply outcome_mono; [by apply executor_status_law|]. intros res s' [Hs Hres]. pose proof Hs as (Hok' & Hv & Hw).
    split_and!; [done| |by rewrite Hw| |].
    + unfold executor_inflight. by rewrite Hv.
    + intros i tx. by apply same_state_sent.
    + destruct res as [[[]|]|]; try done. destruct Hres as [? ?]. split; [done|]. by apply (same_state_sent s s').
  - intros s Hok. apply on_fills_outcome. eapply outcome_mono; [by apply fill_tracked_law|]. intros res st (Hst & Hv & Hres).
    split_and!; [done| |done| |].
    + unfold executor_inflight. cbn. by rewrite Hv.
    + intros i tx. apply same_state_sent. by split_and!.
    + destruct res as [l|]; [|done]. cbn. unfold executor_inflight. by setoid_rewrite lookup_fmap.
  - intros s Hok. apply outcome_zoom. eapply outcome_mono; [apply tick_logged|]. intros res w Hw. by split_and!.
  - intros fill s Hok. apply read_wallet_bind. destruct (wallet_dry_run _ _); [apply outcome_ret|]; by split_and!.
Defined.

End executor.

(** ** The settlement reader *)

Definition pulls_of (source : ReservationSource) (event : AquaEvent) : U256 :=
  match event with
  | Pulled maker _ hash token amount =>
      if (maker =? src_maker source) && (hash =? src_strategy_hash source) && (token =? src_token source) then amount else 0
  | _ => 0
  end.

Definition amounts_words (pulls : list AquaEvent) : Prop := ∀ m a h t x, Pulled m a h t x ∈ pulls → is_u256 x.

(** What is booked for a source is the sum of its pulls, unless it exceeds a word. *)
Lemma pulled_for_exact pulls source :
  amounts_words pulls → pulled_for pulls source = Z.min (zsum (pulls_of source) pulls) U256_MAX.
Proof.
  intros Hw. unfold pulled_for.
  set (pick := λ event, match event with
    | Pulled maker _ hash token amount =>
        if (maker =? src_maker source) && (hash =? src_strategy_hash source) && (token =? src_token source) then Some amount else None
    | _ => None end).
  assert (Hgo : ∀ l acc, 0 ≤ acc → amounts_words l →
    foldl saturating_add (Z.min acc U256_MAX) (omap pick l) = Z.min (acc + zsum (pulls_of source) l) U256_MAX).
  { induction l as [|e l IH]; intros acc Hacc Hl; cbn [omap list_omap foldl].
    - cbn. by rewrite Z.add_0_r.
    - assert (Hl' : amounts_words l) by (intros ? ? ? ? ? Hin; eapply Hl; right; exact Hin).
      rewrite zsum_cons. destruct e as [| |m a h t x|]; cbn [pick pulls_of]; try by rewrite Z.add_0_l, IH.
      destruct (_ && _); [|by rewrite Z.add_0_l, IH]. cbn [foldl].
      assert (Hx : is_u256 x) by (eapply (Hl m a h t); left).
      replace (saturating_add (Z.min acc U256_MAX) x) with (Z.min (acc + x) U256_MAX) by u256.
      rewrite IH; [by rewrite Z.add_assoc|u256|done]. }
  specialize (Hgo pulls 0). rewrite Z.min_l in Hgo by u256. by apply Hgo.
Qed.
