(* ===== verification/Metrics.v ===== *)
(** * The quote log and the maker metrics

    [crates/adapters/src/metrics/quote_log.rs] and [metrics/maker_metrics.rs]: the rows written
    for every quote served, and the figures read back from them and from the trades — fills,
    volumes, activity over time and latency of a maker, a strategy or a pair.

    The outcome of each statement comes from the database.  Percentages are floating point
    ([FloatOps]). *)

From stdpp Require Import strings.
From stdpp Require Import strings sorting.
From S2P Require Import Prelude Commands U256 Reservation LedgerStore Ratio CurveDecode Registry Depth Maker Trade TradeSqlite Fills.

#[local] Open Scope Z_scope.

(** ** The tables *)

Abbreviation QuoteId := Z.

Record QuoteEventRow := mk_quote_event { qe_chain : Z; qe_pair : TokenPair; qe_served_at : Z; qe_latency_ms : Z }.

Record MetricsDb := mk_metrics_db {
  md_trades : gmap TradeId TradeRow;
  md_legs : gmap (TradeId * Z) TradeLeg;
  md_events : gmap QuoteId QuoteEventRow;
  md_participants : gmap (QuoteId * StrategyHash) MakerId;
  md_outcomes : list bool
}.

Abbreviation metrics_cmd := (cmd MetricsDb MakerError).

Definition metrics_statement : metrics_cmd unit := λ db,
  match md_outcomes db with
  | [] => (Ok tt, db)
  | ok :: rest => ((if ok : bool then Ok tt else Err MakerMetricsFailed),
                   mk_metrics_db (md_trades db) (md_legs db) (md_events db) (md_participants db) rest)
  end.

(** Run one query. *)
Definition query {A} (f : MetricsDb → A) : metrics_cmd A := _ ← metrics_statement; gets f.

(** [i64::try_from] *)
Definition metrics_i64 (v : Z) : metrics_cmd Z := lift (if v <=? I64_MAX then Ok v else Err MakerMetricsFailed).

(** ** The quote log *)

Record QuoteParticipant := mk_participant { qp_maker : MakerId; qp_strategy : StrategyHash }.

Record QuoteServed := mk_served { qs_chain : Z; qs_pair : TokenPair; qs_latency_ms : Z; qs_participants : list QuoteParticipant }.

(** [INSERT OR IGNORE] *)
Definition insert_participant (id : QuoteId) (t : gmap (QuoteId * StrategyHash) MakerId) (p : QuoteParticipant) :
    gmap (QuoteId * StrategyHash) MakerId :=
  match t !! (id, qp_strategy p) with Some _ => t | None => <[(id, qp_strategy p) := qp_maker p]> t end.

Fixpoint insert_participants (id : QuoteId) (t : gmap (QuoteId * StrategyHash) MakerId) (l : list QuoteParticipant) :
    metrics_cmd (gmap (QuoteId * StrategyHash) MakerId) :=
  match l with
  | [] => mret t
  | p :: l => _ ← metrics_statement; insert_participants id (insert_participant id t p) l
  end.

(** One transaction under a fresh identifier; the rows appear when it commits. *)
Definition record_quote (id : QuoteId) (now : Z) (q : QuoteServed) : metrics_cmd unit :=
  _ ← metrics_statement; (* begin *)
  _ ← metrics_statement; (* insert *)
  db ← gets (λ db, db);
  match md_events db !! id with
  | Some _ => fail MakerMetricsFailed (* the primary key *)
  | None =>
      participants ← insert_participants id (md_participants db) (qs_participants q);
      _ ← metrics_statement; (* commit *)
      modify (λ db, mk_metrics_db (md_trades db) (md_legs db)
        (<[id := mk_quote_event (as_i64 (qs_chain q)) (qs_pair q) (as_i64 now) (as_i64 (qs_latency_ms q))]> (md_events db))
        participants (md_outcomes db))
  end.

(** ** Fill times *)

Record FillTime := mk_fill_time { ft_created_at : Z; ft_settled_at : Z }.

Definition latency_ms (f : FillTime) : option Z :=
  let elapsed := ft_settled_at f - ft_created_at f in
  if (elapsed <? 0) || (I64_MAX <? elapsed) then None
  else if elapsed * 1000 <? 2 ^ 64 then Some (elapsed * 1000) else None.

(** The lower median. *)
Definition p50 (values : list Z) : option Z :=
  match values with
  | [] => None
  | _ => sort_stable Z.leb values !! ((length values - 1) / 2)%nat
  end.

(** [u64] arithmetic of a release build. *)
Definition u64_wrap (x : Z) : Z := x mod 2 ^ 64.

Definition bucket_edge (start duration i : Z) : Z := u64_wrap (start + u64_wrap (duration * i) / 7).

Definition bucket (fills : list FillTime) (from to_ : Z) : MakerActivityBucket :=
  let inside := filter (λ f, 0 ≤ ft_settled_at f ∧ from ≤ ft_settled_at f < to_) fills in
  mk_bucket from to_ (Z.of_nat (length inside)) (p50 (omap latency_ms inside)).

Definition activity_buckets (fills : list FillTime) (w : Window) : list MakerActivityBucket :=
  let duration := u64_saturating_sub w.2 w.1 in
  (λ i : nat, bucket fills (bucket_edge w.1 duration (Z.of_nat i)) (bucket_edge w.1 duration (Z.of_nat i + 1))) <$> seq 0 7.

Definition last_fill_at (fills : list FillTime) : option Z :=
  foldl (λ m f, if ft_settled_at f <? 0 then m
                else match m with Some x => Some (Z.max x (ft_settled_at f)) | None => Some (ft_settled_at f) end) None fills.

(** ** Queries over the trades *)

(** [t.status = 'confirmed' AND t.settled_at >= ? AND t.settled_at < ?] *)
Definition settled_in (w : Window) (row : TradeRow) : bool :=
  bool_decide (row_status row = "confirmed"%string)
  && match row_settled_at row with Some at_ => (w.1 <=? at_) && (at_ <? w.2) | None => false end.

Definition fill_time (row : TradeRow) : FillTime := mk_fill_time (row_created_at row) (default 0 (row_settled_at row)).

(** [EXISTS (SELECT 1 FROM trade_leg l WHERE ...)] *)
Definition sourced (legs : gmap (TradeId * Z) TradeLeg) (owner : TradeLeg → bool) (id : TradeId) : bool :=
  existsb owner (trade_legs_of legs id).

Definition settled_trades (db : MetricsDb) (w : Window) : list (TradeId * TradeRow) :=
  List.filter (λ p, settled_in w p.2) (entries (md_trades db)).

Definition fill_times (db : MetricsDb) (w : Window) (owner : TradeLeg → bool) : list FillTime :=
  (λ p, fill_time p.2) <$> List.filter (λ p, sourced (md_legs db) owner p.1) (settled_trades db w).

(** The rows of the trades joined with their legs. *)
Definition flow_rows (token_col : TradeRow → Address) (amount_col : TradeLeg → U256) (legs : gmap (TradeId * Z) TradeLeg)
    (owner : TradeLeg → bool) (trades : list (TradeId * TradeRow)) : list (Address * U256) :=
  trades ≫= λ p, (λ leg, (token_col p.2, amount_col leg)) <$> List.filter owner (trade_legs_of legs p.1).

Definition add_volume (by_token : gmap Address U256) (row : Address * U256) : result MakerError (gmap Address U256) :=
  total ← ok_or (checked_add (default 0 (by_token !! row.1)) row.2) MakerMetricsFailed;
  Ok (<[row.1 := total]> by_token).

Definition sum_by_token (rows : list (Address * U256)) : result MakerError (list TokenVolume) :=
  by_token ← try_fold add_volume ∅ rows;
  Ok ((λ p, mk_volume p.1 p.2) <$> entries by_token).

Definition bound_window (w : Window) : metrics_cmd Window :=
  start ← metrics_i64 w.1; end_ ← metrics_i64 w.2; mret (start, end_).

Definition flow (token_col : TradeRow → Address) (amount_col : TradeLeg → U256) (owner : TradeLeg → bool) (w : Window) :
    metrics_cmd (list TokenVolume) :=
  w ← bound_window w;
  rows ← query (λ db, flow_rows token_col amount_col (md_legs db) owner (settled_trades db w));
  lift (sum_by_token rows).

(** ** The metrics *)

Definition served_in (w : Window) (e : QuoteEventRow) : bool := (w.1 <=? qe_served_at e) && (qe_served_at e <? w.2).

Definition count_where {A} (p : A → bool) (l : list A) : Z := Z.of_nat (length (List.filter p l)).

Definition maker_quotes (db : MetricsDb) (maker : MakerId) (w : Window) : Z :=
  count_where (λ e : QuoteId * QuoteEventRow,
    served_in w e.2 && existsb (λ p, (p.1.1 =? e.1) && (p.2 =? maker)) (entries (md_participants db))) (entries (md_events db)).

Definition metrics_maker (maker : MakerId) (w : Window) : metrics_cmd MakerMetrics :=
  let owner := λ leg, tl_maker leg =? maker in
  bound ← bound_window w;
  fills ← query (λ db, fill_times db bound owner);
  quotes ← (bound ← bound_window w; query (λ db, maker_quotes db maker bound));
  volume ← flow row_token_out tl_amount_out owner w;
  inflow ← flow row_token_in tl_amount_in owner w;
  mret (mk_maker_metrics (Z.of_nat (length fills)) (activity_buckets fills w) (last_fill_at fills) volume inflow quotes
          (p50 (omap latency_ms fills))).

(** The quotes a strategy took part in, and the quotes of its pair. *)
Definition participated (db : MetricsDb) (strategy : StrategyHash) (w : Window) : Z :=
  count_where (λ p : (QuoteId * StrategyHash) * MakerId,
    (p.1.2 =? strategy) && match md_events db !! p.1.1 with Some e => served_in w e | None => false end) (entries (md_participants db)).

Definition pair_quotes (db : MetricsDb) (pair : TokenPair) (w : Window) : Z :=
  count_where (λ e : QuoteId * QuoteEventRow, bool_decide (qe_pair e.2 = pair) && served_in w e.2) (entries (md_events db)).

Definition metrics_position {F} `{FloatOps F} (strategy : StrategyHash) (pair : TokenPair) (w : Window) : metrics_cmd (PositionMetrics F) :=
  let owner := λ leg, tl_strategy_hash leg =? strategy in
  bound ← bound_window w;
  fills ← query (λ db, fill_times db bound owner);
  participated ← (bound ← bound_window w; query (λ db, participated db strategy bound));
  quotes ← (bound ← bound_window w; query (λ db, pair_quotes db pair bound));
  let uptime := if 0 <? quotes then Some (f_mul (f_div (f_of_int participated) (f_of_int quotes)) (f_of_int 100)) else None in
  volume ← flow row_token_out tl_amount_out owner w;
  mret (mk_position_metrics (Z.of_nat (length fills)) (bk_fills <$> activity_buckets fills w) volume (last_fill_at fills) uptime).

(** Either orientation of the pair. *)
Definition on_pair (row : TradeRow) (pair : TokenPair) : bool :=
  ((row_token_in row =? lo pair) && (row_token_out row =? hi pair)) || ((row_token_in row =? hi pair) && (row_token_out row =? lo pair)).

Definition metrics_pair_fills (pairs : list TokenPair) (w : Window) : metrics_cmd Z :=
  match pairs with
  | [] => mret 0
  | _ =>
      w ← bound_window w;
      query (λ db, count_where (λ p : TradeId * TradeRow, existsb (on_pair p.2) pairs) (settled_trades db w))
  end.

Record PairMetrics := mk_pair_metrics { pa_fills : Z; pa_volume : list TokenVolume }.

(** [t.status = 'confirmed' AND t.settled_at >= ?] *)
Definition settled_since (since : Z) (row : TradeRow) : bool :=
  bool_decide (row_status row = "confirmed"%string)
  && match row_settled_at row with Some at_ => since <=? at_ | None => false end.

Definition pair_trades (db : MetricsDb) (pair : TokenPair) (since : Z) : list (TradeId * TradeRow) :=
  List.filter (λ p, settled_since since p.2 && on_pair p.2 pair) (entries (md_trades db)).

Definition metrics_pair_activity (pair : TokenPair) (since : Z) : metrics_cmd PairMetrics :=
  let since := as_i64 since in
  fills ← query (λ db, Z.of_nat (length (pair_trades db pair since)));
  rows ← query (λ db, flow_rows row_token_out tl_amount_out (md_legs db) (λ _, true) (pair_trades db pair since));
  volume ← lift (sum_by_token rows);
  mret (mk_pair_metrics fills volume).

(** * What the metrics count

    The activity buckets of a window partition its fills, the volumes are the exact sums of the
    settled legs, and the latency is the lower median. *)

(** ** Buckets *)

(** The fills settled in [[from, to)]. *)
Definition fills_between (fills : list FillTime) (from to_ : Z) : Z :=
  Z.of_nat (length (filter (λ f, from ≤ ft_settled_at f < to_) fills)).

Lemma fills_split fills a b c : a ≤ b ≤ c → fills_between fills a c = fills_between fills a b + fills_between fills b c.
Proof.
  intros Hb. unfold fills_between. induction fills as [|f fills IH]; [done|]. rewrite !filter_cons. repeat case_decide; cbn [length]; lia.
Qed.

Lemma fills_between_empty fills a : fills_between fills a a = 0.
Proof. unfold fills_between. induction fills as [|f fills IH]; [done|]. rewrite filter_cons, decide_False by lia. done. Qed.

(** Consecutive intervals count every fill between their ends once. *)
Lemma fills_partition fills (edge : nat → Z) n :
  (∀ i, (i < n)%nat → edge i ≤ edge (S i)) →
  zsum (λ i, fills_between fills (edge i) (edge (S i))) (seq 0 n) = fills_between fills (edge 0%nat) (edge n) ∧ edge 0%nat ≤ edge n.
Proof.
  induction n as [|n IH]; intros He.
  { by rewrite fills_between_empty. }
  destruct IH as [IH Hle]; [intros i Hi; apply He; lia|]. specialize (He n ltac:(lia)). rewrite seq_S, zsum_app, IH. cbn [zsum foldr Nat.add].
  rewrite (fills_split fills (edge 0%nat) (edge n) (edge (S n))) by lia. lia.
Qed.

Section window.
Context (w : Window).
Hypotheses (Hw : 0 ≤ w.1 ≤ w.2) (Hend : w.2 < 2 ^ 64) (Hseven : 7 * (w.2 - w.1) < 2 ^ 64).

Definition edge (i : nat) : Z := bucket_edge w.1 (u64_saturating_sub w.2 w.1) (Z.of_nat i).

Lemma edge_exact i : (i ≤ 7)%nat → edge i = w.1 + (w.2 - w.1) * Z.of_nat i / 7.
Proof.
  intros Hi. unfold edge, bucket_edge, u64_wrap, u64_saturating_sub. rewrite Z.max_l by lia.
  assert (0 ≤ (w.2 - w.1) * Z.of_nat i ≤ (w.2 - w.1) * 7) by nia. rewrite (Z.mod_small ((w.2 - w.1) * Z.of_nat i)) by lia.
  assert (0 ≤ (w.2 - w.1) * Z.of_nat i / 7 ≤ w.2 - w.1).
  { split; [apply Z.div_pos; lia|]. transitivity ((w.2 - w.1) * 7 / 7); [apply Z.div_le_mono; lia|rewrite Z.div_mul by lia; lia]. }
  by rewrite Z.mod_small by lia.
Qed.

Lemma edge_mono i : (i < 7)%nat → edge i ≤ edge (S i).
Proof. intros Hi. rewrite !edge_exact by lia. apply Zplus_le_compat_l, Z.div_le_mono; nia. Qed.

Lemma edge_ends : edge 0 = w.1 ∧ edge 7 = w.2.
Proof.
  rewrite !edge_exact by lia. rewrite Z.mul_0_r, Z.div_0_l, Z.div_mul by lia. lia.
Qed.

Lemma bucket_fills fills from to_ : 0 ≤ from → bk_fills (bucket fills from to_) = fills_between fills from to_.
Proof.
  intros Hf. unfold bucket, fills_between. cbn. do 2 f_equal. apply list_filter_iff. intros f. lia.
Qed.

Lemma edge_nonneg i : (i ≤ 7)%nat → 0 ≤ edge i.
Proof. intros Hi. rewrite edge_exact by done. assert (0 ≤ (w.2 - w.1) * Z.of_nat i / 7) by (apply Z.div_pos; nia). lia. Qed.

Lemma activity_lookup fills i b :
  activity_buckets fills w !! i = Some b →
  (i < 7)%nat ∧ bk_from b = edge i ∧ bk_to b = edge (S i) ∧ bk_fills b = fills_between fills (bk_from b) (bk_to b).
Proof.
  unfold activity_buckets. rewrite list_lookup_fmap. intros (k & Hk & ->)%fmap_Some. apply lookup_seq in Hk as [-> Hi]. cbn [Nat.add].
  split; [done|]. unfold edge at 1. split; [done|]. split; [unfold edge; cbn; do 2 f_equal; lia|].
  apply bucket_fills. apply (edge_nonneg i). lia.
Qed.

Lemma activity_partition fills : zsum bk_fills (activity_buckets fills w) = fills_between fills w.1 w.2.
Proof.
  destruct edge_ends as [<- <-]. rewrite <-(proj1 (fills_partition fills edge 7 edge_mono)). unfold activity_buckets.
  assert (Hb : ∀ i, (i < 7)%nat → bk_fills (bucket fills (bucket_edge w.1 (u64_saturating_sub w.2 w.1) (Z.of_nat i))
      (bucket_edge w.1 (u64_saturating_sub w.2 w.1) (Z.of_nat i + 1))) = fills_between fills (edge i) (edge (S i))).
  { intros i Hi. rewrite bucket_fills by (apply (edge_nonneg i); lia). unfold edge. do 2 f_equal. lia. }
  cbn [seq fmap list_fmap zsum foldr]. by rewrite !Hb by lia.
Qed.

End window.

(** ** Volumes *)

Definition volume_of (rows : list (Address * U256)) (token : Address) : Z := zsum snd (filter (λ r, r.1 = token) rows).

Lemma add_volume_Ok m row m' :
  add_volume m row = Ok m' → ∀ t, m' !! t = if decide (row.1 = t) then Some (default 0 (m !! row.1) + row.2) else m !! t.
Proof.
  unfold add_volume. destruct (checked_add _ _) as [x|] eqn:Hx; [|done]. apply checked_add_Some in Hx as [-> _]. cbn. intros [= <-] t.
  case_decide; simplify_map_eq; done.
Qed.

Lemma sum_rows rows m m' :
  try_fold add_volume m rows = Ok m' →
  ∀ t, default 0 (m' !! t) = default 0 (m !! t) + volume_of rows t ∧ (is_Some (m' !! t) ↔ is_Some (m !! t) ∨ t ∈ rows.*1).
Proof.
  revert m. induction rows as [|row rows IH]; intros m; cbn [try_fold fmap list_fmap].
  { intros [= <-] t. split; [cbn; lia|]. rewrite elem_of_nil. tauto. }
  destruct (add_volume m row) as [m1|] eqn:Ha; [|done]. cbn [mbind result_bind]. intros Hf t. destruct (IH m1 Hf t) as [Hv Hd].
  rewrite (add_volume_Ok _ _ _ Ha t) in Hv, Hd. unfold volume_of in *. rewrite filter_cons, elem_of_cons. case_decide as Ht.
  - subst t. cbn [default from_option id] in Hv. rewrite zsum_cons. split; [lia|]. rewrite Hd. split; [|intros _; left; by eexists]. intros _. right. by left.
  - split; [done|]. rewrite Hd. naive_solver.
Qed.

Lemma volumes_only_fail rows m e : try_fold add_volume m rows = Err e → e = MakerMetricsFailed.
Proof.
  revert m. induction rows as [|row rows IH]; intros m; [done|]. cbn [try_fold].
  destruct (add_volume m row) as [m1|e'] eqn:Ha; cbn [mbind result_bind]; [apply IH|]. intros [= <-]. revert Ha.
  unfold add_volume. destruct (checked_add (default 0 (m !! row.1)) row.2); [done|]. by intros [= <-].
Qed.

Lemma sum_by_token_exact rows volumes :
  sum_by_token rows = Ok volumes →
  NoDup (tv_token <$> volumes) ∧ (∀ t, t ∈ tv_token <$> volumes ↔ t ∈ rows.*1)
  ∧ ∀ v, v ∈ volumes → tv_base_units v = volume_of rows (tv_token v).
Proof.
  unfold sum_by_token. destruct (try_fold _ _ _) as [m|] eqn:Hf; [|done]. cbn [mbind result_bind]. intros [= <-].
  assert (Hk : tv_token <$> ((λ p, mk_volume p.1 p.2) <$> entries m) = keys m).
  { unfold keys. rewrite <-list_fmap_compose. apply list_fmap_ext. done. }
  rewrite Hk. split; [apply NoDup_keys|]. split.
  - intros t. destruct (sum_rows _ _ _ Hf t) as [_ Hd]. rewrite lookup_empty in Hd. rewrite elem_of_keys, Hd. split; [|by right].
    intros [[? ?]|?]; done.
  - intros v ([t x] & -> & Hin%elem_of_entries)%list_elem_of_fmap. cbn. destruct (sum_rows _ _ _ Hf t) as [Hv _].
    rewrite Hin, lookup_empty in Hv. cbn in Hv. lia.
Qed.

(** ** The median *)

(** Fewer than half of the sample is below the lower median, and at least half is not above it. *)
Definition lower_median (l : list Z) (v : Z) : Prop :=
  v ∈ l ∧ (2 * length (filter (λ x, (x < v)%Z) l) < length l)%nat ∧ (length l ≤ 2 * length (filter (λ x, (x ≤ v)%Z) l))%nat.

Lemma insert_by_perm {A} (le : A → A → bool) x l : insert_by le x l ≡ₚ x :: l.
Proof. induction l as [|y l IH]; cbn; [done|]. destruct (le x y); [done|]. rewrite IH. apply Permutation_swap. Qed.

Lemma sort_stable_perm {A} (le : A → A → bool) l : sort_stable le l ≡ₚ l.
Proof. unfold sort_stable. induction l as [|x l IH]; cbn; [done|]. by rewrite insert_by_perm, IH. Qed.

Lemma sorted_counts l i v :
  StronglySorted (λ a b, a ≤ b) l → l !! i = Some v →
  (length (filter (λ x, (x < v)%Z) l) ≤ i)%nat ∧ (S i ≤ length (filter (λ x, (x ≤ v)%Z) l))%nat.
Proof.
  intros Hs Hi. rewrite <-(take_drop_middle l i v Hi) in Hs |- *. assert (Hl : length (take i l) = i).
  { rewrite length_take. apply lookup_lt_Some in Hi. lia. }
  apply StronglySorted_app in Hs as (Hbefore & Hs1 & Hs2). apply StronglySorted_inv in Hs2 as [_ Hafter].
  rewrite !filter_app, !length_app, !filter_cons. rewrite decide_False, decide_True by lia. cbn [length]. split.
  - assert (filter (λ x, x < v) (drop (S i) l) = []) as ->.
    { apply filter_none. intros x Hx. rewrite Forall_forall in Hafter. specialize (Hafter x Hx). lia. }
    pose proof (length_filter (λ x, x < v) (take i l)). cbn. lia.
  - assert (filter (λ x, x ≤ v) (take i l) = take i l) as ->; [|lia].
    apply filter_all. intros x Hx. apply (Hbefore x v Hx). set_solver.
Qed.

Lemma p50_median l v : p50 l = Some v → lower_median l v.
Proof.
  intros Hp. assert (Hs : sort_stable Z.leb l !! ((length l - 1) / 2)%nat = Some v ∧ (0 < length l)%nat).
  { destruct l; [done|]. split; [done|cbn; lia]. }
  destruct Hs as [Hs Hl]. destruct (sorted_counts _ _ _ (sort_stable_sorted (λ x, x) l) Hs) as [Hlt Hle]. unfold lower_median.
  rewrite (filter_Permutation (λ x, x < v) _ _ (sort_stable_perm Z.leb l)) in Hlt.
  rewrite (filter_Permutation (λ x, x ≤ v) _ _ (sort_stable_perm Z.leb l)) in Hle.
  pose proof (Nat.div_mod_eq (length l - 1) 2). pose proof (Nat.mod_upper_bound (length l - 1) 2 ltac:(lia)).
  split; [|split; lia]. apply list_elem_of_lookup_2 in Hs. by rewrite sort_stable_perm in Hs.
Qed.

(** ** Reads *)

(** The tables, without the outcomes still to come. *)
Definition tables (db : MetricsDb) : MetricsDb := mk_metrics_db (md_trades db) (md_legs db) (md_events db) (md_participants db) [].

(** A read answers from the same tables, or fails. *)
Lemma outcome_metrics_read {A} (f : MetricsDb → A) (Q : result MakerError A → MetricsDb → Prop) db :
  (∀ d, tables d = tables db → Q (Ok (f d)) d ∧ Q (Err MakerMetricsFailed) d) → outcome (query f) Q db.
Proof.
  intros Hk. unfold outcome, query, mbind, cmd_bind, metrics_statement, gets.
  destruct (md_outcomes db) as [|[] rest] eqn:Ho; cbn; apply Hk; try done.
Qed.

Lemma outcome_query {A B} (f : MetricsDb → A) (k : A → metrics_cmd B) (Q : result MakerError B → MetricsDb → Prop) db :
  (∀ d, tables d = tables db → outcome (k (f d)) Q d ∧ Q (Err MakerMetricsFailed) d) → outcome (query f ≫= k) Q db.
Proof. intros Hk. apply outcome_bind, outcome_metrics_read. exact Hk. Qed.

Lemma outcome_window {B} (k : Window → metrics_cmd B) (Q : result MakerError B → MetricsDb → Prop) w db :
  Q (Err MakerMetricsFailed) db → outcome (k w) Q db → outcome (bound_window w ≫= k) Q db.
Proof.
  intros He Hk. unfold bound_window, metrics_i64. destruct w as [a b]. cbn [fst snd].
  unfold outcome, mbind, cmd_bind, lift in *. destruct (a <=? I64_MAX), (b <=? I64_MAX); done.
Qed.

Lemma settled_trades_tables d db w : tables d = tables db → settled_trades d w = settled_trades db w ∧ md_legs d = md_legs db.
Proof. intros [= Ht Hl _ _]. unfold settled_trades. by rewrite Ht, Hl. Qed.

(** The rows a flow sums. *)
Definition flow_of (token_col : TradeRow → Address) (amount_col : TradeLeg → U256) (owner : TradeLeg → bool) (w : Window) (db : MetricsDb) :
    list (Address * U256) :=
  flow_rows token_col amount_col (md_legs db) owner (settled_trades db w).

Lemma outcome_flow {B} token_col amount_col owner w (k : list TokenVolume → metrics_cmd B) (Q : result MakerError B → MetricsDb → Prop) db :
  (∀ d, tables d = tables db →
     Q (Err MakerMetricsFailed) d
     ∧ ∀ volumes, sum_by_token (flow_of token_col amount_col owner w db) = Ok volumes → outcome (k volumes) Q d) →
  outcome (flow token_col amount_col owner w ≫= k) Q db.
Proof.
  intros Hk. apply outcome_bind. unfold flow. apply outcome_window; [by apply Hk|].
  apply outcome_query. intros d Hd. destruct (settled_trades_tables d db w Hd) as [Hs Hl]. split; [|by apply Hk].
  apply outcome_lift. rewrite Hs, Hl. destruct (Hk d Hd) as [He Ho]. unfold flow_of in Ho.
  destruct (sum_by_token _) as [volumes|e] eqn:Hv; [by apply Ho|]. unfold sum_by_token in Hv.
  destruct (try_fold _ _ _) as [m|e'] eqn:Hf; [done|]. cbn in Hv. injection Hv as <-. by apply volumes_only_fail in Hf as ->.
Qed.

(** ** The metrics of a maker *)

Definition owned_by (maker : MakerId) (leg : TradeLeg) : bool := tl_maker leg =? maker.

(** The confirmed trades of the window that sourced the maker. *)
Definition maker_trades (db : MetricsDb) (w : Window) (maker : MakerId) : list (TradeId * TradeRow) :=
  List.filter (λ p, sourced (md_legs db) (owned_by maker) p.1) (settled_trades db w).

(** The volumes add up the rows, token by token. *)
Definition adds_up (volumes : list TokenVolume) (rows : list (Address * U256)) : Prop :=
  NoDup (tv_token <$> volumes) ∧ (∀ t, t ∈ tv_token <$> volumes ↔ t ∈ rows.*1)
  ∧ ∀ v, v ∈ volumes → tv_base_units v = volume_of rows (tv_token v).

(** The buckets follow one another from one end of the window to the other. *)
Definition covers (w : Window) (buckets : list MakerActivityBucket) : Prop :=
  bk_from <$> head buckets = Some w.1 ∧ bk_to <$> last buckets = Some w.2
  ∧ ∀ i a b, buckets !! i = Some a → buckets !! S i = Some b → bk_to a = bk_from b.

Lemma in_settled_window db w maker p : p ∈ maker_trades db w maker → ∃ at_, row_settled_at p.2 = Some at_ ∧ w.1 ≤ at_ < w.2.
Proof.
  unfold maker_trades, settled_trades, settled_in. rewrite !list_elem_of_In, !List.filter_In. intros [[_ Hs] _].
  destruct (row_settled_at p.2) as [at_|]; [|by rewrite andb_false_r in Hs]. apply andb_true_iff in Hs as [_ Hs]. apply andb_true_iff in Hs as [? ?].
  zbool. exists at_. split; [done|lia].
Qed.

Lemma all_between db w maker : fills_between ((λ p, fill_time p.2) <$> maker_trades db w maker) w.1 w.2 = Z.of_nat (length (maker_trades db w maker)).
Proof.
  unfold fills_between. rewrite filter_all, length_fmap; [done|]. intros f (p & -> & Hp)%list_elem_of_fmap.
  apply in_settled_window in Hp as (at_ & Hat & Hin). cbn. by rewrite Hat.
Qed.

Lemma activity_covers fills w : 0 ≤ w.1 ≤ w.2 → w.2 < 2 ^ 64 → 7 * (w.2 - w.1) < 2 ^ 64 → covers w (activity_buckets fills w).
Proof.
  intros Hw He Hs. destruct (edge_ends w Hw He Hs) as [H0 H7]. split; [|split].
  - change (Some (edge w 0) = Some w.1). by rewrite H0.
  - change (Some (edge w 7) = Some w.2). by rewrite H7.
  - intros i a b Ha Hb. apply activity_lookup in Ha as (_ & _ & -> & _); [|done..]. by apply activity_lookup in Hb as (_ & -> & _).
Qed.

Lemma metrics_maker_Ok maker w db m :
  (metrics_maker maker w db).1 = Ok m →
  let fills := (λ p, fill_time p.2) <$> maker_trades db w maker in
  mm_fills m = Z.of_nat (length fills) ∧ mm_activity m = activity_buckets fills w ∧ mm_latency m = p50 (omap latency_ms fills)
  ∧ sum_by_token (flow_of row_token_out tl_amount_out (owned_by maker) w db) = Ok (mm_volume m)
  ∧ sum_by_token (flow_of row_token_in tl_amount_in (owned_by maker) w db) = Ok (mm_inflow m).
Proof.
  set (Q := λ (r : result MakerError MakerMetrics) (_ : MetricsDb), r = Ok m →
    let fills := (λ p, fill_time p.2) <$> maker_trades db w maker in
    mm_fills m = Z.of_nat (length fills) ∧ mm_activity m = activity_buckets fills w ∧ mm_latency m = p50 (omap latency_ms fills)
    ∧ sum_by_token (flow_of row_token_out tl_amount_out (owned_by maker) w db) = Ok (mm_volume m)
    ∧ sum_by_token (flow_of row_token_in tl_amount_in (owned_by maker) w db) = Ok (mm_inflow m)).
  intros Hm. assert (Ho : outcome (metrics_maker maker w) Q db); [|by apply Ho].
  assert (Hsame : ∀ d, tables d = tables db → ∀ token amount owner, flow_of token amount owner w d = flow_of token amount owner w db).
  { intros d Hd token amount owner. unfold flow_of. by destruct (settled_trades_tables d db w Hd) as [-> ->]. }
  unfold metrics_maker. apply outcome_window; [done|]. apply outcome_query. intros d1 H1. split; [|done].
  assert (Hf : fill_times d1 w (λ leg, tl_maker leg =? maker) = (λ p, fill_time p.2) <$> maker_trades db w maker).
  { unfold fill_times, maker_trades. by destruct (settled_trades_tables d1 db w H1) as [-> ->]. }
  rewrite Hf. clear Hf. apply outcome_bind, outcome_window; [done|]. apply outcome_metrics_read. intros d2 H2. split; [|done].
  apply outcome_flow. intros d3 H3. split; [done|]. intros volume Hv. apply outcome_flow. intros d4 H4. split; [done|]. intros inflow Hi.
  apply outcome_ret. intros [= <-]. cbn. rewrite Hsame in Hv by congruence. rewrite Hsame in Hi by congruence. done.
Qed.

(** The metrics of a maker over a window count exactly the confirmed trades settled in it that sourced
    the maker: seven buckets follow one another from one end of the window to the other and hold every
    one of those fills once; the volumes delivered and received are, token by token, the exact sums of
    the maker's legs; and the latency is the lower median of those trades, never one of an empty sample. *)
Theorem activity_accounts_every_fill maker w db m :
  0 ≤ w.1 ≤ w.2 → w.2 < 2 ^ 64 → 7 * (w.2 - w.1) < 2 ^ 64 → (metrics_maker maker w db).1 = Ok m →
  let fills := (λ p, fill_time p.2) <$> maker_trades db w maker in
  mm_fills m = Z.of_nat (length (maker_trades db w maker))
  ∧ length (mm_activity m) = 7%nat ∧ covers w (mm_activity m) ∧ zsum bk_fills (mm_activity m) = mm_fills m
  ∧ (∀ b, b ∈ mm_activity m → bk_fills b = fills_between fills (bk_from b) (bk_to b))
  ∧ adds_up (mm_volume m) (flow_of row_token_out tl_amount_out (owned_by maker) w db)
  ∧ adds_up (mm_inflow m) (flow_of row_token_in tl_amount_in (owned_by maker) w db)
  ∧ ∀ latency, mm_latency m = Some latency → lower_median (omap latency_ms fills) latency.
Proof.
  intros Hw He Hs Hm fills. destruct (metrics_maker_Ok _ _ _ _ Hm) as (Hn & Ha & Hl & Hv & Hi). fold fills in Hn, Ha, Hl. split_and!.
  - rewrite Hn. unfold fills. by rewrite length_fmap.
  - by rewrite Ha.
  - rewrite Ha. by apply activity_covers.
  - rewrite Ha, activity_partition, Hn by done. unfold fills. by rewrite all_between, length_fmap.
  - intros b Hb. rewrite Ha in Hb. apply list_elem_of_lookup in Hb as [i Hb]. by apply activity_lookup in Hb as (_ & _ & _ & ?).
  - by apply sum_by_token_exact.
  - by apply sum_by_token_exact.
  - intros latency Hlat. rewrite Hl in Hlat. by apply p50_median.
Qed.

(** *** A concrete window *)

Definition metrics_row (created settled : Z) (status : string) : TradeRow :=
  mk_trade_row 0 1 10 20 500 400 (Some 450) status 3 0 None None None None None created (Some settled) None None.

Definition metrics_demo : MetricsDb :=
  mk_metrics_db
    (list_to_map [(1, metrics_row 100 101 "confirmed"); (2, metrics_row 160 169 "confirmed"); (3, metrics_row 165 168 "failed")])
    (list_to_map [((1, 0), mk_trade_leg 7 70 300 250); ((1, 1), mk_trade_leg 8 80 200 200); ((2, 0), mk_trade_leg 7 71 500 450);
                  ((3, 0), mk_trade_leg 7 70 500 450)])
    ∅ ∅ [].

Definition metrics_shown : MakerMetrics :=
  mk_maker_metrics 2
    [mk_bucket 100 110 1 (Some 1000); mk_bucket 110 120 0 None; mk_bucket 120 130 0 None; mk_bucket 130 140 0 None;
     mk_bucket 140 150 0 None; mk_bucket 150 160 0 None; mk_bucket 160 170 1 (Some 9000)]
    (Some 169) [mk_volume 20 700] [mk_volume 10 800] 0 (Some 1000).

Lemma metrics_demo_run : (metrics_maker 7 (100, 170) metrics_demo).1 = Ok metrics_shown.
Proof. vm_compute. reflexivity. Qed.

Lemma activity_accounts_every_fill_witness :
  (metrics_maker 7 (100, 170) metrics_demo).1 = Ok metrics_shown
  ∧ covers (100, 170) (mm_activity metrics_shown) ∧ zsum bk_fills (mm_activity metrics_shown) = 2.
Proof.
  split; [exact metrics_demo_run|].
  destruct (activity_accounts_every_fill 7 (100, 170) metrics_demo metrics_shown ltac:(cbn; lia) ltac:(cbn; lia) ltac:(cbn; lia) metrics_demo_run)
    as (_ & _ & Hc & Hs & _). split; [exact Hc|exact Hs].
Defined.
