(* ===== verification/Pools.v ===== *)
(** * The pools

    [crates/core/src/pool/service.rs] and [primitives/pool.rs]: one card per pair with active
    strategies, with the value committed to it and its activity, and the roster of the makers
    behind one pair with what each could deliver now; and [core/src/balances.rs], the holdings of a
    wallet over the catalog.

    The catalog, the prices and their daily change, the metrics and the balances are arguments. *)

From stdpp Require Import strings.
From stdpp Require Import strings sorting.
From S2P Require Import Prelude U256 Ratio CurveDecode Registry Routing Assets Quote Maker Metrics.

#[local] Open Scope Z_scope.

(** [x <= 0.0] *)
Class FloatSign (F : Type) := { f_le_zero : F → bool }.

Definition WINDOW_SECS : Z := 24 * 60 * 60.
Definition YEAR_SECS : Z := 365 * 24 * 60 * 60.
Definition BPS_PER_UNIT : Z := 10000.

Section pools.
Context {D F : Type} `{DecimalOps D F} `{FloatOps F} `{FloatSign F}.
Context (catalog : Catalog) (oracle : Address → option D) (change : Address → option F) (address_text : Address → string) (hash_text : B256 → string).
Context (pair_activity : TokenPair → Z → result MakerError PairMetrics) (read_holdings : Address → list Address → result MakerError (gmap Address Holdings)).

Record CurveMix := mk_curve_mix { mix_xyc : Z; mix_concentrated : Z; mix_pegged : Z }.

Record Pool := mk_pool {
  pl_pair : string;
  pl_base : Token;
  pl_quote : Token;
  pl_type : PoolType;
  pl_maker_count : Z;
  pl_min_spread : Z;
  pl_max_spread : Z;
  pl_fee_tier : string;
  pl_curve_mix : CurveMix;
  pl_tvl : option F;
  pl_tvl_change : option F;
  pl_volume : option F;
  pl_fills : Z;
  pl_apr : option F
}.

Record PoolMaker := mk_pool_maker {
  pm_maker : Address;
  pm_strategy_hash : string;
  pm_curve : string;
  pm_fee_bps : Z;
  pm_virtual : TokenAmounts (F64 := F);
  pm_actual : option (TokenAmounts (F64 := F))
}.

Record PoolDetail := mk_pool_detail { pd_pool : Pool; pd_makers : list PoolMaker }.

Definition fee_tier (bps : Z) : string := (f_two_places (f_div (f_of_int bps) (f_of_int 100)) +:+ "%")%string.

Definition yield_pct (volume_usd tvl_usd : option F) (fee_bps : Z) : option F :=
  volume ← volume_usd;
  tvl ← tvl_usd;
  if f_le_zero tvl then None
  else
    let fees := f_mul volume (f_div (f_of_int fee_bps) (f_of_int BPS_PER_UNIT)) in
    Some (f_mul (f_mul (f_div fees tvl) (f_div (f_of_int YEAR_SECS) (f_of_int WINDOW_SECS))) (f_of_int 100)).

Definition pool_usd_of (volume : list TokenVolume) : option F :=
  tvl_usd oracle ((λ v, (token_or_default catalog (tv_token v), tv_base_units v)) <$> volume).

Definition since (now : Z) : Z := u64_saturating_sub now WINDOW_SECS.

(** The committed balances of a pair; unknown where a token is not in the catalog. *)
Definition push_balance (held : list (Token * U256)) (e : Address * U256) : option (list (Token * U256)) :=
  t ← token catalog e.1; Some (held ++ [(t, e.2)]).

Definition pair_holdings (snapshot : Snapshot) (p : TokenPair) : option (list (Token * U256)) :=
  try_fold_opt (λ held s, try_fold_opt push_balance held (entries (balances s))) [] (active_strategies_for_pair snapshot p).

Record PairValue := mk_pair_value { pv_usd : option F; pv_change : option F }.

Definition UNKNOWN : PairValue := mk_pair_value None None.

Definition weighted_change (priced : TokenAmounts) : option F :=
  total ← total_usd priced;
  if f_le_zero total then None
  else
    weighted ← try_fold_opt (λ acc e,
        value ← amount_usd (ta_amount e);
        moved ← change (token_address (ta_token e));
        Some (f_add acc (f_mul value moved))) f_zero (ta_entries priced);
    Some (f_div weighted total).

Definition pair_value (snapshot : Snapshot) (p : TokenPair) : PairValue :=
  match pair_holdings snapshot p with
  | None => UNKNOWN
  | Some holdings =>
      let priced := priced_amounts oracle holdings in
      mk_pair_value (total_usd priced) (weighted_change priced)
  end.

Definition classify (p : TokenPair) (stats : PoolStats) : PoolType :=
  classify_pair (is_stable catalog (lo p)) (is_stable catalog (hi p)) (dominant (curve_mix stats)).

Definition assemble_pool (snapshot : Snapshot) (now : Z) (p : TokenPair) (stats : PoolStats) : option Pool :=
  let '(base_addr, quote_addr) := base_quote catalog p in
  let activity := ok (pair_activity p (since now)) in
  let volume := (a ← activity; pool_usd_of (pa_volume a)) in
  let value := pair_value snapshot p in
  base ← token catalog base_addr;
  quote ← token catalog quote_addr;
  Some (mk_pool (pair_label catalog address_text p) base quote (classify p stats) (Z.of_nat (maker_count stats))
    (min_fee_bps stats) (max_fee_bps stats) (fee_tier (popular_fee_bps stats))
    (mk_curve_mix (Z.of_nat (xyc (curve_mix stats))) (Z.of_nat (concentrated (curve_mix stats))) (Z.of_nat (pegged (curve_mix stats))))
    (pv_usd value) (pv_change value) volume
    (match activity with Some a => pa_fills a | None => 0 end)
    (yield_pct volume (pv_usd value) (popular_fee_bps stats))).

Definition pools (snapshot : Snapshot) (now : Z) : list Pool :=
  omap (λ e, assemble_pool snapshot now e.1 e.2) (entries (pool_stats snapshot)).

(** What the wallet lets be pulled, never more than was committed. *)
Definition deliverable (maker : Address) (committed : list (Token * U256)) : option TokenAmounts :=
  holdings ← ok (read_holdings maker ((λ e, token_address e.1) <$> committed));
  let capped := (λ e, (e.1, Z.min e.2 (match holdings !! token_address e.1 with Some h => hd_pullable h | None => 0 end))) <$> committed in
  Some (priced_amounts oracle capped).

Definition pool_maker (s : MakerStrategy) : option PoolMaker :=
  match strat_curve s with
  | Priceable curve fees =>
      let holdings := omap (λ e, t ← token catalog e.1; Some (t, e.2)) (entries (balances s)) in
      Some (mk_pool_maker (key_maker (strat_key s)) (hash_text (key_hash (strat_key s))) (curve_label curve) (fee_in_bps fees)
        (priced_amounts oracle holdings) (deliverable (key_maker (strat_key s)) holdings))
  | _ => None
  end.

Definition pool_detail (snapshot : Snapshot) (now : Z) (p : TokenPair) : option PoolDetail :=
  stats ← pool_stats snapshot !! p;
  pool ← assemble_pool snapshot now p stats;
  Some (mk_pool_detail pool (omap pool_maker (active_strategies_for_pair snapshot p))).

(** [BalancesService::balances]: the wallet over the whole catalog; a token it never held reads as zero. *)
Definition wallet_balances (owner : Address) : result MakerError (list (TokenBalance F)) :=
  let tokens := catalog_tokens catalog in
  holdings ← read_holdings owner (token_address <$> tokens);
  Ok ((λ t, let h := default (mk_holdings 0 0) (holdings !! token_address t) in
            mk_token_balance t (valuation_amount oracle (hd_balance h) (token_address t) (token_decimals t))
              (valuation_amount oracle (hd_pullable h) (token_address t) (token_decimals t))) <$> tokens).

End pools.

Arguments CurveMix : clear implicits.
Arguments Pool : clear implicits.
Arguments PoolMaker : clear implicits.
Arguments PoolDetail : clear implicits.
Arguments PairValue : clear implicits.

(** * A pool is its makers

    The card of a pair and the roster behind it describe the same strategies, and what a maker is
    shown to deliver is what it committed, capped by what its wallet lets be pulled. *)

(** ** The strategies of a pair, twice *)

(** Listing the active strategies and keeping those of a pair, or reading the index. *)
Lemma pair_strategies_perm s p :
  snapshot_ok s → active_strategies_for_pair s p ≡ₚ filter (λ m, pair m = Some p) (active_strategies s).
Proof.
  intros Hs. apply NoDup_Permutation.
  - eapply NoDup_fmap_1. apply (active_for_pair_ok s p (mk_strategy (mk_strategy_key 0 0 0) Unsupported ∅ false []) Hs).
  - apply NoDup_filter. unfold active_strategies. apply NoDup_filter. apply (NoDup_fmap_1 strat_key).
    assert (Hk : strat_key <$> values (strategies s) = keys (strategies s)).
    { unfold values, keys. rewrite <-list_fmap_compose. apply list_fmap_ext. intros i [k m] Hi. cbn.
      apply (sn_key s Hs). apply elem_of_entries. by apply list_elem_of_lookup_2 in Hi. }
    rewrite Hk. apply NoDup_keys.
  - intros m. rewrite (proj1 (active_for_pair_ok s p m Hs)). unfold active_strategies. rewrite !list_elem_of_filter. rewrite elem_of_values. naive_solver.
Qed.

Section pools.
Context {D F : Type} `{DecimalOps D F} `{FloatOps F} `{FloatSign F}.
Context (catalog : Catalog) (oracle : Address → option D) (change : Address → option F) (address_text : Address → string) (hash_text : B256 → string).
Context (pair_activity : TokenPair → Z → result MakerError PairMetrics) (read_holdings : Address → list Address → result MakerError (gmap Address Holdings)).

Abbreviation maker_row := (pool_maker catalog oracle hash_text read_holdings).

(** The fees on the roster are the fees the card aggregates. *)
Lemma roster_fees l p : pm_fee_bps <$> omap maker_row (filter (λ m, pair m = Some p) l) = (group p (omap pool_entry l)).*2.
Proof.
  induction l as [|m l IH]; [done|]. unfold group in *. rewrite filter_cons.
  change (omap pool_entry (m :: l)) with (match pool_entry m with Some e => e :: omap pool_entry l | None => omap pool_entry l end).
  unfold pool_entry at 1. case_decide as Hp.
  - change (omap maker_row (m :: ?l)) with (match maker_row m with Some r => r :: omap maker_row l | None => omap maker_row l end).
    unfold pool_maker at 1. destruct (strat_curve m) as [curve fees|]; [|done]. rewrite Hp. cbn [mbind option_bind].
    rewrite filter_cons_True by done. cbn [fst]. rewrite !fmap_cons, <-IH. done.
  - rewrite IH. destruct (strat_curve m) as [curve fees|]; [|done]. destruct (pair m) as [p'|]; [|done]. cbn [mbind option_bind].
    rewrite filter_cons_False; [done|]. cbn. congruence.
Qed.

Lemma roster_fees_perm s p :
  snapshot_ok s → pm_fee_bps <$> omap maker_row (active_strategies_for_pair s p) ≡ₚ (group p (pool_entries s)).*2.
Proof. intros Hs. rewrite (pair_strategies_perm s p Hs). unfold pool_entries. by rewrite roster_fees. Qed.

(** ** What can be delivered *)

(** Each entry of [actual] is the entry of [virtual] capped by what the wallet of the maker lets be pulled. *)
Definition capped_by (holdings : gmap Address Holdings) (a v : TokenAmount (F64 := F)) : Prop :=
  ta_token a = ta_token v
  ∧ ∃ committed, amount_raw (ta_amount v) = to_string committed
     ∧ amount_raw (ta_amount a) = to_string (Z.min committed (match holdings !! token_address (ta_token v) with Some h => hd_pullable h | None => 0 end)).

Lemma deliverable_capped maker committed actual :
  deliverable oracle read_holdings maker committed = Some actual →
  ∃ holdings, read_holdings maker ((λ e, token_address e.1) <$> committed) = Ok holdings
    ∧ Forall2 (capped_by holdings) (ta_entries actual) (ta_entries (priced_amounts oracle committed)).
Proof.
  unfold deliverable. destruct (read_holdings _ _) as [holdings|]; [|done]. cbn. intros [= <-]. exists holdings. split; [done|]. cbn [ta_entries priced_amounts].
  induction committed as [|[t x] l IH]; [constructor|]. constructor; [|exact IH]. split; [done|]. by exists x.
Qed.

Lemma roster_row_capped m r actual :
  maker_row m = Some r → pm_actual r = Some actual →
  ∃ tokens holdings, read_holdings (pm_maker r) tokens = Ok holdings
    ∧ Forall2 (capped_by holdings) (ta_entries actual) (ta_entries (pm_virtual r)).
Proof.
  unfold pool_maker. destruct (strat_curve m) as [curve fees|]; [|done]. intros [= <-]. cbn [pm_actual pm_maker pm_virtual].
  intros (holdings & Hh & Hc)%deliverable_capped. by eexists _, holdings.
Qed.

Context (abi_decode : list Z → option Order).

(** a pool's card and its roster describe the same strategies, whatever the event history: the card is one of
    the listed pools, its maker count is the number of rows of the roster, every row's fee is within
    the card's spread, and what a row can deliver is its commitment capped by what the maker's wallet lets
    be pulled, token by token. *)
Theorem pool_card_matches_its_roster es now p d :
  Forall event_ok es →
  let s := fold_events abi_decode snapshot_default es in
  pool_detail catalog oracle change address_text hash_text pair_activity read_holdings s now p = Some d →
  pd_pool d ∈ pools catalog oracle change address_text pair_activity s now
  ∧ pl_maker_count (pd_pool d) = Z.of_nat (length (pd_makers d))
  ∧ ∀ r, r ∈ pd_makers d →
      pl_min_spread (pd_pool d) ≤ pm_fee_bps r ≤ pl_max_spread (pd_pool d)
      ∧ ∀ actual, pm_actual r = Some actual →
          ∃ tokens holdings, read_holdings (pm_maker r) tokens = Ok holdings
            ∧ Forall2 (capped_by holdings) (ta_entries actual) (ta_entries (pm_virtual r)).
Proof.
  intros Hes s Hd. assert (Hs : snapshot_ok s) by (apply fold_ok; [apply default_snapshot_ok|done]). unfold pool_detail in Hd.
  pose proof (pool_stats_are_exact s p) as Hst. destruct (pool_stats s !! p) as [stats|] eqn:Hstats; [|done]. cbn [mbind option_bind] in Hd.
  destruct (assemble_pool _ _ _ _ _ s now p stats) as [pool|] eqn:Hpool; [|done]. injection Hd as <-. cbn [pd_pool pd_makers].
  pose proof (roster_fees_perm s p Hs) as Hfees. destruct Hst as (Hcount & _ & _ & Hrange & _).
  assert (Hfields : pl_maker_count pool = Z.of_nat (maker_count stats) ∧ pl_min_spread pool = min_fee_bps stats ∧ pl_max_spread pool = max_fee_bps stats).
  { revert Hpool. unfold assemble_pool. destruct (base_quote catalog p). destruct (token catalog _), (token catalog _); try done. by intros [= <-]. }
  destruct Hfields as (-> & -> & ->). split_and!.
  - unfold pools. apply list_elem_of_omap. exists (p, stats). split; [by apply elem_of_entries|done].
  - rewrite Hcount. f_equal. apply Permutation_length in Hfees. by rewrite !length_fmap in Hfees.
  - intros r Hr. split.
    + apply Hrange. rewrite <-Hfees. by apply list_elem_of_fmap_2.
    + intros actual Ha. apply list_elem_of_omap in Hr as (m & _ & Hm). by apply (roster_row_capped m).
Qed.

End pools.

(** ** A pool of one maker *)

Module PoolDemo.

#[local] Instance whole_float : FloatOps Z := {|
  f_zero := 0; f_add := Z.add; f_sub := Z.sub; f_mul := Z.mul; f_div := Z.div; f_of_int := id; f_positive x := 0 <? x; f_two_places := to_string
|}.
#[local] Instance whole_sign : FloatSign Z := {| f_le_zero x := x <=? 0 |}.
#[local] Existing Instance whole_dollars.

Definition two_tokens : Catalog := list_to_map [(3, mk_meta 1 3 "ABC" "ABC" 6 None []); (5, mk_meta 1 5 "USDC" "USDC" 6 None ["stables"%string])].

(** A wallet that covers the first token in part and has never held the second. *)
Definition wallet (owner : Address) (tokens : list Address) : result MakerError (gmap Address Holdings) := Ok {[ 3 := mk_holdings 2000 1500 ]}.

Definition demo_detail : option (PoolDetail Z) :=
  pool_detail two_tokens (λ _, Some 1) (λ _, Some 2) to_string to_string (λ _ _, Ok (mk_pair_metrics 4 [mk_volume 5 700])) wallet
    (fold_events demo_byte_decode snapshot_default demo_events) 1000000 (TokenPair_new 3 5).

(** [pool_card_matches_its_roster] at a pool with one maker *)
Lemma pool_card_matches_its_roster_witness :
  ∃ d, demo_detail = Some d ∧ length (pd_makers d) = 1%nat ∧ pl_maker_count (pd_pool d) = Z.of_nat (length (pd_makers d))
    ∧ ((λ r, (λ a, (λ e, amount_raw (ta_amount e)) <$> ta_entries a) <$> pm_actual r) <$> pd_makers d) = [Some ["1500"; "0"]%string].
Proof.
  eexists. assert (Hd : demo_detail = Some _) by (vm_compute; reflexivity). split; [exact Hd|].
  pose proof (pool_card_matches_its_roster two_tokens (λ _, Some 1) (λ _, Some 2) to_string to_string _ wallet demo_byte_decode demo_events
    1000000 (TokenPair_new 3 5) _ demo_events_ok Hd) as (_ & Hcount & _).
  split; [reflexivity|]. split; [exact Hcount|reflexivity].
Defined.

End PoolDemo.
