(* ===== verification/TradeViews.v ===== *)
(** * Trades as they are shown

    [crates/core/src/trade/service.rs] with the wire values of [primitives/trade.rs]: headers,
    full detail and a maker's feed over the trade store, and the aggregate counts of
    [adapters/src/trade/sqlite_store.rs].

    Stored floating point numbers are opaque in the store; [StoredFloats] gives their value and
    the total order of the language. *)

From stdpp Require Import strings.
From stdpp Require Import strings sorting.
From S2P Require Import Prelude U256 Reservation LedgerStore Ratio CurveDecode Registry Assets Depth Quote Maker Trade TradeSqlite.

#[local] Open Scope Z_scope.

Class StoredFloats (F : Type) := { float_of : Z → F; total_cmp_le : F → F → bool; parse_float : string → option F }.

Section views.
Context {D F : Type} `{DecimalOps D F} `{FloatOps F} `{StoredFloats F}.

Record TradeAction := mk_action { ac_status : string; ac_at : Z }.

Record MakerLeg := mk_maker_leg {
  ml_curve : option string;
  ml_maker : string;
  ml_strategy_hash : string;
  ml_amount_in : Amount F;
  ml_amount_out : Amount F
}.

(** [TradeView] *)
Record WireTrade := mk_wire {
  w_signature_present : option bool;
  w_id : string;
  w_status : string;
  w_taker : Address;
  w_input : TokenAmount (F64 := F);
  w_output : TokenAmount (F64 := F);
  w_surplus : option (Amount F);
  w_price_impact : option F;
  w_tx_hash : option string;
  w_block_number : option Z;
  w_created_at : Z;
  w_settled_at : option Z;
  w_lifecycle : option (list TradeAction);
  w_legs : option (list MakerLeg);
  w_order_hash : option string;
  w_deadline_block : option Z
}.

Record MakerTrade := mk_maker_trade { mt_trade : WireTrade; mt_share_pct : option F; mt_fee_usd : option F }.

(** [share_pct] *)
Definition share_pct (part total : U256) : F :=
  if total =? 0 then f_zero else f_div (f_of_int (share_bps part total)) (f_of_int 100).

Definition maker_share_pct (fill : MakerFill) : option F :=
  total ← t_amount_out (fill_trade fill); Some (share_pct (fill_amount_out fill) total).

Definition human (amount : U256) (dec : Z) : F := default f_zero (parse_float (format_units amount dec)).

Definition maker_fee_usd (fill : MakerFill) (dec_in dec_out : Z) : option F :=
  _ ← t_amount_out (fill_trade fill);
  price_in ← token_in_price_usd (fill_trade fill);
  price_out ← token_out_price_usd (fill_trade fill);
  Some (f_sub (f_mul (human (fill_amount_in fill) dec_in) (float_of price_in))
              (f_mul (human (fill_amount_out fill) dec_out) (float_of price_out))).

Context (catalog : Catalog) (oracle : Address → option D).
Context (id_text : TradeId → string) (hash_text : B256 → string) (address_text : Address → string).

Definition summary (t : Trade) : WireTrade :=
  let token_in := token_or_default catalog (t_token_in t) in
  let token_out := token_or_default catalog (t_token_out t) in
  let delivered := default (min_amount_out t) (t_amount_out t) in
  let priced x tok := valuation_amount oracle x (token_address tok) (token_decimals tok) in
  mk_wire None (id_text (t_id t)) (status_str (status t)) (taker t)
    (mk_token_amount token_in (priced (t_amount_in t) token_in)) (mk_token_amount token_out (priced delivered token_out))
    ((λ s, priced s token_in) <$> surplus t) (float_of <$> price_impact t) (hash_text <$> tx_hash t)
    (block_number t) (created_at t) (settled_at t) None None None None.

Definition maker_leg (snapshot : Snapshot) (token_in token_out : Token) (leg : TradeLeg) : MakerLeg :=
  let curve := s ← strategy_by_hash snapshot (tl_strategy_hash leg);
               match strat_curve s with Priceable curve _ => Some (curve_label curve) | _ => None end in
  mk_maker_leg curve (address_text (tl_maker leg)) (hash_text (tl_strategy_hash leg))
    (valuation_amount oracle (tl_amount_in leg) (token_address token_in) (token_decimals token_in))
    (valuation_amount oracle (tl_amount_out leg) (token_address token_out) (token_decimals token_out)).

Definition detail_view (snapshot : Snapshot) (info : TradeInfo) : WireTrade :=
  let t := info_trade info in
  let token_in := token_or_default catalog (t_token_in t) in
  let token_out := token_or_default catalog (t_token_out t) in
  let s := summary t in
  mk_wire (Some (bool_decide (is_Some (signature t)))) (w_id s) (w_status s) (w_taker s) (w_input s) (w_output s) (w_surplus s)
    (w_price_impact s) (w_tx_hash s) (w_block_number s) (w_created_at s) (w_settled_at s)
    (Some ((λ a, mk_action (status_str (attempt_status a)) (attempt_at a)) <$> info_attempts info))
    (Some (maker_leg snapshot token_in token_out <$> info_legs info))
    (Some (hash_text (order_hash t))) (Some (deadline_block t)).

Context {St : Type} `{TradeStore St}.

Definition list_trades (f : TradeFilter) (page : Page) : cmd St TradeStoreError (list WireTrade) :=
  rows ← trade_list f page; mret (summary <$> rows).

Definition detail (snapshot : Snapshot) (id : TradeId) : cmd St TradeStoreError (option WireTrade) :=
  info ← trade_info id; mret (detail_view snapshot <$> info).

Definition maker_trade (fill : MakerFill) : MakerTrade :=
  let dec_in := decimals catalog (t_token_in (fill_trade fill)) in
  let dec_out := decimals catalog (t_token_out (fill_trade fill)) in
  mk_maker_trade (summary (fill_trade fill)) (maker_share_pct fill) (maker_fee_usd fill dec_in dec_out).

Definition maker_trades (maker : MakerId) (page : Page) (window : option (Z * Z)) : cmd St TradeStoreError (list MakerTrade) :=
  fills ← list_for_maker maker page window; mret (maker_trade <$> fills).

(** ** Counts over the table *)

Definition median (values : list F) : option F :=
  match values with
  | [] => None
  | _ =>
      let sorted := sort_stable total_cmp_le values in
      let mid := (length values / 2)%nat in
      if Nat.even (length values) then
        lo ← sorted !! (mid - 1)%nat; hi ← sorted !! mid; Some (f_div (f_add lo hi) (f_of_int 2))
      else sorted !! mid
  end.

Record TradeStats := mk_trade_stats { st_settled : Z; st_confirmed : Z; st_failed : Z; st_median_impact : option F }.

Definition count_rows (p : TradeRow → bool) (rows : gmap TradeId TradeRow) : Z := Z.of_nat (length (List.filter p (values rows))).

Definition is_settled (row : TradeRow) : bool := bool_decide (is_Some (row_settled_at row)).

Definition sqlite_stats : cmd TradeDatabase TradeStoreError TradeStats :=
  _ ← trade_statement;
  rows ← gets trade_rows;
  let settled := count_rows is_settled rows in
  let confirmed := count_rows (λ row, bool_decide (row_status row = "confirmed"%string)) rows in
  let failed := count_rows (λ row, bool_decide (row_status row = "failed"%string)) rows in
  _ ← trade_statement;
  rows ← gets trade_rows;
  let impacts := omap (λ row, if is_settled row then float_of <$> row_price_impact row else None) (values rows) in
  mret (mk_trade_stats settled confirmed failed (median impacts)).

End views.

Arguments MakerLeg : clear implicits.
Arguments WireTrade : clear implicits.
Arguments MakerTrade : clear implicits.
Arguments TradeStats : clear implicits.

(** * A maker's feed totals its legs

    A page of a maker's feed holds each of its trades once, newest first, with the sum of all the
    legs the maker filled in it; a page that is not full holds them all. *)

Definition newer (a b : Z) : Prop := b < a.

(** ** Adding up legs *)

Lemma row_to_trade_id id row t : row_to_trade id row = Ok t → t_id t = id.
Proof. unfold row_to_trade. intros Ht. repeat (apply bind_Ok in Ht as (? & _ & Ht)). by injection Ht as <-. Qed.

(** The fill of a trade whose legs are [legs]. *)
Definition fills_legs (id : TradeId) (row : TradeRow) (legs : list TradeLeg) (f : MakerFill) : Prop :=
  row_to_trade id row = Ok (fill_trade f) ∧ fill_amount_in f = zsum tl_amount_in legs ∧ fill_amount_out f = zsum tl_amount_out legs.

(** More legs of the trade that was read last. *)
Lemma add_legs_more id row fills f legs res :
  t_id (fill_trade f) = id → try_fold (add_leg id row) (fills ++ [f]) legs = Ok res →
  res = fills ++ [mk_maker_fill (fill_trade f) (fill_amount_in f + zsum tl_amount_in legs) (fill_amount_out f + zsum tl_amount_out legs)].
Proof.
  revert f. induction legs as [|leg legs IH]; intros f Hid; cbn [try_fold].
  - intros [= <-]. destruct f. cbn. by rewrite !Z.add_0_r.
  - intros Hres. apply bind_Ok in Hres as (acc & Hacc & Hres). unfold add_leg in Hacc. rewrite last_snoc, Hid, Z.eqb_refl in Hacc.
    destruct (checked_add (fill_amount_in f) _) as [i|] eqn:Hi; [|done]. destruct (checked_add (fill_amount_out f) _) as [o|] eqn:Ho; [|done].
    cbn [ok_or mbind result_bind] in Hacc. rewrite length_app, Nat.add_sub, take_app_length in Hacc. injection Hacc as <-.
    apply IH in Hres; [|done].
    apply checked_add_Some in Hi as [-> _], Ho as [-> _]. rewrite Hres. cbn [fill_trade fill_amount_in fill_amount_out zsum]. by rewrite <-!Z.add_assoc.
Qed.

(** The legs of a trade that was not read yet. *)
Lemma add_legs_first id row fills legs res :
  legs ≠ [] → Forall (λ f, t_id (fill_trade f) ≠ id) fills → try_fold (add_leg id row) fills legs = Ok res →
  ∃ f, res = fills ++ [f] ∧ fills_legs id row legs f.
Proof.
  destruct legs as [|leg legs]; [done|]. intros _ Hnew. cbn [try_fold]. intros Hres. apply bind_Ok in Hres as (acc & Hacc & Hres).
  assert (Hf : ∃ t, row_to_trade id row = Ok t ∧ acc = fills ++ [mk_maker_fill t (tl_amount_in leg) (tl_amount_out leg)]).
  { unfold add_leg in Hacc. destruct (last fills) as [f|] eqn:Hl.
    - rewrite Forall_forall in Hnew. apply last_Some_elem_of in Hl. rewrite (proj2 (Z.eqb_neq _ _) (Hnew f Hl)) in Hacc.
      destruct (row_to_trade id row) as [t|]; [|done]. exists t. by injection Hacc as <-.
    - destruct (row_to_trade id row) as [t|]; [|done]. exists t. by injection Hacc as <-. }
  destruct Hf as (t & Ht & ->). apply add_legs_more in Hres; [|by apply row_to_trade_id in Ht]. rewrite Hres. eexists. split; [done|].
  split; [done|]. by cbn.
Qed.

(** The whole page: one fill per trade, in the order of the page. *)
Lemma add_page_fills (legs : TradeId → list TradeLeg) rows fills res :
  NoDup ((t_id ∘ fill_trade <$> fills) ++ rows.*1) → Forall (λ p, legs p.1 ≠ []) rows →
  try_fold (λ fills p, try_fold (add_leg p.1 p.2) fills (legs p.1)) fills rows = Ok res →
  ∃ added, res = fills ++ added ∧ Forall2 (λ p f, fills_legs p.1 p.2 (legs p.1) f) rows added.
Proof.
  revert fills. induction rows as [|[id row] rows IH]; intros fills Hnd Hne; cbn [try_fold].
  { intros [= <-]. exists []. by rewrite app_nil_r. }
  apply Forall_cons in Hne as [Hl Hne]. intros Hres. apply bind_Ok in Hres as (acc & Hacc & Hres). cbn [fst snd] in *.
  apply add_legs_first in Hacc as (f & -> & Hf); [|done|].
  2:{ apply Forall_forall. intros f Hf Heq. apply NoDup_app in Hnd as (_ & Hnd & _). apply (Hnd id); [|left]. rewrite <-Heq.
      by apply (list_elem_of_fmap_2 (t_id ∘ fill_trade)). }
  assert (Hid : t_id (fill_trade f) = id) by (destruct Hf as [Ht _]; by apply row_to_trade_id in Ht).
  apply IH in Hres as (added & -> & Hadded); [|rewrite fmap_app; cbn; rewrite Hid, <-app_assoc; done|done].
  exists (f :: added). rewrite <-app_assoc. split; [done|]. by constructor.
Qed.

(** ** The page *)

Definition on_feed (db : TradeDatabase) (maker : MakerId) (page : Page) (window : option (Z * Z)) (p : TradeId * TradeRow) : bool :=
  negb (List.length (maker_legs (leg_rows db) maker p.1) =? 0)%nat && in_window window p.2
  && match page_cursor page with Some c => p.1 <? c | None => true end.

Lemma filter_sorted {A} (R : relation A) (p : A → bool) l : StronglySorted R l → StronglySorted R (List.filter p l).
Proof.
  induction 1 as [|x l Hl IH Hx]; cbn; [constructor|]. destruct (p x); [|done]. constructor; [done|].
  rewrite Forall_forall in Hx |- *. intros y [Hy _]%list_elem_of_In%filter_In. by apply Hx, list_elem_of_In.
Qed.

Lemma entries_increasing {V} (m : gmap Z V) : StronglySorted (λ a b, a.1 < b.1) (entries m).
Proof.
  pose proof (keys_sorted m) as Hs. pose proof (NoDup_keys m) as Hnd. unfold keys in *.
  induction (entries m) as [|[k v] l IH]; [constructor|]. cbn in Hs, Hnd. apply StronglySorted_inv in Hs as [Hs Hk]. apply NoDup_cons in Hnd as [Hn Hnd].
  constructor; [by apply IH|]. pose proof (proj1 (Forall_forall _ _) Hk) as Hle. apply Forall_forall. intros [k' v'] Hin. cbn.
  assert (Hk' : k' ∈ l.*1) by (apply list_elem_of_fmap; by exists (k', v')). specialize (Hle k' Hk'). assert (k ≠ k') by (by intros ->). lia.
Qed.

(** A page is newest first. *)
Lemma newest_sorted limit (rows : gmap TradeId TradeRow) p :
  StronglySorted (λ a b, newer a.1 b.1) (newest limit (List.filter p (entries rows))).
Proof.
  unfold newest. set (l := List.filter p (entries rows)).
  assert (Hr : StronglySorted (λ a b, newer a.1 b.1) (reverse l)).
  { unfold reverse. rewrite <-rev_alt. apply StronglySorted_rev. by apply filter_sorted, entries_increasing. }
  rewrite <-(take_drop (Z.to_nat limit) (reverse l)) in Hr. by apply StronglySorted_app_1_l in Hr.
Qed.

(** What a page of the feed holds. *)
Definition feed_page (db : TradeDatabase) (maker : MakerId) (page : Page) (window : option (Z * Z)) (fills : list MakerFill) : Prop :=
  StronglySorted newer (t_id ∘ fill_trade <$> fills)
  ∧ (length fills ≤ Z.to_nat (page_limit page))%nat
  ∧ (∀ f, f ∈ fills → ∃ row, trade_rows db !! t_id (fill_trade f) = Some row ∧ on_feed db maker page window (t_id (fill_trade f), row) = true
       ∧ fills_legs (t_id (fill_trade f)) row (maker_legs (leg_rows db) maker (t_id (fill_trade f))) f)
  ∧ ((length fills < Z.to_nat (page_limit page))%nat →
     ∀ id row, trade_rows db !! id = Some row → on_feed db maker page window (id, row) = true → id ∈ (t_id ∘ fill_trade <$> fills)).

Lemma elem_of_newest limit (rows : gmap TradeId TradeRow) p id row :
  (id, row) ∈ newest limit (List.filter p (entries rows)) → rows !! id = Some row ∧ p (id, row) = true.
Proof.
  intros Hin. apply elem_of_take in Hin as (i & Hi & _). apply list_elem_of_lookup_2 in Hi.
  apply elem_of_reverse, list_elem_of_In, filter_In in Hi as [Hi Hp]. by apply list_elem_of_In, elem_of_entries in Hi.
Qed.

Lemma feed_page_of db maker page window fills :
  try_fold (λ fills p, try_fold (add_leg p.1 p.2) fills (maker_legs (leg_rows db) maker p.1)) []
    (newest (page_limit page) (List.filter (on_feed db maker page window) (entries (trade_rows db)))) = Ok fills →
  feed_page db maker page window fills.
Proof.
  set (rows := newest _ _). intros Hres. assert (Hs : StronglySorted (λ a b, newer a.1 b.1) rows) by apply newest_sorted.
  assert (Hin : ∀ id row, (id, row) ∈ rows → trade_rows db !! id = Some row ∧ on_feed db maker page window (id, row) = true) by apply elem_of_newest.
  assert (Hnd : NoDup rows.*1).
  { clear -Hs. induction Hs as [|x l Hl IH Hx]; cbn; constructor; [|done]. rewrite Forall_forall in Hx. intros (y & Hy & Hin)%list_elem_of_fmap.
    specialize (Hx y Hin). unfold newer in Hx. lia. }
  apply add_page_fills in Hres as (added & Heq & Hf); [|done|].
  2:{ apply Forall_forall. intros [id row] [_ Ho]%Hin. cbn. unfold on_feed in Ho. cbn in Ho. intros He. by rewrite He in Ho. }
  cbn in Heq. subst added. assert (Hids : t_id ∘ fill_trade <$> fills = rows.*1).
  { clear -Hf. induction Hf as [|[id row] f rows fills [Ht _] _ IH]; [done|]. cbn. rewrite IH. by rewrite (row_to_trade_id _ _ _ Ht). }
  pose proof (Forall2_length _ _ _ Hf) as Hlen. split_and!.
  - rewrite Hids. clear -Hs. induction Hs as [|x l Hl IH Hx]; cbn; constructor; [done|]. apply Forall_fmap. exact Hx.
  - rewrite <-Hlen. unfold rows, newest. rewrite length_take. lia.
  - intros f Hfin. apply list_elem_of_lookup in Hfin as [i Hi]. destruct (Forall2_lookup_r _ _ _ _ _ Hf Hi) as ([id row] & Hrow & Hlegs).
    apply list_elem_of_lookup_2, Hin in Hrow as [Hrow Ho]. cbn [fst snd] in Hlegs. pose proof (row_to_trade_id _ _ _ (proj1 Hlegs)) as ->. eauto.
  - intros Hshort id row Hrow Ho. rewrite Hids. apply list_elem_of_fmap. exists (id, row). split; [done|].
    unfold rows, newest in *. rewrite <-Hlen, length_take in Hshort. rewrite take_ge by lia. apply elem_of_reverse, list_elem_of_In, filter_In.
    split; [|done]. by apply list_elem_of_In, elem_of_entries.
Qed.

Lemma list_for_maker_page maker page window db fills db' :
  sqlite_list_for_maker maker page window db = (Ok fills, db') →
  (∀ from to, window = Some (from, to) → to ≤ I64_MAX) ∧ feed_page db maker page window fills.
Proof.
  unfold sqlite_list_for_maker. set (bound := match window with Some _ => _ | None => _ end).
  destruct bound as [w|e] eqn:Hb; [|done]. assert (Hw : w = window ∧ ∀ from to, window = Some (from, to) → to ≤ I64_MAX).
  { unfold bound in Hb. destruct window as [[from to]|]; [|by injection Hb as <-]. unfold trade_i64_of in Hb.
    destruct (from <=? I64_MAX); [|done]. destruct (to <=? I64_MAX) eqn:Hto; [|done]. injection Hb as <-. zbool. split; [done|]. by intros ? ? [= <- <-]. }
  clear Hb. destruct Hw as [-> Hw]. intros Hrun. split; [done|]. apply feed_page_of. revert Hrun.
  unfold mbind, cmd_bind, lift, trade_statement, gets. destruct (trade_outcomes db) as [|[] o]; [by intros [= ? _]..|done].
Qed.

Section feed.
Context {D F : Type} `{DecimalOps D F} `{FloatOps F} `{StoredFloats F}.
Context (catalog : Catalog) (oracle : Address → option D) (id_text : TradeId → string) (hash_text : B256 → string) (address_text : Address → string).

(** a page of a maker's feed holds each of its trades once, newest first and no more than the limit; every item
    is the trade's header with the sum of all the legs the maker filled in it, and a page that is not full
    holds every matching trade. *)
Theorem maker_feed_totals_its_legs maker page window db items db' :
  maker_trades catalog oracle id_text hash_text maker page window db = (Ok items, db') →
  (∀ from to, window = Some (from, to) → to ≤ I64_MAX)
  ∧ ∃ fills, feed_page db maker page window fills ∧ items = maker_trade catalog oracle id_text hash_text <$> fills.
Proof.
  intros Hrun. unfold maker_trades in Hrun. cbn [list_for_maker sqlite_trade_store] in Hrun.
  destruct (sqlite_list_for_maker maker page window db) as [[fills|e] db1] eqn:Hlist; unfold mbind, cmd_bind in Hrun; rewrite Hlist in Hrun; [|done].
  injection Hrun as <- _. apply list_for_maker_page in Hlist as [? ?]. split; [done|]. by exists fills.
Qed.

End feed.

(** ** A maker with two legs of one trade *)

Module FeedDemo.

#[local] Instance whole_float : FloatOps Z := {|
  f_zero := 0; f_add := Z.add; f_sub := Z.sub; f_mul := Z.mul; f_div := Z.div; f_of_int := id; f_positive x := 0 <? x; f_two_places := to_string
|}.
#[local] Instance whole_stored : StoredFloats Z := {| float_of := id; total_cmp_le := Z.leb; parse_float _ := Some 0 |}.
#[local] Existing Instance whole_dollars.

Definition confirmed_row (settled : Z) : TradeRow :=
  mk_trade_row 11 2 3 5 1000 900 (Some 950) "confirmed" 2 99 None None None (Some 77) (Some 5) 10 (Some settled) (Some 1) (Some 1).

(** Maker 1 fills two legs of trade 4 and one of trade 6; maker 2 the rest. *)
Definition db : TradeDatabase :=
  mk_trade_db {[ 4 := confirmed_row 20; 6 := confirmed_row 30 ]} ∅
    (list_to_map [((4, 0), mk_trade_leg 1 7 300 290); ((4, 1), mk_trade_leg 2 8 400 380); ((4, 2), mk_trade_leg 1 9 300 280); ((6, 0), mk_trade_leg 1 7 1000 950)]) [].

Definition feed : result TradeStoreError (list (MakerTrade Z)) * TradeDatabase :=
  maker_trades ∅ (λ _, Some 1) to_string to_string 1 (mk_page 10 None) (Some (15, 40)) db.

(** [maker_feed_totals_its_legs] at a page that is not full *)
Lemma maker_feed_totals_its_legs_witness :
  ∃ items, feed = (Ok items, db) ∧ mt_share_pct <$> items = [Some 100; Some 60]
    ∧ ∃ fills, feed_page db 1 (mk_page 10 None) (Some (15, 40)) fills ∧ items = maker_trade ∅ (λ _, Some 1) to_string to_string <$> fills.
Proof.
  eexists. assert (Hf : feed = (Ok _, db)) by (vm_compute; reflexivity). split; [exact Hf|]. split; [reflexivity|].
  exact (proj2 (maker_feed_totals_its_legs ∅ (λ _, Some 1) to_string to_string 1 (mk_page 10 None) (Some (15, 40)) db _ db Hf)).
Defined.

End FeedDemo.
