(* ===== verification/ChainSource.v ===== *)
(** * Reading the chain

    [crates/adapters/src/events/indexer.rs] (the batched log reader), [registry/alloy_source.rs]
    and [rebate/chain_source.rs] (the events it reads for the registry and for the rebates),
    [ledger/alloy_budget.rs], [balances.rs] and [erc20.rs] (what a wallet can still pay).

    The node is an argument: [get_logs] is its answer to the n-th attempt of a request,
    [completed] the order in which the requests of a batch finish, [multicall] one aggregate of
    calls.  The ABI decoders are arguments. *)

From stdpp Require Import strings sorting.
From S2P Require Import Prelude U256 Reservation CurveDecode Registry RegistrySync Assets Depth Maker RebateStore Metrics.

#[local] Open Scope Z_scope.

(** ** The indexer *)

Record RpcLog := mk_log {
  lg_address : Address;
  lg_topics : list Z;
  lg_data : list Z;
  lg_block_hash : option Z;
  lg_block_number : option Z;
  lg_transaction_hash : option Z;
  lg_transaction_index : option Z;
  lg_index : option Z;
  lg_removed : bool
}.

(** [EventExt<T>], an event with the provenance of its log. *)
Record Logged (T : Type) := mk_logged { lo_event : T; lo_log : RpcLog }.
Arguments mk_logged {_}. Arguments lo_event {_}. Arguments lo_log {_}.

Inductive IndexerError : Type := InvalidRange | GetLogs (from to_ : Z) (reason : string).

Definition MAX_RETRY_ATTEMPTS : nat := 5.
Definition DEFAULT_CONCURRENT_TASKS_LIMIT : nat := 5.
Definition DEFAULT_MAX_BLOCK_SPAN : Z := 10000.

(** The answers to the attempts from the [n]-th on; the last one is returned whatever it is. *)
Fixpoint retry_from {T E} (operation : nat → result E T) (attempt retries : nat) : result E T :=
  match retries with
  | O => operation attempt
  | S retries => match operation attempt with Ok x => Ok x | Err _ => retry_from operation (S attempt) retries end
  end.

Definition retry_with_backoff {T E} (operation : nat → result E T) (max_retries : nat) : result E T :=
  retry_from operation 0 (max_retries - 1).

(** [(from_block..=to_block).step_by(max_block_span + 1)] *)
Definition range_starts (from_block to_block max_block_span : Z) : list Z :=
  if to_block <? from_block then []
  else (λ i : nat, from_block + Z.of_nat i * (max_block_span + 1)) <$> seq 0 (S (Z.to_nat ((to_block - from_block) / (max_block_span + 1)))).

Definition get_block_ranges (from_block to_block max_block_span : Z) : list (Z * Z) :=
  (λ start, (start, Z.min ((start + max_block_span) mod 2 ^ 64) to_block)) <$> range_starts from_block to_block max_block_span.

(** [slice::chunks] *)
Fixpoint chunks_fuel {A} (fuel n : nat) (l : list A) : list (list A) :=
  match fuel, l with
  | S fuel, _ :: _ => take n l :: chunks_fuel fuel n (drop n l)
  | _, _ => []
  end.
Definition chunks {A} (n : nat) (l : list A) : list (list A) := chunks_fuel (length l) n l.

Section provider.
Context (get_logs : list Address → Z → Z → nat → result string (list RpcLog)) (completed : list (Z * Z) → list (Z * Z)).
Context (max_block_span : Z) (concurrent_tasks_limit : nat).

Definition task (addresses : list Address) (range : Z * Z) : result IndexerError (list RpcLog) :=
  retry_with_backoff (λ attempt, map_err (GetLogs range.1 range.2) (get_logs addresses range.1 range.2 attempt)) MAX_RETRY_ATTEMPTS.

(** The batches run one after the other; the first failure to arrive is returned. *)
Definition collect_logs (addresses : list Address) (ranges : list (Z * Z)) : result IndexerError (list RpcLog) :=
  try_fold (λ logs chunk, try_fold (λ logs range, found ← task addresses range; Ok (logs ++ found)) logs (completed chunk))
    [] (chunks concurrent_tasks_limit ranges).

(** Address by address, the logs that decode. *)
Definition process_logs {T} (decode : list Z → list Z → option T) (logs : list RpcLog) (addresses : list Address) : list (Logged T) :=
  addresses ≫= λ a, omap (λ log, event ← decode (lg_topics log) (lg_data log); Some (mk_logged event log)) (filter (λ log, lg_address log = a) logs).

Definition query_events {T} (decode : list Z → list Z → option T) (from_block to_block : Z) (addresses : list Address) :
    result IndexerError (list (Logged T)) :=
  if to_block <? from_block then Err InvalidRange
  else
    logs ← collect_logs addresses (get_block_ranges from_block to_block max_block_span);
    Ok (process_logs decode logs addresses).

(** ** The registry's source *)

Inductive IAquaEvents : Type :=
| AbiShipped (maker app : Address) (strategyHash : B256) (strategy : list Z)
| AbiPushed (maker app : Address) (strategyHash : B256) (token : Address) (amount : U256)
| AbiPulled (maker app : Address) (strategyHash : B256) (token : Address) (amount : U256)
| AbiDocked (maker app : Address) (strategyHash : B256).

Definition into_domain (event : IAquaEvents) : AquaEvent :=
  match event with
  | AbiShipped maker app hash strategy => Shipped maker app hash strategy
  | AbiPushed maker app hash token amount => Pushed maker app hash token amount
  | AbiPulled maker app hash token amount => Pulled maker app hash token amount
  | AbiDocked maker app hash => Docked maker app hash
  end.

Definition event_ext (e : Logged AquaEvent) : EventExt :=
  let log := lo_log e in
  mk_ext (lo_event e) (lg_address log) (lg_block_hash log) (lg_block_number log) (lg_transaction_hash log) (lg_transaction_index log)
    (lg_index log) (lg_removed log).

(** [Option]'s order: a missing number comes first. *)
Definition opt_leb (a b : option Z) : bool :=
  match a, b with None, _ => true | Some _, None => false | Some x, Some y => x <=? y end.
Definition opt_eqb (a b : option Z) : bool := bool_decide (a = b).

(** [(block_number, log_index)] *)
Definition position_leb (a b : option Z * option Z) : bool := if opt_eqb a.1 b.1 then opt_leb a.2 b.2 else opt_leb a.1 b.1.

Definition alloy_fetch (decode : list Z → list Z → option IAquaEvents) (aqua app : Address) (from_block to_block : Z) :
    result IndexerError (list EventExt) :=
  raw ← query_events decode from_block to_block [aqua];
  let events := filter (λ e, key_app (event_key (ext_event e)) = app)
                  ((λ e, event_ext (mk_logged (into_domain (lo_event e)) (lo_log e))) <$> raw) in
  Ok (sort_stable (λ a b, position_leb (RegistrySync.block_number a, RegistrySync.log_index a) (RegistrySync.block_number b, RegistrySync.log_index b)) events).

(** ** The rebate executions *)

Record RebateExecutedAbi := mk_abi_executed {
  ab_context : B256; ab_strategy : B256; ab_executor : Address; ab_maker : Address; ab_token_in : Address; ab_token_out : Address;
  ab_amount_in : U256; ab_amount_out : U256; ab_rebate : U256
}.

Inductive RebateChainSourceError : Type := RebateRpc (e : IndexerError) | RebateUnpositioned.

Definition rebate_into_domain (e : Logged RebateExecutedAbi) : result RebateChainSourceError RebateExecutedEvent :=
  block ← ok_or (lg_block_number (lo_log e)) RebateUnpositioned;
  index ← ok_or (lg_index (lo_log e)) RebateUnpositioned;
  tx ← ok_or (lg_transaction_hash (lo_log e)) RebateUnpositioned;
  let v := lo_event e in
  Ok (mk_executed (ab_context v) (ab_strategy v) (ab_executor v) (ab_maker v) (ab_token_in v) (ab_token_out v) (ab_amount_in v) (ab_amount_out v)
        (ab_rebate v) tx block index).

Definition rebate_fetch (decode : list Z → list Z → option RebateExecutedAbi) (filler : Address) (from_block to_block : Z) :
    result RebateChainSourceError (list RebateExecutedEvent) :=
  raw ← map_err RebateRpc (query_events decode from_block to_block [filler]);
  events ← mapM rebate_into_domain (filter (λ e, lg_removed (lo_log e) = false) raw);
  Ok (sort_stable (λ a b, position_leb (Some (RebateStore.block_number a), Some (RebateStore.log_index a))
                            (Some (RebateStore.block_number b), Some (RebateStore.log_index b))) events).

End provider.

(** ** What a wallet can still pay *)

Record BalanceAllowance := mk_balance { ba_balance : U256; ba_allowance : U256 }.

Inductive BudgetSourceError : Type := BudgetChain (m : string).

Section wallets.
(** One aggregate of [balanceOf] and one of [allowance] calls, an answer per call. *)
Context (balances_of : list (Address * Address) → result string (list U256)) (allowances_of : Address → list (Address * Address) → result string (list U256)).
(** A same-block read of both, for one account. *)
Context (balance_and_allowance : Address → Address → Address → result string (U256 * U256)).

Definition read_balance_allowances (spender : Address) (accounts : list (Address * Address)) : result string (list BalanceAllowance) :=
  match accounts with
  | [] => Ok []
  | _ =>
      balances ← balances_of accounts;
      allowances ← allowances_of spender accounts;
      Ok (zip_with mk_balance balances allowances)
  end.

Definition holdings (aqua owner : Address) (tokens : list Address) : result string (gmap Address Holdings) :=
  reads ← read_balance_allowances aqua ((λ token, (owner, token)) <$> tokens);
  Ok (list_to_map (reverse (zip_with (λ token read, (token, mk_holdings (ba_balance read) (Z.min (ba_balance read) (ba_allowance read)))) tokens reads))).

Section budgets.
Context (aqua app : Address) (snapshot : Snapshot).

Definition virtual_budget (maker : MakerId) (hash : StrategyHash) (token : Address) : U256 :=
  match strategies snapshot !! mk_strategy_key maker app hash with
  | Some s => if active s then balance s token else 0
  | None => 0
  end.

(** The wallets among the accounts, with their maker and token. *)
Definition wallets_of (accounts : list AccountKey) : list (AccountKey * (MakerId * Address)) :=
  omap (λ a, match a with WalletBudget maker token => Some (a, (maker, token)) | StrategyVirtual _ _ _ => None end) accounts.

Definition wallet_pullables (wallets : list (AccountKey * (MakerId * Address))) : result BudgetSourceError (gmap AccountKey U256) :=
  reads ← map_err BudgetChain (read_balance_allowances aqua wallets.*2);
  Ok (list_to_map (reverse (zip_with (λ w read, (w.1, Z.min (ba_balance read) (ba_allowance read))) wallets reads))).

Definition alloy_budget (account : AccountKey) : result BudgetSourceError U256 :=
  match account with
  | WalletBudget maker token =>
      read ← map_err BudgetChain (balance_and_allowance maker token aqua);
      Ok (Z.min read.1 read.2)
  | StrategyVirtual maker hash token => Ok (virtual_budget maker hash token)
  end.

Definition insert_virtual (budgets : gmap AccountKey U256) (account : AccountKey) : gmap AccountKey U256 :=
  match account with
  | StrategyVirtual maker hash token => <[account := virtual_budget maker hash token]> budgets
  | WalletBudget _ _ => budgets
  end.

Definition alloy_budgets (accounts : list AccountKey) : result BudgetSourceError (gmap AccountKey U256) :=
  budgets ← wallet_pullables (wallets_of accounts);
  Ok (foldl insert_virtual budgets accounts).

End budgets.
End wallets.

(** * The chain is read whole and in order

    The block ranges of a request partition it, so a node that serves its logs truthfully makes
    the log reader the source the registry relies on; and the budgets read in bulk are those read
    one at a time. *)

(** ** Chunks and requests *)

Lemma concat_chunks {A} (n : nat) (l : list A) : (0 < n)%nat → List.concat (chunks n l) = l.
Proof.
  intros Hn. unfold chunks. assert (Hf : ∀ fuel (k : list A), (length k ≤ fuel)%nat → List.concat (chunks_fuel fuel n k) = k); [|by apply Hf].
  induction fuel as [|fuel IH]; intros k Hk; [destruct k; [done|cbn in Hk; lia]|]. destruct k as [|x k]; [done|].
  cbn [chunks_fuel List.concat]. rewrite IH, take_drop; [done|]. rewrite length_drop. cbn [length] in *. lia.
Qed.

(** The parts found are appended in turn. *)
Lemma try_fold_append {A B E} (f : A → result E (list B)) l acc res :
  try_fold (λ acc x, found ← f x; Ok (acc ++ found)) acc l = Ok res →
  ∃ parts, Forall2 (λ x p, f x = Ok p) l parts ∧ res = acc ++ List.concat parts.
Proof.
  revert acc. induction l as [|x l IH]; intros acc; cbn [try_fold].
  { intros [= <-]. exists []. split; [constructor|]. by rewrite app_nil_r. }
  destruct (f x) as [p|e] eqn:Hx; [|done]. cbn [mbind result_bind]. intros (parts & Hp & ->)%IH. exists (p :: parts).
  split; [by constructor|]. cbn. by rewrite app_assoc.
Qed.

Lemma try_fold_append_total {A B E} (f : A → result E (list B)) l acc :
  (∀ x, x ∈ l → ∃ p, f x = Ok p) → ∃ res, try_fold (λ acc x, found ← f x; Ok (acc ++ found)) acc l = Ok res.
Proof.
  revert acc. induction l as [|x l IH]; intros acc Hx; [by eexists|]. cbn [try_fold]. destruct (Hx x) as [p ->]; [left|].
  cbn [mbind result_bind]. apply IH. intros y Hy. apply Hx. by right.
Qed.

(** The parts are those of a truthful answer, in some order. *)
Lemma parts_perm {A B E} (f : A → result E (list B)) (g : A → list B) l parts :
  (∀ x p, f x = Ok p → p ≡ₚ g x) → Forall2 (λ x p, f x = Ok p) l parts → List.concat parts ≡ₚ l ≫= g.
Proof. intros Hf. induction 1 as [|x p l parts Hx _ IH]; [done|]. cbn. by rewrite (Hf _ _ Hx), IH. Qed.

Lemma retry_Ok {T E} (operation : nat → result E T) n k x : retry_from operation n k = Ok x → ∃ attempt, operation attempt = Ok x.
Proof.
  revert n. induction k as [|k IH]; intros n; cbn; [eauto|]. destruct (operation n) as [y|e] eqn:Ho; [|apply IH]. intros [= <-]. eauto.
Qed.

Lemma retry_total {T E} (operation : nat → result E T) n k :
  (∃ i x, (n ≤ i ≤ n + k)%nat ∧ operation i = Ok x) → ∃ x, retry_from operation n k = Ok x.
Proof.
  revert n. induction k as [|k IH]; intros n (i & x & Hi & Hx); cbn.
  { replace i with n in Hx by lia. eauto. }
  destruct (operation n) as [y|e] eqn:Ho; [eauto|]. apply IH. exists i, x. split; [|done].
  destruct (decide (i = n)) as [->|]; [congruence|lia].
Qed.

(** ** Block ranges *)

Section ranges.
Context {L : Type} (block : L → Z) (span : Z).
Hypothesis Hspan : 0 ≤ span.

Definition within (r : Z * Z) (x : L) : Prop := r.1 ≤ block x ≤ r.2.
#[global] Instance within_dec r x : Decision (within r x) := _.

Definition range_edge (from : Z) (i : nat) : Z := from + Z.of_nat i * (span + 1).

(** The logs below the [n]-th edge, and not above the end. *)
Definition below (from to_ : Z) (n : nat) (x : L) : Prop := from ≤ block x < range_edge from n ∧ block x ≤ to_.
#[global] Instance below_dec from to_ n x : Decision (below from to_ n x) := _.

Lemma ranges_below from to_ n (logs : list L) :
  0 ≤ from → (∀ x, x ∈ logs → block x + span < 2 ^ 64) →
  ((λ i : nat, (range_edge from i, Z.min ((range_edge from i + span) mod 2 ^ 64) to_)) <$> seq 0 n) ≫= (λ r, filter (within r) logs)
    ≡ₚ filter (below from to_ n) logs.
Proof.
  intros H0 Hb. induction n as [|n IH].
  { cbn. rewrite filter_none; [done|]. intros x _ [Hx _]. unfold range_edge in Hx. lia. }
  rewrite seq_S, fmap_app, bind_app, IH. cbn [fmap list_fmap mbind list_bind Nat.add]. rewrite app_nil_r.
  assert (He : range_edge from (S n) = range_edge from n + (span + 1)) by (unfold range_edge; lia).
  assert (H0' : 0 ≤ range_edge from n) by (unfold range_edge; nia).
  assert (Hf : from ≤ range_edge from n) by (unfold range_edge; nia).
  rewrite (filter_elem_iff (within _) (λ x, range_edge from n ≤ block x < range_edge from (S n) ∧ block x ≤ to_) logs).
  - clear IH. induction logs as [|x logs IHl]; [done|]. rewrite !filter_cons.
    specialize (IHl ltac:(intros y Hy; apply Hb; by right)). unfold below in *.
    repeat case_decide; try (exfalso; lia); rewrite <-?IHl; [done|by rewrite <-Permutation_middle|done].
  - intros x Hx. specialize (Hb x Hx). unfold within. cbn [fst snd].
    destruct (decide (range_edge from n ≤ block x)) as [Hle|]; [|lia]. rewrite Z.mod_small by lia. lia.
Qed.

(** The ranges of a request partition it. *)
Lemma ranges_partition from to_ (logs : list L) :
  0 ≤ from ≤ to_ → (∀ x, x ∈ logs → block x + span < 2 ^ 64) →
  get_block_ranges from to_ span ≫= (λ r, filter (within r) logs) ≡ₚ filter (within (from, to_)) logs.
Proof.
  intros Hft Hb. unfold get_block_ranges, range_starts. rewrite (proj2 (Z.ltb_ge _ _)) by lia. rewrite <-list_fmap_compose.
  set (n := S (Z.to_nat ((to_ - from) / (span + 1)))).
  transitivity (filter (below from to_ n) logs); [apply ranges_below; [lia|done]|].
  rewrite (filter_elem_iff (below from to_ n) (within (from, to_)) logs); [done|]. intros x _. unfold below, within, range_edge, n. cbn [fst snd].
  rewrite Nat2Z.inj_succ, Z2Nat.id by (apply Z.div_pos; lia).
  pose proof (Z.div_mod (to_ - from) (span + 1) ltac:(lia)). pose proof (Z.mod_pos_bound (to_ - from) (span + 1) ltac:(lia)). split; [lia|]. intros. split; [|lia]. split; [lia|]. nia.
Qed.

End ranges.

(** ** Sorting by position *)

Lemma opt_leb_total a b : opt_leb a b = false → opt_leb b a = true.
Proof. destruct a, b; cbn; intros; zbool; try done; lia. Qed.

Lemma opt_leb_trans a b c : opt_leb a b = true → opt_leb b c = true → opt_leb a c = true.
Proof. destruct a, b, c; cbn; intros; zbool; try done; lia. Qed.

Lemma opt_leb_antisym a b : opt_leb a b = true → opt_leb b a = true → a = b.
Proof. destruct a, b; cbn; intros; zbool; try done; f_equal; lia. Qed.

Lemma position_leb_total a b : position_leb a b = false → position_leb b a = true.
Proof.
  unfold position_leb, opt_eqb. intros H. case_bool_decide as E.
  - rewrite bool_decide_true by congruence. by apply opt_leb_total.
  - rewrite bool_decide_false by congruence. by apply opt_leb_total.
Qed.

Lemma position_leb_trans a b c : position_leb a b = true → position_leb b c = true → position_leb a c = true.
Proof.
  unfold position_leb, opt_eqb. destruct a as [a1 a2], b as [b1 b2], c as [c1 c2]. cbn [fst snd].
  repeat case_bool_decide; subst; try done; eauto using opt_leb_trans.
  intros H1 H2. pose proof (opt_leb_antisym _ _ H1 H2). congruence.
Qed.

Lemma position_leb_antisym a b : position_leb a b = true → position_leb b a = true → a = b.
Proof.
  unfold position_leb, opt_eqb. destruct a as [a1 a2], b as [b1 b2]. cbn [fst snd]. case_bool_decide as E.
  - subst. rewrite bool_decide_true by done. intros ? ?. f_equal. by apply opt_leb_antisym.
  - rewrite bool_decide_false by congruence. intros H1 H2. by destruct E; apply opt_leb_antisym.
Qed.

Lemma sort_by_sorted {A} (le : A → A → bool) l :
  (∀ a b, le a b = false → le b a = true) → (∀ a b c, le a b = true → le b c = true → le a c = true) →
  StronglySorted (λ a b, le a b = true) (sort_stable le l).
Proof.
  intros Htot Htrans. unfold sort_stable. induction l as [|x l IH]; cbn; [constructor|].
  induction IH as [|y k Hk IHk Hy]; cbn; [repeat constructor|]. destruct (le x y) eqn:E.
  - constructor; [by constructor|]. constructor; [done|]. eapply Forall_impl; [exact Hy|]. cbn. eauto.
  - constructor; [done|]. apply Forall_forall. intros z [->|Hz]%insert_by_elem; [by apply Htot|]. rewrite Forall_forall in Hy. by apply Hy.
Qed.

Definition ext_position (e : EventExt) : option Z * option Z := (RegistrySync.block_number e, RegistrySync.log_index e).

(** Chain events in any order sort to chain order. *)
Lemma sort_chain_events l events :
  StronglySorted pos_lt events → (∀ e, e ∈ events → mined e) → l ≡ₚ events →
  sort_stable (λ a b, position_leb (ext_position a) (ext_position b)) l = events.
Proof.
  intros Hs Hm Hl. apply (StronglySorted_unique_strong (λ a b, position_leb (ext_position a) (ext_position b) = true)).
  - intros a b Ha Hb H1 H2. rewrite sort_stable_perm, Hl in Ha. pose proof (position_leb_antisym _ _ H1 H2) as [= Hblk Hlog].
    apply (pos_sorted_inj events); try done. unfold pos, blk, lg. by rewrite Hblk, Hlog.
  - apply sort_by_sorted; eauto using position_leb_total, position_leb_trans.
  - clear Hl. induction Hs as [|e events Hs IH He]; [constructor|]. constructor; [apply IH; intros; apply Hm; by right|].
    rewrite Forall_forall in *. intros x Hx. specialize (He x Hx). destruct (Hm e ltac:(left)) as (Hb & _ & Hi).
    destruct (Hm x ltac:(by right)) as (Hb' & _ & Hi'). unfold ext_position, position_leb, opt_eqb. rewrite Hb, Hi, Hb', Hi'. cbn [fst snd opt_leb].
    unfold pos_lt in He. case_bool_decide as Eq; [injection Eq as Eq|]; apply Z.leb_le; [lia|].
    destruct He as [He|[He _]]; [lia|]. by rewrite He in Eq.
  - by rewrite sort_stable_perm.
Qed.

(** ** A truthful node *)

Section node.
Context (get_logs : list Address → Z → Z → nat → result string (list RpcLog)) (completed : list (Z * Z) → list (Z * Z)).
Context (span : Z) (limit : nat) (decode : list Z → list Z → option IAquaEvents) (aqua app : Address).
(** The logs of the canonical chain. *)
Context (chain : list RpcLog).

Definition log_block (log : RpcLog) : Z := default 0 (lg_block_number log).

(** What a request asks for. *)
Definition asked (addresses : list Address) (r : Z * Z) (log : RpcLog) : Prop := lg_address log ∈ addresses ∧ within log_block r log.

Record node_ok : Prop := {
  node_finishes l : completed l ≡ₚ l;
  node_answers addresses from to_ n l : get_logs addresses from to_ n = Ok l → l ≡ₚ filter (asked addresses (from, to_)) chain;
  node_span : 0 ≤ span;
  node_limit : (0 < limit)%nat;
  node_blocks log : log ∈ chain → log_block log + span < 2 ^ 64
}.
Hypothesis Hnode : node_ok.

(** The chain's events of the strategies we keep. *)
Definition log_event (log : RpcLog) : option EventExt :=
  event ← decode (lg_topics log) (lg_data log); Some (event_ext (mk_logged (into_domain event) log)).
Definition chain_events : list EventExt :=
  filter (λ e, key_app (event_key (ext_event e)) = app) (omap log_event (filter (λ log, lg_address log = aqua) chain)).

Lemma task_truthful addresses r l : task get_logs addresses r = Ok l → l ≡ₚ filter (asked addresses r) chain.
Proof.
  unfold task, retry_with_backoff. intros (n & Hn)%retry_Ok. destruct (get_logs _ _ _ _) as [k|] eqn:Hg; [|done]. injection Hn as <-.
  apply (node_answers Hnode) in Hg. by destruct r.
Qed.

Lemma collect_truthful addresses ranges logs :
  collect_logs get_logs completed limit addresses ranges = Ok logs → logs ≡ₚ ranges ≫= λ r, filter (asked addresses r) chain.
Proof.
  unfold collect_logs. rewrite <-(concat_chunks limit ranges) at 2 by apply Hnode. generalize (chunks limit ranges) as groups. intros groups.
  change (logs ≡ₚ List.concat groups ≫= λ r, filter (asked addresses r) chain) with (logs ≡ₚ [] ++ (List.concat groups ≫= λ r, filter (asked addresses r) chain)).
  generalize (@nil RpcLog) as acc. induction groups as [|group groups IH]; intros acc; cbn [try_fold List.concat].
  { intros [= <-]. by rewrite app_nil_r. }
  destruct (try_fold _ acc (completed group)) as [acc'|] eqn:Ha; [|done]. cbn [mbind result_bind]. intros ->%IH.
  apply try_fold_append in Ha as (parts & Hp & ->). apply (parts_perm _ _ _ _ (task_truthful addresses)) in Hp.
  rewrite Hp, (node_finishes Hnode), bind_app. by rewrite <-app_assoc.
Qed.

Lemma collect_whole from to_ logs :
  0 ≤ from ≤ to_ → collect_logs get_logs completed limit [aqua] (get_block_ranges from to_ span) = Ok logs →
  logs ≡ₚ filter (within log_block (from, to_)) (filter (λ log, lg_address log = aqua) chain).
Proof.
  intros Hft ->%collect_truthful. rewrite <-(ranges_partition log_block span (node_span Hnode) from to_ _ Hft).
  - induction (get_block_ranges from to_ span) as [|r rs IH]; [done|].
    rewrite !bind_cons, IH. apply eq_subrelation; [apply _|]. f_equal. rewrite list_filter_filter. apply filter_elem_iff. intros log _. unfold asked. set_solver.
  - intros log [_ Hl]%list_elem_of_filter. by apply (node_blocks Hnode).
Qed.

Lemma log_event_block log e : log_event log = Some e → blk e = log_block log.
Proof. unfold log_event. destruct (decode _ _) as [ev|]; [|done]. cbn. by intros [= <-]. Qed.

Lemma filter_omap_block r (logs : list RpcLog) :
  omap log_event (filter (within log_block r) logs) = filter (λ e, r.1 ≤ blk e ≤ r.2) (omap log_event logs).
Proof.
  induction logs as [|log logs IH]; [done|]. rewrite filter_cons. cbn [omap list_omap]. destruct (log_event log) as [e|] eqn:He.
  - rewrite filter_cons. apply log_event_block in He as Hb. repeat case_decide; unfold within in *; try (exfalso; lia); [|done].
    cbn [omap list_omap]. by rewrite He, IH.
  - case_decide; [|done]. cbn [omap list_omap]. by rewrite He.
Qed.

(** The events of the logs that were read. *)
Lemma fetched_events logs :
  Forall (λ log, lg_address log = aqua) logs →
  ((λ e, event_ext (mk_logged (into_domain (lo_event e)) (lo_log e))) <$> process_logs decode logs [aqua]) = omap log_event logs.
Proof.
  intros Ha. unfold process_logs. rewrite bind_cons. cbn [mbind list_bind]. rewrite app_nil_r. rewrite filter_all by (by apply Forall_forall).
  clear Ha. induction logs as [|log logs IH]; [done|]. cbn [omap list_omap]. unfold log_event at 1.
  destruct (decode _ _) as [ev|]; cbn [mbind option_bind]; [|done]. rewrite fmap_cons, IH. done.
Qed.

#[local] Arguments process_logs : simpl never.

Section sorted.
Hypotheses (Hsorted : StronglySorted pos_lt chain_events) (Hmined : ∀ e, e ∈ chain_events → mined e).

Lemma fetch_exact from to_ l :
  0 ≤ from → alloy_fetch get_logs completed span limit decode aqua app from to_ = Ok l → l = filter (λ e, from ≤ blk e ≤ to_) chain_events.
Proof.
  intros H0. unfold alloy_fetch, query_events. destruct (to_ <? from) eqn:Hft; [done|]. zbool.
  destruct (collect_logs _ _ _ _ _) as [logs|] eqn:Hc; [|done]. cbn [mbind result_bind]. intros [= <-].
  apply collect_whole in Hc; [|lia]. apply sort_chain_events.
  - by apply StronglySorted_filter.
  - intros e [_ He]%list_elem_of_filter. by apply Hmined.
  - rewrite fetched_events.
    + rewrite Hc, (filter_omap_block (from, to_)). unfold chain_events. cbn [fst snd]. rewrite !list_filter_filter.
      apply eq_subrelation; [apply _|]. apply filter_elem_iff. tauto.
    + rewrite Hc. apply Forall_forall. intros log [_ [? _]%list_elem_of_filter]%list_elem_of_filter. done.
Qed.

Lemma fetch_total from to_ :
  from ≤ to_ →
  (∀ r, r ∈ get_block_ranges from to_ span → ∃ n l, (n < MAX_RETRY_ATTEMPTS)%nat ∧ get_logs [aqua] r.1 r.2 n = Ok l) →
  ∃ l, alloy_fetch get_logs completed span limit decode aqua app from to_ = Ok l.
Proof.
  intros Hft Hans. unfold alloy_fetch, query_events. rewrite (proj2 (Z.ltb_ge _ _)) by done.
  assert (Htask : ∀ r, r ∈ get_block_ranges from to_ span → ∃ l, task get_logs [aqua] r = Ok l).
  { intros r (n & l & Hn & Hl)%Hans. apply retry_total. exists n, l. unfold MAX_RETRY_ATTEMPTS in *. split; [lia|]. by rewrite Hl. }
  enough (∃ logs, collect_logs get_logs completed limit [aqua] (get_block_ranges from to_ span) = Ok logs) as [logs ->] by (cbn; eauto).
  unfold collect_logs. rewrite <-(concat_chunks limit (get_block_ranges from to_ span)) in Htask by apply Hnode.
  generalize (@nil RpcLog) as acc. revert Htask. generalize (chunks limit (get_block_ranges from to_ span)) as groups.
  induction groups as [|group groups IH]; intros Htask acc; [by eexists|]. cbn [try_fold].
  destruct (try_fold_append_total (task get_logs [aqua]) (completed group) acc) as [acc' ->].
  { intros r Hr. rewrite (node_finishes Hnode) in Hr. apply Htask. cbn. set_solver. }
  cbn [mbind result_bind]. apply IH. intros r Hr. apply Htask. cbn. set_solver.
Qed.

(** The log reader is a source the registry can be built on: block numbers are unsigned. *)
Lemma indexer_source_ok :
  source_ok chain_events
    (λ from to_, if 0 <=? from then ok (alloy_fetch get_logs completed span limit decode aqua app from to_) else None).
Proof.
  intros from to_ l. destruct (0 <=? from) eqn:H0; [|done]. zbool. destruct (alloy_fetch _ _ _ _ _ _ _ _ _) as [k|] eqn:Hf; [|done].
  intros [= <-]. by rewrite (fetch_exact from to_ k).
Qed.

(** C22: over a node that answers every request truthfully, whatever the order in which the requests of a batch
    finish, a read of a block range returns exactly the decodable events of the configured application
    in that range, each once and in chain order, however many requests it is split into; it returns them
    whenever each request is answered within its five attempts, and refuses only a range that ends
    before it starts. *)
Theorem indexer_reads_the_chain from to_ :
  0 ≤ from →
  (∀ l, alloy_fetch get_logs completed span limit decode aqua app from to_ = Ok l → l = filter (λ e, from ≤ blk e ≤ to_) chain_events)
  ∧ (from ≤ to_ →
     (∀ r, r ∈ get_block_ranges from to_ span → ∃ n l, (n < MAX_RETRY_ATTEMPTS)%nat ∧ get_logs [aqua] r.1 r.2 n = Ok l) →
     alloy_fetch get_logs completed span limit decode aqua app from to_ = Ok (filter (λ e, from ≤ blk e ≤ to_) chain_events))
  ∧ (to_ < from → alloy_fetch get_logs completed span limit decode aqua app from to_ = Err InvalidRange)
  ∧ ∀ r, r ∈ get_block_ranges from to_ span → r.2 - r.1 ≤ span.
Proof.
  intros H0. split_and!.
  - intros l. by apply fetch_exact.
  - intros Hft Hans. destruct (fetch_total from to_ Hft Hans) as [l Hl]. rewrite Hl. f_equal. by apply fetch_exact.
  - intros Hft. unfold alloy_fetch, query_events. by rewrite (proj2 (Z.ltb_lt _ _)).
  - unfold get_block_ranges. intros r (start & -> & Hs)%list_elem_of_fmap. cbn [fst snd].
    assert (0 ≤ start). { unfold range_starts in Hs. destruct (to_ <? from); [by apply elem_of_nil in Hs|]. apply list_elem_of_fmap in Hs as (i & -> & _). pose proof (node_span Hnode). nia. }
    pose proof (Z.mod_le (start + span) (2 ^ 64) ltac:(pose proof (node_span Hnode); lia) ltac:(lia)). lia.
Qed.

End sorted.
End node.

(** ** Budgets *)

Section budgets.
Context (balances_of : list (Address * Address) → result string (list U256)) (allowances_of : Address → list (Address * Address) → result string (list U256)).
Context (balance_and_allowance : Address → Address → Address → result string (U256 * U256)).
(** The state of the tokens: a holder's balance, and what it lets a spender take. *)
Context (holds : Address → Address → U256) (lets : Address → Address → Address → U256).

Record wallets_ok : Prop := {
  aggregate_balances l r : balances_of l = Ok r → r = (λ a, holds a.1 a.2) <$> l;
  aggregate_allowances spender l r : allowances_of spender l = Ok r → r = (λ a, lets a.1 a.2 spender) <$> l;
  same_block_read owner token spender b a : balance_and_allowance owner token spender = Ok (b, a) → b = holds owner token ∧ a = lets owner token spender
}.
Hypothesis Hwallets : wallets_ok.
Context (aqua app : Address) (snapshot : Snapshot).

(** What an account can still pay: a wallet what it holds and lets Aqua take, an active strategy what it has left. *)
Definition payable (a : AccountKey) : U256 :=
  match a with
  | WalletBudget maker token => Z.min (holds maker token) (lets maker token aqua)
  | StrategyVirtual maker hash token => virtual_budget app snapshot maker hash token
  end.

Lemma inj_result {E A} (x y : A) : @Ok E A x = Ok y → x = y.
Proof. by intros [= ->]. Qed.

Lemma reads_exact accounts reads :
  read_balance_allowances balances_of allowances_of aqua accounts = Ok reads → reads = (λ a, mk_balance (holds a.1 a.2) (lets a.1 a.2 aqua)) <$> accounts.
Proof.
  unfold read_balance_allowances. destruct accounts as [|a accounts]; [by intros [= <-]|].
  destruct (balances_of _) as [bs|] eqn:Hb; [|done]. destruct (allowances_of _ _) as [als|] eqn:Ha; [|done]. cbn [mbind result_bind].
  apply (aggregate_balances Hwallets) in Hb as ->. apply (aggregate_allowances Hwallets) in Ha as ->. intros Heq. apply (inj_result _ _) in Heq as <-.
  generalize (a :: accounts) as l. induction l as [|x l IH]; [done|]. rewrite !fmap_cons. cbn [zip_with]. f_equal. exact IH.
Qed.

Lemma wallets_of_elem accounts w : w ∈ wallets_of accounts ↔ ∃ maker token, w = (WalletBudget maker token, (maker, token)) ∧ WalletBudget maker token ∈ accounts.
Proof.
  unfold wallets_of. rewrite list_elem_of_omap. split.
  - intros (a & Ha & Hw). destruct a as [maker token|]; [|done]. injection Hw as <-. eauto.
  - intros (maker & token & -> & Ha). by exists (WalletBudget maker token).
Qed.

Lemma pulled_pairs ws :
  (∀ w, w ∈ ws → ∃ maker token, w = (WalletBudget maker token, (maker, token))) →
  zip_with (λ w read, (w.1, Z.min (ba_balance read) (ba_allowance read))) ws ((λ a, mk_balance (holds a.1 a.2) (lets a.1 a.2 aqua)) <$> ws.*2)
  = (λ w, (w.1, payable w.1)) <$> ws.
Proof.
  induction ws as [|w ws IH]; intros Hw; [done|]. rewrite !fmap_cons. cbn [zip_with]. rewrite IH by (intros; apply Hw; by right).
  destruct (Hw w ltac:(left)) as (maker & token & ->). done.
Qed.

Lemma pullables_exact accounts m :
  wallet_pullables balances_of allowances_of aqua (wallets_of accounts) = Ok m →
  ∀ a, m !! a = match a with WalletBudget _ _ => if decide (a ∈ accounts) then Some (payable a) else None | StrategyVirtual _ _ _ => None end.
Proof.
  unfold wallet_pullables. destruct (read_balance_allowances _ _ _ _) as [reads|] eqn:Hr; [|done]. cbn [map_err mbind result_bind].
  apply reads_exact in Hr as ->. intros [= <-] a. rewrite pulled_pairs by (intros w (maker & token & -> & _)%wallets_of_elem; eauto).
  set (l := reverse _). assert (Hin : ∀ k v, (k, v) ∈ l ↔ (∃ maker token, k = WalletBudget maker token) ∧ k ∈ accounts ∧ v = payable k).
  { intros k v. unfold l. rewrite elem_of_reverse, list_elem_of_fmap. split.
    - intros (w & Heq & Hw). apply wallets_of_elem in Hw as (maker & token & Hw & Ha). subst w. injection Heq as -> ->. eauto.
    - intros ((maker & token & ->) & Ha & ->). exists (WalletBudget maker token, (maker, token)). split; [done|]. apply wallets_of_elem. eauto. }
  destruct a as [maker token|maker hash token]; [case_decide as Ha|].
  - apply elem_of_list_to_map_1'; [|apply Hin; naive_solver]. intros y Hy%Hin. naive_solver.
  - apply not_elem_of_list_to_map_1. intros ([k v] & Hk & (? & ? & _)%Hin)%list_elem_of_fmap. cbn in Hk. naive_solver.
  - apply not_elem_of_list_to_map_1. intros ([k v] & Hk & (? & ? & _)%Hin)%list_elem_of_fmap. cbn in Hk. naive_solver.
Qed.

Lemma virtuals_exact accounts (m : gmap AccountKey U256) a :
  foldl (insert_virtual app snapshot) m accounts !! a =
  match a with StrategyVirtual _ _ _ => if decide (a ∈ accounts) then Some (payable a) else m !! a | WalletBudget _ _ => m !! a end.
Proof.
  revert m. induction accounts as [|x accounts IH]; intros m; cbn [foldl].
  { destruct a; [done|]. by rewrite decide_False by apply not_elem_of_nil. }
  rewrite IH. destruct a as [maker token|maker hash token], x as [m' t'|m' h' t']; cbn [insert_virtual]; try done.
  - by rewrite lookup_insert_ne.
  - repeat case_decide; try done; set_solver.
  - destruct (decide (StrategyVirtual maker hash token = StrategyVirtual m' h' t')) as [[= -> -> ->]|Hne].
    + rewrite lookup_insert_eq, (decide_True (P := _ ∈ _ :: _)) by set_solver. by destruct (decide _).
    + rewrite lookup_insert_ne by done. repeat case_decide; try done; set_solver.
Qed.

(** the budgets of a set of accounts, read in bulk, are for exactly those accounts what reading each of them
    alone gives: a wallet can pay the lesser of what it holds and what it lets Aqua take, an active
    strategy what is left of its balance, and a docked one nothing. *)
Theorem bulk_budgets_agree accounts m :
  alloy_budgets balances_of allowances_of aqua app snapshot accounts = Ok m →
  (∀ a, m !! a = if decide (a ∈ accounts) then Some (payable a) else None)
  ∧ (∀ a x, alloy_budget balance_and_allowance aqua app snapshot a = Ok x → x = payable a)
  ∧ (∀ maker hash token s, strategies snapshot !! mk_strategy_key maker app hash = Some s →
       payable (StrategyVirtual maker hash token) = if active s then balance s token else 0).
Proof.
  unfold alloy_budgets. destruct (wallet_pullables _ _ _ _) as [wallets|] eqn:Hw; [|done]. cbn [mbind result_bind]. intros [= <-]. split_and!.
  - intros a. rewrite virtuals_exact. pose proof (pullables_exact _ _ Hw a) as Ha. by destruct a; rewrite Ha.
  - intros [maker token|maker hash token] x; cbn [alloy_budget payable]; [|by intros [= <-]].
    destruct (balance_and_allowance _ _ _) as [[b l]|] eqn:Hb; [|done]. cbn. apply (same_block_read Hwallets) in Hb as [-> ->]. by intros [= <-].
  - intros maker hash token s Hs. cbn. unfold virtual_budget. by rewrite Hs.
Qed.

End budgets.

(** ** A concrete chain *)

Definition aqua_log (block index hash : Z) : RpcLog := mk_log 9 [hash] [] (Some (block * 100)) (Some block) (Some (block * 10)) (Some 0) (Some index) false.

(** A log of another contract, and one of another application, are among them. *)
Definition demo_logs : list RpcLog := [aqua_log 1 0 50; aqua_log 5 2 51; mk_log 8 [52] [] (Some 500) (Some 5) (Some 50) (Some 0) (Some 3) false; aqua_log 5 4 7; aqua_log 12 1 53].

Definition demo_decode (topics data : list Z) : option IAquaEvents :=
  match topics with [h] => if h =? 7 then Some (AbiDocked 4 3 h) else Some (AbiPushed 4 2 h 6 1000) | _ => None end.

(** The first attempt at every request fails. *)
Definition demo_get_logs (addresses : list Address) (from to_ : Z) (attempt : nat) : result string (list RpcLog) :=
  match attempt with O => Err "timeout"%string | S _ => Ok (filter (asked addresses (from, to_)) demo_logs) end.

Lemma demo_node_ok : node_ok demo_get_logs reverse 3 2 demo_logs.
Proof.
  split; [intros l; apply reverse_Permutation| |lia|lia|].
  - intros addresses from to_ [|n] l; [done|]. by intros [= <-].
  - intros log Hl. repeat (apply elem_of_cons in Hl as [->|Hl]; [vm_compute; reflexivity|]). by apply elem_of_nil in Hl.
Qed.

Definition demo_pushed (block index hash : Z) : EventExt :=
  mk_ext (Pushed 4 2 hash 6 1000) 9 (Some (block * 100)) (Some block) (Some (block * 10)) (Some 0) (Some index) false.

Lemma demo_chain_events : chain_events demo_decode 9 2 demo_logs = [demo_pushed 1 0 50; demo_pushed 5 2 51; demo_pushed 12 1 53].
Proof. vm_compute. reflexivity. Qed.

Lemma demo_chain_sorted : StronglySorted pos_lt (chain_events demo_decode 9 2 demo_logs).
Proof. rewrite demo_chain_events. repeat constructor; unfold pos_lt; cbn; lia. Qed.

Lemma demo_chain_mined e : e ∈ chain_events demo_decode 9 2 demo_logs → mined e.
Proof. rewrite demo_chain_events. intros He. repeat (apply elem_of_cons in He as [->|He]; [done|]). by apply elem_of_nil in He. Qed.

Lemma indexer_reads_the_chain_witness :
  get_block_ranges 2 20 3 = [(2, 5); (6, 9); (10, 13); (14, 17); (18, 20)]
  ∧ alloy_fetch demo_get_logs reverse 3 2 demo_decode 9 2 2 20 = Ok [demo_pushed 5 2 51; demo_pushed 12 1 53].
Proof.
  split; [vm_compute; reflexivity|].
  destruct (indexer_reads_the_chain demo_get_logs reverse 3 2 demo_decode 9 2 demo_logs demo_node_ok demo_chain_sorted demo_chain_mined 2 20 ltac:(lia))
    as (_ & Hread & _). rewrite Hread; [vm_compute; reflexivity|lia|].
  intros r _. exists 1%nat. eexists. split; [unfold MAX_RETRY_ATTEMPTS; lia|reflexivity].
Defined.

Definition demo_holds (owner token : Address) : U256 := owner * 100 + token.
Definition demo_lets (owner token spender : Address) : U256 := 250.

Definition demo_balances (l : list (Address * Address)) : result string (list U256) := Ok ((λ a, demo_holds a.1 a.2) <$> l).
Definition demo_allowances (spender : Address) (l : list (Address * Address)) : result string (list U256) := Ok ((λ a, demo_lets a.1 a.2 spender) <$> l).
Definition demo_same_block (owner token spender : Address) : result string (U256 * U256) := Ok (demo_holds owner token, demo_lets owner token spender).

Lemma demo_wallets_ok : wallets_ok demo_balances demo_allowances demo_same_block demo_holds demo_lets.
Proof. split; intros *; unfold demo_balances, demo_allowances, demo_same_block; [by intros [= <-]|by intros [= <-]|by intros [= <- <-]]. Qed.

Definition demo_accounts : list AccountKey := [WalletBudget 1 5; WalletBudget 4 6; StrategyVirtual 4 50 6; WalletBudget 1 5].

Definition demo_budgets : gmap AccountKey U256 := list_to_map [(WalletBudget 1 5, 105); (WalletBudget 4 6, 250); (StrategyVirtual 4 50 6, 0)].

Lemma demo_budgets_read : alloy_budgets demo_balances demo_allowances 9 2 snapshot_default demo_accounts = Ok demo_budgets.
Proof. vm_compute. reflexivity. Qed.

Lemma bulk_budgets_agree_witness :
  alloy_budgets demo_balances demo_allowances 9 2 snapshot_default demo_accounts = Ok demo_budgets
  ∧ demo_budgets !! WalletBudget 4 6 = Some (payable demo_holds demo_lets 9 2 snapshot_default (WalletBudget 4 6)).
Proof.
  split; [exact demo_budgets_read|].
  exact (proj1 (bulk_budgets_agree demo_balances demo_allowances demo_same_block demo_holds demo_lets demo_wallets_ok 9 2 snapshot_default
    demo_accounts demo_budgets demo_budgets_read) (WalletBudget 4 6)).
Defined.
