(* ===== verification/Settling.v ===== *)
(** * Executing and settling fills

    [execution/service.rs] (simulate and submit a reserved plan, drive every tracked fill
    to its end) and [reconcile/service.rs] (settle the trades of the fills that ended, then
    sweep the holds whose time elapsed without a fill), on the state they share: the
    ledger, the trades, the executor and the guarded strategies.

    Receipts, clocks and the market are read from outside and given as arguments; each
    call leaves whatever it had written before an early return. *)

From stdpp Require Import strings.
From S2P Require Import Prelude Commands U256 Reservation LedgerEngine LedgerStore LedgerService Ratio CurveDecode Curves Registry Candidates Trade Fills.

#[local] Open Scope Z_scope.

(** The variants of the public error that reach these services. *)
Inductive BackendError : Type :=
| BLedger (e : SolventError)
| BTrades
| BExecution
| BSettlement
| BFillBuilder.

Record PendingFill := mk_pending_fill { pf_tx : FillTx; pf_reservation : ReservationId }.

Inductive FillOutcome : Type := FillSubmitted (handle : ExecHandle) | FillRejected (reason : string).

Inductive SettledOutcome : Type := SettledConfirmed (tx : B256) (block : Z) | SettledFailed.

Record Settled := mk_settled { sd_intent : IntentId; sd_outcome : SettledOutcome }.

Section backend.
Context {LSt TSt ESt : Type} `{HS : LedgerStore LSt} `{HT : TradeStore TSt} `{HE : Execution ESt}.

Record Backend := mk_backend {
  be_ledger : LedgerService LSt;
  be_trades : TSt;
  be_exec : ESt;
  be_guards : GuardSnapshot
}.

Definition put_ledger (s : Backend) (l : LedgerService LSt) : Backend := mk_backend l (be_trades s) (be_exec s) (be_guards s).
Definition put_trades (s : Backend) (t : TSt) : Backend := mk_backend (be_ledger s) t (be_exec s) (be_guards s).
Definition put_exec (s : Backend) (e : ESt) : Backend := mk_backend (be_ledger s) (be_trades s) e (be_guards s).

Definition with_ledger {A} (c : cmd (LedgerService LSt) SolventError A) : cmd Backend BackendError A := zoom be_ledger put_ledger BLedger c.
Definition with_trades {A} (c : cmd TSt TradeStoreError A) : cmd Backend BackendError A := zoom be_trades put_trades (λ _, BTrades) c.
Definition with_exec {A} (c : cmd ESt ExecutionError A) : cmd Backend BackendError A := zoom be_exec put_exec (λ _, BExecution) c.

(** ** The execution service *)

Definition fill (pending : PendingFill) : cmd Backend BackendError FillOutcome :=
  verdict ← with_exec (simulate (pf_tx pending));
  match verdict with
  | SimReject reason => _ ← with_ledger (LedgerService.void (pf_reservation pending)); mret (FillRejected reason)
  | SimOk => handle ← with_exec (exec_submit (pf_tx pending) (pf_reservation pending)); mret (FillSubmitted handle)
  end.

(** An already-terminal reservation counts as settled. *)
Definition settle_result (r : result BackendError unit) : result BackendError unit :=
  match r with Err (BLedger (LedgerRefused (WrongState _ _ _))) => Ok tt | other => other end.

Definition settle_command (c : cmd (LedgerService LSt) SolventError unit) : cmd Backend BackendError unit :=
  r ← attempt (with_ledger c); lift (settle_result r).

Definition settle_confirmed (receipt : B256 → result unit (option (list AquaEvent))) (f : TrackedFill) (tx : B256) :
    cmd Backend BackendError unit :=
  l ← gets be_ledger;
  match reservation_sources l (tf_reservation f) with
  | Some sources =>
      filled ← lift (map_err (λ _, BSettlement) (settled receipt tx sources));
      settle_command (LedgerService.post (tf_reservation f) filled)
  | None => mret tt
  end.

Fixpoint reconcile_fills (receipt : B256 → result unit (option (list AquaEvent))) (fills : list TrackedFill) (ended : list Settled) :
    cmd Backend BackendError (list Settled) :=
  match fills with
  | [] => mret ended
  | f :: fills' =>
      status ← with_exec (exec_status (tf_intent f));
      match status with
      | None | Some ExecPending => reconcile_fills receipt fills' ended
      | Some (ExecConfirmed block tx) =>
          _ ← settle_confirmed receipt f tx;
          reconcile_fills receipt fills' (ended ++ [mk_settled (tf_intent f) (SettledConfirmed tx block)])
      | Some (ExecFailed _) | Some ExecDropped =>
          _ ← settle_command (LedgerService.void (tf_reservation f));
          reconcile_fills receipt fills' (ended ++ [mk_settled (tf_intent f) SettledFailed])
      end
  end.

Definition reconcile (receipt : B256 → result unit (option (list AquaEvent))) : cmd Backend BackendError (list Settled) :=
  _ ← with_exec exec_tick;
  tracked ← with_exec exec_tracked;
  reconcile_fills receipt tracked [].

Definition forget (intent : IntentId) : cmd Backend BackendError unit := with_exec (exec_forget intent).

Definition on_reorg (reservation : ReservationId) : cmd Backend BackendError unit := with_ledger (LedgerService.void_reorg reservation).

(** How many fills are still in flight. *)
Definition pending : cmd Backend BackendError nat := tracked ← with_exec exec_tracked; mret (length tracked).

Definition tracked_reservations : cmd Backend BackendError (gset ReservationId) :=
  tracked ← with_exec exec_tracked; mret (list_to_set (tf_reservation <$> tracked)).

(** ** The reconcile service *)

Record ReconcileReport := mk_reconcile_report { rep_settled : nat; rep_swept : nat }.

(** A terminal [Failed] settlement. *)
Definition failed (now : Z) : Settlement := mk_settlement Failed None None None now.

(** Apply a settlement to the trade of an order; an order without a trade is skipped. *)
Definition apply_settlement (intent : IntentId) (settlement : Trade → Settlement) : cmd Backend BackendError unit :=
  found ← with_trades (find_by_order intent);
  match found with
  | None => mret tt
  | Some trade => with_trades (trade_settle (t_id trade) (settlement trade))
  end.

Definition settlement_of (now : Z) (o : SettledOutcome) (trade : Trade) : Settlement :=
  match o with
  | SettledConfirmed tx block => mk_settlement Confirmed (Some (min_amount_out trade)) (Some tx) (Some block) now
  | SettledFailed => failed now
  end.

Definition settle_fill_trade (f : Settled) (now : Z) : cmd Backend BackendError unit :=
  apply_settlement (sd_intent f) (settlement_of now (sd_outcome f)).

Fixpoint settle_all (ended : list Settled) (now : Z) : cmd Backend BackendError unit :=
  match ended with
  | [] => mret tt
  | f :: ended' => _ ← settle_fill_trade f now; _ ← forget (sd_intent f); settle_all ended' now
  end.

Fixpoint fail_all (swept : list IntentId) (now : Z) : cmd Backend BackendError unit :=
  match swept with
  | [] => mret tt
  | i :: swept' => _ ← apply_settlement i (λ _, failed now); fail_all swept' now
  end.

(** One pass: the receipts, the clock, and the ledger's clock at the sweep. *)
Definition reconcile_tick (receipt : B256 → result unit (option (list AquaEvent))) (now sweep_now : Z) :
    cmd Backend BackendError ReconcileReport :=
  ended ← reconcile receipt;
  _ ← settle_all ended now;
  in_flight ← tracked_reservations;
  swept ← with_ledger (sweep_expired sweep_now in_flight);
  _ ← fail_all swept now;
  mret (mk_reconcile_report (length ended) (length swept)).

End backend.
Arguments Backend : clear implicits.
Arguments mk_backend {LSt TSt ESt} _ _ _ _.
