(* ===== verification/Swap.v ===== *)
(** * The swap service

    [swap/service.rs]: the decision loop for one signed order.  Route it exact-out,
    record the trade, reserve the plan under the admission lock of the guard, and submit
    the fill.  The market, the clocks, the gas cost, the fill builder and the hash are
    read from outside. *)

From stdpp Require Import strings.
From S2P Require Import Prelude Commands U256 Reservation LedgerEngine LedgerStore LedgerService Ratio CurveDecode Curves Registry Candidates Waterfill Routing Intent Trade Fills Settling.

#[local] Open Scope Z_scope.

Record SwapConfig := mk_swap_config {
  swap_routing : RoutingConfig;
  swap_chain_id : Z;
  swap_filler_owner : Address;
  swap_reservation_ttl_secs : Z
}.

Record SwapOutcome := mk_swap_outcome { so_trade_id : TradeId; so_status : TradeStatus }.

Record TradePrices := mk_trade_prices { token_in_usd : option Z; token_out_usd : option Z }.

Record SwapAmounts := mk_swap_amounts { sa_token_in : Address; sa_token_out : Address; sa_amount_in : U256; sa_min_out : U256 }.

Record SwapOutput := mk_swap_output { so_token : Address; so_amount : U256 }.

Definition primary_output (intent : Intent) (now : Z) : option SwapOutput :=
  o ← head (int_outputs intent); Some (mk_swap_output (out_token o) (amount_at (out_curve o) now)).

Definition swap_amounts (intent : Intent) (now : Z) : option SwapAmounts :=
  output ← primary_output intent now;
  Some (mk_swap_amounts (inp_token (int_input intent)) (so_token output) (amount_at (inp_curve (int_input intent)) now) (so_amount output)).

Definition reservation_preimage (intent : IntentId) (plan : RoutePlan) : list Z :=
  be_bytes 32 intent
  ++ (plan_legs plan ≫= λ leg, be_bytes 20 (leg_maker leg) ++ be_bytes 32 (leg_hash leg)
                                 ++ be_bytes 20 (leg_token_out leg) ++ be_bytes 32 (leg_out leg)).

Definition reservation_id (keccak256 : list Z → B256) (intent : IntentId) (plan : RoutePlan) : ReservationId :=
  keccak256 (reservation_preimage intent plan).

Definition sources_of (plan : RoutePlan) : list ReservationSource :=
  (λ leg, Build_ReservationSource (leg_maker leg) (leg_hash leg) (leg_token_out leg) (leg_out leg)) <$> plan_legs plan.

Definition trade_legs (plan : RoutePlan) : list TradeLeg :=
  (λ leg, mk_trade_leg (leg_maker leg) (leg_hash leg) (leg_in leg) (leg_out leg)) <$> plan_legs plan.

Definition reached (now : Z) (stages : list TradeStatus) : list TradeAttempt := (λ s, mk_attempt s now) <$> stages.

Definition plan_is_guarded (plan : RoutePlan) (snapshot : Snapshot) (guards : GuardSnapshot) : bool :=
  existsb (λ leg, existsb (λ s, (key_maker (strat_key s) =? leg_maker leg) && (key_hash (strat_key s) =? leg_hash leg)
                                && is_guarded guards (strat_key s)) (values (strategies snapshot))) (plan_legs plan).

(** The trade that records an intent. *)
Definition new_trade (id : TradeId) (intent : Intent) (taker : Address) (amounts : SwapAmounts) (plan : option RoutePlan) (now : Z)
    (status : TradeStatus) (prices : TradePrices) : Trade :=
  mk_trade id (int_id intent) taker (sa_token_in amounts) (sa_token_out amounts) (sa_amount_in amounts) (sa_min_out amounts) None
    status (int_deadline intent) (Some (int_signature intent)) (plan_impact_bps <$> plan) (expected_profit <$> plan) None None now None
    (token_in_usd prices) (token_out_usd prices).

Record PreparedFill := mk_prepared { pre_target : Address; pre_calldata : list Z }.

(** What a submission reads from outside: the clocks, the book it routes against (the registry, the room and the guards as
    they were when it read them), the budgets and the fill builder. *)
Record SwapWorld := mk_swap_world {
  sw_now : Z;
  sw_snapshot : Snapshot;
  sw_caps : AvailableSnapshot;
  sw_guards : GuardSnapshot;
  sw_leg_cost : RouteRequest → U256;
  sw_budget_of : AccountKey → result SolventError U256;
  sw_ledger_now : Z;
  sw_build : Intent → RoutePlan → Snapshot → result unit PreparedFill
}.

Section swap.
Context {LSt TSt ESt : Type} `{HS : LedgerStore LSt} `{HT : TradeStore TSt} `{HE : Execution ESt}.
Context (keccak256 : list Z → B256) (config : SwapConfig).
Abbreviation Backend := (Backend LSt TSt ESt).
Abbreviation swap_cmd := (cmd Backend BackendError).

Definition settle_swap (id : TradeId) (status : TradeStatus) (at_ : Z) : swap_cmd unit :=
  with_trades (trade_settle id (mk_settlement status None None None at_)).

Definition declined (trade_id : TradeId) (intent : Intent) (taker : Address) (now : Z) (prices : TradePrices) : swap_cmd SwapOutcome :=
  let output := primary_output intent now in
  let amounts := mk_swap_amounts (inp_token (int_input intent)) (from_option so_token 0 output)
                   (amount_at (inp_curve (int_input intent)) now) (from_option so_amount 0 output) in
  created ← with_trades (trade_create (new_trade trade_id intent taker amounts None now Declined prices) [] (reached now [Created; Declined]));
  _ ← settle_swap (cr_id created) Declined now;
  mret (mk_swap_outcome (cr_id created) Declined).

(** The check and the reservation are one step for the guard: its admission lock is held over both. *)
Definition reserve_or_decline (w : SwapWorld) (id : TradeId) (intent_id : IntentId) (reservation : ReservationId) (plan : RoutePlan) :
    swap_cmd (option SwapOutcome) :=
  guards ← gets be_guards;
  if plan_is_guarded plan (sw_snapshot w) guards then
    _ ← settle_swap id Declined (sw_now w);
    mret (Some (mk_swap_outcome id Declined))
  else
    result ← attempt (with_ledger (LedgerService.reserve (sw_budget_of w) (sw_ledger_now w) reservation intent_id (sources_of plan)
                                     (swap_reservation_ttl_secs config)));
    match result with
    | Ok _ => mret None
    | Err (BLedger (LedgerRefused (Insufficient _))) =>
        _ ← settle_swap id Declined (sw_now w);
        mret (Some (mk_swap_outcome id Declined))
    | Err e => fail e
    end.

Definition submit_fill (w : SwapWorld) (id : TradeId) (intent : Intent) (plan : RoutePlan) (reservation : ReservationId) :
    swap_cmd SwapOutcome :=
  prepared ← lift (map_err (λ _, BFillBuilder) (sw_build w intent plan (sw_snapshot w)));
  let pending := mk_pending_fill (FillTx_new (int_id intent) (swap_chain_id config) (swap_filler_owner config) (pre_target prepared)
                                    (pre_calldata prepared)) reservation in
  outcome ← Settling.fill pending;
  match outcome with
  | FillSubmitted _ =>
      _ ← with_trades (trade_advance id Simulated (sw_now w));
      _ ← with_trades (trade_advance id Submitted (sw_now w));
      mret (mk_swap_outcome id Submitted)
  | FillRejected _ => _ ← settle_swap id Declined (sw_now w); mret (mk_swap_outcome id Declined)
  end.

(** The plan of an intent against the book that was read. *)
Definition swap_request (intent : Intent) (amounts : SwapAmounts) : RouteRequest :=
  mk_request (int_id intent) (sa_token_in amounts) (sa_token_out amounts) (sa_min_out amounts) false.

Definition swap_route (w : SwapWorld) (intent : Intent) (amounts : SwapAmounts) : option RoutePlan :=
  let request := swap_request intent amounts in
  route (mk_routing_book (sw_snapshot w) (sw_caps w) (sw_guards w)) request
    (default (sa_amount_in amounts) (routing_input_limit intent)) (swap_routing config) (sw_leg_cost w request) None.

Definition in_flight_status (s : TradeStatus) : bool := match s with Created | Quoted => false | _ => true end.

(** Reserve and fill a recorded plan. *)
Definition drive (w : SwapWorld) (id : TradeId) (intent : Intent) (plan : RoutePlan) : swap_cmd SwapOutcome :=
  let reservation := reservation_id keccak256 (int_id intent) plan in
  d ← reserve_or_decline w id (int_id intent) reservation plan;
  match d with
  | Some outcome => mret outcome
  | None =>
      _ ← with_trades (trade_advance id Reserved (sw_now w));
      submit_fill w id intent plan reservation
  end.

Definition submit (w : SwapWorld) (intent : Intent) (taker : Address) (trade_id : TradeId) (prices : TradePrices) : swap_cmd SwapOutcome :=
  let now := sw_now w in
  match swap_amounts intent now with
  | None => declined trade_id intent taker now prices
  | Some amounts =>
      match swap_route w intent amounts with
      | None => declined trade_id intent taker now prices
      | Some plan =>
          created ← with_trades (trade_create (new_trade trade_id intent taker amounts (Some plan) now Quoted prices) (trade_legs plan)
                                   (reached now [Created; Quoted]));
          if cr_created created then drive w (cr_id created) intent plan
          else
            info ← with_trades (trade_info (cr_id created));
            let status := match info with Some i => status (info_trade i) | None => Quoted end in
            if in_flight_status status then mret (mk_swap_outcome (cr_id created) status)
            else drive w (cr_id created) intent plan
      end
  end.

End swap.
