(* ===== verification/SwapInvariant.v ===== *)
(** * The invariant of the swap pipeline

    What ties the trades, the ledger's holds and the fills in flight together: every fill
    in flight belongs to a recorded order that will not be driven again, it is backed by a
    reservation whose id is derived from that order, and a swap's hold is always the hold of
    a recorded trade. *)

From stdpp Require Import strings.
From S2P Require Import Prelude Commands U256 Reservation LedgerEngine LedgerInvariant LedgerProperties LedgerStore LedgerService LedgerHolds Ratio CurveDecode Curves Registry Candidates Waterfill Routing Intent Trade Fills Settling Swap.

#[local] Open Scope Z_scope.

(** ** Trades *)

(** The order has a trade that a submission does not drive again. *)
Definition busy (v : TradeView) (i : IntentId) : Prop :=
  ∃ id rec, of_order v i id rec ∧ in_flight_status (status (tr_trade rec)) = true.

(** A settled trade is one of those. *)
Definition final (v : TradeView) : Prop :=
  ∀ id rec at_, v !! id = Some rec → settled_at (tr_trade rec) = Some at_ → in_flight_status (status (tr_trade rec)) = true.

Definition recorded (v : TradeView) (i : IntentId) : Prop := ∃ id rec, of_order v i id rec.

Lemma in_flight_rank s : in_flight_status s = true ↔ 2 ≤ rank s.
Proof. by destruct s. Qed.

Lemma follows_order v v' i id rec :
  follows v v' → of_order v i id rec → ∃ rec', of_order v' i id rec' ∧ moves (tr_trade rec) (tr_trade rec') ∧ tr_legs rec' = tr_legs rec.
Proof.
  intros Hf [Hr <-]. destruct (Hf id rec Hr) as (rec' & Hr' & Hm & Hl & _). exists rec'.
  split; [|done]. split; [done|]. apply Hm.
Qed.

Lemma follows_recorded v v' i : follows v v' → recorded v i → recorded v' i.
Proof. intros Hf (id & rec & Ho). destruct (follows_order _ _ _ _ _ Hf Ho) as (rec' & Ho' & _). by exists id, rec'. Qed.

Lemma follows_busy v v' i : follows v v' → final v' → busy v i → busy v' i.
Proof.
  intros Hf Hfin (id & rec & Ho & Hs). destruct (follows_order _ _ _ _ _ Hf Ho) as (rec' & Ho' & Hm & _).
  exists id, rec'. split; [done|]. destruct (settled_at (tr_trade rec')) as [a|] eqn:Ha; [by eapply Hfin; [apply Ho'|]|].
  apply in_flight_rank. apply in_flight_rank in Hs. etrans; [exact Hs|]. by apply Hm.
Qed.

Lemma final_alter f id v :
  (∀ rec, settled_at (tr_trade (f rec)) = None ∨ in_flight_status (status (tr_trade (f rec))) = true ∨ tr_trade (f rec) = tr_trade rec) →
  final v → final (alter f id v).
Proof.
  intros Hf Hfin id' rec a Hr Ha. destruct (decide (id' = id)) as [->|Hne].
  - rewrite lookup_alter_eq in Hr. destruct (v !! id) as [rec0|] eqn:Hr0; [|done]. cbn in Hr. injection Hr as <-.
    destruct (Hf rec0) as [Hn|[?|Heq]]; [congruence|done|]. rewrite Heq in *. by eapply Hfin.
  - rewrite lookup_alter_ne in Hr by done. by eapply Hfin.
Qed.

Lemma final_advance id s at_ v : final v → final (view_advance id s at_ v).
Proof.
  apply final_alter. intros rec. cbn. unfold advance_trade. destruct (settled_at (tr_trade rec)) as [a|] eqn:E; [by do 2 right|].
  left. by case_match.
Qed.

Lemma final_settle id o v : in_flight_status (set_status o) = true → final v → final (view_settle id o v).
Proof.
  intros Ho. apply final_alter. intros rec. cbn. unfold settle_trade.
  destruct (settled_at (tr_trade rec)) as [a|] eqn:E; [by do 2 right|by right; left].
Qed.

Lemma final_create t legs attempts v : settled_at t = None → final v → final (view_create t legs attempts v).
Proof. intros Ht Hfin id rec a Hr Ha. unfold view_create in Hr. apply lookup_insert_Some in Hr as [[<- <-]|[_ Hr]]; [cbn in Ha; by rewrite Ht in Ha|by eapply Hfin]. Qed.

(** ** The invariant *)

Section invariant.
Context {LSt TSt ESt : Type} `{HS : LedgerStore LSt} `{HL : !LedgerStoreLaws LSt} `{HT : TradeStore TSt} `{HTL : !TradeStoreLaws TSt}.
Context `{HE : Execution ESt} `{HEL : !ExecutionLaws ESt}.
Context (keccak256 : list Z → B256).
(** The hash tells the orders of two reservations apart. *)
Hypothesis ids_distinct : ∀ i plan i' plan', is_u256 i → is_u256 i' →
  reservation_id keccak256 i plan = reservation_id keccak256 i' plan' → i = i'.
Abbreviation Backend := (Backend LSt TSt ESt).
Implicit Types (s : Backend) (i : IntentId) (r : ReservationId).

Definition trades s : TradeView := trade_view (be_trades s).
Definition flights s : gmap IntentId ReservationId := inflight (be_exec s).
Definition swap_holds s : gmap ReservationId Reservation := holds (be_ledger s).

(** [r] is a reservation id of order [i]. *)
Definition swap_id i r : Prop := is_u256 i ∧ ∃ plan, r = reservation_id keccak256 i plan.

Record swap_ok s : Prop := {
  so_ledger : service_ok (be_ledger s);
  so_trades : trade_store_ok (be_trades s);
  so_exec : exec_ok (be_exec s);
  so_final : final (trades s);
  so_tracked : ∀ i r, flights s !! i = Some r → swap_id i r ∧ busy (trades s) i;
  so_owned : ∀ i r x, swap_id i r → swap_holds s !! r = Some x → res_owner x = Swap i;
  so_swaps : ∀ i r x, swap_holds s !! r = Some x → res_owner x = Swap i →
    swap_id i r ∧ res_state x ≠ Committed ∧ recorded (trades s) i
}.

Lemma swap_id_inj i i' r : swap_id i r → swap_id i' r → i = i'.
Proof using ids_distinct. intros [Hi (plan & ->)] [Hi' (plan' & Heq)]. by eapply ids_distinct. Qed.

(** Two fills in flight never share a reservation. *)
Lemma flights_distinct s i i' r : swap_ok s → flights s !! i = Some r → flights s !! i' = Some r → i = i'.
Proof using ids_distinct.
  intros Hok Hi Hi'. apply (swap_id_inj _ _ r); [by apply (so_tracked _ Hok)..].
Qed.

(** ** Changing one part *)

Lemma swap_ok_trades s t :
  swap_ok s → trade_store_ok t → follows (trades s) (trade_view t) → final (trade_view t) → swap_ok (put_trades s t).
Proof.
  intros [] Ht Hf Hfin. constructor; try done.
  - intros i r Hi. destruct (so_tracked0 i r Hi) as [? Hb]. split; [done|by eapply follows_busy].
  - intros i r x Hx Ho. destruct (so_swaps0 i r x Hx Ho) as (? & ? & ?). split_and!; [done..|by eapply follows_recorded].
Qed.

Lemma swap_ok_exec s e :
  swap_ok s → exec_ok e → (∀ i r, inflight e !! i = Some r → flights s !! i = Some r ∨ swap_id i r ∧ busy (trades s) i) →
  swap_ok (put_exec s e).
Proof. intros [] He Hin. constructor; try done. intros i r [?|?]%Hin; auto. Qed.

(** Each hold is an old one in some state, or a new one of a recorded order. *)
Definition owners_kept s (l : LedgerService LSt) : Prop :=
  ∀ r x, holds l !! r = Some x →
    (∃ y, swap_holds s !! r = Some y ∧ res_owner x = res_owner y ∧ (res_state x = Committed → res_state y = Committed))
    ∨ ∃ i, res_owner x = Swap i ∧ res_state x ≠ Committed ∧ swap_id i r ∧ recorded (trades s) i.

Lemma swap_ok_ledger s l : swap_ok s → service_ok l → owners_kept s l → swap_ok (put_ledger s l).
Proof using ids_distinct.
  intros [] Hl Hk. constructor; try done.
  - intros i r x Hi Hx. destruct (Hk r x Hx) as [(y & Hy & -> & _)|(i' & -> & _ & Hi' & _)]; [by eapply so_owned0|].
    f_equal. by eapply swap_id_inj.
  - intros i r x Hx Ho. destruct (Hk r x Hx) as [(y & Hy & Howner & Hst)|(i' & Hi' & Hc & Hid & Hrec)].
    2: { rewrite Ho in Hi'. by injection Hi' as <-. }
    rewrite Howner in Ho. destruct (so_swaps0 i r y Hy Ho) as (? & Hc & ?). split_and!; auto.
Qed.

Lemma owners_kept_refl s : owners_kept s (be_ledger s).
Proof. intros r x Hx. left. by exists x. Qed.

(** A hold changes state, but not to committed. *)
Lemma owners_kept_move s l r y to :
  swap_holds s !! r = Some y → to ≠ Committed → holds l = <[r := with_state y to]> (swap_holds s) → owners_kept s l.
Proof.
  intros Hy Hto Hh r' x. rewrite Hh. intros [[<- <-]|[_ Hx]]%lookup_insert_Some; left; [by exists y|by exists x].
Qed.

Lemma owners_kept_same s l : holds l = swap_holds s → owners_kept s l.
Proof. intros Hh r x Hx. rewrite Hh in Hx. left. by exists x. Qed.

End invariant.
