(* ===== verification/SwapSteps.v ===== *)
(** * Submitting an order

    The invariant of the swap pipeline through every step of a submission, whatever
    statement fails, and what a submission leaves behind. *)

From stdpp Require Import strings.
From S2P Require Import Prelude Commands U256 Reservation LedgerEngine LedgerInvariant LedgerProperties LedgerStore LedgerService LedgerHolds Ratio CurveDecode Curves Registry Candidates Waterfill Routing Intent Trade Fills Settling Swap SwapInvariant.

#[local] Open Scope Z_scope.

(** ** Well-typed inputs *)

Record intent_typed (intent : Intent) : Prop := {
  it_id : is_u256 (int_id intent);
  it_deadline : 0 ≤ int_deadline intent;
  it_outputs : Forall (λ o, curve_wf (out_curve o)) (int_outputs intent)
}.

Record world_typed (w : SwapWorld) : Prop := {
  wt_now : 0 ≤ sw_now w;
  wt_ledger_now : 0 ≤ sw_ledger_now w;
  wt_budgets : ∀ a x, sw_budget_of w a = Ok x → is_u256 x;
  wt_caps : ∀ a, is_u256 (Candidates.available (sw_caps w) a);
  wt_snapshot : snapshot_ok (sw_snapshot w);
  wt_specs : specs_ok (sw_snapshot w)
}.

Lemma swap_amounts_word intent now amounts :
  intent_typed intent → swap_amounts intent now = Some amounts → is_u256 (sa_min_out amounts).
Proof.
  intros [_ _ Hout]. unfold swap_amounts, primary_output. destruct (head (int_outputs intent)) as [o|] eqn:Ho; [|done].
  cbn. intros [= <-]. cbn. apply amount_at_word. rewrite Forall_forall in Hout. by apply Hout, head_Some_elem_of.
Qed.

(** What the legs of a plan demand of an account is within what they deliver. *)
Lemma demand_of_legs a ls :
  Forall (λ l, 0 ≤ leg_out l) ls →
  demand_at a ((λ l, Build_ReservationSource (leg_maker l) (leg_hash l) (leg_token_out l) (leg_out l)) <$> ls) ≤ zsum leg_out ls.
Proof.
  induction 1 as [|l ls Hl _ IH]; [done|]. unfold demand_at in *. rewrite fmap_cons, !zsum_cons.
  assert (source_demand a (Build_ReservationSource (leg_maker l) (leg_hash l) (leg_token_out l) (leg_out l)) ≤ leg_out l)
    by (unfold source_demand; case_decide; cbn; lia). lia.
Qed.

Lemma legs_words ls target :
  Forall (λ l, 0 ≤ leg_out l) ls → zsum leg_out ls ≤ target → Forall (λ l, leg_out l ≤ target) ls.
Proof.
  intros Hp Hs. apply Forall_forall. intros l Hl. rewrite Forall_forall in Hp.
  pose proof (zsum_elem leg_out ls l Hp Hl). lia.
Qed.

Lemma sources_reservable plan target r i e :
  is_u256 target → Forall (λ l, 0 ≤ leg_out l) (plan_legs plan) → zsum leg_out (plan_legs plan) ≤ target →
  reservation_ok (for_swap r i (sources_of plan) e).
Proof.
  intros Ht Hp Hs. pose proof (legs_words _ _ Hp Hs) as Hw. unfold reservation_ok, sources_of. cbn [res_sources for_swap Reservation_new]. split.
  - unfold amounts_ok. rewrite Forall_fmap. rewrite Forall_forall in Hp, Hw |- *. intros l Hl. cbn.
    specialize (Hp l Hl). specialize (Hw l Hl). unfold is_u256 in *. cbn in *. lia.
  - intros a. pose proof (demand_of_legs a _ Hp). unfold is_u256 in Ht. lia.
Qed.

Section steps.
Context {LSt TSt ESt : Type} `{HS : LedgerStore LSt} `{HL : !LedgerStoreLaws LSt} `{HT : TradeStore TSt} `{HTL : !TradeStoreLaws TSt}.
Context `{HE : Execution ESt} `{HEL : !ExecutionLaws ESt}.
Context (keccak256 : list Z → B256) (config : SwapConfig).
Hypothesis ids_distinct : ∀ i plan i' plan', is_u256 i → is_u256 i' →
  reservation_id keccak256 i plan = reservation_id keccak256 i' plan' → i = i'.
Hypothesis ttl_unsigned : 0 ≤ swap_reservation_ttl_secs config.
Abbreviation Backend := (Backend LSt TSt ESt).
Abbreviation ok := (swap_ok keccak256).
Implicit Types (s : Backend) (i : IntentId) (r : ReservationId).

(** A plan of the router can be reserved. *)
Lemma plan_reservable w intent amounts plan r e :
  intent_typed intent → world_typed w → swap_amounts intent (sw_now w) = Some amounts →
  swap_route config w intent amounts = Some plan →
  reservation_ok (for_swap r (int_id intent) (sources_of plan) e).
Proof.
  intros Hi Hw Ha Hr. pose proof (swap_amounts_word _ _ _ Hi Ha) as Hword.
  destruct (route_split _ (sw_caps w) _ (swap_request intent amounts) _ _ _ _ _ (wt_snapshot _ Hw) (wt_specs _ Hw) (wt_caps _ Hw) Hword Hr)
    as (sp & Hl & _ & _ & _ & _ & _ & _ & Htgt & Hlegs).
  apply (sources_reservable _ (sa_min_out amounts)); [done| |by rewrite Hl]. rewrite Hl.
  eapply Forall_impl; [exact Hlegs|]. intros l (_ & ? & _). lia.
Qed.

(** ** Trades *)

Lemma trade_settle_outcome s id o :
  ok s → settlement_typed o → in_flight_status (set_status o) = true →
  outcome (with_trades (trade_settle id o)) (λ res s', ok s' ∧ ∃ t, s' = put_trades s t ∧
    match res with
    | Ok _ => is_Some (trades s !! id) ∧ trade_view t = view_settle id o (trades s)
    | Err _ => trade_view t = trades s
    end) s.
Proof.
  intros Hok Ho Hs. apply outcome_zoom. eapply outcome_mono; [apply settle_law; [done|apply Hok]|].
  intros [[]|e] t [Ht Hv]; cbn; (split; [|by exists t]); apply swap_ok_trades; try done.
  - destruct Hv as [_ ->]. apply follows_settle.
  - destruct Hv as [_ ->]. apply final_settle; [done|apply Hok].
  - by rewrite Hv.
  - rewrite Hv. apply Hok.
Qed.

Lemma advance_outcome s id st at_ :
  ok s → 0 ≤ at_ →
  outcome (with_trades (trade_advance id st at_)) (λ res s', ok s' ∧ ∃ t, s' = put_trades s t ∧
    match res with
    | Ok _ => trade_view t = view_advance id st at_ (trades s)
    | Err _ => trade_view t = trades s
    end) s.
Proof.
  intros Hok Ha. apply outcome_zoom. eapply outcome_mono; [apply advance_law; [done|apply Hok]|].
  intros [[]|e] t [Ht Hv]; cbn; (split; [|exists t; split; [done|apply Hv]]); apply swap_ok_trades; try done.
  - destruct Hv as [_ ->]. apply follows_advance.
  - destruct Hv as [_ ->]. apply final_advance, Hok.
  - by rewrite Hv.
  - rewrite Hv. apply Hok.
Qed.

(** ** Effects of a submission on the rest *)

(** Nothing is sent, and no hold but [r0]'s is touched. *)
Record quiet r0 s s' : Prop := {
  q_follows : follows (trades s) (trades s');
  q_log : exec_log (be_exec s') = exec_log (be_exec s);
  q_flights : flights s' = flights s;
  q_guards : be_guards s' = be_guards s;
  q_holds : ∀ r, r ≠ r0 → swap_holds s' !! r = swap_holds s !! r
}.

#[local] Instance quiet_preorder r0 : PreOrder (quiet r0).
Proof.
  split; [by intros s; constructor|]. intros s1 s2 s3 [? ? ? ? H1] [? ? ? ? H2].
  constructor; [by etrans|congruence..|]. intros r Hr. by rewrite H2, H1.
Qed.

Lemma quiet_trades r0 s t : follows (trades s) (trade_view t) → quiet r0 s (put_trades s t).
Proof. intros Hf. by constructor. Qed.

Lemma quiet_ledger r0 s l : (∀ r, r ≠ r0 → holds l !! r = swap_holds s !! r) → quiet r0 s (put_ledger s l).
Proof. intros Hh. by constructor. Qed.

Lemma quiet_exec r0 s e : inflight e = flights s → exec_log e = exec_log (be_exec s) → quiet r0 s (put_exec s e).
Proof. intros Hi Hlog. by constructor. Qed.

(** A settlement or an advance, as a quiet step. *)
Lemma settle_quiet r0 s id o :
  ok s → settlement_typed o → in_flight_status (set_status o) = true →
  outcome (with_trades (trade_settle id o)) (λ res s', ok s' ∧ quiet r0 s s' ∧ swap_holds s' = swap_holds s ∧
    ∀ u, res = Ok u → is_Some (trades s !! id) ∧ trades s' = view_settle id o (trades s)) s.
Proof.
  intros Hok Ho Hs. eapply outcome_mono; [by apply trade_settle_outcome|]. intros res s' (Hok' & t & -> & Hv).
  split; [done|]. split; [apply quiet_trades|split; [done|intros u ->; apply Hv]].
  destruct res as [u|e]; [destruct Hv as [_ ->]; apply follows_settle|by rewrite Hv].
Qed.

Lemma advance_quiet r0 s id st at_ :
  ok s → 0 ≤ at_ →
  outcome (with_trades (trade_advance id st at_)) (λ res s', ok s' ∧ quiet r0 s s' ∧ be_ledger s' = be_ledger s ∧
    ∀ u, res = Ok u → trades s' = view_advance id st at_ (trades s)) s.
Proof.
  intros Hok Ha. eapply outcome_mono; [by apply advance_outcome|]. intros res s' (Hok' & t & -> & Hv).
  split; [done|]. split; [apply quiet_trades|split; [done|intros u ->; apply Hv]].
  destruct res as [u|e]; rewrite Hv; [apply follows_advance|done].
Qed.

(** ** Reserving and releasing *)

Lemma reserve_step w s i plan :
  let r0 := reservation_id keccak256 i plan in
  let x := for_swap r0 i (sources_of plan) (u64_saturating_add (sw_ledger_now w) (swap_reservation_ttl_secs config)) in
  ok s → world_typed w → is_u256 i → recorded (trades s) i → reservation_ok x →
  outcome (with_ledger (LedgerService.reserve (sw_budget_of w) (sw_ledger_now w) r0 i (sources_of plan) (swap_reservation_ttl_secs config)))
    (λ res s', ok s' ∧ quiet r0 s s' ∧ trades s' = trades s ∧
      match res with
      | Ok _ => swap_holds s !! r0 = None ∧ swap_holds s' = <[r0 := x]> (swap_holds s)
      | Err _ => swap_holds s' = swap_holds s
      end) s.
Proof using ids_distinct ttl_unsigned.
  intros r0 x Hok Hw Hi Hrec Hx. apply outcome_zoom.
  eapply outcome_mono; [apply reserve_outcome; [apply Hok|apply Hw|apply Hw|done|exact Hx]|].
  intros res l [Hl Hres]. fold r0 x in Hres. assert (Hid : swap_id keccak256 i r0) by (split; [done|by exists plan]).
  destruct res as [u|e]; cbn.
  - destruct Hres as [Hn Hh]. split; [|split; [|by split_and!]].
    + apply swap_ok_ledger; [done..|]. intros r y. rewrite Hh. intros [[<- <-]|[_ Hy]]%lookup_insert_Some; [right|left; by exists y].
      exists i. by split_and!.
    + apply quiet_ledger. intros r Hr. by rewrite Hh, lookup_insert_ne by done.
  - split; [|split; [|by split_and!]]; [apply swap_ok_ledger; [done..|by apply owners_kept_same]|].
    apply quiet_ledger. intros r _. by rewrite Hres.
Qed.

Lemma void_step s r x :
  ok s → swap_holds s !! r = Some x → res_state x = Pending →
  outcome (with_ledger (LedgerService.void r)) (λ res s', ok s' ∧ quiet r s s' ∧ trades s' = trades s) s.
Proof using ids_distinct.
  intros Hok Hx Hp. apply outcome_zoom.
  eapply outcome_mono; [apply (void_held _ _ (res_sources x)); [apply Hok|apply reservation_sources_Some; by exists x]|].
  intros res l [Hl Hres]. destruct res as [u|e]; cbn.
  - destruct Hres as (y & Hy & Hh). split; [|split; [|done]].
    + apply swap_ok_ledger; [done..|]. eapply owners_kept_move; [exact Hy| |exact Hh]; done.
    + apply quiet_ledger. intros r' Hr. by rewrite Hh, lookup_insert_ne by done.
  - destruct Hres as [Hh _]. split; [|split; [|done]]; [apply swap_ok_ledger; [done..|by apply owners_kept_same]|].
    apply quiet_ledger. intros r' _. by rewrite Hh.
Qed.

(** ** Filling *)

(** The trade [id] of order [i], not settled, in status [st]. *)
Definition open_trade (v : TradeView) i (id : TradeId) (st : TradeStatus) : Prop :=
  ∃ rec, of_order v i id rec ∧ status (tr_trade rec) = st ∧ settled_at (tr_trade rec) = None.

Lemma open_trade_busy v i id st : open_trade v i id st → in_flight_status st = true → busy v i.
Proof. intros (rec & Ho & <- & _) Hs. by exists id, rec. Qed.

Lemma open_trade_advance v i id st st' at_ :
  open_trade v i id st → rank st < rank st' → open_trade (view_advance id st' at_ v) i id st'.
Proof.
  intros (rec & [Hr Ho] & <- & Hs) Hlt. unfold view_advance. eexists.
  split; [split; [by rewrite lookup_alter_eq, Hr|]|]; cbn; unfold advance_trade; rewrite Hs;
    rewrite (proj2 (Z.ltb_lt _ _)) by done; done.
Qed.

(** An order that was answered is not driven again. *)
Definition answered i (v : TradeView) (res : result BackendError SwapOutcome) : Prop :=
  ∀ out, res = Ok out → ∃ rec, of_order v i (so_trade_id out) rec ∧ in_flight_status (status (tr_trade rec)) = true.

Lemma answered_Err i v e : answered i v (Err e).
Proof. by intros out [=]. Qed.

Lemma settled_answers v i id rec o st :
  of_order v i id rec → in_flight_status (set_status o) = true → final v → answered i (view_settle id o v) (Ok (mk_swap_outcome id st)).
Proof.
  intros [Hr Ho] Hs Hfin out [= <-]. cbn. unfold view_settle. eexists. split; [split; [by rewrite lookup_alter_eq, Hr|]|]; cbn;
    unfold settle_trade; destruct (settled_at (tr_trade rec)) eqn:E; try done. by eapply Hfin.
Qed.

Definition unsent i r0 s (res : result BackendError SwapOutcome) s' : Prop := quiet r0 s s' ∧ answered i (trades s') res.

(** The fill of a plan was handed to the wallet. *)
Record sent_fill (w : SwapWorld) (intent : Intent) (plan : RoutePlan) (id : TradeId) s (res : result BackendError SwapOutcome) s' : Prop := {
  sf_follows : follows (trades s) (trades s');
  sf_guards : be_guards s' = be_guards s;
  sf_holds : swap_holds s' = swap_holds s;
  sf_log : ∃ prepared, sw_build w intent plan (sw_snapshot w) = Ok prepared
    ∧ exec_log (be_exec s') = exec_log (be_exec s)
        ++ [fill_to_intent (FillTx_new (int_id intent) (swap_chain_id config) (swap_filler_owner config) (pre_target prepared) (pre_calldata prepared))];
  sf_result : let tracked := <[int_id intent := reservation_id keccak256 (int_id intent) plan]> (flights s) in
    match res with
    | Ok out => out = mk_swap_outcome id Submitted ∧ flights s' = tracked ∧ open_trade (trades s') (int_id intent) id Submitted
    | Err _ => flights s' = flights s ∨ flights s' = tracked
    end
}.

Lemma plain_settlement st at_ : 0 ≤ at_ → settlement_typed (mk_settlement st None None None at_).
Proof. by intros Ha. Qed.

(** Declining the trade of an order, as the last step of a submission. *)
Lemma decline_outcome r0 s i id rec at_ :
  ok s → of_order (trades s) i id rec → 0 ≤ at_ →
  outcome (_ ← settle_swap id Declined at_; mret (mk_swap_outcome id Declined)) (λ res s', ok s' ∧ unsent i r0 s res s'
    ∧ swap_holds s' = swap_holds s) s.
Proof.
  intros Hok Ho Ha. apply outcome_bind. unfold settle_swap. eapply outcome_mono; [apply (settle_quiet r0); [done|by apply plain_settlement|done]|].
  intros [u|e] s' (Hok' & Hq & Hh & Hv).
  - apply outcome_ret. split; [done|]. split; [|done]. split; [done|]. destruct (Hv u eq_refl) as [_ ->].
    eapply settled_answers; [done|done|apply Hok].
  - split; [done|]. split; [|done]. split; [done|apply answered_Err].
Qed.

Lemma unsent_trans i r0 s1 s2 res s3 : quiet r0 s1 s2 → unsent i r0 s2 res s3 → unsent i r0 s1 res s3.
Proof. intros Hq [Hq' Ha]. split; [by etrans|done]. Qed.

Lemma unsent_Err i r0 s e s' : quiet r0 s s' → unsent i r0 s (Err e) s'.
Proof. intros Hq. split; [done|apply answered_Err]. Qed.

Lemma simulate_quiet r0 s f :
  ok s → outcome (with_exec (simulate f)) (λ _ s', ok s' ∧ quiet r0 s s' ∧ be_ledger s' = be_ledger s ∧ be_trades s' = be_trades s) s.
Proof.
  intros Hok. apply outcome_zoom. eapply outcome_mono; [apply simulate_law, Hok|]. intros res e (He & Hi & Hlog).
  split; [|split; [by apply quiet_exec|done]]. apply swap_ok_exec; [done..|]. rewrite Hi. auto.
Qed.

(** A fill that was handed over moves its trade forward. *)
Lemma submitted_outcome w s i id r0 :
  ok s → world_typed w → open_trade (trades s) i id Reserved →
  outcome (_ ← with_trades (trade_advance id Simulated (sw_now w)); _ ← with_trades (trade_advance id Submitted (sw_now w));
           mret (mk_swap_outcome id Submitted)) (λ res s', ok s' ∧ quiet r0 s s' ∧ be_ledger s' = be_ledger s
    ∧ ∀ out, res = Ok out → out = mk_swap_outcome id Submitted ∧ open_trade (trades s') i id Submitted) s.
Proof.
  intros Hok Hw Hot. apply outcome_bind. eapply outcome_mono; [apply (advance_quiet r0); [exact Hok|apply Hw]|].
  intros [u|e] s2 (Hok2 & Hq2 & Hl2 & Hv2); [|by split_and!].
  assert (Hot2 : open_trade (trades s2) i id Simulated) by (rewrite (Hv2 u eq_refl); by apply (open_trade_advance _ _ _ Reserved)).
  apply outcome_bind. eapply outcome_mono; [apply (advance_quiet r0); [exact Hok2|apply Hw]|].
  intros [u'|e] s3 (Hok3 & Hq3 & Hl3 & Hv3); [apply outcome_ret|]; (split; [done|]; split; [by etrans|]; split; [congruence|]); [|by intros ? [=]].
  intros out [= <-]. split; [done|]. rewrite (Hv3 u' eq_refl). by apply (open_trade_advance _ _ _ Simulated).
Qed.

Lemma submit_fill_outcome w s intent plan id x :
  let r0 := reservation_id keccak256 (int_id intent) plan in
  ok s → world_typed w → is_u256 (int_id intent) → open_trade (trades s) (int_id intent) id Reserved →
  flights s !! int_id intent = None → swap_holds s !! r0 = Some x → res_state x = Pending →
  outcome (submit_fill config w id intent plan r0) (λ res s', ok s' ∧
    (unsent (int_id intent) r0 s res s' ∨ sent_fill w intent plan id s res s')) s.
Proof using ids_distinct.
  intros r0 Hok Hw Hi Hot Hfl Hx Hp. unfold submit_fill. apply outcome_lift_bind.
  destruct (sw_build w intent plan (sw_snapshot w)) as [prepared|e] eqn:Hb; cbn [map_err].
  2: { split; [done|]. left. by apply unsent_Err. }
  set (tx := FillTx_new _ _ _ _ _). apply outcome_bind. unfold fill. cbn [pf_tx pf_reservation]. apply outcome_bind.
  eapply outcome_mono; [by apply (simulate_quiet r0)|]. intros [verdict|e] s1 (Hok1 & Hq1 & Hl1 & Ht1).
  2: { split; [done|]. left. by apply unsent_Err. }
  assert (Htr : trades s1 = trades s) by (unfold trades; by rewrite Ht1).
  assert (Hh1 : swap_holds s1 = swap_holds s) by (unfold swap_holds; by rewrite Hl1).
  destruct verdict as [|reason].
  - apply outcome_bind, outcome_zoom. eapply outcome_mono; [apply submit_law, Hok1|]. intros res e (He & Hres). cbn [ftx_intent tx FillTx_new] in Hres.
    fold (flights s1) in Hres. rewrite (q_flights _ _ _ Hq1), Hfl in Hres. rewrite (q_log _ _ _ Hq1) in Hres.
    assert (Hbusy : busy (trades s) (int_id intent)) by (by eapply open_trade_busy).
    assert (Hid : swap_id keccak256 (int_id intent) r0) by (split; [done|by exists plan]).
    assert (Hok2 : ok (put_exec s1 e)).
    { apply swap_ok_exec; [done..|]. intros i r. rewrite Htr. destruct res as [h|err]; cbn in Hres.
      - destruct Hres as (_ & -> & _). rewrite (q_flights _ _ _ Hq1). intros [[<- <-]|[_ ?]]%lookup_insert_Some; auto.
      - destruct Hres as [-> _]. rewrite (q_flights _ _ _ Hq1). auto. }
    destruct res as [h|err]; cbn [map_err].
    + destruct Hres as (-> & Hfl2 & Hlog2). apply outcome_ret. cbn beta iota.
      eapply outcome_mono; [apply (submitted_outcome w (put_exec s1 e) (int_id intent) id r0 Hok2 Hw)|].
      { unfold trades. cbn. by rewrite Ht1. }
      intros res s3 (Hok3 & Hq & Hl3 & Hout). split; [done|]. right. constructor.
      * etrans; [|apply Hq]. unfold trades at 2. cbn. by rewrite Ht1.
      * by rewrite (q_guards _ _ _ Hq), <-(q_guards _ _ _ Hq1).
      * unfold swap_holds. rewrite Hl3. cbn. by rewrite Hl1.
      * exists prepared. split; [done|]. by rewrite (q_log _ _ _ Hq).
      * cbn zeta. fold r0. rewrite (q_flights _ _ _ Hq). destruct res as [out|err]; [|right; exact Hfl2].
        destruct (Hout out eq_refl) as [-> ?]. done.
    + split; [done|]. destruct Hres as [Hi2 [Hlog|Hlog]].
      * left. apply unsent_Err. etrans; [exact Hq1|]. apply quiet_exec; [by rewrite (q_flights _ _ _ Hq1)|by rewrite (q_log _ _ _ Hq1)].
      * right. constructor; [by rewrite <-Htr|by rewrite <-(q_guards _ _ _ Hq1)|by rewrite <-Hh1|by exists prepared|by left].
  - apply outcome_bind. eapply outcome_mono; [apply (void_step s1 r0 x); [done|by rewrite Hh1|done]|].
    intros [u|e] s2 (Hok2 & Hq2 & Ht2); [|split; [done|]; left; apply unsent_Err; by etrans].
    apply outcome_ret. destruct Hot as (rec & Ho & _).
    eapply outcome_mono; [apply (decline_outcome r0 s2 (int_id intent) id rec); [done|by rewrite Ht2, Htr|apply Hw]|].
    intros res s3 (Hok3 & Hu & _). split; [done|]. left. eapply unsent_trans; [|exact Hu]. by etrans.
Qed.

(** ** Driving a recorded plan *)

Lemma open_not_busy v i id st : trades_ok v → open_trade v i id st → in_flight_status st = false → ¬ busy v i.
Proof.
  intros Hv (rec & [Hr Ho] & <- & _) Hst (id' & rec' & [Hr' Ho'] & Hs').
  assert (id' = id) as -> by (eapply (trades_orders _ Hv); [exact Hr'|exact Hr|congruence]). congruence.
Qed.

(** The hold a plan is reserved under. *)
Definition plan_hold (w : SwapWorld) i (plan : RoutePlan) : Reservation :=
  for_swap (reservation_id keccak256 i plan) i (sources_of plan) (u64_saturating_add (sw_ledger_now w) (swap_reservation_ttl_secs config)).

(** The plan was admitted, reserved, and its fill handed to the wallet, once. *)
Record dispatched (w : SwapWorld) (intent : Intent) (plan : RoutePlan) (id : TradeId) s (res : result BackendError SwapOutcome) s' : Prop := {
  dp_follows : follows (trades s) (trades s');
  dp_guards : be_guards s' = be_guards s;
  dp_unguarded : plan_is_guarded plan (sw_snapshot w) (be_guards s) = false;
  dp_busy : busy (trades s') (int_id intent);
  dp_fresh : swap_holds s !! reservation_id keccak256 (int_id intent) plan = None;
  dp_holds : swap_holds s' = <[reservation_id keccak256 (int_id intent) plan := plan_hold w (int_id intent) plan]> (swap_holds s);
  dp_log : ∃ prepared, sw_build w intent plan (sw_snapshot w) = Ok prepared
    ∧ exec_log (be_exec s') = exec_log (be_exec s)
        ++ [fill_to_intent (FillTx_new (int_id intent) (swap_chain_id config) (swap_filler_owner config) (pre_target prepared) (pre_calldata prepared))];
  dp_result : let tracked := <[int_id intent := reservation_id keccak256 (int_id intent) plan]> (flights s) in
    match res with
    | Ok out => out = mk_swap_outcome id Submitted ∧ flights s' = tracked ∧ open_trade (trades s') (int_id intent) id Submitted
    | Err _ => flights s' = flights s ∨ flights s' = tracked
    end
}.

(** A hold that a submission touches was not there before. *)
Definition fresh_hold r0 s s' : Prop := swap_holds s' = swap_holds s ∨ swap_holds s !! r0 = None.

(** What admission leaves: the hold, or a trade that is declined. *)
Definition admission (w : SwapWorld) i (plan : RoutePlan) s (res : result BackendError (option SwapOutcome)) s' : Prop :=
  let r0 := reservation_id keccak256 i plan in
  ok s' ∧ quiet r0 s s' ∧
  match res with
  | Ok None => plan_is_guarded plan (sw_snapshot w) (be_guards s) = false ∧ trades s' = trades s
      ∧ swap_holds s !! r0 = None ∧ swap_holds s' = <[r0 := plan_hold w i plan]> (swap_holds s)
  | Ok (Some out) => answered i (trades s') (Ok out) ∧ swap_holds s' = swap_holds s
  | Err _ => swap_holds s' = swap_holds s
  end.

Lemma reserve_or_decline_outcome w s i id rec plan :
  let r0 := reservation_id keccak256 i plan in
  ok s → world_typed w → is_u256 i → of_order (trades s) i id rec → reservation_ok (plan_hold w i plan) →
  outcome (reserve_or_decline config w id i r0 plan) (admission w i plan s) s.
Proof using ids_distinct ttl_unsigned.
  intros r0 Hok Hw Hi Ho Hx. unfold reserve_or_decline. apply outcome_gets.
  assert (Hdecl : ∀ s1, ok s1 → quiet r0 s s1 → of_order (trades s1) i id rec → swap_holds s1 = swap_holds s →
    outcome (_ ← settle_swap id Declined (sw_now w); mret (Some (mk_swap_outcome id Declined))) (admission w i plan s) s1).
  { intros s1 Hok1 Hq1 Ho1 Hh1. apply outcome_bind. unfold settle_swap.
    eapply outcome_mono; [apply (settle_quiet r0 s1); [done|apply plain_settlement, Hw|done]|].
    intros [u|e] s2 (Hok2 & Hq2 & Hh2 & Hv); [apply outcome_ret|]; (split; [done|]; split; [by etrans|]).
    - split; [|congruence]. destruct (Hv u eq_refl) as [_ ->]. eapply settled_answers; [done|done|apply Hok1].
    - congruence. }
  destruct (plan_is_guarded plan (sw_snapshot w) (be_guards s)) eqn:Hg; [by apply Hdecl|].
  apply outcome_attempt. eapply outcome_mono; [apply reserve_step; [done|done|done|by exists id, rec|exact Hx]|].
  intros res s1 (Hok1 & Hq1 & Ht1 & Hres). destruct res as [u|e].
  - apply outcome_ret. destruct Hres as [Hn Hh]. by split_and!.
  - destruct e as [[[]| |]| | | |]; try (apply outcome_fail; by split_and!). apply Hdecl; [done..| |done]. by rewrite Ht1.
Qed.

Lemma drive_outcome w s intent plan id st :
  let i := int_id intent in let r0 := reservation_id keccak256 i plan in
  ok s → world_typed w → is_u256 i → open_trade (trades s) i id st → in_flight_status st = false →
  reservation_ok (plan_hold w i plan) →
  outcome (drive keccak256 config w id intent plan) (λ res s', ok s' ∧
    (unsent i r0 s res s' ∧ fresh_hold r0 s s' ∨ dispatched w intent plan id s res s')) s.
Proof using ids_distinct ttl_unsigned.
  intros i r0 Hok Hw Hi Hot Hst Hx. unfold drive. fold i r0.
  assert (Hfl : flights s !! i = None).
  { apply eq_None_not_Some. intros [r Hr]. apply (so_tracked _ _ Hok) in Hr as [_ Hb].
    eapply open_not_busy; [apply trade_view_ok, Hok|exact Hot|done|done]. }
  assert (Hord : ∃ rec, of_order (trades s) i id rec) by (destruct Hot as (rec & ? & _); by exists rec). destruct Hord as [rec Ho].
  apply outcome_bind. eapply outcome_mono; [by eapply reserve_or_decline_outcome|]. fold i r0.
  intros res s1 (Hok1 & Hq1 & Hres). destruct res as [[out|]|e].
  - apply outcome_ret. split; [done|]. left. destruct Hres as [Ha Hh]. split; [by split|by left].
  - destruct Hres as (Hg & Ht1 & Hn & Hh1). apply outcome_bind.
    eapply outcome_mono; [apply (advance_quiet r0); [done|apply Hw]|]. intros res s2 (Hok2 & Hq2 & Hl2 & Hv2).
    destruct res as [u|e]; [|split; [done|]; left; split; [apply unsent_Err; by etrans|by right]].
    assert (Hh2 : swap_holds s2 = swap_holds s1) by (unfold swap_holds; by rewrite Hl2).
    assert (Hot2 : open_trade (trades s2) i id Reserved).
    { rewrite (Hv2 u eq_refl), Ht1. eapply open_trade_advance; [exact Hot|]. by destruct st. }
    assert (Hq : quiet r0 s s2) by (by etrans).
    eapply outcome_mono; [apply (submit_fill_outcome w s2 intent plan id (plan_hold w i plan))|].
    + done.
    + done.
    + done.
    + done.
    + by rewrite (q_flights _ _ _ Hq).
    + rewrite Hh2, Hh1. apply lookup_insert_eq.
    + done.
    + fold i r0. intros res s' [Hok' [Hu|[Hf Hgs Hh (prepared & Hb & Hlog) Hr]]].
      * split; [done|]. left. split; [by eapply unsent_trans|by right].
      * split; [done|]. right. constructor; try done.
        -- etrans; [apply Hq|done].
        -- by rewrite Hgs, (q_guards _ _ _ Hq).
        -- eapply follows_busy; [exact Hf|apply Hok'|]. by eapply open_trade_busy.
        -- by rewrite Hh, Hh2.
        -- exists prepared. split; [done|]. by rewrite Hlog, (q_log _ _ _ Hq).
        -- cbn in Hr |- *. by rewrite <-(q_flights _ _ _ Hq).
  - split; [done|]. left. split; [by apply unsent_Err|by left].
Qed.

(** ** Recording *)

Lemma create_step s t legs attempts :
  ok s → trade_typed t → settled_at t = None → Forall (λ a, 0 ≤ attempt_at a) attempts →
  outcome (with_trades (trade_create t legs attempts)) (λ res s', ok s' ∧ (∃ db, s' = put_trades s db) ∧ follows (trades s) (trades s') ∧
    match res with
    | Ok c => (∃ rec, of_order (trades s) (order_hash t) (cr_id c) rec ∧ cr_created c = false ∧ trades s' = trades s)
        ∨ (¬ recorded (trades s) (order_hash t) ∧ c = mk_create_result (t_id t) true ∧ trades s' = view_create t legs attempts (trades s))
    | Err _ => True
    end) s.
Proof.
  intros Hok Ht Hs Ha. apply outcome_zoom. eapply outcome_mono; [apply create_law; [done|done|apply Hok]|].
  intros res db [Hdb Hres]. cbn [map_err]. change (trade_view (be_trades s)) with (trades s) in Hres.
  assert (Hv : follows (trades s) (trade_view db) ∧ final (trade_view db)).
  { destruct res as [c|e]; [destruct Hres as [(rec & _ & _ & ->)|(_ & Hn & _ & ->)]|rewrite Hres].
    - split; [done|apply Hok].
    - split; [by apply follows_create|apply final_create; [done|apply Hok]].
    - split; [done|apply Hok]. }
  destruct Hv as [Hf Hfin]. split; [by apply swap_ok_trades|]. split; [by exists db|]. split; [done|].
  destruct res as [c|e]; [|done]. destruct Hres as [(rec & ? & ? & ?)|(Hno & _ & Hc & Hv)]; [left; by exists rec|right].
  split; [|done]. intros (id & rec & Ho). by eapply Hno.
Qed.

Lemma new_trade_typed id intent taker amounts plan now st prices :
  intent_typed intent → 0 ≤ now → trade_typed (new_trade id intent taker amounts plan now st prices).
Proof. intros [_ Hd _] Hn. by split_and!. Qed.

Lemma reached_typed now stages : 0 ≤ now → Forall (λ a, 0 ≤ attempt_at a) (reached now stages).
Proof. intros Hn. unfold reached. rewrite Forall_fmap. by apply Forall_true. Qed.

(** The trade [create] left for the order. *)
Lemma created_order v v' t legs attempts c :
  (∃ rec, of_order v (order_hash t) (cr_id c) rec ∧ cr_created c = false ∧ v' = v)
  ∨ (¬ recorded v (order_hash t) ∧ c = mk_create_result (t_id t) true ∧ v' = view_create t legs attempts v) →
  ∃ rec, of_order v' (order_hash t) (cr_id c) rec.
Proof.
  intros [(rec & Ho & _ & ->)|(_ & -> & ->)]; [by exists rec|]. eexists. split; [apply lookup_insert_eq|done].
Qed.

Lemma declined_outcome r0 s tid intent taker now prices :
  ok s → intent_typed intent → 0 ≤ now →
  outcome (declined tid intent taker now prices) (λ res s', ok s' ∧ unsent (int_id intent) r0 s res s'
    ∧ swap_holds s' = swap_holds s) s.
Proof.
  intros Hok Hi Hn. unfold declined. apply outcome_bind.
  eapply outcome_mono; [apply create_step; [done|by apply new_trade_typed|done|by apply reached_typed]|].
  intros res s1 (Hok1 & [db ->] & Hf & Hres). destruct res as [c|e].
  - apply created_order in Hres as [rec Ho].
    eapply outcome_mono; [apply (decline_outcome r0 _ (int_id intent) (cr_id c) rec); [done|exact Ho|done]|]. intros res s' (Hok' & Hu & Hh).
    split; [done|]. split; [|by rewrite Hh]. eapply unsent_trans; [by apply quiet_trades|done].
  - split; [done|]. split; [apply unsent_Err; by apply quiet_trades|done].
Qed.

Lemma info_step s id :
  ok s → outcome (with_trades (trade_info id)) (λ res s', ok s' ∧ (∃ db, s' = put_trades s db) ∧ trades s' = trades s ∧
    match res with
    | Ok (Some inf) => ∃ rec, trades s !! id = Some rec ∧ info_trade inf = tr_trade rec
    | Ok None => trades s !! id = None
    | Err _ => True
    end) s.
Proof.
  intros Hok. apply outcome_zoom. eapply outcome_mono; [apply info_law, Hok|]. intros res db (Hdb & Hv & Hres).
  split; [apply swap_ok_trades; [done|done|by rewrite Hv|rewrite Hv; apply Hok]|]. split; [by exists db|]. split; [done|].
  destruct res as [[inf|]|e]; [|done..]. destruct Hres as (rec & ? & ? & _). by exists rec.
Qed.

(** A trade that is not in flight is open. *)
Lemma idle_open v i id rec :
  final v → of_order v i id rec → in_flight_status (status (tr_trade rec)) = false → open_trade v i id (status (tr_trade rec)).
Proof.
  intros Hfin Ho Hs. exists rec. split; [done|]. split; [done|]. destruct (settled_at (tr_trade rec)) as [a|] eqn:E; [|done].
  destruct Ho as [Hr _]. rewrite (Hfin _ _ _ Hr E) in Hs. done.
Qed.

(** What precedes the drive only recorded the trade. *)
Lemma dispatched_from w intent plan id s db res s' :
  follows (trades s) (trade_view db) → dispatched w intent plan id (put_trades s db) res s' → dispatched w intent plan id s res s'.
Proof. intros Hf []. constructor; try done. by etrans. Qed.

(** ** The whole submission *)

(** Either nothing was sent, and no hold but a new one was touched, or the order was not in flight and now is. *)
Definition submission (w : SwapWorld) (intent : Intent) s (res : result BackendError SwapOutcome) s' : Prop :=
  let i := int_id intent in
  ok s' ∧
  ((∃ r0, unsent i r0 s res s' ∧ (swap_holds s' = swap_holds s ∨ ¬ busy (trades s) i ∧ swap_id keccak256 i r0 ∧ swap_holds s !! r0 = None))
   ∨ ¬ busy (trades s) i ∧ ∃ amounts plan id, swap_amounts intent (sw_now w) = Some amounts
       ∧ swap_route config w intent amounts = Some plan ∧ dispatched w intent plan id s res s').

Lemma drive_submission w s db intent amounts plan id st :
  let i := int_id intent in
  ok (put_trades s db) → world_typed w → is_u256 i → follows (trades s) (trade_view db) →
  ¬ busy (trades s) i → open_trade (trade_view db) i id st → in_flight_status st = false →
  reservation_ok (plan_hold w i plan) → swap_amounts intent (sw_now w) = Some amounts → swap_route config w intent amounts = Some plan →
  outcome (drive keccak256 config w id intent plan) (submission w intent s) (put_trades s db).
Proof using ids_distinct ttl_unsigned.
  intros i Hok Hw Hi Hf Hnb Hot Hst Hx Ha Hr. eapply outcome_mono; [by eapply drive_outcome|]. fold i.
  intros res s' [Hok' [[Hu Hh]|Hd]]; (split; [done|]).
  - left. eexists. split; [eapply unsent_trans; [|exact Hu]; by apply quiet_trades|]. destruct Hh as [Hh|Hh]; [left; exact Hh|right].
    split; [done|]. split; [|exact Hh]. split; [done|by exists plan].
  - right. split; [done|]. exists amounts, plan, id. split_and!; [done..|by eapply dispatched_from].
Qed.

Lemma submit_outcome w s intent taker tid prices :
  ok s → world_typed w → intent_typed intent →
  outcome (submit keccak256 config w intent taker tid prices) (submission w intent s) s.
Proof using ids_distinct ttl_unsigned.
  intros Hok Hw Hi. unfold submit.
  assert (Hdecl : outcome (declined tid intent taker (sw_now w) prices) (submission w intent s) s).
  { eapply outcome_mono; [apply (declined_outcome 0); [done|done|apply Hw]|]. intros res s' (Hok' & Hu & Hh). split; [done|]. left. exists 0. auto. }
  destruct (swap_amounts intent (sw_now w)) as [amounts|] eqn:Ha; [|done].
  destruct (swap_route config w intent amounts) as [plan|] eqn:Hr; [|done]. clear Hdecl.
  assert (Hx : reservation_ok (plan_hold w (int_id intent) plan)) by (by eapply plan_reservable).
  apply outcome_bind. eapply outcome_mono; [apply create_step; [done|apply new_trade_typed; [done|apply Hw]|done|apply reached_typed, Hw]|].
  intros res s1 (Hok1 & [db ->] & Hf & Hres). destruct res as [c|e].
  2: { split; [done|]. left. exists 0. split; [apply unsent_Err; by apply quiet_trades|by left]. }
  destruct Hres as [(rec & Ho & Hc & Hv)|(Hn & -> & Hv)]; cbn [order_hash new_trade] in *.
  - rewrite Hc. apply outcome_bind. eapply outcome_mono; [by apply info_step|].
    intros res s2 (Hok2 & [db2 ->] & Hv2 & Hinfo). change (put_trades (put_trades s db) db2) with (put_trades s db2) in *.
    assert (Hvs : trade_view db2 = trades s) by (rewrite <-Hv; exact Hv2).
    destruct res as [o|e]; [|split; [done|]; left; exists 0; split; [apply unsent_Err, quiet_trades; by rewrite Hvs|by left]].
    destruct Ho as [Hrec Ho]. rewrite Hv in Hinfo. destruct o as [inf|]; [|by rewrite Hrec in Hinfo].
    destruct Hinfo as (rec' & Hrec' & ->). rewrite Hrec in Hrec'. injection Hrec' as <-.
    destruct (in_flight_status (status (tr_trade rec))) eqn:Hst.
    + apply outcome_ret. split; [done|]. left. exists 0. split; [|by left]. split; [apply quiet_trades; by rewrite Hvs|].
      intros out [= <-]. exists rec. cbn. split; [|done]. unfold trades. cbn. by rewrite Hvs.
    + assert (Hot : open_trade (trades s) (int_id intent) (cr_id c) (status (tr_trade rec))) by (by apply idle_open; [apply Hok|split|]).
      eapply (drive_submission w s db2); try done; [apply Hi|by rewrite Hvs|..|by rewrite Hvs].
      by eapply open_not_busy; [apply trade_view_ok, Hok|..].
  - eapply (drive_submission w s db _ _ _ _ Quoted); try done; [apply Hi|..].
    + intros (id & rec & Ho & _). apply Hn. by exists id, rec.
    + change (trade_view db) with (trades (put_trades s db)). rewrite Hv. eexists. split; [split; [apply lookup_insert_eq|done]|done].
Qed.

End steps.
