(* ===== verification/SwapSettling.v ===== *)
(** * Settling the fills of a tick

    The settlement half of a reconcile tick: each fill in flight that ended has its hold
    posted with what was pulled, or voided, and no other hold is touched, whatever
    statement fails. *)

From stdpp Require Import strings.
From S2P Require Import Prelude Commands U256 Reservation LedgerEngine LedgerInvariant LedgerProperties LedgerStore LedgerService LedgerHolds Ratio CurveDecode Curves Registry Candidates Waterfill Routing Intent Trade Fills Settling Swap SwapInvariant.

#[local] Open Scope Z_scope.

Section settling.
Context {LSt TSt ESt : Type} `{HS : LedgerStore LSt} `{HL : !LedgerStoreLaws LSt} `{HT : TradeStore TSt} `{HTL : !TradeStoreLaws TSt}.
Context `{HE : Execution ESt} `{HEL : !ExecutionLaws ESt}.
Context (keccak256 : list Z → B256).
Hypothesis ids_distinct : ∀ i plan i' plan', is_u256 i → is_u256 i' →
  reservation_id keccak256 i plan = reservation_id keccak256 i' plan' → i = i'.
Context (receipt : B256 → result unit (option (list AquaEvent))).
Abbreviation Backend := (Backend LSt TSt ESt).
Abbreviation ok := (swap_ok keccak256).
Implicit Types (s : Backend) (i : IntentId) (r : ReservationId) (f : TrackedFill).

(** The receipts of an order's transactions pull no more than its hold: the settlement contract's side of a fill. *)
Definition receipts_fit s : Prop :=
  ∀ i r tx events sources, flights s !! i = Some r → exec_sent (be_exec s) i tx → receipt tx = Ok (Some events) →
    reservation_sources (be_ledger s) r = Some sources → fills_ok sources (pulled_for events <$> sources).

(** What settling the fills of [rs] leaves alone, and what it does to a hold. *)
Record settles (rs : list ReservationId) s s' : Prop := {
  st_trades : be_trades s' = be_trades s;
  st_log : exec_log (be_exec s') = exec_log (be_exec s);
  st_flights : flights s' = flights s;
  st_sent : ∀ i tx, exec_sent (be_exec s') i tx → exec_sent (be_exec s) i tx;
  st_guards : be_guards s' = be_guards s;
  st_rest : ∀ r, r ∉ rs → swap_holds s' !! r = swap_holds s !! r ∧ booked (be_ledger s') r = booked (be_ledger s) r;
  st_holds : ∀ r, swap_holds s' !! r = swap_holds s !! r
    ∨ ∃ x to, swap_holds s !! r = Some x ∧ is_open (res_state x) ∧ (to = Posted ∨ to = Voided) ∧ swap_holds s' !! r = Some (with_state x to)
}.

Lemma settles_refl rs s : settles rs s s.
Proof. constructor; auto. Qed.

Lemma settles_mono rs rs' s s' : rs ⊆ rs' → settles rs s s' → settles rs' s s'.
Proof. intros Hsub []. constructor; try done. intros r Hr. apply st_rest0. set_solver. Qed.

Lemma settles_trans rs rs' s1 s2 s3 : settles rs s1 s2 → settles rs' s2 s3 → settles (rs ++ rs') s1 s3.
Proof.
  intros [T1 L1 F1 S1 G1 R1 H1] [T2 L2 F2 S2 G2 R2 H2]. constructor; [congruence..|by auto|congruence| |].
  - intros r [Hr Hr']%not_elem_of_app. destruct (R1 r Hr) as [<- <-]. by apply R2.
  - intros r. destruct (H2 r) as [Heq|(x & to & Hx & Ho & Hto & Hx')]; [rewrite Heq; apply H1|].
    destruct (H1 r) as [Heq|(y & to' & Hy & _ & Hto' & Hy')]; [right; exists x, to; by rewrite <-Heq|].
    rewrite Hy' in Hx. injection Hx as <-. cbn in Ho. destruct Ho as [Ho|Ho]; destruct Hto' as [?|?]; congruence.
Qed.

(** Holds that are still pending were pending before. *)
Lemma settles_sources rs s s' r ss :
  settles rs s s' → reservation_sources (be_ledger s') r = Some ss → reservation_sources (be_ledger s) r = Some ss.
Proof.
  intros Hs. rewrite !reservation_sources_Some. fold (swap_holds s') (swap_holds s). intros (x & Hx & Hp & Hss).
  destruct (st_holds _ _ _ Hs r) as [Heq|(y & to & _ & _ & Hto & Hx')]; [rewrite Heq in Hx; by exists x|].
  rewrite Hx' in Hx. injection Hx as <-. cbn in Hp. destruct Hto; congruence.
Qed.

Lemma settles_fit rs s s' : settles rs s s' → receipts_fit s → receipts_fit s'.
Proof.
  intros Hs Hfit i r tx events ss Hi Htx Hr Hss. rewrite (st_flights _ _ _ Hs) in Hi. apply (st_sent _ _ _ Hs) in Htx.
  by eapply Hfit; [..|eapply settles_sources].
Qed.

(** A swap's hold that is not pending is closed. *)
Lemma not_pending_closed s i r :
  ok s → flights s !! i = Some r → reservation_sources (be_ledger s) r = None → closed (be_ledger s) r.
Proof.
  intros Hok Hi Hn x Hx Hop. destruct (so_tracked _ _ Hok _ _ Hi) as [Hid _].
  pose proof (so_owned _ _ Hok _ _ _ Hid Hx) as Ho. destruct (so_swaps _ _ Hok _ _ _ Hx Ho) as (_ & Hc & _).
  destruct Hop as [Hp|Hp]; [|done]. assert (Hs : reservation_sources (be_ledger s) r = Some (res_sources x))
    by (apply reservation_sources_Some; by exists x). congruence.
Qed.

(** How an ended fill leaves its hold: an open one is posted with what its transaction pulled, or voided. *)
Definition hold_ended s s' f (o : SettledOutcome) : Prop :=
  closed (be_ledger s') (tf_reservation f) ∧
  match o with
  | SettledConfirmed tx block => 0 ≤ block ∧ exec_sent (be_exec s) (tf_intent f) tx
      ∧ ∀ x, swap_holds s !! tf_reservation f = Some x → is_open (res_state x) →
          swap_holds s' !! tf_reservation f = Some (with_state x Posted)
          ∧ ∃ events, receipt tx = Ok (Some events) ∧ booked (be_ledger s') (tf_reservation f) = Some (pulled_for events <$> res_sources x)
  | SettledFailed => ∀ x, swap_holds s !! tf_reservation f = Some x → is_open (res_state x) →
      swap_holds s' !! tf_reservation f = Some (with_state x Voided)
  end.

(** A settlement elsewhere, before or after, does not change that. *)
Lemma hold_ended_before rs s1 s2 s3 f o :
  settles rs s1 s2 → tf_reservation f ∉ rs → hold_ended s2 s3 f o → hold_ended s1 s3 f o.
Proof.
  intros Hs Hr [Hc Ho]. destruct (st_rest _ _ _ Hs _ Hr) as [Heq _]. split; [done|].
  destruct o as [tx block|]; rewrite Heq in Ho; [|done]. destruct Ho as (Hblk & Htx & Ho). split; [done|]. split; [by apply (st_sent _ _ _ Hs)|done].
Qed.

Lemma hold_ended_after rs s1 s2 s3 f o :
  settles rs s2 s3 → tf_reservation f ∉ rs → hold_ended s1 s2 f o → hold_ended s1 s3 f o.
Proof.
  intros Hs Hr [Hc Ho]. destruct (st_rest _ _ _ Hs _ Hr) as [Heq Hb]. split.
  - intros x Hx. apply Hc. rewrite <-Hx. symmetry. exact Heq.
  - destruct o as [tx block|]; rewrite Heq; [|done]. by rewrite Hb.
Qed.

(** ** Settling one fill *)

Lemma hold_move_settles s l r x to :
  swap_holds s !! r = Some x → is_open (res_state x) → to = Posted ∨ to = Voided → holds l = <[r := with_state x to]> (swap_holds s) →
  (∀ r', r' ≠ r → booked l r' = booked (be_ledger s) r') → settles [r] s (put_ledger s l).
Proof.
  intros Hx Ho Hto Hh Hb. change (holds l) with (swap_holds (put_ledger s l)) in Hh. constructor; try done; rewrite Hh.
  - intros r' Hr%not_elem_of_cons. destruct Hr as [Hr _]. split; [|by apply Hb]. by rewrite lookup_insert_ne.
  - intros r'. destruct (decide (r' = r)) as [->|Hr]; [|left; by rewrite lookup_insert_ne].
    right. exists x, to. rewrite lookup_insert_eq. done.
Qed.

Lemma ledger_same_settles rs s l :
  holds l = swap_holds s → (∀ r, booked l r = booked (be_ledger s) r) → settles rs s (put_ledger s l).
Proof. intros Hh Hb. constructor; auto; [intros r _; split; [|done]|intros r; left]; unfold swap_holds at 1; cbn; by rewrite Hh. Qed.

Lemma moved_closed (l : LedgerService LSt) r x (m : gmap ReservationId Reservation) to : to = Posted ∨ to = Voided → holds l = <[r := with_state x to]> m → closed l r.
Proof.
  intros Hto Hh y. rewrite Hh, lookup_insert_eq. intros [= <-]. cbn. intros [?|?]; destruct Hto; congruence.
Qed.

Lemma settle_void_outcome s f :
  ok s → outcome (settle_command (LedgerService.void (tf_reservation f))) (λ res s', ok s' ∧ be_exec s' = be_exec s
    ∧ settles [tf_reservation f] s s' ∧ ∀ u, res = Ok u → hold_ended s s' f SettledFailed) s.
Proof using ids_distinct.
  intros Hok. set (r := tf_reservation f). unfold settle_command. apply outcome_attempt, outcome_zoom.
  eapply outcome_mono; [apply void_outcome, Hok|]. intros res l (Hl & Hb & Hres). apply outcome_lift. destruct res as [u|e].
  - destruct Hres as (x & Hx & Hop & Hh). split; [|split; [done|split]].
    + apply swap_ok_ledger; [done..|]. eapply owners_kept_move; [exact Hx| |exact Hh]; done.
    + eapply (hold_move_settles s l r x Voided); auto.
    + intros u' _. split; [eapply moved_closed; [|exact Hh]; by right|]. intros y Hy _. fold (swap_holds s) in Hx. fold r in Hy |- *.
      unfold swap_holds at 1. cbn. rewrite Hh, lookup_insert_eq. congruence.
  - destruct Hres as [Hh Href]. split; [apply swap_ok_ledger; [done..|by apply owners_kept_same]|]. split; [done|].
    split; [by apply ledger_same_settles|]. intros u Hu.
    assert (Hle : ∃ le, e = LedgerRefused le) by (destruct e as [le| |]; [by eexists|done..]). destruct Hle as [le ->].
    specialize (Href le eq_refl). split.
    + intros x Hx. apply Href. rewrite <-Hh. exact Hx.
    + intros x Hx Hop. by destruct (Href x Hx).
Qed.

Lemma settle_confirmed_outcome s f tx block :
  ok s → flights s !! tf_intent f = Some (tf_reservation f) → 0 ≤ block → exec_sent (be_exec s) (tf_intent f) tx → receipts_fit s →
  outcome (settle_confirmed receipt f tx) (λ res s', ok s' ∧ be_exec s' = be_exec s
    ∧ settles [tf_reservation f] s s' ∧ ∀ u, res = Ok u → hold_ended s s' f (SettledConfirmed tx block)) s.
Proof using ids_distinct.
  intros Hok Hfl Hblk Htx Hfit. set (r := tf_reservation f) in *. unfold settle_confirmed. fold r. apply outcome_gets.
  destruct (reservation_sources (be_ledger s) r) as [ss|] eqn:Hss.
  2: { apply outcome_ret. split; [done|]. split; [done|]. split; [apply settles_refl|]. intros u _.
       pose proof (not_pending_closed _ _ _ Hok Hfl Hss) as Hc. split; [done|]. split; [done|]. split; [done|]. intros x Hx Hop. by destruct (Hc x Hx). }
  apply outcome_lift_bind. unfold settled. destruct (receipt tx) as [[events|]|] eqn:Hrec; cbn [map_err mbind result_bind ok_or].
  2-3: split; [done|]; split; [done|]; split; [apply settles_refl|done].
  pose proof (Hfit _ _ _ _ _ Hfl Htx Hrec Hss) as Hfills. pose proof Hss as (x & Hx & Hp & <-)%reservation_sources_Some.
  fold (swap_holds s) in Hx. assert (Hwords : Forall is_u256 (pulled_for events <$> res_sources x)).
  { eapply fills_words; [exact Hfills|]. eapply ok_amounts; [apply service_ledger_ok, Hok|exact Hx]. }
  unfold settle_command. apply outcome_attempt, outcome_zoom.
  eapply outcome_mono; [by apply (post_outcome _ _ (res_sources x)); [apply Hok|..]|]. intros res l ([Hl Hmv] & Hb & Hbk). apply outcome_lift.
  destruct res as [u|e].
  - destruct Hmv as (y & Hy & Hh). assert (y = x) as -> by (fold (swap_holds s) in Hy; congruence). split; [|split; [done|split]].
    + apply swap_ok_ledger; [done..|]. eapply owners_kept_move; [exact Hx| |exact Hh]; done.
    + eapply (hold_move_settles s l r x Posted); auto. by left.
    + intros u' _. split; [eapply moved_closed; [|exact Hh]; by left|]. split; [done|]. split; [done|]. fold r. intros z Hz _.
      assert (z = x) as -> by congruence. split; [unfold swap_holds at 1; cbn; by rewrite Hh, lookup_insert_eq|].
      exists events. split; [done|]. exact Hbk.
  - destruct Hmv as [Hh [se ->]]. split; [apply swap_ok_ledger; [done..|by apply owners_kept_same]|]. split; [done|].
    split; [|by intros u [=]].
    apply ledger_same_settles; [done|]. intros r'. destruct (decide (r' = r)) as [->|Hr]; [exact Hbk|by apply Hb].
Qed.

(** ** The whole pass over the fills in flight *)

Lemma status_step s i :
  ok s → outcome (with_exec (exec_status i)) (λ res s', ok s' ∧ settles [] s s' ∧
    match res with Ok (Some (ExecConfirmed block tx)) => 0 ≤ block ∧ exec_sent (be_exec s') i tx | _ => True end) s.
Proof.
  intros Hok. apply outcome_zoom. eapply outcome_mono; [apply status_law, Hok|]. intros res e (He & Hi & Hlog & Hsent & Hres).
  split; [apply swap_ok_exec; [done..|]; rewrite Hi; auto|]. split; [constructor; auto|]. by destruct res as [[[]|]|].
Qed.

Definition as_settled (p : TrackedFill * SettledOutcome) : Settled := mk_settled (tf_intent p.1) p.2.

(** The fills [gone] ended, and only their holds were touched. *)
Record pass (fills : list TrackedFill) (gone : list (TrackedFill * SettledOutcome)) s s' : Prop := {
  ps_sub : gone.*1 `sublist_of` fills;
  ps_settles : settles (tf_reservation <$> gone.*1) s s';
  ps_ended : ∀ f o, (f, o) ∈ gone → hold_ended s s' f o
}.

Lemma pass_skip f fills gone s1 s2 s3 : settles [] s1 s2 → pass fills gone s2 s3 → pass (f :: fills) gone s1 s3.
Proof.
  intros Hs [Hsub Hset Hend]. constructor; [by apply sublist_cons|by apply (settles_trans [] _ s1 s2)|].
  intros g o Hin. eapply hold_ended_before; [exact Hs|set_solver|by apply Hend].
Qed.

Lemma pass_cons f o fills gone s1 s2 s3 :
  settles [tf_reservation f] s1 s2 → hold_ended s1 s2 f o → pass fills gone s2 s3 →
  tf_reservation f ∉ tf_reservation <$> fills → pass (f :: fills) ((f, o) :: gone) s1 s3.
Proof.
  intros Hs Hend [Hsub Hset Hends] Hr.
  assert (Hr' : tf_reservation f ∉ tf_reservation <$> gone.*1) by (intros (g & Hg & Hin)%list_elem_of_fmap; apply Hr, list_elem_of_fmap; exists g; split; [done|]; eapply elem_of_submseteq; [done|by apply sublist_submseteq]).
  constructor.
  - cbn. by apply sublist_skip.
  - cbn. by apply (settles_trans [tf_reservation f] _ s1 s2).
  - intros g o' [[= -> ->]|Hin]%elem_of_cons; [by eapply hold_ended_after|].
    eapply hold_ended_before; [exact Hs| |by apply Hends].
    intros Heq%list_elem_of_singleton. apply Hr'. rewrite <-Heq. apply list_elem_of_fmap_2. by apply (list_elem_of_fmap_2 fst _ (g, o')).
Qed.

(** Fills in flight have distinct reservations. *)
Lemma tracked_distinct s f fills :
  ok s → (∀ g, g ∈ f :: fills → flights s !! tf_intent g = Some (tf_reservation g)) → tf_intent f ∉ tf_intent <$> fills →
  tf_reservation f ∉ tf_reservation <$> fills.
Proof using ids_distinct.
  intros Hok Hall Hi (g & Heq & Hg)%list_elem_of_fmap. apply Hi. apply list_elem_of_fmap. exists g. split; [|done].
  eapply flights_distinct; [done|done|apply Hall; left|]. rewrite Heq. apply Hall. by right.
Qed.

(** What the pass answers: the fills that ended, after those it was given. *)
Definition passed (fills : list TrackedFill) (ended : list Settled) s (res : result BackendError (list Settled)) s' : Prop :=
  ok s' ∧ settles (tf_reservation <$> fills) s s' ∧
  ∀ all, res = Ok all → ∃ gone, all = ended ++ (as_settled <$> gone) ∧ pass fills gone s s'.

Lemma passed_skip f fills ended s1 s2 res s3 : settles [] s1 s2 → passed fills ended s2 res s3 → passed (f :: fills) ended s1 res s3.
Proof.
  intros Hs (Hok & Hset & Hgone). split; [done|]. split.
  - eapply settles_mono; [|by eapply (settles_trans [] (tf_reservation <$> fills) s1 s2)]. set_solver.
  - intros all Hres. destruct (Hgone all Hres) as (gone & -> & Hp). exists gone. split; [done|by eapply pass_skip].
Qed.

Lemma passed_cons f o fills ended s1 s2 res s3 :
  settles [tf_reservation f] s1 s2 → hold_ended s1 s2 f o → tf_reservation f ∉ tf_reservation <$> fills →
  passed fills (ended ++ [mk_settled (tf_intent f) o]) s2 res s3 → passed (f :: fills) ended s1 res s3.
Proof.
  intros Hs Hend Hr (Hok & Hset & Hgone). split; [done|]. split; [by apply (settles_trans [tf_reservation f] _ s1 s2)|].
  intros all Hres. destruct (Hgone all Hres) as (gone & -> & Hp). exists ((f, o) :: gone).
  split; [by rewrite <-app_assoc|by eapply pass_cons].
Qed.

Lemma passed_Err f fills ended s1 e s2 : ok s2 → settles [tf_reservation f] s1 s2 → passed (f :: fills) ended s1 (Err e) s2.
Proof. intros Hok Hs. split; [done|]. split; [eapply settles_mono; [|exact Hs]; set_solver|done]. Qed.

Lemma reconcile_fills_outcome fills ended s :
  ok s → NoDup (tf_intent <$> fills) → (∀ f, f ∈ fills → flights s !! tf_intent f = Some (tf_reservation f)) → receipts_fit s →
  outcome (reconcile_fills receipt fills ended) (passed fills ended s) s.
Proof using ids_distinct.
  revert ended s. induction fills as [|f fills IH]; intros ended s Hok Hnd Hall Hfit; cbn [reconcile_fills].
  { apply outcome_ret. split; [done|]. split; [apply settles_refl|]. intros all [= <-]. exists []. split; [by rewrite app_nil_r|].
    constructor; [done|apply settles_refl|set_solver]. }
  apply NoDup_cons in Hnd as [Hni Hnd]. pose proof (tracked_distinct s f fills Hok Hall Hni) as Hr.
  apply outcome_bind. eapply outcome_mono; [by apply status_step|]. intros res s1 (Hok1 & Hs1 & Hres).
  assert (Hlift : ∀ res' s', passed (f :: fills) ended s1 res' s' → passed (f :: fills) ended s res' s').
  { intros res' s' (? & Hset & Hgone). split; [done|]. split; [by apply (settles_trans [] _ s s1)|]. intros all Hall'.
    destruct (Hgone all Hall') as (gone & -> & [Hsub Hps Hend]). exists gone. split; [done|].
    constructor; [done|by apply (settles_trans [] _ s s1)|]. intros g o Hin. eapply hold_ended_before; [exact Hs1|set_solver|by apply Hend]. }
  assert (Hnext : ∀ s2 l, settles l s1 s2 → ok s2 → ∀ ended', outcome (reconcile_fills receipt fills ended') (passed fills ended' s2) s2).
  { intros s2 l Hs2 Hok2 ended'. apply IH; [done|done| |]; [|by eapply settles_fit; [|eapply settles_fit]].
    intros g Hg. rewrite (st_flights _ _ _ Hs2), (st_flights _ _ _ Hs1). apply Hall. by right. }
  assert (Hafter : ∀ o (c : cmd Backend BackendError unit),
    outcome c (λ res' s2, ok s2 ∧ be_exec s2 = be_exec s1 ∧ settles [tf_reservation f] s1 s2 ∧ ∀ u, res' = Ok u → hold_ended s1 s2 f o) s1 →
    outcome (_ ← c; reconcile_fills receipt fills (ended ++ [mk_settled (tf_intent f) o])) (passed (f :: fills) ended s) s1).
  { intros o c Hc. apply outcome_bind. eapply outcome_mono; [exact Hc|]. intros [u|e] s2 (Hok2 & _ & Hs2 & Hend).
    - eapply outcome_mono; [by eapply Hnext|]. intros res' s3 Hp. apply Hlift. eapply passed_cons; [done|by apply (Hend u)|done|done].
    - by apply Hlift, passed_Err. }
  destruct res as [st|e]; [|apply Hlift, passed_Err; [done|apply settles_refl]].
  destruct st as [[|block tx|reason|]|]; try (eapply outcome_mono; [apply (Hnext s1 []); [apply settles_refl|done]|];
    intros res' s3 Hp; by eapply passed_skip).
  - apply (Hafter (SettledConfirmed tx block)), settle_confirmed_outcome; [done| |apply Hres|apply Hres|by eapply settles_fit].
    rewrite (st_flights _ _ _ Hs1). apply Hall. left.
  - by apply (Hafter SettledFailed), settle_void_outcome.
  - by apply (Hafter SettledFailed), settle_void_outcome.
Qed.

End settling.

(** * A reconcile tick

    The invariant of the swap pipeline through a whole tick, whatever statement fails, and
    what a tick that answers has done: every fill that ended has left flight with its hold
    closed and its trade settled, and every other hold that changed is an elapsed one that
    no fill in flight needs. *)

(** ** Settled trades *)

(** The trade of an order was given its settlement, unless it had one. *)
Definition settled_as (v v' : TradeView) (i : IntentId) (mk : Trade → Settlement) : Prop :=
  ∀ id rec, of_order v i id rec → ∃ rec', of_order v' i id rec' ∧ tr_trade rec' = settle_trade (mk (tr_trade rec)) (tr_trade rec).

Lemma settle_trade_settled o t : ∃ at_, settled_at (settle_trade o t) = Some at_.
Proof. unfold settle_trade. destruct (settled_at t) as [a|] eqn:E; [by exists a|by eexists]. Qed.

(** What was settled stays so. *)
Lemma settled_as_later v v' v'' i mk : settled_as v v' i mk → follows v' v'' → settled_as v v'' i mk.
Proof.
  intros Hs Hf id rec Ho. destruct (Hs id rec Ho) as (rec' & Ho' & Heq). destruct (follows_order _ _ _ _ _ Hf Ho') as (rec'' & Ho'' & Hm & _).
  exists rec''. split; [done|]. destruct (settle_trade_settled (mk (tr_trade rec)) (tr_trade rec)) as [a Ha].
  rewrite <-Heq in Ha |- *. by eapply moves_settled.
Qed.

(** The trade of the order is the same. *)
Definition spared (v v' : TradeView) (i : IntentId) : Prop := ∀ id rec, of_order v i id rec → of_order v' i id rec.

Lemma settled_as_earlier v v' v'' i mk : spared v v' i → settled_as v' v'' i mk → settled_as v v'' i mk.
Proof. intros Hsp Hs id rec Ho. by apply Hs, Hsp. Qed.

Lemma settle_spares v id i o rec :
  of_order v i id rec → ∀ i', i' ≠ i → spared v (view_settle id o v) i'.
Proof.
  intros [Hr Ho] i' Hi id' rec' [Hr' Ho']. split; [|done]. unfold view_settle. rewrite lookup_alter_ne; [done|]. intros <-. congruence.
Qed.

Section tick.
Context {LSt TSt ESt : Type} `{HS : LedgerStore LSt} `{HL : !LedgerStoreLaws LSt} `{HT : TradeStore TSt} `{HTL : !TradeStoreLaws TSt}.
Context `{HE : Execution ESt} `{HEL : !ExecutionLaws ESt}.
Context (keccak256 : list Z → B256).
Hypothesis ids_distinct : ∀ i plan i' plan', is_u256 i → is_u256 i' →
  reservation_id keccak256 i plan = reservation_id keccak256 i' plan' → i = i'.
Context (receipt : B256 → result unit (option (list AquaEvent))).
Abbreviation Backend := (Backend LSt TSt ESt).
Abbreviation ok := (swap_ok keccak256).
Implicit Types (s : Backend) (i : IntentId) (r : ReservationId) (f : TrackedFill).

(** Trades of the orders [is] and the fills of [is] may have been closed. *)
Record closes (is_ : list IntentId) s s' : Prop := {
  cl_ledger : be_ledger s' = be_ledger s;
  cl_log : exec_log (be_exec s') = exec_log (be_exec s);
  cl_guards : be_guards s' = be_guards s;
  cl_follows : follows (trades s) (trades s');
  cl_trades : ∀ i, i ∉ is_ → spared (trades s) (trades s') i;
  cl_flights : ∀ i, flights s' !! i = flights s !! i ∨ (i ∈ is_ ∧ flights s' !! i = None)
}.

Lemma closes_refl is_ s : closes is_ s s.
Proof. constructor; auto; [done|]. by intros i _ id rec. Qed.

Lemma closes_mono is_ is' s s' : is_ ⊆ is' → closes is_ s s' → closes is' s s'.
Proof.
  intros Hsub []. constructor; try done; [intros i Hi; apply cl_trades0; set_solver|]. intros i.
  destruct (cl_flights0 i) as [?|[? ?]]; [by left|right; set_solver].
Qed.

Lemma closes_trans is_ is' s1 s2 s3 : closes is_ s1 s2 → closes is' s2 s3 → closes (is_ ++ is') s1 s3.
Proof.
  intros [A1 B1 C1 D1 E1 F1] [A2 B2 C2 D2 E2 F2]. constructor; [congruence..|by etrans| |].
  - intros i [Hi Hi']%not_elem_of_app id rec Ho. by apply E2, E1.
  - intros i. destruct (F2 i) as [->|[Hi Hn]]; [destruct (F1 i) as [?|[? ?]]; [by left|right; set_solver]|right; set_solver].
Qed.

Lemma apply_settlement_outcome s i mk :
  ok s → (∀ t, settlement_typed (mk t) ∧ in_flight_status (set_status (mk t)) = true) →
  outcome (apply_settlement i mk) (λ res s', ok s' ∧ closes [i] s s' ∧ flights s' = flights s ∧
    ∀ u, res = Ok u → settled_as (trades s) (trades s') i mk) s.
Proof.
  intros Hok Hmk. unfold apply_settlement. apply outcome_bind, outcome_zoom. eapply outcome_mono; [apply find_law, Hok|].
  intros res db (Hdb & Hv & Hres). fold (trades s) in Hv, Hres.
  assert (Hok1 : ok (put_trades s db)) by (apply swap_ok_trades; [done|done|by rewrite Hv|rewrite Hv; apply Hok]).
  assert (Hput : ∀ db', follows (trades s) (trade_view db') → (∀ i', i' ∉ [i] → spared (trades s) (trade_view db') i') → closes [i] s (put_trades s db')).
  { intros db' Hf Hsp. constructor; auto. }
  assert (Hsame : closes [i] s (put_trades s db)) by (apply Hput; rewrite Hv; [done|by intros i' _ id rec]).
  destruct res as [[t|]|e]; cbn [map_err]; [|apply outcome_ret|]; [|split; [done|]; split; [done|]; split; [done|].. ].
  2: { intros u _ id rec Ho. by destruct (Hres id rec). }
  2: done.
  destruct Hres as (rec & Ho & Ht). destruct (Hmk t) as [Hty Hst]. apply outcome_zoom. eapply outcome_mono; [by apply settle_law|].
  cbn [be_trades put_trades]. rewrite Hv. intros res db' [Hdb' Hv']. change (put_trades (put_trades s db) db') with (put_trades s db').
  assert (Hview : trade_view db' = trades s ∨ trade_view db' = view_settle (t_id t) (mk t) (trades s)) by (destruct res; naive_solver).
  assert (Hf : follows (trades s) (trade_view db')) by (destruct Hview as [-> | ->]; [done|apply follows_settle]).
  split; [apply swap_ok_trades; [done..|]|]. { destruct Hview as [-> | ->]; [apply Hok|apply final_settle; [done|apply Hok]]. }
  split; [apply Hput; [done|]|split; [done|]].
  { intros i' Hi'. destruct Hview as [-> | ->]; [by intros id r'|]. eapply settle_spares; [exact Ho|set_solver]. }
  intros u Hu id rec' Ho'. destruct res as [[]|]; [|done]. destruct Hv' as [_ Hv']. change (trades (put_trades s db')) with (trade_view db'). rewrite Hv'.
  assert (id = t_id t) as ->. { eapply (trades_orders _ (trade_view_ok _ (so_trades _ _ Hok))); [apply Ho'|apply Ho|]. destruct Ho', Ho; congruence. }
  assert (rec' = rec) as -> by (destruct Ho', Ho; congruence). destruct Ho as [Hr Ho]. unfold view_settle.
  eexists. split; [split; [by rewrite lookup_alter_eq, Hr|]|]; cbn; [by rewrite (moves_order _ _ (moves_settle _ _))|by rewrite Ht].
Qed.

Lemma forget_step s i :
  ok s → outcome (forget i) (λ res s', ok s' ∧ closes [i] s s' ∧ trades s' = trades s ∧ ∀ u, res = Ok u → flights s' !! i = None) s.
Proof.
  intros Hok. apply outcome_zoom. eapply outcome_mono; [apply forget_law, Hok|]. intros res e (He & Hlog & Hres).
  assert (Hfl : ∀ j, inflight e !! j = flights s !! j ∨ (j ∈ [i] ∧ inflight e !! j = None)).
  { intros j. destruct res as [u|err]; rewrite Hres; [|by left]. destruct (decide (j = i)) as [->|Hj]; [right|left].
    - rewrite lookup_delete_eq. set_solver.
    - by rewrite lookup_delete_ne. }
  split; [apply swap_ok_exec; [done..|]|].
  { intros j r Hj. destruct (Hfl j) as [Heq|[_ Hn]]; [left; congruence|congruence]. }
  split; [constructor; auto; [done|by intros j _ id rec]|]. split; [done|]. intros u Hu. destruct res as [[]|]; [|done].
  change (inflight e !! i = None). by rewrite Hres, lookup_delete_eq.
Qed.

Lemma settlement_of_typed now o t :
  0 ≤ now → match o with SettledConfirmed _ block => 0 ≤ block | SettledFailed => True end →
  settlement_typed (settlement_of now o t) ∧ in_flight_status (set_status (settlement_of now o t)) = true.
Proof. intros Hn Hb. destruct o as [tx block|]; (split; [split; [done|]|done]); [|done]. by intros b [= <-]. Qed.

(** The trades of the fills that ended are settled, and the fills leave flight. *)
Lemma settle_all_outcome ended now s :
  ok s → 0 ≤ now → NoDup (sd_intent <$> ended) →
  (∀ d, d ∈ ended → match sd_outcome d with SettledConfirmed _ block => 0 ≤ block | SettledFailed => True end) →
  outcome (settle_all ended now) (λ res s', ok s' ∧ closes (sd_intent <$> ended) s s' ∧ ∀ u, res = Ok u → ∀ d, d ∈ ended →
    flights s' !! sd_intent d = None ∧ settled_as (trades s) (trades s') (sd_intent d) (settlement_of now (sd_outcome d))) s.
Proof.
  intros Hok Hn Hnd. revert s Hok. induction ended as [|d ended IH]; intros s Hok Hb; cbn [settle_all].
  { apply outcome_ret. split; [done|]. split; [apply closes_refl|]. intros u _ d Hd. set_solver. }
  rewrite fmap_cons in Hnd |- *. apply NoDup_cons in Hnd as [Hni Hnd]. apply outcome_bind. unfold settle_fill_trade.
  eapply outcome_mono; [apply apply_settlement_outcome; [done|]; intros t; apply settlement_of_typed; [done|apply Hb; left]|].
  intros res s1 (Hok1 & Hc1 & Hf1 & Hset). destruct res as [u|e].
  2: { split; [done|]. split; [|done]. eapply closes_mono; [|exact Hc1]. set_solver. }
  apply outcome_bind. eapply outcome_mono; [by apply forget_step|]. intros res s2 (Hok2 & Hc2 & Ht2 & Hgone).
  pose proof (closes_trans _ _ _ _ _ Hc1 Hc2) as Hc12. destruct res as [u'|e].
  2: { split; [done|]. split; [|done]. eapply closes_mono; [|exact Hc12]. set_solver. }
  eapply outcome_mono; [apply IH; [done|done|intros d' Hd'; apply Hb; by right]|]. intros res s3 (Hok3 & Hc3 & Hall).
  split; [done|]. split; [eapply closes_mono; [|by eapply (closes_trans _ _ s s2)]; set_solver|].
  intros u'' Hres d' [->|Hd']%elem_of_cons.
  - split; [|eapply settled_as_later; [by apply (Hset u)|]; rewrite <-Ht2; apply Hc3].
    destruct (cl_flights _ _ _ Hc3 (sd_intent d)) as [->|[_ ?]]; [by apply (Hgone u')|done].
  - destruct (Hall u'' Hres d' Hd') as [? Hs]. split; [done|]. eapply settled_as_earlier; [|exact Hs]. apply Hc12.
    assert (sd_intent d' ∈ sd_intent <$> ended) by (by apply list_elem_of_fmap_2). set_solver.
Qed.

(** Only trades were closed. *)
Lemma fail_all_outcome swept now s :
  ok s → 0 ≤ now →
  outcome (fail_all swept now) (λ res s', ok s' ∧ closes swept s s' ∧ flights s' = flights s ∧ ∀ u, res = Ok u → ∀ i, i ∈ swept →
    recorded (trades s) i → ∃ id rec at_, of_order (trades s') i id rec ∧ settled_at (tr_trade rec) = Some at_) s.
Proof.
  intros Hok Hn. revert s Hok. induction swept as [|i swept IH]; intros s Hok; cbn [fail_all].
  { apply outcome_ret. split; [done|]. split; [apply closes_refl|]. split; [done|]. intros u _ i Hi. set_solver. }
  apply outcome_bind. eapply outcome_mono; [apply apply_settlement_outcome; [done|]; intros t; by apply (settlement_of_typed now SettledFailed t)|].
  intros res s1 (Hok1 & Hc1 & Hf1 & Hset). destruct res as [u|e].
  2: { split; [done|]. split; [eapply closes_mono; [|exact Hc1]; set_solver|done]. }
  eapply outcome_mono; [by apply IH|]. intros res s2 (Hok2 & Hc2 & Hf2 & Hall). split; [done|].
  split; [by apply (closes_trans [i] swept s s1)|]. split; [congruence|]. intros u' Hres j [->|Hj]%elem_of_cons Hrec.
  - destruct Hrec as (id & rec & Ho). pose proof (settled_as_later _ _ _ _ _ (Hset u eq_refl) (cl_follows _ _ _ Hc2)) as Hs.
    destruct (Hs id rec Ho) as (rec' & Ho' & Heq). destruct (settle_trade_settled (failed now) (tr_trade rec)) as [a Ha].
    exists id, rec', a. split; [done|]. by rewrite Heq.
  - apply (Hall u' Hres j Hj). by eapply follows_recorded; [apply Hc1|].
Qed.

(** ** The settlement half *)

(** The executor has polled its wallet. *)
Definition ticked s : Backend := put_exec s (exec_tick (be_exec s)).2.

Lemma tick_step s : ok s → ok (ticked s) ∧ flights (ticked s) = flights s ∧ exec_log (be_exec (ticked s)) = exec_log (be_exec s).
Proof.
  intros Hok. pose proof (exec_tick_law (be_exec s) (so_exec _ _ Hok)) as (He & Hi & Hlog). split; [|done].
  apply swap_ok_exec; [done..|]. rewrite Hi. auto.
Qed.

Lemma tracked_step s :
  ok s → outcome (with_exec exec_tracked) (λ res s', ok s' ∧ settles [] s s' ∧ be_ledger s' = be_ledger s ∧
    ∀ l, res = Ok l → NoDup (tf_intent <$> l) ∧ ∀ f, f ∈ l ↔ flights s !! tf_intent f = Some (tf_reservation f)) s.
Proof.
  intros Hok. apply outcome_zoom. eapply outcome_mono; [apply tracked_law, Hok|]. intros res e (He & Hi & Hlog & Hsent & Hres).
  split; [apply swap_ok_exec; [done..|]; rewrite Hi; auto|]. split; [constructor; auto|]. split; [done|].
  destruct res as [l|err]; [|done]. by intros l' [= <-].
Qed.

(** The pass over the fills in flight, once the executor has ticked. *)
Lemma fills_reconcile_outcome s :
  ok s → receipts_fit receipt (ticked s) →
  outcome (reconcile receipt) (λ res s', ok s' ∧ ∃ fills, NoDup (tf_intent <$> fills)
    ∧ (∀ f, f ∈ fills → flights s !! tf_intent f = Some (tf_reservation f)) ∧ settles (tf_reservation <$> fills) (ticked s) s'
    ∧ ∀ all, res = Ok all → ∃ gone, all = as_settled <$> gone ∧ pass receipt fills gone (ticked s) s') s.
Proof using ids_distinct.
  intros Hok Hfit. destruct (tick_step s Hok) as (Hok1 & Hf1 & _). unfold reconcile. apply outcome_bind, outcome_zoom.
  unfold outcome at 1. fold (ticked s). destruct (exec_tick (be_exec s)).1 as [u|e]; cbn [map_err].
  2: { split; [done|]. exists []. split; [constructor|]. split; [set_solver|]. split; [apply settles_refl|done]. }
  apply outcome_bind. eapply outcome_mono; [by apply tracked_step|]. intros res s2 (Hok2 & Hs2 & _ & Hres). destruct res as [fills|e].
  2: { split; [done|]. exists []. split; [constructor|]. split; [set_solver|]. split; [done|done]. }
  destruct (Hres fills eq_refl) as [Hnd Hin].
  eapply outcome_mono; [apply (reconcile_fills_outcome keccak256 ids_distinct receipt fills [] s2 Hok2 Hnd)|].
  { intros f Hf. rewrite (st_flights _ _ _ Hs2). by apply Hin. }
  { by eapply settles_fit. }
  intros res s3 (Hok3 & Hs3 & Hgone). split; [done|]. exists fills. split; [done|]. split; [intros f Hf; rewrite <-Hf1; by apply Hin|].
  split; [by apply (settles_trans [] _ (ticked s) s2)|]. intros all Hall. destruct (Hgone all Hall) as (gone & -> & [Hsub Hset Hend]).
  exists gone. split; [done|]. constructor; [done|by apply (settles_trans [] _ (ticked s) s2)|].
  intros f o Hfo. eapply hold_ended_before; [exact Hs2|set_solver|by apply Hend].
Qed.

(** ** The whole tick *)

(** What a tick never does: send, bring a fill into flight, or change a hold except to settle a fill in flight or to expire an
    elapsed one that backs no fill still in flight. *)
Record tick_safe (sweep_now : Z) s s' : Prop := {
  ts_follows : follows (trades s) (trades s');
  ts_log : exec_log (be_exec s') = exec_log (be_exec s);
  ts_guards : be_guards s' = be_guards s;
  ts_flights : ∀ i, flights s' !! i = flights s !! i ∨ flights s' !! i = None;
  ts_holds : ∀ r, swap_holds s' !! r = swap_holds s !! r
    ∨ ∃ x to, swap_holds s !! r = Some x ∧ is_open (res_state x) ∧ swap_holds s' !! r = Some (with_state x to)
        ∧ ((∃ i, flights s !! i = Some r) ∧ (to = Posted ∨ to = Voided)
           ∨ (∀ i, flights s' !! i ≠ Some r) ∧ to = Expired ∧ res_expires_at x ≤ sweep_now)
}.

Lemma settles_safe sweep_now rs s s' :
  ok s → settles rs (ticked s) s' → (∀ r, r ∈ rs → ∃ i, flights s !! i = Some r) → tick_safe sweep_now s s'.
Proof.
  intros Hok Hs Hrs. destruct (tick_step s Hok) as (_ & Hf & Hlog). constructor.
  - unfold trades. by rewrite (st_trades _ _ _ Hs).
  - by rewrite (st_log _ _ _ Hs).
  - by rewrite (st_guards _ _ _ Hs).
  - intros i. left. by rewrite (st_flights _ _ _ Hs), Hf.
  - intros r. destruct (decide (r ∈ rs)) as [Hr|Hr]; [|left; by apply (st_rest _ _ _ Hs)].
    destruct (st_holds _ _ _ Hs r) as [?|(x & to & Hx & Ho & Hto & Hx')]; [by left|right]. exists x, to. split_and!; auto.
Qed.

(** Closing trades and fills afterwards keeps that. *)
Lemma closes_safe sweep_now is_ s1 s2 s3 : tick_safe sweep_now s1 s2 → closes is_ s2 s3 → tick_safe sweep_now s1 s3.
Proof.
  intros [A B C D E] Hc. assert (Hh : swap_holds s3 = swap_holds s2) by (unfold swap_holds; by rewrite (cl_ledger _ _ _ Hc)).
  assert (Hfl : ∀ i, flights s3 !! i = flights s2 !! i ∨ flights s3 !! i = None).
  { intros i. destruct (cl_flights _ _ _ Hc i) as [?|[_ ?]]; auto. }
  constructor; [etrans; [done|apply Hc]|by rewrite (cl_log _ _ _ Hc)|by rewrite (cl_guards _ _ _ Hc)| |].
  - intros i. destruct (Hfl i) as [->|?]; auto.
  - intros r. rewrite Hh. destruct (E r) as [?|(x & to & Hx & Ho & Hx' & Hc')]; [by left|right]. exists x, to. split_and!; try done.
    destruct Hc' as [?|[Hn ?]]; [by left|right]. split; [|done]. intros i. destruct (Hfl i) as [->|Heq]; [apply Hn|by rewrite Heq].
Qed.

Lemma tracked_reservations_step s :
  ok s → outcome tracked_reservations (λ res s', ok s' ∧ settles [] s s' ∧ be_ledger s' = be_ledger s ∧
    ∀ held, res = Ok held → ∀ r, r ∈ held ↔ ∃ i, flights s' !! i = Some r) s.
Proof.
  intros Hok. unfold tracked_reservations. apply outcome_bind. eapply outcome_mono; [by apply tracked_step|].
  intros [l|e] s' (Hok' & Hs & Hl & Hres); [apply outcome_ret|]; (split; [done|]; split; [done|]; split; [done|]); [|done].
  intros held [= <-] r. destruct (Hres l eq_refl) as [_ Hin]. rewrite (st_flights _ _ _ Hs), elem_of_list_to_set, list_elem_of_fmap. split.
  - intros (f & -> & Hf). exists (tf_intent f). by apply Hin.
  - intros [i Hi]. exists (mk_tracked i r). split; [done|]. by apply Hin.
Qed.

(** An elapsed hold that backs no fill in flight expires. *)
Definition sweeps (sweep_now : Z) s s' : Prop :=
  (∀ r, booked (be_ledger s') r = booked (be_ledger s) r)
  ∧ ∀ r, swap_holds s' !! r = swap_holds s !! r
    ∨ (∀ i, flights s !! i ≠ Some r) ∧ ∃ x i, expired_hold (be_ledger s) (be_ledger s') r x ∧ res_owner x = Swap i ∧ res_expires_at x ≤ sweep_now.

Lemma sweep_step sweep_now held s :
  ok s → (∀ r, r ∈ held ↔ ∃ i, flights s !! i = Some r) →
  outcome (with_ledger (sweep_expired sweep_now held)) (λ res s', ok s' ∧ (∃ l, s' = put_ledger s l) ∧ sweeps sweep_now s s' ∧
    ∀ swept, res = Ok swept →
      (∀ i r x, expired_hold (be_ledger s) (be_ledger s') r x → (∀ j, flights s !! j ≠ Some r) → res_owner x = Swap i → i ∈ swept)
      ∧ ∀ i r x, swap_holds s' !! r = Some x → res_state x = Pending → res_owner x = Swap i →
          (∃ j, flights s !! j = Some r) ∨ sweep_now < res_expires_at x) s.
Proof using ids_distinct.
  intros Hok Hheld. assert (Hout : ∀ r, r ∉ held ↔ ∀ i, flights s !! i ≠ Some r).
  { intros r. rewrite Hheld. split; [intros Hn i Hi; apply Hn; by exists i|intros Hn [i Hi]; by apply (Hn i)]. }
  apply outcome_zoom. eapply outcome_mono; [apply sweep_outcome, Hok|]. intros res l (Hl & Hb & Hh & Hres).
  split; [apply swap_ok_ledger; [done..|]|split; [by exists l|split; [split; [done|]|]]].
  - intros r y Hy. left. destruct (Hh r) as [Heq|(_ & x & i & (Hx & Hp & Hx') & _)]; [rewrite Heq in Hy; by exists y|].
    rewrite Hx' in Hy. injection Hy as <-. by exists x.
  - intros r. destruct (Hh r) as [?|(Hr & Hx)]; [by left|right; split; [by apply Hout|done]].
  - destruct res as [swept|e]; [|done]. intros ? [= <-]. destruct Hres as [Hin Hleft]. split.
    + intros i r x Hx Hr Ho. apply Hin. exists r, x. split; [by apply Hout|done].
    + intros i r x Hx Hp Ho. destruct (decide (r ∈ held)) as [Hr|Hr]; [left; by apply Hheld|right; by eapply Hleft].
Qed.

Lemma sweep_safe sweep_now s1 s2 s3 :
  tick_safe sweep_now s1 s2 → (∃ l, s3 = put_ledger s2 l) → sweeps sweep_now s2 s3 → tick_safe sweep_now s1 s3.
Proof.
  intros [A B C D E] [l ->] [_ Hsw]. constructor; [done..|]. change (flights (put_ledger s2 l)) with (flights s2).
  intros r. destruct (Hsw r) as [->|(Hn & x & i & (Hx & Hp & Hx') & Ho & He)]; [apply E|]. right.
  destruct (E r) as [Heq|(y & to & _ & _ & Hy & Hc)].
  - exists x, Expired. split; [by rewrite <-Heq|]. split; [by left|]. split; [done|]. by right.
  - fold (swap_holds s2) in Hx. rewrite Hy in Hx. injection Hx as <-. cbn in Hp. subst to.
    destruct Hc as [[_ [?|?]]|(_ & ? & _)]; done.
Qed.

(** What a tick that answers has done, [gone] being the fills that ended: they left flight, their holds are closed as their
    outcome says and their trades settled; every other hold that changed had elapsed, backed no fill in flight, and its trade is
    settled; and no elapsed hold is left without a fill in flight. *)
Record tick_done (now sweep_now : Z) (gone : list (TrackedFill * SettledOutcome)) s s' : Prop := {
  td_tracked : ∀ f o, (f, o) ∈ gone → flights s !! tf_intent f = Some (tf_reservation f);
  td_flights : ∀ i, flights s' !! i = if decide (i ∈ tf_intent <$> gone.*1) then None else flights s !! i;
  td_ended : ∀ f o, (f, o) ∈ gone → hold_ended receipt (ticked s) s' f o;
  td_trades : ∀ f o, (f, o) ∈ gone → settled_as (trades s) (trades s') (tf_intent f) (settlement_of now o);
  td_rest : ∀ r, r ∉ tf_reservation <$> gone.*1 → swap_holds s' !! r = swap_holds s !! r
    ∨ (∀ i, flights s' !! i ≠ Some r) ∧ ∃ x i, expired_hold (be_ledger s) (be_ledger s') r x ∧ res_owner x = Swap i
        ∧ res_expires_at x ≤ sweep_now ∧ ∃ id rec at_, of_order (trades s') i id rec ∧ settled_at (tr_trade rec) = Some at_;
  td_pending : ∀ i r x, swap_holds s' !! r = Some x → res_state x = Pending → res_owner x = Swap i →
    (∃ j, flights s' !! j = Some r) ∨ sweep_now < res_expires_at x
}.

Lemma hold_ended_keep s1 s2 s3 f o :
  hold_ended receipt s1 s2 f o → swap_holds s3 !! tf_reservation f = swap_holds s2 !! tf_reservation f →
  booked (be_ledger s3) (tf_reservation f) = booked (be_ledger s2) (tf_reservation f) → hold_ended receipt s1 s3 f o.
Proof.
  intros [Hc Ho] Hh Hb. split.
  - intros x Hx. apply Hc. rewrite <-Hx. symmetry. exact Hh.
  - destruct o as [tx block|]; rewrite Hh; [by rewrite Hb|done].
Qed.

(** The sweep leaves a closed hold alone. *)
Lemma sweep_spares_closed sweep_now s s' r : sweeps sweep_now s s' → closed (be_ledger s) r → swap_holds s' !! r = swap_holds s !! r.
Proof.
  intros [_ Hsw] Hc. destruct (Hsw r) as [?|(_ & x & i & (Hx & Hp & _) & _)]; [done|]. destruct (Hc x Hx). by left.
Qed.

Lemma settled_gone (gone : list (TrackedFill * SettledOutcome)) : sd_intent <$> (as_settled <$> gone) = tf_intent <$> gone.*1.
Proof. rewrite <-!list_fmap_compose. done. Qed.

(** The phases of a tick that answers, put together. *)
Lemma tick_phases now sweep_now fills gone swept s sB sC sD sE sF :
  ok s → ok sD → NoDup (tf_intent <$> fills) → (∀ f, f ∈ fills → flights s !! tf_intent f = Some (tf_reservation f)) →
  pass receipt fills gone (ticked s) sB →
  closes (tf_intent <$> gone.*1) sB sC →
  (∀ d, d ∈ as_settled <$> gone → flights sC !! sd_intent d = None
    ∧ settled_as (trades sB) (trades sC) (sd_intent d) (settlement_of now (sd_outcome d))) →
  settles [] sC sD → be_ledger sD = be_ledger sC →
  (∃ l, sE = put_ledger sD l) → sweeps sweep_now sD sE →
  (∀ i r x, expired_hold (be_ledger sD) (be_ledger sE) r x → (∀ j, flights sD !! j ≠ Some r) → res_owner x = Swap i → i ∈ swept) →
  (∀ i r x, swap_holds sE !! r = Some x → res_state x = Pending → res_owner x = Swap i →
     (∃ j, flights sD !! j = Some r) ∨ sweep_now < res_expires_at x) →
  closes swept sE sF → flights sF = flights sE →
  (∀ i, i ∈ swept → recorded (trades sE) i → ∃ id rec at_, of_order (trades sF) i id rec ∧ settled_at (tr_trade rec) = Some at_) →
  tick_done now sweep_now gone s sF.
Proof.
  intros Hok HokD Hnd Hall [Hsub Hset Hend] HC Hgone HD HlD [l HEq] Hsw Hswept Hleft HF HfF Hfail.
  destruct (tick_step s Hok) as (_ & Hft & _).
  assert (Hin : ∀ f o, (f, o) ∈ gone → f ∈ fills).
  { intros f o Hfo. eapply elem_of_submseteq; [|by apply sublist_submseteq]. by apply (list_elem_of_fmap_2 fst gone (f, o)). }
  assert (HtD : trades sD = trades sC) by (unfold trades; by rewrite (st_trades _ _ _ HD)).
  assert (HtE : trades sE = trades sD) by (by rewrite HEq). assert (HfE : flights sE = flights sD) by (by rewrite HEq).
  assert (HhD : swap_holds sD = swap_holds sB) by (unfold swap_holds; by rewrite HlD, (cl_ledger _ _ _ HC)).
  assert (HhF : swap_holds sF = swap_holds sE) by (unfold swap_holds; by rewrite (cl_ledger _ _ _ HF)).
  assert (HfD : flights sD = flights sC) by apply HD.
  assert (HtB : trades sB = trades s) by (unfold trades; by rewrite (st_trades _ _ _ Hset)).
  assert (Hfl : ∀ i, flights sF !! i = flights sC !! i) by (intros i; by rewrite HfF, HfE, HfD).
  constructor.
  - intros f o Hfo. by eapply Hall, Hin.
  - intros i. rewrite Hfl. case_decide as Hi.
    + rewrite <-settled_gone in Hi. apply list_elem_of_fmap in Hi as (d & -> & Hd). by apply Hgone.
    + destruct (cl_flights _ _ _ HC i) as [->|[? _]]; [|done]. by rewrite (st_flights _ _ _ Hset), Hft.
  - intros f o Hfo. pose proof (Hend f o Hfo) as He. eapply hold_ended_keep; [exact He| |].
    + rewrite HhF, <-HhD. eapply sweep_spares_closed; [exact Hsw|]. rewrite HlD, (cl_ledger _ _ _ HC). apply He.
    + rewrite (cl_ledger _ _ _ HF), (proj1 Hsw), HlD, (cl_ledger _ _ _ HC). done.
  - intros f o Hfo. destruct (Hgone (as_settled (f, o))) as [_ Hs]; [by apply list_elem_of_fmap_2|]. cbn in Hs. rewrite HtB in Hs.
    eapply settled_as_later; [exact Hs|]. rewrite <-HtD, <-HtE. apply HF.
  - intros r Hr. destruct (st_rest _ _ _ Hset _ Hr) as [HB _]. change (swap_holds (ticked s)) with (swap_holds s) in HB.
    rewrite HhF. destruct (proj2 Hsw r) as [->|(Hn & x & i & Hx & Ho & He)]; [left; by rewrite HhD|right]. split.
    { intros i'. rewrite HfF, HfE. apply Hn. }
    exists x, i. destruct Hx as (Hx & Hp & Hx'). fold (swap_holds sD) in Hx. split; [|split; [done|split; [done|]]].
    { split; [|split; [done|]]; [change (swap_holds s !! r = Some x); congruence|by rewrite (cl_ledger _ _ _ HF)]. }
    apply Hfail; [by eapply Hswept|]. rewrite HtE. by eapply (so_swaps _ _ HokD i r x).
  - intros i r x. rewrite HhF, HfF, HfE. apply Hleft.
Qed.

Definition tick_post (now sweep_now : Z) s (res : result BackendError ReconcileReport) s' : Prop :=
  ok s' ∧ tick_safe sweep_now s s' ∧ ∀ report, res = Ok report → ∃ gone, rep_settled report = length gone ∧ tick_done now sweep_now gone s s'.

Lemma settles_nil_closes s s' : settles [] s s' → be_ledger s' = be_ledger s → closes [] s s'.
Proof.
  intros [A B C D E F G] Hl. assert (Ht : trades s' = trades s) by (unfold trades; by rewrite A).
  constructor; try done; rewrite ?Ht; [done|by intros i _ id rec|]. intros i. left. by rewrite C.
Qed.

Lemma reconcile_tick_outcome now sweep_now s :
  ok s → 0 ≤ now → receipts_fit receipt (ticked s) →
  outcome (reconcile_tick receipt now sweep_now) (tick_post now sweep_now s) s.
Proof using ids_distinct.
  intros Hok Hn Hfit. unfold reconcile_tick. apply outcome_bind. eapply outcome_mono; [by apply fills_reconcile_outcome|].
  intros res sB (HokB & fills & Hnd & Hall & Hset & Hres).
  assert (HB : tick_safe sweep_now s sB).
  { eapply settles_safe; [done|exact Hset|]. intros r (f & -> & Hf)%list_elem_of_fmap. exists (tf_intent f). by apply Hall. }
  assert (Herr : ∀ e s', ok s' → tick_safe sweep_now s s' → tick_post now sweep_now s (Err e) s') by (intros; by split_and!).
  destruct res as [all|e]; [|by apply Herr]. destruct (Hres all eq_refl) as (gone & -> & Hpass). clear Hres Hset.
  apply outcome_bind. eapply outcome_mono; [apply (settle_all_outcome (as_settled <$> gone) now sB); [done|done| |]|].
  { rewrite settled_gone. eapply sublist_NoDup; [exact Hnd|]. apply fmap_sublist. apply (ps_sub _ _ _ _ _ Hpass). }
  { intros d ((f, o) & -> & Hfo)%list_elem_of_fmap. pose proof (ps_ended _ _ _ _ _ Hpass f o Hfo) as [_ He]. cbn.
    destruct o; [apply He|done]. }
  rewrite settled_gone. intros res sC (HokC & HC & Hgone). pose proof (closes_safe _ _ _ _ _ HB HC) as HsC.
  destruct res as [u|e]; [specialize (Hgone u eq_refl)|by apply Herr].
  apply outcome_bind. eapply outcome_mono; [by apply tracked_reservations_step|]. intros res sD (HokD & HD & HlD & Hheld).
  pose proof (closes_safe _ _ _ _ _ HsC (settles_nil_closes _ _ HD HlD)) as HsD.
  destruct res as [held|e]; [specialize (Hheld held eq_refl)|by apply Herr].
  apply outcome_bind. eapply outcome_mono; [by apply sweep_step|]. intros res sE (HokE & HEq & Hsw & Hswept).
  pose proof (sweep_safe _ _ _ _ HsD HEq Hsw) as HsE. destruct res as [swept|e]; [destruct (Hswept swept eq_refl) as [Hin Hleft]|by apply Herr].
  apply outcome_bind. eapply outcome_mono; [by apply (fail_all_outcome swept now sE)|]. intros res sF (HokF & HF & HfF & Hfail).
  pose proof (closes_safe _ _ _ _ _ HsE HF) as HsF. destruct res as [u'|e]; [apply outcome_ret|by apply Herr].
  split; [done|]. split; [done|]. intros report [= <-]. exists gone. split; [apply length_fmap|].
  eapply (tick_phases now sweep_now fills gone swept s sB sC sD sE sF); try done. by apply (Hfail u').
Qed.

End tick.
