(* ===== verification/SwapProperties.v ===== *)
(** * The swap pipeline as a system

    Submissions, reconcile ticks, the other services of the shared ledger, the routing
    guard, the wallet's own progress, crashes and restarts, as one transition system.

    A crash inside an operation is a crash after the same operation in which every later
    statement failed; what memory held is lost either way. *)

From stdpp Require Import strings.
From S2P Require Import Prelude Commands U256 Reservation LedgerEngine LedgerInvariant LedgerProperties LedgerStore LedgerService LedgerHolds Ratio CurveDecode Curves Registry Candidates Waterfill Routing Intent Trade Fills Settling Swap SwapInvariant SwapSteps SwapSettling.

#[local] Open Scope Z_scope.

Section system.
Context {LSt TSt ESt : Type} `{HS : LedgerStore LSt} `{HL : !LedgerStoreLaws LSt} `{HT : TradeStore TSt} `{HTL : !TradeStoreLaws TSt}.
Context `{HE : Execution ESt} `{HEL : !ExecutionLaws ESt}.
Context (keccak256 : list Z → B256) (config : SwapConfig).
Hypothesis ids_distinct : ∀ i plan i' plan', is_u256 i → is_u256 i' →
  reservation_id keccak256 i plan = reservation_id keccak256 i' plan' → i = i'.
Hypothesis ttl_unsigned : 0 ≤ swap_reservation_ttl_secs config.
Abbreviation Backend := (Backend LSt TSt ESt).
Abbreviation ok := (swap_ok keccak256).
Implicit Types (s : Backend) (i : IntentId) (r : ReservationId).

(** The process runs, or is down with its databases as it left them. *)
Inductive swap_phase : Type :=
| Up (s : Backend)
| Halted (lst : LSt) (tst : TSt) (est : ESt).

(** Starting: the ledger recovers, and nothing is withheld until the rebate service says so. *)
Definition swap_boot (budget_of : AccountKey → result SolventError U256) (lst : LSt) (tst : TSt) (est : ESt) : swap_phase :=
  match LedgerService.recover budget_of (service_new lst) with
  | (Err _, l) => Halted (svc_store l) tst est
  | (Ok _, l) => Up (mk_backend l tst est ∅)
  end.

(** What the other services of the ledger leave alone: the holds under a swap's id, and no swap's hold is theirs to take. *)
Definition spares_swaps (l l' : LedgerService LSt) : Prop :=
  (∀ i r, swap_id keccak256 i r → holds l' !! r = holds l !! r)
  ∧ ∀ i r x, holds l' !! r = Some x → res_owner x = Swap i → holds l !! r = Some x.

Inductive swap_step : swap_phase → swap_phase → Prop :=
| swap_submits s w intent taker id prices :
    world_typed w → intent_typed intent →
    swap_step (Up s) (Up (submit keccak256 config w intent taker id prices s).2)
| swap_reconciles s receipt now sweep_now :
    0 ≤ now → receipts_fit receipt (ticked s) → swap_step (Up s) (Up (reconcile_tick receipt now sweep_now s).2)
| swap_shares s l :
    service_ok l → spares_swaps (be_ledger s) l → swap_step (Up s) (Up (put_ledger s l))
| swap_guards s g : swap_step (Up s) (Up (mk_backend (be_ledger s) (be_trades s) (be_exec s) g))
| swap_mines s e :
    exec_ok e → inflight e = flights s → exec_log e = exec_log (be_exec s) → swap_step (Up s) (Up (put_exec s e))
| swap_crashes s : swap_step (Up s) (Halted (svc_store (be_ledger s)) (be_trades s) (be_exec s))
| swap_boots lst tst est budget_of :
    (∀ a x, budget_of a = Ok x → is_u256 x) → swap_step (Halted lst tst est) (swap_boot budget_of lst tst est).

Definition phase_trades (p : swap_phase) : TradeView := match p with Up s => trades s | Halted _ tst _ => trade_view tst end.
Definition phase_flights (p : swap_phase) : gmap IntentId ReservationId := match p with Up s => flights s | Halted _ _ est => inflight est end.
Definition phase_log (p : swap_phase) : list TxIntent := match p with Up s => exec_log (be_exec s) | Halted _ _ est => exec_log est end.

(** The holds that survive: all of memory, or what the store has open. *)
Definition phase_hold (p : swap_phase) r : option Reservation :=
  match p with Up s => swap_holds s !! r | Halted lst _ _ => open_view (durable lst) !! r end.

(** While the process is down, the invariant is that of some memory it could have had. *)
Definition swap_phase_ok (p : swap_phase) : Prop :=
  match p with
  | Up s => ok s
  | Halted lst tst est => ∃ s, ok s ∧ durable (svc_store (be_ledger s)) = durable lst ∧ be_trades s = tst ∧ be_exec s = est
  end.

(** ** Every step keeps the invariant *)

Lemma swap_ok_guards s g : ok s → ok (mk_backend (be_ledger s) (be_trades s) (be_exec s) g).
Proof. by intros []. Qed.

Lemma spares_ok_swaps s l : ok s → service_ok l → spares_swaps (be_ledger s) l → ok (put_ledger s l).
Proof using ids_distinct.
  intros Hok Hl [Hids Hnew]. pose proof Hok as [? ? ? ? ? Howned Hswaps]. constructor; try done.
  - intros i r x Hi Hx. change (holds l !! r = Some x) in Hx. rewrite (Hids i r Hi) in Hx. by eapply Howned.
  - intros i r x Hx Ho. apply Hswaps; [by eapply Hnew|done].
Qed.

Lemma swap_boot_outcome lst tst est budget_of :
  (∀ a x, budget_of a = Ok x → is_u256 x) → swap_phase_ok (Halted lst tst est) →
  swap_phase_ok (swap_boot budget_of lst tst est) ∧ ∀ r, phase_hold (swap_boot budget_of lst tst est) r = open_view (durable lst) !! r.
Proof using ids_distinct.
  intros Hb (s & Hok & Hd & <- & <-). set (l0 := mk_service (svc_ledger (be_ledger s)) lst (svc_available (be_ledger s))).
  pose proof (same_durable_ok _ lst (so_ledger _ _ Hok) Hd) as Hl0. pose proof (ledger_restart l0 budget_of Hl0 Hb) as Hres.
  unfold swap_boot, outcome in *. change (svc_store l0) with lst in Hres.
  destruct (LedgerService.recover budget_of (service_new lst)) as [[[]|e] l]; cbn in Hres |- *.
  - destruct Hres as [Hl Hh]. change (holds l0) with (swap_holds s) in Hh. split.
    + apply (swap_ok_guards (put_ledger s l)), swap_ok_ledger; [done..|]. intros r x. rewrite Hh. intros Hx. left. exists x.
      split; [|done]. eapply lookup_weaken; [exact Hx|apply map_filter_subseteq].
    + intros r. unfold swap_holds. cbn. rewrite Hh. by rewrite (service_agree _ Hl0).
  - split; [|intros r; by rewrite Hres]. exists s. split_and!; [done|by rewrite Hd, Hres|done|done].
Qed.

(** What a step never does: lose a trade, or bring back into flight an order that already has a trade it will not drive. *)
Definition phase_moves (p p' : swap_phase) : Prop :=
  follows (phase_trades p) (phase_trades p')
  ∧ ∀ i, busy (phase_trades p) i → phase_flights p' !! i = phase_flights p !! i ∨ phase_flights p' !! i = None.

Lemma submission_moves w intent s res s' :
  submission keccak256 config w intent s res s' → phase_moves (Up s) (Up s').
Proof.
  intros [Hok' [(r0 & [Hq _] & _)|(Hnb & amounts & plan & id & _ & _ & Hd)]].
  - split; [apply Hq|]. intros i _. left. cbn. by rewrite (q_flights _ _ _ Hq).
  - split; [apply Hd|]. intros i Hi. left. cbn. assert (Hne : i ≠ int_id intent) by (by intros ->).
    pose proof (dp_result _ _ _ _ _ _ _ _ _ Hd) as Hr. cbn in Hr.
    destruct res as [out|e]; [destruct Hr as (_ & -> & _)|destruct Hr as [-> | ->]]; [|done|]; by rewrite lookup_insert_ne.
Qed.

Lemma swap_step_ok p p' : swap_step p p' → swap_phase_ok p → swap_phase_ok p' ∧ phase_moves p p'.
Proof using ids_distinct ttl_unsigned.
  intros [s w intent tk id prices Hw Hi|s receipt now sweep_now Hn Hfit|s l Hl Hsp|s g|s e He Hf Hlog|s|lst tst est budget_of Hb] Hok.
  - pose proof (submit_outcome keccak256 config ids_distinct ttl_unsigned w s intent tk id prices Hok Hw Hi) as Hsub.
    split; [apply Hsub|by eapply submission_moves].
  - destruct (reconcile_tick_outcome keccak256 ids_distinct receipt now sweep_now s Hok Hn Hfit) as (Hok' & Hsafe & _).
    split; [done|]. split; [apply Hsafe|]. intros i _. apply Hsafe.
  - split; [by apply spares_ok_swaps|]. split; [done|]. by left.
  - split; [by apply swap_ok_guards|]. split; [done|]. by left.
  - split; [apply swap_ok_exec; [done..|]; rewrite Hf; auto|]. split; [done|]. intros i _. left. cbn. by rewrite <-Hf.
  - split; [by exists s|]. split; [done|]. by left.
  - split; [by apply swap_boot_outcome|]. unfold swap_boot. destruct (LedgerService.recover _ _) as [[[]|] l]; (split; [apply reflexivity|intros i _; by left]).
Qed.

Lemma phase_final p : swap_phase_ok p → final (phase_trades p).
Proof. destruct p as [s|lst tst est]; [apply so_final|]. intros (s & Hok & _ & <- & _). apply (so_final _ _ Hok). Qed.

Lemma phase_moves_trans p1 p2 p3 : swap_phase_ok p2 → phase_moves p1 p2 → phase_moves p2 p3 → phase_moves p1 p3.
Proof.
  intros Hok [Hf1 Hm1] [Hf2 Hm2]. split; [by etrans|]. intros i Hi. assert (Hi2 : busy (phase_trades p2) i) by (eapply follows_busy; [done|by apply phase_final|done]).
  destruct (Hm2 i Hi2) as [->|?]; [by apply Hm1|by right].
Qed.

Lemma swap_run_ok p p' : rtc swap_step p p' → swap_phase_ok p → swap_phase_ok p' ∧ phase_moves p p'.
Proof using ids_distinct ttl_unsigned.
  induction 1 as [p|p p1 p2 Hstep _ IH]; intros Hok; [split; [done|split; [done|by left]]|].
  destruct (swap_step_ok _ _ Hstep Hok) as [Hok1 Hm1]. destruct (IH Hok1) as [Hok2 Hm2]. split; [done|]. eapply phase_moves_trans; [exact Hok1|done|done].
Qed.

(** A new installation. *)
Lemma swap_fresh_ok l tst est :
  service_ok l → holds l = ∅ → trade_store_ok tst → trade_view tst = ∅ → exec_ok est → inflight est = ∅ → ok (mk_backend l tst est ∅).
Proof.
  intros Hl Hh Ht Htv He Hi. constructor; unfold trades, flights, swap_holds, final; cbn; rewrite ?Htv, ?Hh, ?Hi; try done.
Qed.

End system.

(** * Correctness of the swap pipeline

    What holds in every run of the system, whatever statements fail and whenever the
    process crashes: an order is sent once, the hold behind a fill in flight is released
    only by that fill's own settlement, and trades only move forward; and what one
    submission and one tick do. *)

Section properties.
Context {LSt TSt ESt : Type} `{HS : LedgerStore LSt} `{HL : !LedgerStoreLaws LSt} `{HT : TradeStore TSt} `{HTL : !TradeStoreLaws TSt}.
Context `{HE : Execution ESt} `{HEL : !ExecutionLaws ESt}.
Context (keccak256 : list Z → B256) (config : SwapConfig).
Hypothesis ids_distinct : ∀ i plan i' plan', is_u256 i → is_u256 i' →
  reservation_id keccak256 i plan = reservation_id keccak256 i' plan' → i = i'.
Hypothesis ttl_unsigned : 0 ≤ swap_reservation_ttl_secs config.
Abbreviation Backend := (Backend LSt TSt ESt).
Abbreviation step := (swap_step keccak256 config).
Abbreviation phase := (swap_phase (LSt := LSt) (TSt := TSt) (ESt := ESt)).
Implicit Types (s : Backend) (p : phase) (i : IntentId) (r : ReservationId).

(** ** Sending *)

(** A submission sends only for an order that is not busy, and leaves it busy. *)
Lemma submission_sends w intent s res s' :
  submission keccak256 config w intent s res s' →
  exec_log (be_exec s') = exec_log (be_exec s)
  ∨ ¬ busy (trades s) (int_id intent) ∧ busy (trades s') (int_id intent).
Proof.
  intros [_ [(r0 & [Hq _] & _)|(Hnb & amounts & plan & id & _ & _ & Hd)]]; [left; apply Hq|right]. split; [done|apply Hd].
Qed.

(** ** The hold behind a fill *)

(** Where the hold [x] of a fill can be: still there, settled, or settled and forgotten by a restart. *)
Definition kept_or_settled (x : Reservation) (h : option Reservation) : Prop :=
  h = Some x ∨ h = None ∨ ∃ to, (to = Posted ∨ to = Voided) ∧ h = Some (with_state x to).

Definition backed i r (x : Reservation) p : Prop :=
  busy (phase_trades p) i ∧ (phase_flights p !! i = None ∨ phase_flights p !! i = Some r ∧ kept_or_settled x (phase_hold p r)).

Lemma kept_open_view x (m : gmap ReservationId Reservation) r :
  is_open (res_state x) → kept_or_settled x (m !! r) → kept_or_settled x (open_view m !! r).
Proof.
  intros Ho. rewrite lookup_open_view. intros [->|[->|(to & Hto & ->)]].
  - left. cbn. by rewrite decide_True.
  - right; left. done.
  - right; left. cbn. rewrite decide_False; [done|]. cbn. intros [?|?]; destruct Hto; congruence.
Qed.

(** A submission does not touch the hold of a busy order. *)
Lemma submission_spares w intent s res s' i r :
  submission keccak256 config w intent s res s' → busy (trades s) i → swap_id keccak256 i r → is_u256 (int_id intent) →
  swap_holds s' !! r = swap_holds s !! r.
Proof using ids_distinct.
  intros [_ [(r0 & [Hq _] & Hh)|(Hnb & amounts & plan & id & _ & _ & Hd)]] Hb Hid Hi.
  - destruct (decide (r = r0)) as [->|Hr]; [|by apply Hq]. destruct Hh as [->|(Hnb & Hid' & _)]; [done|].
    destruct Hnb. by rewrite (swap_id_inj keccak256 ids_distinct _ _ _ Hid' Hid).
  - rewrite (dp_holds _ _ _ _ _ _ _ _ _ Hd), lookup_insert_ne; [done|]. intros <-. apply Hnb.
    rewrite (swap_id_inj keccak256 ids_distinct (int_id intent) i (reservation_id keccak256 (int_id intent) plan)); [done| |done].
    split; [done|by exists plan].
Qed.

Lemma tick_keeps sweep_now s s' i r x :
  tick_safe sweep_now s s' → flights s !! i = Some r → is_open (res_state x) → kept_or_settled x (swap_holds s !! r) →
  flights s' !! i = None ∨ flights s' !! i = Some r ∧ kept_or_settled x (swap_holds s' !! r).
Proof.
  intros Hs Hi Ho Hk. destruct (ts_flights _ _ _ Hs i) as [Hf|?]; [|by left]. rewrite Hi in Hf. right. split; [done|].
  destruct (ts_holds _ _ _ Hs r) as [->|(y & to & Hy & Hop & Hy' & Hc)]; [done|].
  assert (y = x) as ->.
  { destruct Hk as [Hk|[Hk|(to' & Hto & Hk)]]; rewrite Hk in Hy; [congruence|done|]. injection Hy as <-. cbn in Hop.
    destruct Hop as [?|?], Hto; congruence. }
  destruct Hc as [[_ Hto]|(Hn & _)]; [|by destruct (Hn i)]. right; right. by exists to.
Qed.

Lemma step_backed i r x p p' :
  step p p' → swap_phase_ok keccak256 p → is_open (res_state x) → swap_id keccak256 i r → backed i r x p → backed i r x p'.
Proof using ids_distinct ttl_unsigned.
  intros Hst Hok Hx Hid [Hb Hk]. destruct (swap_step_ok keccak256 config ids_distinct ttl_unsigned _ _ Hst Hok) as [Hok' [Hf Hm]].
  split; [eapply follows_busy; [done|by eapply phase_final|done]|]. destruct Hk as [Hn|[Hi Hk]].
  { left. destruct (Hm i Hb) as [->|?]; done. }
  destruct Hst as [s w intent tk id prices Hw Hit|s receipt now sweep_now Hnow Hfit|s l Hl Hsp|s g|s e He Hfe Hlog|s|lst tst est budget_of Hbud].
  - destruct (Hm i Hb) as [Heq|?]; [right|by left]. split; [by rewrite Heq|]. cbn.
    pose proof (submit_outcome keccak256 config ids_distinct ttl_unsigned w s intent tk id prices Hok Hw Hit) as Hsub.
    rewrite (submission_spares _ _ _ _ _ i r Hsub); [done|done|done|apply Hit].
  - destruct (reconcile_tick_outcome keccak256 ids_distinct receipt now sweep_now s Hok Hnow Hfit) as (_ & Hsafe & _).
    by eapply tick_keeps.
  - right. split; [done|]. destruct Hsp as [Hsp _]. cbn. unfold swap_holds. cbn. rewrite (Hsp i r Hid). exact Hk.
  - right. done.
  - right. split; [|done]. rewrite <-Hi. cbn. rewrite <-Hfe. done.
  - right. split; [done|]. cbn in Hk |- *. pose proof (service_agree _ (so_ledger _ _ Hok)) as Hag. unfold agree in Hag.
    rewrite <-Hag. by apply kept_open_view.
  - right. split.
    + unfold swap_boot. by destruct (LedgerService.recover _ _) as [[[]|] l].
    + destruct (swap_boot_outcome keccak256 ids_distinct lst tst est budget_of Hbud Hok) as [_ ->]. exact Hk.
Qed.

Lemma run_backed i r x p p' :
  rtc step p p' → swap_phase_ok keccak256 p → is_open (res_state x) → swap_id keccak256 i r → backed i r x p → backed i r x p'.
Proof using ids_distinct ttl_unsigned.
  induction 1 as [p|p p1 p2 Hst _ IH]; intros Hok Hx Hid Hb; [done|]. destruct (swap_step_ok keccak256 config ids_distinct ttl_unsigned _ _ Hst Hok) as [Hok1 _].
  apply IH; [done..|]. by eapply step_backed.
Qed.

(** ** Theorems *)

(** C3: an order is sent once.  In every run, whatever statements fail and however often the process restarts, once a submission
    has handed a transaction for an order to the wallet, no later submission of the same order hash sends anything,
    with whatever amounts, route, trade id or prices it comes. *)
Theorem orders_are_sent_once p s1 w intent tk id prices s3 w' intent' tk' id' prices' :
  swap_phase_ok keccak256 p → rtc step p (Up s1) →
  world_typed w → intent_typed intent → world_typed w' → intent_typed intent' → int_id intent' = int_id intent →
  let s2 := (submit keccak256 config w intent tk id prices s1).2 in
  exec_log (be_exec s2) ≠ exec_log (be_exec s1) → rtc step (Up s2) (Up s3) →
  exec_log (be_exec (submit keccak256 config w' intent' tk' id' prices' s3).2) = exec_log (be_exec s3).
Proof using ids_distinct ttl_unsigned.
  intros Hp H1 Hw Hi Hw' Hi' Hid s2 Hsent H3. destruct (swap_run_ok keccak256 config ids_distinct ttl_unsigned _ _ H1 Hp) as [Hok1 _].
  pose proof (submit_outcome keccak256 config ids_distinct ttl_unsigned w s1 intent tk id prices Hok1 Hw Hi) as Hsub.
  destruct (submission_sends _ _ _ _ _ Hsub) as [?|[_ Hb]]; [done|]. fold s2 in Hb.
  destruct (swap_run_ok keccak256 config ids_distinct ttl_unsigned _ _ H3 (proj1 Hsub)) as [Hok3 [Hf _]].
  pose proof (submit_outcome keccak256 config ids_distinct ttl_unsigned w' s3 intent' tk' id' prices' Hok3 Hw' Hi') as Hsub'.
  destruct (submission_sends _ _ _ _ _ Hsub') as [?|[Hnb _]]; [done|]. destruct Hnb. rewrite Hid.
  eapply follows_busy; [exact Hf|by eapply (phase_final keccak256 (Up s3))|exact Hb].
Qed.

(** C4: a fill in flight stays backed.  In every run, the reservation a tracked fill was sent with stays the one it is tracked
    with, and while the fill is tracked that hold is either untouched or closed by the fill's own settlement, posted or
    voided: no sweep, no other order and no restart releases it. *)
Theorem fills_in_flight_stay_backed p s s' i r r' x :
  swap_phase_ok keccak256 p → rtc step p (Up s) →
  flights s !! i = Some r → swap_holds s !! r = Some x → res_state x = Pending →
  rtc step (Up s) (Up s') → flights s' !! i = Some r' →
  r' = r ∧ (swap_holds s' !! r = Some x
            ∨ closed (be_ledger s') r ∧ ∀ y, swap_holds s' !! r = Some y → res_state y = Posted ∨ res_state y = Voided).
Proof using ids_distinct ttl_unsigned.
  intros Hp H1 Hi Hx Hpend H2 Hi'. destruct (swap_run_ok keccak256 config ids_distinct ttl_unsigned _ _ H1 Hp) as [Hok _].
  destruct (so_tracked _ _ Hok _ _ Hi) as [Hid Hb].
  destruct (run_backed i r x _ _ H2 Hok) as [_ [Hn|[Hi2 Hk]]]; [by left|done| |cbn in Hn; congruence|].
  { split; [done|]. right. split; [done|by left]. }
  cbn in Hi2, Hk. split; [congruence|]. destruct Hk as [?|[Hk|(to & Hto & Hk)]]; [by left|right..].
  - split; [|intros y; by rewrite Hk]. intros y Hy. change (swap_holds s' !! r = Some y) in Hy. congruence.
  - split; [|intros y; rewrite Hk; by intros [= <-]]. intros y Hy. change (swap_holds s' !! r = Some y) in Hy. rewrite Hk in Hy.
    injection Hy as <-. cbn. intros [?|?]; destruct Hto; congruence.
Qed.

(** Trades only move forward.  In every run each recorded trade keeps its id, order and legs, loses no stage, never falls in
    rank while it is open and never changes once it is settled; an order has one trade, and a settled trade is past
    the stages that are driven again. *)
Theorem trades_only_move_forward p p' :
  swap_phase_ok keccak256 p → rtc step p p' → follows (phase_trades p) (phase_trades p') ∧ trades_ok (phase_trades p') ∧ final (phase_trades p').
Proof using ids_distinct ttl_unsigned.
  intros Hp Hrun. destruct (swap_run_ok keccak256 config ids_distinct ttl_unsigned _ _ Hrun Hp) as [Hok [Hf _]]. split; [done|].
  split; [|by eapply phase_final]. destruct p' as [s|lst tst est]; [apply trade_view_ok, Hok|].
  destruct Hok as (s & Hok & _ & <- & _). apply trade_view_ok, Hok.
Qed.

(** C15: a submission sends nothing, or reserves, records and sends.  From every reachable state, with every statement free to
    fail: either nothing reached the wallet, and no hold changed but a new one of this order's own while it was not in
    flight; or the order was not in flight, its route was found within the taker's bound, the hold of exactly that
    route is in the ledger and one transaction for it was sent. *)
Theorem submission_reserves_and_sends_once p s w intent tk id prices :
  swap_phase_ok keccak256 p → rtc step p (Up s) → world_typed w → intent_typed intent →
  outcome (submit keccak256 config w intent tk id prices) (submission keccak256 config w intent s) s.
Proof using ids_distinct ttl_unsigned.
  intros Hp Hrun Hw Hi. destruct (swap_run_ok keccak256 config ids_distinct ttl_unsigned _ _ Hrun Hp) as [Hok _].
  by apply submit_outcome.
Qed.


End properties.
