(* ===== verification/SwapDemo.v ===== *)
(** * A concrete swap deployment

    The SQLite stores, the walletkit executor and a small wallet, on which the theorems of
    the swap pipeline are exercised. *)

From stdpp Require Import strings.
From S2P Require Import Prelude Commands U256 Reservation LedgerEngine LedgerInvariant LedgerProperties LedgerStore LedgerService LedgerHolds Ratio CurveDecode Curves Registry Candidates Waterfill Routing Intent Trade TradeSqlite TradeSqliteProperties Fills Settling Swap SwapInvariant SwapSteps SwapSettling SwapProperties.

#[local] Open Scope Z_scope.

(** ** The preimage of a reservation id names its order *)

Lemma preimage_names_order i plan : is_u256 i → of_be_bytes (take 32 (reservation_preimage i plan)) = i.
Proof.
  intros Hi. unfold reservation_preimage. rewrite take_app_length' by (by rewrite length_be_bytes).
  apply be_bytes_round_trip. unfold is_u256, U256_MAX in Hi. change (256 ^ Z.of_nat 32) with (2 ^ 256). lia.
Qed.

(** Any hash that tells preimages apart tells the orders of reservations apart. *)
Lemma preimages_differ (keccak256 : list Z → B256) :
  (∀ i plan i' plan', keccak256 (reservation_preimage i plan) = keccak256 (reservation_preimage i' plan') →
    reservation_preimage i plan = reservation_preimage i' plan') →
  ∀ i plan i' plan', is_u256 i → is_u256 i' → reservation_id keccak256 i plan = reservation_id keccak256 i' plan' → i = i'.
Proof.
  intros Hk i plan i' plan' Hi Hi' Heq. apply Hk in Heq.
  by rewrite <-(preimage_names_order i plan Hi), <-(preimage_names_order i' plan' Hi'), Heq.
Qed.

(** A hash that is the order itself. *)
Definition order_hash256 (l : list Z) : B256 := of_be_bytes (take 32 l).

Lemma order_hash_distinct i plan i' plan' :
  is_u256 i → is_u256 i' → reservation_id order_hash256 i plan = reservation_id order_hash256 i' plan' → i = i'.
Proof. intros Hi Hi'. unfold reservation_id, order_hash256. by rewrite !preimage_names_order. Qed.

(** ** A wallet *)

(** What was sent, and how each ended: mined in a block, or dropped. *)
Record DemoWallet := mk_demo_wallet { dw_log : list TxIntent; dw_ended : gmap Z (option Z) }.

Definition demo_tx_status (ended : option (option Z)) : TxStatus :=
  match ended with Some (Some b) => TxConfirmed (Z.max 0 (Z.min b I64_MAX)) | Some None => TxDropped | None => TxInFlight end.

#[global] Instance demo_wallet_ops : Wallet DemoWallet := {|
  HandleId := Z;
  wallet_send tx := λ w, (Ok (Z.of_nat (length (dw_log w))), mk_demo_wallet (dw_log w ++ [tx]) (dw_ended w));
  wallet_handle id w := Ok (Some (mk_tx_handle (demo_tx_status (dw_ended w !! id)) [1000 + id]));
  wallet_tick := mret tt;
  wallet_dry_run _ _ := Ok SimSuccess;
  handle_to_bytes id := Some [id];
  handle_from_bytes bytes := head bytes;
  receipt_block tx w := Ok (dw_ended w !! (tx - 1000))
|}.

#[global] Instance demo_wallet_laws : WalletLaws DemoWallet.
Proof.
  refine {| wallet_log := dw_log |}; [done|done|]. intros id w h block [= <-]. unfold th_status, demo_tx_status.
  repeat case_match; try done. intros [= <-]. unfold I64_MAX. lia.
Defined.

(** ** The deployment *)

Abbreviation SwapDeployment := (Backend Sqlite TradeDatabase (Executor FillDatabase DemoWallet)).

(** Every statement succeeds, but those of [trade_fails] and [fill_fails]. *)
Definition swap_installed (trade_fails fill_fails : list bool) : SwapDeployment :=
  mk_backend (sync_budgets (Ok demo_caps) (service_new (mk_sqlite ∅ []))).2 (mk_trade_db ∅ ∅ ∅ trade_fails)
    (mk_executor (mk_fill_db ∅ ∅ fill_fails) (mk_demo_wallet [] ∅)) ∅.

Definition swap_config_demo : SwapConfig := mk_swap_config (mk_routing_config 4 2 100) 1 77 600.

Definition swap_snapshot : Snapshot := fold_events demo_byte_decode snapshot_default demo_events.

Definition swap_world (now : Z) (guards : GuardSnapshot) : SwapWorld :=
  mk_swap_world now swap_snapshot demo_caps guards (λ _, 50) (λ a, Ok (default 0 (demo_caps !! a))) now (λ _ _ _, Ok (mk_prepared 88 [1; 2; 3])).

Definition swap_order (id min_out : Z) : Intent :=
  mk_intent id UniswapXV2 (mk_input 3 (Static 90000)) None [mk_output 5 (Static min_out) 6] 5000 None 9 1 [] [4; 5] 0.

Definition no_prices : TradePrices := mk_trade_prices None None.

Definition swap_submit (now : Z) (guards : GuardSnapshot) (order min_out id : Z) : SwapDeployment → result BackendError SwapOutcome * SwapDeployment :=
  submit order_hash256 swap_config_demo (swap_world now guards) (swap_order order min_out) 6 id no_prices.

(** The wallet reports how its first transaction ended. *)
Definition swap_chain_ends (ended : option Z) (s : SwapDeployment) : SwapDeployment :=
  put_exec s (mk_executor (ex_store (be_exec s)) (mk_demo_wallet (dw_log (ex_wallet (be_exec s))) {[0 := ended]})).

Definition swap_withheld (s : SwapDeployment) : SwapDeployment := mk_backend (be_ledger s) (be_trades s) (be_exec s) {[demo_key]}.

Definition swap_receipt (tx : B256) : result unit (option (list AquaEvent)) := Ok (Some [Pulled 1 9 7 5 50000]).

Definition swap_tick (now : Z) : SwapDeployment → result BackendError ReconcileReport * SwapDeployment := reconcile_tick swap_receipt now now.

(** An order is submitted, its fill mined, and the tick settles it. *)
Definition swap_sent : SwapDeployment := (swap_submit 100 ∅ 11 50000 1 (swap_installed [] [])).2.
Definition swap_mined : SwapDeployment := swap_chain_ends (Some 42) swap_sent.
Definition swap_settled : SwapDeployment := (swap_tick 200 swap_mined).2.

(** ** It is well formed *)

Lemma swap_installed_ok tf ff : swap_ok order_hash256 (swap_installed tf ff).
Proof.
  apply swap_fresh_ok; try done.
  apply (service_exec_ok (SSync (Ok demo_caps))); [apply demo_service_ok|].
  intros a x. unfold demo_caps. intros [[_ <-]|[_ [_ <-]%lookup_singleton_Some]]%lookup_insert_Some; by split.
Qed.

Lemma swap_world_typed now g : 0 ≤ now → world_typed (swap_world now g).
Proof.
  intros Hn. destruct (folded_ok demo_byte_decode) with (es := demo_events) as [Hs Hp]; [|apply demo_events_ok|].
  { intros strategy order. unfold demo_byte_decode. case_bool_decide; [|done]. by intros [= <-]. }
  constructor; cbn; [done|done| |apply demo_caps_words|done|done]. intros a x [= <-]. apply demo_caps_words.
Qed.

Lemma swap_order_typed id min_out : is_u256 id → is_u256 min_out → intent_typed (swap_order id min_out).
Proof. intros Hi Hm. constructor; cbn; [done|done|]. constructor; [done|constructor]. Qed.

Abbreviation swap_demo_step := (swap_step order_hash256 swap_config_demo).

Lemma swap_step_submit now g order min_out id (s : SwapDeployment) :
  0 ≤ now → is_u256 order → is_u256 min_out → swap_demo_step (Up s) (Up (swap_submit now g order min_out id s).2).
Proof. intros Hn Ho Hm. apply swap_submits; [by apply swap_world_typed|by apply swap_order_typed]. Qed.

Lemma word_small x : 0 ≤ x ≤ 1000000 → is_u256 x.
Proof. intros Hx. split; [lia|]. pose proof U256_MAX_big. lia. Qed.

Lemma swap_run_sent : rtc swap_demo_step (Up (swap_installed [] [])) (Up swap_sent).
Proof. apply rtc_once, swap_step_submit; [lia|by apply word_small..]. Qed.

Lemma swap_run_mined : rtc swap_demo_step (Up (swap_installed [] [])) (Up swap_mined).
Proof. eapply rtc_r; [apply swap_run_sent|]. apply swap_mines; vm_compute; try done. Qed.

(** The one fill in flight pulled what its hold has. *)
Lemma swap_mined_fits : receipts_fit swap_receipt (ticked swap_mined).
Proof.
  intros i r tx events ss Hi _ [= <-] Hss.
  assert (Hf : flights (ticked swap_mined) = {[11 := 11]}) by (by vm_compute). rewrite Hf in Hi. apply lookup_singleton_Some in Hi as [<- <-].
  assert (Hr : reservation_sources (be_ledger (ticked swap_mined)) 11 = Some [Build_ReservationSource 1 7 5 50000]) by (by vm_compute).
  rewrite Hr in Hss. injection Hss as <-.
  assert (Hp : pulled_for [Pulled 1 9 7 5 50000] (Build_ReservationSource 1 7 5 50000) = 50000) by (by vm_compute).
  unfold fills_ok. rewrite fmap_cons, fmap_nil, Hp. apply Forall2_cons_2; [cbn; lia|apply Forall2_nil_2].
Qed.

Lemma swap_run_settled : rtc swap_demo_step (Up swap_mined) (Up swap_settled).
Proof. apply rtc_once, swap_reconciles; [lia|apply swap_mined_fits]. Qed.

(** ** The theorems at work *)

(** The order was sent; sending it again changes nothing. *)
Lemma orders_are_sent_once_witness :
  length (exec_log (be_exec swap_sent)) = 1%nat
  ∧ exec_log (be_exec (swap_submit 101 ∅ 11 50000 2 swap_sent).2) = exec_log (be_exec swap_sent).
Proof.
  split; [by vm_compute|]. unfold swap_submit, swap_sent at 1.
  apply (orders_are_sent_once order_hash256 swap_config_demo order_hash_distinct ltac:(done) (Up (swap_installed [] [])) (swap_installed [] [])
    (swap_world 100 ∅) (swap_order 11 50000) 6 1 no_prices swap_sent (swap_world 101 ∅) (swap_order 11 50000) 6 2 no_prices).
  - apply swap_installed_ok.
  - apply rtc_refl.
  - by apply swap_world_typed.
  - by apply swap_order_typed; apply word_small.
  - by apply swap_world_typed.
  - by apply swap_order_typed; apply word_small.
  - done.
  - vm_compute. discriminate.
  - apply rtc_refl.
Defined.

Definition swap_hold : Reservation := for_swap 11 11 [Build_ReservationSource 1 7 5 50000] 700.

(** While a second order is admitted, the hold of the first stays. *)
Lemma fills_in_flight_stay_backed_witness :
  let s' := (swap_submit 101 ∅ 12 40000 2 swap_sent).2 in
  flights s' !! 11 = Some 11 ∧ flights s' !! 12 = Some 12
  ∧ (swap_holds s' !! 11 = Some swap_hold ∨ closed (be_ledger s') 11).
Proof.
  intros s'. assert (Hf : flights s' !! 11 = Some 11) by (by vm_compute). split; [done|]. split; [by vm_compute|].
  assert (Hx : swap_holds swap_sent !! 11 = Some swap_hold) by (by vm_compute). assert (Hp : res_state swap_hold = Pending) by done.
  assert (Hi : flights swap_sent !! 11 = Some 11) by (by vm_compute).
  assert (Hrun : rtc swap_demo_step (Up swap_sent) (Up s')) 
    by exact (rtc_once _ _ (swap_step_submit 101 ∅ 12 40000 2 swap_sent ltac:(lia) (word_small 12 ltac:(lia)) (word_small 40000 ltac:(lia)))).
  clearbody s'.
  destruct (fills_in_flight_stay_backed order_hash256 swap_config_demo order_hash_distinct ltac:(done) (Up (swap_installed [] [])) swap_sent s'
    11 11 11 swap_hold (swap_installed_ok [] []) swap_run_sent Hi Hx Hp Hrun Hf) as [_ [H|[H _]]]; [by left|by right].
Defined.

(** The trade of the order goes from open to confirmed. *)
Lemma trades_only_move_forward_witness :
  ∃ rec rec', trades swap_mined !! 1 = Some rec ∧ status (tr_trade rec) = Submitted
    ∧ trades swap_settled !! 1 = Some rec' ∧ status (tr_trade rec') = Confirmed ∧ moves (tr_trade rec) (tr_trade rec').
Proof.
  assert (Hst : (λ rec, status (tr_trade rec)) <$> trades swap_mined !! 1 = Some Submitted) by (by vm_compute).
  destruct (trades swap_mined !! 1) as [rec|] eqn:Hr; [|done]. injection Hst as Hs. assert (Hok : swap_phase_ok order_hash256 (Up swap_mined))
    by (by eapply (swap_run_ok order_hash256 swap_config_demo order_hash_distinct ltac:(done)); [apply swap_run_mined|apply swap_installed_ok]).
  destruct (trades_only_move_forward order_hash256 swap_config_demo order_hash_distinct ltac:(done) _ _ Hok swap_run_settled) as (Hf & _ & _).
  destruct (Hf 1 rec Hr) as (rec' & Hr' & Hm & _). exists rec, rec'. split; [done|]. split; [done|]. split; [done|]. split; [|done].
  assert (Hc : (λ rec, status (tr_trade rec)) <$> trades swap_settled !! 1 = Some Confirmed) by (by vm_compute).
  change (trades swap_settled !! 1 = Some rec') in Hr'. rewrite Hr' in Hc. by injection Hc.
Defined.

(** A first submission answers [Submitted] with the plan held and the fill tracked under its id. *)
Lemma submission_reserves_and_sends_once_witness :
  let s' := (swap_submit 100 ∅ 11 50000 1 (swap_installed [] [])).2 in
  submission order_hash256 swap_config_demo (swap_world 100 ∅) (swap_order 11 50000) (swap_installed [] [])
    (Ok (mk_swap_outcome 1 Submitted)) s'
  ∧ flights s' !! 11 = Some 11 ∧ swap_holds s' !! 11 = Some swap_hold.
Proof.
  intros s'. split; [|split; by vm_compute].
  pose proof (submission_reserves_and_sends_once order_hash256 swap_config_demo order_hash_distinct ltac:(done) (Up (swap_installed [] []))
    (swap_installed [] []) (swap_world 100 ∅) (swap_order 11 50000) 6 1 no_prices (swap_installed_ok [] []) (rtc_refl _ _)
    (swap_world_typed 100 ∅ ltac:(lia)) (swap_order_typed 11 50000 (word_small 11 ltac:(lia)) (word_small 50000 ltac:(lia)))) as H.
  unfold outcome in H.
  assert (Hres : (submit order_hash256 swap_config_demo (swap_world 100 ∅) (swap_order 11 50000) 6 1 no_prices (swap_installed [] [])).1
    = Ok (mk_swap_outcome 1 Submitted)) by (by vm_compute). rewrite Hres in H. exact H.
Defined.


(** ** Where the code and its comments part *)

Definition trade_state (s : SwapDeployment) (id : TradeId) : option (TradeStatus * option Z) :=
  (λ rec, (status (tr_trade rec), settled_at (tr_trade rec))) <$> trades s !! id.

(** A resubmission can decline a fill in flight.  A resubmission of an order whose fill is in flight, made while no route exists (here its strategy is guarded), does not
    echo the trade: it settles it [Declined].  The fill is still in flight, and when it is mined its hold is posted while the
    trade stays declined. *)
Theorem resubmission_declines_a_fill_in_flight :
  let again := swap_submit 101 {[demo_key]} 11 50000 2 swap_sent in
  let ended := swap_tick 200 (swap_chain_ends (Some 42) again.2) in
  trade_state swap_sent 1 = Some (Submitted, None)
  ∧ again.1 = Ok (mk_swap_outcome 1 Declined) ∧ trade_state again.2 1 = Some (Declined, Some 101) ∧ flights again.2 !! 11 = Some 11
  ∧ ended.1 = Ok (mk_reconcile_report 1 0) ∧ trade_state ended.2 1 = Some (Declined, Some 101)
  ∧ booked (be_ledger ended.2) 11 = Some [50000].
Proof. vm_compute. done. Qed.

(** The process stops after reserving and before the trade advanced to [Reserved]: the order is still [Quoted], so the next
    submission drives it again, but the reservation it derives is there already and the ledger refuses the duplicate. *)
Theorem redriven_order_is_refused :
  let first := swap_submit 100 ∅ 11 50000 1 (swap_installed [true; true; true; true; true; true; false] []) in
  let again := swap_submit 101 ∅ 11 50000 2 first.2 in
  first.1 = Err BTrades ∧ trade_state first.2 1 = Some (Quoted, None) ∧ swap_holds first.2 !! 11 = Some swap_hold
  ∧ again.1 = Err (BLedger (LedgerRefused (Duplicate 11))) ∧ trade_state again.2 1 = Some (Quoted, None).
Proof. vm_compute. done. Qed.

(** The fill is dropped; a tick voids its hold and settles its trade, but fails to forget the fill. *)
Definition swap_stuck : SwapDeployment :=
  (swap_tick 200 (swap_chain_ends None (swap_submit 100 ∅ 11 50000 1 (swap_installed [] (replicate 4 true ++ [false]))).2)).2.

Definition swap_restarted (s : SwapDeployment) : SwapDeployment :=
  match swap_boot (λ a, Ok (default 0 (demo_caps !! a))) (svc_store (be_ledger s)) (be_trades s) (be_exec s) with Up s' => s' | _ => s end.

(** A restart can wedge the reconcile loop.  A tick voided the hold of a dropped fill and settled its trade but failed to forget
    the fill.  After a restart the closed reservation is not in memory, so voiding it again is refused as unknown, which
    is not the wrong-state refusal the loop tolerates: this tick and the later ones fail there, with the fill still
    tracked, before they settle or sweep anything else. *)
Theorem restart_wedges_the_reconcile_loop :
  trade_state swap_stuck 1 = Some (Failed, Some 200) ∧ res_state <$> swap_holds swap_stuck !! 11 = Some Voided ∧ flights swap_stuck !! 11 = Some 11
  ∧ (let t1 := swap_tick 201 (swap_restarted swap_stuck) in let t2 := swap_tick 90000 t1.2 in
     t1.1 = Err (BLedger (LedgerRefused (Unknown 11))) ∧ t2.1 = Err (BLedger (LedgerRefused (Unknown 11))) ∧ flights t2.2 !! 11 = Some 11).
Proof. vm_compute. done. Qed.

(** The wallet took the transaction but recording the fill failed: nothing tracks it, so once the time of its hold has elapsed
    the sweep releases the hold and fails the trade, although the transaction may still be mined. *)
Theorem untracked_fill_loses_its_hold :
  let sent := swap_submit 100 ∅ 11 50000 1 (swap_installed [] [true; false]) in
  let late := swap_tick 800 (swap_chain_ends (Some 42) sent.2) in
  sent.1 = Err BExecution ∧ length (exec_log (be_exec sent.2)) = 1%nat ∧ flights sent.2 = ∅ ∧ trade_state sent.2 1 = Some (Reserved, None)
  ∧ late.1 = Ok (mk_reconcile_report 0 1) ∧ res_state <$> swap_holds late.2 !! 11 = Some Expired ∧ trade_state late.2 1 = Some (Failed, Some 800).
Proof. vm_compute. done. Qed.
