(* ===== verification/CrossChain.v ===== *)
(** * Cross-chain orders: data, fingerprints and checks

    [crates/core/src/primitives/crosschain.rs]: the values the chain services and the
    coordinating proxy exchange, the life of a preparation and of a saga; the fingerprints of
    [crosschain/fingerprint.rs], [crosschain/proxy.rs] and [crosschain/local.rs] over an abstract
    hash; and the checks that bind a quote, a plan and a preparation to one order. *)

From stdpp Require Import strings.
From S2P Require Import Prelude U256 Reservation.

Abbreviation AggregateQuoteId := B256.
Abbreviation CrossChainOrderId := B256.
Abbreviation CrossChainStepId := B256.
Abbreviation PrepareToken := B256.

#[local] Open Scope string_scope.
#[local] Open Scope list_scope.
#[local] Open Scope Z_scope.

(** ** Values *)

Inductive CrossChainRoute : Type := Direct | Cctp.

#[global] Instance CrossChainRoute_eq_dec : EqDecision CrossChainRoute.
Proof. solve_decision. Defined.

Inductive RemoteCommand : Type := Deliver | DispatchFillProof | ClaimOrigin | DispatchRepayment | CloseDestination.

#[global] Instance RemoteCommand_eq_dec : EqDecision RemoteCommand.
Proof. solve_decision. Defined.

(** [command as u8]. *)
Definition command_u8 (c : RemoteCommand) : Z :=
  match c with Deliver => 0 | DispatchFillProof => 1 | ClaimOrigin => 2 | DispatchRepayment => 3 | CloseDestination => 4 end.

Definition command_of_u8 (n : Z) : option RemoteCommand :=
  if n =? 0 then Some Deliver else if n =? 1 then Some DispatchFillProof else if n =? 2 then Some ClaimOrigin
  else if n =? 3 then Some DispatchRepayment else if n =? 4 then Some CloseDestination else None.

#[global] Program Instance RemoteCommand_countable : Countable RemoteCommand :=
  inj_countable command_u8 command_of_u8 _.
Next Obligation. by intros []. Qed.

Record PreparedStep := mk_step { ps_command : RemoteCommand; ps_target : Address; ps_value : U256; ps_calldata : list Z }.

#[global] Instance PreparedStep_eq_dec : EqDecision PreparedStep.
Proof. solve_decision. Defined.

Record ChainExecutionPlan := mk_plan { cp_aggregate : AggregateQuoteId; cp_chain : Z; cp_steps : list PreparedStep }.

Inductive LegRole : Type := Origin | Destination.

#[global] Instance LegRole_eq_dec : EqDecision LegRole.
Proof. solve_decision. Defined.

Definition role_u8 (r : LegRole) : Z := match r with Origin => 0 | Destination => 1 end.

Definition route_u8 (r : CrossChainRoute) : Z := match r with Direct => 0 | Cctp => 1 end.

Record LegQuoteRequest := mk_leg_request {
  lr_request : B256;
  lr_role : LegRole;
  lr_local_chain : Z;
  lr_remote_chain : Z;
  lr_input_token : Address;
  lr_output_token : Address;
  lr_amount : U256;
  lr_deadline : Z;
  lr_route : CrossChainRoute
}.

Record LegQuote := mk_leg_quote {
  lq_id : B256;
  lq_request : B256;
  lq_role : LegRole;
  lq_local_chain : Z;
  lq_remote_chain : Z;
  lq_input_token : Address;
  lq_output_token : Address;
  lq_amount_in : U256;
  lq_amount_out : U256;
  lq_route : CrossChainRoute;
  lq_block : Z;
  lq_expires_at : Z;
  lq_sources : list ReservationSource
}.

#[global] Instance LegQuote_eq_dec : EqDecision LegQuote.
Proof. solve_decision. Defined.

Record AggregateQuote := mk_aggregate {
  aq_id : AggregateQuoteId;
  aq_origin : LegQuote;
  aq_destination : LegQuote;
  aq_amount_in : U256;
  aq_amount_out : U256;
  aq_bridge_fee : U256;
  aq_finality : option Z;
  aq_expires_at : Z
}.

#[global] Instance AggregateQuote_eq_dec : EqDecision AggregateQuote.
Proof. solve_decision. Defined.

Record StepValidationContext := mk_context { vc_order : CrossChainOrderId; vc_quote : AggregateQuote; vc_role : LegRole }.

Definition leg_of (q : AggregateQuote) (r : LegRole) : LegQuote :=
  match r with Origin => aq_origin q | Destination => aq_destination q end.

Definition local_quote (c : StepValidationContext) : LegQuote := leg_of (vc_quote c) (vc_role c).

(** ** Direct orders, as the sponsor signs them *)

Record DirectSettlementOrder := mk_direct_order {
  do_user : Address;
  do_nonce : U256;
  do_origin_chain : Z;
  do_origin_settler : Address;
  do_compact : Address;
  do_compact_id : U256;
  do_compact_expires : Z;
  do_input_token : Address;
  do_input_amount : U256;
  do_destination_chain : Z;
  do_output_token : Address;
  do_minimum_output : U256;
  do_recipient : Address;
  do_destination_settler : Address;
  do_proof_verifier : Address;
  do_exclusive_filler : Address;
  do_exclusivity_ends : Z;
  do_fill_deadline : Z;
  do_route_kind : Z
}.

Record DirectSettlementMandate := mk_mandate {
  dm_order : B256;
  dm_destination_chain : Z;
  dm_destination_settler : Address;
  dm_proof_verifier : Address;
  dm_output_token : Address;
  dm_minimum_output : U256;
  dm_recipient : Address;
  dm_fill_deadline : Z;
  dm_exclusive_filler : Address;
  dm_route_kind : Z
}.

Record CompactClaimAuthorization := mk_claim {
  cc_signature : list Z;
  cc_sponsor : Address;
  cc_nonce : U256;
  cc_expires : Z;
  cc_witness : B256;
  cc_typestring : string;
  cc_id : U256;
  cc_allocated : U256;
  cc_claimant : Address;
  cc_claimant_amount : U256
}.

Record DirectOrderAuthorization := mk_direct_authorization {
  da_quote : AggregateQuote;
  da_order_id : CrossChainOrderId;
  da_order : DirectSettlementOrder;
  da_mandate : DirectSettlementMandate;
  da_claim : CompactClaimAuthorization
}.

Record DirectExecutionPlans := mk_direct_plans { dp_origin : ChainExecutionPlan; dp_destination : ChainExecutionPlan }.

(** ** Preparations *)

Module PreparationState.
Inductive t : Type := Prepared | Committed | Executed | Released.
#[global] Instance t_eq_dec : EqDecision t.
Proof. solve_decision. Defined.
End PreparationState.

Record Preparation := mk_preparation {
  pr_token : PrepareToken;
  pr_quote : AggregateQuoteId;
  pr_role : LegRole;
  pr_chain : Z;
  pr_state : PreparationState.t;
  pr_expires_at : Z
}.

#[global] Instance Preparation_eq_dec : EqDecision Preparation.
Proof. solve_decision. Defined.

Definition with_prep_state (p : Preparation) (s : PreparationState.t) : Preparation :=
  mk_preparation (pr_token p) (pr_quote p) (pr_role p) (pr_chain p) s (pr_expires_at p).

(** ** Sagas *)

Module SagaState.
Inductive t : Type :=
| Quoted | Preparing | Prepared | DestinationPending | DestinationFinalized | FillProofPending | OriginPending | OriginFinalized
| RepaymentPending | Complete | FailedBeforeDelivery | NeedsReconcile.
#[global] Instance t_eq_dec : EqDecision t.
Proof. solve_decision. Defined.

Definition permits (s next : t) : bool :=
  match s, next with
  | Quoted, Preparing => true
  | Preparing, (Prepared | FailedBeforeDelivery) => true
  | Prepared, (DestinationPending | FailedBeforeDelivery) => true
  | DestinationPending, (DestinationFinalized | FailedBeforeDelivery | NeedsReconcile) => true
  | DestinationFinalized, (FillProofPending | NeedsReconcile) => true
  | FillProofPending, (OriginPending | NeedsReconcile) => true
  | OriginPending, (OriginFinalized | NeedsReconcile) => true
  | OriginFinalized, (RepaymentPending | Complete | NeedsReconcile) => true
  | RepaymentPending, (Complete | NeedsReconcile) => true
  | NeedsReconcile, (DestinationPending | FillProofPending | OriginPending | RepaymentPending | Complete) => true
  | _, _ => bool_decide (s = next)
  end.

(** Not [complete] and not [failed_before_delivery]. *)
Definition unfinished (s : t) : bool := match s with Complete | FailedBeforeDelivery => false | _ => true end.
End SagaState.

Inductive CrossChainInvariantError : Type :=
| PreparationTransition (from to : PreparationState.t)
| SagaTransition (from to : SagaState.t).

(** How the error is shown. *)
Definition preparation_debug (s : PreparationState.t) : string :=
  match s with
  | PreparationState.Prepared => "Prepared"
  | PreparationState.Committed => "Committed"
  | PreparationState.Executed => "Executed"
  | PreparationState.Released => "Released"
  end.

Definition saga_debug (s : SagaState.t) : string :=
  match s with
  | SagaState.Quoted => "Quoted"
  | SagaState.Preparing => "Preparing"
  | SagaState.Prepared => "Prepared"
  | SagaState.DestinationPending => "DestinationPending"
  | SagaState.DestinationFinalized => "DestinationFinalized"
  | SagaState.FillProofPending => "FillProofPending"
  | SagaState.OriginPending => "OriginPending"
  | SagaState.OriginFinalized => "OriginFinalized"
  | SagaState.RepaymentPending => "RepaymentPending"
  | SagaState.Complete => "Complete"
  | SagaState.FailedBeforeDelivery => "FailedBeforeDelivery"
  | SagaState.NeedsReconcile => "NeedsReconcile"
  end.

Definition invariant_text (e : CrossChainInvariantError) : string :=
  String.concat EmptyString
    match e with
    | PreparationTransition from to =>
        ["invalid preparation transition from "; preparation_debug from; " to "; preparation_debug to]
    | SagaTransition from to => ["invalid saga transition from "; saga_debug from; " to "; saga_debug to]
    end.

(** ** The moves of a preparation *)

Definition Preparation_commit (p : Preparation) : result CrossChainInvariantError Preparation :=
  match pr_state p with
  | PreparationState.Prepared | PreparationState.Committed => Ok (with_prep_state p PreparationState.Committed)
  | from => Err (PreparationTransition from PreparationState.Committed)
  end.

Definition Preparation_execute (p : Preparation) : result CrossChainInvariantError Preparation :=
  match pr_state p with
  | PreparationState.Committed | PreparationState.Executed => Ok (with_prep_state p PreparationState.Executed)
  | from => Err (PreparationTransition from PreparationState.Executed)
  end.

Definition Preparation_release (p : Preparation) : result CrossChainInvariantError Preparation :=
  match pr_state p with
  | PreparationState.Prepared | PreparationState.Committed | PreparationState.Released =>
      Ok (with_prep_state p PreparationState.Released)
  | from => Err (PreparationTransition from PreparationState.Released)
  end.

(** ** The record of a saga *)

Module Stage.
Inductive t : Type := Quoted | DestinationFill | ProofRelay | OriginClaim | Repayment | Complete.
#[global] Instance t_eq_dec : EqDecision t.
Proof. solve_decision. Defined.
End Stage.

Record CrossChainLifecycleEvent := mk_event { ev_stage : Stage.t; ev_at : Z }.

#[global] Instance CrossChainLifecycleEvent_eq_dec : EqDecision CrossChainLifecycleEvent.
Proof. solve_decision. Defined.

Record StepEvidence := mk_evidence {
  se_command : CrossChainStepId;
  se_tx : option B256;
  se_block : option Z;
  se_message : option B256
}.

#[global] Instance StepEvidence_eq_dec : EqDecision StepEvidence.
Proof. solve_decision. Defined.

Record CrossChainSaga := mk_saga {
  sg_order : CrossChainOrderId;
  sg_taker : option Address;
  sg_quote : AggregateQuote;
  sg_state : SagaState.t;
  sg_lifecycle : list CrossChainLifecycleEvent;
  sg_origin_prepare : option PrepareToken;
  sg_destination_prepare : option PrepareToken;
  sg_destination : option StepEvidence;
  sg_fill_proof : option StepEvidence;
  sg_origin : option StepEvidence;
  sg_repayment : option StepEvidence;
  sg_failure : option string
}.

#[global] Instance CrossChainSaga_eq_dec : EqDecision CrossChainSaga.
Proof. solve_decision. Defined.

(** Assignments to the fields of a saga. *)
Definition set_state (g : CrossChainSaga) (s : SagaState.t) : CrossChainSaga :=
  mk_saga (sg_order g) (sg_taker g) (sg_quote g) s (sg_lifecycle g) (sg_origin_prepare g) (sg_destination_prepare g)
    (sg_destination g) (sg_fill_proof g) (sg_origin g) (sg_repayment g) (sg_failure g).

Definition set_failure (g : CrossChainSaga) (f : string) : CrossChainSaga :=
  mk_saga (sg_order g) (sg_taker g) (sg_quote g) (sg_state g) (sg_lifecycle g) (sg_origin_prepare g) (sg_destination_prepare g)
    (sg_destination g) (sg_fill_proof g) (sg_origin g) (sg_repayment g) (Some f).

Definition set_prepare (r : LegRole) (g : CrossChainSaga) (t : PrepareToken) : CrossChainSaga :=
  mk_saga (sg_order g) (sg_taker g) (sg_quote g) (sg_state g) (sg_lifecycle g)
    (match r with Origin => Some t | Destination => sg_origin_prepare g end)
    (match r with Origin => sg_destination_prepare g | Destination => Some t end)
    (sg_destination g) (sg_fill_proof g) (sg_origin g) (sg_repayment g) (sg_failure g).

Definition record_destination (g : CrossChainSaga) (e : StepEvidence) : CrossChainSaga :=
  mk_saga (sg_order g) (sg_taker g) (sg_quote g) (sg_state g) (sg_lifecycle g) (sg_origin_prepare g) (sg_destination_prepare g)
    (Some e) (sg_fill_proof g) (sg_origin g) (sg_repayment g) (sg_failure g).

Definition record_fill_proof (g : CrossChainSaga) (e : StepEvidence) : CrossChainSaga :=
  mk_saga (sg_order g) (sg_taker g) (sg_quote g) (sg_state g) (sg_lifecycle g) (sg_origin_prepare g) (sg_destination_prepare g)
    (sg_destination g) (Some e) (sg_origin g) (sg_repayment g) (sg_failure g).

Definition record_origin (g : CrossChainSaga) (e : StepEvidence) : CrossChainSaga :=
  mk_saga (sg_order g) (sg_taker g) (sg_quote g) (sg_state g) (sg_lifecycle g) (sg_origin_prepare g) (sg_destination_prepare g)
    (sg_destination g) (sg_fill_proof g) (Some e) (sg_repayment g) (sg_failure g).

Definition record_repayment (g : CrossChainSaga) (e : StepEvidence) : CrossChainSaga :=
  mk_saga (sg_order g) (sg_taker g) (sg_quote g) (sg_state g) (sg_lifecycle g) (sg_origin_prepare g) (sg_destination_prepare g)
    (sg_destination g) (sg_fill_proof g) (sg_origin g) (Some e) (sg_failure g).

Definition prepare_of (r : LegRole) (g : CrossChainSaga) : option PrepareToken :=
  match r with Origin => sg_origin_prepare g | Destination => sg_destination_prepare g end.

Definition transition (g : CrossChainSaga) (next : SagaState.t) : result CrossChainInvariantError CrossChainSaga :=
  if SagaState.permits (sg_state g) next then Ok (set_state g next) else Err (SagaTransition (sg_state g) next).

(** A stage is recorded once. *)
Definition record_lifecycle (g : CrossChainSaga) (stage : Stage.t) (at_ : Z) : CrossChainSaga :=
  if forallb (λ e, negb (bool_decide (ev_stage e = stage))) (sg_lifecycle g)
  then mk_saga (sg_order g) (sg_taker g) (sg_quote g) (sg_state g) (sg_lifecycle g ++ [mk_event stage at_]) (sg_origin_prepare g)
         (sg_destination_prepare g) (sg_destination g) (sg_fill_proof g) (sg_origin g) (sg_repayment g) (sg_failure g)
  else g.

(** ** Fingerprints *)

Section fingerprints.
Context (keccak256 : list Z → B256).

Definition source_bytes (s : ReservationSource) : list Z :=
  be_bytes 20 (src_maker s) ++ be_bytes 32 (src_strategy_hash s) ++ be_bytes 20 (src_token s) ++ be_bytes 32 (src_amount s).

Definition leg_quote_preimage (q : LegQuote) : list Z :=
  be_bytes 32 (lq_request q) ++ be_bytes 1 (role_u8 (lq_role q)) ++ be_bytes 8 (lq_local_chain q) ++ be_bytes 8 (lq_remote_chain q)
  ++ be_bytes 20 (lq_input_token q) ++ be_bytes 20 (lq_output_token q) ++ be_bytes 32 (lq_amount_in q) ++ be_bytes 32 (lq_amount_out q)
  ++ be_bytes 1 (route_u8 (lq_route q)) ++ be_bytes 8 (lq_block q) ++ be_bytes 8 (lq_expires_at q)
  ++ be_bytes 8 (Z.of_nat (length (lq_sources q))) ++ (lq_sources q ≫= source_bytes).

Definition leg_quote_id (q : LegQuote) : B256 := keccak256 (leg_quote_preimage q).

Definition aggregate_preimage (origin destination : LegQuote) (fee : U256) (finality : option Z) : list Z :=
  be_bytes 32 (lq_id origin) ++ be_bytes 32 (lq_id destination) ++ be_bytes 32 fee ++ be_bytes 4 (default 0 finality).

Definition aggregate_id (origin destination : LegQuote) (fee : U256) (finality : option Z) : AggregateQuoteId :=
  keccak256 (aggregate_preimage origin destination fee finality).

Definition step_preimage (order : CrossChainOrderId) (chain : Z) (c : RemoteCommand) : list Z :=
  be_bytes 32 order ++ be_bytes 8 chain ++ be_bytes 1 (command_u8 c).

Definition step_id (order : CrossChainOrderId) (chain : Z) (c : RemoteCommand) : CrossChainStepId :=
  keccak256 (step_preimage order chain c).

Definition token_preimage (quote : AggregateQuoteId) (chain : Z) (r : LegRole) : list Z :=
  be_bytes 32 quote ++ be_bytes 8 chain ++ be_bytes 1 (role_u8 r).

Definition preparation_token (quote : AggregateQuoteId) (chain : Z) (r : LegRole) : PrepareToken :=
  keccak256 (token_preimage quote chain r).

(** ** Checks *)

(** What both checks of a pair of legs ask of them. *)
Definition legs_bound (origin destination : LegQuote) : bool :=
  (lq_id origin =? leg_quote_id origin) && (lq_id destination =? leg_quote_id destination)
  && bool_decide (lq_role origin = Origin) && bool_decide (lq_role destination = Destination)
  && negb (lq_local_chain origin =? lq_local_chain destination)
  && (lq_local_chain origin =? lq_remote_chain destination) && (lq_remote_chain origin =? lq_local_chain destination)
  && (lq_request origin =? lq_request destination) && bool_decide (lq_route origin = lq_route destination).

Definition aggregate_quote (origin destination : LegQuote) (now : Z) : result string AggregateQuote :=
  let compatible :=
    legs_bound origin destination
    && negb (lq_amount_in origin =? 0) && negb (lq_amount_out origin =? 0)
    && negb (lq_amount_in destination =? 0) && negb (lq_amount_out destination =? 0)
    && (negb (bool_decide (lq_route origin = Cctp)) || (lq_amount_in destination <=? lq_amount_out origin)) in
  if negb compatible then Err "origin and destination quotes are incompatible"
  else
    let expires_at := Z.min (lq_expires_at origin) (lq_expires_at destination) in
    if expires_at <=? now then Err "aggregate quote has expired"
    else Ok (mk_aggregate (aggregate_id origin destination 0 None) origin destination (lq_amount_in origin)
               (lq_amount_out destination) 0 None expires_at).

Definition validate_aggregate_binding (q : AggregateQuote) (now : Z) : result string unit :=
  let origin := aq_origin q in
  let destination := aq_destination q in
  let compatible :=
    (aq_id q =? aggregate_id origin destination (aq_bridge_fee q) (aq_finality q))
    && legs_bound origin destination
    && (aq_amount_in q =? lq_amount_in origin) && (aq_amount_out q =? lq_amount_out destination)
    && (aq_expires_at q =? Z.min (lq_expires_at origin) (lq_expires_at destination))
    && negb (aq_amount_in q =? 0) && negb (aq_amount_out q =? 0) in
  if negb compatible then Err "aggregate quote context is inconsistent"
  else
    _ ← match lq_route origin with
        | Direct =>
            if negb (aq_bridge_fee q =? 0) || bool_decide (is_Some (aq_finality q)) then Err "direct quote contains CCTP terms" else Ok tt
        | Cctp =>
            required ← ok_or (checked_add (lq_amount_in destination) (aq_bridge_fee q)) "CCTP repayment plus fee exceeds uint256";
            if negb (bool_decide (is_Some (aq_finality q))) || (lq_amount_out origin <? required)
            then Err "CCTP aggregate terms are inconsistent" else Ok tt
        end;
    if aq_expires_at q <=? now then Err "aggregate quote expired before order admission" else Ok tt.

End fingerprints.

(** The commands a plan must hold for its route and role. *)
Definition initial_commands (route : CrossChainRoute) (r : LegRole) : list RemoteCommand :=
  match route, r with
  | Direct, Origin => [ClaimOrigin; DispatchRepayment]
  | Direct, Destination => [Deliver; DispatchFillProof; CloseDestination]
  | Cctp, Origin => [ClaimOrigin]
  | Cctp, Destination => [Deliver; DispatchFillProof]
  end.

(** The plan's commands, as a set, are those; and none repeats. *)
Definition plan_shape (route : CrossChainRoute) (r : LegRole) (plan : ChainExecutionPlan) : bool :=
  let actual : gset RemoteCommand := list_to_set (ps_command <$> cp_steps plan) in
  bool_decide (actual = list_to_set (initial_commands route r)) && (size actual =? length (cp_steps plan))%nat.

Definition validate_plan (q : AggregateQuote) (plan : ChainExecutionPlan) (r : LegRole) : result string unit :=
  if negb (cp_aggregate plan =? aq_id q) || negb (cp_chain plan =? lq_local_chain (leg_of q r)) || (length (cp_steps plan) =? 0)%nat
  then Err "execution plan does not match the aggregate quote"
  else if negb (plan_shape (lq_route (aq_origin q)) r plan)
       then Err "execution plan has the wrong commands for its route and chain role" else Ok tt.

(** The remote hold is the saga's own and committed. *)
Definition validate_committed (g : CrossChainSaga) (p : Preparation) (r : LegRole) : result string unit :=
  if negb (bool_decide (Some (pr_token p) = prepare_of r g)) || negb (pr_quote p =? aq_id (sg_quote g))
     || negb (bool_decide (pr_role p = r)) || negb (pr_chain p =? lq_local_chain (leg_of (sg_quote g) r))
     || negb (bool_decide (pr_state p = PreparationState.Committed))
  then Err "remote service did not confirm the expected committed preparation" else Ok tt.
