(* ===== verification/CrossStores.v ===== *)
(** * The cross-chain stores

    The four ports of [crates/core/src/deps/crosschain/] that keep state, each as a type class with
    an abstract view as its contract, and [crates/adapters/src/crosschain/sqlite.rs] as their
    instances: every statement may fail, and the staging of a plan is one transaction. *)

From stdpp Require Import strings.
From S2P Require Import Prelude Commands U256 LedgerStore CrossChain.

#[local] Open Scope Z_scope.

(** ** Ports *)

(** A [Backend] failure, or the [Conflict] the caller distinguishes. *)
Inductive CrossStoreError : Type := StoreBackend | StoreConflict.

Class PreparationStore (St : Type) := {
  prep_insert : Preparation → cmd St CrossStoreError Preparation;
  prep_load : PrepareToken → cmd St CrossStoreError (option Preparation);
  prep_load_for_quote : AggregateQuoteId → LegRole → cmd St CrossStoreError (option Preparation);
  prep_update : Preparation → cmd St CrossStoreError unit
}.

Class LegQuoteStore (St : Type) := {
  quote_insert : LegQuote → cmd St CrossStoreError LegQuote;
  quote_load : B256 → cmd St CrossStoreError (option LegQuote)
}.

Class StepStore (St : Type) := {
  step_stage : CrossChainOrderId → ChainExecutionPlan → cmd St CrossStoreError unit;
  step_load : CrossChainOrderId → RemoteCommand → cmd St CrossStoreError (option PreparedStep);
  step_aggregate : CrossChainOrderId → RemoteCommand → cmd St CrossStoreError (option AggregateQuoteId)
}.

Class SagaStore (St : Type) := {
  saga_insert : CrossChainSaga → cmd St CrossStoreError CrossChainSaga;
  saga_load : CrossChainOrderId → cmd St CrossStoreError (option CrossChainSaga);
  saga_update : CrossChainSaga → cmd St CrossStoreError unit;
  saga_recoverable : cmd St CrossStoreError (list CrossChainSaga)
}.

(** ** What each promises *)

(** A read changes nothing a reader can see. *)
Definition reads {St V} (ok : St → Prop) (view : St → V) {A} (s : St) (right : A → Prop) (res : result CrossStoreError A) (s' : St) : Prop :=
  ok s' ∧ view s' = view s ∧ ∀ a, res = Ok a → right a.

(** An insert adds its value under a free key, or nothing; when it succeeds the value is there. *)
Definition inserts {St V} (ok : St → Prop) (view : St → gmap Z V) (s : St) (k : Z) (v : V) (res : result CrossStoreError V) (s' : St) : Prop :=
  ok s' ∧ (view s' = view s ∨ view s !! k = None ∧ view s' = <[k := v]> (view s))
  ∧ ∀ v', res = Ok v' → v' = v ∧ view s' !! k = Some v.

(** A hold is filed under its token and is the only one of its quote and role. *)
Record preparations_ok (v : gmap PrepareToken Preparation) : Prop := {
  preps_filed : ∀ t p, v !! t = Some p → pr_token p = t;
  preps_single : ∀ t t' p p', v !! t = Some p → v !! t' = Some p' → pr_quote p = pr_quote p' → pr_role p = pr_role p' → t = t'
}.

Class PreparationStoreLaws (St : Type) `{PreparationStore St} := {
  prep_store_ok : St → Prop;
  prep_view : St → gmap PrepareToken Preparation;
  prep_view_ok s : prep_store_ok s → preparations_ok (prep_view s);
  prep_insert_law p s : prep_store_ok s →
    outcome (prep_insert p) (inserts prep_store_ok prep_view s (pr_token p) p) s;
  prep_load_law t s : prep_store_ok s → outcome (prep_load t) (reads prep_store_ok prep_view s (λ o, o = prep_view s !! t)) s;
  prep_load_for_quote_law q r s : prep_store_ok s →
    outcome (prep_load_for_quote q r) (reads prep_store_ok prep_view s (λ o,
      match o with
      | Some p => prep_view s !! pr_token p = Some p ∧ pr_quote p = q ∧ pr_role p = r
      | None => ∀ t p, prep_view s !! t = Some p → pr_quote p = q → pr_role p ≠ r
      end)) s;
  prep_update_law p p0 s : prep_store_ok s → prep_view s !! pr_token p = Some p0 → p = with_prep_state p0 (pr_state p) →
    outcome (prep_update p) (λ res s', prep_store_ok s' ∧
      prep_view s' = match res with Ok _ => <[pr_token p := p]> (prep_view s) | Err _ => prep_view s end) s
}.

Class LegQuoteStoreLaws (St : Type) `{LegQuoteStore St} := {
  quote_store_ok : St → Prop;
  quote_view : St → gmap B256 LegQuote;
  quote_view_filed s i q : quote_store_ok s → quote_view s !! i = Some q → lq_id q = i;
  quote_insert_law q s : quote_store_ok s →
    outcome (quote_insert q) (inserts quote_store_ok quote_view s (lq_id q) q) s;
  quote_load_law i s : quote_store_ok s → outcome (quote_load i) (reads quote_store_ok quote_view s (λ o, o = quote_view s !! i)) s
}.

(** The quote each order is bound to, and its staged calls. *)
Record StepView := mk_step_view {
  bindings : gmap CrossChainOrderId AggregateQuoteId;
  staged : gmap (CrossChainOrderId * RemoteCommand) (AggregateQuoteId * PreparedStep)
}.

(** No two orders share a quote, and a staged call carries its order's quote and its own command. *)
Record steps_ok (v : StepView) : Prop := {
  bindings_inj : ∀ o o' a, bindings v !! o = Some a → bindings v !! o' = Some a → o = o';
  staged_bound : ∀ o c a x, staged v !! (o, c) = Some (a, x) → bindings v !! o = Some a ∧ ps_command x = c
}.

Class StepStoreLaws (St : Type) `{StepStore St} := {
  step_store_ok : St → Prop;
  step_view : St → StepView;
  step_view_ok s : step_store_ok s → steps_ok (step_view s);
  step_stage_law o plan s : step_store_ok s →
    outcome (step_stage o plan) (λ res s', step_store_ok s' ∧
      match res with
      | Ok _ => bindings (step_view s') = <[o := cp_aggregate plan]> (bindings (step_view s))
          ∧ bindings (step_view s) ⊆ bindings (step_view s')
          ∧ staged (step_view s) ⊆ staged (step_view s')
          ∧ (∀ x, x ∈ cp_steps plan → staged (step_view s') !! (o, ps_command x) = Some (cp_aggregate plan, x))
          ∧ ∀ k x, staged (step_view s') !! k = Some x → staged (step_view s) !! k = Some x ∨ k.1 = o ∧ x.2 ∈ cp_steps plan
      | Err _ => step_view s' = step_view s
      end) s;
  step_load_law o c s : step_store_ok s →
    outcome (step_load o c) (reads step_store_ok step_view s (λ x, x = snd <$> staged (step_view s) !! (o, c))) s;
  step_aggregate_law o c s : step_store_ok s →
    outcome (step_aggregate o c) (reads step_store_ok step_view s (λ x, x = fst <$> staged (step_view s) !! (o, c))) s
}.

Class SagaStoreLaws (St : Type) `{SagaStore St} := {
  saga_store_ok : St → Prop;
  sagas : St → gmap CrossChainOrderId CrossChainSaga;
  sagas_filed s o g : saga_store_ok s → sagas s !! o = Some g → sg_order g = o;
  saga_insert_law g s : saga_store_ok s →
    outcome (saga_insert g) (inserts saga_store_ok sagas s (sg_order g) g) s;
  saga_load_law o s : saga_store_ok s → outcome (saga_load o) (reads saga_store_ok sagas s (λ x, x = sagas s !! o)) s;
  saga_update_law g s : saga_store_ok s →
    outcome (saga_update g) (λ res s', saga_store_ok s' ∧
      match res with
      | Ok _ => is_Some (sagas s !! sg_order g) ∧ sagas s' = <[sg_order g := g]> (sagas s)
      | Err _ => sagas s' = sagas s
      end) s;
  saga_recoverable_law s : saga_store_ok s →
    outcome saga_recoverable (reads saga_store_ok sagas s (λ l,
      ∀ g, g ∈ l ↔ sagas s !! sg_order g = Some g ∧ SagaState.unfinished (sg_state g) = true)) s
}.

(** ** SQLite *)

(** A table, or the tables of one store, with the outcomes of the coming statements. *)
Record Db (T : Type) := mk_db { db_data : T; db_outcomes : list bool }.
Arguments mk_db {T} _ _.
Arguments db_data {T} _.
Arguments db_outcomes {T} _.

Definition statement {T} : cmd (Db T) CrossStoreError unit := λ db,
  match db_outcomes db with
  | [] => (Ok tt, db)
  | ok :: rest => ((if ok : bool then Ok tt else Err StoreBackend), mk_db (db_data db) rest)
  end.

(** Write the data of a statement, or of a transaction as it commits. *)
Definition write {T} (t : T) : cmd (Db T) CrossStoreError unit := modify (λ db, mk_db t (db_outcomes db)).

Definition role_label (r : LegRole) : string := match r with Origin => "origin" | Destination => "destination" end.

Definition preparation_state_label (s : PreparationState.t) : string :=
  match s with
  | PreparationState.Prepared => "prepared"
  | PreparationState.Committed => "committed"
  | PreparationState.Executed => "executed"
  | PreparationState.Released => "released"
  end.

Definition saga_state_label (s : SagaState.t) : string :=
  match s with
  | SagaState.Quoted => "quoted"
  | SagaState.Preparing => "preparing"
  | SagaState.Prepared => "prepared"
  | SagaState.DestinationPending => "destination_pending"
  | SagaState.DestinationFinalized => "destination_finalized"
  | SagaState.FillProofPending => "fill_proof_pending"
  | SagaState.OriginPending => "origin_pending"
  | SagaState.OriginFinalized => "origin_finalized"
  | SagaState.RepaymentPending => "repayment_pending"
  | SagaState.Complete => "complete"
  | SagaState.FailedBeforeDelivery => "failed_before_delivery"
  | SagaState.NeedsReconcile => "needs_reconcile"
  end.

Definition command_label (c : RemoteCommand) : string :=
  match c with
  | Deliver => "deliver"
  | DispatchFillProof => "dispatch_fill_proof"
  | ClaimOrigin => "claim_origin"
  | DispatchRepayment => "dispatch_repayment"
  | CloseDestination => "close_destination"
  end.

Definition cross_i64_of (v : Z) : result CrossStoreError Z := if v <=? I64_MAX then Ok v else Err StoreBackend.

(** *** Preparations *)

Record PreparationRow := mk_prep_row {
  prow_quote : AggregateQuoteId;
  prow_role : string;
  prow_chain : Z;
  prow_state : string;
  prow_expires_at : Z;
  prow_body : Preparation
}.

Abbreviation PreparationDb := (Db (gmap PrepareToken PreparationRow)).

Definition prep_row (p : Preparation) : result CrossStoreError PreparationRow :=
  chain ← cross_i64_of (pr_chain p);
  expires_at ← cross_i64_of (pr_expires_at p);
  Ok (mk_prep_row (pr_quote p) (role_label (pr_role p)) chain (preparation_state_label (pr_state p)) expires_at p).

(** The row of a quote and role; the pair is unique. *)
Definition row_of_quote (t : gmap PrepareToken PreparationRow) (q : AggregateQuoteId) (r : LegRole) : option PreparationRow :=
  snd <$> head (filter (λ p, prow_quote p.2 = q ∧ prow_role p.2 = role_label r) (map_to_list t)).

Definition sqlite_prep_load (t : PrepareToken) : cmd PreparationDb CrossStoreError (option Preparation) :=
  _ ← statement; rows ← gets db_data; mret (prow_body <$> rows !! t).

(** The insert ignores a row of its own token and is refused by another of its quote and role. *)
Definition sqlite_prep_insert (p : Preparation) : cmd PreparationDb CrossStoreError Preparation :=
  row ← lift (prep_row p);
  _ ← statement;
  rows ← gets db_data;
  _ ← match rows !! pr_token p with
      | Some _ => mret tt
      | None =>
          match row_of_quote rows (pr_quote p) (pr_role p) with
          | Some _ => fail StoreBackend
          | None => write (<[pr_token p := row]> rows)
          end
      end;
  stored ← sqlite_prep_load (pr_token p);
  match stored with
  | Some s => if bool_decide (s = p) then mret s else fail StoreConflict
  | None => fail StoreBackend
  end.

Definition sqlite_prep_load_for_quote (q : AggregateQuoteId) (r : LegRole) : cmd PreparationDb CrossStoreError (option Preparation) :=
  _ ← statement; rows ← gets db_data; mret (prow_body <$> row_of_quote rows q r).

Definition sqlite_prep_update (p : Preparation) : cmd PreparationDb CrossStoreError unit :=
  _ ← statement;
  rows ← gets db_data;
  match rows !! pr_token p with
  | None => fail StoreBackend
  | Some row =>
      write (<[pr_token p := mk_prep_row (prow_quote row) (prow_role row) (prow_chain row) (preparation_state_label (pr_state p))
                               (prow_expires_at row) p]> rows)
  end.

#[global] Instance sqlite_preparation_store : PreparationStore PreparationDb := {|
  prep_insert := sqlite_prep_insert;
  prep_load := sqlite_prep_load;
  prep_load_for_quote := sqlite_prep_load_for_quote;
  prep_update := sqlite_prep_update
|}.

(** *** Leg quotes *)

Abbreviation LegQuoteDb := (Db (gmap B256 (Z * LegQuote))).

Definition sqlite_quote_load (i : B256) : cmd LegQuoteDb CrossStoreError (option LegQuote) :=
  _ ← statement; rows ← gets db_data; mret (snd <$> rows !! i).

Definition sqlite_quote_insert (q : LegQuote) : cmd LegQuoteDb CrossStoreError LegQuote :=
  expires_at ← lift (cross_i64_of (lq_expires_at q));
  _ ← statement;
  rows ← gets db_data;
  _ ← match rows !! lq_id q with Some _ => mret tt | None => write (<[lq_id q := (expires_at, q)]> rows) end;
  stored ← sqlite_quote_load (lq_id q);
  match stored with
  | Some s => if bool_decide (s = q) then mret s else fail StoreConflict
  | None => fail StoreBackend
  end.

#[global] Instance sqlite_leg_quote_store : LegQuoteStore LegQuoteDb := {|
  quote_insert := sqlite_quote_insert;
  quote_load := sqlite_quote_load
|}.

(** *** Staged calls *)

(** [crosschain_order_binding], unique on both columns, and [crosschain_step], whose quote column may be null. *)
Record StepTables := mk_step_tables {
  order_binding : gmap CrossChainOrderId AggregateQuoteId;
  step_rows : gmap (CrossChainOrderId * string) (option AggregateQuoteId * PreparedStep)
}.

Abbreviation StepDb := (Db StepTables).

(** [INSERT OR IGNORE]: neither a second quote for the order nor a second order for the quote. *)
Definition insert_binding (o : CrossChainOrderId) (a : AggregateQuoteId) (b : gmap CrossChainOrderId AggregateQuoteId) :
    gmap CrossChainOrderId AggregateQuoteId :=
  match b !! o with
  | Some _ => b
  | None => if bool_decide (a ∈ (map_to_list b).*2) then b else <[o := a]> b
  end.

Fixpoint stage_steps (o : CrossChainOrderId) (a : AggregateQuoteId) (steps : list PreparedStep)
    (rows : gmap (CrossChainOrderId * string) (option AggregateQuoteId * PreparedStep)) :
    cmd StepDb CrossStoreError (gmap (CrossChainOrderId * string) (option AggregateQuoteId * PreparedStep)) :=
  match steps with
  | [] => mret rows
  | x :: steps' =>
      _ ← statement;
      let key := (o, command_label (ps_command x)) in
      let rows' := match rows !! key with Some _ => rows | None => <[key := (Some a, x)]> rows end in
      _ ← statement;
      row ← lift (ok_or (rows' !! key) StoreBackend);
      bound ← lift (ok_or row.1 StoreConflict);
      if negb (bound =? a) || negb (bool_decide (row.2 = x)) then fail StoreConflict
      else stage_steps o a steps' rows'
  end.

Definition sqlite_stage (o : CrossChainOrderId) (plan : ChainExecutionPlan) : cmd StepDb CrossStoreError unit :=
  _ ← statement;
  tables ← gets db_data;
  _ ← statement;
  let b := insert_binding o (cp_aggregate plan) (order_binding tables) in
  _ ← statement;
  bound ← lift (ok_or (b !! o) StoreConflict);
  if negb (bound =? cp_aggregate plan) then fail StoreConflict
  else
    rows ← stage_steps o (cp_aggregate plan) (cp_steps plan) (step_rows tables);
    _ ← statement;
    write (mk_step_tables b rows).

Definition sqlite_step_load (o : CrossChainOrderId) (c : RemoteCommand) : cmd StepDb CrossStoreError (option PreparedStep) :=
  _ ← statement; tables ← gets db_data; mret (snd <$> step_rows tables !! (o, command_label c)).

Definition sqlite_step_aggregate (o : CrossChainOrderId) (c : RemoteCommand) : cmd StepDb CrossStoreError (option AggregateQuoteId) :=
  _ ← statement; tables ← gets db_data; mret (step_rows tables !! (o, command_label c) ≫= fst).

#[global] Instance sqlite_step_store : StepStore StepDb := {|
  step_stage := sqlite_stage;
  step_load := sqlite_step_load;
  step_aggregate := sqlite_step_aggregate
|}.

(** *** Sagas *)

Record SagaRow := mk_saga_row { srow_state : string; srow_body : CrossChainSaga; srow_updated_at : Z }.

(** The table and the clock that stamps its rows. *)
Record SagaTables := mk_saga_tables { saga_rows : gmap CrossChainOrderId SagaRow; saga_clock : Z }.

Abbreviation SagaDb := (Db SagaTables).

Definition sqlite_saga_load (o : CrossChainOrderId) : cmd SagaDb CrossStoreError (option CrossChainSaga) :=
  _ ← statement; tables ← gets db_data; mret (srow_body <$> saga_rows tables !! o).

Definition sqlite_saga_insert (g : CrossChainSaga) : cmd SagaDb CrossStoreError CrossChainSaga :=
  _ ← statement;
  tables ← gets db_data;
  _ ← match saga_rows tables !! sg_order g with
      | Some _ => mret tt
      | None =>
          write (mk_saga_tables (<[sg_order g := mk_saga_row (saga_state_label (sg_state g)) g (saga_clock tables)]> (saga_rows tables))
                   (saga_clock tables))
      end;
  stored ← sqlite_saga_load (sg_order g);
  match stored with
  | Some s => if bool_decide (s = g) then mret s else fail StoreConflict
  | None => fail StoreBackend
  end.

Definition sqlite_saga_update (g : CrossChainSaga) : cmd SagaDb CrossStoreError unit :=
  _ ← statement;
  tables ← gets db_data;
  match saga_rows tables !! sg_order g with
  | None => fail StoreBackend
  | Some _ =>
      write (mk_saga_tables (<[sg_order g := mk_saga_row (saga_state_label (sg_state g)) g (saga_clock tables)]> (saga_rows tables))
               (saga_clock tables))
  end.

(** [ORDER BY updated_at, order_id] *)
Definition recovery_le (p q : CrossChainOrderId * SagaRow) : Prop :=
  srow_updated_at p.2 < srow_updated_at q.2 ∨ (srow_updated_at p.2 = srow_updated_at q.2 ∧ p.1 ≤ q.1).

#[global] Instance recovery_le_dec : RelDecision recovery_le.
Proof. intros p q. unfold recovery_le. apply _. Defined.

Definition sqlite_recoverable : cmd SagaDb CrossStoreError (list CrossChainSaga) :=
  _ ← statement;
  tables ← gets db_data;
  mret ((λ p, srow_body p.2) <$> merge_sort recovery_le
          (filter (λ p, srow_state p.2 ∉ ["complete"; "failed_before_delivery"]%string) (map_to_list (saga_rows tables)))).

#[global] Instance sqlite_saga_store : SagaStore SagaDb := {|
  saga_insert := sqlite_saga_insert;
  saga_load := sqlite_saga_load;
  saga_update := sqlite_saga_update;
  saga_recoverable := sqlite_recoverable
|}.

(** * The SQLite cross-chain stores keep their contracts

    Each instance of [CrossStores] represents an abstract view, and moves it exactly as the port
    promises whichever of its statements fail. *)

(** ** Rules *)

Section rules.
Context {T : Type}.
Implicit Types (db : Db T).

Lemma outcome_stmt {A} (k : unit → cmd (Db T) CrossStoreError A) (Q : result CrossStoreError A → Db T → Prop) db :
  (∀ o, outcome (k tt) Q (mk_db (db_data db) o)) → (∀ o, Q (Err StoreBackend) (mk_db (db_data db) o)) →
  outcome (statement ≫= k) Q db.
Proof.
  destruct db as [t [|[] rest]]; intros Hk He; unfold outcome, statement, mbind, cmd_bind; cbn in *; [apply Hk|apply Hk|apply He].
Qed.

Lemma outcome_write {A} (t : T) (k : unit → cmd (Db T) CrossStoreError A) (Q : result CrossStoreError A → Db T → Prop) db :
  outcome (k tt) Q (mk_db t (db_outcomes db)) → outcome (write t ≫= k) Q db.
Proof. done. Qed.

(** A statement and a pure read of the data. *)
Lemma outcome_read {A} (f : T → A) (ok : Db T → Prop) {V} (view : Db T → V) db (right : A → Prop) :
  (∀ o, ok (mk_db (db_data db) o) ∧ view (mk_db (db_data db) o) = view db) → right (f (db_data db)) →
  outcome (_ ← statement; t ← gets db_data; mret (f t)) (reads ok view db right) db.
Proof.
  intros Hs Hr. apply outcome_stmt; intros o; destruct (Hs o) as [Hok Hv]; (split; [exact Hok|split; [exact Hv|]]).
  - by intros a [= <-].
  - by intros a [=].
Qed.

(** Reading a value back after its insert, as the three inserting stores do. *)
Lemma outcome_read_back {V} `{EqDecision V} (ok : Db T → Prop) (view : Db T → gmap Z V) (load : Z → cmd (Db T) CrossStoreError (option V)) db db' k (v : V) :
  (∀ d, ok d → outcome (load k) (reads ok view d (λ o, o = view d !! k)) d) → ok db' →
  (view db' = view db ∨ view db !! k = None ∧ view db' = <[k := v]> (view db)) →
  outcome (stored ← load k; match stored with Some s => if bool_decide (s = v) then mret s else fail StoreConflict | None => fail StoreBackend end)
    (inserts ok view db k v) db'.
Proof.
  intros Hload Hok Hv. apply outcome_bind. eapply outcome_mono; [by apply Hload|].
  intros [stored|e] db'' (Hok' & Hv' & Hr); [|unfold inserts; rewrite Hv'; by split_and!]. specialize (Hr stored eq_refl).
  destruct stored as [s|]; [case_bool_decide as Hs|]; unfold inserts, outcome; cbn; rewrite Hv'; split_and!; try done.
  intros v' [= <-]. subst s. by rewrite <-Hr.
Qed.

End rules.

Lemma role_label_inj r r' : role_label r = role_label r' → r = r'.
Proof. by destruct r, r'. Qed.

Lemma command_label_inj c c' : command_label c = command_label c' → c = c'.
Proof. by destruct c, c'. Qed.

(** ** Preparations *)

Section preparations.
Implicit Types (db : PreparationDb).

(** A row files its body under its token, quote and role. *)
Record prep_db_ok db : Prop := {
  prow_filed : ∀ t row, db_data db !! t = Some row →
    pr_token (prow_body row) = t ∧ prow_quote row = pr_quote (prow_body row) ∧ prow_role row = role_label (pr_role (prow_body row));
  prow_single : ∀ t t' row row', db_data db !! t = Some row → db_data db !! t' = Some row' →
    prow_quote row = prow_quote row' → prow_role row = prow_role row' → t = t'
}.

Definition prep_db_view db : gmap PrepareToken Preparation := prow_body <$> db_data db.

Lemma lookup_prep_view db t : prep_db_view db !! t = prow_body <$> db_data db !! t.
Proof. apply lookup_fmap. Qed.

Lemma prep_db_ok_data db db' : db_data db' = db_data db → prep_db_ok db → prep_db_ok db' ∧ prep_db_view db' = prep_db_view db.
Proof. intros Hd [Hf Hs]. unfold prep_db_view. rewrite Hd. split; [|done]. split; rewrite Hd; done. Qed.

Lemma prep_db_view_ok db : prep_db_ok db → preparations_ok (prep_db_view db).
Proof.
  intros [Hf Hs]. split.
  - intros t p. rewrite lookup_prep_view. intros (row & Hr & ->)%fmap_Some. by apply Hf.
  - intros t t' p p'. rewrite !lookup_prep_view. intros (row & Hr & ->)%fmap_Some (row' & Hr' & ->)%fmap_Some Hq Hro.
    pose proof (Hf _ _ Hr) as (_ & ? & Hr1). pose proof (Hf _ _ Hr') as (_ & ? & Hr2). apply (Hs t t' row row'); congruence.
Qed.

Lemma row_of_quote_Some (rows : gmap PrepareToken PreparationRow) q r row :
  row_of_quote rows q r = Some row → ∃ t, rows !! t = Some row ∧ prow_quote row = q ∧ prow_role row = role_label r.
Proof.
  unfold row_of_quote. intros ([t row'] & Hh & ->)%fmap_Some. apply head_Some_elem_of, list_elem_of_filter in Hh as [[??] Hin].
  exists t. split; [by apply elem_of_map_to_list|done].
Qed.

Lemma row_of_quote_None (rows : gmap PrepareToken PreparationRow) q r :
  row_of_quote rows q r = None → ∀ t row, rows !! t = Some row → prow_quote row = q → prow_role row ≠ role_label r.
Proof.
  unfold row_of_quote. intros Hh t row Hr Hq Hro. apply fmap_None, head_None in Hh.
  assert ((t, row) ∈ filter (λ p, prow_quote p.2 = q ∧ prow_role p.2 = role_label r) (map_to_list rows)) as Hin.
  { apply list_elem_of_filter. split; [done|by apply elem_of_map_to_list]. }
  rewrite Hh in Hin. by apply elem_of_nil in Hin.
Qed.

Lemma prep_db_ok_insert db o p row :
  prep_db_ok db → prep_row p = Ok row → db_data db !! pr_token p = None → row_of_quote (db_data db) (pr_quote p) (pr_role p) = None →
  prep_db_ok (mk_db (<[pr_token p := row]> (db_data db)) o)
  ∧ prep_db_view (mk_db (<[pr_token p := row]> (db_data db)) o) = <[pr_token p := p]> (prep_db_view db).
Proof.
  intros [Hf Hs] Hrow Hn Hno. assert (Hb : prow_body row = p ∧ prow_quote row = pr_quote p ∧ prow_role row = role_label (pr_role p)).
  { unfold prep_row in Hrow. destruct (cross_i64_of (pr_chain p)); [|done]. destruct (cross_i64_of (pr_expires_at p)); [|done].
    cbn in Hrow. by injection Hrow as <-. }
  destruct Hb as (Hb & Hq & Hr). split; [|unfold prep_db_view; cbn; by rewrite fmap_insert, Hb]. split; cbn.
  - intros t row' [[<- <-]|[_ Ht]]%lookup_insert_Some; [by rewrite Hb|by apply Hf].
  - intros t t' r1 r2 [[<- <-]|[Hne1 H1]]%lookup_insert_Some [[<- <-]|[Hne2 H2]]%lookup_insert_Some He1 He2; [done| | |by eapply Hs].
    + exfalso. by eapply (row_of_quote_None _ _ _ Hno t' r2); [|congruence..].
    + exfalso. by eapply (row_of_quote_None _ _ _ Hno t r1); [|congruence..].
Qed.

Lemma sqlite_prep_load_law t db :
  prep_db_ok db → outcome (sqlite_prep_load t) (reads prep_db_ok prep_db_view db (λ o, o = prep_db_view db !! t)) db.
Proof.
  intros Hdb. apply (outcome_read (λ rows, prow_body <$> rows !! t)); [|by rewrite lookup_prep_view].
  intros o. by apply prep_db_ok_data.
Qed.

Lemma sqlite_prep_insert_law p db :
  prep_db_ok db → outcome (sqlite_prep_insert p) (inserts prep_db_ok prep_db_view db (pr_token p) p) db.
Proof.
  intros Hdb. unfold sqlite_prep_insert.
  assert (Hsame : ∀ o e, inserts prep_db_ok prep_db_view db (pr_token p) p (Err e) (mk_db (db_data db) o)).
  { intros o e. destruct (prep_db_ok_data db (mk_db (db_data db) o) eq_refl Hdb) as [? ?]. split; [done|]. split; [by left|done]. }
  apply outcome_lift_bind. destruct (prep_row p) as [row|e] eqn:Hrow; [|by destruct db; apply Hsame].
  apply outcome_stmt; [|intros o; apply Hsame]. intros o. apply outcome_gets. cbn [db_data].
  apply outcome_bind. destruct (db_data db !! pr_token p) as [old|] eqn:Ht.
  - apply outcome_ret, outcome_read_back; [intros d; apply sqlite_prep_load_law|by apply (prep_db_ok_data db)|].
    left. by apply (prep_db_ok_data db).
  - destruct (row_of_quote _ _ _) eqn:Hno; [apply outcome_fail, Hsame|].
    destruct (prep_db_ok_insert db o p row Hdb Hrow Ht Hno) as [Hok Hv].
    apply outcome_read_back; [intros d; apply sqlite_prep_load_law|done|]. right. split; [|done]. by rewrite lookup_prep_view, Ht.
Qed.

Lemma sqlite_prep_load_for_quote_law q r db :
  prep_db_ok db →
  outcome (sqlite_prep_load_for_quote q r) (reads prep_db_ok prep_db_view db (λ o,
    match o with
    | Some p => prep_db_view db !! pr_token p = Some p ∧ pr_quote p = q ∧ pr_role p = r
    | None => ∀ t p, prep_db_view db !! t = Some p → pr_quote p = q → pr_role p ≠ r
    end)) db.
Proof.
  intros Hdb. apply (outcome_read (λ rows, prow_body <$> row_of_quote rows q r)); [intros o; by apply prep_db_ok_data|].
  destruct (row_of_quote (db_data db) q r) as [row|] eqn:Hr; cbn.
  - apply row_of_quote_Some in Hr as (t & Ht & Hq & Hro). pose proof (prow_filed _ Hdb _ _ Ht) as (Htok & ? & Hro').
    rewrite lookup_prep_view, Htok, Ht. split_and!; [done|congruence|]. apply role_label_inj. congruence.
  - intros t p. rewrite lookup_prep_view. intros (row & Ht & ->)%fmap_Some Hq Hro.
    pose proof (prow_filed _ Hdb _ _ Ht) as (_ & ? & ?). eapply row_of_quote_None; [exact Hr|exact Ht|congruence|congruence].
Qed.

Lemma sqlite_prep_update_law p p0 db :
  prep_db_ok db → prep_db_view db !! pr_token p = Some p0 → p = with_prep_state p0 (pr_state p) →
  outcome (sqlite_prep_update p) (λ res db', prep_db_ok db' ∧
    prep_db_view db' = match res with Ok _ => <[pr_token p := p]> (prep_db_view db) | Err _ => prep_db_view db end) db.
Proof.
  intros Hdb Hp0 Hp. rewrite lookup_prep_view in Hp0. apply fmap_Some in Hp0 as (row & Hrow & ->).
  unfold sqlite_prep_update. apply outcome_stmt; [|intros o; by apply (prep_db_ok_data db)]. intros o. apply outcome_gets. cbn [db_data].
  rewrite Hrow. unfold outcome, write, modify. cbn. destruct (prow_filed _ Hdb _ _ Hrow) as (Htok & Hq & Hro). split.
  - split; cbn.
    + intros t row' [[<- <-]|[_ Ht]]%lookup_insert_Some; cbn; [|by apply Hdb]. split; [done|]. rewrite Hp. cbn. done.
    + intros t t' r1 r2 [[<- <-]|[Hn1 H1]]%lookup_insert_Some [[<- <-]|[Hn2 H2]]%lookup_insert_Some He1 He2; cbn in *;
        [done|by eapply (prow_single _ Hdb _ _ row r2)|by eapply (prow_single _ Hdb _ _ r1 row)|by eapply (prow_single _ Hdb)].
  - unfold prep_db_view. cbn. by rewrite fmap_insert.
Qed.

End preparations.

#[global] Instance sqlite_preparation_laws : PreparationStoreLaws PreparationDb := {|
  prep_store_ok := prep_db_ok;
  prep_view := prep_db_view;
  prep_view_ok := prep_db_view_ok;
  prep_insert_law := sqlite_prep_insert_law;
  prep_load_law := sqlite_prep_load_law;
  prep_load_for_quote_law := sqlite_prep_load_for_quote_law;
  prep_update_law := sqlite_prep_update_law
|}.

(** ** Leg quotes *)

Section quotes.
Implicit Types (db : LegQuoteDb).

Definition quote_db_ok db : Prop := ∀ i row, db_data db !! i = Some row → lq_id row.2 = i.

Definition quote_db_view db : gmap B256 LegQuote := snd <$> db_data db.

Lemma quote_db_filed db i q : quote_db_ok db → quote_db_view db !! i = Some q → lq_id q = i.
Proof. unfold quote_db_view. rewrite lookup_fmap. intros Hdb (row & Hr & ->)%fmap_Some. by apply Hdb. Qed.

Lemma sqlite_quote_load_law i db :
  quote_db_ok db → outcome (sqlite_quote_load i) (reads quote_db_ok quote_db_view db (λ o, o = quote_db_view db !! i)) db.
Proof. intros Hdb. apply (outcome_read (λ rows, snd <$> rows !! i)); [done|]. unfold quote_db_view. by rewrite lookup_fmap. Qed.

Lemma sqlite_quote_insert_law q db :
  quote_db_ok db → outcome (sqlite_quote_insert q) (inserts quote_db_ok quote_db_view db (lq_id q) q) db.
Proof.
  intros Hdb. unfold sqlite_quote_insert.
  assert (Hsame : ∀ o e, inserts quote_db_ok quote_db_view db (lq_id q) q (Err e) (mk_db (db_data db) o)).
  { intros o e. split; [done|]. split; [by left|done]. }
  apply outcome_lift_bind. destruct (cross_i64_of _) as [x|e]; [|by destruct db; apply Hsame].
  apply outcome_stmt; [|intros o; apply Hsame]. intros o. apply outcome_gets. cbn [db_data]. apply outcome_bind.
  destruct (db_data db !! lq_id q) as [old|] eqn:Hq.
  - apply outcome_ret, outcome_read_back; [intros d; apply sqlite_quote_load_law|done|by left].
  - apply outcome_read_back; [intros d; apply sqlite_quote_load_law| |right].
    + intros i row. cbn. intros [[<- <-]|[_ Hi]]%lookup_insert_Some; [done|by apply Hdb].
    + unfold quote_db_view. cbn. by rewrite lookup_fmap, Hq, fmap_insert.
Qed.

End quotes.

#[global] Instance sqlite_leg_quote_laws : LegQuoteStoreLaws LegQuoteDb := {|
  quote_store_ok := quote_db_ok;
  quote_view := quote_db_view;
  quote_view_filed := quote_db_filed;
  quote_insert_law := sqlite_quote_insert_law;
  quote_load_law := sqlite_quote_load_law
|}.

(** ** Staged calls *)

Section steps.
Implicit Types (db : StepDb) (t : StepTables) (o : CrossChainOrderId) (a : AggregateQuoteId).

(** One row per order and command of this service's own making: with its order's quote and its own command. *)
Record step_tables_ok t : Prop := {
  binding_inj : ∀ o o' a, order_binding t !! o = Some a → order_binding t !! o' = Some a → o = o';
  row_bound : ∀ o (l : string) (a' : option AggregateQuoteId) (x : PreparedStep), step_rows t !! (o, l) = Some (a', x) →
    ∃ a, a' = Some a ∧ order_binding t !! o = Some a ∧ l = command_label (ps_command x)
}.

(** The staged calls by command. *)
Definition staged_row (p : (CrossChainOrderId * string) * (option AggregateQuoteId * PreparedStep)) :
    list ((CrossChainOrderId * RemoteCommand) * (AggregateQuoteId * PreparedStep)) :=
  match p.2.1 with
  | Some a => if bool_decide (p.1.2 = command_label (ps_command p.2.2)) then [((p.1.1, ps_command p.2.2), (a, p.2.2))] else []
  | None => []
  end.

Definition staged_of (rows : gmap (CrossChainOrderId * string) (option AggregateQuoteId * PreparedStep)) :
    gmap (CrossChainOrderId * RemoteCommand) (AggregateQuoteId * PreparedStep) :=
  list_to_map (map_to_list rows ≫= staged_row).

Definition step_db_view db : StepView := mk_step_view (order_binding (db_data db)) (staged_of (step_rows (db_data db))).

Lemma elem_of_staged (rows : gmap (CrossChainOrderId * string) (option AggregateQuoteId * PreparedStep)) o c a x :
  ((o, c), (a, x)) ∈ (map_to_list rows ≫= staged_row)
  ↔ rows !! (o, command_label c) = Some (Some a, x) ∧ ps_command x = c.
Proof.
  rewrite list_elem_of_bind. split.
  - intros ([[o' l] [[a'|] x']] & Hin & Hp%elem_of_map_to_list); unfold staged_row in Hin; cbn in Hin; [|by apply elem_of_nil in Hin].
    case_bool_decide as Hl; [|by apply elem_of_nil in Hin]. apply list_elem_of_singleton in Hin. injection Hin as -> -> -> ->. by subst l.
  - intros [Hr <-]. exists ((o, command_label (ps_command x)), (Some a, x)). split; [|by apply elem_of_map_to_list]. unfold staged_row. cbn.
    rewrite bool_decide_eq_true_2 by done. by apply list_elem_of_singleton.
Qed.

Lemma lookup_staged_of rows o c a x :
  staged_of rows !! (o, c) = Some (a, x) ↔ rows !! (o, command_label c) = Some (Some a, x) ∧ ps_command x = c.
Proof.
  rewrite <-elem_of_staged. unfold staged_of. split; [apply elem_of_list_to_map_2|]. intros Hin.
  apply elem_of_list_to_map_1'; [|done]. intros [a' x'] Hin'. apply elem_of_staged in Hin as [Hr _], Hin' as [Hr' _]. congruence.
Qed.

Lemma lookup_staged t o c :
  step_tables_ok t → staged_of (step_rows t) !! (o, c) = (p ← step_rows t !! (o, command_label c); (., p.2) <$> p.1).
Proof.
  intros Ht. destruct (step_rows t !! (o, command_label c)) as [[a' x]|] eqn:Hr; cbn.
  - destruct (row_bound _ Ht _ _ _ _ Hr) as (a & -> & _ & Hl%command_label_inj). cbn. by apply lookup_staged_of.
  - apply eq_None_not_Some. intros [[a x] [Hr' _]%lookup_staged_of]. congruence.
Qed.

Lemma step_db_view_ok db : step_tables_ok (db_data db) → steps_ok (step_db_view db).
Proof.
  intros Ht. split; cbn; [by apply Ht|]. intros o c a x [Hr Hc]%lookup_staged_of. split; [|done].
  destruct (row_bound _ Ht _ _ _ _ Hr) as (a' & [= <-] & ? & _). done.
Qed.

Lemma insert_binding_spec o a (b : gmap CrossChainOrderId AggregateQuoteId) :
  insert_binding o a b !! o = Some a →
  insert_binding o a b = <[o := a]> b ∧ (b !! o = Some a ∨ b !! o = None ∧ ∀ o', b !! o' ≠ Some a).
Proof.
  unfold insert_binding. destruct (b !! o) as [a'|] eqn:Ho; [intros H; assert (a' = a) as -> by congruence|case_bool_decide as Hin].
  - split; [by rewrite insert_id|by left].
  - by rewrite Ho.
  - intros _. split; [done|right]. split; [done|]. intros o' Ho'. apply Hin. apply list_elem_of_fmap. exists (o', a).
    split; [done|by apply elem_of_map_to_list].
Qed.

(** The rows after staging [steps] of order [o] under quote [a], each row being [o]'s own. *)
Definition staging o a (steps : list PreparedStep) (rows rows' : gmap (CrossChainOrderId * string) (option AggregateQuoteId * PreparedStep)) : Prop :=
  rows ⊆ rows' ∧ (∀ x, x ∈ steps → rows' !! (o, command_label (ps_command x)) = Some (Some a, x))
  ∧ ∀ k y, rows' !! k = Some y → rows !! k = Some y ∨ ∃ x, x ∈ steps ∧ k = (o, command_label (ps_command x)) ∧ y = (Some a, x).

Lemma stage_steps_outcome o a steps rows db :
  outcome (stage_steps o a steps rows) (λ res db', db_data db' = db_data db ∧ ∀ rows', res = Ok rows' → staging o a steps rows rows') db.
Proof.
  revert rows db. induction steps as [|x steps IH]; intros rows db; cbn [stage_steps].
  { apply outcome_ret. split; [done|]. intros rows' [= <-]. split_and!; [done|by intros ? ?%elem_of_nil|by left]. }
  apply outcome_stmt; [|by intros o']. intros o1. apply outcome_stmt; [|by intros o']. intros o2. cbn [db_data].
  set (key := (o, command_label (ps_command x))). set (rows1 := match rows !! key with Some _ => rows | None => <[key := (Some a, x)]> rows end).
  apply outcome_lift_bind. destruct (rows1 !! key) as [[a' x']|] eqn:Hk; cbn [ok_or]; [|done].
  apply outcome_lift_bind. cbn [fst snd]. destruct a' as [a'|]; cbn [ok_or]; [|done].
  destruct (Z.eqb_spec a' a) as [->|]; cbn [negb orb]; [|by apply outcome_fail]. case_bool_decide as Hx; cbn [negb]; [subst x'|by apply outcome_fail].
  assert (Hsub : rows ⊆ rows1 ∧ ∀ k y, rows1 !! k = Some y → rows !! k = Some y ∨ k = key ∧ y = (Some a, x)).
  { unfold rows1. destruct (rows !! key) as [y|] eqn:Hy; [by auto|]. split; [by apply insert_subseteq|].
    intros k y' [[<- <-]|[_ ?]]%lookup_insert_Some; auto. }
  destruct Hsub as [Hsub Honly]. eapply outcome_mono; [apply (IH rows1)|]. cbn. intros res db' [Hd Hres]. split; [done|].
  intros rows' ->. destruct (Hres rows' eq_refl) as (Hs1 & Hall & Hnew). split_and!.
  - by etrans.
  - intros y [->|Hy]%elem_of_cons; [by eapply lookup_weaken|by apply Hall].
  - intros k y [Hr|(z & Hz & ? & ?)]%Hnew; [|right; exists z; split_and!; [by right|done..]].
    destruct (Honly _ _ Hr) as [?|[-> ->]]; [by left|right; exists x; split_and!; [left|done..]].
Qed.

Lemma staging_ok o a steps t rows' :
  step_tables_ok t → insert_binding o a (order_binding t) !! o = Some a → staging o a steps (step_rows t) rows' →
  step_tables_ok (mk_step_tables (insert_binding o a (order_binding t)) rows').
Proof.
  intros Ht Hb (Hsub & Hall & Hnew). destruct (insert_binding_spec o a (order_binding t) Hb) as [-> Hfresh]. split; cbn.
  - intros o1 o2 x [[<- E1]|[? H1]]%lookup_insert_Some [[<- E2]|[? H2]]%lookup_insert_Some; [done| | |by eapply binding_inj]; subst x.
    + destruct Hfresh as [Hf|[_ Hf]]; [by eapply binding_inj|by destruct (Hf o2)].
    + destruct Hfresh as [Hf|[_ Hf]]; [by eapply binding_inj|by destruct (Hf o1)].
  - intros o' l a' x [Hr|(y & Hy & [= -> ->] & [= -> ->])]%Hnew.
    + destruct (row_bound _ Ht _ _ _ _ Hr) as (a0 & -> & Ho & ->). exists a0. split_and!; [done| |done].
      destruct (decide (o' = o)) as [->|]; [|by rewrite lookup_insert_ne]. rewrite lookup_insert_eq.
      destruct Hfresh as [|[Hf _]]; congruence.
    + exists a. by rewrite lookup_insert_eq.
Qed.

Lemma staging_view o a steps t rows' :
  step_tables_ok t → staging o a steps (step_rows t) rows' →
  staged_of (step_rows t) ⊆ staged_of rows'
  ∧ (∀ x, x ∈ steps → staged_of rows' !! (o, ps_command x) = Some (a, x))
  ∧ ∀ k y, staged_of rows' !! k = Some y → staged_of (step_rows t) !! k = Some y ∨ k.1 = o ∧ y.2 ∈ steps.
Proof.
  intros Ht (Hsub & Hall & Hnew). split_and!.
  - apply map_subseteq_spec. intros [o' c] [a' x] [Hr Hc]%lookup_staged_of. apply lookup_staged_of. split; [by eapply lookup_weaken|done].
  - intros x Hx. apply lookup_staged_of. split; [by apply Hall|done].
  - intros [o' c] [a' x] [Hr Hc]%lookup_staged_of. apply Hnew in Hr as [Hr|(y & Hy & [= -> Hl] & [= -> ->])].
    + left. by apply lookup_staged_of.
    + by right.
Qed.

Lemma sqlite_stage_law o plan db :
  step_tables_ok (db_data db) →
  outcome (sqlite_stage o plan) (λ res db', step_tables_ok (db_data db') ∧
    match res with
    | Ok _ => bindings (step_db_view db') = <[o := cp_aggregate plan]> (bindings (step_db_view db))
        ∧ bindings (step_db_view db) ⊆ bindings (step_db_view db')
        ∧ staged (step_db_view db) ⊆ staged (step_db_view db')
        ∧ (∀ x, x ∈ cp_steps plan → staged (step_db_view db') !! (o, ps_command x) = Some (cp_aggregate plan, x))
        ∧ ∀ k x, staged (step_db_view db') !! k = Some x → staged (step_db_view db) !! k = Some x ∨ k.1 = o ∧ x.2 ∈ cp_steps plan
    | Err _ => step_db_view db' = step_db_view db
    end) db.
Proof.
  intros Ht. unfold sqlite_stage. apply outcome_stmt; [|done]. intros o1. apply outcome_gets. cbn [db_data].
  apply outcome_stmt; [|done]. intros o2. apply outcome_stmt; [|done]. intros o3. cbn [db_data].
  apply outcome_lift_bind. destruct (insert_binding _ _ _ !! o) as [bound|] eqn:Hb; cbn [ok_or]; [|done].
  destruct (Z.eqb_spec bound (cp_aggregate plan)) as [->|]; cbn [negb]; [|by apply outcome_fail].
  apply outcome_bind. eapply outcome_mono; [apply stage_steps_outcome|]. cbn [db_data]. intros res db' [Hd Hres].
  assert (Hsame : step_tables_ok (db_data db') ∧ step_db_view db' = step_db_view db) by (unfold step_db_view; by rewrite Hd).
  destruct res as [rows'|e]; [|done]. specialize (Hres rows' eq_refl). apply outcome_stmt.
  - intros o4. unfold outcome, write, modify. cbn. split; [by apply (staging_ok o (cp_aggregate plan) (cp_steps plan))|].
    destruct (insert_binding_spec _ _ _ Hb) as [Hins Hold]. split; [done|]. split; [|by apply staging_view]. rewrite Hins.
    destruct Hold as [Hold|[Hold _]]; [by rewrite insert_id|by apply insert_subseteq].
  - intros o4. cbn. unfold step_db_view in *. cbn. rewrite Hd. done.
Qed.

Lemma sqlite_step_load_law o c db :
  step_tables_ok (db_data db) →
  outcome (sqlite_step_load o c) (reads (step_tables_ok ∘ db_data) step_db_view db (λ x, x = snd <$> staged (step_db_view db) !! (o, c))) db.
Proof.
  intros Ht. apply (outcome_read (λ t, snd <$> step_rows t !! (o, command_label c))); [done|]. cbn. rewrite lookup_staged by done.
  destruct (step_rows _ !! _) as [[a' x]|] eqn:Hr; cbn; [|done]. destruct (row_bound _ Ht _ _ _ _ Hr) as (a & -> & _). done.
Qed.

Lemma sqlite_step_aggregate_law o c db :
  step_tables_ok (db_data db) →
  outcome (sqlite_step_aggregate o c) (reads (step_tables_ok ∘ db_data) step_db_view db (λ x, x = fst <$> staged (step_db_view db) !! (o, c))) db.
Proof.
  intros Ht. apply (outcome_read (λ t, step_rows t !! (o, command_label c) ≫= fst)); [done|]. cbn. rewrite lookup_staged by done.
  destruct (step_rows _ !! _) as [[a' x]|] eqn:Hr; cbn; [|done]. destruct (row_bound _ Ht _ _ _ _ Hr) as (a & -> & _). done.
Qed.

End steps.

#[global] Instance sqlite_step_laws : StepStoreLaws StepDb := {|
  step_store_ok := step_tables_ok ∘ db_data;
  step_view := step_db_view;
  step_view_ok := step_db_view_ok;
  step_stage_law := sqlite_stage_law;
  step_load_law := sqlite_step_load_law;
  step_aggregate_law := sqlite_step_aggregate_law
|}.

(** ** Sagas *)

Section sagas.
Implicit Types (db : SagaDb).

(** A row files its body under its order, with its own state as the label. *)
Definition saga_db_ok db : Prop :=
  ∀ o row, saga_rows (db_data db) !! o = Some row → sg_order (srow_body row) = o ∧ srow_state row = saga_state_label (sg_state (srow_body row)).

Definition saga_db_view db : gmap CrossChainOrderId CrossChainSaga := srow_body <$> saga_rows (db_data db).

Lemma lookup_saga_view db o : saga_db_view db !! o = srow_body <$> saga_rows (db_data db) !! o.
Proof. apply lookup_fmap. Qed.

Lemma saga_db_filed db o g : saga_db_ok db → saga_db_view db !! o = Some g → sg_order g = o.
Proof. rewrite lookup_saga_view. intros Hdb (row & Hr & ->)%fmap_Some. by apply Hdb. Qed.

Lemma sqlite_saga_load_law o db :
  saga_db_ok db → outcome (sqlite_saga_load o) (reads saga_db_ok saga_db_view db (λ x, x = saga_db_view db !! o)) db.
Proof. intros Hdb. apply (outcome_read (λ t, srow_body <$> saga_rows t !! o)); [done|by rewrite lookup_saga_view]. Qed.

(** Writing a saga's row. *)
Lemma saga_written db g at_ clock o :
  let db' := mk_db (mk_saga_tables (<[sg_order g := mk_saga_row (saga_state_label (sg_state g)) g at_]> (saga_rows (db_data db))) clock) o in
  saga_db_ok db → saga_db_ok db' ∧ saga_db_view db' = <[sg_order g := g]> (saga_db_view db).
Proof.
  intros db' Hdb. split; [|unfold saga_db_view; cbn; by rewrite fmap_insert].
  intros i row. cbn. intros [[<- <-]|[_ Hi]]%lookup_insert_Some; [done|by apply Hdb].
Qed.

Lemma sqlite_saga_insert_law g db :
  saga_db_ok db → outcome (sqlite_saga_insert g) (inserts saga_db_ok saga_db_view db (sg_order g) g) db.
Proof.
  intros Hdb. unfold sqlite_saga_insert. apply outcome_stmt; [|intros o; split; [done|split; [by left|done]]].
  intros o. apply outcome_gets. cbn [db_data]. apply outcome_bind. destruct (saga_rows (db_data db) !! sg_order g) as [old|] eqn:Hg.
  - apply outcome_ret, outcome_read_back; [intros d; apply sqlite_saga_load_law|done|by left].
  - destruct (saga_written db g (saga_clock (db_data db)) (saga_clock (db_data db)) o Hdb) as [Hok Hv].
    apply outcome_read_back; [intros d; apply sqlite_saga_load_law|done|right]. split; [by rewrite lookup_saga_view, Hg|done].
Qed.

Lemma sqlite_saga_update_law g db :
  saga_db_ok db →
  outcome (sqlite_saga_update g) (λ res db', saga_db_ok db' ∧
    match res with
    | Ok _ => is_Some (saga_db_view db !! sg_order g) ∧ saga_db_view db' = <[sg_order g := g]> (saga_db_view db)
    | Err _ => saga_db_view db' = saga_db_view db
    end) db.
Proof.
  intros Hdb. unfold sqlite_saga_update. apply outcome_stmt; [|done]. intros o. apply outcome_gets. cbn [db_data].
  destruct (saga_rows (db_data db) !! sg_order g) as [old|] eqn:Hg; [|by apply outcome_fail]. unfold outcome, write, modify. cbn [fst snd].
  destruct (saga_written db g (saga_clock (db_data db)) (saga_clock (db_data db)) o Hdb) as [Hok Hv].
  split; [done|]. split; [|done]. rewrite lookup_saga_view, Hg. by eexists.
Qed.

Lemma finished_label s : saga_state_label s ∈ ["complete"; "failed_before_delivery"]%string ↔ SagaState.unfinished s = false.
Proof. destruct s; cbn; split; try done; try set_solver; intros [[=]|[[=]|?%elem_of_nil]%elem_of_cons]%elem_of_cons; done. Qed.

Lemma sqlite_recoverable_law db :
  saga_db_ok db →
  outcome sqlite_recoverable (reads saga_db_ok saga_db_view db (λ l,
    ∀ g, g ∈ l ↔ saga_db_view db !! sg_order g = Some g ∧ SagaState.unfinished (sg_state g) = true)) db.
Proof.
  intros Hdb. apply (outcome_read (λ t, (λ p, srow_body p.2) <$> merge_sort recovery_le
    (filter (λ p, srow_state p.2 ∉ ["complete"; "failed_before_delivery"]%string) (map_to_list (saga_rows t))))); [done|].
  intros g. rewrite list_elem_of_fmap. split.
  - intros ([o row] & -> & Hin). rewrite merge_sort_Permutation in Hin. apply list_elem_of_filter in Hin as [Hs Hr%elem_of_map_to_list].
    cbn in *. destruct (Hdb _ _ Hr) as [Ho Hst]. rewrite lookup_saga_view, Ho, Hr. split; [done|].
    rewrite Hst, finished_label in Hs. by destruct (SagaState.unfinished _).
  - rewrite lookup_saga_view. intros [(row & Hr & ->)%fmap_Some Hu]. exists (sg_order (srow_body row), row). split; [done|].
    rewrite merge_sort_Permutation. apply list_elem_of_filter. split; [|by apply elem_of_map_to_list]. cbn.
    destruct (Hdb _ _ Hr) as [_ ->]. rewrite finished_label. by rewrite Hu.
Qed.

End sagas.

#[global] Instance sqlite_saga_laws : SagaStoreLaws SagaDb := {|
  saga_store_ok := saga_db_ok;
  sagas := saga_db_view;
  sagas_filed := saga_db_filed;
  saga_insert_law := sqlite_saga_insert_law;
  saga_load_law := sqlite_saga_load_law;
  saga_update_law := sqlite_saga_update_law;
  saga_recoverable_law := sqlite_recoverable_law
|}.
