(* ===== verification/CrossProxy.v ===== *)
(** * The cross-chain proxy

    [crates/core/src/crosschain/proxy.rs]: a coordinator that drives two chain services through a
    saga kept in its own store.  The services are the port of [deps/crosschain/remote_solvent.rs],
    a type class here with the contract the proxy relies on; the CCTP completion of
    [deps/crosschain/cctp_completion.rs] is what an outside service answers. *)

From stdpp Require Import strings.
From S2P Require Import Prelude Commands U256 Reservation CrossChain CrossStores.

#[local] Open Scope string_scope.
#[local] Open Scope list_scope.
#[local] Open Scope Z_scope.

(** ** The chain services *)

Inductive RemoteProgress : Type := ProgressPending | ProgressFinalized (evidence : StepEvidence) | ProgressFailed (reason : string).

Inductive RemoteSolventError : Type := Unavailable (m : string) | Rejected (m : string) | InvalidResponse (m : string).

Definition remote_error_text (e : RemoteSolventError) : string :=
  match e with
  | Unavailable m => String.append "remote Solvent unavailable: " m
  | Rejected m => String.append "remote Solvent rejected request: " m
  | InvalidResponse m => String.append "remote Solvent returned an invalid response: " m
  end.

Class RemoteSolvent (R : Type) := {
  rs_quote : LegQuoteRequest → cmd R RemoteSolventError LegQuote;
  rs_stage : StepValidationContext → ChainExecutionPlan → cmd R RemoteSolventError unit;
  rs_author_direct : DirectOrderAuthorization → cmd R RemoteSolventError DirectExecutionPlans;
  rs_stage_cctp_completion : StepValidationContext → ChainExecutionPlan → PrepareToken → cmd R RemoteSolventError unit;
  rs_prepare : AggregateQuoteId → LegQuote → cmd R RemoteSolventError Preparation;
  rs_commit : PrepareToken → cmd R RemoteSolventError Preparation;
  rs_inspect : PrepareToken → cmd R RemoteSolventError Preparation;
  rs_release : PrepareToken → cmd R RemoteSolventError Preparation;
  rs_command : CrossChainOrderId → CrossChainStepId → RemoteCommand → PrepareToken → cmd R RemoteSolventError RemoteProgress
}.

(** The role that carries out a command. *)
Definition command_role (c : RemoteCommand) : LegRole :=
  match c with Deliver | DispatchFillProof | CloseDestination => Destination | ClaimOrigin | DispatchRepayment => Origin end.

(** The command spends the capital of its leg. *)
Definition spends (c : RemoteCommand) : bool := match c with Deliver | ClaimOrigin => true | _ => false end.

(** A hold keeps its terms and moves from one of [from] to [to], or nothing happens. *)
Definition prep_moves (from : list PreparationState.t) (to : PreparationState.t) (t : PrepareToken) (v v' : gmap PrepareToken Preparation) : Prop :=
  v' = v ∨ ∃ p, v !! t = Some p ∧ pr_state p ∈ from ∧ v' = <[t := with_prep_state p to]> v.

(** What the proxy relies on.  An error answer leaves open whether the request took effect. *)
Class RemoteLaws (R : Type) `{RemoteSolvent R} := {
  remote_ok : R → Prop;
  preparations : R → gmap PrepareToken Preparation;
  bound_orders : R → gmap CrossChainOrderId AggregateQuoteId;
  remote_preparations_ok r : remote_ok r → preparations_ok (preparations r);
  remote_bound_inj r o o' a : remote_ok r → bound_orders r !! o = Some a → bound_orders r !! o' = Some a → o = o';
  rs_quote_law q r : remote_ok r →
    outcome (rs_quote q) (λ _ r', remote_ok r' ∧ preparations r' = preparations r ∧ bound_orders r' = bound_orders r) r;
  rs_stage_law c plan r : remote_ok r →
    outcome (rs_stage c plan) (λ res r', remote_ok r' ∧ preparations r' = preparations r ∧ bound_orders r ⊆ bound_orders r'
      ∧ (res = Ok tt → bound_orders r' !! vc_order c = Some (cp_aggregate plan))) r;
  rs_author_law d r : remote_ok r →
    outcome (rs_author_direct d) (λ _ r', remote_ok r' ∧ preparations r' = preparations r ∧ bound_orders r' = bound_orders r) r;
  rs_stage_cctp_law c plan t r : remote_ok r →
    outcome (rs_stage_cctp_completion c plan t) (λ _ r', remote_ok r' ∧ preparations r' = preparations r ∧ bound_orders r ⊆ bound_orders r') r;
  rs_prepare_law a q r : remote_ok r →
    outcome (rs_prepare a q) (λ res r', remote_ok r' ∧ bound_orders r' = bound_orders r
      ∧ (preparations r' = preparations r
         ∨ ∃ p, preparations r !! pr_token p = None ∧ pr_quote p = a ∧ pr_role p = lq_role q ∧ pr_state p = PreparationState.Prepared
             ∧ preparations r' = <[pr_token p := p]> (preparations r))
      ∧ ∀ p, res = Ok p → preparations r' !! pr_token p = Some p ∧ pr_quote p = a ∧ pr_role p = lq_role q) r;
  rs_commit_law t r : remote_ok r →
    outcome (rs_commit t) (λ res r', remote_ok r' ∧ bound_orders r' = bound_orders r
      ∧ prep_moves [PreparationState.Prepared; PreparationState.Committed] PreparationState.Committed t (preparations r) (preparations r')
      ∧ ∀ p, res = Ok p → preparations r' !! t = Some p ∧ pr_state p = PreparationState.Committed) r;
  rs_inspect_law t r : remote_ok r →
    outcome (rs_inspect t) (λ res r', remote_ok r' ∧ preparations r' = preparations r ∧ bound_orders r' = bound_orders r
      ∧ ∀ p, res = Ok p → preparations r !! t = Some p) r;
  rs_release_law t r : remote_ok r →
    outcome (rs_release t) (λ res r', remote_ok r' ∧ bound_orders r' = bound_orders r
      ∧ prep_moves [PreparationState.Prepared; PreparationState.Committed; PreparationState.Released] PreparationState.Released t (preparations r) (preparations r')
      ∧ ∀ p, res = Ok p → preparations r' !! t = Some p ∧ pr_state p = PreparationState.Released) r;
  rs_command_law o i c t r : remote_ok r →
    outcome (rs_command o i c t) (λ res r', remote_ok r' ∧ bound_orders r' = bound_orders r
      ∧ (preparations r' = preparations r
         ∨ spends c = true ∧ (∀ f, res ≠ Ok (ProgressFailed f)) ∧ res ≠ Ok ProgressPending
           ∧ ∃ p, preparations r !! t = Some p ∧ pr_state p = PreparationState.Committed ∧ pr_role p = command_role c
             ∧ bound_orders r !! o = Some (pr_quote p) ∧ preparations r' = <[t := with_prep_state p PreparationState.Executed]> (preparations r))
      ∧ ∀ e, res = Ok (ProgressFinalized e) → ∃ p, preparations r' !! t = Some p ∧ pr_state p = PreparationState.Executed) r
}.

(** ** CCTP completion *)

Record CctpPreparedStep := mk_cctp_step { cctp_step : PreparedStep; cctp_message : B256 }.

Record CctpQuoteTerms := mk_cctp_terms { max_fee : U256; finality_threshold : Z }.

Inductive CctpCompletionError : Type := CctpPending | CctpRateLimited (retry_after_secs : option Z) | CctpTransport (m : string) | CctpInvalid (m : string).

(** What the service answers during one request. *)
Record CctpCompletion := mk_cctp {
  quote_terms : U256 → result CctpCompletionError CctpQuoteTerms;
  close_step : CrossChainOrderId → B256 → result CctpCompletionError CctpPreparedStep
}.

(** ** The proxy *)

Inductive ProxyError : Type :=
| InvalidCrossChain (m : string)
| RemoteFailed (e : RemoteSolventError)
| SagaStoreFailed (e : CrossStoreError)
| CctpFailed (e : CctpCompletionError).

Section proxy.
Context {R St : Type} `{HR : RemoteSolvent R} `{HS : SagaStore St}.
Context (keccak256 : list Z → B256) (cctp : option CctpCompletion).

Record CrossChainProxy := mk_proxy { px_origin : R; px_destination : R; px_sagas : St }.

Abbreviation proxy_cmd := (cmd CrossChainProxy ProxyError).

Definition remote_of (r : LegRole) (s : CrossChainProxy) : R := match r with Origin => px_origin s | Destination => px_destination s end.

Definition put_remote (r : LegRole) (s : CrossChainProxy) (x : R) : CrossChainProxy :=
  match r with
  | Origin => mk_proxy x (px_destination s) (px_sagas s)
  | Destination => mk_proxy (px_origin s) x (px_sagas s)
  end.

Definition put_sagas (s : CrossChainProxy) (x : St) : CrossChainProxy := mk_proxy (px_origin s) (px_destination s) x.

(** Call a service, and look at its answer. *)
Definition ask {A} (r : LegRole) (c : cmd R RemoteSolventError A) : proxy_cmd (result RemoteSolventError A) :=
  attempt (zoom (remote_of r) (put_remote r) (λ e, e) c).

(** Call a service, and propagate its error. *)
Definition call {A} (r : LegRole) (c : cmd R RemoteSolventError A) : proxy_cmd A := zoom (remote_of r) (put_remote r) RemoteFailed c.

Definition with_sagas {A} (c : cmd St CrossStoreError A) : proxy_cmd A := zoom px_sagas put_sagas SagaStoreFailed c.

Definition check {A} (r : result string A) : proxy_cmd A := lift (map_err InvalidCrossChain r).

(** Both futures of a [try_join!] run; the first error is returned. *)
Definition try_join {A} (c d : proxy_cmd A) : proxy_cmd (A * A) :=
  x ← attempt c;
  y ← attempt d;
  lift (a ← x; b ← y; Ok (a, b)).

Definition move_saga (g : CrossChainSaga) (next : SagaState.t) : proxy_cmd CrossChainSaga :=
  lift (map_err (λ e, InvalidCrossChain (invariant_text e)) (transition g next)).

Definition required_token (t : option PrepareToken) : proxy_cmd PrepareToken :=
  lift (ok_or t (InvalidCrossChain "saga is missing a committed preparation")).

Definition load_saga (order : CrossChainOrderId) : proxy_cmd CrossChainSaga :=
  found ← with_sagas (saga_load order);
  lift (ok_or found (InvalidCrossChain "unknown cross-chain order")).

Definition quote (origin_request destination_request : LegQuoteRequest) (now : Z) : proxy_cmd AggregateQuote :=
  legs ← try_join (call Origin (rs_quote origin_request)) (call Destination (rs_quote destination_request));
  aggregate ← check (aggregate_quote keccak256 legs.1 legs.2 now);
  match lq_route (aq_origin aggregate) with
  | Direct => mret aggregate
  | Cctp =>
      cctp ← lift (ok_or cctp (InvalidCrossChain "CCTP route is not configured"));
      terms ← lift (map_err CctpFailed (quote_terms cctp (lq_amount_in (aq_destination aggregate))));
      required ← lift (ok_or (checked_add (lq_amount_in (aq_destination aggregate)) (max_fee terms))
                         (InvalidCrossChain "CCTP repayment plus fee exceeds uint256"));
      if lq_amount_out (aq_origin aggregate) <? required
      then fail (InvalidCrossChain "origin quote does not cover destination repayment and CCTP fee")
      else mret (mk_aggregate
                   (aggregate_id keccak256 (aq_origin aggregate) (aq_destination aggregate) (max_fee terms) (Some (finality_threshold terms)))
                   (aq_origin aggregate) (aq_destination aggregate) (aq_amount_in aggregate) (aq_amount_out aggregate)
                   (max_fee terms) (Some (finality_threshold terms)) (aq_expires_at aggregate))
  end.

Definition status (order : CrossChainOrderId) : proxy_cmd CrossChainSaga := load_saga order.

Definition recoverable : proxy_cmd (list CrossChainSaga) := with_sagas saga_recoverable.

(** *** Preparation and compensation *)

(** Release one leg, if it was prepared. *)
Definition release_leg (r : LegRole) (g : CrossChainSaga) : proxy_cmd (option RemoteSolventError) :=
  match prepare_of r g with
  | None => mret None
  | Some t => x ← ask r (rs_release t); mret (match x with Ok _ => None | Err e => Some e end)
  end.

Definition compensate (g : CrossChainSaga) (reason : string) : proxy_cmd CrossChainSaga :=
  e1 ← release_leg Origin g;
  e2 ← release_leg Destination g;
  match (match e1 with Some e => Some e | None => e2 end) with
  | Some e =>
      _ ← with_sagas (saga_update (set_failure g (String.append reason (String.append "; compensation pending: " (remote_error_text e)))));
      fail (RemoteFailed e)
  | None =>
      g' ← move_saga (set_failure g reason) SagaState.FailedBeforeDelivery;
      _ ← with_sagas (saga_update g');
      mret g'
  end.

(** The hold of a leg: inspected when it is known, prepared when it is not. *)
Definition obtain (r : LegRole) (g : CrossChainSaga) : proxy_cmd (result RemoteSolventError Preparation) :=
  match prepare_of r g with
  | Some t => ask r (rs_inspect t)
  | None => ask r (rs_prepare (aq_id (sg_quote g)) (leg_of (sg_quote g) r))
  end.

(** Remember the token of a leg just prepared. *)
Definition keep_token (r : LegRole) (g : CrossChainSaga) (p : Preparation) : proxy_cmd CrossChainSaga :=
  match prepare_of r g with
  | Some _ => mret g
  | None => let g' := set_prepare r g (pr_token p) in _ ← with_sagas (saga_update g'); mret g'
  end.

Definition unusable (r : LegRole) : string :=
  match r with Origin => "origin preparation is no longer usable" | Destination => "destination preparation is no longer usable" end.

(** Commit a leg; [inl] is a reason to compensate. *)
Definition commit_leg (r : LegRole) (p : Preparation) : proxy_cmd (string + Preparation) :=
  match pr_state p with
  | PreparationState.Prepared =>
      c ← ask r (rs_commit (pr_token p));
      match c with
      | Ok p' => mret (inr p')
      | Err (Rejected reason) => mret (inl reason)
      | Err e => fail (RemoteFailed e)
      end
  | PreparationState.Committed => mret (inr p)
  | _ => mret (inl (unusable r))
  end.

(** The leg is committed for this saga, or there is a reason to compensate. *)
Definition committed_leg (r : LegRole) (g : CrossChainSaga) (p : Preparation) : proxy_cmd (option string) :=
  c ← commit_leg r p;
  mret (match c with
        | inl reason => Some reason
        | inr p' => match validate_committed g p' r with Ok _ => None | Err m => Some (String.append "invalid cross-chain request: " m) end
        end).

Definition continue_preparation (g : CrossChainSaga) : proxy_cmd CrossChainSaga :=
  o ← obtain Origin g;
  match o with
  | Err (Rejected reason) => compensate g reason
  | Err e => fail (RemoteFailed e)
  | Ok origin =>
      g ← keep_token Origin g origin;
      d ← obtain Destination g;
      match d with
      | Err (Rejected reason) => compensate g reason
      | Err e => fail (RemoteFailed e)
      | Ok destination =>
          g ← keep_token Destination g destination;
          oc ← committed_leg Origin g origin;
          match oc with
          | Some reason => compensate g reason
          | None =>
              dc ← committed_leg Destination g destination;
              match dc with
              | Some reason => compensate g reason
              | None =>
                  g' ← move_saga g SagaState.Prepared;
                  _ ← with_sagas (saga_update g');
                  mret g'
              end
          end
      end
  end.

(** *** Starting an order *)

Definition new_saga (order : CrossChainOrderId) (taker : option Address) (q : AggregateQuote) (now : Z) : CrossChainSaga :=
  record_lifecycle (mk_saga order taker q SagaState.Quoted [] None None None None None None None) Stage.Quoted now.

Definition check_terms (q : AggregateQuote) : proxy_cmd unit :=
  match lq_route (aq_origin q) with
  | Direct =>
      if negb (aq_bridge_fee q =? 0) || bool_decide (is_Some (aq_finality q))
      then fail (InvalidCrossChain "direct quote contains CCTP terms") else mret tt
  | Cctp =>
      cctp ← lift (ok_or cctp (InvalidCrossChain "CCTP route is not configured"));
      current ← lift (map_err CctpFailed (quote_terms cctp (lq_amount_in (aq_destination q))));
      if negb (aq_bridge_fee q =? max_fee current) || negb (bool_decide (aq_finality q = Some (finality_threshold current)))
      then fail (InvalidCrossChain "CCTP capacity or fee changed; request a fresh quote") else mret tt
  end.

Definition start_with_taker (order : CrossChainOrderId) (taker : option Address) (q : AggregateQuote)
    (origin_plan destination_plan : ChainExecutionPlan) (now : Z) : proxy_cmd CrossChainSaga :=
  existing ← with_sagas (saga_load order);
  match existing with
  | Some g => if bool_decide (sg_quote g = q) then mret g else fail (InvalidCrossChain "order id already belongs to a different quote")
  | None =>
      _ ← check (validate_aggregate_binding keccak256 q now);
      _ ← check_terms q;
      _ ← check (validate_plan q origin_plan Origin);
      _ ← check (validate_plan q destination_plan Destination);
      _ ← call Origin (rs_stage (mk_context order q Origin) origin_plan);
      _ ← call Destination (rs_stage (mk_context order q Destination) destination_plan);
      g ← with_sagas (saga_insert (new_saga order taker q now));
      g ← move_saga g SagaState.Preparing;
      _ ← with_sagas (saga_update g);
      continue_preparation g
  end.

Definition start (order : CrossChainOrderId) (q : AggregateQuote) (origin_plan destination_plan : ChainExecutionPlan) (now : Z) :
    proxy_cmd CrossChainSaga := start_with_taker order None q origin_plan destination_plan now.

Definition start_direct (d : DirectOrderAuthorization) (now : Z) : proxy_cmd CrossChainSaga :=
  plans ← call Destination (rs_author_direct d);
  start_with_taker (da_order_id d) (Some (do_user (da_order d))) (da_quote d) (dp_origin plans) (dp_destination plans) now.

(** *** Advancing *)

Definition apply_post_delivery (g : CrossChainSaga) (progress : RemoteProgress) (pending finalized : SagaState.t) (stage : Stage.t)
    (now : Z) (record : CrossChainSaga → StepEvidence → CrossChainSaga) : CrossChainSaga :=
  match progress with
  | ProgressPending => set_state g pending
  | ProgressFinalized evidence => record_lifecycle (set_state (record g evidence) finalized) stage now
  | ProgressFailed reason => set_state (set_failure g reason) SagaState.NeedsReconcile
  end.

(** Issue one command of the saga to the service of its role, with that leg's hold. *)
Definition issue (g : CrossChainSaga) (c : RemoteCommand) : proxy_cmd RemoteProgress :=
  let r := command_role c in
  token ← required_token (prepare_of r g);
  call r (rs_command (sg_order g) (step_id keccak256 (sg_order g) (lq_local_chain (leg_of (sg_quote g) r)) c) c token).

Definition store_saga (g : CrossChainSaga) : proxy_cmd CrossChainSaga := _ ← with_sagas (saga_update g); mret g.

Definition deliver (g : CrossChainSaga) (now : Z) : proxy_cmd CrossChainSaga :=
  origin_token ← required_token (sg_origin_prepare g);
  destination_token ← required_token (sg_destination_prepare g);
  legs ← try_join (call Origin (rs_inspect origin_token)) (call Destination (rs_inspect destination_token));
  _ ← check (validate_committed g legs.1 Origin);
  _ ← check (validate_committed g legs.2 Destination);
  progress ← issue g Deliver;
  match progress with
  | ProgressPending => store_saga (set_state g SagaState.DestinationPending)
  | ProgressFinalized evidence =>
      store_saga (record_lifecycle (set_state (record_destination g evidence) SagaState.DestinationFinalized) Stage.DestinationFill now)
  | ProgressFailed reason => compensate g reason
  end.

(** After the origin burn: stage the destination close once the attestation is there. *)
Definition complete_cctp (g : CrossChainSaga) (now : Z) : proxy_cmd CrossChainSaga :=
  tx ← lift (ok_or (sg_origin g ≫= se_tx) (InvalidCrossChain "origin burn finalized without a transaction hash"));
  cctp ← lift (ok_or cctp (InvalidCrossChain "CCTP completion is not configured"));
  match close_step cctp (sg_order g) tx with
  | Ok prepared =>
      token ← required_token (sg_destination_prepare g);
      _ ← call Destination (rs_stage_cctp_completion (mk_context (sg_order g) (sg_quote g) Destination)
            (mk_plan (aq_id (sg_quote g)) (lq_local_chain (aq_destination (sg_quote g))) [cctp_step prepared]) token);
      let evidence := mk_evidence (step_id keccak256 (sg_order g) (lq_local_chain (aq_destination (sg_quote g))) CloseDestination)
                        (Some tx) (sg_origin g ≫= se_block) (Some (cctp_message prepared)) in
      store_saga (record_lifecycle (set_state (record_repayment g evidence) SagaState.RepaymentPending) Stage.Repayment now)
  | Err (CctpPending | CctpRateLimited _) => mret g
  | Err (CctpTransport m) => fail (CctpFailed (CctpTransport m))
  | Err (CctpInvalid m) => store_saga (set_state (set_failure g m) SagaState.NeedsReconcile)
  end.

(** The state a saga that needs reconciling resumes from: after its last evidence. *)
Definition resume_state (g : CrossChainSaga) : option SagaState.t :=
  if bool_decide (is_Some (sg_repayment g)) then Some SagaState.RepaymentPending
  else if bool_decide (is_Some (sg_origin g)) then Some SagaState.OriginFinalized
  else if bool_decide (is_Some (sg_fill_proof g)) then Some SagaState.OriginPending
  else if bool_decide (is_Some (sg_destination g)) then Some SagaState.DestinationFinalized
  else None.

(** One command at most, from the saga's state. *)
Definition advance_from (g : CrossChainSaga) (now : Z) : proxy_cmd CrossChainSaga :=
  match sg_state g with
  | SagaState.Preparing => continue_preparation g
  | SagaState.Prepared | SagaState.DestinationPending => deliver g now
  | SagaState.DestinationFinalized | SagaState.FillProofPending =>
      progress ← issue g DispatchFillProof;
      store_saga (apply_post_delivery g progress SagaState.FillProofPending SagaState.OriginPending Stage.ProofRelay now record_fill_proof)
  | SagaState.OriginPending =>
      progress ← issue g ClaimOrigin;
      store_saga (apply_post_delivery g progress SagaState.OriginPending SagaState.OriginFinalized Stage.OriginClaim now record_origin)
  | SagaState.OriginFinalized =>
      match lq_route (aq_origin (sg_quote g)) with
      | Direct =>
          progress ← issue g DispatchRepayment;
          store_saga (apply_post_delivery g progress SagaState.OriginFinalized SagaState.RepaymentPending Stage.Repayment now record_repayment)
      | Cctp => complete_cctp g now
      end
  | SagaState.RepaymentPending =>
      progress ← issue g CloseDestination;
      store_saga (apply_post_delivery g progress SagaState.RepaymentPending SagaState.Complete Stage.Complete now (λ g _, g))
  | _ => mret g
  end.

Definition advance (order : CrossChainOrderId) (now : Z) : proxy_cmd CrossChainSaga :=
  g ← load_saga order;
  match sg_state g with
  | SagaState.NeedsReconcile =>
      match resume_state g with
      | None => mret g
      | Some s => let g' := set_state g s in _ ← with_sagas (saga_update g'); advance_from g' now
      end
  | _ => advance_from g now
  end.

(** The coordinator's loop: advance every unfinished saga, each at its own time, and go on past errors. *)
Fixpoint advance_all (orders : list (CrossChainOrderId * Z)) : proxy_cmd unit :=
  match orders with
  | [] => mret tt
  | (o, now) :: orders' => _ ← attempt (F := ProxyError) (advance o now); advance_all orders'
  end.

Definition poll (clock : nat → Z) : proxy_cmd unit :=
  found ← attempt recoverable;
  match found with
  | Ok orders => advance_all (imap (λ n g, (sg_order g, clock n)) orders)
  | Err _ => mret tt
  end.

End proxy.
Arguments CrossChainProxy : clear implicits.
Arguments mk_proxy {R St} _ _ _.
