(* ===== verification/CrossProxyInvariant.v ===== *)
(** * What the proxy keeps between requests

    A saga against the holds of the two chain services: what each state of the saga says of the
    capital, which moves of a hold keep it, and that the sagas of different orders never share a
    hold. *)

From stdpp Require Import strings.
From S2P Require Import Prelude Commands U256 Reservation CrossChain CrossStores CrossProxy.

#[local] Open Scope Z_scope.

(** ** Holds over time *)

(** Spent and released capital stays so. *)
Definition prep_terminal (s : PreparationState.t) : Prop := s = PreparationState.Executed ∨ s = PreparationState.Released.

(** A hold keeps its terms, and its state once terminal. *)
Definition prep_follows (p p' : Preparation) : Prop := p' = with_prep_state p (pr_state p') ∧ (prep_terminal (pr_state p) → p' = p).

Definition preps_follow (v v' : gmap PrepareToken Preparation) : Prop := ∀ t p, v !! t = Some p → ∃ p', v' !! t = Some p' ∧ prep_follows p p'.

Lemma with_prep_state_id p : with_prep_state p (pr_state p) = p.
Proof. by destruct p. Qed.

Lemma prep_follows_refl p : prep_follows p p.
Proof. split; [by rewrite with_prep_state_id|done]. Qed.

#[global] Instance preps_follow_preorder : PreOrder preps_follow.
Proof.
  split.
  - intros v t p Hp. exists p. split; [done|apply prep_follows_refl].
  - intros v1 v2 v3 H1 H2 t p (p2 & Hp2 & He & Ht)%H1. apply H2 in Hp2 as (p3 & Hp3 & He3 & Ht3). exists p3. split; [done|]. split.
    + rewrite He3, He. by destruct p.
    + intros Hterm. rewrite <-(Ht Hterm). apply Ht3. by rewrite (Ht Hterm).
Qed.

Lemma preps_follow_insert v p : v !! pr_token p = None → preps_follow v (<[pr_token p := p]> v).
Proof.
  intros Hn t p' Hp'. exists p'. rewrite lookup_insert_ne by congruence. split; [done|apply prep_follows_refl].
Qed.

Lemma preps_follow_update v t p s :
  v !! t = Some p → (prep_terminal (pr_state p) → s = pr_state p) → preps_follow v (<[t := with_prep_state p s]> v).
Proof.
  intros Hp Hs t' p' Hp'. destruct (decide (t' = t)) as [->|Hne].
  - assert (p' = p) as -> by congruence. exists (with_prep_state p s). rewrite lookup_insert_eq. split; [done|]. split; [done|].
    intros Ht. rewrite (Hs Ht). apply with_prep_state_id.
  - exists p'. rewrite lookup_insert_ne by done. split; [done|apply prep_follows_refl].
Qed.

Lemma prep_moves_follow from to t v v' :
  prep_moves from to t v v' → (∀ s, s ∈ from → prep_terminal s → s = to) → preps_follow v v'.
Proof.
  intros [->|(p & Hp & Hin & ->)] Hf; [done|]. apply preps_follow_update; [done|]. intros Ht. symmetry. by apply Hf.
Qed.

(** ** The holds of a saga *)

Abbreviation Legs := (LegRole → gmap PrepareToken Preparation).

(** [p] is the hold of quote [q] on the service of role [r]. *)
Definition leg_hold (V : Legs) (r : LegRole) (q : AggregateQuoteId) (p : Preparation) : Prop :=
  V r !! pr_token p = Some p ∧ pr_quote p = q ∧ pr_role p = r.

Definition leg_in (V : Legs) (r : LegRole) (q : AggregateQuoteId) (s : PreparationState.t) : Prop := ∃ p, leg_hold V r q p ∧ pr_state p = s.

Definition legs_ok (V : Legs) : Prop := ∀ r, preparations_ok (V r).

Lemma leg_hold_unique V r q p p' : legs_ok V → leg_hold V r q p → leg_hold V r q p' → p = p'.
Proof.
  intros HV (Hp & Hq & Hr) (Hp' & Hq' & Hr'). assert (pr_token p = pr_token p') as E; [|congruence].
  eapply (preps_single _ (HV r)); [exact Hp|exact Hp'|congruence|congruence].
Qed.

Lemma leg_hold_at V r q p t : legs_ok V → V r !! t = Some p → pr_quote p = q → pr_role p = r → leg_hold V r q p.
Proof. intros HV Hp Hq Hr. split; [|done]. by rewrite (preps_filed _ (HV r) _ _ Hp). Qed.

(** ** Evidence and state *)

(** Whether the state comes after delivery, proof, claim and repayment. *)
Definition delivered_state (s : SagaState.t) : bool :=
  match s with
  | SagaState.DestinationFinalized | SagaState.FillProofPending | SagaState.OriginPending | SagaState.OriginFinalized
  | SagaState.RepaymentPending | SagaState.Complete | SagaState.NeedsReconcile => true
  | _ => false
  end.

Definition proven_state (s : SagaState.t) : bool :=
  match s with SagaState.OriginPending | SagaState.OriginFinalized | SagaState.RepaymentPending | SagaState.Complete => true | _ => false end.

Definition claimed_state (s : SagaState.t) : bool :=
  match s with SagaState.OriginFinalized | SagaState.RepaymentPending | SagaState.Complete => true | _ => false end.

Definition repaid_state (s : SagaState.t) : bool := match s with SagaState.RepaymentPending | SagaState.Complete => true | _ => false end.

(** The evidence a saga carries, against its state. *)
Record evidence_ok (g : CrossChainSaga) : Prop := {
  ev_delivered : is_Some (sg_destination g) ↔ delivered_state (sg_state g) = true;
  ev_proven : proven_state (sg_state g) = true → is_Some (sg_fill_proof g);
  ev_claimed : claimed_state (sg_state g) = true → is_Some (sg_origin g);
  ev_repaid : repaid_state (sg_state g) = true → is_Some (sg_repayment g);
  ev_proof_order : is_Some (sg_fill_proof g) → is_Some (sg_destination g);
  ev_claim_order : is_Some (sg_origin g) → is_Some (sg_fill_proof g);
  ev_repay_order : is_Some (sg_repayment g) → is_Some (sg_origin g)
}.

(** Nothing was prepared before the saga is in preparation, and both legs are known once it left it for delivery. *)
Definition tokens_ok (g : CrossChainSaga) : Prop :=
  match sg_state g with
  | SagaState.Quoted => sg_origin_prepare g = None ∧ sg_destination_prepare g = None
  | SagaState.Preparing | SagaState.FailedBeforeDelivery => True
  | _ => is_Some (sg_origin_prepare g) ∧ is_Some (sg_destination_prepare g)
  end.

(** What a saga says of the capital. *)
Record saga_inv (V : Legs) (g : CrossChainSaga) : Prop := {
  si_roles : ∀ r, lq_role (leg_of (sg_quote g) r) = r;
  si_evidence : evidence_ok g;
  si_tokens : tokens_ok g;
  si_token : ∀ r t, prepare_of r g = Some t → ∃ p, leg_hold V r (aq_id (sg_quote g)) p ∧ pr_token p = t;
  si_unknown : ∀ r p, prepare_of r g = None → leg_hold V r (aq_id (sg_quote g)) p → pr_state p = PreparationState.Prepared;
  si_unspent : ∀ r p, sg_state g = SagaState.Quoted ∨ sg_state g = SagaState.Preparing ∨ sg_state g = SagaState.FailedBeforeDelivery →
    leg_hold V r (aq_id (sg_quote g)) p → pr_state p ≠ PreparationState.Executed;
  si_failed : ∀ r t p, sg_state g = SagaState.FailedBeforeDelivery → prepare_of r g = Some t → leg_hold V r (aq_id (sg_quote g)) p →
    pr_state p = PreparationState.Released;
  si_delivered : is_Some (sg_destination g) → leg_in V Destination (aq_id (sg_quote g)) PreparationState.Executed;
  si_claimed : is_Some (sg_origin g) → leg_in V Origin (aq_id (sg_quote g)) PreparationState.Executed;
  si_claim_after : leg_in V Origin (aq_id (sg_quote g)) PreparationState.Executed →
    leg_in V Destination (aq_id (sg_quote g)) PreparationState.Executed
}.

(** Two views that agree on the holds of a quote. *)
Definition agree_on (q : AggregateQuoteId) (V V' : Legs) : Prop := ∀ r p, leg_hold V r q p ↔ leg_hold V' r q p.

Lemma saga_inv_agree V V' g : agree_on (aq_id (sg_quote g)) V V' → saga_inv V g → saga_inv V' g.
Proof.
  intros Ha [H1 H2 H3 H4 H5 H6 H7 H8 H9 H10]. split; try done.
  - intros r t Ht. destruct (H4 r t Ht) as (p & Hp & Hpt). exists p. split; [by apply Ha|done].
  - intros r p Hn Hp. apply (H5 r p Hn). by apply Ha.
  - intros r p Hs Hp. apply (H6 r p Hs). by apply Ha.
  - intros r t p Hs Ht Hp. apply (H7 r t p Hs Ht). by apply Ha.
  - intros Hd. destruct (H8 Hd) as (p & Hp & ?). exists p. split; [by apply Ha|done].
  - intros Hd. destruct (H9 Hd) as (p & Hp & ?). exists p. split; [by apply Ha|done].
  - intros (p & Hp & ?). destruct H10 as (p' & Hp' & ?); [exists p; split; [by apply Ha|done]|]. exists p'. split; [by apply Ha|done].
Qed.

(** ** Moves of one hold *)

(** [V] with the holds of role [r] replaced. *)
Definition set_leg (V : Legs) (r : LegRole) (v : gmap PrepareToken Preparation) : Legs := λ r', if decide (r' = r) then v else V r'.

Lemma set_leg_eq V r v : set_leg V r v r = v.
Proof. unfold set_leg. by rewrite decide_True. Qed.

Lemma set_leg_ne V r r' v : r' ≠ r → set_leg V r v r' = V r'.
Proof. intros. unfold set_leg. by rewrite decide_False. Qed.

Lemma leg_hold_set V r v r' q p : leg_hold (set_leg V r v) r' q p ↔ (if decide (r' = r) then v else V r') !! pr_token p = Some p ∧ pr_quote p = q ∧ pr_role p = r'.
Proof. done. Qed.

(** Moving a hold leaves those of other quotes. *)
Lemma agree_update V r t p s q :
  legs_ok V → V r !! t = Some p → pr_quote p ≠ q → agree_on q V (set_leg V r (<[t := with_prep_state p s]> (V r))).
Proof.
  intros HV Hp Hq r' p'. rewrite leg_hold_set. unfold leg_hold. case_decide as Hr; [subst r'|done].
  destruct (decide (t = pr_token p')) as [->|Hne]; [|by rewrite lookup_insert_ne]. rewrite lookup_insert_eq. split.
  - intros (Hp' & ? & _). congruence.
  - intros ([= <-] & Hq' & _). by destruct Hq.
Qed.

Lemma agree_insert V r p q :
  V r !! pr_token p = None → pr_quote p ≠ q → agree_on q V (set_leg V r (<[pr_token p := p]> (V r))).
Proof.
  intros Hn Hq r' p'. rewrite leg_hold_set. unfold leg_hold. case_decide as Hr; [subst r'|done].
  destruct (decide (pr_token p = pr_token p')) as [He|Hne]; [|by rewrite lookup_insert_ne]. rewrite <-He, lookup_insert_eq. split.
  - intros (Hp' & _). congruence.
  - intros ([= <-] & Hq' & _). by destruct Hq.
Qed.

(** The hold of a saga's own leg after it moved. *)
Lemma leg_hold_update V r t p s q r' p' :
  legs_ok V → V r !! t = Some p → pr_quote p = q → pr_role p = r →
  leg_hold (set_leg V r (<[t := with_prep_state p s]> (V r))) r' q p' ↔
  (if decide (r' = r) then p' = with_prep_state p s else leg_hold V r' q p').
Proof.
  intros HV Hp Hq Hr. pose proof (preps_filed _ (HV r) _ _ Hp) as Ht. rewrite leg_hold_set. case_decide as Hrr; [subst r'|done]. split.
  - intros (Hp' & Hq' & Hr'). destruct (decide (t = pr_token p')) as [->|Hne]; [rewrite lookup_insert_eq in Hp'; congruence|].
    rewrite lookup_insert_ne in Hp' by done. destruct Hne. symmetry. by eapply (preps_single _ (HV r)); [exact Hp'|exact Hp|congruence|congruence].
  - intros ->. cbn. by rewrite Ht, lookup_insert_eq.
Qed.

Lemma legs_ok_set V r v : legs_ok V → preparations_ok v → legs_ok (set_leg V r v).
Proof. intros HV Hv r'. unfold set_leg. by case_decide. Qed.

(** A hold of a known leg moves, unless it was spent: within preparation and compensation to anything but spent, at delivery the
    destination to spent, and after delivery the origin. *)
Definition may_move (V : Legs) (g : CrossChainSaga) (r : LegRole) (s : PreparationState.t) : Prop :=
  match s with
  | PreparationState.Executed =>
      match r with
      | Destination => sg_state g = SagaState.Prepared ∨ sg_state g = SagaState.DestinationPending
      | Origin => sg_state g ≠ SagaState.FailedBeforeDelivery ∧ sg_state g ≠ SagaState.Preparing ∧ is_Some (sg_destination g)
      end
  | _ => sg_state g = SagaState.Preparing ∨ sg_state g = SagaState.Prepared ∨ sg_state g = SagaState.DestinationPending
  end.

Lemma undelivered_evidence g :
  evidence_ok g → sg_state g = SagaState.Preparing ∨ sg_state g = SagaState.Prepared ∨ sg_state g = SagaState.DestinationPending →
  ¬ is_Some (sg_destination g) ∧ ¬ is_Some (sg_origin g).
Proof.
  intros He Hs. assert (Hd : ¬ is_Some (sg_destination g)).
  { rewrite (ev_delivered _ He). by destruct Hs as [->|[->| ->]]. }
  split; [done|]. intros Ho. apply Hd, (ev_proof_order _ He), (ev_claim_order _ He), Ho.
Qed.

Lemma saga_inv_update V g r t p s :
  legs_ok V → saga_inv V g → V r !! t = Some p → prepare_of r g = Some t → pr_state p ≠ PreparationState.Executed → may_move V g r s →
  saga_inv (set_leg V r (<[t := with_prep_state p s]> (V r))) g.
Proof.
  intros HV Hg Hp Htok Hne Hmay. pose proof Hg as [H1 H2 H3 H4 H5 H6 H7 H8 H9 H10].
  destruct (H4 r t Htok) as (p0 & (Hp0 & Hq & Hr) & Ht0). assert (p0 = p) as -> by congruence. clear Hp0.
  set (q := aq_id (sg_quote g)) in *. set (V' := set_leg V r _).
  assert (Hupd : ∀ r' p', leg_hold V' r' q p' ↔ if decide (r' = r) then p' = with_prep_state p s else leg_hold V r' q p').
  { intros r' p'. by apply leg_hold_update. }
  assert (Hown : leg_hold V r q p) by (split; [congruence|done]).
  assert (Hkeep : ∀ r', r' ≠ r → leg_in V r' q PreparationState.Executed → leg_in V' r' q PreparationState.Executed).
  { intros r' Hr' (x & Hx & ?). exists x. split; [|done]. apply Hupd. by rewrite decide_False. }
  assert (Hnot : ¬ leg_in V r q PreparationState.Executed).
  { intros (x & Hx & Hxs). apply Hne. by rewrite <-(leg_hold_unique V r q x p). }
  assert (Hself : s = PreparationState.Executed → leg_in V' r q PreparationState.Executed).
  { intros ->. exists (with_prep_state p PreparationState.Executed). split; [|done]. apply Hupd. by rewrite decide_True. }
  split; try done.
  - intros r' t' Ht'. destruct (H4 r' t' Ht') as (x & Hx & Hxt). destruct (decide (r' = r)) as [->|Hr'].
    + exists (with_prep_state p s). split; [apply Hupd; by rewrite decide_True|]. cbn. congruence.
    + exists x. split; [|done]. apply Hupd. by rewrite decide_False.
  - intros r' x Hn Hx. apply Hupd in Hx. case_decide as Hr'; [congruence|]. by apply (H5 r').
  - intros r' x Hs Hx. apply Hupd in Hx. case_decide as Hr'; [subst r' x|by apply (H6 r')]. cbn. intros ->. cbn in Hmay.
    destruct r; [destruct Hmay as (? & ? & Hd), Hs as [E|[E|E]]; [|congruence..]; apply (ev_delivered _ H2) in Hd; by rewrite E in Hd|].
    destruct Hmay, Hs as [|[|]]; congruence.
  - intros r' t' x Hs Ht' Hx. apply Hupd in Hx. case_decide as Hr'; [subst r' x|by apply (H7 r' t')]. exfalso.
    destruct s, r; cbn in Hmay; naive_solver congruence.
  - intros Hd. destruct (decide (Destination = r)) as [<-|Hr']; [|by apply Hkeep, H8]. destruct Hnot. by apply H8.
  - intros Ho. destruct (decide (Origin = r)) as [<-|Hr']; [|by apply Hkeep, H9]. destruct Hnot. by apply H9.
  - intros (x & Hx & Hxs). apply Hupd in Hx. case_decide as Hr'; [subst x|].
    + cbn in Hxs. apply Hkeep; [congruence|]. apply H8. rewrite Hxs, <-Hr' in Hmay. by destruct Hmay as (_ & _ & ?).
    + destruct r; [done|]. destruct Hnot. apply H10. by exists x.
Qed.

(** A new hold for a leg that has none recorded. *)
Lemma saga_inv_insert V g r p :
  legs_ok V → saga_inv V g → V r !! pr_token p = None → pr_quote p = aq_id (sg_quote g) → pr_role p = r →
  pr_state p = PreparationState.Prepared → prepare_of r g = None → preparations_ok (<[pr_token p := p]> (V r)) →
  saga_inv (set_leg V r (<[pr_token p := p]> (V r))) g.
Proof.
  intros HV Hg Hnew Hq Hr Hs Htok Hok. pose proof Hg as [H1 H2 H3 H4 H5 H6 H7 H8 H9 H10].
  set (q := aq_id (sg_quote g)) in *. set (V' := set_leg V r _).
  assert (HV' : legs_ok V') by (by apply legs_ok_set).
  assert (Hsub : ∀ r' x, leg_hold V r' q x → leg_hold V' r' q x).
  { intros r' x (Hx & ? & ?). split; [|done]. unfold V', set_leg. case_decide as Hr'; [|done]. rewrite Hr' in Hx.
    rewrite lookup_insert_ne; [done|congruence]. }
  assert (Hown : leg_hold V' r q p) by (split; [unfold V'; by rewrite set_leg_eq, lookup_insert_eq|done]).
  assert (Hinv : ∀ r' x, leg_hold V' r' q x → leg_hold V r' q x ∨ r' = r ∧ x = p).
  { intros r' x (Hx & Hxq & Hxr). unfold V', set_leg in Hx. case_decide as Hr'; [|by left].
    apply lookup_insert_Some in Hx as [[_ <-]|[_ Hx]]; [by right|left]. rewrite <-Hr' in Hx. done. }
  split; try done.
  - intros r' t' Ht'. destruct (H4 r' t' Ht') as (x & Hx & ?). exists x. auto.
  - intros r' x Hn [Hx|[-> ->]]%Hinv; [by apply (H5 r')|done].
  - intros r' x Hst [Hx|[-> ->]]%Hinv; [by apply (H6 r')|congruence].
  - intros r' t' x Hst Ht' [Hx|[-> ->]]%Hinv; [by apply (H7 r' t')|congruence].
  - intros Hd. destruct (H8 Hd) as (x & Hx & ?). exists x. auto.
  - intros Ho. destruct (H9 Ho) as (x & Hx & ?). exists x. auto.
  - intros (x & [Hx|[_ ->]]%Hinv & Hxs); [|congruence]. destruct H10 as (y & Hy & ?); [by exists x|]. exists y. auto.
Qed.
