(* ===== verification/CrossProxySteps.v ===== *)
(** * What each request does to the sagas and their holds

    The invariant of the proxy and the two services together, and that every request keeps it
    whatever call or statement fails. *)

From stdpp Require Import strings.
From S2P Require Import Prelude Commands U256 Reservation CrossChain CrossStores CrossProxy CrossProxyInvariant.

#[local] Open Scope Z_scope.

Section steps.
Context {R St : Type} `{HR : RemoteSolvent R} `{HRL : !RemoteLaws R} `{HS : SagaStore St} `{HSL : !SagaStoreLaws St}.
Abbreviation Proxy := (CrossChainProxy R St).
Implicit Types (s : Proxy) (g : CrossChainSaga) (r : LegRole) (o : CrossChainOrderId).

Definition legs s : Legs := λ r, preparations (remote_of r s).
Definition bound s r : gmap CrossChainOrderId AggregateQuoteId := bound_orders (remote_of r s).
Definition orders s : gmap CrossChainOrderId CrossChainSaga := sagas (px_sagas s).

(** ** The invariant *)

Record proxy_ok s : Prop := {
  po_remote : ∀ r, remote_ok (remote_of r s);
  po_store : saga_store_ok (px_sagas s);
  po_saga : ∀ o g, orders s !! o = Some g → saga_inv (legs s) g;
  po_bound : ∀ o g r, orders s !! o = Some g → bound s r !! o = Some (aq_id (sg_quote g));
  po_owned : ∀ r t p, legs s r !! t = Some p → ∃ o g, orders s !! o = Some g ∧ aq_id (sg_quote g) = pr_quote p
}.

(** The request works on [g], and [g] is what the store has. *)
Definition at_rest g s : Prop := proxy_ok s ∧ orders s !! sg_order g = Some g.

(** Over time a saga keeps its quote, and everything once it is finished; holds follow. *)
Record proxy_follows s s' : Prop := {
  pf_legs : ∀ r, preps_follow (legs s r) (legs s' r);
  pf_orders : ∀ o g, orders s !! o = Some g →
    ∃ g', orders s' !! o = Some g' ∧ sg_quote g' = sg_quote g ∧ (SagaState.unfinished (sg_state g) = false → g' = g)
}.

#[global] Instance proxy_follows_preorder : PreOrder proxy_follows.
Proof.
  split.
  - intros s. split; [done|]. intros o g Hg. by exists g.
  - intros s1 s2 s3 [L1 O1] [L2 O2]. split; [intros r; etrans; [apply L1|apply L2]|]. intros o g (g2 & Hg2 & Hq & Hf)%O1.
    apply O2 in Hg2 as (g3 & Hg3 & Hq3 & Hf3). exists g3. split_and!; [done|congruence|]. intros Hu.
    rewrite <-(Hf Hu). apply Hf3. by rewrite (Hf Hu).
Qed.

Lemma proxy_legs_ok s : proxy_ok s → legs_ok (legs s).
Proof. intros Hs r. apply remote_preparations_ok, Hs. Qed.

Lemma order_of_saga s o g : proxy_ok s → orders s !! o = Some g → sg_order g = o.
Proof. intros Hs. apply sagas_filed, Hs. Qed.

(** No two sagas share a quote. *)
Lemma quote_names_saga s o o' g g' :
  proxy_ok s → orders s !! o = Some g → orders s !! o' = Some g' → aq_id (sg_quote g) = aq_id (sg_quote g') → o = o'.
Proof.
  intros Hs Hg Hg' Hq. eapply (remote_bound_inj (remote_of Origin s)); [apply Hs|by apply (po_bound _ Hs o g Origin)|].
  rewrite Hq. by apply (po_bound _ Hs o' g' Origin).
Qed.

(** ** Replacing a service *)

Lemma remote_put r r' s x : remote_of r' (put_remote r s x) = if decide (r' = r) then x else remote_of r' s.
Proof. destruct r, r'; cbn; done. Qed.

Lemma legs_put r s x r' : legs (put_remote r s x) r' = set_leg (legs s) r (preparations x) r'.
Proof. unfold legs, set_leg. rewrite remote_put. by case_decide. Qed.

Lemma orders_put r s x : orders (put_remote r s x) = orders s.
Proof. by destruct r. Qed.

Lemma saga_inv_ext V V' g : (∀ r, V r = V' r) → saga_inv V g → saga_inv V' g.
Proof. intros HV. apply saga_inv_agree. intros r p. unfold leg_hold. by rewrite HV. Qed.

(** The new holds [v] of role [r] differ from the old ones in those of quote [q] at most. *)
Definition leg_change (V : Legs) r (v : gmap PrepareToken Preparation) (q : AggregateQuoteId) : Prop :=
  (∀ q', q' ≠ q → agree_on q' V (set_leg V r v)) ∧ preps_follow (V r) v
  ∧ ∀ t p, v !! t = Some p → pr_quote p = q ∨ V r !! t = Some p.

Lemma leg_change_refl V r v q : v = V r → leg_change V r v q.
Proof.
  intros ->. split_and!; [|done|by right]. intros q' _ r' p. unfold leg_hold, set_leg. case_decide as E; [by rewrite E|done].
Qed.

Lemma leg_change_update V r t p st q :
  legs_ok V → V r !! t = Some p → pr_quote p = q → (prep_terminal (pr_state p) → st = pr_state p) →
  leg_change V r (<[t := with_prep_state p st]> (V r)) q.
Proof.
  intros HV Hp Hq Ht. split_and!.
  - intros q' Hq'. apply agree_update; [done..|congruence].
  - by apply preps_follow_update.
  - intros t' p' [[<- <-]|[_ ?]]%lookup_insert_Some; auto.
Qed.

Lemma leg_change_insert V r p q : V r !! pr_token p = None → pr_quote p = q → leg_change V r (<[pr_token p := p]> (V r)) q.
Proof.
  intros Hn Hq. split_and!.
  - intros q' Hq'. apply agree_insert; [done|congruence].
  - by apply preps_follow_insert.
  - intros t' p' [[<- <-]|[_ ?]]%lookup_insert_Some; auto.
Qed.

Lemma at_rest_put g s r x :
  at_rest g s → remote_ok x → bound s r ⊆ bound_orders x → leg_change (legs s) r (preparations x) (aq_id (sg_quote g)) →
  saga_inv (set_leg (legs s) r (preparations x)) g → at_rest g (put_remote r s x) ∧ proxy_follows s (put_remote r s x).
Proof.
  intros [Hs Hg] Hx Hb (Hag & Hf & Hown) Hinv.
  assert (HV : ∀ r', set_leg (legs s) r (preparations x) r' = legs (put_remote r s x) r') by (intros; by rewrite legs_put).
  split; [split; [split|]|split].
  - intros r'. rewrite remote_put. case_decide; [done|apply Hs].
  - destruct r; apply Hs.
  - intros o' g'. rewrite orders_put. intros Hg'. apply (saga_inv_ext _ _ _ HV). destruct (decide (o' = sg_order g)) as [->|Hne].
    + by assert (g' = g) as -> by congruence.
    + eapply saga_inv_agree; [|by eapply po_saga]. apply Hag. intros Hq. apply Hne. eapply quote_names_saga; [exact Hs|exact Hg'|exact Hg|done].
  - intros o' g' r'. rewrite orders_put. intros Hg'. unfold bound. rewrite remote_put. case_decide as E; [subst r'|by apply Hs].
    eapply lookup_weaken; [by apply Hs|done].
  - intros r' t p. rewrite orders_put, legs_put. unfold set_leg. case_decide as E; [subst r'|by apply Hs].
    intros [Hq|Hp]%Hown; [|by eapply po_owned]. by exists (sg_order g), g.
  - by rewrite orders_put.
  - intros r'. rewrite legs_put. unfold set_leg. by case_decide as E; [subst r'|].
  - intros o' g'. rewrite orders_put. intros Hg'. by exists g'.
Qed.

(** A call that leaves the holds as they are. *)
Lemma at_rest_put_same g s r x :
  at_rest g s → remote_ok x → bound s r ⊆ bound_orders x → preparations x = legs s r →
  at_rest g (put_remote r s x) ∧ proxy_follows s (put_remote r s x).
Proof.
  intros Hg Hx Hb Hp. apply at_rest_put; [done..|by apply leg_change_refl|].
  destruct Hg as [Hs Hg]. eapply saga_inv_ext; [|by eapply po_saga]. intros r'. unfold set_leg. case_decide as E; [by rewrite E, Hp|done].
Qed.

(** ** Calls *)

Lemma outcome_ask {A} r (c : cmd R RemoteSolventError A) (Q : result RemoteSolventError A → R → Prop) s :
  outcome c Q (remote_of r s) →
  outcome (ask r c) (λ res s', ∃ a x, res = Ok a ∧ s' = put_remote r s x ∧ Q a x) s.
Proof. unfold outcome, ask, attempt, zoom. destruct (c (remote_of r s)) as [[a|e] x]; cbn; eauto. Qed.

Lemma outcome_call {A} r (c : cmd R RemoteSolventError A) (Q : result RemoteSolventError A → R → Prop) s :
  outcome c Q (remote_of r s) →
  outcome (call r c) (λ res s', ∃ a x, s' = put_remote r s x ∧ Q a x ∧ res = map_err RemoteFailed a) s.
Proof. unfold outcome, call, zoom. destruct (c (remote_of r s)) as [a x]; cbn; eauto. Qed.

(** What the steps below leave: the request still works on [g]. *)
Definition kept g s s' : Prop := at_rest g s' ∧ proxy_follows s s'.

Lemma saga_kept_trans g s1 s2 s3 : kept g s1 s2 → kept g s2 s3 → kept g s1 s3.
Proof. intros [_ F1] [H2 F2]. split; [done|by etrans]. Qed.

Lemma inspect_kept g s r x :
  at_rest g s → remote_ok x → preparations x = legs s r → bound_orders x = bound s r → kept g s (put_remote r s x).
Proof. intros Hg Hx Hp Hb. apply at_rest_put_same; [done..|by rewrite Hb|done]. Qed.

Lemma move_kept g s r t from to x :
  at_rest g s → remote_ok x → bound_orders x = bound s r → prepare_of r g = Some t → prep_moves from to t (legs s r) (preparations x) →
  (∀ st, st ∈ from → st ≠ PreparationState.Executed ∧ (prep_terminal st → st = to)) → may_move (legs s) g r to →
  kept g s (put_remote r s x).
Proof.
  intros Hg Hx Hb Ht Hm Hfrom Hmay. pose proof Hg as [Hs Hg']. destruct Hm as [Hp|(p & Hp & Hin & Hp')].
  { by apply inspect_kept. }
  destruct (Hfrom _ Hin) as [Hne Hterm]. pose proof (po_saga _ Hs _ _ Hg') as Hinv. pose proof (proxy_legs_ok _ Hs) as HV.
  apply at_rest_put; [done..|by rewrite Hb| |].
  - rewrite Hp'. apply leg_change_update; [done..| |intros; symmetry; by apply Hterm].
    destruct (si_token _ _ Hinv r t Ht) as (p0 & (Hp0 & Hq & _) & Hpt). rewrite Hpt in Hp0. congruence.
  - rewrite Hp'. by apply saga_inv_update.
Qed.

(** ** Storing the saga *)

(** The store after a read. *)
Lemma proxy_ok_sagas s x :
  proxy_ok s → saga_store_ok x → sagas x = orders s → proxy_ok (put_sagas s x) ∧ proxy_follows s (put_sagas s x).
Proof.
  intros Hs Hx Hv. assert (Ho : orders (put_sagas s x) = orders s) by exact Hv.
  assert (Hl : ∀ r, legs (put_sagas s x) r = legs s r) by (by intros []).
  assert (Hb : ∀ r, bound (put_sagas s x) r = bound s r) by (by intros []).
  split; split; [intros []; [apply (po_remote _ Hs Origin)|apply (po_remote _ Hs Destination)]|done|..].
  - intros o1 g1. rewrite Ho. intros H1. eapply saga_inv_ext; [intros r; symmetry; apply Hl|by eapply po_saga].
  - intros o1 g1 r. rewrite Ho, Hb. apply Hs.
  - intros r t p. rewrite Hl, Ho. apply Hs.
  - intros r. by rewrite Hl.
  - intros o1 g1 H1. rewrite Ho. by exists g1.
Qed.

Lemma store_kept g g' s :
  at_rest g s → saga_inv (legs s) g' → sg_order g' = sg_order g → sg_quote g' = sg_quote g → SagaState.unfinished (sg_state g) = true →
  outcome (with_sagas (saga_update g')) (λ res s', proxy_ok s' ∧ proxy_follows s s' ∧ ∀ u, res = Ok u → at_rest g' s') s.
Proof.
  intros [Hs Hg] Hinv Ho Hq Hu. apply outcome_zoom. eapply outcome_mono; [apply saga_update_law, Hs|].
  intros res x [Hx Hres].
  assert (Hother : ∀ r, legs (put_sagas s x) r = legs s r ∧ bound (put_sagas s x) r = bound s r) by (intros []; done).
  assert (Hl : ∀ r, legs (put_sagas s x) r = legs s r) by (intros r; apply Hother).
  assert (Hb : ∀ r, bound (put_sagas s x) r = bound s r) by (intros r; apply Hother). clear Hother.
  assert (Hi : ∀ g1, saga_inv (legs s) g1 → saga_inv (legs (put_sagas s x)) g1) by (intros g1; by apply saga_inv_ext).
  destruct res as [u|e]; cbn [map_err].
  - destruct Hres as [_ Hv]. rewrite Ho in Hv. change (sagas x) with (orders (put_sagas s x)) in Hv.
    change (sagas (px_sagas s)) with (orders s) in Hv.
    assert (Hok : proxy_ok (put_sagas s x)).
    { split; [intros []; [apply (po_remote _ Hs Origin)|apply (po_remote _ Hs Destination)]|done| | |].
      - intros o1 g1. rewrite Hv. intros [[<- <-]|[_ H1]]%lookup_insert_Some; apply Hi; [done|by eapply po_saga].
      - intros o1 g1 r. rewrite Hv, Hb. intros [[<- <-]|[_ H1]]%lookup_insert_Some; [rewrite Hq|]; by apply Hs.
      - intros r t p. rewrite Hl. intros Hp. destruct (po_owned _ Hs r t p Hp) as (o1 & g1 & H1 & Hq1). rewrite Hv.
        destruct (decide (o1 = sg_order g)) as [->|Hne].
        + exists (sg_order g), g'. rewrite lookup_insert_eq. split; [done|]. assert (g1 = g) as -> by congruence. congruence.
        + exists o1, g1. by rewrite lookup_insert_ne. }
    split; [done|]. split; [|intros u' _; split; [done|]; by rewrite Ho, Hv, lookup_insert_eq]. split; [intros r; by rewrite Hl|].
    intros o1 g1 H1. rewrite Hv. destruct (decide (o1 = sg_order g)) as [->|Hne].
    + assert (g1 = g) as -> by congruence. exists g'. rewrite lookup_insert_eq. split_and!; [done..|congruence].
    + exists g1. by rewrite lookup_insert_ne.
  - destruct (proxy_ok_sagas s x Hs Hx Hres) as [? ?]. split; [done|]. split; [done|by intros ? [=]].
Qed.

End steps.

(** * The requests of the proxy, one by one

    Preparation, compensation, delivery and what follows it: each leaves the invariant, only moves
    holds forward and returns the saga it stored. *)

Section requests.
Context {R St : Type} `{HR : RemoteSolvent R} `{HRL : !RemoteLaws R} `{HS : SagaStore St} `{HSL : !SagaStoreLaws St}.
Context (keccak256 : list Z → B256) (cctp : option CctpCompletion).
Abbreviation Proxy := (CrossChainProxy R St).
Implicit Types (s : Proxy) (g : CrossChainSaga) (r : LegRole) (o : CrossChainOrderId).

(** What every request leaves: the invariant, everything moved forward, and a saga returned is the one stored. *)
Definition settles_at s (res : result ProxyError CrossChainSaga) s' : Prop :=
  proxy_ok s' ∧ proxy_follows s s' ∧ ∀ g', res = Ok g' → at_rest g' s'.

Lemma settles_from s0 s c :
  proxy_follows s0 s → outcome c (settles_at s) s → outcome c (settles_at s0) s.
Proof. intros Hf Ho. eapply outcome_mono; [exact Ho|]. intros res s' (? & ? & ?). split; [done|]. split; [by etrans|done]. Qed.

Lemma settles_err g s0 s e : kept g s0 s → settles_at s0 (Err e) s.
Proof. intros [[Hs _] Hf]. split; [done|]. split; [done|by intros ? [=]]. Qed.

Lemma settles_ret g s0 s : kept g s0 s → settles_at s0 (Ok g) s.
Proof. intros [Hg Hf]. split; [apply Hg|]. split; [done|]. by intros g' [= <-]. Qed.

Lemma kept_refl g s : at_rest g s → kept g s s.
Proof. intros Hg. by split. Qed.

(** ** Changing the record *)

(** A saga whose quote and tokens stay, on the same holds. *)
Lemma saga_inv_set V g g' :
  saga_inv V g → sg_quote g' = sg_quote g → (∀ r, prepare_of r g' = prepare_of r g) → evidence_ok g' → tokens_ok g' →
  (∀ r p, sg_state g' = SagaState.Quoted ∨ sg_state g' = SagaState.Preparing ∨ sg_state g' = SagaState.FailedBeforeDelivery →
    leg_hold V r (aq_id (sg_quote g)) p → pr_state p ≠ PreparationState.Executed) →
  (∀ r t p, sg_state g' = SagaState.FailedBeforeDelivery → prepare_of r g = Some t → leg_hold V r (aq_id (sg_quote g)) p →
    pr_state p = PreparationState.Released) →
  (is_Some (sg_destination g') → leg_in V Destination (aq_id (sg_quote g)) PreparationState.Executed) →
  (is_Some (sg_origin g') → leg_in V Origin (aq_id (sg_quote g)) PreparationState.Executed) →
  saga_inv V g'.
Proof.
  intros [H1 H2 H3 H4 H5 H6 H7 H8 H9 H10] Hq Ht He Htok Hun Hfa Hd Ho. split; rewrite ?Hq; try done.
  - intros r t Hr. rewrite Ht in Hr. by apply H4.
  - intros r p Hr. rewrite Ht in Hr. by apply H5.
  - intros r t p Hst Hr. rewrite Ht in Hr. by eapply Hfa.
Qed.

(** Progress after delivery. *)
Lemma saga_inv_progress V g g' :
  saga_inv V g → sg_quote g' = sg_quote g → (∀ r, prepare_of r g' = prepare_of r g) → sg_destination g' = sg_destination g →
  delivered_state (sg_state g) = true → delivered_state (sg_state g') = true → evidence_ok g' →
  (is_Some (sg_origin g') → leg_in V Origin (aq_id (sg_quote g)) PreparationState.Executed) → saga_inv V g'.
Proof.
  intros Hg Hq Ht Hd Hs Hs' He Ho. pose proof (si_tokens _ _ Hg) as Htok. eapply saga_inv_set; try done.
  - pose proof (Ht Origin) as H1. pose proof (Ht Destination) as H2. cbn in H1, H2. unfold tokens_ok in *. rewrite H1, H2.
    destruct (sg_state g), (sg_state g'); done.
  - intros r p Hst. destruct Hst as [E|[E|E]]; by rewrite E in Hs'.
  - intros r t p Hst. by rewrite Hst in Hs'.
  - rewrite Hd. apply Hg.
Qed.

(** Recording a stage changes only the list of stages. *)
Lemma lifecycle_fields g st at_ :
  let g' := record_lifecycle g st at_ in
  sg_order g' = sg_order g ∧ sg_quote g' = sg_quote g ∧ sg_state g' = sg_state g ∧ (∀ r, prepare_of r g' = prepare_of r g)
  ∧ sg_destination g' = sg_destination g ∧ sg_fill_proof g' = sg_fill_proof g ∧ sg_origin g' = sg_origin g ∧ sg_repayment g' = sg_repayment g.
Proof. unfold record_lifecycle. case_match; cbn; split_and!; done. Qed.

Lemma evidence_fields g g' :
  sg_state g' = sg_state g → sg_destination g' = sg_destination g → sg_fill_proof g' = sg_fill_proof g → sg_origin g' = sg_origin g →
  sg_repayment g' = sg_repayment g → evidence_ok g → evidence_ok g'.
Proof. intros E1 E2 E3 E4 E5 []. split; rewrite ?E1, ?E2, ?E3, ?E4, ?E5; done. Qed.

Lemma saga_inv_lifecycle V g st at_ : saga_inv V g → saga_inv V (record_lifecycle g st at_).
Proof.
  intros Hg. destruct (lifecycle_fields g st at_) as (_ & Hq & Hs & Ht & Hd & Hf & Ho & Hr). pose proof Hg as [H1 H2 H3 H4 H5 H6 H7 H8 H9 H10].
  apply (saga_inv_set V g); [done|done|done|by eapply evidence_fields| | | | |]; rewrite ?Hs, ?Hd, ?Ho; try done.
  pose proof (Ht Origin) as E1. pose proof (Ht Destination) as E2. cbn in E1, E2. unfold tokens_ok in *. by rewrite Hs, E1, E2.
Qed.

(** ** Compensation *)

(** The states in which capital can still be given back. *)
Definition compensable (st : SagaState.t) : Prop :=
  st = SagaState.Preparing ∨ st = SagaState.Prepared ∨ st = SagaState.DestinationPending.

Lemma compensable_unfinished st : compensable st → SagaState.unfinished st = true.
Proof. by intros [->|[->| ->]]. Qed.

Lemma release_leg_outcome g s r :
  at_rest g s → compensable (sg_state g) →
  outcome (release_leg r g) (λ res s', kept g s s' ∧ (∀ r', r' ≠ r → legs s' r' = legs s r') ∧ ∃ e, res = Ok e
    ∧ (e = None → ∀ t, prepare_of r g = Some t → leg_in (legs s') r (aq_id (sg_quote g)) PreparationState.Released)) s.
Proof.
  intros Hg Hc. unfold release_leg. destruct (prepare_of r g) as [t|] eqn:Ht.
  2: { apply outcome_ret. split; [by apply kept_refl|]. split; [done|]. exists None. split; [done|]. by intros _ t. }
  apply outcome_bind. pose proof Hg as [Hs Hg']. eapply outcome_mono; [apply outcome_ask, rs_release_law, Hs|].
  intros res s' (a & x & -> & -> & Hx & Hb & Hm & Hres). apply outcome_ret.
  assert (Hk : kept g s (put_remote r s x)).
  { eapply move_kept; [done|done|done|exact Ht|exact Hm| |]; [|exact Hc].
    intros st [->|[->|[->|?%elem_of_nil]%elem_of_cons]%elem_of_cons]%elem_of_cons; split; try done; by intros [|]. }
  split; [done|]. split; [intros r' Hr'; rewrite legs_put; by apply set_leg_ne|]. eexists. split; [done|].
  destruct a as [p|e]; [|done]. intros _ t' [= <-]. destruct (Hres p eq_refl) as [Hp Hst]. exists p. split; [|done].
  destruct Hk as [[Hs' Hg''] _]. destruct (si_token _ _ (po_saga _ Hs' _ _ Hg'') r t Ht) as (p0 & (Hp0 & Hq & Hro) & Hpt).
  assert (p0 = p) as ->; [|done]. rewrite Hpt, legs_put, set_leg_eq in Hp0. congruence.
Qed.

Lemma compensated_inv V g reason :
  legs_ok V → saga_inv V g → compensable (sg_state g) →
  (∀ r t, prepare_of r g = Some t → leg_in V r (aq_id (sg_quote g)) PreparationState.Released) →
  saga_inv V (set_state (set_failure g reason) SagaState.FailedBeforeDelivery).
Proof.
  intros HV Hg Hc Hrel. destruct (undelivered_evidence g (si_evidence _ _ Hg) Hc) as [Hd Ho]. pose proof (si_evidence _ _ Hg) as [E1 E2 E3 E4 E5 E6 E7].
  assert (Hleg : ∀ r t p, prepare_of r g = Some t → leg_hold V r (aq_id (sg_quote g)) p → pr_state p = PreparationState.Released).
  { intros r t p Ht Hp. destruct (Hrel r t Ht) as (p' & Hp' & <-). by rewrite (leg_hold_unique V r (aq_id (sg_quote g)) p p'). }
  apply (saga_inv_set V g); try done.
  - intros r p _ Hp. destruct (prepare_of r g) as [t|] eqn:Ht; [by rewrite (Hleg r t p)|by rewrite (si_unknown _ _ Hg r p)].
  - intros r t p _. apply Hleg.
Qed.

Lemma compensate_outcome g s reason :
  at_rest g s → compensable (sg_state g) → outcome (compensate g reason) (settles_at s) s.
Proof.
  intros Hg Hc. unfold compensate. apply outcome_bind. eapply outcome_mono; [by apply release_leg_outcome|].
  intros res s1 (Hk1 & _ & e1 & -> & Hrel1). apply outcome_bind. eapply outcome_mono; [apply release_leg_outcome; [apply Hk1|done]|].
  intros res s2 (Hk2 & Hsame & e2 & -> & Hrel2). pose proof (saga_kept_trans _ _ _ _ Hk1 Hk2) as Hk. pose proof Hk as [Hg2 Hf]. pose proof Hg2 as [Hs2 Ho2].
  pose proof (po_saga _ Hs2 _ _ Ho2) as Hinv. pose proof (compensable_unfinished _ Hc) as Hu.
  assert (Hfail : ∀ e : RemoteSolventError, outcome
    (_ ← with_sagas (saga_update (set_failure g (String.append reason (String.append "; compensation pending: " (remote_error_text e))))); fail (RemoteFailed e))
    (settles_at s) s2).
  { intros e. apply outcome_bind. eapply outcome_mono; [apply (store_kept g); [done| |done|done|done]|].
    - apply (saga_inv_set _ g); try apply Hinv; try done. by eapply evidence_fields; [..|apply Hinv].
    - intros [u|e'] s3 (Hs3 & Hf3 & _); [apply outcome_fail|]; (split; [done|]; split; [by etrans|by intros ? [=]]). }
  destruct e1 as [e|]; [apply Hfail|]. destruct e2 as [e|]; [apply Hfail|]. clear Hfail.
  unfold move_saga, transition. cbn [sg_state set_failure].
  assert (Hp : SagaState.permits (sg_state g) SagaState.FailedBeforeDelivery = true) by (by destruct Hc as [->|[->| ->]]). rewrite Hp. cbn [map_err].
  apply outcome_lift_bind. apply outcome_bind. eapply outcome_mono; [apply (store_kept g); [done| |done|done|done]|].
  - apply compensated_inv; [by apply proxy_legs_ok|done|done|]. intros [] t Ht; [|by eapply Hrel2].
    destruct (Hrel1 eq_refl t Ht) as (p & (Hp1 & ? & ?) & ?). exists p. split; [|done]. split; [|done]. by rewrite Hsame.
  - intros [u|e] s3 (Hs3 & Hf3 & Hr3); [apply outcome_ret|]; (split; [done|]; split; [by etrans|]); [|by intros ? [=]].
    intros g' [= <-]. by apply (Hr3 u).
Qed.

(** ** Preparation *)

(** The hold [p] is that of the leg [r] of [g]. *)
Definition obtained g s r (p : Preparation) : Prop :=
  leg_hold (legs s) r (aq_id (sg_quote g)) p ∧ ∀ t, prepare_of r g = Some t → pr_token p = t.

Lemma obtain_outcome g s r :
  at_rest g s → sg_state g = SagaState.Preparing →
  outcome (obtain r g) (λ res s', kept g s s' ∧ ∃ a, res = Ok a ∧ ∀ p, a = Ok p → obtained g s' r p) s.
Proof.
  intros Hg Hst. pose proof Hg as [Hs Hg']. pose proof (po_saga _ Hs _ _ Hg') as Hinv. unfold obtain. destruct (prepare_of r g) as [t|] eqn:Ht.
  - eapply outcome_mono; [apply outcome_ask, rs_inspect_law, Hs|]. intros res s' (a & x & -> & -> & Hx & Hp & Hb & Hres).
    pose proof (inspect_kept g s r x Hg Hx Hp Hb) as Hk. split; [done|]. exists a. split; [done|]. intros p Ha.
    destruct (si_token _ _ Hinv r t Ht) as (p0 & (Hp0 & Hq & Hro) & Hpt). rewrite Hpt in Hp0.
    assert (p0 = p) as -> by (specialize (Hres p Ha); unfold legs in Hp0; congruence).
    split; [|intros t' Ht'; congruence]. split; [|done]. rewrite legs_put, set_leg_eq, Hp, Hpt. done.
  - eapply outcome_mono; [apply outcome_ask, rs_prepare_law, Hs|]. intros res s' (a & x & -> & -> & Hx & Hb & Hp & Hres).
    assert (Hk : kept g s (put_remote r s x)).
    { destruct Hp as [Hp|(p & Hn & Hq & Hro & Hps & Hp)]; [by apply inspect_kept|]. rewrite (si_roles _ _ Hinv) in Hro.
      apply at_rest_put; [done|done|unfold bound; by rewrite Hb| |]; rewrite Hp; [by apply leg_change_insert|].
      apply saga_inv_insert; [by apply proxy_legs_ok|done..|]. pose proof (remote_preparations_ok x Hx) as Hok. rewrite Hp in Hok. exact Hok. }
    split; [done|]. exists a. split; [done|]. intros p Ha. destruct (Hres p Ha) as (Hpx & Hq & Hro). split; [|intros t' Ht'; congruence].
    split; [by rewrite legs_put, set_leg_eq|]. split; [done|]. by rewrite (si_roles _ _ Hinv) in Hro.
Qed.

Lemma keep_token_outcome g s r p :
  at_rest g s → sg_state g = SagaState.Preparing → obtained g s r p →
  outcome (keep_token r g p) (λ res s', proxy_ok s' ∧ proxy_follows s s' ∧ ∀ g', res = Ok g' →
    at_rest g' s' ∧ sg_state g' = SagaState.Preparing ∧ prepare_of r g' = Some (pr_token p)
    ∧ ∀ r', r' ≠ r → prepare_of r' g' = prepare_of r' g) s.
Proof.
  intros Hg Hst [Hp Htok]. unfold keep_token. destruct (prepare_of r g) as [t|] eqn:Ht.
  { apply outcome_ret. split; [apply Hg|]. split; [done|]. intros g' [= <-]. split_and!; [done|done| |done]. by rewrite (Htok t). }
  pose proof Hg as [Hs Hg']. pose proof (po_saga _ Hs _ _ Hg') as Hinv. apply outcome_bind. eapply outcome_mono.
  - apply (store_kept g); [done| |done|done|by rewrite Hst]. pose proof Hinv as [H1 H2 H3 H4 H5 H6 H7 H8 H9 H10].
    assert (Hq : sg_quote (set_prepare r g (pr_token p)) = sg_quote g) by done.
    assert (Hpr : ∀ r', prepare_of r' (set_prepare r g (pr_token p)) = if decide (r' = r) then Some (pr_token p) else prepare_of r' g).
    { intros r'. by destruct r, r'. }
    split; rewrite ?Hq; try done.
    + by eapply evidence_fields; [..|exact H2].
    + unfold tokens_ok. change (sg_state (set_prepare r g (pr_token p))) with (sg_state g). by rewrite Hst.
    + intros r' t'. rewrite Hpr. case_decide as Hr; [subst r'; intros [= <-]; by exists p|apply H4].
    + intros r' p'. rewrite Hpr. case_decide; [done|apply H5].
    + intros r' t' p' E. change (sg_state (set_prepare r g (pr_token p))) with (sg_state g) in E. congruence.
  - intros [u|e] s' (Hs' & Hf & Hr); [apply outcome_ret|]; (split; [done|]; split; [done|]; intros g'' [=]). subst g''.
    split; [by apply (Hr u)|]. split; [exact Hst|]. by destruct r; cbn; (split; [done|]; intros [] ?).
Qed.

Lemma committed_leg_outcome g s r p :
  at_rest g s → sg_state g = SagaState.Preparing → prepare_of r g = Some (pr_token p) →
  outcome (committed_leg r g p) (λ res s', kept g s s') s.
Proof.
  intros Hg Hst Ht. unfold committed_leg. apply outcome_bind.
  assert (Hstay : ∀ x, outcome (mret x : cmd Proxy ProxyError (string + Preparation)) (λ res s', match res with
    | Ok a => outcome (mret (match a with inl reason => Some reason | inr p' =>
        match validate_committed g p' r with Ok _ => None | Err m => Some (String.append "invalid cross-chain request: " m) end end) : cmd Proxy ProxyError _)
        (λ _ s', kept g s s') s'
    | Err _ => kept g s s' end) s) by (intros x; apply outcome_ret, outcome_ret; by apply kept_refl).
  unfold commit_leg. destruct (pr_state p); try apply Hstay. clear Hstay. apply outcome_bind. pose proof Hg as [Hs _].
  eapply outcome_mono; [apply outcome_ask, rs_commit_law, Hs|]. intros res s' (a & x & -> & -> & Hx & Hb & Hm & _).
  assert (Hk : kept g s (put_remote r s x)).
  { eapply move_kept; [done|done|done|exact Ht|exact Hm| |by left].
    intros st [->|[->|?%elem_of_nil]%elem_of_cons]%elem_of_cons; split; try done; by intros [|]. }
  destruct a as [p'|[]]; done.
Qed.

Lemma prepared_inv V g :
  saga_inv V g → sg_state g = SagaState.Preparing → is_Some (sg_origin_prepare g) → is_Some (sg_destination_prepare g) →
  saga_inv V (set_state g SagaState.Prepared).
Proof.
  intros Hg Hst Ho Hd. pose proof (si_evidence _ _ Hg) as [E1 E2 E3 E4 E5 E6 E7]. rewrite Hst in E1.
  apply (saga_inv_set V g); try done; try apply Hg.
  - intros r p [[=]|[[=]|[=]]].
Qed.

Lemma continue_preparation_outcome g s :
  at_rest g s → sg_state g = SagaState.Preparing → outcome (continue_preparation g) (settles_at s) s.
Proof.
  intros Hg Hst. unfold continue_preparation. apply outcome_bind. eapply outcome_mono; [by apply obtain_outcome|].
  intros res s1 (Hk1 & a & -> & Hob1). assert (Hcomp : ∀ g' s0 s' reason, at_rest g' s' → sg_state g' = SagaState.Preparing → proxy_follows s0 s' →
    outcome (compensate g' reason) (settles_at s0) s').
  { intros g' s0 s' reason Hg' Hst' Hf. eapply settles_from; [done|]. apply compensate_outcome; [done|by left]. }
  destruct a as [p|[m|m|m]]; [|apply outcome_fail; by eapply settles_err|apply Hcomp; [apply Hk1|done|apply Hk1]|apply outcome_fail; by eapply settles_err].
  apply outcome_bind. eapply outcome_mono; [apply keep_token_outcome; [apply Hk1|done|by apply Hob1]|].
  intros res s2 (Hs2 & Hf2 & Hres2). assert (Hf02 : proxy_follows s s2) by (etrans; [apply Hk1|done]).
  destruct res as [g2|e]; [|split; [done|]; split; [done|by intros ? [=]]]. destruct (Hres2 g2 eq_refl) as (Hg2 & Hst2 & Ht2 & _).
  apply outcome_bind. eapply outcome_mono; [by apply obtain_outcome|]. intros res s3 (Hk3 & a & -> & Hob3).
  assert (Hf03 : proxy_follows s s3) by (etrans; [done|apply Hk3]).
  destruct a as [pd|[m|m|m]];
    [|apply outcome_fail; apply (settles_err g2); split; [apply Hk3|done]|apply Hcomp; [apply Hk3|done|done]|apply outcome_fail; apply (settles_err g2); split; [apply Hk3|done]].
  apply outcome_bind. eapply outcome_mono; [apply keep_token_outcome; [apply Hk3|done|by apply Hob3]|].
  intros res s4 (Hs4 & Hf4 & Hres4). assert (Hf04 : proxy_follows s s4) by (by etrans).
  destruct res as [g4|e]; [|split; [done|]; split; [done|by intros ? [=]]]. destruct (Hres4 g4 eq_refl) as (Hg4 & Hst4 & Ht4 & Hsame4).
  specialize (Hsame4 Origin ltac:(done)). rewrite Ht2 in Hsame4.
  apply outcome_bind. eapply outcome_mono; [by apply committed_leg_outcome|]. intros res s5 Hk5.
  assert (Hf05 : proxy_follows s s5) by (etrans; [done|apply Hk5]).
  destruct res as [[reason|]|e]; [apply Hcomp; [apply Hk5|done|done]| |by apply (settles_err g4); split; [apply Hk5|]].
  apply outcome_bind. eapply outcome_mono; [apply committed_leg_outcome; [apply Hk5|done|done]|]. intros res s6 Hk6.
  assert (Hf06 : proxy_follows s s6) by (etrans; [done|apply Hk6]).
  destruct res as [[reason|]|e]; [apply Hcomp; [apply Hk6|done|done]| |by apply (settles_err g4); split; [apply Hk6|]].
  unfold move_saga, transition. rewrite Hst4. cbn [SagaState.permits map_err]. apply outcome_lift_bind. apply outcome_bind.
  pose proof Hk6 as [[Hs6 Ho6] _]. eapply outcome_mono; [apply (store_kept g4); [apply Hk6| |done|done|by rewrite Hst4]|].
  - apply prepared_inv; [by eapply po_saga|done| |]; [by rewrite (Hsame4 : sg_origin_prepare g4 = _)|by rewrite (Ht4 : sg_destination_prepare g4 = _)].
  - intros [u|e] s7 (Hs7 & Hf7 & Hr7); [apply outcome_ret|]; (split; [done|]; split; [by etrans|]); [|by intros ? [=]].
    intros g' [= <-]. by apply (Hr7 u).
Qed.

End requests.
