(* ===== verification/CrossProxyProperties.v ===== *)
(** * Delivery and what follows it

    The commands of a saga past its preparation, the start of an order, and the coordinator's
    loop. *)

From stdpp Require Import strings.
From stdpp Require Import strings relations.
From S2P Require Import Prelude Commands U256 Reservation CrossChain CrossStores CrossProxy CrossProxyInvariant CrossProxySteps.

#[local] Open Scope Z_scope.

Section advance.
Context {R St : Type} `{HR : RemoteSolvent R} `{HRL : !RemoteLaws R} `{HS : SagaStore St} `{HSL : !SagaStoreLaws St}.
Context (keccak256 : list Z → B256) (cctp : option CctpCompletion).
Abbreviation Proxy := (CrossChainProxy R St).
Implicit Types (s : Proxy) (g : CrossChainSaga) (r : LegRole) (o : CrossChainOrderId).

Lemma stored_inv g s : at_rest g s → saga_inv (legs s) g.
Proof. intros [Hs Hg]. by eapply po_saga. Qed.

(** ** One command *)

Lemma issue_outcome g s c :
  at_rest g s → (spends c = true → may_move (legs s) g (command_role c) PreparationState.Executed) →
  outcome (issue keccak256 g c) (λ res s', kept g s s'
    ∧ ∀ e, res = Ok (ProgressFinalized e) → leg_in (legs s') (command_role c) (aq_id (sg_quote g)) PreparationState.Executed) s.
Proof.
  intros Hg Hmay. unfold issue. set (r := command_role c) in *. unfold required_token. apply outcome_lift_bind.
  destruct (prepare_of r g) as [t|] eqn:Ht; cbn [ok_or]; [|split; [by apply kept_refl|done]].
  pose proof Hg as [Hs _]. eapply outcome_mono; [apply outcome_call, rs_command_law, Hs|].
  intros res s' (a & x & -> & (Hx & Hb & Hp & Hfin) & ->).
  assert (Hk : kept g s (put_remote r s x)).
  { destruct Hp as [Hp|(Hsp & _ & _ & p & Hp & Hps & _ & _ & Hp')]; [by apply inspect_kept|].
    eapply (move_kept g s r t [PreparationState.Committed] PreparationState.Executed); [done|done|done|done| | |by apply Hmay].
    - right. exists p. split; [done|]. split; [rewrite Hps; left|done].
    - intros st ->%list_elem_of_singleton. split; [done|]. by intros [|]. }
  split; [done|]. intros e Ha. assert (a = Ok (ProgressFinalized e)) as -> by (destruct a; [by injection Ha as ->|done]).
  destruct (Hfin e eq_refl) as (p & Hpx & Hps). exists p. split; [|done].
  destruct (si_token _ _ (stored_inv _ _ (proj1 Hk)) r t Ht) as (p0 & (Hp0 & Hq & Hro) & Hpt).
  assert (p0 = p) as ->; [|done]. rewrite Hpt, legs_put, set_leg_eq in Hp0. congruence.
Qed.

Lemma store_saga_outcome g g' s0 s :
  kept g s0 s → saga_inv (legs s) g' → sg_order g' = sg_order g → sg_quote g' = sg_quote g → SagaState.unfinished (sg_state g) = true →
  outcome (store_saga g') (settles_at s0) s.
Proof.
  intros [Hg Hf] Hinv Ho Hq Hu. unfold store_saga. apply outcome_bind. eapply outcome_mono; [by apply (store_kept g)|].
  intros [u|e] s' (Hs' & Hf' & Hr); [apply outcome_ret|]; (split; [done|]; split; [by etrans|]; intros g'' [=]). subst g''. by apply (Hr u).
Qed.

(** ** Delivery *)

Lemma delivered_inv V g e now :
  saga_inv V g → sg_state g = SagaState.Prepared ∨ sg_state g = SagaState.DestinationPending →
  leg_in V Destination (aq_id (sg_quote g)) PreparationState.Executed →
  saga_inv V (record_lifecycle (set_state (record_destination g e) SagaState.DestinationFinalized) Stage.DestinationFill now).
Proof.
  intros Hg Hst Hex. apply saga_inv_lifecycle. pose proof (si_evidence _ _ Hg) as [E1 E2 E3 E4 E5 E6 E7].
  assert (Htok : is_Some (sg_origin_prepare g) ∧ is_Some (sg_destination_prepare g)).
  { pose proof (si_tokens _ _ Hg) as H. unfold tokens_ok in H. by destruct Hst as [E|E]; rewrite E in H. }
  destruct (undelivered_evidence g (si_evidence _ _ Hg)) as [Hd Ho]; [destruct Hst; auto|].
  apply (saga_inv_set V g); try done.
  - intros r p [[=]|[[=]|[=]]].
Qed.

Lemma redeliver_inv V g :
  saga_inv V g → sg_state g = SagaState.Prepared ∨ sg_state g = SagaState.DestinationPending →
  saga_inv V (set_state g SagaState.DestinationPending).
Proof.
  intros Hg Hst. pose proof (si_evidence _ _ Hg) as [E1 E2 E3 E4 E5 E6 E7].
  destruct (undelivered_evidence g (si_evidence _ _ Hg)) as [Hd Ho]; [destruct Hst; auto|].
  apply (saga_inv_set V g); try done.
  - pose proof (si_tokens _ _ Hg) as H. unfold tokens_ok in *. by destruct Hst as [E|E]; rewrite E in H.
  - intros r p [[=]|[[=]|[=]]].
Qed.

Lemma try_join_inspect g s t t' :
  at_rest g s → outcome (try_join (call Origin (rs_inspect t)) (call Destination (rs_inspect t'))) (λ _ s', kept g s s') s.
Proof.
  intros Hg. unfold try_join. apply outcome_attempt. pose proof Hg as [Hs _].
  eapply outcome_mono; [apply outcome_call, rs_inspect_law, Hs|]. intros res s1 (a & x & -> & (Hx & Hp & Hb & _) & ->).
  pose proof (inspect_kept g s Origin x Hg Hx Hp Hb) as Hk1. apply outcome_attempt. pose proof Hk1 as [Hg1 _]. pose proof Hg1 as [Hs1 _].
  eapply outcome_mono; [apply outcome_call, rs_inspect_law, Hs1|]. intros res s2 (a' & x' & -> & (Hx' & Hp' & Hb' & _) & ->).
  apply outcome_lift. eapply saga_kept_trans; [exact Hk1|]. by apply inspect_kept.
Qed.

Lemma deliver_outcome g s now :
  at_rest g s → sg_state g = SagaState.Prepared ∨ sg_state g = SagaState.DestinationPending → outcome (deliver keccak256 g now) (settles_at s) s.
Proof.
  intros Hg Hst. unfold deliver, required_token. assert (Hself : ∀ e, settles_at s (Err e) s) by (intros e; by apply (settles_err g), kept_refl).
  apply outcome_lift_bind. destruct (sg_origin_prepare g) as [t|]; cbn [ok_or]; [|done].
  apply outcome_lift_bind. destruct (sg_destination_prepare g) as [t'|] eqn:Ht'; cbn [ok_or]; [|done].
  apply outcome_bind. eapply outcome_mono; [by apply try_join_inspect|]. intros res s1 Hk1.
  destruct res as [[p p']|e]; [|by apply (settles_err g)]. unfold check. cbn [fst snd].
  apply outcome_lift_bind. destruct (validate_committed g p Origin); cbn [map_err]; [|by apply (settles_err g)].
  apply outcome_lift_bind. destruct (validate_committed g p' Destination); cbn [map_err]; [|by apply (settles_err g)].
  apply outcome_bind. eapply outcome_mono; [apply issue_outcome; [apply Hk1|by intros _]|]. intros res s2 [Hk2 Hfin].
  pose proof (saga_kept_trans _ _ _ _ Hk1 Hk2) as Hk. destruct res as [progress|e]; [|by apply (settles_err g)].
  assert (Hu : SagaState.unfinished (sg_state g) = true) by (by destruct Hst as [->| ->]).
  destruct progress as [|e|reason].
  - apply (store_saga_outcome g); [done| |done|done|done]. apply redeliver_inv; [by apply stored_inv, Hk|done].
  - destruct (lifecycle_fields (set_state (record_destination g e) SagaState.DestinationFinalized) Stage.DestinationFill now) as (Ho & Hq & _).
    apply (store_saga_outcome g); [done| |exact Ho|exact Hq|done].
    apply delivered_inv; [by apply stored_inv, Hk|done|by apply (Hfin e)].
  - eapply settles_from; [apply Hk|]. apply compensate_outcome; [apply Hk|]. destruct Hst; unfold compensable; auto.
Qed.

(** ** After delivery *)

(** The next state and evidence of a delivered saga. *)
Lemma post_delivery_inv V g progress pending finalized stage now record :
  saga_inv V g → delivered_state (sg_state g) = true → evidence_ok (set_state g pending) → delivered_state pending = true →
  (∀ e, progress = ProgressFinalized e → let g' := set_state (record g e) finalized in
    sg_quote g' = sg_quote g ∧ (∀ r, prepare_of r g' = prepare_of r g) ∧ sg_destination g' = sg_destination g ∧ delivered_state finalized = true
    ∧ evidence_ok g' ∧ (is_Some (sg_origin g') → leg_in V Origin (aq_id (sg_quote g)) PreparationState.Executed)) →
  saga_inv V (apply_post_delivery g progress pending finalized stage now record).
Proof.
  intros Hg Hd Hp Hpd Hfin. pose proof (si_evidence _ _ Hg) as [E1 E2 E3 E4 E5 E6 E7]. destruct progress as [|e|reason]; cbn.
  - apply (saga_inv_progress V g); try done. apply Hg.
  - destruct (Hfin e eq_refl) as (Hq & Ht & Hde & Hfd & He & Ho). apply saga_inv_lifecycle, (saga_inv_progress V g); done.
  - apply (saga_inv_progress V g); try done; [|apply Hg]. split; cbn; try done. split; [done|]. intros _. by apply E1.
Qed.

Lemma apply_fields g progress pending finalized stage now record :
  (∀ e, sg_order (record g e) = sg_order g ∧ sg_quote (record g e) = sg_quote g) →
  let g' := apply_post_delivery g progress pending finalized stage now record in sg_order g' = sg_order g ∧ sg_quote g' = sg_quote g.
Proof.
  intros Hr g'. subst g'. destruct progress as [|e|reason]; cbn; try done.
  destruct (lifecycle_fields (set_state (record g e) finalized) stage now) as (-> & -> & _). apply Hr.
Qed.

(** One post-delivery command and what is stored of it. *)
Lemma post_delivery_outcome g s c pending finalized stage now record :
  at_rest g s → delivered_state (sg_state g) = true → SagaState.unfinished (sg_state g) = true → (c = ClaimOrigin ∨ spends c = false) →
  evidence_ok (set_state g pending) → delivered_state pending = true →
  (∀ e, sg_order (record g e) = sg_order g ∧ sg_quote (record g e) = sg_quote g) →
  (∀ e, let g' := set_state (record g e) finalized in
    (∀ r, prepare_of r g' = prepare_of r g) ∧ sg_destination g' = sg_destination g ∧ delivered_state finalized = true ∧ evidence_ok g'
    ∧ (is_Some (sg_origin g') → is_Some (sg_origin g) ∨ c = ClaimOrigin)) →
  outcome (progress ← issue keccak256 g c; store_saga (apply_post_delivery g progress pending finalized stage now record)) (settles_at s) s.
Proof.
  intros Hg Hd Hu Hc Hp Hpd Hrec Hfin. apply outcome_bind. pose proof (stored_inv _ _ Hg) as Hinv. eapply outcome_mono; [apply issue_outcome; [done|]|].
  { intros Hsp. destruct Hc as [->|Hc]; [|congruence]. cbn. split_and!; [intros E..|]; [by rewrite E in Hd|by rewrite E in Hd|].
    by apply (ev_delivered _ (si_evidence _ _ Hinv)). }
  intros res s1 [Hk Hex]. destruct res as [progress|e]; [|by apply (settles_err g)].
  destruct (apply_fields g progress pending finalized stage now record Hrec) as [Ho Hq].
  apply (store_saga_outcome g); [done| |exact Ho|exact Hq|done]. pose proof (stored_inv _ _ (proj1 Hk)) as Hinv1.
  apply post_delivery_inv; [done..|]. intros e ->. destruct (Hfin e) as (Ht & Hde & Hfd & He & Hor). split_and!; [apply Hrec|done..|].
  intros [Hso| ->]%Hor; [by apply Hinv1|]. by apply (Hex e).
Qed.

(** The evidence of the four commands. *)
Ltac post_command :=
  apply post_delivery_outcome; [done|by (match goal with E : sg_state _ = _ |- _ => rewrite E end)|by (match goal with E : sg_state _ = _ |- _ => rewrite E end)| |..];
  [naive_solver|split; cbn; naive_solver|done|done|intros e; cbn; split_and!; [done|done|done|split; cbn; naive_solver|naive_solver]].

Lemma fill_proof_outcome g s now :
  at_rest g s → sg_state g = SagaState.DestinationFinalized ∨ sg_state g = SagaState.FillProofPending →
  outcome (progress ← issue keccak256 g DispatchFillProof;
           store_saga (apply_post_delivery g progress SagaState.FillProofPending SagaState.OriginPending Stage.ProofRelay now record_fill_proof))
    (settles_at s) s.
Proof.
  intros Hg Hst. pose proof (si_evidence _ _ (stored_inv _ _ Hg)) as [E1 E2 E3 E4 E5 E6 E7].
  assert (Hd : is_Some (sg_destination g)) by (apply E1; by destruct Hst as [->| ->]). destruct Hst as [E|E]; post_command.
Qed.

Lemma claim_outcome g s now :
  at_rest g s → sg_state g = SagaState.OriginPending →
  outcome (progress ← issue keccak256 g ClaimOrigin;
           store_saga (apply_post_delivery g progress SagaState.OriginPending SagaState.OriginFinalized Stage.OriginClaim now record_origin))
    (settles_at s) s.
Proof.
  intros Hg E. pose proof (si_evidence _ _ (stored_inv _ _ Hg)) as [E1 E2 E3 E4 E5 E6 E7].
  assert (Hd : is_Some (sg_destination g)) by (apply E1; by rewrite E). assert (Hf : is_Some (sg_fill_proof g)) by (apply E2; by rewrite E).
  post_command.
Qed.

Lemma repayment_outcome g s now :
  at_rest g s → sg_state g = SagaState.OriginFinalized →
  outcome (progress ← issue keccak256 g DispatchRepayment;
           store_saga (apply_post_delivery g progress SagaState.OriginFinalized SagaState.RepaymentPending Stage.Repayment now record_repayment))
    (settles_at s) s.
Proof.
  intros Hg E. pose proof (si_evidence _ _ (stored_inv _ _ Hg)) as [E1 E2 E3 E4 E5 E6 E7].
  assert (Hd : is_Some (sg_destination g)) by (apply E1; by rewrite E). assert (Hf : is_Some (sg_fill_proof g)) by (apply E2; by rewrite E).
  assert (Ho : is_Some (sg_origin g)) by (apply E3; by rewrite E). post_command.
Qed.

Lemma saga_close_outcome g s now :
  at_rest g s → sg_state g = SagaState.RepaymentPending →
  outcome (progress ← issue keccak256 g CloseDestination;
           store_saga (apply_post_delivery g progress SagaState.RepaymentPending SagaState.Complete Stage.Complete now (λ g _, g)))
    (settles_at s) s.
Proof.
  intros Hg E. pose proof (si_evidence _ _ (stored_inv _ _ Hg)) as [E1 E2 E3 E4 E5 E6 E7].
  assert (Hd : is_Some (sg_destination g)) by (apply E1; by rewrite E). assert (Hf : is_Some (sg_fill_proof g)) by (apply E2; by rewrite E).
  assert (Ho : is_Some (sg_origin g)) by (apply E3; by rewrite E). assert (Hr : is_Some (sg_repayment g)) by (apply E4; by rewrite E). post_command.
Qed.

Lemma complete_cctp_outcome g s now :
  at_rest g s → sg_state g = SagaState.OriginFinalized → outcome (complete_cctp keccak256 cctp g now) (settles_at s) s.
Proof.
  intros Hg E. pose proof (stored_inv _ _ Hg) as Hinv. pose proof (si_evidence _ _ Hinv) as [E1 E2 E3 E4 E5 E6 E7].
  assert (Hd : is_Some (sg_destination g)) by (apply E1; by rewrite E). assert (Hf : is_Some (sg_fill_proof g)) by (apply E2; by rewrite E).
  assert (Ho : is_Some (sg_origin g)) by (apply E3; by rewrite E). pose proof (kept_refl _ _ Hg) as Hk0.
  assert (Hself : ∀ e, settles_at s (Err e) s) by (intros e; by apply (settles_err g)).
  assert (Hu : SagaState.unfinished (sg_state g) = true) by (by rewrite E). assert (Hds : delivered_state (sg_state g) = true) by (by rewrite E).
  unfold complete_cctp, required_token. apply outcome_lift_bind. destruct (sg_origin g ≫= se_tx) as [tx|]; cbn [ok_or]; [|done].
  apply outcome_lift_bind. destruct cctp as [cc|]; cbn [ok_or]; [|done].
  destruct (close_step cc (sg_order g) tx) as [prepared|[| |m|m]].
  - apply outcome_lift_bind. destruct (sg_destination_prepare g) as [t|]; cbn [ok_or]; [|done].
    apply outcome_bind. pose proof Hg as [Hs _]. eapply outcome_mono; [apply outcome_call, rs_stage_cctp_law, Hs|].
    intros res s1 (a & x & -> & (Hx & Hp & Hb) & ->).
    assert (Hk : kept g s (put_remote Destination s x)) by (by apply at_rest_put_same).
    destruct a as [u|e]; cbn [map_err]; [|by apply (settles_err g)]. cbn zeta.
    set (ev := mk_evidence _ _ _ _). set (g1 := set_state (record_repayment g ev) SagaState.RepaymentPending).
    destruct (lifecycle_fields g1 Stage.Repayment now) as (H1 & H2 & _).
    apply (store_saga_outcome g); [done| |exact H1|exact H2|done]. apply saga_inv_lifecycle, (saga_inv_progress _ g); try done.
    + by apply stored_inv, Hk.
    + intros _. by apply (stored_inv _ _ (proj1 Hk)).
  - apply outcome_ret. by apply settles_ret.
  - apply outcome_ret. by apply settles_ret.
  - apply outcome_fail. done.
  - apply (store_saga_outcome g); [done| |done|done|done]. apply (saga_inv_progress _ g); try done. apply Hinv.
Qed.

Lemma advance_from_outcome g s now : at_rest g s → outcome (advance_from keccak256 cctp g now) (settles_at s) s.
Proof.
  intros Hg. unfold advance_from. pose proof (kept_refl _ _ Hg) as Hk. destruct (sg_state g) eqn:E;
    try (apply outcome_ret; by apply settles_ret); try (apply deliver_outcome; by auto); try (apply fill_proof_outcome; by auto).
  - by apply continue_preparation_outcome.
  - by apply claim_outcome.
  - destruct (lq_route _); [by apply repayment_outcome|by apply complete_cctp_outcome].
  - by apply saga_close_outcome.
Qed.

(** A saga resumes behind its last evidence. *)
Lemma resume_inv V g st :
  saga_inv V g → sg_state g = SagaState.NeedsReconcile → resume_state g = Some st → saga_inv V (set_state g st).
Proof.
  intros Hg E Hr. pose proof (si_evidence _ _ Hg) as [E1 E2 E3 E4 E5 E6 E7].
  assert (Hd : is_Some (sg_destination g)) by (apply E1; by rewrite E). unfold resume_state in Hr.
  assert (Hgo : evidence_ok (set_state g st) → delivered_state st = true → saga_inv V (set_state g st)).
  { intros He Hst. apply (saga_inv_progress V g); try done; [by rewrite E|apply Hg]. }
  case_bool_decide as B1; [injection Hr as <-; apply Hgo; [split; cbn; naive_solver|done]|].
  case_bool_decide as B2; [injection Hr as <-; apply Hgo; [split; cbn; naive_solver|done]|].
  case_bool_decide as B3; [injection Hr as <-; apply Hgo; [split; cbn; naive_solver|done]|].
  case_bool_decide as B4; [injection Hr as <-; apply Hgo; [split; cbn; naive_solver|done]|done].
Qed.

Lemma load_outcome s o :
  proxy_ok s → outcome (load_saga o) (λ res s', proxy_ok s' ∧ proxy_follows s s' ∧ ∀ g, res = Ok g → at_rest g s' ∧ sg_order g = o) s.
Proof.
  intros Hs. unfold load_saga. apply outcome_bind, outcome_zoom. eapply outcome_mono; [apply saga_load_law, Hs|].
  intros res x (Hx & Hv & Hres). destruct (proxy_ok_sagas s x Hs Hx Hv) as [Hs' Hf].
  destruct res as [found|e]; cbn [map_err]; [|split; [done|]; split; [done|by intros ? [=]]].
  apply outcome_lift. split; [done|]. split; [done|]. intros g Hg. specialize (Hres found eq_refl).
  destruct found as [g'|]; cbn in Hg; [injection Hg as ->|done]. symmetry in Hres. pose proof (order_of_saga _ _ _ Hs Hres) as <-.
  split; [|done]. split; [done|]. unfold orders. cbn. by rewrite Hv.
Qed.

Lemma saga_advance_outcome o now s : proxy_ok s → outcome (advance keccak256 cctp o now) (settles_at s) s.
Proof.
  intros Hs. unfold advance. apply outcome_bind. eapply outcome_mono; [by apply load_outcome|]. intros res s1 (Hs1 & Hf1 & Hres).
  destruct res as [g|e]; [|split; [done|]; split; [done|by intros ? [=]]]. destruct (Hres g eq_refl) as [Hg _].
  assert (Hgo : outcome (advance_from keccak256 cctp g now) (settles_at s) s1) by (eapply settles_from; [done|by apply advance_from_outcome]).
  destruct (sg_state g) eqn:E; try exact Hgo. clear Hgo. destruct (resume_state g) as [st|] eqn:Hr.
  2: { apply outcome_ret. apply settles_ret. by split. }
  apply outcome_bind. eapply outcome_mono; [apply (store_kept g); [done|by apply resume_inv; [apply stored_inv|..]|done|done|by rewrite E]|].
  intros [u|e] s2 (Hs2 & Hf2 & Hr2); [|split; [done|]; split; [by etrans|by intros ? [=]]].
  eapply settles_from; [by etrans|]. apply advance_from_outcome. by apply (Hr2 u).
Qed.

Lemma advance_all_outcome l s : proxy_ok s → outcome (advance_all keccak256 cctp l) (λ _ s', proxy_ok s' ∧ proxy_follows s s') s.
Proof.
  revert s. induction l as [|[o now] l IH]; intros s Hs; cbn [advance_all]; [by apply outcome_ret|].
  apply outcome_attempt. eapply outcome_mono; [by apply saga_advance_outcome|]. intros res s1 (Hs1 & Hf1 & _).
  eapply outcome_mono; [by apply IH|]. intros res2 s2 [Hs2 Hf2]. split; [done|by etrans].
Qed.

Lemma poll_outcome clock s : proxy_ok s → outcome (poll keccak256 cctp clock) (λ _ s', proxy_ok s' ∧ proxy_follows s s') s.
Proof.
  intros Hs. unfold poll, recoverable. apply outcome_attempt, outcome_zoom. eapply outcome_mono; [apply saga_recoverable_law, Hs|].
  intros res x (Hx & Hv & _). destruct (proxy_ok_sagas s x Hs Hx Hv) as [Hs' Hf].
  destruct res as [found|e]; cbn [map_err]; [|by apply outcome_ret].
  eapply outcome_mono; [by apply advance_all_outcome|]. intros res2 s2 [? ?]. split; [done|by etrans].
Qed.

(** ** Starting *)

Lemma proxy_put_same s r x :
  proxy_ok s → remote_ok x → bound s r ⊆ bound_orders x → preparations x = legs s r →
  let s' := put_remote r s x in
  proxy_ok s' ∧ proxy_follows s s' ∧ orders s' = orders s ∧ (∀ r', legs s' r' = legs s r') ∧ ∀ r', bound s r' ⊆ bound s' r'.
Proof.
  intros Hs Hx Hb Hp s'.
  assert (Hl : ∀ r', legs s' r' = legs s r') by (intros r'; unfold s'; rewrite legs_put; unfold set_leg; by case_decide as E; [rewrite E|]).
  assert (Hbb : ∀ r', bound s r' ⊆ bound s' r') by (intros r'; unfold s', bound; rewrite remote_put; by case_decide as E; [rewrite E|]).
  assert (Ho : orders s' = orders s) by apply orders_put.
  split; [split|split; [split|]]; [| | | | | | |done].
  - intros r'. unfold s'. rewrite remote_put. case_decide; [done|apply Hs].
  - unfold s'. destruct r; apply Hs.
  - intros o g. rewrite Ho. intros Hg. eapply saga_inv_ext; [intros r'; symmetry; apply Hl|by eapply po_saga].
  - intros o g r'. rewrite Ho. intros Hg. eapply lookup_weaken; [by apply Hs|apply Hbb].
  - intros r' t p. rewrite Hl, Ho. apply Hs.
  - intros r'. by rewrite Hl.
  - intros o g Hg. rewrite Ho. by exists g.
Qed.

(** A saga is recorded for an order bound to its quote, before anything is held for it. *)
Lemma fresh_inv V g :
  (∀ r, lq_role (leg_of (sg_quote g) r) = r) → (∀ r p, ¬ leg_hold V r (aq_id (sg_quote g)) p) → sg_state g = SagaState.Quoted →
  sg_origin_prepare g = None → sg_destination_prepare g = None → sg_destination g = None → sg_fill_proof g = None → sg_origin g = None →
  sg_repayment g = None → saga_inv V g.
Proof.
  intros Hr Hno Hst H1 H2 H3 H4 H5 H6.
  assert (Hnone : ∀ r, prepare_of r g = None) by (by intros []).
  assert (He : evidence_ok g) by (split; rewrite ?Hst, ?H3, ?H4, ?H5, ?H6; cbn; solve [done|by intros [? [=]]|split; [by intros [? [=]]|done]]).
  split; try done; rewrite ?H3, ?H5; try (by intros [? [=]]).
  - unfold tokens_ok. by rewrite Hst.
  - intros r t. by rewrite Hnone.
  - intros r p _ Hp. by apply Hno in Hp.
  - intros r p _ Hp. by apply Hno in Hp.
  - intros r t p _ Ht. by rewrite Hnone in Ht.
  - intros (p & Hp & _). by apply Hno in Hp.
Qed.

Lemma new_saga_fields o taker q now :
  new_saga o taker q now = mk_saga o taker q SagaState.Quoted [mk_event Stage.Quoted now] None None None None None None None.
Proof. done. Qed.

Lemma insert_outcome s o taker q now :
  proxy_ok s → orders s !! o = None → (∀ r, bound s r !! o = Some (aq_id q)) → (∀ r, lq_role (leg_of q r) = r) →
  outcome (with_sagas (saga_insert (new_saga o taker q now))) (λ res s', proxy_ok s' ∧ proxy_follows s s' ∧ ∀ g, res = Ok g →
    g = new_saga o taker q now ∧ at_rest g s') s.
Proof.
  intros Hs Hn Hb Hro. apply outcome_zoom. eapply outcome_mono; [apply saga_insert_law, Hs|].
  rewrite new_saga_fields. set (g := mk_saga _ _ _ _ _ _ _ _ _ _ _ _). intros res x (Hx & Hv & Hres).
  destruct Hv as [Hv|[_ Hv]].
  { destruct (proxy_ok_sagas s x Hs Hx Hv) as [Hs' Hf]. split; [done|]. split; [done|]. intros g' Hg'. exfalso.
    destruct res as [g''|e]; [|done]. destruct (Hres g'' eq_refl) as [_ Hg]. rewrite Hv in Hg. unfold orders in Hn. cbn in Hg. congruence. }
  assert (Hl : ∀ r, legs (put_sagas s x) r = legs s r) by (by intros []).
  assert (Hbb : ∀ r, bound (put_sagas s x) r = bound s r) by (by intros []).
  assert (Ho : orders (put_sagas s x) = <[o := g]> (orders s)) by exact Hv.
  assert (Hno : ∀ r p, ¬ leg_hold (legs s) r (aq_id q) p).
  { intros r p (Hp & Hq & _). destruct (po_owned _ Hs r _ p Hp) as (o' & g' & Hg' & Hq'). assert (o' = o) as ->; [|congruence].
    eapply (remote_bound_inj (remote_of r s)); [apply Hs|by apply (po_bound _ Hs o' g' r)|]. rewrite Hq', Hq. apply Hb. }
  assert (Hs' : proxy_ok (put_sagas s x)).
  { split; [intros []; [apply (po_remote _ Hs Origin)|apply (po_remote _ Hs Destination)]|done| | |].
    - intros o1 g1. rewrite Ho. intros [[<- <-]|[_ H1]]%lookup_insert_Some; (eapply saga_inv_ext; [intros r; symmetry; apply Hl|]).
      + by apply fresh_inv.
      + by eapply po_saga.
    - intros o1 g1 r. rewrite Ho, Hbb. intros [[<- <-]|[_ H1]]%lookup_insert_Some; [apply Hb|by apply Hs].
    - intros r t p. rewrite Hl, Ho. intros Hp. destruct (po_owned _ Hs r t p Hp) as (o1 & g1 & H1 & ?). exists o1, g1.
      rewrite lookup_insert_ne; [done|congruence]. }
  split; [done|]. split; [split; [intros r; by rewrite Hl|]|].
  - intros o1 g1 H1. exists g1. rewrite Ho, lookup_insert_ne; [done|congruence].
  - intros g' Hg'. destruct res as [g''|e]; [|done]. injection Hg' as ->. destruct (Hres g' eq_refl) as [-> _]. split; [done|].
    split; [done|]. by rewrite Ho, lookup_insert_eq.
Qed.

Lemma stage_outcome s r c plan :
  proxy_ok s →
  outcome (call r (rs_stage c plan)) (λ res s', proxy_ok s' ∧ proxy_follows s s' ∧ orders s' = orders s ∧ (∀ r', bound s r' ⊆ bound s' r')
    ∧ ∀ u, res = Ok u → bound s' r !! vc_order c = Some (cp_aggregate plan)) s.
Proof.
  intros Hs. eapply outcome_mono; [apply outcome_call, rs_stage_law, Hs|]. intros res s' (a & x & -> & (Hx & Hp & Hb & Hres) & ->).
  destruct (proxy_put_same s r x Hs Hx Hb Hp) as (? & ? & ? & _ & ?). split_and!; [done..|].
  intros u Ha. assert (a = Ok tt) as -> by (by destruct a as [[]|]). unfold bound. rewrite remote_put, decide_True by done. by apply Hres.
Qed.

Lemma binding_roles q now : validate_aggregate_binding keccak256 q now = Ok tt → ∀ r, lq_role (leg_of q r) = r.
Proof.
  unfold validate_aggregate_binding. destruct (negb _) eqn:E; [done|]. intros _. apply negb_false_iff in E.
  repeat (apply andb_prop in E as [E ?]). unfold legs_bound in *.
  repeat match goal with H : _ && _ = true |- _ => apply andb_prop in H as [? ?] end.
  repeat match goal with H : bool_decide _ = true |- _ => apply bool_decide_eq_true in H end. by intros [].
Qed.

Lemma validate_plan_quote q plan r u : validate_plan q plan r = Ok u → cp_aggregate plan = aq_id q.
Proof. unfold validate_plan. destruct (Z.eqb_spec (cp_aggregate plan) (aq_id q)); [done|]. done. Qed.

Lemma check_terms_outcome q s : outcome (check_terms cctp q) (λ _ s', s' = s) s.
Proof.
  unfold check_terms. destruct (lq_route _); [by case_match|]. apply outcome_lift_bind.
  destruct cctp as [cc|]; [|done]. cbn [ok_or]. apply outcome_lift_bind.
  destruct (quote_terms cc (lq_amount_in (aq_destination q))); [|done]. cbn [map_err]. by case_match.
Qed.

Lemma start_outcome o taker q po pd now s :
  proxy_ok s → outcome (start_with_taker keccak256 cctp o taker q po pd now) (settles_at s) s.
Proof.
  intros Hs. unfold start_with_taker. apply outcome_bind, outcome_zoom. eapply outcome_mono; [apply saga_load_law, Hs|].
  intros res x (Hx & Hv & Hres). destruct (proxy_ok_sagas s x Hs Hx Hv) as [Hs1 Hf1]. set (s1 := put_sagas s x) in *.
  assert (Herr : ∀ e s', proxy_ok s' → proxy_follows s s' → settles_at s (Err e) s') by (intros e s' ??; split; [done|]; split; [done|by intros ? [=]]).
  destruct res as [existing|e]; cbn [map_err]; [|by apply Herr]. specialize (Hres existing eq_refl). symmetry in Hres. destruct existing as [g|].
  { case_bool_decide; [|by apply outcome_fail, Herr]. apply outcome_ret. split; [done|]. split; [done|]. intros g' [= <-].
    pose proof (order_of_saga s o g Hs Hres) as <-. split; [done|]. unfold orders. cbn. by rewrite Hv. }
  assert (Hn1 : orders s1 !! o = None) by (unfold s1, orders; cbn; by rewrite Hv).
  unfold check. apply outcome_lift_bind. destruct (validate_aggregate_binding keccak256 q now) as [[]|e] eqn:Hbind; cbn [map_err]; [|by apply Herr].
  apply outcome_bind. eapply outcome_mono; [apply check_terms_outcome|]. intros res s' ->. destruct res as [[]|e]; [|by apply Herr].
  apply outcome_lift_bind. destruct (validate_plan q po Origin) as [u|e] eqn:Hpo; cbn [map_err]; [|by apply Herr].
  apply outcome_lift_bind. destruct (validate_plan q pd Destination) as [u'|e] eqn:Hpd; cbn [map_err]; [|by apply Herr].
  apply outcome_bind. eapply outcome_mono; [by apply stage_outcome|]. intros res s2 (Hs2 & Hf2 & Ho2 & Hb2 & Hr2).
  destruct res as [u2|e]; [|apply Herr; [done|by etrans]]. specialize (Hr2 u2 eq_refl). cbn in Hr2.
  apply outcome_bind. eapply outcome_mono; [by apply stage_outcome|]. intros res s3 (Hs3 & Hf3 & Ho3 & Hb3 & Hr3).
  assert (Hf03 : proxy_follows s s3) by (etrans; [exact Hf1|]; by etrans).
  destruct res as [u3|e]; [|by apply Herr]. specialize (Hr3 u3 eq_refl). cbn in Hr3.
  assert (Hbound : ∀ r, bound s3 r !! o = Some (aq_id q)).
  { intros []; [rewrite <-(validate_plan_quote _ _ _ _ Hpo); eapply lookup_weaken; [exact Hr2|apply Hb3]|].
    by rewrite <-(validate_plan_quote _ _ _ _ Hpd). }
  apply outcome_bind. eapply outcome_mono; [apply insert_outcome; [done|by rewrite Ho3, Ho2|done|by eapply binding_roles]|].
  intros res s4 (Hs4 & Hf4 & Hr4). assert (Hf04 : proxy_follows s s4) by (by etrans). destruct res as [g|e]; [|by apply Herr].
  destruct (Hr4 g eq_refl) as [Hgeq Hg]. rewrite new_saga_fields in Hgeq. unfold move_saga, transition. apply outcome_lift_bind.
  assert (Hst : sg_state g = SagaState.Quoted) by (by rewrite Hgeq). rewrite Hst. cbn [SagaState.permits map_err].
  apply outcome_bind. eapply outcome_mono; [apply (store_kept g); [done| |done|done|by rewrite Hst]|].
  - pose proof (stored_inv _ _ Hg) as Hinv. apply (saga_inv_set _ g); try done; try apply Hinv.
    { rewrite Hgeq. split; cbn; solve [done|by intros [? [=]]|split; [by intros [? [=]]|done]]. }
    intros r p _ Hp. apply (si_unspent _ _ Hinv r p); [by left|done].
  - intros [u5|e] s5 (Hs5 & Hf5 & Hr5); [|apply Herr; [done|by etrans]]. eapply settles_from; [by etrans|].
    apply continue_preparation_outcome; [by apply (Hr5 u5)|done].
Qed.

Lemma start_direct_outcome d now s : proxy_ok s → outcome (start_direct keccak256 cctp d now) (settles_at s) s.
Proof.
  intros Hs. unfold start_direct. apply outcome_bind. pose proof (po_remote _ Hs Destination) as Hr.
  eapply outcome_mono; [by apply outcome_call, rs_author_law|]. intros res s' (a & x & -> & (Hx & Hp & Hb) & ->).
  destruct (proxy_put_same s Destination x Hs Hx) as (Hs' & Hf & _); [unfold bound; by rewrite Hb|done|].
  destruct a as [plans|e]; cbn [map_err]; [|split; [done|]; split; [done|by intros ? [=]]].
  eapply settles_from; [done|]. by apply start_outcome.
Qed.

Lemma quote_outcome qo qd now s : proxy_ok s → outcome (quote keccak256 cctp qo qd now) (λ _ s', proxy_ok s' ∧ proxy_follows s s') s.
Proof.
  intros Hs. unfold quote, try_join. apply outcome_bind, outcome_attempt. pose proof (po_remote _ Hs Origin) as Hr.
  eapply outcome_mono; [by apply outcome_call, rs_quote_law|]. intros res s1 (a & x & -> & (Hx & Hp & Hb) & ->).
  destruct (proxy_put_same s Origin x Hs Hx) as (Hs1 & Hf1 & _); [unfold bound; by rewrite Hb|done|]. apply outcome_attempt.
  pose proof (po_remote _ Hs1 Destination) as Hr1. eapply outcome_mono; [by apply outcome_call, rs_quote_law|].
  intros res s2 (a2 & x2 & -> & (Hx2 & Hp2 & Hb2) & ->).
  destruct (proxy_put_same _ Destination x2 Hs1 Hx2) as (Hs2 & Hf2 & _); [unfold bound; by rewrite Hb2|done|]. apply outcome_lift.
  set (s2 := put_remote Destination _ x2) in *. assert (Hf : proxy_follows s s2) by (by etrans).
  destruct (_ ≫= _) as [[lo ld]|e]; [|done]. unfold check. apply outcome_lift_bind.
  destruct (aggregate_quote _ _ _ _) as [agg|e]; cbn [map_err]; [|done]. destruct (lq_route _); [done|].
  apply outcome_lift_bind. destruct cctp as [cc|]; cbn [ok_or]; [|done]. apply outcome_lift_bind. destruct (quote_terms _ _); cbn [map_err]; [|done].
  apply outcome_lift_bind. destruct (checked_add _ _); cbn [ok_or]; [|done]. by case_match.
Qed.

End advance.

(** * What a cross-chain order comes to

    The requests the coordinator serves, in any order and against any answers of the chain services
    and of CCTP, and what holds of every saga they reach. *)

Section runs.
Context {R St : Type} `{HR : RemoteSolvent R} `{HRL : !RemoteLaws R} `{HS : SagaStore St} `{HSL : !SagaStoreLaws St}.
Context (keccak256 : list Z → B256).
Abbreviation Proxy := (CrossChainProxy R St).
Implicit Types (s : Proxy) (g : CrossChainSaga) (r : LegRole) (o : CrossChainOrderId).

(** ** Runs *)

Inductive ProxyRequest : Type :=
| RequestQuote (origin destination : LegQuoteRequest) (now : Z)
| RequestStart (order : CrossChainOrderId) (q : AggregateQuote) (origin_plan destination_plan : ChainExecutionPlan) (now : Z)
| RequestStartDirect (d : DirectOrderAuthorization) (now : Z)
| RequestAdvance (order : CrossChainOrderId) (now : Z)
| RequestPoll (clock : nat → Z).

(** What a request leaves behind; its answer goes to the caller. *)
Definition serve (cctp : option CctpCompletion) (rq : ProxyRequest) (s : Proxy) : Proxy :=
  match rq with
  | RequestQuote qo qd now => (quote keccak256 cctp qo qd now s).2
  | RequestStart o q po pd now => (start keccak256 cctp o q po pd now s).2
  | RequestStartDirect d now => (start_direct keccak256 cctp d now s).2
  | RequestAdvance o now => (advance keccak256 cctp o now s).2
  | RequestPoll clock => (poll keccak256 cctp clock s).2
  end.

(** A run interleaves requests, each with what CCTP answers during it, with what the services and
    the store do by themselves: anything that leaves their records as they are. *)
Inductive proxy_step : Proxy → Proxy → Prop :=
| step_serve cctp rq s : proxy_step s (serve cctp rq s)
| step_remote r x s : remote_ok x → preparations x = legs s r → bound_orders x = bound s r → proxy_step s (put_remote r s x)
| step_sagas x s : saga_store_ok x → sagas x = orders s → proxy_step s (put_sagas s x).

(** A deployment that has served nothing yet. *)
Record proxy_fresh s : Prop := {
  fresh_remote : ∀ r, remote_ok (remote_of r s);
  fresh_store : saga_store_ok (px_sagas s);
  fresh_orders : orders s = ∅;
  fresh_legs : ∀ r, legs s r = ∅
}.

(** ** The invariant along runs *)

Lemma proxy_fresh_ok s : proxy_fresh s → proxy_ok s.
Proof.
  intros [Hr Hs Ho Hl]. split; [done|done| | |].
  - intros o g. rewrite Ho. by intros ?%lookup_empty_Some.
  - intros o g r. rewrite Ho. by intros ?%lookup_empty_Some.
  - intros r t p. rewrite Hl. by intros ?%lookup_empty_Some.
Qed.

Lemma proxy_step_ok s s' : proxy_step s s' → proxy_ok s → proxy_ok s' ∧ proxy_follows s s'.
Proof.
  intros [cctp rq s1|r x s1 Hx Hp Hb|x s1 Hx Hv] Hs.
  - destruct rq as [qo qd now|o q po pd now|d now|o now|clock]; cbn [serve].
    + by apply quote_outcome.
    + destruct (start_outcome keccak256 cctp o None q po pd now s1 Hs) as (? & ? & _). done.
    + destruct (start_direct_outcome keccak256 cctp d now s1 Hs) as (? & ? & _). done.
    + destruct (saga_advance_outcome keccak256 cctp o now s1 Hs) as (? & ? & _). done.
    + by apply poll_outcome.
  - destruct (proxy_put_same s1 r x Hs Hx) as (? & ? & _); [by rewrite Hb|done|]. done.
  - by apply proxy_ok_sagas.
Qed.

Lemma proxy_run_ok s s' : rtc proxy_step s s' → proxy_ok s → proxy_ok s' ∧ proxy_follows s s'.
Proof.
  induction 1 as [|s1 s2 s3 H1 _ IH]; [done|]. intros Hs. destruct (proxy_step_ok _ _ H1 Hs) as [Hs2 Hf].
  destruct (IH Hs2). split; [done|by etrans].
Qed.

Lemma delivered_executed s o g :
  proxy_ok s → orders s !! o = Some g → delivered_state (sg_state g) = true → leg_in (legs s) Destination (aq_id (sg_quote g)) PreparationState.Executed.
Proof. intros Hs Hg Hst. pose proof (po_saga _ Hs o g Hg) as Hi. by apply Hi, (ev_delivered _ (si_evidence _ _ Hi)). Qed.

Lemma claimed_executed s o g :
  proxy_ok s → orders s !! o = Some g → claimed_state (sg_state g) = true → leg_in (legs s) Origin (aq_id (sg_quote g)) PreparationState.Executed.
Proof. intros Hs Hg Hst. pose proof (po_saga _ Hs o g Hg) as Hi. by apply Hi, (ev_claimed _ (si_evidence _ _ Hi)). Qed.

(** ** Outcomes *)

(** C5: a cross-chain order is all or nothing, whatever the services and CCTP answer, whichever calls
    or writes fail and however requests, retries and recoveries interleave: a completed order has spent
    the capital of both legs; an order given up before delivery has spent neither, every hold whose
    token the saga knows is released, and a hold whose answer was lost is at most prepared, where it
    expires; the taker's input is never claimed on the origin chain unless the taker was paid on the
    destination chain; and no hold serves two orders. *)
Theorem saga_is_all_or_nothing s0 s o g :
  proxy_fresh s0 → rtc proxy_step s0 s → orders s !! o = Some g →
  (sg_state g = SagaState.Complete → ∀ r, leg_in (legs s) r (aq_id (sg_quote g)) PreparationState.Executed)
  ∧ (sg_state g = SagaState.FailedBeforeDelivery → ∀ r p, leg_hold (legs s) r (aq_id (sg_quote g)) p →
       pr_state p = PreparationState.Released ∨ pr_state p = PreparationState.Prepared ∧ prepare_of r g = None)
  ∧ (leg_in (legs s) Origin (aq_id (sg_quote g)) PreparationState.Executed → leg_in (legs s) Destination (aq_id (sg_quote g)) PreparationState.Executed)
  ∧ (∀ r t p, legs s r !! t = Some p → pr_quote p = aq_id (sg_quote g) → ∀ o' g', orders s !! o' = Some g' → aq_id (sg_quote g') = pr_quote p → o' = o).
Proof.
  intros Hf0 Hrun Hg. destruct (proxy_run_ok s0 s Hrun (proxy_fresh_ok s0 Hf0)) as [Hs _]. pose proof (po_saga _ Hs o g Hg) as Hi.
  split; [|split; [|split]].
  - intros Hst []; [eapply claimed_executed|eapply delivered_executed]; try done; by rewrite Hst.
  - intros Hst r p Hp. destruct (prepare_of r g) as [t|] eqn:Ht; [left; by eapply (si_failed _ _ Hi)|right; split; [by apply (si_unknown _ _ Hi r)|done]].
  - apply Hi.
  - intros r t p Hp Hq o' g' Hg' Hq'. eapply quote_names_saga; [done..|congruence].
Qed.

(** What is settled stays settled: along any run an order keeps its quote, a completed or failed
    order never changes again, and capital that was spent or released is never moved again by any later
    request, retry or recovery. *)
Theorem saga_outcome_is_final s0 s s' o g :
  proxy_fresh s0 → rtc proxy_step s0 s → rtc proxy_step s s' → orders s !! o = Some g →
  (∃ g', orders s' !! o = Some g' ∧ sg_quote g' = sg_quote g ∧ (SagaState.unfinished (sg_state g) = false → g' = g))
  ∧ ∀ r p, leg_hold (legs s) r (aq_id (sg_quote g)) p → prep_terminal (pr_state p) → leg_hold (legs s') r (aq_id (sg_quote g)) p.
Proof.
  intros Hf0 Hrun Hrun' Hg. destruct (proxy_run_ok s0 s Hrun (proxy_fresh_ok s0 Hf0)) as [Hs _].
  destruct (proxy_run_ok s s' Hrun' Hs) as [_ [Hl Ho]]. split; [by apply Ho|].
  intros r p (Hp & Hq & Hr) Ht. destruct (Hl r _ _ Hp) as (p' & Hp' & _ & Hsame). rewrite (Hsame Ht) in Hp'. done.
Qed.

(** ** A delivery that was not recorded *)

(** Nothing the saga depends on has changed. *)
Definition untouched s s' : Prop := proxy_ok s' ∧ orders s' = orders s ∧ ∀ r, legs s' r = legs s r.

Lemma inspect_untouched r t s :
  proxy_ok s → outcome (call r (rs_inspect t)) (λ res s', untouched s s' ∧ ∀ p, res = Ok p → legs s r !! t = Some p) s.
Proof.
  intros Hs. eapply outcome_mono; [apply outcome_call, rs_inspect_law, Hs|]. intros res s' (a & x & -> & (Hx & Hp & Hb & Hres) & ->).
  destruct (proxy_put_same s r x Hs Hx) as (? & _ & ? & ? & _); [unfold bound; by rewrite Hb|done|]. split; [done|].
  intros p Ha. apply Hres. by destruct a as [|]; [injection Ha as ->|].
Qed.

Lemma deliver_wedged g now s r p t :
  proxy_ok s → prepare_of r g = Some t → legs s r !! t = Some p → pr_state p ≠ PreparationState.Committed →
  outcome (deliver keccak256 g now) (λ res s', (∃ e, res = Err e) ∧ untouched s s') s.
Proof.
  intros Hs Ht Hp Hst. assert (Hself : untouched s s) by done. unfold deliver, required_token. apply outcome_lift_bind. destruct (sg_origin_prepare g) as [t1|] eqn:Ht1; cbn [ok_or]; [|by eauto].
  apply outcome_lift_bind. destruct (sg_destination_prepare g) as [t2|] eqn:Ht2; cbn [ok_or]; [|by eauto].
  unfold try_join. apply outcome_bind, outcome_attempt. eapply outcome_mono; [by apply inspect_untouched|]. intros res1 s1 [(Hs1 & Ho1 & Hl1) Hr1].
  apply outcome_attempt. eapply outcome_mono; [by apply inspect_untouched|]. intros res2 s2 [(Hs2 & Ho2 & Hl2) Hr2].
  assert (Hu : untouched s s2) by (split; [done|]; split; [by rewrite Ho2|]; intros r'; by rewrite Hl2). apply outcome_lift.
  destruct res1 as [p1|e]; [|cbn; by eauto]. destruct res2 as [p2|e]; [|cbn; by eauto]. specialize (Hr1 p1 eq_refl). specialize (Hr2 p2 eq_refl).
  rewrite Hl1 in Hr2. cbn [mbind result_bind fst snd]. unfold check.
  assert (Hbad : ∀ x, pr_state x ≠ PreparationState.Committed → ∃ m, validate_committed g x r = Err m).
  { intros x Hx. unfold validate_committed. rewrite (bool_decide_eq_false_2 _ Hx). cbn. rewrite orb_true_r. eauto. }
  destruct r; cbn in Ht.
  - assert (p1 = p) as -> by congruence. destruct (Hbad p Hst) as [m Hm]. apply outcome_lift_bind. rewrite Hm. cbn. by eauto.
  - assert (p2 = p) as -> by congruence. destruct (Hbad p Hst) as [m Hm]. apply outcome_lift_bind. destruct (validate_committed g p1 Origin); cbn; [|by eauto].
    apply outcome_lift_bind. rewrite Hm. cbn. by eauto.
Qed.

(** C40: an order that waits to be delivered while one of its two holds is already spent or released is stuck: every
    attempt to advance it, whatever the services and CCTP answer, fails, and changes no order and no hold of either
    chain, so that the next attempt finds it as it was. *)
Theorem settled_leg_wedges_delivery s0 s o g r p cctp now :
  proxy_fresh s0 → rtc proxy_step s0 s → orders s !! o = Some g →
  sg_state g = SagaState.Prepared ∨ sg_state g = SagaState.DestinationPending →
  leg_hold (legs s) r (aq_id (sg_quote g)) p → prep_terminal (pr_state p) →
  let '(res, s') := advance keccak256 cctp o now s in
  (∃ e, res = Err e) ∧ orders s' = orders s ∧ ∀ r', legs s' r' = legs s r'.
Proof.
  intros H0 Hrun Hg Hst Hp Hterm. destruct (proxy_run_ok s0 s Hrun (proxy_fresh_ok s0 H0)) as [Hs _]. pose proof (po_saga _ Hs o g Hg) as Hi.
  assert (Htok : ∃ t, prepare_of r g = Some t ∧ legs s r !! t = Some p).
  { pose proof (si_tokens _ _ Hi) as Hto. assert (Hsome : is_Some (prepare_of r g)) by (unfold tokens_ok in Hto; destruct Hst as [E|E]; rewrite E in Hto; by destruct r, Hto).
    destruct Hsome as [t Ht]. exists t. split; [done|]. destruct (si_token _ _ Hi r t Ht) as (p' & Hp' & <-).
    by rewrite (leg_hold_unique _ _ _ _ _ (proxy_legs_ok s Hs) Hp' Hp), (proj1 Hp). }
  assert (Hadv : outcome (advance keccak256 cctp o now) (λ res s', (∃ e, res = Err e) ∧ untouched s s') s).
  { unfold advance, load_saga. apply outcome_bind, outcome_bind, outcome_zoom. eapply outcome_mono; [apply saga_load_law, Hs|].
    intros res x (Hx & Hv & Hres). destruct (proxy_ok_sagas s x Hs Hx Hv) as [Hs1 _]. set (s1 := put_sagas s x) in *.
    assert (Hu1 : untouched s s1) by (split; [done|]; split; [done|by intros []]).
    destruct res as [found|e]; cbn [map_err]; [|by eauto]. specialize (Hres _ eq_refl). unfold orders in Hg. rewrite Hg in Hres. subst found. cbn [ok_or].
    apply outcome_lift. destruct Htok as (t & Ht & Hpt).
    assert (Hd : outcome (deliver keccak256 g now) (λ res s', (∃ e, res = Err e) ∧ untouched s s') s1).
    { eapply outcome_mono; [apply (deliver_wedged g now s1 r p t); [done|done|by destruct r|by destruct Hterm as [->| ->]]|].
      intros res s' [? (? & Ho & Hl)]. split; [done|]. destruct Hu1 as (_ & Ho1 & Hl1). split; [done|]. split; [by rewrite Ho|]. intros r'. by rewrite Hl. }
    unfold advance_from. by destruct Hst as [->| ->]. }
  unfold outcome in Hadv. destruct (advance keccak256 cctp o now s) as [res s']. cbn in Hadv. destruct Hadv as [He (_ & Ho & Hl)].
  by split_and!.
Qed.

End runs.
