(* ===== verification/CrossLocal.v ===== *)
(** * The chain services

    One chain's side of a cross-chain order: the leg quoter
    ([crates/adapters/src/crosschain/quote.rs]), the capital of a leg
    ([crates/core/src/crosschain/local.rs]), the staged calls
    ([crates/core/src/crosschain/steps.rs]) with the fee refresh of
    [crates/adapters/src/crosschain/ccip.rs], the private HTTP interface
    ([crates/adapters/src/http/crosschain_internal.rs]) and the client that calls it
    ([crates/adapters/src/crosschain/client.rs]).

    What a request meets outside the service (the clock, the budgets, the routes, the validation
    of calls, the fees, and the network between client and service) is a [World]; a service
    carries the worlds of the requests to come. *)

From stdpp Require Import strings pretty.
From S2P Require Import Prelude Commands U256 Reservation LedgerEngine LedgerStore LedgerService CurveDecode Registry Fills CrossChain CrossStores CrossProxy.

#[local] Open Scope string_scope.
#[local] Open Scope list_scope.
#[local] Open Scope Z_scope.

(** ** Quoting a leg *)

(** What the quote service answers; an amount or a hash is [None] when its text does not parse. *)
Record RoutedLeg := mk_routed_leg { rl_maker : Address; rl_hash : option B256; rl_token_out : Address; rl_amount_out : option U256 }.

Record Routed := mk_routed { rt_amount_out : option U256; rt_legs : list RoutedLeg }.

Inductive LegQuoterError : Type := NoRoute | QuoterBackend.

Definition routed_source (leg : RoutedLeg) : result LegQuoterError ReservationSource :=
  hash ← ok_or (rl_hash leg) QuoterBackend;
  amount ← ok_or (rl_amount_out leg) QuoterBackend;
  Ok (Build_ReservationSource (rl_maker leg) hash (rl_token_out leg) amount).

Fixpoint routed_sources (legs : list RoutedLeg) : result LegQuoterError (list ReservationSource) :=
  match legs with
  | [] => Ok []
  | leg :: legs' => s ← routed_source leg; ss ← routed_sources legs'; Ok (s :: ss)
  end.

(** A direct origin leg only locks the taker's input: it has no route. *)
Definition needs_route (q : LegQuoteRequest) : bool := negb (bool_decide (lr_role q = Origin) && bool_decide (lr_route q = Direct)).

Definition leg_quote (keccak256 : list Z → B256) (chain ttl_secs : Z) (routes : Address → Address → U256 → option Routed) (head now : Z)
    (q : LegQuoteRequest) : result LegQuoterError LegQuote :=
  if negb (lr_local_chain q =? chain) then Err QuoterBackend
  else
    routed ← (if needs_route q then r ← ok_or (routes (lr_input_token q) (lr_output_token q) (lr_amount q)) NoRoute; Ok (Some r) else Ok None);
    amount_out ← match routed with Some r => ok_or (rt_amount_out r) QuoterBackend | None => Ok (lr_amount q) end;
    let expires_at := Z.min (lr_deadline q) (u64_saturating_add now ttl_secs) in
    sources ← routed_sources (match routed with Some r => rt_legs r | None => [] end);
    let quote i := mk_leg_quote i (lr_request q) (lr_role q) (lr_local_chain q) (lr_remote_chain q) (lr_input_token q) (lr_output_token q)
                     (lr_amount q) amount_out (lr_route q) head expires_at sources in
    Ok (quote (leg_quote_id keccak256 (quote 0))).

(** ** The world of a request *)

(** What happens to a request on the network. *)
Inductive Fate : Type := Answered | RequestLost (m : string) | AnswerLost (m : string) | AnswerUnreadable (m : string).

Inductive AuthorError : Type := AuthorInvalid | AuthorUnavailable.

Inductive MaterializerError : Type := StepMalformed | FeeBackend.

Record World := mk_world {
  w_fate : Fate;
  w_now : nat → Z;
  w_head : Z;
  w_routes : Address → Address → U256 → option Routed;
  w_budget_of : AccountKey → result SolventError U256;
  w_validator : option (StepValidationContext → ChainExecutionPlan → result string unit);
  w_author : option (DirectOrderAuthorization → result AuthorError DirectExecutionPlans);
  (** The fee outbox, by address and envelope. *)
  w_fee : option (Address → list Z → result MaterializerError U256)
}.

Record LocalConfig := mk_local_config {
  lc_chain : Z;
  lc_owner : Address;
  lc_targets : gmap RemoteCommand Address;
  lc_quote_ttl_secs : Z;
  lc_authorization : string
}.

Inductive LocalError : Type :=
| LocalInvalid (m : string)
| LocalLedger (e : SolventError)
| LocalPreparations (e : CrossStoreError)
| LocalQuotes (e : CrossStoreError)
| LocalSteps (e : CrossStoreError)
| LocalQuoter (e : LegQuoterError)
| LocalMaterializer (e : MaterializerError)
| LocalValidator (m : string)
| LocalExecution (e : ExecutionError).

(** ** Checks *)

Definition validate_leg (q : LegQuoteRequest) (x : LegQuote) (now : Z) : result LocalError unit :=
  let matches :=
    (lq_request x =? lr_request q) && bool_decide (lq_role x = lr_role q) && (lq_local_chain x =? lr_local_chain q)
    && (lq_remote_chain x =? lr_remote_chain q) && (lq_input_token x =? lr_input_token q) && (lq_output_token x =? lr_output_token q)
    && bool_decide (lq_route x = lr_route q) && (lq_amount_in x =? lr_amount q) in
  if negb matches then Err (LocalInvalid "chain-local quote does not match its request")
  else if (lq_expires_at x <=? now) || (lr_deadline q <? lq_expires_at x)
       then Err (LocalInvalid "chain-local quote has an invalid expiry") else Ok tt.

Definition initial_plan_shape (c : StepValidationContext) (plan : ChainExecutionPlan) : bool :=
  plan_shape (lq_route (aq_origin (vc_quote c))) (vc_role c) plan.

Definition command_is_valid_for (r : LegRole) (route : CrossChainRoute) (c : RemoteCommand) : bool :=
  match route, r, c with
  | Direct, Origin, (ClaimOrigin | DispatchRepayment) => true
  | Direct, Destination, (Deliver | DispatchFillProof | CloseDestination) => true
  | Cctp, Origin, ClaimOrigin => true
  | Cctp, Destination, (Deliver | DispatchFillProof | CloseDestination) => true
  | _, _, _ => false
  end.

Definition command_debug (c : RemoteCommand) : string :=
  match c with
  | Deliver => "Deliver"
  | DispatchFillProof => "DispatchFillProof"
  | ClaimOrigin => "ClaimOrigin"
  | DispatchRepayment => "DispatchRepayment"
  | CloseDestination => "CloseDestination"
  end.

(** Every call is of the route and role, goes to the allowed contract, and comes once. *)
Fixpoint check_steps (config : LocalConfig) (c : StepValidationContext) (seen : gset RemoteCommand) (steps : list PreparedStep) :
    result LocalError unit :=
  match steps with
  | [] => Ok tt
  | x :: steps' =>
      if negb (command_is_valid_for (vc_role c) (lq_route (aq_origin (vc_quote c))) (ps_command x))
      then Err (LocalInvalid "execution command does not belong to this route and chain role")
      else
        target ← ok_or (lc_targets config !! ps_command x)
                   (LocalInvalid (String.concat EmptyString ["command "; command_debug (ps_command x); " is not enabled on chain "; pretty (lc_chain config)]));
        if negb (target =? ps_target x) then Err (LocalInvalid "execution target is not allow-listed for its command")
        else if bool_decide (ps_command x ∈ seen) then Err (LocalInvalid "execution plan repeats a command")
        else check_steps config c ({[ps_command x]} ∪ seen) steps'
  end.

(** Whether a hold in this state lets a command of this kind run. *)
Definition state_authorizes (c : RemoteCommand) (s : PreparationState.t) : bool :=
  match c, s with
  | (Deliver | ClaimOrigin), (PreparationState.Committed | PreparationState.Executed) => true
  | (DispatchFillProof | DispatchRepayment | CloseDestination), PreparationState.Executed => true
  | _, _ => false
  end.

Definition with_value (fill : FillTx) (value : U256) : FillTx :=
  mk_fill_tx (ftx_intent fill) (ftx_chain_id fill) (filler_owner fill) (ftx_filler fill) value (ftx_calldata fill).

(** [dispatchCall::abi_decode] gives the envelope of a dispatch call. *)
Definition materialize (abi_decode : list Z → option (list Z)) (fee : Address → list Z → result MaterializerError U256) (x : PreparedStep) :
    result MaterializerError PreparedStep :=
  match ps_command x with
  | DispatchFillProof | DispatchRepayment =>
      envelope ← ok_or (abi_decode (ps_calldata x)) StepMalformed;
      value ← fee (ps_target x) envelope;
      Ok (mk_step (ps_command x) (ps_target x) value (ps_calldata x))
  | _ => Ok x
  end.

(** How an execution status reads as progress. *)
Definition progress_of (i : CrossChainStepId) (s : option ExecStatus) : RemoteProgress :=
  match s with
  | None | Some ExecPending => ProgressPending
  | Some (ExecConfirmed block tx) => ProgressFinalized (mk_evidence i (Some tx) (Some block) None)
  | Some (ExecFailed reason) => ProgressFailed reason
  | Some ExecDropped => ProgressFailed "transaction dropped before confirmation"
  end.

Section service.
Context {LSt PSt QSt SSt ESt : Type} `{HL : LedgerStore LSt} `{HP : PreparationStore PSt} `{HQ : LegQuoteStore QSt} `{HT : StepStore SSt}
  `{HE : Execution ESt}.
Context (keccak256 : list Z → B256) (abi_decode : list Z → option (list Z)) (config : LocalConfig).

Record ChainService := mk_chain {
  ch_ledger : LedgerService LSt;
  ch_preparations : PSt;
  ch_quotes : QSt;
  ch_steps : SSt;
  ch_execution : ESt;
  ch_worlds : list World
}.

Abbreviation local_cmd := (cmd ChainService LocalError).

Definition put_ledger (s : ChainService) (x : LedgerService LSt) : ChainService :=
  mk_chain x (ch_preparations s) (ch_quotes s) (ch_steps s) (ch_execution s) (ch_worlds s).

Definition put_preparations (s : ChainService) (x : PSt) : ChainService :=
  mk_chain (ch_ledger s) x (ch_quotes s) (ch_steps s) (ch_execution s) (ch_worlds s).

Definition put_quotes (s : ChainService) (x : QSt) : ChainService :=
  mk_chain (ch_ledger s) (ch_preparations s) x (ch_steps s) (ch_execution s) (ch_worlds s).

Definition put_steps (s : ChainService) (x : SSt) : ChainService :=
  mk_chain (ch_ledger s) (ch_preparations s) (ch_quotes s) x (ch_execution s) (ch_worlds s).

Definition put_execution (s : ChainService) (x : ESt) : ChainService :=
  mk_chain (ch_ledger s) (ch_preparations s) (ch_quotes s) (ch_steps s) x (ch_worlds s).

Definition put_worlds (s : ChainService) (x : list World) : ChainService :=
  mk_chain (ch_ledger s) (ch_preparations s) (ch_quotes s) (ch_steps s) (ch_execution s) x.

Definition with_ledger {A} (c : cmd (LedgerService LSt) SolventError A) : local_cmd A := zoom ch_ledger put_ledger LocalLedger c.
Definition with_preparations {A} (c : cmd PSt CrossStoreError A) : local_cmd A := zoom ch_preparations put_preparations LocalPreparations c.
Definition with_quotes {A} (c : cmd QSt CrossStoreError A) : local_cmd A := zoom ch_quotes put_quotes LocalQuotes c.
Definition with_steps {A} (c : cmd SSt CrossStoreError A) : local_cmd A := zoom ch_steps put_steps LocalSteps c.
Definition with_execution {A} (c : cmd ESt ExecutionError A) : local_cmd A := zoom ch_execution put_execution LocalExecution c.

Definition invalid {A} (m : string) : local_cmd A := fail (LocalInvalid m).

Definition moved (r : result CrossChainInvariantError Preparation) : local_cmd Preparation :=
  lift (map_err (λ e, LocalInvalid (invariant_text e)) r).

(** ** Quotes and capital *)

Definition local_quote_leg (w : World) (q : LegQuoteRequest) : local_cmd LegQuote :=
  if negb (lr_local_chain q =? lc_chain config)
  then invalid (String.concat EmptyString ["request chain "; pretty (lr_local_chain q); " does not match service chain "; pretty (lc_chain config)])
  else if lr_deadline q <=? w_now w 0 then invalid "quote deadline has expired"
  else
    x ← lift (map_err LocalQuoter (leg_quote keccak256 (lc_chain config) (lc_quote_ttl_secs config) (w_routes w) (w_head w) (w_now w 1) q));
    _ ← lift (validate_leg q x (w_now w 2));
    with_quotes (quote_insert x).

(** The quote was issued here, on these terms. *)
Definition issued_here (x : LegQuote) (unknown different : string) : local_cmd unit :=
  found ← with_quotes (quote_load (lq_id x));
  issued ← lift (ok_or found (LocalInvalid unknown));
  if bool_decide (issued = x) then mret tt else invalid different.

(** Hold the capital of a leg; a hold already there is the leg's own. *)
Definition hold_capital (w : World) (a : AggregateQuoteId) (x : LegQuote) (token : PrepareToken) : local_cmd unit :=
  res ← attempt (with_ledger (LedgerService.reserve (w_budget_of w) (w_now w 2) token a (lq_sources x)
                                (u64_saturating_sub (lq_expires_at x) (w_now w 1))));
  match res with
  | Ok _ | Err (LocalLedger (LedgerRefused (Duplicate _))) => mret tt
  | Err e => fail e
  end.

Definition local_prepare (w : World) (a : AggregateQuoteId) (x : LegQuote) : local_cmd Preparation :=
  if negb (lq_local_chain x =? lc_chain config) then invalid "cannot prepare a quote owned by another chain"
  else if lq_expires_at x <=? w_now w 0 then invalid "cannot prepare an expired quote"
  else if negb (lq_id x =? leg_quote_id keccak256 x) then invalid "chain-local quote fingerprint is invalid"
  else
    _ ← issued_here x "chain-local quote was not issued by this service" "chain-local quote terms differ from the issued quote";
    existing ← with_preparations (prep_load_for_quote a (lq_role x));
    match existing with
    | Some p => mret p
    | None =>
        let p := mk_preparation (preparation_token keccak256 a (lc_chain config) (lq_role x)) a (lq_role x) (lc_chain config)
                   PreparationState.Prepared (lq_expires_at x) in
        _ ← hold_capital w a x (pr_token p);
        with_preparations (prep_insert p)
    end.

Definition validate_stage_context (w : World) (c : StepValidationContext) : local_cmd unit :=
  _ ← lift (map_err LocalInvalid (validate_aggregate_binding keccak256 (vc_quote c) (w_now w 0)));
  let x := local_quote c in
  if negb (lq_local_chain x =? lc_chain config) || negb (lq_id x =? leg_quote_id keccak256 x)
  then invalid "stage context does not contain this service's quote"
  else issued_here x "stage context quote was not issued by this service" "stage context differs from the locally issued quote".

Definition load_owned (t : PrepareToken) : local_cmd Preparation :=
  found ← with_preparations (prep_load t);
  p ← lift (ok_or found (LocalInvalid "unknown preparation token"));
  if negb (pr_chain p =? lc_chain config) then invalid "preparation belongs to another chain" else mret p.

Definition local_commit (w : World) (t : PrepareToken) : local_cmd Preparation :=
  p ← load_owned t;
  if pr_expires_at p <=? w_now w 0 then invalid "preparation expired before commit"
  else
    p' ← moved (Preparation_commit p);
    _ ← with_ledger (LedgerService.commit t);
    _ ← with_preparations (prep_update p');
    mret p'.

Definition local_inspect (t : PrepareToken) : local_cmd Preparation := load_owned t.

(** Free the capital; that it is free already is as good. *)
Definition free_capital (t : PrepareToken) : local_cmd unit :=
  res ← attempt (with_ledger (LedgerService.void t));
  match res with
  | Ok _ | Err (LocalLedger (LedgerRefused (WrongState _ Voided _))) => mret tt
  | Err e => fail e
  end.

Definition local_release (t : PrepareToken) : local_cmd Preparation :=
  p ← load_owned t;
  p' ← moved (Preparation_release p);
  _ ← (if bool_decide (pr_state p = PreparationState.Released) then mret tt else free_capital t);
  _ ← with_preparations (prep_update p');
  mret p'.

(** Spend the whole of what is held; that it is spent already is as good. *)
Definition spend_capital (t : PrepareToken) : local_cmd unit :=
  l ← gets ch_ledger;
  sources ← lift (ok_or (settlement_reservation_sources l t) (LocalInvalid "preparation has no capital reservation"));
  res ← attempt (with_ledger (LedgerService.post t (src_amount <$> sources)));
  match res with
  | Ok _ | Err (LocalLedger (LedgerRefused (WrongState _ Posted _))) => mret tt
  | Err e => fail e
  end.

Definition mark_executed (t : PrepareToken) : local_cmd Preparation :=
  p ← load_owned t;
  p' ← moved (Preparation_execute p);
  _ ← (if bool_decide (pr_state p = PreparationState.Executed) then mret tt else spend_capital t);
  _ ← with_preparations (prep_update p');
  mret p'.

(** ** Staged calls *)

Definition stage_validated (w : World) (c : StepValidationContext) (plan : ChainExecutionPlan) : local_cmd unit :=
  if negb (cp_aggregate plan =? aq_id (vc_quote c)) || negb (cp_chain plan =? lc_chain config)
     || negb (lq_local_chain (local_quote c) =? lc_chain config)
  then invalid "execution plan does not match its aggregate validation context"
  else
    _ ← lift (check_steps config c ∅ (cp_steps plan));
    if (length (cp_steps plan) =? 0)%nat then invalid "execution plan has no commands"
    else
      validate ← lift (ok_or (w_validator w) (LocalInvalid "cross-chain step validation is not configured"));
      _ ← lift (map_err LocalValidator (validate c plan));
      res ← attempt (with_steps (step_stage (vc_order c) plan));
      match res with
      | Ok _ => mret tt
      | Err (LocalSteps StoreConflict) => invalid "order or aggregate quote conflicts with an existing staged plan"
      | Err e => fail e
      end.

Definition steps_stage (w : World) (c : StepValidationContext) (plan : ChainExecutionPlan) : local_cmd unit :=
  if negb (initial_plan_shape c plan) then invalid "execution plan does not contain the complete initial command set"
  else stage_validated w c plan.

Definition steps_stage_cctp_completion (w : World) (c : StepValidationContext) (plan : ChainExecutionPlan) (p : Preparation) : local_cmd unit :=
  match cp_steps plan with
  | [x] =>
      if negb (bool_decide (lq_route (aq_origin (vc_quote c)) = Cctp)) || negb (bool_decide (vc_role c = Destination))
         || negb (bool_decide (ps_command x = CloseDestination)) || negb (pr_quote p =? aq_id (vc_quote c))
         || negb (pr_chain p =? lc_chain config) || negb (bool_decide (pr_role p = Destination))
         || negb (bool_decide (pr_state p = PreparationState.Executed))
      then invalid "CCTP completion is not authorized by the executed destination preparation"
      else stage_validated w c plan
  | _ => invalid "CCTP completion plan must contain only the close command"
  end.

(** Simulate and submit a call that is not on its way yet; [Some] is a refusal. *)
Definition submit_step (fill : FillTx) (i : CrossChainStepId) : local_cmd (option string) :=
  status ← with_execution (exec_status i);
  match status with
  | Some _ => mret None
  | None =>
      verdict ← with_execution (simulate fill);
      match verdict with
      | SimOk => _ ← with_execution (exec_submit fill i); mret None
      | SimReject reason => mret (Some reason)
      end
  end.

Definition steps_command (w : World) (o : CrossChainOrderId) (i : CrossChainStepId) (c : RemoteCommand) (p : Preparation) :
    local_cmd RemoteProgress :=
  if negb (step_id keccak256 o (lc_chain config) c =? i) then invalid "command id does not bind the order and step"
  else
    found ← with_steps (step_aggregate o c);
    aggregate ← lift (ok_or found (LocalInvalid "command has no durable aggregate-quote binding"));
    if negb (pr_quote p =? aggregate) || negb (pr_chain p =? lc_chain config) || negb (bool_decide (pr_role p = command_role c))
       || negb (state_authorizes c (pr_state p))
    then invalid "preparation does not authorize this order and command"
    else
      found ← with_steps (step_load o c);
      x ← lift (ok_or found (LocalInvalid "command was not staged"));
      x ← lift (match w_fee w with Some fee => map_err LocalMaterializer (materialize abi_decode fee x) | None => Ok x end);
      refused ← submit_step (with_value (FillTx_new i (lc_chain config) (lc_owner config) (ps_target x) (ps_calldata x)) (ps_value x)) i;
      match refused with
      | Some reason => mret (ProgressFailed reason)
      | None =>
          _ ← with_execution exec_tick;
          status ← with_execution (exec_status i);
          mret (progress_of i status)
      end.

(** ** The private HTTP interface *)

Inductive StatusCode : Type := BadRequest | Unauthorized | InternalServerError | ServiceUnavailable.

Definition internal_error (e : LocalError) : StatusCode :=
  match e with LocalInvalid _ | LocalValidator _ => BadRequest | _ => InternalServerError end.

Abbreviation handler := (cmd ChainService StatusCode).

Definition answers {A} (c : local_cmd A) : handler A := λ s, let '(r, s') := c s in (map_err internal_error r, s').

Definition handle_author_direct (w : World) (d : DirectOrderAuthorization) : handler DirectExecutionPlans :=
  author ← lift (ok_or (w_author w) ServiceUnavailable);
  lift (map_err (λ e, match e with AuthorInvalid => BadRequest | AuthorUnavailable => InternalServerError end) (author d)).

Definition handle_stage (w : World) (c : StepValidationContext) (plan : ChainExecutionPlan) : handler unit :=
  _ ← answers (validate_stage_context w c);
  answers (steps_stage w c plan).

Definition handle_stage_cctp_completion (w : World) (c : StepValidationContext) (plan : ChainExecutionPlan) (t : PrepareToken) : handler unit :=
  _ ← answers (validate_stage_context w c);
  p ← answers (local_inspect t);
  answers (steps_stage_cctp_completion w c plan p).

Definition handle_command (w : World) (o : CrossChainOrderId) (i : CrossChainStepId) (c : RemoteCommand) (t : PrepareToken) :
    handler RemoteProgress :=
  p ← answers (local_inspect t);
  progress ← answers (steps_command w o i c p);
  _ ← match progress, c with
      | ProgressFinalized _, (Deliver | ClaimOrigin) => _ ← answers (mark_executed t); mret tt
      | _, _ => mret tt
      end;
  mret progress.

Definition require_auth {A} (supplied : option string) (next : handler A) : handler A :=
  if bool_decide (supplied = Some (lc_authorization config)) then next else fail Unauthorized.

(** ** The client *)

Definition status_text (s : StatusCode) : string :=
  match s with
  | BadRequest => "400 Bad Request"
  | Unauthorized => "401 Unauthorized"
  | InternalServerError => "500 Internal Server Error"
  | ServiceUnavailable => "503 Service Unavailable"
  end.

Definition status_message (s : StatusCode) : string := String.append "chain-local Solvent returned HTTP " (status_text s).

Definition is_client_error (s : StatusCode) : bool := match s with BadRequest | Unauthorized => true | _ => false end.

(** How an answer that arrives is read. *)
Definition read_answer {A} (readable : result RemoteSolventError unit) (r : result StatusCode A) : result RemoteSolventError A :=
  match r with
  | Ok a => _ ← readable; Ok a
  | Err s => Err (if is_client_error s then Rejected (status_message s) else Unavailable (status_message s))
  end.

(** A world in which nothing goes wrong on the way, but nothing is configured either. *)
Definition quiet_world : World := mk_world Answered (λ _, 0) 0 (λ _ _ _, None) (λ _, Err BudgetSourceFailed) None None None.

(** One request: it meets the next world, and may be lost on either way. *)
Definition client_post {A} (bearer : string) (h : World → handler A) : cmd ChainService RemoteSolventError A := λ s,
  let w := default quiet_world (head (ch_worlds s)) in
  let s := put_worlds s (tail (ch_worlds s)) in
  match w_fate w with
  | RequestLost m => (Err (Unavailable m), s)
  | fate =>
      let '(r, s') := require_auth (Some (String.append "Bearer " bearer)) (h w) s in
      (match fate with
       | AnswerLost m => Err (Unavailable m)
       | AnswerUnreadable m => read_answer (Err (InvalidResponse m)) r
       | _ => read_answer (Ok tt) r
       end, s')
  end.

End service.
Arguments ChainService : clear implicits.
Arguments mk_chain {LSt PSt QSt SSt ESt} _ _ _ _ _ _.

(** ** The remote service, as the proxy sees it *)

Record Remote (LSt PSt QSt SSt ESt : Type) := mk_remote {
  rm_config : LocalConfig;
  rm_bearer : string;
  rm_service : ChainService LSt PSt QSt SSt ESt
}.
Arguments mk_remote {LSt PSt QSt SSt ESt} _ _ _.
Arguments rm_config {LSt PSt QSt SSt ESt} _.
Arguments rm_bearer {LSt PSt QSt SSt ESt} _.
Arguments rm_service {LSt PSt QSt SSt ESt} _.

Section client.
Context {LSt PSt QSt SSt ESt : Type} `{HL : LedgerStore LSt} `{HP : PreparationStore PSt} `{HQ : LegQuoteStore QSt} `{HT : StepStore SSt}
  `{HE : Execution ESt}.
Context (keccak256 : list Z → B256) (abi_decode : list Z → option (list Z)).
Abbreviation Remote := (Remote LSt PSt QSt SSt ESt).

Definition via_client {A} (h : LocalConfig → World → cmd (ChainService LSt PSt QSt SSt ESt) StatusCode A) : cmd Remote RemoteSolventError A := λ m,
  let '(r, s) := client_post (rm_config m) (rm_bearer m) (h (rm_config m)) (rm_service m) in (r, mk_remote (rm_config m) (rm_bearer m) s).

#[global] Instance solvent_client : RemoteSolvent Remote := {|
  rs_quote q := via_client (λ config w, answers (local_quote_leg keccak256 config w q));
  rs_stage c plan := via_client (λ config w, handle_stage keccak256 config w c plan);
  rs_author_direct d := via_client (λ _ w, handle_author_direct w d);
  rs_stage_cctp_completion c plan t := via_client (λ config w, handle_stage_cctp_completion keccak256 config w c plan t);
  rs_prepare a x := via_client (λ config w, answers (local_prepare keccak256 config w a x));
  rs_commit t := via_client (λ config w, answers (local_commit config w t));
  rs_inspect t := via_client (λ config _, answers (local_inspect config t));
  rs_release t := via_client (λ config _, answers (local_release config t));
  rs_command o i c t := via_client (λ config w, handle_command keccak256 abi_decode config w o i c t)
|}.

End client.
