(* ===== verification/CrossLocalSteps.v ===== *)
(** * What a chain service keeps

    The capital behind every preparation, over the durable holds: what each state of a
    preparation says of its hold, that a spent hold was spent in full, and that the requests of the service and everything else on the
    chain keep it, whatever statement fails. *)

From stdpp Require Import strings.
From S2P Require Import Prelude Commands U256 Reservation LedgerEngine LedgerInvariant LedgerStore LedgerService LedgerHolds CurveDecode Registry Fills CrossChain CrossStores CrossProxy CrossLocal.

#[local] Open Scope Z_scope.

(** ** Capital *)

(** The states of the hold behind a preparation: a failed write may leave the preparation one step behind it. *)
Definition hold_states (s : PreparationState.t) : list ReservationState :=
  match s with
  | PreparationState.Prepared => [Pending; Committed; Expired; Voided]
  | PreparationState.Committed => [Committed; Posted; Voided]
  | PreparationState.Executed => [Posted]
  | PreparationState.Released => [Voided]
  end.

Definition backs (d : gmap ReservationId Reservation) (p : Preparation) : Prop :=
  ∃ x, d !! pr_token p = Some x ∧ res_state x ∈ hold_states (pr_state p).

(** Sources the ledger accepts. *)
Definition sources_ok (ss : list ReservationSource) : Prop := amounts_ok ss ∧ ∀ a, demand_at a ss ≤ U256_MAX.

(** What the world of a request gives is of its type. *)
Record world_ok (w : World) : Prop := {
  wo_now : ∀ n, 0 ≤ w_now w n;
  wo_budgets : ∀ a x, w_budget_of w a = Ok x → is_u256 x;
  wo_budget_errors : ∀ a e, w_budget_of w a = Err e → e = BudgetSourceFailed;
  wo_routes : ∀ i o x r ss, w_routes w i o x = Some r → routed_sources (rt_legs r) = Ok ss → sources_ok ss
}.

Lemma quiet_world_ok : world_ok quiet_world.
Proof. split; try done. by intros a e [= <-]. Qed.

Section invariant.
Context {LSt PSt QSt SSt ESt : Type} `{HL : LedgerStore LSt} `{HLL : !LedgerStoreLaws LSt} `{HP : PreparationStore PSt} `{HPL : !PreparationStoreLaws PSt}
  `{HQ : LegQuoteStore QSt} `{HQL : !LegQuoteStoreLaws QSt} `{HT : StepStore SSt} `{HTL : !StepStoreLaws SSt} `{HE : Execution ESt} `{HEL : !ExecutionLaws ESt}.
Context (keccak256 : list Z → B256) (abi_decode : list Z → option (list Z)) (config : LocalConfig).
Abbreviation Chain := (ChainService LSt PSt QSt SSt ESt).
Implicit Types (s : Chain) (w : World) (t : PrepareToken) (p : Preparation).

Definition preps s : gmap PrepareToken Preparation := prep_view (ch_preparations s).
Definition bound_at s : gmap CrossChainOrderId AggregateQuoteId := bindings (step_view (ch_steps s)).
Definition capital s : gmap ReservationId Reservation := stored (ch_ledger s).

(** An identifier the service derives for its holds. *)
Definition is_token (r : ReservationId) : Prop := ∃ a role, r = preparation_token keccak256 a (lc_chain config) role.

Record chain_ok s : Prop := {
  co_ledger : service_ok (ch_ledger s);
  co_mirrors : mirrors (ch_ledger s);
  co_preps : prep_store_ok (ch_preparations s);
  co_quotes : quote_store_ok (ch_quotes s);
  co_steps : step_store_ok (ch_steps s);
  co_exec : exec_ok (ch_execution s);
  co_sources : ∀ i q, quote_view (ch_quotes s) !! i = Some q → sources_ok (lq_sources q);
  co_tokens : ∀ t p, preps s !! t = Some p → is_token t;
  co_capital : ∀ t p, preps s !! t = Some p → backs (capital s) p;
  co_unowned : ∀ t x, is_token t → preps s !! t = None → capital s !! t = Some x → res_state x ∈ [Pending; Expired];
  co_paid : paid_in_full is_token (ch_ledger s);
  co_worlds : Forall world_ok (ch_worlds s)
}.

Lemma filed s t p : chain_ok s → preps s !! t = Some p → pr_token p = t.
Proof. intros Hs. apply preps_filed, prep_view_ok, Hs. Qed.

(** ** Parts of the service *)

Lemma next_world_ok s : chain_ok s → world_ok (default quiet_world (head (ch_worlds s))) ∧ chain_ok (put_worlds s (tail (ch_worlds s))).
Proof.
  intros Hs. pose proof (co_worlds _ Hs) as Hw. split.
  - destruct Hw; [apply quiet_world_ok|done].
  - destruct Hs. split; try done. cbn. destruct Hw; [constructor|done].
Qed.

(** Nothing a preparation depends on has changed. *)
Definition keeps s s' : Prop := chain_ok s' ∧ preps s' = preps s ∧ bound_at s' = bound_at s.

Lemma keeps_refl s : chain_ok s → keeps s s.
Proof. done. Qed.

Lemma keeps_trans s1 s2 s3 : keeps s1 s2 → keeps s2 s3 → keeps s1 s3.
Proof. intros (_ & P1 & B1) (H & P2 & B2). split; [done|]. by rewrite P2, B2. Qed.

Lemma put_quotes_ok s x :
  chain_ok s → quote_store_ok x → (∀ i q, quote_view x !! i = Some q → sources_ok (lq_sources q)) → keeps s (put_quotes s x).
Proof. intros Hs Hx Hq. split; [|done]. destruct Hs. by split. Qed.

Lemma put_steps_ok s x : chain_ok s → step_store_ok x → chain_ok (put_steps s x).
Proof. intros Hs Hx. destruct Hs. by split. Qed.

Lemma put_execution_ok s x : chain_ok s → exec_ok x → keeps s (put_execution s x).
Proof. intros Hs Hx. split; [|done]. destruct Hs. by split. Qed.

Lemma put_preps_same s x : chain_ok s → prep_store_ok x → prep_view x = preps s → keeps s (put_preparations s x).
Proof.
  intros Hs Hx Hv. split; [|done]. destruct Hs. split; try done; intros t; unfold preps, capital; cbn; rewrite Hv; eauto.
Qed.

(** The ledger moved, and every hold of the service is still in a state its preparation allows. *)
Lemma put_ledger_ok s l :
  chain_ok s → service_ok l → mirrors l →
  (∀ t p, preps s !! t = Some p → backs (stored l) p) →
  (∀ t x, is_token t → preps s !! t = None → stored l !! t = Some x → res_state x ∈ [Pending; Expired]) →
  paid_in_full is_token l →
  keeps s (put_ledger s l).
Proof. intros Hs Hl Hm Hb Hu Hf. split; [|done]. destruct Hs. by split. Qed.

(** Only the hold [t] moved, between states its preparation allows. *)
Lemma put_ledger_move s l from to t p :
  chain_ok s → service_ok l → mirrors l → paid_in_full is_token l → preps s !! t = Some p →
  stored l = capital s ∨ stored l = durable_move from to t (capital s) → to ∈ hold_states (pr_state p) →
  keeps s (put_ledger s l).
Proof.
  intros Hs Hl Hm Hf Hp Hst Hto. pose proof (filed s t p Hs Hp) as Ht. apply put_ledger_ok; try done.
  - intros t' p' Hp'. pose proof (filed s t' p' Hs Hp') as Ht'. destruct (co_capital _ Hs t' p' Hp') as (x & Hx & Hstate).
    destruct Hst as [->| ->]; [by exists x|]. destruct (decide (t' = t)) as [->|Hne].
    + assert (p' = p) as -> by congruence. unfold backs. rewrite Ht in *. unfold durable_move. rewrite Hx. case_decide; [|by exists x].
      exists (with_state x to). by rewrite lookup_insert_eq.
    + exists x. rewrite Ht' in *. by rewrite durable_move_ne.
  - intros t' x Htok Hn Hx. assert (t' ≠ t) by congruence. apply (co_unowned _ Hs t' x Htok Hn). destruct Hst as [Hst|Hst]; rewrite Hst in Hx; [done|].
    by rewrite durable_move_ne in Hx.
Qed.

(** ** Writing a preparation *)

(** Its hold is where the new state wants it. *)
Lemma update_outcome s t p st :
  chain_ok s → preps s !! t = Some p → backs (capital s) (with_prep_state p st) →
  outcome (with_preparations (prep_update (with_prep_state p st))) (λ res s', chain_ok s' ∧ bound_at s' = bound_at s
    ∧ preps s' = match res with Ok _ => <[t := with_prep_state p st]> (preps s) | Err _ => preps s end) s.
Proof.
  intros Hs Hp Hb. pose proof (filed s t p Hs Hp) as Ht. apply outcome_zoom.
  eapply outcome_mono; [apply (prep_update_law _ p); [apply Hs|by cbn; rewrite Ht|done]|]. cbn [pr_token with_prep_state]. rewrite Ht.
  intros res x (Hx & Hv). destruct res as [u|e]; cbn [map_err].
  2: { destruct (put_preps_same s x Hs Hx Hv) as (? & ? & ?). done. }
  split; [|split; [done|exact Hv]]. pose proof Hs as [Hs1 Hs2 Hs3 Hs4 Hs5 Hs6 Hs7 Hs8 Hs9 Hs10 Hs11 Hs12]. split; try done; unfold preps, capital; cbn; rewrite Hv.
  - intros t' p'. intros [[<- _]|[_ Hp']]%lookup_insert_Some; [by apply (Hs8 t p)|by apply (Hs8 t' p')].
  - intros t' p'. intros [[<- <-]|[_ Hp']]%lookup_insert_Some; [done|by apply (Hs9 t' p')].
  - intros t' y Htok [Hn Hne]%lookup_insert_None. by apply Hs10.
Qed.

End invariant.

(** * What each request does to a chain service

    Each operation of the service keeps its invariant, whatever statement fails, and moves the
    preparations only as the proxy expects. *)

Section steps.
Context {LSt PSt QSt SSt ESt : Type} `{HL : LedgerStore LSt} `{HLL : !LedgerStoreLaws LSt} `{HP : PreparationStore PSt} `{HPL : !PreparationStoreLaws PSt}
  `{HQ : LegQuoteStore QSt} `{HQL : !LegQuoteStoreLaws QSt} `{HT : StepStore SSt} `{HTL : !StepStoreLaws SSt} `{HE : Execution ESt} `{HEL : !ExecutionLaws ESt}.
Context (keccak256 : list Z → B256) (abi_decode : list Z → option (list Z)) (config : LocalConfig).
Abbreviation Chain := (ChainService LSt PSt QSt SSt ESt).
Abbreviation chain_ok := (chain_ok keccak256 config).
Abbreviation keeps := (keeps keccak256 config).
Abbreviation is_token := (is_token keccak256 config).
Implicit Types (s : Chain) (w : World) (t : PrepareToken) (p : Preparation).

(** ** Quoting *)

Lemma sources_ok_nil : sources_ok [].
Proof. split; [constructor|]. intros a. change (0 ≤ U256_MAX). u256. Qed.

Lemma leg_quote_sources chain ttl w now q x :
  world_ok w → leg_quote keccak256 chain ttl (w_routes w) (w_head w) now q = Ok x → sources_ok (lq_sources x).
Proof.
  intros Hw. unfold leg_quote. destruct (negb _); [done|]. intros (routed & Hr & H)%bind_Ok. apply bind_Ok in H as (out & _ & H).
  apply bind_Ok in H as (ss & Hss & [= <-]). cbn. destruct routed as [r|]; [|injection Hss as <-; apply sources_ok_nil].
  destruct (needs_route q); [|done]. apply bind_Ok in Hr as (r' & Hr & [= <-]).
  destruct (w_routes w _ _ _) as [r0|] eqn:Hroute; [|done]. injection Hr as ->. by eapply wo_routes.
Qed.

Lemma quote_leg_outcome w q s : world_ok w → chain_ok s → outcome (local_quote_leg keccak256 config w q) (λ _ s', keeps s s') s.
Proof.
  intros Hw Hs. unfold local_quote_leg. destruct (negb _); [done|]. destruct (_ <=? _); [done|]. apply outcome_lift_bind.
  destruct (leg_quote _ _ _ _ _ _ _) as [x|e] eqn:Hx; cbn [map_err]; [|done]. apply leg_quote_sources in Hx; [|done].
  apply outcome_lift_bind. destruct (validate_leg _ _ _); [|done]. apply outcome_zoom.
  eapply outcome_mono; [apply quote_insert_law, Hs|]. intros res y (Hy & Hv & _). apply put_quotes_ok; [done..|].
  intros i q0. destruct Hv as [->|[_ ->]]; [apply Hs|]. intros [[_ <-]|[_ H]]%lookup_insert_Some; [done|by eapply Hs].
Qed.

(** ** Reading *)

Lemma issued_outcome x u d s :
  chain_ok s → outcome (issued_here x u d) (λ res s', keeps s s' ∧ (res = Ok tt → sources_ok (lq_sources x))) s.
Proof.
  intros Hs. unfold issued_here. apply outcome_bind, outcome_zoom. eapply outcome_mono; [apply quote_load_law, Hs|].
  intros res y (Hy & Hv & Hres). assert (Hk : keeps s (put_quotes s y)) by (apply put_quotes_ok; [done..|]; rewrite Hv; apply Hs).
  destruct res as [found|e]; cbn [map_err]; [|done]. apply outcome_lift_bind. destruct found as [issued|]; cbn [ok_or]; [|done].
  case_bool_decide as E; [|by apply outcome_fail]. apply outcome_ret. split; [done|]. intros _. rewrite <-E. eapply (co_sources _ _ s Hs).
  symmetry. by apply (Hres (Some issued)).
Qed.

Lemma load_owned_outcome t s :
  chain_ok s → outcome (load_owned config t) (λ res s', keeps s s' ∧ ∀ p, res = Ok p → preps s !! t = Some p ∧ pr_chain p = lc_chain config) s.
Proof.
  intros Hs. unfold load_owned. apply outcome_bind, outcome_zoom. eapply outcome_mono; [apply prep_load_law, Hs|].
  intros res y (Hy & Hv & Hres). assert (Hk : keeps s (put_preparations s y)) by (by apply put_preps_same).
  destruct res as [found|e]; cbn [map_err]; [|done]. apply outcome_lift_bind. destruct found as [p|]; cbn [ok_or]; [|done].
  destruct (Z.eqb_spec (pr_chain p) (lc_chain config)); cbn [negb]; [|by apply outcome_fail]. apply outcome_ret. split; [done|].
  intros p' [= <-]. split; [|done]. symmetry. by apply (Hres (Some p)).
Qed.

(** ** Preparing *)

Lemma hold_capital_outcome w a x t s :
  world_ok w → chain_ok s → sources_ok (lq_sources x) → is_token t →
  outcome (hold_capital w a x t) (λ res s', keeps s s' ∧ (res = Ok tt → is_Some (capital s' !! t))) s.
Proof.
  intros Hw Hs Hss Ht. unfold hold_capital. apply outcome_attempt, outcome_zoom.
  eapply outcome_mono.
  { eapply (outcome_and _ _ (λ _, paid_in_full is_token)); [apply reserve_mirrors; [apply Hs|apply Hs|apply Hw|apply Hw|apply Hw|unfold u64_saturating_sub; lia|exact Hss]|].
    apply (reserve_paid is_token); [apply Hw|unfold u64_saturating_sub; lia|apply Hs|apply Hs]. }
  intros res l [(Hl & Hm & Hst & Hheld) Hpaid]. assert (Hk : keeps s (put_ledger s l)).
  { apply put_ledger_ok; try done.
    - intros t' p Hp. destruct (co_capital _ _ _ Hs t' p Hp) as (y & Hy & Hys). destruct Hst as [->|(z & Hz & Hfree & ->)]; [by exists y|].
      destruct (decide (pr_token p = t)) as [E|Hne]; [|exists y; by rewrite lookup_insert_ne].
      rewrite E in Hy. unfold capital in Hy. destruct Hfree as [Hn|Hz']; [congruence|]. exists y. rewrite E. assert (y = z) as -> by congruence.
      by rewrite lookup_insert_eq.
    - intros t' y Htok Hn Hy. destruct Hst as [Hst|(z & Hz & _ & Hst)]; rewrite Hst in Hy; [by eapply co_unowned|].
      apply lookup_insert_Some in Hy as [[<- <-]|[_ Hy]]; [rewrite Hz; set_solver|by eapply co_unowned]. }
  destruct res as [[]|e]; cbn [map_err]; [apply outcome_ret; split; [done|]; intros _; apply Hheld; by left|].
  repeat (case_match; try by (apply outcome_fail; split)). apply outcome_ret. split; [done|]. intros _. apply Hheld. right. eauto.
Qed.

Lemma insert_prepared_outcome a r e s :
  chain_ok s → is_Some (capital s !! preparation_token keccak256 a (lc_chain config) r) →
  let p := mk_preparation (preparation_token keccak256 a (lc_chain config) r) a r (lc_chain config) PreparationState.Prepared e in
  outcome (with_preparations (prep_insert p)) (λ res s', chain_ok s' ∧ bound_at s' = bound_at s
    ∧ (preps s' = preps s ∨ preps s !! pr_token p = None ∧ preps s' = <[pr_token p := p]> (preps s))
    ∧ ∀ p', res = Ok p' → p' = p ∧ preps s' !! pr_token p = Some p) s.
Proof.
  intros Hs [x Hx] p. apply outcome_zoom. eapply outcome_mono; [apply prep_insert_law, Hs|]. intros res y (Hy & Hv & Hres).
  assert (Hok : chain_ok (put_preparations s y)).
  { destruct Hv as [Hv|[Hn Hv]]; [by apply put_preps_same|]. destruct Hs as [Hs1 Hs2 Hs3 Hs4 Hs5 Hs6 Hs7 Hs8 Hs9 Hs10 Hs11 Hs12].
    split; try done; unfold preps, capital; cbn; rewrite Hv.
    - intros t' p'. intros [[<- _]|[_ Hp']]%lookup_insert_Some; [by eexists _, _|by apply (Hs8 t' p')].
    - intros t' p'. intros [[<- <-]|[_ Hp']]%lookup_insert_Some; [|by apply (Hs9 t' p')]. exists x. split; [done|].
      assert (Hst : res_state x ∈ [Pending; Expired]) by (eapply Hs10; [by eexists _, _|exact Hn|exact Hx]). cbn. set_solver.
    - intros t' z Htok [Hn' _]%lookup_insert_None. by apply Hs10. }
  split; [done|]. split; [done|]. split; [exact Hv|]. intros p' Hp'. destruct res as [p1|e1]; [|done]. injection Hp' as ->. by apply Hres.
Qed.

(** A preparation of the quote and role is added, or none; when the answer is one it is stored. *)
Definition prepared_as a x s (res : result LocalError Preparation) s' : Prop :=
  chain_ok s' ∧ bound_at s' = bound_at s
  ∧ (preps s' = preps s
     ∨ ∃ p, preps s !! pr_token p = None ∧ pr_quote p = a ∧ pr_role p = lq_role x ∧ pr_state p = PreparationState.Prepared
         ∧ preps s' = <[pr_token p := p]> (preps s))
  ∧ ∀ p, res = Ok p → preps s' !! pr_token p = Some p ∧ pr_quote p = a ∧ pr_role p = lq_role x.

Lemma prepare_outcome w a x s : world_ok w → chain_ok s → outcome (local_prepare keccak256 config w a x) (prepared_as a x s) s.
Proof.
  intros Hw Hs. unfold local_prepare. 
  assert (Hrefused : ∀ s' e, chain_ok s' → preps s' = preps s → bound_at s' = bound_at s → prepared_as a x s (Err e) s').
  { intros s' e Hs' Hp Hb. split; [done|]. split; [done|]. split; [by left|by intros ? [=]]. }
  do 3 (apply outcome_if; intros _; [by apply outcome_fail, Hrefused|]). apply outcome_bind. eapply outcome_mono; [by apply issued_outcome|]. intros res s1 [(Hs1 & Hp1 & Hb1) Hss].
  destruct res as [[]|e]; [|by apply Hrefused]. specialize (Hss eq_refl). apply outcome_bind, outcome_zoom.
  eapply outcome_mono; [apply prep_load_for_quote_law, Hs1|]. intros res y (Hy & Hv & Hfound).
  destruct (put_preps_same _ _ s1 y Hs1 Hy Hv) as (Hs2 & Hp2 & Hb2). set (s2 := put_preparations s1 y) in *.
  destruct res as [found|e]; cbn [map_err]; [|apply Hrefused; [done|by rewrite Hp2|by rewrite Hb2]]. specialize (Hfound _ eq_refl). destruct found as [p|].
  { apply outcome_ret. unfold prepared_as. rewrite Hb2, Hp2, Hp1, Hb1. split; [done|]. split; [done|]. split; [by left|]. intros p' [= <-]. rewrite <-Hp1. exact Hfound. }
  set (t := preparation_token _ _ _ _). apply outcome_bind. eapply outcome_mono; [apply hold_capital_outcome; [done..|by eexists _, _]|].
  intros res s3 [(Hs3 & Hp3 & Hb3) Hheld]. assert (Hp03 : preps s3 = preps s) by (by rewrite Hp3, Hp2).
  assert (Hb03 : bound_at s3 = bound_at s) by (by rewrite Hb3, Hb2). destruct res as [[]|e]; [|by apply Hrefused].
  eapply outcome_mono; [by apply insert_prepared_outcome, Hheld|]. intros res s4 (Hs4 & Hb4 & Hv4 & Hres). unfold prepared_as. rewrite Hb4, Hb03.
  split; [done|]. split; [done|]. split.
  - destruct Hv4 as [Hv4|[Hn Hv4]]; [left; by rewrite Hv4, Hp03|right]. rewrite Hp03 in Hv4. eexists. split; [rewrite <-Hp03; exact Hn|]. done.
  - intros p ->. destruct (Hres p eq_refl) as [-> Hp]. done.
Qed.

(** ** Moving a preparation *)

(** A command on the hold of [t], between states its preparation allows: the invariant holds, and the answer tells the hold's state. *)
Lemma with_ledger_moves (c : cmd (LedgerService LSt) SolventError unit) from to t p s :
  chain_ok s → preps s !! t = Some p → to ∈ hold_states (pr_state p) →
  service_ok (c (ch_ledger s)).2 → paid_in_full is_token (c (ch_ledger s)).2 → outcome c (moves_hold from to t (ch_ledger s)) (ch_ledger s) →
  outcome (with_ledger c) (λ res s', keeps s s'
    ∧ (∀ u, res = Ok u → ∃ x, capital s' !! t = Some x ∧ res_state x = to)
    ∧ ∀ i found e, res = Err (LocalLedger (LedgerRefused (WrongState i found e))) → ∃ x, capital s' !! t = Some x ∧ res_state x = found) s.
Proof.
  intros Hs Hp Hto Hok Hfull Hc. apply outcome_zoom. unfold outcome in *. destruct (c (ch_ledger s)) as [res l]. cbn in *. destruct Hc as [Hm Hst Hu Hw].
  split; [by eapply put_ledger_move|]. destruct res as [u|e]; cbn; (split; [intros u' [=]; by eapply Hu|]); [by intros ??? [=]|].
  intros i found e' [= ->]. by eapply Hw.
Qed.

Lemma free_capital_outcome t p s :
  chain_ok s → preps s !! t = Some p → Voided ∈ hold_states (pr_state p) →
  outcome (free_capital t) (λ res s', keeps s s' ∧ (res = Ok tt → ∃ x, capital s' !! t = Some x ∧ res_state x = Voided)) s.
Proof.
  intros Hs Hp Hv. unfold free_capital. apply outcome_attempt.
  eapply outcome_mono; [apply (with_ledger_moves _ [Pending; Committed] Voided t p); try done|].
  - apply (service_exec_ok (SVoid t)); [apply Hs|done].
  - apply (service_exec_paid _ (SVoid t)); [apply Hs|done|done|apply Hs].
  - apply void_moves_hold, Hs.
  - intros res s' (Hk & Hok & Hw). destruct res as [[]|e]; [apply outcome_ret; eauto|].
    repeat (case_match; try by (apply outcome_fail; split)). apply outcome_ret. split; [done|]. intros _. subst. by eapply Hw.
Qed.

Lemma full_fills_ok ss : amounts_ok ss → fills_ok ss (src_amount <$> ss).
Proof. induction 1 as [|x ss [Hx _] _ IH]; constructor; [lia|done]. Qed.

Lemma settlement_sources_full l t ss :
  service_ok l → settlement_reservation_sources l t = Some ss →
  Forall is_u256 (src_amount <$> ss) ∧ ∀ x, holds l !! t = Some x → fills_ok (res_sources x) (src_amount <$> ss).
Proof.
  intros Hl. unfold settlement_reservation_sources, reservation, holds. destruct (reservations (svc_ledger l) !! t) as [x|] eqn:Hx; [|done]. cbn.
  case_decide; [|done]. intros [= <-]. assert (Ha : amounts_ok (res_sources x)) by (eapply ok_amounts; [apply Hl|done]).
  split; [by apply Forall_fmap|]. intros y [= <-]. by apply full_fills_ok.
Qed.

(** The sources a settlement reads are those of the durable hold. *)
Lemma settlement_sources_held l t ss x :
  mirrors l → settlement_reservation_sources l t = Some ss → stored l !! t = Some x → (src_amount <$> ss) = src_amount <$> res_sources x.
Proof.
  intros Hm. unfold settlement_reservation_sources, reservation. destruct (reservations (svc_ledger l) !! t) as [y|] eqn:Hy; [|done]. cbn.
  case_decide; [|done]. intros [= <-]. rewrite (Hm t y Hy). by intros [= <-].
Qed.

Lemma spend_capital_outcome t p s :
  chain_ok s → preps s !! t = Some p → Posted ∈ hold_states (pr_state p) →
  outcome (spend_capital t) (λ res s', keeps s s' ∧ (res = Ok tt → ∃ x, capital s' !! t = Some x ∧ res_state x = Posted)) s.
Proof.
  intros Hs Hp Hv. unfold spend_capital. apply outcome_gets, outcome_lift_bind.
  destruct (settlement_reservation_sources _ _) as [ss|] eqn:Hss; cbn [ok_or]; [|done].
  destruct (settlement_sources_full _ _ _ (co_ledger _ _ _ Hs) Hss) as [Hu Hfit]. apply outcome_attempt.
  eapply outcome_mono; [apply (with_ledger_moves _ [Pending; Committed] Posted t p); try done|].
  - apply (service_exec_ok (SPost t (src_amount <$> ss))); [apply Hs|]. split; [done|]. intros x Hx _. by apply Hfit.
  - apply post_paid; [|apply Hs]. intros x _ Hx. by apply (settlement_sources_held _ _ _ _ (co_mirrors _ _ _ Hs) Hss).
  - apply post_moves_hold; [apply Hs|]. intros x Hx _. by apply Hfit.
  - intros res s' (Hk & Hok & Hw). destruct res as [[]|e]; [apply outcome_ret; eauto|].
    repeat (case_match; try by (apply outcome_fail; split)). apply outcome_ret. split; [done|]. intros _. subst. by eapply Hw.
Qed.

(** The preparation moves from one of [from] to [to], or stays; when the answer is one it moved. *)
Definition moved_as (from : list PreparationState.t) (to : PreparationState.t) t s (res : result LocalError Preparation) s' : Prop :=
  chain_ok s' ∧ bound_at s' = bound_at s ∧ prep_moves from to t (preps s) (preps s')
  ∧ ∀ p, res = Ok p → preps s' !! t = Some p ∧ pr_state p = to.

Lemma moved_refused from to t s s' e : keeps s s' → moved_as from to t s (Err e) s'.
Proof. intros (Hs & Hp & Hb). split; [done|]. split; [done|]. split; [by left|by intros ? [=]]. Qed.

(** The write that ends a move. *)
Lemma move_written from to t p s s' :
  keeps s s' → preps s !! t = Some p → pr_state p ∈ from →
  (∃ x, capital s' !! t = Some x ∧ res_state x ∈ hold_states to) →
  outcome (_ ← with_preparations (prep_update (with_prep_state p to)); mret (with_prep_state p to)) (moved_as from to t s) s'.
Proof.
  intros (Hs' & Hp' & Hb') Hp Hf (x & Hx & Hto). rewrite <-Hp' in Hp. apply outcome_bind. pose proof (filed _ _ s' t p Hs' Hp) as Ht.
  eapply outcome_mono; [apply (update_outcome _ _ s' t p to Hs' Hp); exists x; cbn; by rewrite Ht|].
  intros [u|e] s2 (Hs2 & Hb2 & Hp2); [apply outcome_ret|]; (split; [done|]); (split; [by rewrite Hb2|]); rewrite Hp2, Hp'.
  - split; [right; exists p; by rewrite <-Hp'|]. intros p' [= <-]. by rewrite lookup_insert_eq.
  - split; [by left|by intros ? [=]].
Qed.

Lemma commit_outcome w t s :
  chain_ok s → outcome (local_commit config w t) (moved_as [PreparationState.Prepared; PreparationState.Committed] PreparationState.Committed t s) s.
Proof.
  intros Hs. unfold local_commit. apply outcome_bind. eapply outcome_mono; [by apply load_owned_outcome|]. intros res s1 [Hk1 Hp].
  destruct res as [p|e]; [|by apply moved_refused]. destruct (Hp p eq_refl) as [Hp1 _]. destruct Hk1 as (Hs1 & Hps1 & Hb1).
  apply outcome_if; intros _; [by apply outcome_fail, moved_refused|]. unfold moved. apply outcome_lift_bind. unfold Preparation_commit.
  destruct (decide (pr_state p ∈ [PreparationState.Prepared; PreparationState.Committed])) as [Hin|Hout].
  2: { destruct (pr_state p); try (by destruct Hout; set_solver); by apply moved_refused. }
  assert (Hgo : outcome (_ ← with_ledger (LedgerService.commit t); _ ← with_preparations (prep_update (with_prep_state p PreparationState.Committed));
    mret (with_prep_state p PreparationState.Committed)) (moved_as [PreparationState.Prepared; PreparationState.Committed] PreparationState.Committed t s) s1).
  { apply outcome_bind. eapply outcome_mono; [apply (with_ledger_moves _ [Pending] Committed t p); try done|].
    - by rewrite Hps1.
    - destruct (pr_state p); set_solver.
    - apply (service_exec_ok (SCommit t)); [apply Hs1|done].
    - apply (service_exec_paid _ (SCommit t)); [apply Hs1|done|done|apply Hs1].
    - apply commit_moves_hold, Hs1.
    - intros res s2 (Hk2 & Hok & _). assert (Hk : keeps s s2) by (by eapply keeps_trans). destruct res as [u|e]; [|by apply moved_refused].
      eapply move_written; [done..|]. destruct (Hok u eq_refl) as (x & Hx & Hst). exists x. rewrite Hst. split; [done|]. cbn. set_solver. }
  destruct (pr_state p); try exact Hgo; by exfalso; set_solver.
Qed.

(** Release and execution are one shape: the capital moves unless the preparation is there already, then the preparation. *)
Lemma settle_move_outcome (mv : Preparation → result CrossChainInvariantError Preparation) (act : cmd Chain LocalError unit) from to t s :
  chain_ok s → (∀ p p', mv p = Ok p' → p' = with_prep_state p to ∧ pr_state p ∈ from) →
  (∀ p s1, chain_ok s1 → preps s1 !! t = Some p → pr_state p ∈ from → pr_state p ≠ to →
    outcome act (λ res s', keeps s1 s' ∧ (res = Ok tt → ∃ x, capital s' !! t = Some x ∧ res_state x ∈ hold_states to)) s1) →
  outcome (p ← load_owned config t; p' ← moved (mv p); _ ← (if bool_decide (pr_state p = to) then mret tt else act);
    _ ← with_preparations (prep_update p'); mret p') (moved_as from to t s) s.
Proof.
  intros Hs Hmv Hact. apply outcome_bind. eapply outcome_mono; [by apply load_owned_outcome|]. intros res s1 [Hk1 Hp].
  destruct res as [p|e]; [|by apply moved_refused]. destruct (Hp p eq_refl) as [Hp1 _]. pose proof Hk1 as (Hs1 & Hps1 & Hb1).
  unfold moved. apply outcome_lift_bind. rewrite <-Hps1 in Hp1. destruct (mv p) as [p'|e] eqn:Hrel; cbn [map_err]; [|by apply moved_refused].
  apply Hmv in Hrel as [-> Hin]. case_bool_decide as Hst.
  - apply outcome_bind, outcome_ret. eapply move_written; [done|by rewrite <-Hps1|done|]. destruct (co_capital _ _ _ Hs1 t p Hp1) as (x & Hx & Hxs).
    rewrite (filed _ _ s1 t p Hs1 Hp1) in Hx. exists x. split; [done|]. by rewrite Hst in Hxs.
  - apply outcome_bind. eapply outcome_mono; [by apply (Hact p)|]. intros res s2 [Hk2 Hv]. assert (Hk : keeps s s2) by (by eapply keeps_trans).
    destruct res as [[]|e]; [|by apply moved_refused]. eapply move_written; [done|by rewrite <-Hps1|done|by apply Hv].
Qed.

Lemma local_release_outcome t s :
  chain_ok s → outcome (local_release config t)
    (moved_as [PreparationState.Prepared; PreparationState.Committed; PreparationState.Released] PreparationState.Released t s) s.
Proof.
  intros Hs. apply settle_move_outcome; [done| |].
  - intros p p' H. unfold Preparation_release in H. destruct (pr_state p); try done; injection H as <-; split; try done; set_solver.
  - intros p s1 Hs1 Hp Hin Hne. eapply outcome_mono; [apply (free_capital_outcome t p); try done; destruct (pr_state p); set_solver|].
    intros res s2 [Hk Hv]. split; [done|]. intros Hr. destruct (Hv Hr) as (x & Hx & Hxs). exists x. rewrite Hxs. split; [done|]. cbn. set_solver.
Qed.

Lemma mark_executed_outcome t s :
  chain_ok s → outcome (mark_executed config t) (moved_as [PreparationState.Committed; PreparationState.Executed] PreparationState.Executed t s) s.
Proof.
  intros Hs. apply settle_move_outcome; [done| |].
  - intros p p' H. unfold Preparation_execute in H. destruct (pr_state p); try done; injection H as <-; split; try done; set_solver.
  - intros p s1 Hs1 Hp Hin Hne. eapply outcome_mono; [apply (spend_capital_outcome t p); try done; destruct (pr_state p); set_solver|].
    intros res s2 [Hk Hv]. split; [done|]. intros Hr. destruct (Hv Hr) as (x & Hx & Hxs). exists x. rewrite Hxs. split; [done|]. cbn. set_solver.
Qed.

(** ** Staged calls *)

(** Staging binds the order to the plan's quote, or changes nothing. *)
Definition staged_as {E} (o : CrossChainOrderId) (a : AggregateQuoteId) s (res : result E unit) s' : Prop :=
  chain_ok s' ∧ preps s' = preps s ∧ bound_at s ⊆ bound_at s' ∧ (res = Ok tt → bound_at s' !! o = Some a).

Lemma staged_refused {E} o a s s' (e : E) : keeps s s' → staged_as o a s (Err e) s'.
Proof. intros (Hs & Hp & Hb). split; [done|]. split; [done|]. split; [by rewrite Hb|done]. Qed.

Lemma stage_validated_outcome w c plan s :
  chain_ok s → outcome (stage_validated config w c plan) (staged_as (vc_order c) (cp_aggregate plan) s) s.
Proof.
  intros Hs. unfold stage_validated. apply outcome_if; intros _; [by apply outcome_fail, staged_refused|]. apply outcome_lift_bind.
  destruct (check_steps _ _ _ _); [|by apply staged_refused]. apply outcome_if; intros _; [by apply outcome_fail, staged_refused|].
  apply outcome_lift_bind. destruct (w_validator w) as [v|]; cbn [ok_or]; [|by apply staged_refused]. apply outcome_lift_bind.
  destruct (v c plan); cbn [map_err]; [|by apply staged_refused]. apply outcome_attempt, outcome_zoom.
  eapply outcome_mono; [apply step_stage_law, Hs|]. intros res x [Hx Hres]. pose proof (put_steps_ok _ _ s x Hs Hx) as Hs'.
  destruct res as [u|e]; cbn [map_err].
  - apply outcome_ret. destruct Hres as (Hb & Hsub & _). split; [done|]. split; [done|]. unfold bound_at. cbn.
    split; [done|]. intros _. by rewrite Hb, lookup_insert_eq.
  - assert (Hk : keeps s (put_steps s x)) by (split; [done|]; split; [done|]; unfold bound_at; cbn; by rewrite Hres).
    destruct e; by apply outcome_fail, staged_refused.
Qed.

End steps.
