(* ===== verification/CrossLocalRemote.v ===== *)
(** * The chain service keeps the proxy's contract

    The handlers of the private interface, behind a client whose requests and answers may be
    lost, discharge the laws the proxy relies on. *)

From stdpp Require Import strings.
From S2P Require Import Prelude Commands U256 Reservation LedgerEngine LedgerInvariant LedgerStore LedgerService LedgerHolds CurveDecode Registry Fills CrossChain CrossStores CrossProxy CrossLocal CrossLocalSteps.

#[local] Open Scope Z_scope.

Section handlers.
Context {LSt PSt QSt SSt ESt : Type} `{HL : LedgerStore LSt} `{HLL : !LedgerStoreLaws LSt} `{HP : PreparationStore PSt} `{HPL : !PreparationStoreLaws PSt}
  `{HQ : LegQuoteStore QSt} `{HQL : !LegQuoteStoreLaws QSt} `{HT : StepStore SSt} `{HTL : !StepStoreLaws SSt} `{HE : Execution ESt} `{HEL : !ExecutionLaws ESt}.
Context (keccak256 : list Z → B256) (abi_decode : list Z → option (list Z)) (config : LocalConfig).
Abbreviation Chain := (ChainService LSt PSt QSt SSt ESt).
Abbreviation chain_ok := (chain_ok keccak256 config).
Abbreviation keeps := (keeps keccak256 config).
Implicit Types (s : Chain) (w : World) (t : PrepareToken) (p : Preparation).

Lemma outcome_answers {A} (c : cmd Chain LocalError A) (Q : result StatusCode A → Chain → Prop) s :
  outcome c (λ r s', Q (map_err internal_error r) s') s → outcome (answers c) Q s.
Proof. unfold outcome, answers. by destruct (c s). Qed.

(** ** Staging *)

Lemma stage_context_outcome w c s : chain_ok s → outcome (validate_stage_context keccak256 config w c) (λ _ s', keeps s s') s.
Proof.
  intros Hs. unfold validate_stage_context. apply outcome_lift_bind. destruct (validate_aggregate_binding _ _ _); cbn [map_err]; [|done].
  apply outcome_if; intros _; [by apply outcome_fail|]. eapply outcome_mono; [by apply issued_outcome|]. by intros res s' [Hk _].
Qed.

(** What is staged after reads that changed nothing. *)
Lemma staged_after {E} o a s s1 (r : result E unit) s' : keeps s s1 → staged_as keccak256 config o a s1 r s' → staged_as keccak256 config o a s r s'.
Proof. intros (_ & Hp & Hb) (Hs' & Hp' & Hb' & Hr). split; [done|]. split; [by rewrite <-Hp|]. split; [by rewrite <-Hb|exact Hr]. Qed.

Lemma staged_answer {E F} (f : E → F) o a s (r : result E unit) s' :
  staged_as keccak256 config o a s r s' → staged_as keccak256 config o a s (map_err f r) s'.
Proof. intros (Hs' & Hp' & Hb' & Hr). split; [done|]. split; [done|]. split; [done|]. destruct r as [[]|e]; [intros _; by apply Hr|by intros [=]]. Qed.

Lemma handle_stage_outcome w c plan s :
  chain_ok s → outcome (handle_stage keccak256 config w c plan) (staged_as keccak256 config (vc_order c) (cp_aggregate plan) s) s.
Proof.
  intros Hs. unfold handle_stage. apply outcome_bind, outcome_answers. eapply outcome_mono; [by apply stage_context_outcome|].
  intros res s1 Hk. destruct res as [u|e]; cbn [map_err]; [|by apply staged_refused]. apply outcome_answers. unfold steps_stage.
  apply outcome_if; intros _; [by apply outcome_fail, staged_refused|]. eapply outcome_mono; [apply stage_validated_outcome, Hk|].
  intros res s' H. apply staged_answer. by eapply staged_after.
Qed.

Lemma handle_stage_cctp_outcome w c plan t s :
  chain_ok s → outcome (handle_stage_cctp_completion keccak256 config w c plan t) (λ _ s', chain_ok s' ∧ preps s' = preps s ∧ bound_at s ⊆ bound_at s') s.
Proof.
  intros Hs. assert (Hd : ∀ s', keeps s s' → chain_ok s' ∧ preps s' = preps s ∧ bound_at s ⊆ bound_at s') by (intros s' (? & ? & ->); done).
  unfold handle_stage_cctp_completion. apply outcome_bind, outcome_answers. eapply outcome_mono; [by apply stage_context_outcome|].
  intros res s1 Hk1. destruct res as [u|e]; cbn [map_err]; [|by apply Hd].
  apply outcome_bind, outcome_answers. eapply outcome_mono; [apply load_owned_outcome, Hk1|]. intros res s2 [Hk2 _].
  assert (Hk : keeps s s2) by (by eapply keeps_trans). destruct res as [p|e]; cbn [map_err]; [|by apply Hd].
  apply outcome_answers. unfold steps_stage_cctp_completion. destruct (cp_steps plan) as [|x [|]]; [by apply outcome_fail, Hd| |by apply outcome_fail, Hd].
  apply outcome_if; intros _; [by apply outcome_fail, Hd|]. eapply outcome_mono; [apply stage_validated_outcome, Hk|].
  intros res s' H. by destruct (staged_after _ _ _ _ _ _ Hk H) as (? & ? & ? & _).
Qed.

(** ** Commands *)

Lemma with_execution_keeps {A} (c : cmd ESt ExecutionError A) s :
  chain_ok s → (∀ e, exec_ok e → outcome c (λ _ e', exec_ok e') e) → outcome (with_execution c) (λ _ s', keeps s s') s.
Proof.
  intros Hs Hc. apply outcome_zoom. eapply outcome_mono; [apply Hc, Hs|]. intros res x Hx. by apply put_execution_ok.
Qed.

Lemma exec_status_ok i e : exec_ok e → outcome (exec_status i) (λ _ e', exec_ok e') e.
Proof. intros He. eapply outcome_mono; [by apply status_law|]. by intros ?? [? _]. Qed.

Lemma submit_step_outcome fill i s : chain_ok s → outcome (submit_step fill i) (λ _ s', keeps s s') s.
Proof.
  intros Hs. unfold submit_step. apply outcome_bind. eapply outcome_mono; [apply with_execution_keeps; [done|apply exec_status_ok]|].
  intros res s1 Hk1. destruct res as [[st|]|e]; [done| |done]. apply outcome_bind.
  eapply outcome_mono; [apply with_execution_keeps; [apply Hk1|]; intros e He; eapply outcome_mono; [by apply simulate_law|by intros ?? [? _]]|].
  intros res s2 Hk2. assert (Hk : keeps s s2) by (by eapply keeps_trans). destruct res as [[|reason]|e]; [|done|done]. apply outcome_bind.
  eapply outcome_mono; [apply with_execution_keeps; [apply Hk|]; intros e He; eapply outcome_mono; [by apply submit_law|by intros ?? [? _]]|].
  intros res s3 Hk3. assert (keeps s s3) by (by eapply keeps_trans). by destruct res.
Qed.

(** A command that answers was authorized: its hold is that of the order's quote and of the command's role. *)
Lemma steps_command_outcome w o i c p s :
  chain_ok s → outcome (steps_command keccak256 abi_decode config w o i c p) (λ res s', keeps s s' ∧ ∀ g, res = Ok g →
    bound_at s !! o = Some (pr_quote p) ∧ pr_role p = command_role c ∧ state_authorizes c (pr_state p) = true) s.
Proof.
  intros Hs. unfold steps_command. apply outcome_if; intros _; [by apply outcome_fail|]. apply outcome_bind, outcome_zoom.
  eapply outcome_mono; [apply step_aggregate_law, Hs|]. intros res x (Hx & Hv & Hres).
  assert (Hk1 : keeps s (put_steps s x)) by (split; [by apply put_steps_ok|]; split; [done|]; unfold bound_at; cbn; by rewrite Hv).
  destruct res as [found|e]; cbn [map_err]; [|done]. specialize (Hres _ eq_refl). apply outcome_lift_bind.
  destruct found as [a|]; cbn [ok_or]; [|done]. apply outcome_if; intros Hauth; [by apply outcome_fail|].
  assert (Hgo : bound_at s !! o = Some (pr_quote p) ∧ pr_role p = command_role c ∧ state_authorizes c (pr_state p) = true).
  { repeat (apply orb_false_elim in Hauth as [Hauth ?]). rewrite ?negb_false_iff in *. repeat match goal with H : negb _ = false |- _ => apply negb_false_iff in H end.
    assert (pr_quote p = a) as -> by (by apply Z.eqb_eq). split; [|split; [by eapply bool_decide_eq_true_1|done]].
    destruct (staged (step_view (ch_steps s)) !! (o, c)) as [[a' y]|] eqn:Hst; [|done]. injection Hres as ->.
    by apply (staged_bound _ (step_view_ok _ (co_steps _ _ _ Hs)) o c a' y). }
  set (s1 := put_steps s x) in *. apply outcome_bind, outcome_zoom. eapply outcome_mono; [apply step_load_law; apply Hk1|]. intros res y (Hy & Hv2 & _).
  assert (Hk2 : keeps s (put_steps s1 y)).
  { eapply keeps_trans; [exact Hk1|]. split; [apply put_steps_ok; [apply Hk1|done]|]. split; [done|]. unfold bound_at. cbn. by rewrite Hv2. }
  set (s2 := put_steps s1 y) in *. destruct res as [found|e]; cbn [map_err]; [|done]. apply outcome_lift_bind. destruct found as [z|]; cbn [ok_or]; [|done].
  apply outcome_lift_bind. destruct (match w_fee w with Some _ => _ | None => _ end) as [z'|e]; [|done].
  apply outcome_bind. eapply outcome_mono; [apply submit_step_outcome, Hk2|]. intros res s3 Hk3.
  assert (Hk03 : keeps s s3) by (by eapply keeps_trans). destruct res as [[reason|]|e]; [done| |done]. apply outcome_bind.
  eapply outcome_mono; [apply with_execution_keeps; [apply Hk03|]; intros e He; eapply outcome_mono; [by apply exec_tick_law|by intros ?? [? _]]|].
  intros res s4 Hk4. assert (Hk04 : keeps s s4) by (by eapply keeps_trans). destruct res as [u|e]; [|done]. apply outcome_bind.
  eapply outcome_mono; [apply with_execution_keeps; [apply Hk04|apply exec_status_ok]|]. intros res s5 Hk5.
  assert (keeps s s5) by (by eapply keeps_trans). by destruct res.
Qed.

Definition commanded_as o c t s (r : result StatusCode RemoteProgress) s' : Prop :=
  chain_ok s' ∧ bound_at s' = bound_at s
  ∧ (preps s' = preps s
     ∨ spends c = true ∧ (∀ f, r ≠ Ok (ProgressFailed f)) ∧ r ≠ Ok ProgressPending
       ∧ ∃ p, preps s !! t = Some p ∧ pr_state p = PreparationState.Committed ∧ pr_role p = command_role c
         ∧ bound_at s !! o = Some (pr_quote p) ∧ preps s' = <[t := with_prep_state p PreparationState.Executed]> (preps s))
  ∧ ∀ e, r = Ok (ProgressFinalized e) → ∃ p, preps s' !! t = Some p ∧ pr_state p = PreparationState.Executed.

Lemma commanded_kept o c t s s' r : keeps s s' → (∀ e, r ≠ Ok (ProgressFinalized e)) → commanded_as o c t s r s'.
Proof. intros (Hs & Hp & Hb) Hr. split; [done|]. split; [done|]. split; [by left|]. intros e He. by apply Hr in He. Qed.

(** Spending the capital after the call is final. *)
Lemma finalized_outcome o c t e p s s1 :
  keeps s s1 → preps s !! t = Some p → bound_at s !! o = Some (pr_quote p) → pr_role p = command_role c → spends c = true →
  outcome (_ ← answers (mark_executed config t); mret (ProgressFinalized e)) (commanded_as o c t s) s1.
Proof.
  intros (Hs1 & Hp1 & Hb1) Hp Hb Hr Hc. apply outcome_bind, outcome_answers. eapply outcome_mono; [by apply mark_executed_outcome|].
  intros res s2 (Hs2 & Hb2 & Hmv & Hok). rewrite Hp1 in Hmv.
  assert (Hall : ∀ r, (∀ f, r ≠ Ok (ProgressFailed f)) → r ≠ Ok ProgressPending →
    (∀ e', r = Ok (ProgressFinalized e') → ∃ p', preps s2 !! t = Some p' ∧ pr_state p' = PreparationState.Executed) → commanded_as o c t s r s2).
  { intros r Hf Hpend Hfin. split; [done|]. split; [by rewrite Hb2|]. split; [|done]. destruct Hmv as [->|(p' & Hp' & Hin & Hset)]; [by left|].
    assert (p' = p) as -> by congruence. apply elem_of_cons in Hin as [Hst|Hst]; [|left].
    - right. split; [done|]. split; [done|]. split; [done|]. by exists p.
    - apply list_elem_of_singleton in Hst. rewrite Hset. apply insert_id. rewrite Hp'. f_equal. rewrite <-Hst. by destruct p. }
  destruct res as [p'|e']; cbn [map_err]; [apply outcome_ret|]; apply Hall; try done. intros e' _. exists p'. by apply Hok.
Qed.

Lemma handle_command_outcome w o i c t s :
  chain_ok s → outcome (handle_command keccak256 abi_decode config w o i c t) (commanded_as o c t s) s.
Proof.
  intros Hs. unfold handle_command. apply outcome_bind, outcome_answers. eapply outcome_mono; [by apply load_owned_outcome|].
  intros res s1 [Hk1 Hp]. destruct res as [p|e]; cbn [map_err]; [|by apply commanded_kept]. destruct (Hp p eq_refl) as [Hp1 _].
  apply outcome_bind, outcome_answers. eapply outcome_mono; [apply steps_command_outcome, Hk1|]. intros res s2 [Hk2 Hauth].
  assert (Hk : keeps s s2) by (by eapply keeps_trans). destruct res as [g|e]; cbn [map_err]; [|by apply commanded_kept].
  destruct (Hauth g eq_refl) as (Hbo & Hrole & Hst). destruct Hk1 as (_ & _ & Hb1). rewrite Hb1 in Hbo.
  destruct g as [|e|f]; [by apply commanded_kept| |by apply commanded_kept].
  destruct (spends c) eqn:Hc.
  - assert (Hrun : outcome (_ ← answers (mark_executed config t); mret (ProgressFinalized e)) (commanded_as o c t s) s2) by (by eapply finalized_outcome).
    unfold outcome in *. unfold mbind, cmd_bind in *. destruct c; try done; by destruct (answers (mark_executed config t) s2) as [[]].
  - assert (Hexec : pr_state p = PreparationState.Executed) by (destruct c; try done; by destruct (pr_state p)).
    assert (Hdone : commanded_as o c t s (Ok (ProgressFinalized e)) s2).
    { destruct Hk as (Hs2 & Hp2 & Hb2). split; [done|]. split; [done|]. split; [by left|]. intros e' _. exists p. by rewrite Hp2. }
    by destruct c.
Qed.

(** ** The client *)

(** A request changes nothing, or runs its handler; an answer is the handler's. *)
Lemma client_outcome {A} (bearer : string) (h : World → cmd Chain StatusCode A) (P : Chain → result StatusCode A → Chain → Prop) s :
  chain_ok s → (∀ w s1, world_ok w → keeps s s1 → outcome (h w) (P s1) s1) →
  outcome (client_post config bearer h) (λ res s', (keeps s s' ∧ ∀ a, res ≠ Ok a) ∨ ∃ r s1, keeps s s1 ∧ P s1 r s' ∧ ∀ a, res = Ok a → r = Ok a) s.
Proof.
  intros Hs Hh. destruct (next_world_ok _ _ s Hs) as [Hw Hs1]. unfold outcome, client_post. set (w := default _ _) in *.
  set (s1 := put_worlds s _) in *. assert (Hk : keeps s s1) by done. specialize (Hh w s1 Hw Hk). unfold require_auth.
  case_bool_decide; [|destruct (w_fate w); left; split; try done; by cbn].
  unfold outcome in Hh. destruct (w_fate w) as [|m|m|m]; [| by left | |];
    (destruct (h w s1) as [r s2]; cbn in *; right; exists r, s1; split; [done|]; split; [done|]); destruct r as [a|e]; cbn; solve [done|by intros ? [=]|by intros ?? [=]|by intros ? [= ->]].
Qed.

End handlers.

Section laws.
Context {LSt PSt QSt SSt ESt : Type} `{HL : LedgerStore LSt} `{HLL : !LedgerStoreLaws LSt} `{HP : PreparationStore PSt} `{HPL : !PreparationStoreLaws PSt}
  `{HQ : LegQuoteStore QSt} `{HQL : !LegQuoteStoreLaws QSt} `{HT : StepStore SSt} `{HTL : !StepStoreLaws SSt} `{HE : Execution ESt} `{HEL : !ExecutionLaws ESt}.
Context (keccak256 : list Z → B256) (abi_decode : list Z → option (list Z)).
Abbreviation Remote := (Remote LSt PSt QSt SSt ESt).
#[local] Instance client_of : RemoteSolvent Remote := solvent_client keccak256 abi_decode.
Implicit Types (m : Remote).

Definition service_kept m : Prop := chain_ok keccak256 (rm_config m) (rm_service m).
Definition remote_preps m := preps (rm_service m).
Definition remote_bound m := bound_at (rm_service m).

Lemma via_client_outcome {A} (h : LocalConfig → World → cmd (ChainService LSt PSt QSt SSt ESt) StatusCode A)
    (P : ChainService LSt PSt QSt SSt ESt → result StatusCode A → ChainService LSt PSt QSt SSt ESt → Prop)
    (Q : result RemoteSolventError A → Remote → Prop) m :
  service_kept m →
  (∀ w s1, world_ok w → keeps keccak256 (rm_config m) (rm_service m) s1 → outcome (h (rm_config m) w) (P s1) s1) →
  (∀ res s', keeps keccak256 (rm_config m) (rm_service m) s' → (∀ a, res ≠ Ok a) → Q res (mk_remote (rm_config m) (rm_bearer m) s')) →
  (∀ res r s1 s', keeps keccak256 (rm_config m) (rm_service m) s1 → P s1 r s' → (∀ a, res = Ok a → r = Ok a) →
    Q res (mk_remote (rm_config m) (rm_bearer m) s')) →
  outcome (via_client h) Q m.
Proof.
  intros Hm Hh Hlost Hran. unfold outcome, via_client.
  pose proof (client_outcome keccak256 (rm_config m) (rm_bearer m) (h (rm_config m)) P (rm_service m) Hm Hh) as H. unfold outcome in H.
  destruct (client_post _ _ _ _) as [res s']. cbn in *. destruct H as [[Hk Hno]|(r & s1 & Hk & HPr & Hr)]; [by apply Hlost|by eapply Hran].
Qed.

(** Handlers that read, or only stage. *)
Lemma reads_law {A} (h : LocalConfig → World → cmd (ChainService LSt PSt QSt SSt ESt) StatusCode A) m :
  service_kept m →
  (∀ w s1, world_ok w → chain_ok keccak256 (rm_config m) s1 → outcome (h (rm_config m) w) (λ _ s', keeps keccak256 (rm_config m) s1 s') s1) →
  outcome (via_client h) (λ _ m', service_kept m' ∧ remote_preps m' = remote_preps m ∧ remote_bound m' = remote_bound m) m.
Proof.
  intros Hm Hh. apply (via_client_outcome h (λ s1 _ s', keeps keccak256 (rm_config m) s1 s')); [done| | |].
  - intros w s1 Hw Hk. apply Hh; [done|apply Hk].
  - intros res s' Hk _. exact Hk.
  - intros res r s1 s' Hk Hk' _. exact (keeps_trans _ _ _ _ _ Hk Hk').
Qed.

Lemma stage_law c plan m :
  service_kept m →
  outcome (rs_stage c plan) (λ res m', service_kept m' ∧ remote_preps m' = remote_preps m ∧ remote_bound m ⊆ remote_bound m'
    ∧ (res = Ok tt → remote_bound m' !! vc_order c = Some (cp_aggregate plan))) m.
Proof.
  intros Hm. apply (via_client_outcome _ (staged_as keccak256 (rm_config m) (vc_order c) (cp_aggregate plan))); [done| | |].
  - intros w s1 Hw Hk. apply handle_stage_outcome, Hk.
  - intros res s' (Hs & Hp & Hb) Hno. split; [done|]. split; [done|]. unfold remote_bound. cbn. rewrite Hb. split; [done|]. by intros ?%Hno.
  - intros res r s1 s' Hk H Hr. destruct (staged_after _ _ _ _ _ _ _ _ Hk H) as (? & ? & ? & Hok). split_and!; [done..|].
    intros ?%Hr. by apply Hok.
Qed.

Lemma stage_cctp_law c plan t m :
  service_kept m →
  outcome (rs_stage_cctp_completion c plan t) (λ _ m', service_kept m' ∧ remote_preps m' = remote_preps m ∧ remote_bound m ⊆ remote_bound m') m.
Proof.
  intros Hm. apply (via_client_outcome _ (λ s1 _ s', chain_ok keccak256 (rm_config m) s' ∧ preps s' = preps s1 ∧ bound_at s1 ⊆ bound_at s')); [done| | |].
  - intros w s1 Hw Hk. apply handle_stage_cctp_outcome, Hk.
  - intros res s' (Hs & Hp & Hb) _. split; [done|]. split; [done|]. unfold remote_bound. cbn. by rewrite Hb.
  - intros res r s1 s' (Hs & Hp & Hb) (Hs' & Hp' & Hb') _. split; [done|]. unfold remote_preps, remote_bound. cbn. rewrite <-Hp, <-Hb. done.
Qed.

Lemma prepare_law a x m :
  service_kept m →
  outcome (rs_prepare a x) (λ res m', service_kept m' ∧ remote_bound m' = remote_bound m
    ∧ (remote_preps m' = remote_preps m
       ∨ ∃ p, remote_preps m !! pr_token p = None ∧ pr_quote p = a ∧ pr_role p = lq_role x ∧ pr_state p = PreparationState.Prepared
           ∧ remote_preps m' = <[pr_token p := p]> (remote_preps m))
    ∧ ∀ p, res = Ok p → remote_preps m' !! pr_token p = Some p ∧ pr_quote p = a ∧ pr_role p = lq_role x) m.
Proof.
  intros Hm. apply (via_client_outcome _ (λ s1 r s', ∃ r', r = map_err internal_error r' ∧ prepared_as keccak256 (rm_config m) a x s1 r' s')); [done| | |].
  - intros w s1 Hw Hk. apply outcome_answers. eapply outcome_mono; [apply prepare_outcome; [done|apply Hk]|]. eauto.
  - intros res s' (Hs & Hp & Hb) Hno. split; [done|]. split; [done|]. split; [by left|]. by intros p ?%Hno.
  - intros res r s1 s' (Hs & Hp & Hb) (r' & -> & Hs' & Hb' & Hset & Hok) Hr. unfold remote_preps, remote_bound. cbn. rewrite <-Hp, <-Hb.
    split; [done|]. split; [done|]. split; [done|]. intros p Hres%Hr. apply Hok. by destruct r' as [|]; cbn in Hres; [injection Hres as ->|].
Qed.

Lemma moves_law (h : LocalConfig → World → cmd (ChainService LSt PSt QSt SSt ESt) LocalError Preparation) from to t m :
  service_kept m →
  (∀ w s1, chain_ok keccak256 (rm_config m) s1 → outcome (h (rm_config m) w) (moved_as keccak256 (rm_config m) from to t s1) s1) →
  outcome (via_client (λ config w, answers (h config w))) (λ res m', service_kept m' ∧ remote_bound m' = remote_bound m
    ∧ prep_moves from to t (remote_preps m) (remote_preps m')
    ∧ ∀ p, res = Ok p → remote_preps m' !! t = Some p ∧ pr_state p = to) m.
Proof.
  intros Hm Hh. apply (via_client_outcome _ (λ s1 r s', ∃ r', r = map_err internal_error r' ∧ moved_as keccak256 (rm_config m) from to t s1 r' s')); [done| | |].
  - intros w s1 Hw Hk. apply outcome_answers. eapply outcome_mono; [apply Hh, Hk|]. eauto.
  - intros res s' (Hs & Hp & Hb) Hno. split; [done|]. split; [done|]. split; [by left|]. by intros p ?%Hno.
  - intros res r s1 s' (Hs & Hp & Hb) (r' & -> & Hs' & Hb' & Hset & Hok) Hr. unfold remote_preps, remote_bound. cbn. rewrite <-Hp, <-Hb.
    split; [done|]. split; [done|]. split; [done|]. intros p Hres%Hr. apply Hok. by destruct r' as [|]; cbn in Hres; [injection Hres as ->|].
Qed.

Lemma inspect_law t m :
  service_kept m →
  outcome (rs_inspect t) (λ res m', service_kept m' ∧ remote_preps m' = remote_preps m ∧ remote_bound m' = remote_bound m
    ∧ ∀ p, res = Ok p → remote_preps m !! t = Some p) m.
Proof.
  intros Hm. apply (via_client_outcome _ (λ s1 r s', keeps keccak256 (rm_config m) s1 s' ∧ ∀ p, r = Ok p → preps s1 !! t = Some p)); [done| | |].
  - intros w s1 Hw Hk. apply outcome_answers. eapply outcome_mono; [apply load_owned_outcome, Hk|]. intros r s' [Hk' Hp]. split; [done|].
    intros p Hr. destruct r as [p'|]; [|done]. injection Hr as ->. by apply Hp.
  - intros res s' Hk Hno. destruct Hk as (? & ? & ?). split_and!; [done..|]. by intros p ?%Hno.
  - intros res r s1 s' Hk [Hk' Hp] Hr. pose proof (keeps_trans _ _ _ _ _ Hk Hk') as (? & ? & ?). split_and!; [done..|].
    intros p ?%Hr. destruct Hk as (_ & Hp1 & _). unfold remote_preps. rewrite <-Hp1. by apply Hp.
Qed.

Lemma command_law o i c t m :
  service_kept m →
  outcome (rs_command o i c t) (λ res m', service_kept m' ∧ remote_bound m' = remote_bound m
    ∧ (remote_preps m' = remote_preps m
       ∨ spends c = true ∧ (∀ f, res ≠ Ok (ProgressFailed f)) ∧ res ≠ Ok ProgressPending
         ∧ ∃ p, remote_preps m !! t = Some p ∧ pr_state p = PreparationState.Committed ∧ pr_role p = command_role c
           ∧ remote_bound m !! o = Some (pr_quote p) ∧ remote_preps m' = <[t := with_prep_state p PreparationState.Executed]> (remote_preps m))
    ∧ ∀ e, res = Ok (ProgressFinalized e) → ∃ p, remote_preps m' !! t = Some p ∧ pr_state p = PreparationState.Executed) m.
Proof.
  intros Hm. apply (via_client_outcome _ (commanded_as keccak256 (rm_config m) o c t)); [done| | |].
  - intros w s1 Hw Hk. apply handle_command_outcome, Hk.
  - intros res s' (Hs & Hp & Hb) Hno. split; [done|]. split; [done|]. split; [by left|]. by intros e ?%Hno.
  - intros res r s1 s' (Hs & Hp & Hb) (Hs' & Hb' & Hset & Hok) Hr. unfold remote_preps, remote_bound. cbn. rewrite <-Hp, <-Hb.
    split; [done|]. split; [done|]. split; [|intros e ?%Hr; by eapply Hok].
    destruct Hset as [?|(Hc & Hf & Hpend & Hex)]; [by left|right]. split; [done|]. split; [by intros f ?%Hr%Hf|]. split; [by intros ?%Hr%Hpend|done].
Qed.

#[global] Instance solvent_client_laws : RemoteLaws Remote (H := solvent_client keccak256 abi_decode).
Proof.
  refine {| remote_ok := service_kept; preparations := remote_preps; bound_orders := remote_bound |}.
  - intros m Hm. apply prep_view_ok, Hm.
  - intros m o o' a Hm. apply (bindings_inj _ (step_view_ok _ (co_steps _ _ _ Hm))).
  - intros q m Hm. apply reads_law; [done|]. intros w s1 Hw Hs. apply outcome_answers. by apply quote_leg_outcome.
  - apply stage_law.
  - intros d m Hm. apply reads_law; [done|]. intros w s1 Hw Hs. unfold handle_author_direct. apply outcome_lift_bind. by destruct (w_author w).
  - apply stage_cctp_law.
  - apply prepare_law.
  - intros t m Hm. apply (moves_law (λ config w, local_commit config w t)); [done|]. intros w s1 Hs. by apply commit_outcome.
  - apply inspect_law.
  - intros t m Hm. apply (moves_law (λ config _, local_release config t)); [done|]. intros w s1 Hs. by apply local_release_outcome.
  - apply command_law.
Defined.

End laws.
