(* ===== verification/CrossSystem.v ===== *)
(** * The cross-chain deployment

    The proxy with its saga store, two chain services behind their clients, and everything else
    that happens on the two chains: other clients of the ledgers, sweeps, restarts, settlements.
    What a saga says is what the two ledgers hold. *)

From stdpp Require Import strings relations.
From S2P Require Import Prelude Commands U256 Reservation LedgerEngine LedgerInvariant LedgerStore LedgerService LedgerHolds CurveDecode Registry Fills CrossChain CrossStores CrossProxy CrossProxyInvariant CrossProxySteps CrossProxyProperties CrossLocal CrossLocalSteps CrossLocalRemote.

#[local] Open Scope Z_scope.

Section system.
Context {LSt PSt QSt SSt ESt St : Type} `{HL : LedgerStore LSt} `{HLL : !LedgerStoreLaws LSt} `{HP : PreparationStore PSt} `{HPL : !PreparationStoreLaws PSt}
  `{HQ : LegQuoteStore QSt} `{HQL : !LegQuoteStoreLaws QSt} `{HT : StepStore SSt} `{HTL : !StepStoreLaws SSt} `{HE : Execution ESt} `{HEL : !ExecutionLaws ESt}
  `{HG : SagaStore St} `{HGL : !SagaStoreLaws St}.
Context (keccak256 : list Z → B256) (abi_decode : list Z → option (list Z)).
Abbreviation Chain := (ChainService LSt PSt QSt SSt ESt).
Abbreviation Remote := (Remote LSt PSt QSt SSt ESt).
#[local] Instance system_client : RemoteSolvent Remote := solvent_client keccak256 abi_decode.
#[local] Instance system_client_laws : RemoteLaws Remote := solvent_client_laws keccak256 abi_decode.
Abbreviation Deployment := (CrossChainProxy Remote St).
Implicit Types (c : Chain) (s : Deployment) (g : CrossChainSaga) (r : LegRole) (o : CrossChainOrderId).

(** ** What else happens on a chain *)

Inductive chain_env (config : LocalConfig) : Chain → Chain → Prop :=
| env_ledger x c : service_command_ok (ch_ledger c) x → (∀ i, names x i → ¬ is_token keccak256 config i) →
    chain_env config c (put_ledger c (service_exec x (ch_ledger c)).2)
| env_restart budget_of l c : (∀ a x, budget_of a = Ok x → is_u256 x) →
    LedgerService.recover budget_of (service_new (svc_store (ch_ledger c))) = (Ok tt, l) → chain_env config c (put_ledger c l)
| env_ledger_store x c : durable (svc_store (ch_ledger c)) = durable x → durable_fills (svc_store (ch_ledger c)) = durable_fills x →
    chain_env config c (put_ledger c (mk_service (svc_ledger (ch_ledger c)) x (svc_available (ch_ledger c))))
| env_execution x c : exec_ok x → chain_env config c (put_execution c x)
| env_preparations x c : prep_store_ok x → prep_view x = preps c → chain_env config c (put_preparations c x)
| env_quotes x c : quote_store_ok x → quote_view x = quote_view (ch_quotes c) → chain_env config c (put_quotes c x)
| env_steps x c : step_store_ok x → step_view x = step_view (ch_steps c) → chain_env config c (put_steps c x)
| env_worlds ws c : Forall world_ok ws → chain_env config c (put_worlds c ws).

(** The holds of the service keep their state, or expire while pending. *)
Lemma put_ledger_env config c l :
  chain_ok keccak256 config c → service_ok l → mirrors l →
  (∀ i, is_token keccak256 config i → stored l !! i = capital c !! i
     ∨ ∃ x, capital c !! i = Some x ∧ res_state x = Pending ∧ stored l !! i = Some (with_state x Expired)) →
  paid_in_full (is_token keccak256 config) l →
  keeps keccak256 config c (put_ledger c l).
Proof.
  intros Hc Hl Hm Hst Hf. apply put_ledger_ok; try done.
  - intros t p Hp. destruct (co_capital _ _ _ Hc t p Hp) as (x & Hx & Hs). pose proof (filed _ _ c t p Hc Hp) as Ht. unfold backs. rewrite Ht in *.
    destruct (Hst t (co_tokens _ _ _ Hc t p Hp)) as [->|(y & Hy & Hpend & ->)]; [by exists x|]. exists (with_state y Expired). split; [done|].
    assert (y = x) as -> by congruence. rewrite Hpend in Hs. destruct (pr_state p); cbn in *; set_solver.
  - intros t x Htok Hn. destruct (Hst t Htok) as [->|(y & _ & _ & ->)]; [by apply (co_unowned _ _ _ Hc)|]. intros [= <-]. cbn. set_solver.
Qed.

Lemma chain_env_ok config c c' : chain_env config c c' → chain_ok keccak256 config c → keeps keccak256 config c c'.
Proof.
  intros [x c0 Hx Hn|budget_of l c0 Hb Hrec|x c0 Hd Hf|x c0 Hx|x c0 Hx Hv|x c0 Hx Hv|x c0 Hx Hv|ws c0 Hw] Hc.
  - destruct (service_exec_mirrors x (ch_ledger c0) (is_token keccak256 config) (co_mirrors _ _ _ Hc) Hx) as [Hm Hst]; [done|].
    apply put_ledger_env; try done; [apply service_exec_ok; [apply Hc|done]|]. apply service_exec_paid; [apply Hc|done| |apply Hc].
    intros r fills y -> Hr. by destruct (Hn r).
  - destruct (restart_mirrors budget_of (ch_ledger c0) l) as (? & ? & Hst); [apply Hc|apply Hc|done|done|]. apply put_ledger_env; try done.
    + intros i _. left. by rewrite Hst.
    + eapply restart_paid; [done|done|apply Hc].
  - apply put_ledger_env; [done|apply same_durable_ok; [apply Hc|done]| | |].
    + intros i x0. unfold stored. cbn. rewrite <-Hd. apply (co_mirrors _ _ _ Hc).
    + intros i _. left. unfold stored, capital. cbn. by rewrite <-Hd.
    + intros i y Hi. unfold stored, recorded. cbn. rewrite <-Hd, <-Hf. by apply (co_paid _ _ _ Hc).
  - by apply put_execution_ok.
  - by apply put_preps_same.
  - apply put_quotes_ok; [done..|]. rewrite Hv. apply Hc.
  - split; [by apply put_steps_ok|]. split; [done|]. unfold bound_at. cbn. by rewrite Hv.
  - split; [|done]. destruct Hc. by split.
Qed.

(** ** Runs *)

Definition service_of s r : Chain := rm_service (remote_of r s).
Definition config_of s r : LocalConfig := rm_config (remote_of r s).

Inductive deployment_step : Deployment → Deployment → Prop :=
| served cctp rq s : deployment_step s (serve keccak256 cctp rq s)
| chain_moved r c s : chain_env (config_of s r) (service_of s r) c →
    deployment_step s (put_remote r s (mk_remote (config_of s r) (rm_bearer (remote_of r s)) c))
| saga_store_moved x s : saga_store_ok x → sagas x = orders s → deployment_step s (put_sagas s x).

(** Two services and a store that have no cross-chain order yet; the chains may be in use. *)
Record deployed s : Prop := {
  dep_ledger : ∀ r, service_ok (ch_ledger (service_of s r)) ∧ mirrors (ch_ledger (service_of s r));
  dep_stores : ∀ r, prep_store_ok (ch_preparations (service_of s r)) ∧ quote_store_ok (ch_quotes (service_of s r))
    ∧ step_store_ok (ch_steps (service_of s r)) ∧ exec_ok (ch_execution (service_of s r));
  dep_empty : ∀ r, preps (service_of s r) = ∅ ∧ quote_view (ch_quotes (service_of s r)) = ∅;
  dep_free : ∀ r i, is_token keccak256 (config_of s r) i → capital (service_of s r) !! i = None;
  dep_worlds : ∀ r, Forall world_ok (ch_worlds (service_of s r));
  dep_sagas : saga_store_ok (px_sagas s) ∧ orders s = ∅
}.

Lemma deployed_fresh s : deployed s → proxy_fresh s.
Proof.
  intros [Hl Hst He Hf Hw [Hg Ho]]. split; [|done|done|intros r; apply He]. intros r. destruct (Hl r), (Hst r) as (? & ? & ? & ?), (He r) as [Hp Hq].
  split; try done; fold (service_of s r); fold (config_of s r); rewrite ?Hp, ?Hq; try by intros ?? ?%lookup_empty_Some.
  - intros t x Ht _ Hx. by rewrite (Hf r t Ht) in Hx.
  - intros t x Ht Hx. change (capital (service_of s r) !! t = Some x) in Hx. by rewrite (Hf r t Ht) in Hx.
  - apply Hw.
Qed.

(** Every step of the deployment is one of the proxy's runs. *)
Lemma deployment_step_proxy s s' : deployment_step s s' → proxy_ok s → proxy_step keccak256 s s'.
Proof.
  intros [cctp rq s1|r c s1 Hc|x s1 Hx Hv] Hs; [by constructor| |by constructor].
  destruct (chain_env_ok _ _ _ Hc) as (Hok & Hp & Hb); [apply (po_remote _ Hs r)|]. by constructor.
Qed.

Lemma deployment_run_ok s0 s : deployed s0 → rtc deployment_step s0 s → proxy_ok s.
Proof.
  intros H0 Hrun. assert (Hok : proxy_ok s0) by (by eapply proxy_fresh_ok, deployed_fresh). clear H0. induction Hrun as [|s1 s2 s3 H12 _ IH]; [done|].
  apply IH. by destruct (proxy_step_ok keccak256 s1 s2 (deployment_step_proxy _ _ H12 Hok) Hok).
Qed.

Lemma leg_capital s r q p :
  proxy_ok s → leg_hold (legs s) r q p → ∃ x, capital (service_of s r) !! pr_token p = Some x ∧ res_state x ∈ hold_states (pr_state p).
Proof. intros Hs (Hp & _ & _). apply (co_capital _ _ _ (po_remote _ Hs r) (pr_token p) p Hp). Qed.

(** A posted hold of the service was posted for the whole of it. *)
Lemma leg_paid s r q p x :
  proxy_ok s → leg_hold (legs s) r q p → capital (service_of s r) !! pr_token p = Some x → res_state x = Posted →
  recorded (ch_ledger (service_of s r)) !! pr_token p = Some (src_amount <$> res_sources x).
Proof.
  intros Hs (Hp & _ & _). apply (co_paid _ _ _ (po_remote _ Hs r)). by apply (co_tokens _ _ _ (po_remote _ Hs r) (pr_token p) p Hp).
Qed.

(** C6: what a saga says is what the two ledgers hold, whatever else the chains do, whichever requests,
    answers or writes are lost, and across restarts: a completed order has consumed its whole hold in the
    durable ledger of both chains, posted there with, for each source, all of the amount that was held; an order given up before delivery has voided every hold it knows of in
    both ledgers, and has consumed none at all. *)
Theorem ledgers_follow_the_saga s0 s o g :
  deployed s0 → rtc deployment_step s0 s → orders s !! o = Some g →
  (sg_state g = SagaState.Complete → ∀ r, ∃ t x, prepare_of r g = Some t ∧ capital (service_of s r) !! t = Some x ∧ res_state x = Posted
       ∧ recorded (ch_ledger (service_of s r)) !! t = Some (src_amount <$> res_sources x))
  ∧ (sg_state g = SagaState.FailedBeforeDelivery → ∀ r t, prepare_of r g = Some t →
       ∃ x, capital (service_of s r) !! t = Some x ∧ res_state x = Voided)
  ∧ (sg_state g = SagaState.FailedBeforeDelivery → ∀ r p, leg_hold (legs s) r (aq_id (sg_quote g)) p →
       ∃ x, capital (service_of s r) !! pr_token p = Some x ∧ res_state x ≠ Posted).
Proof.
  intros H0 Hrun Hg. pose proof (deployment_run_ok s0 s H0 Hrun) as Hs. pose proof (po_saga _ Hs o g Hg) as Hi.
  assert (Hknown : ∀ r t p, prepare_of r g = Some t → leg_hold (legs s) r (aq_id (sg_quote g)) p → pr_token p = t).
  { intros r t p Ht Hp. destruct (si_token _ _ Hi r t Ht) as (p' & Hp' & <-). f_equal. eapply leg_hold_unique; [by apply proxy_legs_ok|done|done]. }
  split; [|split].
  - intros Hst r. assert (Hex : leg_in (legs s) r (aq_id (sg_quote g)) PreparationState.Executed).
    { destruct r; [eapply claimed_executed|eapply delivered_executed]; [done|done|by rewrite Hst|done|done|by rewrite Hst]. }
    destruct Hex as (p & Hp & Hps). destruct (leg_capital s r _ p Hs Hp) as (x & Hx & Hxs). rewrite Hps in Hxs. apply list_elem_of_singleton in Hxs.
    assert (Ht : is_Some (prepare_of r g)) by (pose proof (si_tokens _ _ Hi) as Hto; unfold tokens_ok in Hto; rewrite Hst in Hto; by destruct r, Hto).
    destruct Ht as [t Ht]. exists t, x. split; [done|]. rewrite <-(Hknown r t p Ht Hp). split_and!; [done|done|by eapply leg_paid].
  - intros Hst r t Ht. destruct (si_token _ _ Hi r t Ht) as (p & Hp & <-). destruct (leg_capital s r _ p Hs Hp) as (x & Hx & Hxs).
    exists x. split; [done|]. rewrite (si_failed _ _ Hi r _ p Hst Ht Hp) in Hxs. by apply list_elem_of_singleton in Hxs.
  - intros Hst r p Hp. destruct (leg_capital s r _ p Hs Hp) as (x & Hx & Hxs). exists x. split; [done|]. intros Hpost. rewrite Hpost in Hxs.
    destruct (prepare_of r g) as [t|] eqn:Ht.
    + rewrite (si_failed _ _ Hi r t p Hst Ht Hp) in Hxs. set_solver.
    + rewrite (si_unknown _ _ Hi r p Ht Hp) in Hxs. set_solver.
Qed.

End system.
