(* ===== verification/CrossDemo.v ===== *)
(** * A concrete cross-chain deployment

    Two chain services on SQLite with the walletkit executor, and the proxy, on which the
    theorems of the saga are exercised, together with what the code does when an answer or a
    process is lost at a bad moment. *)

From stdpp Require Import strings relations.
From S2P Require Import Prelude Commands U256 Reservation LedgerEngine LedgerInvariant LedgerStore LedgerService LedgerHolds CurveDecode Registry Fills SwapDemo CrossChain CrossStores CrossProxy CrossProxyInvariant CrossProxySteps CrossProxyProperties CrossLocal CrossLocalSteps CrossLocalRemote CrossSystem.

#[local] Open Scope string_scope.
#[local] Open Scope list_scope.
#[local] Open Scope Z_scope.

(** ** The deployment *)

Abbreviation DemoChain := (ChainService Sqlite PreparationDb LegQuoteDb StepDb (Executor FillDatabase DemoWallet)).
Abbreviation DemoRemote := (Remote Sqlite PreparationDb LegQuoteDb StepDb (Executor FillDatabase DemoWallet)).
Abbreviation CrossDeployment := (CrossChainProxy DemoRemote SagaDb).

(** A weighted sum of the preimage, which tells the identifiers of one order apart. *)
Definition bytes_hash (l : list Z) : B256 := (foldl (λ p x, (p.1 + 1, p.2 + p.1 * x)) (1, 0) l).2.

Definition no_abi (_ : list Z) : option (list Z) := None.

#[global] Instance demo_client : RemoteSolvent DemoRemote := solvent_client bytes_hash no_abi.
#[global] Instance demo_client_laws : RemoteLaws DemoRemote := solvent_client_laws bytes_hash no_abi.

(** One route on the destination chain, through one maker. *)
Definition demo_route : Routed := mk_routed (Some 90) [mk_routed_leg 1 (Some 7) 5 (Some 90)].

Definition cross_world (fate : Fate) (now : Z) : World :=
  mk_world fate (λ _, now) 12 (λ _ _ _, Some demo_route) (λ _, Ok 1000) (Some (λ _ _, Ok tt)) None None.

Definition demo_local_config (chain : Z) : LocalConfig :=
  mk_local_config chain 77
    (list_to_map [(Deliver, 41); (DispatchFillProof, 42); (ClaimOrigin, 43); (DispatchRepayment, 42); (CloseDestination, 41)]) 60 "Bearer key".

(** Transactions of a chain that mines are mined as soon as they are sent. *)
Definition demo_chain (mines : bool) (worlds : list World) : DemoChain :=
  mk_chain (service_new (mk_sqlite ∅ [])) (mk_db ∅ []) (mk_db ∅ []) (mk_db (mk_step_tables ∅ ∅) [])
    (mk_executor (mk_fill_db ∅ ∅ []) (mk_demo_wallet [] (if mines then list_to_map ((λ n, (n, Some 42)) <$> seqZ 0 10) else ∅))) worlds.

Definition cross_installed (mines : bool) (origin destination : list World) : CrossDeployment :=
  mk_proxy (mk_remote (demo_local_config 1) "key" (demo_chain mines origin)) (mk_remote (demo_local_config 2) "key" (demo_chain mines destination))
    (mk_db (mk_saga_tables ∅ 0) []).

(** Requests that meet no trouble. *)
Definition calm (n : nat) : list World := replicate n (cross_world Answered 1000).

(** ** One order *)

Definition origin_request : LegQuoteRequest := mk_leg_request 6 Origin 1 2 3 4 100 1050 Direct.
Definition destination_request : LegQuoteRequest := mk_leg_request 6 Destination 2 1 4 5 100 1050 Direct.

Definition demo_leg (q : LegQuoteRequest) (out : U256) (sources : list ReservationSource) : LegQuote :=
  let leg i := mk_leg_quote i 6 (lr_role q) (lr_local_chain q) (lr_remote_chain q) (lr_input_token q) (lr_output_token q) 100 out Direct 12 1050 sources in
  leg (leg_quote_id bytes_hash (leg 0)).

Definition demo_origin_leg : LegQuote := demo_leg origin_request 100 [].
Definition demo_destination_leg : LegQuote := demo_leg destination_request 90 [Build_ReservationSource 1 7 5 90].

Definition demo_aggregate : AggregateQuote :=
  mk_aggregate (aggregate_id bytes_hash demo_origin_leg demo_destination_leg 0 None) demo_origin_leg demo_destination_leg 100 90 0 None 1050.

Definition origin_plan : ChainExecutionPlan :=
  mk_plan (aq_id demo_aggregate) 1 [mk_step ClaimOrigin 43 0 [1]; mk_step DispatchRepayment 42 0 [2]].

Definition destination_plan : ChainExecutionPlan :=
  mk_plan (aq_id demo_aggregate) 2 [mk_step Deliver 41 0 [3]; mk_step DispatchFillProof 42 0 [4]; mk_step CloseDestination 41 0 [5]].

Definition demo_order : CrossChainOrderId := 88.

Definition opening : list ProxyRequest :=
  [RequestQuote origin_request destination_request 1000; RequestStart demo_order demo_aggregate origin_plan destination_plan 1000].

Definition advances (n : nat) : list ProxyRequest := replicate n (RequestAdvance demo_order 1000).

Definition cross_run (rqs : list ProxyRequest) (s : CrossDeployment) : CrossDeployment := foldl (λ s rq, serve bytes_hash None rq s) s rqs.

Definition saga_at (s : CrossDeployment) : option (SagaState.t * option string) := (λ g, (sg_state g, sg_failure g)) <$> orders s !! demo_order.

(** The states of the order's two holds in the ledgers. *)
Definition holds_at (s : CrossDeployment) : list (LegRole * list (PreparationState.t * option ReservationState)) :=
  (λ r, (r, (λ p, (pr_state p.2, res_state <$> capital (service_of s r) !! p.1)) <$> map_to_list (legs s r))) <$> [Origin; Destination].

(** ** Runs of the deployment *)

Definition lost_answer : World := cross_world (AnswerLost "timed out") 1000.
Definition lost_request : World := cross_world (RequestLost "connection refused") 1000.

(** The chain's wallet, with every transaction dropped. *)
Definition drops (c : DemoChain) : DemoChain :=
  put_execution c (mk_executor (ex_store (ch_execution c)) (mk_demo_wallet (dw_log (ex_wallet (ch_execution c))) (list_to_map ((λ n, (n, None)) <$> seqZ 0 10)))).

Definition on_service (r : LegRole) (f : DemoChain → DemoChain) (s : CrossDeployment) : CrossDeployment :=
  put_remote r s (mk_remote (config_of s r) (rm_bearer (remote_of r s)) (f (service_of s r))).

(** The ledger process of a chain starts again from its store. *)
Definition restarts (c : DemoChain) : DemoChain := put_ledger c (LedgerService.recover (λ _, Ok 1000) (service_new (svc_store (ch_ledger c)))).2.

Definition sweeps (now : Z) (c : DemoChain) : DemoChain := put_ledger c (sweep_expired now ∅ (ch_ledger c)).2.

Definition with_saga_faults (outcomes : list bool) (s : CrossDeployment) : CrossDeployment := put_sagas s (mk_db (db_data (px_sagas s)) outcomes).

Definition prep_faults (outcomes : list bool) (c : DemoChain) : DemoChain := put_preparations c (mk_db (db_data (ch_preparations c)) outcomes).

(** ** The deployment is well-formed *)

Lemma demo_mirrors : mirrors (service_new (mk_sqlite ∅ [])).
Proof. intros r x Hx. change ((∅ : gmap ReservationId Reservation) !! r = Some x) in Hx. by apply lookup_empty_Some in Hx. Qed.

Lemma cross_world_ok fate now : 0 ≤ now → world_ok (cross_world fate now).
Proof.
  intros Hn. split; cbn; try done.
  - intros a x [= <-]. apply word_small. lia.
  - intros i o x r ss [= <-] [= <-]. split.
    + constructor; [apply word_small; cbn; lia|constructor].
    + intros a. unfold demand_at, source_demand. cbn. pose proof (word_small 90) as [_ H90]; [lia|]. case_decide; cbn; lia.
Qed.

Lemma worlds_ok ws : (∀ w, w ∈ ws → ∃ fate now, w = cross_world fate now ∧ 0 ≤ now) → Forall world_ok ws.
Proof. intros H. apply Forall_forall. intros w (fate & now & -> & ?)%H. by apply cross_world_ok. Qed.

Lemma calm_ok n : Forall world_ok (calm n).
Proof. apply worlds_ok. intros w ->%elem_of_replicate_inv. by eexists _, _. Qed.

Lemma demo_chain_stores mines ws :
  prep_store_ok (ch_preparations (demo_chain mines ws)) ∧ quote_store_ok (ch_quotes (demo_chain mines ws))
  ∧ step_store_ok (ch_steps (demo_chain mines ws)) ∧ exec_ok (ch_execution (demo_chain mines ws)).
Proof.
  split; [|split; [|split]]; cbn.
  - split; intros *; cbn; by intros ?%lookup_empty_Some.
  - intros i row Hr. cbn in Hr. by apply lookup_empty_Some in Hr.
  - split; intros *; cbn; by intros ?%lookup_empty_Some.
  - intros i row Hr. cbn in Hr. by apply lookup_empty_Some in Hr.
Qed.

Lemma cross_installed_deployed mines wo wd :
  Forall world_ok wo → Forall world_ok wd → deployed bytes_hash (cross_installed mines wo wd).
Proof.
  intros Ho Hd. split.
  - intros []; (split; [apply (demo_service_ok [])|apply demo_mirrors]).
  - intros []; apply demo_chain_stores.
  - by intros [].
  - assert (He : ∀ ws, capital (demo_chain mines ws) = ∅) by (intros ws; by vm_compute).
    intros [] i _; [change (service_of _ _) with (demo_chain mines wo)|change (service_of _ _) with (demo_chain mines wd)]; by rewrite He.
  - by intros [].
  - split; [|done]. intros o row Hr. cbn in Hr. by apply lookup_empty_Some in Hr.
Qed.

Lemma serve_run rqs s : rtc (proxy_step bytes_hash) s (cross_run rqs s).
Proof. revert s. induction rqs as [|rq rqs IH]; intros s; [done|]. eapply rtc_l; [constructor|apply IH]. Qed.

Lemma deployment_serve_run rqs s : rtc (deployment_step bytes_hash no_abi) s (cross_run rqs s).
Proof. revert s. induction rqs as [|rq rqs IH]; intros s; [done|]. eapply rtc_l; [constructor|apply IH]. Qed.

(** ** An order that completes *)

Definition cross_start : CrossDeployment := cross_installed true (calm 30) (calm 30).
Definition cross_done : CrossDeployment := cross_run (opening ++ advances 5) cross_start.

Definition no_saga : CrossChainSaga := mk_saga 0 None demo_aggregate SagaState.Quoted [] None None None None None None None.
Definition saga_of (s : CrossDeployment) : CrossChainSaga := default no_saga (orders s !! demo_order).

(** The hold of a leg. *)
Definition leg_prep (s : CrossDeployment) (r : LegRole) : Preparation :=
  default (mk_preparation 0 0 r 0 PreparationState.Prepared 0) (snd <$> head (map_to_list (legs s r))).

Lemma saga_stored s : bool_decide (is_Some (orders s !! demo_order)) = true → orders s !! demo_order = Some (saga_of s).
Proof. intros [g Hg]%bool_decide_eq_true. unfold saga_of. by rewrite Hg. Qed.

Lemma cross_start_deployed : deployed bytes_hash cross_start.
Proof. apply cross_installed_deployed; apply calm_ok. Qed.

(** The order completes, and both legs are spent. *)
Lemma saga_is_all_or_nothing_witness :
  sg_state (saga_of cross_done) = SagaState.Complete
  ∧ ∀ r, leg_in (legs cross_done) r (aq_id (sg_quote (saga_of cross_done))) PreparationState.Executed.
Proof.
  assert (Hc : sg_state (saga_of cross_done) = SagaState.Complete) by (by vm_compute). split; [done|].
  apply (saga_is_all_or_nothing bytes_hash cross_start cross_done demo_order (saga_of cross_done)).
  - eapply deployed_fresh, cross_start_deployed.
  - apply serve_run.
  - apply saga_stored. by vm_compute.
  - done.
Defined.

(** A completed order is left alone by later requests, and so is its spent capital. *)
Lemma saga_outcome_is_final_witness :
  orders (cross_run (advances 3) cross_done) !! demo_order = Some (saga_of cross_done)
  ∧ leg_hold (legs (cross_run (advances 3) cross_done)) Destination (aq_id (sg_quote (saga_of cross_done))) (leg_prep cross_done Destination).
Proof.
  destruct (saga_outcome_is_final bytes_hash cross_start cross_done (cross_run (advances 3) cross_done) demo_order (saga_of cross_done)) as [(g & Hg & _ & Hsame) Hleg].
  - eapply deployed_fresh, cross_start_deployed.
  - apply serve_run.
  - apply serve_run.
  - apply saga_stored. by vm_compute.
  - split; [rewrite Hg; f_equal; apply Hsame; by vm_compute|]. apply Hleg; [split; [by vm_compute|split; by vm_compute]|left; by vm_compute].
Defined.

(** ** An order that is given up *)

(** The destination's quote has expired when its leg is prepared. *)
Definition late : World := cross_world Answered 1060.
Definition given_up_start : CrossDeployment := cross_installed true (calm 30) (calm 2 ++ [late] ++ calm 30).
Definition given_up : CrossDeployment := cross_run opening given_up_start.

Lemma given_up_deployed : deployed bytes_hash given_up_start.
Proof.
  apply cross_installed_deployed; [apply calm_ok|]. repeat apply Forall_app_2; [apply calm_ok| |apply calm_ok].
  constructor; [by apply cross_world_ok|constructor].
Qed.

(** Both ledgers consumed the holds of the completed order; the ledger of the origin voided that of the order given up. *)
Lemma ledgers_follow_the_saga_witness :
  sg_state (saga_of cross_done) = SagaState.Complete
  ∧ (∀ r, ∃ t x, prepare_of r (saga_of cross_done) = Some t ∧ capital (service_of cross_done r) !! t = Some x ∧ res_state x = Posted
       ∧ recorded (ch_ledger (service_of cross_done r)) !! t = Some (src_amount <$> res_sources x))
  ∧ sg_state (saga_of given_up) = SagaState.FailedBeforeDelivery
  ∧ ∃ t x, prepare_of Origin (saga_of given_up) = Some t ∧ capital (service_of given_up Origin) !! t = Some x ∧ res_state x = Voided.
Proof.
  assert (Hc : sg_state (saga_of cross_done) = SagaState.Complete) by (by vm_compute).
  assert (Hf : sg_state (saga_of given_up) = SagaState.FailedBeforeDelivery) by (by vm_compute).
  split; [done|]. split; [|split; [done|]].
  - apply (ledgers_follow_the_saga bytes_hash no_abi cross_start cross_done demo_order (saga_of cross_done));
      [apply cross_start_deployed|apply deployment_serve_run|apply saga_stored; by vm_compute|done].
  - destruct (ledgers_follow_the_saga bytes_hash no_abi given_up_start given_up demo_order (saga_of given_up)) as (_ & Hv & _);
      [apply given_up_deployed|apply deployment_serve_run|apply saga_stored; by vm_compute|].
    assert (Ht : bool_decide (is_Some (prepare_of Origin (saga_of given_up))) = true) by (by vm_compute). apply bool_decide_eq_true in Ht as [t Ht].
    destruct (Hv Hf Origin t Ht) as (x & Hx & Hs). exists t, x. split; [exact Ht|]. split; [exact Hx|exact Hs].
Defined.

(** ** Answers and processes lost at a bad moment *)

(** The answer to the delivery is lost after the destination recorded it. *)
Definition unrecorded_start : CrossDeployment := cross_installed true (calm 30) (calm 5 ++ [lost_answer] ++ calm 20).
Definition unrecorded : CrossDeployment := cross_run (opening ++ advances 1) unrecorded_start.

Lemma unrecorded_deployed : deployed bytes_hash unrecorded_start.
Proof.
  apply cross_installed_deployed; [apply calm_ok|]. repeat apply Forall_app_2; [apply calm_ok| |apply calm_ok].
  constructor; [by apply cross_world_ok|constructor].
Qed.

(** The taker was paid, the order says that it waits to be delivered, and no attempt changes that. *)
Lemma settled_leg_wedges_delivery_witness :
  saga_at unrecorded = Some (SagaState.Prepared, None)
  ∧ pr_state (leg_prep unrecorded Destination) = PreparationState.Executed
  ∧ let '(res, s') := advance bytes_hash None demo_order 1000 unrecorded in
    (∃ e, res = Err e) ∧ orders s' = orders unrecorded ∧ ∀ r', legs s' r' = legs unrecorded r'.
Proof.
  split; [by vm_compute|]. split; [by vm_compute|].
  apply (settled_leg_wedges_delivery bytes_hash unrecorded_start unrecorded demo_order (saga_of unrecorded) Destination
    (leg_prep unrecorded Destination)).
  - eapply deployed_fresh, unrecorded_deployed.
  - apply serve_run.
  - apply saga_stored. by vm_compute.
  - left. by vm_compute.
  - split; by vm_compute.
  - left. by vm_compute.
Defined.

(** A compensation that releases the origin and loses its request to the destination is never finished: the capital of the
    destination stays committed. *)
Theorem interrupted_compensation_is_never_finished :
  let before := on_service Destination drops (cross_run opening (cross_installed true (calm 30) (calm 6 ++ [lost_request] ++ calm 20))) in
  let s := cross_run (advances 1) before in
  holds_at s = [(Origin, [(PreparationState.Released, Some Voided)]); (Destination, [(PreparationState.Committed, Some Committed)])]
  ∧ saga_at (cross_run (advances 2) s) = saga_at s ∧ holds_at (cross_run (advances 2) s) = holds_at s
  ∧ (advance bytes_hash None demo_order 1000 s).1
    = Err (InvalidCrossChain "remote service did not confirm the expected committed preparation").
Proof. by vm_compute. Qed.

(** An order recorded just before its coordinator stops is listed as recoverable for ever and never moves. *)
Theorem order_recorded_at_a_crash_stays_quoted :
  let s := cross_run opening (with_saga_faults [true; true; true; false] cross_start) in
  saga_at s = Some (SagaState.Quoted, None)
  ∧ saga_at (cross_run (opening ++ advances 3) s) = Some (SagaState.Quoted, None)
  ∧ (sg_order <$> (match (recoverable s).1 with Ok l => l | Err _ => [] end)) = [demo_order].
Proof. by vm_compute. Qed.

(** Capital that was swept while its order was in preparation cannot be released: compensation fails for ever. *)
Theorem swept_leg_cannot_be_compensated :
  let s := cross_run opening (cross_installed true (calm 30) (calm 2 ++ [lost_request] ++ replicate 20 (cross_world Answered 2000))) in
  let s' := cross_run (advances 1) (on_service Origin (sweeps 2000) s) in
  holds_at s' = [(Origin, [(PreparationState.Prepared, Some Expired)]); (Destination, [])]
  ∧ sg_state (saga_of s') = SagaState.Preparing ∧ saga_at (cross_run (advances 2) s') = saga_at s'
  ∧ (advance bytes_hash None demo_order 1000 s').1
    = Err (RemoteFailed (Unavailable "chain-local Solvent returned HTTP 500 Internal Server Error")).
Proof. by vm_compute. Qed.

(** A restart between spending the capital and recording it makes every later attempt fail: the spent hold is no longer in memory. *)
Theorem restart_hides_spent_capital :
  let s := cross_run (advances 1) (on_service Destination (prep_faults [true; true; true; false]) (cross_run opening cross_start)) in
  let s' := on_service Destination restarts s in
  holds_at s' = [(Origin, [(PreparationState.Committed, Some Committed)]); (Destination, [(PreparationState.Committed, Some Posted)])]
  ∧ saga_at (cross_run (advances 1) s) = Some (SagaState.DestinationFinalized, None)
  ∧ saga_at (cross_run (advances 2) s') = Some (SagaState.Prepared, None)
  ∧ (advance bytes_hash None demo_order 1000 s').1
    = Err (RemoteFailed (Rejected "chain-local Solvent returned HTTP 400 Bad Request")).
Proof. by vm_compute. Qed.
