(* ===== verification/CrossCalls.v ===== *)
(** * The settlement contracts' calls and their validation

    [crates/adapters/src/crosschain/validation.rs]: the calls, orders, maker quotes and proofs of
    the settlement contracts as their ABI declares them, and the checks that bind every call of a
    plan to the admitted order and to the quote before the plan becomes durable.

    The ABI codec, the EIP-712 hashes and keccak come from [alloy]: they are the classes
    [SettlementAbi] and [Eip712] and the parameter [keccak256]. *)

From stdpp Require Import strings.
From S2P Require Import Prelude U256 Reservation CrossChain.

#[local] Open Scope string_scope.
#[local] Open Scope list_scope.
#[local] Open Scope Z_scope.

Declare Scope calls_scope.
Notation "x <>? y" := (negb (x =? y)) (at level 70, no associativity) : calls_scope.
#[local] Open Scope calls_scope.

(** ** Values of the contracts *)

Record SolventCrossChainOrder := mk_sol_order {
  so_user : Address;
  so_nonce : U256;
  so_origin_chain : U256;
  so_origin_settler : Address;
  so_compact : Address;
  so_compact_id : U256;
  so_compact_expires : U256;
  so_input_token : Address;
  so_input_amount : U256;
  so_destination_chain : U256;
  so_output_token : Address;
  so_minimum_output : U256;
  so_recipient : Address;
  so_destination_settler : Address;
  so_proof_verifier : Address;
  so_exclusive_filler : Address;
  so_exclusivity_ends : Z;
  so_fill_deadline : Z;
  so_route_kind : Z
}.

(** [SolventMandate], and [Mandate] inside the sponsor's commitment, which has the same fields. *)
Record SolventMandate := mk_sol_mandate {
  sm_order : B256;
  sm_destination_chain : U256;
  sm_destination_settler : Address;
  sm_proof_verifier : Address;
  sm_output_token : Address;
  sm_minimum_output : U256;
  sm_recipient : Address;
  sm_fill_deadline : Z;
  sm_exclusive_filler : Address;
  sm_route_kind : Z
}.

Record DirectMakerQuote := mk_direct_quote {
  dq_order : B256;
  dq_maker : Address;
  dq_destination_strategy : B256;
  dq_origin_strategy : B256;
  dq_output : U256;
  dq_repayment : U256;
  dq_nonce : U256;
  dq_expires : Z
}.

Record MakerCreditQuote := mk_credit_quote {
  cq_order : B256;
  cq_maker : Address;
  cq_destination_strategy : B256;
  cq_output : U256;
  cq_usdc_due : U256;
  cq_max_cctp_fee : U256;
  cq_nonce : U256;
  cq_expires : Z
}.

Record Component := mk_component { cm_claimant : U256; cm_amount : U256 }.

Record Claim := mk_sol_claim {
  cl_allocator_data : list Z;
  cl_sponsor_signature : list Z;
  cl_sponsor : Address;
  cl_nonce : U256;
  cl_expires : U256;
  cl_witness : B256;
  cl_typestring : string;
  cl_id : U256;
  cl_allocated : U256;
  cl_claimants : list Component
}.

Record SwapOrder := mk_swap_order { wo_maker : Address; wo_traits : U256; wo_data : list Z }.

Record ProofEnvelope := mk_envelope { pe_version : Z; pe_kind : Z; pe_payload : list Z }.

Record ProofIdMaterial := mk_proof_material { pm_chain : U256; pm_application : Address; pm_order : B256; pm_kind : Z }.

Record VerifiedFill := mk_verified_fill {
  vf_order : B256;
  vf_route_kind : Z;
  vf_destination_chain : U256;
  vf_destination_app : Address;
  vf_recipient : Address;
  vf_output_token : Address;
  vf_output : U256;
  vf_maker : Address;
  vf_destination_strategy : B256;
  vf_origin_strategy : B256;
  vf_repayment_token : Address;
  vf_repayment : U256;
  vf_max_cctp_fee : U256;
  vf_maker_quote : B256;
  vf_fill : B256
}.

Record VerifiedRepayment := mk_verified_repayment {
  vr_order : B256;
  vr_origin_chain : U256;
  vr_origin_settler : Address;
  vr_maker : Address;
  vr_token : Address;
  vr_amount : U256;
  vr_repayment : B256
}.

(** ** Calls of the contracts *)

Record fillDirectCall := mk_fill_direct {
  fd_order : SolventCrossChainOrder; fd_mandate : SolventMandate; fd_quote : DirectMakerQuote; fd_signature : list Z
}.

Record fillCreditCall := mk_fill_credit {
  fc_order : SolventCrossChainOrder; fc_mandate : SolventMandate; fc_quote : MakerCreditQuote; fc_signature : list Z
}.

Record completeRepaymentCall := mk_complete { cr_order : B256; cr_message : list Z; cr_attestation : list Z }.

Record confirmDirectRepaymentCall := mk_confirm { cf_order : B256; cf_proof : list Z }.

Record settleDirectCall := mk_settle_direct {
  sd_order : SolventCrossChainOrder; sd_mandate : SolventMandate; sd_fill_proof : list Z; sd_claim : Claim
}.

Record settleRoutedCall := mk_settle_routed {
  sr_order : SolventCrossChainOrder; sr_mandate : SolventMandate; sr_fill_proof : list Z; sr_claim : Claim; sr_maker_order : SwapOrder
}.

Record dispatchCall := mk_dispatch { dc_order : B256; dc_envelope : list Z }.

(** ** What [alloy] provides *)

Class Abi (A : Type) := { abi_encode : A → list Z; abi_decode : list Z → option A }.

(** What is encoded decodes to itself. *)
Class AbiLaw (A : Type) `{Abi A} : Prop := abi_round_trip : ∀ x : A, abi_decode (abi_encode x) = Some x.

Class SettlementAbi := {
  #[global] abi_fill_direct :: Abi fillDirectCall;
  #[global] abi_fill_credit :: Abi fillCreditCall;
  #[global] abi_complete :: Abi completeRepaymentCall;
  #[global] abi_confirm :: Abi confirmDirectRepaymentCall;
  #[global] abi_settle_direct :: Abi settleDirectCall;
  #[global] abi_settle_routed :: Abi settleRoutedCall;
  #[global] abi_dispatch :: Abi dispatchCall;
  #[global] abi_envelope :: Abi ProofEnvelope;
  #[global] abi_fill :: Abi VerifiedFill;
  #[global] abi_repayment :: Abi VerifiedRepayment;
  encode_swap_order : SwapOrder → list Z;
  encode_proof_material : ProofIdMaterial → list Z
}.

(** Struct hashes, and signing hashes in the domain of the application (chain and contract). *)
Class Eip712 := {
  hash_order : SolventCrossChainOrder → B256;
  direct_quote_hash : Z → Address → DirectMakerQuote → B256;
  credit_quote_hash : Z → Address → MakerCreditQuote → B256
}.

(** ** The validator *)

Record AlloyStepValidator := mk_validator {
  sv_operator : Address;
  sv_wrapped_native : Address;
  sv_origin_application : option Address;
  sv_destination_application : option Address
}.

Definition AlloyStepValidator_new (operator wrapped_native : Address) : AlloyStepValidator := mk_validator operator wrapped_native None None.

Definition with_applications (v : AlloyStepValidator) (origin destination : Address) : AlloyStepValidator :=
  mk_validator (sv_operator v) (sv_wrapped_native v) (Some origin) (Some destination).

(** [if b { return invalid(m) }]. *)
Definition refuse_if (b : bool) (m : string) : result string unit := if b then Err m else Ok tt.

Definition required_application (a : option Address) (label : string) : result string Address :=
  match a with
  | Some x => if x <>? 0 then Ok x else Err (label +:+ " is not configured for proof validation")
  | None => Err (label +:+ " is not configured for proof validation")
  end.

Definition route_kind_of (r : CrossChainRoute) : Z := match r with Direct => 1 | Cctp => 0 end.

Section validation.
Context `{SettlementAbi} `{Eip712} (keccak256 : list Z → B256).

Definition decode {Call} `{Abi Call} (calldata : list Z) : result string Call :=
  ok_or (abi_decode calldata) "calldata selector or ABI is invalid".

Definition decode_envelope (encoded : list Z) (kind : Z) : result string ProofEnvelope :=
  e ← ok_or (abi_decode encoded) "proof envelope ABI is invalid";
  _ ← refuse_if (negb (bool_decide (abi_encode e = encoded)) || (pe_version e <>? 1) || (pe_kind e <>? kind))
        "proof envelope is not canonical for its command";
  Ok e.

Definition decode_fill (encoded : list Z) : result string VerifiedFill :=
  x ← ok_or (abi_decode encoded) "verified fill ABI is invalid";
  _ ← refuse_if (negb (bool_decide (abi_encode x = encoded))) "verified fill payload is not canonical ABI";
  Ok x.

Definition decode_repayment (encoded : list Z) : result string VerifiedRepayment :=
  x ← ok_or (abi_decode encoded) "verified repayment ABI is invalid";
  _ ← refuse_if (negb (bool_decide (abi_encode x = encoded))) "verified repayment payload is not canonical ABI";
  Ok x.

Definition proof_id (chain : Z) (application : Address) (order : B256) (kind : Z) : B256 :=
  keccak256 (encode_proof_material (mk_proof_material chain application order kind)).

(** A [bytes32] word is its 32 bytes, so it always decodes. *)
Definition validate_encoded_word (encoded : list Z) (label : string) : result string B256 :=
  _ ← refuse_if (negb (length encoded =? 32)%nat) (label +:+ " must be exactly one ABI bytes32 word");
  Ok (of_be_bytes encoded).

Definition validate_proof_id (encoded : list Z) (expected : B256) (label : string) : result string unit :=
  actual ← validate_encoded_word encoded label;
  refuse_if (actual <>? expected) (label +:+ " ID does not match the admitted order").

Definition validate_order (c : StepValidationContext) (x : PreparedStep) (o : SolventCrossChainOrder) (operator : Address) : result string unit :=
  let q := vc_quote c in
  _ ← refuse_if
        ((hash_order o <>? vc_order c)
         || (so_origin_chain o <>? lq_local_chain (aq_origin q))
         || (so_destination_chain o <>? lq_local_chain (aq_destination q))
         || (so_input_token o <>? lq_input_token (aq_origin q))
         || (so_input_amount o <>? aq_amount_in q)
         || (so_output_token o <>? lq_output_token (aq_destination q))
         || (so_minimum_output o <>? aq_amount_out q)
         || (so_route_kind o <>? route_kind_of (lq_route (aq_origin q))))
        "settlement order does not match aggregate terms";
  match ps_command x with
  | Deliver =>
      refuse_if ((so_destination_settler o <>? ps_target x) || (so_exclusive_filler o <>? operator))
        "destination settlement authority does not match this service"
  | ClaimOrigin => refuse_if (so_origin_settler o <>? ps_target x) "origin settlement authority does not match this service"
  | _ => Ok tt
  end.

Definition validate_mandate (c : StepValidationContext) (o : SolventCrossChainOrder) (m : SolventMandate) : result string unit :=
  refuse_if
    ((sm_order m <>? vc_order c)
     || (sm_destination_chain m <>? so_destination_chain o)
     || (sm_destination_settler m <>? so_destination_settler o)
     || (sm_proof_verifier m <>? so_proof_verifier o)
     || (sm_output_token m <>? so_output_token o)
     || (sm_minimum_output m <>? so_minimum_output o)
     || (sm_recipient m <>? so_recipient o)
     || (sm_fill_deadline m <>? so_fill_deadline o)
     || (sm_exclusive_filler m <>? so_exclusive_filler o)
     || (sm_route_kind m <>? so_route_kind o))
    "mandate does not match the settlement order".

(** What the destination reserve holds: the output token, or the wrapped token of a native delivery. *)
Definition reserve_token (q : AggregateQuote) (wrapped_native : Address) : result string Address :=
  if lq_output_token (aq_destination q) =? 0
  then _ ← refuse_if (wrapped_native =? 0) "native delivery requires a configured wrapped-native token"; Ok wrapped_native
  else Ok (lq_output_token (aq_destination q)).

Definition validate_destination_source (c : StepValidationContext) (maker : Address) (strategy : B256) (amount : U256) (wrapped_native : Address) :
    result string unit :=
  match lq_sources (aq_destination (vc_quote c)) with
  | [s] =>
      token ← reserve_token (vc_quote c) wrapped_native;
      refuse_if ((src_maker s <>? maker) || (src_strategy_hash s <>? strategy) || (src_token s <>? token) || (src_amount s <>? amount))
        "destination maker source does not match the locally issued quote"
  | _ => Err "destination settlement requires exactly one quoted maker source"
  end.

Definition validate_origin_swap_source (c : StepValidationContext) (maker_order : SwapOrder) : result string unit :=
  let origin := aq_origin (vc_quote c) in
  match lq_sources origin with
  | [s] =>
      refuse_if
        ((src_maker s <>? wo_maker maker_order)
         || (src_strategy_hash s <>? keccak256 (encode_swap_order maker_order))
         || (src_token s <>? lq_output_token origin)
         || (src_amount s <>? lq_amount_out origin))
        "origin swap source does not match the locally issued quote"
  | _ => Err "routed origin settlement requires exactly one quoted maker source"
  end.

(** The route kind, and the repayment token, amount and fee a fill proof must carry. *)
Definition fill_terms (q : AggregateQuote) : Z * Address * U256 * U256 :=
  match lq_route (aq_origin q) with
  | Direct => (1, lq_input_token (aq_origin q), aq_amount_in q, 0)
  | Cctp => (0, lq_input_token (aq_destination q), lq_amount_in (aq_destination q), aq_bridge_fee q)
  end.

Definition validate_fill_envelope (c : StepValidationContext) (encoded : list Z) (destination_application : option Address) : result string unit :=
  envelope ← decode_envelope encoded 0;
  fill ← decode_fill (pe_payload envelope);
  application ← required_application destination_application "destination application";
  let q := vc_quote c in
  match lq_sources (aq_destination q) with
  | [s] =>
      let '(kind, token, amount, fee) := fill_terms q in
      refuse_if
        ((vf_order fill <>? vc_order c)
         || (vf_route_kind fill <>? kind)
         || (vf_destination_chain fill <>? lq_local_chain (aq_destination q))
         || (vf_destination_app fill <>? application)
         || (vf_output_token fill <>? lq_output_token (aq_destination q))
         || (vf_output fill <>? aq_amount_out q)
         || (vf_maker fill <>? src_maker s)
         || (vf_destination_strategy fill <>? src_strategy_hash s)
         || (vf_repayment_token fill <>? token)
         || (vf_repayment fill <>? amount)
         || (vf_max_cctp_fee fill <>? fee)
         || (vf_maker_quote fill =? 0)
         || (vf_fill fill <>? proof_id (lq_local_chain (aq_destination q)) application (vc_order c) 0))
        "fill proof does not match the admitted order and quote"
  | _ => Err "fill proof requires exactly one destination reservation source"
  end.

Definition validate_repayment_envelope (c : StepValidationContext) (encoded : list Z) (origin_application : option Address) : result string unit :=
  envelope ← decode_envelope encoded 1;
  repayment ← decode_repayment (pe_payload envelope);
  application ← required_application origin_application "origin application";
  let q := vc_quote c in
  match lq_sources (aq_destination q) with
  | [s] =>
      refuse_if
        ((vr_order repayment <>? vc_order c)
         || (vr_origin_chain repayment <>? lq_local_chain (aq_origin q))
         || (vr_origin_settler repayment <>? application)
         || (vr_maker repayment <>? src_maker s)
         || (vr_token repayment <>? lq_input_token (aq_origin q))
         || (vr_amount repayment <>? aq_amount_in q)
         || (vr_repayment repayment <>? proof_id (lq_local_chain (aq_origin q)) application (vc_order c) 1))
        "repayment proof does not match the admitted order and quote"
  | _ => Err "repayment proof requires exactly one destination reservation source"
  end.

Definition validate_applications (v : AlloyStepValidator) (o : SolventCrossChainOrder) : result string unit :=
  origin ← required_application (sv_origin_application v) "origin application";
  destination ← required_application (sv_destination_application v) "destination application";
  refuse_if ((so_origin_settler o <>? origin) || (so_destination_settler o <>? destination))
    "settlement applications do not match this service configuration".

(** ** The checks of one call *)

Definition validate_fill_direct (v : AlloyStepValidator) (c : StepValidationContext) (x : PreparedStep) : result string unit :=
  call ← decode (Call := fillDirectCall) (ps_calldata x);
  _ ← validate_order c x (fd_order call) (sv_operator v);
  _ ← validate_mandate c (fd_order call) (fd_mandate call);
  let m := fd_quote call in
  _ ← refuse_if ((dq_order m <>? vc_order c) || (dq_output m <>? aq_amount_out (vc_quote c)) || (dq_repayment m <>? aq_amount_in (vc_quote c)))
        "direct maker quote does not match aggregate terms";
  validate_destination_source c (dq_maker m) (dq_destination_strategy m) (dq_output m) (sv_wrapped_native v).

Definition validate_fill_credit (v : AlloyStepValidator) (c : StepValidationContext) (x : PreparedStep) : result string unit :=
  call ← decode (Call := fillCreditCall) (ps_calldata x);
  _ ← validate_order c x (fc_order call) (sv_operator v);
  _ ← validate_mandate c (fc_order call) (fc_mandate call);
  let m := fc_quote call in
  _ ← refuse_if
        ((cq_order m <>? vc_order c)
         || (cq_output m <>? aq_amount_out (vc_quote c))
         || (cq_usdc_due m <>? lq_amount_in (aq_destination (vc_quote c)))
         || (cq_max_cctp_fee m <>? aq_bridge_fee (vc_quote c)))
        "credit maker quote does not match aggregate terms";
  validate_destination_source c (cq_maker m) (cq_destination_strategy m) (cq_output m) (sv_wrapped_native v).

Definition expected_fill_id (c : StepValidationContext) (o : SolventCrossChainOrder) : B256 :=
  proof_id (lq_local_chain (aq_destination (vc_quote c))) (so_destination_settler o) (vc_order c) 0.

Definition validate_settle_direct (v : AlloyStepValidator) (c : StepValidationContext) (x : PreparedStep) : result string unit :=
  call ← decode (Call := settleDirectCall) (ps_calldata x);
  _ ← validate_applications v (sd_order call);
  _ ← validate_order c x (sd_order call) (sv_operator v);
  _ ← validate_mandate c (sd_order call) (sd_mandate call);
  validate_proof_id (sd_fill_proof call) (expected_fill_id c (sd_order call)) "fill proof".

Definition validate_settle_routed (v : AlloyStepValidator) (c : StepValidationContext) (x : PreparedStep) : result string unit :=
  call ← decode (Call := settleRoutedCall) (ps_calldata x);
  _ ← validate_applications v (sr_order call);
  _ ← validate_order c x (sr_order call) (sv_operator v);
  _ ← validate_mandate c (sr_order call) (sr_mandate call);
  _ ← validate_origin_swap_source c (sr_maker_order call);
  validate_proof_id (sr_fill_proof call) (expected_fill_id c (sr_order call)) "fill proof".

Definition dispatch_of (c : StepValidationContext) (x : PreparedStep) : result string dispatchCall :=
  call ← decode (Call := dispatchCall) (ps_calldata x);
  _ ← refuse_if (dc_order call <>? vc_order c) "proof dispatch is bound to another order";
  Ok call.

Definition validate_confirm (v : AlloyStepValidator) (c : StepValidationContext) (x : PreparedStep) : result string unit :=
  call ← decode (Call := confirmDirectRepaymentCall) (ps_calldata x);
  _ ← refuse_if (cf_order call <>? vc_order c) "direct repayment close is bound to another order";
  application ← required_application (sv_origin_application v) "origin application";
  validate_proof_id (cf_proof call) (proof_id (lq_local_chain (aq_origin (vc_quote c))) application (vc_order c) 1) "repayment proof".

Definition validate_complete (c : StepValidationContext) (x : PreparedStep) : result string unit :=
  call ← decode (Call := completeRepaymentCall) (ps_calldata x);
  refuse_if (cr_order call <>? vc_order c) "CCTP completion is bound to another order".

Definition validate (v : AlloyStepValidator) (c : StepValidationContext) (x : PreparedStep) : result string unit :=
  _ ← refuse_if (ps_value x <>? 0) "staged native value must be zero; submission materializes bridge fees";
  match ps_command x, lq_route (aq_origin (vc_quote c)) with
  | Deliver, Direct => validate_fill_direct v c x
  | Deliver, Cctp => validate_fill_credit v c x
  | ClaimOrigin, Direct => validate_settle_direct v c x
  | ClaimOrigin, Cctp => validate_settle_routed v c x
  | DispatchFillProof, _ => call ← dispatch_of c x; validate_fill_envelope c (dc_envelope call) (sv_destination_application v)
  | DispatchRepayment, Direct => call ← dispatch_of c x; validate_repayment_envelope c (dc_envelope call) (sv_origin_application v)
  | DispatchRepayment, Cctp => Err "CCTP routes do not dispatch direct repayment proofs"
  | CloseDestination, Direct => validate_confirm v c x
  | CloseDestination, Cctp => validate_complete c x
  end.

(** ** The checks of a plan *)

(** [plan.steps.iter().find(|step| step.command == command)]. *)
Definition find_step (command : RemoteCommand) (plan : ChainExecutionPlan) : option PreparedStep :=
  snd <$> list_find (λ x, ps_command x = command) (cp_steps plan).

(** The proof a plan dispatches is of the delivery the same plan makes, on the maker's signed terms. *)
Definition validate_plan_proofs (v : AlloyStepValidator) (c : StepValidationContext) (plan : ChainExecutionPlan) : result string unit :=
  match find_step Deliver plan, find_step DispatchFillProof plan with
  | Some deliver, Some dispatch =>
      dispatch ← decode (Call := dispatchCall) (ps_calldata dispatch);
      envelope ← decode_envelope (dc_envelope dispatch) 0;
      fill ← decode_fill (pe_payload envelope);
      application ← required_application (sv_destination_application v) "destination application";
      let chain := lq_local_chain (aq_destination (vc_quote c)) in
      match lq_route (aq_origin (vc_quote c)) with
      | Direct =>
          call ← decode (Call := fillDirectCall) (ps_calldata deliver);
          _ ← validate_applications v (fd_order call);
          refuse_if
            ((vf_recipient fill <>? so_recipient (fd_order call))
             || (vf_origin_strategy fill <>? dq_origin_strategy (fd_quote call))
             || (vf_maker_quote fill <>? direct_quote_hash chain application (fd_quote call)))
            "fill proof does not match the signed direct delivery terms"
      | Cctp =>
          call ← decode (Call := fillCreditCall) (ps_calldata deliver);
          _ ← validate_applications v (fc_order call);
          refuse_if
            ((vf_recipient fill <>? so_recipient (fc_order call))
             || (vf_origin_strategy fill <>? 0)
             || (vf_maker_quote fill <>? credit_quote_hash chain application (fc_quote call)))
            "fill proof does not match the signed credit delivery terms"
      end
  | _, _ => Ok tt
  end.

Fixpoint validate_steps (v : AlloyStepValidator) (c : StepValidationContext) (steps : list PreparedStep) : result string unit :=
  match steps with
  | [] => Ok tt
  | x :: steps' => _ ← validate v c x; validate_steps v c steps'
  end.

Definition validate_settlement (v : AlloyStepValidator) (c : StepValidationContext) (plan : ChainExecutionPlan) : result string unit :=
  _ ← validate_steps v c (cp_steps plan);
  validate_plan_proofs v c plan.

End validation.
