(* ===== verification/CrossSettlement.v ===== *)
(** * What a validated settlement is bound to

    What the checks of [CrossCalls] establish of the calls a chain service stages: the delivery
    and the proof it dispatches are functions of the admitted order, the quote and the maker's
    signed terms; and the calls of the two chains settle one and the same order. *)

From stdpp Require Import strings.
From S2P Require Import Prelude Commands U256 Reservation LedgerEngine LedgerInvariant LedgerStore LedgerService Registry Fills CrossChain CrossStores CrossLocal CrossLocalSteps CrossCalls.

#[local] Open Scope string_scope.
#[local] Open Scope list_scope.
#[local] Open Scope Z_scope.
#[local] Open Scope calls_scope.

(** ** Reading the checks *)

Lemma refuse_Ok b m u : refuse_if b m = Ok u ↔ b = false.
Proof. destruct b, u; cbn; split; congruence. Qed.

(** Split an accepted check into the equalities it rests on. *)
Ltac accepted :=
  repeat (simplify_res;
          repeat match goal with
          | H : refuse_if _ _ = Ok _ |- _ => apply refuse_Ok in H
          | x : () |- _ => destruct x
          end; zbool;
          repeat match goal with H : bool_decide _ = true |- _ => apply bool_decide_eq_true in H end).

Lemma required_Ok a label x : required_application a label = Ok x ↔ a = Some x ∧ x ≠ 0.
Proof.
  unfold required_application. destruct a as [y|]; [|by split; [|intros []]]. destruct (y =? 0) eqn:E; cbn; zbool; split; try done.
  - intros [[= ->] ?]. done.
  - by intros [= ->].
  - by intros [[= ->] ?].
Qed.

Section settlement.
Context `{SettlementAbi} `{Eip712} (keccak256 : list Z → B256).

Lemma decode_envelope_Ok encoded kind e :
  decode_envelope encoded kind = Ok e → encoded = abi_encode (mk_envelope 1 kind (pe_payload e)).
Proof. unfold decode_envelope. intros. accepted. by destruct e; cbn in *; subst. Qed.

Lemma decode_fill_Ok encoded x : decode_fill encoded = Ok x → encoded = abi_encode x.
Proof. unfold decode_fill. intros. by accepted. Qed.

Lemma decode_repayment_Ok encoded x : decode_repayment encoded = Ok x → encoded = abi_encode x.
Proof. unfold decode_repayment. intros. by accepted. Qed.

Lemma proof_word_Ok encoded i label u : validate_proof_id encoded i label = Ok u → length encoded = 32%nat ∧ of_be_bytes encoded = i.
Proof. unfold validate_proof_id, validate_encoded_word. intros. accepted. split; [by apply Nat.eqb_eq|done]. Qed.

(** ** The terms *)

(** An order of the admitted terms. *)
Definition order_terms (c : StepValidationContext) (o : SolventCrossChainOrder) : Prop :=
  let q := vc_quote c in
  hash_order o = vc_order c
  ∧ (so_origin_chain o, so_destination_chain o) = (lq_local_chain (aq_origin q), lq_local_chain (aq_destination q))
  ∧ (so_input_token o, so_input_amount o) = (lq_input_token (aq_origin q), aq_amount_in q)
  ∧ (so_output_token o, so_minimum_output o) = (lq_output_token (aq_destination q), aq_amount_out q)
  ∧ so_route_kind o = route_kind_of (lq_route (aq_origin q)).

(** The mandate an order implies. *)
Definition order_mandate (i : B256) (o : SolventCrossChainOrder) : SolventMandate :=
  mk_sol_mandate i (so_destination_chain o) (so_destination_settler o) (so_proof_verifier o) (so_output_token o) (so_minimum_output o)
    (so_recipient o) (so_fill_deadline o) (so_exclusive_filler o) (so_route_kind o).

(** A delivery as either route's call makes it. *)
Record Delivery := mk_delivery {
  dl_order : SolventCrossChainOrder;
  dl_mandate : SolventMandate;
  dl_quote_order : B256;
  dl_maker : Address;
  dl_strategy : B256;
  dl_origin_strategy : B256;
  dl_output : U256;
  dl_repayment : U256;
  dl_fee : U256;
  dl_quote_hash : B256
}.

Definition delivery_call (c : StepValidationContext) (application : Address) (calldata : list Z) : option Delivery :=
  let chain := lq_local_chain (aq_destination (vc_quote c)) in
  match lq_route (aq_origin (vc_quote c)) with
  | Direct =>
      call ← abi_decode (A := fillDirectCall) calldata;
      let m := fd_quote call in
      Some (mk_delivery (fd_order call) (fd_mandate call) (dq_order m) (dq_maker m) (dq_destination_strategy m) (dq_origin_strategy m)
              (dq_output m) (dq_repayment m) 0 (direct_quote_hash chain application m))
  | Cctp =>
      call ← abi_decode (A := fillCreditCall) calldata;
      let m := fc_quote call in
      Some (mk_delivery (fc_order call) (fc_mandate call) (cq_order m) (cq_maker m) (cq_destination_strategy m) 0
              (cq_output m) (cq_usdc_due m) (cq_max_cctp_fee m) (credit_quote_hash chain application m))
  end.

(** The proof of a delivery: all of it follows from the delivery, the order and the route. *)
Definition fill_proof (c : StepValidationContext) (application : Address) (d : Delivery) : VerifiedFill :=
  let q := vc_quote c in
  mk_verified_fill (vc_order c) (so_route_kind (dl_order d)) (so_destination_chain (dl_order d)) application (so_recipient (dl_order d))
    (so_output_token (dl_order d)) (dl_output d) (dl_maker d) (dl_strategy d) (dl_origin_strategy d)
    (match lq_route (aq_origin q) with Direct => lq_input_token (aq_origin q) | Cctp => lq_input_token (aq_destination q) end)
    (dl_repayment d) (dl_fee d) (dl_quote_hash d)
    (proof_id keccak256 (so_destination_chain (dl_order d)) application (vc_order c) 0).

(** The proof of a direct repayment. *)
Definition repayment_proof (c : StepValidationContext) (application : Address) (o : SolventCrossChainOrder) (maker : Address) : VerifiedRepayment :=
  mk_verified_repayment (vc_order c) (so_origin_chain o) application maker (so_input_token o) (so_input_amount o)
    (proof_id keccak256 (so_origin_chain o) application (vc_order c) 1).

Definition fill_dispatch (c : StepValidationContext) (x : VerifiedFill) : dispatchCall :=
  mk_dispatch (vc_order c) (abi_encode (mk_envelope 1 0 (abi_encode x))).

Definition repayment_dispatch (c : StepValidationContext) (x : VerifiedRepayment) : dispatchCall :=
  mk_dispatch (vc_order c) (abi_encode (mk_envelope 1 1 (abi_encode x))).

(** A delivery on the admitted terms: out of the one quoted source, for the quoted repayment. *)
Record delivery_terms (v : AlloyStepValidator) (c : StepValidationContext) (d : Delivery) : Prop := {
  delivery_order : order_terms c (dl_order d);
  delivery_mandate : dl_mandate d = order_mandate (vc_order c) (dl_order d);
  delivery_filler : so_exclusive_filler (dl_order d) = sv_operator v;
  delivery_quote : dl_quote_order d = vc_order c;
  delivery_output : dl_output d = aq_amount_out (vc_quote c);
  delivery_source : ∃ token, reserve_token (vc_quote c) (sv_wrapped_native v) = Ok token
    ∧ lq_sources (aq_destination (vc_quote c)) = [Build_ReservationSource (dl_maker d) (dl_strategy d) token (dl_output d)];
  delivery_repayment : (dl_repayment d, dl_fee d) =
    match lq_route (aq_origin (vc_quote c)) with
    | Direct => (aq_amount_in (vc_quote c), 0)
    | Cctp => (lq_amount_in (aq_destination (vc_quote c)), aq_bridge_fee (vc_quote c))
    end
}.

Lemma order_accepted c x o operator :
  validate_order c x o operator = Ok tt →
  order_terms c o
  ∧ match ps_command x with
    | Deliver => so_destination_settler o = ps_target x ∧ so_exclusive_filler o = operator
    | ClaimOrigin => so_origin_settler o = ps_target x
    | _ => True
    end.
Proof.
  unfold validate_order, order_terms. intros. accepted. split; [split_and!; congruence|]. destruct (ps_command x); by accepted.
Qed.

Lemma mandate_accepted c o m : validate_mandate c o m = Ok tt → m = order_mandate (vc_order c) o.
Proof. unfold validate_mandate. intros. accepted. destruct m; unfold order_mandate; cbn in *. congruence. Qed.

Lemma source_accepted c maker strategy amount wrapped :
  validate_destination_source c maker strategy amount wrapped = Ok tt →
  ∃ token, reserve_token (vc_quote c) wrapped = Ok token
    ∧ lq_sources (aq_destination (vc_quote c)) = [Build_ReservationSource maker strategy token amount].
Proof.
  unfold validate_destination_source. destruct (lq_sources _) as [|[m h t a] [|]]; try discriminate. intros. accepted. cbn in *. subst.
  by eexists.
Qed.

Lemma applications_accepted v o :
  validate_applications v o = Ok tt →
  sv_origin_application v = Some (so_origin_settler o) ∧ sv_destination_application v = Some (so_destination_settler o)
  ∧ so_origin_settler o ≠ 0 ∧ so_destination_settler o ≠ 0.
Proof.
  unfold validate_applications. intros. accepted. repeat match goal with H : required_application _ _ = _ |- _ => apply required_Ok in H as [? ?] end.
  split_and!; congruence.
Qed.

Lemma value_accepted v c x : validate keccak256 v c x = Ok tt → ps_value x = 0.
Proof. unfold validate. intros. by accepted. Qed.

Lemma deliver_accepted v c x application :
  validate keccak256 v c x = Ok tt → ps_command x = Deliver →
  ∃ d, delivery_call c application (ps_calldata x) = Some d ∧ delivery_terms v c d ∧ so_destination_settler (dl_order d) = ps_target x.
Proof.
  unfold validate. intros Hv Hx. rewrite Hx in Hv. unfold delivery_call. apply bind_Ok in Hv as ([] & _ & Hv).
  destruct (lq_route _) eqn:Hr;
    [unfold validate_fill_direct, decode in Hv|unfold validate_fill_credit, decode in Hv];
    accepted;
    repeat match goal with
    | H : validate_order _ _ _ _ = _ |- _ => apply order_accepted in H as [? Ho]; rewrite Hx in Ho; destruct Ho
    | H : validate_mandate _ _ _ = _ |- _ => apply mandate_accepted in H
    | H : validate_destination_source _ _ _ _ _ = _ |- _ => apply source_accepted in H
    | H : abi_decode _ = Some _ |- _ => rewrite H
    end;
    (eexists; split; [reflexivity|split; [constructor; cbn; rewrite ?Hr; congruence || done|done]]).
Qed.

(** ** Plans *)

Lemma steps_accepted v c steps x : validate_steps keccak256 v c steps = Ok tt → x ∈ steps → validate keccak256 v c x = Ok tt.
Proof.
  induction steps as [|y steps IH]; cbn; [by intros _ ?%elem_of_nil|]. intros. accepted. by match goal with H : _ ∈ _ |- _ => apply elem_of_cons in H as [->|?] end; auto.
Qed.

Lemma find_step_Some command plan x : find_step command plan = Some x → x ∈ cp_steps plan ∧ ps_command x = command.
Proof.
  unfold find_step. intros ([i y] & Hy & ->)%fmap_Some. apply list_find_Some in Hy as (Hi & Hc & _). split; [by eapply list_elem_of_lookup_2|done].
Qed.

Lemma find_step_cons command aggregate chain x steps :
  find_step command (mk_plan aggregate chain (x :: steps))
  = if decide (ps_command x = command) then Some x else find_step command (mk_plan aggregate chain steps).
Proof. unfold find_step. cbn. destruct (decide _); [done|]. cbn. by destruct (list_find _ _) as [[]|]. Qed.

(** A plan of the right shape has each command of its route and role. *)
Lemma shape_has route r plan command :
  plan_shape route r plan = true → command ∈ initial_commands route r → ∃ x, find_step command plan = Some x.
Proof.
  unfold plan_shape. intros [Hs _]%andb_true_iff Hin. apply bool_decide_eq_true in Hs.
  assert (Hc : command ∈ (list_to_set (ps_command <$> cp_steps plan) : gset RemoteCommand)) by (rewrite Hs; by apply elem_of_list_to_set).
  apply elem_of_list_to_set, list_elem_of_fmap in Hc as (x & -> & Hx). unfold find_step.
  destruct (list_find_elem_of (λ y, ps_command y = ps_command x) (cp_steps plan) x Hx eq_refl) as [[i y] ->]. by exists y.
Qed.

(** A fill proof of the admitted terms, but for what only the plan's delivery fixes. *)
Lemma fill_envelope_accepted c encoded a :
  validate_fill_envelope keccak256 c encoded a = Ok tt →
  ∃ envelope fill application src, decode_envelope encoded 0 = Ok envelope ∧ decode_fill (pe_payload envelope) = Ok fill
    ∧ a = Some application ∧ lq_sources (aq_destination (vc_quote c)) = [src]
    ∧ let '(kind, token, amount, fee) := fill_terms (vc_quote c) in
      fill = mk_verified_fill (vc_order c) kind (lq_local_chain (aq_destination (vc_quote c))) application (vf_recipient fill)
               (lq_output_token (aq_destination (vc_quote c))) (aq_amount_out (vc_quote c)) (src_maker src) (src_strategy_hash src)
               (vf_origin_strategy fill) token amount fee (vf_maker_quote fill)
               (proof_id keccak256 (lq_local_chain (aq_destination (vc_quote c))) application (vc_order c) 0).
Proof.
  unfold validate_fill_envelope. intros Hv. apply bind_Ok in Hv as (envelope & He & Hv). apply bind_Ok in Hv as (fill & Hf & Hv).
  apply bind_Ok in Hv as (application & [-> _]%required_Ok & Hv). exists envelope, fill, application.
  destruct (lq_sources _) as [|src [|]]; try discriminate. exists src. split_and!; try done.
  destruct (fill_terms _) as [[[kind token] amount] fee]. accepted. destruct fill; cbn in *. congruence.
Qed.

Lemma plan_proofs_accepted v c plan x y dispatch envelope fill application :
  find_step Deliver plan = Some x → find_step DispatchFillProof plan = Some y →
  abi_decode (ps_calldata y) = Some dispatch → decode_envelope (dc_envelope dispatch) 0 = Ok envelope →
  decode_fill (pe_payload envelope) = Ok fill → sv_destination_application v = Some application →
  validate_plan_proofs v c plan = Ok tt →
  ∃ d, delivery_call c application (ps_calldata x) = Some d
    ∧ sv_origin_application v = Some (so_origin_settler (dl_order d)) ∧ application = so_destination_settler (dl_order d)
    ∧ vf_recipient fill = so_recipient (dl_order d) ∧ vf_origin_strategy fill = dl_origin_strategy d ∧ vf_maker_quote fill = dl_quote_hash d.
Proof.
  intros Hx Hy Hd He Hf Ha. unfold validate_plan_proofs, decode, delivery_call. rewrite Hx, Hy, Hd. cbn. rewrite He. cbn. rewrite Hf. cbn.
  intros Hv. apply bind_Ok in Hv as (a & [Ha' _]%required_Ok & Hv). rewrite Ha in Ha'. injection Ha' as <-.
  destruct (lq_route _); accepted;
    match goal with H : abi_decode (ps_calldata x) = Some _, Hv : validate_applications _ _ = _ |- _ =>
      rewrite H; apply applications_accepted in Hv as (? & Hd' & _); rewrite Ha in Hd'; injection Hd' as -> end;
    by eexists; split_and!; cbn.
Qed.

(** The proof dispatched, read off the checks of its own call and of the plan. *)
Lemma fill_dispatch_accepted v c plan x y :
  find_step Deliver plan = Some x → find_step DispatchFillProof plan = Some y →
  validate_settlement keccak256 v c plan = Ok tt →
  ∃ application d, sv_destination_application v = Some application ∧ sv_origin_application v = Some (so_origin_settler (dl_order d))
    ∧ delivery_call c application (ps_calldata x) = Some d ∧ delivery_terms v c d
    ∧ so_destination_settler (dl_order d) = application ∧ ps_target x = application
    ∧ abi_decode (ps_calldata y) = Some (fill_dispatch c (fill_proof c application d)).
Proof.
  intros Hx Hy Hv. apply bind_Ok in Hv as ([] & Hs & Hp).
  destruct (find_step_Some _ _ _ Hx) as [Hxi Hxc]. destruct (find_step_Some _ _ _ Hy) as [Hyi Hyc].
  pose proof (steps_accepted _ _ _ _ Hs Hxi) as Hvx. pose proof (steps_accepted _ _ _ _ Hs Hyi) as Hvy.
  unfold validate in Hvy. rewrite Hyc in Hvy. apply bind_Ok in Hvy as ([] & _ & Hvy). apply bind_Ok in Hvy as (call & Hcall & Hvy).
  unfold dispatch_of, decode in Hcall. accepted.
  apply fill_envelope_accepted in Hvy as (envelope & fill & application & src & He & Hf & Ha & Hsrc & Hfill).
  match goal with H : abi_decode (ps_calldata y) = _ |- _ => rename H into Hd end.
  destruct (plan_proofs_accepted _ _ _ _ _ _ _ _ _ Hx Hy Hd He Hf Ha Hp) as (d & Hcall & Ho & Happ & Hr & Hos & Hq).
  destruct (deliver_accepted v c x application Hvx Hxc) as (d' & Hd' & Ht & Htarget). rewrite Hcall in Hd'. injection Hd' as <-.
  exists application, d. split_and!; try done; [congruence|]. rewrite Hd. f_equal. destruct call as [i envelope']. cbn in *. subst i.
  unfold fill_dispatch. f_equal. rewrite (decode_envelope_Ok _ _ _ He), (decode_fill_Ok _ _ Hf). do 3 f_equal.
  destruct Ht as [(_ & [= ? ?] & _ & [= ? ?] & Hk) _ _ _ Hout (token & _ & Hs') Hrep]. rewrite Hs' in Hsrc. injection Hsrc as <-. cbn in Hfill.
  unfold fill_proof, fill_terms in *. destruct (lq_route _); injection Hrep as ? ?; rewrite Hfill, Hr, Hos, Hq; cbn in *; f_equal; congruence.
Qed.

(** ** The calls of the origin chain, and the close of the destination *)

(** A claim as either route's call makes it. *)
Record ClaimCall := mk_claim_call {
  ca_order : SolventCrossChainOrder;
  ca_mandate : SolventMandate;
  ca_fill_proof : list Z;
  ca_claim : Claim
}.

Definition claim_call (c : StepValidationContext) (calldata : list Z) : option ClaimCall :=
  match lq_route (aq_origin (vc_quote c)) with
  | Direct =>
      call ← abi_decode (A := settleDirectCall) calldata;
      Some (mk_claim_call (sd_order call) (sd_mandate call) (sd_fill_proof call) (sd_claim call))
  | Cctp =>
      call ← abi_decode (A := settleRoutedCall) calldata;
      Some (mk_claim_call (sr_order call) (sr_mandate call) (sr_fill_proof call) (sr_claim call))
  end.

(** A claim on the admitted terms, presenting the identifier of the order's fill. *)
Record claim_terms (v : AlloyStepValidator) (c : StepValidationContext) (k : ClaimCall) : Prop := {
  claim_order : order_terms c (ca_order k);
  claim_mandate : ca_mandate k = order_mandate (vc_order c) (ca_order k);
  claim_origin : sv_origin_application v = Some (so_origin_settler (ca_order k));
  claim_destination : sv_destination_application v = Some (so_destination_settler (ca_order k));
  claim_proof : of_be_bytes (ca_fill_proof k)
    = proof_id keccak256 (so_destination_chain (ca_order k)) (so_destination_settler (ca_order k)) (vc_order c) 0
}.

Lemma claim_accepted v c x :
  validate keccak256 v c x = Ok tt → ps_command x = ClaimOrigin →
  ∃ k, claim_call c (ps_calldata x) = Some k ∧ claim_terms v c k ∧ so_origin_settler (ca_order k) = ps_target x.
Proof.
  unfold validate. intros Hv Hx. rewrite Hx in Hv. unfold claim_call. apply bind_Ok in Hv as ([] & _ & Hv).
  destruct (lq_route _) eqn:Hr;
    [unfold validate_settle_direct, decode in Hv|unfold validate_settle_routed, decode in Hv];
    accepted;
    repeat match goal with
    | H : validate_order _ _ _ _ = _ |- _ => apply order_accepted in H as [Ht Ho]; rewrite Hx in Ho
    | H : validate_mandate _ _ _ = _ |- _ => apply mandate_accepted in H
    | H : validate_applications _ _ = _ |- _ => apply applications_accepted in H as (? & ? & _)
    | H : validate_proof_id _ _ _ = _ |- _ => apply proof_word_Ok in H as [_ Hw]
    | H : abi_decode _ = Some _ |- _ => rewrite H
    end;
    (eexists; split; [reflexivity|split; [constructor; cbn [ca_order ca_mandate ca_fill_proof]; try done|done]]); rewrite Hw; unfold expected_fill_id;
    destruct Ht as (_ & [= ? ->] & _); done.
Qed.

Lemma repayment_accepted v c x o src :
  validate keccak256 v c x = Ok tt → ps_command x = DispatchRepayment → order_terms c o → lq_sources (aq_destination (vc_quote c)) = [src] →
  ∃ application, sv_origin_application v = Some application
    ∧ abi_decode (ps_calldata x) = Some (repayment_dispatch c (repayment_proof c application o (src_maker src))).
Proof.
  unfold validate. intros Hv Hx (_ & [= Hoc ?] & [= Ht Ha] & _) Hsrc. rewrite Hx in Hv. apply bind_Ok in Hv as ([] & _ & Hv). destruct (lq_route _); [|discriminate].
  apply bind_Ok in Hv as (call & Hcall & Hv). unfold dispatch_of, decode in Hcall. accepted.
  unfold validate_repayment_envelope in Hv. rewrite Hsrc in Hv. apply bind_Ok in Hv as (envelope & He & Hv). apply bind_Ok in Hv as (r & Hr & Hv).
  apply bind_Ok in Hv as (application & [Happ _]%required_Ok & Hv). exists application. split; [done|].
  match goal with H : abi_decode (ps_calldata x) = _ |- _ => rewrite H end. f_equal. destruct call as [i envelope']. cbn in *. subst i.
  unfold repayment_dispatch. f_equal. rewrite (decode_envelope_Ok _ _ _ He), (decode_repayment_Ok _ _ Hr). do 3 f_equal. accepted.
  destruct r; unfold repayment_proof; cbn in *. congruence.
Qed.

Lemma close_accepted v c x :
  validate keccak256 v c x = Ok tt → ps_command x = CloseDestination → lq_route (aq_origin (vc_quote c)) = Direct →
  ∃ call application, abi_decode (A := confirmDirectRepaymentCall) (ps_calldata x) = Some call ∧ cf_order call = vc_order c
    ∧ sv_origin_application v = Some application
    ∧ of_be_bytes (cf_proof call) = proof_id keccak256 (lq_local_chain (aq_origin (vc_quote c))) application (vc_order c) 1.
Proof.
  unfold validate. intros Hv Hx Hr. rewrite Hx, Hr in Hv. unfold validate_confirm, decode in Hv. accepted.
  repeat match goal with
  | H : validate_proof_id _ _ _ = _ |- _ => apply proof_word_Ok in H as [_ ?]
  | H : required_application _ _ = _ |- _ => apply required_Ok in H as [? _]
  end. by eexists _, _.
Qed.

End settlement.

(** ** Staging *)

Section staging.
Context {LSt PSt QSt SSt ESt : Type} `{HL : LedgerStore LSt} `{HLL : !LedgerStoreLaws LSt} `{HP : PreparationStore PSt} `{HPL : !PreparationStoreLaws PSt}
  `{HQ : LegQuoteStore QSt} `{HQL : !LegQuoteStoreLaws QSt} `{HT : StepStore SSt} `{HTL : !StepStoreLaws SSt} `{HE : Execution ESt} `{HEL : !ExecutionLaws ESt}.
Context `{SettlementAbi} `{Eip712} (keccak256 : list Z → B256).
Abbreviation Chain := (ChainService LSt PSt QSt SSt ESt).
Implicit Types (s : Chain) (w : World).

(** The call a service holds for a command of an order. *)
Definition staged_call s (o : CrossChainOrderId) (command : RemoteCommand) : option PreparedStep :=
  snd <$> staged (step_view (ch_steps s)) !! (o, command).

(** A plan the service takes in is one its validator accepts, and each of its calls is then held. *)
Lemma stage_validated_Ok config w c plan s s' :
  step_store_ok (ch_steps s) → stage_validated config w c plan s = (Ok tt, s') →
  (∃ validate, w_validator w = Some validate ∧ validate c plan = Ok tt)
  ∧ ∀ x, x ∈ cp_steps plan → staged_call s' (vc_order c) (ps_command x) = Some x.
Proof.
  intros Hs. unfold stage_validated. case_match; [discriminate|]. unfold mbind, cmd_bind, lift.
  destruct (check_steps _ _ _ _); [|discriminate]. case_match; [discriminate|].
  destruct (w_validator w) as [validate|]; [|discriminate]. cbn [ok_or]. destruct (validate c plan) as [[]|] eqn:Hv; [|discriminate]. cbn [map_err].
  unfold attempt, with_steps, zoom. pose proof (step_stage_law (vc_order c) plan (ch_steps s) Hs) as Hlaw. unfold outcome in Hlaw.
  destruct (step_stage _ _ _) as [[u|e] x]; cbn [map_err]; [|by destruct e; discriminate].
  intros [= <-]. split; [by eexists|]. intros y Hy. unfold staged_call. cbn. destruct Hlaw as (_ & _ & _ & _ & Hall & _). cbn [snd] in Hall. by rewrite (Hall y Hy).
Qed.

Lemma steps_stage_Ok config w v c plan s s' command :
  step_store_ok (ch_steps s) → w_validator w = Some (validate_settlement keccak256 v) → steps_stage config w c plan s = (Ok tt, s') →
  command ∈ initial_commands (lq_route (aq_origin (vc_quote c))) (vc_role c) →
  validate_settlement keccak256 v c plan = Ok tt
  ∧ ∃ x, find_step command plan = Some x ∧ staged_call s' (vc_order c) command = Some x ∧ validate keccak256 v c x = Ok tt.
Proof.
  intros Hs Hw Hstage Hin. unfold steps_stage, initial_plan_shape in Hstage. case_match eqn:Hshape; [discriminate|].
  apply negb_false_iff in Hshape. destruct (stage_validated_Ok _ _ _ _ _ _ Hs Hstage) as [(f & Hf & Hv) Hall].
  rewrite Hw in Hf. injection Hf as <-. split; [done|]. destruct (shape_has _ _ _ _ Hshape Hin) as [x Hx]. exists x.
  destruct (find_step_Some _ _ _ Hx) as [Hi <-]. split_and!; [done|by apply Hall|]. apply bind_Ok in Hv as ([] & Hsteps & _). by eapply steps_accepted.
Qed.

(** C7: a destination service stages an order only as a delivery on the quoted terms, to the order's
    own settler and by this operator, out of the one source the quote reserved and for the quoted
    repayment, together with the proof of precisely that delivery: every field of the proof that
    is dispatched follows from the delivery, its recipient and the maker's signed quote included. *)
Theorem staged_delivery_is_proved config w v c plan s s' :
  step_store_ok (ch_steps s) → w_validator w = Some (validate_settlement keccak256 v) → vc_role c = Destination →
  steps_stage config w c plan s = (Ok tt, s') →
  ∃ application d x y,
    staged_call s' (vc_order c) Deliver = Some x ∧ staged_call s' (vc_order c) DispatchFillProof = Some y
    ∧ sv_destination_application v = Some application ∧ ps_target x = application ∧ so_destination_settler (dl_order d) = application
    ∧ ps_value x = 0 ∧ ps_value y = 0
    ∧ delivery_call c application (ps_calldata x) = Some d ∧ delivery_terms v c d
    ∧ abi_decode (ps_calldata y) = Some (fill_dispatch c (fill_proof keccak256 c application d)).
Proof.
  intros Hs Hw Hr Hstage. destruct (steps_stage_Ok config w v c plan s s' Deliver) as (Hv & x & Hx & Hsx & Hvx); try done; [rewrite Hr; by destruct (lq_route _); cbn; set_solver|].
  destruct (steps_stage_Ok config w v c plan s s' DispatchFillProof) as (_ & y & Hy & Hsy & Hvy); try done; [rewrite Hr; by destruct (lq_route _); cbn; set_solver|].
  destruct (fill_dispatch_accepted keccak256 v c plan x y Hx Hy Hv) as (application & d & ? & _ & ? & ? & ? & ? & ?). exists application, d, x, y.
  split_and!; try done; by eapply value_accepted.
Qed.

(** C8: two services that stage a direct order under one identifier and for one quote, as the proxy asks both
    of them to, stage the same order, the order hash having no collisions: the claim carries the order and
    the mandate of the delivery and presents the identifier of the very fill proof the destination dispatches, and
    the destination closes on the identifier of the very repayment proof the origin dispatches, which repays the
    maker who delivered. *)
Theorem both_chains_settle_one_order config config' w w' v v' c c' plan plan' s t s' t' :
  (∀ o o', hash_order o = hash_order o' → o = o') →
  step_store_ok (ch_steps s) → step_store_ok (ch_steps t) →
  w_validator w = Some (validate_settlement keccak256 v) → w_validator w' = Some (validate_settlement keccak256 v') →
  vc_role c = Destination → vc_role c' = Origin → vc_order c' = vc_order c → vc_quote c' = vc_quote c →
  lq_route (aq_origin (vc_quote c)) = Direct →
  steps_stage config w c plan s = (Ok tt, s') → steps_stage config' w' c' plan' t = (Ok tt, t') →
  ∃ x y z k l d claim close fill repayment,
    staged_call s' (vc_order c) Deliver = Some x ∧ delivery_call c (ps_target x) (ps_calldata x) = Some d
    ∧ staged_call s' (vc_order c) DispatchFillProof = Some y ∧ abi_decode (ps_calldata y) = Some (fill_dispatch c fill)
    ∧ staged_call s' (vc_order c) CloseDestination = Some z ∧ abi_decode (A := confirmDirectRepaymentCall) (ps_calldata z) = Some close
    ∧ staged_call t' (vc_order c) ClaimOrigin = Some k ∧ claim_call c' (ps_calldata k) = Some claim
    ∧ staged_call t' (vc_order c) DispatchRepayment = Some l ∧ abi_decode (ps_calldata l) = Some (repayment_dispatch c' repayment)
    ∧ ca_order claim = dl_order d ∧ ca_mandate claim = dl_mandate d ∧ ps_target k = so_origin_settler (dl_order d)
    ∧ of_be_bytes (ca_fill_proof claim) = vf_fill fill
    ∧ of_be_bytes (cf_proof close) = vr_repayment repayment
    ∧ vr_maker repayment = dl_maker d ∧ vr_amount repayment = dl_repayment d.
Proof.
  intros Hinj Hs Ht Hw Hw' Hr Hr' Ho Hq Hroute Hstage Hstage'.
  destruct (steps_stage_Ok config w v c plan s s' Deliver) as (Hv & x & Hx & Hsx & Hvx); try done; [rewrite Hr, Hroute; cbn; set_solver|].
  destruct (steps_stage_Ok config w v c plan s s' DispatchFillProof) as (_ & y & Hy & Hsy & _); try done; [rewrite Hr, Hroute; cbn; set_solver|].
  destruct (steps_stage_Ok config w v c plan s s' CloseDestination) as (_ & z & Hz & Hsz & Hvz); try done; [rewrite Hr, Hroute; cbn; set_solver|].
  destruct (steps_stage_Ok config' w' v' c' plan' t t' ClaimOrigin) as (_ & k & Hk & Hsk & Hvk); try done; [rewrite Hr', Hq, Hroute; cbn; set_solver|].
  destruct (steps_stage_Ok config' w' v' c' plan' t t' DispatchRepayment) as (_ & l & Hl & Hsl & Hvl); try done; [rewrite Hr', Hq, Hroute; cbn; set_solver|].
  rewrite Ho in Hsk, Hsl.
  destruct (fill_dispatch_accepted keccak256 v c plan x y Hx Hy Hv) as (application & d & Happ & Horigin & Hcall & Hterms & Hsettler & Htarget & Hdispatch).
  destruct (claim_accepted keccak256 v' c' k Hvk (proj2 (find_step_Some _ _ _ Hk))) as (claim & Hclaim & Hct & Hkt).
  destruct Hterms as [Hdo Hdm _ _ Hout (token & _ & Hsrc) Hrep]. destruct Hct as [Hco Hcm Hcor Hcd Hcp].
  assert (ca_order claim = dl_order d) as Hsame by (apply Hinj; destruct Hdo as [-> _], Hco as [-> _]; done).
  rewrite <-Hq in Hsrc.
  destruct (repayment_accepted keccak256 v' c' l (ca_order claim) _ Hvl (proj2 (find_step_Some _ _ _ Hl)) Hco Hsrc) as (origin & Hor & Hrepay).
  destruct (close_accepted keccak256 v c z Hvz (proj2 (find_step_Some _ _ _ Hz)) Hroute) as (close & origin' & Hclose & _ & Hor' & Hword).
  rewrite Hor in Hcor. rewrite Hor' in Horigin. injection Hcor as ->. injection Horigin as ->. subst application. rewrite <-Htarget in Hcall, Hdispatch.
  exists x, y, z, k, l, d, claim, close. eexists _, _. split_and!; try done; cbn.
  - by rewrite Hcm, Hdm, Hsame, Ho.
  - by rewrite <-Hkt, Hsame.
  - rewrite Hcp, Hsame, Ho. congruence.
  - rewrite Hword, Hsame, Ho. destruct Hdo as (_ & [= -> _] & _). done.
  - rewrite Hroute in Hrep. injection Hrep as -> _. destruct Hco as (_ & _ & [= _ ->] & _). by rewrite Hq.
Qed.

End staging.
