(* ===== verification/CrossAuthor.v ===== *)
(** * From a signed order to the calls of both chains

    [crates/adapters/src/crosschain/draft.rs]: the order and the commitment a sponsor is asked to
    sign for a quote, and the authorization its signature makes of them; and
    [crates/adapters/src/crosschain/direct.rs]: the plans of both chains, written from an
    authorization and the maker's signature over its quote.

    Keys, signature recovery and the hash of the sponsor's commitment come from [alloy]: they are
    the record [Signer] and the class [SponsorSignatures]. *)

From stdpp Require Import strings.
From S2P Require Import Prelude U256 Reservation CrossChain CrossProxy CrossCalls CrossSettlement.

#[local] Open Scope string_scope.
#[local] Open Scope list_scope.
#[local] Open Scope Z_scope.
#[local] Open Scope calls_scope.

(** ** The draft of an order *)

Definition DIRECT_ROUTE_KIND : Z := 1.
Definition MAX_U48 : Z := 2 ^ 48 - 1.
Definition MIN_FILL_WINDOW_SECS : Z := 120.
Definition MANDATE_WITNESS_TYPESTRING : string :=
  "bytes32 orderId,uint256 destinationChainId,address destinationSettler,address fillProofVerifier,address outputToken,uint256 minimumOutputAmount,address recipient,uint48 fillDeadline,address exclusiveFiller,uint8 routeKind".

Record Compact := mk_compact {
  cp_arbiter : Address;
  cp_sponsor : Address;
  cp_nonce : U256;
  cp_expires : U256;
  cp_lock_tag : Z;
  cp_token : Address;
  cp_amount : U256;
  cp_mandate : SolventMandate
}.

Record DirectOrderDraftConfig := mk_draft_config {
  dc_origin_chain : Z;
  dc_destination_chain : Z;
  dc_origin_settler : Address;
  dc_compact : Address;
  dc_destination_settler : Address;
  dc_proof_verifier : Address;
  dc_exclusive_filler : Address;
  dc_lock_tag : Z
}.

Record DirectOrderDraftRequest := mk_draft_request {
  dr_quote : AggregateQuote;
  dr_sponsor : Address;
  dr_recipient : Address;
  dr_order_nonce : U256;
  dr_compact_nonce : U256;
  dr_compact_expires : Z
}.

(** [SolventCompactOrder] and [SolventCompactMandate] have the fields of the settlement's. *)
Record CompactCommitmentTerms := mk_commitment {
  ct_arbiter : Address;
  ct_sponsor : Address;
  ct_nonce : U256;
  ct_expires : Z;
  ct_lock_tag : Z;
  ct_token : Address;
  ct_amount : U256;
  ct_mandate : DirectSettlementMandate
}.

Record DirectOrderDraft := mk_draft {
  df_aggregate : AggregateQuoteId;
  df_order_id : CrossChainOrderId;
  df_compact : Address;
  df_order : DirectSettlementOrder;
  df_commitment : CompactCommitmentTerms
}.

(** The lock tag's twelve bytes before the token's twenty. *)
Definition compact_id (lock_tag : Z) (token : Address) : U256 := of_be_bytes (be_bytes 12 lock_tag ++ be_bytes 20 token).

Definition DirectOrderDraftBuilder_new (b : DirectOrderDraftConfig) : result string DirectOrderDraftConfig :=
  _ ← refuse_if
        ((dc_origin_chain b =? dc_destination_chain b)
         || (dc_origin_settler b =? 0) || (dc_compact b =? 0) || (dc_destination_settler b =? 0)
         || (dc_proof_verifier b =? 0) || (dc_exclusive_filler b =? 0))
        "direct order draft configuration is incomplete";
  Ok b.

(** The order on the wire, its times cut to 48 bits already. *)
Definition sol_order (o : DirectSettlementOrder) : SolventCrossChainOrder :=
  mk_sol_order (do_user o) (do_nonce o) (do_origin_chain o) (do_origin_settler o) (do_compact o) (do_compact_id o) (do_compact_expires o)
    (do_input_token o) (do_input_amount o) (do_destination_chain o) (do_output_token o) (do_minimum_output o) (do_recipient o)
    (do_destination_settler o) (do_proof_verifier o) (do_exclusive_filler o) (do_exclusivity_ends o) (do_fill_deadline o) (do_route_kind o).

Definition sol_mandate (m : DirectSettlementMandate) : SolventMandate :=
  mk_sol_mandate (dm_order m) (dm_destination_chain m) (dm_destination_settler m) (dm_proof_verifier m) (dm_output_token m)
    (dm_minimum_output m) (dm_recipient m) (dm_fill_deadline m) (dm_exclusive_filler m) (dm_route_kind m).

(** The sponsor's wallet: the hash of a mandate, the digest of a commitment in the domain of The
    Compact on a chain, and who signed a digest. *)
Class SponsorSignatures := {
  hash_mandate : SolventMandate → B256;
  compact_digest : Z → Address → Compact → B256;
  Signature : Type;
  signature_from_raw : list Z → option Signature;
  recover_address : Signature → B256 → option Address
}.

Section draft.
Context `{Eip712} `{SponsorSignatures} (keccak256 : list Z → B256) (b : DirectOrderDraftConfig).

Definition draft_order (rq : DirectOrderDraftRequest) : DirectSettlementOrder :=
  let q := dr_quote rq in
  mk_direct_order (dr_sponsor rq) (dr_order_nonce rq) (dc_origin_chain b) (dc_origin_settler b) (dc_compact b)
    (compact_id (dc_lock_tag b) (lq_input_token (aq_origin q))) (dr_compact_expires rq) (lq_input_token (aq_origin q)) (aq_amount_in q)
    (dc_destination_chain b) (lq_output_token (aq_destination q)) (aq_amount_out q) (dr_recipient rq) (dc_destination_settler b)
    (dc_proof_verifier b) (dc_exclusive_filler b) (aq_expires_at q) (aq_expires_at q) DIRECT_ROUTE_KIND.

Definition draft_mandate (rq : DirectOrderDraftRequest) (order_id : B256) : DirectSettlementMandate :=
  let q := dr_quote rq in
  mk_mandate order_id (dc_destination_chain b) (dc_destination_settler b) (dc_proof_verifier b) (lq_output_token (aq_destination q))
    (aq_amount_out q) (dr_recipient rq) (aq_expires_at q) (dc_exclusive_filler b) DIRECT_ROUTE_KIND.

Definition draft (rq : DirectOrderDraftRequest) (now : Z) : result string DirectOrderDraft :=
  let q := dr_quote rq in
  _ ← validate_aggregate_binding keccak256 q now;
  _ ← refuse_if
        (negb (bool_decide (lq_route (aq_origin q) = Direct))
         || (lq_local_chain (aq_origin q) <>? dc_origin_chain b)
         || (lq_local_chain (aq_destination q) <>? dc_destination_chain b))
        "quote does not belong to the configured direct route";
  _ ← refuse_if ((dr_sponsor rq =? 0) || (dr_recipient rq =? 0)) "sponsor and recipient must be non-zero";
  _ ← refuse_if (negb (length (lq_sources (aq_destination q)) =? 1)%nat) "direct settlement requires exactly one destination maker source";
  let deadline := aq_expires_at q in
  _ ← refuse_if (deadline <? u64_saturating_add now MIN_FILL_WINDOW_SECS) "quote expires too soon; request a fresh price";
  _ ← refuse_if ((MAX_U48 <? deadline) || (dr_compact_expires rq <=? deadline))
        "Compact expiry must be later than the quoted fill deadline";
  let order := draft_order rq in
  let order_id := hash_order (sol_order order) in
  Ok (mk_draft (aq_id q) order_id (dc_compact b) order
        (mk_commitment (dc_origin_settler b) (dr_sponsor rq) (dr_compact_nonce rq) (dr_compact_expires rq) (dc_lock_tag b)
           (lq_input_token (aq_origin q)) (aq_amount_in q) (draft_mandate rq order_id))).

(** What the sponsor signs. *)
Definition commitment_digest (t : CompactCommitmentTerms) : B256 :=
  compact_digest (dc_origin_chain b) (dc_compact b)
    (mk_compact (ct_arbiter t) (ct_sponsor t) (ct_nonce t) (ct_expires t) (ct_lock_tag t) (ct_token t) (ct_amount t) (sol_mandate (ct_mandate t))).

Definition authorize (rq : DirectOrderDraftRequest) (sponsor_signature : list Z) (now : Z) : result string DirectOrderAuthorization :=
  d ← draft rq now;
  let t := df_commitment d in
  signature ← ok_or (signature_from_raw sponsor_signature) "Compact sponsor signature is malformed";
  recovered ← ok_or (recover_address signature (commitment_digest t)) "Compact sponsor signature is invalid";
  _ ← refuse_if (recovered <>? dr_sponsor rq) "Compact sponsor signature belongs to another account";
  Ok (mk_direct_authorization (dr_quote rq) (df_order_id d) (df_order d) (ct_mandate t)
        (mk_claim sponsor_signature (ct_sponsor t) (ct_nonce t) (ct_expires t) (hash_mandate (sol_mandate (ct_mandate t)))
           MANDATE_WITNESS_TYPESTRING (do_compact_id (df_order d)) (ct_amount t) (ct_arbiter t) (ct_amount t))).

End draft.

(** ** The author of direct plans *)

Record DirectPlanAuthorConfig := mk_author_config {
  ac_origin_chain : Z;
  ac_destination_chain : Z;
  ac_origin_settler : Address;
  ac_destination_app : Address;
  ac_origin_outbox : Address;
  ac_destination_outbox : Address;
  ac_origin_strategy : StrategyHash
}.

(** A local key: its address, and its signature over a digest. *)
Record Signer := mk_signer { signer_address : Address; sign65 : B256 → list Z }.

Record AlloyDirectPlanAuthor := mk_author { pa_config : DirectPlanAuthorConfig; pa_maker : Signer }.

Definition AlloyDirectPlanAuthor_new (a : DirectPlanAuthorConfig) (maker : Signer) : result string AlloyDirectPlanAuthor :=
  _ ← refuse_if
        ((ac_origin_chain a =? ac_destination_chain a)
         || (ac_origin_settler a =? 0) || (ac_destination_app a =? 0) || (ac_origin_outbox a =? 0) || (ac_destination_outbox a =? 0)
         || (ac_origin_strategy a =? 0))
        "direct plan author configuration is incomplete";
  Ok (mk_author a maker).

Definition u48 (value : Z) (name : string) : result string Z :=
  _ ← refuse_if (2 ^ 48 <=? value) (name +:+ " exceeds uint48");
  Ok value.

Definition author_order (d : DirectOrderAuthorization) : result string SolventCrossChainOrder :=
  let o := da_order d in
  exclusivity_ends ← u48 (do_exclusivity_ends o) "exclusivity end";
  fill_deadline ← u48 (do_fill_deadline o) "fill deadline";
  Ok (mk_sol_order (do_user o) (do_nonce o) (do_origin_chain o) (do_origin_settler o) (do_compact o) (do_compact_id o) (do_compact_expires o)
        (do_input_token o) (do_input_amount o) (do_destination_chain o) (do_output_token o) (do_minimum_output o) (do_recipient o)
        (do_destination_settler o) (do_proof_verifier o) (do_exclusive_filler o) exclusivity_ends fill_deadline (do_route_kind o)).

Definition author_mandate (d : DirectOrderAuthorization) : result string SolventMandate :=
  let m := da_mandate d in
  fill_deadline ← u48 (dm_fill_deadline m) "mandate fill deadline";
  Ok (mk_sol_mandate (dm_order m) (dm_destination_chain m) (dm_destination_settler m) (dm_proof_verifier m) (dm_output_token m)
        (dm_minimum_output m) (dm_recipient m) fill_deadline (dm_exclusive_filler m) (dm_route_kind m)).

Section author.
Context `{SettlementAbi} `{Eip712} (keccak256 : list Z → B256) (author : AlloyDirectPlanAuthor).

Definition author_quote (d : DirectOrderAuthorization) (s : ReservationSource) (expires : Z) : DirectMakerQuote :=
  mk_direct_quote (da_order_id d) (signer_address (pa_maker author)) (src_strategy_hash s) (ac_origin_strategy (pa_config author))
    (aq_amount_out (da_quote d)) (aq_amount_in (da_quote d)) (do_nonce (da_order d)) expires.

Definition fill_id (d : DirectOrderAuthorization) : B256 :=
  proof_id keccak256 (ac_destination_chain (pa_config author)) (ac_destination_app (pa_config author)) (da_order_id d) 0.

Definition repayment_id (d : DirectOrderAuthorization) : B256 :=
  proof_id keccak256 (ac_origin_chain (pa_config author)) (ac_origin_settler (pa_config author)) (da_order_id d) 1.

Definition author_fill (d : DirectOrderAuthorization) (s : ReservationSource) (maker_quote_hash : B256) : VerifiedFill :=
  let a := pa_config author in
  let q := da_quote d in
  mk_verified_fill (da_order_id d) 1 (ac_destination_chain a) (ac_destination_app a) (do_recipient (da_order d))
    (lq_output_token (aq_destination q)) (aq_amount_out q) (signer_address (pa_maker author)) (src_strategy_hash s) (ac_origin_strategy a)
    (lq_input_token (aq_origin q)) (aq_amount_in q) 0 maker_quote_hash (fill_id d).

Definition author_repayment (d : DirectOrderAuthorization) : VerifiedRepayment :=
  let a := pa_config author in
  let q := da_quote d in
  mk_verified_repayment (da_order_id d) (ac_origin_chain a) (ac_origin_settler a) (signer_address (pa_maker author))
    (lq_input_token (aq_origin q)) (aq_amount_in q) (repayment_id d).

Definition author_claim (d : DirectOrderAuthorization) : Claim :=
  let k := da_claim d in
  mk_sol_claim [] (cc_signature k) (cc_sponsor k) (cc_nonce k) (cc_expires k) (cc_witness k) (cc_typestring k) (cc_id k) (cc_allocated k)
    [mk_component (of_be_bytes (be_bytes 20 (cc_claimant k))) (cc_claimant_amount k)].

Definition fill_envelope (d : DirectOrderAuthorization) (s : ReservationSource) (maker_quote_hash : B256) : list Z :=
  abi_encode (mk_envelope 1 0 (abi_encode (author_fill d s maker_quote_hash))).

Definition repayment_envelope (d : DirectOrderAuthorization) : list Z := abi_encode (mk_envelope 1 1 (abi_encode (author_repayment d))).

Definition author_origin_plan (d : DirectOrderAuthorization) (o : SolventCrossChainOrder) (m : SolventMandate) : ChainExecutionPlan :=
  let a := pa_config author in
  mk_plan (aq_id (da_quote d)) (ac_origin_chain a)
    [mk_step ClaimOrigin (ac_origin_settler a) 0 (abi_encode (mk_settle_direct o m (be_bytes 32 (fill_id d)) (author_claim d)));
     mk_step DispatchRepayment (ac_origin_outbox a) 0 (abi_encode (mk_dispatch (da_order_id d) (repayment_envelope d)))].

Definition author_destination_plan (d : DirectOrderAuthorization) (s : ReservationSource) (o : SolventCrossChainOrder) (m : SolventMandate)
    (maker_quote : DirectMakerQuote) : ChainExecutionPlan :=
  let a := pa_config author in
  let maker_quote_hash := direct_quote_hash (ac_destination_chain a) (ac_destination_app a) maker_quote in
  mk_plan (aq_id (da_quote d)) (ac_destination_chain a)
    [mk_step Deliver (ac_destination_app a) 0 (abi_encode (mk_fill_direct o m maker_quote (sign65 (pa_maker author) maker_quote_hash)));
     mk_step DispatchFillProof (ac_destination_outbox a) 0 (abi_encode (mk_dispatch (da_order_id d) (fill_envelope d s maker_quote_hash)));
     mk_step CloseDestination (ac_destination_app a) 0 (abi_encode (mk_confirm (da_order_id d) (be_bytes 32 (repayment_id d))))].

Definition author_plans (d : DirectOrderAuthorization) : result string DirectExecutionPlans :=
  let a := pa_config author in
  let q := da_quote d in
  _ ← refuse_if
        ((lq_local_chain (aq_origin q) <>? ac_origin_chain a)
         || (lq_local_chain (aq_destination q) <>? ac_destination_chain a)
         || (do_origin_settler (da_order d) <>? ac_origin_settler a)
         || (do_destination_settler (da_order d) <>? ac_destination_app a))
        "authorization does not belong to this direct plan author";
  match lq_sources (aq_destination q) with
  | [s] =>
      _ ← refuse_if (src_maker s <>? signer_address (pa_maker author)) "quoted destination maker does not match the configured signer";
      o ← author_order d;
      m ← author_mandate d;
      expires ← u48 (aq_expires_at q) "maker quote expiry";
      Ok (mk_direct_plans (author_origin_plan d o m) (author_destination_plan d s o m (author_quote d s expires)))
  | _ => Err "direct settlement requires exactly one destination source"
  end.

End author.

(** * Signed orders settle

    The calls written for an order its sponsor signed pass every check of both chain services:
    the author of [direct.rs], the drafts of [draft.rs] and the validator of [validation.rs] agree
    on what an order is. *)

Section properties.
Context `{SettlementAbi} `{Eip712} `{SponsorSignatures} (keccak256 : list Z → B256).
Context `{!AbiLaw fillDirectCall} `{!AbiLaw settleDirectCall} `{!AbiLaw dispatchCall} `{!AbiLaw confirmDirectRepaymentCall}
  `{!AbiLaw ProofEnvelope} `{!AbiLaw VerifiedFill} `{!AbiLaw VerifiedRepayment}.

(** ** What a sponsor's signature authorizes *)

(** What the sponsor of a request signs. *)
Definition commitment_of (b : DirectOrderDraftConfig) (rq : DirectOrderDraftRequest) : CompactCommitmentTerms :=
  mk_commitment (dc_origin_settler b) (dr_sponsor rq) (dr_compact_nonce rq) (dr_compact_expires rq) (dc_lock_tag b)
    (lq_input_token (aq_origin (dr_quote rq))) (aq_amount_in (dr_quote rq)) (draft_mandate b rq (hash_order (sol_order (draft_order b rq)))).

Record authorized (b : DirectOrderDraftConfig) (rq : DirectOrderDraftRequest) (now : Z) (d : DirectOrderAuthorization) : Prop := {
  az_quote : da_quote d = dr_quote rq;
  az_order : da_order d = draft_order b rq;
  az_order_id : da_order_id d = hash_order (sol_order (draft_order b rq));
  az_mandate : da_mandate d = draft_mandate b rq (da_order_id d);
  az_claim : cc_claimant (da_claim d) = dc_origin_settler b;
  az_route : lq_route (aq_origin (dr_quote rq)) = Direct;
  az_origin : lq_local_chain (aq_origin (dr_quote rq)) = dc_origin_chain b;
  az_destination : lq_local_chain (aq_destination (dr_quote rq)) = dc_destination_chain b;
  az_deadline : aq_expires_at (dr_quote rq) ≤ MAX_U48;
  az_signed : ∃ signature, signature_from_raw (cc_signature (da_claim d)) = Some signature
    ∧ recover_address signature (commitment_digest b (commitment_of b rq)) = Some (dr_sponsor rq)
}.

Lemma authorize_Ok b rq sponsor_signature now d : authorize keccak256 b rq sponsor_signature now = Ok d → authorized b rq now d.
Proof.
  unfold authorize. intros Hd. apply bind_Ok in Hd as (f & Hf & Hd). unfold draft in Hf. accepted. cbn in *. subst.
  split; try done. by eexists.
Qed.

Lemma u48_Ok x name : x ≤ MAX_U48 → u48 x name = Ok x.
Proof. unfold u48, MAX_U48, refuse_if. intros. by rewrite (proj2 (Z.leb_gt _ _)) by lia. Qed.

#[local] Arguments u48 : simpl never.
#[local] Arguments compact_id : simpl never.
#[local] Arguments be_bytes : simpl never.
#[local] Opaque compact_id.

(** ** One deployment *)

(** The draft builder, the author and a chain's validator are configured for the same contracts. *)
Record configured (b : DirectOrderDraftConfig) (author : AlloyDirectPlanAuthor) (v : AlloyStepValidator) : Prop := {
  cfg_origin_chain : ac_origin_chain (pa_config author) = dc_origin_chain b;
  cfg_destination_chain : ac_destination_chain (pa_config author) = dc_destination_chain b;
  cfg_origin : ac_origin_settler (pa_config author) = dc_origin_settler b;
  cfg_destination : ac_destination_app (pa_config author) = dc_destination_settler b;
  cfg_origin_application : sv_origin_application v = Some (dc_origin_settler b);
  cfg_destination_application : sv_destination_application v = Some (dc_destination_settler b);
  cfg_operator : sv_operator v = dc_exclusive_filler b;
  cfg_origin_set : dc_origin_settler b ≠ 0;
  cfg_destination_set : dc_destination_settler b ≠ 0
}.

Lemma required_set (x : Address) label : x ≠ 0 → required_application (Some x) label = Ok x.
Proof. intros Hx. by apply required_Ok. Qed.

(** The authored order and mandate are what was drafted. *)
Lemma authored_order b rq now d : authorized b rq now d → author_order d = Ok (sol_order (da_order d)) ∧ author_mandate d = Ok (sol_mandate (da_mandate d)).
Proof.
  intros Ha. unfold author_order, author_mandate. rewrite (az_order _ _ _ _ Ha), (az_mandate _ _ _ _ Ha). cbn.
  pose proof (u48_Ok _ "exclusivity end" (az_deadline _ _ _ _ Ha)) as ->. pose proof (u48_Ok _ "fill deadline" (az_deadline _ _ _ _ Ha)) as ->.
  by pose proof (u48_Ok _ "mandate fill deadline" (az_deadline _ _ _ _ Ha)) as ->.
Qed.

Lemma drafted_order_passes b rq now d x operator role :
  authorized b rq now d →
  match ps_command x with
  | Deliver => ps_target x = dc_destination_settler b ∧ operator = dc_exclusive_filler b
  | ClaimOrigin => ps_target x = dc_origin_settler b
  | _ => True
  end →
  validate_order (mk_context (da_order_id d) (dr_quote rq) role) x (sol_order (da_order d)) operator = Ok tt.
Proof.
  intros [? -> -> ? ? Hr Ho Hd ? ?] Hx. unfold validate_order. cbn. rewrite Hr, Ho, Hd. cbn. rewrite !Z.eqb_refl. cbn.
  destruct (ps_command x); try done; [destruct Hx as [-> ->]|rewrite Hx]; by rewrite !Z.eqb_refl.
Qed.

Lemma drafted_mandate_passes b rq now d q role :
  authorized b rq now d → validate_mandate (mk_context (da_order_id d) q role) (sol_order (da_order d)) (sol_mandate (da_mandate d)) = Ok tt.
Proof. intros [? -> ? -> ? ? ? ? ? ?]. unfold validate_mandate. cbn. by rewrite !Z.eqb_refl. Qed.

Lemma envelope_passes kind payload : decode_envelope (abi_encode (mk_envelope 1 kind payload)) kind = Ok (mk_envelope 1 kind payload).
Proof. unfold decode_envelope. rewrite abi_round_trip. cbn. rewrite bool_decide_eq_true_2 by done. cbn. by rewrite Z.eqb_refl. Qed.

Lemma fill_passes x : decode_fill (abi_encode x) = Ok x.
Proof. unfold decode_fill. rewrite abi_round_trip. cbn. by rewrite bool_decide_eq_true_2 by done. Qed.

Lemma repayment_passes x : decode_repayment (abi_encode x) = Ok x.
Proof. unfold decode_repayment. rewrite abi_round_trip. cbn. by rewrite bool_decide_eq_true_2 by done. Qed.

Lemma proof_word_passes i label : 0 ≤ i < 2 ^ 256 → validate_proof_id (be_bytes 32 i) i label = Ok tt.
Proof.
  intros Hi. unfold validate_proof_id, validate_encoded_word. rewrite length_be_bytes. cbn. rewrite be_bytes_round_trip by (change (256 ^ Z.of_nat 32) with (2 ^ 256); done).
  by rewrite Z.eqb_refl.
Qed.

(** ** The authored plans *)

Section plans.
Context (b : DirectOrderDraftConfig) (author : AlloyDirectPlanAuthor) (rq : DirectOrderDraftRequest) (now : Z) (d : DirectOrderAuthorization).
Context (strategy : B256) (token : Address) (v : AlloyStepValidator).
Let q := dr_quote rq.
Let src := Build_ReservationSource (signer_address (pa_maker author)) strategy token (aq_amount_out q).
Let maker_quote := author_quote author d src (aq_expires_at q).
Context (Hd : authorized b rq now d) (Hsources : lq_sources (aq_destination q) = [src]).
Context (Hkeccak : ∀ l, 0 ≤ keccak256 l < 2 ^ 256) (Hc : configured b author v).

Let a := pa_config author.
Let maker_quote_hash := direct_quote_hash (ac_destination_chain a) (ac_destination_app a) maker_quote.
Let order := sol_order (da_order d).
Let mandate := sol_mandate (da_mandate d).
Let origin := author_origin_plan keccak256 author d order mandate.
Let destination := author_destination_plan keccak256 author d src order mandate maker_quote.
Let context role := mk_context (da_order_id d) q role.

Lemma author_succeeds : author_plans keccak256 author d = Ok (mk_direct_plans origin destination).
Proof.
  unfold author_plans. destruct (authored_order _ _ _ _ Hd) as [-> ->].
  rewrite (az_quote _ _ _ _ Hd). fold q. rewrite Hsources. unfold q in *. rewrite (az_origin _ _ _ _ Hd), (az_destination _ _ _ _ Hd), (az_order _ _ _ _ Hd).
  destruct Hc as [-> -> -> -> _ _ _ _ _]. cbn -[author_origin_plan author_destination_plan]. rewrite !Z.eqb_refl. cbn -[author_origin_plan author_destination_plan].
  pose proof (u48_Ok _ "maker quote expiry" (az_deadline _ _ _ _ Hd)) as ->. cbn -[author_origin_plan author_destination_plan].
  unfold origin, destination, order, maker_quote. by rewrite (az_order _ _ _ _ Hd).
Qed.

Lemma applications_pass : validate_applications v order = Ok tt.
Proof.
  unfold validate_applications, order. rewrite (az_order _ _ _ _ Hd). destruct Hc as [_ _ _ _ -> -> _ ? ?]. rewrite !required_set by done. cbn.
  by rewrite !Z.eqb_refl.
Qed.

(** The identifiers of both proofs, as a validator computes them. *)
Lemma fill_id_is role : fill_id keccak256 author d = expected_fill_id keccak256 (context role) order.
Proof.
  unfold fill_id, expected_fill_id, order, context, q. cbn. rewrite (az_order _ _ _ _ Hd), (az_destination _ _ _ _ Hd).
  by destruct Hc as [_ -> _ -> _ _ _ _ _].
Qed.

Lemma repayment_id_is : repayment_id keccak256 author d = proof_id keccak256 (lq_local_chain (aq_origin q)) (dc_origin_settler b) (da_order_id d) 1.
Proof. unfold repayment_id, q. rewrite (az_origin _ _ _ _ Hd). by destruct Hc as [-> _ -> _ _ _ _ _ _]. Qed.

Lemma claim_passes target calldata role :
  target = dc_origin_settler b → calldata = abi_encode (mk_settle_direct order mandate (be_bytes 32 (fill_id keccak256 author d)) (author_claim d)) →
  validate_settle_direct keccak256 v (context role) (mk_step ClaimOrigin target 0 calldata) = Ok tt.
Proof.
  intros -> ->. unfold validate_settle_direct, decode. cbn [ps_calldata]. rewrite abi_round_trip. cbn [ok_or mbind result_bind sd_order sd_mandate sd_fill_proof].
  rewrite applications_pass. cbn [mbind result_bind]. unfold context, order, mandate, q.
  rewrite (drafted_order_passes _ _ _ _ _ _ _ Hd), (drafted_mandate_passes _ _ _ _ _ _ Hd) by done. cbn [mbind result_bind].
  rewrite (fill_id_is role). by apply proof_word_passes, Hkeccak.
Qed.

Lemma delivery_passes target calldata role :
  target = dc_destination_settler b → calldata = abi_encode (mk_fill_direct order mandate maker_quote (sign65 (pa_maker author) maker_quote_hash)) →
  reserve_token q (sv_wrapped_native v) = Ok token →
  validate_fill_direct v (context role) (mk_step Deliver target 0 calldata) = Ok tt.
Proof.
  intros -> -> Ht. unfold validate_fill_direct, decode. cbn [ps_calldata]. rewrite abi_round_trip. cbn [ok_or mbind result_bind fd_order fd_mandate fd_quote].
  unfold context, order, mandate, q.
  rewrite (drafted_order_passes _ _ _ _ _ _ _ Hd), (drafted_mandate_passes _ _ _ _ _ _ Hd) by (done || by destruct Hc). cbn [mbind result_bind].
  unfold maker_quote, author_quote, validate_destination_source, src. cbn. rewrite (az_quote _ _ _ _ Hd), !Z.eqb_refl. cbn. fold q. rewrite Hsources, Ht. cbn.
  by rewrite !Z.eqb_refl.
Qed.

Lemma fill_envelope_passes role :
  maker_quote_hash ≠ 0 →
  validate_fill_envelope keccak256 (context role) (fill_envelope keccak256 author d src maker_quote_hash) (sv_destination_application v) = Ok tt.
Proof.
  intros Hn. unfold validate_fill_envelope, fill_envelope. rewrite envelope_passes. cbn [mbind result_bind pe_payload]. rewrite fill_passes. cbn [mbind result_bind].
  pose proof (fill_id_is role) as Hi. unfold expected_fill_id, order in Hi. rewrite (az_order _ _ _ _ Hd) in Hi. cbn in Hi.
  unfold author_fill. rewrite Hi, (az_quote _ _ _ _ Hd). destruct Hc as [_ -> _ -> _ -> _ _ ?]. rewrite required_set by done. cbn.
  rewrite Hsources. unfold fill_terms, q. rewrite (az_route _ _ _ _ Hd), (az_destination _ _ _ _ Hd). cbn. rewrite !Z.eqb_refl. cbn.
  by rewrite (proj2 (Z.eqb_neq _ _) Hn).
Qed.

Lemma repayment_envelope_passes role :
  validate_repayment_envelope keccak256 (context role) (repayment_envelope keccak256 author d) (sv_origin_application v) = Ok tt.
Proof.
  unfold validate_repayment_envelope, repayment_envelope. rewrite envelope_passes. cbn [mbind result_bind pe_payload]. rewrite repayment_passes. cbn [mbind result_bind].
  unfold author_repayment. rewrite repayment_id_is, (az_quote _ _ _ _ Hd). destruct Hc as [-> _ -> _ -> _ _ ? _]. rewrite required_set by done. cbn.
  rewrite Hsources. unfold q. rewrite (az_origin _ _ _ _ Hd). cbn. by rewrite !Z.eqb_refl.
Qed.

Lemma close_passes target calldata role :
  calldata = abi_encode (mk_confirm (da_order_id d) (be_bytes 32 (repayment_id keccak256 author d))) →
  validate_confirm keccak256 v (context role) (mk_step CloseDestination target 0 calldata) = Ok tt.
Proof.
  intros ->. unfold validate_confirm, decode. cbn [ps_calldata]. rewrite abi_round_trip. cbn [ok_or mbind result_bind cf_order cf_proof vc_order context].
  rewrite Z.eqb_refl, (cfg_origin_application _ _ _ Hc), required_set by by destruct Hc. cbn [refuse_if negb mbind result_bind].
  rewrite repayment_id_is. by apply proof_word_passes, Hkeccak.
Qed.

Lemma dispatch_passes command target envelope role :
  dispatch_of (context role) (mk_step command target 0 (abi_encode (mk_dispatch (da_order_id d) envelope))) = Ok (mk_dispatch (da_order_id d) envelope).
Proof. unfold dispatch_of, decode. cbn [ps_calldata]. rewrite abi_round_trip. cbn. by rewrite Z.eqb_refl. Qed.

Lemma origin_plan_passes : validate_settlement keccak256 v (context Origin) origin = Ok tt.
Proof.
  unfold validate_settlement, origin, author_origin_plan. cbn [cp_steps validate_steps]. unfold validate. cbn [ps_value ps_command vc_quote context]. unfold q.
  rewrite (az_route _ _ _ _ Hd). fold q. rewrite claim_passes by (done || apply (cfg_origin _ _ _ Hc)). cbn [Z.eqb negb refuse_if mbind result_bind].
  rewrite dispatch_passes. cbn [mbind result_bind dc_envelope]. by rewrite repayment_envelope_passes.
Qed.

Lemma destination_plan_passes :
  maker_quote_hash ≠ 0 → reserve_token q (sv_wrapped_native v) = Ok token → validate_settlement keccak256 v (context Destination) destination = Ok tt.
Proof.
  intros Hn Ht. unfold validate_settlement, destination, author_destination_plan. cbn [cp_steps validate_steps]. unfold validate. cbn [ps_value ps_command vc_quote context]. unfold q.
  rewrite (az_route _ _ _ _ Hd). fold q. rewrite delivery_passes by (done || apply (cfg_destination _ _ _ Hc)). cbn [Z.eqb negb refuse_if mbind result_bind].
  rewrite dispatch_passes. cbn [mbind result_bind dc_envelope]. rewrite fill_envelope_passes by done. cbn [mbind result_bind].
  rewrite close_passes by done. cbn [mbind result_bind].
  unfold validate_plan_proofs. rewrite !find_step_cons. cbn [ps_command]. rewrite decide_True, decide_False, decide_True by done.
  cbn [ps_calldata context vc_quote]. unfold q. rewrite (az_route _ _ _ _ Hd). unfold decode. rewrite !abi_round_trip. cbn [ok_or mbind result_bind dc_envelope fd_order fd_quote].
  unfold fill_envelope. rewrite envelope_passes. cbn [mbind result_bind pe_payload]. rewrite fill_passes. cbn [mbind result_bind].
  rewrite (cfg_destination_application _ _ _ Hc), required_set by by destruct Hc. cbn [mbind result_bind].
  rewrite applications_pass. cbn. rewrite (az_destination _ _ _ _ Hd). fold maker_quote.
  unfold maker_quote_hash, order, a. rewrite (cfg_destination_chain _ _ _ Hc), (cfg_destination _ _ _ Hc). cbn. by rewrite !Z.eqb_refl.
Qed.

(** The plans are of their quote, chain and route. *)
Lemma authored_plans_fit : validate_plan q origin Origin = Ok tt ∧ validate_plan q destination Destination = Ok tt.
Proof.
  unfold validate_plan, origin, destination, author_origin_plan, author_destination_plan. cbn -[plan_shape]. rewrite (az_quote _ _ _ _ Hd). fold q. unfold q.
  rewrite (az_route _ _ _ _ Hd), (az_origin _ _ _ _ Hd), (az_destination _ _ _ _ Hd), (cfg_origin_chain _ _ _ Hc), (cfg_destination_chain _ _ _ Hc), !Z.eqb_refl.
  by split; vm_compute.
Qed.

End plans.

(** C9: an order its sponsor signed settles as signed: for any authorization the draft builder makes of
    a direct quote whose one destination source is the configured maker's and holds the whole
    output, the plan author returns plans, and, when the draft builder, the author and the validators of both services are
    configured for the same chains, contracts and operator, the proxy's shape checks and the full call
    validation of both chain services accept them; the sponsor's signature is over the commitment
    of exactly the quoted input to the origin settler. *)
Theorem signed_orders_settle b author v v' rq sponsor_signature now d strategy token :
  (∀ l, 0 ≤ keccak256 l < 2 ^ 256) → (∀ chain application m, direct_quote_hash chain application m ≠ 0) →
  configured b author v → configured b author v' →
  authorize keccak256 b rq sponsor_signature now = Ok d →
  reserve_token (dr_quote rq) (sv_wrapped_native v') = Ok token →
  lq_sources (aq_destination (dr_quote rq)) =
    [Build_ReservationSource (signer_address (pa_maker author)) strategy token (aq_amount_out (dr_quote rq))] →
  ∃ plans, author_plans keccak256 author d = Ok plans
    ∧ validate_plan (dr_quote rq) (dp_origin plans) Origin = Ok tt
    ∧ validate_plan (dr_quote rq) (dp_destination plans) Destination = Ok tt
    ∧ validate_settlement keccak256 v (mk_context (da_order_id d) (dr_quote rq) Origin) (dp_origin plans) = Ok tt
    ∧ validate_settlement keccak256 v' (mk_context (da_order_id d) (dr_quote rq) Destination) (dp_destination plans) = Ok tt
    ∧ ∃ signature, signature_from_raw (cc_signature (da_claim d)) = Some signature
      ∧ recover_address signature (commitment_digest b (commitment_of b rq)) = Some (dr_sponsor rq).
Proof.
  intros Hk Hn Hc Hc' Hd%authorize_Ok Ht Hs. eexists. split; [by eapply author_succeeds|]. cbn [dp_origin dp_destination].
  destruct (authored_plans_fit b author rq now d strategy token v Hd Hc) as [? ?]. split_and!; [done|done| | |apply Hd].
  - by eapply origin_plan_passes.
  - by eapply destination_plan_passes.
Qed.

End properties.
