(* ===== verification/CrossCallsDemo.v ===== *)
(** * A concrete settlement

    A codec, hashes and keys that satisfy what the calls rely on, and one direct order drafted,
    signed, authored and staged on both chains, on which the theorems of the settlement calls are
    exercised. *)

From stdpp Require Import strings countable.
From S2P Require Import Prelude Commands U256 Reservation LedgerEngine LedgerInvariant LedgerStore LedgerService LedgerHolds CurveDecode Registry Fills SwapDemo CrossChain CrossStores CrossProxy CrossLocal CrossLocalSteps CrossDemo CrossCalls CrossSettlement CrossAuthor.

#[local] Open Scope string_scope.
#[local] Open Scope list_scope.
#[local] Open Scope Z_scope.

(** ** A codec *)

(** Values written one after the other; what is written is read back, whatever follows. *)
Class Wire (A : Type) := {
  put : A → list Z;
  get : list Z → option (A * list Z);
  get_put x r : get (put x ++ r) = Some (x, r)
}.

#[global] Program Instance wire_Z : Wire Z := {|
  put x := [x];
  get l := match l with x :: l' => Some (x, l') | [] => None end
|}.
Next Obligation. done. Qed.

#[global] Program Instance wire_pair {A B} `{Wire A} `{Wire B} : Wire (A * B) := {|
  put p := put p.1 ++ put p.2;
  get l := '(a, l') ← get l; '(b, l'') ← get l'; Some ((a, b), l'')
|}.
Next Obligation. intros A B ? ? [a b] r. cbn. rewrite <-app_assoc, get_put. cbn. rewrite get_put. done. Qed.

Fixpoint get_many {A} `{Wire A} (n : nat) (l : list Z) : option (list A * list Z) :=
  match n with
  | O => Some ([], l)
  | S n' => '(x, l') ← get l; '(xs, l'') ← get_many n' l'; Some (x :: xs, l'')
  end.

#[global] Program Instance wire_list {A} `{Wire A} : Wire (list A) := {|
  put xs := Z.of_nat (length xs) :: (xs ≫= put);
  get l := match l with n :: l' => get_many (Z.to_nat n) l' | [] => None end
|}.
Next Obligation.
  intros A ? xs r. cbn. rewrite Nat2Z.id. induction xs as [|x xs IH]; [done|]. cbn. rewrite <-app_assoc, get_put. cbn.
  change (mbind put xs) with (xs ≫= put). by rewrite IH.
Qed.

(** A type read through another one. *)
Program Definition wire_via {A B} `{Wire B} (to : A → B) (from : B → A) (law : ∀ x, from (to x) = x) : Wire A := {|
  put x := put (to x);
  get l := '(y, l') ← get l; Some (from y, l')
|}.
Next Obligation. intros. cbn. rewrite get_put. cbn. by rewrite law. Qed.

#[global] Program Instance wire_string : Wire string :=
  wire_via (λ x, Z.of_nat <$> (Ascii.nat_of_ascii <$> String.list_ascii_of_string x))
    (λ l, String.string_of_list_ascii (Ascii.ascii_of_nat <$> (Z.to_nat <$> l))) _.
Next Obligation.
  intros x. cbn. rewrite <-!list_fmap_compose. transitivity (String.string_of_list_ascii (String.list_ascii_of_string x)); [|apply String.string_of_list_ascii_of_string].
  f_equal. rewrite <-(list_fmap_id (String.list_ascii_of_string x)) at 2. apply list_fmap_ext. intros i y _. cbn. by rewrite Nat2Z.id, Ascii.ascii_nat_embedding.
Qed.

#[global] Program Instance wire_order : Wire SolventCrossChainOrder :=
  wire_via
    (λ o, (so_user o, so_nonce o, so_origin_chain o, so_origin_settler o, so_compact o, so_compact_id o, so_compact_expires o, so_input_token o,
           so_input_amount o, so_destination_chain o, so_output_token o, so_minimum_output o, so_recipient o, so_destination_settler o,
           so_proof_verifier o, so_exclusive_filler o, so_exclusivity_ends o, so_fill_deadline o, so_route_kind o))
    (λ '(a, b, c, d, e, f, g, h, i, j, k, l, m, n, o, p, q, r, s), mk_sol_order a b c d e f g h i j k l m n o p q r s) _.
Next Obligation. by intros []. Qed.

#[global] Program Instance wire_mandate : Wire SolventMandate :=
  wire_via
    (λ m, (sm_order m, sm_destination_chain m, sm_destination_settler m, sm_proof_verifier m, sm_output_token m, sm_minimum_output m,
           sm_recipient m, sm_fill_deadline m, sm_exclusive_filler m, sm_route_kind m))
    (λ '(a, b, c, d, e, f, g, h, i, j), mk_sol_mandate a b c d e f g h i j) _.
Next Obligation. by intros []. Qed.

#[global] Program Instance wire_direct_quote : Wire DirectMakerQuote :=
  wire_via
    (λ m, (dq_order m, dq_maker m, dq_destination_strategy m, dq_origin_strategy m, dq_output m, dq_repayment m, dq_nonce m, dq_expires m))
    (λ '(a, b, c, d, e, f, g, h), mk_direct_quote a b c d e f g h) _.
Next Obligation. by intros []. Qed.

#[global] Program Instance wire_credit_quote : Wire MakerCreditQuote :=
  wire_via
    (λ m, (cq_order m, cq_maker m, cq_destination_strategy m, cq_output m, cq_usdc_due m, cq_max_cctp_fee m, cq_nonce m, cq_expires m))
    (λ '(a, b, c, d, e, f, g, h), mk_credit_quote a b c d e f g h) _.
Next Obligation. by intros []. Qed.

#[global] Program Instance wire_component : Wire Component :=
  wire_via (λ m, (cm_claimant m, cm_amount m)) (λ '(a, b), mk_component a b) _.
Next Obligation. by intros []. Qed.

#[global] Program Instance wire_claim : Wire Claim :=
  wire_via
    (λ k, (cl_allocator_data k, cl_sponsor_signature k, cl_sponsor k, cl_nonce k, cl_expires k, cl_witness k, cl_typestring k, cl_id k,
           cl_allocated k, cl_claimants k))
    (λ '(a, b, c, d, e, f, g, h, i, j), mk_sol_claim a b c d e f g h i j) _.
Next Obligation. by intros []. Qed.

#[global] Program Instance wire_swap_order : Wire SwapOrder :=
  wire_via (λ m, (wo_maker m, wo_traits m, wo_data m)) (λ '(a, b, c), mk_swap_order a b c) _.
Next Obligation. by intros []. Qed.

#[global] Program Instance wire_envelope : Wire ProofEnvelope :=
  wire_via (λ m, (pe_version m, pe_kind m, pe_payload m)) (λ '(a, b, c), mk_envelope a b c) _.
Next Obligation. by intros []. Qed.

#[global] Program Instance wire_fill : Wire VerifiedFill :=
  wire_via
    (λ f, (vf_order f, vf_route_kind f, vf_destination_chain f, vf_destination_app f, vf_recipient f, vf_output_token f, vf_output f,
           vf_maker f, vf_destination_strategy f, vf_origin_strategy f, vf_repayment_token f, vf_repayment f, vf_max_cctp_fee f,
           vf_maker_quote f, vf_fill f))
    (λ '(a, b, c, d, e, f, g, h, i, j, k, l, m, n, o), mk_verified_fill a b c d e f g h i j k l m n o) _.
Next Obligation. by intros []. Qed.

#[global] Program Instance wire_repayment : Wire VerifiedRepayment :=
  wire_via
    (λ r, (vr_order r, vr_origin_chain r, vr_origin_settler r, vr_maker r, vr_token r, vr_amount r, vr_repayment r))
    (λ '(a, b, c, d, e, f, g), mk_verified_repayment a b c d e f g) _.
Next Obligation. by intros []. Qed.

#[global] Program Instance wire_fill_direct : Wire fillDirectCall :=
  wire_via (λ c, (fd_order c, fd_mandate c, fd_quote c, fd_signature c)) (λ '(a, b, c, d), mk_fill_direct a b c d) _.
Next Obligation. by intros []. Qed.

#[global] Program Instance wire_fill_credit : Wire fillCreditCall :=
  wire_via (λ c, (fc_order c, fc_mandate c, fc_quote c, fc_signature c)) (λ '(a, b, c, d), mk_fill_credit a b c d) _.
Next Obligation. by intros []. Qed.

#[global] Program Instance wire_complete : Wire completeRepaymentCall :=
  wire_via (λ c, (cr_order c, cr_message c, cr_attestation c)) (λ '(a, b, c), mk_complete a b c) _.
Next Obligation. by intros []. Qed.

#[global] Program Instance wire_confirm : Wire confirmDirectRepaymentCall :=
  wire_via (λ c, (cf_order c, cf_proof c)) (λ '(a, b), mk_confirm a b) _.
Next Obligation. by intros []. Qed.

#[global] Program Instance wire_settle_direct : Wire settleDirectCall :=
  wire_via (λ c, (sd_order c, sd_mandate c, sd_fill_proof c, sd_claim c)) (λ '(a, b, c, d), mk_settle_direct a b c d) _.
Next Obligation. by intros []. Qed.

#[global] Program Instance wire_settle_routed : Wire settleRoutedCall :=
  wire_via (λ c, (sr_order c, sr_mandate c, sr_fill_proof c, sr_claim c, sr_maker_order c)) (λ '(a, b, c, d, e), mk_settle_routed a b c d e) _.
Next Obligation. by intros []. Qed.

#[global] Program Instance wire_dispatch : Wire dispatchCall :=
  wire_via (λ c, (dc_order c, dc_envelope c)) (λ '(a, b), mk_dispatch a b) _.
Next Obligation. by intros []. Qed.

(** The codec of a type: a tag in place of the selector, and nothing after the value. *)
Definition tagged {A} `{Wire A} (tag : Z) : Abi A := {|
  abi_encode x := tag :: put x;
  abi_decode l := match l with t :: l' => if t =? tag then match get l' with Some (x, []) => Some x | _ => None end else None | [] => None end
|}.

Lemma tagged_law {A} `{Wire A} (tag : Z) : @AbiLaw A (tagged tag).
Proof. intros x. cbn. rewrite Z.eqb_refl, <-(app_nil_r (put x)). by rewrite get_put. Qed.

#[global] Instance demo_abi : SettlementAbi := {|
  abi_fill_direct := tagged 1;
  abi_fill_credit := tagged 2;
  abi_complete := tagged 3;
  abi_confirm := tagged 4;
  abi_settle_direct := tagged 5;
  abi_settle_routed := tagged 6;
  abi_dispatch := tagged 7;
  abi_envelope := tagged 8;
  abi_fill := tagged 9;
  abi_repayment := tagged 10;
  encode_swap_order := put;
  encode_proof_material m := [pm_chain m; pm_application m; pm_order m; pm_kind m]
|}.

#[global] Instance fill_direct_law : @AbiLaw fillDirectCall abi_fill_direct := tagged_law 1.
#[global] Instance settle_direct_law : @AbiLaw settleDirectCall abi_settle_direct := tagged_law 5.
#[global] Instance dispatch_law : @AbiLaw dispatchCall abi_dispatch := tagged_law 7.
#[global] Instance confirm_law : @AbiLaw confirmDirectRepaymentCall abi_confirm := tagged_law 4.
#[global] Instance envelope_law : @AbiLaw ProofEnvelope abi_envelope := tagged_law 8.
#[global] Instance fill_law : @AbiLaw VerifiedFill abi_fill := tagged_law 9.
#[global] Instance repayment_law : @AbiLaw VerifiedRepayment abi_repayment := tagged_law 10.

(** ** Hashes and keys *)

Definition word_hash (l : list Z) : B256 := bytes_hash l mod 2 ^ 256.

Lemma word_hash_range l : 0 ≤ word_hash l < 2 ^ 256.
Proof. unfold word_hash. apply Z.mod_pos_bound. lia. Qed.

#[global] Instance demo_eip712 : Eip712 := {|
  hash_order o := Z.pos (countable.encode (put o));
  direct_quote_hash chain application m := 1 + Z.abs (bytes_hash (chain :: application :: put m));
  credit_quote_hash chain application m := 1 + Z.abs (bytes_hash (chain :: application :: put m))
|}.

Lemma put_inj {A} `{Wire A} (x y : A) : put x = put y → x = y.
Proof. intros E. pose proof (get_put x []) as Hx. rewrite E, get_put in Hx. by injection Hx. Qed.

Lemma hash_order_inj o o' : hash_order o = hash_order o' → o = o'.
Proof. cbn [hash_order demo_eip712]. intros [= E]. by apply put_inj, (inj countable.encode). Qed.

Lemma direct_quote_hash_set chain application m : direct_quote_hash chain application m ≠ 0.
Proof. cbn [direct_quote_hash demo_eip712]. lia. Qed.

(** A signature is the signer's address added to what it signs. *)
#[global] Instance demo_signatures : SponsorSignatures := {|
  hash_mandate m := word_hash (put m);
  compact_digest chain compact c :=
    word_hash ([chain; compact; cp_arbiter c; cp_sponsor c; cp_nonce c; cp_expires c; cp_lock_tag c; cp_token c; cp_amount c] ++ put (cp_mandate c));
  Signature := Z;
  signature_from_raw l := head l;
  recover_address signature digest := Some (signature - digest)
|}.

(** ** One order *)

Definition draft_config : DirectOrderDraftConfig := mk_draft_config 1 2 43 60 41 61 77 3.

Definition plan_author : AlloyDirectPlanAuthor := mk_author (mk_author_config 1 2 43 41 42 42 9) (mk_signer 1 (λ digest, [digest])).

Definition step_validator : AlloyStepValidator := with_applications (AlloyStepValidator_new 77 5) 43 41.

Definition call_leg (q : LegQuoteRequest) (out : U256) (sources : list ReservationSource) : LegQuote :=
  let leg i := mk_leg_quote i 6 (lr_role q) (lr_local_chain q) (lr_remote_chain q) (lr_input_token q) (lr_output_token q) 100 out Direct 12 2000 sources in
  leg (leg_quote_id word_hash (leg 0)).

Definition call_quote : AggregateQuote :=
  let origin := call_leg origin_request 100 [] in
  let destination := call_leg destination_request 90 [Build_ReservationSource 1 7 5 90] in
  mk_aggregate (aggregate_id word_hash origin destination 0 None) origin destination 100 90 0 None 2000.

Definition draft_request : DirectOrderDraftRequest := mk_draft_request call_quote 31 32 1 2 3000.

Definition sponsor_signature : list Z := [31 + commitment_digest draft_config (commitment_of draft_config draft_request)].

Definition authorization : DirectOrderAuthorization :=
  unwrap_or (authorize word_hash draft_config draft_request sponsor_signature 1000)
    (mk_direct_authorization call_quote 0 (draft_order draft_config draft_request) (draft_mandate draft_config draft_request 0)
       (mk_claim [] 0 0 0 0 EmptyString 0 0 0 0)).

Definition authored : DirectExecutionPlans :=
  unwrap_or (author_plans word_hash plan_author authorization) (mk_direct_plans (mk_plan 0 0 []) (mk_plan 0 0 [])).

Definition validated_world : World :=
  mk_world Answered (λ _, 1000) 12 (λ _ _ _, Some demo_route) (λ _, Ok 1000) (Some (validate_settlement word_hash step_validator)) None None.

Definition settlement_context (r : LegRole) : StepValidationContext := mk_context (da_order_id authorization) call_quote r.

Definition stage_on (chain : Z) (r : LegRole) (plan : ChainExecutionPlan) : result LocalError unit * DemoChain :=
  steps_stage (demo_local_config chain) validated_world (settlement_context r) plan (demo_chain true []).

Lemma demo_configured : configured draft_config plan_author step_validator.
Proof. by split. Qed.

Lemma demo_steps_ok mines worlds : step_store_ok (ch_steps (demo_chain mines worlds)).
Proof. split; cbn; by intros; simplify_map_eq. Qed.

(** Both plans are taken in. *)
Lemma demo_staged :
  stage_on 2 Destination (dp_destination authored) = (Ok tt, (stage_on 2 Destination (dp_destination authored)).2)
  ∧ stage_on 1 Origin (dp_origin authored) = (Ok tt, (stage_on 1 Origin (dp_origin authored)).2).
Proof.
  split; [rewrite (surjective_pairing (stage_on 2 _ _)) at 1|rewrite (surjective_pairing (stage_on 1 _ _)) at 1]; apply (f_equal2 Datatypes.pair); [|done| |done];
    vm_compute; reflexivity.
Qed.

Lemma signed_orders_settle_witness :
  ∃ plans, author_plans word_hash plan_author authorization = Ok plans
    ∧ validate_settlement word_hash step_validator (settlement_context Destination) (dp_destination plans) = Ok tt.
Proof.
  destruct (signed_orders_settle word_hash draft_config plan_author step_validator step_validator draft_request sponsor_signature 1000 authorization 7 5)
    as (plans & Hp & _ & _ & _ & Hv & _).
  - apply word_hash_range.
  - apply direct_quote_hash_set.
  - apply demo_configured.
  - apply demo_configured.
  - by vm_compute.
  - reflexivity.
  - reflexivity.
  - exists plans. split; [exact Hp|exact Hv].
Defined.

Lemma staged_delivery_is_proved_witness :
  (stage_on 2 Destination (dp_destination authored)).1 = Ok tt
  ∧ is_Some (staged_call (stage_on 2 Destination (dp_destination authored)).2 (da_order_id authorization) Deliver).
Proof.
  destruct demo_staged as [Hstage _]. split; [by rewrite Hstage|].
  destruct (staged_delivery_is_proved word_hash (demo_local_config 2) validated_world step_validator (settlement_context Destination) (dp_destination authored)
              (demo_chain true []) (stage_on 2 Destination (dp_destination authored)).2) as (application & d & x & y & Hx & _);
    [apply demo_steps_ok|reflexivity|reflexivity|exact Hstage|]. exists x. exact Hx.
Defined.

Lemma both_chains_settle_one_order_witness :
  ∃ k l, staged_call (stage_on 1 Origin (dp_origin authored)).2 (da_order_id authorization) ClaimOrigin = Some k
    ∧ staged_call (stage_on 1 Origin (dp_origin authored)).2 (da_order_id authorization) DispatchRepayment = Some l.
Proof.
  destruct demo_staged as [Hd Ho].
  destruct (both_chains_settle_one_order word_hash (demo_local_config 2) (demo_local_config 1) validated_world validated_world step_validator step_validator
              (settlement_context Destination) (settlement_context Origin) (dp_destination authored) (dp_origin authored)
              (demo_chain true []) (demo_chain true []) (stage_on 2 Destination (dp_destination authored)).2 (stage_on 1 Origin (dp_origin authored)).2)
    as (x & y & z & k & l & d & claim & close & fill & repayment & _ & _ & _ & _ & _ & _ & Hk & _ & Hl & _);
    [apply hash_order_inj|apply demo_steps_ok|apply demo_steps_ok|reflexivity|reflexivity|reflexivity|reflexivity|reflexivity|reflexivity|reflexivity|exact Hd|exact Ho|].
  exists k, l. split; [exact Hk|exact Hl].
Defined.
