(* ===== verification/Cctp.v ===== *)
(** * Circle's CCTP: fee terms and completion

    [crates/adapters/src/crosschain/cctp.rs]: the terms a routed order is quoted with, the call
    that completes its repayment once Circle attests the burn, the checks that bind the attested
    message to the route and the order, and the client that reads Circle's API.

    Circle's answers ([IrisApi]), the hexadecimal and 256-bit decimal parsers of [alloy]
    ([parse_bytes], [parse_u256]) and keccak are parameters. *)

From Stdlib Require Import Ascii String.
From stdpp Require Import strings.
From Stdlib Require Import Lqa Ascii String.
From S2P Require Import Prelude Commands U256 Reservation Ratio CurveDecode CrossChain CrossProxy CrossCalls CrossCallsDemo.

#[local] Open Scope string_scope.
#[local] Open Scope list_scope.
#[local] Open Scope Z_scope.
#[local] Open Scope calls_scope.

(** ** Circle's port *)

Record CctpAttestationStatus := mk_attestation { at_message : list Z; at_attestation : list Z; at_nonce : string }.

Record CctpFee := mk_cctp_fee { fee_finality : Z; minimum_fee_ppm : Z }.

Record CctpRouteCapacity := mk_capacity { cap_fees : list CctpFee; fast_allowance : U256 }.

Inductive CctpAttestationError : Type :=
| AttestationPending
| AttestationRateLimited (retry_after_secs : option Z)
| AttestationTransport (m : string)
| AttestationInvalid (m : string).

(** What Circle answers during one request. *)
Record CctpAttestation := mk_iris {
  iris_message : Z → B256 → result CctpAttestationError CctpAttestationStatus;
  iris_capacity : Z → Z → result CctpAttestationError CctpRouteCapacity
}.

Definition completion_error (e : CctpAttestationError) : CctpCompletionError :=
  match e with
  | AttestationPending => CctpPending
  | AttestationRateLimited s => CctpRateLimited s
  | AttestationTransport m => CctpTransport m
  | AttestationInvalid m => CctpInvalid m
  end.

(** ** The attested message *)

Definition MESSAGE_LENGTH : nat := 440.

Definition u32_at (message : list Z) (offset : nat) : result CctpCompletionError Z :=
  if (length message <? offset + 4)%nat then Err (CctpInvalid "truncated CCTP message")
  else Ok (of_be_bytes (slice message offset (offset + 4))).

Definition padded_address (address : Address) : list Z := replicate 12 0 ++ be_bytes 20 address.

(** The guards of the checks below. *)
Definition refuse (c : bool) (m : string) : result CctpCompletionError unit := if c then Err (CctpInvalid m) else Ok tt.

Definition validate_message (message : list Z) (source_domain destination_domain : Z) (destination_app : Address)
    (order : CrossChainOrderId) : result CctpCompletionError unit :=
  _ ← refuse (negb (length message =? MESSAGE_LENGTH)%nat)
        ("message length " +:+ to_string (Z.of_nat (length message)) +:+ " does not match " +:+ to_string 440);
  source ← u32_at message 4;
  differs ← (if source <>? source_domain then Ok true
             else destination ← u32_at message 8; Ok (destination <>? destination_domain));
  _ ← refuse differs "message domains do not match the configured route";
  let expected_app := padded_address destination_app in
  _ ← refuse (negb (bool_decide (slice message 108 140 = expected_app)) || negb (bool_decide (slice message 184 216 = expected_app)))
        "message destination caller or mint recipient is not the destination app";
  refuse (negb (bool_decide (slice message 376 408 = be_bytes 32 1)) || negb (bool_decide (slice message 408 440 = be_bytes 32 order)))
    "message repayment hook does not bind the order".

(** ** The completion service *)

Record CircleCctpCompletion := mk_circle {
  cc_iris : CctpAttestation;
  cc_source_domain : Z;
  cc_destination_domain : Z;
  cc_finality : Z;
  cc_app : Address
}.

Section completion.
Context `{SettlementAbi} (keccak256 : list Z → B256).

Definition fee_invalid {A} (m : string) (o : option A) : result CctpCompletionError A := ok_or o (CctpInvalid m).

Definition circle_quote_terms (c : CircleCctpCompletion) (repayment : U256) : result CctpCompletionError CctpQuoteTerms :=
  capacity ← map_err completion_error (iris_capacity (cc_iris c) (cc_source_domain c) (cc_destination_domain c));
  fee ← fee_invalid "Circle returned no fee for the configured finality"
          (head (filter (λ fee, fee_finality fee = cc_finality c) (cap_fees capacity)));
  numerator ← fee_invalid "CCTP fee overflow"
                (value ← checked_mul repayment (minimum_fee_ppm fee); checked_add value (1000000 - 1));
  let fee := numerator / 1000000 in
  burn_amount ← fee_invalid "CCTP burn overflow" (checked_add repayment fee);
  if fast_allowance capacity <? burn_amount
  then Err (CctpInvalid "Circle Fast Transfer allowance is below the requested repayment")
  else Ok (mk_cctp_terms fee (cc_finality c)).

Definition circle_close_step (c : CircleCctpCompletion) (order : CrossChainOrderId) (origin_transaction : B256) :
    result CctpCompletionError CctpPreparedStep :=
  status ← map_err completion_error (iris_message (cc_iris c) (cc_source_domain c) origin_transaction);
  _ ← validate_message (at_message status) (cc_source_domain c) (cc_destination_domain c) (cc_app c) order;
  Ok (mk_cctp_step
        (mk_step CloseDestination (cc_app c) 0 (abi_encode (mk_complete order (at_message status) (at_attestation status))))
        (keccak256 (at_message status))).

(** The proxy's port. *)
Definition circle_completion (c : CircleCctpCompletion) : CctpCompletion := mk_cctp (circle_quote_terms c) (circle_close_step c).

End completion.

(** ** Circle's API *)

(** A response: its status, its [Retry-After] seconds, and its body or why it did not parse. *)
Record HttpReply (Body : Type) := mk_http { http_status : Z; http_retry_after : option Z; http_body : result string Body }.
Arguments mk_http {_}. Arguments http_status {_}. Arguments http_retry_after {_}. Arguments http_body {_}.

Record CircleMessage := mk_circle_message { cm_message : string; cm_attestation : string; cm_event_nonce : string; cm_status : string }.

Record FeeResponse := mk_fee_response { fr_finality : Z; fr_minimum_fee : string }.

(** The requests, each answered or failed in transport. *)
Record IrisApi := mk_api {
  api_messages : Z → B256 → result string (HttpReply (list CircleMessage));
  api_fees : Z → Z → result string (HttpReply (list FeeResponse));
  api_allowance : result string (HttpReply string);
  api_reattest : string → result string (HttpReply unit)
}.

Definition NOT_FOUND : Z := 404.
Definition TOO_MANY_REQUESTS : Z := 429.

Definition is_success (status : Z) : bool := (200 <=? status) && (status <? 300).

Definition ensure_success {Body} (r : HttpReply Body) : result CctpAttestationError unit :=
  if http_status r =? TOO_MANY_REQUESTS then Err (AttestationRateLimited (http_retry_after r))
  else if is_success (http_status r) then Ok tt
  else Err (AttestationTransport ("Circle returned HTTP " +:+ to_string (http_status r))).

(** [value.split_once(.)], or all of it and nothing. *)
Definition split_once_dot (value : string) : string * string :=
  let '(whole, fraction) := split_point (list_ascii_of_string value) in
  (string_of_list_ascii whole, string_of_list_ascii fraction).

Definition starts_with_minus (s : string) : bool := match s with String a _ => bool_decide (a = "-"%char) | EmptyString => false end.

Fixpoint repeat_zero (n : nat) : string := match n with O => EmptyString | S n => String "0" (repeat_zero n) end.

(** One character of [str::parse::<u32>]. *)
Definition parse_step (acc : Z) (c : ascii) : result string Z :=
  d ← ok_or (char_digit c) "invalid digit found in string";
  if 2 ^ 32 <=? 10 * acc + d then Err "number too large to fit in target type" else Ok (10 * acc + d).

Definition parse_u32 (s : string) : result string Z :=
  match list_ascii_of_string s with
  | [] => Err "cannot parse integer from empty string"
  | [a] => parse_step 0 a
  | a :: l => try_fold parse_step 0 (if bool_decide (a = "+"%char) then l else a :: l)
  end.

Definition decimal_scaled_u32 (value : string) (scale : nat) : result CctpAttestationError Z :=
  let '(whole, fraction) := split_once_dot value in
  if starts_with_minus whole || (scale <? String.length fraction)%nat
  then Err (AttestationInvalid "numeric value has unsupported precision")
  else map_err AttestationInvalid (parse_u32 (whole +:+ fraction +:+ repeat_zero (scale - String.length fraction))).

Section client.
Context (api : IrisApi) (parse_bytes : string → result string (list Z)) (parse_u256 : string → result string U256).

Definition decimal_usdc (value : string) : result CctpAttestationError U256 :=
  let '(whole, fraction) := split_once_dot value in
  if starts_with_minus whole || (6 <? String.length fraction)%nat
  then Err (AttestationInvalid "allowance is not a non-negative six-decimal USDC amount")
  else
    whole ← map_err AttestationInvalid (parse_u256 whole);
    fraction ← (match fraction +:+ repeat_zero (6 - String.length fraction) with
                | EmptyString => Ok 0
                | padded => map_err AttestationInvalid (parse_u256 padded)
                end);
    Ok (wrapping_add (wrapping_mul whole 1000000) fraction).

Definition client_message (source_domain : Z) (transaction : B256) : result CctpAttestationError CctpAttestationStatus :=
  response ← map_err AttestationTransport (api_messages api source_domain transaction);
  if http_status response =? NOT_FOUND then Err AttestationPending
  else
    _ ← ensure_success response;
    body ← map_err AttestationInvalid (http_body response);
    message ← ok_or (head (filter (λ m, cm_status m = "complete") body)) AttestationPending;
    bytes ← map_err AttestationInvalid (parse_bytes (cm_message message));
    attestation ← map_err AttestationInvalid (parse_bytes (cm_attestation message));
    Ok (mk_attestation bytes attestation (cm_event_nonce message)).

Definition client_fee (fee : FeeResponse) : result CctpAttestationError CctpFee :=
  ppm ← decimal_scaled_u32 (fr_minimum_fee fee) 2;
  Ok (mk_cctp_fee (fr_finality fee) ppm).

Definition client_route_capacity (source_domain destination_domain : Z) : result CctpAttestationError CctpRouteCapacity :=
  fees_response ← map_err AttestationTransport (api_fees api source_domain destination_domain);
  _ ← ensure_success fees_response;
  fees ← map_err AttestationInvalid (http_body fees_response);
  fees ← mapM client_fee fees;
  allowance_response ← map_err AttestationTransport (api_allowance api);
  _ ← ensure_success allowance_response;
  allowance ← map_err AttestationInvalid (http_body allowance_response);
  subunits ← decimal_usdc allowance;
  Ok (mk_capacity fees subunits).

Definition client_reattest (nonce : string) : result CctpAttestationError unit :=
  if bool_decide (nonce = EmptyString) || negb (bool_decide (is_Some (mapM char_digit (list_ascii_of_string nonce))))
  then Err (AttestationInvalid "CCTP nonce must be decimal digits")
  else
    response ← map_err AttestationTransport (api_reattest api nonce);
    ensure_success response.

Definition iris_client : CctpAttestation := mk_iris client_message client_route_capacity.

End client.

(** * CCTP: what Circle's answers are bound to

    The completion call of a routed order carries a message that names the route, the destination
    app and that order alone, and passes the step validator; the quoted fee is the least that
    covers Circle's rate, and the burn fits its allowance; the decimal numbers of Circle's API are
    read exactly. *)

(** ** The message *)

(** The message burns on the source domain for the destination app, which alone may relay it,
    with a hook that names the order. *)
Definition names_order (c : CircleCctpCompletion) (order : CrossChainOrderId) (message : list Z) : Prop :=
  length message = 440%nat
  ∧ of_be_bytes (slice message 4 8) = cc_source_domain c ∧ of_be_bytes (slice message 8 12) = cc_destination_domain c
  ∧ slice message 108 140 = padded_address (cc_app c) ∧ slice message 184 216 = padded_address (cc_app c)
  ∧ slice message 376 408 = be_bytes 32 1 ∧ slice message 408 440 = be_bytes 32 order.

Lemma u32_at_Ok message offset : (offset + 4 ≤ length message)%nat → u32_at message offset = Ok (of_be_bytes (slice message offset (offset + 4))).
Proof. intros Hl. unfold u32_at. by replace (length message <? offset + 4)%nat with false by (symmetry; apply Nat.ltb_ge; lia). Qed.

Lemma validate_message_Ok c message order :
  validate_message message (cc_source_domain c) (cc_destination_domain c) (cc_app c) order = Ok tt ↔ names_order c order message.
Proof.
  unfold validate_message, names_order, refuse, MESSAGE_LENGTH. destruct (length message =? 440)%nat eqn:Hl; cbn [negb mbind result_bind].
  2:{ apply Nat.eqb_neq in Hl. split; [done|]. by intros [? _]. }
  apply Nat.eqb_eq in Hl. rewrite u32_at_Ok by lia. cbn [mbind result_bind Nat.add].
  rewrite u32_at_Ok by lia. cbn [mbind result_bind Nat.add].
  destruct (of_be_bytes (slice message 4 8) =? _) eqn:E1; zbool; cbn [negb]; [|split; [done|naive_solver]].
  destruct (of_be_bytes (slice message 8 12) =? _) eqn:E2; zbool; cbn [negb mbind result_bind]; [|split; [done|naive_solver]].
  repeat case_bool_decide; cbn; split; naive_solver.
Qed.

Lemma close_step_Ok `{SettlementAbi} keccak c order tx step :
  circle_close_step keccak c order tx = Ok step →
  ∃ status, iris_message (cc_iris c) (cc_source_domain c) tx = Ok status ∧ names_order c order (at_message status)
    ∧ step = mk_cctp_step (mk_step CloseDestination (cc_app c) 0 (abi_encode (mk_complete order (at_message status) (at_attestation status))))
               (keccak (at_message status)).
Proof.
  unfold circle_close_step. destruct (iris_message _ _ _) as [status|e]; [|done]. cbn [map_err mbind result_bind].
  destruct (validate_message _ _ _ _ _) as [[]|e] eqn:Hv; [|done]. cbn [mbind result_bind]. intros [= <-].
  apply validate_message_Ok in Hv. eauto.
Qed.

Section binding.
Context `{SettlementAbi} `{!AbiLaw completeRepaymentCall} `{Eip712} (keccak256 : list Z → B256).

Lemma complete_validates v context step app message attestation :
  lq_route (aq_origin (vc_quote context)) = Cctp →
  step = mk_step CloseDestination app 0 (abi_encode (mk_complete (vc_order context) message attestation)) →
  validate keccak256 v context step = Ok tt.
Proof.
  intros Hr ->. unfold validate, validate_complete, CrossCalls.decode. cbn [ps_value ps_command ps_calldata]. rewrite Hr, abi_round_trip.
  cbn. by rewrite Z.eqb_refl.
Qed.

(** C26: the call that completes the repayment of a routed order carries the message Circle attests for the
    order's burn, is addressed to the destination app, spends no native value, and passes the step
    validator of that order; the message burns on the route's source domain, is minted to and relayed by
    the destination app alone, and its hook names the order, so the same burn completes no other order. *)
Theorem cctp_repayment_is_bound c order tx step :
  is_u256 order → circle_close_step keccak256 c order tx = Ok step →
  (∃ status, iris_message (cc_iris c) (cc_source_domain c) tx = Ok status ∧ names_order c order (at_message status)
     ∧ abi_decode (ps_calldata (cctp_step step)) = Some (mk_complete order (at_message status) (at_attestation status))
     ∧ cctp_message step = keccak256 (at_message status))
  ∧ ps_command (cctp_step step) = CloseDestination ∧ ps_target (cctp_step step) = cc_app c
  ∧ (∀ v context, vc_order context = order → lq_route (aq_origin (vc_quote context)) = Cctp →
       validate keccak256 v context (cctp_step step) = Ok tt)
  ∧ ∀ order' step', is_u256 order' → circle_close_step keccak256 c order' tx = Ok step' → order' = order.
Proof.
  intros Ho Hc. apply close_step_Ok in Hc as (status & Hs & Hm & ->). split_and!; cbn [cctp_step ps_command ps_target].
  - exists status. cbn. by rewrite abi_round_trip.
  - done.
  - done.
  - intros v context <- Hr. by eapply complete_validates.
  - intros order' step' Ho' Hc. apply close_step_Ok in Hc as (status' & Hs' & Hm' & _). rewrite Hs in Hs'. injection Hs' as <-.
    destruct Hm as (_ & _ & _ & _ & _ & _ & Hh). destruct Hm' as (_ & _ & _ & _ & _ & _ & Hh'). rewrite Hh in Hh'.
    unfold is_u256, U256_MAX in Ho, Ho'.
    rewrite <-(be_bytes_round_trip 32 order), <-(be_bytes_round_trip 32 order'), Hh' by (change (256 ^ Z.of_nat 32) with (2 ^ 256); lia). done.
Qed.

End binding.

(** ** The fee *)

(** [F] is the least fee that pays [ppm] parts per million of [amount]. *)
Definition least_fee (amount ppm F : Z) : Prop := amount * ppm ≤ F * 1000000 ∧ ∀ F', amount * ppm ≤ F' * 1000000 → F ≤ F'.

Lemma ceil_is_least amount ppm : least_fee amount ppm ((amount * ppm + (1000000 - 1)) / 1000000).
Proof.
  pose proof (Z.div_mod (amount * ppm + (1000000 - 1)) 1000000 ltac:(lia)). pose proof (Z.mod_pos_bound (amount * ppm + (1000000 - 1)) 1000000 ltac:(lia)).
  split; [lia|]. intros F' HF. lia.
Qed.

Lemma quote_terms_Ok c repayment terms :
  circle_quote_terms c repayment = Ok terms →
  ∃ capacity fee, iris_capacity (cc_iris c) (cc_source_domain c) (cc_destination_domain c) = Ok capacity
    ∧ head (filter (λ f, fee_finality f = cc_finality c) (cap_fees capacity)) = Some fee
    ∧ max_fee terms = (repayment * minimum_fee_ppm fee + (1000000 - 1)) / 1000000
    ∧ repayment + max_fee terms ≤ fast_allowance capacity ∧ repayment + max_fee terms ≤ U256_MAX
    ∧ finality_threshold terms = cc_finality c.
Proof.
  unfold circle_quote_terms, fee_invalid. destruct (iris_capacity _ _ _) as [capacity|e]; [|done]. cbn [map_err mbind result_bind].
  destruct (head _) as [fee|] eqn:Hf; [|done]. cbn [ok_or mbind result_bind].
  destruct (checked_mul _ _) as [v|] eqn:Hv; [|done]. cbn [mbind option_bind]. apply checked_mul_Some in Hv as [-> Hv].
  destruct (checked_add _ (1000000 - 1)) as [n|] eqn:Hn; [|done]. cbn [ok_or mbind result_bind]. apply checked_add_Some in Hn as [-> Hn].
  destruct (checked_add repayment _) as [b|] eqn:Hb; [|done]. cbn [ok_or mbind result_bind]. apply checked_add_Some in Hb as [-> Hb].
  case_match eqn:Ha; [done|]. zbool. intros [= <-]. exists capacity, fee. naive_solver.
Qed.

Lemma smaller_repayment c repayment smaller terms :
  0 ≤ smaller ≤ repayment →
  (∀ capacity, iris_capacity (cc_iris c) (cc_source_domain c) (cc_destination_domain c) = Ok capacity →
     Forall (λ f, 0 ≤ minimum_fee_ppm f) (cap_fees capacity)) →
  circle_quote_terms c repayment = Ok terms →
  ∃ terms', circle_quote_terms c smaller = Ok terms' ∧ max_fee terms' ≤ max_fee terms.
Proof.
  intros Hs Hppm. unfold circle_quote_terms, fee_invalid. destruct (iris_capacity _ _ _) as [capacity|e] eqn:Hc; [|done]. cbn [map_err mbind result_bind].
  destruct (head _) as [fee|] eqn:Hf; [|done]. cbn [ok_or mbind result_bind].
  assert (Hp : 0 ≤ minimum_fee_ppm fee).
  { specialize (Hppm _ eq_refl). rewrite Forall_forall in Hppm. apply Hppm. apply head_Some_elem_of in Hf. by apply list_elem_of_filter in Hf as [_ Hf]. }
  assert (Hle : smaller * minimum_fee_ppm fee ≤ repayment * minimum_fee_ppm fee) by nia.
  destruct (checked_mul repayment _) as [v|] eqn:Hv; [|done]. cbn [mbind option_bind]. apply checked_mul_Some in Hv as [-> Hv].
  destruct (checked_add _ (1000000 - 1)) as [n|] eqn:Hn; [|done]. cbn [ok_or mbind result_bind]. apply checked_add_Some in Hn as [-> Hn].
  destruct (checked_add repayment _) as [b|] eqn:Hb; [|done]. cbn [ok_or mbind result_bind]. apply checked_add_Some in Hb as [-> Hb].
  case_match eqn:Ha; [done|]. zbool. intros [= <-].
  assert (Hd : (smaller * minimum_fee_ppm fee + (1000000 - 1)) / 1000000 ≤ (repayment * minimum_fee_ppm fee + (1000000 - 1)) / 1000000)
    by (apply Z.div_le_mono; lia).
  rewrite (proj2 (checked_mul_Some smaller _ _)) by (split; [done|lia]). cbn [mbind option_bind].
  rewrite (proj2 (checked_add_Some _ (1000000 - 1) _)) by (split; [done|lia]). cbn [ok_or mbind result_bind].
  rewrite (proj2 (checked_add_Some smaller _ _)) by (split; [done|lia]). cbn [ok_or mbind result_bind].
  rewrite (proj2 (Z.ltb_ge _ _)) by lia. eauto.
Qed.

Lemma bound_routed_quote keccak q now :
  validate_aggregate_binding keccak q now = Ok tt → lq_route (aq_origin q) = Cctp →
  lq_amount_in (aq_destination q) + aq_bridge_fee q ≤ lq_amount_out (aq_origin q).
Proof.
  unfold validate_aggregate_binding. case_match; [done|]. intros Hv Hr. rewrite Hr in Hv.
  destruct (checked_add _ _) as [r|] eqn:Ha; [|done]. apply checked_add_Some in Ha as [-> _]. cbn [ok_or mbind result_bind] in Hv.
  destruct (_ || _) eqn:E in Hv; [done|]. apply orb_false_iff in E as [_ E]. zbool. lia.
Qed.

(** a routed repayment is quoted with the first fee Circle publishes for the configured finality: the fee
    is the least integer that pays that rate on the repayment, the burn of repayment and fee fits
    Circle's fast-transfer allowance, a smaller repayment is quoted too and never at a higher fee, and
    an order admitted with that fee swaps its origin leg into enough to burn both. *)
Theorem cctp_terms_cover_the_bridge c repayment terms :
  0 ≤ repayment → circle_quote_terms c repayment = Ok terms →
  (∃ capacity fee, iris_capacity (cc_iris c) (cc_source_domain c) (cc_destination_domain c) = Ok capacity
     ∧ head (filter (λ f, fee_finality f = cc_finality c) (cap_fees capacity)) = Some fee
     ∧ least_fee repayment (minimum_fee_ppm fee) (max_fee terms)
     ∧ repayment + max_fee terms ≤ fast_allowance capacity)
  ∧ (∀ smaller, 0 ≤ smaller ≤ repayment → (∀ capacity, iris_capacity (cc_iris c) (cc_source_domain c) (cc_destination_domain c) = Ok capacity →
         Forall (λ f, 0 ≤ minimum_fee_ppm f) (cap_fees capacity)) →
       ∃ terms', circle_quote_terms c smaller = Ok terms' ∧ max_fee terms' ≤ max_fee terms)
  ∧ ∀ keccak q now, validate_aggregate_binding keccak q now = Ok tt → lq_route (aq_origin q) = Cctp →
      lq_amount_in (aq_destination q) = repayment → aq_bridge_fee q = max_fee terms →
      repayment + max_fee terms ≤ lq_amount_out (aq_origin q).
Proof.
  intros H0 Hq. split; [|split].
  - apply quote_terms_Ok in Hq as (capacity & fee & Hc & Hf & Hm & Ha & _). exists capacity, fee. rewrite Hm in Ha |- *.
    eauto using ceil_is_least.
  - intros smaller Hs Hppm. by apply (smaller_repayment c repayment).
  - intros keccak q now Hb Hr <- <-. by eapply bound_routed_quote.
Qed.

(** ** Circle's decimal numbers *)

(** A JSON number without an exponent. *)
Definition decimal_text (int frac : list Z) : string :=
  match frac with [] => text int | _ => (text int +:+ "." +:+ text frac)%string end.

(** Its digits, as a multiple of [10^-scale]. *)
Definition scaled (int frac : list Z) (scale : nat) : Z := dval (int ++ frac) * 10 ^ Z.of_nat (scale - length frac).

Lemma list_ascii_app a b : list_ascii_of_string (a +:+ b) = list_ascii_of_string a ++ list_ascii_of_string b.
Proof. induction a as [|c a IH]; [done|]. change (String c a +:+ b) with (String c (a +:+ b)). cbn. by rewrite IH. Qed.

Lemma list_ascii_text ds : list_ascii_of_string (text ds) = digit_char <$> ds.
Proof. apply list_ascii_of_string_of_list_ascii. Qed.

Lemma text_app a b : text (a ++ b) = text a +:+ text b.
Proof. unfold text. induction a as [|d a IH]; [done|]. cbn. by rewrite IH. Qed.

Lemma text_zeros n : repeat_zero n = text (replicate n 0).
Proof. unfold text. induction n as [|n IH]; [done|]. cbn [repeat_zero replicate fmap list_fmap string_of_list_ascii]. by rewrite IH. Qed.

Lemma length_text ds : String.length (text ds) = length ds.
Proof. unfold text. induction ds as [|d ds IH]; [done|]. cbn. by rewrite IH. Qed.

Lemma split_decimal_text int frac : Forall is_digit int → Forall is_digit frac → split_once_dot (decimal_text int frac) = (text int, text frac).
Proof.
  intros Hi Hf. unfold split_once_dot, decimal_text. destruct frac as [|d frac].
  - by rewrite list_ascii_text, split_no_point.
  - rewrite !list_ascii_app, !list_ascii_text. cbn [app list_ascii_of_string]. by rewrite split_digits.
Qed.

Lemma digit_char_sign d : is_digit d → digit_char d ≠ "-"%char ∧ digit_char d ≠ "+"%char.
Proof.
  intros Hd. destruct (char_digit_char d Hd) as [He _]. split; intros Heq; rewrite Heq in He; done.
Qed.

Lemma text_not_negative ds : Forall is_digit ds → starts_with_minus (text ds) = false.
Proof. intros [|d l Hd _]; [done|]. cbn. apply bool_decide_false. by apply digit_char_sign. Qed.

Lemma dval_foldl acc ds : Forall is_digit ds → 0 ≤ acc → acc ≤ foldl (λ v d, 10 * v + d) acc ds.
Proof.
  intros Hd. revert acc. induction Hd as [|d ds Hd _ IH]; intros acc Ha; [done|]. destruct Hd. cbn [foldl]. specialize (IH (10 * acc + d)). lia.
Qed.

Lemma parse_digits acc ds :
  Forall is_digit ds → 0 ≤ acc → foldl (λ v d, 10 * v + d) acc ds < 2 ^ 32 →
  try_fold parse_step acc (digit_char <$> ds) = Ok (foldl (λ v d, 10 * v + d) acc ds).
Proof.
  intros Hd. revert acc. induction Hd as [|d ds Hd Hds IH]; intros acc Ha Hb; [done|]. cbn [fmap list_fmap try_fold foldl] in Hb |- *.
  pose proof (dval_foldl (10 * acc + d) ds Hds ltac:(destruct Hd; lia)).
  assert (parse_step acc (digit_char d) = Ok (10 * acc + d)) as ->.
  { unfold parse_step. destruct (char_digit_char d Hd) as [-> _]. cbn [ok_or mbind result_bind]. by rewrite (proj2 (Z.leb_gt _ _)) by lia. }
  cbn [mbind result_bind]. apply IH; [destruct Hd; lia|done].
Qed.

Lemma parse_u32_text ds : Forall is_digit ds → ds ≠ [] → dval ds < 2 ^ 32 → parse_u32 (text ds) = Ok (dval ds).
Proof.
  intros Hd Hne Hb. unfold parse_u32. rewrite list_ascii_text. pose proof (parse_digits 0 ds Hd ltac:(lia) Hb) as Hp.
  destruct Hd as [|d l Hd Hl]; [done|]. cbn [fmap list_fmap]. destruct (digit_char_sign d Hd) as [_ Hs].
  destruct l as [|e l].
  - cbn [fmap list_fmap try_fold] in Hp |- *. by destruct (parse_step 0 (digit_char d)).
  - cbn [fmap list_fmap]. rewrite bool_decide_false by done. exact Hp.
Qed.

Lemma dval_nonneg ds : Forall is_digit ds → 0 ≤ dval ds.
Proof. intros Hd. by apply dval_foldl. Qed.

(** The digits handed to the integer parsers. *)
Lemma padded_text int frac scale : text int +:+ text frac +:+ repeat_zero (scale - String.length (text frac)) = text (int ++ frac ++ replicate (scale - length frac) 0).
Proof. by rewrite length_text, text_zeros, !text_app. Qed.

Lemma dval_padded int frac scale : dval (int ++ frac ++ replicate (scale - length frac) 0) = scaled int frac scale.
Proof. unfold scaled. by rewrite app_assoc, dval_app, dval_zeros, length_replicate, Z.add_0_r. Qed.

Lemma read_decimal_text int frac scale :
  Forall is_digit int → Forall is_digit frac → (length frac ≤ scale)%nat →
  ∃ q, read_decimal (decimal_text int frac) = Some q ∧ (q == inject_Z (scaled int frac scale) / pow10 (Z.of_nat scale))%Q.
Proof.
  intros Hi Hf Hl. unfold scaled. assert (Hs : Z.of_nat scale = Z.of_nat (length frac) + Z.of_nat (scale - length frac)) by lia.
  assert (∃ q, read_decimal (decimal_text int frac) = Some q ∧ q = (inject_Z (dval (int ++ frac)) / pow10 (Z.of_nat (length frac)))%Q) as (q & Hq & ->).
  { unfold decimal_text. destruct frac as [|d frac]; eexists; (split; [|reflexivity]); [by apply read_integer|by apply read_fraction]. }
  eexists. split; [done|]. rewrite inject_Z_mult, Hs, pow10_add by lia. fold (pow10 (Z.of_nat (scale - length frac))).
  pose proof (pow10_pos (Z.of_nat (length frac)) ltac:(lia)). pose proof (pow10_pos (Z.of_nat (scale - length frac)) ltac:(lia)). field. split; lra.
Qed.

Lemma scaled_u32_exact int frac scale :
  Forall is_digit int → Forall is_digit frac → int ≠ [] → (length frac ≤ scale)%nat → scaled int frac scale < 2 ^ 32 →
  decimal_scaled_u32 (decimal_text int frac) scale = Ok (scaled int frac scale).
Proof.
  intros Hi Hf Hne Hl Hb. unfold decimal_scaled_u32. rewrite split_decimal_text, text_not_negative by done. cbn [orb].
  rewrite padded_text, length_text, (proj2 (Nat.ltb_ge _ _)) by done. rewrite parse_u32_text; rewrite ?dval_padded; try done.
  - rewrite !Forall_app. split_and!; try done. apply Forall_replicate. split; lia.
  - by destruct int.
Qed.

Section usdc.
Context (parse_u256 : string → result string U256).

(** [U256::from_str] reads a decimal integer in range. *)
Hypothesis parse_u256_digits : ∀ ds, ds ≠ [] → Forall is_digit ds → dval ds ≤ U256_MAX → parse_u256 (text ds) = Ok (dval ds).

Lemma usdc_exact int frac :
  Forall is_digit int → Forall is_digit frac → int ≠ [] → (length frac ≤ 6)%nat → scaled int frac 6 ≤ U256_MAX →
  decimal_usdc parse_u256 (decimal_text int frac) = Ok (scaled int frac 6).
Proof.
  intros Hi Hf Hne Hl Hb. unfold decimal_usdc. rewrite split_decimal_text, text_not_negative by done. cbn [orb].
  rewrite length_text, (proj2 (Nat.ltb_ge _ _)), text_zeros, <-text_app by done.
  set (padded := frac ++ replicate (6 - length frac) 0).
  assert (Hp : Forall is_digit padded) by (apply Forall_app; split; [done|]; apply Forall_replicate; split; lia).
  assert (Hlp : length padded = 6%nat) by (unfold padded; rewrite length_app, length_replicate; lia).
  assert (Hsum : scaled int frac 6 = dval int * 1000000 + dval padded).
  { rewrite <-dval_padded. fold padded. by rewrite dval_app, Hlp. }
  pose proof (dval_nonneg _ Hi). pose proof (dval_nonneg _ Hp). rewrite parse_u256_digits by (try done; lia). cbn [map_err mbind result_bind].
  assert (Hne' : padded ≠ []) by (intros He; by rewrite He in Hlp).
  destruct (text padded) as [|a t] eqn:Ht; [by destruct padded|]. rewrite <-Ht, parse_u256_digits by (try done; lia). cbn [map_err mbind result_bind].
  rewrite Hsum. unfold wrapping_add, wrapping_mul, U256_MAX in *. by rewrite (Z.mod_small (dval int * 1000000)), Z.mod_small by lia.
Qed.

(** the decimal fee and allowance Circle publishes become integers without rounding: a fee of basis
    points with at most two decimals is exactly its parts per million, a USDC amount with at most
    six is exactly its subunits, and a number of more decimals is refused. *)
Theorem circle_numbers_are_exact int frac :
  Forall is_digit int → Forall is_digit frac → int ≠ [] →
  ((length frac ≤ 2)%nat → scaled int frac 2 < 2 ^ 32 →
     ∃ q, read_decimal (decimal_text int frac) = Some q
       ∧ ∃ ppm, decimal_scaled_u32 (decimal_text int frac) 2 = Ok ppm ∧ (inject_Z ppm == q * 100)%Q)
  ∧ ((length frac ≤ 6)%nat → scaled int frac 6 ≤ U256_MAX →
     ∃ q, read_decimal (decimal_text int frac) = Some q
       ∧ ∃ subunits, decimal_usdc parse_u256 (decimal_text int frac) = Ok subunits ∧ (inject_Z subunits == q * 1000000)%Q)
  ∧ ((2 < length frac)%nat → decimal_scaled_u32 (decimal_text int frac) 2 = Err (AttestationInvalid "numeric value has unsupported precision"))
  ∧ ((6 < length frac)%nat →
     decimal_usdc parse_u256 (decimal_text int frac) = Err (AttestationInvalid "allowance is not a non-negative six-decimal USDC amount")).
Proof.
  intros Hi Hf Hne. split_and!.
  - intros Hl Hb. destruct (read_decimal_text int frac 2 Hi Hf Hl) as (q & Hq & Heq). exists q. split; [done|].
    exists (scaled int frac 2). split; [by apply scaled_u32_exact|]. rewrite Heq. change (pow10 (Z.of_nat 2)) with 100%Q. field.
  - intros Hl Hb. destruct (read_decimal_text int frac 6 Hi Hf Hl) as (q & Hq & Heq). exists q. split; [done|].
    exists (scaled int frac 6). split; [by apply usdc_exact|]. rewrite Heq. change (pow10 (Z.of_nat 6)) with 1000000%Q. field.
  - intros Hl. unfold decimal_scaled_u32. rewrite split_decimal_text, length_text by done. by rewrite (proj2 (Nat.ltb_lt _ _)), orb_true_r.
  - intros Hl. unfold decimal_usdc. rewrite split_decimal_text, length_text by done. by rewrite (proj2 (Nat.ltb_lt _ _)), orb_true_r.
Qed.

End usdc.

(** * A concrete CCTP repayment

    Circle's API answering one burn and one fee schedule, on which the theorems of the completion
    are exercised. *)

#[global] Instance complete_law : @AbiLaw completeRepaymentCall abi_complete := tagged_law 3.

(** [U256::from_str] on decimal digits. *)
Definition read_u256 (s : string) : result string U256 :=
  match mapM char_digit (list_ascii_of_string s) with
  | Some ds => if dval ds <=? U256_MAX then Ok (dval ds) else Err "overflow"
  | None => Err "invalid digit"
  end.

Lemma read_u256_digits ds : ds ≠ [] → Forall is_digit ds → dval ds ≤ U256_MAX → read_u256 (text ds) = Ok (dval ds).
Proof. intros _ Hd Hb. unfold read_u256. rewrite list_ascii_text, read_digits by done. by rewrite (proj2 (Z.leb_le _ _)). Qed.

Definition burn_order : Z := 2 ^ 200 + 77.
Definition burn_app : Address := 5.

(** The bytes between the checked fields do not matter. *)
Definition burn_message : list Z :=
  replicate 4 9 ++ be_bytes 4 3 ++ be_bytes 4 6 ++ replicate 96 9 ++ padded_address burn_app ++ replicate 44 9
    ++ padded_address burn_app ++ replicate 160 9 ++ be_bytes 32 1 ++ be_bytes 32 burn_order.

(** One character per byte, in place of hexadecimal text. *)
Definition bytes_text (l : list Z) : string := string_of_list_ascii (ascii_of_N ∘ Z.to_N <$> l).
Definition text_bytes (s : string) : result string (list Z) := Ok (Z.of_N ∘ N_of_ascii <$> list_ascii_of_string s).

Definition demo_api : IrisApi := {|
  api_messages _ tx :=
    if tx =? 8 then Ok (mk_http 200 None (Ok [mk_circle_message EmptyString EmptyString "1" "pending_confirmations";
                                             mk_circle_message (bytes_text burn_message) (bytes_text [1; 2; 3]) "2" "complete"]))
    else Ok (mk_http 404 None (Err "no body"));
  api_fees _ _ := Ok (mk_http 200 None (Ok [mk_fee_response 2000 "0"; mk_fee_response 1000 "1.3"]));
  api_allowance := Ok (mk_http 200 None (Ok "123.45"));
  api_reattest _ := Ok (mk_http 429 (Some 30) (Ok tt))
|}.

Definition demo_circle : CircleCctpCompletion := mk_circle (iris_client demo_api text_bytes read_u256) 3 6 1000 burn_app.

Definition burn_step : CctpPreparedStep :=
  mk_cctp_step (mk_step CloseDestination burn_app 0 (abi_encode (mk_complete burn_order burn_message [1; 2; 3]))) (word_hash burn_message).

Lemma burn_closes : circle_close_step word_hash demo_circle burn_order 8 = Ok burn_step.
Proof. vm_compute. reflexivity. Qed.

Lemma burn_is_pending : circle_close_step word_hash demo_circle burn_order 9 = Err CctpPending.
Proof. vm_compute. reflexivity. Qed.

(** 130 parts per million of 100 USDC. *)
Lemma burn_quoted : circle_quote_terms demo_circle 100000000 = Ok (mk_cctp_terms 13000 1000).
Proof. vm_compute. reflexivity. Qed.

Lemma burn_over_allowance :
  circle_quote_terms demo_circle 123440000 = Err (CctpInvalid "Circle Fast Transfer allowance is below the requested repayment").
Proof. vm_compute. reflexivity. Qed.

Lemma cctp_repayment_is_bound_witness :
  circle_close_step word_hash demo_circle burn_order 8 = Ok burn_step
  ∧ ∀ order' step', is_u256 order' → circle_close_step word_hash demo_circle order' 8 = Ok step' → order' = burn_order.
Proof.
  split; [exact burn_closes|].
  exact (proj2 (proj2 (proj2 (proj2 (cctp_repayment_is_bound word_hash demo_circle burn_order 8 burn_step
    ltac:(by apply (bool_decide_eq_true_1 (is_u256 burn_order))) burn_closes))))).
Defined.

Lemma cctp_terms_cover_the_bridge_witness :
  circle_quote_terms demo_circle 100000000 = Ok (mk_cctp_terms 13000 1000)
  ∧ ∃ capacity fee, iris_capacity (cc_iris demo_circle) 3 6 = Ok capacity
      ∧ head (filter (λ f, fee_finality f = 1000) (cap_fees capacity)) = Some fee
      ∧ least_fee 100000000 (minimum_fee_ppm fee) 13000 ∧ 100000000 + 13000 ≤ fast_allowance capacity.
Proof.
  split; [exact burn_quoted|].
  exact (proj1 (cctp_terms_cover_the_bridge demo_circle 100000000 (mk_cctp_terms 13000 1000) ltac:(lia) burn_quoted)).
Defined.

Lemma circle_numbers_are_exact_witness :
  decimal_usdc read_u256 "123.45" = Ok 123450000 ∧ decimal_scaled_u32 "1.3" 2 = Ok 130
  ∧ ∃ q, read_decimal "123.45" = Some q
      ∧ ∃ subunits, decimal_usdc read_u256 "123.45" = Ok subunits ∧ (inject_Z subunits == q * 1000000)%Q.
Proof.
  split; [vm_compute; reflexivity|]. split; [vm_compute; reflexivity|].
  refine (proj1 (proj2 (circle_numbers_are_exact read_u256 read_u256_digits [1; 2; 3] [4; 5] _ _ _)) _ _).
  - repeat constructor; lia.
  - repeat constructor; lia.
  - done.
  - cbn. lia.
  - vm_compute. discriminate.
Defined.
