(* ===== verification/OrderIntake.v ===== *)
(** * Signed orders become intents

    [crates/adapters/src/ingest/uniswapx] and [ingest/erc7683]: the wire form of the two order
    protocols with the digests their takers sign, the resolver's cosignature on a UniswapX order,
    and the normalizers that read a raw order as an [Intent].

    The ABI codec, EIP-712 hashing of whole structures and signature recovery come from [alloy]:
    they are the class [OrderWire]; keccak is the parameter [keccak256]. *)

From stdpp Require Import strings.
From S2P Require Import Prelude U256 Reservation Ratio Intent CrossAuthor.

#[local] Open Scope Z_scope.

(** ** UniswapX orders *)

Record OrderInfo := mk_order_info {
  oi_reactor : Address;
  oi_swapper : Address;
  oi_nonce : U256;
  oi_deadline : U256;
  oi_validation_contract : Address;
  oi_validation_data : list Z
}.

Record DutchInput := mk_dutch_input { di_token : Address; di_start : U256; di_end : U256 }.

Record DutchOutput := mk_dutch_output { do_token : Address; do_start : U256; do_end : U256; do_recipient : Address }.

Record CosignerData := mk_cosigner_data {
  cd_decay_start : U256;
  cd_decay_end : U256;
  cd_exclusive_filler : Address;
  cd_override_bps : U256;
  cd_input_amount : U256;
  cd_output_amounts : list U256
}.

Record V2DutchOrder := mk_v2_order {
  v2_info : OrderInfo;
  v2_cosigner : Address;
  v2_input : DutchInput;
  v2_outputs : list DutchOutput;
  v2_cosigner_data : CosignerData;
  v2_cosignature : list Z
}.

(** ** ERC-7683 orders *)

Record Solvent7683Order := mk_7683_order {
  o7_settler : Address;
  o7_user : Address;
  o7_chain : U256;
  o7_input_token : Address;
  o7_input_amount : U256;
  o7_output_token : Address;
  o7_output_amount : U256;
  o7_recipient : Address;
  o7_executor_fee : U256;
  o7_nonce : U256;
  o7_deadline : U256
}.

Record PermitWitnessTransferFrom := mk_permit_witness {
  pw_token : Address;
  pw_amount : U256;
  pw_spender : Address;
  pw_nonce : U256;
  pw_deadline : U256;
  pw_witness : Solvent7683Order
}.

(** ** The wire *)

Class OrderWire := {
  v2_encode : V2DutchOrder → list Z;
  v2_decode : list Z → option V2DutchOrder;
  cosigner_encode : CosignerData → list Z;
  order7683_encode : Solvent7683Order → list Z;
  order7683_decode : list Z → option Solvent7683Order;
  (** the separator of Permit2's domain, on a chain and at an address *)
  permit2_separator : Z → Address → B256;
  eip712_hash_struct : Solvent7683Order → B256;
  eip712_signing_hash : PermitWitnessTransferFrom → Z → Address → B256;
  OrderSignature : Type;
  order_signature_from_raw : list Z → option OrderSignature;
  order_signature_bytes : OrderSignature → list Z;
  order_signer : OrderSignature → B256 → option Address
}.

Definition bytes_of (s : string) : list Z := (λ a, Z.of_N (Ascii.N_of_ascii a)) <$> String.list_ascii_of_string s.

(** The ABI encoding of a tuple of words. *)
Definition words (l : list Z) : list Z := l ≫= be_bytes 32.

Definition ORDER_INFO_TYPE : list Z := bytes_of "OrderInfo(address reactor,address swapper,uint256 nonce,uint256 deadline,address additionalValidationContract,bytes additionalValidationData)".
Definition DUTCH_OUTPUT_TYPE : list Z := bytes_of "DutchOutput(address token,uint256 startAmount,uint256 endAmount,address recipient)".
Definition V2_DUTCH_ORDER_TYPE : list Z := bytes_of "V2DutchOrder(OrderInfo info,address cosigner,address baseInputToken,uint256 baseInputStartAmount,uint256 baseInputEndAmount,DutchOutput[] baseOutputs)".
Definition TOKEN_PERMISSIONS_TYPE : list Z := bytes_of "TokenPermissions(address token,uint256 amount)".
Definition WITNESS_STUB : list Z := bytes_of "PermitWitnessTransferFrom(TokenPermissions permitted,address spender,uint256 nonce,uint256 deadline,".
Definition WITNESS_ORDER_PREFIX : list Z := bytes_of "V2DutchOrder witness)".

Inductive NormalizeError : Type := NormalizeDecode (p : ProtocolId) | NormalizeInvalid (p : ProtocolId) | NormalizeSignature (p : ProtocolId).

Inductive CosignError : Type := CosignDecode | WrongCosigner | BadSignature | UnsupportedOrder (reason : string).

(** [u64::try_from] *)
Definition u64_of {E} (x : U256) (e : E) : result E Z := if x <=? U64_MAX then Ok x else Err e.

(** The recovery byte a wallet may send. *)
Definition recovery_byte (signature : list Z) : bool :=
  match last signature with Some v => (v =? 0) || (v =? 1) || (v =? 27) || (v =? 28) | None => false end.

Section orders.
Context `{OrderWire} (keccak256 : list Z → B256).

(** *** Digests *)

Definition info_hash (info : OrderInfo) : B256 :=
  keccak256 (words [keccak256 ORDER_INFO_TYPE; oi_reactor info; oi_swapper info; oi_nonce info; oi_deadline info;
                    oi_validation_contract info; keccak256 (oi_validation_data info)]).

Definition outputs_hash (outputs : list DutchOutput) : B256 :=
  keccak256 (outputs ≫= λ o, be_bytes 32 (keccak256 (words [keccak256 DUTCH_OUTPUT_TYPE; do_token o; do_start o; do_end o; do_recipient o]))).

Definition order_hash (order : V2DutchOrder) : B256 :=
  keccak256 (words [keccak256 (V2_DUTCH_ORDER_TYPE ++ DUTCH_OUTPUT_TYPE ++ ORDER_INFO_TYPE); info_hash (v2_info order); v2_cosigner order;
                    di_token (v2_input order); di_start (v2_input order); di_end (v2_input order); outputs_hash (v2_outputs order)]).

Definition cosign_digest (order : V2DutchOrder) (hash : B256) : B256 := keccak256 (be_bytes 32 hash ++ cosigner_encode (v2_cosigner_data order)).

Definition witness_digest (order : V2DutchOrder) (hash : B256) (permit2 : Address) (chain : Z) : B256 :=
  let order_type := WITNESS_ORDER_PREFIX ++ DUTCH_OUTPUT_TYPE ++ ORDER_INFO_TYPE ++ TOKEN_PERMISSIONS_TYPE ++ V2_DUTCH_ORDER_TYPE in
  let witness_type_hash := keccak256 (WITNESS_STUB ++ order_type) in
  let token_permissions := keccak256 (words [keccak256 TOKEN_PERMISSIONS_TYPE; di_token (v2_input order); di_end (v2_input order)]) in
  let struct_hash := keccak256 (words [witness_type_hash; token_permissions; oi_reactor (v2_info order); oi_nonce (v2_info order); oi_deadline (v2_info order); hash]) in
  keccak256 ([0x19; 0x01] ++ be_bytes 32 (permit2_separator chain permit2) ++ be_bytes 32 struct_hash).

(** *** [UniswapXV2Normalizer] *)

Definition overridden (override_amount base : U256) : U256 := if override_amount =? 0 then base else override_amount.

Definition v2_normalize (raw : RawOrder) : result NormalizeError Intent :=
  let bad := NormalizeDecode UniswapXV2 in
  order ← ok_or (v2_decode (raw_payload raw)) bad;
  let cd := v2_cosigner_data order in
  if negb (length (cd_output_amounts cd) =? length (v2_outputs order))%nat then Err bad
  else
    start_time ← u64_of (cd_decay_start cd) bad;
    end_time ← u64_of (cd_decay_end cd) bad;
    let input := mk_input (di_token (v2_input order))
      (dutch (overridden (cd_input_amount cd) (di_start (v2_input order))) (di_end (v2_input order)) start_time end_time) in
    let outputs := imap (λ i o,
      mk_output (do_token o) (dutch (overridden (default 0 (cd_output_amounts cd !! i)) (do_start o)) (do_end o) start_time end_time) (do_recipient o))
      (v2_outputs order) in
    let exclusivity := if cd_exclusive_filler cd =? 0 then None else Some (mk_exclusivity (cd_exclusive_filler cd) start_time) in
    deadline ← u64_of (oi_deadline (v2_info order)) bad;
    Ok (mk_intent (order_hash order) UniswapXV2 input None outputs deadline exclusivity (oi_reactor (v2_info order)) (raw_chain raw)
          (raw_payload raw) (raw_signature raw) (raw_observed_at raw)).

(** *** [ServerCosigner] *)

Record ServerCosigner := mk_server_cosigner {
  sc_permit2 : Address;
  sc_reactor : Address;
  sc_chain : Z;
  sc_cosigner : Signer;
  sc_exclusive_filler : Address;
  sc_decay_window : Z
}.

Record Cosigned := mk_cosigned { co_swapper : Address; co_raw : RawOrder }.

Definition unsupported (refused : bool) (reason : string) : result CosignError unit := if refused then Err (UnsupportedOrder reason) else Ok tt.

Definition validate_order (c : ServerCosigner) (order : V2DutchOrder) (observed : Z) : result CosignError unit :=
  let info := v2_info order in
  let input := v2_input order in
  _ ← unsupported (negb (oi_reactor info =? sc_reactor c)) "reactor is not supported";
  _ ← unsupported (oi_swapper info =? 0) "swapper is the zero address";
  _ ← unsupported (negb (oi_validation_contract info =? 0) || negb (bool_decide (oi_validation_data info = []))) "additional validation hooks are not supported";
  _ ← unsupported (di_token input =? 0) "input token is the zero address";
  _ ← unsupported ((di_start input =? 0) || negb (di_start input =? di_end input)) "input must have one positive fixed amount";
  match v2_outputs order with
  | [output] =>
      _ ← unsupported ((do_token output =? 0) || (do_token output =? di_token input)) "output token must be nonzero and distinct from input";
      _ ← unsupported ((do_start output =? 0) || negb (do_start output =? do_end output)) "output must have one positive fixed amount";
      _ ← unsupported (negb (do_recipient output =? oi_swapper info)) "output recipient must be the swapper";
      unsupported (oi_deadline info <? u64_saturating_add observed (sc_decay_window c)) "deadline is shorter than the resolver decay window"
  | _ => Err (UnsupportedOrder "exactly one output is required")
  end.

(** The order with this resolver's decay window and exclusivity on it. *)
Definition with_cosigner_terms (c : ServerCosigner) (order : V2DutchOrder) (observed : Z) : V2DutchOrder :=
  mk_v2_order (v2_info order) (v2_cosigner order) (v2_input order) (v2_outputs order)
    (mk_cosigner_data observed (u64_saturating_add observed (sc_decay_window c)) (sc_exclusive_filler c) 0 0 (replicate (length (v2_outputs order)) 0))
    (v2_cosignature order).

Definition with_cosignature (order : V2DutchOrder) (cosignature : list Z) : V2DutchOrder :=
  mk_v2_order (v2_info order) (v2_cosigner order) (v2_input order) (v2_outputs order) (v2_cosigner_data order) cosignature.

Definition cosign (c : ServerCosigner) (encoded_order signature : list Z) (observed : Z) : result CosignError Cosigned :=
  order ← ok_or (v2_decode encoded_order) CosignDecode;
  _ ← validate_order c order observed;
  if negb (v2_cosigner order =? signer_address (sc_cosigner c)) then Err WrongCosigner
  else
    let hash := order_hash order in
    let digest := witness_digest order hash (sc_permit2 c) (sc_chain c) in
    signature ← (if recovery_byte signature then ok_or (order_signature_from_raw signature) BadSignature else Err BadSignature);
    swapper ← ok_or (order_signer signature digest) BadSignature;
    if negb (swapper =? oi_swapper (v2_info order)) then Err BadSignature
    else
      let order := with_cosigner_terms c order observed in
      let order := with_cosignature order (sign65 (sc_cosigner c) (cosign_digest order hash)) in
      Ok (mk_cosigned swapper (mk_raw UniswapXV2 (sc_chain c) (v2_encode order) (order_signature_bytes signature) observed)).

(** *** [SignedOrderBuilder] *)

Record OrderSpec := mk_order_spec {
  sp_reactor : Address;
  sp_nonce : U256;
  sp_deadline : Z;
  sp_input_token : Address;
  sp_input_start : U256;
  sp_input_end : U256;
  sp_output_token : Address;
  sp_output_start : U256;
  sp_output_end : U256;
  sp_recipient : Address;
  sp_decay_start : Z;
  sp_decay_end : Z;
  sp_exclusive_filler : Address
}.

Record SignedOrderBuilder := mk_order_builder { ob_permit2 : Address; ob_chain : Z; ob_swapper : Signer; ob_cosigner : Signer }.

Definition build_order (b : SignedOrderBuilder) (spec : OrderSpec) (observed : Z) : RawOrder :=
  let order := mk_v2_order
    (mk_order_info (sp_reactor spec) (signer_address (ob_swapper b)) (sp_nonce spec) (sp_deadline spec) 0 [])
    (signer_address (ob_cosigner b)) (mk_dutch_input (sp_input_token spec) (sp_input_start spec) (sp_input_end spec))
    [mk_dutch_output (sp_output_token spec) (sp_output_start spec) (sp_output_end spec) (sp_recipient spec)]
    (mk_cosigner_data (sp_decay_start spec) (sp_decay_end spec) (sp_exclusive_filler spec) 0 0 [0]) [] in
  let hash := order_hash order in
  let order := with_cosignature order (sign65 (ob_cosigner b) (cosign_digest order hash)) in
  mk_raw UniswapXV2 (ob_chain b) (v2_encode order) (sign65 (ob_swapper b) (witness_digest order hash (ob_permit2 b) (ob_chain b))) observed.

(** *** [Erc7683Normalizer] *)

Record Erc7683Normalizer := mk_7683_normalizer { en_chain : Z; en_permit2 : Address; en_settler : Address; en_fee_bps : Z }.

Record NormalizedErc7683 := mk_normalized_7683 { ne_intent : Intent; ne_user : Address }.

Definition permit_digest (order : Solvent7683Order) (permit2 : Address) (chain : Z) : B256 :=
  eip712_signing_hash (mk_permit_witness (o7_input_token order) (o7_input_amount order) (o7_settler order) (o7_nonce order) (o7_deadline order) order) chain permit2.

Definition validate_7683 (n : Erc7683Normalizer) (order : Solvent7683Order) (observed : Z) : result NormalizeError unit :=
  let invalid := NormalizeInvalid Erc7683 in
  let addresses_valid :=
    (o7_settler order =? en_settler n) && (o7_chain order =? en_chain n) && negb (o7_user order =? 0) && negb (o7_input_token order =? 0)
    && negb (o7_output_token order =? 0) && negb (o7_recipient order =? 0) && negb (o7_input_token order =? o7_output_token order) in
  let deadline_valid := observed <=? o7_deadline order in
  expected_fee ← map_err (λ _, invalid) (fee (en_fee_bps n) (o7_input_amount order));
  let amounts_valid :=
    negb (o7_input_amount order =? 0) && negb (o7_output_amount order =? 0) && (o7_executor_fee order =? expected_fee)
    && (o7_executor_fee order <? o7_input_amount order) in
  if addresses_valid && deadline_valid && amounts_valid then Ok tt else Err invalid.

Definition normalize_order (n : Erc7683Normalizer) (raw : RawOrder) : result NormalizeError NormalizedErc7683 :=
  let bad := NormalizeDecode Erc7683 in
  if negb (bool_decide (raw_protocol raw = Erc7683)) || negb (raw_chain raw =? en_chain n) then Err bad
  else
    order ← ok_or (order7683_decode (raw_payload raw)) bad;
    _ ← validate_7683 n order (raw_observed_at raw);
    if negb (recovery_byte (raw_signature raw)) then Err (NormalizeSignature Erc7683)
    else
      signature ← ok_or (order_signature_from_raw (raw_signature raw)) (NormalizeSignature Erc7683);
      user ← ok_or (order_signer signature (permit_digest order (en_permit2 n) (en_chain n))) (NormalizeSignature Erc7683);
      if negb (user =? o7_user order) then Err (NormalizeSignature Erc7683)
      else
        routing ← ok_or (amount ← checked_sub (o7_input_amount order) (o7_executor_fee order); if amount =? 0 then None else Some amount) bad;
        deadline ← u64_of (o7_deadline order) bad;
        Ok (mk_normalized_7683
              (mk_intent (eip712_hash_struct order) Erc7683 (mk_input (o7_input_token order) (Static (o7_input_amount order))) (Some routing)
                 [mk_output (o7_output_token order) (Static (o7_output_amount order)) (o7_recipient order)] deadline None (o7_settler order) (raw_chain raw)
                 (raw_payload raw) (raw_signature raw) (raw_observed_at raw)) user).

Definition normalize_7683 (n : Erc7683Normalizer) (raw : RawOrder) : result NormalizeError Intent :=
  r ← normalize_order n raw; Ok (ne_intent r).

End orders.

(** * What is signed is what is settled

    A UniswapX order this resolver cosigned, read back by the normalizer, is an intent on exactly
    the terms its swapper signed; an ERC-7683 order is read only when its user signed it and pays
    the executor exactly the policy's fee. *)

(** Values the ABI can carry. *)
Definition is_account (a : Address) : Prop := 0 ≤ a < 2 ^ 160.
Definition is_octets (l : list Z) : Prop := Forall (λ b, 0 ≤ b < 256) l.

#[global] Instance is_account_dec a : Decision (is_account a).
Proof. unfold is_account. apply _. Defined.
#[global] Instance is_octets_dec l : Decision (is_octets l).
Proof. unfold is_octets. apply _. Defined.

Definition info_typed (i : OrderInfo) : Prop :=
  is_account (oi_reactor i) ∧ is_account (oi_swapper i) ∧ is_u256 (oi_nonce i) ∧ is_u256 (oi_deadline i) ∧ is_account (oi_validation_contract i)
  ∧ is_octets (oi_validation_data i).

Definition output_typed (o : DutchOutput) : Prop :=
  is_account (do_token o) ∧ is_u256 (do_start o) ∧ is_u256 (do_end o) ∧ is_account (do_recipient o).

Definition data_typed (d : CosignerData) : Prop :=
  is_u256 (cd_decay_start d) ∧ is_u256 (cd_decay_end d) ∧ is_account (cd_exclusive_filler d) ∧ is_u256 (cd_override_bps d)
  ∧ is_u256 (cd_input_amount d) ∧ Forall is_u256 (cd_output_amounts d).

Definition v2_typed (o : V2DutchOrder) : Prop :=
  info_typed (v2_info o) ∧ is_account (v2_cosigner o)
  ∧ (is_account (di_token (v2_input o)) ∧ is_u256 (di_start (v2_input o)) ∧ is_u256 (di_end (v2_input o)))
  ∧ Forall output_typed (v2_outputs o) ∧ data_typed (v2_cosigner_data o) ∧ is_octets (v2_cosignature o).

#[global] Instance v2_typed_dec o : Decision (v2_typed o).
Proof.
  unfold v2_typed, info_typed, data_typed. assert (∀ x, Decision (output_typed x)) by (unfold output_typed; apply _). apply _.
Defined.

(** What the codec promises: an order it can carry is read back, and what it reads can be carried. *)
Class OrderWireLaws `{OrderWire} := {
  v2_round_trip o : v2_typed o → v2_decode (v2_encode o) = Some o;
  v2_decode_typed l o : v2_decode l = Some o → v2_typed o
}.

Section intake.
Context `{OrderWireLaws} (keccak256 : list Z → B256).

Record cosigner_ok (c : ServerCosigner) : Prop := {
  ok_filler : is_account (sc_exclusive_filler c);
  ok_window : 0 ≤ sc_decay_window c;
  ok_signer digest : is_octets (sign65 (sc_cosigner c) digest)
}.

(** The intent is the signed order: its terms do not depend on the time, and it is admitted until its deadline. *)
Record settles_as (c : ServerCosigner) (order : V2DutchOrder) (output : DutchOutput) (observed : Z) (i : Intent) : Prop := {
  as_id : int_id i = order_hash keccak256 order;
  as_input : inp_token (int_input i) = di_token (v2_input order) ∧ ∀ t, amount_at (inp_curve (int_input i)) t = di_start (v2_input order);
  as_output : ∃ o, int_outputs i = [o] ∧ out_token o = do_token output ∧ out_recipient o = oi_swapper (v2_info order)
    ∧ ∀ t, amount_at (out_curve o) t = do_start output;
  as_deadline : int_deadline i = oi_deadline (v2_info order) ∧ u64_saturating_add observed (sc_decay_window c) ≤ int_deadline i;
  as_exclusive : int_exclusivity i = if sc_exclusive_filler c =? 0 then None else Some (mk_exclusivity (sc_exclusive_filler c) observed);
  as_settler : int_settler i = sc_reactor c ∧ origin_chain i = sc_chain c ∧ routing_input_limit i = None;
  as_admissible chains now : sc_chain c ∈ chains → now < int_deadline i → is_admissible chains now i = true
}.

Lemma dutch_fixed x s e : dutch x x s e = Static x.
Proof. unfold dutch. by rewrite Z.compare_refl. Qed.

(** *** What the cosigner accepts *)

Record supported (c : ServerCosigner) (order : V2DutchOrder) (observed : Z) (output : DutchOutput) : Prop := {
  sup_reactor : oi_reactor (v2_info order) = sc_reactor c;
  sup_swapper : oi_swapper (v2_info order) ≠ 0;
  sup_input : di_start (v2_input order) ≠ 0 ∧ di_start (v2_input order) = di_end (v2_input order);
  sup_output : v2_outputs order = [output];
  sup_amount : do_start output ≠ 0 ∧ do_start output = do_end output;
  sup_recipient : do_recipient output = oi_swapper (v2_info order);
  sup_tokens : do_token output ≠ di_token (v2_input order);
  sup_deadline : u64_saturating_add observed (sc_decay_window c) ≤ oi_deadline (v2_info order)
}.

Lemma unsupported_Ok b reason : unsupported b reason = Ok tt → b = false.
Proof. by destruct b. Qed.

Lemma validate_order_Ok c order observed : validate_order c order observed = Ok tt → ∃ output, supported c order observed output.
Proof.
  unfold validate_order. intros Hv.
  apply bind_Ok in Hv as ([] & H1%unsupported_Ok & Hv). apply bind_Ok in Hv as ([] & H2%unsupported_Ok & Hv).
  apply bind_Ok in Hv as ([] & _ & Hv). apply bind_Ok in Hv as ([] & _ & Hv).
  apply bind_Ok in Hv as ([] & H5%unsupported_Ok & Hv). destruct (v2_outputs order) as [|output [|]] eqn:Ho; [done| |done].
  apply bind_Ok in Hv as ([] & H6%unsupported_Ok & Hv). apply bind_Ok in Hv as ([] & H7%unsupported_Ok & Hv).
  apply bind_Ok in Hv as ([] & H8%unsupported_Ok & H9%unsupported_Ok).
  apply orb_false_iff in H5 as [H5 H5'], H6 as [_ H6], H7 as [H7 H7']. apply negb_false_iff in H1, H5', H7', H8. zbool.
  exists output. by constructor.
Qed.

Lemma u64_saturating_add_bounds a b : 0 ≤ a → 0 ≤ b → 0 ≤ u64_saturating_add a b ≤ U64_MAX.
Proof. unfold u64_saturating_add, U64_MAX. lia. Qed.

Lemma u64_of_small {E} x (e : E) : x ≤ U64_MAX → u64_of x e = Ok x.
Proof. intros Hx. unfold u64_of. by rewrite (proj2 (Z.leb_le _ _) Hx). Qed.

Lemma u64_is_u256 a : 0 ≤ a ≤ U64_MAX → is_u256 a.
Proof. intros Ha. unfold is_u256, U256_MAX. unfold U64_MAX in Ha. lia. Qed.

Lemma cosigned_typed c order observed cosignature :
  cosigner_ok c → 0 ≤ observed ≤ U64_MAX → v2_typed order → is_octets cosignature →
  v2_typed (with_cosignature (with_cosigner_terms c order observed) cosignature).
Proof.
  intros Hc Ho (Hinfo & Hcs & Hin & Hout & _ & _) Hs. refine (conj Hinfo (conj Hcs (conj Hin (conj Hout (conj _ Hs))))).
  unfold data_typed. cbn. split_and!; try (apply u64_is_u256; unfold U64_MAX; lia); [by apply u64_is_u256|apply u64_is_u256, u64_saturating_add_bounds; [lia|apply Hc]|apply Hc|].
  apply Forall_replicate, u64_is_u256. unfold U64_MAX. lia.
Qed.

(** The normalizer on an order this cosigner completed. *)
Lemma cosigned_normalizes c order observed output cosignature raw :
  cosigner_ok c → 0 ≤ observed ≤ U64_MAX → supported c order observed output →
  v2_decode (raw_payload raw) = Some (with_cosignature (with_cosigner_terms c order observed) cosignature) →
  raw_chain raw = sc_chain c →
  if oi_deadline (v2_info order) <=? U64_MAX
  then ∃ i, v2_normalize keccak256 raw = Ok i ∧ settles_as c order output observed i
  else v2_normalize keccak256 raw = Err (NormalizeDecode UniswapXV2).
Proof.
  intros Hc Hobs [] Hdec Hchain. unfold v2_normalize. rewrite Hdec. cbn [ok_or mbind result_bind].
  destruct order as [info cosigner input outputs data sig]. cbn [v2_info v2_input v2_outputs] in *. subst outputs.
  cbn [v2_cosigner_data v2_outputs v2_info v2_input with_cosignature with_cosigner_terms cd_output_amounts cd_decay_start cd_decay_end cd_input_amount cd_exclusive_filler length replicate].
  cbn [Nat.eqb negb]. rewrite (u64_of_small observed) by lia. cbn [mbind result_bind].
  rewrite (u64_of_small (u64_saturating_add _ _)) by (apply u64_saturating_add_bounds; [lia|apply Hc]). cbn [mbind result_bind].
  unfold u64_of. destruct (oi_deadline info <=? U64_MAX) eqn:Hd; [|done]. cbn [mbind result_bind]. eexists. split; [reflexivity|].
  destruct sup_input0 as [Hi Hie], sup_amount0 as [Ha Hae].
  assert (Hin : dutch (overridden 0 (di_start input)) (di_end input) observed (u64_saturating_add observed (sc_decay_window c)) = Static (di_start input))
    by (cbn; rewrite <-Hie; apply dutch_fixed).
  assert (Hout : dutch (overridden 0 (do_start output)) (do_end output) observed (u64_saturating_add observed (sc_decay_window c)) = Static (do_start output))
    by (cbn; rewrite <-Hae; apply dutch_fixed).
  split; cbn [int_id int_input int_outputs int_deadline int_exclusivity int_settler origin_chain routing_input_limit inp_token inp_curve v2_info v2_input]; try done.
  - rewrite Hin. done.
  - eexists. split; [reflexivity|]. split_and!; [done|done|]. intros t.
    change (amount_at (dutch (overridden 0 (do_start output)) (do_end output) observed (u64_saturating_add observed (sc_decay_window c))) t = do_start output).
    by rewrite Hout.
  - intros chains now Hch Hnow. unfold is_admissible. cbn [origin_chain int_deadline int_outputs int_input inp_curve].
    rewrite Hchain, bool_decide_true by done. cbn [negb]. rewrite (proj2 (Z.leb_gt _ _)) by done.
    change (length (imap _ _) =? 0)%nat with false. rewrite Hin. cbn [amount_at]. rewrite (proj2 (Z.eqb_neq _ _) Hi).
    change (existsb _ _) with
      ((amount_at (dutch (overridden 0 (do_start output)) (do_end output) observed (u64_saturating_add observed (sc_decay_window c))) now =? 0) || false).
    rewrite Hout. cbn [amount_at]. by rewrite (proj2 (Z.eqb_neq _ _) Ha).
Qed.

(** C38: an order this resolver cosigned settles as its swapper signed it: the signature over the order's hash is
    the swapper's own, the swapper receives the one output, and the order read back from what was
    cosigned is an intent under that very hash, for the signed amounts at every time, with the configured
    filler named exclusive until the moment the order was seen, so that its exclusive window is over when the decay starts,
    and admitted until the signed deadline, which leaves
    the whole decay window; the only such order that is not read back is one whose deadline is no 64-bit time. *)
Theorem cosigned_orders_are_as_signed c encoded signature observed r :
  cosigner_ok c → 0 ≤ observed ≤ U64_MAX → cosign keccak256 c encoded signature observed = Ok r →
  ∃ order output s,
    v2_decode encoded = Some order ∧ v2_cosigner order = signer_address (sc_cosigner c)
    ∧ order_signature_from_raw signature = Some s
    ∧ order_signer s (witness_digest keccak256 order (order_hash keccak256 order) (sc_permit2 c) (sc_chain c)) = Some (co_swapper r)
    ∧ co_swapper r = oi_swapper (v2_info order) ∧ co_swapper r ≠ 0 ∧ v2_outputs order = [output] ∧ do_recipient output = co_swapper r
    ∧ if oi_deadline (v2_info order) <=? U64_MAX
      then ∃ i, v2_normalize keccak256 (co_raw r) = Ok i ∧ settles_as c order output observed i
      else v2_normalize keccak256 (co_raw r) = Err (NormalizeDecode UniswapXV2).
Proof.
  intros Hc Hobs Hco. unfold cosign in Hco. destruct (v2_decode encoded) as [order|] eqn:Hdec; [|done]. cbn [ok_or mbind result_bind] in Hco.
  destruct (validate_order c order observed) as [[]|] eqn:Hv; [|done]. cbn [mbind result_bind] in Hco.
  destruct (negb _) eqn:Hcs; [done|]. apply negb_false_iff in Hcs. zbool. destruct (recovery_byte signature); [|done].
  destruct (order_signature_from_raw signature) as [s|] eqn:Hs; [|done]. cbn [ok_or mbind result_bind] in Hco.
  destruct (order_signer s _) as [swapper|] eqn:Hrec; [|done]. cbn [ok_or mbind result_bind] in Hco.
  destruct (negb (swapper =? _)) eqn:Hsw; [done|]. apply negb_false_iff in Hsw. zbool. injection Hco as <-.
  destruct (validate_order_Ok _ _ _ Hv) as [output Hsup]. exists order, output, s. cbn [co_swapper co_raw].
  pose proof (sup_swapper _ _ _ _ Hsup). pose proof (sup_recipient _ _ _ _ Hsup). pose proof (sup_output _ _ _ _ Hsup).
  split_and!; [done|done|done|done|done|congruence|done|congruence|].
  eapply cosigned_normalizes; [done|done|done|apply v2_round_trip|done]. apply cosigned_typed; [done|done|by apply v2_decode_typed in Hdec|apply Hc].
Qed.

(** *** ERC-7683 *)

(** an ERC-7683 order is read only for this chain and settler, when its user's own signature is over exactly that
    order; what is routed is the signed input less the executor's fee, which is the policy's, rounded up and at
    least one unit, and both amounts hold at every time. *)
Theorem erc7683_orders_pay_the_policy_fee n raw r :
  0 < en_fee_bps n < BPS_DENOMINATOR → (∀ l o, order7683_decode l = Some o → is_u256 (o7_input_amount o)) →
  normalize_order n raw = Ok r →
  ∃ order s routed o,
    order7683_decode (raw_payload raw) = Some order ∧ o7_settler order = en_settler n ∧ o7_chain order = en_chain n ∧ raw_chain raw = en_chain n
    ∧ order_signature_from_raw (raw_signature raw) = Some s
    ∧ order_signer s (permit_digest order (en_permit2 n) (en_chain n)) = Some (ne_user r) ∧ ne_user r = o7_user order
    ∧ int_id (ne_intent r) = eip712_hash_struct order
    ∧ routing_input_limit (ne_intent r) = Some routed ∧ 0 < routed
    ∧ routed + Z.max 1 (- (- (o7_input_amount order * en_fee_bps n) / BPS_DENOMINATOR)) = o7_input_amount order
    ∧ int_outputs (ne_intent r) = [o] ∧ out_recipient o = o7_recipient order
    ∧ (∀ t, amount_at (inp_curve (int_input (ne_intent r))) t = o7_input_amount order ∧ amount_at (out_curve o) t = o7_output_amount order)
    ∧ int_deadline (ne_intent r) = o7_deadline order ∧ raw_observed_at raw ≤ o7_deadline order.
Proof.
  intros Hbps Hword Hn. unfold normalize_order in Hn. destruct (_ || _) eqn:Hp; [done|]. apply orb_false_iff in Hp as [_ Hchain]. apply negb_false_iff in Hchain. zbool.
  destruct (order7683_decode (raw_payload raw)) as [order|] eqn:Hdec; [|done]. cbn [ok_or mbind result_bind] in Hn.
  destruct (validate_7683 n order (raw_observed_at raw)) as [[]|] eqn:Hv; [|done]. cbn [mbind result_bind] in Hn.
  destruct (negb (recovery_byte _)); [done|]. destruct (order_signature_from_raw (raw_signature raw)) as [s|] eqn:Hs; [|done]. cbn [ok_or mbind result_bind] in Hn.
  destruct (order_signer s _) as [user|] eqn:Hu; [|done]. cbn [ok_or mbind result_bind] in Hn.
  destruct (negb (user =? _)) eqn:Heq; [done|]. apply negb_false_iff in Heq. zbool.
  unfold validate_7683 in Hv. rewrite (fee_exact _ _ Hbps (Hword _ _ Hdec)) in Hv. cbn [map_err mbind result_bind] in Hv.
  destruct (_ && _ && _) eqn:Hall in Hv; [|done]. repeat (apply andb_true_iff in Hall as [Hall ?]). zbool.
  unfold checked_sub in Hn. rewrite (proj2 (Z.leb_le _ _)) in Hn by lia. cbn [mbind option_bind] in Hn.
  rewrite (proj2 (Z.eqb_neq _ _)) in Hn by lia. cbn [ok_or mbind result_bind] in Hn. unfold u64_of in Hn.
  destruct (o7_deadline order <=? U64_MAX); [|done]. injection Hn as <-. cbn [ne_intent ne_user].
  eexists order, s, _, _. split_and!; try done; cbn; try lia.
Qed.

End intake.

(** ** An order over a codec that numbers its values *)

Module IntakeDemo.

#[local] Instance OrderInfo_eq_dec : EqDecision OrderInfo.
Proof. solve_decision. Defined.
#[local] Instance OrderInfo_countable : Countable OrderInfo :=
  inj_countable' (λ i, (oi_reactor i, oi_swapper i, oi_nonce i, oi_deadline i, oi_validation_contract i, oi_validation_data i))
    (λ '(a, b, c, d, e, f), mk_order_info a b c d e f) ltac:(by intros []).
#[local] Instance DutchInput_eq_dec : EqDecision DutchInput.
Proof. solve_decision. Defined.
#[local] Instance DutchInput_countable : Countable DutchInput :=
  inj_countable' (λ i, (di_token i, di_start i, di_end i)) (λ '(a, b, c), mk_dutch_input a b c) ltac:(by intros []).
#[local] Instance DutchOutput_eq_dec : EqDecision DutchOutput.
Proof. solve_decision. Defined.
#[local] Instance DutchOutput_countable : Countable DutchOutput :=
  inj_countable' (λ i, (do_token i, do_start i, do_end i, do_recipient i)) (λ '(a, b, c, d), mk_dutch_output a b c d) ltac:(by intros []).
#[local] Instance CosignerData_eq_dec : EqDecision CosignerData.
Proof. solve_decision. Defined.
#[local] Instance CosignerData_countable : Countable CosignerData :=
  inj_countable' (λ i, (cd_decay_start i, cd_decay_end i, cd_exclusive_filler i, cd_override_bps i, cd_input_amount i, cd_output_amounts i))
    (λ '(a, b, c, d, e, f), mk_cosigner_data a b c d e f) ltac:(by intros []).
#[local] Instance V2DutchOrder_eq_dec : EqDecision V2DutchOrder.
Proof. solve_decision. Defined.
#[local] Instance V2DutchOrder_countable : Countable V2DutchOrder :=
  inj_countable' (λ i, (v2_info i, v2_cosigner i, v2_input i, v2_outputs i, v2_cosigner_data i, v2_cosignature i))
    (λ '(a, b, c, d, e, f), mk_v2_order a b c d e f) ltac:(by intros []).

Definition number_decode (l : list Z) : option V2DutchOrder :=
  match l with
  | [Zpos p] => o ← (decode p : option V2DutchOrder); if decide (v2_typed o) then Some o else None
  | _ => None
  end.

Definition sample_7683 : Solvent7683Order := mk_7683_order 8 5 1 3 1000 4 900 6 1 2 5000.

(** Signatures whose last byte is 27; the signer is the first byte, whatever the digest. *)
#[local] Instance number_wire : OrderWire := {|
  v2_encode o := [Zpos (encode o)]; v2_decode := number_decode; cosigner_encode d := [Zpos (encode d)];
  order7683_encode _ := [7]; order7683_decode l := if bool_decide (l = [7]) then Some sample_7683 else None;
  permit2_separator chain permit2 := chain + permit2; eip712_hash_struct o := o7_nonce o; eip712_signing_hash p chain permit2 := pw_nonce p;
  OrderSignature := list Z; order_signature_from_raw l := Some l; order_signature_bytes l := l; order_signer s digest := head s
|}.

#[local] Instance number_wire_laws : OrderWireLaws.
Proof.
  split.
  - intros o Ho. cbn. rewrite decode_encode. cbn. by rewrite decide_True.
  - intros l o. cbn. unfold number_decode. destruct l as [|[|p|p] [|]]; try done. destruct (decode p) as [o'|]; [|done]. cbn.
    destruct (decide (v2_typed o')); [|done]. by intros [= <-].
Qed.

Definition hash (l : list Z) : B256 := Z.of_nat (length l).

Definition resolver : ServerCosigner := mk_server_cosigner 20 21 1 (mk_signer 9 (λ _, [1; 27])) 30 60.

Lemma resolver_ok : cosigner_ok resolver.
Proof. constructor; [by apply (bool_decide_eq_true_1 (is_account 30))|done|]. intros digest. by apply (bool_decide_eq_true_1 (is_octets [1; 27])). Qed.

(** Account 5 sells 500 of token 3 for 1000 of token 4. *)
Definition signed_order : V2DutchOrder :=
  mk_v2_order (mk_order_info 21 5 1 2000 0 []) 9 (mk_dutch_input 3 500 500) [mk_dutch_output 4 1000 1000 5] (mk_cosigner_data 0 0 0 0 0 []) [].

(** [cosigned_orders_are_as_signed] at an order for one output *)
Lemma cosigned_orders_are_as_signed_witness :
  ∃ r, cosign hash resolver (v2_encode signed_order) [5; 27] 100 = Ok r ∧ co_swapper r = 5
    ∧ ∃ order output s, v2_decode (v2_encode signed_order) = Some order ∧ order_signature_from_raw [5; 27] = Some s ∧ v2_outputs order = [output].
Proof.
  eexists. assert (Hc : cosign hash resolver (v2_encode signed_order) [5; 27] 100 = Ok _) by (vm_compute; reflexivity). split; [exact Hc|].
  destruct (cosigned_orders_are_as_signed hash resolver (v2_encode signed_order) [5; 27] 100 _ resolver_ok ltac:(unfold U64_MAX; lia) Hc)
    as (order & output & s & Hd & _ & Hs & _ & _ & _ & Ho & _).
  split; [reflexivity|]. exists order, output, s. split; [exact Hd|]. split; [exact Hs|exact Ho].
Defined.

Definition settler7683 : Erc7683Normalizer := mk_7683_normalizer 1 20 8 10.

Definition raw7683 : RawOrder := mk_raw Erc7683 1 [7] [5; 27] 100.

(** [erc7683_orders_pay_the_policy_fee] at an order that pays one unit of a thousand *)
Lemma erc7683_orders_pay_the_policy_fee_witness :
  ∃ r, normalize_order settler7683 raw7683 = Ok r ∧ ne_user r = 5 ∧ routing_input_limit (ne_intent r) = Some 999
    ∧ ∃ order, order7683_decode [7] = Some order ∧ int_id (ne_intent r) = eip712_hash_struct order.
Proof.
  eexists. assert (Hn : normalize_order settler7683 raw7683 = Ok _) by (vm_compute; reflexivity). split; [exact Hn|].
  assert (Hw : ∀ l o, order7683_decode l = Some o → is_u256 (o7_input_amount o)).
  { intros l o. cbn. case_bool_decide; [|done]. intros [= <-]. by apply (bool_decide_eq_true_1 (is_u256 1000)). }
  destruct (erc7683_orders_pay_the_policy_fee settler7683 raw7683 _ ltac:(unfold BPS_DENOMINATOR; cbn; lia) Hw Hn)
    as (order & _ & _ & _ & Hd & _ & _ & _ & _ & _ & _ & Hid & _).
  split; [reflexivity|]. split; [reflexivity|]. exists order. split; [exact Hd|exact Hid].
Defined.

End IntakeDemo.
