(* ===== verification/FillBuilders.v ===== *)
(** * The call that settles a routed order

    [crates/adapters/src/ingest/aqua.rs], [ingest/fill.rs], [ingest/uniswapx/fill.rs],
    [ingest/erc7683/fill.rs] and [execution/filler.rs]: every leg of a plan becomes a source of the
    filler contract with its own signed authorization, and the order's protocol chooses the filler.

    The ABI codec is the class [FillWire], keccak and the policy signer are parameters. *)

From S2P Require Import Prelude U256 Reservation CurveDecode Registry Candidates Waterfill Routing RebateStore RebateCall Intent Swap OrderIntake.

#[local] Open Scope Z_scope.

Record SignedOrder := mk_signed_order { so_order : list Z; so_sig : list Z }.

(** [Authorization] has the fields of the policy it is made from. *)
Record SourceSwap := mk_source_swap { ss_order : Order; ss_authorization : ExecutionAuthorization; ss_signature : list Z }.

Inductive FillBuilderError : Type :=
| NoLegs
| MissingStrategy
| UndecodableLeg
| LegMakerMismatch
| UnprotectedLeg
| InvalidOrder
| UnsupportedProtocol
| LegAuthorization.

Class FillWire := {
  fill_order_decode : list Z → option Order;
  signed_order_encode : SignedOrder → list Z;
  sources_encode : list SourceSwap → list Z;
  fill_call : SignedOrder → list SourceSwap → list Z;
  fill_7683_call : list Z → list Z → list Z → Address → list Z
}.

Section builders.
Context `{OrderWire} `{FillWire} (keccak256 : list Z → B256) (authorize : ExecutionAuthorization → option (list Z)).

Record AquaSourcePlanBuilder := mk_source_builder { ab_app : Address; ab_taker_credential : Address }.

Definition user_fill_nonce (context : B256) (leg : RouteLeg) (index : nat) : U256 :=
  keccak256 (words [context; leg_hash leg; leg_maker leg; leg_token_in leg; leg_token_out leg; leg_in leg; leg_out leg; Z.of_nat index]).

Definition source_for (b : AquaSourcePlanBuilder) (leg : RouteLeg) (index : nat) (context : B256) (snapshot : Snapshot) : result FillBuilderError SourceSwap :=
  strategy ← ok_or (strategies snapshot !! mk_strategy_key (leg_maker leg) (ab_app b) (leg_hash leg)) MissingStrategy;
  order ← ok_or (fill_order_decode (program strategy)) UndecodableLeg;
  if negb (order_maker order =? leg_maker leg) then Err LegMakerMismatch
  else if negb (uses_taker_credential (order_data order) (ab_taker_credential b)) then Err UnprotectedLeg
  else
    let auth := user_fill (user_fill_nonce context leg index) context (leg_hash leg) (leg_maker leg) (leg_token_in leg) (leg_token_out leg) (leg_out leg) (leg_in leg) in
    signature ← ok_or (authorize auth) LegAuthorization;
    Ok (mk_source_swap order auth signature).

(** The loop over the legs, from an index on. *)
Fixpoint sources_from (b : AquaSourcePlanBuilder) (legs : list RouteLeg) (index : nat) (context : B256) (snapshot : Snapshot) :
    result FillBuilderError (list SourceSwap) :=
  match legs with
  | [] => Ok []
  | leg :: legs =>
      source ← source_for b leg index context snapshot;
      sources ← sources_from b legs (S index) context snapshot;
      Ok (source :: sources)
  end.

Definition build_sources (b : AquaSourcePlanBuilder) (plan : RoutePlan) (context : B256) (snapshot : Snapshot) : result FillBuilderError (list SourceSwap) :=
  match plan_legs plan with [] => Err NoLegs | legs => sources_from b legs 0 context snapshot end.

(** ** UniswapX *)

Record UniswapXFillBuilder := mk_uniswapx_builder { uf_filler : Address; uf_sources : AquaSourcePlanBuilder }.

Definition uniswapx_context (intent : Intent) : B256 := keccak256 (signed_order_encode (mk_signed_order (int_raw intent) (int_signature intent))).

Definition uniswapx_build (b : UniswapXFillBuilder) (intent : Intent) (plan : RoutePlan) (snapshot : Snapshot) : result FillBuilderError PreparedFill :=
  let order := mk_signed_order (int_raw intent) (int_signature intent) in
  sources ← build_sources (uf_sources b) plan (uniswapx_context intent) snapshot;
  Ok (mk_prepared (uf_filler b) (fill_call order sources)).

(** ** ERC-7683 *)

Record Erc7683FillBuilder := mk_7683_builder { ef_settler : Address; ef_filler : Address; ef_payment_recipient : Address; ef_sources : AquaSourcePlanBuilder }.

Definition erc7683_context (b : Erc7683FillBuilder) (order : Solvent7683Order) : B256 :=
  keccak256 (words [ef_settler b; eip712_hash_struct order; ef_payment_recipient b]).

Definition erc7683_build (b : Erc7683FillBuilder) (intent : Intent) (plan : RoutePlan) (snapshot : Snapshot) : result FillBuilderError PreparedFill :=
  if negb (bool_decide (int_protocol intent = Erc7683)) then Err InvalidOrder
  else
    order ← ok_or (order7683_decode (int_raw intent)) InvalidOrder;
    if negb (o7_settler order =? ef_settler b) then Err InvalidOrder
    else
      sources ← build_sources (ef_sources b) plan (erc7683_context b order) snapshot;
      Ok (mk_prepared (ef_filler b) (fill_7683_call (int_raw intent) (int_signature intent) (sources_encode sources) (ef_payment_recipient b))).

(** ** The dispatcher *)

Record ProtocolFillBuilder := mk_protocol_builder { pf_uniswapx : UniswapXFillBuilder; pf_erc7683 : option Erc7683FillBuilder }.

Definition protocol_build (b : ProtocolFillBuilder) (intent : Intent) (plan : RoutePlan) (snapshot : Snapshot) : result FillBuilderError PreparedFill :=
  match int_protocol intent with
  | UniswapXV2 => uniswapx_build (pf_uniswapx b) intent plan snapshot
  | Erc7683 => match pf_erc7683 b with Some builder => erc7683_build builder intent plan snapshot | None => Err UnsupportedProtocol end
  end.

End builders.

(** ** Every source is a leg, and every leg is authorized once *)

Section authorized.
Context `{OrderWire} `{FillWire} (keccak256 : list Z → B256) (authorize : ExecutionAuthorization → option (list Z)).

(** The source that settles the leg at an index: its strategy is the leg's, behind the credential, and the policy signed
    exactly the leg's amounts. *)
Record settles_leg (b : AquaSourcePlanBuilder) (snapshot : Snapshot) (context : B256) (index : nat) (leg : RouteLeg) (s : SourceSwap) : Prop := {
  sl_strategy : ∃ m, strategies snapshot !! mk_strategy_key (leg_maker leg) (ab_app b) (leg_hash leg) = Some m ∧ fill_order_decode (program m) = Some (ss_order s);
  sl_maker : order_maker (ss_order s) = leg_maker leg;
  sl_credential : uses_taker_credential (order_data (ss_order s)) (ab_taker_credential b) = true;
  sl_signed : authorize (ss_authorization s) = Some (ss_signature s);
  sl_authorization : ss_authorization s =
    user_fill (user_fill_nonce keccak256 context leg index) context (leg_hash leg) (leg_maker leg) (leg_token_in leg) (leg_token_out leg) (leg_out leg) (leg_in leg)
}.

Lemma source_for_Ok b leg index context snapshot s :
  source_for keccak256 authorize b leg index context snapshot = Ok s → settles_leg b snapshot context index leg s.
Proof.
  unfold source_for. destruct (strategies snapshot !! _) as [m|] eqn:Hm; [|done]. cbn [ok_or mbind result_bind].
  destruct (fill_order_decode (program m)) as [o|] eqn:Ho; [|done]. cbn [ok_or mbind result_bind].
  destruct (negb _) eqn:H1; [done|]. destruct (negb _) eqn:H2 in |- *; [done|]. apply negb_false_iff in H1, H2. zbool.
  destruct (authorize _) as [sig|] eqn:Hs; [|done]. intros [= <-]. by constructor; cbn; eauto.
Qed.

Lemma sources_from_Ok b legs index context snapshot l :
  sources_from keccak256 authorize b legs index context snapshot = Ok l →
  length l = length legs ∧ ∀ i leg s, legs !! i = Some leg → l !! i = Some s → settles_leg b snapshot context (index + i) leg s.
Proof.
  revert index l. induction legs as [|leg legs IH]; intros index l; cbn [sources_from]; [by intros [= <-]|].
  destruct (source_for _ _ b leg index context snapshot) as [s|] eqn:Hs; [|done]. cbn [mbind result_bind].
  destruct (sources_from _ _ b legs (S index) context snapshot) as [ss|] eqn:Hss; [|done]. intros [= <-]. destruct (IH _ _ Hss) as [Hlen Hall].
  split; [cbn; by rewrite Hlen|]. intros [|i] leg' s' Hleg Hl; cbn in Hleg, Hl.
  - simplify_eq. rewrite Nat.add_0_r. by apply source_for_Ok.
  - rewrite Nat.add_succ_r. by apply (Hall i).
Qed.

(** Nonces of different positions differ. *)
Lemma user_fill_nonce_inj context leg leg' i j :
  (∀ l l', keccak256 l = keccak256 l' → l = l') → Z.of_nat i < 2 ^ 256 → Z.of_nat j < 2 ^ 256 →
  user_fill_nonce keccak256 context leg i = user_fill_nonce keccak256 context leg' j → i = j.
Proof.
  intros Hinj Hi Hj Heq%Hinj. unfold words in Heq. cbn [mbind list_bind] in Heq. rewrite !app_assoc, !app_nil_r in Heq.
  apply app_inj_2 in Heq as [_ Heq]; [|by rewrite !length_be_bytes].
  apply (f_equal of_be_bytes) in Heq. rewrite !be_bytes_round_trip in Heq by (change (256 ^ Z.of_nat 32) with (2 ^ 256); lia). lia.
Qed.

(** What a call for a plan holds: one source per leg, in the order of the plan, no authorization twice. *)
Definition settles_plan (b : AquaSourcePlanBuilder) (snapshot : Snapshot) (context : B256) (plan : RoutePlan) (sources : list SourceSwap) : Prop :=
  plan_legs plan ≠ [] ∧ length sources = length (plan_legs plan)
  ∧ (∀ i leg s, plan_legs plan !! i = Some leg → sources !! i = Some s → settles_leg b snapshot context i leg s)
  ∧ NoDup ((λ s, auth_nonce (ss_authorization s)) <$> sources)
  ∧ zsum (λ s, auth_amount_out (ss_authorization s)) sources = zsum leg_out (plan_legs plan)
  ∧ zsum (λ s, amount_in_limit (ss_authorization s)) sources = zsum leg_in (plan_legs plan).

Lemma aligned_sums b snapshot context legs sources index :
  length sources = length legs →
  (∀ i leg s, legs !! i = Some leg → sources !! i = Some s → settles_leg b snapshot context (index + i) leg s) →
  zsum (λ s, auth_amount_out (ss_authorization s)) sources = zsum leg_out legs
  ∧ zsum (λ s, amount_in_limit (ss_authorization s)) sources = zsum leg_in legs.
Proof.
  revert legs index. induction sources as [|s sources IH]; intros [|leg legs] index Hlen Hall; try done. injection Hlen as Hlen.
  destruct (IH legs (S index) Hlen) as [H1 H2]. { intros i leg' s' Hl Hs. rewrite Nat.add_succ_comm. by apply (Hall (S i)). }
  destruct (Hall 0%nat leg s) as [_ _ _ _ Ha]; [done..|]. rewrite !zsum_cons, Ha, H1, H2. done.
Qed.

Lemma build_sources_Ok b plan context snapshot sources :
  (∀ l l', keccak256 l = keccak256 l' → l = l') → Z.of_nat (length (plan_legs plan)) ≤ U64_MAX →
  build_sources keccak256 authorize b plan context snapshot = Ok sources → settles_plan b snapshot context plan sources.
Proof.
  intros Hinj Hlen. unfold build_sources. destruct (plan_legs plan) as [|leg legs] eqn:Hlegs; [done|]. rewrite <-Hlegs in *.
  intros (Hl & Hall)%sources_from_Ok. destruct (aligned_sums b snapshot context _ _ 0 Hl Hall) as [Ho Hi]. cbn in Hall.
  split_and!; [by rewrite Hlegs|done|done| |done|done]. apply NoDup_alt. intros i j x Hix Hjx.
  rewrite list_lookup_fmap in Hix. rewrite list_lookup_fmap in Hjx.
  destruct (sources !! i) as [s|] eqn:Hsi; [|done]. destruct (sources !! j) as [s'|] eqn:Hsj; [|done]. injection Hix as Hix. injection Hjx as Hjx. rewrite <-Hjx in Hix.
  pose proof (lookup_lt_Some _ _ _ Hsi) as Hbi. pose proof (lookup_lt_Some _ _ _ Hsj) as Hbj. rewrite Hl in Hbi, Hbj.
  destruct (lookup_lt_is_Some_2 _ _ Hbi) as [li Hli]. destruct (lookup_lt_is_Some_2 _ _ Hbj) as [lj Hlj].
  destruct (Hall i li s Hli Hsi) as [_ _ _ _ Hai]. destruct (Hall j lj s' Hlj Hsj) as [_ _ _ _ Haj]. rewrite Hai, Haj in Hix. cbn [auth_nonce user_fill] in Hix.
  unfold U64_MAX in Hlen. eapply user_fill_nonce_inj; [exact Hinj| | |exact Hix]; lia.
Qed.

(** C39: the call built for a routed order is sent to the filler of the order's own protocol and carries the order exactly as it
    was signed, with one source per leg of the plan, in order: each source is the leg's strategy behind the
    resolver's credential, under a signed authorization of exactly the leg's amounts; no two sources
    share a nonce, and together they deliver and spend the plan's totals. *)
Theorem fills_are_authorized_leg_by_leg b intent plan snapshot prepared :
  (∀ l l', keccak256 l = keccak256 l' → l = l') → Z.of_nat (length (plan_legs plan)) ≤ U64_MAX →
  protocol_build keccak256 authorize b intent plan snapshot = Ok prepared →
  match int_protocol intent with
  | UniswapXV2 =>
      pre_target prepared = uf_filler (pf_uniswapx b)
      ∧ ∃ sources, pre_calldata prepared = fill_call (mk_signed_order (int_raw intent) (int_signature intent)) sources
          ∧ settles_plan (uf_sources (pf_uniswapx b)) snapshot (uniswapx_context keccak256 intent) plan sources
  | Erc7683 =>
      ∃ builder order sources, pf_erc7683 b = Some builder ∧ order7683_decode (int_raw intent) = Some order ∧ o7_settler order = ef_settler builder
        ∧ pre_target prepared = ef_filler builder
        ∧ pre_calldata prepared = fill_7683_call (int_raw intent) (int_signature intent) (sources_encode sources) (ef_payment_recipient builder)
        ∧ settles_plan (ef_sources builder) snapshot (erc7683_context keccak256 builder order) plan sources
  end.
Proof.
  intros Hinj Hlen Hb. unfold protocol_build in Hb. destruct (int_protocol intent) eqn:Hp.
  - unfold uniswapx_build in Hb. destruct (build_sources _ _ _ _ _ _) as [sources|] eqn:Hs; [|done]. injection Hb as <-.
    split; [done|]. exists sources. split; [done|]. by apply build_sources_Ok.
  - destruct (pf_erc7683 b) as [builder|]; [|done]. unfold erc7683_build in Hb. rewrite bool_decide_true in Hb by done. cbn [negb] in Hb.
    destruct (order7683_decode (int_raw intent)) as [order|]; [|done]. cbn [ok_or mbind result_bind] in Hb.
    destruct (negb _) eqn:Hset; [done|]. apply negb_false_iff in Hset. zbool.
    destruct (build_sources _ _ _ _ _ _) as [sources|] eqn:Hs; [|done]. injection Hb as <-.
    exists builder, order, sources. do 5 (split; [done|]). by apply build_sources_Ok.
Qed.

End authorized.

(** ** A plan of one leg *)

Module FillDemo.

#[local] Instance demo_wire : OrderWire := {|
  v2_encode _ := []; v2_decode _ := None; cosigner_encode _ := []; order7683_encode _ := []; order7683_decode _ := None;
  permit2_separator _ _ := 0; eip712_hash_struct o := o7_nonce o; eip712_signing_hash p _ _ := pw_nonce p;
  OrderSignature := list Z; order_signature_from_raw l := Some l; order_signature_bytes l := l; order_signer s digest := head s
|}.

(** A program is its maker and its instructions. *)
#[local] Instance demo_fill_wire : FillWire := {|
  fill_order_decode l := match l with m :: data => Some (mk_order m 0 data) | [] => None end;
  signed_order_encode o := so_order o ++ so_sig o; sources_encode l := (λ s, auth_nonce (ss_authorization s)) <$> l;
  fill_call o l := so_order o ++ so_sig o ++ ((λ s, auth_nonce (ss_authorization s)) <$> l); fill_7683_call a b c d := a ++ b ++ c ++ [d]
|}.

Definition number_hash (l : list Z) : B256 := Zpos (countable.encode l).

Lemma number_hash_inj l l' : number_hash l = number_hash l' → l = l'.
Proof. intros [= Heq]. by apply (inj countable.encode) in Heq. Qed.

(** The credential is account 77; maker 1's strategy is behind it. *)
Definition protected_program : list Z := 1 :: 0x0e :: 20 :: be_bytes 20 77 ++ [9].

Definition shipped : Snapshot :=
  mk_snapshot {[ mk_strategy_key 1 50 7 := mk_strategy (mk_strategy_key 1 50 7) Unsupported ∅ true protected_program ]} ∅.

Definition demo_builder : ProtocolFillBuilder := mk_protocol_builder (mk_uniswapx_builder 60 (mk_source_builder 50 77)) None.

Definition demo_intent : Intent :=
  mk_intent 11 UniswapXV2 (mk_input 3 (Static 100)) None [mk_output 4 (Static 90) 5] 1000 None 21 1 [1; 2] [3; 27] 10.

Definition demo_plan : RoutePlan := mk_plan 11 [mk_leg 1 7 3 4 60 55; mk_leg 1 7 3 4 40 35] 0 0.

(** [fills_are_authorized_leg_by_leg] at a plan with two legs of one strategy *)
Lemma fills_are_authorized_leg_by_leg_witness :
  ∃ prepared, protocol_build number_hash (λ _, Some [9]) demo_builder demo_intent demo_plan shipped = Ok prepared
    ∧ pre_target prepared = 60
    ∧ ∃ sources, pre_calldata prepared = fill_call (mk_signed_order [1; 2] [3; 27]) sources
        ∧ settles_plan number_hash (λ _, Some [9]) (mk_source_builder 50 77) shipped (uniswapx_context number_hash demo_intent) demo_plan sources.
Proof.
  assert (Hb : ∃ prepared, protocol_build number_hash (λ _, Some [9]) demo_builder demo_intent demo_plan shipped = Ok prepared).
  { destruct (protocol_build _ _ _ _ _ _) as [prepared|e] eqn:He; [by exists prepared|]. vm_compute in He. discriminate. }
  destruct Hb as [prepared Hb]. exists prepared. split; [exact Hb|].
  exact (fills_are_authorized_leg_by_leg number_hash (λ _, Some [9]) demo_builder demo_intent demo_plan shipped prepared number_hash_inj ltac:(unfold U64_MAX; cbn; lia) Hb).
Defined.

End FillDemo.
