(* ===== verification/PublicFeed.v ===== *)
(** * The public order feed

    [crates/adapters/src/ingest/uniswapx/{live_feed,simulation,orders_api}.rs]: orders of the
    public book are simulated once against a batch of random makers and recorded; seeing an order
    again only moves the time it was last seen.

    The random generator is the class [FeedRng], decimal arithmetic the class [FeedDecimals]; the
    outcome of each statement comes from the database. *)

From stdpp Require Import strings.
From S2P Require Import Prelude Commands U256 Reservation LedgerStore Ratio CurveDecode Curves Depth Intent CrossAuthor OrderIntake.

#[local] Open Scope Z_scope.

(** ** Simulated makers *)

Definition MAKERS_PER_BATCH : nat := 8.
Definition FEED_BPS : Z := 10000.
Definition FEED_Q18 : Z := 10 ^ 18.
Definition MIN_LIQUIDITY_MULTIPLIER : Z := 50.
Definition MAX_LIQUIDITY_MULTIPLIER : Z := 500.
Definition MAX_PRICE_BIAS_BPS : Z := 12.
Definition MIN_CONCENTRATION_WIDTH_BPS : Z := 500.
Definition MAX_CONCENTRATION_WIDTH_BPS : Z := 2000.

Class FeedRng (R : Type) := { gen_bool : R → bool * R; gen_range : Z → Z → R → Z * R }.

Inductive CurveShape : Type := FullRangeShape | ConcentratedShape (width_bps : Z).

Record MakerShape := mk_shape { ms_curve : CurveShape; ms_price_bias : Z; ms_liquidity : Z }.

Record SimulatedBatch := mk_batch { sb_id : Z; sb_makers : list MakerShape }.

Section batches.
Context {R : Type} `{FeedRng R}.

Record BatchState := mk_batch_state { bs_rng : R; bs_next_id : Z; bs_ready : list SimulatedBatch }.

Definition next_shape (r : R) : MakerShape * R :=
  let '(full, r) := gen_bool r in
  let '(curve, r) := if full : bool then (FullRangeShape, r)
                     else let '(w, r) := gen_range MIN_CONCENTRATION_WIDTH_BPS MAX_CONCENTRATION_WIDTH_BPS r in (ConcentratedShape w, r) in
  let '(bias, r) := gen_range (- MAX_PRICE_BIAS_BPS) MAX_PRICE_BIAS_BPS r in
  let '(liquidity, r) := gen_range MIN_LIQUIDITY_MULTIPLIER MAX_LIQUIDITY_MULTIPLIER r in
  (mk_shape curve bias liquidity, r).

Fixpoint next_shapes (n : nat) (r : R) : list MakerShape * R :=
  match n with
  | O => ([], r)
  | S n => let '(s, r) := next_shape r in let '(l, r) := next_shapes n r in (s :: l, r)
  end.

Definition next_batch (s : BatchState) : SimulatedBatch * BatchState :=
  let '(makers, r) := next_shapes MAKERS_PER_BATCH (bs_rng s) in
  (mk_batch (bs_next_id s) makers, mk_batch_state r ((bs_next_id s + 1) mod 2 ^ 64) (bs_ready s)).

Definition push_batch (s : BatchState) : BatchState :=
  let '(b, s) := next_batch s in mk_batch_state (bs_rng s) (bs_next_id s) (bs_ready s ++ [b]).

(** One round of the loop for each batch that is missing. *)
Definition refill (target : nat) (s : BatchState) : BatchState := Nat.iter (target - length (bs_ready s)) push_batch s.

Definition pool_new (r : R) (ready_batches : nat) : BatchState := refill (Nat.max ready_batches 1) (mk_batch_state r 0 []).

Definition claim (ready_batches : nat) (s : BatchState) : SimulatedBatch * BatchState :=
  let '(batch, s) := match bs_ready s with
                     | b :: rest => (b, mk_batch_state (bs_rng s) (bs_next_id s) rest)
                     | [] => next_batch s
                     end in
  (batch, refill ready_batches s).

End batches.

Arguments BatchState : clear implicits.

(** ** A simulated quote *)

Record SimulatedQuoteRequest := mk_sim_request {
  sq_token_in : Address;
  sq_token_out : Address;
  sq_amount_in : U256;
  sq_input_decimals : Z;
  sq_output_decimals : Z;
  sq_market_rate : U256
}.

Record SimulatedQuote := mk_sim_quote { sq_batch : Z; sq_amount_out : U256; sq_makers : nat }.

Definition sim_mul_div (a b denominator : U256) : option U256 := ok (mul_div a b denominator).

Definition sim_pow10 (dec : Z) : option U256 := try_fold_opt (λ scale (_ : nat), checked_mul scale 10) 1 (seq 0 (Z.to_nat dec)).

Definition raw_market_rate (r : SimulatedQuoteRequest) : option U256 :=
  output_scale ← sim_pow10 (sq_output_decimals r);
  input_scale ← sim_pow10 (sq_input_decimals r);
  sim_mul_div (sq_market_rate r) output_scale input_scale.

Definition biased_rate (rate : U256) (bias : Z) : option U256 :=
  factor ← (if bias <? 0 then if Z.abs bias <=? FEED_BPS then Some (FEED_BPS - Z.abs bias) else None else Some (FEED_BPS + bias));
  sim_mul_div rate factor FEED_BPS.

Definition concentrated_bounds (r : SimulatedQuoteRequest) (rate : U256) (width_bps : Z) : option (U256 * U256) :=
  canonical ← (if sq_token_in r <? sq_token_out r then Some rate else sim_mul_div FEED_Q18 FEED_Q18 rate);
  scaled ← checked_mul canonical FEED_Q18;
  let anchor := Z.sqrt scaled in
  let width := FEED_BPS + width_bps in
  min ← sim_mul_div anchor FEED_BPS width;
  max ← sim_mul_div anchor width FEED_BPS;
  if negb (min =? 0) && (min <? max) then Some (min, max) else None.

Definition quote_maker (maker : MakerShape) (r : SimulatedQuoteRequest) (market_rate : U256) : option U256 :=
  rate ← biased_rate market_rate (ms_price_bias maker);
  reserve_in ← checked_mul (sq_amount_in r) (ms_liquidity maker);
  reserve_out ← sim_mul_div reserve_in rate FEED_Q18;
  if reserve_out =? 0 then None
  else
    match ms_curve maker with
    | FullRangeShape => ok (quote_exact_in (mk_xyc reserve_in reserve_out) (sq_amount_in r))
    | ConcentratedShape width_bps =>
        bounds ← concentrated_bounds r rate width_bps;
        ok (quote_exact_in (from_reserves_and_bounds (sq_token_in r) (sq_token_out r) reserve_in reserve_out bounds.1 bounds.2) (sq_amount_in r))
    end.

Definition simulated_quote (batch : SimulatedBatch) (r : SimulatedQuoteRequest) : option SimulatedQuote :=
  if (sq_token_in r =? sq_token_out r) || (sq_amount_in r =? 0) || (sq_market_rate r =? 0) then None
  else
    market_rate ← raw_market_rate r;
    amount_out ← try_fold_opt (λ best maker, amount_out ← quote_maker maker r market_rate; Some (Z.max best amount_out)) 0 (sb_makers batch);
    if amount_out =? 0 then None else Some (mk_sim_quote (sb_id batch) amount_out (length (sb_makers batch))).

(** ** The record *)

Record FeedRow := mk_feed_row {
  fr_chain : Z;
  fr_token_in : Address;
  fr_token_out : Address;
  fr_amount_in : U256;
  fr_required_out : U256;
  fr_market_rate : U256;
  fr_amount_out : U256;
  fr_batch : Z;
  fr_observed_at : Z;
  fr_last_seen_at : Z
}.

Inductive FeedStoreError : Type := FeedDatabase | FeedValue.

Record FeedState (R : Type) := mk_feed_state { fs_rows : gmap IntentId FeedRow; fs_outcomes : list bool; fs_batches : BatchState R }.
Arguments mk_feed_state {R}.
Arguments fs_rows {R}.
Arguments fs_outcomes {R}.
Arguments fs_batches {R}.

Abbreviation feed_cmd R := (cmd (FeedState R) FeedStoreError).

Definition feed_statement {R} : feed_cmd R unit := λ s,
  match fs_outcomes s with
  | [] => (Ok tt, s)
  | ok :: rest => ((if ok : bool then Ok tt else Err FeedDatabase), mk_feed_state (fs_rows s) rest (fs_batches s))
  end.

Definition feed_i64_of {R} (v : Z) : feed_cmd R Z := lift (if v <=? I64_MAX then Ok v else Err FeedValue).

Definition feed_contains {R} (h : IntentId) : feed_cmd R bool := _ ← feed_statement; gets (λ s, bool_decide (is_Some (fs_rows s !! h))).

Definition seen_again (at_ : Z) (row : FeedRow) : FeedRow :=
  mk_feed_row (fr_chain row) (fr_token_in row) (fr_token_out row) (fr_amount_in row) (fr_required_out row) (fr_market_rate row) (fr_amount_out row)
    (fr_batch row) (fr_observed_at row) at_.

Definition put_rows {R} (f : gmap IntentId FeedRow → gmap IntentId FeedRow) : feed_cmd R unit :=
  modify (λ s, mk_feed_state (f (fs_rows s)) (fs_outcomes s) (fs_batches s)).

Definition feed_touch {R} (h : IntentId) (at_ : Z) : feed_cmd R unit :=
  at_ ← feed_i64_of at_;
  _ ← feed_statement;
  put_rows (alter (seen_again at_) h).

(** The hash is the primary key. *)
Definition feed_insert {R} (h : IntentId) (row : FeedRow) : feed_cmd R unit :=
  _ ← feed_i64_of (fr_chain row);
  _ ← feed_i64_of (fr_batch row);
  _ ← feed_i64_of (fr_observed_at row);
  _ ← feed_statement;
  rows ← gets fs_rows;
  match rows !! h with Some _ => fail FeedDatabase | None => put_rows <[h := row]> end.

Record UniswapXFeedCursor := mk_feed_cursor { fc_last_seen_at : Z; fc_order_hash : IntentId }.

(** [ORDER BY last_seen_at DESC, order_hash DESC] *)
Definition feed_leb (a b : IntentId * FeedRow) : bool :=
  (fr_last_seen_at b.2 <? fr_last_seen_at a.2) || ((fr_last_seen_at a.2 =? fr_last_seen_at b.2) && (b.1 <=? a.1)).

Definition before (c : UniswapXFeedCursor) (p : IntentId * FeedRow) : bool :=
  (fr_last_seen_at p.2 <? fc_last_seen_at c) || ((fr_last_seen_at p.2 =? fc_last_seen_at c) && (p.1 <? fc_order_hash c)).

Definition feed_list {R} (cursor : option UniswapXFeedCursor) (limit : Z) : feed_cmd R (list (IntentId * FeedRow)) :=
  _ ← match cursor with Some c => feed_i64_of (fc_last_seen_at c) | None => mret 0 end;
  _ ← feed_statement;
  gets (λ s, take (Z.to_nat limit)
    (sort_stable feed_leb (List.filter (λ p, match cursor with Some c => before c p | None => true end) (entries (fs_rows s))))).

(** ** The worker *)

Class FeedDecimals (D : Type) := {
  fd_le_zero : D → bool;
  fd_checked_div : D → D → option D;
  fd_checked_mul : D → D → option D;
  fd_of_int : Z → D;
  (** truncation, and conversion where it fits 128 bits *)
  fd_trunc_u128 : D → option Z
}.

Record UniswapFeedAsset := mk_feed_asset { fa_source : Address; fa_symbol : string; fa_logo : option string; fa_decimals : Z }.

Section worker.
Context {R D : Type} `{FeedRng R} `{FeedDecimals D} `{OrderWire} (keccak256 : list Z → B256).
Context (assets : gmap Address UniswapFeedAsset) (prices : Address → option D) (ready_batches : nat).

Definition market_out_per_in (input output : D) : option U256 :=
  if fd_le_zero input || fd_le_zero output then None
  else
    quotient ← fd_checked_div input output;
    scaled ← fd_checked_mul quotient (fd_of_int FEED_Q18);
    price ← fd_trunc_u128 scaled;
    if price =? 0 then None else Some price.

(** What is known of an order before a batch is claimed for it. *)
Definition sim_request (intent : Intent) (at_ : Z) : option (IntentOutput * U256 * SimulatedQuoteRequest) :=
  match int_outputs intent with
  | [output] =>
      input_asset ← assets !! inp_token (int_input intent);
      output_asset ← assets !! out_token output;
      let amount_in := amount_at (inp_curve (int_input intent)) at_ in
      let required_out := amount_at (out_curve output) at_ in
      if (amount_in =? 0) || (required_out =? 0) then None
      else
        input_price ← prices (fa_source input_asset);
        output_price ← prices (fa_source output_asset);
        rate ← market_out_per_in input_price output_price;
        Some (output, required_out,
              mk_sim_request (fa_source input_asset) (fa_source output_asset) amount_in (fa_decimals input_asset) (fa_decimals output_asset) rate)
  | _ => None
  end.

Definition claim_batch : feed_cmd R SimulatedBatch := λ s,
  let '(b, bs) := claim ready_batches (fs_batches s) in (Ok b, mk_feed_state (fs_rows s) (fs_outcomes s) bs).

Definition simulate (intent : Intent) (at_ : Z) : feed_cmd R (option FeedRow) :=
  match sim_request intent at_ with
  | None => mret None
  | Some (output, required_out, request) =>
      batch ← claim_batch;
      mret (q ← simulated_quote batch request;
            Some (mk_feed_row (origin_chain intent) (inp_token (int_input intent)) (out_token output) (sq_amount_in request) required_out
                    (sq_market_rate request) (sq_amount_out q) (sq_batch q) at_ at_))
  end.

Definition observe_raw (raw : RawOrder) (at_ : Z) : feed_cmd R unit :=
  match v2_normalize keccak256 raw with
  | Err _ => mret tt
  | Ok intent =>
      known ← feed_contains (int_id intent);
      if known : bool then feed_touch (int_id intent) at_
      else
        row ← simulate intent at_;
        match row with Some row => feed_insert (int_id intent) row | None => mret tt end
  end.

(** [OrderRecord::raw]: the public record's hexadecimal texts. *)
Record OrderRecord := mk_order_record { or_encoded : string; or_signature : string }.

Definition record_raw (parse_bytes : string → option (list Z)) (r : OrderRecord) (at_ : Z) : option RawOrder :=
  payload ← parse_bytes (or_encoded r);
  signature ← parse_bytes (or_signature r);
  Some (mk_raw UniswapXV2 1 payload signature at_).

Definition observe (parse_bytes : string → option (list Z)) (r : OrderRecord) (at_ : Z) : feed_cmd R unit :=
  match record_raw parse_bytes r at_ with Some raw => observe_raw raw at_ | None => mret tt end.

End worker.

(** One record of an answer: when it was polled, and the prices cached then. *)
Record FeedSight (D : Type) := mk_sight { st_record : OrderRecord; st_at : Z; st_prices : Address → option D }.
Arguments mk_sight {D}.
Arguments st_record {D}.
Arguments st_at {D}.
Arguments st_prices {D}.

(** The polls of a worker, record by record; an order that could not be recorded is left for a later poll. *)
Definition feed_run {R D} `{FeedRng R} `{FeedDecimals D} `{OrderWire} (keccak256 : list Z → B256) (assets : gmap Address UniswapFeedAsset)
    (ready_batches : nat) (parse_bytes : string → option (list Z)) (seen : list (FeedSight D)) (s : FeedState R) : FeedState R :=
  foldl (λ s x, (observe keccak256 assets (st_prices x) ready_batches parse_bytes (st_record x) (st_at x) s).2) s seen.

(** * An order is simulated once

    Whatever statement fails, the row of an order is what was simulated the first time it could be
    recorded, under a batch of its own; seeing it again moves only the time it was last seen. *)

(** ** Batches *)

Section pool.
Context {R : Type} `{FeedRng R}.

(** The batches in the pool have the identifiers from [k] on, and the next one follows them. *)
Record pool_ok (k : Z) (s : BatchState R) : Prop := {
  pool_ids i b : bs_ready s !! i = Some b → sb_id b = k + Z.of_nat i;
  pool_next : bs_next_id s = k + Z.of_nat (length (bs_ready s))
}.

Lemma push_batch_ok k s :
  0 ≤ k → pool_ok k s → bs_next_id s + 1 < 2 ^ 64 → pool_ok k (push_batch s) ∧ length (bs_ready (push_batch s)) = S (length (bs_ready s)).
Proof.
  intros Hk [Hi Hn] Hb. unfold push_batch, next_batch. destruct (next_shapes _ _) as [makers r]. cbn [bs_ready bs_next_id bs_rng].
  split; [|rewrite length_app; cbn; lia]. constructor; cbn [bs_ready bs_next_id].
  - intros i b Hl. apply lookup_snoc_Some in Hl as [[_ Hl]|[-> <-]]; [by apply Hi|]. cbn. lia.
  - rewrite length_app, Z.mod_small by lia. cbn. lia.
Qed.

Lemma push_batches_ok k s n :
  0 ≤ k → pool_ok k s → k + Z.of_nat (length (bs_ready s) + n) < 2 ^ 64 →
  pool_ok k (Nat.iter n push_batch s) ∧ length (bs_ready (Nat.iter n push_batch s)) = (length (bs_ready s) + n)%nat.
Proof.
  intros Hk Hs Hb. induction n as [|n IH]; [by rewrite Nat.add_0_r|]. rewrite Nat.iter_succ.
  destruct IH as [Ho Hl]; [lia|]. destruct (push_batch_ok k _ Hk Ho) as [Ho' Hl']; [rewrite (pool_next _ _ Ho), Hl; lia|].
  split; [done|]. rewrite Hl', Hl. lia.
Qed.

Lemma refill_ok k s target :
  0 ≤ k → pool_ok k s → (length (bs_ready s) ≤ target)%nat → k + Z.of_nat target < 2 ^ 64 →
  pool_ok k (refill target s) ∧ length (bs_ready (refill target s)) = target.
Proof. intros Hk Hs Hl Hb. unfold refill. destruct (push_batches_ok k s (target - length (bs_ready s)) Hk Hs); [lia|]. split; [done|lia]. Qed.

Lemma claim_ok k s target :
  0 ≤ k → pool_ok k s → length (bs_ready s) = target → (1 ≤ target)%nat → k + 1 + Z.of_nat target < 2 ^ 64 →
  sb_id (claim target s).1 = k ∧ pool_ok (k + 1) (claim target s).2 ∧ length (bs_ready (claim target s).2) = target.
Proof.
  intros Hk [Hi Hn] Hl Ht Hb. unfold claim. destruct (bs_ready s) as [|b rest] eqn:Hr; [cbn in Hl; lia|].
  split; [cbn; specialize (Hi 0%nat b eq_refl); lia|]. cbn [fst snd]. apply refill_ok; [lia| |cbn in *; lia|lia].
  constructor; cbn [bs_ready bs_next_id].
  - intros i b' Hb'. specialize (Hi (S i) b' Hb'). lia.
  - cbn in Hn. lia.
Qed.

Lemma pool_new_ok r n : (1 ≤ n)%nat → Z.of_nat n < 2 ^ 64 → pool_ok 0 (pool_new r n) ∧ length (bs_ready (pool_new r n)) = n.
Proof.
  intros Hn Hb. unfold pool_new. rewrite Nat.max_l by lia. apply refill_ok; cbn; [lia| |lia|lia]. constructor; cbn; [by intros i b|lia].
Qed.

End pool.

(** ** What one record does *)

Section feed.
Context {R D : Type} `{FeedRng R} `{FeedDecimals D} `{OrderWire} (keccak256 : list Z → B256).
Context (assets : gmap Address UniswapFeedAsset) (ready : nat) (parse_bytes : string → option (list Z)).

(** The row is the simulation of that very order, as it stood when it was seen. *)
Definition simulated_at (x : FeedSight D) (h : IntentId) (row : FeedRow) : Prop :=
  ∃ raw i output, record_raw parse_bytes (st_record x) (st_at x) = Some raw ∧ v2_normalize keccak256 raw = Ok i ∧ int_id i = h
    ∧ int_outputs i = [output] ∧ fr_token_in row = inp_token (int_input i) ∧ fr_token_out row = out_token output
    ∧ fr_amount_in row = amount_at (inp_curve (int_input i)) (st_at x) ∧ fr_required_out row = amount_at (out_curve output) (st_at x)
    ∧ fr_amount_in row ≠ 0 ∧ fr_required_out row ≠ 0 ∧ fr_market_rate row ≠ 0 ∧ fr_amount_out row ≠ 0 ∧ fr_observed_at row = st_at x.

(** How the rows may move: not at all, by a new time on one of them, or by a new one. *)
Inductive rows_step (x : FeedSight D) (k : Z) (rows : gmap IntentId FeedRow) : gmap IntentId FeedRow → Z → Prop :=
| rows_same k' : k ≤ k' ≤ k + 1 → rows_step x k rows rows k'
| rows_seen h : rows_step x k rows (alter (seen_again (st_at x)) h rows) k
| rows_added h row : rows !! h = None → simulated_at x h row → fr_batch row = k → rows_step x k rows (<[h := row]> rows) (k + 1).

Definition feed_ok (k : Z) (s : FeedState R) : Prop := pool_ok k (fs_batches s) ∧ length (bs_ready (fs_batches s)) = ready.

Lemma market_rate_positive input output rate : market_out_per_in input output = Some rate → rate ≠ 0.
Proof.
  unfold market_out_per_in. destruct (_ || _); [done|]. destruct (fd_checked_div _ _); [|done]. cbn. destruct (fd_checked_mul _ _); [|done]. cbn.
  destruct (fd_trunc_u128 _) as [p|]; [|done]. cbn. destruct (p =? 0) eqn:E; [done|]. intros [= <-]. by zbool.
Qed.

Lemma simulated_quote_Some b r q : simulated_quote b r = Some q → sq_amount_out q ≠ 0 ∧ sq_batch q = sb_id b.
Proof.
  unfold simulated_quote. destruct (_ || _); [done|]. destruct (raw_market_rate r); [|done]. cbn [mbind option_bind].
  destruct (try_fold_opt _ _ _) as [out|]; [|done]. cbn [mbind option_bind]. destruct (out =? 0) eqn:E; [done|]. intros [= <-]. by zbool.
Qed.

Lemma sim_request_Some x i output required rq :
  sim_request assets (st_prices x) i (st_at x) = Some (output, required, rq) →
  int_outputs i = [output] ∧ sq_amount_in rq = amount_at (inp_curve (int_input i)) (st_at x) ∧ required = amount_at (out_curve output) (st_at x)
  ∧ sq_amount_in rq ≠ 0 ∧ required ≠ 0 ∧ sq_market_rate rq ≠ 0.
Proof.
  unfold sim_request. destruct (int_outputs i) as [|o [|]]; [done| |done]. destruct (assets !! inp_token (int_input i)) as [a|]; [|done]. cbn [mbind option_bind].
  destruct (assets !! out_token o) as [a'|]; [|done]. cbn [mbind option_bind]. destruct (_ || _) eqn:E; [done|]. apply orb_false_iff in E as [E1 E2]. zbool.
  destruct (st_prices x (fa_source a)) as [p|]; [|done]. cbn [mbind option_bind]. destruct (st_prices x (fa_source a')) as [p'|]; [|done]. cbn [mbind option_bind].
  destruct (market_out_per_in p p') as [rate|] eqn:Hr; [|done]. intros [= <- <- <-]. apply market_rate_positive in Hr. cbn. do 5 (split; [done|]). done.
Qed.

Lemma outcome_feed_statement {A} (c : unit → feed_cmd R A) (Q : result FeedStoreError A → FeedState R → Prop) s :
  (∀ o, outcome (c tt) Q (mk_feed_state (fs_rows s) o (fs_batches s))) → (∀ o, Q (Err FeedDatabase) (mk_feed_state (fs_rows s) o (fs_batches s))) →
  outcome (feed_statement ≫= c) Q s.
Proof.
  intros Hc He. destruct s as [rows o bs]. cbn [fs_rows fs_batches] in Hc, He. unfold outcome, mbind, cmd_bind, feed_statement. cbn [fs_outcomes fs_rows fs_batches].
  destruct o as [|[] o]; [apply (Hc [])|apply Hc|apply He].
Qed.

Lemma feed_touch_outcome h at_ (s : FeedState R) :
  outcome (feed_touch h at_) (λ _ s', fs_batches s' = fs_batches s ∧ (fs_rows s' = fs_rows s ∨ fs_rows s' = alter (seen_again at_) h (fs_rows s))) s.
Proof.
  unfold feed_touch, feed_i64_of. apply outcome_lift_bind. destruct (at_ <=? I64_MAX); [|by split; [|left]].
  apply outcome_feed_statement; intros o; cbn; split; auto.
Qed.

Lemma feed_insert_outcome h row (s : FeedState R) :
  outcome (feed_insert h row) (λ _ s', fs_batches s' = fs_batches s
    ∧ (fs_rows s' = fs_rows s ∨ (fs_rows s !! h = None ∧ fs_rows s' = <[h := row]> (fs_rows s)))) s.
Proof.
  unfold feed_insert, feed_i64_of. apply outcome_lift_bind. destruct (fr_chain row <=? I64_MAX); [|by split; [|left]].
  apply outcome_lift_bind. destruct (fr_batch row <=? I64_MAX); [|by split; [|left]].
  apply outcome_lift_bind. destruct (fr_observed_at row <=? I64_MAX); [|by split; [|left]].
  apply outcome_feed_statement; intros o; [|by split; [|left]]. apply outcome_gets. cbn [fs_rows].
  destruct (fs_rows s !! h) eqn:Hh; [by split; [|left]|]. split; [done|]. right. done.
Qed.

(** A simulation claims the next batch, or none. *)
Lemma simulate_outcome x i k s :
  0 ≤ k → (1 ≤ ready)%nat → k + 1 + Z.of_nat ready < 2 ^ 64 → feed_ok k s →
  outcome (simulate assets (st_prices x) ready i (st_at x)) (λ res s', fs_rows s' = fs_rows s ∧
    ∃ k', k ≤ k' ≤ k + 1 ∧ feed_ok k' s' ∧ ∀ row, res = Ok (Some row) →
      k' = k + 1 ∧ fr_batch row = k ∧ ∃ output, int_outputs i = [output] ∧ fr_token_in row = inp_token (int_input i) ∧ fr_token_out row = out_token output
        ∧ fr_amount_in row = amount_at (inp_curve (int_input i)) (st_at x) ∧ fr_required_out row = amount_at (out_curve output) (st_at x)
        ∧ fr_amount_in row ≠ 0 ∧ fr_required_out row ≠ 0 ∧ fr_market_rate row ≠ 0 ∧ fr_amount_out row ≠ 0 ∧ fr_observed_at row = st_at x) s.
Proof.
  intros Hk Hr Hb [Hp Hl]. unfold simulate. destruct (sim_request assets (st_prices x) i (st_at x)) as [[[output required] rq]|] eqn:Hrq.
  2:{ apply outcome_ret. split; [done|]. exists k. split; [lia|]. by split. }
  apply sim_request_Some in Hrq as (Ho & Hin & -> & Hin0 & Hreq0 & Hrate). destruct (claim_ok k _ ready Hk Hp Hl Hr Hb) as (Hid & Hp' & Hl').
  apply outcome_bind. unfold outcome, claim_batch. destruct (claim ready (fs_batches s)) as [b bs]. cbn [fst snd] in *. split; [done|].
  exists (k + 1). split; [lia|]. split; [by split|]. intros row [= Hrow]. split; [done|].
  destruct (simulated_quote b rq) as [q|] eqn:Hq; [|done]. injection Hrow as <-. apply simulated_quote_Some in Hq as [Hq Hqb]. cbn.
  split; [by rewrite Hqb|]. exists output. by rewrite <-Hin.
Qed.

Lemma observe_step x k s :
  0 ≤ k → (1 ≤ ready)%nat → k + 1 + Z.of_nat ready < 2 ^ 64 → feed_ok k s →
  outcome (observe keccak256 assets (st_prices x) ready parse_bytes (st_record x) (st_at x))
    (λ _ s', ∃ k', feed_ok k' s' ∧ rows_step x k (fs_rows s) (fs_rows s') k') s.
Proof.
  intros Hk Hr Hb Hs. assert (Hsame : ∀ s' : FeedState R, fs_rows s' = fs_rows s → fs_batches s' = fs_batches s →
    ∃ k', feed_ok k' s' ∧ rows_step x k (fs_rows s) (fs_rows s') k').
  { intros s' -> Hbs. exists k. split; [unfold feed_ok; by rewrite Hbs|]. apply rows_same. lia. }
  unfold observe. destruct (record_raw _ _ _) as [raw|] eqn:Hraw; [|apply outcome_ret; by apply Hsame].
  unfold observe_raw. destruct (v2_normalize keccak256 raw) as [i|] eqn:Hi; [|apply outcome_ret; by apply Hsame].
  apply outcome_bind. unfold feed_contains. apply outcome_feed_statement; intros o; [|by apply Hsame]. red. unfold gets. cbn [fst snd fs_rows].
  case_bool_decide as Hknown.
  - eapply outcome_mono; [apply feed_touch_outcome|]. cbn [fs_rows fs_batches]. intros res s' [Hbs [Hrows|Hrows]]; [by apply Hsame|].
    exists k. split; [unfold feed_ok; by rewrite Hbs|]. rewrite Hrows. constructor.
  - apply outcome_bind. eapply outcome_mono; [apply (simulate_outcome x i k); [done|done|done|exact Hs]|]. cbn [fs_rows].
    intros res s1 (Hrows & k' & Hk' & Hs1 & Hrow). destruct res as [[row|]|e].
    + destruct (Hrow row eq_refl) as (-> & Hbatch & output & Hfacts). eapply outcome_mono; [apply feed_insert_outcome|].
      rewrite Hrows. intros res s2 [Hbs [Hr2|[Hn Hr2]]]; exists (k + 1); (split; [unfold feed_ok; by rewrite Hbs|]); rewrite Hr2.
      * apply rows_same. lia.
      * apply rows_added; [done| |done]. exists raw, i, output. by destruct Hfacts as (?&?&?&?&?&?&?&?&?&?).
    + apply outcome_ret. exists k'. split; [done|]. rewrite Hrows. by apply rows_same.
    + exists k'. split; [done|]. rewrite Hrows. by apply rows_same.
Qed.

(** ** Runs *)

Lemma simulated_seen x h row at_ : simulated_at x h (seen_again at_ row) ↔ simulated_at x h row.
Proof. done. Qed.

Record run_ok (seen : list (FeedSight D)) (k : Z) (s : FeedState R) : Prop := {
  run_pool : feed_ok k s;
  run_count : 0 ≤ k ≤ Z.of_nat (length seen);
  run_rows h row : fs_rows s !! h = Some row → (∃ x, x ∈ seen ∧ simulated_at x h row) ∧ 0 ≤ fr_batch row < k;
  run_batches h h' row row' : fs_rows s !! h = Some row → fs_rows s !! h' = Some row' → fr_batch row = fr_batch row' → h = h'
}.

Lemma alter_seen_lookup (rows : gmap IntentId FeedRow) h at_ h' row :
  alter (seen_again at_) h rows !! h' = Some row → ∃ row0, rows !! h' = Some row0 ∧ (row = row0 ∨ row = seen_again at_ row0).
Proof.
  destruct (decide (h = h')) as [<-|]; [|rewrite lookup_alter_ne by done; eauto]. rewrite lookup_alter_eq.
  destruct (rows !! h) as [row0|]; [|done]. intros [= <-]. eauto.
Qed.

Lemma run_step seen x k k' s s' : run_ok seen k s → feed_ok k' s' → rows_step x k (fs_rows s) (fs_rows s') k' → run_ok (seen ++ [x]) k' s'.
Proof.
  intros [Hp Hc Hr Hb] Hp' Hstep. remember (fs_rows s') as rows' eqn:Hrows'. assert (Hlen : length (seen ++ [x]) = S (length seen)) by (rewrite length_app; cbn; lia).
  destruct Hstep as [k' Hk'|h|h row Hnew Hsim Hbatch]; constructor; rewrite <-?Hrows', ?Hlen; try done; try lia.
  - intros h row Hrow. destruct (Hr h row Hrow) as [(y & Hy & Hsim) ?]. split; [exists y; set_solver|lia].
  - intros h' row Hrow. apply alter_seen_lookup in Hrow as (row0 & Hrow0 & Hor). destruct (Hr h' row0 Hrow0) as [(y & Hy & Hsim) ?].
    split; [exists y; split; [set_solver|]|]; by destruct Hor as [->| ->].
  - intros h1 h2 row row' (row0 & Ha & Hor1)%alter_seen_lookup (row0' & Hb2 & Hor2)%alter_seen_lookup Heq. apply (Hb h1 h2 row0 row0' Ha Hb2).
    by destruct Hor1 as [->| ->], Hor2 as [->| ->].
  - intros h' row' [[<- <-]|[Hne Hrow]]%lookup_insert_Some; [split; [exists x; set_solver|lia]|].
    destruct (Hr h' row' Hrow) as [(y & Hy & Hsim') ?]. split; [exists y; set_solver|lia].
  - intros h1 h2 row1 row2 [[<- <-]|[Hne1 Ha]]%lookup_insert_Some [[<- <-]|[Hne2 Hb2]]%lookup_insert_Some Heq; [done| | |by apply (Hb h1 h2 row1 row2)].
    + destruct (Hr _ _ Hb2) as [_ ?]. lia.
    + destruct (Hr _ _ Ha) as [_ ?]. lia.
Qed.

Definition feed_start (r : R) (o : list bool) : FeedState R := mk_feed_state ∅ o (pool_new r ready).

Abbreviation feed_from seen s := (feed_run keccak256 assets ready parse_bytes seen s).

Lemma feed_from_app seen more s : feed_from (seen ++ more) s = feed_from more (feed_from seen s).
Proof. unfold feed_run. by rewrite foldl_app. Qed.

Lemma run_reaches r o seen :
  (1 ≤ ready)%nat → Z.of_nat (length seen) + Z.of_nat ready < 2 ^ 64 → ∃ k, run_ok seen k (feed_from seen (feed_start r o)).
Proof.
  intros Hr. induction seen as [|x seen IH] using rev_ind; intros Hb.
  - exists 0. destruct (pool_new_ok r ready) as [Hp Hl]; [done|cbn in Hb; lia|]. constructor; cbn; [done|lia|..]; by intros *; rewrite lookup_empty.
  - rewrite length_app in Hb. cbn in Hb. destruct IH as [k Hk]; [lia|]. rewrite feed_from_app. set (s := feed_from seen (feed_start r o)) in *.
    pose proof (run_count _ _ _ Hk). destruct (observe_step x k s) as (k' & Hp' & Hstep); [lia|done|lia|apply Hk|]. exists k'. by apply (run_step seen x k k' s).
Qed.

(** A row stays, but for when it was last seen. *)
Lemma rows_step_keeps x k rows rows' k' h row : rows_step x k rows rows' k' → rows !! h = Some row → ∃ at_, rows' !! h = Some (seen_again at_ row).
Proof.
  assert (Hself : seen_again (fr_last_seen_at row) row = row) by (by destruct row).
  destruct 1 as [k' _|h'|h' row' Hnew _ _]; intros Hrow.
  - exists (fr_last_seen_at row). by rewrite Hself.
  - destruct (decide (h' = h)) as [->|]; [exists (st_at x); by rewrite lookup_alter_eq, Hrow|exists (fr_last_seen_at row); by rewrite lookup_alter_ne, Hself].
  - exists (fr_last_seen_at row). rewrite lookup_insert_ne, Hself; [done|]. intros ->. congruence.
Qed.

Lemma run_keeps r o seen more h row :
  (1 ≤ ready)%nat → Z.of_nat (length (seen ++ more)) + Z.of_nat ready < 2 ^ 64 →
  fs_rows (feed_from seen (feed_start r o)) !! h = Some row → ∃ at_, fs_rows (feed_from (seen ++ more) (feed_start r o)) !! h = Some (seen_again at_ row).
Proof.
  intros Hr. induction more as [|x more IH] using rev_ind; intros Hb Hrow.
  - exists (fr_last_seen_at row). rewrite app_nil_r, Hrow. by destruct row.
  - rewrite app_assoc, length_app in Hb. assert (Hb' : Z.of_nat (length (seen ++ more)) + 1 + Z.of_nat ready < 2 ^ 64) by (cbn [length] in Hb; lia).
    destruct IH as [at_ Hat]; [lia|done|]. rewrite app_assoc, feed_from_app.
    destruct (run_reaches r o (seen ++ more) Hr) as [k Hk]; [lia|]. set (s := feed_from (seen ++ more) (feed_start r o)) in *.
    pose proof (run_count _ _ _ Hk) as Hc. destruct (observe_step x k s) as (k' & _ & Hstep); [lia|done|lia|apply Hk|].
    destruct (rows_step_keeps _ _ _ _ _ _ _ Hstep Hat) as [at' Hat']. exists at'. exact Hat'.
Qed.

(** whatever the public book answers and whichever statements fail, every recorded order is simulated once: its row is the simulation
    of that very order as it stood at one sight of it, with positive amounts, under a batch of its own, and no
    later sight changes anything in it but the time it was last seen. *)
Theorem first_simulation_is_kept r outcomes seen more :
  (1 ≤ ready)%nat → Z.of_nat (length (seen ++ more)) + Z.of_nat ready < 2 ^ 64 →
  let s := feed_from seen (feed_start r outcomes) in
  (∀ h row, fs_rows s !! h = Some row →
     (∃ x, x ∈ seen ∧ simulated_at x h row) ∧ ∃ at_, fs_rows (feed_from (seen ++ more) (feed_start r outcomes)) !! h = Some (seen_again at_ row))
  ∧ ∀ h h' row row', fs_rows s !! h = Some row → fs_rows s !! h' = Some row' → fr_batch row = fr_batch row' → h = h'.
Proof.
  intros Hr Hb s. destruct (run_reaches r outcomes seen Hr) as [k Hk]; [rewrite length_app in Hb; lia|]. split; [|apply (run_batches _ _ _ Hk)].
  intros h row Hrow. split; [by apply (run_rows _ _ _ Hk)|by apply run_keeps].
Qed.

End feed.

(** ** An order seen twice *)

Module FeedDemo.

#[local] Existing Instance IntakeDemo.number_wire.

(** A generator that draws the least value. *)
#[local] Instance least_rng : FeedRng unit := {| gen_bool r := (true, r); gen_range lo hi r := (lo, r) |}.

#[local] Instance whole_feed : FeedDecimals Z := {|
  fd_le_zero x := x <=? 0; fd_checked_div a b := Some (a / b); fd_checked_mul a b := Some (a * b); fd_of_int x := x; fd_trunc_u128 x := Some x |}.

Definition public_order : V2DutchOrder :=
  mk_v2_order (mk_order_info 21 5 1 2000 0 []) 9 (mk_dutch_input 3 500 500) [mk_dutch_output 4 1000 1000 5] (mk_cosigner_data 100 160 0 0 0 [0]) [].

Definition public_bytes (s : string) : option (list Z) := Some (v2_encode public_order).

Definition feed_assets : gmap Address UniswapFeedAsset :=
  list_to_map [(3, mk_feed_asset 3 "ABC" None 6); (4, mk_feed_asset 4 "USDC" None 6)].

Definition sight (at_ : Z) : FeedSight Z := mk_sight (mk_order_record EmptyString EmptyString) at_ (λ t, if t =? 3 then Some 4 else Some 2).

Definition once : FeedState unit := feed_run IntakeDemo.hash feed_assets 2 public_bytes [sight 100] (feed_start 2 tt []).

Definition public_hash : IntentId := order_hash IntakeDemo.hash public_order.

(** [first_simulation_is_kept] at an order seen at 100 and again at 130 *)
Lemma first_simulation_is_kept_witness :
  ∃ row, fs_rows once !! public_hash = Some row ∧ fr_observed_at row = 100 ∧ fr_batch row = 0 ∧ fr_amount_in row = 500
    ∧ ∃ at_, fs_rows (feed_run IntakeDemo.hash feed_assets 2 public_bytes [sight 100; sight 130] (feed_start 2 tt [])) !! public_hash = Some (seen_again at_ row).
Proof.
  eexists. assert (Hrow : fs_rows once !! public_hash = Some _) by (vm_compute; reflexivity). split; [exact Hrow|].
  split; [reflexivity|]. split; [reflexivity|]. split; [reflexivity|].
  exact (proj2 (proj1 (first_simulation_is_kept IntakeDemo.hash feed_assets 2 public_bytes tt [] [sight 100] [sight 130] ltac:(lia) ltac:(cbn; lia))
    public_hash _ Hrow)).
Defined.

End FeedDemo.
